(* ===== verification/_CoqProject ===== *)
-Q . S2P
Prelude.v
CommonData.v
Rlp.v
TrieCommon.v
Instruction.v
EVMSchedule.v
Words.v
ExtVMFace.v
LegacyVM.v
LegacyVMJumps.v
LegacyVMLogic.v
LegacyVMSafety.v
LegacyVMClaims.v
LegacyVMMemory.v
ChainParams.v
Transaction.v
TransactionClaims.v
LruCache.v
TransactionQueue.v
TransactionQueueInv.v
TransactionQueueClaims.v
State.v
StateInv.v
StateRollback.v
StateClaims.v
StateCommit.v
Executive.v
ExecutiveInv.v
ExecutiveFrames.v
ExecutiveGo.v
ExecutiveTx.v
ExecutiveClaims.v
LevelDb.v
BatchedDb.v
OverlayDb.v
OverlayDbInv.v
OverlayDbClaims.v
StateDb.v
RotatingDb.v
RotatingDbInv.v
RotatingDbClaims.v
ChainStore.v
LogFilter.v
BloomIndex.v
RlpCodec.v
Receipt.v
Logs.v
StateExecute.v
BlockSync.v
BlockSyncClaims.v
PartialReceipts.v
BlockChain.v
BlockChainInv.v
BlockChainInsert.v
BlockChainCommit.v
BlockChainRotate.v
BlockChainOpen.v
BlockChainClaims.v
Precompiled.v
FileStorage.v
PrecompiledConfig.v
TrieHash.v
BlockHeader.v
BlockQueue.v
BlockQueueClaims.v
Wildcard.v
Unddos.v
UnddosClaims.v
SnapshotVote.v
SnapshotVoteClaims.v
