(* ===== verification/Prelude.v ===== *)
(** * A verification development of skaled

    skaled is the SKALE node: an Ethereum-compatible chain whose blocks come from a consensus library.  This
    library models the core of the node as executable definitions and proves what makes it correct.

    ** The program and the files that model it

    The sources are under src/.  A transaction arrives as RLP bytes, waits in a queue, is proposed to
    consensus, comes back in a block, is executed by the EVM on the state, and leaves a receipt and logs; the
    state and the chain live in LevelDB databases.  The files follow this path from the bottom up.

    - Bytes.  [Prelude.v]: results, record update, monads, fixed-width integers, lists, tactics and hint databases.
      [CommonData.v]: libdevcore/CommonData.h, .cpp (hex, big-endian integers).  [Rlp.v]: libdevcore/RLP.h, .cpp,
      vector_ref.h, the reader with its strictness flags and the writer.  [RlpCodec.v]: the conversions of RLP.h for
      records, and the interface between a record and its encoding.  [TrieCommon.v]: libdevcore/TrieCommon.h, .cpp.
    - The virtual machine.  [Instruction.v] and [EVMSchedule.v]: libevm/Instruction.h, .cpp, LegacyVMConfig.h,
      libethcore/EVMSchedule.h.  [Words.v]: the arithmetic of the cases of LegacyVM.cpp.  [ExtVMFace.v]: libevm/ExtVMFace.h,
      the environment of a machine as an interface with laws.  [LegacyVM.v]: LegacyVM.h, .cpp, LegacyVMCalls.cpp,
      LegacyVMOpt.cpp, one definition for each case.  [LegacyVMJumps.v], [LegacyVMLogic.v], [LegacyVMSafety.v],
      [LegacyVMClaims.v], [LegacyVMMemory.v]: its program logic and theorems.
    - Parameters and transactions.  [ChainParams.v]: libethereum/SchainPatch.cpp, libethcore/ChainOperationParams.h, .cpp.
      [Transaction.v], [TransactionClaims.v]: libethcore/TransactionBase.h, .cpp, libethereum/Transaction.h, .cpp.
    - The queue.  [LruCache.v]: libdevcore/LruCache.h.  [TransactionQueue.v], [TransactionQueueInv.v],
      [TransactionQueueClaims.v]: libethereum/TransactionQueue.h, .cpp.
    - The state.  [State.v], [StateInv.v], [StateRollback.v], [StateClaims.v], [StateCommit.v]: libskale/State.h, .cpp and
      libethereum/Account.h, .cpp: accounts in a cache over the logical content of the database, with the change log.
    - Execution.  [Executive.v], [ExecutiveInv.v], [ExecutiveFrames.v], [ExecutiveGo.v], [ExecutiveTx.v],
      [ExecutiveClaims.v]: libethereum/Executive.h, .cpp, ExtVM.h, .cpp, libethcore/SealEngine.cpp.  The executive gives the
      machine an instance of the interface of ExtVMFace.v on the state, and proves the laws.
    - The databases.  [LevelDb.v]: libdevcore/db.h, LevelDB.cpp, SplitDB.cpp.  [BatchedDb.v]: libbatched-io/batched_db.h, .cpp.
      [OverlayDb.v], [OverlayDbInv.v], [OverlayDbClaims.v]: libskale/OverlayDB.h, .cpp.  [StateDb.v] joins State::commit with the
      overlay.  [RotatingDb.v], [RotatingDbInv.v], [RotatingDbClaims.v]: libbatched-io/batched_rotating_db_io.h, .cpp and
      libdevcore/ManuallyRotatingLevelDB.h, .cpp.
    - Logs and receipts.  [LogFilter.v]: libdevcore/FixedHash.h (blooms), libethcore/LogEntry.h, .cpp, libethereum/LogFilter.h,
      .cpp.  [BloomIndex.v]: the index of blooms of libethereum/BlockChain.h, .cpp.  [Receipt.v]: libethereum/TransactionReceipt.h,
      .cpp and BlockDetails.h, .cpp.  [Logs.v]: the query of libethereum/ClientBase.cpp.
    - Blocks.  [StateExecute.v]: State::execute and the reasons of reverts (libskutils/src/eth_utils.cpp).  [BlockSync.v],
      [BlockSyncClaims.v]: Block::execute and syncEveryone, Client::importTransactionsAsBlock with the recovery of a
      block that a crash interrupted.  [PartialReceipts.v]: the receipts of a block in progress, as bytes in the overlay.
    - The stored chain.  [ChainStore.v]: what the chain relies on in the batched rotating database, as a class with laws and its
      instance.  [BlockChain.v]: the caches, insertion with rotation, opening and garbage collection of
      libethereum/BlockChain.h, .cpp.  [BlockChainInv.v], [BlockChainInsert.v], [BlockChainCommit.v], [BlockChainRotate.v],
      [BlockChainOpen.v], [BlockChainClaims.v]: the agreement of caches and database, what an insertion writes, a stop at any
      moment of it, and what the chain answers.
    - Headers.  [TrieHash.v]: libdevcore/TrieHash.h, .cpp, the roots of Merkle-Patricia trees.  [BlockHeader.v]: libethcore/BlockHeader.h, .cpp,
      SealEngineFace::verify and the checks of BlockChain::verifyBlock before the transactions.
    - The block queue.  [BlockQueue.v]: libethereum/BlockQueue.h, .cpp, with taking and finishing a verification as steps of their own.
      [BlockQueueClaims.v]: the steps of the queue beside the chain, the invariant and the order of what is drained.
    - Precompiled contracts.  [Precompiled.v], [FileStorage.v], [PrecompiledConfig.v]: libethereum/Precompiled.cpp and
      libskale/OverlayFS.h, .cpp: the contracts that compute, the file storage with its overlay and the execution of the queued
      operations (files of the system are a parameter), and the contracts that read the configuration.
    - Limits.  [Wildcard.v]: wildcmp of libskutils/src/utils.cpp.  [Unddos.v], [UnddosClaims.v]: libskutils/src/unddos.cpp, unddos.h, the limits on calls and
      connections of the servers.
    - Snapshots.  [SnapshotVote.v], [SnapshotVoteClaims.v]: libskale/SnapshotHashAgent.h, .cpp and the nodes of AmsterdamFixPatch.cpp.

    ** How the code is translated

    A class is a record of its members; a member function that changes the object is a function from state to state,
    in a monad with exceptions where the code throws ([MM] for the machine, [SM] for the state, [XM] for the
    executive).  Machine integers are [Z] with the wrap-around written out ([u32], [u64], [u256], [wrap]).  Undefined
    behaviour (a read outside of a buffer, a dangling iterator, a failed assertion) is an outcome of its own, so that
    theorems can exclude it or exhibit it.  Unordered containers are finite maps; where the order of iteration matters
    it is a parameter.  What is not among the sources is a parameter with the laws its documentation gives: the hash
    functions and public-key recovery ([StateParams], [ExecParams]), the precompiled contracts for the executive, LevelDB
    ([LevelDBLib], [LevelDBSpec]), libBLS ([Bls]), the files of the system ([FileSystem], [FileSystemLaws], [Paths]), SHA-256 ([Sha256]), the configuration file ([ConfigView]), the text of Boost's integers ([S256Text], [S256TextSpec]).  Each is instantiated by a concrete
    function in the witnesses.

    ** What the theorems show

    - The machine always ends, without an access outside of its stack, memory, code, call data or return data, and never leaves more
      gas than it got; where the environment ends fatally (a std::length_error or std::runtime_error), so does the machine; jumps reach exactly the instructions JUMPDEST; static calls change nothing; the cost of memory is exact.
    - Calls, creations and failed transactions that come back are atomic on the state (the fatal ends are the two above; precompiled contracts undo
      nothing); the environment on the state keeps the laws that
      the machine's safety is proved from; fees add up, and verified transactions can pay, unless the cost wraps.
    - Rollback restores the state after any logged operations; commit persists it, through the overlay and a batch that is accepted at
      once, to the database; the storage of destroyed contracts is cleared.
    - A block that a crash interrupts any number of times is imported as if nothing had happened; a rotation of the block
      database can be interrupted anywhere; receipts are kept and read back.
    - An inserted block is served from then on, with what it stores beside itself; a stop at any moment of an insertion leaves a
      database that opens with the old or the new chain; the garbage collection of the caches is invisible, but for stale
      addresses of transactions.
    - The root of a list of transactions is the hash of its Merkle-Patricia tree; headers are read back as they were written; a header is accepted
      exactly under the conditions that the theorem lists; the hash of an accepted block identifies its header, transactions and uncles, unless hashes
      collide, but not RLP items behind them.
    - modexp is the modular power, or fails an assertion, for operands of 2^61 bytes or more; the file storage queues exactly the operations of the
      calls, in their order, and gives back what was uploaded; the configuration is
      readable below its open paths only.
    - The transaction queue is consistent after every sequence of operations that is defined; the one that is not is the listing that sets
      categories; the other lists transactions in nonce order.
    - The block queue gives blocks behind their parents, whatever order they came in and however the verification is interleaved, and keeps its
      counts, as long as no block in it is bad or has a bad parent; otherwise it condemns the wrong ones.  Retrying all unknown blocks keeps the counts, not the order.
    - The patterns of the rules of origins match what they mean, and connections are counted exactly; the sampled count of calls does not see a flood, and
      a ban is forgotten when the origin is silent.
    - A vote for a snapshot that succeeds has two thirds of the nodes behind it, and two votes agree unless a third of the nodes give different answers.
    - A query of logs is a scan: neither the index of blooms nor the patterns of a filter hide an entry; the exception is an entry whose topics
      end where the filter has more, past whose end the code reads.
    - Encodings round-trip: RLP, transactions, receipts and the records of the chain, hex and hex-prefix.
    - Where the code does something else than it means to, the theorem says what it does (revert reasons, retried commits,
      skipped transactions, wrapped costs); the manifest lists these as findings.

    ** Fuel and bounds

    [exec] runs with fuel 2 * gas + 4: every instruction but two costs gas, and those end the run or are followed by one that
    does; the theorem shows that this is enough.  Calls nest at most [maxLevels] = 1026 executives deep, above the depth limit of
    1024.  The reader of RLP lists has the length of the data as fuel, the iteration over the combinations of a filter their number, the
    loops of the queues the number of their elements (and one more for the rounds of [updateBad], [badLoop_ends]), the matcher of patterns a product of the two lengths, which [wildcmp_is_match] shows to be enough, the walk of a trie root the length of the longest key, hashing in parts one part for every entry and one more, the search for
    archives one more than their number.  A commit of the overlay has the ten tries of the code.  The theorems on rotation need
    at least three pieces (the program uses five).  Executions assume that block numbers, nonces and balances stay in the
    ranges that [params_ok] and [tx_fits] state, and that accounts have no initial funds.

    ** Not modelled

    Threads and locks (each public operation is one step, and in the block queue each critical section), logging, tracing, cryptography and curves (parameters), the place of the
    file storage in a call of the executive, the trie over a database (TrieDB.h, which only debug output and tests use), sealing and foreign blocks, the
    consensus library (a submodule), making and hashing snapshots in the file system, the historic state of archive nodes, JSON (also of settings), JSON-RPC and the
    network.  The copy of a state between two transactions of a block is modelled as loaded from the database: the cached
    accounts that do not exist are dropped. *)

From Stdlib Require Import ZArith Lia Bool.
From stdpp Require Import base list list_numbers gmap sorting.
Open Scope Z_scope.

(** ** Fallible computations *)

Inductive result (E A : Type) : Type :=
| Ok (a : A)
| Err (e : E).
Arguments Ok {E A} _.
Arguments Err {E A} _.

Definition rbind {E A B} (m : result E A) (k : A -> result E B) : result E B :=
  match m with Ok a => k a | Err e => Err e end.

Declare Scope skaled_scope.
Delimit Scope skaled_scope with skaled.
Notation "'let?' x := m 'in' k" := (rbind m (fun x => k))
  (at level 10, x name, m at level 100, k at level 200) : skaled_scope.
Notation "'guard?' b 'else' e 'in' k" := (if b then k else Err e)
  (at level 10, b at level 100, e at level 9, k at level 200) : skaled_scope.
Open Scope skaled_scope.

Definition is_ok {E A} (r : result E A) : bool :=
  match r with Ok _ => true | Err _ => false end.

Lemma rbind_ok {E A B} (m : result E A) (k : A -> result E B) b :
  rbind m k = Ok b <-> exists a, m = Ok a /\ k a = Ok b.
Proof. destruct m; simpl; naive_solver. Qed.

Lemma rbind_assoc {E A B C} (m : result E A) (f : A -> result E B) (g : B -> result E C) :
  rbind (rbind m f) g = rbind m (fun a => rbind (f a) g).
Proof. by destruct m. Qed.

(** Folding a fallible step over a list, first element first. *)
Fixpoint rfold {E A B} (f : A -> B -> result E A) (a : A) (l : list B) : result E A :=
  match l with
  | [] => Ok a
  | b :: l' => rbind (f a b) (fun a' => rfold f a' l')
  end.

(** ** Functional record update

    [r <| f := v |>] is the record [r] with field [f] set to [v].  A record type opts in with
    an [Expandable] instance (its eta expansion); the setter of a field is derived from it. *)
Class Expandable (R : Type) := expand : R -> R.
Class SetField {R T : Type} (proj : R -> T) := set_field : T -> R -> R.
Arguments set_field {R T} proj {_} v r.
Ltac derive_set_field :=
  match goal with
  | |- @SetField ?R ?T ?proj =>
      let v := fresh "v" in let r := fresh "r" in
      intros v r;
      let t := eval hnf in (expand (R := R) r) in
      let t := eval pattern (proj r) in t in
      match t with
      | ?f _ => let u := eval cbv beta in (f v) in lazymatch u with context [v] => exact u end
      end
  end.
#[export] Hint Extern 1 (SetField _) => derive_set_field : typeclass_instances.
Notation "r <| p := v |>" := (set_field p v r)
  (at level 1, left associativity, p at level 9, v at level 200, format "r  <| p  :=  v |>").

(** ** Machine-width integers, kept as [Z] in range *)

Definition wrap (w : Z) (z : Z) : Z := z mod 2 ^ w.
Abbreviation u8 := (wrap 8).
Abbreviation u32 := (wrap 32).
Abbreviation u64 := (wrap 64).
Abbreviation u256 := (wrap 256).

(** A signed 64-bit integer, in two's complement. *)
Definition i64 (z : Z) : Z := wrap 64 (z + 2 ^ 63) - 2 ^ 63.

Lemma wrap_range w z : 0 <= w -> 0 <= wrap w z < 2 ^ w.
Proof. intros. unfold wrap. apply Z.mod_pos_bound. lia. Qed.

Lemma wrap_small w z : 0 <= z < 2 ^ w -> wrap w z = z.
Proof. apply Z.mod_small. Qed.
Lemma i64_small z : - 2 ^ 63 <= z < 2 ^ 63 -> i64 z = z.
Proof. intros H. unfold i64. rewrite wrap_small by lia. lia. Qed.

(** ** Lists indexed by [Z]; [lenZ] is [size()] *)

Definition lenZ {A} (l : list A) : Z := Z.of_nat (length l).
Definition nthZ (l : list Z) (i : Z) : Z := nth (Z.to_nat i) l 0.
Definition takeZ {A} (n : Z) (l : list A) : list A := take (Z.to_nat n) l.
Definition dropZ {A} (n : Z) (l : list A) : list A := drop (Z.to_nat n) l.

(** A byte is an integer in [0, 256); a byte string is a list of them. *)
Definition is_byte (b : Z) : Prop := 0 <= b < 256.
Definition bytes_ok (l : list Z) : Prop := Forall is_byte l.

#[export] Instance is_byte_dec b : Decision (is_byte b).
Proof. unfold is_byte. apply _. Defined.
#[export] Instance bytes_ok_dec l : Decision (bytes_ok l).
Proof. unfold bytes_ok. apply _. Defined.

Create HintDb skaled.

Lemma lenZ_nil {A} : lenZ (@nil A) = 0.
Proof. done. Qed.
Lemma lenZ_cons {A} (x : A) l : lenZ (x :: l) = 1 + lenZ l.
Proof. unfold lenZ. simpl length. lia. Qed.
Lemma lenZ_app {A} (l1 l2 : list A) : lenZ (l1 ++ l2) = lenZ l1 + lenZ l2.
Proof. unfold lenZ. rewrite length_app. lia. Qed.
Lemma lenZ_nonneg {A} (l : list A) : 0 <= lenZ l.
Proof. unfold lenZ. lia. Qed.
Lemma lenZ_0 {A} (l : list A) : lenZ l = 0 <-> l = [].
Proof. unfold lenZ. destruct l; simpl; split; intros; try done; lia. Qed.
Lemma lenZ_takeZ {A} n (l : list A) : 0 <= n <= lenZ l -> lenZ (takeZ n l) = n.
Proof. unfold lenZ, takeZ. rewrite length_take. lia. Qed.
Lemma lenZ_dropZ {A} n (l : list A) : 0 <= n <= lenZ l -> lenZ (dropZ n l) = lenZ l - n.
Proof. unfold lenZ, dropZ. rewrite length_drop. lia. Qed.
Lemma takeZ_dropZ {A} n (l : list A) : takeZ n l ++ dropZ n l = l.
Proof. apply take_drop. Qed.
Lemma takeZ_app {A} n (l1 l2 : list A) : n = lenZ l1 -> takeZ n (l1 ++ l2) = l1.
Proof. intros ->. unfold takeZ, lenZ. rewrite Nat2Z.id. apply take_app_length. Qed.
Lemma dropZ_app {A} n (l1 l2 : list A) : n = lenZ l1 -> dropZ n (l1 ++ l2) = l2.
Proof. intros ->. unfold dropZ, lenZ. rewrite Nat2Z.id. apply drop_app_length. Qed.
Lemma takeZ_all {A} n (l : list A) : lenZ l <= n -> takeZ n l = l.
Proof. intros. unfold takeZ. apply take_ge. unfold lenZ in *. lia. Qed.
Lemma takeZ_0 {A} (l : list A) : takeZ 0 l = [].
Proof. done. Qed.
Lemma dropZ_0 {A} (l : list A) : dropZ 0 l = l.
Proof. done. Qed.
Lemma dropZ_dropZ {A} a b (l : list A) :
  0 <= a -> 0 <= b -> dropZ a (dropZ b l) = dropZ (b + a) l.
Proof. intros. unfold dropZ. rewrite drop_drop. f_equal. lia. Qed.
Lemma nthZ_app_l l1 l2 i : 0 <= i < lenZ l1 -> nthZ (l1 ++ l2) i = nthZ l1 i.
Proof. intros. unfold nthZ. apply app_nth1. unfold lenZ in *. lia. Qed.
Lemma nthZ_app_r l1 l2 i : lenZ l1 <= i -> nthZ (l1 ++ l2) i = nthZ l2 (i - lenZ l1).
Proof.
  intros. unfold nthZ. rewrite app_nth2 by (unfold lenZ in *; lia).
  f_equal. unfold lenZ in *. lia.
Qed.
Lemma nthZ_cons_0 x l : nthZ (x :: l) 0 = x.
Proof. done. Qed.
Lemma nthZ_cons_S x l i : 0 < i -> nthZ (x :: l) i = nthZ l (i - 1).
Proof.
  intros. unfold nthZ. replace (Z.to_nat i) with (S (Z.to_nat (i - 1))) by lia. done.
Qed.

#[export] Hint Rewrite @lenZ_nil @lenZ_cons @lenZ_app @takeZ_0 @dropZ_0 : skaled.
#[export] Hint Resolve lenZ_nonneg : skaled.

Lemma bytes_ok_app l1 l2 : bytes_ok (l1 ++ l2) <-> bytes_ok l1 /\ bytes_ok l2.
Proof. apply Forall_app. Qed.
Lemma bytes_ok_nth l i : bytes_ok l -> is_byte (nthZ l i).
Proof.
  intros H. unfold nthZ. destruct (nth_in_or_default (Z.to_nat i) l 0) as [Hin| ->].
  - eapply List.Forall_forall in H; eauto.
  - unfold is_byte. lia.
Qed.
Lemma bytes_ok_takeZ n l : bytes_ok l -> bytes_ok (takeZ n l).
Proof. apply Forall_take. Qed.
Lemma bytes_ok_dropZ n l : bytes_ok l -> bytes_ok (dropZ n l).
Proof. apply Forall_drop. Qed.
#[export] Hint Resolve bytes_ok_takeZ bytes_ok_dropZ bytes_ok_nth : skaled.

(** Case analysis on the boolean tests of the code: every [if] whose condition is a
    comparison of integers is split and the comparison turned into an inequality. *)
Ltac bool_cases :=
  repeat match goal with
  | |- context [if ?b then _ else _] =>
      lazymatch b with
      | context [if _ then _ else _] => fail
      | _ => destruct b eqn:?
      end
  | H : context [if ?b then _ else _] |- _ =>
      lazymatch b with
      | context [if _ then _ else _] => fail
      | _ => destruct b eqn:?
      end
  end.

Ltac boolify :=
  rewrite ?andb_true_iff, ?andb_false_iff, ?orb_true_iff, ?orb_false_iff,
    ?negb_true_iff, ?negb_false_iff, ?Z.eqb_eq, ?Z.eqb_neq, ?Z.ltb_lt, ?Z.ltb_ge,
    ?Z.leb_le, ?Z.leb_gt, ?Z.gtb_ltb, ?Z.geb_leb in *.

Ltac len_simpl := repeat (rewrite ?lenZ_cons, ?lenZ_app, ?lenZ_nil in *).
