(* ===== verification/CommonData.v ===== *)
(** * Hex, nibble and big-endian conversions (libdevcore/CommonData.h and .cpp)

    Strings and byte arrays are lists of integers in [0, 256).  Loops over a
    collection are folds or structural recursions in the direction of the loop;
    the width of the integer type a template is instantiated with is the
    argument [w]. *)

From S2P Require Import Prelude.
From Stdlib Require Import ZArith Lia Bool.
From stdpp Require Import base list.
Open Scope Z_scope.

(** ** Definitions *)

Inductive WhenError := DontThrow | Throw.
Inductive HexError := BadHexCharacter.

Definition hexdigits : list Z :=
  [48; 49; 50; 51; 52; 53; 54; 55; 56; 57; 97; 98; 99; 100; 101; 102].

(** [hex[off++] = hexdigits[(b >> 4) & 0xf]; hex[off++] = hexdigits[b & 0xf]] *)
Definition toHex (prefix data : list Z) : list Z :=
  prefix ++ concat (map (fun b =>
    [nthZ hexdigits (Z.land (Z.shiftr b 4) 15); nthZ hexdigits (Z.land b 15)]) data).

Definition prefix0x : list Z := [48; 120].
Definition toHexPrefixed (data : list Z) : list Z := toHex prefix0x data.

Definition fromHexChar (c : Z) : Z :=
  if (48 <=? c) && (c <=? 57) then c - 48
  else if (97 <=? c) && (c <=? 102) then c - 97 + 10
  else if (65 <=? c) && (c <=? 70) then c - 65 + 10
  else -1.

Definition has0x (s : list Z) : bool := bool_decide (take 2 s = prefix0x).

Definition isHex (s : list Z) : bool :=
  forallb (fun c => negb (fromHexChar c =? -1)) (if has0x s then drop 2 s else s).

(** The pair loop of [fromHex]; [None] stands for a bad character. *)
Fixpoint fromHexPairs (s : list Z) : option (list Z) :=
  match s with
  | h :: l :: s' =>
      if negb (fromHexChar h =? -1) && negb (fromHexChar l =? -1)
      then (fun r => u8 (fromHexChar h * 16 + fromHexChar l) :: r) <$> fromHexPairs s'
      else None
  | _ => Some []
  end.

Definition fromHex (s : list Z) (w : WhenError) : result HexError (list Z) :=
  let bad := match w with Throw => Err BadHexCharacter | DontThrow => Ok [] end in
  let body := if has0x s then drop 2 s else s in
  let pairs pre l := match fromHexPairs l with Some r => Ok (pre ++ r) | None => bad end in
  if (lenZ s mod 2) =? 1 then
    match body with
    | [] => bad
    | c :: body' => if fromHexChar c =? -1 then bad else pairs [fromHexChar c] body'
    end
  else pairs [] body.

Definition asNibbles (s : list Z) : list Z :=
  concat (map (fun i => [i / 16; i mod 16]) s).

Fixpoint toBigEndian (n : nat) (val : Z) : list Z :=
  match n with
  | O => []
  | S n' => toBigEndian n' (Z.shiftr val 8) ++ [Z.land val 255]
  end.

Definition fromBigEndian (w : Z) (bs : list Z) : Z :=
  foldl (fun ret b => wrap w (Z.lor (Z.shiftl ret 8) b)) 0 bs.

(** [for (; i != 0; ++n, i >>= 8)]; the shift count never exceeds [log2 i / 8 + 1]. *)
Fixpoint bytesRequired_loop (fuel : nat) (i : Z) (n : Z) : Z :=
  match fuel with
  | O => n
  | S f => if i =? 0 then n else bytesRequired_loop f (Z.shiftr i 8) (n + 1)
  end.
Definition bytesRequired (i : Z) : Z :=
  bytesRequired_loop (Z.to_nat (Z.log2 i) + 1) i 0.

Definition toCompactBigEndian (val : Z) (min : Z) : list Z :=
  toBigEndian (Z.to_nat (Z.max min (bytesRequired val))) val.

Fixpoint commonPrefix (t u : list Z) : Z :=
  match t, u with
  | a :: t', b :: u' => if a =? b then 1 + commonPrefix t' u' else 0
  | _, _ => 0
  end.

(** ** Big-endian lemmas *)

(** The value a byte string denotes, most significant byte first. *)
Definition unbe (l : list Z) : Z := foldl (fun a b => a * 256 + b) 0 l.

Lemma lor_shift8 r b : 0 <= r -> is_byte b -> Z.lor (Z.shiftl r 8) b = r * 256 + b.
Proof.
  intros Hr [Hb0 Hb1].
  rewrite Z.shiftl_mul_pow2 by lia. rewrite <- Z.add_nocarry_lor; [lia|].
  apply Z.bits_inj'. intros i Hi.
  rewrite Z.land_spec, Z.bits_0. destruct (Z.ltb_spec i 8).
  - rewrite Z.mul_pow2_bits_low by lia. done.
  - replace b with (b mod 2 ^ 8) by (apply Z.mod_small; lia).
    rewrite (Z.mod_pow2_bits_high b 8 i) by lia. apply andb_false_r.
Qed.

Lemma unbe_acc l a :
  foldl (fun a b => a * 256 + b) a l = a * 256 ^ lenZ l + unbe l.
Proof.
  unfold unbe. revert a. induction l as [|b l IH] using rev_ind; intros a; simpl.
  - unfold lenZ; simpl. lia.
  - rewrite !foldl_app. simpl. rewrite IH, lenZ_app. change (lenZ [b]) with 1.
    rewrite Z.pow_add_r by (unfold lenZ; lia). change (256 ^ 1) with 256. lia.
Qed.

Lemma unbe_app l1 l2 : unbe (l1 ++ l2) = unbe l1 * 256 ^ lenZ l2 + unbe l2.
Proof. unfold unbe at 1. rewrite foldl_app. apply unbe_acc. Qed.

Lemma unbe_cons b l : unbe (b :: l) = b * 256 ^ lenZ l + unbe l.
Proof. unfold unbe at 1. simpl. by rewrite unbe_acc. Qed.

Lemma unbe_bound l : bytes_ok l -> 0 <= unbe l < 256 ^ lenZ l.
Proof.
  induction l as [|b l IH] using rev_ind; intros H.
  - done.
  - apply bytes_ok_app in H as [Hl Hb]. apply Forall_inv in Hb. destruct Hb.
    specialize (IH Hl). rewrite unbe_app, lenZ_app.
    change (lenZ [b]) with 1. change (unbe [b]) with b.
    rewrite Z.pow_add_r by (unfold lenZ; lia). change (256 ^ 1) with 256. lia.
Qed.

Lemma foldl_wrap_unbe w l a : 0 <= w -> 0 <= a -> bytes_ok l ->
  foldl (fun ret b => wrap w (Z.lor (Z.shiftl ret 8) b)) (wrap w a) l
  = wrap w (foldl (fun a b => a * 256 + b) a l).
Proof.
  intros Hw Ha Hl. revert a Ha. induction Hl as [|b l Hb Hl IH]; intros a Ha; simpl; [done|].
  rewrite <- IH by (unfold is_byte in Hb; lia). f_equal.
  rewrite lor_shift8 by (auto; unfold wrap; apply Z.mod_pos_bound; lia).
  unfold wrap. rewrite <- (Z.add_mod_idemp_l (_ * 256)), <- (Z.add_mod_idemp_l (a * 256)) by lia.
  rewrite Z.mul_mod_idemp_l by lia. done.
Qed.

Lemma fromBigEndian_unbe w l : 0 <= w -> bytes_ok l -> fromBigEndian w l = wrap w (unbe l).
Proof.
  intros. unfold fromBigEndian, unbe. rewrite <- foldl_wrap_unbe by (auto; lia).
  unfold wrap. by rewrite Z.mod_0_l by lia.
Qed.

Lemma toBigEndian_length n v : length (toBigEndian n v) = n.
Proof. revert v. induction n; intros; simpl; rewrite ?length_app, ?IHn; simpl; lia. Qed.

Lemma toBigEndian_lenZ n v : lenZ (toBigEndian n v) = Z.of_nat n.
Proof. unfold lenZ. by rewrite toBigEndian_length. Qed.

Lemma land_255 v : Z.land v 255 = v mod 256.
Proof. change 255 with (Z.ones 8). rewrite Z.land_ones by lia. done. Qed.

Lemma toBigEndian_ok n v : bytes_ok (toBigEndian n v).
Proof.
  revert v. induction n; intros; simpl; [constructor|].
  apply bytes_ok_app. split; [apply IHn|]. apply Forall_singleton.
  rewrite land_255. apply Z.mod_pos_bound. lia.
Qed.

Lemma unbe_toBigEndian n v : 0 <= v -> unbe (toBigEndian n v) = v mod 256 ^ Z.of_nat n.
Proof.
  revert v. induction n; intros v Hv; simpl toBigEndian.
  - by rewrite Z.mod_1_r.
  - rewrite unbe_app, IHn by (apply Z.shiftr_nonneg; lia).
    change (lenZ [Z.land v 255]) with 1. change (unbe [Z.land v 255]) with (Z.land v 255).
    rewrite land_255, Z.shiftr_div_pow2 by lia. change (2 ^ 8) with 256.
    rewrite Nat2Z.inj_succ, Z.pow_succ_r by lia.
    rewrite (Z.rem_mul_r v 256) by lia. lia.
Qed.

Lemma toBigEndian_unbe l : bytes_ok l -> toBigEndian (length l) (unbe l) = l.
Proof.
  induction l as [|b l IH] using rev_ind; intros H; [done|].
  apply bytes_ok_app in H as [Hl Hb]. apply Forall_inv in Hb. destruct Hb.
  rewrite length_app, Nat.add_comm. simpl. rewrite unbe_app.
  change (lenZ [b]) with 1. change (unbe [b]) with b.
  rewrite land_255, Z.shiftr_div_pow2 by lia. change (2 ^ 8) with 256. change (256 ^ 1) with 256.
  rewrite Z.div_add_l, (Z.div_small b) by lia.
  rewrite Z.add_0_r, IH by done. f_equal. f_equal.
  rewrite Z.add_comm, Z.mod_add by lia. apply Z.mod_small. lia.
Qed.

Lemma bytesRequired_loop_spec fuel i n :
  0 <= i < 256 ^ Z.of_nat fuel ->
  exists k, bytesRequired_loop fuel i n = n + k /\ 0 <= k <= Z.of_nat fuel /\
    i < 256 ^ k /\ (0 < k -> 256 ^ (k - 1) <= i).
Proof.
  revert i n. induction fuel as [|f IH]; intros i n Hi; simpl.
  - exists 0. simpl in *. repeat split; lia.
  - destruct (Z.eqb_spec i 0) as [->|Hne].
    + exists 0. repeat split; lia.
    + rewrite Z.shiftr_div_pow2 by lia. change (2 ^ 8) with 256.
      rewrite Nat2Z.inj_succ, Z.pow_succ_r in Hi by lia.
      destruct (IH (i / 256) (n + 1)) as (k & Hk & Hb & Hlt & Hge).
      { split; [apply Z.div_pos; lia | apply Z.div_lt_upper_bound; lia]. }
      exists (k + 1). rewrite Hk. repeat split; try lia.
      * rewrite Z.pow_add_r by lia. change (256 ^ 1) with 256.
        pose proof (Z.mul_succ_div_gt i 256). nia.
      * intros _. replace (k + 1 - 1) with k by lia.
        destruct (Z.eq_dec k 0) as [->|]; [simpl; lia|].
        replace k with (Z.succ (k - 1)) by lia. rewrite Z.pow_succ_r by lia.
        pose proof (Z.mul_div_le i 256). nia.
Qed.

Lemma bytesRequired_spec i : 0 <= i ->
  0 <= bytesRequired i /\ i < 256 ^ bytesRequired i /\
  (0 < i -> 1 <= bytesRequired i /\ 256 ^ (bytesRequired i - 1) <= i).
Proof.
  intros Hi. unfold bytesRequired.
  destruct (bytesRequired_loop_spec (Z.to_nat (Z.log2 i) + 1) i 0) as (k & -> & Hk & Hlt & Hge).
  { split; [done|]. pose proof (Z.log2_nonneg i).
    replace (Z.of_nat _) with (Z.log2 i + 1) by lia.
    destruct (Z.eq_dec i 0) as [->|]; [done|].
    pose proof (Z.log2_spec i ltac:(lia)) as [_ Hs].
    eapply Z.lt_le_trans; [exact Hs|]. rewrite Z.add_1_r.
    apply Z.pow_le_mono_l. lia. }
  rewrite Z.add_0_l. repeat split; try lia.
  all: intros; assert (k <> 0) by (intros ->; simpl in *; lia); try lia.
Qed.

Lemma bytesRequired_le i n : 0 <= i < 256 ^ n -> 0 <= n -> bytesRequired i <= n.
Proof.
  intros Hi Hn. destruct (bytesRequired_spec i) as (? & ? & Hp); [lia|].
  destruct (Z.eq_dec i 0) as [->|]; [done|].
  destruct Hp as [? Hp]; [lia|]. destruct (Z.le_gt_cases (bytesRequired i) n); [done|].
  assert (256 ^ n <= 256 ^ (bytesRequired i - 1)) by (apply Z.pow_le_mono_r; lia). lia.
Qed.

(** ** Hex lemmas *)

Lemma fromHexChar_digit d : 0 <= d < 16 -> fromHexChar (nthZ hexdigits d) = d.
Proof.
  intros. assert (Hd : d ∈ seqZ 0 16) by (apply elem_of_seqZ; lia).
  revert d H Hd. cut (Forall (fun d => fromHexChar (nthZ hexdigits d) = d) (seqZ 0 16)).
  - intros HF d _ Hd. rewrite Forall_forall in HF. auto.
  - vm_compute. repeat constructor.
Qed.

Lemma hexdigit_not_x d : 0 <= d < 16 -> nthZ hexdigits d <> 120.
Proof.
  intros Hd Heq. pose proof (fromHexChar_digit d Hd) as H. rewrite Heq in H.
  vm_compute in H. lia.
Qed.

Lemma byte_nibbles b : is_byte b ->
  0 <= Z.land (Z.shiftr b 4) 15 < 16 /\ 0 <= Z.land b 15 < 16 /\
  Z.land (Z.shiftr b 4) 15 = b / 16 /\ Z.land b 15 = b mod 16.
Proof.
  intros [? ?]. change 15 with (Z.ones 4). rewrite !Z.land_ones, Z.shiftr_div_pow2 by lia.
  change (2 ^ 4) with 16. rewrite (Z.mod_small (b / 16)) by (split; [apply Z.div_pos; lia|apply Z.div_lt_upper_bound; lia]).
  repeat split; try apply Z.mod_pos_bound; try apply Z.div_pos; try apply Z.div_lt_upper_bound; lia.
Qed.

Lemma fromHexPairs_toHex data : bytes_ok data -> fromHexPairs (toHex [] data) = Some data.
Proof.
  unfold toHex. simpl app.
  induction data as [|b data IH]; intros H; [done|]. inversion H as [|? ? Hb Hd]; subst.
  destruct (byte_nibbles b Hb) as (Hh & Hl & Eh & El). simpl concat. cbn [fromHexPairs app].
  rewrite !fromHexChar_digit by done.
  replace (Z.land (Z.shiftr b 4) 15 =? -1) with false by (symmetry; apply Z.eqb_neq; lia).
  replace (Z.land b 15 =? -1) with false by (symmetry; apply Z.eqb_neq; lia).
  simpl. rewrite IH by done. simpl. do 2 f_equal.
  rewrite Eh, El. unfold wrap. unfold is_byte in Hb.
  pose proof (Z.div_mod b 16 ltac:(lia)). rewrite Z.mod_small; lia.
Qed.

Lemma toHex_lenZ p data : lenZ (toHex p data) = lenZ p + 2 * lenZ data.
Proof.
  unfold toHex. rewrite lenZ_app. f_equal.
  induction data as [|b data IH]; [done|]. simpl map. simpl concat. len_simpl. lia.
Qed.

Lemma toHex_not_0x data : bytes_ok data -> has0x (toHex [] data) = false.
Proof.
  intros H. unfold has0x, toHex. apply bool_decide_eq_false.
  destruct data as [|b data]; [done|]. inversion H as [|? ? Hb Hd]; subst.
  simpl. intros [=]. destruct (byte_nibbles b Hb) as (_ & Hl & _).
  by apply (hexdigit_not_x (Z.land b 15)).
Qed.

Lemma even_not_1 n : (2 * n) mod 2 =? 1 = false.
Proof. rewrite Z.mul_comm, Z.mod_mul by lia. done. Qed.

Lemma toHexPrefixed_split data : toHexPrefixed data = prefix0x ++ toHex [] data.
Proof. done. Qed.

Lemma fromHex_toHex_raw w data : bytes_ok data -> fromHex (toHex [] data) w = Ok data.
Proof.
  intros H. unfold fromHex. rewrite toHex_not_0x, toHex_lenZ by done.
  change (lenZ []) with 0. rewrite Z.add_0_l, even_not_1, fromHexPairs_toHex by done. done.
Qed.

Lemma fromHex_toHexPrefixed_raw w data :
  bytes_ok data -> fromHex (toHexPrefixed data) w = Ok data.
Proof.
  intros H. rewrite toHexPrefixed_split. pose proof (fromHexPairs_toHex data H) as Hp.
  pose proof (toHex_lenZ [] data) as Hl. revert Hp Hl. generalize (toHex [] data) as h.
  intros h Hp Hl. unfold fromHex, prefix0x. change (has0x ([48; 120] ++ h)) with true.
  rewrite lenZ_app, Hl. change (lenZ [48; 120] + (lenZ [] + 2 * lenZ data)) with (2 + 2 * lenZ data).
  replace (2 + 2 * lenZ data) with (2 * (1 + lenZ data)) by lia.
  rewrite even_not_1. change (drop 2 ([48; 120] ++ h)) with h. cbn iota zeta. by rewrite Hp.
Qed.

Lemma fromHexPairs_isHex s :
  forallb (fun c => negb (fromHexChar c =? -1)) s = true ->
  Nat.Even (length s) -> is_Some (fromHexPairs s).
Proof.
  remember (length s) as n eqn:Hn. revert s Hn.
  induction n as [n IH] using lt_wf_ind. intros s -> Hs Hev.
  destruct s as [|h [|l s]]; simpl; [eauto|eauto|].
  simpl in Hs. apply andb_prop in Hs as [Hh Hs]. apply andb_prop in Hs as [Hl Hs].
  rewrite Hh, Hl. simpl.
  destruct (IH (length s)) with (s := s) as [r Hr]; simpl; try lia; auto.
  - destruct Hev as [k Hk]. exists (k - 1)%nat. simpl in Hk. lia.
  - rewrite Hr. eauto.
Qed.

Lemma isHex_fromHex_ok s : isHex s = true -> exists bs, fromHex s Throw = Ok bs.
Proof.
  unfold isHex, fromHex. set (body := if has0x s then drop 2 s else s). intros H.
  assert (Hpar : lenZ s mod 2 = lenZ body mod 2).
  { unfold body. destruct (has0x s) eqn:E; [|done].
    unfold has0x in E. apply bool_decide_eq_true in E.
    rewrite <- (take_drop 2 s) at 1. rewrite E, lenZ_app. change (lenZ prefix0x) with (1 * 2).
    rewrite Z.add_comm, Z.mod_add by lia. done. }
  rewrite Hpar. destruct (Z.eqb_spec (lenZ body mod 2) 1) as [E|E].
  - destruct body as [|c body']; [done|]. simpl in H. apply andb_prop in H as [Hc H].
    apply negb_true_iff in Hc. rewrite Hc.
    destruct (fromHexPairs_isHex body') as [r Hr]; [done| |rewrite Hr; eauto].
    rewrite lenZ_cons in E. unfold lenZ in E.
    exists (Z.to_nat (Z.of_nat (length body') / 2)). 
    pose proof (Z.div_mod (Z.of_nat (length body')) 2). 
    pose proof (Z.mod_pos_bound (Z.of_nat (length body')) 2).
    pose proof (Z.div_mod (1 + Z.of_nat (length body')) 2). lia.
  - destruct (fromHexPairs_isHex body) as [r Hr]; [done| |rewrite Hr; simpl; eauto].
    unfold lenZ in E. pose proof (Z.mod_pos_bound (Z.of_nat (length body)) 2).
    exists (Z.to_nat (Z.of_nat (length body) / 2)).
    pose proof (Z.div_mod (Z.of_nat (length body)) 2). lia.
Qed.

(** ** Properties *)

(** Hex strings round-trip.  [fromHex] gives back every byte array from its [toHex]
    and from its [toHexPrefixed] form, in both error modes, and the prefixed form passes
    [isHex]. *)
Theorem hex_roundtrip data w : bytes_ok data ->
  fromHex (toHex [] data) w = Ok data /\ fromHex (toHexPrefixed data) w = Ok data.
Proof. intros. split; [by apply fromHex_toHex_raw|by apply fromHex_toHexPrefixed_raw]. Qed.

Lemma hex_roundtrip_witness :
  fromHex (toHex [] [0; 171; 255]) Throw = Ok [0; 171; 255] /\
  fromHex (toHexPrefixed [0; 171; 255]) Throw = Ok [0; 171; 255].
Proof. apply (hex_roundtrip [0; 171; 255] Throw). repeat constructor; vm_compute; done. Defined.

(** [isHex] decides whether [fromHex] accepts: a string it calls hexadecimal converts
    without throwing, with or without the 0x prefix and for an odd number of digits too. *)
Theorem isHex_accepts s : isHex s = true -> exists bs, fromHex s Throw = Ok bs.
Proof. apply isHex_fromHex_ok. Qed.

Lemma isHex_accepts_witness : exists bs, fromHex [48; 120; 97; 98; 99] Throw = Ok bs.
Proof. apply (isHex_accepts [48; 120; 97; 98; 99]). reflexivity. Defined.
