(* ===== verification/Rlp.v ===== *)
(** * RLP reader and writer (libdevcore/RLP.h, RLP.cpp, vector_ref.h)

    The reader [RLP] is a view on a byte string; a method that can throw returns
    a [result] whose error names the exception.  A [size_t] is a [Z] and the only
    addition the reader performs on untrusted lengths is written with its wrap.
    The iterator keeps the position of the current item inside the parent's data
    ([None] is the null pointer), as its comparison with [end()] compares
    pointers.  The writer [RLPStream] is its output and its stack of open lists. *)

From S2P Require Import Prelude CommonData.
From Stdlib Require Import ZArith Lia Bool.
From stdpp Require Import base list.
Open Scope Z_scope.

Inductive RLPError := BadRLP | UndersizeRLP | OversizeRLP | BadCast | RLPException.

#[export] Instance RLPError_dec : EqDecision RLPError.
Proof. solve_decision. Defined.

(** ** Constants (RLP.h) *)

Definition c_rlpMaxLengthBytes : Z := 8.
Definition c_rlpDataImmLenStart : Z := 0x80.
Definition c_rlpListStart : Z := 0xc0.
Definition c_rlpDataImmLenCount : Z :=
  c_rlpListStart - c_rlpDataImmLenStart - c_rlpMaxLengthBytes.
Definition c_rlpDataIndLenZero : Z := c_rlpDataImmLenStart + c_rlpDataImmLenCount - 1.
Definition c_rlpListImmLenCount : Z := 256 - c_rlpListStart - c_rlpMaxLengthBytes.
Definition c_rlpListIndLenZero : Z := c_rlpListStart + c_rlpListImmLenCount - 1.

(** Strictness flags, an [int] bit mask. *)
Definition AllowNonCanon : Z := 1.
Definition ThrowOnFail : Z := 4.
Definition FailIfTooBig : Z := 8.
Definition FailIfTooSmall : Z := 16.
Definition Strict : Z := Z.lor ThrowOnFail FailIfTooBig.
Definition VeryStrict : Z := Z.lor (Z.lor ThrowOnFail FailIfTooBig) FailIfTooSmall.
Definition LaissezFaire : Z := AllowNonCanon.
Definition has (flags f : Z) : bool := negb (Z.land flags f =? 0).

(** ** [vector_ref::cropped] *)

Definition cropped (d : list Z) (begin count : Z) : list Z :=
  if (begin <=? lenZ d) && (count <=? lenZ d) && (u64 (begin + count) <=? lenZ d)
  then takeZ (if count =? 2 ^ 64 - 1 then lenZ d - begin else count) (dropZ begin d)
  else [].

Definition cropped_from (d : list Z) (begin : Z) : list Z :=
  if begin <=? lenZ d then dropZ begin d else [].

(** ** The reader *)

Definition isNull (d : list Z) : bool := lenZ d =? 0.
Definition isEmpty (d : list Z) : bool :=
  negb (isNull d) && ((nthZ d 0 =? c_rlpDataImmLenStart) || (nthZ d 0 =? c_rlpListStart)).
Definition isData (d : list Z) : bool := negb (isNull d) && (nthZ d 0 <? c_rlpListStart).
Definition isList (d : list Z) : bool := negb (isNull d) && (c_rlpListStart <=? nthZ d 0).
Definition isSingleByte (d : list Z) : bool :=
  negb (isNull d) && (nthZ d 0 <? c_rlpDataImmLenStart).

Definition requireGood (d : list Z) : result RLPError unit :=
  if isNull d then Err BadRLP
  else if negb (nthZ d 0 =? c_rlpDataImmLenStart + 1) then Ok tt
  else if lenZ d <? 2 then Err BadRLP
  else if nthZ d 1 <? c_rlpDataImmLenStart then Err BadRLP
  else Ok tt.

Definition isInt (d : list Z) : result RLPError bool :=
  if isNull d then Ok false else
  let? _ := requireGood d in
  let n := nthZ d 0 in
  if n <? c_rlpDataImmLenStart then Ok (negb (n =? 0))
  else if n =? c_rlpDataImmLenStart then Ok true
  else if n <=? c_rlpDataIndLenZero then
    if lenZ d <=? 1 then Err BadRLP else Ok (negb (nthZ d 1 =? 0))
  else if n <? c_rlpListStart then
    if lenZ d <=? 1 + n - c_rlpDataIndLenZero then Err BadRLP
    else Ok (negb (nthZ d (1 + n - c_rlpDataIndLenZero) =? 0))
  else Ok false.

(** [for (i = 0; i < lengthSize; ++i) ret = (ret << 8) | m_data[i + 1]] *)
Definition readLength (d : list Z) (lengthSize : Z) : Z :=
  foldl (fun ret b => u64 (Z.lor (Z.shiftl ret 8) b)) 0 (takeZ lengthSize (dropZ 1 d)).

(** The two multi-byte branches of [length()], which differ in the base only. *)
Definition longLength (d : list Z) (lengthSize limit : Z) : result RLPError Z :=
  if lenZ d <=? lengthSize then Err BadRLP
  else if (1 <? lenZ d) && (nthZ d 1 =? 0) then Err BadRLP
  else if 8 <? lengthSize then Err UndersizeRLP
  else if nthZ d 1 =? 0 then Err BadRLP
  else let ret := readLength d lengthSize in
  if ret <? limit then Err BadRLP
  else if 2 ^ 64 - 1 - 0x100 <=? ret then Err UndersizeRLP
  else Ok ret.

Definition length_ (d : list Z) : result RLPError Z :=
  if isNull d then Ok 0 else
  let? _ := requireGood d in
  let n := nthZ d 0 in
  if n <? c_rlpDataImmLenStart then Ok 1
  else if n <=? c_rlpDataIndLenZero then Ok (n - c_rlpDataImmLenStart)
  else if n <? c_rlpListStart then
    longLength d (n - c_rlpDataIndLenZero)
      (c_rlpListStart - c_rlpDataImmLenStart - c_rlpMaxLengthBytes)
  else if n <=? c_rlpListIndLenZero then Ok (n - c_rlpListStart)
  else longLength d (n - c_rlpListIndLenZero) (0x100 - c_rlpListStart - c_rlpMaxLengthBytes).

Definition lengthSize (d : list Z) : Z :=
  if isData d && (c_rlpDataIndLenZero <? nthZ d 0) then nthZ d 0 - c_rlpDataIndLenZero
  else if isList d && (c_rlpListIndLenZero <? nthZ d 0) then nthZ d 0 - c_rlpListIndLenZero
  else 0.

Definition payloadOffset (d : list Z) : Z :=
  if isSingleByte d then 0 else 1 + lengthSize d.

Definition actualSize (d : list Z) : result RLPError Z :=
  if isNull d then Ok 0
  else if isSingleByte d then Ok 1
  else if isData d || isList d then
    let? l := length_ d in Ok (u64 (payloadOffset d + l))
  else Ok 0.

(** [RLP::RLP(bytesConstRef, Strictness)]: the view kept, or the exception. *)
Definition RLP_ctor (d : list Z) (s : Z) : result RLPError (list Z) :=
  let? m1 :=
    if has s FailIfTooBig then
      let? a := actualSize d in
      if a <? lenZ d then (if has s ThrowOnFail then Err OversizeRLP else Ok []) else Ok d
    else Ok d in
  if has s FailIfTooSmall then
    let? a := actualSize m1 in
    if lenZ d <? a then (if has s ThrowOnFail then Err UndersizeRLP else Ok []) else Ok m1
  else Ok m1.

Definition sizeAsEncoded (d : list Z) : result RLPError Z :=
  let? m := RLP_ctor d (Z.lor ThrowOnFail FailIfTooSmall) in actualSize m.

Definition payload (d : list Z) : result RLPError (list Z) :=
  let? l := length_ d in
  if lenZ d <? l then Err BadRLP else Ok (cropped d (payloadOffset d) l).

Definition toBytes (d : list Z) (flags : Z) : result RLPError (list Z) :=
  if negb (isData d) then (if has flags ThrowOnFail then Err BadCast else Ok [])
  else let? p := payload d in let? l := length_ d in Ok (takeZ l p).

(** [items()]: [None] when the loop has not ended within the fuel. *)
Fixpoint items_loop (fuel : nat) (d : list Z) (i : Z) : option (result RLPError Z) :=
  match fuel with
  | O => None
  | S f =>
      if lenZ d =? 0 then Some (Ok i)
      else match sizeAsEncoded d with
           | Err e => Some (Err e)
           | Ok n => items_loop f (cropped_from d n) (i + 1)
           end
  end.
Definition items (d : list Z) : option (result RLPError Z) :=
  if isList d then
    match payload d with
    | Err e => Some (Err e)
    | Ok p => items_loop (S (length p)) p 0
    end
  else Some (Ok 0).

(** ** The list iterator *)

Record iterator := mkIter {
  it_ptr : option Z;       (* m_currentItem.data(), as an offset into the parent's data *)
  it_count : Z;            (* m_currentItem.size() *)
  it_remaining : Z         (* m_remaining *)
}.

Definition it_bytes (d : list Z) (it : iterator) : list Z :=
  match it_ptr it with Some p => takeZ (it_count it) (dropZ p d) | None => [] end.

(** [m_currentItem.cropped(0, n)] keeps the pointer when [n] is in range. *)
Definition crop_item (it_p : option Z) (count n : Z) : option Z * Z :=
  match it_p with
  | Some p => if n <=? count then (Some p, n) else (None, 0)
  | None => (None, 0)
  end.

Definition begin_ (d : list Z) : result RLPError iterator :=
  if isList d then
    let? pl := payload d in
    let? l := length_ d in
    let base := if u64 (payloadOffset d + l) <=? lenZ d then Some (payloadOffset d) else None in
    let? n := sizeAsEncoded pl in
    let '(p, c) := crop_item base (lenZ pl) n in
    Ok (mkIter p c (lenZ pl - c))
  else Ok (mkIter (Some (lenZ d)) 0 0).

Definition end_ (d : list Z) : iterator := mkIter (Some (lenZ d)) 0 0.

Definition next_ptr (it : iterator) : option Z :=
  (fun p => p + it_count it) <$> it_ptr it.

Definition incr (d : list Z) (it : iterator) : result RLPError iterator :=
  if negb (it_remaining it =? 0) then
    let p := next_ptr it in
    let? n := sizeAsEncoded (it_bytes d (mkIter p (it_remaining it) 0)) in
    let '(p', c') := crop_item p (it_remaining it) n in
    Ok (mkIter p' c' (it_remaining it - Z.min (it_remaining it) c'))
  else Ok (mkIter (next_ptr it) 0 0).

Definition it_eqb (a b : iterator) : bool :=
  bool_decide (it_ptr a = it_ptr b) && (it_count a =? it_count b).

(** [for (auto const& i : *this) ret.push_back(i)], each item rebuilt strictly by
    the iterator's dereference. *)
Fixpoint toList_loop (fuel : nat) (d : list Z) (it : iterator) (ret : list (list Z))
  : option (result RLPError (list (list Z))) :=
  match fuel with
  | O => None
  | S f =>
      if it_eqb it (end_ d) then Some (Ok ret)
      else match RLP_ctor (it_bytes d it) VeryStrict with
           | Err e => Some (Err e)
           | Ok item =>
               match incr d it with
               | Err e => Some (Err e)
               | Ok it' => toList_loop f d it' (ret ++ [item])
               end
           end
  end.
Definition toList (d : list Z) (flags : Z) : option (result RLPError (list (list Z))) :=
  if negb (isList d) then
    Some (if has flags ThrowOnFail then Err BadCast else Ok [])
  else match begin_ d with
       | Err e => Some (Err e)
       | Ok it => toList_loop (S (length d)) d it []
       end.

(** ** [operator[]] with its cache *)

Record RLP := mkRLP {
  m_data : list Z;
  m_lastIndex : Z;
  m_lastEnd : Z;
  m_lastItem : list Z
}.
Definition RLP_of (d : list Z) : RLP := mkRLP d (2 ^ 64 - 1) 0 [].

Fixpoint index_loop (fuel : nat) (i : Z) (r : RLP) : result RLPError RLP :=
  match fuel with
  | O => Ok r
  | S f =>
      if (m_lastIndex r <? i) && negb (lenZ (m_lastItem r) =? 0) then
        let? p := payload (m_data r) in
        let it := cropped_from p (m_lastEnd r) in
        let? n := sizeAsEncoded it in
        let it' := cropped it 0 n in
        index_loop f i (mkRLP (m_data r) (m_lastIndex r + 1) (u64 (m_lastEnd r + lenZ it')) it')
      else Ok r
  end.

Definition index (r : RLP) (i : Z) : result RLPError (RLP * list Z) :=
  let? r1 :=
    if i <? m_lastIndex r then
      let? p := payload (m_data r) in
      let? n := sizeAsEncoded p in
      let? p' := payload (m_data r) in
      Ok (mkRLP (m_data r) 0 n (cropped p' 0 n))
    else Ok r in
  let? r2 := index_loop (Z.to_nat (i - m_lastIndex r1)) i r1 in
  let? item := RLP_ctor (m_lastItem r2) (Z.lor ThrowOnFail FailIfTooSmall) in
  Ok (r2, item).

(** ** Conversions *)

(** [toInt<T>] for an unsigned type of [w] bits, or an arbitrary-precision one. *)
Definition toInt (w maxSize : Z) (d : list Z) (flags : Z) : result RLPError Z :=
  let? _ := requireGood d in
  let? int := isInt d in
  if (negb int && negb (has flags AllowNonCanon)) || isList d || isNull d then
    (if has flags ThrowOnFail then Err BadCast else Ok 0)
  else
    let? p := payload d in
    if (maxSize <? lenZ p) && has flags FailIfTooBig then
      (if has flags ThrowOnFail then Err BadCast else Ok 0)
    else Ok (fromBigEndian w p).

(** [toHash<FixedHash<n>>]: right-aligned copy of the payload's first bytes. *)
Definition toHash (n : Z) (d : list Z) (flags : Z) : result RLPError (list Z) :=
  let? _ := requireGood d in
  let? p := payload d in
  let l := lenZ p in
  if negb (isData d) || ((n <? l) && has flags FailIfTooBig)
     || ((l <? n) && has flags FailIfTooSmall) then
    (if has flags ThrowOnFail then Err BadCast else Ok (replicate (Z.to_nat n) 0))
  else
    let s := Z.min n l in
    Ok (replicate (Z.to_nat (n - s)) 0 ++ takeZ s p).

(** ** The writer *)

Record RLPStream := mkStream {
  m_out : list Z;
  m_listStack : list (Z * Z)     (* innermost open list first: items missing, start *)
}.
Definition emptyStream : RLPStream := mkStream [] [].

(** [*(b--) = (byte) i] until [i] is zero. *)
Fixpoint writeBack (fuel : nat) (out : list Z) (b i : Z) : list Z :=
  match fuel with
  | O => out
  | S f => if i =? 0 then out
           else writeBack f (<[Z.to_nat b := u8 i]> out) (b - 1) (Z.shiftr i 8)
  end.

Definition resize (out : list Z) (n : Z) : list Z :=
  takeZ n out ++ replicate (Z.to_nat (n - lenZ out)) 0.

Definition pushInt (out : list Z) (i br : Z) : list Z :=
  let out' := resize out (lenZ out + br) in
  writeBack (Z.to_nat (Z.log2 i) + 1) out' (lenZ out' - 1) i.

Definition pushCount (s : RLPStream) (count base : Z) : result RLPError RLPStream :=
  let br := bytesRequired count in
  if 0xff <? br + base then Err RLPException
  else Ok (mkStream (pushInt (m_out s ++ [u8 (br + base)]) count br) (m_listStack s)).

(** The part of [noteAppended] that inserts the header of a completed list that
    starts at [p]: resize, [memmove], then the prefix bytes. *)
Definition closeList (out : list Z) (p : Z) : result RLPError (list Z) :=
  let s := lenZ out - p in
  let brs := bytesRequired s in
  let encodeSize := if s <? c_rlpListImmLenCount then 1 else 1 + brs in
  let os := lenZ out in
  let out1 := resize out (os + encodeSize) in
  let moved := takeZ (p + encodeSize) out1 ++ takeZ (os - p) (dropZ p out1) in
  if s <? c_rlpListImmLenCount then
    Ok (<[Z.to_nat p := u8 (c_rlpListStart + s)]> moved)
  else if c_rlpListIndLenZero + brs <=? 0xff then
    Ok (writeBack (Z.to_nat (Z.log2 s) + 1)
          (<[Z.to_nat p := u8 (c_rlpListIndLenZero + brs)]> moved) (p + brs) s)
  else Err RLPException.

Fixpoint noteAppended_loop (stack : list (Z * Z)) (out : list Z) (itemCount : Z)
  : result RLPError RLPStream :=
  match stack with
  | [] => Ok (mkStream out [])
  | (missing, p) :: stack' =>
      if missing <? itemCount then Err RLPException
      else if negb (missing - itemCount =? 0) then
        Ok (mkStream out ((missing - itemCount, p) :: stack'))
      else
        let? out' := closeList out p in
        noteAppended_loop stack' out' 1
  end.
Definition noteAppended (s : RLPStream) (itemCount : Z) : result RLPError RLPStream :=
  if itemCount =? 0 then Ok s else noteAppended_loop (m_listStack s) (m_out s) itemCount.

Definition appendRaw (s : RLPStream) (bs : list Z) (itemCount : Z) : result RLPError RLPStream :=
  noteAppended (mkStream (m_out s ++ bs) (m_listStack s)) itemCount.

Definition appendListBytes (s : RLPStream) (rlp : list Z) : result RLPError RLPStream :=
  let? s1 :=
    if lenZ rlp <? c_rlpListImmLenCount then
      Ok (mkStream (m_out s ++ [u8 (lenZ rlp + c_rlpListStart)]) (m_listStack s))
    else pushCount s (lenZ rlp) c_rlpListIndLenZero in
  appendRaw s1 rlp 1.

Definition appendList (s : RLPStream) (n : Z) : result RLPError RLPStream :=
  if negb (n =? 0) then Ok (mkStream (m_out s) ((n, lenZ (m_out s)) :: m_listStack s))
  else appendListBytes s [].

Fixpoint dropZeros (bs : list Z) : list Z :=
  match bs with 0 :: bs' => dropZeros bs' | _ => bs end.

Definition append (s : RLPStream) (bs : list Z) (compact : bool) : result RLPError RLPStream :=
  let d := if compact then dropZeros bs else bs in
  let? s1 :=
    if (lenZ d =? 1) && (nthZ d 0 <? c_rlpDataImmLenStart) then
      Ok (mkStream (m_out s ++ [nthZ d 0]) (m_listStack s))
    else
      let? s0 :=
        if lenZ d <? c_rlpDataImmLenCount then
          Ok (mkStream (m_out s ++ [u8 (lenZ d + c_rlpDataImmLenStart)]) (m_listStack s))
        else pushCount s (lenZ d) c_rlpDataIndLenZero in
      appendRaw s0 d 0 in
  noteAppended s1 1.

Definition appendInt (s : RLPStream) (i : Z) : result RLPError RLPStream :=
  let? s1 :=
    if i =? 0 then Ok (mkStream (m_out s ++ [c_rlpDataImmLenStart]) (m_listStack s))
    else if i <? c_rlpDataImmLenStart then Ok (mkStream (m_out s ++ [u8 i]) (m_listStack s))
    else
      let br := bytesRequired i in
      let? s0 :=
        if br <? c_rlpDataImmLenCount then
          Ok (mkStream (m_out s ++ [u8 (br + c_rlpDataImmLenStart)]) (m_listStack s))
        else
          let brbr := bytesRequired br in
          if 0xff <? c_rlpDataIndLenZero + brbr then Err RLPException
          else Ok (mkStream (pushInt (m_out s ++ [u8 (c_rlpDataIndLenZero + brbr)]) br brbr)
                     (m_listStack s)) in
      Ok (mkStream (pushInt (m_out s0) i br) (m_listStack s0)) in
  noteAppended s1 1.

Definition out (s : RLPStream) : result RLPError (list Z) :=
  match m_listStack s with [] => Ok (m_out s) | _ => Err RLPException end.

(** ** Specification: the canonical encoding of an item tree *)

Inductive item := Str (bs : list Z) | Lst (its : list item).

Section item_ind.
Variable P : item -> Prop.
Hypothesis HStr : forall bs, P (Str bs).
Hypothesis HLst : forall its, Forall P its -> P (Lst its).
Fixpoint item_ind' (it : item) : P it :=
  match it with
  | Str bs => HStr bs
  | Lst its => HLst its ((fix go l : Forall P l :=
      match l with [] => Forall_nil_2 _ | x :: l' => Forall_cons_2 _ _ _ (item_ind' x) (go l') end) its)
  end.
End item_ind.

Definition hdr (start indZero n : Z) : list Z :=
  if n <? 56 then [start + n]
  else (indZero + bytesRequired n) :: toBigEndian (Z.to_nat (bytesRequired n)) n.
Definition hdrStr : Z -> list Z := hdr 0x80 0xb7.
Definition hdrLst : Z -> list Z := hdr 0xc0 0xf7.

Definition encStr (bs : list Z) : list Z :=
  if (lenZ bs =? 1) && (nthZ bs 0 <? 0x80) then bs else hdrStr (lenZ bs) ++ bs.
Definition encLst (body : list Z) : list Z := hdrLst (lenZ body) ++ body.
Fixpoint enc (it : item) : list Z :=
  match it with
  | Str bs => encStr bs
  | Lst its => encLst (concat (map enc its))
  end.

(** Every byte in range, and every payload short enough for the reader to accept. *)
Definition sizeLimit : Z := 2 ^ 64 - 1 - 0x100.
Fixpoint item_ok (it : item) : Prop :=
  match it with
  | Str bs => bytes_ok bs /\ lenZ bs < sizeLimit
  | Lst its => fold_right (fun x P => item_ok x /\ P) True its /\
               lenZ (concat (map enc its)) < sizeLimit
  end.

(** Writing an item the way the code serialises nested data: the list header is
    opened with its item count, then the members are appended in order. *)
Fixpoint streamItem (it : item) (s : RLPStream) : result RLPError RLPStream :=
  match it with
  | Str bs => append s bs false
  | Lst its =>
      let? s1 := appendList s (lenZ its) in
      fold_left (fun r x => let? s := r in streamItem x s) its (Ok s1)
  end.

(** ** Writer lemmas *)

Lemma insert_mid (pre suf : list Z) x y n :
  n = length pre -> <[n := y]> (pre ++ x :: suf) = pre ++ y :: suf.
Proof. intros ->. by rewrite insert_app_r_alt, Nat.sub_diag by lia. Qed.

Lemma writeBack_exact fuel pre G suf i :
  0 <= i < 256 ^ Z.of_nat fuel ->
  i < 256 ^ lenZ G -> (0 < lenZ G -> 256 ^ (lenZ G - 1) <= i) ->
  writeBack fuel (pre ++ G ++ suf) (lenZ pre + lenZ G - 1) i
  = pre ++ toBigEndian (length G) i ++ suf.
Proof.
  revert fuel suf i. induction G as [|x G IH] using rev_ind; intros fuel suf i Hf Hhi Hlo.
  - change (lenZ []) with 0 in *. assert (i = 0) as -> by lia. by destruct fuel.
  - rewrite lenZ_app in *. change (lenZ [x]) with 1 in *. pose proof (lenZ_nonneg G).
    assert (0 < i).
    { specialize (Hlo ltac:(lia)). pose proof (Z.pow_pos_nonneg 256 (lenZ G + 1 - 1)). lia. }
    destruct fuel as [|f]; [simpl in Hf; lia|]. simpl writeBack.
    replace (i =? 0) with false by (symmetry; apply Z.eqb_neq; lia).
    rewrite <- !app_assoc. simpl app. rewrite app_assoc.
    rewrite insert_mid by (rewrite length_app; unfold lenZ; lia).
    rewrite <- app_assoc. replace (_ - 1 - 1) with (lenZ pre + lenZ G - 1) by lia.
    assert (Hsh : Z.shiftr i 8 = i / 256) by (by rewrite Z.shiftr_div_pow2 by lia).
    rewrite Nat2Z.inj_succ, Z.pow_succ_r in Hf by lia.
    rewrite (IH f (u8 i :: suf) (Z.shiftr i 8)).
    + rewrite length_app, Nat.add_comm. simpl. rewrite <- app_assoc. simpl.
      do 3 f_equal. by rewrite land_255.
    + rewrite Hsh. split; [apply Z.div_pos; lia|apply Z.div_lt_upper_bound; lia].
    + rewrite Hsh. apply Z.div_lt_upper_bound; [lia|].
      rewrite Z.pow_add_r in Hhi by lia. change (256 ^ 1) with 256 in *. lia.
    + intros. rewrite Hsh. apply Z.div_le_lower_bound; [lia|].
      specialize (Hlo ltac:(lia)). replace (lenZ G + 1 - 1) with (Z.succ (lenZ G - 1)) in Hlo by lia.
      rewrite Z.pow_succ_r in Hlo by lia. lia.
Qed.

Lemma log2_fuel i : 0 <= i -> i < 256 ^ Z.of_nat (Z.to_nat (Z.log2 i) + 1).
Proof.
  intros. pose proof (Z.log2_nonneg i).
  replace (Z.of_nat _) with (Z.log2 i + 1) by lia.
  destruct (Z.eq_dec i 0) as [->|]; [done|].
  pose proof (Z.log2_spec i ltac:(lia)) as [_ Hs].
  eapply Z.lt_le_trans; [exact Hs|]. rewrite Z.add_1_r. apply Z.pow_le_mono_l. lia.
Qed.

Lemma writeBack_bytesRequired pre G suf i b :
  0 <= i -> lenZ G = bytesRequired i -> b = lenZ pre + lenZ G - 1 ->
  writeBack (Z.to_nat (Z.log2 i) + 1) (pre ++ G ++ suf) b i
  = pre ++ toBigEndian (Z.to_nat (bytesRequired i)) i ++ suf.
Proof.
  intros Hi HG ->. destruct (bytesRequired_spec i Hi) as (Hp & Hlt & Hge).
  rewrite writeBack_exact.
  - do 3 f_equal. unfold lenZ in HG. lia.
  - split; [done|]. by apply log2_fuel.
  - by rewrite HG.
  - rewrite HG. intros. destruct (Z.eq_dec i 0) as [->|]; [by vm_compute in H|].
    apply Hge. lia.
Qed.

Lemma resize_grow out n : 0 <= n ->
  resize out (lenZ out + n) = out ++ replicate (Z.to_nat n) 0.
Proof.
  intros. unfold resize. rewrite takeZ_all by lia. do 3 f_equal. lia.
Qed.

Lemma lenZ_replicate_nat {A} n (x : A) : lenZ (replicate n x) = Z.of_nat n.
Proof. unfold lenZ. by rewrite length_replicate. Qed.

Lemma pushInt_spec out i : 0 <= i ->
  pushInt out i (bytesRequired i) = out ++ toBigEndian (Z.to_nat (bytesRequired i)) i.
Proof.
  intros Hi. destruct (bytesRequired_spec i Hi) as (Hp & _).
  unfold pushInt. rewrite resize_grow by done.
  pose proof (writeBack_bytesRequired out (replicate (Z.to_nat (bytesRequired i)) 0) [] i) as H.
  rewrite !app_nil_r in H. apply H; [done| |].
  - rewrite lenZ_replicate_nat. lia.
  - rewrite lenZ_app. lia.
Qed.

Lemma bytesRequired_8 n : 0 <= n < 2 ^ 64 -> bytesRequired n <= 8.
Proof. intros. apply bytesRequired_le; [|lia]. change (256 ^ 8) with (2 ^ 64). lia. Qed.

Lemma pushCount_spec s n base : 0 <= n < 2 ^ 64 -> 0 <= base <= 0xf7 ->
  pushCount s n base = Ok (mkStream
    (m_out s ++ (base + bytesRequired n) :: toBigEndian (Z.to_nat (bytesRequired n)) n)
    (m_listStack s)).
Proof.
  intros Hn Hb. pose proof (bytesRequired_8 n Hn). destruct (bytesRequired_spec n) as (? & _); [lia|].
  unfold pushCount. destruct (Z.ltb_spec 0xff (bytesRequired n + base)); [lia|].
  rewrite pushInt_spec, <- app_assoc by lia. simpl. do 4 f_equal.
  unfold wrap. rewrite Z.mod_small; lia.
Qed.

Lemma closeList_spec pre body : lenZ body < 2 ^ 64 ->
  closeList (pre ++ body) (lenZ pre) = Ok (pre ++ hdrLst (lenZ body) ++ body).
Proof.
  intros Hb. pose proof (lenZ_nonneg body). pose proof (lenZ_nonneg pre).
  unfold closeList. rewrite lenZ_app.
  replace (lenZ pre + lenZ body - lenZ pre) with (lenZ body) by lia.
  change c_rlpListImmLenCount with 56. change c_rlpListIndLenZero with 0xf7.
  change c_rlpListStart with 0xc0. set (n := lenZ body) in *.
  pose proof (bytesRequired_8 n ltac:(lia)) as H8. destruct (bytesRequired_spec n) as (Hb0 & _); [lia|].
  set (br := bytesRequired n) in *. set (e := if n <? 56 then 1 else 1 + br).
  assert (He : 1 <= e) by (unfold e; case_match; lia).
  replace (lenZ pre + n) with (lenZ (pre ++ body)) by (rewrite lenZ_app; lia).
  rewrite resize_grow by lia.
  rewrite <- app_assoc, dropZ_app by done. rewrite (takeZ_app n body) by done.
  assert (Hmid : exists G, takeZ (lenZ pre + e) (pre ++ body ++ replicate (Z.to_nat e) 0) = pre ++ G /\ lenZ G = e).
  { exists (takeZ e (body ++ replicate (Z.to_nat e) 0)). split.
    - unfold takeZ. rewrite take_app. rewrite take_ge by (unfold lenZ; lia).
      do 2 f_equal. unfold lenZ. lia.
    - apply lenZ_takeZ. rewrite lenZ_app, lenZ_replicate_nat. lia. }
  destruct Hmid as (G & -> & HG). destruct G as [|g G]; [change (lenZ []) with 0 in HG; lia|].
  rewrite lenZ_cons in HG. rewrite <- app_assoc. simpl app.
  rewrite insert_mid by (unfold lenZ; lia). rewrite insert_mid by (unfold lenZ; lia).
  unfold hdrLst, hdr. fold n br. unfold e in *. destruct (Z.ltb_spec n 56).
  - assert (G = []) as -> by (apply lenZ_0; lia). simpl. do 3 f_equal.
    unfold wrap. rewrite Z.mod_small; lia.
  - destruct (Z.leb_spec (0xf7 + br) 0xff); [|lia]. simpl app. f_equal.
    replace (pre ++ u8 (247 + br) :: G ++ body) with ((pre ++ [u8 (247 + br)]) ++ G ++ body)
      by (by rewrite <- app_assoc).
    rewrite writeBack_bytesRequired.
    + rewrite <- app_assoc. simpl. do 2 f_equal. unfold wrap. rewrite Z.mod_small; lia.
    + lia.
    + fold br. lia.
    + rewrite lenZ_app. change (lenZ [_]) with 1. lia.
Qed.

Lemma sizeLimit_lt : sizeLimit < 2 ^ 64.
Proof. done. Qed.

Lemma append_spec s bs : lenZ bs < 2 ^ 64 ->
  append s bs false = noteAppended (mkStream (m_out s ++ encStr bs) (m_listStack s)) 1.
Proof.
  intros Hl. pose proof (lenZ_nonneg bs). unfold append, encStr.
  change c_rlpDataImmLenStart with 0x80. change c_rlpDataImmLenCount with 56.
  change c_rlpDataIndLenZero with 0xb7.
  destruct ((lenZ bs =? 1) && (nthZ bs 0 <? 128)) eqn:E.
  - apply andb_prop in E as [E _]. apply Z.eqb_eq in E.
    destruct bs as [|b [|b' bs]].
    + by vm_compute in E.
    + done.
    + rewrite !lenZ_cons in E. pose proof (lenZ_nonneg bs). lia.
  - unfold hdrStr, hdr. destruct (Z.ltb_spec (lenZ bs) 56).
    + unfold appendRaw. simpl. rewrite <- app_assoc. simpl.
      do 5 f_equal. rewrite Z.add_comm. apply wrap_small. lia.
    + rewrite pushCount_spec by lia. unfold appendRaw. simpl. by rewrite <- app_assoc.
Qed.

Lemma appendInt_spec s i : 0 <= i -> bytesRequired i < 2 ^ 64 ->
  appendInt s i
  = noteAppended (mkStream (m_out s ++ encStr (toCompactBigEndian i 0)) (m_listStack s)) 1.
Proof.
  intros Hi Hbr. destruct (bytesRequired_spec i Hi) as (Hb0 & Hlt & Hge).
  unfold appendInt, toCompactBigEndian. rewrite Z.max_r by done.
  change c_rlpDataImmLenStart with 0x80. change c_rlpDataImmLenCount with 56.
  change c_rlpDataIndLenZero with 0xb7.
  destruct (Z.eqb_spec i 0) as [->|Hi0]; [done|]. destruct Hge as [Hb1 Hge]; [lia|].
  unfold encStr. rewrite toBigEndian_lenZ. rewrite Z2Nat.id by done.
  destruct (Z.ltb_spec i 0x80).
  - assert (Hbr1 : bytesRequired i = 1).
    { pose proof (bytesRequired_le i 1 ltac:(lia) ltac:(lia)). lia. }
    rewrite Hbr1. change (Z.to_nat 1) with 1%nat. simpl toBigEndian. rewrite land_255.
    rewrite Z.mod_small by lia. rewrite nthZ_cons_0.
    replace (i <? 128) with true by (symmetry; apply Z.ltb_lt; lia). cbn [andb].
    rewrite Z.eqb_refl. simpl. do 4 f_equal. unfold wrap. rewrite Z.mod_small; lia.
  - replace ((bytesRequired i =? 1) && _) with false.
    2:{ symmetry. destruct (Z.eqb_spec (bytesRequired i) 1) as [E|]; [|done]. rewrite E in *.
        change (Z.to_nat 1) with 1%nat. simpl toBigEndian. rewrite land_255, Z.mod_small by lia.
        rewrite nthZ_cons_0. apply Z.ltb_ge. lia. }
    unfold hdrStr, hdr. destruct (Z.ltb_spec (bytesRequired i) 56).
    + simpl. rewrite pushInt_spec by done. rewrite <- app_assoc. simpl.
      do 4 f_equal. rewrite Z.add_comm. f_equal. apply wrap_small. lia.
    + pose proof (bytesRequired_8 (bytesRequired i) ltac:(lia)).
      destruct (bytesRequired_spec (bytesRequired i)) as (? & _); [lia|].
      destruct (Z.ltb_spec 0xff (0xb7 + bytesRequired (bytesRequired i))); [lia|].
      simpl. rewrite !pushInt_spec by lia. rewrite <- !app_assoc. simpl.
      do 4 f_equal. f_equal. apply wrap_small. lia.
Qed.

Lemma appendList_0 s :
  appendList s 0 = noteAppended (mkStream (m_out s ++ encLst []) (m_listStack s)) 1.
Proof. unfold appendList, appendListBytes, appendRaw. simpl. by rewrite app_nil_r. Qed.

Lemma noteAppended_close pre body st : lenZ body < 2 ^ 64 ->
  noteAppended (mkStream (pre ++ body) ((1, lenZ pre) :: st)) 1
  = noteAppended (mkStream (pre ++ encLst body) st) 1.
Proof.
  intros. unfold noteAppended. simpl. rewrite closeList_spec by done. simpl. by destruct st.
Qed.

Lemma noteAppended_more o k p st : 1 < k ->
  noteAppended (mkStream o ((k, p) :: st)) 1 = Ok (mkStream o ((k - 1, p) :: st)).
Proof.
  intros. unfold noteAppended. simpl. destruct (Z.ltb_spec k 1); [lia|].
  destruct (Z.eqb_spec (k - 1) 0); [lia|]. done.
Qed.

Definition item_sizes_ok (it : item) : Prop :=
  forall s, streamItem it s = noteAppended (mkStream (m_out s ++ enc it) (m_listStack s)) 1.

Lemma streamItems_spec pre rest : Forall item_sizes_ok rest -> rest <> [] ->
  forall dn st, lenZ (dn ++ concat (map enc rest)) < 2 ^ 64 ->
  fold_left (fun r x => let? s := r in streamItem x s) rest
    (Ok (mkStream (pre ++ dn) ((lenZ rest, lenZ pre) :: st)))
  = noteAppended (mkStream (pre ++ encLst (dn ++ concat (map enc rest))) st) 1.
Proof.
  induction 1 as [|x rest Hx Hrest IH]; intros Hne dn st Hlen; [done|].
  simpl fold_left. rewrite Hx. simpl m_out. simpl m_listStack. rewrite <- app_assoc.
  destruct rest as [|y rest].
  - simpl. change (lenZ [x]) with 1. simpl in Hlen. rewrite app_nil_r in *. by rewrite noteAppended_close.
  - rewrite lenZ_cons. rewrite noteAppended_more.
    2:{ rewrite lenZ_cons. pose proof (lenZ_nonneg rest). lia. }
    replace (1 + lenZ (y :: rest) - 1) with (lenZ (y :: rest)) by lia.
    rewrite IH; [|done|].
    + do 3 f_equal. simpl. by rewrite <- app_assoc.
    + simpl in *. by rewrite <- app_assoc.
Qed.

Lemma item_ok_members its : item_ok (Lst its) -> Forall item_ok its.
Proof. intros [H _]. induction its; constructor; simpl in H; tauto. Qed.

Lemma streamItem_spec it s : item_ok it ->
  streamItem it s = noteAppended (mkStream (m_out s ++ enc it) (m_listStack s)) 1.
Proof.
  revert s. induction it as [bs|its IH] using item_ind'; intros s Hok.
  - apply append_spec. destruct Hok. pose proof sizeLimit_lt. lia.
  - simpl. destruct its as [|x its]; [simpl; change (lenZ []) with 0; rewrite appendList_0|].
    + unfold noteAppended. simpl. by destruct (noteAppended_loop _ _ _).
    + unfold appendList. destruct (Z.eqb_spec (lenZ (x :: its)) 0) as [E|E].
      { apply lenZ_0 in E. done. }
      cbn [negb rbind].
      rewrite <- (app_nil_r (m_out s)) at 1. rewrite streamItems_spec; [done| |done|].
      * apply item_ok_members in Hok. rewrite Forall_forall in *.
        intros y Hy s'. apply IH; [done|]. auto.
      * destruct Hok as [_ Hl]. pose proof sizeLimit_lt. rewrite app_nil_l. lia.
Qed.

(** ** Reader lemmas *)

Lemma toBigEndian_head v k : (1 <= k)%nat -> 256 ^ (Z.of_nat k - 1) <= v < 256 ^ Z.of_nat k ->
  nthZ (toBigEndian k v) 0 <> 0.
Proof.
  intros Hk [Hlo Hhi] H0. assert (0 <= v) by (pose proof (Z.pow_pos_nonneg 256 (Z.of_nat k - 1)); lia).
  pose proof (unbe_toBigEndian k v ltac:(lia)) as Hu. rewrite Z.mod_small in Hu by lia.
  pose proof (toBigEndian_lenZ k v) as Hl. pose proof (toBigEndian_ok k v) as Hok.
  destruct (toBigEndian k v) as [|b l] eqn:E; [change (lenZ []) with 0 in Hl; lia|].
  rewrite nthZ_cons_0 in H0. subst b. rewrite unbe_cons in Hu. rewrite lenZ_cons in Hl.
  inversion Hok as [|? ? _ Hl']. apply unbe_bound in Hl'.
  replace (Z.of_nat k - 1) with (lenZ l) in Hlo by lia. lia.
Qed.

Lemma longLength_hdr b n rest : 56 <= n < sizeLimit ->
  longLength (b :: toBigEndian (Z.to_nat (bytesRequired n)) n ++ rest) (bytesRequired n) 56 = Ok n.
Proof.
  intros Hn. assert (n < 2 ^ 64) by (pose proof sizeLimit_lt; lia).
  pose proof (bytesRequired_8 n ltac:(lia)) as H8.
  destruct (bytesRequired_spec n) as (Hb0 & Hlt & Hge); [lia|]. destruct Hge as [Hb1 Hge]; [lia|].
  set (be := toBigEndian _ n). assert (Hbe : lenZ be = bytesRequired n).
  { unfold be. rewrite toBigEndian_lenZ. lia. }
  pose proof (lenZ_nonneg rest).
  assert (Hnz : nthZ (b :: be ++ rest) 1 <> 0).
  { rewrite nthZ_cons_S by lia. rewrite nthZ_app_l by lia. apply toBigEndian_head; [lia|].
    rewrite Z2Nat.id by lia. lia. }
  unfold longLength. rewrite lenZ_cons, lenZ_app, Hbe.
  repeat match goal with |- context [nthZ (b :: be ++ rest) 1 =? 0] =>
    replace (nthZ (b :: be ++ rest) 1 =? 0) with false by (symmetry; apply Z.eqb_neq; done) end.
  rewrite andb_false_r.
  assert (Hr : readLength (b :: be ++ rest) (bytesRequired n) = n).
  { unfold readLength. change (dropZ 1 (b :: be ++ rest)) with (be ++ rest).
    rewrite takeZ_app by done. change (fromBigEndian 64 be = n).
    rewrite fromBigEndian_unbe by (apply toBigEndian_ok || lia).
    unfold be. rewrite unbe_toBigEndian, Z2Nat.id by lia. rewrite (Z.mod_small n) by lia.
    apply wrap_small. lia. }
  rewrite Hr.
  destruct (Z.leb_spec (1 + (bytesRequired n + lenZ rest)) (bytesRequired n)); [lia|].
  destruct (Z.ltb_spec 8 (bytesRequired n)); [lia|].
  destruct (Z.ltb_spec n 56); [lia|].
  unfold sizeLimit in Hn. destruct (Z.leb_spec (2 ^ 64 - 1 - 256) n); [lia|]. done.
Qed.

(** What the reader computes on [e ++ rest] when [e] is a canonical encoding:
    the announced length, the payload offset and the kind. *)
Definition reads_as (e body rest : list Z) (data : bool) : Prop :=
  isData (e ++ rest) = data /\ isList (e ++ rest) = negb data /\
  length_ (e ++ rest) = Ok (lenZ body) /\
  payloadOffset (e ++ rest) + lenZ body = lenZ e /\ 0 <= payloadOffset (e ++ rest) /\
  dropZ (payloadOffset (e ++ rest)) e = body /\ lenZ e < 2 ^ 64 /\ 1 <= lenZ e.

Ltac rlp_consts :=
  change c_rlpDataImmLenStart with 0x80 in *; change c_rlpListStart with 0xc0 in *;
  change c_rlpMaxLengthBytes with 8 in *;
  change c_rlpDataImmLenCount with 56 in *; change c_rlpDataIndLenZero with 0xb7 in *;
  change c_rlpListImmLenCount with 56 in *; change c_rlpListIndLenZero with 0xf7 in *.

Ltac zcond :=
  repeat (match goal with
  | |- context [?a =? ?b] => destruct (Z.eqb_spec a b); try lia
  | |- context [?a <? ?b] => destruct (Z.ltb_spec a b); try lia
  | |- context [?a <=? ?b] => destruct (Z.leb_spec a b); try lia
  end; cbn [negb andb orb rbind]).

Lemma reads_encStr bs rest : bytes_ok bs -> lenZ bs < sizeLimit -> reads_as (encStr bs) bs rest true.
Proof.
  intros Hok Hl. pose proof (lenZ_nonneg bs). pose proof (lenZ_nonneg rest).
  unfold reads_as, encStr. destruct ((lenZ bs =? 1) && (nthZ bs 0 <? 128)) eqn:E.
  - apply andb_prop in E as [E1 E2]. apply Z.eqb_eq in E1. apply Z.ltb_lt in E2.
    destruct bs as [|b [|b' bs]]; [by vm_compute in E1| |rewrite !lenZ_cons in E1; pose proof (lenZ_nonneg bs); lia].
    rewrite nthZ_cons_0 in E2. inversion Hok as [|? ? [Hb ?] _]; subst.
    unfold isData, isList, length_, payloadOffset, isSingleByte, requireGood, isNull. rlp_consts.
    change ([b] ++ rest) with (b :: rest). change (nthZ (b :: rest) 0) with b.
    rewrite !lenZ_cons. change (lenZ (@nil Z)) with 0.
    zcond; repeat split; try done; lia.
  - unfold hdrStr, hdr. destruct (Z.ltb_spec (lenZ bs) 56).
    + assert (Hgood : lenZ bs = 1 -> 128 <= nthZ (bs ++ rest) 0).
      { intros E1. rewrite nthZ_app_l by lia. rewrite E1 in E. simpl in E. apply Z.ltb_ge in E. done. }
      simpl app. set (d := _ :: bs ++ rest).
      assert (Hd0 : nthZ d 0 = 128 + lenZ bs) by done.
      assert (Hdl : lenZ d = 1 + (lenZ bs + lenZ rest)) by (unfold d; by rewrite lenZ_cons, lenZ_app).
      assert (Hd1 : nthZ d 1 = nthZ (bs ++ rest) 0) by (unfold d; by rewrite nthZ_cons_S by lia).
      unfold isData, isList, length_, payloadOffset, isSingleByte, lengthSize, requireGood, isNull, isData, isList, isNull.
      rlp_consts. rewrite Hd0, Hd1, Hdl. rewrite lenZ_cons.
      zcond; repeat split; try done; try lia; try (f_equal; lia).
    + simpl app. rewrite <- app_assoc. set (d := _ :: toBigEndian _ _ ++ bs ++ rest).
      pose proof (longLength_hdr (183 + bytesRequired (lenZ bs)) (lenZ bs) (bs ++ rest) ltac:(lia)) as HL.
      fold d in HL.
      assert (Hd0 : nthZ d 0 = 183 + bytesRequired (lenZ bs)) by done.
      assert (lenZ bs < 2 ^ 64) by (pose proof sizeLimit_lt; lia).
      pose proof (bytesRequired_8 (lenZ bs) ltac:(lia)).
      destruct (bytesRequired_spec (lenZ bs)) as (_ & _ & [Hb1 _]); [lia|lia|].
      assert (Hdl : lenZ d = 1 + (bytesRequired (lenZ bs) + (lenZ bs + lenZ rest))).
      { unfold d. rewrite lenZ_cons, !lenZ_app, toBigEndian_lenZ. lia. }
      unfold isData, isList, length_, payloadOffset, isSingleByte, lengthSize, requireGood, isNull, isData, isList, isNull.
      rlp_consts. rewrite Hd0, Hdl. rewrite !lenZ_cons, !lenZ_app, toBigEndian_lenZ.
      zcond.
      replace (183 + bytesRequired (lenZ bs) - 183) with (bytesRequired (lenZ bs)) by lia.
      change (192 - 128 - 8) with 56. rewrite HL. 
      repeat split; try done; try lia; try (unfold sizeLimit in *; lia).
      rewrite Z.add_comm. unfold dropZ. replace (Z.to_nat _) with (S (Z.to_nat (bytesRequired (lenZ bs)))) by lia.
      simpl. apply drop_app_length'. by rewrite toBigEndian_length.
Qed.

Lemma reads_encLst body rest : lenZ body < sizeLimit -> reads_as (encLst body) body rest false.
Proof.
  intros Hl. pose proof (lenZ_nonneg body). pose proof (lenZ_nonneg rest).
  unfold reads_as, encLst, hdrLst, hdr. destruct (Z.ltb_spec (lenZ body) 56).
  - simpl app. set (d := _ :: body ++ rest).
    assert (Hd0 : nthZ d 0 = 192 + lenZ body) by done.
    assert (Hdl : lenZ d = 1 + (lenZ body + lenZ rest)) by (unfold d; by rewrite lenZ_cons, lenZ_app).
    unfold isData, isList, length_, payloadOffset, isSingleByte, lengthSize, requireGood, isNull, isData, isList, isNull.
    rlp_consts. rewrite Hd0, Hdl. rewrite lenZ_cons.
    zcond; repeat split; try done; try lia; try (f_equal; lia).
  - simpl app. rewrite <- app_assoc. set (d := _ :: toBigEndian _ _ ++ body ++ rest).
    pose proof (longLength_hdr (247 + bytesRequired (lenZ body)) (lenZ body) (body ++ rest) ltac:(lia)) as HL.
    fold d in HL.
    assert (Hd0 : nthZ d 0 = 247 + bytesRequired (lenZ body)) by done.
    assert (lenZ body < 2 ^ 64) by (pose proof sizeLimit_lt; lia).
    pose proof (bytesRequired_8 (lenZ body) ltac:(lia)).
    destruct (bytesRequired_spec (lenZ body)) as (_ & _ & [Hb1 _]); [lia|lia|].
    assert (Hdl : lenZ d = 1 + (bytesRequired (lenZ body) + (lenZ body + lenZ rest))).
    { unfold d. rewrite lenZ_cons, !lenZ_app, toBigEndian_lenZ. lia. }
    unfold isData, isList, length_, payloadOffset, isSingleByte, lengthSize, requireGood, isNull, isData, isList, isNull.
    rlp_consts. rewrite Hd0, Hdl. rewrite !lenZ_cons, !lenZ_app, toBigEndian_lenZ.
    zcond.
    replace (247 + bytesRequired (lenZ body) - 247) with (bytesRequired (lenZ body)) by lia.
    change (256 - 192 - 8) with 56. rewrite HL. 
    repeat split; try done; try lia; try (unfold sizeLimit in *; lia).
    rewrite Z.add_comm. unfold dropZ. replace (Z.to_nat _) with (S (Z.to_nat (bytesRequired (lenZ body)))) by lia.
    simpl. apply drop_app_length'. by rewrite toBigEndian_length.
Qed.

Lemma isNull_cons_false (e rest : list Z) : 1 <= lenZ e -> isNull (e ++ rest) = false.
Proof.
  intros. unfold isNull. rewrite lenZ_app. pose proof (lenZ_nonneg rest). apply Z.eqb_neq. lia.
Qed.

Lemma actualSize_reads e body rest k : reads_as e body rest k ->
  actualSize (e ++ rest) = Ok (lenZ e).
Proof.
  intros (Hd & Hls & Hlen & Hoff & H0 & _ & H64 & H1). unfold actualSize.
  rewrite isNull_cons_false by done. destruct (isSingleByte (e ++ rest)) eqn:Es.
  - assert (lenZ body = 1).
    { revert Hlen. unfold length_. rewrite isNull_cons_false by done.
      unfold isSingleByte in Es. apply andb_prop in Es as [_ Es]. rewrite Es.
      unfold requireGood. rewrite isNull_cons_false by done.
      apply Z.ltb_lt in Es. rlp_consts. destruct (Z.eqb_spec (nthZ (e ++ rest) 0) (128 + 1)); [lia|].
      simpl. by intros [= <-]. }
    unfold payloadOffset in *. rewrite Es in *. f_equal. lia.
  - rewrite Hd, Hls. replace (k || negb k) with true by (by destruct k).
    rewrite Hlen. simpl. f_equal. rewrite wrap_small; lia.
Qed.

Lemma sizeAsEncoded_reads e body rest k : reads_as e body rest k ->
  sizeAsEncoded (e ++ rest) = Ok (lenZ e).
Proof.
  intros Hr. pose proof (actualSize_reads _ _ _ _ Hr) as Ha.
  unfold sizeAsEncoded, RLP_ctor. simpl. rewrite Ha. simpl.
  destruct (Z.ltb_spec (lenZ (e ++ rest)) (lenZ e)) as [Hlt|_].
  - rewrite lenZ_app in Hlt. pose proof (lenZ_nonneg rest). lia.
  - simpl. by rewrite Ha.
Qed.

Lemma RLP_ctor_reads e body k s : reads_as e body [] k -> RLP_ctor e s = Ok e.
Proof.
  intros Hr. pose proof (actualSize_reads _ _ _ _ Hr) as Ha. rewrite app_nil_r in Ha.
  unfold RLP_ctor. rewrite !Ha. destruct (has s FailIfTooBig); simpl; rewrite ?Z.ltb_irrefl; simpl;
    destruct (has s FailIfTooSmall); simpl; rewrite ?Ha; simpl; rewrite ?Z.ltb_irrefl; done.
Qed.

Lemma payload_reads e body rest k : reads_as e body rest k -> payload (e ++ rest) = Ok body.
Proof.
  intros (Hd & Hls & Hlen & Hoff & H0 & Hdrop & H64 & H1). unfold payload. rewrite Hlen. simpl.
  pose proof (lenZ_nonneg rest). pose proof (lenZ_nonneg body). rewrite lenZ_app.
  destruct (Z.ltb_spec (lenZ e + lenZ rest) (lenZ body)); [lia|].
  f_equal. unfold cropped. rewrite lenZ_app. set (o := payloadOffset (e ++ rest)) in *.
  rewrite (wrap_small 64) by lia.
  replace (_ && _ && _) with true by (symmetry; rewrite !andb_true_iff, !Z.leb_le; lia).
  destruct (Z.eqb_spec (lenZ body) (2 ^ 64 - 1)) as [E|E].
  - assert (o = 0) as Ho by lia. rewrite Ho in *. rewrite dropZ_0 in *. subst body.
    (* a full-width payload cannot happen with a header in front of it *)
    exfalso. clear -Hlen H1 E Hd. revert Hlen. unfold length_.
    rewrite isNull_cons_false by done. destruct (requireGood _); [|done]. simpl.
    unfold longLength. repeat case_match; intros [=]; rlp_consts; try lia.
  - rewrite <- Hdrop at 2. unfold takeZ, dropZ. rewrite drop_app_le by (unfold lenZ in *; lia).
    apply take_app_length'. rewrite length_drop. unfold lenZ in *. lia.
Qed.

(** The canonical encodings, as the reader sees them in front of any other bytes. *)
Lemma reads_enc it rest : item_ok it ->
  reads_as (enc it) (match it with Str bs => bs | Lst its => concat (map enc its) end) rest
    (match it with Str _ => true | Lst _ => false end).
Proof.
  destruct it as [bs|its]; intros [H1 H2]; simpl.
  - by apply reads_encStr.
  - by apply reads_encLst.
Qed.

Lemma enc_nonempty it : item_ok it -> 1 <= lenZ (enc it).
Proof. intros H. by destruct (reads_enc it [] H) as (_ & _ & _ & _ & _ & _ & _ & ?). Qed.

Lemma it_bytes_mid P x rest rem :
  it_bytes (P ++ x ++ rest) (mkIter (Some (lenZ P)) (lenZ x) rem) = x.
Proof. unfold it_bytes. simpl. rewrite dropZ_app, takeZ_app by done. done. Qed.

Lemma toList_loop_spec P x its ret fuel : Forall item_ok (x :: its) ->
  (length its + 2 <= fuel)%nat ->
  toList_loop fuel (P ++ enc x ++ concat (map enc its))
    (mkIter (Some (lenZ P)) (lenZ (enc x)) (lenZ (concat (map enc its)))) ret
  = Some (Ok (ret ++ enc x :: map enc its)).
Proof.
  revert P x ret fuel. induction its as [|y its IH]; intros P x ret fuel Hok Hf;
    inversion Hok as [|? ? Hx Hits]; subst; destruct fuel as [|fuel]; try (simpl in Hf; lia);
    cbn [toList_loop]; set (d := P ++ enc x ++ _).
  all: pose proof (enc_nonempty x Hx).
  all: unfold it_eqb; cbn [it_count end_];
    replace (lenZ (enc x) =? 0) with false by (symmetry; apply Z.eqb_neq; lia);
    rewrite andb_false_r; unfold d; rewrite it_bytes_mid;
    rewrite (RLP_ctor_reads _ _ _ _ (reads_enc x [] Hx)); unfold incr; cbn [it_remaining].
  - simpl. destruct fuel as [|fuel]; [simpl in Hf; lia|]. simpl. unfold it_eqb, end_, next_ptr. simpl.
    rewrite bool_decide_true; [done|]. rewrite app_nil_r, lenZ_app. done.
  - inversion Hits as [|? ? Hy Hits']; subst. pose proof (enc_nonempty y Hy). simpl concat.
    pose proof (lenZ_nonneg (concat (map enc its))).
    destruct (Z.eqb_spec (lenZ (enc y ++ concat (map enc its))) 0) as [E|_];
      [rewrite lenZ_app in E; lia|]. cbn [negb].
    replace (next_ptr _) with (Some (lenZ (P ++ enc x)))
      by (unfold next_ptr; simpl; by rewrite lenZ_app).
    replace (it_bytes _ _) with (enc y ++ concat (map enc its)).
    2:{ unfold it_bytes; simpl. rewrite app_assoc, dropZ_app by done. by rewrite takeZ_all by lia. }
    rewrite (sizeAsEncoded_reads _ _ _ _ (reads_enc y _ Hy)). simpl. rewrite lenZ_app.
    destruct (Z.leb_spec (lenZ (enc y)) (lenZ (enc y) + lenZ (concat (map enc its)))); [|lia]. simpl.
    replace (_ - _) with (lenZ (concat (map enc its))) by lia.
    rewrite app_assoc. rewrite IH; [by rewrite <- app_assoc|done|simpl in Hf; lia].
Qed.

Lemma length_its_le its : Forall item_ok its -> (length its <= length (concat (map enc its)))%nat.
Proof.
  induction 1 as [|x its Hx _ IH]; simpl; [done|]. rewrite length_app.
  pose proof (enc_nonempty x Hx). unfold lenZ in *. lia.
Qed.

Lemma encLst_split body : exists h, encLst body = h ++ body /\
  (lenZ body < sizeLimit -> forall rest, payloadOffset (encLst body ++ rest) = lenZ h) /\ 1 <= lenZ h.
Proof.
  exists (hdrLst (lenZ body)). split; [done|]. split.
  - intros H rest. destruct (reads_encLst body rest H) as (_ & _ & _ & Ho & _).
    unfold encLst in Ho at 2. rewrite lenZ_app in Ho. lia.
  - unfold hdrLst, hdr. case_match; rewrite lenZ_cons; [simpl|]; pose proof (lenZ_nonneg (toBigEndian (Z.to_nat (bytesRequired (lenZ body))) (lenZ body))); unfold lenZ in *; simpl in *; lia.
Qed.

Lemma toList_enc its flags : item_ok (Lst its) ->
  toList (enc (Lst its)) flags = Some (Ok (map enc its)).
Proof.
  intros Hok. pose proof (item_ok_members its Hok) as Hm.
  pose proof (reads_enc (Lst its) [] Hok) as Hr.
  pose proof (payload_reads _ _ _ _ Hr) as Hp. rewrite app_nil_r in Hp.
  destruct Hr as (_ & Hl & Hlen & Hoff & _ & _ & H64 & _). rewrite (app_nil_r (enc (Lst its))) in *.
  unfold toList. rewrite Hl. cbn [negb]. unfold begin_. rewrite Hl, Hp, Hlen. cbn [rbind negb].
  rewrite (wrap_small 64) by (destruct Hok; pose proof (lenZ_nonneg (concat (map enc its)));
    destruct (encLst_split (concat (map enc its))) as (h & _ & Ho & Hh); specialize (Ho ltac:(done) []);
    rewrite app_nil_r in Ho; change (enc (Lst its)) with (encLst (concat (map enc its))) in *; lia).
  rewrite Hoff, Z.leb_refl.
  destruct (encLst_split (concat (map enc its))) as (h & Hh & Ho & Hh1).
  destruct Hok as [_ Hs]. specialize (Ho Hs []). rewrite app_nil_r in Ho.
  change (enc (Lst its)) with (encLst (concat (map enc its))) in *.
  destruct its as [|x its].
  - vm_compute. done.
  - inversion Hm as [|? ? Hx Hm']; subst. simpl concat in *.
    rewrite (sizeAsEncoded_reads _ _ _ _ (reads_enc x _ Hx)). cbn [rbind].
    pose proof (lenZ_nonneg (concat (map enc its))). unfold crop_item. rewrite lenZ_app.
    destruct (Z.leb_spec (lenZ (enc x)) (lenZ (enc x) + lenZ (concat (map enc its)))); [|lia].
    replace (lenZ (enc x) + lenZ (concat (map enc its)) - lenZ (enc x)) with (lenZ (concat (map enc its))) by lia.
    rewrite Ho, Hh. rewrite toList_loop_spec; [done|done|].
    rewrite !length_app. pose proof (length_its_le its Hm'). unfold lenZ in *. lia.
Qed.

Lemma toBytes_enc bs flags : item_ok (Str bs) -> toBytes (enc (Str bs)) flags = Ok bs.
Proof.
  intros Hok. pose proof (reads_enc (Str bs) [] Hok) as Hr.
  pose proof (payload_reads _ _ _ _ Hr) as Hp. destruct Hr as (Hd & _ & Hlen & _).
  rewrite (app_nil_r (enc _)) in *. unfold toBytes. rewrite Hd, Hp, Hlen. simpl.
  by rewrite takeZ_all by lia.
Qed.

(** ** The indexing cache *)

Definition cached (its : list item) (r : RLP) (k : nat) : Prop :=
  m_data r = enc (Lst its) /\ m_lastIndex r = Z.of_nat k /\ (k <= length its)%nat /\
  m_lastItem r = nth k (map enc its) [] /\
  m_lastEnd r = lenZ (concat (take (S k) (map enc its))).

Definition cache_ok (its : list item) (r : RLP) : Prop :=
  (m_data r = enc (Lst its) /\ m_lastIndex r = 2 ^ 64 - 1) \/ exists k, cached its r k.

Lemma cropped_front e rest : lenZ e < 2 ^ 64 - 1 -> cropped (e ++ rest) 0 (lenZ e) = e.
Proof.
  intros. pose proof (lenZ_nonneg e). pose proof (lenZ_nonneg rest).
  unfold cropped. rewrite lenZ_app, Z.add_0_l, wrap_small by lia.
  replace (_ && _ && _) with true by (symmetry; rewrite !andb_true_iff, !Z.leb_le; lia).
  destruct (Z.eqb_spec (lenZ e) (2 ^ 64 - 1)); [lia|]. by apply takeZ_app.
Qed.

Lemma members_small its : item_ok (Lst its) -> lenZ (concat (map enc its)) < 2 ^ 64 - 1.
Proof. intros [_ H]. unfold sizeLimit in H. lia. Qed.

Lemma payload_enc its : item_ok (Lst its) -> payload (enc (Lst its)) = Ok (concat (map enc its)).
Proof.
  intros H. pose proof (payload_reads _ _ _ _ (reads_enc (Lst its) [] H)) as Hp.
  by rewrite app_nil_r in Hp.
Qed.

(** [items()] counts the members. *)
Lemma items_loop_spec its fuel i : Forall item_ok its -> (length its < fuel)%nat ->
  items_loop fuel (concat (map enc its)) i = Some (Ok (i + lenZ its)).
Proof.
  intros Hok. revert fuel i. induction Hok as [|x its Hx Hok IH]; intros fuel i Hf; destruct fuel; simpl in Hf; try lia.
  - simpl. by rewrite Z.add_0_r.
  - simpl concat. cbn [items_loop]. pose proof (enc_nonempty x Hx). pose proof (lenZ_nonneg (concat (map enc its))).
    rewrite lenZ_app. destruct (Z.eqb_spec (lenZ (enc x) + lenZ (concat (map enc its))) 0); [lia|].
    rewrite (sizeAsEncoded_reads _ _ _ _ (reads_enc x _ Hx)). unfold cropped_from. rewrite lenZ_app.
    destruct (Z.leb_spec (lenZ (enc x)) (lenZ (enc x) + lenZ (concat (map enc its)))); [|lia].
    rewrite dropZ_app by done. rewrite IH by lia. rewrite lenZ_cons. do 2 f_equal. lia.
Qed.
Lemma items_enc its : item_ok (Lst its) -> items (enc (Lst its)) = Some (Ok (lenZ its)).
Proof.
  intros Hok. pose proof (item_ok_members its Hok) as Hm. destruct (reads_enc (Lst its) [] Hok) as (_ & Hl & _).
  rewrite app_nil_r in Hl. unfold items. rewrite Hl, payload_enc by done.
  apply (items_loop_spec its); [done|]. pose proof (length_its_le its Hm). lia.
Qed.

(** One step of the scan: the item after the first [k]. *)
Lemma scan_step its k : item_ok (Lst its) -> (k <= length its)%nat ->
  let es := map enc its in
  let tail := cropped_from (concat es) (lenZ (concat (take k es))) in
  exists n, sizeAsEncoded tail = Ok n /\ cropped tail 0 n = nth k es [] /\
    u64 (lenZ (concat (take k es)) + lenZ (nth k es [])) = lenZ (concat (take (S k) es)).
Proof.
  intros Hok Hk es tail. pose proof (members_small its Hok) as Hs. pose proof (item_ok_members its Hok) as Hm.
  assert (Hcat : concat es = concat (take k es) ++ concat (drop k es)).
  { by rewrite <- concat_app, take_drop. }
  assert (Htail : tail = concat (drop k es)).
  { unfold tail, cropped_from. rewrite Hcat, lenZ_app. pose proof (lenZ_nonneg (concat (drop k es))).
    destruct (Z.leb_spec (lenZ (concat (take k es))) (lenZ (concat (take k es)) + lenZ (concat (drop k es)))); [|lia].
    by apply dropZ_app. }
  rewrite Htail. fold es in Hs. rewrite Hcat, lenZ_app in Hs.
  pose proof (lenZ_nonneg (concat (take k es))).
  destruct (decide (k < length its)%nat) as [Hlt|Hge].
  - destruct (lookup_lt_is_Some_2 its k Hlt) as [x Hx].
    assert (Hxe : es !! k = Some (enc x)) by (unfold es; by rewrite list_lookup_fmap, Hx).
    rewrite (drop_S _ _ _ Hxe) in *. simpl concat in *.
    assert (Hxo : item_ok x) by (eapply Forall_lookup_1; eauto).
    exists (lenZ (enc x)). rewrite (nth_lookup_Some _ _ _ _ Hxe).
    rewrite lenZ_app in Hs. pose proof (lenZ_nonneg (concat (drop (S k) es))). pose proof (lenZ_nonneg (enc x)).
    split; [exact (sizeAsEncoded_reads _ _ _ _ (reads_enc x _ Hxo))|].
    split; [apply cropped_front; lia|].
    rewrite (take_S_r _ _ _ Hxe), concat_app, lenZ_app. simpl. rewrite app_nil_r. apply wrap_small. lia.
  - assert (k = length its) as -> by lia. exists 0.
    assert (Hle : length es = length its) by (unfold es; by rewrite length_map).
    rewrite nth_overflow by lia. rewrite !drop_ge by lia. rewrite !take_ge by lia.
    split; [done|]. split; [done|]. change (lenZ []) with 0. rewrite Z.add_0_r. apply wrap_small.
    rewrite !drop_ge, !take_ge in Hs by lia. rewrite take_ge in H by lia. simpl in Hs. change (lenZ []) with 0 in Hs. lia.
Qed.

Lemma index_loop_spec its fuel : item_ok (Lst its) -> forall r k i,
  cached its r k -> 0 <= i -> (Z.to_nat i - k <= fuel)%nat -> (k <= Z.to_nat i)%nat ->
  exists r' k', index_loop fuel i r = Ok r' /\ cached its r' k' /\
    m_lastItem r' = nth (Z.to_nat i) (map enc its) [].
Proof.
  intros Hok. induction fuel as [|f IH]; intros r k i Hc Hi Hf Hki.
  - exists r, k. split; [done|]. split; [done|]. destruct Hc as (_ & _ & _ & -> & _). f_equal. lia.
  - pose proof Hc as (Hd & Hidx & Hk & Hit & Hend). simpl. rewrite Hidx.
    destruct (Z.ltb_spec (Z.of_nat k) i) as [Hlt|Hge]; simpl.
    2:{ exists r, k. split; [done|]. split; [done|]. rewrite Hit. f_equal. lia. }
    destruct (Z.eqb_spec (lenZ (m_lastItem r)) 0) as [E|E]; simpl.
    + exists r, k. split; [done|]. split; [done|]. apply lenZ_0 in E. rewrite E.
      rewrite nth_overflow; [done|]. rewrite length_map.
      destruct (decide (k < length its)%nat) as [Hkl|]; [|lia].
      destruct (lookup_lt_is_Some_2 its k Hkl) as [x Hx].
      rewrite Hit in E. erewrite nth_lookup_Some in E by (rewrite list_lookup_fmap, Hx; done).
      pose proof (enc_nonempty x (Forall_lookup_1 _ _ _ _ (item_ok_members its Hok) Hx)) as Hne.
      rewrite E in Hne. by vm_compute in Hne.
    + assert (Hkl : (k < length its)%nat).
      { destruct (decide (k < length its)%nat); [done|]. exfalso. apply E. rewrite Hit.
        rewrite nth_overflow; [done|]. rewrite length_map. lia. }
      rewrite Hd, payload_enc by done. simpl. rewrite Hend.
      destruct (scan_step its (S k) Hok ltac:(lia)) as (n & Hn & Hc' & Hw). rewrite Hn. simpl.
      rewrite Hc', Hw. apply IH with (k := S k); [|done|lia|lia].
      unfold cached. simpl. split; [done|]. split; [lia|]. split; [lia|]. done.
Qed.

Lemma RLP_ctor_nil s : RLP_ctor [] s = Ok [].
Proof.
  unfold RLP_ctor. change (actualSize []) with (@Ok RLPError Z 0). change (lenZ []) with 0. simpl.
  by destruct (has s FailIfTooBig), (has s FailIfTooSmall).
Qed.

Lemma RLP_ctor_member its k s : item_ok (Lst its) ->
  RLP_ctor (nth k (map enc its) []) s = Ok (nth k (map enc its) []).
Proof.
  intros Hok. destruct (its !! k) as [x|] eqn:Hx.
  - erewrite nth_lookup_Some by (rewrite list_lookup_fmap, Hx; done).
    exact (RLP_ctor_reads _ _ _ _ (reads_enc x [] (Forall_lookup_1 _ _ _ _ (item_ok_members its Hok) Hx))).
  - apply lookup_ge_None in Hx. rewrite nth_overflow by (rewrite length_map; lia). apply RLP_ctor_nil.
Qed.

Lemma index_spec its r i : item_ok (Lst its) -> cache_ok its r -> 0 <= i < 2 ^ 64 - 1 ->
  exists r', index r i = Ok (r', nth (Z.to_nat i) (map enc its) []) /\ cache_ok its r'.
Proof.
  intros Hok Hc Hi.
  assert (Hstart : exists r1 k, (k <= Z.to_nat i)%nat /\ cached its r1 k /\
    (if i <? m_lastIndex r then
      let? p := payload (m_data r) in let? n := sizeAsEncoded p in
      let? p' := payload (m_data r) in Ok (mkRLP (m_data r) 0 n (cropped p' 0 n))
     else Ok r) = Ok r1).
  { destruct (Z.ltb_spec i (m_lastIndex r)) as [Hlt|Hge].
    - assert (Hd : m_data r = enc (Lst its)) by (destruct Hc as [[? _]|(k & ? & _)]; done).
      rewrite Hd, payload_enc by done. cbn [rbind].
      destruct (scan_step its 0 Hok ltac:(lia)) as (n & Hn & Hc' & Hw).
      rewrite take_0 in *. change (lenZ (concat [])) with 0 in *. unfold cropped_from in *.
      pose proof (lenZ_nonneg (concat (map enc its))).
      destruct (Z.leb_spec 0 (lenZ (concat (map enc its)))); [|lia]. rewrite dropZ_0 in *.
      rewrite Hn. cbn [rbind]. rewrite Hc'. eexists _, 0%nat. split; [lia|]. split; [|reflexivity].
      unfold cached. simpl m_data. simpl m_lastIndex. simpl m_lastItem. simpl m_lastEnd.
      split; [done|]. split; [done|]. split; [lia|]. split; [done|].
      rewrite <- Hw, Z.add_0_l. destruct its as [|x its]; [by vm_compute in Hn; injection Hn as <-|].
      simpl nth. simpl concat in Hn. pose proof (Forall_inv (item_ok_members _ Hok)) as Hx.
      rewrite (sizeAsEncoded_reads _ _ _ _ (reads_enc x _ Hx)) in Hn. injection Hn as <-.
      symmetry. apply wrap_small. destruct (reads_enc x [] Hx) as (_ & _ & _ & _ & _ & _ & ? & ?). lia.
    - destruct Hc as [[_ E]|(k & Hk)]; [lia|]. exists r, k. split; [|done].
      destruct Hk as (_ & E & _). lia. }
  destruct Hstart as (r1 & k & Hk & Hc1 & Heq). unfold index. rewrite Heq. cbn [rbind].
  assert (Hidx : m_lastIndex r1 = Z.of_nat k) by (destruct Hc1 as (_ & ? & _); done).
  destruct (index_loop_spec its (Z.to_nat (i - m_lastIndex r1)) Hok r1 k i Hc1) as (r2 & k2 & -> & Hc2 & Hit); [lia..|].
  cbn [rbind]. rewrite Hit, RLP_ctor_member by done. cbn [rbind]. exists r2. split; [done|]. right. eauto.
Qed.

(** ** Canonical input: what the strict reader accepts is the encoding of what it yields *)

Lemma longLength_inv d ls n : bytes_ok d -> 1 <= ls -> longLength d ls 56 = Ok n ->
  ls < lenZ d /\ 56 <= n < sizeLimit /\ ls = bytesRequired n /\
  takeZ ls (dropZ 1 d) = toBigEndian (Z.to_nat (bytesRequired n)) n.
Proof.
  intros Hok Hls. unfold longLength.
  destruct (Z.leb_spec (lenZ d) ls); [done|]. destruct (_ && _); [done|].
  destruct (Z.ltb_spec 8 ls); [done|]. destruct (Z.eqb_spec (nthZ d 1) 0) as [|Hnz]; [done|].
  change (readLength d ls) with (fromBigEndian 64 (takeZ ls (dropZ 1 d))).
  set (b := takeZ ls (dropZ 1 d)).
  assert (Hbl : lenZ b = ls) by (unfold b; rewrite lenZ_takeZ; [done|rewrite lenZ_dropZ; lia]).
  assert (Hbok : bytes_ok b) by (unfold b; auto with skaled).
  assert (Hb0 : nthZ b 0 = nthZ d 1).
  { destruct d as [|x [|y d]]; [rewrite lenZ_nil in *; lia|rewrite lenZ_cons, lenZ_nil in *; lia|].
    unfold b. change (dropZ 1 (x :: y :: d)) with (y :: d). unfold takeZ.
    replace (Z.to_nat ls) with (S (Z.to_nat (ls - 1))) by lia. done. }
  pose proof (unbe_bound b Hbok) as Hub. rewrite Hbl in Hub.
  assert (256 ^ ls <= 2 ^ 64). { change (2 ^ 64) with (256 ^ 8). apply Z.pow_le_mono_r; lia. }
  rewrite fromBigEndian_unbe, wrap_small by (done || lia).
  destruct (Z.ltb_spec (unbe b) 56); [done|]. destruct (Z.leb_spec (2 ^ 64 - 1 - 256) (unbe b)); [done|].
  intros [= <-]. unfold sizeLimit. split; [lia|]. split; [lia|].
  assert (Hlo : 256 ^ (ls - 1) <= unbe b).
  { destruct b as [|x b]; [rewrite lenZ_nil in *; lia|]. rewrite nthZ_cons_0 in Hb0. rewrite unbe_cons.
    rewrite lenZ_cons in Hbl. inversion Hbok as [|? ? Hx Hb']; subst. apply unbe_bound in Hb'.
    destruct Hx. replace (1 + lenZ b - 1) with (lenZ b) by lia. nia. }
  assert (Hls' : ls = bytesRequired (unbe b)).
  { pose proof (bytesRequired_le (unbe b) ls ltac:(lia) ltac:(lia)).
    destruct (bytesRequired_spec (unbe b)) as (? & ? & _); [lia|].
    destruct (Z.le_gt_cases ls (bytesRequired (unbe b))); [lia|].
    assert (256 ^ bytesRequired (unbe b) <= 256 ^ (ls - 1)) by (apply Z.pow_le_mono_r; lia). lia. }
  split; [done|]. rewrite <- Hls', <- Hbl. unfold lenZ. rewrite Nat2Z.id. by rewrite toBigEndian_unbe.
Qed.

Lemma RLP_ctor_VeryStrict d m : RLP_ctor d VeryStrict = Ok m -> m = d /\ actualSize d = Ok (lenZ d).
Proof.
  unfold RLP_ctor. change (has VeryStrict FailIfTooBig) with true.
  change (has VeryStrict FailIfTooSmall) with true. change (has VeryStrict ThrowOnFail) with true.
  cbn iota. intros H. apply rbind_ok in H as (m1 & H1 & H2).
  apply rbind_ok in H1 as (a & Ha & H1). destruct (Z.ltb_spec a (lenZ d)); [done|]. injection H1 as <-.
  rewrite Ha in H2. cbn [rbind] in H2. destruct (Z.ltb_spec (lenZ d) a); [done|]. injection H2 as <-.
  split; [done|]. rewrite Ha. f_equal. lia.
Qed.

(** A byte string whose length field parses starts with the canonical header of that
    length, unless it is a single byte. *)
Lemma header_shape n d l : is_byte n -> bytes_ok d -> 128 <= n -> length_ (n :: d) = Ok l ->
  0 <= l < sizeLimit /\ (n = 129 -> 128 <= nthZ (n :: d) 1) /\
  exists h d', n :: d = h ++ d' /\ lenZ h = payloadOffset (n :: d) /\
    h = (if n <? 192 then hdrStr l else hdrLst l).
Proof.
  intros [Hn0 Hn1] Hd Hn Hl. remember (n :: d) as D eqn:ED.
  assert (Hok : bytes_ok D) by (subst D; by constructor). pose proof (lenZ_nonneg d).
  assert (HD0 : nthZ D 0 = n) by (by subst D). assert (HDl : lenZ D = 1 + lenZ d) by (subst D; apply lenZ_cons).
  assert (HD1 : dropZ 1 D = d) by (by subst D).
  assert (HDn : isNull D = false) by (unfold isNull; apply Z.eqb_neq; lia).
  unfold length_ in Hl. rewrite HDn, HD0 in Hl. apply rbind_ok in Hl as (u & Hg & Hl).
  assert (Hg' : n = 129 -> 128 <= nthZ D 1).
  { intros E. unfold requireGood in Hg. rewrite HDn, HD0, E in Hg. simpl in Hg.
    rlp_consts. destruct (lenZ D <? 2); [done|]. destruct (Z.ltb_spec (nthZ D 1) 128) in Hg; [done|lia]. }
  assert (Hlong : forall k, 1 <= k -> longLength D k 56 = Ok l -> lenZ (takeZ k d) = k /\ 56 <= l < sizeLimit /\
    takeZ k d = toBigEndian (Z.to_nat (bytesRequired l)) l /\ k = bytesRequired l /\ D = (n :: takeZ k d) ++ dropZ k d).
  { intros k Hk Hll. apply longLength_inv in Hll as (Hls & Hl2 & Hbr & Hbe); [|done|lia].
    rewrite HD1 in Hbe. rewrite lenZ_takeZ by lia. repeat split; try done; try lia.
    rewrite ED at 1. simpl. f_equal. symmetry. apply takeZ_dropZ. }
  unfold payloadOffset, isSingleByte, lengthSize, isData, isList, hdrStr, hdrLst, hdr. rewrite HDn, HD0.
  rlp_consts. change (192 - 128 - 8) with 56 in Hl. change (256 - 192 - 8) with 56 in Hl.
  destruct (Z.ltb_spec n 128) in Hl; [lia|]. destruct (Z.ltb_spec n 128); [lia|]. cbn [negb andb] in *.
  destruct (Z.leb_spec n 183) in Hl; [|destruct (Z.ltb_spec n 192) in Hl; [|destruct (Z.leb_spec n 247) in Hl]].
  2,4: apply Hlong in Hl as (Hk & Hl & Hbe & Hbr & Hsp); [|lia]; repeat split; try lia; try done;
    eexists _, _; split; [exact Hsp|]; rewrite lenZ_cons; zcond; split; [lia|]; rewrite Hbe; f_equal; lia.
  all: injection Hl as <-; unfold sizeLimit; repeat split; try lia; try done; exists [n], d; split; [done|];
    zcond; split; try done; f_equal; lia.
Qed.

Lemma canonical_single n d : is_byte n -> n < 128 -> lenZ (n :: d) = 1 ->
  payload (n :: d) = Ok [n] /\ length_ (n :: d) = Ok 1 /\ n :: d = encStr [n].
Proof.
  intros [? ?] Hn Hl. assert (d = []) as -> by (apply lenZ_0; rewrite lenZ_cons in Hl; lia).
  pose proof (reads_encStr [n] [] ltac:(by repeat constructor) ltac:(done)) as Hr.
  assert (E : encStr [n] = [n]).
  { unfold encStr. rewrite nthZ_cons_0. destruct (Z.ltb_spec n 128); [done|lia]. }
  rewrite E in *. pose proof (payload_reads _ _ _ _ Hr) as Hp. destruct Hr as (_ & _ & Hlen & _). done.
Qed.

Lemma hdr_length start ind l : 0 <= l < 2 ^ 64 -> 1 <= lenZ (hdr start ind l) <= 9.
Proof.
  intros. pose proof (bytesRequired_8 l ltac:(lia)). destruct (bytesRequired_spec l); [lia|].
  unfold hdr. case_match; rewrite lenZ_cons, ?toBigEndian_lenZ, ?lenZ_nil; lia.
Qed.

Lemma canonical_shape d : bytes_ok d -> d <> [] -> lenZ d < 2 ^ 64 -> actualSize d = Ok (lenZ d) ->
  exists body, payload d = Ok body /\ length_ d = Ok (lenZ body) /\ lenZ body < sizeLimit /\
    bytes_ok body /\ d = (if isData d then encStr body else encLst body).
Proof.
  intros Hok Hne H64 Ha. destruct d as [|n d]; [done|].
  pose proof (Forall_inv Hok) as Hn. pose proof (Forall_inv_tail Hok) as Hd.
  assert (HDn : isNull (n :: d) = false).
  { unfold isNull. apply Z.eqb_neq. rewrite lenZ_cons. pose proof (lenZ_nonneg d). lia. }
  revert Ha. unfold actualSize, isSingleByte, isData, isList. rewrite HDn, nthZ_cons_0. rlp_consts. cbn [negb andb].
  destruct (Z.ltb_spec n 128) as [Hn'|Hn'].
  { intros Ha. assert (Hl1 : lenZ (n :: d) = 1) by congruence.
    destruct (canonical_single n d Hn Hn' Hl1) as (Hp & Hl & He). exists [n]. rewrite Hp, Hl.
    destruct (Z.ltb_spec n 192); [|lia]. repeat split; try done. by apply Forall_singleton. }
  replace ((n <? 192) || (192 <=? n)) with true by (destruct (Z.ltb_spec n 192), (Z.leb_spec 192 n); done || lia).
  intros Ha. apply rbind_ok in Ha as (l & Hl & Ha). assert (Ha' : u64 (payloadOffset (n :: d) + l) = lenZ (n :: d)) by congruence.
  destruct (header_shape n d l Hn Hd Hn' Hl) as (Hl0 & Hg & h & body & Hsp & Hhl & Hh).
  assert (Hh9 : 1 <= lenZ h <= 9) by (rewrite Hh; unfold sizeLimit in *; case_match; apply hdr_length; lia).
  rewrite <- Hhl in Ha'. assert (Hbl : lenZ body = l).
  { assert (lenZ (n :: d) = lenZ h + lenZ body) as Hla by (rewrite Hsp; apply lenZ_app).
    unfold sizeLimit in *. rewrite wrap_small in Ha'; lia. }
  exists body. rewrite Hbl. assert (Hbok : bytes_ok body) by (rewrite Hsp in Hok; apply bytes_ok_app in Hok; tauto).
  assert (He : n :: d = (if n <? 192 then encStr body else encLst body)).
  { rewrite Hsp, Hh. destruct (Z.ltb_spec n 192); [|unfold encLst; by rewrite Hbl]. unfold encStr. rewrite Hbl.
    replace ((l =? 1) && (nthZ body 0 <? 128)) with false; [done|]. symmetry.
    destruct (Z.eqb_spec l 1) as [->|]; [|done]. simpl. apply Z.ltb_ge. change (h = [129]) in Hh. subst h.
    injection Hsp as -> ->. by apply Hg. }
  split; [|repeat split; try done; lia].
  destruct (n <? 192); rewrite He, <- (app_nil_r (_ body)); eapply payload_reads;
    [apply reads_encStr|apply reads_encLst]; try done; lia.
Qed.

(** ** Iterating over accepted input *)

Lemma length_bound d l : bytes_ok d -> length_ d = Ok l -> 0 <= l < sizeLimit.
Proof.
  intros Hok Hl. destruct d as [|n d]; [injection Hl as <-; by unfold sizeLimit|].
  pose proof (Forall_inv Hok) as Hn. destruct (Z.ltb_spec n 128) as [Hlt|Hge].
  - revert Hl. unfold length_, requireGood, isNull. rewrite nthZ_cons_0, lenZ_cons.
    pose proof (lenZ_nonneg d). rlp_consts. zcond. intros [= <-]. by unfold sizeLimit.
  - by destruct (header_shape n d l Hn (Forall_inv_tail Hok) Hge Hl) as (? & _).
Qed.

Lemma payloadOffset_bound d : bytes_ok d -> 0 <= payloadOffset d <= 9 /\ (isSingleByte d = false -> 1 <= payloadOffset d).
Proof.
  intros Hok. pose proof (bytes_ok_nth d 0 Hok) as [? ?].
  unfold payloadOffset, lengthSize, isData, isList. rlp_consts.
  destruct (isSingleByte d); destruct (negb (isNull d)); zcond; lia.
Qed.

Lemma sizeAsEncoded_bound d n : bytes_ok d -> sizeAsEncoded d = Ok n ->
  0 <= n <= lenZ d /\ (d <> [] -> 1 <= n).
Proof.
  intros Hok. unfold sizeAsEncoded, RLP_ctor.
  change (has (Z.lor ThrowOnFail FailIfTooSmall) FailIfTooBig) with false.
  change (has (Z.lor ThrowOnFail FailIfTooSmall) FailIfTooSmall) with true.
  change (has (Z.lor ThrowOnFail FailIfTooSmall) ThrowOnFail) with true. cbn [rbind].
  intros H. apply rbind_ok in H as (m & H & Hn). apply rbind_ok in H as (a & Ha & H).
  destruct (Z.ltb_spec (lenZ d) a); [done|]. injection H as <-. rewrite Ha in Hn. injection Hn as <-.
  revert Ha. unfold actualSize. destruct (isNull d) eqn:En.
  { intros [= <-]. unfold isNull in En. apply Z.eqb_eq, lenZ_0 in En. subst. split; [done|by intros []]. }
  destruct (isSingleByte d) eqn:Es; [intros [= <-]; lia|].
  replace (isData d || isList d) with true.
  2:{ unfold isData, isList. rewrite En. simpl. destruct (Z.ltb_spec (nthZ d 0) c_rlpListStart);
      destruct (Z.leb_spec c_rlpListStart (nthZ d 0)); done || lia. }
  intros Ha. apply rbind_ok in Ha as (l & Hl & Ha). pose proof (length_bound d l Hok Hl).
  destruct (payloadOffset_bound d Hok) as [? H1]. specialize (H1 Es). unfold sizeLimit in *.
  rewrite wrap_small in Ha by lia. injection Ha as <-. lia.
Qed.

(** The state of the iteration: the current item, then the remaining bytes, up to the end. *)
Definition iter_ok (d : list Z) (it : iterator) : Prop :=
  exists p, it_ptr it = Some p /\ 0 <= p /\ 0 <= it_count it /\ 0 <= it_remaining it /\
    p + it_count it + it_remaining it = lenZ d /\ (it_count it = 0 -> it_remaining it = 0).

Lemma iter_incr d it it' : bytes_ok d -> iter_ok d it -> incr d it = Ok it' ->
  iter_ok d it' /\ next_ptr it = it_ptr it' /\
  it_count it' + it_remaining it' = it_remaining it /\
  (it_remaining it <> 0 -> it_remaining it' < it_remaining it).
Proof.
  intros Hok (p & Hp & Hp0 & Hc & Hr & Hsum & Hz). unfold incr.
  assert (Hnp : next_ptr it = Some (p + it_count it)) by (unfold next_ptr; by rewrite Hp).
  rewrite Hnp. destruct (Z.eqb_spec (it_remaining it) 0) as [E|E]; cbn [negb].
  - intros [= <-]. simpl. split; [|split; [done|lia]].
    exists (p + it_count it). simpl. repeat split; lia.
  - intros H. apply rbind_ok in H as (n & Hn & H).
    set (b := it_bytes d (mkIter (Some (p + it_count it)) (it_remaining it) 0)) in *.
    assert (Hbl : lenZ b = it_remaining it).
    { unfold b, it_bytes. simpl. rewrite lenZ_takeZ; [done|]. rewrite lenZ_dropZ; lia. }
    assert (Hbok : bytes_ok b) by (unfold b, it_bytes; simpl; auto with skaled).
    apply sizeAsEncoded_bound in Hn as [Hn Hn1]; [|done]. rewrite Hbl in Hn.
    specialize (Hn1 ltac:(intros Eb; rewrite Eb in Hbl; rewrite lenZ_nil in Hbl; lia)).
    unfold crop_item in H. destruct (Z.leb_spec n (it_remaining it)); [|lia]. injection H as <-. simpl.
    split; [|split; [done|lia]]. exists (p + it_count it). simpl. repeat split; lia.
Qed.

Lemma it_bytes_concat (d : list Z) p c r : 0 <= p -> 0 <= c -> 0 <= r -> p + c + r = lenZ d ->
  takeZ c (dropZ p d) ++ dropZ (p + c) d = dropZ p d.
Proof. intros. rewrite <- dropZ_dropZ by lia. apply takeZ_dropZ. Qed.

Lemma toList_loop_terminates d fuel it ret : bytes_ok d -> iter_ok d it ->
  (Z.to_nat (it_remaining it) + 2 <= fuel)%nat ->
  exists r, toList_loop fuel d it ret = Some r /\
    (forall l, r = Ok l -> exists p, it_ptr it = Some p /\ concat l = concat ret ++ dropZ p d).
Proof.
  intros Hok. revert it ret. induction fuel as [|f IH]; intros it ret Hit Hf; [lia|].
  pose proof Hit as (p & Hp & Hp0 & Hc & Hr & Hsum & Hz). simpl.
  destruct (it_eqb it (end_ d)) eqn:Eend; unfold it_eqb in Eend; cbn [it_ptr it_count end_] in Eend; rewrite Hp in Eend.
  { eexists. split; [done|]. intros l [= <-]. exists p. split; [done|].
    apply andb_prop in Eend as [E _]. apply bool_decide_eq_true in E. injection E as ->.
    unfold dropZ. rewrite drop_ge by (unfold lenZ; lia). by rewrite app_nil_r. }
  assert (Hc1 : 0 < it_count it).
  { destruct (Z.eq_dec (it_count it) 0) as [E|]; [|lia]. exfalso. rewrite E in *. specialize (Hz eq_refl).
    rewrite bool_decide_true in Eend; [done|]. f_equal. lia. }
  destruct (RLP_ctor (it_bytes d it) VeryStrict) as [item|e] eqn:Eit; [|by eexists].
  apply RLP_ctor_VeryStrict in Eit as [-> _].
  destruct (incr d it) as [it'|e] eqn:Ei; [|by eexists].
  destruct (iter_incr d it it' Hok Hit Ei) as (Hit' & Hnp & Hsum' & Hdec).
  assert (Hb : forall q, it_ptr it' = Some q -> q = p + it_count it).
  { intros q Hq. rewrite <- Hnp in Hq. unfold next_ptr in Hq. rewrite Hp in Hq. simpl in Hq. congruence. }
  assert (Hbytes : it_bytes d it ++ dropZ (p + it_count it) d = dropZ p d).
  { unfold it_bytes. rewrite Hp. eapply it_bytes_concat; eauto. }
  destruct (Z.eq_dec (it_remaining it) 0) as [E0|E0].
  - (* the last item: the incremented iterator is the end *)
    pose proof Hit' as (q & Hq & _ & Hq1 & Hq2 & Hq3 & _). pose proof (Hb q Hq) as ->.
    destruct f as [|f]; [lia|]. simpl. unfold it_eqb, end_. cbn [it_ptr it_count]. rewrite Hq.
    rewrite bool_decide_true by (f_equal; lia). destruct (Z.eqb_spec (it_count it') 0); [|lia]. cbn [andb].
    eexists. split; [done|]. intros l [= <-]. exists p. split; [done|].
    rewrite concat_app. simpl. rewrite app_nil_r, <- Hbytes.
    replace (dropZ (p + it_count it) d) with (@nil Z); [by rewrite app_nil_r|].
    unfold dropZ. rewrite drop_ge by (unfold lenZ in *; lia). done.
  - destruct (IH it' (ret ++ [it_bytes d it]) Hit') as (r & -> & Hcat); [lia|].
    eexists. split; [done|]. intros l ->. destruct (Hcat l eq_refl) as (q & Hq & ->).
    exists p. split; [done|]. rewrite (Hb q Hq). rewrite concat_app. simpl. by rewrite app_nil_r, <- app_assoc, Hbytes.
Qed.

Lemma begin_iter_ok d it : bytes_ok d -> lenZ d < 2 ^ 64 -> actualSize d = Ok (lenZ d) -> isList d = true ->
  begin_ d = Ok it -> iter_ok d it /\ it_ptr it = Some (payloadOffset d) /\
  payload d = Ok (dropZ (payloadOffset d) d) /\ 0 <= payloadOffset d <= lenZ d.
Proof.
  intros Hok H64 Ha Hl. assert (Hne : d <> []) by (by intros ->).
  destruct (canonical_shape d Hok Hne H64 Ha) as (body & Hp & Hlen & Hlim & Hbok & Hd).
  assert (Hnd : isData d = false).
  { unfold isData, isList in *. apply andb_prop in Hl as [-> Hl]. apply Z.leb_le in Hl. simpl. apply Z.ltb_ge. lia. }
  rewrite Hnd in Hd. destruct (reads_encLst body [] Hlim) as (_ & _ & _ & Hoff & Ho0 & Hdrop & _ & _).
  rewrite app_nil_r, <- Hd in Hoff, Ho0, Hdrop. pose proof (lenZ_nonneg body).
  unfold begin_. rewrite Hl, Hp, Hlen. cbn [rbind]. unfold sizeLimit in *.
  rewrite (wrap_small 64), Hoff, Z.leb_refl by lia. intros Hbg. apply rbind_ok in Hbg as (n & Hn & H').
  apply sizeAsEncoded_bound in Hn as [Hn Hn1]; [|done]. unfold crop_item in H'.
  destruct (Z.leb_spec n (lenZ body)); [|lia]. injection H' as <-.
  split; [|split; [done|split; [by rewrite Hdrop|lia]]].
  exists (payloadOffset d). simpl. repeat split; try lia. intros ->.
  destruct body as [|b body]; [done|]. specialize (Hn1 ltac:(done)). lia.
Qed.

Lemma toInt_encStr bs w m flags : bytes_ok bs -> lenZ bs < 56 -> lenZ bs <= m -> 0 <= w ->
  (bs <> [] -> nthZ bs 0 <> 0) -> toInt w m (encStr bs) flags = Ok (wrap w (unbe bs)).
Proof.
  intros Hok Hl Hm Hw Hnz. pose proof (lenZ_nonneg bs).
  pose proof (reads_encStr bs [] Hok ltac:(unfold sizeLimit; lia)) as Hr.
  pose proof (payload_reads _ _ _ _ Hr) as Hp. destruct Hr as (Hd & Hls & Hlen & Hoff & Ho & Hdrop & _ & H1).
  rewrite app_nil_r in *. set (d := encStr bs) in *.
  assert (Hnn : isNull d = false) by (unfold isNull; apply Z.eqb_neq; lia).
  assert (Hg : requireGood d = Ok tt).
  { revert Hlen. unfold length_. rewrite Hnn. by destruct (requireGood d) as [[]|]. }
  assert (Hint : isInt d = Ok true).
  { unfold isInt. rewrite Hnn, Hg. cbn [rbind]. destruct bs as [|b bs]; [done|].
    specialize (Hnz ltac:(done)). rewrite nthZ_cons_0 in Hnz. pose proof (Forall_inv Hok) as [? ?].
    assert (Hcase : (nthZ d 0 = b /\ b < 128) \/
                    (nthZ d 0 = 128 + lenZ (b :: bs) /\ nthZ d 1 = b /\ 1 < lenZ d)).
    { unfold d, encStr, hdrStr, hdr. rewrite nthZ_cons_0. destruct (Z.ltb_spec (lenZ (b :: bs)) 56); [|lia].
      destruct (lenZ (b :: bs) =? 1); [destruct (Z.ltb_spec b 128)|]; cbn [andb]; [by left|right..];
        (split; [done|]; split; [done|]); simpl app; rewrite !lenZ_cons; pose proof (lenZ_nonneg bs); lia. }
    rewrite lenZ_cons in *. pose proof (lenZ_nonneg bs). rlp_consts.
    destruct Hcase as [[-> ?]|(-> & -> & ?)]; zcond; done. }
  unfold toInt. rewrite Hg, Hint, Hls, Hnn, Hp. cbn [rbind negb andb orb].
  destruct (Z.ltb_spec m (lenZ bs)); [lia|]. cbn [andb]. f_equal. by apply fromBigEndian_unbe.
Qed.

Lemma compact_small i : 0 <= i < 2 ^ 256 -> bytesRequired i <= 32.
Proof. intros Hi. apply bytesRequired_le; [|lia]. change (256 ^ 32) with (2 ^ 256). lia. Qed.
Lemma toInt_compact i m flags : 0 <= i < 2 ^ 256 -> 32 <= m ->
  toInt 256 m (encStr (toCompactBigEndian i 0)) flags = Ok i.
Proof.
  intros Hi Hm. pose proof (compact_small i Hi) as H32.
  destruct (bytesRequired_spec i) as (Hb0 & Hlt & Hge); [lia|].
  unfold toCompactBigEndian. rewrite Z.max_r by lia. set (k := Z.to_nat (bytesRequired i)).
  rewrite toInt_encStr; rewrite ?toBigEndian_lenZ; try (unfold k; lia).
  - rewrite unbe_toBigEndian by lia. unfold k. rewrite Z2Nat.id, (Z.mod_small i) by lia. by rewrite wrap_small by lia.
  - apply toBigEndian_ok.
  - intros Hne. apply toBigEndian_head.
    + destruct k; [done|lia].
    + assert (0 < i). { destruct (Z.eq_dec i 0) as [->|]; [done|lia]. } unfold k. rewrite Z2Nat.id by lia. lia.
Qed.

(** ** Properties *)

(** C32: writing any item tree with [RLPStream] (open a list with its item count, append
    the members, let [noteAppended] close and prefix the completed lists) ends with an
    empty list stack and exactly the canonical RLP encoding of the tree. *)
Theorem rlp_stream_encodes it : item_ok it ->
  (let? s := streamItem it emptyStream in out s) = Ok (enc it).
Proof. intros H. by rewrite streamItem_spec. Qed.

Lemma rlp_stream_encodes_witness :
  (let? s := streamItem (Lst [Str [1; 2; 3]; Lst []; Str [7]]) emptyStream in out s)
  = Ok [0xc6; 0x83; 1; 2; 3; 0xc0; 7].
Proof.
  apply (rlp_stream_encodes (Lst [Str [1; 2; 3]; Lst []; Str [7]])).
  unfold item_ok; simpl; repeat split; try (vm_compute; done); repeat constructor; vm_compute; done.
Defined.

(** C33: the strict reader accepts every canonical encoding unchanged and gives back the
    data it was made from: [toBytes] the string, [toList] the encodings of the members. *)
Theorem rlp_read_back it flags : item_ok it ->
  RLP_ctor (enc it) VeryStrict = Ok (enc it) /\
  match it with
  | Str bs => toBytes (enc it) flags = Ok bs
  | Lst its => toList (enc it) flags = Some (Ok (map enc its))
  end.
Proof.
  intros H. split; [by eapply RLP_ctor_reads, reads_enc|].
  destruct it; [by apply toBytes_enc|by apply toList_enc].
Qed.

Lemma rlp_read_back_witness :
  RLP_ctor (enc (Lst [Str [200]; Str []])) VeryStrict = Ok [0xc3; 0x81; 200; 0x80] /\
  toList (enc (Lst [Str [200]; Str []])) Strict = Some (Ok [[0x81; 200]; [0x80]]).
Proof.
  apply (rlp_read_back (Lst [Str [200]; Str []]) Strict).
  unfold item_ok; simpl; repeat split; try (vm_compute; done); repeat constructor; vm_compute; done.
Defined.

(** The strict reader accepts canonical input only.  A non-empty byte string that
    [RLP(d, VeryStrict)] does not reject is kept as it is, and is the canonical encoding
    of the string [toBytes] returns or of the list body [payload] returns. *)
Theorem rlp_strict_canonical d m : bytes_ok d -> d <> [] -> lenZ d < 2 ^ 64 ->
  RLP_ctor d VeryStrict = Ok m ->
  m = d /\
  (isData d = true -> exists bs, toBytes d LaissezFaire = Ok bs /\ d = encStr bs) /\
  (isList d = true -> exists body, payload d = Ok body /\ d = encLst body).
Proof.
  intros Hok Hne H64 Hc. apply RLP_ctor_VeryStrict in Hc as [-> Ha]. split; [done|].
  destruct (canonical_shape d Hok Hne H64 Ha) as (body & Hp & Hlen & _ & _ & Hd).
  split; intros Hk.
  - exists body. unfold toBytes. rewrite Hk, Hp, Hlen. cbn [negb rbind]. rewrite takeZ_all by lia.
    rewrite Hk in Hd. done.
  - exists body. split; [done|]. replace (isData d) with false in Hd; [done|]. symmetry.
    unfold isData, isList in *. apply andb_prop in Hk as [-> Hk]. apply Z.leb_le in Hk. apply Z.ltb_ge. lia.
Qed.

Lemma rlp_strict_canonical_witness :
  exists bs, toBytes [0x82; 5; 6] LaissezFaire = Ok bs /\ [0x82; 5; 6] = encStr bs.
Proof.
  destruct (rlp_strict_canonical [0x82; 5; 6] [0x82; 5; 6]) as (_ & H & _);
    [repeat constructor; vm_compute; done|done|vm_compute; done|reflexivity|].
  apply H. reflexivity.
Defined.

(** Iterating over a list the strict reader accepted always ends: [toList] returns a
    value within one step per byte, and when no member is rejected the members it
    collects are consecutive slices that cover the payload exactly. *)
Theorem rlp_iteration_terminates d m flags : bytes_ok d -> lenZ d < 2 ^ 64 ->
  RLP_ctor d VeryStrict = Ok m -> isList d = true ->
  exists r, toList d flags = Some r /\ forall l, r = Ok l -> payload d = Ok (concat l).
Proof.
  intros Hok H64 Hc Hl. apply RLP_ctor_VeryStrict in Hc as [-> Ha].
  unfold toList. rewrite Hl. cbn [negb]. destruct (begin_ d) as [it|e] eqn:Eb; [|by eexists].
  destruct (begin_iter_ok d it Hok H64 Ha Hl Eb) as (Hit & Hp & Hpl & Hb).
  destruct (toList_loop_terminates d (S (length d)) it [] Hok Hit) as (r & -> & Hcat).
  { destruct Hit as (p & Hp' & _ & Hc & Hr & Hs & Hz). assert (p = payloadOffset d) as -> by congruence.
    assert (1 <= payloadOffset d).
    { apply payloadOffset_bound; [done|]. unfold isSingleByte, isList in *. apply andb_prop in Hl as [-> Hl].
      apply Z.leb_le in Hl. rlp_consts. apply Z.ltb_ge. lia. }
    destruct (Z.eq_dec (it_count it) 0) as [E|]; unfold lenZ in *; [specialize (Hz E)|]; lia. }
  exists r. split; [done|]. intros l ->. destruct (Hcat l eq_refl) as (p & Hp' & ->).
  rewrite Hp in Hp'. injection Hp' as <-. done.
Qed.

Lemma rlp_iteration_terminates_witness :
  exists r, toList [0xc2; 5; 6] Strict = Some r /\ forall l, r = Ok l -> payload [0xc2; 5; 6] = Ok (concat l).
Proof.
  apply (rlp_iteration_terminates [0xc2; 5; 6] [0xc2; 5; 6]);
    [repeat constructor; vm_compute; done|vm_compute; done|reflexivity|reflexivity].
Defined.

(** [operator[]] with its cache returns, for every index and from every state of the
    cache it can leave behind, the encoding of that member, and the null item past the
    end: the cache never changes an answer. *)
Theorem rlp_index_cache its r i : item_ok (Lst its) -> cache_ok its r -> 0 <= i < 2 ^ 64 - 1 ->
  exists r', index r i = Ok (r', nth (Z.to_nat i) (map enc its) []) /\ cache_ok its r'.
Proof. apply index_spec. Qed.

Lemma rlp_index_cache_witness :
  exists r', index (RLP_of (enc (Lst [Str [9]; Str []]))) 1 = Ok (r', [0x80]) /\
    cache_ok [Str [9]; Str []] r'.
Proof.
  apply (rlp_index_cache [Str [9]; Str []] (RLP_of (enc (Lst [Str [9]; Str []]))) 1).
  - unfold item_ok; simpl; repeat split; try (vm_compute; done); repeat constructor; vm_compute; done.
  - left. split; reflexivity.
  - split; vm_compute; done.
Defined.

(** Integers round-trip.  What [append(bigint)] writes for a value below 2^256 is read
    back by the strict [toInt<u256>] as the same value. *)
Theorem rlp_int_roundtrip i : 0 <= i < 2 ^ 256 ->
  exists bs, (let? s := appendInt emptyStream i in out s) = Ok bs /\ toInt 256 32 bs Strict = Ok i.
Proof.
  intros Hi. pose proof (compact_small i Hi). exists (encStr (toCompactBigEndian i 0)).
  rewrite appendInt_spec by lia. split; [done|]. by apply toInt_compact.
Qed.

Lemma rlp_int_roundtrip_witness :
  exists bs, (let? s := appendInt emptyStream 1024 in out s) = Ok bs /\ toInt 256 32 bs Strict = Ok 1024.
Proof. apply (rlp_int_roundtrip 1024). split; vm_compute; done. Defined.

(** [vector_ref::cropped] with the count [~size_t(0)] yields an empty view of any array,
    not the rest of the data: the range test rejects that count before the special case is
    looked at. *)
Theorem cropped_all_ones_is_empty d begin : lenZ d < 2 ^ 64 - 1 -> cropped d begin (2 ^ 64 - 1) = [].
Proof.
  intros H. unfold cropped. replace (2 ^ 64 - 1 <=? lenZ d) with false by (symmetry; apply Z.leb_gt; lia).
  by rewrite andb_false_r.
Qed.

Lemma cropped_all_ones_is_empty_witness : cropped [1; 2; 3] 1 (2 ^ 64 - 1) = [].
Proof. apply (cropped_all_ones_is_empty [1; 2; 3] 1). vm_compute. done. Defined.
