(* ===== verification/TrieCommon.v ===== *)
(** * Nibble slices and hex-prefix encoding (libdevcore/TrieCommon.h and .cpp)

    A [NibbleSlice] is a byte string with a nibble offset.  The three overloads of
    [hexPrefixEncode] are translated separately, with the way each one builds its
    string; [hp] is the encoding the comment in TrieCommon.cpp tabulates, and all
    three are proved to compute it. *)

From S2P Require Import Prelude CommonData Rlp.
From Stdlib Require Import ZArith Lia Bool.
From stdpp Require Import base list list_numbers.
Open Scope Z_scope.

(** ** Nibbles *)

Definition nibble (data : list Z) (i : Z) : Z :=
  if Z.odd i then Z.land (nthZ data (i / 2)) 15 else Z.shiftr (nthZ data (i / 2)) 4.

Fixpoint sharedNibbles_loop (fuel : nat) (first : list Z) (bf ef : Z) (second : list Z)
    (bs es : Z) (ret : Z) : Z :=
  match fuel with
  | O => ret
  | S f =>
      if (bf <? ef) && (bs <? es) && (nibble first bf =? nibble second bs)
      then sharedNibbles_loop f first (bf + 1) ef second (bs + 1) es (ret + 1)
      else ret
  end.
Definition sharedNibbles (first : list Z) (bf ef : Z) (second : list Z) (bs es : Z) : Z :=
  sharedNibbles_loop (Z.to_nat (ef - bf)) first bf ef second bs es 0.

Record NibbleSlice := mkSlice { data : list Z; offset : Z }.

Definition at_ (s : NibbleSlice) (i : Z) : Z := nibble (data s) (offset s + i).
Definition size (s : NibbleSlice) : Z := lenZ (data s) * 2 - offset s.
Definition mid (s : NibbleSlice) (i : Z) : NibbleSlice := mkSlice (data s) (offset s + i).
Definition shared (s k : NibbleSlice) : Z :=
  sharedNibbles (data s) (offset s) (offset s + size s) (data k) (offset k) (offset k + size k).
Definition contains (s k : NibbleSlice) : bool := shared s k =? size k.
Definition slice_eqb (s k : NibbleSlice) : bool := (size k =? size s) && (shared s k =? size k).

Fixpoint isEarlierThan_loop (fuel : nat) (s k : NibbleSlice) (i : Z) : bool :=
  match fuel with
  | O => if size k <=? i then false else true
  | S f =>
      if (i <? size k) && (i <? size s) then
        if at_ s i <? at_ k i then true
        else if at_ k i <? at_ s i then false
        else isEarlierThan_loop f s k (i + 1)
      else if size k <=? i then false else true
  end.
Definition isEarlierThan (s k : NibbleSlice) : bool :=
  isEarlierThan_loop (Z.to_nat (size k)) s k 0.

(** ** Hex-prefix encoding, the three overloads *)

Definition flagByte (leaf odd : bool) : Z :=
  Z.lor (if leaf then 2 else 0) (if odd then 1 else 0) * 16.

(** [hexPrefixEncode(bytes const& _hexVector, bool _leaf, int _begin, int _end)] *)
Fixpoint hpPairs (fuel : nat) (v : list Z) (i end_ : Z) : list Z :=
  match fuel with
  | O => []
  | S f => if i <? end_ then u8 (nthZ v i * 16 + nthZ v (i + 1)) :: hpPairs f v (i + 2) end_ else []
  end.
Definition hexPrefixEncode_vector (v : list Z) (leaf : bool) (begin end_ : Z) : list Z :=
  let e := if end_ <? 0 then lenZ v + 1 + end_ else end_ in
  let odd := negb ((e - begin) mod 2 =? 0) in
  let first := if odd then Z.lor (flagByte leaf odd) (nthZ v begin) else flagByte leaf odd in
  let b := if odd then begin + 1 else begin in
  first :: hpPairs (Z.to_nat (e - b)) v b e.

(** The body of the nibble loops: or onto the back, or push shifted. *)
Definition pushNibble (st : list Z * Z) (n : Z) : list Z * Z :=
  let '(ret, d) := st in
  if Z.odd d then (removelast ret ++ [Z.lor (List.last ret 0) n], d + 1)
  else (ret ++ [u8 (Z.shiftl n 4)], d + 1).
Fixpoint nibbleLoop (fuel : nat) (dat : list Z) (i e : Z) (st : list Z * Z) : list Z * Z :=
  match fuel with
  | O => st
  | S f => if i <? e then nibbleLoop f dat (i + 1) e (pushNibble st (nibble dat i)) else st
  end.

(** [hexPrefixEncode(bytesConstRef _data, bool _leaf, int _beginNibble, int _endNibble, unsigned _offset)] *)
Definition hexPrefixEncode_data (dat : list Z) (leaf : bool) (beginNibble endNibble off : Z) : list Z :=
  let begin := beginNibble + off in
  let e := (if endNibble <? 0 then (lenZ dat * 2 - off + 1) + endNibble else endNibble) + off in
  let odd := Z.odd (e - begin) in
  fst (nibbleLoop (Z.to_nat (e - begin)) dat begin e
         ([flagByte leaf odd], if odd then 1 else 2)).

(** [hexPrefixEncode(_d1, _o1, _d2, _o2, _leaf)]: two slices, concatenated *)
Definition hexPrefixEncode_two (d1 : list Z) (o1 : Z) (d2 : list Z) (o2 : Z) (leaf : bool) : list Z :=
  let e1 := lenZ d1 * 2 in
  let e2 := lenZ d2 * 2 in
  let odd := Z.odd (e1 - o1 + e2 - o2) in
  let st := nibbleLoop (Z.to_nat (e1 - o1)) d1 o1 e1 ([flagByte leaf odd], if odd then 1 else 2) in
  fst (nibbleLoop (Z.to_nat (e2 - o2)) d2 o2 e2 st).

Definition hexPrefixEncode (s : NibbleSlice) (leaf : bool) (begin end_ : Z) : list Z :=
  hexPrefixEncode_data (data s) leaf begin end_ (offset s).
Definition hexPrefixEncode_cat (s1 s2 : NibbleSlice) (leaf : bool) : list Z :=
  hexPrefixEncode_two (data s1) (offset s1) (data s2) (offset s2) leaf.

(** ** Decoding *)

Definition keyOf (hpe : list Z) : NibbleSlice :=
  if lenZ hpe =? 0 then mkSlice hpe 0
  else if negb (Z.land (nthZ hpe 0) 0x10 =? 0) then mkSlice hpe 1
  else mkSlice hpe 2.

(** [isLeaf] and [keyOf] of a two-item node read the payload of its first item. *)
Definition isLeafPayload (pl : list Z) : bool := negb (Z.land (nthZ pl 0) 0x20 =? 0).
Definition isLeaf (twoItem : RLP) : result RLPError bool :=
  let? i := index twoItem 0 in let? pl := payload (snd i) in Ok (isLeafPayload pl).
Definition keyOfNode (twoItem : RLP) : result RLPError NibbleSlice :=
  let? i := index twoItem 0 in let? pl := payload (snd i) in Ok (keyOf pl).

Fixpoint uniqueInUse_loop (fuel : nat) (orig : RLP) (except i used : Z) : result RLPError Z :=
  match fuel with
  | O => Ok used
  | S f =>
      if i =? except then uniqueInUse_loop f orig except (i + 1) used
      else
        let? r := index orig i in
        if negb (isEmpty (snd r)) then
          if used =? 255 then uniqueInUse_loop f (fst r) except (i + 1) (u8 i) else Ok 255
        else uniqueInUse_loop f (fst r) except (i + 1) used
  end.
Definition uniqueInUse (orig : RLP) (except : Z) : result RLPError Z :=
  uniqueInUse_loop 17 orig except 0 255.

(** ** Specification *)

(** The nibbles a slice denotes. *)
Definition nibs (s : NibbleSlice) : list Z := dropZ (offset s) (asNibbles (data s)).

Fixpoint pack (ns : list Z) : list Z :=
  match ns with a :: b :: ns' => (a * 16 + b) :: pack ns' | _ => [] end.
Definition hp (leaf : bool) (ns : list Z) : list Z :=
  let f := (if leaf then 2 else 0) in
  match ns with
  | a :: ns' => if Nat.odd (length ns) then ((f + 1) * 16 + a) :: pack ns' else (f * 16) :: pack ns
  | [] => [f * 16]
  end.

Definition is_nibble (n : Z) : Prop := 0 <= n < 16.
Definition slice_ok (s : NibbleSlice) : Prop :=
  bytes_ok (data s) /\ 0 <= offset s <= 2 * lenZ (data s).

(** ** Lemmas *)

Lemma asNibbles_lenZ d : lenZ (asNibbles d) = 2 * lenZ d.
Proof.
  unfold asNibbles. induction d as [|b d IH]; [done|]. simpl. rewrite !lenZ_cons, IH. lia.
Qed.

Lemma asNibbles_app d1 d2 : asNibbles (d1 ++ d2) = asNibbles d1 ++ asNibbles d2.
Proof. unfold asNibbles. by rewrite map_app, concat_app. Qed.

Lemma asNibbles_nibbles d : bytes_ok d -> Forall is_nibble (asNibbles d).
Proof.
  unfold asNibbles. induction 1 as [|b d [Hb0 Hb1] _ IH]; simpl; [constructor|].
  constructor; [|constructor; [|done]]; unfold is_nibble.
  - split; [apply Z.div_pos; lia|apply Z.div_lt_upper_bound; lia].
  - apply Z.mod_pos_bound. lia.
Qed.

Lemma nibble_asNibbles d i : bytes_ok d -> 0 <= i < 2 * lenZ d -> nthZ (asNibbles d) i = nibble d i.
Proof.
  revert i. induction d as [|b d IH]; intros i Hok Hi; [change (lenZ (@nil Z)) with 0 in Hi; lia|].
  pose proof (Forall_inv Hok) as Hb. apply Forall_inv_tail in Hok. rewrite lenZ_cons in Hi.
  change (asNibbles (b :: d)) with (b / 16 :: b mod 16 :: asNibbles d). unfold nibble.
  destruct (byte_nibbles b Hb) as (_ & _ & E1 & E2).
  destruct (Z.eq_dec i 0) as [->|]; [rewrite nthZ_cons_0|destruct (Z.eq_dec i 1) as [->|]].
  - simpl. rewrite Z.shiftr_div_pow2 by lia. done.
  - by rewrite nthZ_cons_S, nthZ_cons_0 by lia.
  - rewrite !nthZ_cons_S by lia. replace (i - 1 - 1) with (i - 2) by lia.
    rewrite IH by (done || lia). unfold nibble.
    replace (Z.odd (i - 2)) with (Z.odd i) by (rewrite Z.odd_sub; by destruct (Z.odd i)).
    assert (Hdiv : (i - 2) / 2 = i / 2 - 1) by (replace (i - 2) with (i + (-1) * 2) by lia; rewrite Z.div_add by lia; lia).
    assert (1 <= i / 2) by (apply Z.div_le_lower_bound; lia).
    rewrite Hdiv, (nthZ_cons_S b d (i / 2)) by lia. done.
Qed.

(** The nibbles numbered [i, e) of a byte string. *)
Definition nibRange (d : list Z) (i e : Z) : list Z := takeZ (e - i) (dropZ i (asNibbles d)).

Lemma dropZ_nth l i : 0 <= i < lenZ l -> dropZ i l = nthZ l i :: dropZ (i + 1) l.
Proof.
  intros Hi. unfold dropZ, nthZ. replace (Z.to_nat (i + 1)) with (S (Z.to_nat i)) by lia.
  destruct (lookup_lt_is_Some_2 l (Z.to_nat i)) as [x Hx]; [unfold lenZ in *; lia|].
  rewrite (drop_S _ _ _ Hx). f_equal. by rewrite (nth_lookup_Some _ _ _ _ Hx).
Qed.

Lemma nibRange_step d i e : bytes_ok d -> 0 <= i < e -> e <= 2 * lenZ d ->
  nibRange d i e = nibble d i :: nibRange d (i + 1) e.
Proof.
  intros. unfold nibRange. rewrite dropZ_nth by (rewrite asNibbles_lenZ; lia).
  unfold takeZ. replace (Z.to_nat (e - i)) with (S (Z.to_nat (e - (i + 1)))) by lia. simpl.
  by rewrite nibble_asNibbles by (done || lia).
Qed.

Lemma nibRange_len d i e : 0 <= i <= e -> e <= 2 * lenZ d -> lenZ (nibRange d i e) = e - i.
Proof. intros. unfold nibRange. rewrite lenZ_takeZ; [done|]. rewrite lenZ_dropZ; rewrite asNibbles_lenZ; lia. Qed.

Lemma nibRange_nibbles d i e : bytes_ok d -> Forall is_nibble (nibRange d i e).
Proof. intros. apply Forall_take, Forall_drop. by apply asNibbles_nibbles. Qed.

Lemma nibRange_slice s : slice_ok s -> nibRange (data s) (offset s) (offset s + size s) = nibs s.
Proof.
  intros [_ Ho]. unfold nibRange, nibs, size. apply takeZ_all.
  rewrite lenZ_dropZ; rewrite asNibbles_lenZ; lia.
Qed.

Lemma nibs_lenZ s : slice_ok s -> lenZ (nibs s) = size s.
Proof. intros [_ Ho]. unfold nibs, size. rewrite lenZ_dropZ; rewrite asNibbles_lenZ; lia. Qed.

Lemma nibbleLoop_foldl d i e st : bytes_ok d -> 0 <= i -> e <= 2 * lenZ d ->
  nibbleLoop (Z.to_nat (e - i)) d i e st = foldl pushNibble st (nibRange d i e).
Proof.
  intros Hok Hi He. remember (Z.to_nat (e - i)) as n eqn:Hn. revert i st Hi Hn.
  induction n as [|n IH]; intros i st Hi Hn; simpl.
  - unfold nibRange, takeZ. rewrite <- Hn. done.
  - destruct (Z.ltb_spec i e); [|lia]. rewrite nibRange_step by (done || lia). simpl. apply IH; lia.
Qed.

Lemma lor_nibble a b : 0 <= a -> is_nibble b -> Z.lor (a * 16) b = a * 16 + b.
Proof.
  intros Ha [Hb0 Hb1]. rewrite <- Z.add_nocarry_lor; [done|]. apply Z.bits_inj'. intros i Hi.
  rewrite Z.land_spec, Z.bits_0. change 16 with (2 ^ 4). destruct (Z.ltb_spec i 4).
  - rewrite Z.mul_pow2_bits_low by lia. done.
  - replace b with (b mod 2 ^ 4) by (apply Z.mod_small; lia).
    rewrite (Z.mod_pow2_bits_high b 4 i) by lia. apply andb_false_r.
Qed.

Lemma flagByte_or leaf a : is_nibble a ->
  Z.lor (flagByte leaf true) a = ((if leaf then 2 else 0) + 1) * 16 + a.
Proof. intros Ha. destruct leaf; [apply (lor_nibble 3 a)|apply (lor_nibble 1 a)]; done || lia. Qed.

Lemma push_pair ret d a b : Z.odd d = false -> is_nibble a -> is_nibble b ->
  pushNibble (pushNibble (ret, d) a) b = (ret ++ [a * 16 + b], d + 2).
Proof.
  intros Hd Ha Hb. unfold pushNibble. rewrite Hd. rewrite Z.odd_add, Hd. simpl.
  rewrite removelast_last, List.last_last. f_equal; [|lia]. do 2 f_equal.
  rewrite Z.shiftl_mul_pow2 by lia. change (2 ^ 4) with 16. destruct Ha as [Ha0 Ha1].
  rewrite wrap_small by lia. by apply lor_nibble.
Qed.

Lemma two_step_ind {A} (P : list A -> Prop) :
  P [] -> (forall a, P [a]) -> (forall a b l, P l -> P (a :: b :: l)) -> forall l, P l.
Proof.
  intros H0 H1 H2 l. remember (length l) as n eqn:Hn. revert l Hn.
  induction n as [n IH] using lt_wf_ind. intros [|a [|b l]] ->; auto.
  apply H2, (IH (length l)); simpl; lia.
Qed.

Lemma foldl_pack ns : Forall is_nibble ns -> Nat.odd (length ns) = false -> forall ret d, Z.odd d = false ->
  fst (foldl pushNibble (ret, d) ns) = ret ++ pack ns.
Proof.
  induction ns as [|a|a b ns IH] using two_step_ind; intros Hn Hev ret d Hd.
  - simpl. by rewrite app_nil_r.
  - done.
  - inversion Hn as [|? ? Ha Hn']; subst. inversion Hn' as [|? ? Hb Hns]; subst.
    change (foldl pushNibble (ret, d) (a :: b :: ns)) with (foldl pushNibble (pushNibble (pushNibble (ret, d) a) b) ns).
    rewrite push_pair by done. rewrite IH; [|done|done|].
    + simpl. by rewrite <- app_assoc.
    + rewrite Z.odd_add, Hd. done.
Qed.

Lemma foldl_hp ns leaf : Forall is_nibble ns ->
  fst (foldl pushNibble ([flagByte leaf (Nat.odd (length ns))], if Nat.odd (length ns) then 1 else 2) ns)
  = hp leaf ns.
Proof.
  intros Hn. destruct (Nat.odd (length ns)) eqn:Hodd.
  - destruct ns as [|a ns]; [done|]. inversion Hn as [|? ? Ha Hns]; subst. unfold hp. rewrite Hodd. simpl foldl.
    rewrite foldl_pack; [|done| |done].
    + cbn [pushNibble removelast List.last app Z.odd]. by rewrite flagByte_or.
    + simpl in Hodd. rewrite Nat.odd_succ in Hodd. rewrite <- Nat.negb_even, Hodd. done.
  - rewrite foldl_pack by done. destruct ns as [|a ns]; [by destruct leaf|]. unfold hp. rewrite Hodd. by destruct leaf.
Qed.

Lemma odd_lenZ {A} (l : list A) : Z.odd (lenZ l) = Nat.odd (length l).
Proof.
  unfold lenZ. induction (length l) as [|n IH]; [done|].
  rewrite Nat2Z.inj_succ, Z.odd_succ, Nat.odd_succ, <- Z.negb_odd, <- Nat.negb_odd, IH. done.
Qed.

Lemma nthZ_nibble v i : Forall is_nibble v -> is_nibble (nthZ v i).
Proof.
  intros Hv. unfold nthZ. destruct (nth_in_or_default (Z.to_nat i) v 0) as [Hin| ->].
  - rewrite List.Forall_forall in Hv. auto.
  - unfold is_nibble. lia.
Qed.

Lemma hpPairs_pack fuel v b e : 0 <= b -> e <= lenZ v -> Forall is_nibble v -> Z.odd (e - b) = false ->
  (Z.to_nat (e - b) <= fuel)%nat -> hpPairs fuel v b e = pack (takeZ (e - b) (dropZ b v)).
Proof.
  intros Hb He Hv. revert b Hb. induction fuel as [|f IH]; intros b Hb Hodd Hf; simpl.
  - unfold takeZ. by replace (Z.to_nat (e - b)) with 0%nat by lia.
  - destruct (Z.ltb_spec b e); [|unfold takeZ; by replace (Z.to_nat (e - b)) with 0%nat by lia].
    assert (b + 2 <= e). { destruct (Z.eq_dec (e - b) 1) as [E|]; [by rewrite E in Hodd|lia]. }
    rewrite IH; [|lia| |lia].
    2:{ replace (e - (b + 2)) with (e - b - 2) by lia. by rewrite Z.odd_sub, Hodd. }
    rewrite (dropZ_nth v b), (dropZ_nth v (b + 1)) by lia.
    replace (b + 1 + 1) with (b + 2) by lia. unfold takeZ.
    replace (Z.to_nat (e - b)) with (S (S (Z.to_nat (e - (b + 2))))) by lia. cbn [take pack]. f_equal.
    destruct (nthZ_nibble v b Hv), (nthZ_nibble v (b + 1) Hv). apply wrap_small. lia.
Qed.

Lemma hexPrefixEncode_vector_spec v leaf : Forall is_nibble v ->
  hexPrefixEncode_vector v leaf 0 (-1) = hp leaf v.
Proof.
  intros Hv. unfold hexPrefixEncode_vector. change (-1 <? 0) with true. cbn iota zeta.
  replace (lenZ v + 1 + -1) with (lenZ v) by lia. rewrite Z.sub_0_r.
  replace (negb (lenZ v mod 2 =? 0)) with (Nat.odd (length v)).
  2:{ rewrite <- odd_lenZ, Zodd_mod. pose proof (Z.mod_pos_bound (lenZ v) 2).
      destruct (Z.eqb_spec (lenZ v mod 2) 0) as [->|]; [done|].
      replace (lenZ v mod 2) with 1 by lia. done. }
  destruct (Nat.odd (length v)) eqn:Hodd.
  - destruct v as [|a v]; [done|]. pose proof (Forall_inv Hv) as Ha. unfold hp. rewrite Hodd.
    rewrite hpPairs_pack; [|lia|lia|done| |lia].
    + change (dropZ (0 + 1) (a :: v)) with v. rewrite takeZ_all by (rewrite lenZ_cons; lia).
      rewrite nthZ_cons_0. by rewrite flagByte_or.
    + rewrite Z.odd_sub, odd_lenZ, Hodd. done.
  - rewrite hpPairs_pack; [|lia|lia|done| |lia].
    + rewrite Z.sub_0_r, dropZ_0, takeZ_all by lia. unfold hp. destruct v as [|a v]; [by destruct leaf|].
      rewrite Hodd. by destruct leaf.
    + by rewrite Z.sub_0_r, odd_lenZ.
Qed.

Lemma hexPrefixEncode_spec s leaf : slice_ok s -> hexPrefixEncode s leaf 0 (-1) = hp leaf (nibs s).
Proof.
  intros Hs. pose proof Hs as [Hok Ho]. unfold hexPrefixEncode, hexPrefixEncode_data. change (-1 <? 0) with true. cbn iota zeta.
  replace (lenZ (data s) * 2 - offset s + 1 + -1 + offset s) with (offset s + size s) by (unfold size; lia).
  rewrite Z.add_0_l, nibbleLoop_foldl by (done || unfold size; lia).
  rewrite nibRange_slice by done. replace (offset s + size s - offset s) with (lenZ (nibs s)) by (rewrite nibs_lenZ; lia || done).
  rewrite odd_lenZ. apply foldl_hp. unfold nibs. apply Forall_drop. by apply asNibbles_nibbles.
Qed.

Lemma hexPrefixEncode_cat_spec s1 s2 leaf : slice_ok s1 -> slice_ok s2 ->
  hexPrefixEncode_cat s1 s2 leaf = hp leaf (nibs s1 ++ nibs s2).
Proof.
  intros H1 H2. pose proof H1 as [Hok1 Ho1]. pose proof H2 as [Hok2 Ho2].
  unfold hexPrefixEncode_cat, hexPrefixEncode_two. cbn zeta.
  assert (E1 : lenZ (data s1) * 2 = offset s1 + size s1) by (unfold size; lia).
  assert (E2 : lenZ (data s2) * 2 = offset s2 + size s2) by (unfold size; lia).
  rewrite !nibbleLoop_foldl by (done || lia). rewrite E1, E2, !nibRange_slice by done.
  rewrite <- foldl_app.
  replace (offset s1 + size s1 - offset s1 + (offset s2 + size s2) - offset s2) with (lenZ (nibs s1 ++ nibs s2))
    by (rewrite lenZ_app, !nibs_lenZ by done; lia).
  rewrite odd_lenZ. apply foldl_hp. apply Forall_app.
  split; unfold nibs; apply Forall_drop; by apply asNibbles_nibbles.
Qed.

(** Reading the encoding back. *)
Lemma asNibbles_pack ns : Forall is_nibble ns -> Nat.odd (length ns) = false -> asNibbles (pack ns) = ns.
Proof.
  induction ns as [|a|a b ns IH] using two_step_ind; intros Hn Hev; [done|done|].
  inversion Hn as [|? ? [Ha0 Ha1] Hn']; subst. inversion Hn' as [|? ? [Hb0 Hb1] Hns]; subst.
  change (asNibbles (pack (a :: b :: ns))) with ((a * 16 + b) / 16 :: (a * 16 + b) mod 16 :: asNibbles (pack ns)).
  rewrite IH by done. rewrite Z.div_add_l, (Z.div_small b) by lia.
  rewrite (Z.add_comm (a * 16) b), Z.mod_add, Z.mod_small by lia. f_equal. lia.
Qed.

Lemma flag_bits a : is_nibble a ->
  Z.land (16 + a) 16 <> 0 /\ Z.land (48 + a) 16 <> 0 /\ Z.land (16 + a) 32 = 0 /\ Z.land (48 + a) 32 <> 0 /\
  (16 + a) mod 16 = a /\ (48 + a) mod 16 = a.
Proof.
  intros [? ?]. assert (Ha : a ∈ seqZ 0 16) by (apply elem_of_seqZ; lia).
  revert a H H0 Ha. cut (Forall (fun a => Z.land (16 + a) 16 <> 0 /\ Z.land (48 + a) 16 <> 0 /\ Z.land (16 + a) 32 = 0 /\
     Z.land (48 + a) 32 <> 0 /\ (16 + a) mod 16 = a /\ (48 + a) mod 16 = a) (seqZ 0 16)).
  - intros HF a _ _ Ha. rewrite Forall_forall in HF. auto.
  - vm_compute. repeat constructor; done.
Qed.

Lemma keyOf_hp leaf ns : Forall is_nibble ns ->
  nibs (keyOf (hp leaf ns)) = ns /\ isLeafPayload (hp leaf ns) = leaf.
Proof.
  intros Hn. destruct ns as [|a ns]; [by destruct leaf|]. unfold hp.
  destruct (Nat.odd (length (a :: ns))) eqn:Hodd.
  - inversion Hn as [|? ? Ha Hns]; subst. destruct (flag_bits a Ha) as (B1 & B2 & B3 & B4 & M1 & M2).
    assert (Hev : Nat.odd (length ns) = false).
    { simpl in Hodd. rewrite Nat.odd_succ in Hodd. by rewrite <- Nat.negb_even, Hodd. }
    rewrite <- (asNibbles_pack ns Hns Hev) at 2. set (p := pack ns). unfold keyOf, isLeafPayload.
    destruct (Z.eqb_spec (lenZ (((if leaf then 2 else 0) + 1) * 16 + a :: p)) 0) as [E|_].
    { rewrite lenZ_cons in E. pose proof (lenZ_nonneg p). lia. }
    rewrite nthZ_cons_0. destruct leaf.
    + change ((2 + 1) * 16 + a) with (48 + a). rewrite (proj2 (Z.eqb_neq _ _) B2), (proj2 (Z.eqb_neq _ _) B4).
      split; [|done]. change (nibs _) with ((48 + a) mod 16 :: asNibbles p). by rewrite M2.
    + change ((0 + 1) * 16 + a) with (16 + a). rewrite (proj2 (Z.eqb_neq _ _) B1), B3.
      split; [|done]. change (nibs _) with ((16 + a) mod 16 :: asNibbles p). by rewrite M1.
  - pose proof (asNibbles_pack (a :: ns) Hn Hodd) as Hp. set (p := pack (a :: ns)) in *.
    unfold keyOf, isLeafPayload.
    destruct (Z.eqb_spec (lenZ ((if leaf then 2 else 0) * 16 :: p)) 0) as [E|_].
    { rewrite lenZ_cons in E. pose proof (lenZ_nonneg p). lia. }
    rewrite nthZ_cons_0. destruct leaf; simpl; (split; [|done]); unfold nibs; simpl; unfold dropZ; simpl; exact Hp.
Qed.

(** ** Comparison of slices *)

(** Length of the longest common prefix, and the strict lexicographic order. *)
Fixpoint lcp (l1 l2 : list Z) : Z :=
  match l1, l2 with
  | a :: l1', b :: l2' => if a =? b then 1 + lcp l1' l2' else 0
  | _, _ => 0
  end.
Fixpoint lexlt (l1 l2 : list Z) : bool :=
  match l1, l2 with
  | _, [] => false
  | [], _ :: _ => true
  | a :: l1', b :: l2' => (a <? b) || (a =? b) && lexlt l1' l2'
  end.

Lemma nibRange_nil d i e : e <= i -> nibRange d i e = [].
Proof. intros. unfold nibRange, takeZ. by replace (Z.to_nat (e - i)) with 0%nat by lia. Qed.

Lemma sharedNibbles_loop_lcp fuel first bf ef second bs es ret :
  bytes_ok first -> bytes_ok second -> 0 <= bf -> ef <= 2 * lenZ first -> 0 <= bs -> es <= 2 * lenZ second ->
  (Z.to_nat (ef - bf) <= fuel)%nat ->
  sharedNibbles_loop fuel first bf ef second bs es ret
  = ret + lcp (nibRange first bf ef) (nibRange second bs es).
Proof.
  intros H1 H2 Hbf Hef Hbs Hes. revert bf bs ret Hbf Hbs.
  induction fuel as [|f IH]; intros bf bs ret Hbf Hbs Hf; simpl.
  { rewrite (nibRange_nil first) by lia. simpl. lia. }
  destruct (Z.ltb_spec bf ef); [|rewrite (nibRange_nil first) by lia; simpl; lia].
  destruct (Z.ltb_spec bs es); simpl.
  2:{ rewrite (nibRange_nil second) by lia. by destruct (nibRange first bf ef); simpl; lia. }
  rewrite (nibRange_step first), (nibRange_step second) by (done || lia). simpl.
  destruct (Z.eqb_spec (nibble first bf) (nibble second bs)); [|lia]. rewrite IH; lia.
Qed.

Lemma shared_lcp s k : slice_ok s -> slice_ok k -> shared s k = lcp (nibs s) (nibs k).
Proof.
  intros Hs Hk. unfold shared, sharedNibbles.
  rewrite sharedNibbles_loop_lcp; [by rewrite !nibRange_slice by done|..];
    destruct Hs as [? ?], Hk as [? ?]; unfold size; done || lia.
Qed.

Lemma lcp_prefix l1 l2 : lcp l1 l2 = lenZ l2 <-> l2 `prefix_of` l1.
Proof.
  revert l2. induction l1 as [|a l1 IH]; intros [|b l2]; simpl; rewrite ?lenZ_cons.
  - split; [intros; reflexivity|done].
  - split; [pose proof (lenZ_nonneg l2); change (lenZ (@nil Z)) with 0; lia|].
    intros H. by apply prefix_nil_inv in H.
  - split; [intros; apply prefix_nil|done].
  - destruct (Z.eqb_spec a b) as [->|Hne].
    + split; intros H; [apply prefix_cons, IH; lia|apply prefix_cons_inv_2, IH in H; lia].
    + split; [pose proof (lenZ_nonneg l2); lia|]. intros H. by apply prefix_cons_inv_1 in H.
Qed.

Lemma isEarlierThan_loop_lex fuel s k i : slice_ok s -> slice_ok k -> 0 <= i <= size s -> i <= size k ->
  (Z.to_nat (size k - i) <= fuel)%nat ->
  isEarlierThan_loop fuel s k i = lexlt (dropZ i (nibs s)) (dropZ i (nibs k)).
Proof.
  intros Hs Hk. pose proof (nibs_lenZ s Hs) as Ls. pose proof (nibs_lenZ k Hk) as Lk.
  assert (Hat : forall s', slice_ok s' -> forall i', 0 <= i' < size s' ->
            dropZ i' (nibs s') = at_ s' i' :: dropZ (i' + 1) (nibs s')).
  { intros s' Hs' i' Hi'. rewrite dropZ_nth by (rewrite nibs_lenZ; done). f_equal.
    destruct Hs' as [Ok Off]. unfold nibs, at_. rewrite <- nibble_asNibbles by (done || unfold size in *; lia).
    unfold nthZ, dropZ. rewrite nth_skipn. f_equal. unfold size in *. lia. }
  revert i. induction fuel as [|f IH]; intros i Hi Hik Hf; simpl.
  { replace (size k <=? i) with true by (symmetry; apply Z.leb_le; lia).
    rewrite (proj1 (lenZ_0 (dropZ i (nibs k)))) by (rewrite lenZ_dropZ by lia; lia).
    by destruct (dropZ i (nibs s)). }
  destruct (Z.ltb_spec i (size k)); simpl.
  2:{ replace (size k <=? i) with true by (symmetry; apply Z.leb_le; lia).
      rewrite (proj1 (lenZ_0 (dropZ i (nibs k)))) by (rewrite lenZ_dropZ by lia; lia).
      by destruct (dropZ i (nibs s)). }
  rewrite (Hat k) by (done || lia). destruct (Z.ltb_spec i (size s)).
  - rewrite (Hat s) by (done || lia). simpl.
    destruct (Z.ltb_spec (at_ s i) (at_ k i)); [done|]. simpl.
    destruct (Z.ltb_spec (at_ k i) (at_ s i)).
    + by replace (at_ s i =? at_ k i) with false by (symmetry; apply Z.eqb_neq; lia).
    + replace (at_ s i =? at_ k i) with true by (symmetry; apply Z.eqb_eq; lia). rewrite IH; done || lia.
  - replace (size k <=? i) with false by (symmetry; apply Z.leb_gt; lia).
    by rewrite (proj1 (lenZ_0 (dropZ i (nibs s)))) by (rewrite lenZ_dropZ by lia; lia).
Qed.

(** ** Claims *)

(** The three overloads of [hexPrefixEncode], which build their strings in three
    different ways (over a vector of nibbles, over a byte string with an offset, over the
    concatenation of two slices), all compute the one hex-prefix encoding [hp] of the
    nibbles they are given. *)
Theorem hexPrefixEncode_overloads_agree (s1 s2 : NibbleSlice) (leaf : bool) :
  slice_ok s1 -> slice_ok s2 ->
  hexPrefixEncode s1 leaf 0 (-1) = hp leaf (nibs s1)
  /\ hexPrefixEncode_vector (nibs s1) leaf 0 (-1) = hp leaf (nibs s1)
  /\ hexPrefixEncode_cat s1 s2 leaf = hp leaf (nibs s1 ++ nibs s2).
Proof.
  intros H1 H2. split; [by apply hexPrefixEncode_spec|split].
  - apply hexPrefixEncode_vector_spec. destruct H1 as [H1 _]. by apply Forall_drop, asNibbles_nibbles.
  - by apply hexPrefixEncode_cat_spec.
Qed.

Lemma hexPrefixEncode_overloads_agree_witness :
  hexPrefixEncode_cat (mkSlice [0x12; 0x34] 1) (mkSlice [0xab] 0) true = [0x20 + 0x10 + 2; 0x34; 0xab].
Proof.
  refine (proj2 (proj2 (hexPrefixEncode_overloads_agree (mkSlice [0x12; 0x34] 1) (mkSlice [0xab] 0) true _ _)));
    (split; [apply (bool_decide_unpack _); vm_compute; exact I|vm_compute; split; discriminate]).
Defined.

(** Decoding inverts encoding: [keyOf] recovers from the encoding of a slice exactly its
    nibbles, whatever the parity of its offset and length, and [isLeaf]'s test recovers the
    leaf flag. *)
Theorem hexPrefix_roundtrip (s : NibbleSlice) (leaf : bool) :
  slice_ok s ->
  nibs (keyOf (hexPrefixEncode s leaf 0 (-1))) = nibs s
  /\ isLeafPayload (hexPrefixEncode s leaf 0 (-1)) = leaf.
Proof.
  intros Hs. rewrite hexPrefixEncode_spec by done. apply keyOf_hp.
  destruct Hs as [Hs _]. by apply Forall_drop, asNibbles_nibbles.
Qed.

Lemma hexPrefix_roundtrip_witness :
  nibs (keyOf (hexPrefixEncode (mkSlice [0x12; 0x34] 1) true 0 (-1))) = [2; 3; 4].
Proof.
  refine (proj1 (hexPrefix_roundtrip (mkSlice [0x12; 0x34] 1) true _)).
  split; [apply (bool_decide_unpack _); vm_compute; exact I|vm_compute; split; discriminate].
Defined.

(** Comparison of slices is comparison of the nibble strings they denote: [shared] is the
    length of the longest common prefix, [contains] is the prefix test, [operator==] is
    equality and [isEarlierThan] is the strict lexicographic order. *)
Theorem nibble_slice_comparisons (s k : NibbleSlice) :
  slice_ok s -> slice_ok k ->
  shared s k = lcp (nibs s) (nibs k)
  /\ (contains s k = true <-> nibs k `prefix_of` nibs s)
  /\ (slice_eqb s k = true <-> nibs s = nibs k)
  /\ isEarlierThan s k = lexlt (nibs s) (nibs k).
Proof.
  intros Hs Hk. unfold contains, slice_eqb. rewrite shared_lcp by done.
  rewrite <- (nibs_lenZ s Hs), <- (nibs_lenZ k Hk), andb_true_iff, !Z.eqb_eq, lcp_prefix.
  repeat split; try tauto.
  - intros [Hl Hp]. symmetry. apply prefix_length_eq; [done|]. unfold lenZ in Hl. lia.
  - by rewrite H.
  - by rewrite H.
  - unfold isEarlierThan. rewrite isEarlierThan_loop_lex; [done|done|done| | |lia];
      destruct Hs as [_ ?], Hk as [_ ?]; unfold size; lia.
Qed.

Lemma nibble_slice_comparisons_witness :
  isEarlierThan (mkSlice [0x12; 0x34] 1) (mkSlice [0x23; 0x51] 0) = true.
Proof.
  refine (proj2 (proj2 (proj2 (nibble_slice_comparisons (mkSlice [0x12; 0x34] 1) (mkSlice [0x23; 0x51] 0) _ _))));
    (split; [apply (bool_decide_unpack _); vm_compute; exact I|vm_compute; split; discriminate]).
Defined.
