(* ===== verification/Instruction.v ===== *)
(** * Instructions (libevm/Instruction.h, Instruction.cpp, and the jump table of LegacyVMConfig.h)

    The enumeration of opcodes with the byte each stands for, the table of stack arguments,
    results and gas tiers, and the 256-entry table of labels that the threaded interpreter
    dispatches through.  Constructors carry the prefix [I_]. *)

From S2P Require Import Prelude.
From Stdlib Require Import ZArith Lia Bool.
From stdpp Require Import base list list_numbers.
Open Scope Z_scope.

(** [enum class Instruction : uint8_t] *)
Inductive Instruction : Set :=
  | I_STOP | I_ADD | I_MUL | I_SUB | I_DIV | I_SDIV | I_MOD | I_SMOD | I_ADDMOD | I_MULMOD | I_EXP
  | I_SIGNEXTEND | I_LT | I_GT | I_SLT | I_SGT | I_EQ | I_ISZERO | I_AND | I_OR | I_XOR | I_NOT
  | I_BYTE | I_SHL | I_SHR | I_SAR | I_SHA3 | I_ADDRESS | I_BALANCE | I_ORIGIN | I_CALLER
  | I_CALLVALUE | I_CALLDATALOAD | I_CALLDATASIZE | I_CALLDATACOPY | I_CODESIZE | I_CODECOPY
  | I_GASPRICE | I_EXTCODESIZE | I_EXTCODECOPY | I_RETURNDATASIZE | I_RETURNDATACOPY
  | I_EXTCODEHASH | I_BLOCKHASH | I_COINBASE | I_TIMESTAMP | I_NUMBER | I_DIFFICULTY | I_GASLIMIT
  | I_CHAINID | I_SELFBALANCE | I_POP | I_MLOAD | I_MSTORE | I_MSTORE8 | I_SLOAD | I_SSTORE
  | I_JUMP | I_JUMPI | I_PC | I_MSIZE | I_GAS | I_JUMPDEST | I_PUSH0 | I_PUSH1 | I_PUSH2 | I_PUSH3
  | I_PUSH4 | I_PUSH5 | I_PUSH6 | I_PUSH7 | I_PUSH8 | I_PUSH9 | I_PUSH10 | I_PUSH11 | I_PUSH12
  | I_PUSH13 | I_PUSH14 | I_PUSH15 | I_PUSH16 | I_PUSH17 | I_PUSH18 | I_PUSH19 | I_PUSH20
  | I_PUSH21 | I_PUSH22 | I_PUSH23 | I_PUSH24 | I_PUSH25 | I_PUSH26 | I_PUSH27 | I_PUSH28
  | I_PUSH29 | I_PUSH30 | I_PUSH31 | I_PUSH32 | I_DUP1 | I_DUP2 | I_DUP3 | I_DUP4 | I_DUP5 | I_DUP6
  | I_DUP7 | I_DUP8 | I_DUP9 | I_DUP10 | I_DUP11 | I_DUP12 | I_DUP13 | I_DUP14 | I_DUP15 | I_DUP16
  | I_SWAP1 | I_SWAP2 | I_SWAP3 | I_SWAP4 | I_SWAP5 | I_SWAP6 | I_SWAP7 | I_SWAP8 | I_SWAP9
  | I_SWAP10 | I_SWAP11 | I_SWAP12 | I_SWAP13 | I_SWAP14 | I_SWAP15 | I_SWAP16 | I_LOG0 | I_LOG1
  | I_LOG2 | I_LOG3 | I_LOG4 | I_PUSHC | I_JUMPC | I_JUMPCI | I_UNDEFINED | I_JUMPTO | I_JUMPIF
  | I_JUMPSUB | I_JUMPV | I_JUMPSUBV | I_BEGINSUB | I_BEGINDATA | I_RETURNSUB | I_PUTLOCAL
  | I_GETLOCAL | I_XADD | I_XMUL | I_XSUB | I_XDIV | I_XSDIV | I_XMOD | I_XSMOD | I_XLT | I_XGT
  | I_XSLT | I_XSGT | I_XEQ | I_XISZERO | I_XAND | I_XOOR | I_XXOR | I_XNOT | I_XSHL | I_XSHR
  | I_XSAR | I_XROL | I_XROR | I_XPUSH | I_XMLOAD | I_XMSTORE | I_XSLOAD | I_XSSTORE | I_XVTOWIDE
  | I_XWIDETOV | I_XGET | I_XPUT | I_XSWIZZLE | I_XSHUFFLE | I_CREATE | I_CALL | I_CALLCODE
  | I_RETURN | I_DELEGATECALL | I_CREATE2 | I_STATICCALL | I_REVERT | I_INVALID | I_SUICIDE.

(** The value of each enumerator. *)
Definition opcode (i : Instruction) : Z :=
  match i with
  | I_STOP => 0x00 | I_ADD => 0x01 | I_MUL => 0x02 | I_SUB => 0x03 | I_DIV => 0x04 | I_SDIV => 0x05
  | I_MOD => 0x06 | I_SMOD => 0x07 | I_ADDMOD => 0x08 | I_MULMOD => 0x09 | I_EXP => 0x0a
  | I_SIGNEXTEND => 0x0b | I_LT => 0x10 | I_GT => 0x11 | I_SLT => 0x12 | I_SGT => 0x13
  | I_EQ => 0x14 | I_ISZERO => 0x15 | I_AND => 0x16 | I_OR => 0x17 | I_XOR => 0x18 | I_NOT => 0x19
  | I_BYTE => 0x1a | I_SHL => 0x1b | I_SHR => 0x1c | I_SAR => 0x1d | I_SHA3 => 0x20
  | I_ADDRESS => 0x30 | I_BALANCE => 0x31 | I_ORIGIN => 0x32 | I_CALLER => 0x33
  | I_CALLVALUE => 0x34 | I_CALLDATALOAD => 0x35 | I_CALLDATASIZE => 0x36 | I_CALLDATACOPY => 0x37
  | I_CODESIZE => 0x38 | I_CODECOPY => 0x39 | I_GASPRICE => 0x3a | I_EXTCODESIZE => 0x3b
  | I_EXTCODECOPY => 0x3c | I_RETURNDATASIZE => 0x3d | I_RETURNDATACOPY => 0x3e
  | I_EXTCODEHASH => 0x3f | I_BLOCKHASH => 0x40 | I_COINBASE => 0x41 | I_TIMESTAMP => 0x42
  | I_NUMBER => 0x43 | I_DIFFICULTY => 0x44 | I_GASLIMIT => 0x45 | I_CHAINID => 0x46
  | I_SELFBALANCE => 0x47 | I_POP => 0x50 | I_MLOAD => 0x51 | I_MSTORE => 0x52 | I_MSTORE8 => 0x53
  | I_SLOAD => 0x54 | I_SSTORE => 0x55 | I_JUMP => 0x56 | I_JUMPI => 0x57 | I_PC => 0x58
  | I_MSIZE => 0x59 | I_GAS => 0x5a | I_JUMPDEST => 0x5b | I_PUSH0 => 0x5f | I_PUSH1 => 0x60
  | I_PUSH2 => 0x61 | I_PUSH3 => 0x62 | I_PUSH4 => 0x63 | I_PUSH5 => 0x64 | I_PUSH6 => 0x65
  | I_PUSH7 => 0x66 | I_PUSH8 => 0x67 | I_PUSH9 => 0x68 | I_PUSH10 => 0x69 | I_PUSH11 => 0x6a
  | I_PUSH12 => 0x6b | I_PUSH13 => 0x6c | I_PUSH14 => 0x6d | I_PUSH15 => 0x6e | I_PUSH16 => 0x6f
  | I_PUSH17 => 0x70 | I_PUSH18 => 0x71 | I_PUSH19 => 0x72 | I_PUSH20 => 0x73 | I_PUSH21 => 0x74
  | I_PUSH22 => 0x75 | I_PUSH23 => 0x76 | I_PUSH24 => 0x77 | I_PUSH25 => 0x78 | I_PUSH26 => 0x79
  | I_PUSH27 => 0x7a | I_PUSH28 => 0x7b | I_PUSH29 => 0x7c | I_PUSH30 => 0x7d | I_PUSH31 => 0x7e
  | I_PUSH32 => 0x7f | I_DUP1 => 0x80 | I_DUP2 => 0x81 | I_DUP3 => 0x82 | I_DUP4 => 0x83
  | I_DUP5 => 0x84 | I_DUP6 => 0x85 | I_DUP7 => 0x86 | I_DUP8 => 0x87 | I_DUP9 => 0x88
  | I_DUP10 => 0x89 | I_DUP11 => 0x8a | I_DUP12 => 0x8b | I_DUP13 => 0x8c | I_DUP14 => 0x8d
  | I_DUP15 => 0x8e | I_DUP16 => 0x8f | I_SWAP1 => 0x90 | I_SWAP2 => 0x91 | I_SWAP3 => 0x92
  | I_SWAP4 => 0x93 | I_SWAP5 => 0x94 | I_SWAP6 => 0x95 | I_SWAP7 => 0x96 | I_SWAP8 => 0x97
  | I_SWAP9 => 0x98 | I_SWAP10 => 0x99 | I_SWAP11 => 0x9a | I_SWAP12 => 0x9b | I_SWAP13 => 0x9c
  | I_SWAP14 => 0x9d | I_SWAP15 => 0x9e | I_SWAP16 => 0x9f | I_LOG0 => 0xa0 | I_LOG1 => 0xa1
  | I_LOG2 => 0xa2 | I_LOG3 => 0xa3 | I_LOG4 => 0xa4 | I_PUSHC => 0xac | I_JUMPC => 0xad
  | I_JUMPCI => 0xae | I_UNDEFINED => 0xaf | I_JUMPTO => 0xb0 | I_JUMPIF => 0xb1
  | I_JUMPSUB => 0xb2 | I_JUMPV => 0xb3 | I_JUMPSUBV => 0xb4 | I_BEGINSUB => 0xb5
  | I_BEGINDATA => 0xb6 | I_RETURNSUB => 0xb7 | I_PUTLOCAL => 0xb8 | I_GETLOCAL => 0xb9
  | I_XADD => 0xc1 | I_XMUL => 0xc2 | I_XSUB => 0xc3 | I_XDIV => 0xc4 | I_XSDIV => 0xc5
  | I_XMOD => 0xc6 | I_XSMOD => 0xc7 | I_XLT => 0xd0 | I_XGT => 0xd1 | I_XSLT => 0xd2
  | I_XSGT => 0xd3 | I_XEQ => 0xd4 | I_XISZERO => 0xd5 | I_XAND => 0xd6 | I_XOOR => 0xd7
  | I_XXOR => 0xd8 | I_XNOT => 0xd9 | I_XSHL => 0xdb | I_XSHR => 0xdc | I_XSAR => 0xdd
  | I_XROL => 0xde | I_XROR => 0xdf | I_XPUSH => 0xe0 | I_XMLOAD => 0xe1 | I_XMSTORE => 0xe2
  | I_XSLOAD => 0xe4 | I_XSSTORE => 0xe5 | I_XVTOWIDE => 0xe6 | I_XWIDETOV => 0xe7 | I_XGET => 0xe8
  | I_XPUT => 0xe9 | I_XSWIZZLE => 0xea | I_XSHUFFLE => 0xeb | I_CREATE => 0xf0 | I_CALL => 0xf1
  | I_CALLCODE => 0xf2 | I_RETURN => 0xf3 | I_DELEGATECALL => 0xf4 | I_CREATE2 => 0xf5
  | I_STATICCALL => 0xfa | I_REVERT => 0xfd | I_INVALID => 0xfe | I_SUICIDE => 0xff
  end.

(** All enumerators, in order of declaration. *)
Definition allInstructions : list Instruction :=
  [I_STOP; I_ADD; I_MUL; I_SUB; I_DIV; I_SDIV; I_MOD; I_SMOD; I_ADDMOD; I_MULMOD; I_EXP;
   I_SIGNEXTEND; I_LT; I_GT; I_SLT; I_SGT; I_EQ; I_ISZERO; I_AND; I_OR; I_XOR; I_NOT; I_BYTE;
   I_SHL; I_SHR; I_SAR; I_SHA3; I_ADDRESS; I_BALANCE; I_ORIGIN; I_CALLER; I_CALLVALUE;
   I_CALLDATALOAD; I_CALLDATASIZE; I_CALLDATACOPY; I_CODESIZE; I_CODECOPY; I_GASPRICE;
   I_EXTCODESIZE; I_EXTCODECOPY; I_RETURNDATASIZE; I_RETURNDATACOPY; I_EXTCODEHASH; I_BLOCKHASH;
   I_COINBASE; I_TIMESTAMP; I_NUMBER; I_DIFFICULTY; I_GASLIMIT; I_CHAINID; I_SELFBALANCE; I_POP;
   I_MLOAD; I_MSTORE; I_MSTORE8; I_SLOAD; I_SSTORE; I_JUMP; I_JUMPI; I_PC; I_MSIZE; I_GAS;
   I_JUMPDEST; I_PUSH0; I_PUSH1; I_PUSH2; I_PUSH3; I_PUSH4; I_PUSH5; I_PUSH6; I_PUSH7; I_PUSH8;
   I_PUSH9; I_PUSH10; I_PUSH11; I_PUSH12; I_PUSH13; I_PUSH14; I_PUSH15; I_PUSH16; I_PUSH17;
   I_PUSH18; I_PUSH19; I_PUSH20; I_PUSH21; I_PUSH22; I_PUSH23; I_PUSH24; I_PUSH25; I_PUSH26;
   I_PUSH27; I_PUSH28; I_PUSH29; I_PUSH30; I_PUSH31; I_PUSH32; I_DUP1; I_DUP2; I_DUP3; I_DUP4;
   I_DUP5; I_DUP6; I_DUP7; I_DUP8; I_DUP9; I_DUP10; I_DUP11; I_DUP12; I_DUP13; I_DUP14; I_DUP15;
   I_DUP16; I_SWAP1; I_SWAP2; I_SWAP3; I_SWAP4; I_SWAP5; I_SWAP6; I_SWAP7; I_SWAP8; I_SWAP9;
   I_SWAP10; I_SWAP11; I_SWAP12; I_SWAP13; I_SWAP14; I_SWAP15; I_SWAP16; I_LOG0; I_LOG1; I_LOG2;
   I_LOG3; I_LOG4; I_PUSHC; I_JUMPC; I_JUMPCI; I_UNDEFINED; I_JUMPTO; I_JUMPIF; I_JUMPSUB; I_JUMPV;
   I_JUMPSUBV; I_BEGINSUB; I_BEGINDATA; I_RETURNSUB; I_PUTLOCAL; I_GETLOCAL; I_XADD; I_XMUL;
   I_XSUB; I_XDIV; I_XSDIV; I_XMOD; I_XSMOD; I_XLT; I_XGT; I_XSLT; I_XSGT; I_XEQ; I_XISZERO;
   I_XAND; I_XOOR; I_XXOR; I_XNOT; I_XSHL; I_XSHR; I_XSAR; I_XROL; I_XROR; I_XPUSH; I_XMLOAD;
   I_XMSTORE; I_XSLOAD; I_XSSTORE; I_XVTOWIDE; I_XWIDETOV; I_XGET; I_XPUT; I_XSWIZZLE; I_XSHUFFLE;
   I_CREATE; I_CALL; I_CALLCODE; I_RETURN; I_DELEGATECALL; I_CREATE2; I_STATICCALL; I_REVERT;
   I_INVALID; I_SUICIDE].

(** [Instruction( byte )]: the enumerator a byte stands for, if any. *)
Definition ofByte (b : Z) : option Instruction :=
  List.find (fun i => opcode i =? b) allInstructions.

(** Every enumerator is the one of its own byte, so enumerators with the same byte are equal. *)
Lemma ofByte_opcode i : ofByte (opcode i) = Some i.
Proof. by destruct i. Qed.
Lemma opcode_inj i j : opcode i = opcode j -> i = j.
Proof. intros H. apply (f_equal ofByte) in H. rewrite !ofByte_opcode in H. congruence. Qed.
Lemma ofByte_Some b i : ofByte b = Some i -> opcode i = b.
Proof. intros H. apply List.find_some in H as [_ H]. by apply Z.eqb_eq. Qed.
#[export] Instance Instruction_eq_dec : EqDecision Instruction.
Proof.
  intros i j. destruct (decide (opcode i = opcode j)) as [H|H].
  - left. by apply opcode_inj.
  - right. by intros ->.
Defined.

(** [enum class Tier] *)
Inductive Tier := Zero | Base | VeryLow | Low | Mid | High | Ext | Special | Invalid.
Definition tierIndex (t : Tier) : Z :=
  match t with Zero => 0 | Base => 1 | VeryLow => 2 | Low => 3 | Mid => 4 | High => 5
  | Ext => 6 | Special => 7 | Invalid => 8 end.

Record InstructionInfo := mkInfo { args : Z; ret : Z; gasPriceTier : Tier }.

(** The entries of [c_instructionInfo] up to the LOG instructions, and the rest. *)
Definition c_instructionInfo_user : list (Instruction * InstructionInfo) :=
  [(I_STOP, mkInfo 0 0 Zero); (I_ADD, mkInfo 2 1 VeryLow); (I_SUB, mkInfo 2 1 VeryLow);
   (I_MUL, mkInfo 2 1 Low); (I_DIV, mkInfo 2 1 Low); (I_SDIV, mkInfo 2 1 Low);
   (I_MOD, mkInfo 2 1 Low); (I_SMOD, mkInfo 2 1 Low); (I_EXP, mkInfo 2 1 Special);
   (I_NOT, mkInfo 1 1 VeryLow); (I_LT, mkInfo 2 1 VeryLow); (I_GT, mkInfo 2 1 VeryLow);
   (I_SLT, mkInfo 2 1 VeryLow); (I_SGT, mkInfo 2 1 VeryLow); (I_EQ, mkInfo 2 1 VeryLow);
   (I_ISZERO, mkInfo 1 1 VeryLow); (I_AND, mkInfo 2 1 VeryLow); (I_OR, mkInfo 2 1 VeryLow);
   (I_XOR, mkInfo 2 1 VeryLow); (I_BYTE, mkInfo 2 1 VeryLow); (I_SHL, mkInfo 2 1 VeryLow);
   (I_SHR, mkInfo 2 1 VeryLow); (I_SAR, mkInfo 2 1 VeryLow); (I_ADDMOD, mkInfo 3 1 Mid);
   (I_MULMOD, mkInfo 3 1 Mid); (I_SIGNEXTEND, mkInfo 2 1 Low); (I_SHA3, mkInfo 2 1 Special);
   (I_ADDRESS, mkInfo 0 1 Base); (I_BALANCE, mkInfo 1 1 Special); (I_ORIGIN, mkInfo 0 1 Base);
   (I_CALLER, mkInfo 0 1 Base); (I_CALLVALUE, mkInfo 0 1 Base);
   (I_CALLDATALOAD, mkInfo 1 1 VeryLow); (I_CALLDATASIZE, mkInfo 0 1 Base);
   (I_CALLDATACOPY, mkInfo 3 0 VeryLow); (I_CODESIZE, mkInfo 0 1 Base);
   (I_CODECOPY, mkInfo 3 0 VeryLow); (I_GASPRICE, mkInfo 0 1 Base);
   (I_EXTCODESIZE, mkInfo 1 1 Special); (I_EXTCODECOPY, mkInfo 4 0 Special);
   (I_RETURNDATASIZE, mkInfo 0 1 Base); (I_RETURNDATACOPY, mkInfo 3 0 VeryLow);
   (I_EXTCODEHASH, mkInfo 1 1 Special); (I_BLOCKHASH, mkInfo 1 1 Special);
   (I_COINBASE, mkInfo 0 1 Base); (I_TIMESTAMP, mkInfo 0 1 Base); (I_NUMBER, mkInfo 0 1 Base);
   (I_DIFFICULTY, mkInfo 0 1 Base); (I_GASLIMIT, mkInfo 0 1 Base); (I_CHAINID, mkInfo 0 1 Base);
   (I_SELFBALANCE, mkInfo 0 1 Low); (I_POP, mkInfo 1 0 Base); (I_MLOAD, mkInfo 1 1 VeryLow);
   (I_MSTORE, mkInfo 2 0 VeryLow); (I_MSTORE8, mkInfo 2 0 VeryLow); (I_SLOAD, mkInfo 1 1 Special);
   (I_SSTORE, mkInfo 2 0 Special); (I_JUMP, mkInfo 1 0 Mid); (I_JUMPI, mkInfo 2 0 High);
   (I_PC, mkInfo 0 1 Base); (I_MSIZE, mkInfo 0 1 Base); (I_GAS, mkInfo 0 1 Base);
   (I_JUMPDEST, mkInfo 0 0 Special); (I_PUSH0, mkInfo 0 1 Base); (I_PUSH1, mkInfo 0 1 VeryLow);
   (I_PUSH2, mkInfo 0 1 VeryLow); (I_PUSH3, mkInfo 0 1 VeryLow); (I_PUSH4, mkInfo 0 1 VeryLow);
   (I_PUSH5, mkInfo 0 1 VeryLow); (I_PUSH6, mkInfo 0 1 VeryLow); (I_PUSH7, mkInfo 0 1 VeryLow);
   (I_PUSH8, mkInfo 0 1 VeryLow); (I_PUSH9, mkInfo 0 1 VeryLow); (I_PUSH10, mkInfo 0 1 VeryLow);
   (I_PUSH11, mkInfo 0 1 VeryLow); (I_PUSH12, mkInfo 0 1 VeryLow); (I_PUSH13, mkInfo 0 1 VeryLow);
   (I_PUSH14, mkInfo 0 1 VeryLow); (I_PUSH15, mkInfo 0 1 VeryLow); (I_PUSH16, mkInfo 0 1 VeryLow);
   (I_PUSH17, mkInfo 0 1 VeryLow); (I_PUSH18, mkInfo 0 1 VeryLow); (I_PUSH19, mkInfo 0 1 VeryLow);
   (I_PUSH20, mkInfo 0 1 VeryLow); (I_PUSH21, mkInfo 0 1 VeryLow); (I_PUSH22, mkInfo 0 1 VeryLow);
   (I_PUSH23, mkInfo 0 1 VeryLow); (I_PUSH24, mkInfo 0 1 VeryLow); (I_PUSH25, mkInfo 0 1 VeryLow);
   (I_PUSH26, mkInfo 0 1 VeryLow); (I_PUSH27, mkInfo 0 1 VeryLow); (I_PUSH28, mkInfo 0 1 VeryLow);
   (I_PUSH29, mkInfo 0 1 VeryLow); (I_PUSH30, mkInfo 0 1 VeryLow); (I_PUSH31, mkInfo 0 1 VeryLow);
   (I_PUSH32, mkInfo 0 1 VeryLow); (I_DUP1, mkInfo 1 2 VeryLow); (I_DUP2, mkInfo 2 3 VeryLow);
   (I_DUP3, mkInfo 3 4 VeryLow); (I_DUP4, mkInfo 4 5 VeryLow); (I_DUP5, mkInfo 5 6 VeryLow);
   (I_DUP6, mkInfo 6 7 VeryLow); (I_DUP7, mkInfo 7 8 VeryLow); (I_DUP8, mkInfo 8 9 VeryLow);
   (I_DUP9, mkInfo 9 10 VeryLow); (I_DUP10, mkInfo 10 11 VeryLow); (I_DUP11, mkInfo 11 12 VeryLow);
   (I_DUP12, mkInfo 12 13 VeryLow); (I_DUP13, mkInfo 13 14 VeryLow);
   (I_DUP14, mkInfo 14 15 VeryLow); (I_DUP15, mkInfo 15 16 VeryLow);
   (I_DUP16, mkInfo 16 17 VeryLow); (I_SWAP1, mkInfo 2 2 VeryLow); (I_SWAP2, mkInfo 3 3 VeryLow);
   (I_SWAP3, mkInfo 4 4 VeryLow); (I_SWAP4, mkInfo 5 5 VeryLow); (I_SWAP5, mkInfo 6 6 VeryLow);
   (I_SWAP6, mkInfo 7 7 VeryLow); (I_SWAP7, mkInfo 8 8 VeryLow); (I_SWAP8, mkInfo 9 9 VeryLow);
   (I_SWAP9, mkInfo 10 10 VeryLow); (I_SWAP10, mkInfo 11 11 VeryLow);
   (I_SWAP11, mkInfo 12 12 VeryLow); (I_SWAP12, mkInfo 13 13 VeryLow);
   (I_SWAP13, mkInfo 14 14 VeryLow); (I_SWAP14, mkInfo 15 15 VeryLow);
   (I_SWAP15, mkInfo 16 16 VeryLow); (I_SWAP16, mkInfo 17 17 VeryLow);
   (I_LOG0, mkInfo 2 0 Special); (I_LOG1, mkInfo 3 0 Special); (I_LOG2, mkInfo 4 0 Special);
   (I_LOG3, mkInfo 5 0 Special); (I_LOG4, mkInfo 6 0 Special)].

Definition c_instructionInfo_ext : list (Instruction * InstructionInfo) :=
  [(I_JUMPTO, mkInfo 1 0 VeryLow); (I_JUMPIF, mkInfo 2 0 Low); (I_JUMPV, mkInfo 1 0 Mid);
   (I_JUMPSUB, mkInfo 1 0 Low); (I_JUMPSUBV, mkInfo 1 0 Mid); (I_BEGINSUB, mkInfo 0 0 Special);
   (I_BEGINDATA, mkInfo 0 0 Special); (I_RETURNSUB, mkInfo 1 0 Mid);
   (I_PUTLOCAL, mkInfo 1 0 VeryLow); (I_GETLOCAL, mkInfo 0 1 VeryLow);
   (I_XADD, mkInfo 0 0 Special); (I_XMUL, mkInfo 2 1 Special); (I_XSUB, mkInfo 2 1 Special);
   (I_XDIV, mkInfo 2 1 Special); (I_XSDIV, mkInfo 2 1 Special); (I_XMOD, mkInfo 2 1 Special);
   (I_XSMOD, mkInfo 2 1 Special); (I_XLT, mkInfo 2 1 Special); (I_XGT, mkInfo 2 1 Special);
   (I_XSLT, mkInfo 2 1 Special); (I_XSGT, mkInfo 2 1 Special); (I_XEQ, mkInfo 2 1 Special);
   (I_XISZERO, mkInfo 2 1 Special); (I_XAND, mkInfo 1 1 Special); (I_XOOR, mkInfo 2 1 Special);
   (I_XXOR, mkInfo 2 1 Special); (I_XNOT, mkInfo 2 1 Special); (I_XSHL, mkInfo 2 1 Special);
   (I_XSHR, mkInfo 2 1 Special); (I_XSAR, mkInfo 2 1 Special); (I_XROL, mkInfo 2 1 Special);
   (I_XROR, mkInfo 2 1 Special); (I_XPUSH, mkInfo 1 1 VeryLow); (I_XMLOAD, mkInfo 1 1 VeryLow);
   (I_XMSTORE, mkInfo 2 0 VeryLow); (I_XSLOAD, mkInfo 1 1 Special);
   (I_XSSTORE, mkInfo 2 0 Special); (I_XVTOWIDE, mkInfo 1 1 VeryLow);
   (I_XWIDETOV, mkInfo 1 1 VeryLow); (I_XPUT, mkInfo 3 1 Special); (I_XGET, mkInfo 2 1 Special);
   (I_XSWIZZLE, mkInfo 2 1 Special); (I_XSHUFFLE, mkInfo 3 1 Special);
   (I_CREATE, mkInfo 3 1 Special); (I_CREATE2, mkInfo 4 1 Special); (I_CALL, mkInfo 7 1 Special);
   (I_CALLCODE, mkInfo 7 1 Special); (I_RETURN, mkInfo 2 0 Zero);
   (I_STATICCALL, mkInfo 6 1 Special); (I_DELEGATECALL, mkInfo 6 1 Special);
   (I_REVERT, mkInfo 2 0 Special); (I_INVALID, mkInfo 0 0 Zero); (I_SUICIDE, mkInfo 1 0 Special);
   (I_PUSHC, mkInfo 0 1 VeryLow); (I_JUMPC, mkInfo 1 0 Mid); (I_JUMPCI, mkInfo 2 0 High)].

Definition c_instructionInfo : list (Instruction * InstructionInfo) :=
  c_instructionInfo_user ++ c_instructionInfo_ext.

Definition instructionInfo (b : Z) : InstructionInfo :=
  match List.find (fun e => opcode (fst e) =? b) c_instructionInfo with
  | Some e => snd e
  | None => mkInfo 0 0 Invalid
  end.

(** The labels of [jumpTable], one per byte: 0x00 to 0x7f, then 0x80 to 0xff. *)
Definition jumpTable_lo : list Instruction :=
  [I_STOP; I_ADD; I_MUL; I_SUB; I_DIV; I_SDIV; I_MOD; I_SMOD; I_ADDMOD; I_MULMOD; I_EXP;
   I_SIGNEXTEND; I_INVALID; I_INVALID; I_INVALID; I_INVALID; I_LT; I_GT; I_SLT; I_SGT; I_EQ;
   I_ISZERO; I_AND; I_OR; I_XOR; I_NOT; I_BYTE; I_SHL; I_SHR; I_SAR; I_INVALID; I_INVALID; I_SHA3;
   I_INVALID; I_INVALID; I_INVALID; I_INVALID; I_INVALID; I_INVALID; I_INVALID; I_INVALID;
   I_INVALID; I_INVALID; I_INVALID; I_INVALID; I_INVALID; I_INVALID; I_INVALID; I_ADDRESS;
   I_BALANCE; I_ORIGIN; I_CALLER; I_CALLVALUE; I_CALLDATALOAD; I_CALLDATASIZE; I_CALLDATACOPY;
   I_CODESIZE; I_CODECOPY; I_GASPRICE; I_EXTCODESIZE; I_EXTCODECOPY; I_RETURNDATASIZE;
   I_RETURNDATACOPY; I_EXTCODEHASH; I_BLOCKHASH; I_COINBASE; I_TIMESTAMP; I_NUMBER; I_DIFFICULTY;
   I_GASLIMIT; I_CHAINID; I_SELFBALANCE; I_INVALID; I_INVALID; I_INVALID; I_INVALID; I_INVALID;
   I_INVALID; I_INVALID; I_INVALID; I_POP; I_MLOAD; I_MSTORE; I_MSTORE8; I_SLOAD; I_SSTORE; I_JUMP;
   I_JUMPI; I_PC; I_MSIZE; I_GAS; I_JUMPDEST; I_BEGINDATA; I_BEGINSUB; I_INVALID; I_PUSH0; I_PUSH1;
   I_PUSH2; I_PUSH3; I_PUSH4; I_PUSH5; I_PUSH6; I_PUSH7; I_PUSH8; I_PUSH9; I_PUSH10; I_PUSH11;
   I_PUSH12; I_PUSH13; I_PUSH14; I_PUSH15; I_PUSH16; I_PUSH17; I_PUSH18; I_PUSH19; I_PUSH20;
   I_PUSH21; I_PUSH22; I_PUSH23; I_PUSH24; I_PUSH25; I_PUSH26; I_PUSH27; I_PUSH28; I_PUSH29;
   I_PUSH30; I_PUSH31; I_PUSH32].

Definition jumpTable_hi : list Instruction :=
  [I_DUP1; I_DUP2; I_DUP3; I_DUP4; I_DUP5; I_DUP6; I_DUP7; I_DUP8; I_DUP9; I_DUP10; I_DUP11;
   I_DUP12; I_DUP13; I_DUP14; I_DUP15; I_DUP16; I_SWAP1; I_SWAP2; I_SWAP3; I_SWAP4; I_SWAP5;
   I_SWAP6; I_SWAP7; I_SWAP8; I_SWAP9; I_SWAP10; I_SWAP11; I_SWAP12; I_SWAP13; I_SWAP14; I_SWAP15;
   I_SWAP16; I_LOG0; I_LOG1; I_LOG2; I_LOG3; I_LOG4; I_INVALID; I_INVALID; I_INVALID; I_INVALID;
   I_INVALID; I_INVALID; I_INVALID; I_PUSHC; I_JUMPC; I_JUMPCI; I_INVALID; I_JUMPTO; I_JUMPIF;
   I_JUMPSUB; I_JUMPV; I_JUMPSUBV; I_BEGINSUB; I_BEGINDATA; I_RETURNSUB; I_PUTLOCAL; I_GETLOCAL;
   I_INVALID; I_INVALID; I_INVALID; I_INVALID; I_INVALID; I_INVALID; I_INVALID; I_XADD; I_XMUL;
   I_XSUB; I_XDIV; I_XSDIV; I_XMOD; I_XSMOD; I_INVALID; I_INVALID; I_INVALID; I_INVALID; I_INVALID;
   I_INVALID; I_INVALID; I_INVALID; I_XLT; I_XGT; I_XSLT; I_XSGT; I_XEQ; I_XISZERO; I_XAND; I_XOOR;
   I_XXOR; I_XNOT; I_INVALID; I_XSHL; I_XSHR; I_XSAR; I_XROL; I_XROR; I_XPUSH; I_XMLOAD; I_XMSTORE;
   I_INVALID; I_XSLOAD; I_XSSTORE; I_XVTOWIDE; I_XWIDETOV; I_XGET; I_XPUT; I_XSWIZZLE; I_XSHUFFLE;
   I_INVALID; I_INVALID; I_INVALID; I_INVALID; I_CREATE; I_CALL; I_CALLCODE; I_RETURN;
   I_DELEGATECALL; I_CREATE2; I_INVALID; I_INVALID; I_INVALID; I_INVALID; I_STATICCALL; I_INVALID;
   I_INVALID; I_REVERT; I_INVALID; I_SUICIDE].

Definition jumpTable : list Instruction := jumpTable_lo ++ jumpTable_hi.

(** The label the threaded interpreter jumps to for byte [b], and the case label the
    [switch] of the portable interpreter selects (its [default] is the INVALID case). *)
Definition threadedLabel (b : Z) : Instruction := nth (Z.to_nat b) jumpTable I_INVALID.
Definition switchLabel (b : Z) : Instruction :=
  match ofByte b with Some I_UNDEFINED => I_INVALID | Some i => i | None => I_INVALID end.

Lemma byte_seqZ b : is_byte b -> b ∈ seqZ 0 256.
Proof. intros. apply elem_of_seqZ. unfold is_byte in *. lia. Qed.

(** A decidable property of bytes holds of all of them when it evaluates to true on each. *)
Lemma forall_bytes (P : Z -> bool) : forallb P (seqZ 0 256) = true -> forall b, is_byte b -> P b = true.
Proof.
  intros H b Hb. rewrite forallb_forall in H. apply H. apply list_elem_of_In. by apply byte_seqZ.
Qed.
