(* ===== verification/EVMSchedule.v ===== *)
(** * The gas schedule (libethcore/EVMSchedule.h)

    Every [unsigned] field is a 32-bit integer kept as a [Z]; the named schedules are built
    from one another by field updates, as in the source. *)

From S2P Require Import Prelude.
From Stdlib Require Import ZArith Lia Bool.
From stdpp Require Import base list.
Open Scope Z_scope.

Record EVMSchedule := mkSchedule {
  accountVersion : Z;
  exceptionalFailedCodeDeposit : bool;
  haveDelegateCall : bool;
  eip150Mode : bool;
  eip158Mode : bool;
  eip1283Mode : bool;
  haveBitwiseShifting : bool;
  haveRevert : bool;
  haveReturnData : bool;
  haveStaticCall : bool;
  haveCreate2 : bool;
  haveExtcodehash : bool;
  haveChainID : bool;
  haveSelfbalance : bool;
  havePush0 : bool;
  tierStepGas : list Z;
  expGas : Z;
  expByteGas : Z;
  sha3Gas : Z;
  sha3WordGas : Z;
  sloadGas : Z;
  sstoreSetGas : Z;
  sstoreResetGas : Z;
  sstoreUnchangedGas : Z;
  sstoreRefundGas : Z;
  sstoreRefundNonzeroGas : Z;
  jumpdestGas : Z;
  logGas : Z;
  logDataGas : Z;
  logTopicGas : Z;
  createGas : Z;
  callGas : Z;
  callStipend : Z;
  callValueTransferGas : Z;
  callNewAccountGas : Z;
  suicideRefundGas : Z;
  memoryGas : Z;
  quadCoeffDiv : Z;
  createDataGas : Z;
  txGas : Z;
  txCreateGas : Z;
  txDataZeroGas : Z;
  txDataNonZeroGas : Z;
  copyGas : Z;
  extcodesizeGas : Z;
  extcodecopyGas : Z;
  extcodehashGas : Z;
  balanceGas : Z;
  suicideGas : Z;
  blockhashGas : Z;
  maxCodeSize : Z;
  blockRewardOverwrite : option Z
}.

(** [EVMSchedule()] *)
Definition DefaultSchedule : EVMSchedule := {|
  accountVersion := 0;
  exceptionalFailedCodeDeposit := true;
  haveDelegateCall := true;
  eip150Mode := false;
  eip158Mode := false;
  eip1283Mode := false;
  haveBitwiseShifting := false;
  haveRevert := false;
  haveReturnData := false;
  haveStaticCall := false;
  haveCreate2 := false;
  haveExtcodehash := false;
  haveChainID := false;
  haveSelfbalance := false;
  havePush0 := false;
  tierStepGas := [0; 2; 3; 5; 8; 10; 20; 0];
  expGas := 10;
  expByteGas := 10;
  sha3Gas := 30;
  sha3WordGas := 6;
  sloadGas := 50;
  sstoreSetGas := 20000;
  sstoreResetGas := 5000;
  sstoreUnchangedGas := 200;
  sstoreRefundGas := 15000;
  sstoreRefundNonzeroGas := 4800;
  jumpdestGas := 1;
  logGas := 375;
  logDataGas := 8;
  logTopicGas := 375;
  createGas := 32000;
  callGas := 40;
  callStipend := 2300;
  callValueTransferGas := 9000;
  callNewAccountGas := 25000;
  suicideRefundGas := 24000;
  memoryGas := 3;
  quadCoeffDiv := 512;
  createDataGas := 200;
  txGas := 21000;
  txCreateGas := 53000;
  txDataZeroGas := 4;
  txDataNonZeroGas := 68;
  copyGas := 3;
  extcodesizeGas := 20;
  extcodecopyGas := 20;
  extcodehashGas := 400;
  balanceGas := 20;
  suicideGas := 0;
  blockhashGas := 20;
  maxCodeSize := 4294967295;
  blockRewardOverwrite := None
|}.

#[export] Instance EVMSchedule_expand : Expandable EVMSchedule := fun r => mkSchedule
  (accountVersion r) (exceptionalFailedCodeDeposit r) (haveDelegateCall r) (eip150Mode r)
  (eip158Mode r) (eip1283Mode r) (haveBitwiseShifting r) (haveRevert r) (haveReturnData r)
  (haveStaticCall r) (haveCreate2 r) (haveExtcodehash r) (haveChainID r) (haveSelfbalance r)
  (havePush0 r) (tierStepGas r) (expGas r) (expByteGas r) (sha3Gas r) (sha3WordGas r)
  (sloadGas r) (sstoreSetGas r) (sstoreResetGas r) (sstoreUnchangedGas r) (sstoreRefundGas r)
  (sstoreRefundNonzeroGas r) (jumpdestGas r) (logGas r) (logDataGas r) (logTopicGas r)
  (createGas r) (callGas r) (callStipend r) (callValueTransferGas r) (callNewAccountGas r)
  (suicideRefundGas r) (memoryGas r) (quadCoeffDiv r) (createDataGas r) (txGas r)
  (txCreateGas r) (txDataZeroGas r) (txDataNonZeroGas r) (copyGas r) (extcodesizeGas r)
  (extcodecopyGas r) (extcodehashGas r) (balanceGas r) (suicideGas r) (blockhashGas r)
  (maxCodeSize r) (blockRewardOverwrite r).

(** [EVMSchedule( _efcd, _hdc, _txCreateGas )] *)
Definition EVMSchedule_ctor (efcd hdc : bool) (createGas_ : Z) : EVMSchedule :=
  DefaultSchedule
    <| exceptionalFailedCodeDeposit := efcd |> <| haveDelegateCall := hdc |>
    <| txCreateGas := createGas_ |>.
Definition FrontierSchedule := EVMSchedule_ctor false false 21000.
Definition HomesteadSchedule := EVMSchedule_ctor true true 53000.

Definition EIP150Schedule : EVMSchedule := HomesteadSchedule
  <| eip150Mode := true |> <| extcodesizeGas := 700 |> <| extcodecopyGas := 700 |>
  <| balanceGas := 400 |> <| sloadGas := 200 |> <| callGas := 700 |>
  <| suicideGas := 5000 |>.
Definition EIP158Schedule : EVMSchedule := EIP150Schedule
  <| expByteGas := 50 |> <| eip158Mode := true |> <| maxCodeSize := (1024 * 64) |>.
Definition ByzantiumSchedule : EVMSchedule := EIP158Schedule
  <| haveRevert := true |> <| haveReturnData := true |> <| haveStaticCall := true |>
  <| blockRewardOverwrite := (Some (3 * 10 ^ 18)) |>.
Definition ConstantinopleSchedule : EVMSchedule := ByzantiumSchedule
  <| haveCreate2 := true |> <| haveBitwiseShifting := true |> <| haveExtcodehash := true |>
  <| eip1283Mode := true |> <| blockRewardOverwrite := (Some (2 * 10 ^ 18)) |>.
Definition ConstantinopleFixSchedule : EVMSchedule := ConstantinopleSchedule
  <| eip1283Mode := false |>.
Definition IstanbulSchedule : EVMSchedule := ConstantinopleFixSchedule
  <| txDataNonZeroGas := 16 |> <| sloadGas := 800 |> <| balanceGas := 700 |>
  <| extcodehashGas := 700 |> <| haveChainID := true |> <| haveSelfbalance := true |>
  <| sstoreUnchangedGas := 800 |>.
Definition BerlinSchedule : EVMSchedule := IstanbulSchedule.
Definition ExperimentalSchedule : EVMSchedule := BerlinSchedule
  <| accountVersion := 1 |> <| blockhashGas := 800 |>.

Definition latestScheduleForAccountVersion (version : Z) : EVMSchedule :=
  if version =? 0 then IstanbulSchedule
  else if version =? accountVersion ExperimentalSchedule then ExperimentalSchedule
  else DefaultSchedule.

Definition staticCallDepthLimit (s : EVMSchedule) : bool := negb (eip150Mode s).
Definition zeroValueTransferChargesNewAccountGas (s : EVMSchedule) : bool := negb (eip158Mode s).

(** What the interpreter's accounting relies on: every cost is an [unsigned] small enough for
    the 64-bit sums, no instruction that goes on is free, and a value transfer costs more
    than the stipend it grants. *)
Definition cost_ok (z : Z) : bool := (0 <=? z) && (z <? 2 ^ 20).
Definition charge_ok (z : Z) : bool := (1 <=? z) && (z <? 2 ^ 20).
Definition schedule_ok (s : EVMSchedule) : bool :=
  bool_decide (tierStepGas s = [0; 2; 3; 5; 8; 10; 20; 0]) &&
  forallb charge_ok
    [expGas s; sha3Gas s; sloadGas s; sstoreSetGas s; sstoreResetGas s; sstoreUnchangedGas s;
     logGas s; createGas s; callGas s; extcodesizeGas s; extcodecopyGas s; extcodehashGas s;
     balanceGas s; blockhashGas s] &&
  forallb cost_ok
    [expByteGas s; sha3WordGas s; logDataGas s; logTopicGas s; callNewAccountGas s; memoryGas s;
     copyGas s; suicideGas s; callValueTransferGas s; callStipend s;
     sstoreRefundGas s; sstoreRefundNonzeroGas s] &&
  (callStipend s <=? callValueTransferGas s) && (quadCoeffDiv s =? 512).

(** Every schedule the source defines is one of these. *)
Definition namedSchedules : list EVMSchedule :=
  [DefaultSchedule; FrontierSchedule; HomesteadSchedule; EIP150Schedule; EIP158Schedule;
   ByzantiumSchedule; ConstantinopleSchedule; ConstantinopleFixSchedule; IstanbulSchedule;
   BerlinSchedule; ExperimentalSchedule].
Lemma named_schedules_ok : Forall (fun s => schedule_ok s = true) namedSchedules.
Proof. repeat constructor. Qed.
