(* ===== verification/Words.v ===== *)
(** * 256-bit word operations of the interpreter

    The right-hand sides of the arithmetic, comparison and bitwise cases of
    [LegacyVM::interpretCases] (libevm/LegacyVM.cpp), [exp256] (LegacyVMOpt.cpp) and the
    conversions [u2s], [s2u] (libdevcore/Common.h).  A [u256] is an integer in [0, 2^256);
    [s256] and [s512] are sign-magnitude integers, so a conversion to them truncates the
    magnitude.  The theorems relate each operation to two's-complement or modular arithmetic
    on mathematical integers. *)

From S2P Require Import Prelude.
From Stdlib Require Import ZArith Lia Bool.
From stdpp Require Import base list.
Open Scope Z_scope.

Definition is_u256 (z : Z) : Prop := 0 <= z < 2 ^ 256.

(** Conversion to a sign-magnitude integer of [w] bits. *)
Definition smag (w z : Z) : Z := Z.sgn z * wrap w (Z.abs z).

(** ** Conversions between [u256] and [s256] *)

Definition u2s (u : Z) : Z :=
  if Z.testbit u 255 then smag 256 (- (2 ^ 256 - u)) else smag 256 u.
Definition s2u (u : Z) : Z :=
  if 0 <=? u then u256 u else u256 (2 ^ 256 + u).

(** ** The operations *)

Definition divWorkaround_u (a b : Z) : Z := u256 (Z.quot (smag 512 a) (smag 512 b)).
Definition divWorkaround_s (a b : Z) : Z := smag 256 (Z.quot (smag 512 a) (smag 512 b)).
Definition modWorkaround_u (a b : Z) : Z := u256 (Z.rem (smag 512 a) (smag 512 b)).
Definition modWorkaround_s (a b : Z) : Z := smag 256 (Z.rem (smag 512 a) (smag 512 b)).

Definition b2z (b : bool) : Z := if b then 1 else 0.

Definition v_ADD (a b : Z) : Z := u256 (a + b).
Definition v_MUL (a b : Z) : Z := u256 (a * b).
Definition v_SUB (a b : Z) : Z := u256 (a - b).
Definition v_DIV (a b : Z) : Z := if b =? 0 then 0 else divWorkaround_u a b.
Definition v_SDIV (a b : Z) : Z := if b =? 0 then 0 else s2u (divWorkaround_s (u2s a) (u2s b)).
Definition v_MOD (a b : Z) : Z := if b =? 0 then 0 else modWorkaround_u a b.
Definition v_SMOD (a b : Z) : Z := if b =? 0 then 0 else s2u (modWorkaround_s (u2s a) (u2s b)).
Definition allbits : Z := 0xffffffffffffffffffffffffffffffffffffffffffffffffffffffffffffffff.
Definition hibit : Z := u256 (Z.shiftl 1 255).
Definition v_NOT (a : Z) : Z := Z.lxor a allbits.
Definition v_LT (a b : Z) : Z := b2z (a <? b).
Definition v_GT (a b : Z) : Z := b2z (a >? b).
Definition v_SLT (a b : Z) : Z := b2z (u2s a <? u2s b).
Definition v_SGT (a b : Z) : Z := b2z (u2s a >? u2s b).
Definition v_EQ (a b : Z) : Z := b2z (a =? b).
Definition v_ISZERO (a : Z) : Z := if a =? 0 then 1 else 0.
Definition v_AND (a b : Z) : Z := Z.land a b.
Definition v_OR (a b : Z) : Z := Z.lor a b.
Definition v_XOR (a b : Z) : Z := Z.lxor a b.
Definition v_BYTE (a b : Z) : Z :=
  if a <? 32 then Z.land (Z.shiftr b (u32 (u256 (8 * u256 (31 - a))))) 0xff else 0.
Definition v_SHL (a b : Z) : Z := if a >=? 256 then 0 else u256 (Z.shiftl b (u32 a)).
Definition v_SHR (a b : Z) : Z := if a >=? 256 then 0 else Z.shiftr b (u32 a).
Definition v_SAR (a shiftee : Z) : Z :=
  let neg := negb (Z.land shiftee hibit =? 0) in
  if a >=? 256 then (if neg then allbits else 0)
  else
    let amount := u32 a in
    let r := Z.shiftr shiftee amount in
    if neg then Z.lor r (u256 (Z.shiftl allbits (u32 (256 - amount)))) else r.
Definition v_ADDMOD (a b c : Z) : Z := if c =? 0 then 0 else u256 (wrap 512 (a + b) mod c).
Definition v_MULMOD (a b c : Z) : Z := if c =? 0 then 0 else u256 (wrap 512 (a * b) mod c).
Definition v_SIGNEXTEND (a number : Z) : Z :=
  if a <? 31 then
    let testBit := u32 (u32 a * 8 + 7) in
    let mask := u256 (u256 (Z.shiftl 1 testBit) - 1) in
    if Z.testbit number testBit then Z.lor number (Z.lxor mask allbits) else Z.land number mask
  else number.

(** [exp256]: the loop halves the exponent, so 256 rounds consume any [u256]. *)
Fixpoint exp256_loop (fuel : nat) (result base exponent : Z) : Z :=
  match fuel with
  | O => result
  | S f =>
      if exponent =? 0 then result
      else exp256_loop f (if Z.odd exponent then u256 (result * base) else result)
             (u256 (base * base)) (Z.shiftr exponent 1)
  end.
Definition exp256 (base exponent : Z) : Z := exp256_loop 256 1 base exponent.

(** ** Specification: two's complement *)

Definition sint (u : Z) : Z := if u <? 2 ^ 255 then u else u - 2 ^ 256.
Definition swrap (z : Z) : Z := sint (z mod 2 ^ 256).

(** The low [n] bits of [x] read as an [n]-bit two's-complement number. *)
Definition slow (n x : Z) : Z :=
  let l := x mod 2 ^ n in if l <? 2 ^ (n - 1) then l else l - 2 ^ n.

(** ** Lemmas *)

Lemma testbit_255 u : is_u256 u -> Z.testbit u 255 = negb (u <? 2 ^ 255).
Proof.
  intros [H0 H1]. rewrite Z.testbit_odd, Z.shiftr_div_pow2 by lia.
  destruct (Z.ltb_spec u (2 ^ 255)) as [H|H].
  - by rewrite Z.div_small by lia.
  - replace (u / 2 ^ 255) with 1; [done|]. apply Z.div_unique with (u - 2 ^ 255); lia.
Qed.

Lemma smag_small w z : 0 <= w -> Z.abs z < 2 ^ w -> smag w z = z.
Proof. intros. unfold smag. rewrite wrap_small by lia. apply Z.sgn_abs || lia. Qed.

Lemma u2s_sint u : is_u256 u -> u2s u = sint u.
Proof.
  intros Hu. unfold u2s, sint. rewrite testbit_255 by done.
  destruct Hu. destruct (Z.ltb_spec u (2 ^ 255)); simpl negb; cbn iota; rewrite smag_small; lia.
Qed.

Lemma s2u_wrap z : - 2 ^ 256 < z < 2 ^ 256 -> s2u z = u256 z.
Proof.
  intros. unfold s2u. destruct (Z.leb_spec 0 z); [done|].
  unfold wrap. rewrite <- (Z.mod_add z 1 (2 ^ 256)) by lia. f_equal. lia.
Qed.

Lemma sint_range u : is_u256 u -> - 2 ^ 255 <= sint u < 2 ^ 255.
Proof. unfold is_u256, sint. intros. destruct (Z.ltb_spec u (2 ^ 255)); lia. Qed.

Lemma sint_zero u : is_u256 u -> sint u = 0 <-> u = 0.
Proof. unfold is_u256, sint. intros. destruct (Z.ltb_spec u (2 ^ 255)); lia. Qed.

Lemma sint_inj u v : is_u256 u -> is_u256 v -> sint u = sint v -> u = v.
Proof.
  unfold is_u256, sint. intros. destruct (Z.ltb_spec u (2 ^ 255)), (Z.ltb_spec v (2 ^ 255)); lia.
Qed.

Lemma swrap_small z : - 2 ^ 255 <= z < 2 ^ 255 -> swrap z = z.
Proof.
  intros H. unfold swrap, sint. destruct (Z.leb_spec 0 z).
  - rewrite Z.mod_small by lia. destruct (Z.ltb_spec z (2 ^ 255)); lia.
  - rewrite <- (Z.mod_add z 1 (2 ^ 256)), Z.mod_small by lia.
    destruct (Z.ltb_spec (z + 1 * 2 ^ 256) (2 ^ 255)); lia.
Qed.

Lemma wrap_u256 z : is_u256 (u256 z).
Proof. apply (wrap_range 256). lia. Qed.

Lemma quot_abs_le a b : b <> 0 -> Z.abs (Z.quot a b) <= Z.abs a.
Proof.
  intros. rewrite <- Z.quot_abs by done. apply Z.quot_le_upper_bound; [lia|]. nia.
Qed.

Lemma v_SDIV_spec a b : is_u256 a -> is_u256 b ->
  sint (v_SDIV a b) = if b =? 0 then 0 else swrap (Z.quot (sint a) (sint b)).
Proof.
  intros Ha Hb. unfold v_SDIV. destruct (Z.eqb_spec b 0) as [->|Hb0]; [done|].
  rewrite !u2s_sint by done. pose proof (sint_range a Ha). pose proof (sint_range b Hb).
  assert (sint b <> 0) by (rewrite sint_zero; done).
  pose proof (quot_abs_le (sint a) (sint b)). unfold divWorkaround_s.
  rewrite !(smag_small 512) by lia. rewrite smag_small by lia. rewrite s2u_wrap by lia. done.
Qed.

Lemma rem_abs_lt a b : b <> 0 -> Z.abs (Z.rem a b) < Z.abs b.
Proof. intros. pose proof (Z.rem_bound_abs a b). lia. Qed.

Lemma v_SMOD_spec a b : is_u256 a -> is_u256 b ->
  sint (v_SMOD a b) = if b =? 0 then 0 else Z.rem (sint a) (sint b).
Proof.
  intros Ha Hb. unfold v_SMOD. destruct (Z.eqb_spec b 0) as [->|Hb0]; [done|].
  rewrite !u2s_sint by done. pose proof (sint_range a Ha). pose proof (sint_range b Hb).
  assert (sint b <> 0) by (rewrite sint_zero; done).
  pose proof (rem_abs_lt (sint a) (sint b)). unfold modWorkaround_s.
  rewrite !(smag_small 512) by lia. rewrite smag_small by lia. rewrite s2u_wrap by lia.
  change (sint (u256 ?z)) with (swrap z). apply swrap_small. lia.
Qed.

Lemma lor_disjoint k lo hi : 0 <= k -> 0 <= lo < 2 ^ k -> 0 <= hi -> Z.lor lo (hi * 2 ^ k) = lo + hi * 2 ^ k.
Proof.
  intros Hk Hlo Hhi. rewrite <- Z.add_nocarry_lor; [done|]. apply Z.bits_inj'. intros i Hi.
  rewrite Z.land_spec, Z.bits_0. destruct (Z.ltb_spec i k).
  - rewrite Z.mul_pow2_bits_low by lia. apply andb_false_r.
  - replace lo with (lo mod 2 ^ k) by (apply Z.mod_small; lia).
    by rewrite (Z.mod_pow2_bits_high lo k i) by lia.
Qed.

Lemma ones_nonneg k : 0 <= k -> 0 <= Z.ones k.
Proof. intros. rewrite Z.ones_equiv. pose proof (Z.pow_pos_nonneg 2 k). lia. Qed.

(** or-ing ones onto the bits [k, w) of a [w]-bit number replaces them. *)
Lemma lor_high_ones w k x : 0 <= k <= w -> 0 <= x < 2 ^ w ->
  Z.lor x (Z.ones (w - k) * 2 ^ k) = x mod 2 ^ k + Z.ones (w - k) * 2 ^ k.
Proof.
  intros Hk Hx. rewrite <- lor_disjoint; [|lia|apply Z.mod_pos_bound; lia|apply ones_nonneg; lia].
  apply Z.bits_inj'. intros i Hi. rewrite !Z.lor_spec. destruct (Z.ltb_spec i k).
  - by rewrite Z.mod_pow2_bits_low by lia.
  - rewrite Z.mod_pow2_bits_high by lia. rewrite Z.mul_pow2_bits by lia.
    destruct (Z.ltb_spec i w).
    + rewrite (Z.ones_spec_low (w - k) (i - k)) by lia. apply orb_true_r.
    + rewrite (Z.ones_spec_high (w - k) (i - k)) by lia.
      replace x with (x mod 2 ^ w) by (apply Z.mod_small; lia). by rewrite Z.mod_pow2_bits_high by lia.
Qed.

Lemma allbits_ones : allbits = Z.ones 256.
Proof. done. Qed.
Lemma ones_shift k : 0 <= k <= 256 -> Z.ones (256 - k) * 2 ^ k = 2 ^ 256 - 2 ^ k.
Proof.
  intros. rewrite Z.ones_equiv. replace (2 ^ 256) with (2 ^ (256 - k) * 2 ^ k); [lia|].
  rewrite <- Z.pow_add_r by lia. f_equal. lia.
Qed.

Lemma hibit_test b : is_u256 b -> negb (Z.land b hibit =? 0) = negb (b <? 2 ^ 255).
Proof.
  intros Hb. rewrite <- testbit_255 by done. change hibit with (2 ^ 255).
  destruct (Z.testbit b 255) eqn:E.
  - apply negb_true_iff, Z.eqb_neq. intros H. apply (f_equal (fun z => Z.testbit z 255)) in H.
    rewrite Z.land_spec, E in H. by vm_compute in H.
  - apply negb_false_iff, Z.eqb_eq, Z.bits_inj'. intros i Hi. rewrite Z.land_spec, Z.bits_0.
    destruct (Z.eq_dec i 255) as [->|]; [by rewrite E|]. by rewrite Z.pow2_bits_false, andb_false_r by lia.
Qed.

Lemma shifted_ones n : 0 <= n < 256 -> u256 (Z.shiftl allbits (256 - n)) = Z.ones n * 2 ^ (256 - n).
Proof.
  intros. rewrite allbits_ones, Z.shiftl_mul_pow2 by lia. unfold wrap.
  replace (Z.ones 256 * 2 ^ (256 - n)) with (Z.ones n * 2 ^ (256 - n) + Z.ones (256 - n) * 2 ^ 256).
  - rewrite Z.mod_add by lia. apply Z.mod_small. pose proof (ones_shift (256 - n) ltac:(lia)) as Ho.
    replace (256 - (256 - n)) with n in Ho by lia. rewrite Ho.
    assert (0 < 2 ^ (256 - n) <= 2 ^ 256) by (split; [lia|apply Z.pow_le_mono_r; lia]). lia.
  - rewrite !Z.ones_equiv. assert (H2 : 2 ^ 256 = 2 ^ n * 2 ^ (256 - n)).
    { rewrite <- Z.pow_add_r by lia. f_equal. lia. }
    rewrite H2. nia.
Qed.

Lemma div_pow2_range b n w : 0 <= n <= w -> 0 <= b < 2 ^ w -> 0 <= b / 2 ^ n < 2 ^ (w - n).
Proof.
  intros. split; [apply Z.div_pos; lia|]. apply Z.div_lt_upper_bound; [lia|].
  rewrite <- Z.pow_add_r by lia. replace (n + (w - n)) with w by lia. lia.
Qed.

Lemma v_SAR_spec a b : is_u256 a -> is_u256 b -> sint (v_SAR a b) = sint b / 2 ^ a.
Proof.
  intros Ha Hb. unfold v_SAR. rewrite hibit_test by done. destruct Ha as [Ha _]. pose proof Hb as [Hb0 Hb1].
  rewrite Z.geb_leb. destruct (Z.leb_spec 256 a) as [Hbig|Hsm].
  - assert (2 ^ 256 <= 2 ^ a) by (apply Z.pow_le_mono_r; lia). unfold sint at 2.
    destruct (Z.ltb_spec b (2 ^ 255)); simpl negb; cbn iota.
    + rewrite Z.div_small by lia. done.
    + change (sint allbits) with (-1). apply Z.div_unique with (b - 2 ^ 256 + 2 ^ a); lia.
  - rewrite (wrap_small 32) by lia. cbn zeta. rewrite Z.shiftr_div_pow2 by lia.
    pose proof (div_pow2_range b a 256 ltac:(lia) ltac:(lia)) as Hr. unfold sint at 2.
    destruct (Z.ltb_spec b (2 ^ 255)); simpl negb; cbn iota.
    + unfold sint. destruct (Z.ltb_spec (b / 2 ^ a) (2 ^ 255)); [done|].
      assert (b / 2 ^ a <= b / 1) by (apply Z.div_le_compat_l; lia). rewrite Z.div_1_r in *. lia.
    + rewrite (wrap_small 32) by lia. rewrite shifted_ones, lor_disjoint by (lia || apply ones_nonneg; lia).
      pose proof (ones_shift (256 - a) ltac:(lia)) as Ho. replace (256 - (256 - a)) with a in Ho by lia.
      rewrite Ho. replace (b - 2 ^ 256) with (b + - 2 ^ (256 - a) * 2 ^ a)
        by (pose proof (Z.pow_add_r 2 (256 - a) a); replace (256 - a + a) with 256 in * by lia; lia).
      rewrite Z.div_add by lia. unfold sint.
      assert (2 ^ (255 - a) <= b / 2 ^ a).
      { apply Z.div_le_lower_bound; [lia|]. rewrite <- Z.pow_add_r by lia. replace (a + (255 - a)) with 255; lia. }
      assert (2 ^ (256 - a) = 2 * 2 ^ (255 - a)) by (replace (256 - a) with (1 + (255 - a)) by lia; rewrite Z.pow_add_r; lia).
      assert (2 ^ (255 - a) <= 2 ^ 255) by (apply Z.pow_le_mono_r; lia).
      destruct (Z.ltb_spec (b / 2 ^ a + (2 ^ 256 - 2 ^ (256 - a))) (2 ^ 255)); lia.
Qed.

Lemma mod_pow2_succ x t : 0 <= t -> x mod 2 ^ (t + 1) = x mod 2 ^ t + (if Z.testbit x t then 2 ^ t else 0).
Proof.
  intros Ht. rewrite Z.pow_add_r, Z.rem_mul_r by lia. change (2 ^ 1) with 2.
  rewrite Zmod_odd, <- Z.shiftr_div_pow2, <- Z.testbit_odd by lia.
  destruct (Z.testbit x t); lia.
Qed.

Lemma v_SIGNEXTEND_spec a x : is_u256 a -> is_u256 x ->
  sint (v_SIGNEXTEND a x) = if a <? 31 then slow (8 * a + 8) x else sint x.
Proof.
  intros Ha Hx. unfold v_SIGNEXTEND. destruct (Z.ltb_spec a 31) as [Hs|]; [|done]. destruct Ha as [Ha _].
  rewrite (wrap_small 32 a), (wrap_small 32) by lia. set (t := a * 8 + 7). cbn zeta.
  assert (Ht : 0 <= t <= 247) by lia.
  assert (Hp : 0 < 2 ^ t <= 2 ^ 247) by (split; [lia|apply Z.pow_le_mono_r; lia]).
  assert (H247 : 2 * 2 ^ 247 < 2 ^ 255) by lia.
  rewrite Z.shiftl_mul_pow2, Z.mul_1_l, (wrap_small 256 (2 ^ t)), (wrap_small 256) by lia.
  unfold slow. replace (8 * a + 8 - 1) with t by lia. replace (8 * a + 8) with (t + 1) by lia.
  rewrite mod_pow2_succ by lia. pose proof (Z.mod_pos_bound x (2 ^ t)) as Hm.
  replace (2 ^ t - 1) with (Z.ones t) by (rewrite Z.ones_equiv; lia).
  replace (2 ^ (t + 1)) with (2 * 2 ^ t) by (rewrite Z.pow_add_r; lia).
  destruct (Z.testbit x t) eqn:Eb.
  - replace (Z.lxor (Z.ones t) allbits) with (Z.ones (256 - t) * 2 ^ t).
    2:{ rewrite allbits_ones. apply Z.bits_inj'. intros i Hi. rewrite Z.lxor_spec, Z.mul_pow2_bits by lia.
        rewrite !Z.testbit_ones by lia. destruct (Z.leb_spec 0 i), (Z.ltb_spec i t), (Z.leb_spec 0 (i - t)),
          (Z.ltb_spec i 256), (Z.ltb_spec (i - t) (256 - t)); done || lia. }
    rewrite lor_high_ones by (done || lia). rewrite ones_shift by lia. unfold sint.
    destruct (Z.ltb_spec (x mod 2 ^ t + (2 ^ 256 - 2 ^ t)) (2 ^ 255)), (Z.ltb_spec (x mod 2 ^ t + 2 ^ t) (2 ^ t)); lia.
  - rewrite Z.land_ones by lia. unfold sint.
    destruct (Z.ltb_spec (x mod 2 ^ t) (2 ^ 255)), (Z.ltb_spec (x mod 2 ^ t + 0) (2 ^ t)); lia.
Qed.

Lemma pow256_lt a b : is_u256 a -> is_u256 b -> 0 <= a * b < 2 ^ 512.
Proof. intros [? ?] [? ?]. change (2 ^ 512) with (2 ^ 256 * 2 ^ 256). nia. Qed.

Lemma exp256_loop_spec fuel r b e : 0 <= e < 2 ^ Z.of_nat fuel -> 0 <= r < 2 ^ 256 ->
  exp256_loop fuel r b e = (r * b ^ e) mod 2 ^ 256.
Proof.
  revert r b e. induction fuel as [|f IH]; intros r b e He Hr; simpl.
  - assert (e = 0) as -> by lia. rewrite Z.pow_0_r, Z.mul_1_r. symmetry. apply Z.mod_small. lia.
  - destruct (Z.eqb_spec e 0) as [->|Hne].
    { rewrite Z.pow_0_r, Z.mul_1_r. symmetry. apply Z.mod_small. lia. }
    rewrite Nat2Z.inj_succ, Z.pow_succ_r in He by lia.
    rewrite Z.shiftr_div_pow2 by lia. change (2 ^ 1) with 2.
    rewrite IH.
    2:{ split; [apply Z.div_pos; lia|apply Z.div_lt_upper_bound; lia]. }
    2:{ destruct (Z.odd e); [apply (wrap_range 256); lia|lia]. }
    assert (Hsq : forall k, 0 <= k -> (u256 (b * b)) ^ k mod 2 ^ 256 = (b ^ (2 * k)) mod 2 ^ 256).
    { intros k Hk. unfold wrap. rewrite Z.mod_pow_l. rewrite Z.pow_mul_r by lia.
      by rewrite Z.pow_2_r. }
    pose proof (Z.div_mod e 2 ltac:(lia)) as Hdm. rewrite Zmod_odd in Hdm.
    assert (0 <= e / 2) by (apply Z.div_pos; lia).
    rewrite <- Z.mul_mod_idemp_r, Hsq, Z.mul_mod_idemp_r by lia. destruct (Z.odd e).
    + unfold wrap. rewrite Z.mul_mod_idemp_l by lia. f_equal. rewrite Hdm at 2.
      rewrite Z.pow_add_r, Z.pow_1_r by lia. ring.
    + do 2 f_equal. f_equal. lia.
Qed.

Lemma land_255_mod x : Z.land x 255 = x mod 256.
Proof. change 255 with (Z.ones 8). by rewrite Z.land_ones by lia. Qed.

Lemma v_BYTE_spec a b : is_u256 a -> is_u256 b ->
  v_BYTE a b = if a <? 32 then b / 2 ^ (8 * (31 - a)) mod 256 else 0.
Proof.
  intros [? ?] ?. unfold v_BYTE. destruct (Z.ltb_spec a 32); [|done].
  rewrite (wrap_small 256 (31 - a)), (wrap_small 256), wrap_small by lia.
  by rewrite land_255_mod, Z.shiftr_div_pow2 by lia.
Qed.

Lemma v_DIV_spec a b : is_u256 a -> is_u256 b -> v_DIV a b = if b =? 0 then 0 else a / b.
Proof.
  intros [? ?] [? ?]. unfold v_DIV, divWorkaround_u. destruct (Z.eqb_spec b 0); [done|].
  rewrite !smag_small, Z.quot_div_nonneg by lia. apply wrap_small.
  split; [apply Z.div_pos; lia|]. apply Z.le_lt_trans with a; [|lia]. apply Z.div_le_upper_bound; nia.
Qed.

Lemma v_MOD_spec a b : is_u256 a -> is_u256 b -> v_MOD a b = if b =? 0 then 0 else a mod b.
Proof.
  intros [? ?] [? ?]. unfold v_MOD, modWorkaround_u. destruct (Z.eqb_spec b 0); [done|].
  rewrite !smag_small, Z.rem_mod_nonneg by lia. pose proof (Z.mod_pos_bound a b). apply wrap_small. lia.
Qed.

Lemma shift_specs a b : is_u256 a -> is_u256 b ->
  v_SHL a b = (if a <? 256 then b * 2 ^ a mod 2 ^ 256 else 0) /\ v_SHR a b = b / 2 ^ a.
Proof.
  intros [? ?] [? ?]. unfold v_SHL, v_SHR. rewrite Z.geb_leb.
  destruct (Z.leb_spec 256 a), (Z.ltb_spec a 256); try lia; split.
  - done.
  - assert (2 ^ 256 <= 2 ^ a) by (apply Z.pow_le_mono_r; lia). by rewrite Z.div_small by lia.
  - by rewrite (wrap_small 32), Z.shiftl_mul_pow2 by lia.
  - by rewrite (wrap_small 32), Z.shiftr_div_pow2 by lia.
Qed.

Lemma modop_specs a b c : is_u256 a -> is_u256 b -> is_u256 c ->
  v_ADDMOD a b c = (if c =? 0 then 0 else (a + b) mod c) /\
  v_MULMOD a b c = (if c =? 0 then 0 else (a * b) mod c).
Proof.
  intros Ha Hb [? ?]. pose proof (pow256_lt a b Ha Hb). destruct Ha as [? ?], Hb as [? ?].
  unfold v_ADDMOD, v_MULMOD. destruct (Z.eqb_spec c 0); [done|].
  pose proof (Z.mod_pos_bound (a + b) c). pose proof (Z.mod_pos_bound (a * b) c).
  rewrite !(wrap_small 512) by lia. rewrite !wrap_small by lia. done.
Qed.

(** Every operation of the word level yields a word. *)
Lemma b2z_u256 b : is_u256 (b2z b).
Proof. unfold is_u256. destruct b; simpl; lia. Qed.
Lemma testbit_high x w i : 0 <= x < 2 ^ w -> 0 <= w <= i -> Z.testbit x i = false.
Proof. intros Hx Hi. rewrite <- (Z.mod_small x (2 ^ w)) by lia. apply Z.mod_pow2_bits_high. lia. Qed.
Lemma bitop_u256 f a b : (forall i, Z.testbit (f a b) i = true -> Z.testbit a i = true \/ Z.testbit b i = true) ->
  0 <= f a b -> is_u256 a -> is_u256 b -> is_u256 (f a b).
Proof.
  intros Hf H0 [? Ha] [? Hb]. split; [done|]. apply Z.nle_gt. intros Hge.
  assert (0 < f a b) by lia.
  assert (Hl : 256 <= Z.log2 (f a b)) by (apply Z.log2_le_pow2; lia).
  pose proof (Z.bit_log2 (f a b) ltac:(lia)) as Hbit. apply Hf in Hbit as [Hbit|Hbit].
  - by rewrite (testbit_high a 256) in Hbit by lia.
  - by rewrite (testbit_high b 256) in Hbit by lia.
Qed.
Lemma land_u256 a b : is_u256 a -> is_u256 b -> is_u256 (Z.land a b).
Proof.
  intros Ha Hb. apply (bitop_u256 Z.land); try done; [|apply Z.land_nonneg; left; apply Ha].
  intros i. rewrite Z.land_spec, andb_true_iff. tauto.
Qed.
Lemma lor_u256 a b : is_u256 a -> is_u256 b -> is_u256 (Z.lor a b).
Proof.
  intros Ha Hb. apply (bitop_u256 Z.lor); try done; [|apply Z.lor_nonneg; split; [apply Ha|apply Hb]].
  intros i. rewrite Z.lor_spec, orb_true_iff. tauto.
Qed.
Lemma lxor_u256 a b : is_u256 a -> is_u256 b -> is_u256 (Z.lxor a b).
Proof.
  intros Ha Hb. apply (bitop_u256 Z.lxor); try done; [|apply Z.lxor_nonneg; split; intros; [apply Hb|apply Ha]].
  intros i. rewrite Z.lxor_spec. destruct (Z.testbit a i), (Z.testbit b i); simpl; auto.
Qed.
Lemma allbits_u256 : is_u256 allbits.
Proof. unfold is_u256, allbits. lia. Qed.
Lemma shiftr_u256 a n : 0 <= n -> is_u256 a -> is_u256 (Z.shiftr a n).
Proof.
  intros Hn [? ?]. unfold is_u256. rewrite Z.shiftr_div_pow2 by lia. split; [apply Z.div_pos; lia|].
  apply Z.div_lt_upper_bound; [lia|]. assert (0 < 2 ^ n) by lia. nia.
Qed.

(** ** Claims *)

(** The signed instructions compute on two's-complement 256-bit integers: division and
    remainder truncate towards zero (division by zero gives zero, and the one overflow wraps),
    the comparisons are signed, SAR is the floor of the division by a power of two for every
    shift amount, and SIGNEXTEND reads the low [8 (a + 1)] bits as a signed number. *)
Theorem signed_ops_twos_complement (a b : Z) :
  is_u256 a -> is_u256 b ->
  sint (v_SDIV a b) = (if b =? 0 then 0 else swrap (Z.quot (sint a) (sint b)))
  /\ sint (v_SMOD a b) = (if b =? 0 then 0 else Z.rem (sint a) (sint b))
  /\ v_SLT a b = b2z (sint a <? sint b)
  /\ v_SGT a b = b2z (sint b <? sint a)
  /\ sint (v_SAR a b) = sint b / 2 ^ a
  /\ sint (v_SIGNEXTEND a b) = (if a <? 31 then slow (8 * a + 8) b else sint b).
Proof.
  intros Ha Hb. unfold v_SLT, v_SGT. rewrite !u2s_sint, Z.gtb_ltb by done.
  split_and!; [by apply v_SDIV_spec|by apply v_SMOD_spec|done|done|by apply v_SAR_spec|
    by apply v_SIGNEXTEND_spec].
Qed.

Lemma signed_ops_twos_complement_witness :
  sint (v_SAR 1 (2 ^ 256 - 3)) = -2 /\ sint (v_SIGNEXTEND 0 0x180) = -128.
Proof.
  split.
  - exact (proj1 (proj2 (proj2 (proj2 (proj2 (signed_ops_twos_complement 1 (2 ^ 256 - 3)
      ltac:(split; reflexivity || discriminate) ltac:(split; reflexivity || discriminate))))))).
  - exact (proj2 (proj2 (proj2 (proj2 (proj2 (signed_ops_twos_complement 0 0x180
      ltac:(split; reflexivity || discriminate) ltac:(split; reflexivity || discriminate))))))).
Defined.

(** The unsigned instructions compute modular arithmetic on integers: DIV and MOD are floor
    division with a zero result for a zero divisor, ADDMOD and MULMOD reduce the exact (unwrapped)
    sum and product, BYTE picks the [a]-th byte from the most significant end, SHL and SHR
    multiply and divide by [2 ^ a] for every shift amount, and the square-and-multiply loop of
    [exp256] computes the power modulo [2 ^ 256] within its 256 rounds. *)
Theorem unsigned_ops_modular (a b c : Z) :
  is_u256 a -> is_u256 b -> is_u256 c ->
  v_DIV a b = (if b =? 0 then 0 else a / b)
  /\ v_MOD a b = (if b =? 0 then 0 else a mod b)
  /\ v_ADDMOD a b c = (if c =? 0 then 0 else (a + b) mod c)
  /\ v_MULMOD a b c = (if c =? 0 then 0 else (a * b) mod c)
  /\ v_BYTE a b = (if a <? 32 then b / 2 ^ (8 * (31 - a)) mod 256 else 0)
  /\ v_SHL a b = (if a <? 256 then b * 2 ^ a mod 2 ^ 256 else 0)
  /\ v_SHR a b = b / 2 ^ a
  /\ exp256 a b = a ^ b mod 2 ^ 256.
Proof.
  intros Ha Hb Hc. destruct (modop_specs a b c Ha Hb Hc), (shift_specs a b Ha Hb).
  split_and!; try done; [by apply v_DIV_spec|by apply v_MOD_spec|by apply v_BYTE_spec|].
  unfold exp256. rewrite exp256_loop_spec; [by rewrite Z.mul_1_l|exact Hb|lia].
Qed.

Lemma unsigned_ops_modular_witness :
  exp256 3 5 = 243 /\ v_MULMOD (2 ^ 256 - 1) 2 7 = (2 ^ 257 - 2) mod 7.
Proof.
  split.
  - exact (proj2 (proj2 (proj2 (proj2 (proj2 (proj2 (proj2 (unsigned_ops_modular 3 5 1
      ltac:(split; reflexivity || discriminate) ltac:(split; reflexivity || discriminate)
      ltac:(split; reflexivity || discriminate))))))))).
  - exact (proj1 (proj2 (proj2 (proj2 (unsigned_ops_modular (2 ^ 256 - 1) 2 7
      ltac:(split; reflexivity || discriminate) ltac:(split; reflexivity || discriminate)
      ltac:(split; reflexivity || discriminate)))))).
Defined.
