(* ===== verification/ExtVMFace.v ===== *)
(** * The interface of a virtual machine to its environment (libevm/ExtVMFace.h, VMFace.h)

    [ExtVMFace] is the abstract class through which the interpreter reads and changes the
    chain state.  Its virtual functions are the fields of the class [ExtVMFace], over an
    abstract type [W] of worlds: state transformers that may throw, because even a read may load
    an account into a cache or fail.  Its data members that never change during an execution are
    the record [ExtCtx]; the sub-state member is concrete.  What the interpreter relies on is the
    class [ExtVMLaws]: an invariant of the environment that every function keeps, words are words,
    byte strings are bytes, and a sub-call never returns more gas than it was given. *)

From S2P Require Import Prelude CommonData Instruction EVMSchedule Words.
From Stdlib Require Import ZArith Lia Bool.
From stdpp Require Import base list list_numbers.
Open Scope Z_scope.

(** ** Exceptions and sub-state *)

(** What an execution can throw.  The exceptions of VMFace.h; [Other], any exception that is not a
    [VMException]; [ProcessExit], the call of [exit], after which nothing runs;
    [UndefinedBehaviour], an access outside the bounds of a buffer or a failed assertion.
    Of the others, those of the libraries of this repository come first, then the two of the standard
    library and of Boost that can occur, then what the model leaves out. *)
Inductive OtherException :=
| DevStorageOverflow | DevNotEnoughCash | DevInvalidNonce | DevGasPriceTooLow | DevOutOfGasIntrinsic
| DevBlockGasLimitReached | DevInvalidSignature | DevInvalidTransactionFormat | DevTransactionIsUnsigned
| DevInvalidZeroSignature | DevExternalGas | DevRLP | DevStateError
| StdLengthError | StdRuntimeError
| NotModelled.
Inductive VMException :=
| BadInstruction | BadJumpDestination | OutOfGas | OutOfStack | StackUnderflow
| DisallowedStateChange | BufferOverrun | StorageOverflow | InvalidContractDeployer
| RevertInstruction (output : list Z)
| Other (e : OtherException)
| ProcessExit (e : OtherException)
| UndefinedBehaviour.

Record LogEntry := mkLog { log_address : Z; log_topics : list Z; log_data : list Z }.
Record SubState := mkSub { suicides : list Z; logs : list LogEntry; refunds : Z }.
#[export] Instance SubState_expand : Expandable SubState :=
  fun r => mkSub (suicides r) (logs r) (refunds r).

(** [SubState::operator+=] and [SubState::clear]; the set of suicides has no order.
    [refunds] is an [int64_t]: it is kept at its width. *)
Definition SubState_add (s t : SubState) : SubState :=
  mkSub (suicides s ++ filter (fun a => a ∉ suicides s) (suicides t)) (logs s ++ logs t)
    (i64 (refunds s + refunds t)).
Definition SubState_clear : SubState := mkSub [] [] 0.

(** ** Parameters and results of sub-calls *)

Record CallParameters := mkCallParameters {
  senderAddress : Z; codeAddress : Z; receiveAddress : Z; valueTransfer : Z;
  apparentValue : Z; cp_gas : Z; cp_data : list Z; cp_staticCall : bool }.
#[export] Instance CallParameters_expand : Expandable CallParameters := fun r =>
  mkCallParameters (senderAddress r) (codeAddress r) (receiveAddress r) (valueTransfer r)
    (apparentValue r) (cp_gas r) (cp_data r) (cp_staticCall r).
Definition CallParameters_default : CallParameters := mkCallParameters 0 0 0 0 0 0 [] false.

(** [evmc_status_code]: only success is distinguished. *)
Record CallResult := mkCallResult { success : bool; output : list Z }.
Record CreateResult := mkCreateResult { cr_success : bool; cr_output : list Z; cr_address : Z }.

(** ** The environment *)

Record EnvInfo := mkEnvInfo {
  env_number : Z; env_author : Z; env_timestamp : Z; env_difficulty : Z; env_gasLimit : Z;
  env_chainID : Z; env_parentHash : Z; env_committedBlockTimestamp : Z; env_gasUsed : Z }.

Record ExtCtx := mkExtCtx {
  envInfo : EnvInfo; myAddress : Z; caller : Z; origin : Z; value : Z; gasPrice : Z;
  data : list Z; code : list Z; depth : Z; isCreate : bool; staticCall : bool;
  evmSchedule : EVMSchedule }.
#[export] Instance ExtCtx_expand : Expandable ExtCtx := fun r =>
  mkExtCtx (envInfo r) (myAddress r) (caller r) (origin r) (value r) (gasPrice r) (data r)
    (code r) (depth r) (isCreate r) (staticCall r) (evmSchedule r).

(** The mutable part of the object: the world and the sub-state. *)
Record ExtState (W : Type) := mkExt { world : W; sub : SubState }.
Arguments mkExt {W} _ _.
Arguments world {W} _.
Arguments sub {W} _.
#[export] Instance ExtState_expand W : Expandable (ExtState W) := fun r => mkExt (world r) (sub r).

(** The virtual functions.  [create] and [call] return the gas they leave in their in-out parameter. *)
Definition EM (W A : Type) : Type := ExtState W -> result VMException A * ExtState W.
Class ExtVMFace (W : Type) := {
  store : Z -> EM W Z;
  setStore : Z -> Z -> EM W unit;
  originalStorageValue : Z -> EM W Z;
  balance : Z -> EM W Z;
  codeAt : Z -> EM W (list Z);
  codeSizeAt : Z -> EM W Z;
  codeHashAt : Z -> EM W Z;
  exists_ : Z -> EM W bool;
  suicide : Z -> EM W unit;
  create : Z -> Z -> list Z -> Instruction -> Z -> EM W (CreateResult * Z);
  call : CallParameters -> EM W (CallResult * Z);
  blockHash : Z -> EM W Z
}.

(** [ExtVMFace::log] *)
Definition ext_log {W} (ctx : ExtCtx) (e : ExtState W) (topics dat : list Z) : ExtState W :=
  e <| sub := (sub e) <| logs := logs (sub e) ++ [mkLog (myAddress ctx) topics dat] |> |>.

(** ** What the interpreter relies on *)

Definition buffer_ok (bs : list Z) : Prop := bytes_ok bs /\ lenZ bs < 2 ^ 62.
(** What may be thrown: the exceptions of the machine, with a byte string as the output of REVERT; and,
    the two ways to end the process, the log of changes at its maximal size and a number that does not
    parse.  Neither an out-of-bounds access nor any other exception. *)
Definition exc_ok (x : VMException) : Prop :=
  match x with
  | RevertInstruction out => buffer_ok out
  | Other e | ProcessExit e => e = StdLengthError \/ e = StdRuntimeError
  | UndefinedBehaviour => False
  | _ => True
  end.
(** A function of the environment keeps [P] and returns values in [Q]. *)
Definition ext_spec {W A} (P : ExtState W -> Prop) (Q : A -> Prop) (m : EM W A) : Prop :=
  forall e, P e -> match m e with
                   | (Ok a, e') => Q a /\ P e'
                   | (Err x, e') => exc_ok x /\ P e'
                   end.

Definition is_address (a : Z) : Prop := 0 <= a < 2 ^ 160.
(** The parameters the interpreter passes to a sub-call. *)
Record call_ok (ctx : ExtCtx) (p : CallParameters) : Prop := {
  call_codeAddress : is_address (codeAddress p);
  call_sender : senderAddress p = myAddress ctx \/ senderAddress p = caller ctx /\ valueTransfer p = 0;
  call_receiver : receiveAddress p = myAddress ctx \/ receiveAddress p = codeAddress p;
  call_values : is_u256 (valueTransfer p) /\ is_u256 (apparentValue p);
  call_gas_range : 0 <= cp_gas p < 2 ^ 65;
  call_data : buffer_ok (cp_data p)
}.

(** [P] is an invariant of the environment; [affordable e v] says that the executing account has
    the value [v], which the interpreter has tested when it makes a sub-call that transfers it. *)
Class ExtVMLaws {W : Type} `{!ExtVMFace W} (ctx : ExtCtx) (P : ExtState W -> Prop) := {
  sub_keeps e f : P e -> P (e <| sub := f (sub e) |>);
  store_spec k : is_u256 k -> ext_spec P is_u256 (store k);
  setStore_spec k v e : is_u256 k -> is_u256 v -> P e ->
    match setStore k v e with
    | (Ok _, e') => P e'
    | (Err x, e') => (exc_ok x \/ x = Other DevStorageOverflow) /\ P e'
    end;
  original_spec k : is_u256 k -> ext_spec P (fun _ => True) (originalStorageValue k);
  balance_spec a : ext_spec P is_u256 (balance a);
  codeAt_spec a : ext_spec P buffer_ok (codeAt a);
  codeSizeAt_spec a : ext_spec P is_u256 (codeSizeAt a);
  codeHashAt_spec a : ext_spec P is_u256 (codeHashAt a);
  exists_spec a : ext_spec P (fun _ => True) (exists_ a);
  suicide_spec a : ext_spec P (fun _ => True) (suicide a);
  blockHash_spec n : is_u256 n -> ext_spec P is_u256 (blockHash n);
  create_spec e e0 v g c i s b : P e0 -> balance (myAddress ctx) e0 = (Ok b, e) -> v <= b ->
    depth ctx < 1024 -> is_u256 v -> is_u256 g -> buffer_ok c -> is_u256 s -> i = I_CREATE \/ i = I_CREATE2 ->
    match create v g c i s e with
    | (Ok (r, g'), e') => (0 <= g' <= g /\ buffer_ok (cr_output r) /\ is_u256 (cr_address r)) /\ P e'
    | (Err x, e') => exc_ok x /\ P e'
    end;
  call_spec e e0 p b : P e0 -> balance (myAddress ctx) e0 = (Ok b, e) -> valueTransfer p <= b ->
    depth ctx < 1024 -> call_ok ctx p ->
    match call p e with
    | (Ok (r, g'), e') => (0 <= g' <= cp_gas p /\ buffer_ok (output r)) /\ P e'
    | (Err x, e') => exc_ok x /\ P e'
    end
}.

(** The constant members of a well-formed object: words, addresses, byte strings that fit in
    memory, and a schedule of the kind the source defines. *)
Record ctx_ok (ctx : ExtCtx) : Prop := {
  ctx_addresses : is_u256 (myAddress ctx) /\ is_u256 (caller ctx) /\ is_u256 (origin ctx);
  ctx_words : is_u256 (value ctx) /\ is_u256 (gasPrice ctx);
  ctx_env : is_u256 (env_number (envInfo ctx)) /\ is_u256 (env_author (envInfo ctx)) /\
    is_u256 (env_timestamp (envInfo ctx)) /\ is_u256 (env_difficulty (envInfo ctx)) /\
    is_u256 (env_gasLimit (envInfo ctx)) /\ is_u256 (env_chainID (envInfo ctx));
  ctx_data : bytes_ok (data ctx) /\ lenZ (data ctx) < 2 ^ 62;
  ctx_code : bytes_ok (code ctx) /\ lenZ (code ctx) < 2 ^ 62;
  ctx_schedule : schedule_ok (evmSchedule ctx) = true
}.

(** Conversion between words and addresses (VMFace.h). *)
Definition asAddress (item : Z) : Z := item mod 2 ^ 160.
Definition fromAddress (a : Z) : Z := a.
