(* ===== verification/LegacyVM.v ===== *)
(** * The interpreter (libevm/LegacyVM.h, LegacyVM.cpp, LegacyVMCalls.cpp, LegacyVMOpt.cpp)

    The interpreter object is the record [VM], one field per data member; its member functions
    run in a state-and-exception monad in which the state survives a throw, as the object does
    when an exception leaves a member function.  One definition per [CASE] of the switch.

    Representation.  [m_stack] is an array that grows downwards; [m_SP] and [m_SPP] are the
    lists of words from the respective pointer up to [m_stackEnd], head first.  They are two
    views of one array: between fetches the instruction reads its arguments through [m_SP] and
    writes its result through [m_SPP], and the next fetch starts from [m_SPP].  A buffer access
    out of bounds throws [UndefinedBehaviour].

    Build configuration: the defaults of LegacyVMConfig.h ([EIP_615], [EIP_616],
    [EVM_OPTIMIZE] false; threaded dispatch). *)

From S2P Require Import Prelude CommonData Instruction EVMSchedule Words ExtVMFace.
From Stdlib Require Import ZArith Lia Bool.
From stdpp Require Import base list list_numbers.
Open Scope Z_scope.

(** ** State *)

(** The trampoline target [m_bounce], a pointer to a member function or null. *)
Inductive Bounce := B_initEntry | B_interpretCases | B_caseCreate | B_caseCall | B_null.

(** The arguments of one call of the tracing callback. *)
Record OnOpCall := mkOnOp {
  t_steps : Z; t_PC : Z; t_OP : Z; t_newMemWords : Z; t_runGas : Z; t_gas : Z }.

Record VM (W : Type) := mkVM {
  m_io_gas_p : Z; m_io_gas : Z; m_ext : ExtState W; m_onOp : bool; m_bounce : Bounce;
  m_nSteps : Z; m_output : list Z; m_mem : list Z; m_code : list Z; m_returnData : list Z;
  m_OP : Z; m_PC : Z; m_SP : list Z; m_SPP : list Z; m_runGas : Z; m_newMemSize : Z;
  m_copyMemSize : Z; m_jumpDests : list Z; m_trace : list OnOpCall }.
Arguments mkVM {W} _ _ _ _ _ _ _ _ _ _ _ _ _ _ _ _ _ _ _.
Arguments m_io_gas_p {W} _.
Arguments m_io_gas {W} _.
Arguments m_ext {W} _.
Arguments m_onOp {W} _.
Arguments m_bounce {W} _.
Arguments m_nSteps {W} _.
Arguments m_output {W} _.
Arguments m_mem {W} _.
Arguments m_code {W} _.
Arguments m_returnData {W} _.
Arguments m_OP {W} _.
Arguments m_PC {W} _.
Arguments m_SP {W} _.
Arguments m_SPP {W} _.
Arguments m_runGas {W} _.
Arguments m_newMemSize {W} _.
Arguments m_copyMemSize {W} _.
Arguments m_jumpDests {W} _.
Arguments m_trace {W} _.
#[export] Instance VM_expand W : Expandable (VM W) := fun r => mkVM
  (m_io_gas_p r) (m_io_gas r) (m_ext r) (m_onOp r) (m_bounce r) (m_nSteps r) (m_output r)
  (m_mem r) (m_code r) (m_returnData r) (m_OP r) (m_PC r) (m_SP r) (m_SPP r) (m_runGas r)
  (m_newMemSize r) (m_copyMemSize r) (m_jumpDests r) (m_trace r).

(** ** The monad *)

Definition M (W A : Type) : Type := VM W -> result VMException A * VM W.
Definition ret {W A} (a : A) : M W A := fun s => (Ok a, s).
Definition bind {W A B} (m : M W A) (k : A -> M W B) : M W B := fun s =>
  match m s with (Ok a, s') => k a s' | (Err e, s') => (Err e, s') end.
Definition throw {W A} (e : VMException) : M W A := fun s => (Err e, s).
Definition gets {W A} (f : VM W -> A) : M W A := fun s => (Ok (f s), s).
Definition modify {W} (f : VM W -> VM W) : M W unit := fun s => (Ok tt, f s).

Declare Scope vm_scope.
Delimit Scope vm_scope with vm.
Notation "'let!' x := m 'in' k" := (bind m (fun x => k))
  (at level 200, x name, m at level 100, k at level 200) : vm_scope.
Notation "m ;; k" := (bind m (fun _ => k)) (at level 100, k at level 200, right associativity) : vm_scope.
Open Scope vm_scope.

(** The constants of Instruction the code computes with. *)
Definition op_is (i : Instruction) (o : Z) : bool := o =? opcode i.

(** ** The jump table and jump destinations *)

(** [std::binary_search]: the loop of [std::lower_bound], then the test for equality. *)
Fixpoint lower_bound (fuel : nat) (l : list Z) (first len v : Z) : Z :=
  match fuel with
  | O => first
  | S f =>
      if 0 <? len then
        let half := len / 2 in
        let mid := first + half in
        if nthZ l mid <? v then lower_bound f l (mid + 1) (len - half - 1) v
        else lower_bound f l first half v
      else first
  end.
Definition binary_search (l : list Z) (v : Z) : bool :=
  let i := lower_bound (length l) l 0 (lenZ l) v in
  (i <? lenZ l) && negb (v <? nthZ l i).

(** [copyCode]: the code extended by zero bytes. *)
Definition copyCode (code : list Z) (extraBytes : nat) : list Z := code ++ replicate extraBytes 0.

(** The loop of [optimize]: replaces the synthetic instructions and collects jump destinations. *)
Fixpoint optimize_loop (fuel : nat) (code : list Z) (jd : list Z) (pc nBytes : Z) : list Z * list Z :=
  match fuel with
  | O => (code, jd)
  | S f =>
      if pc <? nBytes then
        let op := nthZ code pc in
        let code' := if op_is I_PUSHC op || op_is I_JUMPC op || op_is I_JUMPCI op
                     then <[Z.to_nat pc := opcode I_INVALID]> code else code in
        if op_is I_JUMPDEST op then optimize_loop f code' (jd ++ [pc]) (pc + 1) nBytes
        else if (opcode I_PUSH1 <=? op) && (op <=? opcode I_PUSH32)
             then optimize_loop f code' jd (pc + (op - opcode I_PUSH1 + 1) + 1) nBytes
             else optimize_loop f code' jd (pc + 1) nBytes
      else (code, jd)
  end.
Definition optimize (code : list Z) (jd : list Z) : list Z * list Z :=
  optimize_loop (length code) (copyCode code 33) jd 0 (lenZ code).

Section Interpreter.
Context {W : Type} `{!ExtVMFace W}.
Variable sha3 : list Z -> Z.
Variable ctx : ExtCtx.
(** The value of the element behind the end of [tierStepGas]. *)
Variable tierOob : Z.

Abbreviation m_schedule := (evmSchedule ctx).
Abbreviation St := (VM W).
Abbreviation MM := (M W).

(** ** Tracing and throwing *)

Definition onOperation : MM unit := modify (fun s =>
  if m_onOp s then
    let n := u64 (m_nSteps s + 1) in
    s <| m_nSteps := n |>
      <| m_trace := mkOnOp n (m_PC s) (m_OP s)
           (if m_newMemSize s >? lenZ (m_mem s) then u64 (m_newMemSize s - lenZ (m_mem s)) / 32 else 0)
           (m_runGas s) (m_io_gas s) :: m_trace s |>
  else s).
Abbreviation ON_OP := onOperation.

Definition throwOutOfGas {A} : MM A := throw OutOfGas.
Definition throwBadInstruction {A} : MM A := throw BadInstruction.
Definition throwBadJumpDestination {A} : MM A := throw BadJumpDestination.
Definition throwDisallowedStateChange {A} : MM A := throw DisallowedStateChange.
Definition throwStorageOverflow {A} : MM A := throw StorageOverflow.
Definition throwRevertInstruction {A} (out : list Z) : MM A := throw (RevertInstruction out).
Definition throwBufferOverrun {A} : MM A := onOperation ;; throw BufferOverrun.
(** [size] is [m_stackEnd - m_SPP] at the failing check. *)
Definition throwBadStack {A} (size removed : Z) : MM A :=
  if size <? removed then onOperation ;; throw StackUnderflow
  else onOperation ;; throw OutOfStack.

Definition toInt63 (v : Z) : MM Z := if v >? 0x7FFFFFFFFFFFFFFF then throwOutOfGas else ret v.

(** ** Access to the stack, the memory and the code *)

(** [m_SP[i]] *)
Definition sp (i : Z) : MM Z := fun s =>
  match m_SP s !! Z.to_nat i with Some v => (Ok v, s) | None => (Err UndefinedBehaviour, s) end.
(** [m_SPP[0] = v] *)
Definition setSPP0 (v : Z) : MM unit := fun s =>
  match m_SPP s with
  | _ :: t => (Ok tt, s <| m_SPP := v :: t |>)
  | [] => (Err UndefinedBehaviour, s)
  end.
(** [m_code[pc]] *)
Definition codeByte (pc : Z) : MM Z := fun s =>
  match m_code s !! Z.to_nat pc with Some v => (Ok v, s) | None => (Err UndefinedBehaviour, s) end.
(** The [n] bytes of memory from [off] *)
Definition readMem (off n : Z) : MM (list Z) := fun s =>
  if n =? 0 then (Ok [], s)
  else if off + n <=? lenZ (m_mem s) then (Ok (takeZ n (dropZ off (m_mem s))), s)
  else (Err UndefinedBehaviour, s).
Definition splice (mem : list Z) (off : Z) (bs : list Z) : list Z :=
  takeZ off mem ++ bs ++ dropZ (off + lenZ bs) mem.
Definition writeMem (off : Z) (bs : list Z) : MM unit := fun s =>
  if lenZ bs =? 0 then (Ok tt, s)
  else if off + lenZ bs <=? lenZ (m_mem s) then (Ok tt, s <| m_mem := splice (m_mem s) off bs |>)
  else (Err UndefinedBehaviour, s).
Definition setRunGas (g : Z) : MM unit := modify (fun s => s <| m_runGas := g |>).
Definition setCopyMemSize (n : Z) : MM unit := modify (fun s => s <| m_copyMemSize := n |>).
Definition setExt (e : ExtState W) : MM unit := modify (fun s => s <| m_ext := e |>).
(** [m_ext->f(...)] *)
Definition onExt {A} (f : EM W A) : MM A := fun s =>
  match f (m_ext s) with (r, e') => (r, s <| m_ext := e' |>) end.
Definition setBounce (b : Bounce) : MM unit := modify (fun s => s <| m_bounce := b |>).
Definition addRefunds (d : Z) : MM unit := modify (fun s =>
  s <| m_ext := (m_ext s) <| sub := (sub (m_ext s)) <| refunds := i64 (refunds (sub (m_ext s)) + d) |> |> |>).
(** [NEXT] before the fetch: [++m_PC] *)
Definition NEXT : MM unit := modify (fun s => s <| m_PC := u64 (m_PC s + 1) |>).

(** ** Metering *)

Definition memNeed (offset size : Z) : MM Z :=
  toInt63 (if size =? 0 then 0 else wrap 512 (offset + size)).

Definition gasForMem (size : Z) : MM Z :=
  let s := size / 32 in
  toInt63 (wrap 512 (memoryGas m_schedule * s + s * s / quadCoeffDiv m_schedule)).

Definition updateIOGas : MM unit := fun s =>
  if m_io_gas s <? m_runGas s then (Err OutOfGas, s)
  else (Ok tt, s <| m_io_gas := u64 (m_io_gas s - m_runGas s) |>).

Definition updateGas : MM unit :=
  let! new := gets m_newMemSize in
  let! old := gets (fun s => lenZ (m_mem s)) in
  (if new >? old then
     let! g1 := gasForMem new in
     let! g2 := gasForMem old in
     let! d := toInt63 (u64 (g1 - g2)) in
     modify (fun s => s <| m_runGas := u64 (m_runGas s + d) |>)
   else ret tt) ;;
  modify (fun s => s <| m_runGas :=
    u64 (m_runGas s + u64 (copyGas m_schedule * (u64 (m_copyMemSize s + 31) / 32))) |>) ;;
  (let! g := gets m_io_gas in
   let! r := gets m_runGas in
   if g <? r then throwOutOfGas else ret tt).

(** [bytes::resize] to a larger size appends zeros. *)
Definition resizeMem (n : Z) : MM unit :=
  modify (fun s => s <| m_mem := m_mem s ++ replicate (Z.to_nat (n - lenZ (m_mem s))) 0 |>).
Definition updateMem (newMem : Z) : MM unit :=
  modify (fun s => s <| m_newMemSize := u64 (u64 (newMem + 31) / 32 * 32) |>) ;;
  updateGas ;;
  let! n := gets m_newMemSize in
  let! old := gets (fun s => lenZ (m_mem s)) in
  if n >? old then resizeMem n else ret tt.

Definition logGasMem : MM unit :=
  let! op := gets m_OP in
  let n := op - opcode I_LOG0 in
  let! sp1 := sp 1 in
  let! g := toInt63 (wrap 512 (u32 (logGas m_schedule + u32 (logTopicGas m_schedule * n)) +
                               wrap 512 (logDataGas m_schedule * sp1))) in
  setRunGas g ;;
  let! sp0 := sp 0 in
  let! need := memNeed sp0 sp1 in
  updateMem need.

Definition updateSSGasPreEIP1283 (currentValue newValue : Z) : MM unit :=
  if (currentValue =? 0) && negb (newValue =? 0) then
    let! g := toInt63 (sstoreSetGas m_schedule) in setRunGas g
  else if negb (currentValue =? 0) && (newValue =? 0) then
    let! g := toInt63 (sstoreResetGas m_schedule) in setRunGas g ;;
    addRefunds (sstoreRefundGas m_schedule)
  else let! g := toInt63 (sstoreResetGas m_schedule) in setRunGas g.

Definition updateSSGasEIP1283 (currentValue newValue : Z) : MM unit :=
  if currentValue =? newValue then setRunGas (sstoreUnchangedGas m_schedule)
  else
    let! sp0 := sp 0 in
    let! originalValue := onExt (originalStorageValue sp0) in
    if originalValue =? currentValue then
      if originalValue =? 0 then setRunGas (sstoreSetGas m_schedule)
      else
        setRunGas (sstoreResetGas m_schedule) ;;
        (if newValue =? 0 then addRefunds (sstoreRefundGas m_schedule) else ret tt)
    else
      setRunGas (sstoreUnchangedGas m_schedule) ;;
      (if negb (originalValue =? 0) then
         (if currentValue =? 0 then addRefunds (- sstoreRefundGas m_schedule) else ret tt) ;;
         (if newValue =? 0 then addRefunds (sstoreRefundGas m_schedule) else ret tt)
       else ret tt) ;;
      (if originalValue =? newValue then
         if originalValue =? 0
         then addRefunds (u32 (sstoreRefundGas m_schedule + sstoreRefundNonzeroGas m_schedule))
         else addRefunds (sstoreRefundNonzeroGas m_schedule)
       else ret tt).

Definition updateSSGas : MM unit :=
  let! sp0 := sp 0 in
  let! currentValue := onExt (store sp0) in
  let! newValue := sp 1 in
  if eip1283Mode m_schedule then updateSSGasEIP1283 currentValue newValue
  else updateSSGasPreEIP1283 currentValue newValue.

(** ** Fetching *)

(** When [_added > _removed] the new slots hold whatever the array held; they are written
    before they are read, and are represented by zeros. *)
Definition adjustStack (removed added : Z) : MM unit := fun s =>
  let s1 := s <| m_SP := m_SPP s |> in
  let size := lenZ (m_SPP s) - removed in
  if size <? 0 then throwBadStack size removed s1
  else if 1024 <? size + added then throwBadStack (size + added) removed s1
  else (Ok tt, s1 <| m_SPP :=
          if added <=? removed then dropZ (removed - added) (m_SPP s)
          else replicate (Z.to_nat (added - removed)) 0 ++ m_SPP s |>).

(** [tierStepGas] has eight elements and the tier of an undefined opcode has index eight. *)
Definition tierGas (t : Tier) : Z :=
  match tierStepGas m_schedule !! Z.to_nat (tierIndex t) with Some g => g | None => tierOob end.

Definition fetchInstruction : MM unit :=
  let! pc := gets m_PC in
  let! op := codeByte pc in
  modify (fun s => s <| m_OP := op |>) ;;
  let metric := instructionInfo op in
  adjustStack (args metric) (Instruction.ret metric) ;;
  let! g := toInt63 (tierGas (gasPriceTier metric)) in
  modify (fun s => s <| m_runGas := g |> <| m_newMemSize := lenZ (m_mem s) |>
                     <| m_copyMemSize := 0 |>).

(** ** Call-related instructions *)

Definition staticGuard (k : MM unit) : MM unit :=
  if staticCall ctx then ON_OP ;; throwDisallowedStateChange else k.

Definition case_CREATE2 : MM unit :=
  if negb (haveCreate2 m_schedule) then ON_OP ;; throwBadInstruction
  else staticGuard (setBounce B_caseCreate).
Definition case_CREATE : MM unit := staticGuard (setBounce B_caseCreate).

Definition case_CALLs : MM unit :=
  ON_OP ;;
  let! op := gets m_OP in
  (if op_is I_DELEGATECALL op && negb (haveDelegateCall m_schedule) then throwBadInstruction else ret tt) ;;
  (if op_is I_STATICCALL op && negb (haveStaticCall m_schedule) then throwBadInstruction else ret tt) ;;
  (if op_is I_CALL op && staticCall ctx then
     let! v := sp 2 in if negb (v =? 0) then throwDisallowedStateChange else ret tt
   else ret tt) ;;
  setBounce B_caseCall.

(** [owning_bytes_ref{ std::move( m_mem ), b, s }]: the slice, and the memory moved away. *)
Definition takeOutput (b s : Z) : MM (list Z) :=
  let! out := readMem b s in modify (fun st => st <| m_mem := [] |>) ;; ret out.

Definition case_RETURN : MM unit :=
  setCopyMemSize 0 ;;
  let! sp0 := sp 0 in
  let! sp1 := sp 1 in
  let! need := memNeed sp0 sp1 in
  updateMem need ;;
  ON_OP ;; updateIOGas ;;
  let! out := takeOutput (u64 sp0) (u64 sp1) in
  modify (fun s => s <| m_output := out |>) ;;
  setBounce B_null.

Definition case_REVERT : MM unit :=
  if negb (haveRevert m_schedule) then ON_OP ;; throwBadInstruction
  else
    setCopyMemSize 0 ;;
    let! sp0 := sp 0 in
    let! sp1 := sp 1 in
    let! need := memNeed sp0 sp1 in
    updateMem need ;;
    ON_OP ;; updateIOGas ;;
    let! out := takeOutput (u64 sp0) (u64 sp1) in
    throwRevertInstruction out.

Definition case_SUICIDE : MM unit := staticGuard (
  let! g := toInt63 (suicideGas m_schedule) in
  setRunGas g ;;
  let! sp0 := sp 0 in
  let dest := asAddress sp0 in
  let! pays := (if eip150Mode m_schedule then
                  if negb (eip158Mode m_schedule) then ret true
                  else let! b := onExt (balance (myAddress ctx)) in ret (b >? 0)
                else ret false) in
  (if (pays : bool) then
     let! there := onExt (exists_ dest) in
     if negb there
     then modify (fun s => s <| m_runGas := u64 (m_runGas s + callNewAccountGas m_schedule) |>)
     else ret tt
   else ret tt) ;;
  ON_OP ;; updateIOGas ;;
  onExt (suicide dest) ;;
  setBounce B_null).

Definition case_STOP : MM unit := ON_OP ;; updateIOGas ;; setBounce B_null.

(** ** Instructions potentially expanding memory *)

Definition case_MLOAD : MM unit :=
  let! sp0 := sp 0 in
  let! o := toInt63 sp0 in
  updateMem (u64 (o + 32)) ;;
  ON_OP ;; updateIOGas ;;
  let! bs := readMem (u32 sp0) 32 in
  setSPP0 (fromBigEndian 256 bs) ;; NEXT.

Definition case_MSTORE : MM unit :=
  let! sp0 := sp 0 in
  let! o := toInt63 sp0 in
  updateMem (u64 (o + 32)) ;;
  ON_OP ;; updateIOGas ;;
  let! sp1 := sp 1 in
  writeMem (u32 sp0) (toBigEndian 32 sp1) ;; NEXT.

Definition case_MSTORE8 : MM unit :=
  let! sp0 := sp 0 in
  let! o := toInt63 sp0 in
  updateMem (u64 (o + 1)) ;;
  ON_OP ;; updateIOGas ;;
  let! sp1 := sp 1 in
  writeMem (u32 sp0) [u8 (Z.land sp1 0xff)] ;; NEXT.

Definition case_SHA3 : MM unit :=
  let! sp0 := sp 0 in
  let! sp1 := sp 1 in
  let! g := toInt63 (wrap 512 (sha3Gas m_schedule + (sp1 + 31) / 32 * sha3WordGas m_schedule)) in
  setRunGas g ;;
  let! need := memNeed sp0 sp1 in
  updateMem need ;;
  ON_OP ;; updateIOGas ;;
  let! bs := readMem (u64 sp0) (u64 sp1) in
  setSPP0 (sha3 bs) ;; NEXT.

(** LOG0 to LOG4: one body per number of topics in the source, which differ in the topics read. *)
Fixpoint topicsFrom (i : Z) (n : nat) : MM (list Z) :=
  match n with
  | O => ret []
  | S n' => let! t := sp i in let! ts := topicsFrom (i + 1) n' in ret (t :: ts)
  end.
Definition case_LOG (n : nat) : MM unit := staticGuard (
  logGasMem ;;
  ON_OP ;; updateIOGas ;;
  let! topics := topicsFrom 2 n in
  let! sp0 := sp 0 in
  let! sp1 := sp 1 in
  let! bs := readMem (u64 sp0) (u64 sp1) in
  let! e := gets m_ext in
  setExt (ext_log ctx e topics bs) ;; NEXT).

(** [h256( expon ).firstBitSet()]: zero bits from the most significant end. *)
Fixpoint byteLead (fuel : nat) (d : Z) : Z :=
  match fuel with
  | O => 0
  | S f => if Z.testbit d 7 then 0 else 1 + byteLead f (u8 (Z.shiftl d 1))
  end.
Fixpoint firstBitSet (bs : list Z) : Z :=
  match bs with
  | [] => 0
  | d :: bs' => if d =? 0 then 8 + firstBitSet bs' else byteLead 8 d
  end.
Definition case_EXP : MM unit :=
  let! expon := sp 1 in
  let! g := toInt63 (u32 (expGas m_schedule +
     u32 (expByteGas m_schedule * u32 (32 - firstBitSet (toBigEndian 32 expon) / 8)))) in
  setRunGas g ;;
  ON_OP ;; updateIOGas ;;
  let! base := sp 0 in
  setSPP0 (exp256 base expon) ;; NEXT.

(** ** Ordinary instructions *)

Definition unop (f : Z -> Z) : MM unit :=
  ON_OP ;; updateIOGas ;; let! a := sp 0 in setSPP0 (f a) ;; NEXT.
Definition binop (f : Z -> Z -> Z) : MM unit :=
  ON_OP ;; updateIOGas ;; let! a := sp 0 in let! b := sp 1 in setSPP0 (f a b) ;; NEXT.
Definition ternop (f : Z -> Z -> Z -> Z) : MM unit :=
  ON_OP ;; updateIOGas ;; let! a := sp 0 in let! b := sp 1 in let! c := sp 2 in
  setSPP0 (f a b c) ;; NEXT.
Definition shiftop (f : Z -> Z -> Z) : MM unit :=
  if negb (haveBitwiseShifting m_schedule) then ON_OP ;; throwBadInstruction else binop f.

Definition case_ADD := binop v_ADD.
Definition case_MUL := binop v_MUL.
Definition case_SUB := binop v_SUB.
Definition case_DIV := binop v_DIV.
Definition case_SDIV := binop v_SDIV.
Definition case_MOD := binop v_MOD.
Definition case_SMOD := binop v_SMOD.
Definition case_NOT := unop v_NOT.
Definition case_LT := binop v_LT.
Definition case_GT := binop v_GT.
Definition case_SLT := binop v_SLT.
Definition case_SGT := binop v_SGT.
Definition case_EQ := binop v_EQ.
Definition case_ISZERO := unop v_ISZERO.
Definition case_AND := binop v_AND.
Definition case_OR := binop v_OR.
Definition case_XOR := binop v_XOR.
Definition case_BYTE := binop v_BYTE.
Definition case_SHL := shiftop v_SHL.
Definition case_SHR := shiftop v_SHR.
Definition case_SAR := shiftop v_SAR.
Definition case_ADDMOD := ternop v_ADDMOD.
Definition case_MULMOD := ternop v_MULMOD.
(** [m_SP[1]], the operand changed in place, is the slot [m_SPP[0]] of the result. *)
Definition case_SIGNEXTEND := binop v_SIGNEXTEND.

(** The instructions of EIP 615 and EIP 616, not enabled. *)
Definition case_EIP615 : MM unit := ON_OP ;; throwBadInstruction.
Definition case_EIP616 : MM unit := throwBadInstruction.

(** ** Instructions that push a value of the environment *)

Definition pushEnv (v : Z) : MM unit := ON_OP ;; updateIOGas ;; setSPP0 v ;; NEXT.

Definition case_ADDRESS := pushEnv (fromAddress (myAddress ctx)).
Definition case_ORIGIN := pushEnv (fromAddress (origin ctx)).
Definition case_CALLER := pushEnv (fromAddress (caller ctx)).
Definition case_CALLVALUE := pushEnv (value ctx).
Definition case_CALLDATASIZE := pushEnv (lenZ (data ctx)).
Definition case_CODESIZE := pushEnv (lenZ (code ctx)).
Definition case_GASPRICE := pushEnv (gasPrice ctx).
Definition case_COINBASE := pushEnv (env_author (envInfo ctx)).
Definition case_TIMESTAMP := pushEnv (env_timestamp (envInfo ctx)).
Definition case_NUMBER := pushEnv (env_number (envInfo ctx)).
Definition case_DIFFICULTY := pushEnv (env_difficulty (envInfo ctx)).
Definition case_GASLIMIT := pushEnv (env_gasLimit (envInfo ctx)).
Definition case_CHAINID : MM unit :=
  ON_OP ;;
  if negb (haveChainID m_schedule) then throwBadInstruction
  else updateIOGas ;; setSPP0 (env_chainID (envInfo ctx)) ;; NEXT.
Definition case_SELFBALANCE : MM unit :=
  ON_OP ;;
  if negb (haveSelfbalance m_schedule) then throwBadInstruction
  else updateIOGas ;; let! b := onExt (balance (myAddress ctx)) in setSPP0 b ;; NEXT.

(** Instructions whose fee is a field of the schedule and whose value is read from the world. *)
Definition worldRead (fee : Z) (f : Z -> EM W Z) : MM unit :=
  let! g := toInt63 fee in
  setRunGas g ;;
  ON_OP ;; updateIOGas ;;
  let! a := sp 0 in
  let! v := onExt (f a) in
  setSPP0 v ;; NEXT.
Definition case_BALANCE := worldRead (balanceGas m_schedule) (fun a => balance (asAddress a)).
Definition case_EXTCODESIZE :=
  worldRead (extcodesizeGas m_schedule) (fun a => codeSizeAt (asAddress a)).
Definition case_EXTCODEHASH : MM unit :=
  if negb (haveExtcodehash m_schedule) then ON_OP ;; throwBadInstruction
  else worldRead (extcodehashGas m_schedule) (fun a => codeHashAt (asAddress a)).
Definition case_BLOCKHASH := worldRead (blockhashGas m_schedule) blockHash.
Definition case_SLOAD := worldRead (sloadGas m_schedule) store.

Definition case_RETURNDATASIZE : MM unit :=
  if negb (haveReturnData m_schedule) then ON_OP ;; throwBadInstruction
  else ON_OP ;; updateIOGas ;; let! r := gets m_returnData in setSPP0 (lenZ r) ;; NEXT.

(** Reading [n] bytes of a buffer that is not the machine's own (the call data, the return data, a code): outside of it the behaviour is undefined. *)
Definition readBuffer (dat : list Z) (off n : Z) : MM (list Z) := fun s =>
  if n =? 0 then (Ok [], s)
  else if off + n <=? lenZ dat then (Ok (takeZ n (dropZ off dat)), s)
  else (Err UndefinedBehaviour, s).
(** [for ( i = ..., e = ... + 32, j = 0; i < e; ++i, ++j ) r[j] = i < m_ext->data.size() ? m_ext->data[i] : 0;] *)
Fixpoint callDataLoop (dat : list Z) (n : nat) (i : Z) : MM (list Z) :=
  match n with
  | O => ret []
  | S n =>
      let! b := (if i <? lenZ dat then readBuffer dat i 1 else ret [0]) in
      let! bs := callDataLoop dat n (i + 1) in
      ret (b ++ bs)
  end.
Definition callDataWord (dat : list Z) (i : Z) : MM Z :=
  if wrap 512 (i + 31) <? lenZ dat then let! r := readBuffer dat (u64 i) 32 in ret (fromBigEndian 256 r)
  else if i >=? lenZ dat then ret 0
  else let! r := callDataLoop dat 32 (u64 i) in ret (fromBigEndian 256 r).
(** [m_SP[0]] is the slot of the result. *)
Definition case_CALLDATALOAD : MM unit :=
  ON_OP ;; updateIOGas ;;
  let! i := sp 0 in
  let! w := callDataWord (data ctx) i in
  setSPP0 w ;; NEXT.

(** ** Copying to memory *)

Definition copyDataToMemory (dat : list Z) (sp0 bigIndex sp2 : Z) : MM unit :=
  let offset := u64 sp0 in
  let index := u64 bigIndex in
  let size := u64 sp2 in
  let sizeToBeCopied :=
    if bigIndex + size >? lenZ dat then (if lenZ dat <? bigIndex then 0 else u64 (lenZ dat - index))
    else size in
  (if 0 <? sizeToBeCopied then let! bs := readBuffer dat index sizeToBeCopied in writeMem offset bs else ret tt) ;;
  (if size >? sizeToBeCopied
   then writeMem (offset + sizeToBeCopied) (replicate (Z.to_nat (size - sizeToBeCopied)) 0)
   else ret tt).

Definition case_CALLDATACOPY : MM unit :=
  let! sp2 := sp 2 in
  let! n := toInt63 sp2 in
  setCopyMemSize n ;;
  let! sp0 := sp 0 in
  let! need := memNeed sp0 sp2 in
  updateMem need ;;
  ON_OP ;; updateIOGas ;;
  let! sp1 := sp 1 in
  copyDataToMemory (data ctx) sp0 sp1 sp2 ;; NEXT.

Definition case_RETURNDATACOPY : MM unit :=
  if negb (haveReturnData m_schedule) then ON_OP ;; throwBadInstruction
  else
    let! sp1 := sp 1 in
    let! sp2 := sp 2 in
    let! r := gets m_returnData in
    (if lenZ r <? sp1 + sp2 then throwBufferOverrun else ret tt) ;;
    let! n := toInt63 sp2 in
    setCopyMemSize n ;;
    let! sp0 := sp 0 in
    let! need := memNeed sp0 sp2 in
    updateMem need ;;
    ON_OP ;; updateIOGas ;;
    copyDataToMemory r sp0 sp1 sp2 ;; NEXT.

Definition case_CODECOPY : MM unit :=
  let! sp2 := sp 2 in
  let! n := toInt63 sp2 in
  setCopyMemSize n ;;
  let! sp0 := sp 0 in
  let! need := memNeed sp0 sp2 in
  updateMem need ;;
  ON_OP ;; updateIOGas ;;
  let! sp1 := sp 1 in
  copyDataToMemory (code ctx) sp0 sp1 sp2 ;; NEXT.

Definition case_EXTCODECOPY : MM unit :=
  let! g := toInt63 (extcodecopyGas m_schedule) in
  setRunGas g ;;
  let! sp3 := sp 3 in
  let! n := toInt63 sp3 in
  setCopyMemSize n ;;
  let! sp1 := sp 1 in
  let! need := memNeed sp1 sp3 in
  updateMem need ;;
  ON_OP ;; updateIOGas ;;
  let! sp0 := sp 0 in
  let! sp2 := sp 2 in
  let! c := onExt (codeAt (asAddress sp0)) in
  copyDataToMemory c sp1 sp2 sp3 ;; NEXT.

(** ** Stack and control flow *)

Definition case_POP : MM unit := ON_OP ;; updateIOGas ;; NEXT.

Definition case_PUSHC : MM unit := throwBadInstruction.

Definition case_PUSH0 : MM unit :=
  if negb (havePush0 m_schedule) then throwBadInstruction
  else ON_OP ;; updateIOGas ;; setSPP0 0 ;; modify (fun s => s <| m_PC := u64 (m_PC s + 1) |>).

Definition case_PUSH1 : MM unit :=
  ON_OP ;; updateIOGas ;;
  NEXT ;;
  let! pc := gets m_PC in
  let! b := codeByte pc in
  setSPP0 b ;;
  NEXT.

(** [for ( ++m_PC; numBytes--; ++m_PC ) m_SPP[0] = ( m_SPP[0] << 8 ) | m_code[m_PC];] *)
Fixpoint pushLoop (numBytes : nat) (acc : Z) : MM Z :=
  match numBytes with
  | O => ret acc
  | S n =>
      let! pc := gets m_PC in
      let! b := codeByte pc in
      NEXT ;; pushLoop n (Z.lor (u256 (Z.shiftl acc 8)) b)
  end.
Definition case_PUSH : MM unit :=
  ON_OP ;; updateIOGas ;;
  let! op := gets m_OP in
  let numBytes := op - opcode I_PUSH1 + 1 in
  NEXT ;;
  let! v := pushLoop (Z.to_nat numBytes) 0 in
  setSPP0 v.

Definition verifyJumpDest (dest : Z) : MM Z :=
  let! jd := gets m_jumpDests in
  if (dest <=? 0x7FFFFFFFFFFFFFFF) && binary_search jd (u64 dest) then ret (u64 dest)
  else throwBadJumpDestination.

Definition case_JUMP : MM unit :=
  ON_OP ;; updateIOGas ;;
  let! d := sp 0 in
  let! pc := verifyJumpDest d in
  modify (fun s => s <| m_PC := pc |>).

Definition case_JUMPI : MM unit :=
  ON_OP ;; updateIOGas ;;
  let! c := sp 1 in
  if negb (c =? 0) then
    let! d := sp 0 in
    let! pc := verifyJumpDest d in
    modify (fun s => s <| m_PC := pc |>)
  else NEXT.

Definition case_JUMPC : MM unit := throwBadInstruction.
Definition case_JUMPCI : MM unit := throwBadInstruction.

Definition case_DUP : MM unit :=
  ON_OP ;; updateIOGas ;;
  let! op := gets m_OP in
  let! v := sp (op - opcode I_DUP1) in
  setSPP0 v ;; NEXT.

(** The instruction has as many results as arguments, so [m_SP] and [m_SPP] coincide. *)
Definition case_SWAP : MM unit :=
  ON_OP ;; updateIOGas ;;
  let! op := gets m_OP in
  let n := op - opcode I_SWAP1 + 1 in
  let! a := sp 0 in
  let! b := sp n in
  modify (fun s => s <| m_SPP := <[0%nat := b]> (<[Z.to_nat n := a]> (m_SPP s)) |>) ;;
  NEXT.

Definition catchStorageOverflow (m : MM unit) : MM unit := fun s =>
  match m s with
  | (Err (Other DevStorageOverflow), s') => throwStorageOverflow s'
  | r => r
  end.
Definition case_SSTORE : MM unit := staticGuard (
  updateSSGas ;;
  ON_OP ;; updateIOGas ;;
  let! k := sp 0 in
  let! v := sp 1 in
  catchStorageOverflow (onExt (setStore k v)) ;;
  NEXT).

Definition case_PC : MM unit :=
  ON_OP ;; updateIOGas ;; let! pc := gets m_PC in setSPP0 pc ;; NEXT.
Definition case_MSIZE : MM unit :=
  ON_OP ;; updateIOGas ;; let! m := gets m_mem in setSPP0 (lenZ m) ;; NEXT.
Definition case_GAS : MM unit :=
  ON_OP ;; updateIOGas ;; let! g := gets m_io_gas in setSPP0 g ;; NEXT.
Definition case_JUMPDEST : MM unit := setRunGas 1 ;; ON_OP ;; updateIOGas ;; NEXT.
Definition case_INVALID : MM unit := ON_OP ;; throwBadInstruction.

(** ** Calling out *)

Definition caseCreate : MM unit :=
  setBounce B_interpretCases ;;
  let! g := toInt63 (createGas m_schedule) in
  setRunGas g ;;
  let! endowment := sp 0 in
  let! initOff := sp 1 in
  let! initSize := sp 2 in
  let! op := gets m_OP in
  let! salt := (if op_is I_CREATE2 op then
                  let! salt := sp 3 in
                  let! h := toInt63 (wrap 512 ((initSize + 31) / 32 * sha3WordGas m_schedule)) in
                  modify (fun s => s <| m_runGas := u64 (m_runGas s + h) |>) ;; ret salt
                else ret 0) in
  let! need := memNeed initOff initSize in
  updateMem need ;;
  ON_OP ;;
  updateIOGas ;;
  modify (fun s => s <| m_returnData := [] |>) ;;
  let! b := onExt (balance (myAddress ctx)) in
  (if (b >=? endowment) && (depth ctx <? 1024) then
     modify (fun s => s <| m_io_gas_p := m_io_gas s |>) ;;
     let! p := gets m_io_gas_p in
     let createGas_ := if negb (staticCallDepthLimit m_schedule) then u256 (p - p / 64) else p in
     let! initCode := readMem (u64 initOff) (u64 initSize) in
     let! r := onExt (create endowment createGas_ initCode
                        (if op_is I_CREATE2 op then I_CREATE2 else I_CREATE) salt) in
     setSPP0 (cr_address (fst r)) ;;
     modify (fun s => s <| m_returnData := cr_output (fst r) |>
                        <| m_io_gas_p := u256 (m_io_gas_p s - u256 (createGas_ - snd r)) |>) ;;
     modify (fun s => s <| m_io_gas := u64 (m_io_gas_p s) |>)
   else setSPP0 0) ;;
  NEXT.

Definition haveValueArg (op : Z) : bool := op_is I_CALL op || op_is I_CALLCODE op.

(** The call parameters once the gas [gas1] has been charged: stipend, code address, values. *)
Definition callParams (op gas1 sp2 destinationAddr : Z) : CallParameters :=
  let p1 := CallParameters_default <| cp_staticCall := op_is I_STATICCALL op || staticCall ctx |> in
  let gas2 := if haveValueArg op && (sp2 >? 0) then u256 (gas1 + callStipend m_schedule) else gas1 in
  let p2 := p1 <| cp_gas := gas2 |> <| codeAddress := destinationAddr |> in
  if haveValueArg op then p2 <| valueTransfer := sp2 |> <| apparentValue := sp2 |>
  else if op_is I_DELEGATECALL op then p2 <| apparentValue := value ctx |> else p2.
(** The rest of them, when the call takes place. *)
Definition callParamsFinal (op : Z) (p : CallParameters) (bs : list Z) : CallParameters :=
  p <| senderAddress := if op_is I_DELEGATECALL op then caller ctx else myAddress ctx |>
    <| receiveAddress := if op_is I_CALL op || op_is I_STATICCALL op then codeAddress p
                         else myAddress ctx |>
    <| cp_data := bs |>.
(** The gas to hand over: the "all but one 64th" rule, or the amount asked for. *)
Definition callGasFor (io sp0 : Z) : Z :=
  if staticCallDepthLimit m_schedule then sp0 else Z.min sp0 (u64 (io - io / 64)).

(** Returns the call parameters, the slice of memory for the output and whether to call. *)
Definition caseCallSetup : MM (CallParameters * (Z * Z) * bool) :=
  let! g := toInt63 (callGas m_schedule) in
  setRunGas g ;;
  let! op := gets m_OP in
  let! sp0 := sp 0 in
  let! sp1 := sp 1 in
  let! sp2 := sp 2 in
  (if op_is I_CALL op && ((sp2 >? 0) || zeroValueTransferChargesNewAccountGas m_schedule) then
     let! there := onExt (exists_ (asAddress sp1)) in
     if negb there then
       let! n := toInt63 (callNewAccountGas m_schedule) in
       modify (fun s => s <| m_runGas := u64 (m_runGas s + n) |>)
     else ret tt
   else ret tt) ;;
  (if haveValueArg op && (sp2 >? 0) then
     let! n := toInt63 (callValueTransferGas m_schedule) in
     modify (fun s => s <| m_runGas := u64 (m_runGas s + n) |>)
   else ret tt) ;;
  let! inputOffset := sp (if haveValueArg op then 3 else 2) in
  let! inputSize := sp ((if haveValueArg op then 3 else 2) + 1) in
  let! outputOffset := sp ((if haveValueArg op then 3 else 2) + 2) in
  let! outputSize := sp ((if haveValueArg op then 3 else 2) + 3) in
  let! inputMemNeed := memNeed inputOffset inputSize in
  let! outputMemNeed := memNeed outputOffset outputSize in
  modify (fun s => s <| m_newMemSize := Z.max inputMemNeed outputMemNeed |>) ;;
  let! n := gets m_newMemSize in
  updateMem n ;;
  updateIOGas ;;
  let! io := gets m_io_gas in
  let! g1 := toInt63 (callGasFor io sp0) in
  setRunGas g1 ;;
  updateIOGas ;;
  let p := callParams op g1 sp2 (asAddress sp1) in
  let! b := onExt (balance (myAddress ctx)) in
  if (b >=? valueTransfer p) && (depth ctx <? 1024) then
    let! bs := readMem (u64 inputOffset) (u64 inputSize) in
    ret (callParamsFinal op p bs, (u64 outputOffset, u64 outputSize), true)
  else ret (p, (0, 0), false).

Definition caseCall : MM unit :=
  setBounce B_interpretCases ;;
  modify (fun s => s <| m_returnData := [] |>) ;;
  let! setup := caseCallSetup in
  let '(params, (outOff, outSize), doCall) := setup in
  let! gas := (if doCall then
     let! r := onExt (call params) in
     let out := output (fst r) in
     writeMem outOff (takeZ (Z.min outSize (lenZ out)) out) ;;
     modify (fun s => s <| m_returnData := out |>) ;;
     setSPP0 (if success (fst r) then 1 else 0) ;;
     ret (snd r)
   else setSPP0 0 ;; ret (cp_gas params)) in
  modify (fun s => s <| m_io_gas := u64 (m_io_gas s + u64 gas) |>) ;;
  NEXT.

(** ** Dispatch and execution *)

Definition runCase (i : Instruction) : MM unit :=
  match i with
  | I_CREATE2 => case_CREATE2 | I_CREATE => case_CREATE
  | I_DELEGATECALL | I_STATICCALL | I_CALL | I_CALLCODE => case_CALLs
  | I_RETURN => case_RETURN | I_REVERT => case_REVERT | I_SUICIDE => case_SUICIDE
  | I_STOP => case_STOP | I_MLOAD => case_MLOAD | I_MSTORE => case_MSTORE
  | I_MSTORE8 => case_MSTORE8 | I_SHA3 => case_SHA3
  | I_LOG0 => case_LOG 0 | I_LOG1 => case_LOG 1 | I_LOG2 => case_LOG 2 | I_LOG3 => case_LOG 3
  | I_LOG4 => case_LOG 4 | I_EXP => case_EXP | I_ADD => case_ADD | I_MUL => case_MUL
  | I_SUB => case_SUB | I_DIV => case_DIV | I_SDIV => case_SDIV | I_MOD => case_MOD
  | I_SMOD => case_SMOD | I_NOT => case_NOT | I_LT => case_LT | I_GT => case_GT
  | I_SLT => case_SLT | I_SGT => case_SGT | I_EQ => case_EQ | I_ISZERO => case_ISZERO
  | I_AND => case_AND | I_OR => case_OR | I_XOR => case_XOR | I_BYTE => case_BYTE
  | I_SHL => case_SHL | I_SHR => case_SHR | I_SAR => case_SAR | I_ADDMOD => case_ADDMOD
  | I_MULMOD => case_MULMOD | I_SIGNEXTEND => case_SIGNEXTEND
  | I_JUMPTO | I_JUMPIF | I_JUMPV | I_JUMPSUB | I_JUMPSUBV | I_RETURNSUB | I_BEGINSUB
  | I_BEGINDATA | I_GETLOCAL | I_PUTLOCAL => case_EIP615
  | I_XADD | I_XMUL | I_XSUB | I_XDIV | I_XSDIV | I_XMOD | I_XSMOD | I_XLT | I_XGT | I_XSLT
  | I_XSGT | I_XEQ | I_XISZERO | I_XAND | I_XOOR | I_XXOR | I_XNOT | I_XSHL | I_XSHR | I_XSAR
  | I_XROL | I_XROR | I_XMLOAD | I_XMSTORE | I_XSLOAD | I_XSSTORE | I_XVTOWIDE | I_XWIDETOV
  | I_XPUSH | I_XPUT | I_XGET | I_XSWIZZLE | I_XSHUFFLE => case_EIP616
  | I_ADDRESS => case_ADDRESS | I_ORIGIN => case_ORIGIN | I_BALANCE => case_BALANCE
  | I_CALLER => case_CALLER | I_CALLVALUE => case_CALLVALUE
  | I_CALLDATALOAD => case_CALLDATALOAD | I_CALLDATASIZE => case_CALLDATASIZE
  | I_RETURNDATASIZE => case_RETURNDATASIZE | I_CODESIZE => case_CODESIZE
  | I_EXTCODESIZE => case_EXTCODESIZE | I_CALLDATACOPY => case_CALLDATACOPY
  | I_RETURNDATACOPY => case_RETURNDATACOPY | I_EXTCODEHASH => case_EXTCODEHASH
  | I_CODECOPY => case_CODECOPY | I_EXTCODECOPY => case_EXTCODECOPY
  | I_GASPRICE => case_GASPRICE | I_BLOCKHASH => case_BLOCKHASH | I_COINBASE => case_COINBASE
  | I_TIMESTAMP => case_TIMESTAMP | I_NUMBER => case_NUMBER | I_DIFFICULTY => case_DIFFICULTY
  | I_GASLIMIT => case_GASLIMIT | I_CHAINID => case_CHAINID | I_SELFBALANCE => case_SELFBALANCE
  | I_POP => case_POP | I_PUSHC => case_PUSHC | I_PUSH0 => case_PUSH0 | I_PUSH1 => case_PUSH1
  | I_PUSH2 | I_PUSH3 | I_PUSH4 | I_PUSH5 | I_PUSH6 | I_PUSH7 | I_PUSH8 | I_PUSH9 | I_PUSH10
  | I_PUSH11 | I_PUSH12 | I_PUSH13 | I_PUSH14 | I_PUSH15 | I_PUSH16 | I_PUSH17 | I_PUSH18
  | I_PUSH19 | I_PUSH20 | I_PUSH21 | I_PUSH22 | I_PUSH23 | I_PUSH24 | I_PUSH25 | I_PUSH26
  | I_PUSH27 | I_PUSH28 | I_PUSH29 | I_PUSH30 | I_PUSH31 | I_PUSH32 => case_PUSH
  | I_JUMP => case_JUMP | I_JUMPI => case_JUMPI | I_JUMPC => case_JUMPC | I_JUMPCI => case_JUMPCI
  | I_DUP1 | I_DUP2 | I_DUP3 | I_DUP4 | I_DUP5 | I_DUP6 | I_DUP7 | I_DUP8 | I_DUP9 | I_DUP10
  | I_DUP11 | I_DUP12 | I_DUP13 | I_DUP14 | I_DUP15 | I_DUP16 => case_DUP
  | I_SWAP1 | I_SWAP2 | I_SWAP3 | I_SWAP4 | I_SWAP5 | I_SWAP6 | I_SWAP7 | I_SWAP8 | I_SWAP9
  | I_SWAP10 | I_SWAP11 | I_SWAP12 | I_SWAP13 | I_SWAP14 | I_SWAP15 | I_SWAP16 => case_SWAP
  | I_SLOAD => case_SLOAD | I_SSTORE => case_SSTORE | I_PC => case_PC | I_MSIZE => case_MSIZE
  | I_GAS => case_GAS | I_JUMPDEST => case_JUMPDEST
  | I_UNDEFINED | I_INVALID => case_INVALID
  end.

(** One round of the loop of [interpretCases]: fetch, then the case the jump table selects.
    [BREAK] returns to the trampoline, which re-enters the loop unless [m_bounce] changed. *)
Definition interpretCase : MM unit :=
  fetchInstruction ;;
  let! op := gets m_OP in
  runCase (threadedLabel op).

Definition initEntry : MM unit :=
  setBounce B_interpretCases ;;
  modify (fun s => let r := optimize (code ctx) (m_jumpDests s) in
                   s <| m_code := fst r |> <| m_jumpDests := snd r |>).

(** One call of the trampoline. *)
Definition bounce : MM unit := fun s =>
  match m_bounce s with
  | B_initEntry => initEntry s
  | B_interpretCases => interpretCase s
  | B_caseCreate => caseCreate s
  | B_caseCall => caseCall s
  | B_null => (Ok tt, s)
  end.

(** [do ( this->*m_bounce )(); while ( m_bounce );] [None] when the fuel runs out. *)
Fixpoint trampoline (fuel : nat) (s : St) : option (result VMException unit * St) :=
  match fuel with
  | O => None
  | S f =>
      match bounce s with
      | (Err e, s') => Some (Err e, s')
      | (Ok _, s') => match m_bounce s' with B_null => Some (Ok tt, s') | _ => trampoline f s' end
      end
  end.

(** A freshly constructed interpreter, after the assignments of [exec]. *)
Definition initVM (io_gas : Z) (ext : ExtState W) (onOp : bool) : St :=
  mkVM io_gas (u64 io_gas) ext onOp B_initEntry 0 [] [] [] [] 0 0 [] [] 0 0 0 [] [].

(** [exec]: the output or the exception, the gas left in [io_gas], and the final object. *)
Definition exec (fuel : nat) (io_gas : Z) (ext : ExtState W) (onOp : bool) :
    option (result VMException (list Z) * Z * St) :=
  match trampoline fuel (initVM io_gas ext onOp) with
  | Some (Ok _, s) => Some (Ok (m_output s), m_io_gas s, s)
  | Some (Err e, s) => Some (Err e, m_io_gas s, s)
  | None => None
  end.

End Interpreter.
