(* ===== verification/LegacyVMJumps.v ===== *)
(** * Jump destinations

    [optimize] (LegacyVMOpt.cpp) scans the code once, skipping the data of PUSH instructions,
    and leaves in [m_jumpDests] the positions of the JUMPDEST instructions; [verifyJumpDest]
    (LegacyVMCalls.cpp) looks a destination up by binary search.  The specification is the
    inductive predicate [instr_at]: the positions an execution that never jumps can fetch
    from. *)

From S2P Require Import Prelude CommonData Instruction EVMSchedule Words ExtVMFace LegacyVM.
From Stdlib Require Import ZArith Lia Bool Sorted.
From stdpp Require Import base list list_numbers.
Open Scope Z_scope.

(** ** Specification *)

(** Number of data bytes that follow an opcode. *)
Definition pushData (op : Z) : Z := if (0x60 <=? op) && (op <=? 0x7f) then op - 0x5f else 0.

Inductive instr_at (code : list Z) : Z -> Prop :=
| instr_first : instr_at code 0
| instr_next pc : instr_at code pc -> pc < lenZ code -> instr_at code (pc + 1 + pushData (nthZ code pc)).

Definition valid_dest (code : list Z) (pc : Z) : Prop :=
  instr_at code pc /\ pc < lenZ code /\ nthZ code pc = opcode I_JUMPDEST.

(** ** Binary search *)

Definition sortedZ (l : list Z) : Prop :=
  forall i j, 0 <= i < j -> j < lenZ l -> nthZ l i < nthZ l j.

Lemma lower_bound_spec fuel l first len v : sortedZ l ->
  0 <= first -> 0 <= len -> first + len <= lenZ l -> (Z.to_nat len <= fuel)%nat ->
  (forall i, 0 <= i < first -> nthZ l i < v) ->
  (forall i, first + len <= i < lenZ l -> v <= nthZ l i) ->
  forall r, r = lower_bound fuel l first len v ->
  0 <= r <= lenZ l /\ (forall i, 0 <= i < r -> nthZ l i < v) /\ (forall i, r <= i < lenZ l -> v <= nthZ l i).
Proof.
  intros Hs. revert first len. induction fuel as [|f IH]; intros first len Hf Hl Hb Hfu Hlo Hhi r ->; simpl.
  - assert (len = 0) as -> by lia. rewrite Z.add_0_r in Hhi. split_and!; auto; lia.
  - destruct (Z.ltb_spec 0 len) as [Hpos|].
    2:{ assert (len = 0) as -> by lia. rewrite Z.add_0_r in Hhi. split_and!; auto; lia. }
    pose proof (Z.div_mod len 2 ltac:(lia)). pose proof (Z.mod_pos_bound len 2 ltac:(lia)).
    destruct (Z.ltb_spec (nthZ l (first + len / 2)) v) as [Hlt|Hge].
    + eapply IH; [..|reflexivity]; try lia.
      * intros i Hi. destruct (Z.eq_dec i (first + len / 2)) as [->|]; [done|].
        pose proof (Hs i (first + len / 2)). lia.
      * intros i Hi. apply Hhi. lia.
    + eapply IH; [..|reflexivity]; try lia; [done|]. intros i Hi.
      destruct (Z.eq_dec i (first + len / 2)) as [->|]; [done|].
      pose proof (Hs (first + len / 2) i). lia.
Qed.

Lemma nthZ_elem l i : 0 <= i < lenZ l -> nthZ l i ∈ l.
Proof. intros. apply list_elem_of_In, nth_In. unfold lenZ in *. lia. Qed.

Lemma elem_nthZ l v : v ∈ l -> exists i, 0 <= i < lenZ l /\ nthZ l i = v.
Proof.
  intros Hv. apply list_elem_of_In, (In_nth l v 0) in Hv as (n & Hn & <-). exists (Z.of_nat n).
  unfold nthZ, lenZ. rewrite Nat2Z.id. split; [lia|done].
Qed.

Lemma binary_search_spec l v : sortedZ l -> binary_search l v = true <-> v ∈ l.
Proof.
  intros Hs. unfold binary_search.
  destruct (lower_bound_spec (length l) l 0 (lenZ l) v Hs ltac:(lia) (lenZ_nonneg l) ltac:(lia)
    ltac:(unfold lenZ; lia) ltac:(lia) ltac:(lia) _ eq_refl) as (Hr & Hlo & Hhi).
  set (r := lower_bound _ _ _ _ _) in *. clearbody r. rewrite andb_true_iff, negb_true_iff, Z.ltb_lt, Z.ltb_ge. split.
  - intros [Hlt Hle]. specialize (Hhi r). assert (nthZ l r = v) as <- by lia. apply nthZ_elem. lia.
  - intros Hv. apply elem_nthZ in Hv as (i & Hi & <-).
    destruct (Z.ltb_spec i r); [specialize (Hlo i); lia|].
    assert (r < lenZ l) by lia. split; [done|]. destruct (Z.eq_dec r i) as [->|]; [lia|].
    pose proof (Hs r i). lia.
Qed.

Lemma sortedZ_snoc l x : sortedZ l -> (forall y, y ∈ l -> y < x) -> sortedZ (l ++ [x]).
Proof.
  intros Hs Hx i j Hij Hj. rewrite lenZ_app, lenZ_cons in Hj. change (lenZ (@nil Z)) with 0 in Hj.
  rewrite (nthZ_app_l l [x] i) by lia. destruct (Z.ltb_spec j (lenZ l)).
  - rewrite nthZ_app_l by lia. by apply Hs.
  - rewrite nthZ_app_r by lia. replace (j - lenZ l) with 0 by lia. apply Hx, nthZ_elem. lia.
Qed.

(** ** The scan *)

(** What the loop maintains: the destinations found so far are those below [pc], in order. *)
Record scan_ok (code0 code jd : list Z) (pc : Z) : Prop := {
  so_len : lenZ code = lenZ code0 + 33;
  so_same : forall i, pc <= i < lenZ code0 + 33 -> nthZ code i = nthZ (copyCode code0 33) i;
  so_below : forall i, 0 <= i < pc -> i < lenZ code0 ->
    nthZ code i = nthZ code0 i \/ nthZ code i = opcode I_INVALID;
  so_tail : forall i, lenZ code0 <= i < lenZ code0 + 33 -> nthZ code i = 0;
  so_bytes : bytes_ok code;
  so_sorted : sortedZ jd;
  so_dests : forall d, d ∈ jd <-> valid_dest code0 d /\ d < pc
}.

Lemma nth_lookup_total_nil l i d : 0 <= i -> nthZ (<[Z.to_nat i := d]> l) i = if i <? lenZ l then d else nthZ l i.
Proof.
  intros Hi. unfold nthZ, lenZ. destruct (Z.ltb_spec i (Z.of_nat (length l))).
  - rewrite (nth_lookup_Some _ _ _ d); [done|]. apply list_lookup_insert_eq. lia.
  - rewrite list_insert_ge by lia. done.
Qed.

Lemma nthZ_insert_ne l i j d : 0 <= i -> 0 <= j -> i <> j -> nthZ (<[Z.to_nat i := d]> l) j = nthZ l j.
Proof.
  intros. unfold nthZ. rewrite !nth_lookup. rewrite list_lookup_insert_ne by lia. done.
Qed.

Lemma instr_at_nonneg code pc : bytes_ok code -> instr_at code pc -> 0 <= pc.
Proof.
  intros Hb. induction 1; [lia|]. unfold pushData. pose proof (bytes_ok_nth code pc Hb) as [? ?].
  destruct (0x60 <=? nthZ code pc) eqn:E, (nthZ code pc <=? 0x7f); simpl; try lia.
Qed.

Lemma pushData_nonneg op : 0 <= pushData op.
Proof. unfold pushData. destruct (Z.leb_spec 0x60 op), (Z.leb_spec op 0x7f); simpl; lia. Qed.

(** Positions of instructions are visited in order: none lies strictly between one and the next. *)
Lemma instr_at_next code p q : bytes_ok code -> instr_at code q -> instr_at code p -> p < q ->
  p + 1 + pushData (nthZ code p) <= q.
Proof.
  intros Hb Hq. pose proof (instr_at_nonneg code q Hb Hq) as Hq0. revert Hq p.
  pattern q. revert q Hq0. apply Z_lt_induction. intros q IH Hq p Hp Hlt.
  destruct Hq as [|q Hq Hlen]; [pose proof (instr_at_nonneg code p Hb Hp); lia|].
  pose proof (pushData_nonneg (nthZ code q)). pose proof (instr_at_nonneg code q Hb Hq).
  pose proof (instr_at_nonneg code p Hb Hp).
  destruct (Z.lt_trichotomy p q) as [H2|[->|H2]]; [|lia|].
  - specialize (IH q ltac:(lia) Hq p Hp H2). lia.
  - specialize (IH p ltac:(lia) Hp q Hq H2). lia.
Qed.

Lemma scan_init code0 : bytes_ok code0 -> scan_ok code0 (copyCode code0 33) [] 0.
Proof.
  intros Hb. assert (Hl : lenZ (copyCode code0 33) = lenZ code0 + 33) by (unfold copyCode; rewrite lenZ_app; done).
  constructor; try done; try lia.
  - intros i Hi. unfold copyCode. rewrite nthZ_app_r by lia. unfold nthZ.
    rewrite nth_lookup, lookup_replicate_2 by lia. done.
  - unfold copyCode. apply bytes_ok_app. split; [done|]. by apply (bool_decide_unpack _).
  - intros i j Hij Hj. change (lenZ (@nil Z)) with 0 in Hj. lia.
  - intros d. split; [intros H; by apply not_elem_of_nil in H|]. intros [[H _] Hd].
    pose proof (instr_at_nonneg code0 d Hb H). lia.
Qed.

(** One round of the scan, at the position of an instruction. *)
Lemma jump_scan_step code0 code jd pc op code' :
  bytes_ok code0 -> scan_ok code0 code jd pc -> instr_at code0 pc -> pc < lenZ code0 ->
  op = nthZ code pc ->
  (code' = code \/ code' = <[Z.to_nat pc := opcode I_INVALID]> code /\ op <> opcode I_JUMPDEST) ->
  scan_ok code0 code' (if op_is I_JUMPDEST op then jd ++ [pc] else jd) (pc + 1 + pushData op).
Proof.
  intros Hb [Hlen Hsame Hbelow Htail Hbytes Hsort Hdest] Hpc Hlt Hop Hcode.
  pose proof (instr_at_nonneg code0 pc Hb Hpc) as Hpc0.
  assert (Hop0 : op = nthZ code0 pc).
  { rewrite Hop, Hsame by lia. unfold copyCode. rewrite nthZ_app_l by lia. done. }
  pose proof (pushData_nonneg op) as Hpd.
  assert (Hc : lenZ code' = lenZ code /\ bytes_ok code' /\ (forall i, 0 <= i -> i <> pc -> nthZ code' i = nthZ code i)
               /\ (nthZ code' pc = nthZ code pc \/ nthZ code' pc = opcode I_INVALID)).
  { destruct Hcode as [->|[-> _]]; [by auto|]. split_and!.
    - unfold lenZ. by rewrite length_insert.
    - apply Forall_insert; [done|]. unfold is_byte. simpl. lia.
    - intros i Hi Hne. apply nthZ_insert_ne; lia.
    - right. rewrite nth_lookup_total_nil by lia. destruct (Z.ltb_spec pc (lenZ code)); [done|lia]. }
  destruct Hc as (Hlen' & Hbytes' & Hne & Hat).
  assert (Hnext : forall d, valid_dest code0 d /\ d < pc + 1 + pushData op <->
    valid_dest code0 d /\ d < pc \/ d = pc /\ op = opcode I_JUMPDEST).
  { intros d. split.
    - intros [(Hi & Hl & Hj) Hd]. destruct (Z.lt_trichotomy d pc) as [|[->|]]; [by left; split|right; split; congruence|].
      pose proof (instr_at_next code0 pc d Hb Hi Hpc ltac:(lia)) as Hn. rewrite <- Hop0 in Hn. lia.
    - intros [[? ?]|[-> Hj]]; [split; [done|lia]|split; [split_and!; congruence|lia]]. }
  constructor; try done; try lia.
  - intros i Hi. rewrite Hne by lia. apply Hsame. lia.
  - intros i Hi Hil. destruct (Z.lt_trichotomy i pc) as [|[->|]].
    + rewrite Hne by lia. apply Hbelow; lia.
    + rewrite <- Hop0, Hop. done.
    + left. rewrite Hne, Hsame by lia. unfold copyCode. by rewrite nthZ_app_l by lia.
  - intros i Hi. rewrite Hne by lia. by apply Htail.
  - destruct (op_is I_JUMPDEST op); [|done]. apply sortedZ_snoc; [done|]. intros y Hy. apply Hdest in Hy. lia.
  - intros d. rewrite Hnext. unfold op_is. destruct (Z.eqb_spec op (opcode I_JUMPDEST)) as [->|Hne'].
    + rewrite elem_of_app, list_elem_of_singleton, Hdest. split; [intros [?| ->]; auto|intros [?|[-> _]]; auto].
    + rewrite Hdest. split; [auto|intros [?|[_ ?]]; done].
Qed.

Lemma optimize_loop_spec fuel code0 code jd pc :
  bytes_ok code0 -> scan_ok code0 code jd pc -> instr_at code0 pc \/ lenZ code0 <= pc -> 0 <= pc ->
  (Z.to_nat (lenZ code0 - pc) <= fuel)%nat ->
  exists pc', lenZ code0 <= pc' /\
    scan_ok code0 (fst (optimize_loop fuel code jd pc (lenZ code0))) (snd (optimize_loop fuel code jd pc (lenZ code0))) pc'.
Proof.
  intros Hb. revert code jd pc. induction fuel as [|f IH]; intros code jd pc Hs Hat Hpc Hf; simpl.
  { exists pc. split; [lia|done]. }
  destruct (Z.ltb_spec pc (lenZ code0)) as [Hlt|]; [|exists pc; split; [lia|done]].
  destruct Hat as [Hat|]; [|lia].
  remember (nthZ code pc) as op eqn:Hop.
  assert (Hop0 : op = nthZ code0 pc).
  { rewrite Hop.  rewrite (so_same _ _ _ _ Hs) by lia. unfold copyCode. rewrite nthZ_app_l by lia. done. }
  set (code' := if _ || _ || _ then _ else _).
  assert (Hstep := jump_scan_step code0 code jd pc op code' Hb Hs Hat Hlt Hop).
  assert (Hc : code' = code \/ code' = <[Z.to_nat pc := opcode I_INVALID]> code /\ op <> opcode I_JUMPDEST).
  { unfold code', op_is. destruct (Z.eqb_spec op (opcode I_PUSHC)) as [E|], (Z.eqb_spec op (opcode I_JUMPC)) as [E'|],
      (Z.eqb_spec op (opcode I_JUMPCI)) as [E''|]; simpl; auto; right; (split; [done|simpl in *; lia]). }
  specialize (Hstep Hc). clearbody code'.
  pose proof (instr_next code0 pc Hat Hlt) as Hnx. rewrite <- Hop0 in Hnx.
  pose proof (pushData_nonneg op) as Hp0. change (opcode I_PUSH1) with 0x60. change (opcode I_PUSH32) with 0x7f.
  destruct (op_is I_JUMPDEST op) eqn:Hj.
  - apply Z.eqb_eq in Hj. assert (Hp : pushData op = 0) by (rewrite Hj; done).
    rewrite Hp, Z.add_0_r in *. apply IH; try done; [by left|lia|lia].
  - unfold pushData in *. destruct ((0x60 <=? op) && (op <=? 0x7f)) eqn:Hpush.
    + replace (pc + (op - 0x60 + 1) + 1) with (pc + 1 + (op - 0x5f)) by lia.
      apply IH; try done; [by left|lia|lia].
    + rewrite Z.add_0_r in *. apply IH; try done; [by left|lia|lia].
Qed.

(** What [optimize] leaves behind, for the interpreter's own invariant. *)
Lemma optimize_spec code0 : bytes_ok code0 ->
  exists pc', lenZ code0 <= pc' /\ scan_ok code0 (fst (optimize code0 [])) (snd (optimize code0 [])) pc'.
Proof.
  intros Hb. unfold optimize. apply optimize_loop_spec; auto using scan_init, instr_first; [lia|unfold lenZ; lia].
Qed.

(** ** Claim *)

(** The binary search over the table of [optimize] finds exactly the destinations. *)
Lemma optimize_search (code0 : list Z) (pc : Z) :
  bytes_ok code0 -> binary_search (snd (optimize code0 [])) pc = true <-> valid_dest code0 pc.
Proof.
  intros Hb. destruct (optimize_spec code0 Hb) as (pc' & Hle & Hs).
  rewrite binary_search_spec by apply (so_sorted _ _ _ _ Hs). rewrite (so_dests _ _ _ _ Hs).
  split; [tauto|]. intros H. split; [done|]. destruct H as (_ & H & _). lia.
Qed.

(** C23: A jump is accepted exactly when its destination, a word of 256 bits, is the position of a JUMPDEST instruction of the code, where the
    data bytes of PUSH instructions are not instructions.  In any state that has the table of destinations with which [initEntry] starts an
    execution, [verifyJumpDest] gives the destination itself for each of these positions, and throws BadJumpDestination for every other word,
    one whose low 64 bits are such a position included.  Nothing of the state changes.  The code has fewer than 2^63 bytes. *)
Theorem jump_destinations_exact {W} (ctx : ExtCtx) (io_gas : Z) (ext : ExtState W) (onOp : bool) (s : VM W) (dest : Z) :
  bytes_ok (code ctx) -> lenZ (code ctx) < 2 ^ 63 -> 0 <= dest < 2 ^ 256 ->
  m_jumpDests s = m_jumpDests (snd (initEntry ctx (initVM io_gas ext onOp))) ->
  verifyJumpDest dest s = (Ok dest, s) /\ valid_dest (code ctx) dest
  \/ verifyJumpDest dest s = (Err BadJumpDestination, s) /\ ~ valid_dest (code ctx) dest.
Proof.
  intros Hb Hl Hd Hj. simpl in Hj. unfold verifyJumpDest, bind, gets. rewrite Hj.
  destruct (Z.leb_spec dest 0x7FFFFFFFFFFFFFFF) as [Hs|Hs]; simpl.
  - rewrite (wrap_small 64) by lia. destruct (binary_search _ dest) eqn:Hbs.
    + left. split; [done|]. by apply optimize_search.
    + right. split; [done|]. intros H%optimize_search; [congruence|done].
  - right. split; [done|]. intros (_ & Hlt & _). lia.
Qed.

Definition jumpCtx : ExtCtx := mkExtCtx (mkEnvInfo 0 0 0 0 0 0 0 0 0) 1 2 3 0 0 [] [0x60; 0x5b; 0x5b] 0 false false IstanbulSchedule.
Definition jumpState : VM unit := snd (initEntry jumpCtx (initVM 50 (mkExt tt SubState_clear) false)).
Lemma jump_destinations_exact_witness : valid_dest (code jumpCtx) 2 /\ ~ valid_dest (code jumpCtx) (2 ^ 64 + 2).
Proof.
  split.
  - destruct (jump_destinations_exact jumpCtx 50 (mkExt tt SubState_clear) false jumpState 2
      ltac:(apply (bool_decide_unpack _); exact I) eq_refl ltac:(lia) eq_refl) as [[_ H]|[H _]]; [exact H|discriminate H].
  - destruct (jump_destinations_exact jumpCtx 50 (mkExt tt SubState_clear) false jumpState (2 ^ 64 + 2)
      ltac:(apply (bool_decide_unpack _); exact I) eq_refl ltac:(lia) eq_refl) as [[H _]|[_ H]]; [discriminate H|exact H].
Defined.
