(* ===== verification/LegacyVMLogic.v ===== *)
(** * A program logic for the interpreter's monad, and its metering

    [wp G m Q s] says that running [m] from [s] either ends normally in a state that satisfies
    [Q], or throws an exception that is not an out-of-bounds access while at most [G] gas is
    left and the environment satisfies its invariant [P].  The rules of the section step through the primitives; the rule for [updateMem] also
    states that the 64-bit sums are the exact costs. *)

From S2P Require Import Prelude CommonData Instruction EVMSchedule Words ExtVMFace LegacyVM LegacyVMJumps.
From Stdlib Require Import ZArith Lia Bool.
From stdpp Require Import base list list_numbers.
Open Scope Z_scope.
Open Scope vm_scope.

(** ** The schedule's facts, unpacked *)

Record sched_facts (s : EVMSchedule) : Prop := {
  sf_tier : tierStepGas s = [0; 2; 3; 5; 8; 10; 20; 0];
  sf_exp : 1 <= expGas s < 2 ^ 20; sf_sha3 : 1 <= sha3Gas s < 2 ^ 20;
  sf_sload : 1 <= sloadGas s < 2 ^ 20; sf_sset : 1 <= sstoreSetGas s < 2 ^ 20;
  sf_sreset : 1 <= sstoreResetGas s < 2 ^ 20; sf_sunch : 1 <= sstoreUnchangedGas s < 2 ^ 20;
  sf_log : 1 <= logGas s < 2 ^ 20; sf_create : 1 <= createGas s < 2 ^ 20;
  sf_call : 1 <= callGas s < 2 ^ 20; sf_ecs : 1 <= extcodesizeGas s < 2 ^ 20;
  sf_ecc : 1 <= extcodecopyGas s < 2 ^ 20; sf_ech : 1 <= extcodehashGas s < 2 ^ 20;
  sf_bal : 1 <= balanceGas s < 2 ^ 20; sf_bh : 1 <= blockhashGas s < 2 ^ 20;
  sf_expb : 0 <= expByteGas s < 2 ^ 20; sf_sha3w : 0 <= sha3WordGas s < 2 ^ 20;
  sf_logd : 0 <= logDataGas s < 2 ^ 20; sf_logt : 0 <= logTopicGas s < 2 ^ 20;
  sf_newacc : 0 <= callNewAccountGas s < 2 ^ 20; sf_mem : 0 <= memoryGas s < 2 ^ 20;
  sf_copy : 0 <= copyGas s < 2 ^ 20; sf_sui : 0 <= suicideGas s < 2 ^ 20;
  sf_cvt : 0 <= callValueTransferGas s < 2 ^ 20;
  sf_stip : 0 <= callStipend s <= callValueTransferGas s; sf_quad : quadCoeffDiv s = 512
}.

Lemma schedule_ok_facts s : schedule_ok s = true -> sched_facts s.
Proof.
  unfold schedule_ok, charge_ok, cost_ok. cbn [forallb].
  rewrite !andb_true_iff, bool_decide_eq_true, !Z.leb_le, !Z.ltb_lt, Z.eqb_eq.
  intros H. constructor; try tauto; intuition lia.
Qed.

Lemma wrap_le w z : 0 <= z -> 0 <= w -> 0 <= wrap w z <= z.
Proof.
  intros. unfold wrap. pose proof (Z.mod_pos_bound z (2 ^ w)). pose proof (Z.mod_le z (2 ^ w)). lia.
Qed.

(** The cost of [size] bytes of memory. *)
Definition Cmem (sch : EVMSchedule) (size : Z) : Z :=
  memoryGas sch * (size / 32) + (size / 32) * (size / 32) / quadCoeffDiv sch.
Definition ceil32 (n : Z) : Z := (n + 31) / 32 * 32.

Lemma ceil32_bounds n : 0 <= n -> n <= ceil32 n < n + 32 /\ ceil32 n mod 32 = 0.
Proof.
  intros. unfold ceil32. pose proof (Z.div_mod (n + 31) 32). pose proof (Z.mod_pos_bound (n + 31) 32).
  split; [lia|]. by rewrite Z.mod_mul by lia.
Qed.

Lemma ceil32_le n k : n <= 32 * k -> ceil32 n <= 32 * k.
Proof.
  intros. unfold ceil32. assert ((n + 31) / 32 < k + 1) by (apply Z.div_lt_upper_bound; lia). lia.
Qed.

Lemma Cmem_mono sch a b : sched_facts sch -> 0 <= a <= b -> 0 <= Cmem sch a <= Cmem sch b.
Proof.
  intros Hs H. unfold Cmem. rewrite (sf_quad _ Hs). pose proof (sf_mem _ Hs).
  assert (0 <= a / 32 <= b / 32) by (split; [apply Z.div_pos; lia|apply Z.div_le_mono; lia]).
  assert (0 <= a / 32 * (a / 32) / 512) by (apply Z.div_pos; nia).
  assert (a / 32 * (a / 32) / 512 <= b / 32 * (b / 32) / 512) by (apply Z.div_le_mono; nia). nia.
Qed.

(** Memory whose cost fits in 63 bits has at most [2 ^ 41] bytes. *)
Lemma Cmem_big sch n : sched_facts sch -> 2 ^ 41 < n -> n mod 32 = 0 -> 2 ^ 63 <= Cmem sch n.
Proof.
  intros Hs Hn Hm. unfold Cmem. rewrite (sf_quad _ Hs). pose proof (sf_mem _ Hs).
  assert (2 ^ 36 <= n / 32) by (apply Z.div_le_lower_bound; lia).
  assert (2 ^ 63 <= n / 32 * (n / 32) / 512) by (apply Z.div_le_lower_bound; nia). nia.
Qed.

Lemma Cmem_small sch n : sched_facts sch -> 0 <= n <= 2 ^ 41 -> Cmem sch n < 2 ^ 64.
Proof.
  intros Hs Hn. unfold Cmem. rewrite (sf_quad _ Hs). pose proof (sf_mem _ Hs).
  assert (0 <= n / 32 <= 2 ^ 36) by (split; [apply Z.div_pos; lia|apply Z.div_le_upper_bound; lia]).
  assert (n / 32 * (n / 32) / 512 <= 2 ^ 63) by (apply Z.div_le_upper_bound; nia). nia.
Qed.

Section Logic.
Context {W : Type} (P : ExtState W -> Prop).
Variable ctx : ExtCtx.
Hypothesis Hsched : sched_facts (evmSchedule ctx).
Abbreviation sch := (evmSchedule ctx).

Definition wp {A} (G : Z) (m : M W A) (Q : A -> VM W -> Prop) (s : VM W) : Prop :=
  match m s with
  | (Ok a, s') => Q a s'
  | (Err e, s') => exc_ok e /\ 0 <= m_io_gas s' <= G /\ P (m_ext s')
  end.

Lemma wp_mono {A} G (m : M W A) (Q R : A -> VM W -> Prop) s :
  wp G m Q s -> (forall a s', Q a s' -> R a s') -> wp G m R s.
Proof. unfold wp. destruct (m s) as [[a|e] s']; auto. Qed.
Lemma wp_bind {A B} G (m : M W A) (k : A -> M W B) Q s :
  wp G m (fun a s' => wp G (k a) Q s') s -> wp G (bind m k) Q s.
Proof. unfold wp, bind. by destruct (m s) as [[a|e] s']. Qed.
Lemma wp_ret {A} G (a : A) (Q : A -> VM W -> Prop) s : Q a s -> wp G (ret a) Q s.
Proof. done. Qed.
Lemma wp_throw {A} G e (Q : A -> VM W -> Prop) s :
  exc_ok e -> 0 <= m_io_gas s <= G -> P (m_ext s) -> wp G (throw e) Q s.
Proof. done. Qed.
Lemma wp_gets {A} G (f : VM W -> A) (Q : A -> VM W -> Prop) s : Q (f s) s -> wp G (gets f) Q s.
Proof. done. Qed.
Lemma wp_modify G (f : VM W -> VM W) (Q : unit -> VM W -> Prop) s : Q tt (f s) -> wp G (modify f) Q s.
Proof. done. Qed.
Lemma wp_if {A} G (b : bool) (m1 m2 : M W A) Q s :
  (b = true -> wp G m1 Q s) -> (b = false -> wp G m2 Q s) -> wp G (if b then m1 else m2) Q s.
Proof. destruct b; auto. Qed.

Lemma wp_onOperation G (Q : unit -> VM W -> Prop) s :
  (forall n t, Q tt (s <| m_nSteps := n |> <| m_trace := t |>)) -> wp G onOperation Q s.
Proof.
  intros H. apply wp_modify. destruct (m_onOp s); [apply H|].
  specialize (H (m_nSteps s) (m_trace s)). by destruct s.
Qed.

(** A call of the environment. *)
Lemma wp_onExt {A} G (f : EM W A) (R : A -> Prop) (Q : A -> VM W -> Prop) s :
  ext_spec P R f -> 0 <= m_io_gas s <= G -> P (m_ext s) ->
  (forall a e', R a -> P e' -> Q a (s <| m_ext := e' |>)) -> wp G (onExt f) Q s.
Proof.
  intros Hf HG HP HQ. specialize (Hf _ HP). unfold wp, onExt. destruct (f (m_ext s)) as [[a|x] e'].
  - destruct Hf. by apply HQ.
  - by destruct Hf.
Qed.

Lemma wp_toInt63 G v (Q : Z -> VM W -> Prop) s :
  0 <= m_io_gas s <= G -> P (m_ext s) -> (v < 2 ^ 63 -> Q v s) -> wp G (toInt63 v) Q s.
Proof.
  intros HG HP H. unfold toInt63. apply wp_if; intros Hb.
  - by apply wp_throw.
  - apply wp_ret, H. boolify. lia.
Qed.

Lemma wp_sp G i (Q : Z -> VM W -> Prop) s :
  Forall is_u256 (m_SP s) -> 0 <= i < lenZ (m_SP s) ->
  (forall v, is_u256 v -> m_SP s !! Z.to_nat i = Some v -> Q v s) -> wp G (sp i) Q s.
Proof.
  intros HF Hi H. unfold wp, sp. destruct (lookup_lt_is_Some_2 (m_SP s) (Z.to_nat i)) as [v Hv].
  { unfold lenZ in Hi. lia. }
  rewrite Hv. apply H; [|done]. rewrite Forall_lookup in HF. eauto.
Qed.

Lemma wp_setSPP0 G v (Q : unit -> VM W -> Prop) s :
  1 <= lenZ (m_SPP s) -> Q tt (s <| m_SPP := v :: tail (m_SPP s) |>) -> wp G (setSPP0 v) Q s.
Proof.
  intros Hl H. unfold wp, setSPP0. destruct (m_SPP s); [change (lenZ (@nil Z)) with 0 in Hl; lia|done].
Qed.

Lemma wp_codeByte G pc (Q : Z -> VM W -> Prop) s :
  bytes_ok (m_code s) -> 0 <= pc < lenZ (m_code s) ->
  (is_byte (nthZ (m_code s) pc) -> Q (nthZ (m_code s) pc) s) -> wp G (codeByte pc) Q s.
Proof.
  intros HF Hi H. unfold wp, codeByte. destruct (lookup_lt_is_Some_2 (m_code s) (Z.to_nat pc)) as [v Hv].
  { unfold lenZ in Hi. lia. }
  rewrite Hv. unfold nthZ in H. rewrite (nth_lookup_Some _ _ _ _ Hv) in H. apply H.
  unfold bytes_ok in HF. rewrite Forall_lookup in HF. eauto.
Qed.

Lemma wp_readMem G off n (Q : list Z -> VM W -> Prop) s :
  0 <= off -> 0 <= n -> n = 0 \/ off + n <= lenZ (m_mem s) -> bytes_ok (m_mem s) ->
  (forall bs, bytes_ok bs -> lenZ bs = n -> bs = takeZ n (dropZ off (m_mem s)) -> Q bs s) ->
  wp G (readMem off n) Q s.
Proof.
  intros Ho Hn Hb HF H. unfold wp, readMem. destruct (Z.eqb_spec n 0) as [->|].
  - apply H; [constructor|done|done].
  - destruct (Z.leb_spec (off + n) (lenZ (m_mem s))); [|lia]. apply H; [auto with skaled| |done].
    rewrite lenZ_takeZ; [done|]. rewrite lenZ_dropZ; lia.
Qed.

Lemma splice_len mem off bs : 0 <= off -> off + lenZ bs <= lenZ mem -> lenZ (splice mem off bs) = lenZ mem.
Proof.
  intros. pose proof (lenZ_nonneg bs). unfold splice. rewrite !lenZ_app, lenZ_takeZ, lenZ_dropZ by lia. lia.
Qed.

Lemma wp_writeMem G off bs (Q : unit -> VM W -> Prop) s :
  0 <= off -> lenZ bs = 0 \/ off + lenZ bs <= lenZ (m_mem s) -> bytes_ok (m_mem s) -> bytes_ok bs ->
  (forall mem', bytes_ok mem' -> lenZ mem' = lenZ (m_mem s) -> Q tt (s <| m_mem := mem' |>)) ->
  wp G (writeMem off bs) Q s.
Proof.
  intros Ho Hb HF Hbs H. unfold wp, writeMem. destruct (Z.eqb_spec (lenZ bs) 0).
  - specialize (H (m_mem s) HF eq_refl). by destruct s.
  - destruct (Z.leb_spec (off + lenZ bs) (lenZ (m_mem s))); [|lia]. apply H; [|apply splice_len; lia].
    unfold splice. rewrite !bytes_ok_app. auto with skaled.
Qed.

Lemma wp_updateIOGas G (Q : unit -> VM W -> Prop) s :
  0 <= m_io_gas s <= G -> P (m_ext s) -> m_io_gas s < 2 ^ 64 -> 0 <= m_runGas s ->
  (m_runGas s <= m_io_gas s -> Q tt (s <| m_io_gas := m_io_gas s - m_runGas s |>)) ->
  wp G updateIOGas Q s.
Proof.
  intros HG HP H64 Hr H. unfold wp, updateIOGas. destruct (Z.ltb_spec (m_io_gas s) (m_runGas s)); [by split|].
  rewrite wrap_small by lia. by apply H.
Qed.

Lemma wp_memNeed G off size (Q : Z -> VM W -> Prop) s :
  is_u256 off -> is_u256 size -> 0 <= m_io_gas s <= G -> P (m_ext s) ->
  (forall n, 0 <= n < 2 ^ 63 -> n = (if size =? 0 then 0 else off + size) -> Q n s) ->
  wp G (memNeed off size) Q s.
Proof.
  intros [? ?] [? ?] HG HP HQ. unfold memNeed. apply wp_toInt63; [done..|]. intros Hlt. apply HQ.
  - split; [|done]. destruct (Z.eqb_spec size 0); [lia|]. apply (wrap_range 512). lia.
  - destruct (Z.eqb_spec size 0); [done|]. apply wrap_small. lia.
Qed.

Lemma wp_gasForMem G size (Q : Z -> VM W -> Prop) s :
  0 <= size < 2 ^ 64 -> 0 <= m_io_gas s <= G -> P (m_ext s) -> (Cmem sch size < 2 ^ 63 -> Q (Cmem sch size) s) ->
  wp G (gasForMem ctx size) Q s.
Proof.
  intros Hs HG HP H. unfold gasForMem. cbn zeta. rewrite wrap_small; [by apply wp_toInt63|].
  pose proof (Cmem_mono sch 0 size Hsched). fold (Cmem sch size). split; [lia|].
  unfold Cmem. rewrite (sf_quad _ Hsched). pose proof (sf_mem _ Hsched).
  assert (0 <= size / 32 <= 2 ^ 59) by (split; [apply Z.div_pos; lia|apply Z.div_le_upper_bound; lia]).
  assert (size / 32 * (size / 32) / 512 <= 2 ^ 118) by (apply Z.div_le_upper_bound; nia). nia.
Qed.

(** ** Memory expansion *)

(** What a memory has: whole words, within the size gas can pay for. *)
Definition mem_ok (mem : list Z) : Prop :=
  bytes_ok mem /\ lenZ mem mod 32 = 0 /\ lenZ mem <= 2 ^ 41.

(** The exact cost of an instruction that needs [newMem] bytes of memory and copies [copy]. *)
Definition memCost (old newMem copy : Z) : Z :=
  Z.max 0 (Cmem sch (ceil32 newMem) - Cmem sch old) + copyGas sch * (ceil32 copy / 32).

Lemma bytes_ok_replicate n b : is_byte b -> bytes_ok (replicate n b).
Proof. intros. apply Forall_replicate. done. Qed.

Lemma lenZ_replicate {A} n (b : A) : 0 <= n -> lenZ (replicate (Z.to_nat n) b) = n.
Proof. intros. unfold lenZ. rewrite length_replicate. lia. Qed.

Definition grow (mem : list Z) (n : Z) : list Z := mem ++ replicate (Z.to_nat (n - lenZ mem)) 0.

Lemma grow_ok mem n : mem_ok mem -> 0 <= n <= 2 ^ 41 -> n mod 32 = 0 ->
  mem_ok (grow mem n) /\ lenZ (grow mem n) = Z.max (lenZ mem) n.
Proof.
  intros (Hb & Hm & Hl) Hn Hn32. unfold grow, mem_ok. pose proof (lenZ_nonneg mem).
  rewrite bytes_ok_app, lenZ_app. destruct (Z.leb_spec n (lenZ mem)).
  - replace (Z.to_nat (n - lenZ mem)) with 0%nat by lia. change (lenZ (replicate 0 0)) with 0.
    rewrite Z.add_0_r. split_and!; try done; [by constructor|lia].
  - rewrite lenZ_replicate by lia. replace (lenZ mem + (n - lenZ mem)) with n by lia.
    split_and!; try done; try lia. by apply bytes_ok_replicate.
Qed.

Lemma copy_cost_small c : 0 <= c <= 2 ^ 41 ->
  u64 (copyGas sch * (u64 (c + 31) / 32)) = copyGas sch * (ceil32 c / 32)
  /\ 0 <= copyGas sch * (ceil32 c / 32) <= 2 ^ 58.
Proof.
  intros Hc. pose proof (sf_copy _ Hsched). rewrite (wrap_small 64 (c + 31)) by lia.
  unfold ceil32. rewrite Z.div_mul by lia.
  assert (0 <= (c + 31) / 32 <= 2 ^ 37) by (split; [apply Z.div_pos; lia|apply Z.div_le_upper_bound; lia]).
  rewrite wrap_small; nia.
Qed.

Lemma wp_updateGas G (Q : unit -> VM W -> Prop) s newMem :
  m_newMemSize s = ceil32 newMem -> 0 <= newMem < 2 ^ 63 + 64 -> mem_ok (m_mem s) ->
  0 <= m_io_gas s <= G -> P (m_ext s) -> 0 <= m_runGas s -> 0 <= m_copyMemSize s ->
  (newMem <= 2 ^ 41 -> m_runGas s <= 2 ^ 62 /\ m_copyMemSize s <= 2 ^ 41) ->
  (let r := m_runGas s + memCost (lenZ (m_mem s)) newMem (m_copyMemSize s) in
   newMem <= 2 ^ 41 -> r <= m_io_gas s -> Q tt (s <| m_runGas := r |>)) ->
  wp G (updateGas ctx) Q s.
Proof.
  intros Hnew Hn (Hb & Hm & Hl) HG HP Hr Hc Hpre HQ. destruct (ceil32_bounds newMem) as [Hce Hc32]; [lia|].
  pose proof (lenZ_nonneg (m_mem s)) as Hl0. unfold updateGas.
  do 2 (apply wp_bind, wp_gets). rewrite Hnew. apply wp_bind.
  assert (Hend : forall s1 d, newMem <= 2 ^ 41 -> s1 = s <| m_runGas := m_runGas s + d |> ->
    d = Z.max 0 (Cmem sch (ceil32 newMem) - Cmem sch (lenZ (m_mem s))) -> 0 <= d < 2 ^ 63 ->
    wp G (modify (fun s0 => s0 <| m_runGas := u64 (m_runGas s0 + u64 (copyGas sch * (u64 (m_copyMemSize s0 + 31) / 32))) |>) ;;
      (let! g := gets m_io_gas in let! r := gets m_runGas in if g <? r then throwOutOfGas else ret tt)) Q s1).
  { intros s1 d H41 -> Hd Hd63. destruct (Hpre H41) as [Hr62 Hc41].
    destruct (copy_cost_small (m_copyMemSize s)) as [Hcc Hcb]; [lia|].
    apply wp_bind, wp_modify. simpl. rewrite Hcc, wrap_small by lia.
    do 2 (apply wp_bind, wp_gets). simpl. apply wp_if; intros Hb'; boolify.
    - by apply wp_throw.
    - apply wp_ret. unfold memCost in HQ. rewrite <- Hd in HQ.
      replace (m_runGas s + d + copyGas sch * (ceil32 (m_copyMemSize s) / 32))
        with (m_runGas s + (d + copyGas sch * (ceil32 (m_copyMemSize s) / 32))) in * by lia.
      specialize (HQ H41 ltac:(lia)). exact HQ. }
  apply wp_if; intros Hgt; boolify.
  - apply wp_bind, wp_gasForMem; [lia|done|done|]. intros Hnb.
    assert (H41 : newMem <= 2 ^ 41).
    { destruct (Z.leb_spec newMem (2 ^ 41)); [done|]. pose proof (Cmem_big sch (ceil32 newMem) Hsched). lia. }
    apply wp_bind, wp_gasForMem; [lia|done|done|]. intros Hob.
    pose proof (Cmem_mono sch (lenZ (m_mem s)) (ceil32 newMem) Hsched ltac:(lia)).
    rewrite wrap_small by lia. apply wp_bind, wp_toInt63; [done..|]. intros _. apply wp_modify.
    destruct (Hpre H41) as [Hr62 Hc41]. rewrite wrap_small by lia. eapply Hend; [done|done|lia|lia].
  - assert (H41 : newMem <= 2 ^ 41) by lia. apply wp_ret. apply (Hend s 0 H41).
    + rewrite Z.add_0_r. by destruct s.
    + pose proof (Cmem_mono sch (ceil32 newMem) (lenZ (m_mem s)) Hsched ltac:(lia)). lia.
    + lia.
Qed.

Lemma grow_id mem n : n <= lenZ mem -> grow mem n = mem.
Proof. intros. unfold grow. replace (Z.to_nat (n - lenZ mem)) with 0%nat by lia. apply app_nil_r. Qed.

Lemma wp_updateMem G newMem (Q : unit -> VM W -> Prop) s :
  0 <= newMem < 2 ^ 63 + 64 -> mem_ok (m_mem s) ->
  0 <= m_io_gas s <= G -> P (m_ext s) -> 0 <= m_runGas s -> 0 <= m_copyMemSize s ->
  (newMem <= 2 ^ 41 -> m_runGas s <= 2 ^ 62 /\ m_copyMemSize s <= 2 ^ 41) ->
  (let n := ceil32 newMem in
   let r := m_runGas s + memCost (lenZ (m_mem s)) newMem (m_copyMemSize s) in
   newMem <= 2 ^ 41 -> r <= m_io_gas s -> mem_ok (grow (m_mem s) n) ->
   lenZ (grow (m_mem s) n) = Z.max (lenZ (m_mem s)) n ->
   Q tt (s <| m_newMemSize := n |> <| m_runGas := r |> <| m_mem := grow (m_mem s) n |>)) ->
  wp G (updateMem ctx newMem) Q s.
Proof.
  intros Hn Hmem HG HP Hr Hc Hpre HQ. destruct (ceil32_bounds newMem) as [Hce Hc32]; [lia|].
  unfold updateMem. apply wp_bind, wp_modify.
  rewrite (wrap_small 64 (newMem + 31)) by lia. fold (ceil32 newMem). rewrite wrap_small by lia.
  apply wp_bind. apply (wp_updateGas G _ _ newMem); try done. cbv zeta. intros H41 Hle.
  pose proof (ceil32_le newMem (2 ^ 36) ltac:(lia)) as Hc41.
  assert (Hg := grow_ok (m_mem s) (ceil32 newMem) Hmem ltac:(lia) Hc32).
  do 2 (apply wp_bind, wp_gets). simpl. apply wp_if; intros Hb; boolify.
  - apply wp_modify. apply HQ; done || apply Hg.
  - apply wp_ret. cbv zeta in HQ. rewrite (grow_id (m_mem s)) in HQ by lia.
    specialize (HQ H41 Hle Hmem ltac:(lia)). by destruct s.
Qed.

End Logic.
