(* ===== verification/LegacyVMSafety.v ===== *)
(** * Safety and termination of the interpreter

    The invariant [inv] holds between instructions: the stack holds at most 1024 words, the
    memory is a whole number of words, the program counter lies within the extended code, gas
    fits in 64 bits.  Every instruction preserves it, performs no access out of bounds and
    strictly decreases the gas; so an execution always ends, within a number of rounds that
    is linear in the gas. *)

From S2P Require Import Prelude CommonData Instruction EVMSchedule Words ExtVMFace LegacyVM LegacyVMJumps LegacyVMLogic.
From Stdlib Require Import ZArith Lia Bool.
From stdpp Require Import base list list_numbers.
Open Scope Z_scope.
Open Scope vm_scope.

#[local] Arguments Z.pow _ _ : simpl never.
#[local] Arguments Z.add _ _ : simpl never.
#[local] Arguments Z.sub _ _ : simpl never.
#[local] Arguments Z.mul _ _ : simpl never.
#[local] Arguments Z.max _ _ : simpl never.
#[local] Arguments Z.min _ _ : simpl never.
#[local] Arguments Z.to_nat _ : simpl never.
#[local] Arguments lenZ _ _ : simpl never.
#[local] Arguments wrap _ _ : simpl never.

(** ** Results of word operations are words *)

Lemma is_u256_small z : 0 <= z < 2 ^ 64 -> is_u256 z.
Proof. unfold is_u256. lia. Qed.
Lemma s2u_u256 z : is_u256 (s2u z).
Proof. unfold s2u. destruct (0 <=? z); apply wrap_u256. Qed.
Lemma if_u256 (b : bool) x y : is_u256 x -> is_u256 y -> is_u256 (if b then x else y).
Proof. by destruct b. Qed.
Lemma zero_u256 : is_u256 0.
Proof. unfold is_u256. lia. Qed.
Lemma one_u256 : is_u256 1.
Proof. unfold is_u256. lia. Qed.
#[export] Hint Resolve wrap_u256 s2u_u256 b2z_u256 land_u256 lor_u256 lxor_u256 allbits_u256
  shiftr_u256 if_u256 zero_u256 one_u256 is_u256_small : skaled.

Definition word1 (f : Z -> Z) : Prop := forall a, is_u256 a -> is_u256 (f a).
Definition word2 (f : Z -> Z -> Z) : Prop := forall a b, is_u256 a -> is_u256 b -> is_u256 (f a b).
Definition word3 (f : Z -> Z -> Z -> Z) : Prop :=
  forall a b c, is_u256 a -> is_u256 b -> is_u256 c -> is_u256 (f a b c).

Lemma arith_words : word2 v_ADD /\ word2 v_MUL /\ word2 v_SUB /\ word2 v_DIV /\ word2 v_SDIV /\
  word2 v_MOD /\ word2 v_SMOD /\ word1 v_NOT /\ word2 v_LT /\ word2 v_GT /\ word2 v_SLT /\
  word2 v_SGT /\ word2 v_EQ /\ word1 v_ISZERO /\ word2 v_AND /\ word2 v_OR /\ word2 v_XOR /\
  word3 v_ADDMOD /\ word3 v_MULMOD.
Proof. split_and!; intros; repeat intro; cbv beta delta [v_ADD v_MUL v_SUB v_DIV v_SDIV v_MOD v_SMOD
  v_NOT v_LT v_GT v_SLT v_SGT v_EQ v_ISZERO v_AND v_OR v_XOR v_ADDMOD v_MULMOD divWorkaround_u modWorkaround_u];
  eauto 6 with skaled. Qed.

Lemma shift_words : word2 v_BYTE /\ word2 v_SHL /\ word2 v_SHR /\ word2 v_SAR /\ word2 v_SIGNEXTEND /\ word2 exp256.
Proof.
  assert (Hw : forall z, 0 <= u32 z) by (intros; apply (wrap_range 32); lia).
  assert (H255 : is_u256 0xff) by (unfold is_u256; lia).
  split_and!; intros a b Ha Hb.
  - unfold v_BYTE. auto 6 with skaled.
  - unfold v_SHL. auto with skaled.
  - unfold v_SHR. auto with skaled.
  - unfold v_SAR. auto 8 with skaled.
  - unfold v_SIGNEXTEND. auto 8 with skaled.
  - unfold exp256. rewrite exp256_loop_spec; [apply Z.mod_pos_bound; lia|exact Hb|lia].
Qed.

Lemma fromBigEndian_word bs : bytes_ok bs -> is_u256 (fromBigEndian 256 bs).
Proof. intros. rewrite fromBigEndian_unbe by (done || lia). apply wrap_u256. Qed.

(** Reads within a buffer are defined. *)
Lemma readBuffer_in {W} dat off n (s : VM W) : 0 <= off -> 0 <= n -> off + n <= lenZ dat ->
  readBuffer dat off n s = (Ok (takeZ n (dropZ off dat)), s).
Proof.
  intros Ho Hn Hl. unfold readBuffer. destruct (Z.eqb_spec n 0) as [->|]; [done|]. by destruct (Z.leb_spec (off + n) (lenZ dat)); [|lia].
Qed.
Lemma nthZ_beyond l i : lenZ l <= i -> nthZ l i = 0.
Proof. intros. unfold nthZ, lenZ in *. apply nth_overflow. lia. Qed.
Lemma takeZ_1_dropZ (dat : list Z) i : 0 <= i < lenZ dat -> takeZ 1 (dropZ i dat) = [nthZ dat i].
Proof.
  intros Hi. unfold takeZ, dropZ, nthZ, lenZ in *. change (Z.to_nat 1) with 1%nat.
  destruct (lookup_lt_is_Some_2 dat (Z.to_nat i)) as [x Hx]; [lia|]. rewrite (drop_S _ _ _ Hx). simpl. f_equal.
  symmetry. apply nth_lookup_Some with (1 := Hx).
Qed.
Lemma callDataLoop_reads {W} dat n i (s : VM W) : 0 <= i ->
  callDataLoop dat n i s = (Ok (map (nthZ dat) (seqZ i (Z.of_nat n))), s).
Proof.
  revert i. induction n as [|n IH]; intros i Hi; [done|]. cbn [callDataLoop]. unfold LegacyVM.bind, LegacyVM.ret.
  assert (Hb : (if i <? lenZ dat then readBuffer dat i 1 else LegacyVM.ret [0]) s = (Ok [nthZ dat i], s)).
  { destruct (Z.ltb_spec i (lenZ dat)); [rewrite readBuffer_in, takeZ_1_dropZ by lia; done|]. by rewrite nthZ_beyond. }
  unfold LegacyVM.ret in Hb. rewrite Hb, IH by lia. rewrite (seqZ_cons i (Z.of_nat (S n))) by lia.
  replace (Z.pred (Z.of_nat (S n))) with (Z.of_nat n) by lia. done.
Qed.
(** CALLDATALOAD never reads beyond the call data, whatever its argument. *)
Lemma callDataWord_reads {W} dat i (s : VM W) : buffer_ok dat -> is_u256 i ->
  exists w, is_u256 w /\ callDataWord dat i s = (Ok w, s).
Proof.
  intros [Hb Hl] [Hi Hi']. unfold callDataWord. rewrite (wrap_small 512) by lia. pose proof (lenZ_nonneg dat).
  destruct (Z.ltb_spec (i + 31) (lenZ dat)); [|rewrite Z.geb_leb; destruct (Z.leb_spec (lenZ dat) i)].
  - unfold LegacyVM.bind. rewrite (wrap_small 64) by lia. rewrite readBuffer_in by lia.
    eexists. split; [|reflexivity]. apply fromBigEndian_word. auto with skaled.
  - exists 0. split; [unfold is_u256; lia|done].
  - unfold LegacyVM.bind. rewrite (wrap_small 64) by lia. rewrite callDataLoop_reads by lia.
    eexists. split; [|reflexivity]. apply fromBigEndian_word, List.Forall_forall.
    intros x Hx. apply in_map_iff in Hx as (k & <- & _). auto with skaled.
Qed.

Lemma firstBitSet_bound bs : 0 <= firstBitSet bs <= 8 * lenZ bs.
Proof.
  assert (Hb : forall f d, 0 <= byteLead f d <= Z.of_nat f).
  { induction f as [|f IH]; intros d; cbn [byteLead]; [lia|]. destruct (Z.testbit d 7); [lia|].
    specialize (IH (u8 (Z.shiftl d 1))). lia. }
  induction bs as [|d bs IH]; cbn [firstBitSet]; [done|]. rewrite lenZ_cons.
  destruct (d =? 0); [lia|]. specialize (Hb 8%nat d). pose proof (lenZ_nonneg bs). lia.
Qed.

Section Safety.
Context {W : Type} `{!ExtVMFace W}.
Variable sha3 : list Z -> Z.
Hypothesis sha3_word : forall bs, is_u256 (sha3 bs).
Variable ctx : ExtCtx.
Hypothesis Hctx : ctx_ok ctx.
(** The invariant of the environment. *)
Context (P : ExtState W -> Prop) `{!ExtVMLaws ctx P}.
Abbreviation wp := (LegacyVMLogic.wp P).
Abbreviation data_ok := buffer_ok.
Variable tierOob : Z.
Hypothesis Htier : 0 <= tierOob < 2 ^ 32.
Abbreviation sch := (evmSchedule ctx).
Let Hsched : sched_facts sch := schedule_ok_facts sch (ctx_schedule ctx Hctx).

(** ** The invariant between instructions *)

Definition code_ok (s : VM W) : Prop :=
  m_code s = fst (optimize (code ctx) []) /\ m_jumpDests s = snd (optimize (code ctx) []).
Definition stack_ok (l : list Z) : Prop := Forall is_u256 l /\ lenZ l <= 1024.

Record inv (s : VM W) : Prop := {
  i_gas : 0 <= m_io_gas s < 2 ^ 64;
  i_stack : stack_ok (m_SPP s);
  i_mem : mem_ok (m_mem s);
  i_code : code_ok s;
  i_pc : 0 <= m_PC s < lenZ (code ctx) + 33;
  i_rd : data_ok (m_returnData s);
  i_out : data_ok (m_output s);
  i_ext : P (m_ext s)
}.

(** After the fetch of [op], which takes [k] arguments and leaves [r] results. *)
Record pre (g0 k r : Z) (op : Z) (s : VM W) : Prop := {
  p_gas : m_io_gas s = g0; p_gas0 : 0 <= g0 < 2 ^ 64;
  p_spp : stack_ok (m_SPP s); p_sppr : r <= lenZ (m_SPP s);
  p_mem : mem_ok (m_mem s); p_code : code_ok s;
  p_pc : 0 <= m_PC s < lenZ (code ctx); p_rd : data_ok (m_returnData s);
  p_op : m_OP s = op; p_sp : Forall is_u256 (m_SP s); p_args : k <= lenZ (m_SP s);
  p_run : m_runGas s = tierGas ctx tierOob (gasPriceTier (instructionInfo op));
  p_copy : m_copyMemSize s = 0; p_out : data_ok (m_output s); p_ext : P (m_ext s)
}.
Definition fetched (g0 : Z) (s : VM W) : Prop :=
  let i := instructionInfo (m_OP s) in pre g0 (args i) (Instruction.ret i) (m_OP s) s.

(** After one instruction started with [g0] gas. *)
Definition post (g0 : Z) (_ : unit) (s : VM W) : Prop :=
  match m_bounce s with
  | B_interpretCases => inv s /\ m_io_gas s < g0
  | B_caseCreate => fetched g0 s /\ (m_OP s = opcode I_CREATE \/ m_OP s = opcode I_CREATE2)
  | B_caseCall => fetched g0 s /\ (m_OP s = opcode I_CALL \/ m_OP s = opcode I_CALLCODE \/
                                   m_OP s = opcode I_DELEGATECALL \/ m_OP s = opcode I_STATICCALL)
  | B_null => 0 <= m_io_gas s <= g0 /\ data_ok (m_output s) /\ P (m_ext s)
  | B_initEntry => False
  end.

Lemma wp_setSPP0_any G v (Q : unit -> VM W -> Prop) s :
  is_u256 v -> stack_ok (m_SPP s) -> 1 <= lenZ (m_SPP s) ->
  (forall spp', stack_ok spp' -> lenZ spp' = lenZ (m_SPP s) -> Q tt (s <| m_SPP := spp' |>)) ->
  wp G (setSPP0 v) Q s.
Proof.
  intros Hv [HF Hl] H1 HQ. apply wp_setSPP0; [done|].
  assert (Hlen : lenZ (v :: tail (m_SPP s)) = lenZ (m_SPP s)).
  { destruct (m_SPP s); [change (lenZ (@nil Z)) with 0 in H1; lia|]. by rewrite !lenZ_cons. }
  apply HQ; [split; [|lia]|done]. constructor; [done|]. by apply Forall_tail.
Qed.

(** After an instruction that goes on to the next one. *)
Definition next (g0 : Z) (_ : unit) (s : VM W) : Prop :=
  m_bounce s = B_interpretCases /\ inv s /\ m_io_gas s < g0.
Lemma next_post g0 u s : next g0 u s -> post g0 u s.
Proof. intros (Hb & Hi & Hg). unfold post. by rewrite Hb. Qed.

Lemma wp_NEXT_next g0 s : m_bounce s = B_interpretCases -> 0 <= m_io_gas s < g0 -> g0 < 2 ^ 64 ->
  stack_ok (m_SPP s) -> mem_ok (m_mem s) -> code_ok s -> 0 <= m_PC s < lenZ (code ctx) ->
  data_ok (m_returnData s) -> data_ok (m_output s) -> P (m_ext s) -> wp g0 NEXT (next g0) s.
Proof.
  intros Hb Hg H64 Hst Hm Hc Hpc Hrd Hout Hext. apply wp_modify.
  pose proof (ctx_code ctx Hctx) as [_ Hlen]. rewrite wrap_small by lia.
  split; [done|]. split; [constructor; simpl; done || lia|]. simpl. lia.
Qed.
Lemma wp_NEXT g0 s : m_bounce s = B_interpretCases -> 0 <= m_io_gas s < g0 -> g0 < 2 ^ 64 ->
  stack_ok (m_SPP s) -> mem_ok (m_mem s) -> code_ok s -> 0 <= m_PC s < lenZ (code ctx) ->
  data_ok (m_returnData s) -> data_ok (m_output s) -> P (m_ext s) -> wp g0 NEXT (post g0) s.
Proof. intros. eapply wp_mono; [by apply wp_NEXT_next|]. apply next_post. Qed.

(** Memory expansion, forgetting the exact cost. *)
Lemma wp_updateMem_any G newMem (Q : unit -> VM W -> Prop) s :
  0 <= newMem < 2 ^ 63 + 64 -> mem_ok (m_mem s) ->
  0 <= m_io_gas s <= G -> P (m_ext s) -> 0 <= m_runGas s -> 0 <= m_copyMemSize s ->
  (newMem <= 2 ^ 41 -> m_runGas s <= 2 ^ 62 /\ m_copyMemSize s <= 2 ^ 41) ->
  (forall n r mem', mem_ok mem' -> newMem <= lenZ mem' -> m_runGas s <= r <= m_io_gas s ->
     Q tt (s <| m_newMemSize := n |> <| m_runGas := r |> <| m_mem := mem' |>)) ->
  wp G (updateMem ctx newMem) Q s.
Proof.
  intros Hn Hm HG HP Hr Hc Hpre HQ. apply (wp_updateMem P ctx Hsched); try done. cbv zeta.
  intros H41 Hle Hmo Hlen. pose proof (ceil32_bounds newMem ltac:(lia)).
  apply HQ; [done|lia|]. split; [|done]. pose proof (sf_copy _ Hsched) as Hcp. unfold memCost.
  assert (0 <= ceil32 (m_copyMemSize s) / 32).
  { apply Z.div_pos; [|lia]. pose proof (ceil32_bounds (m_copyMemSize s) Hc). lia. }
  nia.
Qed.

(** A slice that [memNeed] asked room for lies within the memory. *)
Lemma need_within off size n L : is_u256 off -> is_u256 size -> n = (if size =? 0 then 0 else off + size) ->
  n <= L -> u64 size = 0 \/ u64 off + u64 size <= L.
Proof.
  intros [? _] [? _] -> HL. destruct (Z.eqb_spec size 0) as [->|]; [by left|right].
  pose proof (wrap_le 64 off). pose proof (wrap_le 64 size). lia.
Qed.

Lemma mem_ok_bytes mem : mem_ok mem -> bytes_ok mem.
Proof. by intros [? _]. Qed.
Hint Resolve mem_ok_bytes : skaled.
Lemma u32_nonneg z : 0 <= u32 z.
Proof. apply (wrap_range 32). lia. Qed.
Lemma u64_nonneg z : 0 <= u64 z.
Proof. apply (wrap_range 64). lia. Qed.
Hint Resolve u32_nonneg u64_nonneg : skaled.

Lemma wp_addRefunds G d (Q : unit -> VM W -> Prop) s :
  P (m_ext s) -> (forall e, P e -> Q tt (s <| m_ext := e |>)) -> wp G (addRefunds d) Q s.
Proof.
  intros HP HQ. apply wp_modify, HQ. by apply (sub_keeps (m_ext s) (fun u => u <| refunds := i64 (refunds u + d) |>)).
Qed.

Lemma log_keeps e ts bs : P e -> P (ext_log ctx e ts bs).
Proof. apply (sub_keeps e (fun u => u <| logs := logs u ++ [mkLog (myAddress ctx) ts bs] |>)). Qed.
Hint Resolve log_keeps : skaled.

(** ** Stepping *)

Ltac side := simpl; first [assumption | done | lia | solve [eauto 6 with skaled] | unfold is_u256 in *; lia].
(** What the interface promises of a function of the environment. *)
Ltac ext := first [eassumption | apply balance_spec | apply exists_spec | apply codeAt_spec | apply suicide_spec
  | apply store_spec; side | apply original_spec; side | apply setStore_spec; side].
Ltac intro_simpl := let H := fresh "H" in intros H; simpl in H.
Ltac wp1 :=
  lazymatch goal with
  | |- wp _ (bind _ _) _ _ => apply wp_bind
  | |- wp _ (LegacyVM.ret _) _ _ => apply wp_ret
  | |- wp _ (gets _) _ _ => apply wp_gets; cbv beta
  | |- wp _ (modify _) _ _ => apply wp_modify; cbv beta
  | |- wp _ (setRunGas _) _ _ => apply wp_modify; cbv beta
  | |- wp _ (setCopyMemSize _) _ _ => apply wp_modify; cbv beta
  | |- wp _ (setExt _) _ _ => apply wp_modify; cbv beta
  | |- wp _ (setBounce _) _ _ => apply wp_modify; cbv beta
  | |- wp _ (addRefunds _) _ _ => apply wp_addRefunds; [side|intros ? ?]
  | |- wp _ (onExt _) _ _ => eapply wp_onExt; [ext|side|side|intros ? ?; intro_simpl; intro_simpl]
  | |- wp _ (throw _) _ _ => apply wp_throw; [exact I|side|side]
  | |- wp _ throwOutOfGas _ _ => apply wp_throw; [exact I|side|side]
  | |- wp _ throwBadInstruction _ _ => apply wp_throw; [exact I|side|side]
  | |- wp _ throwBadJumpDestination _ _ => apply wp_throw; [exact I|side|side]
  | |- wp _ throwDisallowedStateChange _ _ => apply wp_throw; [exact I|side|side]
  | |- wp _ throwStorageOverflow _ _ => apply wp_throw; [exact I|side|side]
  | |- wp _ (throwRevertInstruction _) _ _ => apply wp_throw; [side|side|side]
  | |- wp _ throwBufferOverrun _ _ => unfold throwBufferOverrun
  | |- wp _ onOperation _ _ => apply wp_onOperation; intros ? ?
  | |- wp _ (toInt63 _) _ _ => apply wp_toInt63; [side|side|intro_simpl]
  | |- wp _ (sp _) _ _ => apply wp_sp; [side|side|intros ? ?; intro_simpl]
  | |- wp _ updateIOGas _ _ => apply wp_updateIOGas; [side|side|side|side|intro_simpl]
  | |- wp _ (memNeed _ _) _ _ => apply wp_memNeed; [side|side|side|side|intros ?; intro_simpl; intro_simpl]
  | |- wp _ (updateMem _ _) _ _ =>
      apply wp_updateMem_any; [side|side|side|side|side|side|simpl; intros ?; split; side
                              |intros ? ? ?; intro_simpl; intro_simpl; intro_simpl]
  | |- wp _ (readMem (u64 _) (u64 _)) _ _ =>
      apply wp_readMem; [side|side|simpl; eapply need_within; [| |eassumption|]; side|side
                        |intros ?; intro_simpl; intro_simpl; intros _]
  | |- wp _ (setSPP0 _) _ _ => apply wp_setSPP0_any; [side|side|side|intros ?; intro_simpl; intro_simpl]
  | |- wp _ NEXT (post _) _ => apply wp_NEXT; [side..]
  | |- wp _ NEXT (next _) _ => apply wp_NEXT_next; [side..]
  | |- wp _ (if _ then _ else _) _ _ => apply wp_if; intros ?; boolify
  end.
Ltac go := repeat (wp1; cbv beta).
(** Stop before the next expansion of memory, or read of memory. *)
Ltac to_updateMem := repeat (lazymatch goal with |- wp _ (updateMem _ _) _ _ => fail | _ => idtac end; wp1; cbv beta).
Ltac unpack H := destruct H as [Hgas Hgas0 Hspp Hsppr Hmem Hcode Hpc Hrd Hop Hsp Hargs Hrun Hcopy Hout Hext].
(** All numeric facts about the schedule. *)
Ltac sched := destruct Hsched as [? ? ? ? ? ? ? ? ? ? ? ? ? ? ? ? ? ? ? ? ? ? ? ? ? ?].

Section Cases.
Variables (g0 op : Z) (s : VM W).
Hypothesis Hbounce : m_bounce s = B_interpretCases.

Lemma unop_ok f : word1 f -> pre g0 1 1 op s -> 1 <= m_runGas s -> wp g0 (unop f) (post g0) s.
Proof. intros Hf H Hr. unpack H. unfold unop. go. Qed.
Lemma binop_ok f : word2 f -> pre g0 2 1 op s -> 1 <= m_runGas s -> wp g0 (binop f) (post g0) s.
Proof. intros Hf H Hr. unpack H. unfold binop. go. Qed.
Lemma ternop_ok f : word3 f -> pre g0 3 1 op s -> 1 <= m_runGas s -> wp g0 (ternop f) (post g0) s.
Proof. intros Hf H Hr. unpack H. unfold ternop. go. Qed.
Lemma shiftop_ok f : word2 f -> pre g0 2 1 op s -> 1 <= m_runGas s -> wp g0 (shiftop ctx f) (post g0) s.
Proof. intros Hf H Hr. unpack H. unfold shiftop, binop. go. Qed.
Lemma pushEnv_ok v : is_u256 v -> pre g0 0 1 op s -> 1 <= m_runGas s -> wp g0 (pushEnv v) (post g0) s.
Proof. intros Hv H Hr. unpack H. unfold pushEnv. go. Qed.
Lemma worldRead_ok fee f : (forall a, is_u256 a -> ext_spec P is_u256 (f a)) -> 1 <= fee -> pre g0 1 1 op s ->
  wp g0 (worldRead fee f) (post g0) s.
Proof. intros Hf Hfee H. unpack H. unfold worldRead. go.
  eapply wp_onExt; [by apply Hf|side|side|intros ? ?; intro_simpl; intro_simpl]. go. Qed.
Lemma CHAINID_ok : pre g0 0 1 op s -> 1 <= m_runGas s -> wp g0 (case_CHAINID ctx) (post g0) s.
Proof. intros H Hr. unpack H. pose proof (ctx_env ctx Hctx) as (_ & _ & _ & _ & _ & ?). unfold case_CHAINID. go. Qed.
Lemma SELFBALANCE_ok : pre g0 0 1 op s -> 1 <= m_runGas s -> wp g0 (case_SELFBALANCE ctx) (post g0) s.
Proof. intros H Hr. unpack H. unfold case_SELFBALANCE. go. Qed.
Lemma EXTCODEHASH_ok : pre g0 1 1 op s -> wp g0 (case_EXTCODEHASH ctx) (post g0) s.
Proof.
  intros H. unfold case_EXTCODEHASH. apply wp_if; intros Hb.
  - unpack H. go.
  - apply worldRead_ok; [intros a _; apply codeHashAt_spec|apply (sf_ech _ Hsched)|done].
Qed.
Lemma RETURNDATASIZE_ok : pre g0 0 1 op s -> 1 <= m_runGas s -> wp g0 (case_RETURNDATASIZE ctx) (post g0) s.
Proof.
  intros H Hr. unpack H. assert (is_u256 (lenZ (m_returnData s))).
  { destruct Hrd as [_ ?]. pose proof (lenZ_nonneg (m_returnData s)). unfold is_u256. lia. }
  unfold case_RETURNDATASIZE. go.
Qed.
Lemma wp_callDataWord dat i (Q : Z -> VM W -> Prop) s' : data_ok dat -> is_u256 i -> (forall w, is_u256 w -> Q w s') ->
  wp g0 (callDataWord dat i) Q s'.
Proof. intros Hd Hi HQ. destruct (callDataWord_reads dat i s' Hd Hi) as (w & Hw & He). unfold LegacyVMLogic.wp. rewrite He. auto. Qed.
Lemma wp_readBuffer dat off n (Q : list Z -> VM W -> Prop) s' : 0 <= off -> 0 <= n -> off + n <= lenZ dat ->
  Q (takeZ n (dropZ off dat)) s' -> wp g0 (readBuffer dat off n) Q s'.
Proof. intros ? ? ? HQ. unfold LegacyVMLogic.wp. by rewrite readBuffer_in. Qed.
Lemma CALLDATALOAD_ok : pre g0 1 1 op s -> 1 <= m_runGas s -> wp g0 (case_CALLDATALOAD ctx) (post g0) s.
Proof.
  intros H Hr. unpack H. pose proof (ctx_data ctx Hctx) as Hd. unfold case_CALLDATALOAD.
  do 7 wp1. apply wp_callDataWord; [done|done|]. intros w Hw. go.
Qed.
Lemma EXP_ok : pre g0 2 1 op s -> wp g0 (case_EXP ctx) (post g0) s.
Proof.
  intros H. unpack H. sched. pose proof (proj2 (proj2 (proj2 (proj2 (proj2 shift_words))))) as Hw.
  assert (Hg : forall e, 1 <= u32 (expGas sch + u32 (expByteGas sch * u32 (32 - firstBitSet (toBigEndian 32 e) / 8)))).
  { intros e. pose proof (firstBitSet_bound (toBigEndian 32 e)) as Hf. rewrite toBigEndian_lenZ in Hf.
    assert (0 <= firstBitSet (toBigEndian 32 e) / 8 <= 32) by (split; [apply Z.div_pos; lia|apply Z.div_le_upper_bound; lia]).
    rewrite (wrap_small 32 (32 - _)), (wrap_small 32 (expByteGas _ * _)), wrap_small; nia. }
  unfold case_EXP. wp1. wp1. wp1. specialize (Hg v). generalize dependent (u32 (expGas sch + u32 (expByteGas sch * u32 (32 - firstBitSet (toBigEndian 32 v) / 8)))).
  intros g Hg. go.
Qed.

(** Instructions that expand memory. *)
Lemma MLOAD_ok : pre g0 1 1 op s -> 1 <= m_runGas s <= 100 -> wp g0 (case_MLOAD ctx) (post g0) s.
Proof.
  intros H Hr. unpack H. unfold case_MLOAD. do 4 wp1. destruct H as [H H'].
  rewrite (wrap_small 64) by lia. go.
  pose proof (wrap_le 32 v ltac:(lia)). apply wp_readMem; [side|side|right; side|side|].
  intros bs Hbs _ _. pose proof (fromBigEndian_word bs Hbs). go.
Qed.
Lemma MSTORE_ok : pre g0 2 0 op s -> 1 <= m_runGas s <= 100 -> wp g0 (case_MSTORE ctx) (post g0) s.
Proof.
  intros H Hr. unpack H. unfold case_MSTORE. do 4 wp1. destruct H as [H H'].
  rewrite (wrap_small 64) by lia. go.
  pose proof (wrap_le 32 v ltac:(lia)). apply wp_writeMem; [side|right; rewrite toBigEndian_lenZ; side|side|apply toBigEndian_ok|].
  intros mem'' Hb Hl. simpl in Hl. assert (mem_ok mem'') by (unfold mem_ok in *; rewrite Hl; naive_solver). go.
Qed.
Lemma MSTORE8_ok : pre g0 2 0 op s -> 1 <= m_runGas s <= 100 -> wp g0 (case_MSTORE8 ctx) (post g0) s.
Proof.
  intros H Hr. unpack H. unfold case_MSTORE8. do 4 wp1. destruct H as [H H'].
  rewrite (wrap_small 64) by lia. go.
  pose proof (wrap_le 32 v ltac:(lia)). apply wp_writeMem; [side|right; change (lenZ [_]) with 1; side|side| |].
  { constructor; [|constructor]. apply (wrap_range 8). lia. }
  intros mem'' Hb Hl. simpl in Hl. assert (mem_ok mem'') by (unfold mem_ok in *; rewrite Hl; naive_solver). go.
Qed.
Lemma words_cost_bound n c : 0 <= n <= 2 ^ 41 -> 0 <= c < 2 ^ 20 -> 0 <= (n + 31) / 32 * c <= 2 ^ 57.
Proof.
  intros. assert (0 <= (n + 31) / 32 <= 2 ^ 37) by (split; [apply Z.div_pos; lia|apply Z.div_le_upper_bound; lia]). nia.
Qed.
Lemma words_cost_wrap n c d : is_u256 n -> 0 <= c < 2 ^ 20 -> 0 <= d < 2 ^ 20 ->
  wrap 512 (d + (n + 31) / 32 * c) = d + (n + 31) / 32 * c /\ 0 <= (n + 31) / 32 * c.
Proof.
  intros [? ?] ? ?. assert (0 <= (n + 31) / 32 <= 2 ^ 256) by (split; [apply Z.div_pos; lia|apply Z.div_le_upper_bound; lia]).
  split; [apply wrap_small|]; nia.
Qed.
Lemma need_size off size n : is_u256 off -> n = (if size =? 0 then 0 else off + size) -> n <= 2 ^ 41 -> size <= 2 ^ 41.
Proof. intros [? _] -> ?. destruct (Z.eqb_spec size 0); lia. Qed.
Lemma SHA3_ok : pre g0 2 1 op s -> wp g0 (case_SHA3 sha3 ctx) (post g0) s.
Proof.
  intros H. unpack H. sched. unfold case_SHA3. do 4 wp1.
  destruct (words_cost_wrap v0 (sha3WordGas sch) (sha3Gas sch)) as [-> Hc]; [done|lia|lia|]. to_updateMem.
  apply wp_updateMem_any; [side|side|side|side|side|side| |intros ? ? ?; intro_simpl; intro_simpl; intro_simpl; go].
  simpl. intros H41. split; [|lia]. pose proof (need_size v v0 n H ltac:(assumption) H41).
  pose proof (words_cost_bound v0 (sha3WordGas sch)). destruct H1. lia.
Qed.
Lemma topicsFrom_ok (Q : list Z -> VM W -> Prop) k i s' : 0 <= i -> Forall is_u256 (m_SP s') -> i + Z.of_nat k <= lenZ (m_SP s') ->
  (forall ts, Forall is_u256 ts -> Q ts s') -> wp g0 (topicsFrom i k) Q s'.
Proof.
  revert i Q. induction k as [|k IH]; intros i Q Hi HF Hl HQ; simpl.
  - apply wp_ret, HQ. constructor.
  - wp1. apply wp_sp; [done|lia|]. intros v Hv _. wp1. apply IH; [lia|done|lia|]. intros ts Hts. wp1. apply HQ. by constructor.
Qed.

Lemma LOG_ok k : (k <= 4)%nat -> op = opcode I_LOG0 + Z.of_nat k -> pre g0 (2 + Z.of_nat k) 0 op s ->
  wp g0 (case_LOG ctx k) (post g0) s.
Proof.
  intros Hk Hopk H. unpack H. sched. unfold case_LOG, staticGuard. apply wp_if; intros Hst; [go|].
  unfold logGasMem. wp1. wp1. wp1. rewrite Hop, Hopk.
  replace (opcode I_LOG0 + Z.of_nat k - opcode I_LOG0) with (Z.of_nat k) by lia.
  wp1. wp1. pose proof H as [Hv0 Hv1].
  rewrite (wrap_small 32 (logTopicGas sch * _)), (wrap_small 32), (wrap_small 512 (logDataGas sch * v)), (wrap_small 512) by nia.
  to_updateMem.
  apply wp_updateMem_any; [side|side|side|side|simpl; nia|side| |intros ? ? ?; intro_simpl; intro_simpl; intro_simpl].
  { simpl. intros H41. split; [|lia]. pose proof (need_size v0 v n ltac:(assumption) ltac:(assumption) H41). nia. }
  assert (1 <= r) by nia. cbv beta. go. apply topicsFrom_ok; [lia|side|side|]. intros ts Hts. go.
  assert (v1 = v0) as -> by congruence. assert (v2 = v) as -> by congruence. go.
Qed.
Lemma takeOutput_ok b n L (Q : list Z -> VM W -> Prop) s' : lenZ (m_mem s') = L -> u64 n = 0 \/ u64 b + u64 n <= L -> mem_ok (m_mem s') ->
  (forall out, data_ok out -> Q out (s' <| m_mem := [] |>)) -> wp g0 (takeOutput (u64 b) (u64 n)) Q s'.
Proof.
  intros <- Hn Hm HQ. unfold takeOutput. wp1. apply wp_readMem; [side|side|done|side|]. intros bs Hbs Hl _. do 3 wp1.
  apply HQ. split; [done|]. destruct Hm as (_ & _ & ?). pose proof (u64_nonneg b). lia.
Qed.
Lemma RETURN_ok : pre g0 2 0 op s -> 0 <= m_runGas s <= 100 -> wp g0 (case_RETURN ctx) (post g0) s.
Proof.
  intros H Hr. unpack H. unfold case_RETURN. go.
  eapply takeOutput_ok; [done|simpl; eapply need_within; [| |eassumption|]; side|side|].
  intros out Hdat. do 3 wp1. unfold post. simpl. split; [lia|done].
Qed.
Lemma REVERT_ok : pre g0 2 0 op s -> 0 <= m_runGas s <= 100 -> wp g0 (case_REVERT ctx) (post g0) s.
Proof.
  intros H Hr. unpack H. unfold case_REVERT. apply wp_if; intros Hb; go.
  eapply takeOutput_ok; [done|simpl; eapply need_within; [| |eassumption|]; side|side|].
  intros out Hdat. go.
Qed.
Lemma STOP_ok : m_io_gas s = g0 -> 0 <= g0 < 2 ^ 64 -> m_runGas s = 0 -> data_ok (m_output s) -> P (m_ext s) ->
  wp g0 case_STOP (post g0) s.
Proof. intros Hg Hg0 Hr Hout Hext. unfold case_STOP. go. unfold post. simpl. split; [lia|done]. Qed.
Lemma SUICIDE_ok : pre g0 1 0 op s -> wp g0 (case_SUICIDE ctx) (post g0) s.
Proof.
  intros H. unpack H. sched. unfold case_SUICIDE, staticGuard. apply wp_if; intros Hst; [go|].
  pose proof (u64_nonneg (suicideGas sch + callNewAccountGas sch)).
  go; unfold post; simpl; (split; [lia|done]).
Qed.
Lemma STATICGUARD_CREATE_ok : fetched g0 s -> m_OP s = opcode I_CREATE \/ m_OP s = opcode I_CREATE2 ->
  wp g0 (staticGuard ctx (setBounce B_caseCreate)) (post g0) s.
Proof.
  intros H Ho. unfold staticGuard. apply wp_if; intros Hst.
  - unfold fetched in H. unpack H. go.
  - wp1. unfold post. simpl. split; [|done]. unfold fetched in *. simpl. by destruct H.
Qed.
Lemma CREATE2_ok : fetched g0 s -> m_OP s = opcode I_CREATE2 -> wp g0 (case_CREATE2 ctx) (post g0) s.
Proof.
  intros H Ho. unfold case_CREATE2. apply wp_if; intros Hst; [|apply STATICGUARD_CREATE_ok; auto].
  unfold fetched in H. unpack H. go.
Qed.
Lemma CALLs_ok : fetched g0 s -> m_OP s = opcode I_CALL \/ m_OP s = opcode I_CALLCODE \/ m_OP s = opcode I_DELEGATECALL \/ m_OP s = opcode I_STATICCALL ->
  wp g0 (case_CALLs ctx) (post g0) s.
Proof.
  intros H Ho. assert (Hk : 3 <= lenZ (m_SP s)).
  { unfold fetched in H. unpack H. assert (3 <= args (instructionInfo (m_OP s))) by
      (destruct Ho as [E|[E|[E|E]]]; rewrite E; vm_compute; discriminate). lia. }
  assert (Hend : forall n t, post g0 tt (s <| m_nSteps := n |> <| m_trace := t |> <| m_bounce := B_caseCall |>)).
  { intros n t. unfold post. simpl. split; [|done]. unfold fetched in *. simpl. by destruct H. }
  unfold fetched in H. unpack H. unfold case_CALLs. go; apply Hend.
Qed.

(** Copying to memory stays within the memory asked for, whatever the index into the data. *)
Lemma copy_sizes dlen bigIndex size : 0 <= dlen < 2 ^ 63 -> 0 <= bigIndex -> 0 <= size < 2 ^ 63 ->
  let c := if bigIndex + size >? dlen then (if dlen <? bigIndex then 0 else u64 (dlen - u64 bigIndex)) else size in
  0 <= c <= size /\ (0 < c -> u64 bigIndex = bigIndex /\ bigIndex + c <= dlen).
Proof.
  intros Hd Hi Hs. cbv zeta. rewrite Z.gtb_ltb. destruct (Z.ltb_spec dlen (bigIndex + size)).
  - destruct (Z.ltb_spec dlen bigIndex); [lia|]. rewrite (wrap_small 64 bigIndex), wrap_small by lia. lia.
  - rewrite wrap_small by lia. lia.
Qed.
Lemma mem_ok_len mem mem' : mem_ok mem -> bytes_ok mem' -> lenZ mem' = lenZ mem -> mem_ok mem'.
Proof. unfold mem_ok. intros (_ & ? & ?) ? ->. done. Qed.
Lemma copy_ok dat o i n need (Q : unit -> VM W -> Prop) s' :
  data_ok dat -> is_u256 o -> is_u256 i -> is_u256 n -> n < 2 ^ 63 -> need < 2 ^ 63 ->
  need = (if n =? 0 then 0 else o + n) -> need <= lenZ (m_mem s') -> mem_ok (m_mem s') ->
  (forall mem', mem_ok mem' -> lenZ mem' = lenZ (m_mem s') -> Q tt (s' <| m_mem := mem' |>)) ->
  wp g0 (copyDataToMemory dat o i n) Q s'.
Proof.
  intros [Hdb Hdl] [Ho _] [Hi _] [Hn _] Hn63 Hneed63 Hneed HneedL Hm HQ. unfold copyDataToMemory. cbn zeta.
  rewrite (wrap_small 64 n) by lia.
  pose proof (copy_sizes (lenZ dat) i n ltac:(pose proof (lenZ_nonneg dat); lia) Hi ltac:(lia)) as Hc. cbv zeta in Hc.
  set (c := if i + n >? lenZ dat then _ else _) in *. clearbody c. destruct Hc as [Hc Hci].
  assert (Hin : n = 0 \/ u64 o = o /\ o + n <= lenZ (m_mem s')).
  { destruct (Z.eqb_spec n 0); [by left|right]. rewrite wrap_small by lia. lia. }
  assert (Hzero : forall s1 mem1, s1 = s' <| m_mem := mem1 |> -> mem_ok mem1 -> lenZ mem1 = lenZ (m_mem s') ->
    wp g0 (if n >? c then writeMem (u64 o + c) (replicate (Z.to_nat (n - c)) 0) else LegacyVM.ret tt) Q s1).
  { intros s1 mem1 -> Hm1 Hl1. apply wp_if; intros Hb; boolify.
    - apply wp_writeMem; [side|rewrite lenZ_replicate by lia; simpl; destruct Hin as [?|[-> ?]]; lia|side|by apply bytes_ok_replicate|].
      intros mem2 Hb2 Hl2. simpl in Hl2. apply (HQ mem2); [|lia]. by apply (mem_ok_len mem1).
    - apply wp_ret. by apply (HQ mem1). }
  wp1. apply wp_if; intros Hb; boolify.
  - destruct (Hci Hb) as [-> Hle]. assert (Hlt : lenZ (takeZ c (dropZ i dat)) = c).
    { rewrite lenZ_takeZ; [done|]. rewrite lenZ_dropZ by lia. lia. }
    wp1. apply wp_readBuffer; [lia|lia|lia|]. apply wp_writeMem; [side|rewrite Hlt; destruct Hin as [?|[-> ?]]; lia|side|auto with skaled|].
    intros mem1 Hb1 Hl1. eapply Hzero; [done|by apply (mem_ok_len (m_mem s'))|done].
  - wp1. apply (Hzero s' (m_mem s')); [by destruct s'|done|done].
Qed.

Ltac copy_case Hd :=
  to_updateMem;
  apply wp_updateMem_any; [side|side|side|side|side|side|simpl; intros ?; split; [lia|by eapply need_size]
                          |intros ? ? ?; intro_simpl; intro_simpl; intro_simpl; go];
  match goal with H : ?n = (if _ =? 0 then 0 else _) |- _ => eapply (copy_ok _ _ _ _ n) end;
  [(exact Hd || assumption)|side|side|side|side|side|eassumption|side|side|];
  intros ? ?; intro_simpl; go.

Lemma CALLDATACOPY_ok : pre g0 3 0 op s -> 1 <= m_runGas s <= 100 -> wp g0 (case_CALLDATACOPY ctx) (post g0) s.
Proof.
  intros H Hr. unpack H. pose proof (ctx_data ctx Hctx) as Hd. unfold case_CALLDATACOPY. copy_case Hd.
Qed.
Lemma CODECOPY_ok : pre g0 3 0 op s -> 1 <= m_runGas s <= 100 -> wp g0 (case_CODECOPY ctx) (post g0) s.
Proof.
  intros H Hr. unpack H. assert (Hd : data_ok (code ctx)) by (destruct (ctx_code ctx Hctx); split; [done|lia]).
  unfold case_CODECOPY. copy_case Hd.
Qed.
Lemma RETURNDATACOPY_ok : pre g0 3 0 op s -> 1 <= m_runGas s <= 100 -> wp g0 (case_RETURNDATACOPY ctx) (post g0) s.
Proof.
  intros H Hr. unpack H. unfold case_RETURNDATACOPY. apply wp_if; intros Hb; [go|]. copy_case Hrd.
Qed.
Lemma EXTCODECOPY_ok : pre g0 4 0 op s -> wp g0 (case_EXTCODECOPY ctx) (post g0) s.
Proof.
  intros H. unpack H. sched. unfold case_EXTCODECOPY. copy_case Hrd.
Qed.

(** Instructions that set the program counter themselves. *)
Lemma post_inv s' : m_bounce s' = B_interpretCases -> 0 <= m_io_gas s' < g0 -> g0 < 2 ^ 64 -> stack_ok (m_SPP s') ->
  mem_ok (m_mem s') -> code_ok s' -> 0 <= m_PC s' < lenZ (code ctx) + 33 -> data_ok (m_returnData s') -> data_ok (m_output s') ->
  P (m_ext s') -> post g0 tt s'.
Proof. intros Hb Hg H64 Hst Hm Hc Hp Hd Ho He. unfold post. rewrite Hb. split; [|lia]. constructor; done || lia. Qed.

Lemma code_facts s' : code_ok s' -> bytes_ok (m_code s') /\ lenZ (m_code s') = lenZ (code ctx) + 33 /\
  (forall i, lenZ (code ctx) <= i < lenZ (code ctx) + 33 -> nthZ (m_code s') i = 0).
Proof.
  intros [-> _]. destruct (optimize_spec (code ctx)) as (pc' & _ & Hs); [apply (ctx_code ctx Hctx)|].
  split_and!; [apply (so_bytes _ _ _ _ Hs)|apply (so_len _ _ _ _ Hs)|apply (so_tail _ _ _ _ Hs)].
Qed.
Lemma POP_ok : pre g0 1 0 op s -> 1 <= m_runGas s -> wp g0 case_POP (post g0) s.
Proof. intros H Hr. unpack H. unfold case_POP. go. Qed.
Lemma PUSH0_ok : pre g0 0 1 op s -> 1 <= m_runGas s -> wp g0 (case_PUSH0 ctx) (post g0) s.
Proof.
  intros H Hr. unpack H. pose proof (ctx_code ctx Hctx) as [_ ?]. unfold case_PUSH0. go.
  apply post_inv; simpl; rewrite ?wrap_small by lia; done || lia.
Qed.
Lemma pushLoop_ok k acc (Q : Z -> VM W -> Prop) s' : is_u256 acc -> code_ok s' -> 0 <= m_PC s' ->
  m_PC s' + Z.of_nat k < lenZ (code ctx) + 33 ->
  (forall v, is_u256 v -> Q v (s' <| m_PC := m_PC s' + Z.of_nat k |>)) -> wp g0 (pushLoop k acc) Q s'.
Proof.
  pose proof (ctx_code ctx Hctx) as [_ Hlen].
  revert acc s'. induction k as [|k IH]; intros acc s' Ha Hc Hp Hk HQ; simpl.
  - wp1. specialize (HQ acc Ha). rewrite Z.add_0_r in HQ. by destruct s'.
  - destruct (code_facts s' Hc) as (Hcb & Hcl & _). do 3 wp1. apply wp_codeByte; [done|lia|]. intros Hby.
    wp1. apply wp_modify. rewrite (wrap_small 64) by lia. apply IH; [|done|simpl; lia|simpl; lia|].
    + apply lor_u256; [apply wrap_u256|]. destruct Hby. unfold is_u256. lia.
    + intros v Hv. simpl. replace (m_PC s' + 1 + Z.of_nat k) with (m_PC s' + Z.of_nat (S k)) by lia. by apply HQ.
Qed.
Lemma PUSH_ok : pre g0 0 1 op s -> opcode I_PUSH1 <= op <= opcode I_PUSH32 -> 1 <= m_runGas s -> wp g0 case_PUSH (post g0) s.
Proof.
  intros H Ho Hr. unpack H. pose proof (ctx_code ctx Hctx) as [_ ?]. simpl in Ho. unfold case_PUSH. go.
  apply wp_modify. wp1. simpl (m_OP _). rewrite Hop. simpl (opcode _).
  apply pushLoop_ok; [side|side|simpl; rewrite (wrap_small 64); lia|simpl; rewrite (wrap_small 64); lia|].
  intros v Hv. wp1. apply post_inv; simpl; rewrite ?(wrap_small 64) by lia; done || lia.
Qed.
Lemma PUSH1_ok : pre g0 0 1 op s -> 1 <= m_runGas s -> wp g0 case_PUSH1 (post g0) s.
Proof.
  intros H Hr. unpack H. pose proof (ctx_code ctx Hctx) as [_ ?]. destruct (code_facts s Hcode) as (Hcb & Hcl & _).
  unfold case_PUSH1. go. apply wp_modify. rewrite (wrap_small 64) by (simpl; lia). go.
  apply wp_codeByte; [done|simpl; lia|]. simpl. intros [Hb0 Hb1]. go. apply wp_modify.
  apply post_inv; simpl; rewrite ?(wrap_small 64) by lia; done || lia.
Qed.
Lemma verifyJumpDest_ok d (Q : Z -> VM W -> Prop) s' : code_ok s' -> 0 <= m_io_gas s' <= g0 -> P (m_ext s') -> is_u256 d ->
  (forall pc, 0 <= pc < lenZ (code ctx) -> Q pc s') -> wp g0 (verifyJumpDest d) Q s'.
Proof.
  intros [_ Hj] Hg HP [Hd _] HQ. unfold verifyJumpDest. do 2 wp1. rewrite Hj. apply wp_if; intros Hb; [|wp1].
  apply andb_true_iff in Hb as [_ Hb]. wp1. apply HQ.
  destruct (optimize_spec (code ctx)) as (pc' & _ & Hs); [apply (ctx_code ctx Hctx)|].
  apply binary_search_spec in Hb; [|apply (so_sorted _ _ _ _ Hs)]. destruct (proj1 (so_dests _ _ _ _ Hs _) Hb) as [(_ & Hlt & _) _].
  split; [apply u64_nonneg|done].
Qed.
Lemma JUMP_ok : pre g0 1 0 op s -> 1 <= m_runGas s -> wp g0 case_JUMP (post g0) s.
Proof.
  intros H Hr. unpack H. unfold case_JUMP. go. apply verifyJumpDest_ok; [done|side|side|done|]. intros pc Hp. wp1.
  apply post_inv; simpl; done || lia.
Qed.
Lemma JUMPI_ok : pre g0 2 0 op s -> 1 <= m_runGas s -> wp g0 case_JUMPI (post g0) s.
Proof.
  intros H Hr. unpack H. unfold case_JUMPI. go. apply verifyJumpDest_ok; [done|side|side|done|]. intros pc Hp. wp1.
  apply post_inv; simpl; done || lia.
Qed.
Lemma DUP_ok : pre g0 (op - opcode I_DUP1 + 1) (op - opcode I_DUP1 + 2) op s -> opcode I_DUP1 <= op -> 1 <= m_runGas s -> wp g0 case_DUP (post g0) s.
Proof. intros H Ho Hr. unpack H. unfold case_DUP. change (opcode I_DUP1) with 0x80 in *. do 6 (wp1; cbv beta). simpl (m_OP _). rewrite Hop. go. Qed.
Lemma SWAP_ok : pre g0 (op - opcode I_SWAP1 + 2) (op - opcode I_SWAP1 + 2) op s -> opcode I_SWAP1 <= op -> 1 <= m_runGas s -> wp g0 case_SWAP (post g0) s.
Proof.
  intros H Ho Hr. unpack H. unfold case_SWAP. change (opcode I_SWAP1) with 0x90 in *. do 6 (wp1; cbv beta). simpl (m_OP _). rewrite Hop. do 5 (wp1; cbv beta).
  assert (Hst : stack_ok (<[0%nat := v0]> (<[Z.to_nat (op - 0x90 + 1) := v]> (m_SPP s)))).
  { destruct Hspp as [HF Hl]. split; [by repeat apply Forall_insert|]. unfold lenZ in *. rewrite !length_insert. done. }
  simpl (m_SPP _). go.
Qed.
Lemma PC_ok : pre g0 0 1 op s -> 1 <= m_runGas s -> wp g0 case_PC (post g0) s.
Proof.
  intros H Hr. unpack H. pose proof (ctx_code ctx Hctx) as [_ ?]. assert (is_u256 (m_PC s)) by (unfold is_u256; lia).
  unfold case_PC. go.
Qed.
Lemma MSIZE_ok : pre g0 0 1 op s -> 1 <= m_runGas s -> wp g0 case_MSIZE (post g0) s.
Proof.
  intros H Hr. unpack H. pose proof (lenZ_nonneg (m_mem s)). destruct Hmem as (? & ? & ?).
  assert (is_u256 (lenZ (m_mem s))) by (unfold is_u256; lia). assert (mem_ok (m_mem s)) by done. unfold case_MSIZE. go.
Qed.
Lemma GAS_ok : pre g0 0 1 op s -> 1 <= m_runGas s -> wp g0 case_GAS (post g0) s.
Proof.
  intros H Hr. unpack H. unfold case_GAS. do 6 (wp1; cbv beta). simpl (m_io_gas _).
  assert (is_u256 (m_io_gas s - m_runGas s)) by (simpl in *; unfold is_u256; lia). go.
Qed.
Lemma JUMPDEST_ok : pre g0 0 0 op s -> wp g0 case_JUMPDEST (post g0) s.
Proof. intros H. unpack H. unfold case_JUMPDEST. go. Qed.
Lemma INVALID_ok : 0 <= m_io_gas s <= g0 -> P (m_ext s) -> wp g0 case_INVALID (post g0) s.
Proof. intros H HP. unfold case_INVALID. go. Qed.

Lemma updateSSGas_ok (Q : unit -> VM W -> Prop) s' : Forall is_u256 (m_SP s') -> 2 <= lenZ (m_SP s') -> 0 <= m_io_gas s' <= g0 ->
  P (m_ext s') -> (forall r e, 1 <= r < 2 ^ 20 -> P e -> Q tt (s' <| m_runGas := r |> <| m_ext := e |>)) -> wp g0 (updateSSGas ctx) Q s'.
Proof.
  intros HF Hl Hg HP HQ. sched. unfold updateSSGas, updateSSGasEIP1283, updateSSGasPreEIP1283. destruct s'. simpl in *.
  go; match goal with |- Q tt ?s' => apply (HQ (LegacyVM.m_runGas s') (LegacyVM.m_ext s')); side end.
Qed.
Lemma wp_catch k v (Q : unit -> VM W -> Prop) s' : is_u256 k -> is_u256 v -> 0 <= m_io_gas s' <= g0 -> P (m_ext s') ->
  (forall e, P e -> Q tt (s' <| m_ext := e |>)) -> wp g0 (catchStorageOverflow (onExt (setStore k v))) Q s'.
Proof.
  intros Hk Hv Hg HP HQ. pose proof (setStore_spec k v _ Hk Hv HP) as Hs. unfold LegacyVMLogic.wp, catchStorageOverflow, onExt.
  destruct (setStore k v (m_ext s')) as [[[]|x] e']; [apply HQ, Hs|]. destruct Hs as [Hx He].
  destruct Hx as [Hx| ->]; [|done]. by destruct x as [| | | | | | | | | | []| |].
Qed.
Lemma SSTORE_ok : pre g0 2 0 op s -> wp g0 (case_SSTORE ctx) (post g0) s.
Proof.
  intros H. unpack H. unfold case_SSTORE, staticGuard. apply wp_if; intros Hst; [go|].
  wp1. apply updateSSGas_ok; [side|side|side|side|]. intros r e Hr He. go.
  apply wp_catch; [side..|]. intros e' He'. go.
Qed.
End Cases.

(** ** Calling out *)

Section CallingOut.
Variables (g0 op : Z) (s : VM W).

Lemma data_ok_nil : data_ok [].
Proof. split; [constructor|done]. Qed.
Hint Resolve data_ok_nil : skaled.

(** What follows the payment in [caseCreate]. *)
(** The executing account has the balance [b]. *)
Definition affords (e : ExtState W) (b : Z) : Prop := exists e0, P e0 /\ balance (myAddress ctx) e0 = (Ok b, e).
Lemma wp_balance (Q : Z -> VM W -> Prop) s' : 0 <= m_io_gas s' <= g0 -> P (m_ext s') ->
  (forall b e, P e -> affords e b -> Q b (s' <| m_ext := e |>)) -> wp g0 (onExt (balance (myAddress ctx))) Q s'.
Proof.
  intros Hg HP HQ. pose proof (balance_spec (myAddress ctx) _ HP) as Hb. unfold LegacyVMLogic.wp, onExt.
  destruct (balance (myAddress ctx) (m_ext s')) as [[b|x] e] eqn:E; [|by destruct Hb]. destruct Hb as [_ He].
  apply HQ; [done|]. by exists (m_ext s').
Qed.

Lemma create_tail_ok s' endowment off size need salt inst :
  m_bounce s' = B_interpretCases -> 0 <= m_io_gas s' < g0 -> g0 < 2 ^ 64 -> stack_ok (m_SPP s') -> 1 <= lenZ (m_SPP s') ->
  mem_ok (m_mem s') -> code_ok s' -> 0 <= m_PC s' < lenZ (code ctx) -> data_ok (m_returnData s') ->
  data_ok (m_output s') -> P (m_ext s') -> is_u256 endowment -> is_u256 salt -> inst = I_CREATE \/ inst = I_CREATE2 ->
  is_u256 off -> is_u256 size -> need = (if size =? 0 then 0 else off + size) -> need <= lenZ (m_mem s') ->
  wp g0 (
    let! b := onExt (balance (myAddress ctx)) in
    (if (b >=? endowment) && (depth ctx <? 1024) then
       modify (fun s => s <| m_io_gas_p := m_io_gas s |>) ;;
       let! p := gets m_io_gas_p in
       let createGas_ := if negb (staticCallDepthLimit sch) then u256 (p - p / 64) else p in
       let! initCode := readMem (u64 off) (u64 size) in
       let! r := onExt (create endowment createGas_ initCode inst salt) in
       setSPP0 (cr_address (fst r)) ;;
       modify (fun s => s <| m_returnData := cr_output (fst r) |>
                          <| m_io_gas_p := u256 (m_io_gas_p s - u256 (createGas_ - snd r)) |>) ;;
       modify (fun s => s <| m_io_gas := u64 (m_io_gas_p s) |>)
     else setSPP0 0) ;; NEXT) (next g0) s'.
Proof.
  intros Hb Hg H64 Hst Hst1 Hm Hc Hpc Hrd Hout Hext Hend Hsalt Hinst Ho Hs Hneed HneedL.
  wp1. apply wp_balance; [lia|done|]. intros b e He (e0 & He0 & Hbal). wp1.
  apply wp_if; intros Hcond; [|go]. boolify. destruct Hcond as [Hafford Hdepth]. do 4 (wp1; cbv beta). simpl (m_io_gas_p _).
  set (cg := if negb _ then _ else _).
  assert (Hcg : 0 <= cg <= m_io_gas s').
  { assert (0 <= m_io_gas s' / 64 <= m_io_gas s') by (split; [apply Z.div_pos; lia|apply Z.div_le_upper_bound; lia]).
    unfold cg. destruct (negb _); [rewrite wrap_small by lia|]; lia. }
  clearbody cg. cbv zeta. wp1. apply wp_readMem; [side|side|simpl; eapply need_within; [| |exact Hneed|]; side|side|].
  intros bs Hbs Hlen _. simpl in Hlen. wp1. unfold LegacyVMLogic.wp at 1, onExt. simpl (m_ext _).
  assert (Hcode : data_ok bs).
  { split; [done|]. destruct (need_within off size need (lenZ (m_mem s')) Ho Hs Hneed HneedL), Hm as (_ & _ & ?); [lia|].
    pose proof (u64_nonneg off). lia. }
  pose proof (create_spec e e0 endowment cg bs inst salt b He0 Hbal ltac:(lia) ltac:(lia) Hend ltac:(unfold is_u256; lia) Hcode Hsalt Hinst) as Hcr.
  destruct (create endowment cg bs inst salt e) as [[[r gas]|x] e'].
  - destruct Hcr as ((Hgas & Hob & Hoa) & He'). simpl. go.
    simpl. rewrite (wrap_small 256 (cg - gas)), (wrap_small 256), (wrap_small 64) by lia.
    apply wp_NEXT_next; simpl; done || lia.
  - destruct Hcr as [Hx He']. split; [done|]. simpl. split; [lia|done].
Qed.

Ltac create_rest H41 :=
  to_updateMem;
  apply wp_updateMem_any; [side|side|side|side|side|side|simpl; intros H41; split; [|lia]|
    intros ? ? ?; intro_simpl; intro_simpl; intro_simpl; cbv beta;
    repeat (lazymatch goal with |- wp _ (bind (onExt _) _) _ _ => fail | _ => idtac end; wp1; cbv beta);
    eapply create_tail_ok; try eassumption; simpl; try done; try lia; auto with skaled].

Lemma caseCreate_ok : fetched g0 s -> m_OP s = opcode I_CREATE \/ m_OP s = opcode I_CREATE2 ->
  wp g0 (caseCreate ctx) (next g0) s.
Proof.
  intros H Ho. assert (Hk : 3 <= lenZ (m_SP s) /\ (m_OP s = opcode I_CREATE2 -> 4 <= lenZ (m_SP s)) /\ 1 <= lenZ (m_SPP s)).
  { unfold fetched in H. unpack H. destruct Ho as [E|E]; rewrite E in *.
    - change (args _) with 3 in Hargs. change (Instruction.ret _) with 1 in Hsppr. split_and!; [lia|done|lia].
    - change (args _) with 4 in Hargs. change (Instruction.ret _) with 1 in Hsppr. split_and!; lia. }
  destruct Hk as (Hk3 & Hk4 & Hk1). unfold fetched in H. unpack H. sched. unfold caseCreate.
  repeat (lazymatch goal with |- wp _ (bind (if _ then _ else _) _) _ _ => fail | _ => idtac end; wp1; cbv beta).
  simpl (m_OP _). pose proof (words_cost_wrap v1 (sha3WordGas sch) 0 ltac:(done) ltac:(done) ltac:(lia)) as [Hw Hw0].
  rewrite !Z.add_0_l in Hw. unfold op_is.
  wp1. destruct (Z.eqb_spec (m_OP s) (opcode I_CREATE2)) as [E|E].
  - specialize (Hk4 E). rewrite Hw. do 6 (wp1; cbv beta). simpl (m_runGas _). rewrite (wrap_small 64 (createGas sch + _)) by lia. create_rest H41.
    pose proof (need_size v0 v1 n ltac:(assumption) ltac:(assumption) H41).
    pose proof (words_cost_bound v1 (sha3WordGas sch)). unfold is_u256 in *. lia.
  - create_rest H41. lia.
Qed.

(** A surcharge paid under a condition. *)
Lemma wp_surcharge (b : bool) k r0 (Q : unit -> VM W -> Prop) s' :
  0 <= m_io_gas s' <= g0 -> P (m_ext s') -> 0 <= r0 < 2 ^ 30 -> 0 <= k < 2 ^ 20 ->
  Q tt (s' <| m_runGas := r0 + (if b then k else 0) |>) ->
  wp g0 (if b then let! n := toInt63 k in modify (fun s => s <| m_runGas := u64 (m_runGas s + n) |>) else LegacyVM.ret tt)
    Q (s' <| m_runGas := r0 |>).
Proof.
  intros Hg HP Hr Hk HQ. destruct b.
  - do 3 (wp1; cbv beta). simpl (m_runGas _). rewrite wrap_small by lia. exact HQ.
  - wp1. rewrite Z.add_0_r in HQ. exact HQ.
Qed.

Lemma wp_newAccount (b : bool) a r0 (Q : unit -> VM W -> Prop) s' :
  0 <= m_io_gas s' <= g0 -> P (m_ext s') -> 0 <= r0 < 2 ^ 29 ->
  (forall r e, 0 <= r < 2 ^ 20 -> P e -> Q tt (s' <| m_ext := e |> <| m_runGas := r0 + r |>)) ->
  wp g0 (if b then
           let! there := onExt (exists_ a) in
           if negb there then let! n := toInt63 (callNewAccountGas sch) in modify (fun s => s <| m_runGas := u64 (m_runGas s + n) |>)
           else LegacyVM.ret tt
         else LegacyVM.ret tt) Q (s' <| m_runGas := r0 |>).
Proof.
  intros Hg HP Hr HQ. sched. destruct b.
  - wp1. eapply wp_onExt; [apply exists_spec|done|done|]. intros a0 e' _ He'. cbv beta.
    change (wp g0 (if negb a0 then let! n := toInt63 (callNewAccountGas sch) in modify (fun s => s <| m_runGas := u64 (m_runGas s + n) |>)
      else LegacyVM.ret tt) Q (s' <| m_ext := e' |> <| m_runGas := r0 |>)).
    apply (wp_surcharge (negb a0) (callNewAccountGas sch) r0 Q (s' <| m_ext := e' |>)); [done|done|lia|lia|].
    apply HQ; [destruct (negb a0); lia|done].
  - wp1. specialize (HQ 0 (m_ext s') ltac:(lia) HP). rewrite Z.add_0_r in HQ. by destruct s'.
Qed.

(** The state in which [caseCallSetup] leaves the object, and what it returns. *)
Definition call_ready (s0 : VM W) (res : CallParameters * (Z * Z) * bool) (s' : VM W) : Prop :=
  let '(params, (off, n), doCall) := res in
  m_bounce s' = m_bounce s0 /\ m_SPP s' = m_SPP s0 /\ code_ok s' /\ m_PC s' = m_PC s0 /\
  m_returnData s' = m_returnData s0 /\ mem_ok (m_mem s') /\ 0 <= m_io_gas s' /\ 0 <= cp_gas params /\
  m_io_gas s' + cp_gas params < g0 /\ 0 <= off /\ 0 <= n /\ (n = 0 \/ off + n <= lenZ (m_mem s')) /\
  m_output s' = m_output s0 /\ P (m_ext s') /\
  (doCall = true -> call_ok ctx params /\ depth ctx < 1024 /\ exists b, affords (m_ext s') b /\ valueTransfer params <= b).

Lemma callParams_ok op' gas1 sp2 dest bs : let p := callParams ctx op' gas1 sp2 dest in
  is_u256 sp2 -> is_address dest -> 0 <= cp_gas p < 2 ^ 65 -> data_ok bs -> call_ok ctx (callParamsFinal ctx op' p bs).
Proof.
  intros p H2 Hd Hg Hbs. destruct (ctx_words ctx Hctx) as [Hval _].
  assert (Hp : codeAddress p = dest /\ is_u256 (valueTransfer p) /\ is_u256 (apparentValue p) /\
    (op_is I_DELEGATECALL op' = true -> valueTransfer p = 0)).
  { unfold p, callParams. destruct (haveValueArg op') eqn:Hv; simpl.
    - split_and!; try done. unfold haveValueArg, op_is in *. intros E%Z.eqb_eq. by rewrite E in Hv.
    - destruct (op_is I_DELEGATECALL op'); simpl; split_and!; auto with skaled. }
  destruct Hp as (Hc & Hv & Ha & Hdel). clearbody p. constructor; simpl; try done.
  - by rewrite Hc.
  - destruct (op_is I_DELEGATECALL op'); [right|left]; auto.
  - rewrite Hc. destruct (_ || _); auto.
Qed.

Lemma callGasFor_nonneg io sp0 : is_u256 sp0 -> 0 <= callGasFor ctx io sp0.
Proof.
  intros [? _]. unfold callGasFor. destruct (staticCallDepthLimit sch); [done|]. apply Z.min_glb; [done|apply u64_nonneg].
Qed.
Lemma setup_gas_bound io sp0 r op' sp2 dest : 0 <= io -> is_u256 sp0 -> 1 <= r -> io + r = g0 -> g0 < 2 ^ 64 ->
  (haveValueArg op' && (sp2 >? 0) = true -> callValueTransferGas sch + 1 <= r) ->
  callGasFor ctx io sp0 <= io -> callGasFor ctx io sp0 < 2 ^ 63 ->
  let p := callParams ctx op' (callGasFor ctx io sp0) sp2 dest in
  0 <= cp_gas p /\ io - callGasFor ctx io sp0 + cp_gas p < g0.
Proof.
  intros Hio H0 Hr Heq H64 Hv. pose proof (callGasFor_nonneg io sp0 H0) as Hg.
  set (gas1 := callGasFor ctx io sp0) in *. clearbody gas1. sched. intros Hle Hlt p.
  assert (Hp : cp_gas p = if haveValueArg op' && (sp2 >? 0) then u256 (gas1 + callStipend sch) else gas1).
  { unfold p, callParams. destruct (haveValueArg op'); [done|]. by destruct (op_is I_DELEGATECALL op'). }
  rewrite Hp. destruct (haveValueArg op' && (sp2 >? 0)); [specialize (Hv eq_refl)|]; [rewrite wrap_small by lia|]; lia.
Qed.

Lemma caseCallSetup_ok s' : m_io_gas s' = g0 -> 0 <= g0 < 2 ^ 64 -> mem_ok (m_mem s') -> code_ok s' ->
  Forall is_u256 (m_SP s') -> m_copyMemSize s' = 0 -> 6 <= lenZ (m_SP s') ->
  (haveValueArg (m_OP s') = true -> 7 <= lenZ (m_SP s')) -> P (m_ext s') ->
  wp g0 (caseCallSetup ctx) (call_ready s') s'.
Proof.
  intros Hgas Hg0 Hmem Hcode Hsp Hcopy H6 H7 Hext. pose proof setup_gas_bound as Hbound. sched.
  unfold caseCallSetup. do 12 (wp1; cbv beta). simpl (m_OP _). simpl (m_ext _).
  wp1. apply wp_newAccount; [side|side|lia|]. intros r1 e1 Hr1 He1.
  wp1. apply wp_surcharge; [side|side|lia|lia|].
  assert (Hr2 : 0 <= (if haveValueArg (m_OP s') && (v1 >? 0) then callValueTransferGas sch else 0) < 2 ^ 20) by (destruct (_ && _); lia).
  assert (Hr3 : haveValueArg (m_OP s') && (v1 >? 0) = true ->
    (if haveValueArg (m_OP s') && (v1 >? 0) then callValueTransferGas sch else 0) = callValueTransferGas sch) by (by intros ->).
  set (r2 := if haveValueArg (m_OP s') && (v1 >? 0) then callValueTransferGas sch else 0) in *. clearbody r2.
  assert (Hso : 2 <= (if haveValueArg (m_OP s') then 3 else 2) /\ (if haveValueArg (m_OP s') then 3 else 2) + 3 < lenZ (m_SP s')).
  { destruct (haveValueArg (m_OP s')); [specialize (H7 eq_refl)|]; lia. }
  set (so := if haveValueArg (m_OP s') then 3 else 2) in *. clearbody so.
  to_updateMem. simpl (m_newMemSize _).
  apply wp_updateMem_any; [side|side|side|side|side|side|simpl; lia|intros ? ? ?; intro_simpl; intro_simpl; intro_simpl; cbv beta].
  do 4 (wp1; cbv beta). simpl (m_io_gas _).
  wp1. wp1. pose proof (callGasFor_nonneg (m_io_gas s' - r) v ltac:(done)) as Hcg.
  do 4 (wp1; cbv beta).
  destruct (Hbound (m_io_gas s' - r) v r (m_OP s') v1 (asAddress v0)) as (Hb1 & Hb2);
    [lia|done|lia|lia|lia|intros E; specialize (Hr3 E); lia|done|done|].
  pose proof (need_within v4 v5 n0 (lenZ mem') ltac:(done) ltac:(done) ltac:(done) ltac:(lia)) as Hout.
  pose proof (need_within v2 v3 n (lenZ mem') ltac:(done) ltac:(done) ltac:(done) ltac:(lia)) as Hin.
  simpl (m_OP _). pose proof (callParams_ok (m_OP s') (callGasFor ctx (m_io_gas s' - r) v) v1 (asAddress v0)) as Hpok. cbv zeta in Hpok.
  set (p := callParams ctx _ _ _ _) in *. assert (Hp : forall bs, cp_gas (callParamsFinal ctx (m_OP s') p bs) = cp_gas p) by done.
  assert (Hpv : forall bs, valueTransfer (callParamsFinal ctx (m_OP s') p bs) = valueTransfer p) by done.
  clearbody p. wp1. apply wp_balance; [side|side|]. intros b e He Haff. apply wp_if; intros Hcond; boolify.
  - wp1. apply wp_readMem; [side|side|exact Hin|side|]. intros bs Hbs Hbl _. wp1. unfold call_ready. rewrite Hp, Hpv.
    assert (data_ok bs).
    { split; [done|]. match goal with Hm : mem_ok mem' |- _ => destruct Hm as (_ & _ & ?) end. pose proof (u64_nonneg v2). lia. }
    split_and!; simpl; try done; try lia; auto with skaled. intros _. split_and!; [|lia|exists b; split; [done|lia]].
    apply Hpok; [done|apply Z.mod_pos_bound; lia|lia|done].
  - wp1. unfold call_ready. split_and!; simpl; try done; try lia; auto with skaled.
Qed.

Lemma caseCall_ok : fetched g0 s -> m_OP s = opcode I_CALL \/ m_OP s = opcode I_CALLCODE \/ m_OP s = opcode I_DELEGATECALL \/ m_OP s = opcode I_STATICCALL ->
  wp g0 (caseCall ctx) (next g0) s.
Proof.
  intros H Ho. unfold fetched in H. assert (Hk : 6 <= lenZ (m_SP s) /\ (haveValueArg (m_OP s) = true -> 7 <= lenZ (m_SP s)) /\ 1 <= lenZ (m_SPP s)).
  { destruct H as [_ _ _ Hsppr _ _ _ _ _ _ Hargs _ _ _ _]. destruct Ho as [E|[E|[E|E]]]; rewrite E in *;
      match type of Hargs with ?a <= _ => let a' := eval vm_compute in a in change a with a' in Hargs end;
      match type of Hsppr with ?a <= _ => let a' := eval vm_compute in a in change a with a' in Hsppr end;
      (split_and!; [lia| |lia]); (intros Hv; lia || by vm_compute in Hv). }
  destruct Hk as (Hk6 & Hk7 & Hk1). unpack H. unfold caseCall. do 4 (wp1; cbv beta). wp1.
  eapply wp_mono; [apply caseCallSetup_ok; simpl; done|]. cbv beta.
  intros [[params [off n]] doCall] s' (Hb' & Hspp' & Hcode' & Hpc' & Hrd' & Hmem' & Hio' & Hcg & Hsum & Hoff & Hn & Hmout & Hout' & Hext' & Hcall).
  simpl in Hb', Hspp', Hpc', Hrd', Hout'. rewrite <- Hspp' in *. clear Hspp'. wp1. destruct doCall.
  - destruct (Hcall eq_refl) as (Hok & Hdepth & b & (e0 & He0 & Hbal) & Hle). wp1. unfold LegacyVMLogic.wp at 1, onExt.
    pose proof (call_spec (m_ext s') e0 params b He0 Hbal Hle Hdepth Hok) as Hcl.
    destruct (call params (m_ext s')) as [[[r gas]|x] e']; [|destruct Hcl as [Hx He']; split; [done|simpl; split; [lia|done]]].
    destruct Hcl as ((Hg' & Hob & Hol) & He'). cbv zeta. simpl (fst _). simpl (snd _). wp1.
    pose proof (lenZ_nonneg (output r)) as Hl0.
    assert (Hmin : lenZ (takeZ (Z.min n (lenZ (output r))) (output r)) = Z.min n (lenZ (output r))) by (apply lenZ_takeZ; lia).
    apply wp_writeMem; [done|rewrite Hmin; simpl; lia|side|auto with skaled|]. intros mem'' Hmb Hml. simpl in Hml.
    pose proof (mem_ok_len _ _ Hmem' Hmb Hml). do 7 (wp1; cbv beta). simpl (m_io_gas _). rewrite (wrap_small 64 gas), wrap_small by lia.
    apply wp_NEXT_next; simpl; rewrite ?Hout'; done || lia.
  - do 5 (wp1; cbv beta). simpl (m_io_gas _). rewrite (wrap_small 64 (cp_gas params)), wrap_small by lia.
    apply wp_NEXT_next; simpl; rewrite ?Hb', ?Hpc', ?Hrd', ?Hout'; done || lia || auto with skaled.
Qed.
End CallingOut.

(** ** Fetching and dispatching *)

Definition tierVal (t : Tier) : Z := nth (Z.to_nat (tierIndex t)) [0; 2; 3; 5; 8; 10; 20; 0] 0.
Lemma tierGas_val t : t <> Invalid -> tierGas ctx tierOob t = tierVal t.
Proof. intros H. unfold tierGas. rewrite (sf_tier _ Hsched). by destruct t. Qed.
Lemma tierGas_bound t : 0 <= tierGas ctx tierOob t < 2 ^ 32.
Proof. unfold tierGas. rewrite (sf_tier _ Hsched). destruct t; simpl; lia. Qed.

Lemma info_bounds : forall b, is_byte b ->
  0 <= args (instructionInfo b) <= 17 /\ 0 <= Instruction.ret (instructionInfo b) <= 17.
Proof.
  intros b Hb. pose proof (forall_bytes (fun b => (0 <=? args (instructionInfo b)) && (args (instructionInfo b) <=? 17) &&
    (0 <=? Instruction.ret (instructionInfo b)) && (Instruction.ret (instructionInfo b) <=? 17)) ltac:(vm_compute; reflexivity) b Hb) as H.
  cbv beta in H. rewrite !andb_true_iff, !Z.leb_le in H. lia.
Qed.

Lemma adjustStack_ok g0 k r (Q : unit -> VM W -> Prop) s : 0 <= k -> 0 <= r -> stack_ok (m_SPP s) -> 0 <= m_io_gas s <= g0 -> P (m_ext s) ->
  (forall spp', k <= lenZ (m_SPP s) -> stack_ok spp' -> r <= lenZ spp' -> Q tt (s <| m_SP := m_SPP s |> <| m_SPP := spp' |>)) ->
  wp g0 (adjustStack k r) Q s.
Proof.
  intros Hk Hr [HF Hl] Hg HP HQ. unfold LegacyVMLogic.wp, adjustStack, throwBadStack.
  destruct (Z.ltb_spec (lenZ (m_SPP s) - k) 0) as [Hu|Hu].
  { fold (LegacyVMLogic.wp P g0 (A := unit) (if lenZ (m_SPP s) - k <? k then onOperation ;; throw StackUnderflow else onOperation ;; throw OutOfStack) Q (s <| m_SP := m_SPP s |>)). go. }
  destruct (Z.ltb_spec 1024 (lenZ (m_SPP s) - k + r)) as [Hf|Hf].
  { fold (LegacyVMLogic.wp P g0 (A := unit) (if lenZ (m_SPP s) - k + r <? k then onOperation ;; throw StackUnderflow else onOperation ;; throw OutOfStack) Q (s <| m_SP := m_SPP s |>)). go. }
  apply HQ; [lia| |].
  - destruct (Z.leb_spec r k).
    + split; [by apply Forall_drop|]. rewrite lenZ_dropZ; lia.
    + split; [apply Forall_app; split; [apply Forall_replicate; auto with skaled|done]|]. rewrite lenZ_app, lenZ_replicate; lia.
  - destruct (Z.leb_spec r k); [rewrite lenZ_dropZ; lia|]. rewrite lenZ_app, lenZ_replicate; lia.
Qed.

(** A fetched instruction other than STOP lies within the code proper. *)
Definition ready (g0 : Z) (s : VM W) : Prop :=
  m_bounce s = B_interpretCases /\ is_byte (m_OP s) /\ m_io_gas s = g0 /\ 0 <= g0 < 2 ^ 64 /\
  (m_OP s <> opcode I_STOP -> fetched g0 s) /\ (m_OP s = opcode I_STOP -> m_runGas s = 0) /\
  data_ok (m_output s) /\ P (m_ext s).

Lemma fetch_ok s : inv s -> m_bounce s = B_interpretCases ->
  wp (m_io_gas s) (fetchInstruction ctx tierOob) (fun _ => ready (m_io_gas s)) s.
Proof.
  intros [Hg Hst Hm Hc Hpc Hrd Hout Hext] Hb. destruct (code_facts s Hc) as (Hcb & Hcl & Htail).
  unfold fetchInstruction. do 3 (wp1; cbv beta). apply wp_codeByte; [done|lia|]. intros Hby.
  do 3 (wp1; cbv beta). destruct (info_bounds _ Hby) as [Ha Hr].
  apply adjustStack_ok; [lia|lia|done|simpl; lia|done|]. intros spp' Hk Hspp' Hsppr. simpl in Hk.
  pose proof (tierGas_bound (gasPriceTier (instructionInfo (nthZ (m_code s) (m_PC s))))) as Ht.
  do 3 (wp1; cbv beta). split_and!; simpl; try done; try lia.
  - intros Hne. unfold fetched. simpl. constructor; simpl; try done; try apply Hst.
    split; [lia|]. destruct (Z.ltb_spec (m_PC s) (lenZ (code ctx))); [done|]. rewrite Htail in Hne by lia. by destruct Hne.
  - intros ->. rewrite tierGas_val; [reflexivity|vm_compute; discriminate].
Qed.

Ltac solve_run Hrg := rewrite Hrg, tierGas_val by (vm_compute; discriminate); vm_compute; repeat split; discriminate.
(** Close the case of one instruction with its lemma. *)
Ltac case_by lem Hf Hrg := eapply lem; [..|exact Hf|]; solve [assumption | solve_run Hrg | auto with skaled].
Ltac case_by0 lem Hf := eapply lem; [..|exact Hf]; solve [assumption | auto with skaled].

Lemma env_words : is_u256 (lenZ (data ctx)) /\ is_u256 (lenZ (code ctx)).
Proof.
  pose proof (ctx_data ctx Hctx) as [_ ?]. pose proof (ctx_code ctx Hctx) as [_ ?].
  pose proof (lenZ_nonneg (data ctx)). pose proof (lenZ_nonneg (code ctx)). unfold is_u256. lia.
Qed.

Definition wordOps : list Instruction :=
  [I_ADD; I_MUL; I_SUB; I_DIV; I_SDIV; I_MOD; I_SMOD; I_NOT; I_LT; I_GT; I_SLT; I_SGT; I_EQ; I_ISZERO; I_AND; I_OR; I_XOR;
        I_BYTE; I_SHL; I_SHR; I_SAR; I_ADDMOD; I_MULMOD; I_SIGNEXTEND; I_ADDRESS; I_ORIGIN; I_CALLER; I_CALLVALUE;
        I_CALLDATASIZE; I_CODESIZE; I_GASPRICE; I_COINBASE; I_TIMESTAMP; I_NUMBER; I_DIFFICULTY; I_GASLIMIT].
(** The instructions that combine words of the stack or push a word of the environment. *)
Lemma runCase_words i g0 s : fetched g0 s -> m_OP s = opcode i -> m_bounce s = B_interpretCases ->
  In i wordOps ->
  wp g0 (runCase sha3 ctx i) (post g0) s.
Proof.
  intros Hf Ho Hb Hi. unfold fetched in Hf. rewrite Ho in Hf. pose proof (p_run _ _ _ _ _ Hf) as Hrg.
  destruct arith_words as (? & ? & ? & ? & ? & ? & ? & ? & ? & ? & ? & ? & ? & ? & ? & ? & ? & ? & ?).
  destruct shift_words as (? & ? & ? & ? & ? & ?). destruct env_words as [? ?].
  destruct (ctx_addresses ctx Hctx) as (? & ? & ?). destruct (ctx_words ctx Hctx) as (? & ?).
  destruct (ctx_env ctx Hctx) as (? & ? & ? & ? & ? & ?).
  simpl in Hi. repeat (destruct Hi as [<-|Hi]; [|]); [..|done]; cbn [runCase];
  first [ case_by unop_ok Hf Hrg | case_by binop_ok Hf Hrg | case_by ternop_ok Hf Hrg | case_by shiftop_ok Hf Hrg | case_by pushEnv_ok Hf Hrg ].
Qed.

Ltac start_case Hf Ho Hrg Hi :=
  unfold fetched in Hf; rewrite Ho in Hf; pose proof (p_run _ _ _ _ _ Hf) as Hrg;
  simpl in Hi; repeat (destruct Hi as [<-|Hi]; [|]); [..|done]; cbn [runCase].

Definition stackMoves : list Instruction :=
  [I_PUSH2; I_PUSH3; I_PUSH4; I_PUSH5; I_PUSH6; I_PUSH7; I_PUSH8; I_PUSH9; I_PUSH10; I_PUSH11; I_PUSH12; I_PUSH13; I_PUSH14; I_PUSH15; I_PUSH16; I_PUSH17; I_PUSH18; I_PUSH19; I_PUSH20; I_PUSH21; I_PUSH22; I_PUSH23; I_PUSH24; I_PUSH25; I_PUSH26; I_PUSH27; I_PUSH28; I_PUSH29; I_PUSH30; I_PUSH31; I_PUSH32;
   I_DUP1; I_DUP2; I_DUP3; I_DUP4; I_DUP5; I_DUP6; I_DUP7; I_DUP8; I_DUP9; I_DUP10; I_DUP11; I_DUP12; I_DUP13; I_DUP14; I_DUP15; I_DUP16;
   I_SWAP1; I_SWAP2; I_SWAP3; I_SWAP4; I_SWAP5; I_SWAP6; I_SWAP7; I_SWAP8; I_SWAP9; I_SWAP10; I_SWAP11; I_SWAP12; I_SWAP13; I_SWAP14; I_SWAP15; I_SWAP16].
Lemma runCase_stack i g0 s : fetched g0 s -> m_OP s = opcode i -> m_bounce s = B_interpretCases -> In i stackMoves ->
  wp g0 (runCase sha3 ctx i) (post g0) s.
Proof.
  intros Hf Ho Hb Hi. start_case Hf Ho Hrg Hi;
  match type of Hf with pre _ _ _ ?o _ =>
    first [ apply (PUSH_ok g0 o s); [assumption|exact Hf|simpl; lia|solve_run Hrg]
          | apply (DUP_ok g0 o s); [assumption|exact Hf|simpl; lia|solve_run Hrg]
          | apply (SWAP_ok g0 o s); [assumption|exact Hf|simpl; lia|solve_run Hrg] ] end.
Qed.

Definition memoryOps : list Instruction :=
  [I_MLOAD; I_MSTORE; I_MSTORE8; I_SHA3; I_LOG0; I_LOG1; I_LOG2; I_LOG3; I_LOG4; I_EXP; I_CALLDATALOAD; I_CALLDATACOPY;
        I_CODECOPY; I_RETURNDATACOPY; I_EXTCODECOPY; I_RETURNDATASIZE; I_MSIZE; I_RETURN; I_REVERT].
(** Instructions that use memory, the world or the program counter. *)
Lemma runCase_memory i g0 s : fetched g0 s -> m_OP s = opcode i -> m_bounce s = B_interpretCases ->
  In i memoryOps ->
  wp g0 (runCase sha3 ctx i) (post g0) s.
Proof.
  intros Hf Ho Hb Hi. start_case Hf Ho Hrg Hi.
  - apply (MLOAD_ok g0 _ s Hb Hf). solve_run Hrg.
  - apply (MSTORE_ok g0 _ s Hb Hf). solve_run Hrg.
  - apply (MSTORE8_ok g0 _ s Hb Hf). solve_run Hrg.
  - exact (SHA3_ok g0 _ s Hb Hf).
  - apply (LOG_ok g0 (opcode I_LOG0) s Hb 0); [lia|done|exact Hf].
  - apply (LOG_ok g0 (opcode I_LOG1) s Hb 1); [lia|done|exact Hf].
  - apply (LOG_ok g0 (opcode I_LOG2) s Hb 2); [lia|done|exact Hf].
  - apply (LOG_ok g0 (opcode I_LOG3) s Hb 3); [lia|done|exact Hf].
  - apply (LOG_ok g0 (opcode I_LOG4) s Hb 4); [lia|done|exact Hf].
  - exact (EXP_ok g0 _ s Hb Hf).
  - apply (CALLDATALOAD_ok g0 _ s Hb Hf). solve_run Hrg.
  - apply (CALLDATACOPY_ok g0 _ s Hb Hf). solve_run Hrg.
  - apply (CODECOPY_ok g0 _ s Hb Hf). solve_run Hrg.
  - apply (RETURNDATACOPY_ok g0 _ s Hb Hf). solve_run Hrg.
  - exact (EXTCODECOPY_ok g0 _ s Hb Hf).
  - apply (RETURNDATASIZE_ok g0 _ s Hb Hf). solve_run Hrg.
  - apply (MSIZE_ok g0 _ s Hb Hf). solve_run Hrg.
  - apply (RETURN_ok g0 _ s Hf). solve_run Hrg.
  - apply (REVERT_ok g0 _ s Hf). solve_run Hrg.
Qed.

Definition worldOps : list Instruction :=
  [I_BALANCE; I_EXTCODESIZE; I_BLOCKHASH; I_SLOAD; I_EXTCODEHASH; I_CHAINID; I_SELFBALANCE; I_SSTORE; I_SUICIDE].
Lemma runCase_world i g0 s : fetched g0 s -> m_OP s = opcode i -> m_bounce s = B_interpretCases ->
  In i worldOps ->
  wp g0 (runCase sha3 ctx i) (post g0) s.
Proof.
  intros Hf Ho Hb Hi. start_case Hf Ho Hrg Hi.
  - apply (worldRead_ok g0 _ s Hb _ _ (fun a _ => balance_spec _) (proj1 (sf_bal _ Hsched)) Hf).
  - apply (worldRead_ok g0 _ s Hb _ _ (fun a _ => codeSizeAt_spec _) (proj1 (sf_ecs _ Hsched)) Hf).
  - apply (worldRead_ok g0 _ s Hb _ _ blockHash_spec (proj1 (sf_bh _ Hsched)) Hf).
  - apply (worldRead_ok g0 _ s Hb _ _ store_spec (proj1 (sf_sload _ Hsched)) Hf).
  - exact (EXTCODEHASH_ok g0 _ s Hb Hf).
  - apply (CHAINID_ok g0 _ s Hb Hf). solve_run Hrg.
  - apply (SELFBALANCE_ok g0 _ s Hb Hf). solve_run Hrg.
  - exact (SSTORE_ok g0 _ s Hb Hf).
  - exact (SUICIDE_ok g0 _ s Hf).
Qed.

Definition controlOps : list Instruction :=
  [I_POP; I_PUSH0; I_PUSH1; I_JUMP; I_JUMPI; I_PC; I_GAS; I_JUMPDEST].
Lemma runCase_control i g0 s : fetched g0 s -> m_OP s = opcode i -> m_bounce s = B_interpretCases ->
  In i controlOps -> wp g0 (runCase sha3 ctx i) (post g0) s.
Proof.
  intros Hf Ho Hb Hi. start_case Hf Ho Hrg Hi.
  - apply (POP_ok g0 _ s Hb Hf). solve_run Hrg.
  - apply (PUSH0_ok g0 _ s Hb Hf). solve_run Hrg.
  - apply (PUSH1_ok g0 _ s Hb Hf). solve_run Hrg.
  - apply (JUMP_ok g0 _ s Hb Hf). solve_run Hrg.
  - apply (JUMPI_ok g0 _ s Hb Hf). solve_run Hrg.
  - apply (PC_ok g0 _ s Hb Hf). solve_run Hrg.
  - apply (GAS_ok g0 _ s Hb Hf). solve_run Hrg.
  - exact (JUMPDEST_ok g0 _ s Hb Hf).
Qed.

(** Instructions that always throw. *)
Definition throwing (i : Instruction) : bool :=
  match i with
  | I_JUMPTO | I_JUMPIF | I_JUMPV | I_JUMPSUB | I_JUMPSUBV | I_RETURNSUB | I_BEGINSUB
  | I_BEGINDATA | I_GETLOCAL | I_PUTLOCAL
  | I_XADD | I_XMUL | I_XSUB | I_XDIV | I_XSDIV | I_XMOD | I_XSMOD | I_XLT | I_XGT | I_XSLT
  | I_XSGT | I_XEQ | I_XISZERO | I_XAND | I_XOOR | I_XXOR | I_XNOT | I_XSHL | I_XSHR | I_XSAR
  | I_XROL | I_XROR | I_XMLOAD | I_XMSTORE | I_XSLOAD | I_XSSTORE | I_XVTOWIDE | I_XWIDETOV
  | I_XPUSH | I_XPUT | I_XGET | I_XSWIZZLE | I_XSHUFFLE | I_PUSHC | I_JUMPC | I_JUMPCI
  | I_UNDEFINED | I_INVALID => true
  | _ => false
  end.
Lemma runCase_throwing i g0 s : 0 <= m_io_gas s <= g0 -> P (m_ext s) -> throwing i = true -> wp g0 (runCase sha3 ctx i) (post g0) s.
Proof.
  intros Hg HP Hi. destruct i; try discriminate Hi; cbn [runCase];
    unfold case_EIP615, case_EIP616, case_INVALID, case_PUSHC, case_JUMPC, case_JUMPCI; go.
Qed.

(** The label of every byte is that of an instruction with a lemma above. *)
Definition callOps : list Instruction := [I_STOP; I_CREATE; I_CREATE2; I_CALL; I_CALLCODE; I_DELEGATECALL; I_STATICCALL].
Definition inb (i : Instruction) (l : list Instruction) : bool := existsb (fun j => opcode j =? opcode i) l.
Lemma inb_In i l : inb i l = true -> In i l.
Proof. unfold inb. rewrite existsb_exists. intros (j & Hj & E). apply Z.eqb_eq, opcode_inj in E. by subst. Qed.
Definition covered (b : Z) : bool :=
  let l := threadedLabel b in
  throwing l || (opcode l =? b) && (inb l wordOps || inb l stackMoves || inb l memoryOps || inb l worldOps || inb l controlOps || inb l callOps).
Lemma all_covered b : is_byte b -> covered b = true.
Proof. apply forall_bytes. vm_compute. reflexivity. Qed.

Lemma runCalls_ok i g0 s : ready g0 s -> m_OP s = opcode i -> In i callOps -> wp g0 (runCase sha3 ctx i) (post g0) s.
Proof.
  intros (Hb & Hby & Hg & Hg0 & Hf & Hstop & Hout & Hext) Ho Hi. simpl in Hi.
  repeat (destruct Hi as [<-|Hi]; [|]); [..|done]; cbn [runCase];
    try (assert (Hf' : fetched g0 s) by (apply Hf; rewrite Ho; done)).
  - apply STOP_ok; auto.
  - apply STATICGUARD_CREATE_ok; auto.
  - apply CREATE2_ok; auto.
  - apply CALLs_ok; auto.
  - apply CALLs_ok; auto.
  - apply CALLs_ok; auto.
  - apply CALLs_ok; auto.
Qed.

Lemma interpretCase_ok s : inv s -> m_bounce s = B_interpretCases ->
  wp (m_io_gas s) (interpretCase sha3 ctx tierOob) (post (m_io_gas s)) s.
Proof.
  intros Hi Hb. unfold interpretCase. wp1. eapply wp_mono; [by apply fetch_ok|]. cbv beta.
  intros _ s' Hr. do 2 (wp1; cbv beta). pose proof Hr as (Hb' & Hby & Hg & Hg0 & Hf & _ & _ & Hext).
  pose proof (all_covered _ Hby) as Hc. unfold covered in Hc. apply orb_true_iff in Hc as [Hc|Hc].
  { apply runCase_throwing; [lia|done|done]. }
  apply andb_true_iff in Hc as [Ho Hc]. apply Z.eqb_eq in Ho. set (i := threadedLabel (m_OP s')) in *. clearbody i.
  rewrite !orb_true_iff in Hc.
  destruct (decide (i = I_STOP)) as [->|Hne]; [apply runCalls_ok; [done|done|by left]|].
  assert (Hf' : fetched (m_io_gas s) s').
  { apply Hf. rewrite <- Ho. intros E. by apply opcode_inj in E. }
  destruct Hc as [[[[[Hc|Hc]|Hc]|Hc]|Hc]|Hc]; apply inb_In in Hc;
    auto using runCase_words, runCase_stack, runCase_memory, runCase_world, runCase_control, runCalls_ok.
Qed.

(** ** The trampoline *)

(** The states between two calls of the trampoline. *)
Definition good (s : VM W) : Prop :=
  match m_bounce s with
  | B_initEntry => 0 <= m_io_gas s < 2 ^ 64 /\ m_SPP s = [] /\ m_mem s = [] /\ m_jumpDests s = [] /\ m_PC s = 0 /\
                   m_returnData s = [] /\ m_output s = [] /\ P (m_ext s)
  | B_interpretCases => inv s
  | B_caseCreate => fetched (m_io_gas s) s /\ (m_OP s = opcode I_CREATE \/ m_OP s = opcode I_CREATE2)
  | B_caseCall => fetched (m_io_gas s) s /\ (m_OP s = opcode I_CALL \/ m_OP s = opcode I_CALLCODE \/
                                   m_OP s = opcode I_DELEGATECALL \/ m_OP s = opcode I_STATICCALL)
  | B_null => 0 <= m_io_gas s /\ data_ok (m_output s) /\ P (m_ext s)
  end.
Definition measure (s : VM W) : Z :=
  2 * m_io_gas s + match m_bounce s with B_initEntry => 2 | B_interpretCases => 1 | _ => 0 end.

Lemma good_gas s : good s -> 0 <= m_io_gas s.
Proof.
  unfold good. destruct (m_bounce s); [intros (? & _); lia|intros [? _ _ _ _ _ _ _]; lia|..]; try tauto;
    intros [[H1 H2 _ _ _ _ _ _ _ _ _ _ _ _ _] _]; lia.
Qed.

Lemma post_good g0 s : 0 <= g0 -> post g0 tt s -> good s /\ m_io_gas s <= g0 /\
  (m_bounce s = B_null \/ measure s < 2 * g0 + 1).
Proof.
  unfold post, good, measure. intros Hg0. destruct (m_bounce s).
  - done.
  - intros [Hi Hlt]. split_and!; [done|lia|right; lia].
  - intros [Hf Ho]. pose proof (p_gas _ _ _ _ _ Hf) as E. rewrite E. split; [by split|]. split; [lia|right; lia].
  - intros [Hf Ho]. pose proof (p_gas _ _ _ _ _ Hf) as E. rewrite E. split; [by split|]. split; [lia|right; lia].
  - intros (H & ? & ?). split_and!; [lia|done|done|lia|by left].
Qed.

Lemma initEntry_ok s : good s -> m_bounce s = B_initEntry ->
  exists s', initEntry ctx s = (Ok tt, s') /\ inv s' /\ m_bounce s' = B_interpretCases /\ m_io_gas s' = m_io_gas s.
Proof.
  unfold good. intros Hg Hb. rewrite Hb in Hg. destruct Hg as (Hg & Hs & Hm & Hj & Hpc & Hrd & Hout & Hext).
  eexists. split; [reflexivity|]. split_and!; try done. constructor; simpl.
  - done.
  - rewrite Hs. split; [constructor|done].
  - rewrite Hm. split_and!; [constructor|done|done].
  - unfold code_ok. simpl. by rewrite Hj.
  - rewrite Hpc. pose proof (lenZ_nonneg (code ctx)). lia.
  - rewrite Hrd. apply data_ok_nil.
  - rewrite Hout. apply data_ok_nil.
  - done.
Qed.

(** One call of the trampoline keeps the state good, performs no access out of bounds and
    decreases the measure unless the execution ends. *)
Lemma bounce_ok s : good s -> m_bounce s <> B_null ->
  wp (m_io_gas s) (bounce sha3 ctx tierOob)
    (fun _ s' => good s' /\ m_io_gas s' <= m_io_gas s /\ (m_bounce s' = B_null \/ measure s' < measure s)) s.
Proof.
  intros Hg Hn. pose proof (good_gas s Hg) as Hg0. unfold LegacyVMLogic.wp, bounce. destruct (m_bounce s) eqn:Hb; [| | | |done].
  - destruct (initEntry_ok s Hg Hb) as (s' & -> & Hi & Hb' & Hgas). unfold good, measure. rewrite Hb, Hb', Hgas.
    split_and!; [done|lia|right; lia].
  - unfold good in Hg. rewrite Hb in Hg. pose proof (interpretCase_ok s Hg Hb) as Hw. unfold LegacyVMLogic.wp in Hw.
    destruct (interpretCase sha3 ctx tierOob s) as [[[]|e] s']; [|done]. unfold measure. rewrite Hb. by apply post_good.
  - unfold good in Hg. rewrite Hb in Hg. destruct Hg as [Hf Ho]. pose proof (caseCreate_ok (m_io_gas s) s Hf Ho) as Hw. unfold LegacyVMLogic.wp in Hw.
    destruct (caseCreate ctx s) as [[[]|e] s']; [|done]. destruct Hw as (Hb' & Hi & Hlt).
    unfold good, measure. rewrite Hb, Hb'. split_and!; [done|lia|right; lia].
  - unfold good in Hg. rewrite Hb in Hg. destruct Hg as [Hf Ho]. pose proof (caseCall_ok (m_io_gas s) s Hf Ho) as Hw. unfold LegacyVMLogic.wp in Hw.
    destruct (caseCall ctx s) as [[[]|e] s']; [|done]. destruct Hw as (Hb' & Hi & Hlt).
    unfold good, measure. rewrite Hb, Hb'. split_and!; [done|lia|right; lia].
Qed.

Lemma trampoline_ok fuel s : good s -> m_bounce s <> B_null -> (Z.to_nat (measure s) < fuel)%nat ->
  exists r s', trampoline sha3 ctx tierOob fuel s = Some (r, s') /\
    match r with Ok _ => data_ok (m_output s') | Err x => exc_ok x end /\
    0 <= m_io_gas s' <= m_io_gas s /\ P (m_ext s').
Proof.
  revert s. induction fuel as [|f IH]; intros s Hg Hn Hf; [lia|]. simpl.
  pose proof (bounce_ok s Hg Hn) as Hw. pose proof (good_gas s Hg). unfold LegacyVMLogic.wp in Hw.
  destruct (bounce sha3 ctx tierOob s) as [[[]|e] s'].
  - destruct Hw as (Hg' & Hle & Hm). pose proof (good_gas s' Hg').
    destruct (m_bounce s') eqn:Hb';
      [| | | |exists (Ok tt), s'; unfold good in Hg'; rewrite Hb' in Hg'; destruct Hg' as (? & ? & ?); split_and!; done || lia];
      (destruct Hm as [Hm|Hm]; [discriminate Hm|]);
      (destruct (IH s' Hg') as (r & s'' & -> & Hr & Hgas & Hext); [by rewrite Hb'|unfold measure in *; rewrite Hb' in *; destruct (m_bounce s); lia|]);
      exists r, s''; (split_and!; [done|done|lia|lia|done]).
  - exists (Err e), s'. destruct Hw as (He & Hgas & Hext). split_and!; [done|done|lia|lia|done].
Qed.

(** What an execution gives: an output or an exception that is no out-of-bounds access, not more
    gas than it was given, and an environment that satisfies its invariant. *)
Lemma exec_ok fuel io_gas ext onOp : 2 * u64 io_gas + 4 <= Z.of_nat fuel -> P ext ->
  exists r g s, exec sha3 ctx tierOob fuel io_gas ext onOp = Some (r, g, s) /\
    match r with Ok out => data_ok out | Err x => exc_ok x end /\ 0 <= g <= u64 io_gas /\ P (m_ext s).
Proof.
  intros Hfuel Hext. pose proof (wrap_range 64 io_gas ltac:(lia)).
  assert (Hgood : good (initVM io_gas ext onOp)) by (unfold good; simpl; split_and!; done || lia).
  destruct (trampoline_ok fuel (initVM io_gas ext onOp) Hgood) as (r & s & Ht & Hr & Hg & He).
  { done. } { unfold measure. simpl. lia. }
  simpl in Hg. unfold exec. rewrite Ht. destruct r as [[]|e].
  - exists (Ok (m_output s)), (m_io_gas s), s. split_and!; done || lia.
  - exists (Err e), (m_io_gas s), s. split_and!; done || lia.
Qed.

(** ** Claims *)

(** C1: Every execution ends, and how: whatever the code and the input, for an environment that keeps its laws and a well-formed context,
    [exec] started with [g] units of gas returns within [2 g + 4] rounds of its trampoline.  It gives an output, a byte string below [2 ^ 62] bytes,
    or throws one of the exceptions of the machine, or, when a function of the environment does so, ends in a [std::length_error] or a
    [std::runtime_error], which may end the process.  The stack, the memory, the code, the call data, the return data and the code of other
    accounts are never accessed out of bounds, no more gas is left than was given, and any invariant [P] of the environment that its functions
    keep still holds, whether it returns or throws. *)
Theorem exec_total_and_memory_safe (fuel : nat) (io_gas : Z) (ext : ExtState W) (onOp : bool) :
  2 * u64 io_gas + 4 <= Z.of_nat fuel -> P ext ->
  exists r g s, exec sha3 ctx tierOob fuel io_gas ext onOp = Some (r, g, s)
    /\ match r with
       | Ok out => bytes_ok out /\ lenZ out < 2 ^ 62
       | Err (Other x) | Err (ProcessExit x) => x = StdLengthError \/ x = StdRuntimeError
       | Err x => x <> UndefinedBehaviour
       end
    /\ 0 <= g <= u64 io_gas /\ P (m_ext s).
Proof.
  intros Hfuel Hext. destruct (exec_ok fuel io_gas ext onOp Hfuel Hext) as (r & g & s & He & Hr & Hg & HP).
  exists r, g, s. split_and!; try done; try lia. destruct r as [out|[]]; done.
Qed.

(** The states an execution passes through. *)
Inductive reachable (io_gas : Z) (ext : ExtState W) (onOp : bool) : VM W -> Prop :=
| reach_init : reachable io_gas ext onOp (initVM io_gas ext onOp)
| reach_bounce s s' : reachable io_gas ext onOp s -> m_bounce s <> B_null ->
    bounce sha3 ctx tierOob s = (Ok tt, s') -> reachable io_gas ext onOp s'.

Lemma reachable_good io_gas ext onOp s : P ext -> reachable io_gas ext onOp s -> good s /\ m_io_gas s <= u64 io_gas.
Proof.
  intros Hext. induction 1 as [|s s' _ [Hg Hle] Hn Hb].
  - pose proof (wrap_range 64 io_gas ltac:(lia)). split; [|simpl; lia]. unfold good. simpl. split_and!; done || lia.
  - pose proof (bounce_ok s Hg Hn) as Hw. unfold LegacyVMLogic.wp in Hw. rewrite Hb in Hw. destruct Hw as (? & ? & _). split; [done|lia].
Qed.

(** C22: The interpreter's invariant, in every state between two instructions that an execution
    reaches: the stack holds at most 1024 words of 256 bits, the memory is a whole number of 32-byte
    words of bytes and has at most [2 ^ 41] bytes, the program counter indexes the code extended by
    33 zero bytes, the gas never exceeds the initial gas, and the invariant [P] of the environment holds. *)
Theorem reachable_invariant (io_gas : Z) (ext : ExtState W) (onOp : bool) (s : VM W) :
  P ext -> reachable io_gas ext onOp s -> m_bounce s = B_interpretCases ->
  Forall is_u256 (m_SPP s) /\ lenZ (m_SPP s) <= 1024
  /\ bytes_ok (m_mem s) /\ lenZ (m_mem s) mod 32 = 0 /\ lenZ (m_mem s) <= 2 ^ 41
  /\ 0 <= m_PC s < lenZ (m_code s) /\ 0 <= m_io_gas s <= u64 io_gas /\ P (m_ext s).
Proof.
  intros Hext Hr Hb. destruct (reachable_good _ _ _ _ Hext Hr) as [Hg Hle]. unfold good in Hg. rewrite Hb in Hg.
  destruct Hg as [Hgas [? ?] (? & ? & ?) Hc Hpc _ _ ?]. destruct (code_facts s Hc) as (_ & -> & _).
  split_and!; done || lia.
Qed.
End Safety.
