(* ===== verification/LegacyVMClaims.v ===== *)
(** * What the interpreter's instructions do

    Static calls, the equivalence of the two dispatchers, undefined opcodes, memory and its
    exact cost, copies with zero padding, pushed constants; and concrete instances of the
    theorems of the previous files. *)

From S2P Require Import Prelude CommonData Instruction EVMSchedule Words ExtVMFace LegacyVM LegacyVMJumps LegacyVMLogic LegacyVMSafety.
From Stdlib Require Import ZArith Lia Bool.
From stdpp Require Import base list list_numbers.
Open Scope Z_scope.
Open Scope vm_scope.

(** ** A concrete environment

    The default bodies of [ExtVMFace] (nothing stored, no balance, no code), with sub-calls that
    succeed at once and return their gas. *)
Definition pure {A} (a : A) : EM unit A := fun e => (Ok a, e).
#[export] Instance nullExt : ExtVMFace unit := {|
  store _ := pure 0; setStore _ _ := pure tt; originalStorageValue _ := pure 0; balance _ := pure 0;
  codeAt _ := pure []; codeSizeAt _ := pure 0; codeHashAt _ := pure 0; exists_ _ := pure false;
  suicide _ := pure tt; create _ g _ _ _ := pure (mkCreateResult true [] 0, g);
  call p := pure (mkCallResult true [], cp_gas p); blockHash _ := pure 0 |}.
Lemma pure_spec {A} (a : A) (Q : A -> Prop) : Q a -> ext_spec (fun _ => True) Q (pure a).
Proof. by intros H e _. Qed.
Lemma buffer_nil : buffer_ok [].
Proof. split; [constructor|done]. Qed.
#[export] Instance nullExt_laws ctx : ExtVMLaws ctx (fun _ => True).
Proof.
  constructor; intros; simpl; try done; try (apply pure_spec; auto using buffer_nil with skaled).
  - split_and!; auto using buffer_nil with skaled; unfold is_u256 in *; lia.
  - match goal with H : call_ok _ _ |- _ => destruct H end. split; [lia|apply buffer_nil].
Defined.
Definition nullCtx (c : list Z) : ExtCtx :=
  mkExtCtx (mkEnvInfo 0 0 0 0 0 0 0 0 0) 1 2 3 0 0 [] c 0 false false IstanbulSchedule.
Definition nullState : ExtState unit := mkExt tt SubState_clear.
Lemma nullCtx_ok c : bool_decide (bytes_ok c) && (lenZ c <? 2 ^ 62) = true -> ctx_ok (nullCtx c).
Proof.
  intros H. apply andb_true_iff in H as [Hb Hl]. apply bool_decide_eq_true in Hb. apply Z.ltb_lt in Hl.
  constructor; simpl; unfold is_u256; split_and?; try done; try lia. constructor.
Qed.

(** A loop that only gas stops. *)
Lemma exec_total_and_memory_safe_witness :
  exists r g s, exec (fun _ => 0) (nullCtx [0x5b; 0x60; 0x00; 0x56]) 7 104 50 nullState false = Some (r, g, s)
    /\ match r with
       | Ok out => bytes_ok out /\ lenZ out < 2 ^ 62
       | Err (Other x) | Err (ProcessExit x) => x = StdLengthError \/ x = StdRuntimeError
       | Err x => x <> UndefinedBehaviour
       end
    /\ 0 <= g <= 50 /\ True.
Proof.
  exact (exec_total_and_memory_safe (fun _ => 0) (fun _ => zero_u256) (nullCtx [0x5b; 0x60; 0x00; 0x56])
    (nullCtx_ok [0x5b; 0x60; 0x00; 0x56] eq_refl) (fun _ => True) 7 ltac:(lia) 104 50 nullState false ltac:(vm_compute; discriminate) I).
Defined.

Lemma reachable_invariant_witness :
  let s := snd (bounce (fun _ => 0) (nullCtx [0x60; 0x2a]) 7 (initVM 50 nullState false)) in
  lenZ (m_SPP s) <= 1024 /\ m_bounce s = B_interpretCases.
Proof.
  split; [|reflexivity].
  refine (proj1 (proj2 (reachable_invariant (fun _ => 0) (fun _ => zero_u256) (nullCtx [0x60; 0x2a])
    (nullCtx_ok [0x60; 0x2a] eq_refl) (fun _ => True) 7 ltac:(lia) 50 nullState false _ I _ _))).
  - eapply reach_bounce; [apply reach_init|discriminate|reflexivity].
  - reflexivity.
Defined.

(** ** Dispatch *)

(** The threaded interpreter (a jump through the 256-entry table of labels) and the portable one
    (a [switch] whose default is the INVALID case) run the same code for every opcode byte, defined
    or not. *)
Theorem dispatchers_agree {W} `{!ExtVMFace W} (sha3 : list Z -> Z) (ctx : ExtCtx) (b : Z) :
  is_byte b -> runCase sha3 ctx (threadedLabel b) = runCase sha3 ctx (switchLabel b).
Proof.
  intros Hb. pose proof (forall_bytes (fun b => (opcode (threadedLabel b) =? opcode (switchLabel b)) ||
    (existsb (Z.eqb b) [0x5c; 0x5d])) ltac:(vm_compute; reflexivity) b Hb) as H. cbv beta in H.
  apply orb_true_iff in H as [H|H].
  - apply Z.eqb_eq, opcode_inj in H. by rewrite H.
  - apply existsb_exists in H as (x & Hx & E). apply Z.eqb_eq in E. subst x.
    simpl in Hx. destruct Hx as [<-|[<-|[]]]; reflexivity.
Qed.

Lemma dispatchers_agree_witness :
  runCase (W := unit) (fun _ => 0) (nullCtx []) (threadedLabel 0x5c) = runCase (fun _ => 0) (nullCtx []) I_INVALID.
Proof. exact (dispatchers_agree (fun _ => 0) (nullCtx []) 0x5c ltac:(split; [discriminate|reflexivity])). Defined.

(** ** Undefined opcodes *)

Lemma undefined_label b : is_byte b -> ofByte b = None ->
  gasPriceTier (instructionInfo b) = Invalid /\ args (instructionInfo b) = 0 /\ Instruction.ret (instructionInfo b) = 0 /\
  (threadedLabel b = I_INVALID \/ threadedLabel b = I_BEGINDATA \/ threadedLabel b = I_BEGINSUB).
Proof.
  intros Hb Hu. pose proof (forall_bytes (fun b => match ofByte b with Some _ => true | None =>
    match gasPriceTier (instructionInfo b) with Invalid => true | _ => false end && (args (instructionInfo b) =? 0) &&
    (Instruction.ret (instructionInfo b) =? 0) && inb (threadedLabel b) [I_INVALID; I_BEGINDATA; I_BEGINSUB] end)
    ltac:(vm_compute; reflexivity) b Hb) as H. cbv beta in H. rewrite Hu in H.
  rewrite !andb_true_iff, !Z.eqb_eq in H. destruct H as [[[Ht Ha] Hr] Hl]. apply inb_In in Hl. simpl in Hl.
  split_and!; try done; [by destruct (gasPriceTier _)|]. destruct Hl as [<-|[<-|[<-|[]]]]; auto.
Qed.

(** Executing a byte that is no instruction throws [BadInstruction] and charges nothing, but
    only after [fetchInstruction] has indexed the eight-element array [tierStepGas] with the tier
    [Tier::Invalid], that is 8: a read past its end, whose value [tierOob] the outcome does not
    depend on. *)
Theorem undefined_opcode_reads_past_tier_table {W} `{!ExtVMFace W} (sha3 : list Z -> Z) (ctx : ExtCtx)
    (tierOob : Z) (s : VM W) (b : Z) :
  is_byte b -> ofByte b = None -> schedule_ok (evmSchedule ctx) = true -> 0 <= tierOob < 2 ^ 32 ->
  m_code s !! Z.to_nat (m_PC s) = Some b -> lenZ (m_SPP s) <= 1024 ->
  tierStepGas (evmSchedule ctx) !! Z.to_nat (tierIndex (gasPriceTier (instructionInfo b))) = None
  /\ fst (interpretCase sha3 ctx tierOob s) = Err BadInstruction
  /\ m_io_gas (snd (interpretCase sha3 ctx tierOob s)) = m_io_gas s.
Proof.
  intros Hb Hu Hs Ht Hc Hl. pose proof (schedule_ok_facts _ Hs) as Hf.
  destruct (undefined_label b Hb Hu) as (Htier & Ha & Hr & Hlab). rewrite Htier, (sf_tier _ Hf). split; [done|].
  assert (HSP : forall s' : VM W, m_OP s' = b -> m_io_gas s' = m_io_gas s ->
    fst (runCase sha3 ctx (threadedLabel (m_OP s')) s') = Err BadInstruction /\
    m_io_gas (snd (runCase sha3 ctx (threadedLabel (m_OP s')) s')) = m_io_gas s).
  { intros s' -> Hg. destruct Hlab as [E|[E|E]]; rewrite E; cbn [runCase]; unfold case_INVALID, case_EIP615;
      unfold bind, onOperation, modify, throwBadInstruction, throw; simpl; by destruct (m_onOp s'). }
  assert (HI : exists s', interpretCase sha3 ctx tierOob s = runCase sha3 ctx (threadedLabel (m_OP s')) s' /\
    m_OP s' = b /\ m_io_gas s' = m_io_gas s).
  { unfold interpretCase, fetchInstruction, bind, gets, codeByte. rewrite Hc. unfold modify. rewrite Ha, Hr.
    unfold adjustStack. simpl (m_SPP _). rewrite Z.sub_0_r, Z.add_0_r. pose proof (lenZ_nonneg (m_SPP s)).
    destruct (Z.ltb_spec (lenZ (m_SPP s)) 0); [lia|]. destruct (Z.ltb_spec 1024 (lenZ (m_SPP s))); [lia|].
    unfold toInt63, tierGas. rewrite Htier, (sf_tier _ Hf). change (_ !! Z.to_nat (tierIndex Invalid)) with (@None Z). cbn iota.
    destruct (Z.gtb_spec tierOob 0x7FFFFFFFFFFFFFFF); [lia|]. eexists. split; [reflexivity|done]. }
  destruct HI as (s' & -> & Ho & Hg). by apply HSP.
Qed.

Lemma undefined_opcode_reads_past_tier_table_witness :
  fst (interpretCase (fun _ => 0) (nullCtx []) 7 ((initVM 50 nullState false) <| m_code := [0x0c] |>)) = Err BadInstruction.
Proof.
  refine (proj1 (proj2 (undefined_opcode_reads_past_tier_table (fun _ => 0) (nullCtx []) 7
    ((initVM 50 nullState false) <| m_code := [0x0c] |>) 0x0c _ _ _ _ _ _)));
    first [reflexivity | split; [discriminate|reflexivity] | discriminate].
Defined.

(** ** Static calls *)

Section Static.
Context {W : Type} `{!ExtVMFace W}.
Variable sha3 : list Z -> Z.
Variable ctx : ExtCtx.
Variable tierOob : Z.

(** [R e e'] says that [e'] shows what [e] shows; reading from the environment keeps to it (it may
    fill a cache). *)
Variable R : relation (ExtState W).
Context `{!PreOrder R}.
Record reads_only : Prop := {
  ro_store k e : R e (snd (store k e)); ro_original k e : R e (snd (originalStorageValue k e));
  ro_balance a e : R e (snd (balance a e)); ro_codeAt a e : R e (snd (codeAt a e));
  ro_codeSizeAt a e : R e (snd (codeSizeAt a e)); ro_codeHashAt a e : R e (snd (codeHashAt a e));
  ro_exists a e : R e (snd (exists_ a e)); ro_blockHash n e : R e (snd (blockHash n e)) }.
Hypothesis Hreads : reads_only.

(** A computation that leaves the environment showing the same, whether it ends or throws, and does
    not call out. *)
Definition quiet (s s' : VM W) : Prop :=
  R (m_ext s) (m_ext s') /\ (m_bounce s' = m_bounce s \/ m_bounce s' = B_null).
Definition keeps {A} (m : M W A) : Prop := forall s, quiet s (snd (m s)).

Lemma quiet_refl s : quiet s s.
Proof. by split; [|left]. Qed.
Lemma quiet_same s s' : m_ext s' = m_ext s -> m_bounce s' = m_bounce s \/ m_bounce s' = B_null -> quiet s s'.
Proof. intros E H. split; [by rewrite E|done]. Qed.
Lemma quiet_trans s1 s2 s3 : quiet s1 s2 -> quiet s2 s3 -> quiet s1 s3.
Proof. intros [E1 H1] [E2 H2]. split; [by etrans|]. destruct H2 as [H2|H2]; [rewrite H2; done|auto]. Qed.

Lemma keeps_ret {A} (a : A) : keeps (ret a).
Proof. intros s. apply quiet_refl. Qed.
Lemma keeps_throw {A} e : keeps (@throw W A e).
Proof. intros s. apply quiet_refl. Qed.
Lemma keeps_gets {A} (f : VM W -> A) : keeps (gets f).
Proof. intros s. apply quiet_refl. Qed.
Lemma keeps_modify (f : VM W -> VM W) : (forall s, quiet s (f s)) -> keeps (modify f).
Proof. intros H s. apply H. Qed.
Lemma keeps_bind {A B} (m : M W A) (k : A -> M W B) : keeps m -> (forall a, keeps (k a)) -> keeps (bind m k).
Proof.
  intros Hm Hk s. unfold bind. specialize (Hm s). destruct (m s) as [[a|e] s']; simpl in *; [|done].
  eapply quiet_trans; [exact Hm|apply Hk].
Qed.
Lemma keeps_if {A} (b : bool) (m1 m2 : M W A) : keeps m1 -> keeps m2 -> keeps (if b then m1 else m2).
Proof. by destruct b. Qed.
Lemma keeps_onOperation : keeps (@onOperation W).
Proof. intros s. unfold onOperation, modify. simpl. destruct (m_onOp s); apply quiet_same; auto. Qed.
Lemma keeps_onExt {A} (f : EM W A) : (forall e, R e (snd (f e))) -> keeps (onExt f).
Proof. intros H s. unfold onExt. specialize (H (m_ext s)). destruct (f (m_ext s)) as [r e']. simpl in *. split; [done|by left]. Qed.
Lemma keeps_sp i : keeps (@sp W i).
Proof. intros s. unfold sp. destruct (_ !! _); apply quiet_refl. Qed.
Lemma keeps_setSPP0 v : keeps (@setSPP0 W v).
Proof. intros s. unfold setSPP0. destruct (m_SPP s); apply quiet_same; auto. Qed.
Lemma keeps_codeByte pc : keeps (@codeByte W pc).
Proof. intros s. unfold codeByte. destruct (_ !! _); apply quiet_refl. Qed.
Lemma keeps_readMem o n : keeps (@readMem W o n).
Proof. intros s. unfold readMem. destruct (_ =? _); [apply quiet_refl|]. destruct (_ <=? _); apply quiet_refl. Qed.
Lemma keeps_writeMem o bs : keeps (@writeMem W o bs).
Proof. intros s. unfold writeMem. destruct (_ =? _); [apply quiet_refl|]. destruct (_ <=? _); apply quiet_same; auto. Qed.
Lemma keeps_updateIOGas : keeps (@updateIOGas W).
Proof. intros s. unfold updateIOGas. destruct (_ <? _); apply quiet_same; auto. Qed.
Lemma keeps_adjustStack a b : keeps (@adjustStack W a b).
Proof.
  intros s. unfold adjustStack, throwBadStack, bind, onOperation, modify, throw.
  repeat (destruct (_ <? _); simpl); try (by apply quiet_same; auto); destruct (m_onOp s); apply quiet_same; auto.
Qed.
Lemma keeps_setBounce_null : keeps (@setBounce W B_null).
Proof. intros s. apply quiet_same; auto. Qed.
Hint Resolve keeps_ret keeps_throw keeps_gets keeps_onOperation keeps_sp keeps_setSPP0 keeps_codeByte keeps_readMem
  keeps_writeMem keeps_updateIOGas keeps_adjustStack keeps_setBounce_null : keeps.

Ltac keep :=
  repeat first
    [ solve [auto with keeps nocore]
    | apply keeps_bind; [|intros ?]
    | apply keeps_modify; intros ?; apply quiet_same; [reflexivity|left; reflexivity]
    | apply keeps_onExt; intros ?; solve [apply Hreads]
    | apply keeps_if ].

Lemma keeps_toInt63 v : keeps (@toInt63 W v).
Proof. unfold toInt63, throwOutOfGas. keep. Qed.
Lemma keeps_memNeed o n : keeps (@memNeed W o n).
Proof. apply keeps_toInt63. Qed.
Lemma keeps_gasForMem n : keeps (@gasForMem W ctx n).
Proof. apply keeps_toInt63. Qed.
Hint Resolve keeps_toInt63 keeps_memNeed keeps_gasForMem : keeps.
Lemma keeps_updateGas : keeps (@updateGas W ctx).
Proof. unfold updateGas, throwOutOfGas. keep. Qed.
Hint Resolve keeps_updateGas : keeps.
Lemma keeps_updateMem n : keeps (@updateMem W ctx n).
Proof. unfold updateMem, resizeMem. keep. Qed.
Hint Resolve keeps_updateMem : keeps.
Lemma keeps_NEXT : keeps (@NEXT W).
Proof. unfold NEXT. keep. Qed.
Lemma keeps_readBuffer dat off n : keeps (@readBuffer W dat off n).
Proof. unfold readBuffer. intros s. destruct (n =? 0), (off + n <=? lenZ dat); apply quiet_refl. Qed.
Hint Resolve keeps_readBuffer : keeps.
Lemma keeps_callDataLoop dat n i : keeps (@callDataLoop W dat n i).
Proof. revert i. induction n as [|n IH]; intros i; simpl; keep. Qed.
Hint Resolve keeps_callDataLoop : keeps.
Lemma keeps_callDataWord dat i : keeps (@callDataWord W dat i).
Proof. unfold callDataWord. keep. Qed.
Hint Resolve keeps_callDataWord : keeps.
Lemma keeps_copy dat a b c : keeps (@copyDataToMemory W dat a b c).
Proof. unfold copyDataToMemory. keep. Qed.
Lemma keeps_verifyJumpDest d : keeps (@verifyJumpDest W d).
Proof. unfold verifyJumpDest, throwBadJumpDestination. keep. Qed.
Hint Resolve keeps_NEXT keeps_copy keeps_verifyJumpDest : keeps.
Lemma keeps_pushLoop n acc : keeps (@pushLoop W n acc).
Proof. revert acc. induction n as [|n IH]; intros acc; simpl; keep. Qed.
Lemma keeps_takeOutput a b : keeps (@takeOutput W a b).
Proof. unfold takeOutput. keep. Qed.
Hint Resolve keeps_pushLoop keeps_takeOutput : keeps.

Hypothesis Hstatic : staticCall ctx = true.

Lemma keeps_staticGuard k : keeps (@staticGuard W ctx k).
Proof. unfold staticGuard, throwDisallowedStateChange. rewrite Hstatic. keep. Qed.
Hint Resolve keeps_staticGuard : keeps.

(** In a static call every instruction but the calls leaves the environment alone. *)
Definition calls (i : Instruction) : bool :=
  match i with I_CALL | I_CALLCODE | I_DELEGATECALL | I_STATICCALL => true | _ => false end.
Lemma static_runCase i : calls i = false -> keeps (runCase sha3 ctx i).
Proof.
  intros Hi. destruct i; try discriminate Hi; cbn [runCase];
  try (unfold case_LOG, case_SSTORE, case_SUICIDE, case_CREATE; apply keeps_staticGuard);
  cbv delta [case_CREATE2 case_RETURN case_REVERT case_STOP case_MLOAD case_MSTORE case_MSTORE8 case_SHA3 case_EXP
    case_ADD case_MUL case_SUB case_DIV case_SDIV case_MOD case_SMOD case_NOT case_LT case_GT case_SLT case_SGT case_EQ
    case_ISZERO case_AND case_OR case_XOR case_BYTE case_SHL case_SHR case_SAR case_ADDMOD case_MULMOD case_SIGNEXTEND
    case_EIP615 case_EIP616 case_ADDRESS case_ORIGIN case_CALLER case_CALLVALUE case_CALLDATASIZE case_CODESIZE case_GASPRICE
    case_COINBASE case_TIMESTAMP case_NUMBER case_DIFFICULTY case_GASLIMIT case_CHAINID case_SELFBALANCE case_BALANCE
    case_EXTCODESIZE case_EXTCODEHASH case_BLOCKHASH case_SLOAD case_RETURNDATASIZE case_CALLDATALOAD case_CALLDATACOPY
    case_RETURNDATACOPY case_CODECOPY case_EXTCODECOPY case_POP case_PUSHC case_PUSH0 case_PUSH1 case_PUSH case_JUMP
    case_JUMPI case_JUMPC case_JUMPCI case_DUP case_SWAP case_PC case_MSIZE case_GAS case_JUMPDEST case_INVALID
    unop binop ternop shiftop pushEnv worldRead setRunGas setCopyMemSize throwBadInstruction throwRevertInstruction throwBufferOverrun]; cbv beta; keep.
Qed.

Lemma keeps_fetchInstruction : keeps (@fetchInstruction W ctx tierOob).
Proof. unfold fetchInstruction. keep. Qed.

(** A call instruction only sets the trampoline, and CALL only with no value to transfer. *)
Definition call_allowed (s : VM W) : Prop :=
  m_bounce s = B_caseCall /\ (m_OP s = opcode I_CALL -> m_SP s !! 2%nat = Some 0).
Lemma static_case_CALLs s : let s' := snd (case_CALLs ctx s) in
  m_ext s' = m_ext s /\ (m_bounce s' = m_bounce s \/ call_allowed s').
Proof.
  unfold case_CALLs. rewrite Hstatic. unfold bind, gets, onOperation, modify.
  set (s1 := if m_onOp s then _ else s).
  assert (Hs1 : m_ext s1 = m_ext s /\ m_bounce s1 = m_bounce s) by (unfold s1; by destruct (m_onOp s)).
  clearbody s1. destruct Hs1 as [<- <-]. unfold throwBadInstruction, throwDisallowedStateChange, throw, ret.
  destruct (op_is I_DELEGATECALL (m_OP s1) && _); [simpl; auto|].
  destruct (op_is I_STATICCALL (m_OP s1) && _); [simpl; auto|].
  rewrite andb_true_r. unfold op_is. destruct (Z.eqb_spec (m_OP s1) (opcode I_CALL)) as [Hc|Hc].
  - unfold sp. change (Z.to_nat 2) with 2%nat. destruct (m_SP s1 !! 2%nat) as [v|] eqn:Hv; [|simpl; auto].
    destruct (Z.eqb_spec v 0) as [->|]; simpl; [|auto]. split; [done|right]. split; [done|]. by intros _.
  - simpl. split; [done|right]. split; [done|]. intros E. by destruct Hc.
Qed.

Lemma bind_ok {A B} (m : M W A) (k : A -> M W B) s b s' :
  bind m k s = (Ok b, s') -> exists a s1, m s = (Ok a, s1) /\ k a s1 = (Ok b, s').
Proof. unfold bind. destruct (m s) as [[a|e] s1] eqn:E; [|done]. intros H. eauto. Qed.

(** A property of every value a computation can return. *)
Definition returns {A} (m : M W A) (P : A -> Prop) : Prop := forall s a s', m s = (Ok a, s') -> P a.
Lemma returns_bind {A B} (m : M W A) (k : A -> M W B) P : (forall a, returns (k a) P) -> returns (bind m k) P.
Proof. intros H s b s' E. apply bind_ok in E as (a & s1 & _ & E). by eapply H. Qed.
Lemma returns_if {A} (b : bool) (m1 m2 : M W A) P : returns m1 P -> returns m2 P -> returns (if b then m1 else m2) P.
Proof. by destruct b. Qed.
Lemma returns_ret {A} (a : A) (P : A -> Prop) : P a -> returns (ret a) P.
Proof. intros H s a' s' E. by inversion E; subst. Qed.

Lemma callParams_value op g v d :
  cp_staticCall (callParams ctx op g v d) = true /\ valueTransfer (callParams ctx op g v d) = if haveValueArg op then v else 0.
Proof.
  unfold callParams. destruct (haveValueArg op); [|destruct (op_is I_DELEGATECALL op)]; simpl; rewrite Hstatic, orb_true_r; done.
Qed.

Lemma sp_ok i (s : VM W) v s' : sp i s = (Ok v, s') -> s' = s /\ m_SP s !! Z.to_nat i = Some v.
Proof. unfold sp. destruct (_ !! _); naive_solver. Qed.

Lemma caseCallSetup_params s p o b s' : caseCallSetup ctx s = (Ok (p, o, b), s') ->
  exists v, m_SP s !! 2%nat = Some v /\ cp_staticCall p = true /\ valueTransfer p = if haveValueArg (m_OP s) then v else 0.
Proof.
  unfold caseCallSetup. intros E.
  apply bind_ok in E as (g & s1 & E1 & E). unfold toInt63 in E1. destruct (_ >? _); [discriminate E1|]. injection E1 as <- <-.
  apply bind_ok in E as (u & s2 & E2 & E). injection E2 as <- <-.
  apply bind_ok in E as (op & s3 & E3 & E). injection E3 as <- <-.
  apply bind_ok in E as (v0 & s4 & E4 & E). apply sp_ok in E4 as [-> _].
  apply bind_ok in E as (v1 & s5 & E5 & E). apply sp_ok in E5 as [-> _].
  apply bind_ok in E as (v2 & s6 & E6 & E). apply sp_ok in E6 as [-> Hv2]. simpl in Hv2, E.
  exists v2. split; [done|]. revert E.
  match goal with |- ?m ?st = _ -> _ => assert (Hr : returns m (fun r => cp_staticCall (fst (fst r)) = true /\
    valueTransfer (fst (fst r)) = if haveValueArg (m_OP s) then v2 else 0)) end.
  { repeat first [ apply returns_ret; simpl; apply callParams_value | apply returns_bind; intros ? | apply returns_if ]. }
  intros E. exact (Hr _ _ _ E).
Qed.

Lemma keeps_caseCallSetup : keeps (@caseCallSetup W _ ctx).
Proof. unfold caseCallSetup, setRunGas. keep. Qed.

(** What one call of the trampoline may do to the environment of a static call. *)
Definition static_effect (s s' : VM W) : Prop :=
  R (m_ext s) (m_ext s') \/
  m_bounce s = B_caseCall /\ exists p e, cp_staticCall p = true /\ (valueTransfer p = 0 \/ m_OP s = opcode I_CALLCODE) /\
    R (m_ext s) e /\ R (snd (call p e)) (m_ext s').
Definition static_inv (s : VM W) : Prop :=
  m_bounce s <> B_caseCreate /\ (m_bounce s = B_caseCall -> call_allowed s).

Lemma static_inv_quiet s s' : quiet s s' -> m_bounce s = B_interpretCases \/ m_bounce s = B_null -> static_inv s'.
Proof. intros [_ [E|E]] [H|H]; rewrite ?H in E; split; rewrite E; done. Qed.

Lemma static_interpretCase s : m_bounce s = B_interpretCases ->
  let s' := snd (interpretCase sha3 ctx tierOob s) in R (m_ext s) (m_ext s') /\ static_inv s'.
Proof.
  intros Hb. unfold interpretCase, bind, gets. pose proof (keeps_fetchInstruction s) as Hq.
  destruct (fetchInstruction ctx tierOob s) as [[u|e] s1]; simpl in *.
  2:{ split; [apply Hq|]. apply (static_inv_quiet s); auto. }
  assert (Hb1 : m_bounce s1 = B_interpretCases \/ m_bounce s1 = B_null) by (destruct Hq as [_ [->| ->]]; auto).
  destruct (calls (threadedLabel (m_OP s1))) eqn:Hc.
  - assert (Hr : runCase sha3 ctx (threadedLabel (m_OP s1)) = case_CALLs ctx) by (by destruct (threadedLabel (m_OP s1))).
    rewrite Hr. destruct (static_case_CALLs s1) as [He Hbb]. split; [rewrite He; apply Hq|].
    destruct Hbb as [E|Hca]; [split; rewrite E; destruct Hb1 as [H| H]; rewrite H; done|].
    destruct Hca as [E1 E2]. split; [by rewrite E1|]. by intros _.
  - pose proof (static_runCase _ Hc s1) as Hq2. split; [|by eapply static_inv_quiet].
    destruct Hq as [Hq _]. etrans; [exact Hq|]. apply Hq2.
Qed.

Lemma after_call {A B C} (f : EM W A) (k1 : A -> M W B) (k2 : B -> M W C) s r e' :
  f (m_ext s) = (r, e') -> (forall a, keeps (k1 a)) -> (forall b, keeps (k2 b)) ->
  quiet (s <| m_ext := e' |>) (snd (bind (bind (onExt f) k1) k2 s)).
Proof.
  intros E H1 H2. unfold bind, onExt. rewrite E. destruct r as [a|x]; [|apply quiet_refl].
  specialize (H1 a (s <| m_ext := e' |>)). destruct (k1 a _) as [[b|x] s1]; [|done]. eapply quiet_trans; [exact H1|apply H2].
Qed.
Lemma static_caseCall s s' : call_allowed s -> s' = snd (caseCall ctx s) -> static_inv s' /\ static_effect s s'.
Proof.
  intros [Hb Hca]. unfold caseCall, setBounce, modify. unfold bind at 1 2 3.
  set (s1 := s <| m_bounce := B_interpretCases |> <| m_returnData := [] |>).
  pose proof (keeps_caseCallSetup s1) as Hq. destruct (caseCallSetup ctx s1) as [[[[p [o n]] b]|e] s2] eqn:E; simpl in Hq.
  2:{ intros ->. split; [apply (static_inv_quiet s1); auto|left; apply Hq]. }
  destruct (caseCallSetup_params s1 p (o, n) b s2 E) as (v & Hv & Hp & Hvt). simpl in Hv, Hvt.
  assert (Hval : valueTransfer p = 0 \/ m_OP s = opcode I_CALLCODE).
  { unfold haveValueArg, op_is in Hvt. destruct (Z.eqb_spec (m_OP s) (opcode I_CALL)) as [Hc|Hc].
    - left. specialize (Hca Hc). simpl in Hvt. congruence.
    - destruct (Z.eqb_spec (m_OP s) (opcode I_CALLCODE)); auto. }
  assert (Hb2 : m_bounce s2 = B_interpretCases \/ m_bounce s2 = B_null) by (destruct Hq as [_ [->| ->]]; auto).
  destruct Hq as [Hq _]. simpl in Hq. destruct b.
  - intros Hs'. destruct (call p (m_ext s2)) as [r e'] eqn:Ecall.
    assert (Hk : quiet (s2 <| m_ext := e' |>) s').
    { rewrite Hs'. eapply after_call; [exact Ecall|intros ?; cbv zeta; keep..]; intros st; apply quiet_same; auto. }
    split; [eapply static_inv_quiet; [exact Hk|done]|]. right. split; [done|]. exists p, (m_ext s2). split_and!; [done|done|exact Hq|].
    rewrite Ecall. apply Hk.
  - intros Hs'. match type of Hs' with s' = snd (?m ?s3) => assert (Hk : quiet s3 s') end.
    { rewrite Hs'. match goal with |- quiet ?s3 (snd (?m ?s3)) => apply (fun H : keeps m => H s3) end. keep; intros st; apply quiet_same; auto. }
    split; [eapply static_inv_quiet; [exact Hk|done]|]. left. etrans; [exact Hq|apply Hk].
Qed.

Lemma static_bounce s : static_inv s -> let s' := snd (bounce sha3 ctx tierOob s) in static_inv s' /\ static_effect s s'.
Proof.
  intros [Hc Hca]. unfold bounce. destruct (m_bounce s) eqn:Hb.
  - split; [done|left; simpl; reflexivity].
  - destruct (static_interpretCase s Hb) as [He Hi]. split; [done|by left].
  - done.
  - apply (static_caseCall s); auto.
  - simpl. split; [split; rewrite Hb; done|by left].
Qed.

Lemma static_reachable io_gas ext onOp s : reachable sha3 ctx tierOob io_gas ext onOp s -> static_inv s.
Proof.
  induction 1 as [|s s' _ IH _ E]; [done|]. destruct (static_bounce s IH) as [H _]. by rewrite E in H.
Qed.

(** C24: A static call changes nothing by itself: at every step of an execution with [staticCall] set,
    whether the step ends or throws, the environment (storage, logs, refunds, destroyed accounts)
    shows what it showed, in the sense of any preorder [R] that reads keep to (equality, when reads
    change nothing), except for the effect of a sub-call; and sub-calls are themselves static and
    transfer no value (CALLCODE, which runs in the caller's own account, apart). *)
Theorem static_calls_change_nothing (io_gas : Z) (ext : ExtState W) (onOp : bool) (s : VM W) :
  reachable sha3 ctx tierOob io_gas ext onOp s ->
  let s' := snd (bounce sha3 ctx tierOob s) in
  R (m_ext s) (m_ext s') \/
  m_bounce s = B_caseCall /\ exists p e, cp_staticCall p = true /\ (valueTransfer p = 0 \/ m_OP s = opcode I_CALLCODE) /\
    R (m_ext s) e /\ R (snd (call p e)) (m_ext s').
Proof. intros Hr. apply (static_bounce s). by eapply static_reachable. Qed.

End Static.

(** SSTORE in a static call. *)
Definition staticCtx : ExtCtx := (nullCtx [0x55]) <| staticCall := true |>.
Lemma static_calls_change_nothing_witness :
  let s := snd (bounce (fun _ => 0) staticCtx 7 (initVM 50 nullState false)) in
  m_ext (snd (bounce (fun _ => 0) staticCtx 7 s)) = nullState.
Proof.
  intros s. destruct (static_calls_change_nothing (fun _ => 0) staticCtx 7 eq ltac:(by constructor) eq_refl 50 nullState false s) as [H|[H _]].
  - eapply reach_bounce; [apply reach_init|discriminate|reflexivity].
  - symmetry. exact H.
  - discriminate H.
Defined.
