(* ===== verification/LegacyVMMemory.v ===== *)
(** * Memory, call data and constants

    The effect of the instructions that move bytes, as equations: copies are zero-padded slices,
    a word written is the word read back, the cost of memory is the exact quadratic cost although
    it is computed with 64-bit arithmetic, and PUSH pushes the big-endian number that follows it. *)

From S2P Require Import Prelude CommonData Instruction EVMSchedule Words ExtVMFace LegacyVM LegacyVMJumps LegacyVMLogic LegacyVMSafety LegacyVMClaims.
From Stdlib Require Import ZArith Lia Bool.
From stdpp Require Import base list list_numbers.
Open Scope Z_scope.
Open Scope vm_scope.

(** ** Specification: slices padded with zeros *)

(** [n] bytes of [dat] from [i], where what lies beyond the end of [dat] reads as zero. *)
Definition slicePad (dat : list Z) (i n : Z) : list Z := map (fun k => nthZ dat (i + k)) (seqZ 0 n).

Lemma slicePad_len dat i n : 0 <= n -> lenZ (slicePad dat i n) = n.
Proof. intros. unfold slicePad, lenZ. rewrite length_map, length_seqZ. lia. Qed.

Lemma slicePad_lookup dat i n k : (k < Z.to_nat n)%nat -> slicePad dat i n !! k = Some (nthZ dat (i + Z.of_nat k)).
Proof.
  intros Hk. unfold slicePad. rewrite list_lookup_fmap. rewrite lookup_seqZ_lt by lia. simpl. done.
Qed.


Lemma lookup_dropZ_nth l i k : 0 <= i -> i + Z.of_nat k < lenZ l -> dropZ i l !! k = Some (nthZ l (i + Z.of_nat k)).
Proof.
  intros Hi Hk. unfold dropZ. rewrite lookup_drop. unfold nthZ, lenZ in *.
  destruct (lookup_lt_is_Some_2 l (Z.to_nat i + k)) as [x Hx]; [lia|]. rewrite Hx. f_equal.
  rewrite (nth_lookup_Some _ _ 0 x); [done|]. rewrite <- Hx. f_equal. lia.
Qed.

(** What the two-step copy writes is the padded slice. *)
Lemma slicePad_split dat i n c : 0 <= i -> 0 <= c <= n -> (0 < c -> i + c <= lenZ dat) -> (c < n -> lenZ dat <= i + c) ->
  slicePad dat i n = takeZ c (dropZ i dat) ++ replicate (Z.to_nat (n - c)) 0.
Proof.
  intros Hi Hc Hin Hout. assert (Hlen : lenZ (takeZ c (dropZ i dat)) = c).
  { destruct (Z.eq_dec c 0) as [->|]; [done|]. rewrite lenZ_takeZ; [done|]. rewrite lenZ_dropZ by lia. lia. }
  apply list_eq. intros k. destruct (Nat.ltb_spec k (Z.to_nat n)) as [Hk|Hk].
  - rewrite slicePad_lookup by done. destruct (Z.ltb_spec (Z.of_nat k) c).
    + rewrite lookup_app_l by (unfold lenZ in Hlen; lia). unfold takeZ. rewrite lookup_take_lt by lia.
      by rewrite lookup_dropZ_nth by lia.
    + rewrite lookup_app_r by (unfold lenZ in Hlen; lia). rewrite lookup_replicate_2 by (unfold lenZ in Hlen; lia).
      f_equal. apply nthZ_beyond. lia.
  - rewrite (proj2 (lookup_ge_None _ _)), (proj2 (lookup_ge_None _ _)); [done| |].
    + rewrite length_app, length_replicate. unfold lenZ in Hlen. lia.
    + pose proof (slicePad_len dat i n). unfold lenZ in *. lia.
Qed.

Lemma splice_splice mem o a b : 0 <= o -> o + lenZ a + lenZ b <= lenZ mem ->
  splice (splice mem o a) (o + lenZ a) b = splice mem o (a ++ b).
Proof.
  intros Ho Hl. pose proof (lenZ_nonneg a). pose proof (lenZ_nonneg b).
  assert (HX : lenZ (takeZ o mem ++ a) = o + lenZ a) by (rewrite lenZ_app, lenZ_takeZ; lia).
  assert (Hs : splice mem o a = (takeZ o mem ++ a) ++ dropZ (o + lenZ a) mem) by (unfold splice; by rewrite app_assoc).
  rewrite Hs. unfold splice. rewrite (takeZ_app (o + lenZ a)) by lia.
  rewrite <- (dropZ_dropZ (lenZ b) (o + lenZ a)) by lia. rewrite (dropZ_app (o + lenZ a)) by lia.
  rewrite dropZ_dropZ by lia. rewrite lenZ_app, <- !app_assoc. do 4 f_equal. lia.
Qed.

(** CALLDATACOPY, CODECOPY, RETURNDATACOPY and EXTCODECOPY write, through [copyDataToMemory],
    exactly the slice of the data padded with zeros, at every index, also one far beyond the end of
    the data or beyond 64 bits, and leave the rest of the memory as it was. *)
Theorem copy_is_zero_padded_slice {W} (dat : list Z) (offset index size : Z) (s : VM W) :
  lenZ dat < 2 ^ 63 -> lenZ (m_mem s) < 2 ^ 63 ->
  0 <= offset -> 0 <= index -> 0 < size -> offset + size <= lenZ (m_mem s) ->
  copyDataToMemory dat offset index size s
  = (Ok tt, s <| m_mem := splice (m_mem s) offset (slicePad dat index size) |>).
Proof.
  intros Hd Hm Ho Hi Hn Hin. pose proof (lenZ_nonneg dat). unfold copyDataToMemory. cbv zeta.
  rewrite (wrap_small 64 offset), (wrap_small 64 size) by lia.
  pose proof (copy_sizes (lenZ dat) index size ltac:(lia) Hi ltac:(lia)) as Hc. cbv zeta in Hc.
  set (c := if index + size >? lenZ dat then _ else _) in *.
  assert (Hout : c < size -> lenZ dat <= index + c).
  { unfold c. rewrite Z.gtb_ltb. destruct (Z.ltb_spec (lenZ dat) (index + size)); [|lia].
    destruct (Z.ltb_spec (lenZ dat) index); [lia|]. rewrite (wrap_small 64 index), wrap_small by lia. lia. }
  clearbody c. destruct Hc as [Hc Hci].
  rewrite (slicePad_split dat index size c); [|done|done|intros H'; apply (Hci H')|done].
  unfold bind. destruct (Z.ltb_spec 0 c) as [Hpos|Hz].
  - destruct (Hci Hpos) as [-> Hle]. assert (Hl : lenZ (takeZ c (dropZ index dat)) = c).
    { rewrite lenZ_takeZ; [done|]. rewrite lenZ_dropZ; lia. }
    rewrite readBuffer_in by lia. unfold writeMem at 1. rewrite Hl. destruct (Z.eqb_spec c 0); [lia|]. destruct (Z.leb_spec (offset + c) (lenZ (m_mem s))); [|lia].
    rewrite Z.gtb_ltb. destruct (Z.ltb_spec c size).
    + unfold writeMem. rewrite lenZ_replicate by lia. destruct (Z.eqb_spec (size - c) 0); [lia|]. simpl (m_mem _).
      rewrite splice_len by lia. destruct (Z.leb_spec (offset + c + (size - c)) (lenZ (m_mem s))); [|lia].
      rewrite <- splice_splice by (rewrite ?lenZ_replicate; lia). rewrite Hl. reflexivity.
    + replace (Z.to_nat (size - c)) with 0%nat by lia. by rewrite app_nil_r.
  - assert (c = 0) as -> by lia. rewrite Z.gtb_ltb. destruct (Z.ltb_spec 0 size); [|lia]. unfold ret, writeMem.
    rewrite lenZ_replicate by lia. destruct (Z.eqb_spec (size - 0) 0); [lia|]. rewrite Z.add_0_r.
    destruct (Z.leb_spec (offset + (size - 0)) (lenZ (m_mem s))); [done|lia].
Qed.

Lemma copy_is_zero_padded_slice_witness :
  m_mem (snd (copyDataToMemory [1; 2; 3] 1 2 3 ((initVM 50 nullState false) <| m_mem := [9; 9; 9; 9; 9] |>))) = [9; 3; 0; 0; 9].
Proof.
  rewrite (copy_is_zero_padded_slice [1; 2; 3] 1 2 3 ((initVM 50 nullState false) <| m_mem := [9; 9; 9; 9; 9] |>));
    first [reflexivity | discriminate | vm_compute; discriminate].
Defined.

(** CALLDATALOAD pushes the 32 bytes of call data from its argument as a big-endian word, zeros
    standing for what lies beyond the end; the fast path, the zero path and the byte-by-byte path of
    the code agree on this. *)
Theorem calldataload_is_zero_padded_word {W} (dat : list Z) (i : Z) (s : VM W) :
  bytes_ok dat -> lenZ dat < 2 ^ 63 -> is_u256 i ->
  callDataWord dat i s = (Ok (fromBigEndian 256 (slicePad dat i 32)), s).
Proof.
  intros Hb Hl [Hi Hi']. pose proof (lenZ_nonneg dat). unfold callDataWord, bind. rewrite (wrap_small 512) by lia.
  destruct (Z.ltb_spec (i + 31) (lenZ dat)).
  - rewrite wrap_small, readBuffer_in by lia. rewrite (slicePad_split dat i 32 32) by lia. by rewrite app_nil_r.
  - rewrite Z.geb_leb. destruct (Z.leb_spec (lenZ dat) i).
    + rewrite (slicePad_split dat i 32 0) by lia. reflexivity.
    + rewrite wrap_small, callDataLoop_reads by lia. do 3 f_equal. unfold slicePad.
      rewrite <- (Z.add_0_r i) at 1. rewrite <- fmap_add_seqZ. by rewrite list_fmap_compose || by rewrite map_map.
Qed.

Lemma calldataload_is_zero_padded_word_witness : fst (callDataWord [1; 2; 3] 1 (initVM 50 nullState false)) = Ok (0x0203 * 2 ^ 240).
Proof.
  rewrite (calldataload_is_zero_padded_word [1; 2; 3] 1); [reflexivity|apply (bool_decide_unpack _); exact I|reflexivity|split; [discriminate|reflexivity]].
Defined.

(** ** Words in memory *)

Section Words_in_memory.
Context {W : Type} `{!ExtVMFace W}.
(** Nothing is asked of the environment here. *)
Abbreviation wp := (LegacyVMLogic.wp (fun _ : ExtState W => True)).
Variable ctx : ExtCtx.
Hypothesis Hsch : schedule_ok (evmSchedule ctx) = true.

(** A state about to run an instruction on memory whose first argument is [off]. *)
Record mem_ready (off : Z) (s : VM W) : Prop := {
  mr_off : m_SP s !! 0%nat = Some off; mr_word : is_u256 off; mr_mem : mem_ok (m_mem s);
  mr_gas : 0 <= m_io_gas s < 2 ^ 64; mr_run : 0 <= m_runGas s <= 100; mr_copy : m_copyMemSize s = 0 }.

(** Charging for [off + 32] bytes, then one more primitive. *)
Lemma word_access_ok off s (k : M W unit) (Q : unit -> VM W -> Prop) : mem_ready off s ->
  (forall s', m_mem s' = grow (m_mem s) (ceil32 (off + 32)) -> off + 32 <= lenZ (m_mem s') -> mem_ok (m_mem s') ->
     m_SP s' = m_SP s -> m_SPP s' = m_SPP s -> m_PC s' = m_PC s -> 0 <= m_io_gas s' <= m_io_gas s -> wp (m_io_gas s) k Q s') ->
  wp (m_io_gas s) (let! o := toInt63 off in updateMem ctx (u64 (o + 32)) ;; onOperation ;; updateIOGas ;; k) Q s.
Proof.
  intros [Ho [Hw0 Hw1] Hm Hg Hr Hc] Hk. pose proof (schedule_ok_facts _ Hsch) as Hf.
  apply wp_bind, wp_toInt63; [lia|done|]. intros Hlt. rewrite (wrap_small 64 (off + 32)) by lia. apply wp_bind.
  apply (wp_updateMem _ ctx Hf); [lia|done|lia|done|lia|lia|lia|]. cbv zeta. intros H41 Hle Hmo Hlen.
  assert (Hmc : 0 <= memCost ctx (lenZ (m_mem s)) (off + 32) (m_copyMemSize s)).
  { unfold memCost. rewrite Hc. pose proof (sf_copy _ Hf). change (ceil32 0 / 32) with 0. lia. }
  apply wp_bind, wp_onOperation. intros n t. apply wp_bind, wp_updateIOGas; simpl; [lia|done|lia|lia|]. intros Hle2.
  pose proof (ceil32_bounds (off + 32) ltac:(lia)). apply Hk; simpl; try done; lia.
Qed.

Lemma lookup_sp (s : VM W) i v : m_SP s !! Z.to_nat i = Some v -> sp i s = (Ok v, s).
Proof. intros H. unfold sp. by rewrite H. Qed.

Lemma wp_writeMem_exact G off bs (Q : unit -> VM W -> Prop) s :
  0 < lenZ bs /\ off + lenZ bs <= lenZ (m_mem s) -> Q tt (s <| m_mem := splice (m_mem s) off bs |>) ->
  wp G (writeMem off bs) Q s.
Proof.
  intros [H0 Hl] HQ. unfold LegacyVMLogic.wp, writeMem. destruct (Z.eqb_spec (lenZ bs) 0); [lia|].
  by destruct (Z.leb_spec (off + lenZ bs) (lenZ (m_mem s))); [|lia].
Qed.

Lemma MSTORE_effect off v s : mem_ready off s -> m_SP s !! 1%nat = Some v ->
  wp (m_io_gas s) (case_MSTORE ctx) (fun _ s' => m_mem s' =
    splice (grow (m_mem s) (ceil32 (off + 32))) (u32 off) (toBigEndian 32 v) /\ off + 32 <= lenZ (m_mem s')) s.
Proof.
  intros Hr Hv. pose proof (mr_off _ _ Hr) as Ho. pose proof (mr_word _ _ Hr) as [Hw0 _].
  assert (Hu : 0 <= u32 off <= off) by (apply wrap_le; lia).
  unfold case_MSTORE, LegacyVMLogic.wp. unfold bind at 1. rewrite (lookup_sp s 0 off Ho).
  apply word_access_ok; [done|]. intros s' Em El Hm Esp Espp Epc Hg.
  apply wp_bind. unfold LegacyVMLogic.wp at 1. rewrite (lookup_sp s' 1 v) by (by rewrite Esp).
  pose proof (toBigEndian_lenZ 32 v) as Hlb. revert Hlb. generalize (toBigEndian 32 v). intros bs Hlb.
  apply wp_bind, wp_writeMem_exact; [lia|]. apply wp_modify. simpl. rewrite <- Em. split; [done|]. rewrite splice_len; lia.
Qed.

Lemma MLOAD_effect off s : mem_ready off s -> 1 <= lenZ (m_SPP s) ->
  wp (m_io_gas s) (case_MLOAD ctx) (fun _ s' => m_mem s' = grow (m_mem s) (ceil32 (off + 32)) /\
    head (m_SPP s') = Some (fromBigEndian 256 (takeZ 32 (dropZ (u32 off) (m_mem s'))))) s.
Proof.
  intros Hr H1. pose proof (mr_off _ _ Hr) as Ho. pose proof (mr_word _ _ Hr) as [Hw0 _].
  assert (Hu : 0 <= u32 off <= off) by (apply wrap_le; lia).
  unfold case_MLOAD, LegacyVMLogic.wp. unfold bind at 1. rewrite (lookup_sp s 0 off Ho).
  apply word_access_ok; [done|]. intros s' Em El Hm Esp Espp Epc Hg.
  apply wp_bind, wp_readMem; [lia|lia|right; lia|apply Hm|]. intros bs _ _ ->.
  apply wp_bind, wp_setSPP0; [by rewrite Espp|]. apply wp_modify. simpl. done.
Qed.

Lemma read_splice mem o bs : 0 <= o -> o + lenZ bs <= lenZ mem -> takeZ (lenZ bs) (dropZ o (splice mem o bs)) = bs.
Proof.
  intros Ho Hl. pose proof (lenZ_nonneg bs). unfold splice.
  rewrite (dropZ_app o (takeZ o mem)) by (rewrite lenZ_takeZ; lia). by rewrite (takeZ_app (lenZ bs) bs) by lia.
Qed.

(** A word stored is the word loaded: when MSTORE of [v] at [off] succeeds and MLOAD at [off]
    later succeeds on the same memory, the word pushed is [v], and loading does not change the
    memory. *)
Theorem mstore_mload_roundtrip (off v : Z) (s s1 s2 s3 : VM W) :
  mem_ready off s -> m_SP s !! 1%nat = Some v -> is_u256 v ->
  case_MSTORE ctx s = (Ok tt, s1) ->
  mem_ready off s2 -> 1 <= lenZ (m_SPP s2) -> m_mem s2 = m_mem s1 ->
  case_MLOAD ctx s2 = (Ok tt, s3) ->
  head (m_SPP s3) = Some v /\ m_mem s3 = m_mem s1.
Proof.
  intros Hr Hv [Hv0 Hv1] E1 Hr2 Hl2 Em E2.
  pose proof (MSTORE_effect off v s Hr Hv) as H1. unfold LegacyVMLogic.wp in H1. rewrite E1 in H1. destruct H1 as [Hm1 Hlen].
  pose proof (MLOAD_effect off s2 Hr2 Hl2) as H2. unfold LegacyVMLogic.wp in H2. rewrite E2 in H2. destruct H2 as [Hm3 Hh].
  pose proof (mr_mem _ _ Hr2) as (Hb2 & H32 & _). rewrite Em in *. pose proof (mr_word _ _ Hr) as [Hw0 _].
  assert (Hce : ceil32 (off + 32) <= lenZ (m_mem s1)).
  { pose proof (Z.div_mod (lenZ (m_mem s1)) 32 ltac:(lia)) as Hd. rewrite H32, Z.add_0_r in Hd. rewrite Hd. apply ceil32_le. lia. }
  rewrite grow_id in Hm3 by done. split; [|done]. rewrite Hh, Hm3, Hm1.
  assert (Hu : 0 <= u32 off <= off) by (apply wrap_le; lia).
  assert (Hlb : lenZ (toBigEndian 32 v) = 32) by apply toBigEndian_lenZ. rewrite <- Hlb at 1.
  rewrite read_splice; [|lia|].
  2:{ rewrite Hlb. rewrite Hm1, splice_len in Hlen; [lia|lia|]. rewrite Hlb.
      unfold grow. rewrite lenZ_app. pose proof (ceil32_bounds (off + 32) ltac:(lia)).
      destruct (Z.leb_spec (ceil32 (off + 32)) (lenZ (m_mem s))); [pose proof (lenZ_nonneg (replicate (Z.to_nat (ceil32 (off + 32) - lenZ (m_mem s))) 0)); lia|].
      rewrite lenZ_replicate by lia. lia. }
  rewrite fromBigEndian_unbe by (lia || apply toBigEndian_ok). rewrite unbe_toBigEndian by lia.
  change (256 ^ Z.of_nat 32) with (2 ^ 256). rewrite Z.mod_small by lia. f_equal. apply wrap_small. lia.
Qed.

(** [updateMem] has one way to fail. *)
Definition fails_only {A} (e : VMException) (m : M W A) : Prop := forall s e' s', m s = (Err e', s') -> e' = e.
Lemma fails_only_bind {A B} e (m : M W A) (k : A -> M W B) :
  fails_only e m -> (forall a, fails_only e (k a)) -> fails_only e (bind m k).
Proof.
  intros Hm Hk s e' s'. unfold bind. destruct (m s) as [[a|e1] s1] eqn:E; [apply Hk|].
  intros [= <- <-]. by apply Hm in E.
Qed.
Lemma fails_only_if {A} e (b : bool) (m1 m2 : M W A) : fails_only e m1 -> fails_only e m2 -> fails_only e (if b then m1 else m2).
Proof. by destruct b. Qed.
Lemma fails_only_throw {A} e : fails_only e (throw e : M W A).
Proof. by intros s e' s' [= <- <-]. Qed.
Lemma fails_only_ret {A} e (a : A) : fails_only e (ret a : M W A).
Proof. done. Qed.
Lemma fails_only_gets {A} e (f : VM W -> A) : fails_only e (gets f).
Proof. done. Qed.
Lemma fails_only_modify e (f : VM W -> VM W) : fails_only e (modify f).
Proof. done. Qed.
Hint Resolve fails_only_bind fails_only_if fails_only_throw fails_only_ret fails_only_gets fails_only_modify : skaled.

Lemma updateMem_fails newMem : fails_only OutOfGas (updateMem ctx newMem : M W unit).
Proof. unfold updateMem, updateGas, gasForMem, toInt63, throwOutOfGas, resizeMem. auto 20 with skaled. Qed.

Lemma toInt63_small v (s : VM W) : v < 2 ^ 63 -> toInt63 v s = (Ok v, s).
Proof. intros. unfold toInt63. rewrite Z.gtb_ltb. by destruct (Z.ltb_spec 0x7FFFFFFFFFFFFFFF v); [lia|]. Qed.

(** [updateGas] succeeds when the exact cost is covered. *)
Lemma updateGas_succeeds newMem (s : VM W) :
  m_newMemSize s = ceil32 newMem -> 0 <= newMem < 2 ^ 63 -> mem_ok (m_mem s) ->
  Cmem (evmSchedule ctx) (lenZ (m_mem s)) + m_io_gas s < 2 ^ 63 -> 0 <= m_io_gas s ->
  0 <= m_runGas s <= 2 ^ 62 -> 0 <= m_copyMemSize s <= 2 ^ 41 ->
  m_runGas s + memCost ctx (lenZ (m_mem s)) newMem (m_copyMemSize s) <= m_io_gas s ->
  fst (updateGas ctx s) = Ok tt.
Proof.
  intros En Hn Hm Hpaid Hg Hr Hc Hcost. pose proof (schedule_ok_facts _ Hsch) as Hf.
  pose proof (lenZ_nonneg (m_mem s)). destruct (ceil32_bounds newMem) as [Hce Hc32]; [lia|].
  destruct (copy_cost_small ctx Hf (m_copyMemSize s)) as [Hcc Hcb]; [lia|].
  pose proof (Cmem_mono (evmSchedule ctx) 0 (lenZ (m_mem s)) Hf ltac:(lia)) as Hold.
  unfold memCost in Hcost. unfold updateGas, gasForMem, bind, modify, gets. rewrite En.
  rewrite Z.gtb_ltb. destruct (Z.ltb_spec (lenZ (m_mem s)) (ceil32 newMem)).
  - pose proof (Cmem_mono (evmSchedule ctx) (lenZ (m_mem s)) (ceil32 newMem) Hf ltac:(lia)) as Hmono.
    fold (Cmem (evmSchedule ctx) (ceil32 newMem)). fold (Cmem (evmSchedule ctx) (lenZ (m_mem s))).
    rewrite !(wrap_small 512) by lia. rewrite !toInt63_small by lia.
    rewrite (wrap_small 64 (Cmem _ _ - _)) by lia. rewrite toInt63_small by lia.
    simpl. rewrite Hcc, (wrap_small 64 (m_runGas s + _)), wrap_small by lia.
    match goal with |- context [?a <? ?b] => destruct (Z.ltb_spec a b); [lia|done] end.
  - simpl. rewrite Hcc, wrap_small by lia.
    match goal with |- context [?a <? ?b] => destruct (Z.ltb_spec a b); [lia|done] end.
Qed.

(** C31: The cost of memory is exact: for an instruction that needs [newMem] bytes, [updateMem]
    succeeds exactly when the quadratic cost of the expansion, computed with unbounded integers,
    together with the per-word cost of copying and the instruction's own cost, is covered by the gas
    left, and fails with [OutOfGas] otherwise; on success that sum is [m_runGas] and the memory is
    extended with zeros to a whole number of words.  No 64-bit operation on the way overflows,
    provided that the gas left and the cost of the memory already paid are together below [2 ^ 63]. *)
Theorem memory_cost_exact (newMem : Z) (s : VM W) :
  mem_ok (m_mem s) -> 0 <= newMem < 2 ^ 63 -> 0 <= m_io_gas s ->
  Cmem (evmSchedule ctx) (lenZ (m_mem s)) + m_io_gas s < 2 ^ 63 ->
  0 <= m_runGas s <= 2 ^ 62 -> 0 <= m_copyMemSize s <= 2 ^ 41 ->
  let cost := m_runGas s + memCost ctx (lenZ (m_mem s)) newMem (m_copyMemSize s) in
  fst (updateMem ctx newMem s) = (if cost <=? m_io_gas s then Ok tt else Err OutOfGas)
  /\ (cost <= m_io_gas s ->
        m_runGas (snd (updateMem ctx newMem s)) = cost
        /\ m_mem (snd (updateMem ctx newMem s)) = grow (m_mem s) (ceil32 newMem)).
Proof.
  intros Hm Hn Hg Hpaid Hr Hc cost. pose proof (schedule_ok_facts _ Hsch) as Hf.
  destruct (ceil32_bounds newMem) as [Hce Hc32]; [lia|].
  set (P := fun x : result VMException unit * VM W => fst x = (if cost <=? m_io_gas s then Ok tt else Err OutOfGas) /\
    (cost <= m_io_gas s -> m_runGas (snd x) = cost /\ m_mem (snd x) = grow (m_mem s) (ceil32 newMem))).
  assert (Hwp : wp (m_io_gas s) (updateMem ctx newMem) (fun _ s' => P (Ok tt, s')) s).
  { apply (wp_updateMem _ ctx Hf); [lia|done|lia|done|lia|lia|lia|]. cbv zeta. fold cost. intros H41 Hle _ _.
    unfold P. simpl. destruct (Z.leb_spec cost (m_io_gas s)); [done|lia]. }
  fold (P (updateMem ctx newMem s)). unfold LegacyVMLogic.wp in Hwp.
  destruct (updateMem ctx newMem s) as [[[]|e] s'] eqn:E; [exact Hwp|]. clear Hwp. unfold P. simpl.
  rewrite (updateMem_fails _ _ _ _ E). destruct (Z.leb_spec cost (m_io_gas s)); [exfalso|split; [done|lia]].
  revert E. unfold updateMem. rewrite (wrap_small 64 (newMem + 31)) by lia. fold (ceil32 newMem). rewrite wrap_small by lia.
  unfold bind at 1, modify at 1. unfold bind at 1.
  pose proof (updateGas_succeeds newMem (s <| m_newMemSize := ceil32 newMem |>)) as Hs. simpl in Hs.
  specialize (Hs eq_refl Hn Hm Hpaid Hg Hr Hc ltac:(done)).
  destruct (updateGas ctx _) as [[?|?] s1]; [|done]. unfold bind, gets, resizeMem, modify, ret. by destruct (_ >? _).
Qed.

(** ** Constants in the code *)

Lemma takeZ_dropZ_cons l pc n : 0 <= pc < lenZ l -> 0 <= n -> takeZ (n + 1) (dropZ pc l) = nthZ l pc :: takeZ n (dropZ (pc + 1) l).
Proof.
  intros Hpc Hn. unfold takeZ, dropZ, nthZ, lenZ in *. replace (Z.to_nat (n + 1)) with (S (Z.to_nat n)) by lia.
  replace (Z.to_nat (pc + 1)) with (S (Z.to_nat pc)) by lia.
  destruct (lookup_lt_is_Some_2 l (Z.to_nat pc)) as [x Hx]; [lia|].
  rewrite (drop_S _ x _ Hx), (nth_lookup_Some _ _ _ _ Hx). done.
Qed.

Lemma onOperation_frame (s : VM W) : exists n t, onOperation s = (Ok tt, s <| m_nSteps := n |> <| m_trace := t |>).
Proof.
  unfold onOperation, modify. destruct (m_onOp s); [by eauto|]. exists (m_nSteps s), (m_trace s). by destruct s.
Qed.

Lemma pushLoop_effect n : forall acc (s : VM W),
  bytes_ok (m_code s) -> 0 <= m_PC s -> m_PC s + Z.of_nat n <= lenZ (m_code s) -> lenZ (m_code s) < 2 ^ 63 ->
  pushLoop n acc s = (Ok (foldl (fun a b => Z.lor (u256 (Z.shiftl a 8)) b) acc (takeZ (Z.of_nat n) (dropZ (m_PC s) (m_code s)))),
                      s <| m_PC := m_PC s + Z.of_nat n |>).
Proof.
  induction n as [|n IH]; intros acc s Hb Hpc Hl Hc; simpl pushLoop.
  - rewrite Z.add_0_r. by destruct s.
  - unfold bind, gets, codeByte. destruct (lookup_lt_is_Some_2 (m_code s) (Z.to_nat (m_PC s))) as [v Hv]; [unfold lenZ in *; lia|].
    rewrite Hv. unfold NEXT, modify. rewrite IH; simpl; rewrite ?(wrap_small 64 (m_PC s + 1)) by lia; try done; try lia.
    replace (Z.of_nat (S n)) with (Z.of_nat n + 1) by lia. rewrite takeZ_dropZ_cons by lia. simpl.
    unfold nthZ. rewrite (nth_lookup_Some _ _ _ _ Hv). replace (m_PC s + (Z.of_nat n + 1)) with (m_PC s + 1 + Z.of_nat n) by lia.
    reflexivity.
Qed.

(** Within 32 bytes the accumulator never loses a bit. *)
Lemma push_fold l : forall a, bytes_ok l -> 0 <= a -> a * 256 ^ lenZ l + 256 ^ lenZ l <= 2 ^ 256 ->
  foldl (fun a b => Z.lor (u256 (Z.shiftl a 8)) b) a l = foldl (fun a b => a * 256 + b) a l.
Proof.
  induction l as [|b l IH]; intros a Hb Ha Hl; [done|]. apply Forall_cons in Hb as [Hb Hbl]. simpl.
  pose proof (lenZ_nonneg l). replace (lenZ (b :: l)) with (lenZ l + 1) in Hl by (unfold lenZ; simpl; lia).
  rewrite Z.pow_add_r in Hl by lia. change (256 ^ 1) with 256 in Hl.
  assert (1 <= 256 ^ lenZ l) by (pose proof (Z.pow_pos_nonneg 256 (lenZ l)); lia).
  assert (Hb' := Hb). destruct Hb' as [Hb0 Hb1].
  rewrite wrap_small. 2:{ rewrite Z.shiftl_mul_pow2 by lia. change (2 ^ 8) with 256. nia. }
  rewrite lor_shift8 by done. apply IH; [done|lia|nia].
Qed.

(** PUSH2 ... PUSH32 push the big-endian number of the bytes that follow the instruction and
    move the program counter behind them, for every number of bytes and every position, given that
    those bytes are in the extended code (the copy that [copyCode] makes always has them). *)
Theorem push_is_big_endian (k : Z) (s : VM W) :
  2 <= k <= 32 -> m_OP s = opcode I_PUSH1 + k - 1 ->
  bytes_ok (m_code s) -> 0 <= m_PC s -> m_PC s + 1 + k <= lenZ (m_code s) -> lenZ (m_code s) < 2 ^ 63 ->
  0 <= m_runGas s <= m_io_gas s -> m_io_gas s < 2 ^ 64 -> 1 <= lenZ (m_SPP s) ->
  exists s', case_PUSH s = (Ok tt, s')
  /\ m_SPP s' = unbe (takeZ k (dropZ (m_PC s + 1) (m_code s))) :: tail (m_SPP s)
  /\ m_PC s' = m_PC s + 1 + k /\ m_io_gas s' = m_io_gas s - m_runGas s.
Proof.
  intros Hk Hop Hb Hpc Hl Hc Hg Hg64 Hsp. unfold case_PUSH. unfold bind at 1.
  destruct (onOperation_frame s) as (n & t & ->). unfold bind at 1, updateIOGas. simpl.
  destruct (Z.ltb_spec (m_io_gas s) (m_runGas s)); [lia|]. unfold bind at 1, gets. unfold bind at 1, NEXT, modify. simpl.
  unfold bind. rewrite !wrap_small by lia. rewrite Hop. change (opcode I_PUSH1) with 96. replace (96 + k - 1 - 96 + 1) with k by lia.
  rewrite pushLoop_effect by (simpl; done || lia). rewrite Z2Nat.id by lia. simpl.
  assert (Hb' : bytes_ok (takeZ k (dropZ (m_PC s + 1) (m_code s)))) by auto with skaled.
  assert (Hlen : lenZ (takeZ k (dropZ (m_PC s + 1) (m_code s))) = k) by (rewrite lenZ_takeZ; [done|rewrite lenZ_dropZ; lia]).
  rewrite push_fold; [|done|done|].
  2:{ rewrite Hlen. change (2 ^ 256) with (256 ^ 32). rewrite Z.mul_0_l. apply Z.pow_le_mono_r; lia. }
  unfold setSPP0. simpl. destruct (m_SPP s) as [|x l]; [by change (lenZ (@nil Z)) with 0 in Hsp|].
  eexists. split; [reflexivity|]. simpl. split_and!; reflexivity.
Qed.
End Words_in_memory.

(** A state with 100000 gas, room for one result and the given arguments. *)
Definition sampleVM (args : list Z) : VM unit :=
  (initVM 100000 nullState false) <| m_SP := args |> <| m_SPP := 0 :: args |> <| m_runGas := 3 |>.

Lemma sampleVM_ready off args : is_u256 off -> mem_ready off (sampleVM (off :: args)).
Proof. intros H. constructor; try done; try (simpl; lia). split_and!; [constructor|done|done]. Qed.

Lemma mstore_mload_roundtrip_witness :
  head (m_SPP (snd (case_MLOAD (nullCtx []) ((sampleVM [40]) <| m_mem := m_mem (snd (case_MSTORE (nullCtx []) (sampleVM [40; 77]))) |>)))) = Some 77.
Proof.
  set (s1 := snd (case_MSTORE (nullCtx []) (sampleVM [40; 77]))).
  set (s2 := (sampleVM [40]) <| m_mem := m_mem s1 |>).
  refine (proj1 (mstore_mload_roundtrip (nullCtx []) _ 40 77 (sampleVM [40; 77]) s1 s2 (snd (case_MLOAD (nullCtx []) s2)) _ _ _ _ _ _ _ _));
    try (vm_compute; reflexivity); try (split; vm_compute; congruence).
  - apply sampleVM_ready. split; [lia|reflexivity].
  - constructor; try (vm_compute; reflexivity); try (split; vm_compute; congruence).
    split_and!; [|vm_compute; reflexivity|vm_compute; congruence]. apply (bool_decide_unpack _). vm_compute. exact I.
  - vm_compute. congruence.
Defined.

Lemma memory_cost_exact_witness :
  fst (updateMem (nullCtx []) 64 (sampleVM [])) = Ok tt /\ fst (updateMem (nullCtx []) 1000000 (sampleVM [])) = Err OutOfGas.
Proof.
  split.
  - refine (proj1 (memory_cost_exact (nullCtx []) _ 64 (sampleVM []) _ _ _ _ _ _)); try (vm_compute; reflexivity); try (split; vm_compute; congruence); try (vm_compute; congruence).
    split_and!; [constructor|done|done].
  - refine (proj1 (memory_cost_exact (nullCtx []) _ 1000000 (sampleVM []) _ _ _ _ _ _)); try (vm_compute; reflexivity); try (split; vm_compute; congruence); try (vm_compute; congruence).
    split_and!; [constructor|done|done].
Defined.

Lemma push_is_big_endian_witness :
  exists s', case_PUSH ((sampleVM []) <| m_OP := 0x61 |> <| m_code := [0x61; 1; 2; 0] |>) = (Ok tt, s') /\ m_SPP s' = [258].
Proof.
  destruct (push_is_big_endian 2 ((sampleVM []) <| m_OP := 0x61 |> <| m_code := [0x61; 1; 2; 0] |>)) as (s' & E & Hsp & _);
    try reflexivity; try (split; vm_compute; congruence); try (vm_compute; congruence).
  - apply (bool_decide_unpack _). vm_compute. exact I.
  - exists s'. split; [exact E|]. rewrite Hsp. reflexivity.
Defined.
