(* ===== verification/ChainParams.v ===== *)
(** * Patches and chain parameters

    libethereum/SchainPatchEnum.h, SchainPatch.h, SchainPatch.cpp and
    libethcore/ChainOperationParams.h, ChainOperationParams.cpp: the named patches with the time from
    which each is active, the fork blocks, the schedule of fees at a block, and the table of
    precompiled contracts.  [SchainPatch::chainParams], a static copy of the parameters, and
    [SchainPatch::committedBlockTimestamp] are arguments.  The fields that configure the network, the
    node and consensus are not modelled.  A precompiled contract is the pair of its pricing function
    and its executor, which are Precompiled.cpp's. *)

From S2P Require Import Prelude CommonData EVMSchedule.
From Stdlib Require Import ZArith Lia Bool.
From stdpp Require Import base list gmap strings.
Open Scope string_scope.
Open Scope Z_scope.

(** ** Patches *)

Inductive SchainPatchEnum :=
| RevertableFSPatch | PrecompiledConfigPatch | PowCheckPatch | CorrectForkInPowPatch
| ContractStorageZeroValuePatch | PushZeroPatch | ContractStoragePatch | StorageDestructionPatch
| SkipInvalidTransactionsPatch | SelfdestructStorageLimitPatch | VerifyDaSigsPatch | FastConsensusPatch
| EIP1559TransactionsPatch | VerifyBlsSyncPatch | FlexibleDeploymentPatch | ExternalGasPatch
| PatchesCount.
#[export] Instance SchainPatchEnum_dec : EqDecision SchainPatchEnum.
Proof. solve_decision. Defined.

(** [static_cast< size_t >( e )] *)
Definition patchIndex (e : SchainPatchEnum) : nat :=
  match e with
  | RevertableFSPatch => 0 | PrecompiledConfigPatch => 1 | PowCheckPatch => 2 | CorrectForkInPowPatch => 3
  | ContractStorageZeroValuePatch => 4 | PushZeroPatch => 5 | ContractStoragePatch => 6
  | StorageDestructionPatch => 7 | SkipInvalidTransactionsPatch => 8 | SelfdestructStorageLimitPatch => 9
  | VerifyDaSigsPatch => 10 | FastConsensusPatch => 11 | EIP1559TransactionsPatch => 12
  | VerifyBlsSyncPatch => 13 | FlexibleDeploymentPatch => 14 | ExternalGasPatch => 15 | PatchesCount => 16
  end%nat.

(** [std::out_of_range] *)
Inductive PatchError := OutOfRange (what : string).

Definition getEnumForPatchName (patchName : string) : result PatchError SchainPatchEnum :=
  if String.eqb patchName "RevertableFSPatch" then Ok RevertableFSPatch
  else if String.eqb patchName "PrecompiledConfigPatch" then Ok PrecompiledConfigPatch
  else if String.eqb patchName "PowCheckPatch" then Ok PowCheckPatch
  else if String.eqb patchName "CorrectForkInPowPatch" then Ok CorrectForkInPowPatch
  else if String.eqb patchName "ContractStorageZeroValuePatch" then Ok ContractStorageZeroValuePatch
  else if String.eqb patchName "PushZeroPatch" then Ok PushZeroPatch
  else if String.eqb patchName "ContractStoragePatch" then Ok ContractStoragePatch
  else if String.eqb patchName "StorageDestructionPatch" then Ok StorageDestructionPatch
  else if String.eqb patchName "SkipInvalidTransactionsPatch" then Ok SkipInvalidTransactionsPatch
  else if String.eqb patchName "VerifyDaSigsPatch" then Ok VerifyDaSigsPatch
  else if String.eqb patchName "FastConsensusPatch" then Ok FastConsensusPatch
  else if String.eqb patchName "EIP1559TransactionsPatch" then Ok EIP1559TransactionsPatch
  else if String.eqb patchName "VerifyBlsSyncPatch" then Ok VerifyBlsSyncPatch
  else if String.eqb patchName "FlexibleDeploymentPatch" then Ok FlexibleDeploymentPatch
  else if String.eqb patchName "ExternalGasPatch" then Ok ExternalGasPatch
  else Err (OutOfRange patchName).

Definition getPatchNameForEnum (enumValue : SchainPatchEnum) : result PatchError string :=
  match enumValue with
  | RevertableFSPatch => Ok "RevertableFSPatch"
  | PrecompiledConfigPatch => Ok "PrecompiledConfigPatch"
  | PowCheckPatch => Ok "PowCheckPatch"
  | CorrectForkInPowPatch => Ok "CorrectForkInPowPatch"
  | ContractStorageZeroValuePatch => Ok "ContractStorageZeroValuePatch"
  | PushZeroPatch => Ok "PushZeroPatch"
  | ContractStoragePatch => Ok "ContractStoragePatch"
  | StorageDestructionPatch => Ok "StorageDestructionPatch"
  | SkipInvalidTransactionsPatch => Ok "SkipInvalidTransactionsPatch"
  | SelfdestructStorageLimitPatch => Ok "SelfdestructStorageLimitPatch"
  | VerifyDaSigsPatch => Ok "VerifyDaSigsPatch"
  | FastConsensusPatch => Ok "FastConsensusPatch"
  | EIP1559TransactionsPatch => Ok "EIP1559TransactionsPatch"
  | VerifyBlsSyncPatch => Ok "VerifyBlsSyncPatch"
  | FlexibleDeploymentPatch => Ok "FlexibleDeploymentPatch"
  | ExternalGasPatch => Ok "ExternalGasPatch"
  | PatchesCount => Err (OutOfRange "UnknownPatch #16")
  end.

(** [SChain::getPatchTimestamp], with [_patchTimestamps], indexed by the patch. *)
Definition getPatchTimestamp (patchTimestamps : list Z) (e : SchainPatchEnum) : Z :=
  if (patchIndex e <? patchIndex PatchesCount)%nat then nth (patchIndex e) patchTimestamps 0 else 0.

Definition isPatchEnabledWhen (patchTimestamps : list Z) (e : SchainPatchEnum) (committedBlockTimestamp : Z) : bool :=
  let activationTimestamp := getPatchTimestamp patchTimestamps e in
  negb (activationTimestamp =? 0) && (committedBlockTimestamp >=? activationTimestamp).

(** [PushZeroPatch::makeSchedule] *)
Definition makeSchedule (base : EVMSchedule) : EVMSchedule := base <| havePush0 := true |>.

(** ** Parameters *)

Record ForkBlocks := mkForkBlocks {
  homesteadForkBlock : Z; EIP150ForkBlock : Z; EIP158ForkBlock : Z; byzantiumForkBlock : Z;
  constantinopleForkBlock : Z; constantinopleFixForkBlock : Z; istanbulForkBlock : Z; experimentalForkBlock : Z }.

(** What a precompiled contract is: the price of an input at a block, its executor (whether it
    succeeded, and its output), the block from which it exists and who may call it.  The executors are
    modelled with their exceptions, failed assertions and disks in files of their own; here they are a
    function of the input, which leaves out calls that end the process and effects on the disk. *)
Record PrecompiledContract := mkPrecompiled {
  m_cost : list Z -> ForkBlocks -> Z -> Z; m_execute : list Z -> bool * list Z;
  m_startingBlock : Z; m_allowed_addresses : gset Z }.

Record ChainOperationParams := mkChainParams {
  forks : ForkBlocks; m_blockReward : Z; chainID : Z; skaleDisableChainIdCheck : bool;
  precompiled : gmap Z PrecompiledContract; patchTimestamps : list Z; externalGasDifficulty : Z }.

Section Params.
Variable cp : ChainOperationParams.

(** The constructor that prices an input by its words. *)
Definition linearPrecompiled (base word : Z) (exec : list Z -> bool * list Z) (startingBlock : Z) (allowed : gset Z) : PrecompiledContract :=
  mkPrecompiled (fun input _ _ => base + (lenZ input + 31) / 32 * word) exec startingBlock allowed.

Definition executionAllowedFrom (p : PrecompiledContract) (from : Z) (readOnly : bool) : bool :=
  bool_decide (m_allowed_addresses p = ∅) || (bool_decide (from ∈ m_allowed_addresses p) && negb readOnly).

(** Where the source calls [precompiled.at], the address is one of the table. *)
Definition isPrecompiled (a blockNumber : Z) : bool :=
  match precompiled cp !! a with Some p => blockNumber >=? m_startingBlock p | None => false end.
Definition costOfPrecompiled (a : Z) (input : list Z) (blockNumber : Z) : option Z :=
  (fun p => m_cost p input (forks cp) blockNumber) <$> precompiled cp !! a.
Definition executePrecompiled (a : Z) (input : list Z) : option (bool * list Z) :=
  (fun p => m_execute p input) <$> precompiled cp !! a.
Definition precompiledExecutionAllowedFrom (a from : Z) (readOnly : bool) : option bool :=
  (fun p => executionAllowedFrom p from readOnly) <$> precompiled cp !! a.

Definition makeEvmSchedule (committedBlockTimestamp workingBlockNumber : Z) : EVMSchedule :=
  let n := workingBlockNumber in
  let patched result :=
    if isPatchEnabledWhen (patchTimestamps cp) PushZeroPatch committedBlockTimestamp then makeSchedule result else result in
  if n >=? experimentalForkBlock (forks cp) then patched ExperimentalSchedule
  else if n >=? istanbulForkBlock (forks cp) then patched IstanbulSchedule
  else if n >=? constantinopleFixForkBlock (forks cp) then patched ConstantinopleFixSchedule
  else if n >=? constantinopleForkBlock (forks cp) then patched ConstantinopleSchedule
  else if n >=? byzantiumForkBlock (forks cp) then patched ByzantiumSchedule
  else if n >=? EIP158ForkBlock (forks cp) then patched EIP158Schedule
  else if n >=? EIP150ForkBlock (forks cp) then patched EIP150Schedule
  else if n >=? homesteadForkBlock (forks cp) then HomesteadSchedule
  else FrontierSchedule.

Definition blockReward (schedule : EVMSchedule) : Z :=
  match blockRewardOverwrite schedule with Some r => r | None => m_blockReward cp end.

(** ** Schedules *)

Lemma makeSchedule_ok s : schedule_ok (makeSchedule s) = schedule_ok s.
Proof. done. Qed.
Lemma makeEvmSchedule_ok t n : schedule_ok (makeEvmSchedule t n) = true.
Proof. unfold makeEvmSchedule. repeat case_match; by vm_compute. Qed.
Lemma makeEvmSchedule_sizes t n : let s := makeEvmSchedule t n in
  0 <= createDataGas s <= 200 /\ 0 <= maxCodeSize s < 2 ^ 62.
Proof. unfold makeEvmSchedule. repeat case_match; vm_compute; split; done. Qed.
End Params.

(** ** Properties *)

(** Patch names.  A patch's name is read back as the patch, and a name that is read is the name of
    the patch it gives; the one exception is SelfdestructStorageLimitPatch, whose name is printed but
    not accepted, so that a configuration which sets its timestamp throws. *)
Theorem patch_name_roundtrip (e : SchainPatchEnum) (n : string) :
  (getPatchNameForEnum e = Ok n ->
   getEnumForPatchName n = if decide (e = SelfdestructStorageLimitPatch) then Err (OutOfRange n) else Ok e) /\
  (getEnumForPatchName n = Ok e -> getPatchNameForEnum e = Ok n).
Proof.
  split.
  - destruct e; intros [= <-]; reflexivity.
  - unfold getEnumForPatchName.
    repeat match goal with |- context [String.eqb n ?m] => destruct (String.eqb_spec n m) as [->|]; [by intros [= <-]|] end. done.
Qed.
Lemma patch_name_roundtrip_witness :
  getEnumForPatchName "PushZeroPatch" = Ok PushZeroPatch /\
  getEnumForPatchName "SelfdestructStorageLimitPatch" = Err (OutOfRange "SelfdestructStorageLimitPatch").
Proof.
  split.
  - exact (proj1 (patch_name_roundtrip PushZeroPatch "PushZeroPatch") eq_refl).
  - exact (proj1 (patch_name_roundtrip SelfdestructStorageLimitPatch "SelfdestructStorageLimitPatch") eq_refl).
Defined.

(** The instructions a schedule enables. *)
Definition instructionFlags (s : EVMSchedule) : list bool :=
  [haveDelegateCall s; haveRevert s; haveReturnData s; haveStaticCall s; haveCreate2 s; haveExtcodehash s;
   haveBitwiseShifting s; haveChainID s; haveSelfbalance s; havePush0 s].
Definition forksOrdered (f : ForkBlocks) : Prop :=
  homesteadForkBlock f <= EIP150ForkBlock f <= EIP158ForkBlock f /\ EIP158ForkBlock f <= byzantiumForkBlock f /\
  byzantiumForkBlock f <= constantinopleForkBlock f <= constantinopleFixForkBlock f /\
  constantinopleFixForkBlock f <= istanbulForkBlock f <= experimentalForkBlock f.
Lemma patch_stays_enabled ts e t t' : t <= t' -> isPatchEnabledWhen ts e t = true -> isPatchEnabledWhen ts e t' = true.
Proof. unfold isPatchEnabledWhen. intros Ht H. boolify. bool_cases; boolify; split; [tauto|lia]. Qed.

(** The schedules in the order of the forks, as positions. *)
Definition forkSchedules : list EVMSchedule :=
  [FrontierSchedule; HomesteadSchedule; EIP150Schedule; EIP158Schedule; ByzantiumSchedule; ConstantinopleSchedule;
   ConstantinopleFixSchedule; IstanbulSchedule; ExperimentalSchedule].
Definition forkOf (f : ForkBlocks) (n : Z) : nat :=
  if n >=? experimentalForkBlock f then 8 else if n >=? istanbulForkBlock f then 7
  else if n >=? constantinopleFixForkBlock f then 6 else if n >=? constantinopleForkBlock f then 5
  else if n >=? byzantiumForkBlock f then 4 else if n >=? EIP158ForkBlock f then 3
  else if n >=? EIP150ForkBlock f then 2 else if n >=? homesteadForkBlock f then 1 else 0.
Definition scheduleAt (i : nat) (push0 : bool) : EVMSchedule :=
  let s := nth i forkSchedules FrontierSchedule in if push0 && (2 <=? i)%nat then makeSchedule s else s.
Lemma makeEvmSchedule_at cp t n :
  makeEvmSchedule cp t n = scheduleAt (forkOf (forks cp) n) (isPatchEnabledWhen (patchTimestamps cp) PushZeroPatch t).
Proof.
  unfold makeEvmSchedule, forkOf. set (b := isPatchEnabledWhen _ _ _). clearbody b.
  destruct b; repeat (destruct (n >=? _); [reflexivity|]); reflexivity.
Qed.
Lemma forkOf_mono f n n' : forksOrdered f -> n <= n' -> (forkOf f n <= forkOf f n' <= 8)%nat.
Proof. unfold forksOrdered, forkOf. intros H Hn. bool_cases; boolify; lia. Qed.
Definition flagsLe (s s' : EVMSchedule) : bool :=
  forallb (fun p => implb (fst p) (snd p)) (zip (instructionFlags s) (instructionFlags s')).
Lemma flags_table : forallb (fun i => forallb (fun j => forallb (fun b => forallb (fun b' =>
    implb (implb b b' && (i <=? j)%nat) (flagsLe (scheduleAt i b) (scheduleAt j b'))) [true; false]) [true; false])
  (seq 0 9)) (seq 0 9) = true.
Proof. vm_compute. reflexivity. Qed.

(** Forks and patches only add instructions.  When the fork blocks are in their order, an
    instruction that is enabled at a block and a time is enabled at every later block and time. *)
Theorem instructions_stay_enabled (cp : ChainOperationParams) (t t' n n' : Z) (i : nat) :
  forksOrdered (forks cp) -> n <= n' -> t <= t' ->
  instructionFlags (makeEvmSchedule cp t n) !! i = Some true -> instructionFlags (makeEvmSchedule cp t' n') !! i = Some true.
Proof.
  intros Hf Hn Ht Hi. rewrite makeEvmSchedule_at in *. destruct (forkOf_mono _ n n' Hf Hn) as [Hle H8].
  pose proof (patch_stays_enabled (patchTimestamps cp) PushZeroPatch t t' Ht) as Hp.
  set (b := isPatchEnabledWhen _ _ t) in *. set (b' := isPatchEnabledWhen _ _ t') in *.
  set (k := forkOf _ n) in *. set (k' := forkOf _ n') in *. clearbody b b' k k'.
  assert (Hflags : flagsLe (scheduleAt k b) (scheduleAt k' b') = true).
  { pose proof flags_table as H. rewrite forallb_forall in H. specialize (H k ltac:(apply in_seq; lia)).
    rewrite forallb_forall in H. specialize (H k' ltac:(apply in_seq; lia)).
    rewrite forallb_forall in H. specialize (H b ltac:(destruct b; simpl; auto)).
    rewrite forallb_forall in H. specialize (H b' ltac:(destruct b'; simpl; auto)).
    replace (implb b b' && (k <=? k')%nat) with true in H; [exact H|]. symmetry.
    apply andb_true_intro. split; [destruct b; simpl; auto|by apply Nat.leb_le]. }
  unfold flagsLe in Hflags. rewrite forallb_forall in Hflags.
  destruct (instructionFlags (scheduleAt k' b') !! i) as [v|] eqn:Hv.
  - assert (Hin : In (true, v) (zip (instructionFlags (scheduleAt k b)) (instructionFlags (scheduleAt k' b')))).
    { apply list_elem_of_In, list_elem_of_lookup. exists i. apply lookup_zip_with_Some. by eexists _, _. }
    specialize (Hflags _ Hin). by destruct v.
  - apply lookup_lt_Some in Hi. apply lookup_ge_None in Hv. simpl in *. lia.
Qed.
Definition sampleForks : ForkBlocks := mkForkBlocks 0 0 0 0 10 10 20 100.
Definition sampleParams : ChainOperationParams := mkChainParams sampleForks 0 1 false ∅ (replicate 16 1000) 1.
Lemma instructions_stay_enabled_witness :
  haveCreate2 (makeEvmSchedule sampleParams 5 10) = true /\
  instructionFlags (makeEvmSchedule sampleParams 1000 20) !! 4%nat = Some true.
Proof.
  split; [reflexivity|]. apply (instructions_stay_enabled sampleParams 5 1000 10 20 4); [repeat split; discriminate|lia|lia|reflexivity].
Defined.
