(* ===== verification/Transaction.v ===== *)
(** * Transactions

    libethcore/TransactionBase.h, TransactionBase.cpp and libethereum/Transaction.h, Transaction.cpp:
    the fields of a transaction, its three RLP formats with their writers and readers, the sender
    recovered from the signature, the gas mined by proof of work, and the base cost.

    A constructor that reads RLP assigns the members one after the other and may throw in between;
    it runs in a monad whose state, the object under construction and the RLP reader with its cache,
    survives a throw.  [sha3] and [recover] (the public key of a signature, as bytes) are parameters.
    The cached hash and the logging are not modelled. *)

From S2P Require Import Prelude CommonData Rlp EVMSchedule ChainParams.
From Stdlib Require Import ZArith Lia Bool.
From stdpp Require Import base list gmap.
Open Scope Z_scope.

(** ** Data *)

Inductive TxKind := NullTransaction | ContractCreation | MessageCall | Invalid.
Inductive TransactionType := Legacy | Type1 | Type2.
#[export] Instance TxKind_dec : EqDecision TxKind.
Proof. solve_decision. Defined.
#[export] Instance TransactionType_dec : EqDecision TransactionType.
Proof. solve_decision. Defined.
Record SignatureStruct := mkSignature { sig_r : Z; sig_s : Z; sig_v : Z }.
Inductive CheckTransaction := CheckNone | CheckCheap | CheckEverything.

Record Transaction := mkTransaction {
  t_type : TxKind; t_txType : TransactionType; t_nonce : Z; t_value : Z; t_gasPrice : Z; t_gas : Z;
  t_data : list Z; t_rawData : list Z; t_accessList : list (list Z); t_maxPriorityFeePerGas : Z;
  t_maxFeePerGas : Z; t_chainId : option Z; t_vrs : option SignatureStruct; t_sender : option Z;
  t_receiveAddress : Z; t_externalGasIsChecked : bool; t_externalGas : option Z }.
#[export] Instance Transaction_expand : Expandable Transaction := fun t => mkTransaction
  (t_type t) (t_txType t) (t_nonce t) (t_value t) (t_gasPrice t) (t_gas t) (t_data t) (t_rawData t)
  (t_accessList t) (t_maxPriorityFeePerGas t) (t_maxFeePerGas t) (t_chainId t) (t_vrs t) (t_sender t)
  (t_receiveAddress t) (t_externalGasIsChecked t) (t_externalGas t).
Definition nullTransaction : Transaction :=
  mkTransaction NullTransaction Legacy 0 0 0 0 [] [] [] 0 0 None None None 0 false None.

Inductive TxError :=
| InvalidTransactionFormat | InvalidSignature | TransactionIsUnsigned | TxRLP (e : RLPError)
| ExternalGasException.

Definition isInvalid (t : Transaction) : bool := bool_decide (t_type t = Invalid).
Definition isCreation (t : Transaction) : bool := bool_decide (t_type t = ContractCreation).
(** [explicit operator bool] *)
Definition tx_nonnull (t : Transaction) : bool := negb (bool_decide (t_type t = NullTransaction)) && negb (isInvalid t).
Definition hasSignature (t : Transaction) : bool := bool_decide (is_Some (t_vrs t)).
Definition isZeroSignature (r s : Z) : bool := (r =? 0) && (s =? 0).
Definition hasZeroSignature (t : Transaction) : bool :=
  match t_vrs t with Some g => isZeroSignature (sig_r g) (sig_s g) | None => false end.
Definition isReplayProtected (t : Transaction) : bool := bool_decide (is_Some (t_chainId t)).

Definition c_secp256k1n : Z := 115792089237316195423570985008687907852837564279074904382605163141518161494337.
Definition sig_isValid (g : SignatureStruct) : bool :=
  (sig_v g <=? 1) && (sig_r g >? 0) && (sig_s g >? 0) && (sig_r g <? c_secp256k1n) && (sig_s g <? c_secp256k1n).

Definition checkLowS (t : Transaction) : result TxError unit :=
  match t_vrs t with
  | None => Err TransactionIsUnsigned
  | Some g => if sig_s g >? c_secp256k1n / 2 then Err InvalidSignature else Ok tt
  end.
Definition checkChainId (t : Transaction) (chainId : Z) (disableChainIdCheck : bool) : result TxError unit :=
  if negb disableChainIdCheck && negb (isReplayProtected t) then Err InvalidTransactionFormat
  else match t_chainId t with
       | Some c => if c =? chainId then Ok tt else Err InvalidSignature
       | None => Ok tt
       end.

(** ** Writing *)

Definition MAX_ACCESS_LIST_COUNT : Z := 16.
Definition addressBytes (a : Z) : list Z := toBigEndian 20 a.
Definition wRLP {A} (r : result RLPError A) : result TxError A := match r with Ok a => Ok a | Err e => Err (TxRLP e) end.

(** [_s << a << b ...], one after the other. *)
Fixpoint appendInts (s : RLPStream) (l : list Z) : result TxError RLPStream :=
  match l with [] => Ok s | i :: l' => let? s' := wRLP (appendInt s i) in appendInts s' l' end.
Definition streamTo (t : Transaction) (s : RLPStream) : result TxError RLPStream :=
  wRLP (append s (if bool_decide (t_type t = MessageCall) then addressBytes (t_receiveAddress t) else []) false).
(** [_s << accessListToRLPs( m_accessList )] *)
Definition streamAccessList (s : RLPStream) (l : list (list Z)) : result TxError RLPStream :=
  let? s1 := wRLP (appendList s (lenZ l)) in
  rfold (fun s bs => let? r := wRLP (RLP_ctor bs VeryStrict) in wRLP (appendRaw s r 1)) s1 l.

Definition streamLegacyTransaction (t : Transaction) (sig forEip155hash : bool) : result TxError RLPStream :=
  let? s0 := wRLP (appendList emptyStream ((if sig || forEip155hash then 3 else 0) + 6)) in
  let? s1 := appendInts s0 [t_nonce t; t_gasPrice t; t_gas t] in
  let? s2 := streamTo t s1 in
  let? s3 := appendInts s2 [t_value t] in
  let? s4 := wRLP (append s3 (t_data t) false) in
  if sig then
    match t_vrs t with
    | None => Err TransactionIsUnsigned
    | Some g =>
        let v := if hasZeroSignature t then default 0 (t_chainId t)
                 else u64 (sig_v g + match t_chainId t with Some c => u64 (c * 2 + 35) | None => 27 end) in
        appendInts s4 [v; sig_r g; sig_s g]
    end
  else if forEip155hash then appendInts s4 [default 0 (t_chainId t); 0; 0] else Ok s4.

(** Without a signature the source dereferences an empty optional here. *)
Definition streamSig (t : Transaction) (sig : bool) (s : RLPStream) : result TxError RLPStream :=
  if sig then
    match t_vrs t with None => Err TransactionIsUnsigned | Some g => appendInts s [sig_v g; sig_r g; sig_s g] end
  else Ok s.
Definition streamType1Transaction (t : Transaction) (sig : bool) : result TxError RLPStream :=
  let? s0 := wRLP (appendList emptyStream ((if sig then 3 else 0) + 8)) in
  match t_chainId t with
  | None => Err InvalidTransactionFormat
  | Some c =>
      let? s1 := appendInts s0 [c; t_nonce t; t_gasPrice t; t_gas t] in
      let? s2 := streamTo t s1 in
      let? s3 := appendInts s2 [t_value t] in
      let? s4 := wRLP (append s3 (t_data t) false) in
      let? s5 := streamAccessList s4 (t_accessList t) in
      streamSig t sig s5
  end.
Definition streamType2Transaction (t : Transaction) (sig : bool) : result TxError RLPStream :=
  let? s0 := wRLP (appendList emptyStream ((if sig then 3 else 0) + 9)) in
  match t_chainId t with
  | None => Err InvalidTransactionFormat
  | Some c =>
      let? s1 := appendInts s0 [c; t_nonce t; t_maxPriorityFeePerGas t; t_maxFeePerGas t; t_gas t] in
      let? s2 := streamTo t s1 in
      let? s3 := appendInts s2 [t_value t] in
      let? s4 := wRLP (append s3 (t_data t) false) in
      let? s5 := streamAccessList s4 (t_accessList t) in
      streamSig t sig s5
  end.

Definition streamRLP (t : Transaction) (sig forEip155hash : bool) : result TxError RLPStream :=
  if isInvalid t then wRLP (appendRaw emptyStream (t_rawData t) 1)
  else if bool_decide (t_type t = NullTransaction) then Ok emptyStream
  else match t_txType t with
       | Legacy => streamLegacyTransaction t sig forEip155hash
       | Type1 => streamType1Transaction t sig
       | Type2 => streamType2Transaction t sig
       end.
Definition typeByte (ty : TransactionType) : Z := match ty with Legacy => 0 | Type1 => 1 | Type2 => 2 end.
(** [toBytes]: the RLP, after the type byte when the format is not the old one. *)
Definition tx_toBytes (t : Transaction) (sig forEip155hash : bool) : result TxError (list Z) :=
  let? s := streamRLP t sig forEip155hash in
  let? o := wRLP (out s) in
  Ok (if bool_decide (t_txType t = Legacy) then o else typeByte (t_txType t) :: o).

(** ** Reading members *)

Definition TM (A : Type) : Type := RLP * Transaction -> result TxError A * (RLP * Transaction).
Definition tret {A} (a : A) : TM A := fun s => (Ok a, s).
Definition tbind {A B} (m : TM A) (k : A -> TM B) : TM B := fun s =>
  match m s with (Ok a, s') => k a s' | (Err e, s') => (Err e, s') end.
Definition tthrow {A} (e : TxError) : TM A := fun s => (Err e, s).
Definition tlift {A} (r : result TxError A) : TM A := fun s => (r, s).
Definition tset (f : Transaction -> Transaction) : TM unit := fun s => (Ok tt, (fst s, f (snd s))).
Definition tget {A} (f : Transaction -> A) : TM A := fun s => (Ok (f (snd s)), s).
Notation "'let%' x := m 'in' k" := (tbind m (fun x => k))
  (at level 200, x name, m at level 100, k at level 200).
Notation "m >> k" := (tbind m (fun _ => k)) (at level 100, k at level 200, right associativity).
Definition check (b : bool) (e : TxError) : TM unit := if b then tret tt else tthrow e.

(** [rlp[i]] *)
Definition rlpAt (i : Z) : TM (list Z) := fun s =>
  match index (fst s) i with
  | Ok (r', d) => (Ok d, (r', snd s))
  | Err e => (Err (TxRLP e), s)
  end.
Definition intAt (i : Z) : TM Z := let% d := rlpAt i in tlift (wRLP (toInt 256 32 d Strict)).

(** A list that was read; its iteration always ends. *)
Definition listOf (d : list Z) : result TxError (list (list Z)) :=
  match toList d Strict with Some r => wRLP r | None => Err InvalidTransactionFormat end.
Definition validAccess (d : list Z) : result TxError unit :=
  if negb (isList d) then Err InvalidTransactionFormat
  else let? l := listOf d in
       match l with
       | [a; ks] =>
           if negb (isData a) || negb (isList ks) then Err InvalidTransactionFormat
           else let? keys := listOf ks in
                if forallb isData keys then Ok tt else Err InvalidTransactionFormat
       | _ => Err InvalidTransactionFormat
       end.
Definition validateAccessListRLP (d : list Z) : result TxError (list (list Z)) :=
  if negb (isList d) then Err InvalidTransactionFormat
  else let? l := listOf d in
       match l with
       | [] => Ok []
       | _ => let? u := rfold (fun _ x => validAccess x) tt l in
              if lenZ l >? MAX_ACCESS_LIST_COUNT then Err InvalidTransactionFormat else Ok l
       end.

(** The recipient at [i], the value and the data at the two places after it. *)
Definition readTo (i : Z) : TM unit :=
  let% d := rlpAt i in
  check (isData d) InvalidTransactionFormat >>
  tset (fun t => t <| t_type := if isEmpty d then ContractCreation else MessageCall |>) >>
  let% a := (if isEmpty d then tret 0
             else let% h := tlift (wRLP (toHash 20 d VeryStrict)) in tret (fromBigEndian 160 h)) in
  tset (fun t => t <| t_receiveAddress := a |>) >>
  let% v := intAt (i + 1) in tset (fun t => t <| t_value := v |>) >>
  let% b := rlpAt (i + 2) in
  check (isData b) InvalidTransactionFormat >>
  let% dat := tlift (wRLP (toBytes b LaissezFaire)) in tset (fun t => t <| t_data := dat |>).

Definition checkSig (c : CheckTransaction) : TM unit :=
  match c with
  | CheckNone => tret tt
  | _ => let% g := tget t_vrs in
         check (match g with Some g => sig_isValid g | None => false end) InvalidSignature
  end.

(** ** Hash and sender *)

Section Crypto.
Variable sha3 : list Z -> Z.
Variable recover : SignatureStruct -> Z -> option (list Z).

Definition MaxAddress : Z := 2 ^ 160 - 1.
Definition SystemAddress : Z := 2 ^ 160 - 2.
Definition right160 (h : Z) : Z := h mod 2 ^ 160.

(** [TransactionBase::sha3] *)
Definition tx_sha3 (t : Transaction) (sig : bool) : result TxError Z :=
  if negb (isInvalid t) then
    let? s := streamRLP t sig (isReplayProtected t && negb sig) in
    let? o := wRLP (out s) in
    Ok (sha3 (if bool_decide (t_txType t = Legacy) then o else typeByte (t_txType t) :: o))
  else let? d := wRLP (RLP_ctor (t_rawData t) VeryStrict) in
       let? p := wRLP (payload d) in
       Ok (sha3 p).

(** [sender]; the address is cached by the caller that wants it. *)
Definition sender (t : Transaction) : result TxError Z :=
  match t_sender t with
  | Some a => Ok a
  | None =>
      if isInvalid t || hasZeroSignature t then Ok MaxAddress
      else match t_vrs t with
           | None => Err TransactionIsUnsigned
           | Some g =>
               let? h := tx_sha3 t false in
               match recover g h with
               | None => Err InvalidSignature
               | Some p => Ok (right160 (sha3 p))
               end
           end
  end.

(** ** Reading transactions *)

Definition readSender (c : CheckTransaction) : TM unit :=
  match c with
  | CheckEverything => let% r := tget sender in let% a := tlift r in tset (fun t => t <| t_sender := Some a |>)
  | _ => tret tt
  end.
Definition checkCount (n : Z) : TM unit := fun s =>
  match (if isList (m_data (fst s)) then items (m_data (fst s)) else Some (Ok 0)) with
  | Some (Ok k) => check (negb (k >? n)) InvalidTransactionFormat s
  | Some (Err e) => (Err (TxRLP e), s)
  | None => (Err InvalidTransactionFormat, s)
  end.
Definition checkList : TM unit := fun s => check (isList (m_data (fst s))) InvalidTransactionFormat s.

Definition readLegacy (c : CheckTransaction) : TM unit :=
  checkList >>
  let% n := intAt 0 in tset (fun t => t <| t_nonce := n |>) >>
  let% p := intAt 1 in tset (fun t => t <| t_gasPrice := p |>) >>
  let% g := intAt 2 in tset (fun t => t <| t_gas := g |>) >>
  readTo 3 >>
  let% v := intAt 6 in
  let% r := intAt 7 in
  let% s := intAt 8 in
  (if isZeroSignature r s then tset (fun t => t <| t_chainId := Some (u64 v) |> <| t_vrs := Some (mkSignature r s 0) |>)
   else
     (if v >? 36 then
        let chainId := u256 (v - 35) / 2 in
        check (negb (chainId >? 2 ^ 64 - 1)) InvalidSignature >>
        tset (fun t => t <| t_chainId := Some chainId |>)
      else check ((v =? 27) || (v =? 28)) InvalidSignature) >>
     let% cid := tget t_chainId in
     let recoveryID := match cid with Some i => u8 (v - (i * 2 + 35)) | None => u8 (v - 27) end in
     tset (fun t => t <| t_vrs := Some (mkSignature r s recoveryID) |>) >>
     checkSig c) >>
  readSender c >>
  tset (fun t => t <| t_txType := Legacy |>) >>
  checkCount 9.

(** From the access list at [i] to the end, for the two typed formats. *)
Definition readTyped (c : CheckTransaction) (i : Z) (ty : TransactionType) : TM unit :=
  let% d := rlpAt i in
  let% l := tlift (validateAccessListRLP d) in tset (fun t => t <| t_accessList := l |>) >>
  let% dv := rlpAt (i + 1) in
  let% v := tlift (wRLP (toInt 8 1 dv Strict)) in
  let% r := intAt (i + 2) in
  let% s := intAt (i + 3) in
  tset (fun t => t <| t_vrs := Some (mkSignature r s (if v =? 0 then 0 else 1)) |>) >>
  checkSig c >>
  tset (fun t => t <| t_txType := ty |>) >>
  readSender c >>
  checkCount (i + 4).
Definition readType1 (c : CheckTransaction) : TM unit :=
  checkList >>
  let% i := intAt 0 in tset (fun t => t <| t_chainId := Some (u64 i) |>) >>
  let% n := intAt 1 in tset (fun t => t <| t_nonce := n |>) >>
  let% p := intAt 2 in tset (fun t => t <| t_gasPrice := p |>) >>
  let% g := intAt 3 in tset (fun t => t <| t_gas := g |>) >>
  readTo 4 >>
  readTyped c 7 Type1.
Definition readType2 (c : CheckTransaction) : TM unit :=
  checkList >>
  let% i := intAt 0 in tset (fun t => t <| t_chainId := Some (u64 i) |>) >>
  let% n := intAt 1 in tset (fun t => t <| t_nonce := n |>) >>
  let% p := intAt 2 in tset (fun t => t <| t_maxPriorityFeePerGas := p |>) >>
  let% m := intAt 3 in tset (fun t => t <| t_maxFeePerGas := m |>) >>
  let% prio := tget t_maxPriorityFeePerGas in
  check (negb (prio >? prio)) InvalidTransactionFormat >>
  tset (fun t => t <| t_gasPrice := t_maxFeePerGas t |>) >>
  let% g := intAt 4 in tset (fun t => t <| t_gas := g |>) >>
  readTo 5 >>
  readTyped c 8 Type2.

(** [fillFromBytes...]: [raw] is kept when the format is invalid and that is allowed. *)
Definition fillWith (body : TM unit) (rlpData raw : list Z) (allowInvalid : bool) (t : Transaction) : result TxError unit * Transaction :=
  match RLP_ctor rlpData VeryStrict with
  | Err e => (Err (TxRLP e), t)
  | Ok d =>
      match body (RLP_of d, t) with
      | (Ok _, (_, t')) => (Ok tt, t')
      | (Err e, (_, t')) =>
          let t'' := t' <| t_type := Invalid |> <| t_rawData := raw |> in
          (if allowInvalid then Ok tt else Err e, t'')
      end
  end.
Definition fillFromBytesByType (data : list Z) (c : CheckTransaction) (allowInvalid : bool) (ty : TransactionType) (t : Transaction) :=
  match ty with
  | Legacy => fillWith (readLegacy c) data data allowInvalid t
  | Type1 => fillWith (readType1 c) (tail data) data allowInvalid t
  | Type2 => fillWith (readType2 c) (tail data) data allowInvalid t
  end.
Definition getTransactionType (data : list Z) : TransactionType :=
  match data with
  | [] => Legacy
  | b :: _ => if b >? 2 then Legacy else if b =? 0 then Legacy else if b =? 1 then Type1 else Type2
  end.
(** The constructor from RLP. *)
Definition tx_ofBytes (data : list Z) (c : CheckTransaction) (allowInvalid eip1559Enabled : bool) : result TxError Transaction :=
  let ty := if eip1559Enabled then getTransactionType data else Legacy in
  match fillFromBytesByType data c allowInvalid ty nullTransaction with
  | (Ok _, t) => Ok t
  | (Err e, t) =>
      if allowInvalid then
        let? s := wRLP (append emptyStream data false) in
        let? o := wRLP (out s) in
        Ok (t <| t_type := Invalid |> <| t_rawData := o |>)
      else Err e
  end.

(** ** Gas *)

Definition baseGasRequired (contractCreation : bool) (dat : list Z) (es : EVMSchedule) : Z :=
  foldl (fun g i => i64 (g + (if negb (i =? 0) then txDataNonZeroGas es else txDataZeroGas es)))
    (if contractCreation then txCreateGas es else txGas es) dat.
Definition tx_baseGasRequired (t : Transaction) (es : EVMSchedule) : Z := baseGasRequired (isCreation t) (t_data t) es.

Definition hasExternalGas (t : Transaction) : result TxError bool :=
  if negb (t_externalGasIsChecked t) then Err ExternalGasException else Ok (bool_decide (is_Some (t_externalGas t))).
Definition getExternalGas (t : Transaction) : Z := if t_externalGasIsChecked t then default 0 (t_externalGas t) else 0.
(** [TransactionBase::gas] and [Transaction::gasPrice] *)
Definition gas (t : Transaction) : Z := if negb (getExternalGas t =? 0) then getExternalGas t else t_gas t.
Definition nonPowGas (t : Transaction) : Z := t_gas t.
Definition tx_gasPrice (t : Transaction) : Z :=
  if t_externalGasIsChecked t && bool_decide (is_Some (t_externalGas t)) then 0 else t_gasPrice t.

(** [scheduleForUse] *)
Definition powSchedule (cp : ChainOperationParams) (committedBlockTimestamp committedBlockNumber : Z) : EVMSchedule :=
  if isPatchEnabledWhen (patchTimestamps cp) CorrectForkInPowPatch committedBlockTimestamp
  then makeEvmSchedule cp committedBlockTimestamp committedBlockNumber else ConstantinopleSchedule.
Definition checkOutExternalGas (cp : ChainOperationParams) (committedBlockTimestamp committedBlockNumber : Z) (t : Transaction) :
    result TxError Transaction :=
  if isInvalid t then Ok t
  else
    let? from := sender t in
    let fixed := isPatchEnabledWhen (patchTimestamps cp) ExternalGasPatch committedBlockTimestamp in
    let t1 := if fixed then t <| t_externalGasIsChecked := false |> <| t_externalGas := None |> else t in
    let word v := sha3 (toBigEndian 32 v) in
    let hash := Z.lxor (Z.lxor (sha3 (addressBytes from)) (word (t_nonce t)))
                       (word (if fixed then t_gasPrice t else tx_gasPrice t)) in
    let hash := if hash =? 0 then 1 else hash in
    let externalGas := (2 ^ 256 - 1) / hash / externalGasDifficulty cp in
    Ok ((if externalGas >=? tx_baseGasRequired t1 (powSchedule cp committedBlockTimestamp committedBlockNumber) then t1 <| t_externalGas := Some externalGas |> else t1)
          <| t_externalGasIsChecked := true |>).
End Crypto.
