(* ===== verification/TransactionClaims.v ===== *)
(** * Properties of transactions

    The item tree that each of the three formats writes, the reader on such a tree, the round trip of
    a signed transaction, and what the format of type 2 does not check. *)

From S2P Require Import Prelude CommonData Rlp EVMSchedule ChainParams Transaction.
From Stdlib Require Import ZArith Lia Bool.
From stdpp Require Import base list gmap.
Open Scope Z_scope.

(** ** The item tree of a transaction *)

Definition intItem (i : Z) : item := Str (toCompactBigEndian i 0).
Definition toItem (t : Transaction) : item :=
  Str (if bool_decide (t_type t = MessageCall) then addressBytes (t_receiveAddress t) else []).
Definition accessItem (a : list Z * list (list Z)) : item := Lst [Str (fst a); Lst (map Str (snd a))].
Definition legacyV (t : Transaction) (g : SignatureStruct) : Z :=
  sig_v g + match t_chainId t with Some c => c * 2 + 35 | None => 27 end.
Definition txItems (t : Transaction) (g : SignatureStruct) (accs : list (list Z * list (list Z))) : list item :=
  match t_txType t with
  | Legacy => [intItem (t_nonce t); intItem (t_gasPrice t); intItem (t_gas t)]
  | Type1 => [intItem (default 0 (t_chainId t)); intItem (t_nonce t); intItem (t_gasPrice t); intItem (t_gas t)]
  | Type2 => [intItem (default 0 (t_chainId t)); intItem (t_nonce t); intItem (t_maxPriorityFeePerGas t);
              intItem (t_maxFeePerGas t); intItem (t_gas t)]
  end ++ [toItem t; intItem (t_value t); Str (t_data t)] ++
  match t_txType t with
  | Legacy => [intItem (legacyV t g)]
  | _ => [Lst (map accessItem accs); intItem (sig_v g)]
  end ++ [intItem (sig_r g); intItem (sig_s g)].

(** ** Writing *)

(** The stream with the list of the transaction open, [k] members missing; closed when none is. *)
Definition streamAt (k : Z) (its : list item) : RLPStream :=
  if k =? 0 then mkStream (enc (Lst its)) [] else mkStream (concat (map enc its)) [(k, 0)].
Definition bodySize (its : list item) : Z := lenZ (concat (map enc its)).

Lemma bodySize_app a b : bodySize (a ++ b) = bodySize a + bodySize b.
Proof. unfold bodySize. by rewrite map_app, concat_app, lenZ_app. Qed.
Lemma bodySize_nonneg a : 0 <= bodySize a.
Proof. apply lenZ_nonneg. Qed.

Lemma streamAt_out k its : 1 <= k -> m_out (streamAt k its) = concat (map enc its).
Proof. intros. unfold streamAt. destruct (Z.eqb_spec k 0); [lia|done]. Qed.
Lemma streamAt_stack k its : 1 <= k -> m_listStack (streamAt k its) = [(k, 0)].
Proof. intros. unfold streamAt. destruct (Z.eqb_spec k 0); [lia|done]. Qed.
Lemma streamAt_add k its x : 1 <= k -> bodySize (its ++ [x]) < 2 ^ 64 ->
  noteAppended (mkStream (m_out (streamAt k its) ++ enc x) (m_listStack (streamAt k its))) 1
  = Ok (streamAt (k - 1) (its ++ [x])).
Proof.
  intros Hk Hs. rewrite streamAt_out, streamAt_stack by done.
  assert (Hc : concat (map enc its) ++ enc x = concat (map enc (its ++ [x]))).
  { rewrite map_app, concat_app. simpl. by rewrite app_nil_r. }
  rewrite Hc. destruct (Z.eq_dec k 1) as [->|Hne].
  - change (1, 0) with (1, lenZ (@nil Z)). rewrite <- (app_nil_l (concat _)), noteAppended_close by done. done.
  - rewrite noteAppended_more by lia. unfold streamAt. destruct (Z.eqb_spec (k - 1) 0); [lia|done].
Qed.

Lemma streamAt_open n : n <> 0 -> appendList emptyStream n = Ok (streamAt n []).
Proof. intros. unfold appendList, streamAt. by destruct (Z.eqb_spec n 0). Qed.
Lemma streamAt_ints l k its : Forall (fun i => 0 <= i < 2 ^ 256) l -> lenZ l <= k ->
  bodySize (its ++ map intItem l) < 2 ^ 64 ->
  appendInts (streamAt k its) l = Ok (streamAt (k - lenZ l) (its ++ map intItem l)).
Proof.
  intros Hl. revert k its. induction Hl as [|i l Hi Hl IH]; intros k its Hk Hs.
  - simpl. rewrite app_nil_r. do 2 f_equal. change (lenZ []) with 0. lia.
  - rewrite lenZ_cons in *. pose proof (lenZ_nonneg l). cbn [appendInts].
    assert (Hb : bytesRequired i < 2 ^ 64) by (pose proof (compact_small i Hi); lia).
    change (map intItem (i :: l)) with ([intItem i] ++ map intItem l) in *. rewrite app_assoc in *.
    rewrite appendInt_spec by lia. change (encStr _) with (enc (intItem i)).
    rewrite streamAt_add; [|lia|rewrite bodySize_app in Hs; pose proof (bodySize_nonneg (map intItem l)); lia].
    simpl. rewrite IH; [|lia|done]. do 2 f_equal. lia.
Qed.
Lemma streamAt_str bs k its : 1 <= k -> lenZ bs < 2 ^ 64 -> bodySize (its ++ [Str bs]) < 2 ^ 64 ->
  append (streamAt k its) bs false = Ok (streamAt (k - 1) (its ++ [Str bs])).
Proof. intros. rewrite append_spec by done. change (encStr bs) with (enc (Str bs)). by rewrite streamAt_add. Qed.

(** The access list: a list in the open list, its members raw. *)
Lemma rawItems_spec pre st l : Forall item_ok l -> l <> [] -> forall dn,
  lenZ (concat (map enc dn) ++ concat (map enc l)) < 2 ^ 64 ->
  rfold (fun s bs => let? r := wRLP (RLP_ctor bs VeryStrict) in wRLP (appendRaw s r 1))
    (mkStream (pre ++ concat (map enc dn)) ((lenZ l, lenZ pre) :: st)) (map enc l)
  = wRLP (noteAppended (mkStream (pre ++ enc (Lst (dn ++ l))) st) 1).
Proof.
  induction 1 as [|x l Hx Hl IH]; intros Hne dn Hs; [done|]. cbn [map rfold].
  pose proof (RLP_ctor_reads _ _ _ VeryStrict (reads_enc x [] Hx)) as ->. cbn [wRLP rbind]. unfold appendRaw. cbn [m_out m_listStack].
  rewrite <- app_assoc.
  assert (Hc : concat (map enc dn) ++ enc x = concat (map enc (dn ++ [x]))).
  { rewrite map_app, concat_app. simpl. by rewrite app_nil_r. }
  rewrite Hc. destruct l as [|y l].
  - change (lenZ [x]) with 1. simpl in Hs. rewrite app_nil_r, Hc in Hs. rewrite noteAppended_close by done.
    change (encLst _) with (enc (Lst (dn ++ [x]))). simpl. by destruct (noteAppended _ 1).
  - rewrite lenZ_cons, noteAppended_more.
    2:{ rewrite lenZ_cons. pose proof (lenZ_nonneg l). lia. }
    cbn [wRLP rbind]. replace (1 + lenZ (y :: l) - 1) with (lenZ (y :: l)) by lia.
    rewrite IH; [|done|].
    + by rewrite <- app_assoc.
    + rewrite <- Hc, <- app_assoc. done.
Qed.
Lemma streamAt_access l k its : 1 <= k -> item_ok (Lst l) -> bodySize (its ++ [Lst l]) < 2 ^ 64 ->
  streamAccessList (streamAt k its) (map enc l) = Ok (streamAt (k - 1) (its ++ [Lst l])).
Proof.
  intros Hk Hok Hs. unfold streamAccessList. 
  transitivity (wRLP (noteAppended (mkStream (m_out (streamAt k its) ++ enc (Lst l)) (m_listStack (streamAt k its))) 1));
    [|by rewrite streamAt_add].
  replace (lenZ (map enc l)) with (lenZ l) by (unfold lenZ; by rewrite length_map).
  destruct l as [|x l].
  - change (lenZ []) with 0. rewrite appendList_0. change (enc (Lst [])) with (encLst []).
    simpl. by destruct (noteAppended _ 1).
  - unfold appendList. destruct (Z.eqb_spec (lenZ (x :: l)) 0) as [E|E]; [by apply lenZ_0 in E|].
    cbn [negb wRLP rbind]. rewrite <- (app_nil_r (m_out (streamAt k its))) at 1.
    change (@nil Z) with (concat (map enc [])). rewrite rawItems_spec; [|by apply item_ok_members|done|].
    + done.
    + pose proof (members_small _ Hok). simpl. simpl in H. lia.
Qed.

(** ** Signed transactions *)

Definition is_word (i : Z) : Prop := 0 <= i < 2 ^ 256.
(** A signed transaction of one of the three formats, as its fields can be written and read: a legacy
    chain id from 1 to the largest whose recovery id stays in 64 bits, at most 16 well-formed access
    entries, no field of another format, sizes that RLP can hold. *)
Record signed (t : Transaction) (g : SignatureStruct) (accs : list (list Z * list (list Z))) : Prop := {
  so_type : (t_type t = MessageCall /\ 0 <= t_receiveAddress t < 2 ^ 160) \/
            (t_type t = ContractCreation /\ t_receiveAddress t = 0);
  so_ints : Forall is_word [t_nonce t; t_value t; t_gasPrice t; t_gas t; t_maxPriorityFeePerGas t; t_maxFeePerGas t];
  so_sig : t_vrs t = Some g /\ sig_isValid g = true /\ 0 <= sig_v g;
  so_chain : match t_txType t, t_chainId t with
             | Legacy, None => True
             | Legacy, Some c => 1 <= c /\ c * 2 + 36 < 2 ^ 64
             | _, Some c => 0 <= c < 2 ^ 64
             | _, None => False
             end;
  so_access : t_accessList t = map enc (map accessItem accs) /\ lenZ accs <= MAX_ACCESS_LIST_COUNT;
  so_format : match t_txType t with
              | Legacy => accs = [] /\ t_maxPriorityFeePerGas t = 0 /\ t_maxFeePerGas t = 0
              | Type1 => t_maxPriorityFeePerGas t = 0 /\ t_maxFeePerGas t = 0
              | Type2 => t_gasPrice t = t_maxFeePerGas t
              end;
  so_fresh : t_rawData t = [] /\ t_sender t = None /\ t_externalGasIsChecked t = false /\ t_externalGas t = None;
  so_size : item_ok (Lst (txItems t g accs)) }.

Lemma sig_words g : sig_isValid g = true -> 0 <= sig_v g ->
  0 <= sig_v g <= 1 /\ 0 < sig_r g < 2 ^ 256 /\ 0 < sig_s g < 2 ^ 256.
Proof.
  unfold sig_isValid. rewrite !andb_true_iff, !Z.gtb_lt, !Z.ltb_lt, Z.leb_le. intros.
  assert (c_secp256k1n < 2 ^ 256) by (vm_compute; done). lia.
Qed.

Lemma bodySize_prefix a b n : bodySize (a ++ b) < n -> bodySize a < n.
Proof. rewrite bodySize_app. pose proof (bodySize_nonneg b). lia. Qed.

Lemma item_ok_member its k x : item_ok (Lst its) -> its !! k = Some x -> item_ok x.
Proof. intros H. apply Forall_lookup_1, item_ok_members, H. Qed.

Lemma wOk {A} (r : result RLPError A) a : r = Ok a -> wRLP r = Ok a.
Proof. by intros ->. Qed.

Ltac words := repeat (apply Forall_cons; split); try apply Forall_nil; try (unfold is_word in *; lia).

(** The formats agree on the members from the recipient to the data. *)
Lemma stream_body {A} (K : RLPStream -> result TxError A) t k hs : Forall is_word hs -> is_word (t_value t) ->
  lenZ hs + 3 <= k -> item_ok (Str (t_data t)) ->
  bodySize (map intItem hs ++ [toItem t; intItem (t_value t); Str (t_data t)]) < 2 ^ 64 ->
  (let? s1 := appendInts (streamAt k []) hs in
   let? s2 := streamTo t s1 in
   let? s3 := appendInts s2 [t_value t] in
   let? s4 := wRLP (append s3 (t_data t) false) in K s4)
  = K (streamAt (k - lenZ hs - 3) (map intItem hs ++ [toItem t; intItem (t_value t); Str (t_data t)])).
Proof.
  intros Hhs Hval Hk [_ Hd] Hs. pose proof sizeLimit_lt. pose proof (lenZ_nonneg hs).
  assert (Hpre : forall a b, a ++ b = map intItem hs ++ [toItem t; intItem (t_value t); Str (t_data t)] -> bodySize a < 2 ^ 64)
    by (intros a b Hab; apply (bodySize_prefix a b); by rewrite Hab).
  rewrite streamAt_ints; [|done|lia|by eapply Hpre]. cbn [rbind app]. set (its := map intItem hs) in *.
  assert (Hto : streamTo t (streamAt (k - lenZ hs) its) = Ok (streamAt (k - lenZ hs - 1) (its ++ [toItem t]))).
  { apply wOk, streamAt_str; [lia| |by eapply (Hpre _ [_; _]); rewrite <- app_assoc].
    unfold addressBytes. case_bool_decide; [rewrite toBigEndian_lenZ|]; done. }
  rewrite Hto. cbn [rbind]. rewrite streamAt_ints; [|words|change (lenZ [t_value t]) with 1; lia|eapply (Hpre _ [_]); rewrite <- !app_assoc; done].
  cbn [rbind map]. change (lenZ [t_value t]) with 1. rewrite streamAt_str; [|lia|lia|rewrite <- !app_assoc; done].
  cbn [wRLP rbind]. rewrite <- !app_assoc. do 2 f_equal. lia.
Qed.

Lemma stream_sig t g k its : t_vrs t = Some g -> sig_isValid g = true -> 0 <= sig_v g -> 3 <= k ->
  bodySize (its ++ map intItem [sig_v g; sig_r g; sig_s g]) < 2 ^ 64 ->
  streamSig t true (streamAt k its) = Ok (streamAt (k - 3) (its ++ map intItem [sig_v g; sig_r g; sig_s g])).
Proof.
  intros Hg Hv Hv0 Hk Hs. destruct (sig_words g Hv Hv0) as (? & ? & ?). unfold streamSig. rewrite Hg.
  by rewrite streamAt_ints; [|words|change (lenZ [_; _; _]) with 3; lia|].
Qed.

Lemma txItems_data t g accs : item_ok (Lst (txItems t g accs)) -> item_ok (Str (t_data t)).
Proof.
  intros Hok. destruct (t_txType t) eqn:E; unfold txItems in Hok; rewrite E in Hok;
    [apply (item_ok_member _ 5 _ Hok)|apply (item_ok_member _ 6 _ Hok)|apply (item_ok_member _ 7 _ Hok)]; done.
Qed.

Lemma streamRLP_signed t g accs : signed t g accs ->
  streamRLP t true false = Ok (mkStream (enc (Lst (txItems t g accs))) []).
Proof.
  intros [Hty Hi (Hg & Hv & Hv0) Hch [Hac Hcnt] Hf _ Hok]. destruct (sig_words g Hv Hv0) as (Hgv & Hgr & Hgs).
  pose proof (members_small _ Hok) as Hs. fold (bodySize (txItems t g accs)) in Hs.
  pose proof (txItems_data _ _ _ Hok) as Hdata.
  rewrite !Forall_cons in Hi. destruct Hi as (? & ? & ? & ? & ? & ? & _).
  assert (Hpre : forall a b, a ++ b = txItems t g accs -> bodySize a < 2 ^ 64)
    by (intros a b Hab; apply (bodySize_prefix a b); rewrite Hab; lia).
  unfold streamRLP, isInvalid. rewrite !bool_decide_false by (destruct Hty as [[-> _]|[-> _]]; done).
  destruct (t_txType t) eqn:E;
    [unfold streamLegacyTransaction|unfold streamType1Transaction|unfold streamType2Transaction];
    unfold txItems in *; rewrite E in *; cbn [app] in *; rewrite streamAt_open by done; cbn [wRLP rbind orb Z.add].
  - rewrite stream_body; [|words|done|done|done|eapply Hpre; done]. rewrite Hg.
    unfold hasZeroSignature, isZeroSignature. rewrite Hg. destruct (Z.eqb_spec (sig_r g) 0); [lia|]. cbn [andb].
    replace (u64 _) with (legacyV t g).
    2:{ unfold legacyV. destruct (t_chainId t); [rewrite (wrap_small 64 (_ * 2 + 35)) by lia|]; rewrite wrap_small; lia. }
    rewrite streamAt_ints; [done| |done|eapply Hpre; rewrite app_nil_r; done].
    words; unfold legacyV; destruct (t_chainId t); lia.
  - destruct (t_chainId t) as [c|]; [|done]. rewrite stream_body; [|words|done|done|done|eapply Hpre; done].
    assert (item_ok (Lst (map accessItem accs))) by (apply (item_ok_member _ 7 _ Hok); done).
    rewrite Hac, streamAt_access; [|done|done|eapply Hpre; done]. cbn [rbind].
    by rewrite (stream_sig t g); [|done|done|done|done|eapply Hpre; rewrite app_nil_r; done].
  - destruct (t_chainId t) as [c|]; [|done]. rewrite stream_body; [|words|done|done|done|eapply Hpre; done].
    assert (item_ok (Lst (map accessItem accs))) by (apply (item_ok_member _ 8 _ Hok); done).
    rewrite Hac, streamAt_access; [|done|done|eapply Hpre; done]. cbn [rbind].
    by rewrite (stream_sig t g); [|done|done|done|done|eapply Hpre; rewrite app_nil_r; done].
Qed.
Lemma toBytes_signed t g accs : signed t g accs ->
  tx_toBytes t true false = Ok ((if bool_decide (t_txType t = Legacy) then [] else [typeByte (t_txType t)]) ++ enc (Lst (txItems t g accs))).
Proof. intros H. unfold tx_toBytes. rewrite (streamRLP_signed _ _ _ H). simpl. by case_bool_decide. Qed.

(** ** Reading *)

(** On the encoding of [its], whatever the indexing cache holds, [m] returns [a] and takes the object
    from [t] to [t']. *)
Definition reads (its : list item) {A} (m : TM A) (t : Transaction) (a : A) (t' : Transaction) : Prop :=
  forall r, cache_ok its r -> exists r', m (r, t) = (Ok a, (r', t')) /\ cache_ok its r'.

Lemma address_bytes a : 0 <= a < 2 ^ 160 -> fromBigEndian 160 (addressBytes a) = a.
Proof.
  intros Ha. unfold addressBytes. rewrite fromBigEndian_unbe by (apply toBigEndian_ok || lia).
  rewrite unbe_toBigEndian by lia. change (256 ^ Z.of_nat 20) with (2 ^ 160). rewrite Z.mod_small by lia. by apply wrap_small.
Qed.
Lemma address_ok a : item_ok (Str (addressBytes a)).
Proof. split; [apply toBigEndian_ok|]. unfold addressBytes. by rewrite toBigEndian_lenZ. Qed.
Lemma address_not_empty a : isEmpty (enc (Str (addressBytes a))) = false.
Proof.
  destruct (reads_enc _ [] (address_ok a)) as (_ & _ & Hl & _). rewrite app_nil_r in Hl. unfold addressBytes in *.
  unfold isEmpty, enc, encStr. rewrite toBigEndian_lenZ. done.
Qed.
Lemma toHash_address a : toHash 20 (enc (Str (addressBytes a))) VeryStrict = Ok (addressBytes a).
Proof.
  pose proof (address_ok a) as Hok. pose proof (reads_enc _ [] Hok) as Hr. pose proof (payload_reads _ _ _ _ Hr) as Hp.
  destruct Hr as (Hd & _ & Hlen & _ & _ & _ & _ & H1). rewrite app_nil_r in *. set (e := enc _) in *.
  assert (Hg : requireGood e = Ok tt).
  { revert Hlen. unfold length_, isNull. destruct (Z.eqb_spec (lenZ e) 0); [lia|]. by destruct (requireGood e) as [[]|]. }
  assert (Hl : lenZ (addressBytes a) = 20) by (unfold addressBytes; by rewrite toBigEndian_lenZ).
  unfold toHash. rewrite Hg, Hp, Hd. cbn [rbind]. rewrite Hl. simpl. rewrite takeZ_all by lia. done.
Qed.

Section Reads.
Context (its : list item) (Hits : item_ok (Lst its)).

Lemma reads_bind {A B} (m : TM A) (k : A -> TM B) t a t1 b t2 :
  reads its m t a t1 -> reads its (k a) t1 b t2 -> reads its (tbind m k) t b t2.
Proof. intros Hm Hk r Hr. destruct (Hm r Hr) as (r1 & E & H1). unfold tbind. rewrite E. by apply Hk. Qed.
Lemma reads_ret {A} (a : A) t : reads its (tret a) t a t.
Proof. intros r Hr. by exists r. Qed.
Lemma reads_set f t : reads its (tset f) t tt (f t).
Proof. intros r Hr. by exists r. Qed.
Lemma reads_get {A} (f : Transaction -> A) t : reads its (tget f) t (f t) t.
Proof. intros r Hr. by exists r. Qed.
Lemma reads_lift {A} (x : result TxError A) a t : x = Ok a -> reads its (tlift x) t a t.
Proof. intros -> r Hr. by exists r. Qed.
Lemma reads_check b e t : b = true -> reads its (check b e) t tt t.
Proof. intros -> r Hr. by exists r. Qed.

Lemma reads_at i x t : 0 <= i < 2 ^ 64 - 1 -> its !! Z.to_nat i = Some x -> reads its (rlpAt i) t (enc x) t.
Proof.
  intros Hi Hx r Hr. destruct (index_spec its r i Hits Hr Hi) as (r' & E & H'). exists r'. split; [|done].
  unfold rlpAt. simpl. rewrite E. by erewrite nth_lookup_Some by (rewrite list_lookup_fmap, Hx; done).
Qed.
Lemma reads_int i v t : 0 <= i < 2 ^ 64 - 1 -> is_word v -> its !! Z.to_nat i = Some (intItem v) -> reads its (intAt i) t v t.
Proof.
  intros Hi Hv Hx. eapply reads_bind; [by eapply reads_at|]. apply reads_lift, wOk. by apply toInt_compact.
Qed.
Lemma reads_isList t : reads its checkList t tt t.
Proof.
  intros r Hr. exists r. split; [|done].
  assert (E : m_data r = enc (Lst its)) by (destruct Hr as [[? _]|[k [? _]]]; done).
  destruct (reads_enc (Lst its) [] Hits) as (_ & Hl & _). rewrite app_nil_r in Hl.
  unfold checkList. simpl. by rewrite E, Hl.
Qed.
Lemma reads_count n t : lenZ its <= n -> reads its (checkCount n) t tt t.
Proof.
  intros Hn r Hr. exists r. split; [|done].
  assert (E : m_data r = enc (Lst its)) by (destruct Hr as [[? _]|[k [? _]]]; done).
  destruct (reads_enc (Lst its) [] Hits) as (_ & Hl & _). rewrite app_nil_r in Hl.
  unfold checkCount. cbn [fst snd]. rewrite E, Hl. cbn [negb]. rewrite items_enc by done.
  unfold check. rewrite Z.gtb_ltb. by destruct (Z.ltb_spec n (lenZ its)); [lia|].
Qed.

(** The recipient, the value and the data. *)
Lemma reads_to i t ty a v dat : 0 <= i -> i + 2 < 2 ^ 64 - 1 ->
  (ty = MessageCall /\ 0 <= a < 2 ^ 160) \/ (ty = ContractCreation /\ a = 0) -> is_word v ->
  its !! Z.to_nat i = Some (Str (if bool_decide (ty = MessageCall) then addressBytes a else [])) ->
  its !! Z.to_nat (i + 1) = Some (intItem v) -> its !! Z.to_nat (i + 2) = Some (Str dat) ->
  reads its (readTo i) t tt (t <| t_type := ty |> <| t_receiveAddress := a |> <| t_value := v |> <| t_data := dat |>).
Proof.
  intros Hi Hi2 Hty Hv Hto Hval Hdat. pose proof (item_ok_member _ _ _ Hits Hto) as Hok.
  pose proof (item_ok_member _ _ _ Hits Hdat) as Hokd. set (ab := if bool_decide _ then _ else _) in *.
  destruct (reads_enc (Str ab) [] Hok) as (Hd & _). destruct (reads_enc (Str dat) [] Hokd) as (Hd' & _).
  rewrite app_nil_r in Hd, Hd'.
  unfold readTo. eapply reads_bind; [eapply reads_at; [lia|exact Hto]|].
  eapply reads_bind; [by apply reads_check|]. eapply reads_bind; [apply reads_set|].
  assert (He : (if isEmpty (enc (Str ab)) then ContractCreation else MessageCall) = ty /\
    reads its (if isEmpty (enc (Str ab)) then tret 0
               else let% h := tlift (wRLP (toHash 20 (enc (Str ab)) VeryStrict)) in tret (fromBigEndian 160 h))
      (t <| t_type := ty |>) a (t <| t_type := ty |>)).
  { subst ab. destruct Hty as [[-> Ha]|[-> ->]].
    - rewrite bool_decide_true by done. rewrite (address_not_empty a). split; [done|].
      eapply reads_bind; [apply reads_lift, wOk, toHash_address|]. rewrite <- (address_bytes a) at 2 by done. apply reads_ret.
    - rewrite bool_decide_false by done. split; [done|]. apply reads_ret. }
  destruct He as [He Ha].
  cbv beta. rewrite He. eapply reads_bind; [exact Ha|]. eapply reads_bind; [apply reads_set|].
  eapply reads_bind; [apply (reads_int _ v); [lia|done|done]|]. eapply reads_bind; [apply reads_set|].
  eapply reads_bind; [eapply reads_at; [lia|exact Hdat]|]. eapply reads_bind; [by apply reads_check|].
  eapply reads_bind; [apply reads_lift, wOk, toBytes_enc, Hokd|]. apply reads_set.
Qed.
End Reads.

Lemma reads_conv its {A} (m : TM A) t a t' t'' : reads its m t a t' -> t' = t'' -> reads its m t a t''.
Proof. by intros ? <-. Qed.

Lemma reads_from its {A} (m : TM A) t0 t a t' : t0 = t -> reads its m t a t' -> reads its m t0 a t'.
Proof. by intros ->. Qed.
(** One member read into its field, or one assignment. *)
Ltac rstep :=
  eapply reads_bind;
    [first [apply reads_set | by eapply reads_isList | (eapply reads_int; [done|done| |reflexivity]; unfold is_word in *; lia)]|cbv beta].

Lemma enc_kind it : item_ok it ->
  isData (enc it) = match it with Str _ => true | Lst _ => false end /\
  isList (enc it) = match it with Str _ => false | Lst _ => true end.
Proof. intros H. destruct (reads_enc it [] H) as (Hd & Hl & _). rewrite app_nil_r in *. by destruct it. Qed.
Lemma listOf_enc its : item_ok (Lst its) -> listOf (enc (Lst its)) = Ok (map enc its).
Proof. intros. unfold listOf. by rewrite toList_enc. Qed.

Lemma access_valid a : item_ok (accessItem a) -> validAccess (enc (accessItem a)) = Ok tt.
Proof.
  intros Hok. pose proof (item_ok_member _ 0 _ Hok eq_refl) as Ha. pose proof (item_ok_member _ 1 _ Hok eq_refl) as Hk.
  unfold validAccess, accessItem in *. rewrite (proj2 (enc_kind _ Hok)), listOf_enc by done. cbn [negb rbind map].
  rewrite (proj1 (enc_kind _ Ha)), (proj2 (enc_kind _ Hk)). cbn [negb orb]. rewrite listOf_enc by done. cbn [rbind].
  replace (forallb isData _) with true; [done|]. symmetry. apply forallb_forall. intros x Hx.
  apply in_map_iff in Hx as (y & <- & Hy). apply item_ok_members in Hk. rewrite Forall_forall in Hk.
  apply list_elem_of_In in Hy. pose proof (Hk y Hy) as Hoy. rewrite (proj1 (enc_kind _ Hoy)).
  apply list_elem_of_fmap in Hy as (b & -> & _). done.
Qed.
Lemma accessList_valid accs : item_ok (Lst (map accessItem accs)) -> lenZ accs <= MAX_ACCESS_LIST_COUNT ->
  validateAccessListRLP (enc (Lst (map accessItem accs))) = Ok (map enc (map accessItem accs)).
Proof.
  intros Hok Hn. unfold validateAccessListRLP. rewrite (proj2 (enc_kind _ Hok)), listOf_enc by done. cbn [negb rbind].
  assert (Hm : Forall item_ok (map accessItem accs)) by (by apply item_ok_members).
  assert (Hv : rfold (fun _ x => validAccess x) tt (map enc (map accessItem accs)) = Ok tt).
  { clear Hok Hn. induction accs as [|a accs IH]; [done|]. inversion Hm; subst. cbn [map rfold].
    rewrite access_valid by done. cbn [rbind]. by apply IH. }
  rewrite Hv. cbn [rbind].
  replace (lenZ (map enc (map accessItem accs))) with (lenZ accs) by (unfold lenZ; by rewrite !length_map).
  rewrite Z.gtb_ltb. destruct (Z.ltb_spec MAX_ACCESS_LIST_COUNT (lenZ accs)); [lia|]. by destruct (map enc _).
Qed.

Section Readers.
Context (sha3 : list Z -> Z) (recover : SignatureStruct -> Z -> option (list Z)).

(** The object the reader leaves: the transaction, with the sender where it was asked for. *)
Definition sender_known (c : CheckTransaction) (t t' : Transaction) : Prop :=
  match c with
  | CheckEverything => exists a, sender sha3 recover t = Ok a /\ t' = t <| t_sender := Some a |>
  | _ => t' = t
  end.
Lemma reads_sender its c t t' : sender_known c t t' -> reads its (readSender sha3 recover c) t tt t'.
Proof.
  unfold sender_known, readSender. destruct c; [intros ->; apply reads_ret..|]. intros (a & Ha & ->).
  eapply reads_bind; [apply reads_get|]. eapply reads_bind; [by apply reads_lift|]. apply (reads_set _ (fun t => t <| t_sender := Some a |>)).
Qed.
Lemma reads_checkSig its c t g : t_vrs t = Some g -> sig_isValid g = true -> reads its (checkSig c) t tt t.
Proof.
  intros Hg Hv. unfold checkSig. destruct c; [apply reads_ret|..]; (eapply reads_bind; [apply reads_get|]);
    rewrite Hg; by apply reads_check.
Qed.

Lemma sender_known_type c t t' : sender_known c t t' -> t_txType t' = t_txType t.
Proof. destruct c; [intros ->; done..|]. by intros (a & _ & ->). Qed.
Lemma txType_same t : t <| t_txType := t_txType t |> = t.
Proof. by destruct t. Qed.

Lemma readLegacy_signed c t g accs t' : signed t g accs -> t_txType t = Legacy -> sender_known c t t' ->
  reads (txItems t g accs) (readLegacy sha3 recover c) nullTransaction tt t'.
Proof.
  intros [Hty Hi (Hg & Hv & Hv0) Hch [Hac Hcnt] Hf Hfresh Hok] E Ht'. destruct (sig_words g Hv Hv0) as (Hgv & Hgr & Hgs).
  rewrite !Forall_cons in Hi. destruct Hi as (? & ? & ? & ? & ? & ? & _).
  assert (Hlv : is_word (legacyV t g)) by (unfold is_word, legacyV; rewrite E in Hch; destruct (t_chainId t); lia).
  unfold txItems in *. rewrite E in *. cbn [app] in *. unfold readLegacy.
  do 7 rstep.
  eapply reads_bind; [by apply reads_to with (ty := t_type t) (a := t_receiveAddress t) (v := t_value t) (dat := t_data t)|].
  do 3 rstep. unfold isZeroSignature. destruct (Z.eqb_spec (sig_r g) 0); [lia|]. cbn [andb].
  eapply reads_bind.
  { eapply reads_bind with (t1 := nullTransaction <| t_nonce := t_nonce t |> <| t_gasPrice := t_gasPrice t |> <| t_gas := t_gas t |>
      <| t_type := t_type t |> <| t_receiveAddress := t_receiveAddress t |> <| t_value := t_value t |> <| t_data := t_data t |>
      <| t_chainId := t_chainId t |>) (a := tt).
    - rewrite Z.gtb_ltb. unfold legacyV. destruct (t_chainId t) as [i|].
      + destruct (Z.ltb_spec 36 (sig_v g + (i * 2 + 35))); [|lia]. cbv zeta.
        assert (Hi : u256 (sig_v g + (i * 2 + 35) - 35) / 2 = i).
        { rewrite wrap_small by lia. symmetry. apply Z.div_unique with (sig_v g); lia. }
        rewrite Hi. eapply reads_bind; [apply reads_check; rewrite Z.gtb_ltb; destruct (Z.ltb_spec (2 ^ 64 - 1) i); [lia|done]|].
        apply reads_set.
      + destruct (Z.ltb_spec 36 (sig_v g + 27)); [lia|]. apply reads_check.
        assert (sig_v g = 0 \/ sig_v g = 1) as [-> | ->] by lia; done.
    - cbv beta. eapply reads_bind; [apply reads_get|]. cbv beta. rstep.
      assert (Hr : match t_chainId t with Some i => u8 (legacyV t g - (i * 2 + 35)) | None => u8 (legacyV t g - 27) end = sig_v g).
      { unfold legacyV. destruct (t_chainId t); rewrite Z.add_simpl_r; apply wrap_small; lia. }
      cbn [t_chainId]. change (t_chainId (_ <| t_chainId := ?v |>)) with v. rewrite Hr.
      by apply (reads_checkSig _ _ _ g); [destruct g|]. }
  cbv beta. eapply reads_bind; [|cbv beta; rstep; eapply reads_conv; [by apply reads_count|]].
  - eapply reads_from; [|by apply reads_sender]. destruct t, g; simpl in *. destruct_and?; subst. done.
  - rewrite <- E, <- (sender_known_type c t t' Ht'). apply txType_same.
Qed.

Lemma readTyped_signed its c i ty t g accs t' : item_ok (Lst its) -> t_vrs t = Some g -> sig_isValid g = true -> 0 <= sig_v g ->
  0 <= i -> i + 4 < 2 ^ 64 - 1 -> lenZ its <= i + 4 -> lenZ accs <= MAX_ACCESS_LIST_COUNT ->
  its !! Z.to_nat i = Some (Lst (map accessItem accs)) -> its !! Z.to_nat (i + 1) = Some (intItem (sig_v g)) ->
  its !! Z.to_nat (i + 2) = Some (intItem (sig_r g)) -> its !! Z.to_nat (i + 3) = Some (intItem (sig_s g)) ->
  t_accessList t = map enc (map accessItem accs) -> t_txType t = ty -> sender_known c t t' ->
  forall t0, t0 <| t_accessList := t_accessList t |> <| t_vrs := t_vrs t |> <| t_txType := ty |> = t ->
  reads its (readTyped sha3 recover c i ty) t0 tt t'.
Proof.
  intros Hok Hg Hv Hv0 Hi Hi4 Hn Hcnt Ha Hsv Hsr Hss Hac Hty Ht' t0 Ht0. destruct (sig_words g Hv Hv0) as (Hgv & Hgr & Hgs).
  unfold readTyped. eapply reads_bind; [eapply reads_at; [done|lia|done]|].
  eapply reads_bind; [apply reads_lift, accessList_valid; [by apply (item_ok_member _ _ _ Hok Ha)|done]|]. rstep.
  eapply reads_bind; [eapply reads_at; [done|lia|done]|].
  eapply reads_bind with (a := sig_v g); [apply reads_lift, wOk; assert (sig_v g = 0 \/ sig_v g = 1) as [-> | ->] by lia; done|].
  eapply reads_bind; [apply (reads_int _ Hok _ (sig_r g)); [lia|unfold is_word; lia|done]|].
  eapply reads_bind; [apply (reads_int _ Hok _ (sig_s g)); [lia|unfold is_word; lia|done]|]. rstep.
  replace (if sig_v g =? 0 then 0 else 1) with (sig_v g) by (assert (sig_v g = 0 \/ sig_v g = 1) as [-> | ->] by lia; done).
  eapply reads_bind; [by apply (reads_checkSig _ _ _ g); [destruct g|]|]. rstep.
  eapply reads_bind; [eapply reads_from; [|by apply reads_sender]|by apply reads_count].
  rewrite <- Hac. rewrite <- Ht0. rewrite Hg. by destruct g, t0.
Qed.

Lemma readType1_signed c t g accs t' : signed t g accs -> t_txType t = Type1 -> sender_known c t t' ->
  reads (txItems t g accs) (readType1 sha3 recover c) nullTransaction tt t'.
Proof.
  intros [Hty Hi (Hg & Hv & Hv0) Hch [Hac Hcnt] Hf Hfresh Hok] E Ht'.
  rewrite !Forall_cons in Hi. destruct Hi as (? & ? & ? & ? & ? & ? & _).
  unfold txItems in *. rewrite E in *. cbn [app] in *. unfold readType1.
  destruct (t_chainId t) as [i|] eqn:Ec; [|done]. cbn [default] in *. unfold default, id in *. do 9 rstep.
  eapply reads_bind; [by apply reads_to with (ty := t_type t) (a := t_receiveAddress t) (v := t_value t) (dat := t_data t)|].
  eapply (readTyped_signed _ _ _ _ t g accs); try done. rewrite wrap_small by lia.
  destruct t; simpl in *. destruct_and?; subst. done.
Qed.
Lemma readType2_signed c t g accs t' : signed t g accs -> t_txType t = Type2 -> sender_known c t t' ->
  reads (txItems t g accs) (readType2 sha3 recover c) nullTransaction tt t'.
Proof.
  intros [Hty Hi (Hg & Hv & Hv0) Hch [Hac Hcnt] Hf Hfresh Hok] E Ht'.
  rewrite !Forall_cons in Hi. destruct Hi as (? & ? & ? & ? & ? & ? & _).
  unfold txItems in *. rewrite E in *. cbn [app] in *. unfold readType2.
  destruct (t_chainId t) as [i|] eqn:Ec; [|done]. cbn [default] in *. unfold default, id in *. do 9 rstep.
  eapply reads_bind; [apply reads_get|]. eapply reads_bind; [apply reads_check; rewrite Z.gtb_ltb; by rewrite Z.ltb_irrefl|].
  do 3 rstep.
  eapply reads_bind; [by apply reads_to with (ty := t_type t) (a := t_receiveAddress t) (v := t_value t) (dat := t_data t)|].
  eapply (readTyped_signed _ _ _ _ t g accs); try done. rewrite wrap_small by lia.
  destruct t; simpl in *. destruct_and?; subst. done.
Qed.

Lemma fillWith_reads body its raw ai t' : item_ok (Lst its) -> reads its body nullTransaction tt t' ->
  fillWith body (enc (Lst its)) raw ai nullTransaction = (Ok tt, t').
Proof.
  intros Hok Hb. unfold fillWith. rewrite (RLP_ctor_reads _ _ _ VeryStrict (reads_enc (Lst its) [] Hok)).
  destruct (Hb (RLP_of (enc (Lst its)))) as (r' & -> & _); [by left|]. done.
Qed.
Lemma list_head its : item_ok (Lst its) -> exists b l, enc (Lst its) = b :: l /\ 2 < b.
Proof.
  intros Hok. destruct (enc_kind _ Hok) as [_ Hl]. destruct (enc (Lst its)) as [|b l]; [done|].
  exists b, l. split; [done|]. unfold isList in Hl. apply andb_prop in Hl as [_ Hl]. apply Z.leb_le in Hl.
  change (nthZ (b :: l) 0) with b in Hl. change c_rlpListStart with 0xc0 in Hl. lia.
Qed.

Lemma ofBytes_signed c t g accs t' ai : signed t g accs -> sender_known c t t' ->
  tx_ofBytes sha3 recover
    ((if bool_decide (t_txType t = Legacy) then [] else [typeByte (t_txType t)]) ++ enc (Lst (txItems t g accs))) c ai true = Ok t'.
Proof.
  intros Hs Ht'. pose proof (so_size _ _ _ Hs) as Hok. unfold tx_ofBytes.
  destruct (t_txType t) eqn:E; [rewrite bool_decide_true by done|rewrite bool_decide_false by done..]; cbn [app typeByte].
  - replace (getTransactionType _) with Legacy.
    2:{ destruct (list_head _ Hok) as (b & l & -> & Hb). unfold getTransactionType. rewrite Z.gtb_ltb.
        by destruct (Z.ltb_spec 2 b); [|lia]. }
    unfold fillFromBytesByType. rewrite (fillWith_reads _ _ _ _ t' Hok (readLegacy_signed _ _ _ _ _ Hs E Ht')). done.
  - cbn [getTransactionType Z.gtb Z.compare Z.eqb]. unfold fillFromBytesByType. simpl tail.
    rewrite (fillWith_reads _ _ _ _ t' Hok (readType1_signed _ _ _ _ _ Hs E Ht')). done.
  - cbn [getTransactionType Z.gtb Z.compare Z.eqb]. unfold fillFromBytesByType. simpl tail.
    rewrite (fillWith_reads _ _ _ _ t' Hok (readType2_signed _ _ _ _ _ Hs E Ht')). done.
Qed.
End Readers.

(** A reader that fails marks the object and keeps the bytes; one that succeeds never marks it. *)
Definition marks {A} (m : TM A) : Prop :=
  forall s a s', m s = (Ok a, s') -> t_type (snd s) <> Invalid -> t_type (snd s') <> Invalid.
Lemma marks_bind {A B} (m : TM A) (k : A -> TM B) : marks m -> (forall a, marks (k a)) -> marks (tbind m k).
Proof.
  intros Hm Hk s b s'. unfold tbind. destruct (m s) as [[a|e] s1] eqn:E; [|done]. intros Hb Hs.
  eapply Hk; [exact Hb|]. by eapply Hm.
Qed.
Lemma marks_set f : (forall t, t_type t <> Invalid -> t_type (f t) <> Invalid) -> marks (tset f).
Proof. intros Hf s a s' [= <- <-]. simpl. auto. Qed.
Lemma marks_pure {A} (m : TM A) : (forall s, snd (snd (m s)) = snd s) -> marks m.
Proof. intros H s a s' E. specialize (H s). rewrite E in H. simpl in H. by rewrite H. Qed.
Lemma marks_if {A} (b : bool) (m1 m2 : TM A) : marks m1 -> marks m2 -> marks (if b then m1 else m2).
Proof. by destruct b. Qed.
Ltac marks_tac :=
  repeat (cbv beta zeta; first
    [ apply marks_bind; [|intros]
    | apply marks_set; intros ? ?; first [done | simpl; case_match; done]
    | apply marks_if
    | by (apply marks_pure; intros [? ?]; unfold checkCount, checkList, rlpAt, check, tret, tlift, tthrow, tget; simpl; repeat case_match) ]).
Lemma fill_keeps sha3 recover data c ty t : fillFromBytesByType sha3 recover data c true ty nullTransaction = (Ok tt, t) ->
  t_type t = Invalid -> t_rawData t = data.
Proof.
  assert (Hto : forall i, marks (readTo i)) by (intros; unfold readTo, intAt; marks_tac).
  assert (Hsig : marks (checkSig c)) by (destruct c; unfold checkSig; marks_tac).
  assert (Hsen : marks (readSender sha3 recover c)) by (destruct c; unfold readSender; marks_tac).
  assert (Hty : forall i k, marks (readTyped sha3 recover c i k)) by (intros; unfold readTyped, intAt; marks_tac; auto).
  assert (Hfill : forall body rlp, marks body -> fillWith body rlp data true nullTransaction = (Ok tt, t) ->
    t_type t = Invalid -> t_rawData t = data).
  { intros body rlp Hb. unfold fillWith. destruct (RLP_ctor rlp VeryStrict); [|done].
    destruct (body _) as [[[]|e] [r t']] eqn:E; intros [= <-]; [|done]. by intros []%(Hb _ _ _ E). }
  unfold fillFromBytesByType. destruct ty; apply Hfill; unfold readLegacy, readType1, readType2, intAt; marks_tac; auto.
Qed.

(** ** Properties *)

(** C34: A signed transaction of any of the three formats, written with its signature, is read back as itself, under each of the three levels of checking (the highest adds
    the recovered sender).  Such a transaction ([signed]) is a call or a creation with fields of 256 bits and a valid signature; a legacy one has no chain id or one that is at
    least 1 and whose recovery id fits in 64 bits, the others one of 64 bits; it has at most 16 well-formed access entries and no field of another format; and in type 2
    the tip is not above the maximal fee. *)
Theorem transaction_roundtrip sha3 recover t g accs : signed t g accs -> (t_txType t = Type2 -> t_maxPriorityFeePerGas t <= t_maxFeePerGas t) ->
  exists bs, tx_toBytes t true false = Ok bs /\
    forall c t' allowInvalid, sender_known sha3 recover c t t' -> tx_ofBytes sha3 recover bs c allowInvalid true = Ok t'.
Proof.
  intros Hs _. eexists. split; [exact (toBytes_signed _ _ _ Hs)|]. intros c t' ai. by apply ofBytes_signed.
Qed.
(** The reader means to refuse a transaction of type 2 whose tip is above its maximal fee; it compares the tip with itself, and reads every such transaction. *)
Theorem tip_above_fee_is_read sha3 recover t g accs : signed t g accs -> t_txType t = Type2 -> t_maxFeePerGas t < t_maxPriorityFeePerGas t ->
  exists bs, tx_toBytes t true false = Ok bs /\ tx_ofBytes sha3 recover bs CheckCheap false true = Ok t.
Proof. intros Hs _ _. eexists. split; [exact (toBytes_signed _ _ _ Hs)|]. by apply ofBytes_signed. Qed.

(** The entries and sizes of a concrete tree. *)
Ltac small_item := cbn -[toBigEndian toCompactBigEndian addressBytes bytes_ok bodySize]; repeat split; try (apply (bool_decide_unpack _); vm_compute; done); try (vm_compute; done).
Definition sampleSig : SignatureStruct := mkSignature 5 7 1.
Definition sampleAccess : list (list Z * list (list Z)) := [(addressBytes 9, [toBigEndian 32 1; toBigEndian 32 2])].
(** A call of type 2 that offers 40 per unit of gas, [tip] of which are to be a tip. *)
Definition sampleTx (tip : Z) : Transaction :=
  mkTransaction MessageCall Type2 3 1000 40 21000 [1; 2; 3] [] (map enc (map accessItem sampleAccess)) tip 40 (Some 1)
    (Some sampleSig) None 77 false None.
Lemma transaction_roundtrip_witness : exists bs, tx_toBytes (sampleTx 10) true false = Ok bs /\
  tx_ofBytes (fun _ => 0) (fun _ _ => None) bs CheckCheap false true = Ok (sampleTx 10).
Proof.
  destruct (transaction_roundtrip (fun _ => 0) (fun _ _ => None) (sampleTx 10) sampleSig sampleAccess) as (bs & Hw & Hr).
  - split; [by left|words; by vm_compute|by vm_compute..|small_item].
  - intros _. vm_compute. discriminate.
  - exists bs. split; [exact Hw|]. by apply (Hr CheckCheap).
Defined.
Lemma tip_above_fee_is_read_witness : exists bs, tx_toBytes (sampleTx 50) true false = Ok bs /\
  tx_ofBytes (fun _ => 0) (fun _ _ => None) bs CheckCheap false true = Ok (sampleTx 50).
Proof.
  apply (tip_above_fee_is_read (fun _ => 0) (fun _ _ => None) (sampleTx 50) sampleSig sampleAccess); [|reflexivity|reflexivity].
  split; [by left|words; by vm_compute|by vm_compute..|small_item].
Defined.

(** When invalid transactions are allowed, the constructor never throws: whatever the bytes, it
    returns an object, and one that it marks invalid keeps the bytes, as they came or as an RLP string. *)
Theorem reading_keeps_invalid sha3 recover data c eip1559 : lenZ data < 2 ^ 64 ->
  exists t, tx_ofBytes sha3 recover data c true eip1559 = Ok t /\
    (t_type t = Invalid -> t_rawData t = data \/ t_rawData t = encStr data).
Proof.
  intros Hl. unfold tx_ofBytes. set (ty := if eip1559 then _ else _).
  destruct (fillFromBytesByType sha3 recover data c true ty nullTransaction) as [[[]|e] t] eqn:E.
  - exists t. split; [done|]. intros Ht. left. revert E Ht. by apply fill_keeps.
  - rewrite append_spec by done. simpl. eexists. split; [done|]. by right.
Qed.
Lemma reading_keeps_invalid_witness :
  exists t, tx_ofBytes (fun _ => 0) (fun _ _ => None) [1; 0xc0] CheckCheap true true = Ok t /\ t_type t = Invalid /\ t_rawData t = [1; 0xc0].
Proof.
  destruct (reading_keeps_invalid (fun _ => 0) (fun _ _ => None) [1; 0xc0] CheckCheap true) as (t & Ht & _); [done|].
  exists t. split; [exact Ht|]. vm_compute in Ht. injection Ht as <-. done.
Defined.

(** The hash of an invalid transaction of a typed format cannot be computed: its raw bytes start
    with the type byte, which RLP reads as a string of one byte, and the strict reader refuses the rest. *)
Theorem invalid_typed_has_no_hash sha3 t b x rest sig : t_type t = Invalid -> t_rawData t = b :: x :: rest -> 0 <= b < 128 ->
  tx_sha3 sha3 t sig = Err (TxRLP OversizeRLP).
Proof.
  intros Ht Hr Hb. unfold tx_sha3, isInvalid. rewrite bool_decide_true by done. cbn [negb]. rewrite Hr.
  assert (Ha : actualSize (b :: x :: rest) = Ok 1).
  { pose proof (reads_encStr [b] (x :: rest) ltac:(repeat constructor; unfold is_byte; lia) ltac:(done)) as H.
    apply actualSize_reads in H. unfold encStr in H. change (nthZ [b] 0) with b in H.
    destruct (Z.ltb_spec b 128); [exact H|lia]. }
  unfold RLP_ctor. rewrite !Ha. cbn [rbind].
  change (has VeryStrict FailIfTooBig) with true. cbv iota. cbn [rbind]. rewrite !lenZ_cons. pose proof (lenZ_nonneg rest).
  destruct (Z.ltb_spec 1 (1 + (1 + lenZ rest))); [done|lia].
Qed.
Lemma invalid_typed_has_no_hash_witness :
  exists t, tx_ofBytes (fun _ => 0) (fun _ _ => None) [1; 0xc0] CheckCheap true true = Ok t /\
    tx_sha3 (fun _ => 0) t true = Err (TxRLP OversizeRLP).
Proof.
  eexists. split; [vm_compute; reflexivity|]. by apply (invalid_typed_has_no_hash _ _ 1 0xc0 []).
Defined.

(** Gas mined by proof of work, with the patch that recalculates it: after [checkOutExternalGas] a
    transaction with mined gas has price 0 and at least its base cost in gas, another keeps its own gas
    and price; and checking again, at the same block, changes nothing. *)
Theorem external_gas_settled sha3 recover cp ts num t t' :
  isPatchEnabledWhen (patchTimestamps cp) ExternalGasPatch ts = true -> isInvalid t = false ->
  checkOutExternalGas sha3 recover cp ts num t = Ok t' ->
  (exists b, hasExternalGas t' = Ok b /\
     let base := tx_baseGasRequired t (powSchedule cp ts num) in
     if b then tx_gasPrice t' = 0 /\ (0 < base -> base <= gas t') else tx_gasPrice t' = t_gasPrice t /\ gas t' = t_gas t) /\
  checkOutExternalGas sha3 recover cp ts num t' = Ok t'.
Proof.
  intros Hp Hinv. unfold checkOutExternalGas. rewrite Hinv, Hp. destruct (sender sha3 recover t) as [from|e] eqn:Es; [|done].
  cbn [rbind]. set (eg := _ / externalGasDifficulty cp). set (base := tx_baseGasRequired _ _).
  intros [= <-]. split.
  - rewrite Z.geb_leb. unfold hasExternalGas, tx_gasPrice, gas, getExternalGas.
    destruct (Z.leb_spec base eg) as [Hle|_]; simpl; eexists; (split; [done|]); cbv beta iota zeta.
    + split; [done|]. change (tx_baseGasRequired t _) with base. intros.
      destruct (Z.eqb_spec eg 0); simpl; lia.
    + done.
  - rewrite Z.geb_leb. destruct (Z.leb_spec base eg) as [Hle|Hlt].
    + change (isInvalid _) with (isInvalid t). rewrite Hinv.
      change (sender sha3 recover _) with (sender sha3 recover t). rewrite Es. cbn [rbind].
      change (_ / externalGasDifficulty cp) with eg. change (tx_baseGasRequired _ (powSchedule cp ts num)) with base.
      rewrite Z.geb_leb. by destruct (Z.leb_spec base eg); [|lia].
    + change (isInvalid _) with (isInvalid t). rewrite Hinv.
      change (sender sha3 recover _) with (sender sha3 recover t). rewrite Es. cbn [rbind].
      change (_ / externalGasDifficulty cp) with eg. change (tx_baseGasRequired _ (powSchedule cp ts num)) with base.
      rewrite Z.geb_leb. by destruct (Z.leb_spec base eg); [lia|].
Qed.
(** Enough mined gas for a plain call, at a difficulty of 2 ^ 200. *)
Lemma external_gas_settled_witness :
  let cp := mkChainParams sampleForks 0 1 false ∅ (replicate 16 1000) (2 ^ 200) in
  exists t', checkOutExternalGas (fun _ => 7) (fun _ _ => Some []) cp 1000 5 (sampleTx 10) = Ok t' /\
    tx_gasPrice t' = 0 /\ gas t' = (2 ^ 256 - 1) / 7 / 2 ^ 200 /\
    checkOutExternalGas (fun _ => 7) (fun _ _ => Some []) cp 1000 5 t' = Ok t'.
Proof.
  intros cp. destruct (checkOutExternalGas (fun _ => 7) (fun _ _ => Some []) cp 1000 5 (sampleTx 10)) as [t'|e] eqn:E.
  2:{ exfalso. revert E. by vm_compute. }
  exists t'. split; [done|]. assert (H : Ok t' = checkOutExternalGas (fun _ => 7) (fun _ _ => Some []) cp 1000 5 (sampleTx 10)) by done.
  split; [revert H; vm_compute; by intros [= ->]|]. split; [revert H; vm_compute; by intros [= ->]|].
  eapply (external_gas_settled (fun _ => 7) (fun _ _ => Some []) cp 1000 5 (sampleTx 10)); [by vm_compute|by vm_compute|exact E].
Defined.
