(* ===== verification/LruCache.v ===== *)
(** * LruCache

    libdevcore/LruCache.h: a list of entries, most recently used first, and an index from keys to
    positions in the list.  A [std::list] iterator stays valid while other nodes move, so the model
    gives every node an identity: the list holds (identity, entry) pairs and the index maps keys to
    identities.  The specification is a plain list without duplicate keys. *)

From S2P Require Import Prelude.
From Stdlib Require Import ZArith Lia Bool.
From stdpp Require Import base list gmap.
Open Scope Z_scope.

Module Lru.
Section LruCache.
Context {K V : Type} `{EqDecision K, Countable K}.

Record LruCache := mkLru {
  m_data : list (Z * (K * V)); m_index : gmap K Z; m_capacity : Z;
  m_nextNode : Z (* the identity of the next node to be allocated *) }.

Definition LruCache_ctor (capacity : Z) : LruCache := mkLru [] ∅ capacity 0.

(** [m_data.splice( m_data.begin(), m_data, it )]; a dangling iterator is undefined behaviour. *)
Fixpoint extractNode (l : list (Z * (K * V))) (n : Z) : option ((Z * (K * V)) * list (Z * (K * V))) :=
  match l with
  | [] => None
  | x :: l' => if fst x =? n then Some (x, l')
               else match extractNode l' n with Some (y, r) => Some (y, x :: r) | None => None end
  end.
Definition spliceFront (l : list (Z * (K * V))) (n : Z) : option (list (Z * (K * V))) :=
  match extractNode l n with Some (x, r) => Some (x :: r) | None => None end.

(** [m_data.back()] and [m_data.pop_back()] *)
Definition back (l : list (Z * (K * V))) : option (Z * (K * V)) := last l.
Definition pop_back (l : list (Z * (K * V))) : list (Z * (K * V)) := take (length l - 1) l.

Definition insert (c : LruCache) (key : K) (val : V) : option (LruCache * Z) :=
  match m_index c !! key with
  | None =>
      match (if Z.of_nat (size (m_index c)) =? m_capacity c
             then match back (m_data c) with
                  | Some (_, (k, _)) => Some (delete k (m_index c), pop_back (m_data c))
                  | None => None
                  end
             else Some (m_index c, m_data c)) with
      | Some (idx, dat) =>
          let idx' := <[key := m_nextNode c]> idx in
          Some (mkLru ((m_nextNode c, (key, val)) :: dat) idx' (m_capacity c) (m_nextNode c + 1), Z.of_nat (size idx'))
      | None => None
      end
  | Some it =>
      match spliceFront (m_data c) it with
      | Some dat => Some (mkLru dat (m_index c) (m_capacity c) (m_nextNode c), Z.of_nat (size (m_index c)))
      | None => None
      end
  end.

Definition remove (c : LruCache) (key : K) : option (LruCache * Z) :=
  match m_index c !! key with
  | Some it =>
      match extractNode (m_data c) it with
      | Some (_, dat) =>
          let idx := delete key (m_index c) in
          Some (mkLru dat idx (m_capacity c) (m_nextNode c), Z.of_nat (size idx))
      | None => None
      end
  | None => Some (c, Z.of_nat (size (m_index c)))
  end.

Definition touch (c : LruCache) (key : K) : option (LruCache * bool) :=
  match m_index c !! key with
  | Some it =>
      match spliceFront (m_data c) it with
      | Some dat => Some (mkLru dat (m_index c) (m_capacity c) (m_nextNode c), true)
      | None => None
      end
  | None => Some (c, false)
  end.

Definition contains (c : LruCache) (key : K) : bool := bool_decide (is_Some (m_index c !! key)).
Definition size_ (c : LruCache) : Z := Z.of_nat (size (m_index c)).
Definition clear (c : LruCache) : LruCache := mkLru [] ∅ (m_capacity c) (m_nextNode c).

(** ** Well-formedness and the abstract cache *)

(** The entries, most recently used first. *)
Definition entries (c : LruCache) : list (K * V) := map snd (m_data c).
Definition key_of (x : Z * (K * V)) : K := fst (snd x).

Record lru_ok (c : LruCache) : Prop := {
  lru_nodes : NoDup (map fst (m_data c));
  lru_keys : NoDup (map key_of (m_data c));
  lru_index : forall k n, m_index c !! k = Some n <-> exists v, (n, (k, v)) ∈ m_data c;
  lru_fresh : Forall (fun x => fst x < m_nextNode c) (m_data c);
  lru_cap : 0 < m_capacity c /\ lenZ (m_data c) <= m_capacity c }.

(** The specification: lists of entries without duplicate keys. *)
Definition spec_front (l : list (K * V)) (k : K) : list (K * V) :=
  filter (fun x => fst x = k) l ++ filter (fun x => fst x <> k) l.
Definition spec_insert (cap : Z) (l : list (K * V)) (k : K) (v : V) : list (K * V) :=
  if bool_decide (k ∈ map fst l) then spec_front l k
  else (k, v) :: (if lenZ l =? cap then take (length l - 1) l else l).
Definition spec_remove (l : list (K * V)) (k : K) : list (K * V) := filter (fun x => fst x <> k) l.

(** ** Lemmas on nodes *)

Lemma extractNode_spec l n : NoDup (map fst l) -> n ∈ map fst l ->
  exists x l1 l2, l = l1 ++ x :: l2 /\ fst x = n /\ extractNode l n = Some (x, l1 ++ l2).
Proof.
  induction l as [|y l IH]; simpl; intros Hnd Hin; [by apply elem_of_nil in Hin|].
  apply NoDup_cons in Hnd as [Hy Hnd]. destruct (Z.eqb_spec (fst y) n) as [<-|Hne].
  - exists y, [], l. done.
  - apply elem_of_cons in Hin as [->|Hin]; [done|].
    destruct (IH Hnd Hin) as (x & l1 & l2 & -> & Hx & ->). by exists x, (y :: l1), l2.
Qed.

Lemma keys_unique (l : list (Z * (K * V))) n1 n2 k v1 v2 : NoDup (map key_of l) ->
  (n1, (k, v1)) ∈ l -> (n2, (k, v2)) ∈ l -> n1 = n2 /\ v1 = v2.
Proof.
  intros Hnd H1 H2. apply list_elem_of_split in H1 as (l1 & l2 & ->).
  rewrite map_app in Hnd. simpl in Hnd. apply NoDup_app in Hnd as (_ & Hd & Hnd).
  apply NoDup_cons in Hnd as [Hk _]. apply elem_of_app in H2 as [H2|H2].
  - exfalso. apply (Hd k); [|apply list_elem_of_here]. apply (list_elem_of_fmap_2 key_of) in H2. done.
  - apply elem_of_cons in H2 as [[= -> ->]|H2]; [done|]. exfalso. apply Hk. by apply (list_elem_of_fmap_2 key_of) in H2.
Qed.

(** Looking a key up: its node splits the list. *)
Lemma lookup_split c k n : lru_ok c -> m_index c !! k = Some n ->
  exists v l1 l2, m_data c = l1 ++ (n, (k, v)) :: l2 /\ extractNode (m_data c) n = Some ((n, (k, v)), l1 ++ l2).
Proof.
  intros [Hn Hk Hi Hf Hc] Hl. apply Hi in Hl as [v Hv].
  destruct (extractNode_spec (m_data c) n Hn) as (x & l1 & l2 & E & Hx & He).
  { by apply (list_elem_of_fmap_2 fst) in Hv. }
  exists v, l1, l2. assert (x = (n, (k, v))) as ->; [|done].
  rewrite E in Hv, Hn. rewrite map_app in Hn. simpl in Hn. apply NoDup_app in Hn as (_ & Hd & Hn).
  apply NoDup_cons in Hn as [Hn _]. apply elem_of_app in Hv as [Hv|Hv].
  - exfalso. apply (Hd n); [by apply (list_elem_of_fmap_2 fst) in Hv|]. subst. apply list_elem_of_here.
  - apply elem_of_cons in Hv as [->|Hv]; [done|]. exfalso. apply Hn. subst. by apply (list_elem_of_fmap_2 fst) in Hv.
Qed.

Lemma index_size c : lru_ok c -> Z.of_nat (size (m_index c)) = lenZ (m_data c).
Proof.
  intros [Hn Hk Hi Hf Hc]. unfold lenZ. f_equal.
  rewrite <- (length_map (fun x => (key_of x, fst x)) (m_data c)). rewrite <- length_map_to_list.
  apply Permutation_length, NoDup_Permutation.
  - apply NoDup_map_to_list.
  - apply (NoDup_fmap_1 fst). rewrite <- list_fmap_compose. exact Hk.
  - intros [k n]. rewrite elem_of_map_to_list, Hi, list_elem_of_fmap. split.
    + intros [v Hv]. by exists (n, (k, v)).
    + intros ([n' [k' v']] & [= -> ->] & Hx). eauto.
Qed.

(** ** The operations refine the specification *)

Lemma filter_eq_split (l1 l2 : list (K * V)) k v : NoDup (map fst (l1 ++ (k, v) :: l2)) ->
  spec_front (l1 ++ (k, v) :: l2) k = (k, v) :: l1 ++ l2 /\ spec_remove (l1 ++ (k, v) :: l2) k = l1 ++ l2.
Proof.
  intros Hnd. rewrite map_app in Hnd. simpl in Hnd. apply NoDup_app in Hnd as (_ & Hd & Hnd). apply NoDup_cons in Hnd as [Hn _].
  assert (H1 : forall x, x ∈ l1 -> fst x <> k).
  { intros x Hx Hk. apply (Hd k); [rewrite <- Hk; by apply (list_elem_of_fmap_2 fst)|apply list_elem_of_here]. }
  assert (H2 : forall x, x ∈ l2 -> fst x <> k) by (intros x Hx <-; apply Hn; by apply (list_elem_of_fmap_2 fst)).
  assert (F : forall l : list (K * V), (forall x, x ∈ l -> fst x <> k) ->
    filter (fun x => fst x = k) l = [] /\ filter (fun x => fst x <> k) l = l).
  { induction l as [|x l IH]; intros Hl; [done|]. rewrite filter_cons_False, filter_cons_True by (apply Hl; apply list_elem_of_here).
    destruct IH as [-> ->]; [|done]. intros y Hy. apply Hl. by apply list_elem_of_further. }
  destruct (F l1 H1) as [F1 F1'], (F l2 H2) as [F2 F2']. unfold spec_front, spec_remove. rewrite !filter_app.
  rewrite filter_cons_True by done. rewrite filter_cons_False by (by intros Hc; apply Hc).
  by rewrite F1, F2, F1', F2'.
Qed.

Lemma entries_keys c : map fst (entries c) = map key_of (m_data c).
Proof. unfold entries. by rewrite map_map. Qed.

Lemma contains_entries c k : lru_ok c -> m_index c !! k = None <-> k ∉ map fst (entries c).
Proof.
  intros Hc. rewrite entries_keys. split.
  - intros Hn Hin. apply list_elem_of_fmap in Hin as ([n [k' v]] & -> & Hx).
    assert (Hs : m_index c !! k' = Some n) by (apply (lru_index c Hc); eauto). unfold key_of in Hn. simpl in Hn. congruence.
  - intros Hn. destruct (m_index c !! k) as [n|] eqn:E; [|done]. apply (lru_index c Hc) in E as [v Hv].
    exfalso. apply Hn. by apply (list_elem_of_fmap_2 key_of) in Hv.
Qed.

(** Moving the node of a key to the front. *)
Lemma splice_ok c k n : lru_ok c -> m_index c !! k = Some n ->
  exists dat, spliceFront (m_data c) n = Some dat
    /\ lru_ok (mkLru dat (m_index c) (m_capacity c) (m_nextNode c)) /\ map snd dat = spec_front (entries c) k.
Proof.
  intros Hc Hl. destruct (lookup_split c k n Hc Hl) as (v & l1 & l2 & E & He). unfold spliceFront. rewrite He.
  eexists. split; [done|]. assert (HP : (n, (k, v)) :: l1 ++ l2 ≡ₚ m_data c) by (rewrite E; apply Permutation_middle).
  destruct Hc as [Hn Hk Hi Hf [Hc0 Hc1]]. split.
  - constructor; cbn [m_data m_index m_capacity m_nextNode].
    + by rewrite HP.
    + by rewrite HP.
    + intros k' n'. rewrite Hi. by setoid_rewrite HP.
    + by rewrite HP.
    + split; [done|]. unfold lenZ in *. by rewrite HP.
  - unfold entries. rewrite E, map_app. simpl. destruct (filter_eq_split (map snd l1) (map snd l2) k v) as [-> _].
    + replace (map snd l1 ++ (k, v) :: map snd l2) with (entries c) by (unfold entries; by rewrite E, map_app). by rewrite entries_keys.
    + by rewrite map_app.
Qed.

(** Dropping a node and its key. *)
Lemma lru_drop_ok c k n v l1 l2 : lru_ok c -> m_data c = l1 ++ (n, (k, v)) :: l2 ->
  lru_ok (mkLru (l1 ++ l2) (delete k (m_index c)) (m_capacity c) (m_nextNode c)).
Proof.
  intros [Hn Hk Hi Hf [Hc0 Hc1]] E. assert (HP : m_data c ≡ₚ (n, (k, v)) :: l1 ++ l2) by (by rewrite E, Permutation_middle).
  assert (Hk' := Hk). rewrite HP in Hn, Hk, Hf. simpl in Hn, Hk. apply NoDup_cons in Hn as [_ Hn]. apply NoDup_cons in Hk as [Hnk Hk].
  apply Forall_cons in Hf as [_ Hf]. constructor; simpl; try done.
  - intros k' n'. destruct (decide (k' = k)) as [->|Hne].
    + rewrite lookup_delete_eq. split; [done|]. intros [v' Hv]. exfalso. apply Hnk. by apply (list_elem_of_fmap_2 key_of) in Hv.
    + rewrite lookup_delete_ne by done. rewrite Hi. setoid_rewrite HP. setoid_rewrite elem_of_cons. naive_solver.
  - split; [done|]. unfold lenZ in *. rewrite HP in Hc1. simpl in Hc1. lia.
Qed.

(** Allocating a node in front. *)
Lemma push_ok c k v : lru_ok c -> m_index c !! k = None -> lenZ (m_data c) < m_capacity c ->
  lru_ok (mkLru ((m_nextNode c, (k, v)) :: m_data c) (<[k := m_nextNode c]> (m_index c)) (m_capacity c) (m_nextNode c + 1)).
Proof.
  intros Hc Hl Hlen. assert (Hnk := proj1 (contains_entries c k Hc) Hl). rewrite entries_keys in Hnk.
  destruct Hc as [Hn Hk Hi Hf [Hc0 Hc1]]. constructor; simpl.
  - apply NoDup_cons. split; [|done]. intros Hin. apply list_elem_of_fmap in Hin as (x & Hx & Hin).
    rewrite Forall_forall in Hf. specialize (Hf x Hin). simpl in Hf. lia.
  - by apply NoDup_cons.
  - intros k' n'. destruct (decide (k' = k)) as [->|Hne].
    + rewrite lookup_insert_eq. setoid_rewrite elem_of_cons. split; [intros [= <-]; eauto|].
      intros [v' [[= -> _]|Hv]]; [done|]. exfalso. apply Hnk. by apply (list_elem_of_fmap_2 key_of) in Hv.
    + rewrite lookup_insert_ne by done. rewrite Hi. setoid_rewrite elem_of_cons. naive_solver.
  - apply Forall_cons. split; [simpl; lia|]. eapply Forall_impl; [done|]. simpl. lia.
  - split; [done|]. unfold lenZ in *. simpl. lia.
Qed.

Lemma ok_size c : lru_ok c -> Z.of_nat (size (m_index c)) = lenZ (entries c).
Proof. intros Hc. rewrite (index_size c Hc). unfold entries, lenZ. by rewrite length_map. Qed.

Lemma back_split c : lru_ok c -> 0 < lenZ (m_data c) ->
  exists l n k v, m_data c = l ++ [(n, (k, v))] /\ back (m_data c) = Some (n, (k, v)) /\ pop_back (m_data c) = l.
Proof.
  intros Hc Hl. destruct (m_data c) as [|x l] eqn:E using rev_ind; [done|]. destruct x as [n [k v]].
  exists l, n, k, v. split; [done|]. unfold back, pop_back. rewrite last_snoc, length_app. simpl. split; [done|].
  replace (length l + 1 - 1)%nat with (length l) by lia. by rewrite take_app_length.
Qed.

Lemma insert_ok c k v : lru_ok c -> exists c' n, insert c k v = Some (c', n) /\ lru_ok c'
  /\ entries c' = spec_insert (m_capacity c) (entries c) k v /\ n = lenZ (entries c') /\ m_capacity c' = m_capacity c.
Proof.
  intros Hc. unfold insert, spec_insert. destruct (m_index c !! k) as [n|] eqn:El.
  - rewrite bool_decide_true.
    2:{ destruct (decide (k ∈ map fst (entries c))) as [|Hno]; [done|]. apply (contains_entries c k Hc) in Hno. congruence. }
    destruct (splice_ok c k n Hc El) as (dat & -> & Hok & Hent). do 2 eexists. split; [done|]. split; [done|]. split; [done|].
    split; [|done]. apply (ok_size _ Hok).
  - rewrite bool_decide_false by (by apply (contains_entries c k Hc)). rewrite (index_size c Hc).
    replace (lenZ (entries c)) with (lenZ (m_data c)) by (unfold entries, lenZ; by rewrite length_map).
    destruct (Z.eqb_spec (lenZ (m_data c)) (m_capacity c)) as [Hfull|Hroom].
    + destruct (back_split c Hc) as (l & n & k' & v' & E & -> & ->); [pose proof (lru_cap c Hc); lia|].
      assert (Hd := lru_drop_ok c k' n v' l [] Hc E). rewrite app_nil_r in Hd.
      destruct (lru_cap c Hc) as [Hc0 _]. assert (Hlen : lenZ l < m_capacity c).
      { rewrite <- Hfull, E. unfold lenZ. rewrite length_app. simpl. lia. }
      assert (Hp := push_ok _ k v Hd). simpl in Hp. specialize (Hp ltac:(rewrite lookup_delete_None; by right) Hlen).
      do 2 eexists. split; [done|]. split; [exact Hp|]. split.
      * unfold entries. simpl. rewrite E, map_app, length_app. simpl. rewrite length_map.
        replace (length l + 1 - 1)%nat with (length l) by lia. by rewrite take_app_length' by (by rewrite length_map).
      * split; [|done]. apply (ok_size _ Hp).
    + assert (Hp := push_ok c k v Hc El ltac:(pose proof (lru_cap c Hc); lia)). do 2 eexists. split; [done|]. split; [exact Hp|].
      split; [done|]. split; [|done]. apply (ok_size _ Hp).
Qed.

Lemma lru_remove_ok c k : lru_ok c -> exists c' n, remove c k = Some (c', n) /\ lru_ok c'
  /\ entries c' = spec_remove (entries c) k /\ n = lenZ (entries c').
Proof.
  intros Hc. unfold remove. destruct (m_index c !! k) as [n|] eqn:El.
  - destruct (lookup_split c k n Hc El) as (v & l1 & l2 & E & ->). assert (Hd := lru_drop_ok c k n v l1 l2 Hc E).
    do 2 eexists. split; [done|]. split; [done|]. split.
    + unfold entries. rewrite E, !map_app. simpl. destruct (filter_eq_split (map snd l1) (map snd l2) k v) as [_ ->]; [|by rewrite map_app].
      replace (map snd l1 ++ (k, v) :: map snd l2) with (entries c) by (unfold entries; by rewrite E, map_app).
      rewrite entries_keys. apply Hc.
    + apply (ok_size _ Hd).
  - exists c. eexists. split; [done|]. split; [done|]. split.
    + apply (contains_entries c k Hc) in El. unfold spec_remove. symmetry.
      induction (entries c) as [|x l IH]; [done|]. simpl in El. apply not_elem_of_cons in El as [H1 H2].
      rewrite filter_cons_True by done. f_equal. by apply IH.
    + apply (ok_size c Hc).
Qed.

Lemma touch_ok c k : lru_ok c -> exists c', touch c k = Some (c', bool_decide (k ∈ map fst (entries c))) /\ lru_ok c'
  /\ entries c' = (if bool_decide (k ∈ map fst (entries c)) then spec_front (entries c) k else entries c)
  /\ m_capacity c' = m_capacity c.
Proof.
  intros Hc. unfold touch. destruct (m_index c !! k) as [n|] eqn:El.
  - rewrite bool_decide_true.
    2:{ destruct (decide (k ∈ map fst (entries c))) as [|Hno]; [done|]. apply (contains_entries c k Hc) in Hno. congruence. }
    destruct (splice_ok c k n Hc El) as (dat & -> & Hok & Hent). by eexists.
  - rewrite bool_decide_false by (by apply (contains_entries c k Hc)). by eexists.
Qed.

(** C39: The cache refines a list of entries in order of use: on a well-formed cache [insert],
    [remove] and [touch] are defined (no dangling iterator, no [back] of an empty list), keep it
    well formed and within its capacity, and act on the entries as the specification says:
    [insert] of a new key evicts the least recently used entry when the cache is full, [insert] of a
    key already present moves it to the front and keeps its old value, and the sizes returned are
    the numbers of entries. *)
Theorem lru_refines_recency_list (c : LruCache) (k : K) (v : V) : lru_ok c ->
  (exists c' n, insert c k v = Some (c', n) /\ lru_ok c'
     /\ entries c' = spec_insert (m_capacity c) (entries c) k v /\ n = lenZ (entries c'))
  /\ (exists c' n, remove c k = Some (c', n) /\ lru_ok c'
     /\ entries c' = spec_remove (entries c) k /\ n = lenZ (entries c'))
  /\ (exists c', touch c k = Some (c', bool_decide (k ∈ map fst (entries c))) /\ lru_ok c'
     /\ entries c' = if bool_decide (k ∈ map fst (entries c)) then spec_front (entries c) k else entries c).
Proof.
  intros Hc. split_and!.
  - destruct (insert_ok c k v Hc) as (c' & n & H1 & H2 & H3 & H4 & _). eauto 10.
  - apply (lru_remove_ok c k Hc).
  - destruct (touch_ok c k Hc) as (c' & H1 & H2 & H3 & _). eauto.
Qed.

Lemma lru_ctor_ok cap : 0 < cap -> lru_ok (LruCache_ctor cap).
Proof.
  intros. split; simpl; [constructor|constructor| |constructor|split; [done|unfold lenZ; simpl; lia]].
  intros k n. rewrite lookup_empty. split; [done|]. intros [v Hv]. by apply elem_of_nil in Hv.
Qed.
End LruCache.
Arguments LruCache : clear implicits.
Arguments LruCache K V {_ _}.

Lemma lru_refines_recency_list_witness :
  exists c' n, insert (LruCache_ctor (K := Z) (V := Z) 2) 5 7 = Some (c', n) /\ entries c' = [(5, 7)].
Proof.
  destruct (lru_refines_recency_list (LruCache_ctor (K := Z) (V := Z) 2) 5 7 (lru_ctor_ok 2 eq_refl)) as ((c' & n & H & _ & He & _) & _).
  exists c', n. split; [exact H|]. rewrite He. reflexivity.
Defined.
End Lru.
