(* ===== verification/TransactionQueue.v ===== *)
(** * TransactionQueue: state and operations

    libethereum/TransactionQueue.h and TransactionQueue.cpp: the pool of pending transactions.
    [m_current] is a priority queue (a boost multiset), [m_currentByHash] and
    [m_currentByAddressAndNonce] hold iterators into it, [m_future] holds transactions whose nonce
    is not reached yet.  Iterators are modelled by the identity of the node they point to, so that
    a dangling iterator, the end of an empty container or a failed assertion is [None]: undefined
    behaviour that the theorems of TransactionQueueInv.v exclude.

    Two things are parameters: the position at which the multiset puts a new element (its
    comparator reads mutable state, so the position depends on the shape of the tree) and the
    element that [begin()] of the unordered map [m_future] denotes.  Locks, signals, logging and
    the signature recovery of a transaction are not modelled; every operation is one atomic step,
    as the locks make it. *)

From S2P Require Import Prelude LruCache.
From Stdlib Require Import ZArith Lia Bool.
From stdpp Require Import base list gmap sorting.
Open Scope Z_scope.

(** ** Data *)

(** What the queue reads of a Transaction: [from()], [nonce()], [sha3()], [gasPrice()],
    [toBytes().size()], [hasZeroSignature()], [isInvalid()] and the conversion to [bool]. *)
Record Transaction := mkTx {
  tx_from : Z; tx_nonce : Z; tx_sha3 : Z; tx_gasPrice : Z; tx_size : Z;
  tx_zeroSignature : bool; tx_isInvalid : bool; tx_bool : bool }.

Record VerifiedTransaction := mkVT { transaction : Transaction; category : Z }.
(** The constructor from a transaction, and the move constructor, which leaves [category] at 0. *)
Definition VT_of (t : Transaction) : VerifiedTransaction := mkVT t 0.
Definition VT_move (v : VerifiedTransaction) : VerifiedTransaction := mkVT (transaction v) 0.

Inductive ImportResult :=
| Success | AlreadyInChain | AlreadyKnown | SameNonceAlreadyInQueue | ZeroSignature.
Inductive IfDropped := Ignore | Retry.

(** Nodes of [m_current], in iteration order. *)
Definition Nodes := list (Z * VerifiedTransaction).

Record TransactionQueue := mkTQ {
  m_known : gset Z;
  m_dropped : Lru.LruCache Z bool;
  m_current : Nodes;
  m_currentByHash : gmap Z Z;
  m_currentByAddressAndNonce : gmap Z (gmap Z Z);
  m_future : gmap Z (gmap Z VerifiedTransaction);
  m_limit : Z; m_futureLimit : Z; m_futureSize : Z;
  m_currentSizeBytesLimit : Z; m_currentSizeBytes : Z;
  m_futureSizeBytesLimit : Z; m_futureSizeBytes : Z;
  m_unverified : list (list Z * Z);
  m_nextNode : Z }.
#[export] Instance TQ_expand : Expandable TransactionQueue := fun q =>
  mkTQ (m_known q) (m_dropped q) (m_current q) (m_currentByHash q) (m_currentByAddressAndNonce q)
    (m_future q) (m_limit q) (m_futureLimit q) (m_futureSize q) (m_currentSizeBytesLimit q)
    (m_currentSizeBytes q) (m_futureSizeBytesLimit q) (m_futureSizeBytes q) (m_unverified q)
    (m_nextNode q).

Definition c_maxVerificationQueueSize : Z := 8192.
Definition c_maxDroppedTransactionCount : Z := 1024.

Definition TransactionQueue_ctor (limit futureLimit currentLimitBytes futureLimitBytes : Z) : TransactionQueue :=
  mkTQ ∅ (Lru.LruCache_ctor c_maxDroppedTransactionCount) [] ∅ ∅ ∅ limit futureLimit 0
    currentLimitBytes 0 futureLimitBytes 0 [] 0.

(** ** Containers *)

(** A [std::map] with integer keys, in the order of its iterators. *)
Definition key_le {A} (x y : Z * A) : Prop := fst x <= fst y.
#[export] Instance key_le_dec {A} : RelDecision (@key_le A).
Proof. intros x y. unfold key_le. apply _. Defined.
Definition sortedEntries {A} (m : gmap Z A) : list (Z * A) := merge_sort key_le (map_to_list m).
Definition rbegin {A} (m : gmap Z A) : option (Z * A) := last (sortedEntries m).
Definition begin_ {A} (m : gmap Z A) : option (Z * A) := head (sortedEntries m).

(** [*it] and [m_current.erase( it )] *)
Fixpoint deref (l : Nodes) (i : Z) : option VerifiedTransaction :=
  match l with
  | [] => None
  | (j, v) :: l' => if j =? i then Some v else deref l' i
  end.
Definition eraseNode (l : Nodes) (i : Z) : Nodes := filter (fun x => fst x <> i) l.
Definition insertAt {A} (n : nat) (x : A) (l : list A) : list A := take n l ++ x :: drop n l.

(** [m[a]] becomes [inner], and the entry goes away when [inner] is empty. *)
Definition putInner {A} (a : Z) (inner : gmap Z A) (m : gmap Z (gmap Z A)) : gmap Z (gmap Z A) :=
  if decide (inner = ∅) then delete a m else <[a := inner]> m.
(** [m[a]], which default-constructs a missing entry. *)
Definition at_ {A} (m : gmap Z (gmap Z A)) (a : Z) : gmap Z A := default ∅ (m !! a).

Section Queue.
(** The place of a new element in the multiset, and the key of [m_future.begin()]. *)
Variable place : Nodes -> gmap Z (gmap Z Z) -> VerifiedTransaction -> nat.
Variable futureBegin : gmap Z (gmap Z VerifiedTransaction) -> Z.

(** ** Operations under the lock *)

Definition check_WITH_LOCK (q : TransactionQueue) (h : Z) (ik : IfDropped) : option (TransactionQueue * ImportResult) :=
  if decide (h ∈ m_known q) then Some (q, AlreadyKnown)
  else match Lru.touch (m_dropped q) h with
       | None => None
       | Some (d, touched) =>
           let q' := q <| m_dropped := d |> in
           match touched, ik with
           | true, Ignore => Some (q', AlreadyInChain)
           | _, _ => Some (q', Success)
           end
       end.

(** Inserting into [m_current] and both indices, as [insertCurrent_WITH_LOCK] and the loop of
    [makeCurrent_WITH_LOCK] do. *)
Definition emplaceCurrent (from : Z) (t : Transaction) (q : TransactionQueue) : TransactionQueue :=
  let i := m_nextNode q in
  let byAN := <[from := <[tx_nonce t := i]> (at_ (m_currentByAddressAndNonce q) from)]> (m_currentByAddressAndNonce q) in
  q <| m_currentByAddressAndNonce := byAN |>
    <| m_current := insertAt (place (m_current q) byAN (VT_of t)) (i, VT_of t) (m_current q) |>
    <| m_currentByHash := <[tx_sha3 t := i]> (m_currentByHash q) |>
    <| m_currentSizeBytes := u32 (m_currentSizeBytes q + tx_size t) |>
    <| m_nextNode := i + 1 |>.

(** The [while] loop: [fs] is the inner map without the transactions already moved. *)
Fixpoint makeRun (fuel : nat) (from nonce : Z) (fs : gmap Z VerifiedTransaction) (q : TransactionQueue) :
    TransactionQueue * gmap Z VerifiedTransaction :=
  match fuel with
  | O => (q, fs)
  | S f =>
      match fs !! nonce with
      | Some v =>
          let t := transaction v in
          let q1 := emplaceCurrent from t q in
          makeRun f from (nonce + 1) (delete nonce fs)
            (q1 <| m_futureSizeBytes := u32 (m_futureSizeBytes q1 - tx_size t) |>
                <| m_futureSize := u32 (m_futureSize q1 - 1) |>)
      | None => (q, fs)
      end
  end.
Definition makeCurrent_WITH_LOCK (q : TransactionQueue) (t : Transaction) : TransactionQueue :=
  match m_future q !! tx_from t with
  | None => q
  | Some fs =>
      let nonce := u256 (tx_nonce t + 1) in
      match fs !! nonce with
      | None => q
      | Some _ =>
          let '(q', fs') := makeRun (S (size fs)) (tx_from t) nonce fs q in
          q' <| m_future := putInner (tx_from t) fs' (m_future q') |>
      end
  end.

Definition insertCurrent_WITH_LOCK (q : TransactionQueue) (h : Z) (t : Transaction) : TransactionQueue :=
  if decide (is_Some (m_currentByHash q !! h)) then q
  else let q' := makeCurrent_WITH_LOCK (emplaceCurrent (tx_from t) t q) t in
       q' <| m_known := {[h]} ∪ m_known q' |>.

Definition remove_WITH_LOCK (q : TransactionQueue) (h : Z) : option (TransactionQueue * bool) :=
  match m_currentByHash q !! h with
  | None => Some (q, false)
  | Some i =>
      match deref (m_current q) i with
      | None => None
      | Some v =>
          let t := transaction v in
          match m_currentByAddressAndNonce q !! tx_from t with
          | None => None
          | Some inner =>
              Some (q <| m_currentByAddressAndNonce := putInner (tx_from t) (delete (tx_nonce t) inner) (m_currentByAddressAndNonce q) |>
                      <| m_currentSizeBytes := u32 (m_currentSizeBytes q - tx_size t) |>
                      <| m_current := eraseNode (m_current q) i |>
                      <| m_currentByHash := delete h (m_currentByHash q) |>
                      <| m_known := m_known q ∖ {[h]} |>, true)
          end
      end
  end.

(** The [while] loop of [manageImport_WITH_LOCK]: [rbegin()] of an empty queue is undefined. *)
Definition overCurrent (q : TransactionQueue) : bool :=
  (lenZ (m_current q) >? m_limit q) || (m_currentSizeBytes q >? m_currentSizeBytesLimit q).
Fixpoint evictCurrent (fuel : nat) (q : TransactionQueue) : option TransactionQueue :=
  if overCurrent q then
    match fuel, last (m_current q) with
    | S f, Some (_, v) =>
        match remove_WITH_LOCK q (tx_sha3 (transaction v)) with
        | Some (q', _) => evictCurrent f q'
        | None => None
        end
    | _, _ => None
    end
  else Some q.

Definition manageImport_WITH_LOCK (q : TransactionQueue) (h : Z) (t : Transaction) : option (TransactionQueue * ImportResult) :=
  if decide (is_Some (at_ (m_currentByAddressAndNonce q) (tx_from t) !! tx_nonce t)) then Some (q, SameNonceAlreadyInQueue)
  else if decide (is_Some (at_ (m_future q) (tx_from t) !! tx_nonce t)) then Some (q, SameNonceAlreadyInQueue)
  else
    let q1 := insertCurrent_WITH_LOCK q h t in
    match evictCurrent (length (m_current q1)) q1 with
    | Some q2 => Some (q2, Success)
    | None => None
    end.

(** One round of the first loop of [setFuture_WITH_LOCK]; [target] is [m_future[from]]. *)
Definition moveToFuture (s : option (TransactionQueue * gmap Z VerifiedTransaction)) (m : Z * Z) :
    option (TransactionQueue * gmap Z VerifiedTransaction) :=
  match s with
  | None => None
  | Some (q, target) =>
      match deref (m_current q) (snd m) with
      | None => None
      | Some v =>
          let t := transaction v in
          Some (q <| m_currentByHash := delete (tx_sha3 t) (m_currentByHash q) |>
                  <| m_currentSizeBytes := u32 (m_currentSizeBytes q - tx_size t) |>
                  <| m_futureSizeBytes := u32 (m_futureSizeBytes q + tx_size t) |>
                  <| m_current := eraseNode (m_current q) (snd m) |>
                  <| m_futureSize := u32 (m_futureSize q + 1) |>,
                match target !! tx_nonce t with
                | Some _ => target
                | None => <[tx_nonce t := VT_move v]> target
                end)
      end
  end.

(** The second loop: drop the end of the chain [m_future.begin()]. *)
Definition overFuture (q : TransactionQueue) : bool :=
  (m_futureSize q >? m_futureLimit q) || (m_futureSizeBytes q >? m_futureSizeBytesLimit q).
Fixpoint trimFuture (fuel : nat) (q : TransactionQueue) : option TransactionQueue :=
  if overFuture q then
    match fuel with
    | O => None
    | S f =>
        let a := futureBegin (m_future q) in
        match m_future q !! a with
        | None => None
        | Some inner =>
            match rbegin inner with
            | None => None
            | Some (k, v) =>
                trimFuture f
                  (q <| m_futureSize := u32 (m_futureSize q - 1) |>
                     <| m_futureSizeBytes := u32 (m_futureSizeBytes q - tx_size (transaction v)) |>
                     <| m_known := m_known q ∖ {[tx_sha3 (transaction v)]} |>
                     <| m_future := putInner a (delete k inner) (m_future q) |>)
            end
        end
    end
  else Some q.
(** The number of transactions in [m_future]; as many rounds suffice. *)
Definition futureCount (m : gmap Z (gmap Z VerifiedTransaction)) : nat :=
  map_fold (fun _ inner n => (size inner + n)%nat) 0%nat m.

Definition setFuture_WITH_LOCK (q : TransactionQueue) (h : Z) : option TransactionQueue :=
  match m_currentByHash q !! h with
  | None => Some q
  | Some i =>
      match deref (m_current q) i with
      | None => None
      | Some st =>
          let from := tx_from (transaction st) in
          let queue := at_ (m_currentByAddressAndNonce q) from in
          let target := at_ (m_future q) from in
          let moved := filter (fun m => tx_nonce (transaction st) <= fst m) (sortedEntries queue) in
          match foldl moveToFuture (Some (q, target)) moved with
          | None => None
          | Some (q1, target') =>
              let rest := filter (fun m : Z * Z => fst m < tx_nonce (transaction st)) queue in
              let q2 := q1 <| m_currentByAddressAndNonce := putInner from rest (m_currentByAddressAndNonce q1) |>
                           <| m_future := <[from := target']> (m_future q1) |> in
              trimFuture (futureCount (m_future q2)) q2
          end
      end
  end.

(** ** The interface *)

(** [import]: first a transaction of the future queue with the same sender and nonce goes away. *)
Definition dropSameFuture (q : TransactionQueue) (t : Transaction) : TransactionQueue :=
  match m_future q !! tx_from t with
  | None => q
  | Some fs =>
      match fs !! tx_nonce t with
      | None => q
      | Some v =>
          q <| m_futureSize := u32 (m_futureSize q - 1) |>
            <| m_futureSizeBytes := u32 (m_futureSizeBytes q - tx_size (transaction v)) |>
            <| m_known := m_known q ∖ {[tx_sha3 (transaction v)]} |>
            <| m_future := putInner (tx_from t) (delete (tx_nonce (transaction v)) fs) (m_future q) |>
      end
  end.

Definition import (q : TransactionQueue) (t : Transaction) (ik : IfDropped) (isFuture : bool) :
    option (TransactionQueue * ImportResult) :=
  if tx_zeroSignature t then Some (q, ZeroSignature)
  else
    let h := tx_sha3 t in
    let q0 := dropSameFuture q t in
    match check_WITH_LOCK q0 h ik with
    | None => None
    | Some (q1, Success) =>
        match manageImport_WITH_LOCK q1 h t with
        | None => None
        | Some (q2, ret) =>
            if isFuture then
              match setFuture_WITH_LOCK q2 h with Some q3 => Some (q3, ret) | None => None end
            else Some (q2, ret)
        end
    | Some (q1, ir) => Some (q1, ir)
    end.

Definition drop_ (q : TransactionQueue) (h : Z) : option TransactionQueue :=
  if decide (h ∈ m_known q) then
    match Lru.insert (m_dropped q) h true with
    | None => None
    | Some (d, _) =>
        match remove_WITH_LOCK (q <| m_dropped := d |>) h with Some (q', _) => Some q' | None => None end
    end
  else Some q.

Definition dropGood (q : TransactionQueue) (t : Transaction) : option TransactionQueue :=
  let q1 := if tx_isInvalid t then q else makeCurrent_WITH_LOCK q t in
  if decide (tx_sha3 t ∈ m_known q1) then
    match remove_WITH_LOCK q1 (tx_sha3 t) with Some (q', _) => Some q' | None => None end
  else Some q1.

Definition clear (q : TransactionQueue) : TransactionQueue :=
  q <| m_known := ∅ |> <| m_current := [] |> <| m_currentSizeBytes := 0 |>
    <| m_dropped := Lru.clear (m_dropped q) |> <| m_currentByAddressAndNonce := ∅ |>
    <| m_currentByHash := ∅ |> <| m_future := ∅ |> <| m_futureSize := 0 |> <| m_futureSizeBytes := 0 |>.

(** [enqueue]: [items] are the items of the RLP list. *)
Fixpoint enqueue (q : TransactionQueue) (items : list (list Z)) (nodeId : Z) : TransactionQueue :=
  match items with
  | [] => q
  | x :: items' =>
      if lenZ (m_unverified q) >=? c_maxVerificationQueueSize then q
      else enqueue (q <| m_unverified := m_unverified q ++ [(x, nodeId)] |>) items' nodeId
  end.

(** ** Queries *)

Definition maxCurrentNonce (q : TransactionQueue) (a : Z) : Z :=
  match rbegin (at_ (m_currentByAddressAndNonce q) a) with Some (n, _) => u256 (n + 1) | None => 0 end.
Definition maxNonce (q : TransactionQueue) (a : Z) : Z :=
  match rbegin (at_ (m_future q) a) with
  | Some (n, _) => Z.max (maxCurrentNonce q a) (u256 (n + 1))
  | None => maxCurrentNonce q a
  end.
Definition waiting (q : TransactionQueue) (a : Z) : Z :=
  u32 (u32 (Z.of_nat (size (at_ (m_currentByAddressAndNonce q) a))) + Z.of_nat (size (at_ (m_future q) a))).

Record Limits := mkLimits { currentLimit : Z; futureLimit : Z; currentLimitBytes : Z; futureLimitBytes : Z }.
Definition limits (q : TransactionQueue) : Limits :=
  mkLimits (m_limit q) (m_futureLimit q) (m_currentSizeBytes q) (m_futureSizeBytes q).

Record Status := mkStatus { st_current : Z; st_future : Z; st_unverified : Z; st_dropped : Z;
  st_currentBytes : Z; st_futureBytes : Z }.
Definition status (q : TransactionQueue) : Status :=
  mkStatus (Z.of_nat (size (m_currentByHash q))) (m_futureSize q) (lenZ (m_unverified q)) (Lru.size_ (m_dropped q))
    (m_currentSizeBytes q) (m_futureSizeBytes q).

(** The loop of [topTransactions_WITH_LOCK] with a predicate. *)
Fixpoint topTransactions_loop (limit : Z) (pred : Transaction -> bool) (l : Nodes) (ret : list Transaction) : list Transaction :=
  match l with
  | [] => ret
  | (_, v) :: l' =>
      if lenZ ret <? limit then
        topTransactions_loop limit pred l' (if pred (transaction v) then ret ++ [transaction v] else ret)
      else ret
  end.
Definition topTransactions_WITH_LOCK (q : TransactionQueue) (limit : Z) (pred : Transaction -> bool) : list Transaction :=
  topTransactions_loop limit pred (m_current q) [].

(** [PriorityCompare]: the height of a transaction is its distance from the lowest nonce of its
    sender in the current queue; [begin()] of an empty map is undefined. *)
Definition height (q : TransactionQueue) (t : Transaction) : option Z :=
  match begin_ (at_ (m_currentByAddressAndNonce q) (tx_from t)) with
  | Some (n, _) => Some (u256 (tx_nonce t - n))
  | None => None
  end.
Definition PriorityCompare (q : TransactionQueue) (first second : VerifiedTransaction) : option bool :=
  let cat1 := category first in
  let cat2 := category second in
  match tx_bool (transaction first), tx_bool (transaction second) with
  | false, true => Some (cat1 >=? cat2)
  | true, false => Some (cat1 >? cat2)
  | false, false => Some (cat1 <? cat2)
  | true, true =>
      match height q (transaction first), height q (transaction second) with
      | Some h1, Some h2 =>
          Some ((cat1 >? cat2) || ((cat1 =? cat2) && ((h1 <? h2) ||
            ((h1 =? h2) && (tx_gasPrice (transaction first) >? tx_gasPrice (transaction second))))))
      | _, _ => None
      end
  end.

(** [std::stable_sort] with [PriorityCompare]: insertion in front of the first element that is not
    smaller, from the back of the sequence, so that equivalent elements keep their order. *)
Fixpoint sortInsert (q : TransactionQueue) (t : Transaction) (l : list Transaction) : option (list Transaction) :=
  match l with
  | [] => Some [t]
  | x :: l' =>
      match PriorityCompare q (VT_of x) (VT_of t) with
      | None => None
      | Some true => match sortInsert q t l' with Some r => Some (x :: r) | None => None end
      | Some false => Some (t :: x :: l')
      end
  end.
Fixpoint stable_sort (q : TransactionQueue) (l : list Transaction) : option (list Transaction) :=
  match l with
  | [] => Some []
  | t :: l' => match stable_sort q l' with Some r => sortInsert q t r | None => None end
  end.

(** [m_current.lower_bound( dummy )] of a null transaction with the category [maxCategory]: the
    comparator only looks at the categories, which decrease along the queue. *)
Fixpoint lowerBoundDummy (maxCategory : Z) (l : Nodes) : Nodes * Nodes :=
  match l with
  | [] => ([], [])
  | x :: l' =>
      if category (snd x) >? maxCategory then
        let '(before, from) := lowerBoundDummy maxCategory l' in (x :: before, from)
      else ([], l)
  end.

(** The loop of [topTransactions_WITH_LOCK] with categories, from the lower bound.  [m_current.extract( transaction_ptr )] invalidates the iterator that
    [++transaction_ptr] then increments, also in the last round: the behaviour is undefined as soon as a node is taken out. *)
Fixpoint topTransactionsCat_loop (limit setCategory : Z) (from : Nodes) (top_transactions : list Transaction) : option (list Transaction) :=
  match from with
  | [] => Some top_transactions
  | x :: from' =>
      if lenZ top_transactions <? limit
      then if setCategory >=? 0 then None
           else topTransactionsCat_loop limit setCategory from' (top_transactions ++ [transaction (snd x)])
      else Some top_transactions
  end.
(** Where the loop is defined it has taken nothing out, so that there is nothing to put back with the new category, and the queue is as it was. *)
Definition topTransactionsCat_WITH_LOCK (q : TransactionQueue) (limit maxCategory setCategory : Z) : option (list Transaction) :=
  match topTransactionsCat_loop limit setCategory (snd (lowerBoundDummy maxCategory (m_current q))) [] with
  | Some top_transactions => stable_sort q top_transactions
  | None => None
  end.

End Queue.
