(* ===== verification/TransactionQueueInv.v ===== *)
(** * TransactionQueue: the invariant

    The indices, the sets and the counters of the queue agree with each other in every reachable
    state, and no operation dereferences a dangling iterator or the end of an empty container. *)

From S2P Require Import Prelude LruCache TransactionQueue.
From Stdlib Require Import ZArith Lia Bool.
From stdpp Require Import base list gmap sorting.
Open Scope Z_scope.

(** ** Nested maps *)

Lemma at_putInner {A} a (inner : gmap Z A) m a' :
  at_ (putInner a inner m) a' = if decide (a' = a) then inner else at_ m a'.
Proof.
  unfold at_, putInner. destruct (decide (inner = ∅)) as [->|]; destruct (decide (a' = a)) as [->|].
  - by rewrite lookup_delete_eq.
  - by rewrite lookup_delete_ne.
  - by rewrite lookup_insert_eq.
  - by rewrite lookup_insert_ne.
Qed.

Lemma putInner_ne {A} a (inner : gmap Z A) m :
  map_Forall (fun _ i => i <> ∅) m -> map_Forall (fun _ i => i <> ∅) (putInner a inner m).
Proof.
  intros Hm. unfold putInner. destruct (decide (inner = ∅)).
  - by apply map_Forall_delete.
  - by apply map_Forall_insert_2.
Qed.

Lemma insert_putInner {A} a (inner : gmap Z A) m : inner <> ∅ -> <[a := inner]> m = putInner a inner m.
Proof. intros. unfold putInner. by destruct (decide (inner = ∅)). Qed.

Lemma putInner_id {A} a (m : gmap Z (gmap Z A)) :
  map_Forall (fun _ i => i <> ∅) m -> putInner a (at_ m a) m = m.
Proof.
  intros Hm. unfold putInner, at_. destruct (m !! a) as [inner|] eqn:E; simpl.
  - destruct (decide (inner = ∅)); [by apply (Hm a inner) in E|]. by apply insert_id.
  - destruct (decide (∅ = ∅)); [|done]. by apply delete_id.
Qed.

Lemma putInner_twice {A} a (x y : gmap Z A) m : putInner a x (putInner a y m) = putInner a x m.
Proof.
  unfold putInner. destruct (decide (x = ∅)), (decide (y = ∅)).
  - by rewrite delete_delete_eq.
  - by rewrite delete_insert_eq.
  - by rewrite insert_delete_eq.
  - by rewrite insert_insert_eq.
Qed.

Lemma at_lookup {A} (m : gmap Z (gmap Z A)) a n x : at_ m a !! n = Some x -> m !! a = Some (at_ m a).
Proof. unfold at_. destruct (m !! a); simpl; [done|]. by rewrite lookup_empty. Qed.

(** ** Sums *)

Definition innerSum {A} (f : A -> Z) (m : gmap Z A) : Z := map_fold (fun _ v acc => f v + acc) 0 m.
Definition futSum {A} (f : A -> Z) (m : gmap Z (gmap Z A)) : Z := innerSum (innerSum f) m.

Lemma innerSum_insert {A} (f : A -> Z) m k v : m !! k = None -> innerSum f (<[k := v]> m) = f v + innerSum f m.
Proof. intros. unfold innerSum. rewrite map_fold_insert_L; [done|lia|done]. Qed.
Lemma innerSum_delete {A} (f : A -> Z) m k v : m !! k = Some v -> innerSum f m = f v + innerSum f (delete k m).
Proof. intros. rewrite <- (innerSum_insert f (delete k m) k v) by apply lookup_delete_eq. by rewrite insert_delete_id. Qed.
Lemma innerSum_empty {A} (f : A -> Z) : innerSum f ∅ = 0.
Proof. apply map_fold_empty. Qed.

Lemma futSum_put {A} (f : A -> Z) a inner m :
  futSum f (putInner a inner m) = futSum f m - innerSum f (at_ m a) + innerSum f inner.
Proof.
  unfold futSum. assert (Hd : innerSum (innerSum f) m = innerSum f (at_ m a) + innerSum (innerSum f) (delete a m)).
  { unfold at_. destruct (m !! a) as [x|] eqn:E; simpl; [by apply innerSum_delete|]. by rewrite innerSum_empty, delete_id. }
  rewrite Hd. unfold putInner. destruct (decide (inner = ∅)) as [->|]; [rewrite innerSum_empty; lia|].
  rewrite <- insert_delete_eq, innerSum_insert by apply lookup_delete_eq. lia.
Qed.

Definition curSum (f : VerifiedTransaction -> Z) (l : Nodes) : Z := foldr (fun x acc => f (snd x) + acc) 0 l.
#[export] Instance curSum_proper f : Proper (Permutation ==> eq) (curSum f).
Proof. intros l k H. unfold curSum. induction H; simpl; lia. Qed.

Lemma u32_add a b : u32 (u32 a + b) = u32 (a + b).
Proof. unfold wrap. by rewrite Z.add_mod_idemp_l. Qed.
Lemma u32_sub a b : u32 (u32 a - b) = u32 (a - b).
Proof. unfold wrap. by rewrite Zminus_mod_idemp_l. Qed.

(** ** Nodes *)

Lemma insertAt_perm {A} n (x : A) l : insertAt n x l ≡ₚ x :: l.
Proof. unfold insertAt. rewrite <- Permutation_middle. by rewrite take_drop. Qed.

Lemma deref_spec l i v : NoDup (map fst l) -> (i, v) ∈ l -> deref l i = Some v.
Proof.
  induction l as [|[j w] l IH]; simpl; intros Hnd Hin; [by apply elem_of_nil in Hin|].
  apply NoDup_cons in Hnd as [Hj Hnd]. apply elem_of_cons in Hin as [[= -> ->]|Hin]; [by rewrite Z.eqb_refl|].
  destruct (Z.eqb_spec j i) as [->|]; [|by apply IH]. exfalso. apply Hj. by apply (list_elem_of_fmap_2 fst) in Hin.
Qed.

Lemma deref_elem l i v : deref l i = Some v -> (i, v) ∈ l.
Proof.
  induction l as [|[j w] l IH]; simpl; [done|]. destruct (Z.eqb_spec j i) as [->|]; [intros [= ->]; apply list_elem_of_here|].
  intros H. apply list_elem_of_further. by apply IH.
Qed.

Lemma node_unique (l : Nodes) i v w : NoDup (map fst l) -> (i, v) ∈ l -> (i, w) ∈ l -> v = w.
Proof. intros Hnd H1 H2. apply (deref_spec _ _ _ Hnd) in H1, H2. congruence. Qed.

Lemma eraseNode_elem l i j v : (j, v) ∈ eraseNode l i <-> j <> i /\ (j, v) ∈ l.
Proof. unfold eraseNode. by rewrite list_elem_of_filter. Qed.

Lemma eraseNode_perm l i v : NoDup (map fst l) -> (i, v) ∈ l -> l ≡ₚ (i, v) :: eraseNode l i.
Proof.
  intros Hnd Hin. assert (Hl : NoDup l) by (eapply (NoDup_fmap_1 fst); exact Hnd).
  apply NoDup_Permutation; [done| |].
  - apply NoDup_cons. split; [|by apply NoDup_filter]. intros H. by apply eraseNode_elem in H as [? _].
  - intros [j w]. rewrite elem_of_cons, eraseNode_elem. split.
    + intros Hj. destruct (decide (j = i)) as [->|]; [left|by right]. f_equal. by eapply node_unique.
    + by intros [[= -> ->]|[_ H]].
Qed.

(** ** The invariant *)

Definition tx_ok (t : Transaction) : Prop := tx_bool t = true /\ 0 <= tx_nonce t < 2 ^ 256 /\ 0 <= tx_size t.

(** The current queue and its two indices. *)
Record cur_ok (q : TransactionQueue) : Prop := {
  ok_ids : NoDup (map fst (m_current q));
  ok_fresh : forall i v, (i, v) ∈ m_current q -> i < m_nextNode q;
  ok_hash : forall h i, m_currentByHash q !! h = Some i <->
    exists v, (i, v) ∈ m_current q /\ tx_sha3 (transaction v) = h;
  ok_an : forall a n i, at_ (m_currentByAddressAndNonce q) a !! n = Some i <->
    exists v, (i, v) ∈ m_current q /\ tx_from (transaction v) = a /\ tx_nonce (transaction v) = n;
  ok_an_ne : map_Forall (fun _ m => m <> ∅) (m_currentByAddressAndNonce q);
  ok_curBytes : m_currentSizeBytes q = u32 (curSum (fun v => tx_size (transaction v)) (m_current q));
  ok_curTx : forall i v, (i, v) ∈ m_current q -> tx_ok (transaction v) }.

(** The future queue. *)
Record fut_ok (q : TransactionQueue) : Prop := {
  ok_fut_ne : map_Forall (fun _ m => m <> ∅) (m_future q);
  ok_fut : forall a n v, at_ (m_future q) a !! n = Some v ->
    tx_from (transaction v) = a /\ tx_nonce (transaction v) = n /\ tx_ok (transaction v);
  ok_futSize : m_futureSize q = u32 (futSum (fun _ => 1) (m_future q));
  ok_futBytes : m_futureSizeBytes q = u32 (futSum (fun v => tx_size (transaction v)) (m_future q)) }.

(** What the queues share: no sender and nonce, and no hash, is in both or twice, and [m_known] is
    the set of the hashes. *)
Record cross_ok (q : TransactionQueue) : Prop := {
  ok_disj : forall a n v, at_ (m_future q) a !! n = Some v ->
    at_ (m_currentByAddressAndNonce q) a !! n = None /\ m_currentByHash q !! tx_sha3 (transaction v) = None;
  ok_inj : forall a n v a' n' v', at_ (m_future q) a !! n = Some v -> at_ (m_future q) a' !! n' = Some v' ->
    tx_sha3 (transaction v) = tx_sha3 (transaction v') -> a = a' /\ n = n';
  ok_known : forall h, h ∈ m_known q <-> is_Some (m_currentByHash q !! h) \/
    exists a n v, at_ (m_future q) a !! n = Some v /\ tx_sha3 (transaction v) = h }.

Record tq_ok (q : TransactionQueue) : Prop := {
  ok_cur : cur_ok q; ok_future : fut_ok q; ok_cross : cross_ok q; ok_dropped : Lru.lru_ok (m_dropped q) }.

(** ** Primitive changes of the current queue *)

Section Inv.
Variable place : Nodes -> gmap Z (gmap Z Z) -> VerifiedTransaction -> nat.

Lemma emplace_elem from t q i v : (i, v) ∈ m_current (emplaceCurrent place from t q) <->
  (i = m_nextNode q /\ v = VT_of t) \/ (i, v) ∈ m_current q.
Proof. simpl. rewrite insertAt_perm, elem_of_cons. naive_solver. Qed.

Lemma emplace_an from t q a n : at_ (m_currentByAddressAndNonce (emplaceCurrent place from t q)) a !! n =
  if decide (a = from /\ n = tx_nonce t) then Some (m_nextNode q) else at_ (m_currentByAddressAndNonce q) a !! n.
Proof.
  simpl. rewrite insert_putInner by apply insert_non_empty. rewrite at_putInner.
  destruct (decide (a = from)) as [->|], (decide (n = tx_nonce t)) as [->|].
  - rewrite lookup_insert_eq. by rewrite decide_True.
  - rewrite lookup_insert_ne by done. rewrite decide_False by tauto. done.
  - rewrite decide_False by tauto. done.
  - rewrite decide_False by tauto. done.
Qed.

Lemma emplace_hash from t q h : m_currentByHash (emplaceCurrent place from t q) !! h =
  if decide (h = tx_sha3 t) then Some (m_nextNode q) else m_currentByHash q !! h.
Proof. simpl. destruct (decide (h = tx_sha3 t)) as [->|]; [apply lookup_insert_eq|by apply lookup_insert_ne]. Qed.

Lemma emplace_cur_ok q t : cur_ok q -> tx_ok t -> m_currentByHash q !! tx_sha3 t = None ->
  at_ (m_currentByAddressAndNonce q) (tx_from t) !! tx_nonce t = None -> cur_ok (emplaceCurrent place (tx_from t) t q).
Proof.
  intros [Hids Hfr Hh Han Hne Hb Htx] Ht Hnh Hna. split.
  - simpl. rewrite insertAt_perm. simpl. apply NoDup_cons. split; [|done]. intros Hin.
    apply list_elem_of_fmap in Hin as ([i v] & Hi & Hin). apply Hfr in Hin. simpl in Hi. lia.
  - intros i v. rewrite emplace_elem. simpl. intros [[-> _]|Hin]; [lia|]. apply Hfr in Hin. lia.
  - intros h i. rewrite emplace_hash. setoid_rewrite emplace_elem. destruct (decide (h = tx_sha3 t)) as [->|Hne'].
    + split; [intros [= <-]; exists (VT_of t); eauto|]. intros (v & [[-> _]|Hin] & Hs); [done|].
      assert (m_currentByHash q !! tx_sha3 t = Some i) by (apply Hh; eauto). congruence.
    + rewrite Hh. split; [intros (v & ? & ?); eauto|]. intros (v & [[-> ->]|Hin] & Hs); [by destruct Hne'|eauto].
  - intros a n i. rewrite emplace_an. setoid_rewrite emplace_elem. destruct (decide _) as [[-> ->]|Hno].
    + split; [intros [= <-]; exists (VT_of t); eauto|]. intros (v & [[-> _]|Hin] & Ha & Hn); [done|].
      assert (at_ (m_currentByAddressAndNonce q) (tx_from t) !! tx_nonce t = Some i) by (apply Han; eauto). congruence.
    + rewrite Han. split; [intros (v & ? & ? & ?); eauto 6|]. intros (v & [[-> ->]|Hin] & Ha & Hn); [by destruct Hno|eauto].
  - simpl. rewrite insert_putInner by apply insert_non_empty. by apply putInner_ne.
  - simpl. rewrite insertAt_perm. rewrite Hb, u32_add. simpl. f_equal. lia.
  - intros i v. rewrite emplace_elem. intros [[_ ->]|Hin]; [done|]. by eapply Htx.
Qed.

(** Taking the node [i] of the transaction [v] out of the queue and the indices. *)
Definition eraseCurrent (i : Z) (t : Transaction) (q : TransactionQueue) : TransactionQueue :=
  q <| m_currentByAddressAndNonce := putInner (tx_from t)
         (delete (tx_nonce t) (at_ (m_currentByAddressAndNonce q) (tx_from t))) (m_currentByAddressAndNonce q) |>
    <| m_currentSizeBytes := u32 (m_currentSizeBytes q - tx_size t) |>
    <| m_current := eraseNode (m_current q) i |>
    <| m_currentByHash := delete (tx_sha3 t) (m_currentByHash q) |>.

Lemma erase_an i t q a n : at_ (m_currentByAddressAndNonce (eraseCurrent i t q)) a !! n =
  if decide (a = tx_from t /\ n = tx_nonce t) then None else at_ (m_currentByAddressAndNonce q) a !! n.
Proof.
  simpl. rewrite at_putInner. destruct (decide (a = tx_from t)) as [->|], (decide (n = tx_nonce t)) as [->|].
  - rewrite lookup_delete_eq. by rewrite decide_True.
  - rewrite lookup_delete_ne by done. rewrite decide_False by tauto. done.
  - rewrite decide_False by tauto. done.
  - rewrite decide_False by tauto. done.
Qed.

Lemma erase_hash i t q h : m_currentByHash (eraseCurrent i t q) !! h =
  if decide (h = tx_sha3 t) then None else m_currentByHash q !! h.
Proof. simpl. destruct (decide (h = tx_sha3 t)) as [->|]; [apply lookup_delete_eq|by apply lookup_delete_ne]. Qed.

Lemma erase_cur_ok q i v : cur_ok q -> (i, v) ∈ m_current q -> cur_ok (eraseCurrent i (transaction v) q).
Proof.
  intros [Hids Hfr Hh Han Hne Hb Htx] Hin. assert (HP := eraseNode_perm _ _ _ Hids Hin). split.
  - simpl. rewrite HP in Hids. simpl in Hids. by apply NoDup_cons in Hids as [_ ?].
  - simpl. intros j w. rewrite eraseNode_elem. intros [_ Hj]. by eapply Hfr.
  - intros h j. rewrite erase_hash. simpl. setoid_rewrite eraseNode_elem. destruct (decide _) as [->|Hno].
    + split; [done|]. intros (w & [Hji Hj] & Hs). exfalso. apply Hji.
      assert (H1 : m_currentByHash q !! tx_sha3 (transaction v) = Some i) by (apply Hh; eauto).
      assert (H2 : m_currentByHash q !! tx_sha3 (transaction v) = Some j) by (apply Hh; eauto). congruence.
    + rewrite Hh. split; [|intros (w & [_ ?] & ?); eauto]. intros (w & Hj & Hs). exists w. split; [|done]. split; [|done].
      intros ->. apply Hno. by rewrite (node_unique _ _ _ _ Hids Hin Hj).
  - intros a n j. rewrite erase_an. simpl. setoid_rewrite eraseNode_elem. destruct (decide _) as [[-> ->]|Hno].
    + split; [done|]. intros (w & [Hji Hj] & Ha & Hn). exfalso. apply Hji.
      assert (H1 : at_ (m_currentByAddressAndNonce q) (tx_from (transaction v)) !! tx_nonce (transaction v) = Some i) by (apply Han; eauto).
      assert (H2 : at_ (m_currentByAddressAndNonce q) (tx_from (transaction v)) !! tx_nonce (transaction v) = Some j) by (apply Han; eauto). congruence.
    + rewrite Han. split; [|intros (w & [_ ?] & ?); eauto]. intros (w & Hj & Ha & Hn). exists w. split; [|done]. split; [|done].
      intros ->. apply Hno. by rewrite (node_unique _ _ _ _ Hids Hin Hj).
  - simpl. by apply putInner_ne.
  - simpl. rewrite Hb, u32_sub, (curSum_proper _ _ _ HP). simpl. f_equal. lia.
  - simpl. intros j w. rewrite eraseNode_elem. intros [_ Hj]. by eapply Htx.
Qed.

(** ** Primitive changes of the future queue *)

Definition futDel (a n : Z) (v : VerifiedTransaction) (q : TransactionQueue) : TransactionQueue :=
  q <| m_futureSize := u32 (m_futureSize q - 1) |>
    <| m_futureSizeBytes := u32 (m_futureSizeBytes q - tx_size (transaction v)) |>
    <| m_future := putInner a (delete n (at_ (m_future q) a)) (m_future q) |>.
Definition futAdd (a n : Z) (v : VerifiedTransaction) (q : TransactionQueue) : TransactionQueue :=
  q <| m_futureSize := u32 (m_futureSize q + 1) |>
    <| m_futureSizeBytes := u32 (m_futureSizeBytes q + tx_size (transaction v)) |>
    <| m_future := putInner a (<[n := v]> (at_ (m_future q) a)) (m_future q) |>.

Lemma futDel_at a n v q a' n' : at_ (m_future (futDel a n v q)) a' !! n' =
  if decide (a' = a /\ n' = n) then None else at_ (m_future q) a' !! n'.
Proof.
  simpl. rewrite at_putInner. destruct (decide (a' = a)) as [->|], (decide (n' = n)) as [->|].
  - rewrite lookup_delete_eq. by rewrite decide_True.
  - rewrite lookup_delete_ne by done. by rewrite decide_False by tauto.
  - by rewrite decide_False by tauto.
  - by rewrite decide_False by tauto.
Qed.
Lemma futAdd_at a n v q a' n' : at_ (m_future (futAdd a n v q)) a' !! n' =
  if decide (a' = a /\ n' = n) then Some v else at_ (m_future q) a' !! n'.
Proof.
  simpl. rewrite at_putInner. destruct (decide (a' = a)) as [->|], (decide (n' = n)) as [->|].
  - rewrite lookup_insert_eq. by rewrite decide_True.
  - rewrite lookup_insert_ne by done. by rewrite decide_False by tauto.
  - by rewrite decide_False by tauto.
  - by rewrite decide_False by tauto.
Qed.

Lemma futDel_ok a n v q : fut_ok q -> at_ (m_future q) a !! n = Some v -> fut_ok (futDel a n v q).
Proof.
  intros [Hne Hf Hs Hb] Hv. split.
  - simpl. by apply putInner_ne.
  - intros a' n' v'. rewrite futDel_at. destruct (decide _); [done|apply Hf].
  - simpl. rewrite Hs, u32_sub, futSum_put, (innerSum_delete (fun _ => 1) _ _ _ Hv). f_equal. lia.
  - simpl. rewrite Hb, u32_sub, futSum_put, (innerSum_delete (fun v => tx_size (transaction v)) _ _ _ Hv). f_equal. lia.
Qed.
Lemma futAdd_ok a n v q : fut_ok q -> at_ (m_future q) a !! n = None ->
  tx_from (transaction v) = a -> tx_nonce (transaction v) = n -> tx_ok (transaction v) -> fut_ok (futAdd a n v q).
Proof.
  intros [Hne Hf Hs Hb] Hv Ha Hn Ht. split.
  - simpl. by apply putInner_ne.
  - intros a' n' v'. rewrite futAdd_at. destruct (decide _) as [[-> ->]|]; [by intros [= <-]|apply Hf].
  - simpl. rewrite Hs, u32_add, futSum_put, innerSum_insert by done. f_equal. lia.
  - simpl. rewrite Hb, u32_add, futSum_put, innerSum_insert by done. f_equal. lia.
Qed.

(** ** The four changes keep the invariant *)

Lemma known_fut q a n v : cross_ok q -> at_ (m_future q) a !! n = Some v -> tx_sha3 (transaction v) ∈ m_known q.
Proof. intros H Hv. apply (ok_known q H). eauto 8. Qed.
Lemma known_cur q i v : tq_ok q -> (i, v) ∈ m_current q -> tx_sha3 (transaction v) ∈ m_known q.
Proof. intros [Hc _ Hx _] Hin. apply (ok_known q Hx). left. exists i. apply (ok_hash q Hc). eauto. Qed.
Lemma unknown_hash q h : cross_ok q -> h ∉ m_known q -> m_currentByHash q !! h = None.
Proof. intros H Hk. destruct (m_currentByHash q !! h) eqn:E; [|done]. exfalso. apply Hk, (ok_known q H). left. eauto. Qed.

Definition knowing (h : Z) (q : TransactionQueue) : TransactionQueue := q <| m_known := {[h]} ∪ m_known q |>.
Definition forgetting (h : Z) (q : TransactionQueue) : TransactionQueue := q <| m_known := m_known q ∖ {[h]} |>.

Lemma ok_add q t : tq_ok q -> tx_ok t -> tx_sha3 t ∉ m_known q ->
  at_ (m_currentByAddressAndNonce q) (tx_from t) !! tx_nonce t = None ->
  at_ (m_future q) (tx_from t) !! tx_nonce t = None ->
  tq_ok (knowing (tx_sha3 t) (emplaceCurrent place (tx_from t) t q)).
Proof.
  intros [Hc Hf Hx Hd] Ht Hk Hn Hnf. assert (Hh := unknown_hash _ _ Hx Hk).
  assert (Hc' := emplace_cur_ok q t Hc Ht Hh Hn). split; [by destruct Hc'|by destruct Hf| |done].
  destruct Hx as [Hdj Hin Hkn]. split.
  - intros a n v Hv. change (at_ (m_currentByAddressAndNonce (emplaceCurrent place (tx_from t) t q)) a !! n = None /\
      m_currentByHash (emplaceCurrent place (tx_from t) t q) !! tx_sha3 (transaction v) = None).
    rewrite emplace_an, emplace_hash. simpl in Hv. rewrite !decide_False; [by apply Hdj| |].
    + intros E. apply Hk. rewrite <- E. apply Hkn. eauto 8.
    + intros [-> ->]. congruence.
  - exact Hin.
  - intros h. change (h ∈ {[tx_sha3 t]} ∪ m_known q <-> is_Some (m_currentByHash (emplaceCurrent place (tx_from t) t q) !! h) \/
      exists a n v, at_ (m_future q) a !! n = Some v /\ tx_sha3 (transaction v) = h).
    rewrite emplace_hash, elem_of_union, elem_of_singleton, Hkn. destruct (decide (h = tx_sha3 t)) as [->|]; naive_solver.
Qed.

Lemma ok_del q i v : tq_ok q -> (i, v) ∈ m_current q ->
  tq_ok (forgetting (tx_sha3 (transaction v)) (eraseCurrent i (transaction v) q)).
Proof.
  intros [Hc Hf Hx Hd] Hin. assert (Hc' := erase_cur_ok q i v Hc Hin).
  assert (Hh : m_currentByHash q !! tx_sha3 (transaction v) = Some i) by (apply (ok_hash q Hc); eauto).
  split; [by destruct Hc'|by destruct Hf| |done]. destruct Hx as [Hdj Hinj Hkn]. set (t := transaction v) in *. split.
  - intros a n w Hw. change (at_ (m_currentByAddressAndNonce (eraseCurrent i t q)) a !! n = None /\
      m_currentByHash (eraseCurrent i t q) !! tx_sha3 (transaction w) = None).
    rewrite erase_an, erase_hash. destruct (Hdj a n w Hw) as [-> ->]. by repeat case_decide.
  - exact Hinj.
  - intros h. change (h ∈ m_known q ∖ {[tx_sha3 t]} <-> is_Some (m_currentByHash (eraseCurrent i t q) !! h) \/
      exists a n v, at_ (m_future q) a !! n = Some v /\ tx_sha3 (transaction v) = h).
    rewrite erase_hash, elem_of_difference, elem_of_singleton, Hkn. destruct (decide (h = tx_sha3 t)) as [->|]; [|naive_solver].
    split; [tauto|]. intros [[? ?]|(a & n & w & Hw & E)]; [done|]. apply Hdj in Hw as [_ Hw]. congruence.
Qed.

Lemma ok_fdel q a n v : tq_ok q -> at_ (m_future q) a !! n = Some v ->
  tq_ok (forgetting (tx_sha3 (transaction v)) (futDel a n v q)).
Proof.
  intros [Hc Hf Hx Hd] Hv. assert (Hf' := futDel_ok a n v q Hf Hv).
  split; [by destruct Hc|by destruct Hf'| |done]. destruct Hx as [Hdj Hinj Hkn]. split.
  - intros a' n' w Hw. change (at_ (m_future (futDel a n v q)) a' !! n' = Some w) in Hw.
    rewrite futDel_at in Hw. case_decide; [done|]. exact (Hdj a' n' w Hw).
  - intros a1 n1 w1 a2 n2 w2 H1 H2. change (at_ (m_future (futDel a n v q)) a1 !! n1 = Some w1) in H1.
    change (at_ (m_future (futDel a n v q)) a2 !! n2 = Some w2) in H2. rewrite futDel_at in H1, H2. repeat case_decide; naive_solver.
  - intros h. change (h ∈ m_known q ∖ {[tx_sha3 (transaction v)]} <-> is_Some (m_currentByHash q !! h) \/
      exists a' n' w, at_ (m_future (futDel a n v q)) a' !! n' = Some w /\ tx_sha3 (transaction w) = h).
    rewrite elem_of_difference, elem_of_singleton, Hkn. setoid_rewrite futDel_at. split.
    + intros [[?|(a' & n' & w & Hw & <-)] Hne]; [by left|]. right. exists a', n', w. rewrite decide_False; [done|].
      intros [-> ->]. congruence.
    + intros [Hs|(a' & n' & w & Hw & <-)].
      * split; [by left|]. intros ->. destruct (Hdj a n v Hv) as [_ E]. rewrite E in Hs. by destruct Hs.
      * case_decide as Hno; [done|]. split; [eauto 8|]. intros E. apply Hno. by eapply Hinj.
Qed.

Lemma ok_fadd q v : tq_ok q -> let t := transaction v in tx_ok t -> tx_sha3 t ∉ m_known q ->
  at_ (m_currentByAddressAndNonce q) (tx_from t) !! tx_nonce t = None ->
  at_ (m_future q) (tx_from t) !! tx_nonce t = None ->
  tq_ok (knowing (tx_sha3 t) (futAdd (tx_from t) (tx_nonce t) v q)).
Proof.
  intros [Hc Hf Hx Hd] t Ht Hk Hn Hnf. assert (Hf' := futAdd_ok (tx_from t) (tx_nonce t) v q Hf Hnf eq_refl eq_refl Ht).
  assert (Hh := unknown_hash _ _ Hx Hk). split; [by destruct Hc|by destruct Hf'| |done]. destruct Hx as [Hdj Hinj Hkn]. split.
  - intros a' n' w Hw. change (at_ (m_future (futAdd (tx_from t) (tx_nonce t) v q)) a' !! n' = Some w) in Hw.
    rewrite futAdd_at in Hw. case_decide as E; [|exact (Hdj a' n' w Hw)]. destruct E as [-> ->]. injection Hw as <-. done.
  - intros a1 n1 w1 a2 n2 w2 H1 H2 E. change (at_ (m_future (futAdd (tx_from t) (tx_nonce t) v q)) a1 !! n1 = Some w1) in H1.
    change (at_ (m_future (futAdd (tx_from t) (tx_nonce t) v q)) a2 !! n2 = Some w2) in H2. rewrite futAdd_at in H1, H2.
    assert (Hno : forall a n w, at_ (m_future q) a !! n = Some w -> tx_sha3 (transaction w) <> tx_sha3 t).
    { intros a n w Hw Ew. apply Hk, Hkn. right. eauto 6. }
    repeat case_decide; [naive_solver| | |by eapply Hinj]; exfalso; simplify_eq; eapply Hno; eauto.
  - intros h. change (h ∈ {[tx_sha3 t]} ∪ m_known q <-> is_Some (m_currentByHash q !! h) \/
      exists a' n' w, at_ (m_future (futAdd (tx_from t) (tx_nonce t) v q)) a' !! n' = Some w /\ tx_sha3 (transaction w) = h).
    rewrite elem_of_union, elem_of_singleton, Hkn. setoid_rewrite futAdd_at. split.
    + intros [->|[?|(a' & n' & w & Hw & <-)]]; [|by left|]; right.
      * exists (tx_from t), (tx_nonce t), v. by rewrite decide_True.
      * exists a', n', w. rewrite decide_False; [done|]. intros [-> ->]. congruence.
    + intros [Hs|(a' & n' & w & Hw & <-)]; [by right; left|]. case_decide; [left; by simplify_eq|right; eauto 8].
Qed.

(** ** The operations *)

Definition limits_ok (q : TransactionQueue) : Prop :=
  0 <= m_limit q /\ 0 <= m_currentSizeBytesLimit q /\ 0 <= m_futureLimit q /\ 0 <= m_futureSizeBytesLimit q.
(** The limits never change. *)
Definition same_limits (q q' : TransactionQueue) : Prop :=
  m_limit q' = m_limit q /\ m_futureLimit q' = m_futureLimit q /\
  m_currentSizeBytesLimit q' = m_currentSizeBytesLimit q /\ m_futureSizeBytesLimit q' = m_futureSizeBytesLimit q.
Lemma same_limits_ok q q' : same_limits q q' -> limits_ok q -> limits_ok q'.
Proof. unfold same_limits, limits_ok. intros (-> & -> & -> & ->). done. Qed.
Lemma same_limits_trans q1 q2 q3 : same_limits q1 q2 -> same_limits q2 q3 -> same_limits q1 q3.
Proof. unfold same_limits. intuition congruence. Qed.

Lemma remove_eq q i v : tq_ok q -> (i, v) ∈ m_current q ->
  remove_WITH_LOCK q (tx_sha3 (transaction v)) =
  Some (forgetting (tx_sha3 (transaction v)) (eraseCurrent i (transaction v) q), true).
Proof.
  intros [Hc _ _ _] Hin. unfold remove_WITH_LOCK.
  assert (Hh : m_currentByHash q !! tx_sha3 (transaction v) = Some i) by (apply (ok_hash q Hc); eauto). rewrite Hh.
  rewrite (deref_spec _ _ _ (ok_ids q Hc) Hin).
  assert (Ha : at_ (m_currentByAddressAndNonce q) (tx_from (transaction v)) !! tx_nonce (transaction v) = Some i)
    by (apply (ok_an q Hc); eauto). by rewrite (at_lookup _ _ _ _ Ha).
Qed.

Lemma tq_remove_ok q h : tq_ok q -> exists q' b, remove_WITH_LOCK q h = Some (q', b) /\ tq_ok q' /\ same_limits q q'
  /\ m_future q' = m_future q.
Proof.
  intros Hq. destruct (m_currentByHash q !! h) as [i|] eqn:E.
  - apply (ok_hash q (ok_cur q Hq)) in E as (v & Hin & <-). rewrite (remove_eq q i v Hq Hin).
    do 2 eexists. split; [done|]. split; [by apply ok_del|done].
  - unfold remove_WITH_LOCK. rewrite E. by do 2 eexists.
Qed.

(** Evicting from the end of the queue ends within the limits. *)
Lemma evictCurrent_ok fuel : forall q, tq_ok q -> limits_ok q -> (length (m_current q) <= fuel)%nat ->
  exists q', evictCurrent fuel q = Some q' /\ tq_ok q' /\ same_limits q q' /\ overCurrent q' = false /\ m_future q' = m_future q.
Proof.
  induction fuel as [|f IH]; intros q Hq Hl Hlen; simpl; destruct (overCurrent q) eqn:Ho; try (eexists; split; [done|]; done).
  all: assert (Hne : m_current q <> []) by (intros E; unfold overCurrent in Ho;
    rewrite (ok_curBytes q (ok_cur q Hq)), E in Ho; change (u32 (curSum _ [])) with 0 in Ho;
    change (lenZ (@nil (Z * VerifiedTransaction))) with 0 in Ho; destruct Hl as (? & ? & ? & ?);
    apply orb_true_iff in Ho as [Ho|Ho]; apply Z.gtb_lt in Ho; lia).
  - destruct (m_current q); [done|simpl in Hlen; lia].
  - destruct (last (m_current q)) as [[i v]|] eqn:El; [|by apply last_None in El].
    assert (Hin : (i, v) ∈ m_current q) by (by apply last_Some_elem_of).
    rewrite (remove_eq q i v Hq Hin). destruct (IH (forgetting (tx_sha3 (transaction v)) (eraseCurrent i (transaction v) q)))
      as (q' & E & Hok & Hsl & Hov & Hfu); [by apply ok_del|done| |].
    + simpl. rewrite (eraseNode_perm _ _ _ (ok_ids q (ok_cur q Hq)) Hin) in Hlen. simpl in Hlen. lia.
    + exists q'. done.
Qed.

Lemma TQ_ext q q' : m_known q = m_known q' -> m_dropped q = m_dropped q' -> m_current q = m_current q' ->
  m_currentByHash q = m_currentByHash q' -> m_currentByAddressAndNonce q = m_currentByAddressAndNonce q' ->
  m_future q = m_future q' -> m_limit q = m_limit q' -> m_futureLimit q = m_futureLimit q' -> m_futureSize q = m_futureSize q' ->
  m_currentSizeBytesLimit q = m_currentSizeBytesLimit q' -> m_currentSizeBytes q = m_currentSizeBytes q' ->
  m_futureSizeBytesLimit q = m_futureSizeBytesLimit q' -> m_futureSizeBytes q = m_futureSizeBytes q' ->
  m_unverified q = m_unverified q' -> m_nextNode q = m_nextNode q' -> q = q'.
Proof. destruct q, q'; simpl; intros; by subst. Qed.

(** The queue with [fs] in place of the future transactions of [a]. *)
Definition viewF (a : Z) (fs : gmap Z VerifiedTransaction) (q : TransactionQueue) : TransactionQueue :=
  q <| m_future := putInner a fs (m_future q) |>.

Lemma known_restore h (k : gset Z) : h ∈ k -> {[h]} ∪ k ∖ {[h]} = k.
Proof. intros. symmetry. apply union_difference_L. set_solver. Qed.

(** Moving one transaction from the future to the current queue. *)
Lemma move_current q a n fs v : tq_ok (viewF a fs q) -> fs !! n = Some v ->
  let t := transaction v in
  let q1 := emplaceCurrent place a t q in
  tq_ok (viewF a (delete n fs) (q1 <| m_futureSizeBytes := u32 (m_futureSizeBytes q1 - tx_size t) |>
                                   <| m_futureSize := u32 (m_futureSize q1 - 1) |>)).
Proof.
  intros Hq Hv t q1. set (q0 := viewF a fs q) in *.
  assert (Hat : at_ (m_future q0) a !! n = Some v) by (simpl; rewrite at_putInner, decide_True by done; done).
  destruct (ok_fut q0 (ok_future q0 Hq) a n v Hat) as (Ha & Hn & Ht). fold t in Ha, Hn, Ht.
  destruct (ok_disj q0 (ok_cross q0 Hq) a n v Hat) as [Hna Hnh].
  assert (Hkn := known_fut q0 a n v (ok_cross q0 Hq) Hat).
  assert (H1 := ok_fdel q0 a n v Hq Hat). set (qd := forgetting _ _) in H1.
  assert (H2 := ok_add qd t H1 Ht). rewrite Ha, Hn in H2.
  specialize (H2 ltac:(simpl; set_solver) Hna). 
  specialize (H2 ltac:(change (m_future qd) with (m_future (futDel a n v q0)); rewrite futDel_at; by rewrite decide_True)).
  match type of H2 with tq_ok ?x => match goal with |- tq_ok ?y => replace y with x; [exact H2|] end end.
  apply TQ_ext; try reflexivity; simpl.
  - by apply known_restore.
  - rewrite at_putInner, decide_True by done. apply putInner_twice.
Qed.

Lemma makeRun_ok f : forall a n fs q, tq_ok (viewF a fs q) ->
  let r := makeRun place f a n fs q in tq_ok (viewF a (snd r) (fst r)) /\ same_limits q (fst r).
Proof.
  induction f as [|f IH]; intros a n fs q Hq; simpl; [done|]. destruct (fs !! n) as [v|] eqn:E; [|done].
  destruct (IH a (n + 1) (delete n fs) _ (move_current q a n fs v Hq E)) as [H1 H2]. split; [exact H1|exact H2].
Qed.

Lemma makeCurrent_ok q t : tq_ok q -> tq_ok (makeCurrent_WITH_LOCK place q t) /\ same_limits q (makeCurrent_WITH_LOCK place q t).
Proof.
  intros Hq. unfold makeCurrent_WITH_LOCK. destruct (m_future q !! tx_from t) as [fs|] eqn:E; [|done].
  destruct (fs !! _); [|done]. pose proof (makeRun_ok (S (size fs)) (tx_from t) (u256 (tx_nonce t + 1)) fs q) as H.
  destruct (makeRun _ _ _ _ _ _) as [q' fs']. apply H. replace (viewF (tx_from t) fs q) with q; [done|].
  unfold viewF. replace fs with (at_ (m_future q) (tx_from t)) by (unfold at_; by rewrite E).
  rewrite putInner_id by apply Hq. by destruct q.
Qed.

Lemma makeRun_knowing h f : forall a n fs q,
  makeRun place f a n fs (knowing h q) = (knowing h (fst (makeRun place f a n fs q)), snd (makeRun place f a n fs q)).
Proof.
  induction f as [|f IH]; intros a n fs q; simpl; [done|]. destruct (fs !! n) as [v|]; [|done]. rewrite <- IH. done.
Qed.
Lemma makeCurrent_knowing h q t :
  makeCurrent_WITH_LOCK place (knowing h q) t = knowing h (makeCurrent_WITH_LOCK place q t).
Proof.
  unfold makeCurrent_WITH_LOCK. change (m_future (knowing h q)) with (m_future q).
  destruct (m_future q !! tx_from t) as [fs|]; [|done]. destruct (fs !! _); [|done].
  rewrite makeRun_knowing. by destruct (makeRun _ _ _ _ _ _) as [q' fs'].
Qed.

Lemma insertCurrent_ok q t : tq_ok q -> tx_ok t -> tx_sha3 t ∉ m_known q ->
  at_ (m_currentByAddressAndNonce q) (tx_from t) !! tx_nonce t = None ->
  at_ (m_future q) (tx_from t) !! tx_nonce t = None ->
  tq_ok (insertCurrent_WITH_LOCK place q (tx_sha3 t) t) /\ same_limits q (insertCurrent_WITH_LOCK place q (tx_sha3 t) t).
Proof.
  intros Hq Ht Hk Hn Hf. unfold insertCurrent_WITH_LOCK.
  rewrite decide_False by (rewrite (unknown_hash q _ (ok_cross q Hq) Hk); by intros [? ?]).
  assert (H1 := ok_add q t Hq Ht Hk Hn Hf). apply (makeCurrent_ok _ t) in H1 as [H1 H2].
  rewrite makeCurrent_knowing in H1, H2. split; [exact H1|exact H2].
Qed.

Lemma dropSameFuture_ok q t : tq_ok q -> tq_ok (dropSameFuture q t) /\ same_limits q (dropSameFuture q t)
  /\ at_ (m_future (dropSameFuture q t)) (tx_from t) !! tx_nonce t = None.
Proof.
  intros Hq. unfold dropSameFuture. destruct (m_future q !! tx_from t) as [fs|] eqn:E.
  - assert (Hat : at_ (m_future q) (tx_from t) = fs) by (unfold at_; by rewrite E).
    destruct (fs !! tx_nonce t) as [v|] eqn:Ev; [|by rewrite Hat]. rewrite <- Hat in Ev.
    destruct (ok_fut q (ok_future q Hq) _ _ _ Ev) as (_ & Hn & _). rewrite Hn, <- Hat.
    split; [apply (ok_fdel q _ _ _ Hq Ev)|]. split; [done|]. cbn. by rewrite at_putInner, decide_True, lookup_delete_eq by done.
  - split; [done|]. split; [done|]. unfold at_. by rewrite E.
Qed.

Lemma check_ok q h ik : tq_ok q -> exists q' r, check_WITH_LOCK q h ik = Some (q', r) /\ tq_ok q' /\ same_limits q q'
  /\ m_future q' = m_future q /\ (r = Success -> h ∉ m_known q').
Proof.
  intros Hq. unfold check_WITH_LOCK. case_decide as Hk; [by do 2 eexists|].
  destruct (Lru.touch_ok (m_dropped q) h (ok_dropped q Hq)) as (d & -> & Hd & _). set (b := bool_decide _).
  assert (Hq' : tq_ok (q <| m_dropped := d |>)) by (destruct Hq as [[] [] [] ?]; split; [split|split|split|]; done).
  destruct b, ik; do 2 eexists; (split; [done|]); done.
Qed.

Lemma manageImport_ok q t : tq_ok q -> limits_ok q -> tx_ok t -> tx_sha3 t ∉ m_known q ->
  exists q' r, manageImport_WITH_LOCK place q (tx_sha3 t) t = Some (q', r) /\ tq_ok q' /\ same_limits q q'
  /\ (r = Success -> overCurrent q' = false).
Proof.
  intros Hq Hl Ht Hk. unfold manageImport_WITH_LOCK. destruct (decide (is_Some _)) as [|Hc] in |- *; [by do 2 eexists|].
  destruct (decide (is_Some (at_ (m_future q) _ !! _))) as [|Hf]; [by do 2 eexists|].
  apply eq_None_not_Some in Hc. apply eq_None_not_Some in Hf. destruct (insertCurrent_ok q t Hq Ht Hk Hc Hf) as [H1 H2].
  destruct (evictCurrent_ok _ _ H1 (same_limits_ok _ _ H2 Hl) (le_n _)) as (q' & -> & Hok & Hsl & Ho & _).
  do 2 eexists. split; [done|]. split; [done|]. split; [by eapply same_limits_trans|done].
Qed.

(** *** The end of a chain *)

Lemma sortedEntries_elem {A} (m : gmap Z A) k v : (k, v) ∈ sortedEntries m <-> m !! k = Some v.
Proof. unfold sortedEntries. rewrite merge_sort_Permutation. apply elem_of_map_to_list. Qed.
Lemma sortedEntries_keys {A} (m : gmap Z A) : NoDup (map fst (sortedEntries m)).
Proof. unfold sortedEntries. rewrite merge_sort_Permutation. apply NoDup_fst_map_to_list. Qed.

Lemma rbegin_lookup {A} (m : gmap Z A) k v : rbegin m = Some (k, v) -> m !! k = Some v.
Proof. unfold rbegin. intros H. apply last_Some_elem_of in H. by apply sortedEntries_elem. Qed.
Lemma rbegin_Some {A} (m : gmap Z A) : m <> ∅ -> exists k v, rbegin m = Some (k, v).
Proof.
  intros Hm. unfold rbegin. destruct (last (sortedEntries m)) as [[k v]|] eqn:E; [eauto|]. apply last_None in E.
  exfalso. apply Hm, map_empty. intros k. destruct (m !! k) as [v|] eqn:Ek; [|done].
  apply sortedEntries_elem in Ek. rewrite E in Ek. by apply elem_of_nil in Ek.
Qed.

Lemma innerSum_size {A} (m : gmap Z A) : innerSum (fun _ => 1) m = Z.of_nat (size m).
Proof.
  induction m as [|k v m Hk IH] using map_ind; [done|]. rewrite innerSum_insert, map_size_insert_None by done. lia.
Qed.
Lemma futureCount_sum m : Z.of_nat (futureCount m) = futSum (fun _ => 1) m.
Proof.
  unfold futureCount, futSum. induction m as [|k v m Hk IH] using map_ind; [done|].
  rewrite innerSum_insert by done. rewrite map_fold_insert_L; [|lia|done]. rewrite innerSum_size. lia.
Qed.

Variable futureBegin : gmap Z (gmap Z VerifiedTransaction) -> Z.
(** [begin()] of a map that is not empty denotes one of its elements. *)
Hypothesis futureBegin_ok : forall m, m <> ∅ -> is_Some (m !! futureBegin m).

Lemma trimFuture_ok fuel : forall q, tq_ok q -> limits_ok q -> (futureCount (m_future q) <= fuel)%nat ->
  exists q', trimFuture futureBegin fuel q = Some q' /\ tq_ok q' /\ same_limits q q' /\ overFuture q' = false
    /\ m_current q' = m_current q /\ m_currentSizeBytes q' = m_currentSizeBytes q.
Proof.
  induction fuel as [|f IH]; intros q Hq Hl Hlen; simpl; destruct (overFuture q) eqn:Ho; try (eexists; split; [done|]; done).
  all: assert (Hne : m_future q <> ∅) by (intros E; unfold overFuture in Ho;
    rewrite (ok_futSize q (ok_future q Hq)), (ok_futBytes q (ok_future q Hq)), E in Ho; change (u32 (futSum _ ∅)) with 0 in Ho;
    destruct Hl as (? & ? & ? & ?); apply orb_true_iff in Ho as [Ho|Ho]; apply Z.gtb_lt in Ho; lia).
  all: destruct (futureBegin_ok _ Hne) as [inner Hin]; assert (Hi := ok_fut_ne q (ok_future q Hq) _ _ Hin); simpl in Hi;
    destruct (rbegin_Some inner Hi) as (k & v & Er); assert (Hat : at_ (m_future q) (futureBegin (m_future q)) = inner) by (unfold at_; by rewrite Hin);
    assert (Hv : at_ (m_future q) (futureBegin (m_future q)) !! k = Some v) by (rewrite Hat; by apply rbegin_lookup).
  all: assert (Hcnt : (futureCount (putInner (futureBegin (m_future q)) (delete k inner) (m_future q)) + 1 = futureCount (m_future q))%nat)
    by (apply Nat2Z.inj; rewrite Nat2Z.inj_add, !futureCount_sum, futSum_put, Hat; rewrite Hat in Hv;
        rewrite (innerSum_delete (fun _ => 1) _ _ _ Hv); lia).
  - lia.
  - rewrite Hin, Er. destruct (IH (forgetting (tx_sha3 (transaction v)) (futDel (futureBegin (m_future q)) k v q)))
      as (q' & E & H1 & H2 & H3 & H4 & H5); [by apply ok_fdel|done|simpl; rewrite Hat; lia|].
    exists q'. rewrite <- E. split; [|done]. f_equal. by rewrite <- Hat.
Qed.

(** *** Moving the end of a sender's chain to the future queue *)

(** The queue with [Q] and [T] in place of the current and the future transactions of [a]. *)
Definition viewC (a : Z) (Q : gmap Z Z) (T : gmap Z VerifiedTransaction) (q : TransactionQueue) : TransactionQueue :=
  q <| m_currentByAddressAndNonce := putInner a Q (m_currentByAddressAndNonce q) |>
    <| m_future := putInner a T (m_future q) |>.

Lemma moveToFuture_ok a Q T q n i : tq_ok (viewC a Q T q) -> Q !! n = Some i ->
  exists q' T', moveToFuture (Some (q, T)) (n, i) = Some (q', T') /\ tq_ok (viewC a (delete n Q) T' q')
    /\ same_limits q q' /\ is_Some (T' !! n) /\ (forall k, is_Some (T !! k) -> is_Some (T' !! k))
    /\ m_currentByAddressAndNonce q' = m_currentByAddressAndNonce q /\ m_future q' = m_future q.
Proof.
  intros Hq Hn. set (q0 := viewC a Q T q) in *.
  assert (Hat : at_ (m_currentByAddressAndNonce q0) a !! n = Some i) by (simpl; by rewrite at_putInner, decide_True).
  assert (Hft : at_ (m_future q0) a = T) by (simpl; by rewrite at_putInner, decide_True).
  destruct (proj1 (ok_an q0 (ok_cur q0 Hq) a n i) Hat) as (v & Hin & Ha & Hno).
  assert (Hd := deref_spec _ _ _ (ok_ids q0 (ok_cur q0 Hq)) Hin). change (m_current q0) with (m_current q) in Hd.
  unfold moveToFuture. simpl. rewrite Hd, Hno. set (t := transaction v) in *.
  assert (HT : T !! n = None).
  { destruct (T !! n) as [w|] eqn:E; [|done]. rewrite <- Hft in E. apply (ok_disj q0 (ok_cross q0 Hq)) in E as [E _]. congruence. }
  rewrite HT. do 2 eexists. split; [done|]. split; [|split; [done|]; split; [by rewrite lookup_insert_eq|]; split; [|done]].
  2:{ intros k Hk. destruct (decide (k = n)) as [->|]; [by rewrite lookup_insert_eq|by rewrite lookup_insert_ne]. }
  assert (H1 := ok_del q0 i v Hq Hin). fold t in H1. set (qd := forgetting _ _) in H1.
  assert (H2 := ok_fadd qd (VT_move v) H1). cbv zeta in H2. change (transaction (VT_move v)) with t in H2.
  rewrite Ha, Hno in H2. specialize (H2 (ok_curTx q0 (ok_cur q0 Hq) i v Hin) ltac:(simpl; set_solver)).
  change (m_currentByAddressAndNonce qd) with (m_currentByAddressAndNonce (eraseCurrent i t q0)) in H2.
  rewrite erase_an, decide_True in H2 by done. change (m_future qd) with (m_future q0) in H2. rewrite Hft in H2.
  specialize (H2 eq_refl HT). assert (Hkn := known_cur q0 i v Hq Hin).
  match type of H2 with tq_ok ?x => match goal with |- tq_ok ?y => replace y with x; [exact H2|] end end.
  apply TQ_ext; try reflexivity; simpl.
  - by apply known_restore.
  - rewrite Ha, Hno, at_putInner, decide_True by done. apply putInner_twice.
  - rewrite at_putInner, decide_True by done. apply putInner_twice.
Qed.

Lemma moveLoop_ok a l : forall Q T q, tq_ok (viewC a Q T q) -> NoDup (map fst l) ->
  (forall n i, (n, i) ∈ l -> Q !! n = Some i) ->
  exists q' T' Q', foldl moveToFuture (Some (q, T)) l = Some (q', T') /\ tq_ok (viewC a Q' T' q') /\ same_limits q q'
    /\ (forall n, Q' !! n = if decide (n ∈ map fst l) then None else Q !! n)
    /\ (forall n, n ∈ map fst l \/ is_Some (T !! n) -> is_Some (T' !! n))
    /\ m_currentByAddressAndNonce q' = m_currentByAddressAndNonce q /\ m_future q' = m_future q.
Proof.
  induction l as [|[n i] l IH]; intros Q T q Hq Hnd Hl.
  - exists q, T, Q. split; [done|]. split; [done|]. split; [done|]. split; [done|]. split; [|done].
    intros n [H|H]; [by apply elem_of_nil in H|done].
  - cbn [map fst] in *. apply NoDup_cons in Hnd as [Hn Hnd].
    destruct (moveToFuture_ok a Q T q n i Hq (Hl n i (list_elem_of_here _ _))) as (q1 & T1 & E1 & H1 & Hs1 & Hi1 & Hm1 & Ea1 & Ef1).
    destruct (IH (delete n Q) T1 q1 H1 Hnd) as (q2 & T2 & Q2 & E2 & H2 & Hs2 & HQ & HT & Ea2 & Ef2).
    { intros k j Hk. rewrite lookup_delete_ne; [apply Hl; by apply list_elem_of_further|]. intros ->.
      apply Hn. by apply (list_elem_of_fmap_2 fst) in Hk. }
    exists q2, T2, Q2. cbn [foldl]. rewrite E1. split; [done|]. split; [done|]. split; [by eapply same_limits_trans|].
    split; [|split; [|split; congruence]].
    + intros k. rewrite HQ. destruct (decide (k = n)) as [->|Hkn].
      * rewrite (decide_False (P := n ∈ map fst l)) by done. rewrite decide_True by apply list_elem_of_here. apply lookup_delete_eq.
      * rewrite lookup_delete_ne by done. repeat case_decide; try done; exfalso; set_solver.
    + intros k [Hk|Hk]; apply HT; [|right; auto]. apply elem_of_cons in Hk as [->|Hk]; [by right|by left].
Qed.

Lemma NoDup_map_filter {A B} (f : A -> B) (P : A -> Prop) `{!forall x, Decision (P x)} l :
  NoDup (map f l) -> NoDup (map f (filter P l)).
Proof.
  induction l as [|x l IH]; simpl; intros Hnd; [constructor|]. apply NoDup_cons in Hnd as [Hx Hnd].
  rewrite filter_cons. case_decide; simpl; [|by apply IH]. apply NoDup_cons. split; [|by apply IH].
  intros Hin. apply Hx. apply list_elem_of_fmap in Hin as (y & -> & Hy). apply list_elem_of_filter in Hy as [_ Hy].
  by apply (list_elem_of_fmap_2 f).
Qed.

Lemma viewC_id a q : tq_ok q -> viewC a (at_ (m_currentByAddressAndNonce q) a) (at_ (m_future q) a) q = q.
Proof.
  intros Hq. unfold viewC. apply TQ_ext; try reflexivity; simpl; apply putInner_id; apply Hq.
Qed.

Lemma setFuture_ok q h : tq_ok q -> limits_ok q -> exists q', setFuture_WITH_LOCK futureBegin q h = Some q' /\ tq_ok q'
  /\ same_limits q q' /\ (is_Some (m_currentByHash q !! h) -> overFuture q' = false).
Proof.
  intros Hq Hl. unfold setFuture_WITH_LOCK. destruct (m_currentByHash q !! h) as [i|] eqn:E.
  2:{ eexists. split; [done|]. split; [done|]. split; [done|]. by intros [? ?]. }
  destruct (proj1 (ok_hash q (ok_cur q Hq) h i) E) as (v & Hin & Hh). rewrite (deref_spec _ _ _ (ok_ids q (ok_cur q Hq)) Hin).
  set (t := transaction v) in *. set (Q := at_ (m_currentByAddressAndNonce q) (tx_from t)). set (l := filter _ (sortedEntries Q)).
  assert (Hl_elem : forall n j, (n, j) ∈ l <-> tx_nonce t <= n /\ Q !! n = Some j).
  { intros n j. unfold l. rewrite list_elem_of_filter, sortedEntries_elem. done. }
  destruct (moveLoop_ok (tx_from t) l Q (at_ (m_future q) (tx_from t)) q) as (q1 & T1 & Q1 & -> & H1 & Hs1 & HQ & HT & Ea & Ef).
  - unfold Q. by rewrite viewC_id.
  - apply NoDup_map_filter, sortedEntries_keys.
  - intros n j Hn. by apply Hl_elem.
  - assert (Hkey : forall n, n ∈ map fst l <-> tx_nonce t <= n /\ is_Some (Q !! n)).
    { intros n. rewrite list_elem_of_fmap. split; [intros ([k j] & -> & Hk); apply Hl_elem in Hk as [? ?]; eauto|].
      intros [? [j Hj]]. exists (n, j). split; [done|]. by apply Hl_elem. }
    assert (Hst : is_Some (T1 !! tx_nonce t)).
    { apply HT. left. apply Hkey. split; [lia|]. exists i. apply (ok_an q (ok_cur q Hq)). eauto. }
    assert (HQ1 : Q1 = filter (fun m : Z * Z => fst m < tx_nonce t) Q).
    { apply map_eq. intros n. rewrite HQ, map_lookup_filter. case_decide as Hn; rewrite Hkey in Hn.
      - destruct Hn as [Hn [j ->]]. simpl. by rewrite option_guard_False by lia.
      - destruct (Q !! n) as [j|] eqn:Ej; [|done]. simpl. rewrite option_guard_True; [done|]. simpl.
        destruct (Z.lt_ge_cases n (tx_nonce t)); [done|]. exfalso. apply Hn. eauto. }
    subst Q1. match goal with |- context [trimFuture _ _ ?x] => set (q2 := x) end.
    assert (Hq2 : tq_ok q2).
    { replace q2 with (viewC (tx_from t) (filter (fun m : Z * Z => fst m < tx_nonce t) Q) T1 q1); [done|].
      apply TQ_ext; try reflexivity. simpl. rewrite insert_putInner; [done|]. intros ->. rewrite lookup_empty in Hst. by destruct Hst. }
    destruct (trimFuture_ok _ q2 Hq2 (same_limits_ok _ _ Hs1 Hl) (le_n _)) as (q' & -> & H2 & H3 & H4 & _).
    exists q'. split; [done|]. split; [done|]. split; [|done]. exact (same_limits_trans _ _ _ Hs1 H3).
Qed.
End Inv.
