(* ===== verification/TransactionQueueClaims.v ===== *)
(** * TransactionQueue: theorems

    Every sequence of operations is defined and keeps the invariant; imports respect the limits;
    a new transaction pulls exactly the consecutive nonces behind it out of the future queue; block
    proposals list the transactions of a sender in nonce order; [maxNonce] is the next free nonce. *)

From S2P Require Import Prelude LruCache TransactionQueue TransactionQueueInv.
From Stdlib Require Import ZArith Lia Bool.
From stdpp Require Import base list gmap sorting.
Open Scope Z_scope.

Section Claims.
Variable place : Nodes -> gmap Z (gmap Z Z) -> VerifiedTransaction -> nat.

(** ** Block proposals *)

(** The lowest current nonce of a sender. *)
Definition lowest (q : TransactionQueue) (a : Z) : Z :=
  match begin_ (at_ (m_currentByAddressAndNonce q) a) with Some (n, _) => n | None => 0 end.

Definition queued (q : TransactionQueue) (t : Transaction) : Prop := exists i v, (i, v) ∈ m_current q /\ transaction v = t.

Lemma height_queued q t : tq_ok q -> queued q t -> height q t = Some (tx_nonce t - lowest q (tx_from t)).
Proof.
  intros Hq (i & v & Hin & Ev). unfold height, lowest, begin_.
  assert (Ha : at_ (m_currentByAddressAndNonce q) (tx_from t) !! tx_nonce t = Some i) by (apply (ok_an q (ok_cur q Hq)); subst; eauto).
  assert (Hs : Sorted key_le (sortedEntries (at_ (m_currentByAddressAndNonce q) (tx_from t)))).
  { apply Sorted_merge_sort. intros x y. unfold key_le. lia. }
  apply Sorted_StronglySorted in Hs; [|intros x y z; unfold key_le; lia].
  destruct (sortedEntries _) as [|[lo j] l] eqn:E; simpl.
  - apply sortedEntries_elem in Ha. rewrite E in Ha. by apply elem_of_nil in Ha.
  - assert (Hlo : lo <= tx_nonce t).
    { apply sortedEntries_elem in Ha. rewrite E in Ha. apply elem_of_cons in Ha as [[= -> _]|Ha]; [lia|].
      apply StronglySorted_inv in Hs as [_ Hs]. rewrite Forall_forall in Hs. exact (Hs _ Ha). }
    assert (Hj : (lo, j) ∈ sortedEntries (at_ (m_currentByAddressAndNonce q) (tx_from t))) by (rewrite E; apply list_elem_of_here).
    apply sortedEntries_elem, (ok_an q (ok_cur q Hq)) in Hj as (w & Hw & _ & Hn).
    destruct (ok_curTx q (ok_cur q Hq) _ _ Hw) as (_ & Hb & _). destruct (ok_curTx q (ok_cur q Hq) _ _ Hin) as (_ & Hb' & _).
    rewrite Ev in Hb'. rewrite wrap_small by lia. done.
Qed.

(** The order [PriorityCompare] puts on queued transactions of one category. *)
Definition prior (q : TransactionQueue) (x y : Transaction) : bool :=
  let h t := tx_nonce t - lowest q (tx_from t) in
  (h x <? h y) || ((h x =? h y) && (tx_gasPrice y <? tx_gasPrice x)).

Lemma compare_prior q q' x y : tq_ok q -> m_currentByAddressAndNonce q' = m_currentByAddressAndNonce q ->
  queued q x -> queued q y -> PriorityCompare q' (VT_of x) (VT_of y) = Some (prior q x y).
Proof.
  intros Hq Ea Hx Hy. assert (Hb : forall t, queued q t -> tx_bool t = true).
  { intros t (i & v & Hin & <-). by destruct (ok_curTx q (ok_cur q Hq) _ _ Hin). }
  assert (Hh : forall t, height q' t = height q t) by (intros t; unfold height; by rewrite Ea).
  unfold PriorityCompare. simpl. rewrite (Hb x Hx), (Hb y Hy), !Hh, !height_queued by done. unfold prior. by rewrite Z.gtb_ltb.
Qed.

Lemma prior_spec q x y : let h t := tx_nonce t - lowest q (tx_from t) in
  if prior q x y then h x < h y \/ (h x = h y /\ tx_gasPrice y < tx_gasPrice x)
  else h y < h x \/ (h x = h y /\ tx_gasPrice x <= tx_gasPrice y).
Proof.
  intros h. unfold prior. fold (h x) (h y). destruct (Z.ltb_spec (h x) (h y)); simpl; [lia|].
  destruct (Z.eqb_spec (h x) (h y)); simpl; [|lia]. destruct (Z.ltb_spec (tx_gasPrice y) (tx_gasPrice x)); lia.
Qed.
Lemma prior_asym q x y : prior q x y = true -> prior q y x = false.
Proof. intros H. pose proof (prior_spec q x y) as H1. rewrite H in H1. pose proof (prior_spec q y x) as H2.
  cbv beta zeta in *. destruct (prior q y x); [lia|done].
Qed.
Lemma prior_trans q x y z : prior q x y = false -> prior q y z = false -> prior q x z = false.
Proof.
  intros H1 H2. pose proof (prior_spec q x y) as P1. pose proof (prior_spec q y z) as P2. pose proof (prior_spec q x z) as P3.
  rewrite H1 in P1. rewrite H2 in P2. cbv beta zeta in *. destruct (prior q x z); [lia|done].
Qed.

Lemma stable_sort_ok q q' l : tq_ok q -> m_currentByAddressAndNonce q' = m_currentByAddressAndNonce q -> Forall (queued q) l ->
  exists r, stable_sort q' l = Some r /\ r ≡ₚ l /\ StronglySorted (fun x y => prior q y x = false) r.
Proof.
  intros Hq Ea. induction l as [|t l IH]; intros Hl; simpl; [exists []; repeat constructor|].
  apply Forall_cons in Hl as [Ht Hl]. destruct (IH Hl) as (r & -> & HP & Hs). clear IH. rewrite <- HP in Hl. revert l HP.
  cut (exists r', sortInsert q' t r = Some r' /\ r' ≡ₚ t :: r /\ StronglySorted (fun x y => prior q y x = false) r').
  { intros (r' & H1 & H2 & H3) l HP. exists r'. split; [done|]. split; [by rewrite H2, HP|done]. }
  induction r as [|x r IH]; simpl; [exists [t]; repeat constructor|]. apply Forall_cons in Hl as [Hx Hl].
  apply StronglySorted_inv in Hs as [Hs Hall]. rewrite (compare_prior q q' x t Hq Ea Hx Ht). destruct (prior q x t) eqn:E.
  - destruct (IH Hl Hs) as (r' & -> & HP & Hs'). exists (x :: r'). split; [done|]. split; [rewrite HP; apply Permutation_swap|].
    constructor; [done|]. rewrite HP. constructor; [by apply prior_asym|done].
  - exists (t :: x :: r). split; [done|]. split; [done|]. constructor; [by constructor|]. constructor; [done|].
    eapply Forall_impl; [exact Hall|]. simpl. intros y Hy. by eapply prior_trans.
Qed.

Lemma lowerBound_app m l : fst (lowerBoundDummy m l) ++ snd (lowerBoundDummy m l) = l.
Proof. induction l as [|x l IH]; simpl; [done|]. destruct (category (snd x) >? m); [|done]. destruct (lowerBoundDummy m l). simpl in *. by rewrite IH. Qed.

(** The nodes that a call with categories takes. *)
Definition taken (q : TransactionQueue) (limit maxC : Z) : Nodes := takeZ limit (snd (lowerBoundDummy maxC (m_current q))).
Lemma taken_current q limit maxC x : x ∈ taken q limit maxC -> x ∈ m_current q.
Proof.
  intros Hx. rewrite <- (lowerBound_app maxC (m_current q)). apply elem_of_app. right.
  rewrite <- (takeZ_dropZ limit (snd (lowerBoundDummy maxC (m_current q)))). apply elem_of_app. by left.
Qed.
Lemma topCat_loop_spec limit setC from : forall top, lenZ top <= limit ->
  topTransactionsCat_loop limit setC from top =
  (if bool_decide (0 <= setC /\ takeZ (limit - lenZ top) from <> []) then None else Some (top ++ map (fun x => transaction (snd x)) (takeZ (limit - lenZ top) from))).
Proof.
  induction from as [|x from IH]; intros top Hl; cbn [topTransactionsCat_loop].
  - rewrite bool_decide_eq_false_2; unfold takeZ; rewrite take_nil; [by rewrite app_nil_r|by intros []].
  - destruct (Z.ltb_spec (lenZ top) limit) as [Hlt|Hge].
    + assert (Ht : takeZ (limit - lenZ top) (x :: from) = x :: takeZ (limit - (lenZ top + 1)) from).
      { unfold takeZ. replace (Z.to_nat (limit - lenZ top)) with (S (Z.to_nat (limit - (lenZ top + 1)))) by lia. done. }
      rewrite Ht, Z.geb_leb. destruct (Z.leb_spec 0 setC); [by rewrite bool_decide_eq_true_2|].
      rewrite IH by (rewrite lenZ_app; change (lenZ [transaction (snd x)]) with 1; lia). rewrite !bool_decide_eq_false_2 by lia.
      rewrite lenZ_app. change (lenZ [transaction (snd x)]) with 1. by rewrite <- app_assoc.
    + replace (limit - lenZ top) with 0 by lia. rewrite takeZ_0. rewrite bool_decide_eq_false_2 by (by intros []). by rewrite app_nil_r.
Qed.
Lemma topCat_parts q limit maxC setC : tq_ok q -> 0 <= limit ->
  if bool_decide (0 <= setC /\ taken q limit maxC <> []) then topTransactionsCat_WITH_LOCK q limit maxC setC = None
  else exists r, topTransactionsCat_WITH_LOCK q limit maxC setC = Some r /\ r ≡ₚ map (fun x => transaction (snd x)) (taken q limit maxC)
         /\ StronglySorted (fun x y => prior q y x = false) r.
Proof.
  intros Hq Hlim. unfold topTransactionsCat_WITH_LOCK. rewrite topCat_loop_spec by done. change (lenZ []) with 0. rewrite Z.sub_0_r. fold (taken q limit maxC).
  destruct (bool_decide _); [done|]. apply (stable_sort_ok q q); [done|done|].
  apply Forall_forall. intros t Ht. apply list_elem_of_fmap in Ht as ([i v] & -> & Hin). exists i, v. split; [by eapply taken_current|done].
Qed.

Lemma nodes_hash_inj q : tq_ok q -> forall x y, x ∈ m_current q -> y ∈ m_current q ->
  tx_sha3 (transaction (snd x)) = tx_sha3 (transaction (snd y)) -> x = y.
Proof.
  intros Hq [i v] [j w] Hx Hy E. simpl in E. assert (Hi : m_currentByHash q !! tx_sha3 (transaction v) = Some i) by (apply (ok_hash q (ok_cur q Hq)); eauto).
  assert (Hj : m_currentByHash q !! tx_sha3 (transaction w) = Some j) by (apply (ok_hash q (ok_cur q Hq)); eauto).
  rewrite E in Hi. simplify_eq. f_equal. by eapply node_unique; [apply Hq| |].
Qed.
Lemma queued_unique q x y : tq_ok q -> queued q x -> queued q y -> tx_from x = tx_from y -> tx_nonce x = tx_nonce y -> x = y.
Proof.
  intros Hq (i & v & Hv & <-) (j & w & Hw & <-) Ha Hn.
  assert (Hi : at_ (m_currentByAddressAndNonce q) (tx_from (transaction v)) !! tx_nonce (transaction v) = Some i) by (apply (ok_an q (ok_cur q Hq)); eauto).
  assert (Hj : at_ (m_currentByAddressAndNonce q) (tx_from (transaction w)) !! tx_nonce (transaction w) = Some j) by (apply (ok_an q (ok_cur q Hq)); eauto).
  rewrite Ha, Hn in Hi. simplify_eq. by rewrite (node_unique _ _ _ _ (ok_ids q (ok_cur q Hq)) Hv Hw).
Qed.

(** C37: [topTransactions] with categories, on a consistent queue.  When it is asked to set a category and there is a transaction to take, its behaviour is
    undefined, since it increments an iterator of a node that it has taken out.  Otherwise it is defined: it returns the transactions of at most [limit] nodes of the
    current queue, those from the first node on whose category is not above the given one, each once, and ordered so that of two transactions of one sender the one with
    the lower nonce comes first, whatever order the multiset had. *)
Theorem listing_in_nonce_order (q : TransactionQueue) (limit maxC setC : Z) :
  tq_ok q -> 0 <= limit ->
  let found := takeZ limit (snd (lowerBoundDummy maxC (m_current q))) in
  if bool_decide (0 <= setC /\ found <> []) then topTransactionsCat_WITH_LOCK q limit maxC setC = None
  else exists r, topTransactionsCat_WITH_LOCK q limit maxC setC = Some r
    /\ r ≡ₚ map (fun x => transaction (snd x)) found /\ lenZ r <= limit /\ NoDup (map tx_sha3 r) /\ Forall (queued q) r
    /\ forall l1 x l2 y l3, r = l1 ++ x :: l2 ++ y :: l3 -> tx_from x = tx_from y -> tx_nonce x < tx_nonce y.
Proof.
  intros Hq Hlim found. pose proof (topCat_parts q limit maxC setC Hq Hlim) as Hparts. fold (taken q limit maxC) in found. unfold found.
  destruct (bool_decide _); [done|]. destruct Hparts as (r & E & HP & Hs). exists r. split; [done|]. split; [done|].
  assert (Hnd : NoDup (map tx_sha3 r)).
  { rewrite HP, map_map. apply NoDup_fmap_2_strong.
    - intros x y Hx Hy. by apply (nodes_hash_inj q Hq); eapply taken_current.
    - assert (HN : NoDup (m_current q)) by (eapply (NoDup_fmap_1 fst), (ok_ids q (ok_cur q Hq))).
      rewrite <- (lowerBound_app maxC (m_current q)) in HN. apply NoDup_app in HN as (_ & _ & HN). rewrite <- (takeZ_dropZ limit (snd (lowerBoundDummy maxC (m_current q)))) in HN. by apply NoDup_app in HN as [? _]. }
  assert (Hqd : Forall (queued q) r).
  { rewrite HP. apply Forall_forall. intros t Ht. apply list_elem_of_fmap in Ht as ([i v] & -> & Hx). exists i, v. split; [by eapply taken_current|done]. }
  split; [unfold lenZ; rewrite HP, length_map; unfold taken, takeZ; rewrite length_take; lia|]. split; [done|]. split; [done|].
  intros l1 x l2 y l3 -> Hxy. apply StronglySorted_app_1_r in Hs. apply StronglySorted_inv in Hs as [_ Hs].
  rewrite Forall_forall in Hs, Hqd. specialize (Hs y ltac:(set_solver)). pose proof (prior_spec q y x) as Hp. rewrite Hs in Hp.
  cbv beta zeta in Hp. rewrite Hxy in Hp. assert (tx_nonce x <> tx_nonce y); [|lia]. intros Hn.
  assert (x = y) as ->. { apply (queued_unique q); auto; apply Hqd; set_solver. }
  rewrite map_app in Hnd. simpl in Hnd. apply NoDup_app in Hnd as (_ & _ & Hnd). apply NoDup_cons in Hnd as [Hnd _].
  apply Hnd. rewrite map_app. simpl. set_solver.
Qed.

(** ** Sequences of operations *)

Lemma empty_ok q : m_known q = ∅ -> m_current q = [] -> m_currentByHash q = ∅ -> m_currentByAddressAndNonce q = ∅ -> m_future q = ∅ ->
  m_currentSizeBytes q = 0 -> m_futureSize q = 0 -> m_futureSizeBytes q = 0 -> Lru.lru_ok (m_dropped q) -> tq_ok q.
Proof.
  intros Hk Hc Hh Ha Hf H1 H2 H3 Hd.
  assert (Hat : forall A a n, at_ (∅ : gmap Z (gmap Z A)) a !! n = None) by (intros; unfold at_; rewrite lookup_empty; simpl; apply lookup_empty).
  split; [split|split|split|done]; rewrite ?Hk, ?Hc, ?Hh, ?Ha, ?Hf, ?H1, ?H2, ?H3; try done; try constructor; intros; rewrite ?lookup_empty, ?Hat in *; set_solver.
Qed.

Lemma ctor_ok l f cb fb : tq_ok (TransactionQueue_ctor l f cb fb).
Proof. apply empty_ok; try done. by apply Lru.lru_ctor_ok. Qed.

Variable futureBegin : gmap Z (gmap Z VerifiedTransaction) -> Z.
Hypothesis futureBegin_ok : forall m, m <> ∅ -> is_Some (m !! futureBegin m).

Inductive QueueOp :=
| OpImport (t : Transaction) (ik : IfDropped) (isFuture : bool)
| OpSetFuture (h : Z)
| OpDrop (h : Z)
| OpDropGood (t : Transaction)
| OpTop (limit maxCategory setCategory : Z)
| OpEnqueue (items : list (list Z)) (nodeId : Z)
| OpClear.

Definition run_op (q : TransactionQueue) (op : QueueOp) : option TransactionQueue :=
  match op with
  | OpImport t ik f => fst <$> import place futureBegin q t ik f
  | OpSetFuture h => setFuture_WITH_LOCK futureBegin q h
  | OpDrop h => drop_ q h
  | OpDropGood t => dropGood place q t
  | OpTop l m s => (fun _ => q) <$> topTransactionsCat_WITH_LOCK q l m s
  | OpEnqueue items n => Some (enqueue q items n)
  | OpClear => Some (clear q)
  end.
Fixpoint run_ops (q : TransactionQueue) (ops : list QueueOp) : option TransactionQueue :=
  match ops with [] => Some q | op :: ops' => run_op q op ≫= fun q' => run_ops q' ops' end.

(** Imported transactions are well formed; limits of a proposal are unsigned. *)
Definition op_ok (op : QueueOp) : Prop :=
  match op with OpImport t _ _ => tx_ok t | OpTop l _ _ => 0 <= l | _ => True end.

Lemma import_ok q t ik f : tq_ok q -> limits_ok q -> tx_ok t ->
  exists q' r, import place futureBegin q t ik f = Some (q', r) /\ tq_ok q' /\ same_limits q q'
    /\ (r = Success -> f = false -> overCurrent q' = false).
Proof.
  intros Hq Hl Ht. unfold import. destruct (tx_zeroSignature t); [by do 2 eexists|].
  destruct (dropSameFuture_ok q t Hq) as (H0 & S0 & _).
  destruct (check_ok (dropSameFuture q t) (tx_sha3 t) ik H0) as (q1 & r1 & -> & H1 & S1 & _ & Hk).
  assert (S01 := same_limits_trans _ _ _ S0 S1). destruct r1; try (do 2 eexists; split; [done|]; done).
  destruct (manageImport_ok place q1 t H1 (same_limits_ok _ _ S01 Hl) Ht (Hk eq_refl)) as (q2 & r2 & -> & H2 & S2 & Hov).
  assert (S02 := same_limits_trans _ _ _ S01 S2). destruct f; [|do 2 eexists; split_and!; auto].
  destruct (setFuture_ok futureBegin futureBegin_ok q2 (tx_sha3 t) H2 (same_limits_ok _ _ S02 Hl)) as (q3 & -> & H3 & S3 & _).
  do 2 eexists. split; [done|]. split; [done|]. split; [by eapply same_limits_trans|done].
Qed.

Lemma dropped_ok q d : tq_ok q -> Lru.lru_ok d -> tq_ok (q <| m_dropped := d |>).
Proof. intros [[] [] [] ?] Hd. split; [split|split|split|]; done. Qed.

Lemma tq_drop_ok q h : tq_ok q -> exists q', drop_ q h = Some q' /\ tq_ok q' /\ same_limits q q' /\ m_future q' = m_future q.
Proof.
  intros Hq. unfold drop_. case_decide; [|by eexists].
  destruct (Lru.insert_ok (m_dropped q) h true (ok_dropped q Hq)) as (d & n & -> & Hd & _).
  destruct (tq_remove_ok (q <| m_dropped := d |>) h (dropped_ok q d Hq Hd)) as (q' & b & -> & Hok & Hs & Hf). by eexists.
Qed.

Lemma enqueue_ok items n : forall q, tq_ok q -> tq_ok (enqueue q items n) /\ same_limits q (enqueue q items n).
Proof.
  induction items as [|x items IH]; intros q Hq; simpl; [done|]. destruct (_ >=? _); [done|].
  destruct (IH (q <| m_unverified := m_unverified q ++ [(x, n)] |>)) as [H1 H2]; [|done].
  destruct Hq as [[] [] [] ?]. split; [split|split|split|]; done.
Qed.

(** A call that takes nodes out of the queue. *)
Definition takes_out (q : TransactionQueue) (op : QueueOp) : bool :=
  match op with OpTop l m s => bool_decide (0 <= s /\ taken q l m <> []) | _ => false end.
Lemma run_op_ok q op : tq_ok q -> limits_ok q -> op_ok op ->
  if takes_out q op then run_op q op = None else exists q', run_op q op = Some q' /\ tq_ok q' /\ same_limits q q'.
Proof.
  intros Hq Hl Ho. destruct op as [t ik f|h|h|t|l m s|items n|]; simpl in *.
  - destruct (import_ok q t ik f Hq Hl Ho) as (q' & r & -> & H1 & H2 & _). by exists q'.
  - destruct (setFuture_ok futureBegin futureBegin_ok q h Hq Hl) as (q' & -> & H1 & H2 & _). by exists q'.
  - destruct (tq_drop_ok q h Hq) as (q' & -> & H1 & H2 & _). by exists q'.
  - unfold dropGood. set (q1 := if tx_isInvalid t then _ else _).
    assert (H1 : tq_ok q1 /\ same_limits q q1) by (unfold q1; destruct (tx_isInvalid t); [done|by apply makeCurrent_ok]).
    destruct H1 as [H1 S1]. case_decide; [|by eexists].
    destruct (tq_remove_ok q1 (tx_sha3 t) H1) as (q' & b & -> & H2 & S2 & _). exists q'. split; [done|]. split; [done|]. by eapply same_limits_trans.
  - pose proof (topCat_parts q l m s Hq Ho) as Hp. destruct (bool_decide _); [by rewrite Hp|]. destruct Hp as (r & -> & _). by exists q.
  - destruct (enqueue_ok items n q Hq) as [H1 H2]. by eexists.
  - eexists. split; [done|]. split; [|done]. apply empty_ok; try done. simpl. destruct (ok_dropped q Hq) as [? ? ? ? [Hc _]].
    split; simpl; [constructor|constructor| |constructor|split; [done|unfold lenZ; simpl; lia]].
    intros k n. rewrite lookup_empty. split; [done|]. intros [v Hv]. by apply elem_of_nil in Hv.
Qed.

Lemma run_ops_ok ops : Forall op_ok ops -> forall q, tq_ok q -> limits_ok q ->
  match run_ops q ops with
  | Some q' => tq_ok q'
  | None => exists before op after q', ops = before ++ op :: after /\ run_ops q before = Some q' /\ tq_ok q' /\ takes_out q' op = true
  end.
Proof.
  induction 1 as [|op ops Hop _ IH]; intros q Hq Hl; simpl; [done|].
  pose proof (run_op_ok q op Hq Hl Hop) as Hrun. destruct (takes_out q op) eqn:Et; [rewrite Hrun; simpl; by exists [], op, ops, q|].
  destruct Hrun as (q' & E & Hq' & Hs). rewrite E. simpl. specialize (IH q' Hq' (same_limits_ok _ _ Hs Hl)). destruct (run_ops q' ops); [done|].
  destruct IH as (before & op' & after & q2 & -> & E2 & H2). exists (op :: before), op', after, q2. split; [done|]. split; [|done]. simpl. by rewrite E.
Qed.

(** C19: The queue is always consistent: whatever sequence of imports, removals, [setFuture] calls, listings by category, broadcasts received and clears runs on a
    new queue, only one thing has no defined behaviour, a listing that sets a category and finds a transaction to take out; the queue is consistent before it.  Every
    other operation is defined, dereferencing no dangling iterator, taking no last element of an empty container and failing no assertion, every loop ends, and the queue
    is consistent in the end: the two indices, [m_known] and the future queue agree with [m_current], with one transaction per sender and nonce and per hash, in one of
    the two queues, [m_known] the set of their hashes, and the size counters the sums of the sizes modulo 2^32. *)
Theorem queue_always_consistent (limit futureLimit currentBytes futureBytes : Z) (ops : list QueueOp) :
  0 <= limit -> 0 <= futureLimit -> 0 <= currentBytes -> 0 <= futureBytes -> Forall op_ok ops ->
  let q0 := TransactionQueue_ctor limit futureLimit currentBytes futureBytes in
  match run_ops q0 ops with
  | Some q => tq_ok q
  | None => exists before l m s after q, ops = before ++ OpTop l m s :: after /\ run_ops q0 before = Some q /\ tq_ok q
              /\ 0 <= s /\ takeZ l (snd (lowerBoundDummy m (m_current q))) <> []
  end.
Proof.
  intros H1 H2 H3 H4 Hops q0. pose proof (run_ops_ok ops Hops q0 (ctor_ok _ _ _ _)) as H. destruct (run_ops q0 ops); [by apply H|].
  destruct H as (before & op & after & q & E & Hr & Hq & Ht); [done|]. destruct op as [| | | |l m s| |]; try discriminate Ht.
  apply bool_decide_eq_true in Ht as [Hs Hf]. by exists before, l, m, s, after, q.
Qed.

(** The limits are enforced: after a successful import the current queue holds at most [m_limit]
    transactions and its byte counter is within its limit; after [setFuture] of a current
    transaction both counters of the future queue are within their limits; and the counters are the
    true sizes, modulo 2^32. *)
Theorem queue_limits_enforced (q : TransactionQueue) : tq_ok q -> limits_ok q ->
  (forall t ik q', tx_ok t -> import place futureBegin q t ik false = Some (q', Success) ->
     lenZ (m_current q') <= m_limit q
     /\ u32 (curSum (fun v => tx_size (transaction v)) (m_current q')) <= m_currentSizeBytesLimit q)
  /\ (forall h q', is_Some (m_currentByHash q !! h) -> setFuture_WITH_LOCK futureBegin q h = Some q' ->
     u32 (Z.of_nat (futureCount (m_future q'))) <= m_futureLimit q
     /\ u32 (futSum (fun v => tx_size (transaction v)) (m_future q')) <= m_futureSizeBytesLimit q).
Proof.
  intros Hq Hl. split.
  - intros t ik q' Ht E. destruct (import_ok q t ik false Hq Hl Ht) as (q1 & r & E1 & Hok & (S1 & S2 & S3 & S4) & Ho).
    rewrite E in E1. injection E1 as <- <-. specialize (Ho eq_refl eq_refl). apply orb_false_iff in Ho as [Ho1 Ho2].
    rewrite Z.gtb_ltb, Z.ltb_ge in Ho1, Ho2. rewrite <- (ok_curBytes q' (ok_cur q' Hok)). lia.
  - intros h q' Hh E. destruct (setFuture_ok futureBegin futureBegin_ok q h Hq Hl) as (q1 & E1 & Hok & (S1 & S2 & S3 & S4) & Ho).
    rewrite E in E1. injection E1 as <-. specialize (Ho Hh). apply orb_false_iff in Ho as [Ho1 Ho2].
    rewrite Z.gtb_ltb, Z.ltb_ge in Ho1, Ho2. rewrite futureCount_sum, <- (ok_futSize q' (ok_future q' Hok)), <- (ok_futBytes q' (ok_future q' Hok)). lia.
Qed.

(** ** The run of consecutive nonces *)

Lemma makeRun_spec f : forall a n fs q, (size fs < f)%nat -> tq_ok (viewF a fs q) -> exists m : nat,
  let r := makeRun place f a n fs q in
  (forall j, (j < m)%nat -> is_Some (fs !! (n + Z.of_nat j))) /\ fs !! (n + Z.of_nat m) = None
  /\ (forall k, snd r !! k = if decide (n <= k < n + Z.of_nat m) then None else fs !! k)
  /\ m_future (fst r) = m_future q
  /\ (forall t, queued (fst r) t <-> queued q t \/ exists v, transaction v = t /\ n <= tx_nonce t < n + Z.of_nat m /\ fs !! tx_nonce t = Some v).
Proof.
  induction f as [|f IH]; intros a n fs q Hsz Hq; [lia|]. cbn [makeRun]. cbv zeta. destruct (fs !! n) as [v|] eqn:E.
  2:{ exists 0%nat. rewrite Z.add_0_r. split; [lia|]. split; [done|]. split; [intros k; by rewrite decide_False by lia|]. split; [done|].
      intros t. split; [by left|]. intros [?|(v & _ & ? & _)]; [done|lia]. }
  assert (Hn : tx_nonce (transaction v) = n).
  { apply (ok_fut _ (ok_future _ Hq) a). simpl. by rewrite at_putInner, decide_True. }
  assert (Hst := move_current place q a n fs v Hq E). cbv zeta in Hst.
  match type of Hst with tq_ok (viewF _ _ ?x) => set (q1 := x) in * end.
  destruct (IH a (n + 1) (delete n fs) q1) as (m & H1 & H2 & H3 & H4 & H5); [|exact Hst|].
  { rewrite <- (insert_delete_id fs n v E), map_size_insert_None in Hsz by apply lookup_delete_eq. lia. }
  assert (Hqd : forall t, queued q1 t <-> queued q t \/ t = transaction v).
  { assert (Hel := emplace_elem place a (transaction v) q). intros t. unfold queued.
    change (m_current q1) with (m_current (emplaceCurrent place a (transaction v) q)). setoid_rewrite Hel.
    split; [intros (i & w & [[-> ->]|Hin] & <-); eauto|]. intros [(i & w & Hin & <-)| ->]; [eauto 6|].
    exists (m_nextNode q), (VT_of (transaction v)). auto. }
  exists (S m). cbv zeta in *. split_and!.
  - intros [|j] Hj; [rewrite Z.add_0_r; eauto|]. specialize (H1 j ltac:(lia)). rewrite lookup_delete_ne in H1 by lia.
    by replace (n + Z.of_nat (S j)) with (n + 1 + Z.of_nat j) by lia.
  - rewrite lookup_delete_ne in H2 by lia. by replace (n + Z.of_nat (S m)) with (n + 1 + Z.of_nat m) by lia.
  - intros k. etrans; [apply H3|]. destruct (decide (k = n)) as [->|Hk].
    + rewrite decide_False, decide_True by lia. apply lookup_delete_eq.
    + rewrite lookup_delete_ne by done. repeat case_decide; done || lia.
  - exact H4.
  - intros t. etrans; [apply H5|]. rewrite Hqd. split.
    + intros [[?| ->]|(w & ? & ? & Hw)]; [by left|right; exists v; rewrite Hn; split_and!; done || lia|].
      right. exists w. split; [done|]. split; [lia|]. by rewrite lookup_delete_ne in Hw by lia.
    + intros [?|(w & <- & Hr & Hw)]; [by left; left|]. destruct (decide (tx_nonce (transaction w) = n)) as [En|En].
      * left. right. rewrite En, E in Hw. by injection Hw as <-.
      * right. exists w. split; [done|]. split; [lia|]. by rewrite lookup_delete_ne by lia.
Qed.

(** C38: A mined or imported transaction releases exactly its successors.  For a transaction of
    sender [a] with nonce [n], [makeCurrent] moves the future transactions of [a] with the nonces
    [n + 1], [n + 2], ... up to the first gap to the current queue, whole and unchanged, leaves
    every other future transaction where it is, and every current transaction stays. *)
Theorem makeCurrent_moves_the_run (q : TransactionQueue) (t : Transaction) :
  tq_ok q -> 0 <= tx_nonce t < 2 ^ 256 - 1 ->
  let a := tx_from t in
  let q' := makeCurrent_WITH_LOCK place q t in
  exists m : nat,
    (forall j, (j < m)%nat -> is_Some (at_ (m_future q) a !! (tx_nonce t + 1 + Z.of_nat j)))
    /\ at_ (m_future q) a !! (tx_nonce t + 1 + Z.of_nat m) = None
    /\ (forall b k, at_ (m_future q') b !! k =
          if decide (b = a /\ tx_nonce t < k <= tx_nonce t + Z.of_nat m) then None else at_ (m_future q) b !! k)
    /\ (forall x, queued q' x <-> queued q x \/
          exists v, transaction v = x /\ tx_nonce t < tx_nonce x <= tx_nonce t + Z.of_nat m /\ at_ (m_future q) a !! tx_nonce x = Some v).
Proof.
  intros Hq Hn a q'. unfold q', makeCurrent_WITH_LOCK. fold a. rewrite (wrap_small 256) by lia.
  assert (Hnone : at_ (m_future q) a !! (tx_nonce t + 1) = None -> exists m : nat, (forall j, (j < m)%nat -> is_Some (at_ (m_future q) a !! (tx_nonce t + 1 + Z.of_nat j)))
    /\ at_ (m_future q) a !! (tx_nonce t + 1 + Z.of_nat m) = None
    /\ (forall b k, at_ (m_future q) b !! k = if decide (b = a /\ tx_nonce t < k <= tx_nonce t + Z.of_nat m) then None else at_ (m_future q) b !! k)
    /\ (forall x, queued q x <-> queued q x \/ exists v, transaction v = x /\ tx_nonce t < tx_nonce x <= tx_nonce t + Z.of_nat m /\ at_ (m_future q) a !! tx_nonce x = Some v)).
  { intros HN. exists 0%nat. rewrite Z.add_0_r. split; [lia|]. split; [done|]. split; [intros b k; by rewrite decide_False by lia|].
    intros x. split; [by left|]. intros [?|(v & _ & ? & _)]; [done|lia]. }
  unfold at_ in Hnone at 1. destruct (m_future q !! a) as [fs|] eqn:E; [|apply Hnone; apply lookup_empty].
  simpl in Hnone. destruct (fs !! (tx_nonce t + 1)) as [v|] eqn:Ev; [|by apply Hnone]. clear Hnone.
  assert (Hfs : at_ (m_future q) a = fs) by (unfold at_; by rewrite E).
  destruct (makeRun_spec (S (size fs)) a (tx_nonce t + 1) fs q) as (m & H1 & H2 & H3 & H4 & H5); [lia| |].
  { unfold viewF. rewrite <- Hfs, putInner_id by apply Hq. by destruct q. }
  cbv zeta in *. destruct (makeRun place _ _ _ _ _) as [q1 fs1]. simpl in *. exists m. rewrite Hfs. split; [done|]. split; [done|]. split.
  - intros b k. rewrite at_putInner, H4. destruct (decide (b = a)) as [->|Hb].
    + rewrite H3, Hfs. repeat case_decide; done || lia.
    + rewrite decide_False by tauto. done.
  - intros x. change (queued (q1 <| m_future := putInner a fs1 (m_future q1) |>) x) with (queued q1 x). rewrite H5.
    split; (intros [?|(w & ? & ? & ?)]; [by left|right; exists w; split_and!; done || lia]).
Qed.

(** ** Nonces *)

Lemma rbegin_max {A} (m : gmap Z A) k v : rbegin m = Some (k, v) -> forall k', is_Some (m !! k') -> k' <= k.
Proof.
  unfold rbegin. intros Hl k' [v' Hv]. assert (Hs : Sorted key_le (sortedEntries m)).
  { apply Sorted_merge_sort. intros x y. unfold key_le. lia. }
  apply Sorted_StronglySorted in Hs; [|intros x y z; unfold key_le; lia]. apply sortedEntries_elem in Hv.
  apply last_Some in Hl as [l Hl]. rewrite Hl in Hs, Hv. apply elem_of_app in Hv as [Hv|Hv].
  - exact (StronglySorted_app_1_elem_of _ _ _ _ (k, v) Hs Hv (list_elem_of_here _ _)).
  - apply list_elem_of_singleton in Hv. injection Hv as -> _. lia.
Qed.
Lemma rbegin_None {A} (m : gmap Z A) : rbegin m = None -> m = ∅.
Proof. intros H. destruct (decide (m = ∅)) as [|Hm]; [done|]. apply rbegin_Some in Hm as (k & v & Hk). congruence. Qed.

(** [maxNonce] is the next free nonce of a sender: it is above every nonce the sender has in
    either queue, and it is 0 when there is none and one more than some queued nonce otherwise. *)
Theorem maxNonce_is_next_free (q : TransactionQueue) (a : Z) : tq_ok q ->
  (forall n, is_Some (at_ (m_currentByAddressAndNonce q) a !! n) \/ is_Some (at_ (m_future q) a !! n) -> n < 2 ^ 256 - 1) ->
  (forall n, is_Some (at_ (m_currentByAddressAndNonce q) a !! n) \/ is_Some (at_ (m_future q) a !! n) -> n < maxNonce q a)
  /\ (maxNonce q a = 0 \/ is_Some (at_ (m_currentByAddressAndNonce q) a !! (maxNonce q a - 1)) \/ is_Some (at_ (m_future q) a !! (maxNonce q a - 1))).
Proof.
  intros Hq Hmax. assert (Hpos : forall n, is_Some (at_ (m_currentByAddressAndNonce q) a !! n) \/ is_Some (at_ (m_future q) a !! n) -> 0 <= n).
  { intros n [[i Hi]|[v Hv]].
    - apply (ok_an q (ok_cur q Hq)) in Hi as (v & Hv & _ & <-). apply (ok_curTx q (ok_cur q Hq)) in Hv as (_ & ? & _). lia.
    - apply (ok_fut q (ok_future q Hq)) in Hv as (_ & <- & _ & ? & _). lia. }
  unfold maxNonce, maxCurrentNonce.
  destruct (rbegin (at_ (m_currentByAddressAndNonce q) a)) as [[nc ic]|] eqn:Ec; [pose proof (rbegin_max _ _ _ Ec) as Mc; pose proof (rbegin_lookup _ _ _ Ec) as Lc
    |apply rbegin_None in Ec; rewrite Ec in *].
  all: destruct (rbegin (at_ (m_future q) a)) as [[nf vf]|] eqn:Ef; [pose proof (rbegin_max _ _ _ Ef) as Mf; pose proof (rbegin_lookup _ _ _ Ef) as Lf
    |apply rbegin_None in Ef; rewrite Ef in *].
  all: try (assert (Bc := Hmax nc (or_introl (ex_intro _ _ Lc))); assert (Bc0 := Hpos nc (or_introl (ex_intro _ _ Lc))); rewrite (wrap_small 256 (nc + 1)) by lia).
  all: try (assert (Bf := Hmax nf (or_intror (ex_intro _ _ Lf))); assert (Bf0 := Hpos nf (or_intror (ex_intro _ _ Lf))); rewrite (wrap_small 256 (nf + 1)) by lia).
  all: split; [intros n [Hn|Hn]; rewrite ?lookup_empty in Hn; try (by destruct Hn as [? ?]); (specialize (Mc n Hn) || specialize (Mf n Hn)); lia|].
  - right. destruct (Z.max_spec (nc + 1) (nf + 1)) as [[_ ->]|[_ ->]]; rewrite Z.add_simpl_r; eauto.
  - right. rewrite Z.add_simpl_r. eauto.
  - right. rewrite Z.max_r by lia. rewrite Z.add_simpl_r. eauto.
  - by left.
Qed.
End Claims.

(** ** What [drop] and [limits] do not do *)

(** [drop] leaves a transaction of the future queue where it is: it stays in [m_future] and in
    [m_known], although the interface says that it removes the transaction from the queue. *)
Theorem drop_keeps_future (q : TransactionQueue) (a n : Z) (v : VerifiedTransaction) :
  tq_ok q -> at_ (m_future q) a !! n = Some v ->
  exists q', drop_ q (tx_sha3 (transaction v)) = Some q' /\ m_future q' = m_future q /\ tx_sha3 (transaction v) ∈ m_known q'.
Proof.
  intros Hq Hv. assert (Hk := known_fut q a n v (ok_cross q Hq) Hv). unfold drop_. rewrite decide_True by done.
  destruct (Lru.insert_ok (m_dropped q) (tx_sha3 (transaction v)) true (ok_dropped q Hq)) as (d & k & -> & _).
  destruct (ok_disj q (ok_cross q Hq) a n v Hv) as [_ Hh]. unfold remove_WITH_LOCK. simpl. rewrite Hh. eauto.
Qed.

(** [limits] reports the sizes in use where its result type and comment promise the byte limits:
    for a new queue it returns zero byte limits, whatever the limits are. *)
Theorem limits_reports_sizes (limit futureLimit currentBytes futureBytes : Z) :
  limits (TransactionQueue_ctor limit futureLimit currentBytes futureBytes) = mkLimits limit futureLimit 0 0.
Proof. reflexivity. Qed.

(** ** Witnesses *)

Definition anyPlace : Nodes -> gmap Z (gmap Z Z) -> VerifiedTransaction -> nat := fun l _ _ => length l.
Definition firstKey (m : gmap Z (gmap Z VerifiedTransaction)) : Z :=
  match map_to_list m with (a, _) :: _ => a | [] => 0 end.
Lemma firstKey_ok m : m <> ∅ -> is_Some (m !! firstKey m).
Proof.
  intros Hm. unfold firstKey. destruct (map_to_list m) as [|[a i] l] eqn:E; [by apply map_to_list_empty_iff in E|].
  exists i. apply elem_of_map_to_list. rewrite E. apply list_elem_of_here.
Qed.

(** Sender 1 has the nonces 5 in the current and 7 in the future queue. *)
Definition sampleTx (n : Z) : Transaction := mkTx 1 n (100 + n) 10 250 false false true.
Definition sampleOps : list QueueOp := [OpImport (sampleTx 5) Ignore false; OpImport (sampleTx 7) Ignore true].
Definition sampleQ : TransactionQueue :=
  default (TransactionQueue_ctor 0 0 0 0) (run_ops anyPlace firstKey (TransactionQueue_ctor 10 10 10000 10000) sampleOps).
Lemma sampleTx_ok n : 0 <= n < 2 ^ 256 -> tx_ok (sampleTx n).
Proof. intros. by split. Qed.
Lemma sampleOps_ok : Forall op_ok sampleOps.
Proof. repeat constructor; simpl; lia. Qed.
Lemma sampleQ_ok : tq_ok sampleQ.
Proof.
  pose proof (run_ops_ok anyPlace firstKey firstKey_ok sampleOps sampleOps_ok (TransactionQueue_ctor 10 10 10000 10000) (ctor_ok _ _ _ _) ltac:(done)) as H.
  unfold sampleQ. destruct (run_ops anyPlace firstKey _ sampleOps) eqn:E; [exact H|vm_compute in E; discriminate E].
Qed.

Lemma listing_in_nonce_order_witness : (exists r, topTransactionsCat_WITH_LOCK sampleQ 3 0 (-1) = Some r /\ r ≡ₚ [sampleTx 5]) /\ topTransactionsCat_WITH_LOCK sampleQ 3 0 1 = None.
Proof.
  split.
  - destruct (listing_in_nonce_order anyPlace sampleQ 3 0 (-1) sampleQ_ok ltac:(discriminate)) as (r & E & H & _). exists r. exact (conj E H).
  - exact (listing_in_nonce_order anyPlace sampleQ 3 0 1 sampleQ_ok ltac:(discriminate)).
Defined.

Lemma queue_always_consistent_witness : exists q, run_ops anyPlace firstKey (TransactionQueue_ctor 10 10 10000 10000) sampleOps = Some q /\ tq_ok q.
Proof.
  pose proof (queue_always_consistent anyPlace firstKey firstKey_ok 10 10 10000 10000 sampleOps
    ltac:(discriminate) ltac:(discriminate) ltac:(discriminate) ltac:(discriminate) sampleOps_ok) as H. cbv zeta in H.
  destruct (run_ops anyPlace firstKey (TransactionQueue_ctor 10 10 10000 10000) sampleOps) as [q|] eqn:E; [exists q; split; [reflexivity|exact H]|].
  exfalso. vm_compute in E. discriminate E.
Defined.

Lemma queue_limits_enforced_witness :
  exists q', import anyPlace firstKey sampleQ (sampleTx 6) Ignore false = Some (q', Success) /\ lenZ (m_current q') <= 10.
Proof.
  destruct (queue_limits_enforced anyPlace firstKey firstKey_ok sampleQ sampleQ_ok) as [H _].
  - vm_compute. repeat split; discriminate.
  - assert (E : exists q', import anyPlace firstKey sampleQ (sampleTx 6) Ignore false = Some (q', Success))
      by (vm_compute; eexists; reflexivity).
    destruct E as [q' E]. exists q'. split; [exact E|].
    exact (proj1 (H (sampleTx 6) Ignore q' (sampleTx_ok 6 ltac:(lia)) E)).
Defined.

Lemma makeCurrent_moves_the_run_witness : exists m : nat,
  at_ (m_future sampleQ) 1 !! (6 + 1 + Z.of_nat m) = None /\ (m = 1)%nat.
Proof.
  destruct (makeCurrent_moves_the_run anyPlace sampleQ (sampleTx 6) sampleQ_ok ltac:(split; [discriminate|reflexivity])) as (m & H1 & H2 & _).
  exists m. split; [exact H2|]. destruct m as [|[|m]]; [discriminate H2|reflexivity|].
  exfalso. specialize (H1 1%nat ltac:(lia)). vm_compute in H1. destruct H1. discriminate.
Defined.

Lemma maxNonce_is_next_free_witness : 5 < maxNonce sampleQ 1 /\ 7 < maxNonce sampleQ 1.
Proof.
  destruct (maxNonce_is_next_free sampleQ 1 sampleQ_ok) as [H _].
  - intros n [[i Hi]|[v Hv]].
    + apply (ok_an sampleQ (ok_cur _ sampleQ_ok)) in Hi as (v & Hv & _ & <-). vm_compute in Hv.
      repeat (apply elem_of_cons in Hv as [Hv|Hv]; [injection Hv as -> ->; reflexivity|]). by apply elem_of_nil in Hv.
    + apply sortedEntries_elem in Hv. vm_compute in Hv.
      repeat (apply elem_of_cons in Hv as [Hv|Hv]; [injection Hv as -> ->; reflexivity|]). by apply elem_of_nil in Hv.
  - split; apply H; [left|right]; eexists; vm_compute; reflexivity.
Defined.

Lemma drop_keeps_future_witness : exists q', drop_ sampleQ 107 = Some q' /\ m_future q' = m_future sampleQ /\ 107 ∈ m_known q'.
Proof. exact (drop_keeps_future sampleQ 1 7 (VT_of (sampleTx 7)) sampleQ_ok eq_refl). Defined.
