(* ===== verification/State.v ===== *)
(** * State: accounts, the change log and the cache over the database

    libskale/State.h, libskale/State.cpp and the Account class of libethereum/Account.h and
    Account.cpp.  A State keeps a write-back cache of accounts over the database and a log of
    changes that [rollback] undoes from its end.  References to accounts are references into the
    cache: an operation reads the account, then writes the changed account back at its address.

    The database behind [m_db_ptr] is its logical content: account records as RLP bytes, storage
    words and codes.  Locks, the file-system overlay and the historic state are not modelled.
    Parameters: the hash function, the hash of the empty trie, [sizeof(s256)] (the layout of a
    Boost type, which bounds the integers [toInt<s256>] accepts), the two patches, and the index
    the random engine of [clearCacheIfTooLarge] draws. *)

From S2P Require Import Prelude CommonData Rlp.
From Stdlib Require Import ZArith Lia Bool.
From stdpp Require Import base list gmap sorting.
Open Scope Z_scope.

(** ** Accounts *)

Record Account := mkAccount {
  m_isAlive : bool; m_isUnchanged : bool; m_hasNewCode : bool;
  m_nonce : Z; m_balance : Z; m_codeHash : Z; m_version : Z;
  m_storageOverlay : gmap Z Z; m_storageOriginal : gmap Z Z;
  m_codeCache : list Z; m_storageUsed : Z; m_storageRoot : Z }.
#[export] Instance Account_expand : Expandable Account := fun a =>
  mkAccount (m_isAlive a) (m_isUnchanged a) (m_hasNewCode a) (m_nonce a) (m_balance a) (m_codeHash a)
    (m_version a) (m_storageOverlay a) (m_storageOriginal a) (m_codeCache a) (m_storageUsed a) (m_storageRoot a).

(** ** The change log *)

Inductive Change :=
| ChangeBalance (address value : Z)
| ChangeStorage (address key value : Z)
| ChangeStorageRoot (address value : Z)
| ChangeNonce (address value : Z)
| ChangeCreate (address : Z)
| ChangeCode (address : Z) (oldCode : list Z)
| ChangeTouch (address : Z).

Definition change_address (c : Change) : Z :=
  match c with
  | ChangeBalance a _ | ChangeStorage a _ _ | ChangeStorageRoot a _ | ChangeNonce a _
  | ChangeCreate a | ChangeCode a _ | ChangeTouch a => a
  end.

(** ** The state *)

Record DB := mkDB {
  db_accounts : gmap Z (list Z); db_storage : gmap (Z * Z) Z; db_code : gmap Z (list Z); db_storageUsed : Z }.
#[export] Instance DB_expand : Expandable DB := fun d =>
  mkDB (db_accounts d) (db_storage d) (db_code d) (db_storageUsed d).
Definition lookupAccount (d : DB) (a : Z) : list Z := default [] (db_accounts d !! a).
Definition lookupStorage (d : DB) (a k : Z) : Z := default 0 (db_storage d !! (a, k)).
Definition lookupCode (d : DB) (a : Z) : list Z := default [] (db_code d !! a).

(** The counters of the storage in use are [s256] of Boost, which hold every number below 2^256 in
    size; they change by 32 for a write of a word, so that their range is not an issue. *)
Record State := mkState {
  m_db : DB; m_storedVersion : Z; m_currentVersion : Z; m_writeLocked : bool;
  m_cache : gmap Z Account; m_unchangedCacheEntries : list Z; m_nonExistingAccountsCache : gset Z;
  m_accountStartNonce : Z; m_changeLog : list Change; m_initial_funds : Z;
  contractStorageLimit_ : Z; storageUsage : gmap Z Z; totalStorageUsed_ : Z; currentStorageUsed_ : Z }.
#[export] Instance State_expand : Expandable State := fun s =>
  mkState (m_db s) (m_storedVersion s) (m_currentVersion s) (m_writeLocked s) (m_cache s)
    (m_unchangedCacheEntries s) (m_nonExistingAccountsCache s) (m_accountStartNonce s) (m_changeLog s)
    (m_initial_funds s) (contractStorageLimit_ s) (storageUsage s) (totalStorageUsed_ s) (currentStorageUsed_ s).

(** [AssertionFailed] stands for a failed [assert] and for an invalid reference. *)
Inductive StateError :=
| AttemptToReadFromStateInThePast | AttemptToWriteToStateInThePast | AttemptToWriteToNotLockedStateObject
| InvalidAccountStartNonceInState | NotEnoughCash | StorageOverflow | BadAccount (e : RLPError) | AssertionFailed.

(** Computations that may throw; what they did before stays. *)
Definition SM (A : Type) : Type := State -> result StateError A * State.
Definition sret {A} (a : A) : SM A := fun s => (Ok a, s).
Definition sbind {A B} (m : SM A) (k : A -> SM B) : SM B := fun s =>
  match m s with (Ok a, s') => k a s' | (Err e, s') => (Err e, s') end.
Definition sthrow {A} (e : StateError) : SM A := fun s => (Err e, s).
Definition sgets {A} (f : State -> A) : SM A := fun s => (Ok (f s), s).
Definition smodify (f : State -> State) : SM unit := fun s => (Ok tt, f s).
Declare Scope state_scope.
Delimit Scope state_scope with state.
Notation "'let*' x := m 'in' k" := (sbind m (fun x => k))
  (at level 200, x name, m at level 100, k at level 200) : state_scope.
Notation "m ;; k" := (sbind m (fun _ => k)) (at level 100, k at level 200, right associativity) : state_scope.
Open Scope state_scope.

Definition Invalid256 : Z := 2 ^ 256 - 1.

(** What the code takes from elsewhere: the hash function, the hash of the empty trie, the size of
    the Boost type, the patches as they are at the working block, the random engine. *)
Class StateParams := {
  sha3 : list Z -> Z; EmptyTrie : Z; sizeof_s256 : Z;
  contractStoragePatch : bool; storageDestructionPatch : bool; contractStorageZeroValuePatch : bool;
  randomIndex : list Z -> nat }.

Section State.
Context {SP : StateParams}.

Definition EmptySHA3 : Z := sha3 [].

(** *** Account methods *)

Definition deadAccount : Account := mkAccount false false false 0 0 EmptySHA3 0 ∅ ∅ [] 0 EmptyTrie.
Definition newAccount (nonce balance : Z) : Account := mkAccount true false false nonce balance EmptySHA3 0 ∅ ∅ [] 0 EmptyTrie.
Definition loadedAccount (nonce balance codeHash version used : Z) : Account :=
  mkAccount true true false nonce balance codeHash version ∅ ∅ [] used EmptyTrie.

Definition changed (a : Account) : Account := a <| m_isUnchanged := false |>.
Definition isDirty (a : Account) : bool := negb (m_isUnchanged a).
Definition isEmpty (a : Account) : bool := (m_nonce a =? 0) && (m_balance a =? 0) && (m_codeHash a =? EmptySHA3).
Definition acc_kill (a : Account) : Account :=
  changed (a <| m_isAlive := false |> <| m_storageOverlay := ∅ |> <| m_codeHash := EmptySHA3 |>
             <| m_storageRoot := EmptyTrie |> <| m_balance := 0 |> <| m_nonce := 0 |> <| m_version := 0 |>).
Definition untouch (a : Account) : Account := a <| m_isUnchanged := true |>.
Definition acc_addBalance (v : Z) (a : Account) : Account := changed (a <| m_balance := u256 (m_balance a + v) |>).
Definition acc_incNonce (a : Account) : Account := changed (a <| m_nonce := u256 (m_nonce a + 1) |>).
Definition acc_setNonce (n : Z) (a : Account) : Account := changed (a <| m_nonce := n |>).
Definition acc_setStorage (k v : Z) (a : Account) : Account := changed (a <| m_storageOverlay := <[k := v]> (m_storageOverlay a) |>).
Definition acc_setStorageCache (k v : Z) (a : Account) : Account := a <| m_storageOriginal := <[k := v]> (m_storageOriginal a) |>.
Definition acc_setStorageRoot (r : Z) (a : Account) : Account := changed (a <| m_storageOverlay := ∅ |> <| m_storageRoot := r |>).
Definition acc_updateStorageUsage (v : Z) (a : Account) : Account := changed (a <| m_storageUsed := m_storageUsed a + v |>).
Definition acc_setCode (code : list Z) (version : Z) (a : Account) : Account :=
  let newHash := sha3 code in
  (if negb (newHash =? m_codeHash a)
   then a <| m_codeCache := code |> <| m_hasNewCode := true |> <| m_codeHash := newHash |> else a) <| m_version := version |>.
Definition acc_resetCode (a : Account) : Account :=
  a <| m_codeCache := [] |> <| m_hasNewCode := false |> <| m_codeHash := EmptySHA3 |> <| m_version := 0 |>.

(** *** Looking accounts up *)

Definition checkVersion (s : State) : bool := m_storedVersion s =? m_currentVersion s.

(** The RLP record of an account: nonce, balance, code hash, storage used and, when present, the version. *)
Definition decodeAccount (raw : list Z) : result RLPError Account :=
  let? d := RLP_ctor raw VeryStrict in
  let? r0 := index (RLP_of d) 0 in
  let? nonce := toInt 256 32 (snd r0) Strict in
  let? r1 := index (fst r0) 1 in
  let? balance := toInt 256 32 (snd r1) Strict in
  let? r2 := index (fst r1) 2 in
  let? codeHash := toInt 256 32 (snd r2) Strict in
  let? r3 := index (fst r2) 3 in
  let? used := toInt 256 sizeof_s256 (snd r3) Strict in
  let? r4 := index (fst r3) 4 in
  let? version := if isNull (snd r4) then Ok 0 else let? r5 := index (fst r4) 4 in toInt 256 32 (snd r5) Strict in
  Ok (loadedAccount nonce balance codeHash version used).

Definition pop_swapped (l : list Z) (i : nat) : list Z := take (length l - 1) (<[i := default 0 (last l)]> l).
Fixpoint clearCache_loop (fuel : nat) (s : State) : State :=
  match fuel with
  | O => s
  | S f =>
      let l := m_unchangedCacheEntries s in
      if Z.of_nat (length l) >? 1000 then
        let i := randomIndex l in
        let addr := default 0 (l !! i) in
        let s' := s <| m_unchangedCacheEntries := pop_swapped l i |> in
        clearCache_loop f
          match m_cache s !! addr with
          | Some a => if isDirty a then s' else s' <| m_cache := delete addr (m_cache s) |>
          | None => s'
          end
      else s
  end.
Definition clearCacheIfTooLarge (s : State) : State := clearCache_loop (length (m_unchangedCacheEntries s)) s.

Definition account (a : Z) : SM (option Account) := fun s =>
  match m_cache s !! a with
  | Some acc => (Ok (Some acc), s)
  | None =>
      if decide (a ∈ m_nonExistingAccountsCache s) then (Ok None, s)
      else if negb (checkVersion s) then (Err AttemptToReadFromStateInThePast, s)
      else match lookupAccount (m_db s) a with
           | [] => (Ok None, s <| m_nonExistingAccountsCache := {[a]} ∪ m_nonExistingAccountsCache s |>)
           | raw =>
               let s1 := clearCacheIfTooLarge s in
               match decodeAccount raw with
               | Err e => (Err (BadAccount e), s1)
               | Ok acc => (Ok (Some acc), s1 <| m_cache := <[a := acc]> (m_cache s1) |>
                                              <| m_unchangedCacheEntries := m_unchangedCacheEntries s1 ++ [a] |>)
               end
           end
  end.

(** Writing through a reference into the cache, and [m_cache[a]]. *)
Definition writeAccount (a : Z) (acc : Account) : SM unit := smodify (fun s => s <| m_cache := <[a := acc]> (m_cache s) |>).
Definition onCached (a : Z) (f : Account -> Account) : SM unit :=
  smodify (fun s => s <| m_cache := <[a := f (default deadAccount (m_cache s !! a))]> (m_cache s) |>).
Definition logChange (c : Change) : SM unit := smodify (fun s => s <| m_changeLog := m_changeLog s ++ [c] |>).

(** *** Reading *)

Definition addressInUse (a : Z) : SM bool := let* r := account a in sret (bool_decide (is_Some r)).
Definition addressHasCode (a : Z) : SM bool :=
  let* r := account a in sret (match r with Some acc => negb (m_codeHash acc =? EmptySHA3) | None => false end).
Definition balance (a : Z) : SM Z :=
  let* r := account a in let* f := sgets m_initial_funds in sret (match r with Some acc => m_balance acc | None => f end).
Definition getNonce (a : Z) : SM Z :=
  let* r := account a in let* n := sgets m_accountStartNonce in sret (match r with Some acc => m_nonce acc | None => n end).
Definition version (a : Z) : SM Z :=
  let* r := account a in sret (match r with Some acc => m_version acc | None => 0 end).
Definition codeHash (a : Z) : SM Z :=
  let* r := account a in sret (match r with Some acc => m_codeHash acc | None => EmptySHA3 end).
Definition storageUsed (a : Z) : SM Z :=
  let* r := account a in sret (match r with Some acc => m_storageUsed acc | None => 0 end).

(** The lookup [storage] and [originalStorageValue] share: the cached original value, else the database's. *)
Definition originalOf (a k : Z) (acc : Account) : SM Z :=
  match m_storageOriginal acc !! k with
  | Some v => sret v
  | None =>
      let* s := sgets id in
      if negb (checkVersion s) then sthrow AttemptToReadFromStateInThePast
      else let v := lookupStorage (m_db s) a k in
           writeAccount a (acc_setStorageCache k v acc) ;; sret v
  end.
Definition originalStorageValue (a k : Z) : SM Z :=
  let* r := account a in match r with None => sret 0 | Some acc => originalOf a k acc end.
Definition storage (a k : Z) : SM Z :=
  let* r := account a in
  match r with
  | None => sret 0
  | Some acc => match m_storageOverlay acc !! k with Some v => sret v | None => originalOf a k acc end
  end.

Definition code (a : Z) : SM (list Z) :=
  let* r := account a in
  match r with
  | None => sret []
  | Some acc =>
      if m_codeHash acc =? EmptySHA3 then sret []
      else match m_codeCache acc with
           | [] =>
               let* s := sgets id in
               if negb (checkVersion s) then sthrow AttemptToReadFromStateInThePast
               else let c := lookupCode (m_db s) a in
                    if sha3 c =? m_codeHash acc then writeAccount a (acc <| m_codeCache := c |>) ;; sret c
                    else sthrow AssertionFailed
           | c => sret c
           end
  end.

(** The process-wide cache of sizes by hash is not modelled: it returns what was computed for that hash. *)
Definition codeSize (a : Z) : SM Z :=
  let* r := account a in
  match r with
  | None => sret 0
  | Some acc => if m_hasNewCode acc then sret (lenZ (m_codeCache acc)) else let* c := code a in sret (lenZ c)
  end.

(** *** Writing *)

Definition requireAccountStartNonce : SM Z :=
  let* n := sgets m_accountStartNonce in
  if n =? Invalid256 then sthrow InvalidAccountStartNonceInState else sret n.

Definition createAccount (a : Z) (acc : Account) : SM unit :=
  let* used := addressInUse a in
  if (used : bool) then sthrow AssertionFailed
  else smodify (fun s => s <| m_cache := <[a := acc]> (m_cache s) |>
                           <| m_nonExistingAccountsCache := m_nonExistingAccountsCache s ∖ {[a]} |>) ;;
       logChange (ChangeCreate a).
Definition createContract (a : Z) : SM unit :=
  let* n := requireAccountStartNonce in
  let* f := sgets m_initial_funds in
  createAccount a (newAccount n f).

Definition incNonce (a : Z) : SM unit :=
  let* r := account a in
  match r with
  | Some acc => writeAccount a (acc_incNonce acc) ;; logChange (ChangeNonce a (m_nonce acc))
  | None => let* n := requireAccountStartNonce in
            let* f := sgets m_initial_funds in
            createAccount a (newAccount (u256 (n + 1)) f)
  end.
Definition setNonce (a newNonce : Z) : SM unit :=
  let* r := account a in
  match r with
  | Some acc => writeAccount a (acc_setNonce newNonce acc) ;; logChange (ChangeNonce a (m_nonce acc))
  | None => let* f := sgets m_initial_funds in createAccount a (newAccount newNonce f)
  end.

Definition addBalance (a amount : Z) : SM unit :=
  let* r := account a in
  match r with
  | Some acc =>
      (if negb (isDirty acc) && isEmpty acc then logChange (ChangeTouch a) else sret tt) ;;
      writeAccount a (acc_addBalance amount acc)
  | None => let* n := requireAccountStartNonce in
            let* f := sgets m_initial_funds in
            createAccount a (newAccount n (u256 (f + amount)))
  end ;;
  if amount =? 0 then sret tt else logChange (ChangeBalance a amount).
Definition subBalance (a value : Z) : SM unit :=
  if value =? 0 then sret tt
  else let* r := account a in
       match r with
       | None => sthrow NotEnoughCash
       | Some acc => if m_balance acc <? value then sthrow NotEnoughCash else addBalance a (u256 (0 - value))
       end.
Definition setBalance (a value : Z) : SM unit :=
  let* r := account a in
  let original := match r with Some acc => m_balance acc | None => 0 end in
  addBalance a (u256 (value - original)).
Definition transferBalance (from to value : Z) : SM unit := subBalance from value ;; addBalance to value.

Definition kill (a : Z) : SM unit :=
  let* r := account a in match r with Some acc => writeAccount a (acc_kill acc) | None => sret tt end.

(** The number of slots a write takes up or frees. *)
Definition usageCount (value current : Z) : Z :=
  if ((value >? 0) && (current >? 0)) || ((value =? 0) && (current =? 0)) then 0
  else if value =? 0 then -1 else 1.
Definition addUsage (a count : Z) : SM unit :=
  smodify (fun s => s <| storageUsage := <[a := default 0 (storageUsage s !! a) + count * 32]> (storageUsage s) |>
                      <| currentStorageUsed_ := currentStorageUsed_ s + count * 32 |>).

Definition setStorage (a k v : Z) : SM unit :=
  let* cur := storage a k in
  logChange (ChangeStorage a k cur) ;;
  onCached a (acc_setStorage k v) ;;
  addUsage a (usageCount v cur) ;;
  let* s := sgets id in
  if totalStorageUsed_ s + currentStorageUsed_ s >? contractStorageLimit_ s then sthrow StorageOverflow else sret tt.

Definition clearStorageValue (a k cur : Z) : SM unit :=
  logChange (ChangeStorage a k cur) ;;
  onCached a (acc_setStorage k 0) ;;
  addUsage a (if cur =? 0 then 0 else -1).

Definition setCode (a : Z) (c : list Z) (v : Z) : SM unit :=
  let* has := addressHasCode a in
  if (has : bool) then sthrow AssertionFailed
  else let* old := code a in
       logChange (ChangeCode a old) ;;
       onCached a (acc_setCode c v).

(** *** Savepoints *)

Definition savepoint (s : State) : nat := length (m_changeLog s).

Definition rollbackStorageChange (a k value : Z) : SM unit :=
  let* cur := storage a k in
  addUsage a (usageCount value cur) ;;
  onCached a (acc_setStorage k value).

Definition undo (c : Change) : SM unit :=
  let* r := account (change_address c) in
  match r with
  | None => sthrow AssertionFailed
  | Some acc =>
      match c with
      | ChangeStorage a k v =>
          if contractStoragePatch then rollbackStorageChange a k v else writeAccount a (acc_setStorage k v acc)
      | ChangeStorageRoot a v => writeAccount a (acc_setStorageRoot v acc)
      | ChangeBalance a v => writeAccount a (acc_addBalance (u256 (0 - v)) acc)
      | ChangeNonce a v => writeAccount a (acc_setNonce v acc)
      | ChangeCreate a => smodify (fun s => s <| m_cache := delete a (m_cache s) |>)
      | ChangeCode a _ => writeAccount a (acc_resetCode acc)
      | ChangeTouch a =>
          writeAccount a (untouch acc) ;;
          smodify (fun s => s <| m_unchangedCacheEntries := m_unchangedCacheEntries s ++ [a] |>)
      end
  end.

Definition resetStorageChanges : SM unit := smodify (fun s => s <| storageUsage := ∅ |> <| currentStorageUsed_ := 0 |>).

Fixpoint rollback_loop (n : nat) : SM unit :=
  match n with
  | O => sret tt
  | S n' =>
      let* log := sgets m_changeLog in
      match last log with
      | None => sthrow AssertionFailed
      | Some c => undo c ;; smodify (fun s => s <| m_changeLog := removelast (m_changeLog s) |>) ;; rollback_loop n'
      end
  end.
Definition rollback (sp : nat) : SM unit :=
  let* n := sgets savepoint in
  if (n <? sp)%nat then sthrow AssertionFailed
  else rollback_loop (n - sp) ;; if contractStoragePatch then sret tt else resetStorageChanges.

Definition accountNonemptyAndExisting (a : Z) : SM bool :=
  let* r := account a in sret (match r with Some acc => negb (isEmpty acc) | None => false end).

(** *** Committing *)

Definition removeEmptyAccounts (s : State) : State :=
  s <| m_cache := (fun acc => if isDirty acc && isEmpty acc then acc_kill acc else acc) <$> m_cache s |>.

(** The usage collected since the last reset goes to the accounts. *)
Fixpoint forEach {A} (f : A -> SM unit) (l : list A) : SM unit :=
  match l with [] => sret tt | x :: l' => f x ;; forEach f l' end.
Definition updateStorageUsage : SM unit :=
  let* u := sgets storageUsage in
  forEach (fun p => let* r := account (fst p) in
                    match r with Some acc => writeAccount (fst p) (acc_updateStorageUsage (snd p) acc) | None => sret tt end)
          (map_to_list u) ;;
  resetStorageChanges.

Definition encodeAccount (acc : Account) : result RLPError (list Z) :=
  let? r0 := appendList emptyStream 4 in
  let? r1 := appendInt r0 (m_nonce acc) in
  let? r2 := appendInt r1 (m_balance acc) in
  let? r3 := appendInt r2 (m_codeHash acc) in
  let? r4 := appendInt r3 (m_storageUsed acc) in
  out r4.

(** [m_db_ptr->insert(a, k, v)], as the commit of the database leaves it. *)
Definition insertStorage (a k v : Z) (d : DB) : DB :=
  d <| db_storage := if contractStorageZeroValuePatch && (v =? 0) then delete (a, k) (db_storage d)
                     else <[(a, k) := v]> (db_storage d) |>.
Definition onDb (f : DB -> DB) : SM unit := smodify (fun s => s <| m_db := f (m_db s) |>).

(** [m_db_ptr->storage(a)], and what the state shows of it, by hash of the key. *)
Definition dbStorage (d : DB) (a : Z) : list (Z * Z) :=
  omap (fun p => if fst (fst p) =? a then Some (snd (fst p), snd p) else None) (map_to_list (db_storage d)).
Definition byHash (l : list (Z * Z)) (m : gmap Z (Z * Z)) : gmap Z (Z * Z) :=
  foldl (fun m kv => <[sha3 (toBigEndian 32 (fst kv)) := kv]> m) m l.
Definition storage_WITHOUT_LOCK (a : Z) : SM (gmap Z (Z * Z)) :=
  let* s := sgets id in
  if negb (checkVersion s) then sthrow AttemptToReadFromStateInThePast
  else let m := byHash (dbStorage (m_db s) a) ∅ in
       sret (match m_cache s !! a with
             | Some acc => if isDirty acc then byHash (map_to_list (m_storageOverlay acc)) m else m
             | None => m
             end).

Definition inHashOrder (p q : Z * (Z * Z)) : Prop := fst p <= fst q.
#[export] Instance inHashOrder_dec : RelDecision inHashOrder.
Proof. intros p q. unfold inHashOrder. apply _. Defined.
Definition clearStorage (a : Z) : SM unit :=
  let* r := account a in
  match r with
  | None => sthrow AssertionFailed
  | Some acc =>
      let accStorageUsed := m_storageUsed acc in
      let* usage := sgets (fun s => default 0 (storageUsage s !! a)) in
      if (accStorageUsed =? 0) && (usage =? 0) then sret tt
      else
        let* kvs := storage_WITHOUT_LOCK a in
        forEach (fun p => let key := fst (snd p) in
                          let value := fst (snd p) in
                          clearStorageValue a key value ;;
                          onCached a (acc_setStorageCache key 0) ;;
                          onDb (insertStorage a key 0))
                (merge_sort inHashOrder (map_to_list kvs)) ;;
        smodify (fun s => s <| totalStorageUsed_ := totalStorageUsed_ s - (accStorageUsed + default 0 (storageUsage s !! a)) |>) ;;
        onCached a (acc_updateStorageUsage (- accStorageUsed))
  end.

(** The turn of one account in the loop of [commit]. *)
Definition commitAccount (p : Z * Account) : SM unit :=
  let a := fst p in
  let acc := snd p in
  if isDirty acc then
    if negb (m_isAlive acc) then
      onDb (fun d => d <| db_accounts := delete a (db_accounts d) |> <| db_code := delete a (db_code d) |>) ;;
      if storageDestructionPatch then clearStorage a else sret tt
    else
      match encodeAccount acc with
      | Err e => sthrow (BadAccount e)
      | Ok rawValue =>
          onDb (fun d => d <| db_accounts := <[a := rawValue]> (db_accounts d) |>) ;;
          forEach (fun kv => onDb (insertStorage a (fst kv) (snd kv))) (map_to_list (m_storageOverlay acc)) ;;
          if m_hasNewCode acc then onDb (fun d => d <| db_code := <[a := m_codeCache acc]> (db_code d) |>) else sret tt
      end
  else sret tt.

Inductive CommitBehaviour := KeepEmptyAccounts | RemoveEmptyAccounts.
Definition commit (behaviour : CommitBehaviour) : SM unit :=
  (match behaviour with RemoveEmptyAccounts => smodify removeEmptyAccounts | KeepEmptyAccounts => sret tt end) ;;
  let* s := sgets id in
  if negb (m_writeLocked s) then sthrow AttemptToWriteToNotLockedStateObject
  else if negb (checkVersion s) then sthrow AttemptToWriteToStateInThePast
  else
    forEach commitAccount (map_to_list (m_cache s)) ;;
    smodify (fun s => s <| m_db := (m_db s) <| db_storageUsed := totalStorageUsed_ s |> |>
                        <| m_storedVersion := m_storedVersion s + 1 |> <| m_currentVersion := m_storedVersion s + 1 |>
                        <| m_changeLog := [] |> <| m_cache := ∅ |> <| m_unchangedCacheEntries := [] |>).

End State.
