(* ===== verification/StateInv.v ===== *)
(** * State: what a state shows, and its invariant

    The abstract reading of a [State] ([acct], [codeOf], [slotOf]: the account, code and storage
    word an address shows, whether cached or in the database), the invariant [wf] of the cache
    over the database, the order [obs] (a state shows what another shows) and the relation
    [tracks]: a state reached by operations whose change log, played back, shows the start again. *)

From S2P Require Import Prelude CommonData Rlp State.
From Stdlib Require Import ZArith Lia Bool.
From stdpp Require Import base list gmap.
Open Scope Z_scope.
Open Scope state_scope.

Section Inv.
Context {SP : StateParams}.

(** ** The abstract reading *)

Definition dbAccount (d : DB) (a : Z) : option Account :=
  match lookupAccount d a with
  | [] => None
  | raw => match decodeAccount raw with Ok acc => Some acc | Err _ => None end
  end.
Definition acct (s : State) (a : Z) : option Account :=
  match m_cache s !! a with Some acc => Some acc | None => dbAccount (m_db s) a end.
Definition codeOf (d : DB) (a : Z) (acc : Account) : list Z :=
  if m_codeHash acc =? EmptySHA3 then []
  else match m_codeCache acc with [] => lookupCode d a | c => c end.
Definition slotOf (d : DB) (a k : Z) (acc : Account) : Z :=
  match m_storageOverlay acc !! k with
  | Some v => v
  | None => match m_storageOriginal acc !! k with Some v => v | None => lookupStorage d a k end
  end.

(** Two accounts show the same: fields, code and every storage word. *)
Record aeq (d : DB) (a : Z) (x y : Account) : Prop := mkAeq {
  aeq_alive : m_isAlive x = m_isAlive y; aeq_new : m_hasNewCode x = m_hasNewCode y;
  aeq_nonce : m_nonce x = m_nonce y; aeq_balance : m_balance x = m_balance y;
  aeq_hash : m_codeHash x = m_codeHash y; aeq_version : m_version x = m_version y;
  aeq_used : m_storageUsed x = m_storageUsed y; aeq_code : codeOf d a x = codeOf d a y;
  aeq_slot k : slotOf d a k x = slotOf d a k y }.
#[export] Instance aeq_equiv d a : Equivalence (aeq d a).
Proof.
  split.
  - by intros x.
  - intros x y []. by split.
  - intros x y z [] []. split; intros; etrans; eauto.
Qed.

(** What no operation of a transaction changes, or changes only with the storage usage. *)
Definition frame (s : State) :=
  (m_db s, m_storedVersion s, m_currentVersion s, m_writeLocked s, m_accountStartNonce s,
   m_initial_funds s, contractStorageLimit_ s, totalStorageUsed_ s, currentStorageUsed_ s).
Definition usage (s : State) (a : Z) : Z := default 0 (storageUsage s !! a).
Definition dirty (s : State) (a : Z) : Prop := exists acc, m_cache s !! a = Some acc /\ isDirty acc = true.

(** [t] shows what [s] shows, and keeps for the commit what [s] keeps. *)
Record obs (s t : State) : Prop := mkObs {
  obs_frame : frame s = frame t;
  obs_usage a : usage s a = usage t a;
  obs_acct a : option_Forall2 (aeq (m_db s) a) (acct s a) (acct t a);
  obs_dirty a : dirty s a -> dirty t a }.
Lemma obs_db s t : obs s t -> m_db s = m_db t.
Proof. intros [Hf _ _ _]. by inversion Hf. Qed.
#[export] Instance obs_preorder : PreOrder obs.
Proof.
  split.
  - by intros s.
  - intros s t u Hst Htu. pose proof (obs_db _ _ Hst) as Hd. destruct Hst, Htu. split; intros.
    + etrans; eassumption.
    + etrans; eauto.
    + etrans; [eauto|]. rewrite Hd. eauto.
    + eauto.
Qed.

(** ** The invariant *)

Definition acc_ok (d : DB) (a : Z) (x : Account) : Prop :=
  0 <= m_balance x < 2 ^ 256 /\ (forall k, 0 <= slotOf d a k x) /\
  (m_codeHash x = EmptySHA3 \/ sha3 (codeOf d a x) = m_codeHash x).
Definition asInDb (d : DB) (a : Z) (x : Account) : Prop := exists y, dbAccount d a = Some y /\ aeq d a x y.

Record wf (s : State) : Prop := mkWf {
  wf_version : checkVersion s = true;
  wf_funds : 0 <= m_initial_funds s < 2 ^ 256;
  wf_nonexisting a : a ∈ m_nonExistingAccountsCache s -> lookupAccount (m_db s) a = [] /\ m_cache s !! a = None;
  wf_db a : lookupAccount (m_db s) a <> [] -> exists acc, decodeAccount (lookupAccount (m_db s) a) = Ok acc;
  wf_storage a k : 0 <= lookupStorage (m_db s) a k;
  wf_unchanged a x : m_cache s !! a = Some x -> isDirty x = false -> asInDb (m_db s) a x;
  wf_acct a x : acct s a = Some x -> acc_ok (m_db s) a x }.

Lemma acc_ok_aeq d a x y : aeq d a x y -> acc_ok d a x -> acc_ok d a y.
Proof.
  intros H (Hb & Hk & Hc). split; [by rewrite <- (aeq_balance _ _ _ _ H)|split].
  - intros k. by rewrite <- (aeq_slot _ _ _ _ H).
  - by rewrite <- (aeq_hash _ _ _ _ H), <- (aeq_code _ _ _ _ H).
Qed.
Lemma wf_dbAccount_None s a : wf s -> dbAccount (m_db s) a = None -> lookupAccount (m_db s) a = [].
Proof.
  intros H. unfold dbAccount. destruct (lookupAccount (m_db s) a) eqn:E; [done|].
  destruct (wf_db s H a) as [acc Hd]; [by rewrite E|]. rewrite E in Hd. by rewrite Hd.
Qed.
Lemma decodeAccount_loaded raw acc : decodeAccount raw = Ok acc ->
  exists n b h v u, acc = loadedAccount n b h v u.
Proof.
  unfold decodeAccount. intros H.
  repeat (apply rbind_ok in H as (? & _ & H)). inversion H; subst. eauto 10.
Qed.

(** States that differ only in what is not shown. *)
Lemma obs_same s t : frame s = frame t -> m_cache s = m_cache t -> (forall a, usage s a = usage t a) -> obs s t.
Proof.
  intros Hf Hc Hu. assert (Hd : m_db s = m_db t) by (by inversion Hf). split; [done..| |].
  - intros a. unfold acct. rewrite Hc, Hd. done.
  - intros a. unfold dirty. by rewrite Hc.
Qed.
Lemma wf_same s t : wf s -> m_db s = m_db t -> checkVersion s = checkVersion t -> m_initial_funds s = m_initial_funds t ->
  m_cache s = m_cache t -> (forall a, a ∈ m_nonExistingAccountsCache t -> lookupAccount (m_db s) a = [] /\ m_cache s !! a = None) -> wf t.
Proof.
  intros [] Hd Hv Hi Hc Hn. split; rewrite <- ?Hd, <- ?Hv, <- ?Hi, <- ?Hc; try done.
  intros a x. unfold acct. rewrite <- Hc, <- Hd. apply wf_acct0.
Qed.

(** ** Writing and erasing cache entries *)

Definition put (a : Z) (x : Account) (s : State) : State := s <| m_cache := <[a := x]> (m_cache s) |>.
Lemma acct_put s a x b : acct (put a x s) b = if decide (a = b) then Some x else acct s b.
Proof.
  unfold acct, put; simpl. case_decide; subst; [by rewrite lookup_insert_eq|by rewrite lookup_insert_ne].
Qed.
Lemma dirty_put s a x b : dirty (put a x s) b <-> if decide (a = b) then isDirty x = true else dirty s b.
Proof.
  unfold dirty, put; simpl. case_decide; subst.
  - rewrite lookup_insert_eq. naive_solver.
  - by rewrite lookup_insert_ne.
Qed.
Lemma wf_shown s a x : wf s -> acct s a = Some x -> a ∉ m_nonExistingAccountsCache s.
Proof.
  intros H Hx Hin. destruct (wf_nonexisting s H a Hin) as [Hl Hc]. revert Hx. unfold acct, dbAccount. by rewrite Hc, Hl.
Qed.
Lemma wf_put s a x : wf s -> a ∉ m_nonExistingAccountsCache s -> acc_ok (m_db s) a x ->
  isDirty x = true \/ asInDb (m_db s) a x -> wf (put a x s).
Proof.
  intros H Hna Hok Hd. destruct H. split; try done.
  - intros b Hb. unfold put; simpl. rewrite lookup_insert_ne; [by apply wf_nonexisting0|]. by intros ->.
  - intros b y. unfold put; simpl. destruct (decide (a = b)) as [->|]; [|rewrite lookup_insert_ne by done; eauto].
    rewrite lookup_insert_eq. intros [= <-] Hf. destruct Hd as [Hd|]; [congruence|done].
  - intros b y. rewrite acct_put. case_decide; [intros [= <-]; by subst|]. apply wf_acct0.
Qed.
Lemma obs_put_gen s t a x y : frame s = frame t -> (forall b, usage s b = usage t b) ->
  (forall b, a <> b -> option_Forall2 (aeq (m_db s) b) (acct s b) (acct t b) /\ (dirty s b -> dirty t b)) ->
  acct s a = Some x -> aeq (m_db s) a x y -> (dirty s a -> isDirty y = true) -> obs s (put a y t).
Proof.
  intros Hf Hu Ho Hx Ha Hd. split; [done..| |]; intros b.
  - rewrite acct_put. case_decide; [subst; rewrite Hx; by constructor|]. by apply Ho.
  - rewrite dirty_put. case_decide; [by subst|]. by apply Ho.
Qed.
Lemma obs_put s a x y : acct s a = Some x -> aeq (m_db s) a x y -> (dirty s a -> isDirty y = true) -> obs s (put a y s).
Proof. intros. by eapply obs_put_gen. Qed.
Lemma obs_put_back s a x x1 y t : obs (put a x1 s) t -> acct s a = Some x -> aeq (m_db s) a x y ->
  (dirty s a -> isDirty y = true) -> obs s (put a y t).
Proof.
  intros [Hf Hu Ho Hdi] Hx Ha Hd. eapply obs_put_gen; try done. intros b Hb.
  specialize (Ho b). specialize (Hdi b). rewrite acct_put in Ho. rewrite dirty_put in Hdi.
  rewrite decide_False in Ho by done. by rewrite decide_False in Hdi by done.
Qed.

(** ** Reading an account *)

Definition drop_entry (a : Z) (s : State) : State := s <| m_cache := delete a (m_cache s) |>.
Lemma acct_drop s a b : acct (drop_entry a s) b = if decide (a = b) then dbAccount (m_db s) a else acct s b.
Proof.
  unfold acct, drop_entry; simpl. case_decide; subst; [by rewrite lookup_delete_eq|by rewrite lookup_delete_ne].
Qed.
Lemma dirty_drop s a b : dirty (drop_entry a s) b <-> a <> b /\ dirty s b.
Proof.
  unfold dirty, drop_entry; simpl. destruct (decide (a = b)) as [->|].
  - rewrite lookup_delete_eq. naive_solver.
  - rewrite lookup_delete_ne by done. naive_solver.
Qed.
Lemma wf_dbAccount_ok s a y : wf s -> m_cache s !! a = None \/ (exists x, m_cache s !! a = Some x /\ isDirty x = false) ->
  dbAccount (m_db s) a = Some y -> acc_ok (m_db s) a y.
Proof.
  intros H [Hn|(x & Hx & Hu)] Hy.
  - apply (wf_acct s H). unfold acct. by rewrite Hn.
  - destruct (wf_unchanged s H a x Hx Hu) as (y' & Hy' & Ha). assert (y' = y) as -> by congruence.
    eapply acc_ok_aeq, (wf_acct s H); [done|]. unfold acct. by rewrite Hx.
Qed.
Lemma drop_unchanged s a x : wf s -> m_cache s !! a = Some x -> isDirty x = false ->
  wf (drop_entry a s) /\ obs s (drop_entry a s).
Proof.
  intros H Hx Hu. destruct (wf_unchanged s H a x Hx Hu) as (y & Hy & Ha). split.
  - pose proof (wf_dbAccount_ok s a y H ltac:(eauto) Hy) as Hok. destruct H. split; try done.
    + intros b Hb. destruct (wf_nonexisting0 b Hb). split; [done|]. unfold drop_entry; simpl. by rewrite lookup_delete_None; right.
    + intros b z. unfold drop_entry; simpl. destruct (decide (a = b)) as [->|]; [by rewrite lookup_delete_eq|].
      rewrite lookup_delete_ne by done. eauto.
    + intros b z. rewrite acct_drop. case_decide; [subst|apply wf_acct0]. rewrite Hy. by intros [= <-].
  - split; [done..| |]; intros b.
    + rewrite acct_drop. case_decide; [subst|done]. unfold acct. rewrite Hx, Hy. by constructor.
    + rewrite dirty_drop. intros Hd. split; [|done]. intros ->. destruct Hd as (z & Hz & Hdz). congruence.
Qed.
Lemma clear_spec fuel s : wf s -> let s' := clearCache_loop fuel s in
  wf s' /\ obs s s' /\ m_changeLog s' = m_changeLog s /\ m_cache s' ⊆ m_cache s /\
  m_nonExistingAccountsCache s' = m_nonExistingAccountsCache s.
Proof.
  revert s. induction fuel as [|fuel IH]; intros s H; [done|]. cbn [clearCache_loop].
  destruct (_ >? 1000); [|done]. cbv zeta. set (addr := default 0 _). set (l := pop_swapped _ _).
  set (s0 := s <| m_unchangedCacheEntries := l |>).
  assert (H0 : wf s0). { eapply wf_same; try done. apply (wf_nonexisting s H). }
  assert (Ho : obs s s0) by (by apply obs_same).
  destruct (m_cache s !! addr) as [x|] eqn:Hx; [destruct (isDirty x) eqn:Hd|].
  - destruct (IH s0 H0) as (Hw & Ho2 & Hl & Hsub & Hne). split_and!; [done|by etrans; [exact Ho|]|exact Hl|exact Hsub|exact Hne].
  - destruct (drop_unchanged s0 addr x H0 Hx Hd) as [Hw Ho'].
    destruct (IH _ Hw) as (? & ? & Hl & Hsub & Hne). split_and!; [done| |exact Hl| |exact Hne].
    + by do 2 (etrans; [eassumption|]).
    + etrans; [exact Hsub|]. apply delete_subseteq.
  - destruct (IH s0 H0) as (Hw & Ho2 & Hl & Hsub & Hne). split_and!; [done|by etrans; [exact Ho|]|exact Hl|exact Hsub|exact Hne].
Qed.

Lemma account_spec a s : wf s -> exists s', account a s = (Ok (m_cache s' !! a), s') /\
  wf s' /\ obs s s' /\ m_changeLog s' = m_changeLog s /\ acct s' a = m_cache s' !! a.
Proof.
  intros H. unfold account. destruct (m_cache s !! a) as [x|] eqn:Hc.
  { exists s. unfold acct. by rewrite Hc. }
  case_decide as Hne.
  { exists s. unfold acct, dbAccount. by rewrite Hc, (proj1 (wf_nonexisting s H a Hne)). }
  rewrite (wf_version s H). cbn [negb].
  destruct (lookupAccount (m_db s) a) as [|b raw] eqn:Hl.
  - exists (s <| m_nonExistingAccountsCache := {[a]} ∪ m_nonExistingAccountsCache s |>).
    split; [simpl; by rewrite Hc|]. split_and!.
    + eapply wf_same; try done. intros c Hin. apply elem_of_union in Hin as [->%elem_of_singleton|Hin]; [done|].
      by apply (wf_nonexisting s H).
    + by apply obs_same.
    + done.
    + unfold acct, dbAccount; simpl. by rewrite Hc, Hl.
  - destruct (wf_db s H a) as [acc Hd]; [by rewrite Hl|]. rewrite Hl in Hd.
    assert (Hdb : dbAccount (m_db s) a = Some acc) by (unfold dbAccount; by rewrite Hl, Hd).
    rewrite Hd. unfold clearCacheIfTooLarge.
    destruct (clear_spec (length (m_unchangedCacheEntries s)) s H) as (Hw & Ho & Hlog & Hsub & Hnx).
    set (s1 := clearCache_loop _ _) in *. pose proof (obs_db _ _ Ho) as Hdd. rewrite Hdd in Hdb.
    assert (Hc1 : m_cache s1 !! a = None).
    { destruct (m_cache s1 !! a) as [x|] eqn:Hx; [|done]. by rewrite (lookup_weaken _ _ _ _ Hx Hsub) in Hc. }
    assert (Hx1 : acct s1 a = Some acc) by (unfold acct; by rewrite Hc1).
    set (s2 := put a acc s1).
    assert (Hw2 : wf s2).
    { apply wf_put; [done|by rewrite Hnx|by apply (wf_acct s1 Hw)|]. right. by exists acc. }
    assert (Ho2 : obs s1 s2).
    { eapply obs_put; [done..|]. intros (x & ? & ?). congruence. }
    exists (s2 <| m_unchangedCacheEntries := m_unchangedCacheEntries s1 ++ [a] |>).
    split; [simpl; by rewrite lookup_insert_eq|]. split_and!.
    + eapply (wf_same s2); try done. apply (wf_nonexisting s2 Hw2).
    + etrans; [exact Ho|]. etrans; [exact Ho2|]. by apply obs_same.
    + done.
    + unfold acct; simpl. by rewrite lookup_insert_eq.
Qed.
End Inv.
