(* ===== verification/StateRollback.v ===== *)
(** * State: savepoints

    Every operation of a transaction appends to the change log what [rollback] needs: the state it
    ends in [tracks] the state it started in, whether it returns or throws.  The property: rolling
    back to a savepoint shows the state at the savepoint again. *)

From S2P Require Import Prelude CommonData Rlp State StateInv.
From Stdlib Require Import ZArith Lia Bool.
From stdpp Require Import base list gmap.
Open Scope Z_scope.
Open Scope state_scope.

Section Rollback.
Context {SP : StateParams}.

(** ** Playing the log back *)

(** From any state that shows what [s1] shows, undoing [Δ] shows [s] again. *)
Definition reverts (s : State) (Δ : list Change) (s1 : State) : Prop :=
  forall t L, wf t -> obs s1 t -> m_changeLog t = L ++ Δ ->
  exists t', rollback_loop (length Δ) t = (Ok tt, t') /\ wf t' /\ obs s t' /\ m_changeLog t' = L.
Definition tracks (s s1 : State) : Prop :=
  wf s1 /\ exists Δ, m_changeLog s1 = m_changeLog s ++ Δ /\ reverts s Δ s1.

Lemma rollback_loop_add m n t : rollback_loop (m + n) t = (rollback_loop m ;; rollback_loop n) t.
Proof.
  revert t. induction m as [|m IH]; intros t; [done|]. cbn [Nat.add rollback_loop]. unfold sbind, sgets in *.
  destruct (last (m_changeLog t)) as [c|]; [|done]. destruct (undo c t) as [[[]|] t1]; [|done]. simpl. by rewrite IH.
Qed.
Lemma reverts_nil s s1 : obs s s1 -> reverts s [] s1.
Proof. intros Ho t L Hw Ht Hl. exists t. rewrite app_nil_r in Hl. split_and!; try done. by etrans. Qed.
Lemma reverts_app s Δ1 s1 Δ2 s2 : reverts s Δ1 s1 -> reverts s1 Δ2 s2 -> reverts s (Δ1 ++ Δ2) s2.
Proof.
  intros H1 H2 t L Hw Ho Hl. destruct (H2 t (L ++ Δ1) Hw Ho) as (t1 & Hr1 & Hw1 & Ho1 & Hl1); [by rewrite Hl, app_assoc|].
  destruct (H1 t1 L Hw1 Ho1 Hl1) as (t2 & Hr2 & ?). exists t2. split; [|done].
  rewrite length_app, Nat.add_comm, rollback_loop_add. unfold sbind. by rewrite Hr1.
Qed.
Lemma obs_log s l : obs s (s <| m_changeLog := l |>).
Proof. by apply obs_same. Qed.
Lemma obs_log' s l : obs (s <| m_changeLog := l |>) s.
Proof. by apply obs_same. Qed.
Lemma wf_log s l : wf s -> wf (s <| m_changeLog := l |>).
Proof. intros H. eapply wf_same; try done. apply (wf_nonexisting s H). Qed.
Lemma reverts_one s c s1 :
  (forall t, wf t -> obs s1 t -> exists t', undo c t = (Ok tt, t') /\ wf t' /\ obs s t' /\ m_changeLog t' = m_changeLog t) ->
  reverts s [c] s1.
Proof.
  intros Hc t L Hw Ho Hl. destruct (Hc t Hw Ho) as (t' & Hu & Hw' & Ho' & Hl').
  exists (t' <| m_changeLog := L |>). split_and!; [|by apply wf_log|by etrans; [|apply obs_log]|done].
  simpl. unfold sbind, sgets, smodify. rewrite Hl, last_snoc, Hu, Hl', Hl, removelast_last. done.
Qed.

Lemma tracks_trans s s1 s2 : tracks s s1 -> tracks s1 s2 -> tracks s s2.
Proof.
  intros (_ & Δ1 & Hl1 & Hr1) (Hw & Δ2 & Hl2 & Hr2). split; [done|]. exists (Δ1 ++ Δ2).
  split; [by rewrite Hl2, Hl1, app_assoc|]. by eapply reverts_app.
Qed.
Lemma tracks_obs s s1 : wf s1 -> obs s s1 -> m_changeLog s1 = m_changeLog s -> tracks s s1.
Proof. intros. split; [done|]. exists []. split; [by rewrite app_nil_r|]. by apply reverts_nil. Qed.
Lemma tracks_refl s : wf s -> tracks s s.
Proof. intros. by apply tracks_obs. Qed.
Lemma tracks_one s s1 c : wf s1 ->
  (forall t, wf t -> obs s1 t -> exists t', undo c t = (Ok tt, t') /\ wf t' /\ obs s t' /\ m_changeLog t' = m_changeLog t) ->
  tracks s (s1 <| m_changeLog := m_changeLog s ++ [c] |>).
Proof.
  intros Hw Hc. split; [by apply wf_log|]. exists [c]. split; [done|]. apply reverts_one.
  intros t Hwt Ho. apply Hc; [done|]. etrans; [apply obs_log|done].
Qed.
Lemma tracks_wf s s1 : tracks s s1 -> wf s1.
Proof. by intros []. Qed.

(** ** Steps *)

Lemma obs_cached s x a t : obs (put a x s) t -> acct t a = m_cache t !! a ->
  exists y, m_cache t !! a = Some y /\ aeq (m_db s) a x y /\ (isDirty x = true -> isDirty y = true).
Proof.
  intros Ho Hc. pose proof (obs_acct _ _ Ho a) as Ha. pose proof (obs_dirty _ _ Ho a) as Hd.
  rewrite acct_put, decide_True in Ha by done. rewrite dirty_put, decide_True in Hd by done.
  inversion Ha as [? y Hy E1 E2|]; subst. rewrite Hc in E2. exists y. split_and!; [done..|].
  intros Hx. destruct (Hd Hx) as (z & Hz & Hzd). congruence.
Qed.

(** An account overwritten, with an entry whose undoing overwrites it again. *)
Lemma write_step s a x x1 c f : wf s -> acct s a = Some x -> acc_ok (m_db s) a x1 -> isDirty x1 = true ->
  change_address c = a -> (forall t y t1, account a t = (Ok (Some y), t1) -> undo c t = (Ok tt, put a (f y) t1)) ->
  (forall y, isDirty y = true -> isDirty (f y) = true) ->
  (forall y, aeq (m_db s) a x1 y -> aeq (m_db s) a x (f y)) ->
  tracks s ((put a x1 s) <| m_changeLog := m_changeLog s ++ [c] |>).
Proof.
  intros Hw Hx Hok Hd <- Hundo Hfd Hf. apply tracks_one; [apply wf_put; [done|by eapply wf_shown|done|by left]|].
  intros t Hwt Ho. destruct (account_spec (change_address c) t Hwt) as (t1 & Hacc & Hw1 & Ho1 & Hl & Hac).
  assert (Ho' : obs (put (change_address c) x1 s) t1) by (by etrans).
  destruct (obs_cached s x1 _ t1 Ho' Hac) as (y & Hy & Hxy & Hyd). rewrite Hy in Hacc.
  pose proof (obs_db _ _ Ho') as Hdb. simpl in Hdb. specialize (Hf y Hxy). specialize (Hfd y (Hyd Hd)).
  eexists. split; [by apply Hundo|]. split_and!; [|by eapply obs_put_back|done].
  apply wf_put; [done|eapply wf_shown; [done|]; by rewrite Hac| |by left]. rewrite <- Hdb. eapply acc_ok_aeq; [done|]. by apply (wf_acct s Hw).
Qed.

Lemma nonce_step s a x n : wf s -> acct s a = Some x ->
  tracks s ((put a (acc_setNonce n x) s) <| m_changeLog := m_changeLog s ++ [ChangeNonce a (m_nonce x)] |>).
Proof.
  intros Hw Hx. eapply (write_step _ _ x _ _ (acc_setNonce (m_nonce x))); try done.
  - by apply (wf_acct s Hw) in Hx.
  - intros t y t1 Hacc. unfold undo, sbind. simpl. by rewrite Hacc.
  - intros y []. by split.
Qed.
Lemma u256_back b v : 0 <= b < 2 ^ 256 -> u256 (u256 (b + v) + u256 (0 - v)) = b.
Proof.
  intros. unfold wrap. rewrite <- Z.add_mod by lia. replace (b + v + (0 - v)) with b by lia. by apply Z.mod_small.
Qed.
Lemma balance_step s a x v : wf s -> acct s a = Some x ->
  tracks s ((put a (acc_addBalance v x) s) <| m_changeLog := m_changeLog s ++ (if v =? 0 then [] else [ChangeBalance a v]) |>).
Proof.
  intros Hw Hx. pose proof (wf_acct s Hw a x Hx) as (Hb & Hs & Hc).
  assert (Hok : acc_ok (m_db s) a (acc_addBalance v x)) by (split; [by apply wrap_range|done]).
  destruct (Z.eqb_spec v 0) as [->|].
  - rewrite app_nil_r. apply tracks_obs; [apply wf_log, wf_put; [done|by eapply wf_shown|done|by left]| |done].
    etrans; [|apply obs_log]. eapply obs_put; [done| |done].
    split; try done. unfold acc_addBalance; simpl. by rewrite Z.add_0_r, wrap_small.
  - eapply (write_step _ _ x _ _ (acc_addBalance (u256 (0 - v)))); try done.
    + intros t y t1 Hacc. unfold undo, sbind. simpl. by rewrite Hacc.
    + intros y []. split; try done. unfold acc_addBalance in *; simpl in *. rewrite <- aeq_balance, u256_back; done.
Qed.
Lemma code_step s a x c v : wf s -> m_cache s !! a = Some x -> isDirty x = true -> m_hasNewCode x = false ->
  m_codeHash x = EmptySHA3 -> m_version x = 0 ->
  tracks s ((put a (acc_setCode c v x) s) <| m_changeLog := m_changeLog s ++ [ChangeCode a []] |>).
Proof.
  intros Hw Hx Hd Hn Hh Hv. assert (Ha : acct s a = Some x) by (unfold acct; by rewrite Hx).
  assert (Hset : forall k, slotOf (m_db s) a k (acc_setCode c v x) = slotOf (m_db s) a k x).
  { intros k. unfold acc_setCode, slotOf. by destruct (negb _). }
  pose proof (wf_acct s Hw a x Ha) as (Hb & Hs & _).
  eapply (write_step _ _ x _ _ acc_resetCode); try done.
  - split; [unfold acc_setCode; by destruct (negb _)|split; [intros k; by rewrite Hset|]].
    unfold acc_setCode, codeOf. destruct (Z.eqb_spec (sha3 c) (m_codeHash x)); cbn [negb]; [by left|right]. simpl.
    rewrite <- Hh. destruct (Z.eqb_spec (sha3 c) (m_codeHash x)); [done|]. destruct c; [|done]. by rewrite Hh in *.
  - unfold acc_setCode. by destruct (negb _).
  - intros t y t1 Hacc. unfold undo, sbind. simpl. by rewrite Hacc.
  - intros y []. split; try done.
    + unfold acc_resetCode; simpl. rewrite <- aeq_alive. unfold acc_setCode. by destruct (negb _).
    + unfold acc_resetCode; simpl. rewrite <- aeq_nonce. unfold acc_setCode. by destruct (negb _).
    + unfold acc_resetCode; simpl. rewrite <- aeq_balance. unfold acc_setCode. by destruct (negb _).
    + unfold acc_resetCode; simpl. rewrite <- aeq_used. unfold acc_setCode. by destruct (negb _).
    + unfold codeOf, acc_resetCode; simpl. by rewrite Hh, Z.eqb_refl.
    + intros k. rewrite <- Hset. apply aeq_slot.
Qed.

Lemma touch_step s a x : wf s -> m_cache s !! a = Some x -> isDirty x = false ->
  tracks s ((put a (changed x) s) <| m_changeLog := m_changeLog s ++ [ChangeTouch a] |>).
Proof.
  intros Hw Hx Hd. assert (Ha : acct s a = Some x) by (unfold acct; by rewrite Hx).
  assert (Hxc : aeq (m_db s) a (changed x) x) by (by split).
  apply tracks_one. { apply wf_put; [done|by eapply wf_shown|eapply acc_ok_aeq; [symmetry; eassumption|by apply (wf_acct s Hw)]|by left]. }
  intros t Hwt Ho. destruct (account_spec a t Hwt) as (t1 & Hacc & Hw1 & Ho1 & Hl & Hac).
  assert (Ho' : obs (put a (changed x) s) t1) by (by etrans).
  destruct (obs_cached s _ a t1 Ho' Hac) as (y & Hy & Hxy & _). rewrite Hy in Hacc.
  pose proof (obs_db _ _ Ho') as Hdb. simpl in Hdb.
  assert (Hxu : aeq (m_db s) a x (untouch y)).
  { symmetry in Hxc. etrans; [exact Hxc|]. etrans; [exact Hxy|]. by split. }
  assert (Hw2 : wf (put a (untouch y) t1)).
  { apply wf_put; [done|eapply wf_shown; [done|]; by rewrite Hac|rewrite <- Hdb; eapply acc_ok_aeq; [exact Hxu|by apply (wf_acct s Hw)]|right].
    destruct (wf_unchanged s Hw a x Hx Hd) as (z & Hz & Hxz). exists z. rewrite <- Hdb. split; [done|].
    symmetry in Hxu. by etrans. }
  assert (Ho2 : obs s (put a (untouch y) t1)).
  { eapply obs_put_back; [exact Ho'|done..|]. intros (z & Hz & ?). congruence. }
  unfold undo, sbind. simpl. rewrite Hacc. eexists. split; [done|]. split_and!; [..|done].
  - eapply wf_same; [exact Hw2|done..|]. apply (wf_nonexisting _ Hw2).
  - etrans; [exact Ho2|]. by apply obs_same.
Qed.
Lemma create_step s a x : wf s -> acct s a = None -> m_cache s !! a = None -> acc_ok (m_db s) a x -> isDirty x = true ->
  tracks s ((put a x s) <| m_nonExistingAccountsCache := m_nonExistingAccountsCache s ∖ {[a]} |>
              <| m_changeLog := m_changeLog s ++ [ChangeCreate a] |>).
Proof.
  intros Hw Ha Hc Hok Hd. set (s1 := (put a x s) <| m_nonExistingAccountsCache := _ |>).
  assert (Hs1 : obs (put a x s) s1) by (by apply obs_same).
  assert (Hn : dbAccount (m_db s) a = None) by (revert Ha; unfold acct; by rewrite Hc).
  apply tracks_one.
  { change (wf (put a x (s <| m_nonExistingAccountsCache := m_nonExistingAccountsCache s ∖ {[a]} |>))).
    apply wf_put; [|simpl; set_solver|done|by left].
    eapply (wf_same s); try done. intros b Hb. apply (wf_nonexisting s Hw). by apply elem_of_difference in Hb as [? _]. }
  intros t Hwt Ho. destruct (account_spec a t Hwt) as (t1 & Hacc & Hw1 & Ho1 & Hl & Hac).
  assert (Ho' : obs (put a x s) t1) by (by do 2 (etrans; [eassumption|])).
  destruct (obs_cached s _ a t1 Ho' Hac) as (y & Hy & _). rewrite Hy in Hacc.
  pose proof (obs_db _ _ Ho') as Hdb. simpl in Hdb.
  exists (drop_entry a t1). split; [unfold undo, sbind; simpl; by rewrite Hacc|]. split_and!; [| |done].
  - rewrite Hdb in Hn. destruct Hw1. split; try done.
    + intros b Hb. destruct (wf_nonexisting b Hb). split; [done|]. unfold drop_entry; simpl. by rewrite lookup_delete_None; right.
    + intros b z. unfold drop_entry; simpl. destruct (decide (a = b)) as [->|]; [by rewrite lookup_delete_eq|].
      rewrite lookup_delete_ne by done. eauto.
    + intros b z. rewrite acct_drop. case_decide; [subst|apply wf_acct]. by rewrite Hn.
  - destruct Ho' as [Hf Hu Hao Hdo]. split; [done..| |]; intros b.
    + rewrite acct_drop. specialize (Hao b). rewrite acct_put in Hao. case_decide; [subst|done].
      rewrite Ha, <- Hdb, Hn. constructor.
    + rewrite dirty_drop. intros Hdb'. assert (a <> b) by (intros <-; destruct Hdb' as (?&?&?); congruence).
      split; [done|]. apply Hdo. rewrite dirty_put. by rewrite decide_False.
Qed.

(** ** Storage *)

Definition slot (s : State) (a k : Z) : Z := match acct s a with Some x => slotOf (m_db s) a k x | None => 0 end.
Lemma obs_slot s t a k : obs s t -> slot s a k = slot t a k.
Proof.
  intros Ho. unfold slot. rewrite <- (obs_db _ _ Ho). destruct (obs_acct _ _ Ho a) as [x y Ha|]; [apply Ha|done].
Qed.
Lemma slot_nonneg s a k : wf s -> 0 <= slot s a k.
Proof. intros Hw. unfold slot. destruct (acct s a) as [x|] eqn:E; [|done]. by apply (wf_acct s Hw) in E as (_ & ? & _). Qed.
Lemma setStorageCache_aeq d a k x : m_storageOriginal x !! k = None ->
  aeq d a x (acc_setStorageCache k (lookupStorage d a k) x).
Proof.
  intros Hk. split; try done. intros j. unfold slotOf, acc_setStorageCache; simpl.
  destruct (m_storageOverlay x !! j); [done|]. destruct (decide (k = j)) as [<-|].
  - by rewrite lookup_insert_eq, Hk.
  - by rewrite lookup_insert_ne.
Qed.
(** Writing an account back that shows the same. *)
Lemma put_aeq s a x y : wf s -> m_cache s !! a = Some x -> aeq (m_db s) a x y -> isDirty y = isDirty x ->
  wf (put a y s) /\ obs s (put a y s).
Proof.
  intros Hw Hx Ha Hd. assert (Hax : acct s a = Some x) by (unfold acct; by rewrite Hx). split.
  - apply wf_put; [done|by eapply wf_shown|by eapply acc_ok_aeq, (wf_acct s Hw)|]. rewrite Hd.
    destruct (isDirty x) eqn:E; [by left|right]. destruct (wf_unchanged s Hw a x Hx E) as (z & Hz & Hxz).
    exists z. split; [done|]. symmetry in Ha. by etrans.
  - eapply obs_put; [done..|]. intros (z & Hz & ?). congruence.
Qed.
Lemma originalOf_spec s a k x : wf s -> m_cache s !! a = Some x ->
  exists s', originalOf a k x s = (Ok (default (lookupStorage (m_db s) a k) (m_storageOriginal x !! k)), s') /\
    wf s' /\ obs s s' /\ m_changeLog s' = m_changeLog s /\ is_Some (m_cache s' !! a).
Proof.
  intros Hw Hx. unfold originalOf. destruct (m_storageOriginal x !! k) as [v|] eqn:Hk; [exists s; by rewrite Hx|].
  unfold sbind, sgets. simpl. rewrite (wf_version s Hw). cbn [negb].
  destruct (put_aeq s a x (acc_setStorageCache k (lookupStorage (m_db s) a k) x)) as [Hw' Ho']; [done..|by apply setStorageCache_aeq|done|].
  eexists. split; [done|]. split_and!; [done..|]. simpl. by rewrite lookup_insert_eq.
Qed.
Lemma storage_spec s a k : wf s -> exists s', storage a k s = (Ok (slot s a k), s') /\
    wf s' /\ obs s s' /\ m_changeLog s' = m_changeLog s /\ acct s' a = m_cache s' !! a.
Proof.
  intros Hw. destruct (account_spec a s Hw) as (s1 & Hacc & Hw1 & Ho1 & Hl1 & Hac).
  unfold storage, sbind. rewrite Hacc, (obs_slot _ _ a k Ho1). unfold slot. rewrite Hac.
  destruct (m_cache s1 !! a) as [x|] eqn:Hx; [|exists s1; by rewrite Hac, Hx].
  unfold slotOf. destruct (m_storageOverlay x !! k) as [v|] eqn:Hk; [exists s1; by rewrite Hac, Hx|].
  destruct (originalOf_spec s1 a k x Hw1 Hx) as (s2 & -> & Hw2 & Ho2 & Hl2 & [y Hy]). exists s2. split_and!; [|done|by etrans|by rewrite Hl2|].
  - by destruct (m_storageOriginal x !! k).
  - unfold acct. by rewrite Hy.
Qed.

(** Accounting of storage slots. *)
Lemma usageCount_inverse v c : 0 <= v -> 0 <= c -> usageCount c v = - usageCount v c.
Proof. intros. unfold usageCount. bool_cases; boolify; lia. Qed.
Definition bump (a n : Z) (s : State) : State :=
  s <| storageUsage := <[a := usage s a + n * 32]> (storageUsage s) |> <| currentStorageUsed_ := currentStorageUsed_ s + n * 32 |>.
Lemma usage_bump a n s b : usage (bump a n s) b = usage s b + if decide (a = b) then n * 32 else 0.
Proof.
  unfold usage at 1, bump; simpl. case_decide; [subst; by rewrite lookup_insert_eq|].
  rewrite lookup_insert_ne by done. fold (usage s b). lia.
Qed.
Lemma frame_bump s t a n : frame s = frame t -> frame (bump a n s) = frame (bump a n t).
Proof. unfold frame. simpl. intros [=]. congruence. Qed.
Lemma obs_bump s t a n : obs s t -> obs (bump a n s) (bump a n t).
Proof.
  intros [Hf Hu Ha Hd]. split; [by apply frame_bump| |done|done].
  intros b. rewrite !usage_bump. by rewrite Hu.
Qed.
Lemma obs_unbump s a n : obs s (bump a (- n) (bump a n s)).
Proof.
  apply obs_same; [|done|].
  - unfold frame. simpl. f_equal. lia.
  - intros b. rewrite !usage_bump. case_decide; lia.
Qed.
Lemma wf_bump s a n : wf s -> wf (bump a n s).
Proof. intros H. eapply wf_same; try done. apply (wf_nonexisting s H). Qed.

Lemma setStorage_slot d a k v x j : slotOf d a j (acc_setStorage k v x) = if decide (k = j) then v else slotOf d a j x.
Proof.
  unfold slotOf, acc_setStorage; simpl. case_decide; [subst; by rewrite lookup_insert_eq|by rewrite lookup_insert_ne].
Qed.
Lemma setStorage_back d a k x y v : aeq d a (acc_setStorage k v x) y -> aeq d a x (acc_setStorage k (slotOf d a k x) y).
Proof.
  intros []. split; try done. intros j. rewrite setStorage_slot. case_decide; [by subst|].
  rewrite <- aeq_slot, setStorage_slot, decide_False; done.
Qed.
Lemma acc_ok_setStorage d a x k v : 0 <= v -> acc_ok d a x -> acc_ok d a (acc_setStorage k v x).
Proof. intros ? (? & Hs & ?). split; [done|split; [|done]]. intros j. rewrite setStorage_slot. by case_decide. Qed.

Lemma storage_step s a x k v : contractStoragePatch = true -> wf s -> m_cache s !! a = Some x -> 0 <= v ->
  tracks s ((bump a (usageCount v (slot s a k)) (put a (acc_setStorage k v x) s))
              <| m_changeLog := m_changeLog s ++ [ChangeStorage a k (slot s a k)] |>).
Proof.
  intros Hp Hw Hx Hv. assert (Hax : acct s a = Some x) by (unfold acct; by rewrite Hx).
  pose proof (wf_acct s Hw a x Hax) as Hok. pose proof (slot_nonneg s a k Hw) as Hc.
  set (n := usageCount v (slot s a k)). set (s1 := put a (acc_setStorage k v x) s).
  apply tracks_one. { apply wf_bump, wf_put; [done|by eapply wf_shown|by apply acc_ok_setStorage|by left]. }
  intros t Hwt Ho. destruct (account_spec a t Hwt) as (t1 & Hacc & Hw1 & Ho1 & Hl1 & Hac1).
  assert (Hob : obs (bump a n s1) t1) by (by etrans).
  assert (exists y1, m_cache t1 !! a = Some y1) as [y1 Hy1].
  { pose proof (obs_acct _ _ Hob a) as HH. unfold s1 in HH. rewrite Hac1 in HH. unfold bump, put, acct in HH. simpl in HH.
    rewrite lookup_insert_eq in HH. inversion HH. eauto. }
  destruct (storage_spec t1 a k Hw1) as (t2 & Hst & Hw2 & Ho2 & Hl2 & Hac2).
  assert (Hcur : slot t1 a k = v).
  { rewrite <- (obs_slot _ _ a k Hob). unfold slot, acct, s1; simpl. rewrite lookup_insert_eq.
    change (slotOf (m_db s) a k (acc_setStorage k v x) = v). rewrite setStorage_slot. by rewrite decide_True. }
  assert (Hob2 : obs s1 (bump a (- n) t2)).
  { etrans; [apply (obs_unbump s1 a n)|]. apply obs_bump. by etrans. }
  destruct (obs_cached s _ a _ Hob2 Hac2) as (y & Hy & Hxy & _). simpl in Hy.
  pose proof (obs_db _ _ Hob2) as Hdb. simpl in Hdb. apply setStorage_back in Hxy.
  assert (Hslot : slotOf (m_db s) a k x = slot s a k) by (unfold slot; by rewrite Hax). rewrite Hslot in Hxy.
  exists (put a (acc_setStorage k (slot s a k) y) (bump a (- n) t2)). split_and!.
  - unfold undo, sbind. simpl. rewrite Hacc, Hy1, Hp. unfold rollbackStorageChange, sbind. rewrite Hst, Hcur.
    unfold addUsage, onCached, smodify. simpl. rewrite Hy. simpl. unfold n. by rewrite usageCount_inverse.
  - apply wf_put; [by apply wf_bump|apply (wf_shown _ a y); [by apply wf_bump|exact (eq_trans Hac2 Hy)]| |by left]. simpl. rewrite <- Hdb. by eapply acc_ok_aeq.
  - by eapply obs_put_back.
  - simpl. by rewrite Hl2, Hl1.
Qed.

End Rollback.
