(* ===== verification/StateClaims.v ===== *)
(** * State: operations and properties

    The operations of a transaction on a state, that each of them is tracked by the change log, and
    the properties of savepoints. *)

From S2P Require Import Prelude CommonData Rlp State StateInv StateRollback.
From Stdlib Require Import ZArith Lia Bool.
From stdpp Require Import base list gmap.
Open Scope Z_scope.
Open Scope state_scope.

Section Claims.
Context {SP : StateParams}.

(** ** Every operation is tracked *)

Lemma tracks_account {B} s a (k : option Account -> SM B) : wf s ->
  (forall s1, wf s1 -> obs s s1 -> acct s1 a = m_cache s1 !! a -> tracks s1 (snd (k (m_cache s1 !! a) s1))) ->
  tracks s (snd ((let* r := account a in k r) s)).
Proof.
  intros Hw Hk. destruct (account_spec a s Hw) as (s1 & Hacc & Hw1 & Ho & Hl & Hac).
  unfold sbind. rewrite Hacc. eapply tracks_trans; [by apply tracks_obs|]. by apply Hk.
Qed.
Lemma tracks_startNonce {B} s (k : Z -> SM B) : wf s ->
  (forall n, tracks s (snd (k n s))) -> tracks s (snd ((let* n := requireAccountStartNonce in k n) s)).
Proof.
  intros Hw Hk. unfold requireAccountStartNonce, sbind, sgets. destruct (_ =? Invalid256); simpl; [by apply tracks_refl|apply Hk].
Qed.

Definition created (a : Z) (x : Account) (s : State) : State :=
  (put a x s) <| m_nonExistingAccountsCache := m_nonExistingAccountsCache s ∖ {[a]} |>
    <| m_changeLog := m_changeLog s ++ [ChangeCreate a] |>.
Lemma createAccount_spec s a : wf s -> exists s1, wf s1 /\ obs s s1 /\ m_changeLog s1 = m_changeLog s /\
  acct s1 a = m_cache s1 !! a /\
  forall x, createAccount a x s = match m_cache s1 !! a with Some _ => (Err AssertionFailed, s1) | None => (Ok tt, created a x s1) end.
Proof.
  intros Hw. destruct (account_spec a s Hw) as (s1 & Hacc & Hw1 & Ho & Hl & Hac).
  exists s1. split_and!; try done. intros x. unfold createAccount, addressInUse, sbind, sret. rewrite Hacc.
  by destruct (m_cache s1 !! a).
Qed.
Lemma acc_ok_new s a n b : wf s -> 0 <= b < 2 ^ 256 -> acc_ok (m_db s) a (newAccount n b).
Proof. intros Hw Hb. split; [done|split; [|by left]]. intros k. unfold slotOf. simpl. apply (wf_storage s Hw). Qed.
Lemma createAccount_tracks s a n b : wf s -> 0 <= b < 2 ^ 256 -> tracks s (snd (createAccount a (newAccount n b) s)).
Proof.
  intros Hw Hb. destruct (createAccount_spec s a Hw) as (s1 & Hw1 & Ho & Hl & Hac & Hcr). rewrite Hcr.
  eapply tracks_trans; [by apply tracks_obs|]. destruct (m_cache s1 !! a) eqn:Hc; simpl; [by apply tracks_refl|].
  apply create_step; try done. by apply acc_ok_new.
Qed.
Lemma obs_funds s t : obs s t -> m_initial_funds s = m_initial_funds t.
Proof. intros [Hf _ _ _]. by inversion Hf. Qed.

Lemma createContract_tracks s a : wf s -> tracks s (snd (createContract a s)).
Proof. intros Hw. apply tracks_startNonce; [done|]. intros n. apply createAccount_tracks, Hw. done. Qed.
Lemma incNonce_tracks s a : wf s -> tracks s (snd (incNonce a s)).
Proof.
  intros Hw. apply tracks_account; [done|]. intros s1 Hw1 _ Hac. destruct (m_cache s1 !! a) as [x|].
  - by apply (nonce_step s1 a x (u256 (m_nonce x + 1))).
  - apply tracks_startNonce; [done|]. intros n. apply createAccount_tracks, Hw1. done.
Qed.
Lemma setNonce_tracks s a n : wf s -> tracks s (snd (setNonce a n s)).
Proof.
  intros Hw. apply tracks_account; [done|]. intros s1 Hw1 _ Hac. destruct (m_cache s1 !! a) as [x|].
  - by apply (nonce_step s1 a x n).
  - apply createAccount_tracks, Hw1. done.
Qed.

(** [addBalance] once the account is looked up. *)
Lemma log_nil s : s <| m_changeLog := m_changeLog s ++ [] |> = s.
Proof. destruct s. unfold set_field; simpl. by rewrite app_nil_r. Qed.
Lemma put_put s a x y : put a y (put a x s) = put a y s.
Proof. unfold put, set_field; simpl. by rewrite insert_insert_eq. Qed.
Lemma addBalance_tracks s a v : wf s -> tracks s (snd (addBalance a v s)).
Proof.
  intros Hw. unfold addBalance.
  destruct (account_spec a s Hw) as (s1 & Hacc & Hw1 & Ho1 & Hl1 & Hac1).
  eapply tracks_trans; [by apply tracks_obs|].
  unfold sbind at 1 2. rewrite Hacc. destruct (m_cache s1 !! a) as [x|] eqn:Hx.
  - destruct (negb (isDirty x) && isEmpty x) eqn:Ht.
    + apply andb_prop in Ht as [Hd%negb_true_iff _].
      eapply tracks_trans; [by apply touch_step|]. set (s2 := (put a (changed x) s1) <| m_changeLog := _ |>).
      assert (Hw2 : wf s2) by (eapply tracks_wf; by apply touch_step).
      assert (Hx2 : acct s2 a = Some (changed x)).
      { unfold s2, acct; simpl. by rewrite lookup_insert_eq. }
      pose proof (balance_step s2 a (changed x) v Hw2 Hx2) as Hb.
      replace (snd _) with ((put a (acc_addBalance v (changed x)) s2)
        <| m_changeLog := m_changeLog s2 ++ (if v =? 0 then [] else [ChangeBalance a v]) |>); [exact Hb|].
      unfold s2, put, set_field, sbind, logChange, writeAccount, smodify, sret; simpl.
      destruct (v =? 0); simpl; rewrite ?app_nil_r, insert_insert_eq; done.
    + pose proof (balance_step s1 a x v Hw1 Hac1) as Hb.
      replace (snd _) with ((put a (acc_addBalance v x) s1)
        <| m_changeLog := m_changeLog s1 ++ (if v =? 0 then [] else [ChangeBalance a v]) |>); [exact Hb|].
      unfold put, set_field, sbind, logChange, writeAccount, smodify, sret; simpl.
      destruct (v =? 0); simpl; rewrite ?app_nil_r; done.
  - unfold requireAccountStartNonce, sbind, sgets. simpl.
    destruct (m_accountStartNonce s1 =? Invalid256); simpl; [by apply tracks_refl|].
    destruct (createAccount_spec s1 a Hw1) as (s2 & Hw2 & Ho2 & Hl2 & Hac2 & Hcr). rewrite Hcr.
    eapply tracks_trans; [by apply tracks_obs|]. destruct (m_cache s2 !! a) eqn:Hc2; simpl; [by apply tracks_refl|].
    set (x0 := newAccount (m_accountStartNonce s1) (m_initial_funds s1)).
    assert (Ht : tracks s2 (created a x0 s2)).
    { apply create_step; try done. apply acc_ok_new; [done|]. apply Hw1. }
    eapply tracks_trans; [exact Ht|].
    assert (Hx0 : acct (created a x0 s2) a = Some x0) by (unfold acct; simpl; by rewrite lookup_insert_eq).
    pose proof (balance_step _ a x0 v (tracks_wf _ _ Ht) Hx0) as Hb.
    replace (snd _) with ((put a (acc_addBalance v x0) (created a x0 s2))
        <| m_changeLog := m_changeLog (created a x0 s2) ++ (if v =? 0 then [] else [ChangeBalance a v]) |>); [exact Hb|].
    unfold created, put, set_field, logChange, smodify, sret; simpl.
    destruct (v =? 0); simpl; rewrite ?app_nil_r, insert_insert_eq; done.
Qed.
Lemma subBalance_tracks s a v : wf s -> tracks s (snd (subBalance a v s)).
Proof.
  intros Hw. unfold subBalance. destruct (v =? 0); [by apply tracks_refl|]. apply tracks_account; [done|].
  intros s1 Hw1 _ _. destruct (m_cache s1 !! a) as [x|]; [|by apply tracks_refl].
  destruct (_ <? v); [by apply tracks_refl|]. by apply addBalance_tracks.
Qed.
Lemma setBalance_tracks s a v : wf s -> tracks s (snd (setBalance a v s)).
Proof. intros Hw. apply tracks_account; [done|]. intros s1 Hw1 _ _. by apply addBalance_tracks. Qed.
Lemma transferBalance_tracks s a b v : wf s -> tracks s (snd (transferBalance a b v s)).
Proof.
  intros Hw. pose proof (subBalance_tracks s a v Hw) as Ht. unfold transferBalance, sbind.
  destruct (subBalance a v s) as [[[]|] s1]; [|done]. eapply tracks_trans; [exact Ht|].
  apply addBalance_tracks. by eapply tracks_wf.
Qed.
Lemma setStorage_tracks s a k v : contractStoragePatch = true -> wf s -> 0 <= v -> is_Some (acct s a) ->
  tracks s (snd (setStorage a k v s)).
Proof.
  intros Hp Hw Hv [x0 Hx0]. destruct (storage_spec s a k Hw) as (s1 & Hst & Hw1 & Ho & Hl & Hac).
  eapply tracks_trans; [by apply tracks_obs|]. unfold setStorage, sbind at 1. rewrite Hst.
  pose proof (obs_acct _ _ Ho a) as Ha. rewrite Hx0, Hac in Ha. inversion Ha as [? x Hxx E1 Hx|]; subst. symmetry in Hx.
  rewrite (obs_slot _ _ a k Ho). pose proof (storage_step s1 a x k v Hp Hw1 Hx Hv) as Ht.
  unfold sbind, logChange, onCached, addUsage, sgets, smodify. simpl. rewrite Hx. simpl. by destruct (_ >? _).
Qed.
Lemma code_spec s a : wf s -> exists s', code a s = (Ok (match acct s a with Some x => codeOf (m_db s) a x | None => [] end), s') /\
  wf s' /\ obs s s' /\ m_changeLog s' = m_changeLog s.
Proof.
  intros Hw. destruct (account_spec a s Hw) as (s1 & Hacc & Hw1 & Ho & Hl & Hac).
  assert (Hcode : match acct s a with Some x => codeOf (m_db s) a x | None => [] end =
                  match m_cache s1 !! a with Some x => codeOf (m_db s) a x | None => [] end).
  { rewrite <- Hac. destruct (obs_acct _ _ Ho a) as [x y Hxy|]; [apply Hxy|done]. }
  rewrite Hcode, (obs_db _ _ Ho). unfold code, sbind at 1. rewrite Hacc.
  destruct (m_cache s1 !! a) as [x|] eqn:Hx; [|by exists s1].
  pose proof (wf_acct s1 Hw1 a x Hac) as (_ & _ & Hh). revert Hh. unfold codeOf.
  destruct (Z.eqb_spec (m_codeHash x) EmptySHA3) as [|Hne]; [by exists s1|].
  destruct (m_codeCache x) as [|c cs] eqn:Hcc; [|by exists s1]. intros [|Hh]; [done|].
  unfold sbind, sgets. simpl. rewrite (wf_version s1 Hw1). cbn [negb]. rewrite Hh, Z.eqb_refl. simpl.
  destruct (put_aeq s1 a x (x <| m_codeCache := lookupCode (m_db s1) a |>)) as [Hw' Ho']; [done..| |done|].
  { split; try done. unfold codeOf; simpl. rewrite Hcc. destruct (m_codeHash x =? EmptySHA3); [done|]. by destruct (lookupCode _ _). }
  eexists. split; [done|]. split_and!; [done|by etrans|done].
Qed.
Definition canSetCode (x : Account) : bool := isDirty x && negb (m_hasNewCode x) && (m_version x =? 0).
Lemma setCode_tracks s a c v x : wf s -> m_cache s !! a = Some x -> canSetCode x = true -> tracks s (snd (setCode a c v s)).
Proof.
  intros Hw Hx Hc. unfold canSetCode in Hc. boolify. destruct Hc as [[Hd Hn] Hv].
  assert (Hacc : account a s = (Ok (Some x), s)) by (unfold account; by rewrite Hx).
  unfold setCode, addressHasCode, code, sbind at 1 2. rewrite Hacc. simpl.
  destruct (Z.eqb_spec (m_codeHash x) EmptySHA3) as [Hh|]; simpl; [|by apply tracks_refl].
  unfold sbind. rewrite Hacc, Hh, Z.eqb_refl. simpl.
  unfold sbind, logChange, onCached, smodify; simpl. rewrite Hx. by apply code_step.
Qed.

(** ** Transactions as sequences of operations *)

Inductive Op :=
| OpBalance (a : Z) | OpGetNonce (a : Z) | OpStorage (a k : Z) | OpCode (a : Z)
| OpIncNonce (a : Z) | OpSetNonce (a n : Z) | OpAddBalance (a v : Z) | OpSubBalance (a v : Z)
| OpSetBalance (a v : Z) | OpTransferBalance (from to v : Z) | OpCreateContract (a : Z)
| OpSetStorage (a k v : Z) | OpSetCode (a : Z) (c : list Z) (v : Z).
Definition discard {A} (m : SM A) : SM unit := let* x := m in sret tt.
Definition run (o : Op) : SM unit :=
  match o with
  | OpBalance a => discard (balance a)
  | OpGetNonce a => discard (getNonce a)
  | OpStorage a k => discard (storage a k)
  | OpCode a => discard (code a)
  | OpIncNonce a => incNonce a
  | OpSetNonce a n => setNonce a n
  | OpAddBalance a v => addBalance a v
  | OpSubBalance a v => subBalance a v
  | OpSetBalance a v => setBalance a v
  | OpTransferBalance a b v => transferBalance a b v
  | OpCreateContract a => createContract a
  | OpSetStorage a k v => setStorage a k v
  | OpSetCode a c v => setCode a c v
  end.
(** What the interpreter and the executive keep to: storage is written in an account that exists,
    and code is set once in an account changed in this transaction. *)
Definition admissible (s : State) (o : Op) : bool :=
  match o with
  | OpSetStorage a k v => (0 <=? v) && bool_decide (is_Some (acct s a))
  | OpSetCode a c v => match m_cache s !! a with Some x => canSetCode x | None => false end
  | _ => true
  end.
Fixpoint runOps (ops : list Op) : SM unit :=
  match ops with [] => sret tt | o :: os => run o ;; runOps os end.
Fixpoint admissibleAll (ops : list Op) (s : State) : bool :=
  match ops with
  | [] => true
  | o :: os => admissible s o && match run o s with (Ok _, s') => admissibleAll os s' | (Err _, _) => true end
  end.

Lemma tracks_discard {A} (m : SM A) s : tracks s (snd (m s)) -> tracks s (snd (discard m s)).
Proof. unfold discard, sbind. by destruct (m s) as [[]]. Qed.
Lemma run_tracks o s : contractStoragePatch = true -> wf s -> admissible s o = true -> tracks s (snd (run o s)).
Proof.
  intros Hp Hw Ha. destruct o; simpl in Ha |- *.
  - apply tracks_discard, tracks_account; [done|]. intros. by apply tracks_refl.
  - apply tracks_discard, tracks_account; [done|]. intros. by apply tracks_refl.
  - apply tracks_discard. destruct (storage_spec s a k Hw) as (s1 & -> & ? & ? & ? & _). by apply tracks_obs.
  - apply tracks_discard. destruct (code_spec s a Hw) as (s1 & -> & ? & ? & ?). by apply tracks_obs.
  - by apply incNonce_tracks.
  - by apply setNonce_tracks.
  - by apply addBalance_tracks.
  - by apply subBalance_tracks.
  - by apply setBalance_tracks.
  - by apply transferBalance_tracks.
  - by apply createContract_tracks.
  - apply andb_prop in Ha as [Hv%Z.leb_le Hs%bool_decide_eq_true]. by apply setStorage_tracks.
  - destruct (m_cache s !! a) as [x|] eqn:Hx; [|done]. by apply (setCode_tracks _ _ _ _ x).
Qed.
Lemma runOps_tracks ops s : contractStoragePatch = true -> wf s -> admissibleAll ops s = true -> tracks s (snd (runOps ops s)).
Proof.
  intros Hp. revert s. induction ops as [|o os IH]; intros s Hw Ha; [by apply tracks_refl|].
  simpl in *. apply andb_prop in Ha as [Ho Ha]. pose proof (run_tracks o s Hp Hw Ho) as Ht.
  unfold sbind. destruct (run o s) as [[[]|] s1]; [|done]. eapply tracks_trans; [exact Ht|].
  apply IH; [|done]. by eapply tracks_wf.
Qed.

(** What is tracked can be rolled back. *)
Lemma tracks_rollback s s1 : contractStoragePatch = true -> tracks s s1 ->
  exists s', rollback (savepoint s) s1 = (Ok tt, s') /\ wf s' /\ obs s s' /\ m_changeLog s' = m_changeLog s.
Proof.
  intros Hp (Hw1 & Δ & Hl & Hr). destruct (Hr s1 (m_changeLog s) Hw1) as (s' & Hrb & Hw' & Ho & Hl'); [done..|].
  exists s'. split; [|done]. unfold rollback, savepoint, sbind, sgets. rewrite Hl, length_app.
  destruct (Nat.ltb_spec (length (m_changeLog s) + length Δ) (length (m_changeLog s))); [lia|].
  replace (length (m_changeLog s) + length Δ - length (m_changeLog s))%nat with (length Δ) by lia.
  by rewrite Hrb, Hp.
Qed.


(** ** What the getters return *)

Definition field {A} (dflt : A) (f : Account -> A) (s : State) (a : Z) : A := match acct s a with Some x => f x | None => dflt end.
Lemma obs_field {A} (dflt : A) f s t a : obs s t -> (forall x y, aeq (m_db s) a x y -> f x = f y) -> field dflt f s a = field dflt f t a.
Proof. intros Ho Hf. unfold field. destruct (obs_acct _ _ Ho a) as [x y Hxy|]; [by apply Hf|done]. Qed.
(** A read: it returns [v], logs nothing, and leaves a state that shows the same. *)
Definition returns {A} (m : SM A) (s : State) (v : A) : Prop :=
  exists s', m s = (Ok v, s') /\ wf s' /\ obs s s' /\ m_changeLog s' = m_changeLog s.
Lemma returns_account {A} (k : option Account -> SM A) dflt f s a : wf s ->
  (forall x y, aeq (m_db s) a x y -> f x = f y) ->
  (forall t r, obs s t -> k r t = (Ok (match r with Some x => f x | None => dflt end), t)) ->
  returns (let* r := account a in k r) s (field dflt f s a).
Proof.
  intros Hw Hf Hk. destruct (account_spec a s Hw) as (s1 & Hacc & Hw1 & Ho & Hl & Hac).
  exists s1. split_and!; try done. unfold sbind. rewrite Hacc, Hk by done.
  rewrite (obs_field _ _ _ _ _ Ho Hf). unfold field. by rewrite Hac.
Qed.
Lemma obs_startNonce s t : obs s t -> m_accountStartNonce s = m_accountStartNonce t.
Proof. intros [Hf _ _ _]. by inversion Hf. Qed.

Ltac returns_tac := apply returns_account; [done|intros x y []; congruence|]; intros t r Ho; unfold sbind, sgets, sret;
  rewrite ?(obs_funds _ _ Ho), ?(obs_startNonce _ _ Ho); by destruct r.
Lemma balance_returns s a : wf s -> returns (balance a) s (field (m_initial_funds s) m_balance s a).
Proof. intros. returns_tac. Qed.
Lemma getNonce_returns s a : wf s -> returns (getNonce a) s (field (m_accountStartNonce s) m_nonce s a).
Proof. intros. returns_tac. Qed.
Lemma version_returns s a : wf s -> returns (version a) s (field 0 m_version s a).
Proof. intros. returns_tac. Qed.
Lemma codeHash_returns s a : wf s -> returns (codeHash a) s (field EmptySHA3 m_codeHash s a).
Proof. intros. returns_tac. Qed.
Lemma storageUsed_returns s a : wf s -> returns (storageUsed a) s (field 0 m_storageUsed s a).
Proof. intros. returns_tac. Qed.
Lemma addressInUse_returns s a : wf s -> returns (addressInUse a) s (field false (fun _ => true) s a).
Proof. intros. returns_tac. Qed.
Lemma addressHasCode_returns s a : wf s ->
  returns (addressHasCode a) s (field false (fun x => negb (m_codeHash x =? EmptySHA3)) s a).
Proof. intros. returns_tac. Qed.
Lemma storage_returns s a k : wf s -> returns (storage a k) s (field 0 (slotOf (m_db s) a k) s a).
Proof. intros Hw. destruct (storage_spec s a k Hw) as (s1 & ? & ? & ? & ? & _). by exists s1. Qed.
Lemma code_returns s a : wf s -> returns (code a) s (field [] (codeOf (m_db s) a) s a).
Proof. intros Hw. destruct (code_spec s a Hw) as (s1 & ? & ? & ? & ?). by exists s1. Qed.

(** Reads.  On a well-formed state every getter returns what the address shows (the cached
    account, else the database's record; the initial funds, the start nonce, zero or nothing for an
    address without an account), and changes nothing that is shown: what it loads, caches or evicts
    is invisible. *)
Theorem getters_return_shown s a k : wf s ->
  returns (balance a) s (field (m_initial_funds s) m_balance s a) /\
  returns (getNonce a) s (field (m_accountStartNonce s) m_nonce s a) /\
  returns (version a) s (field 0 m_version s a) /\
  returns (codeHash a) s (field EmptySHA3 m_codeHash s a) /\
  returns (storageUsed a) s (field 0 m_storageUsed s a) /\
  returns (addressInUse a) s (field false (fun _ => true) s a) /\
  returns (addressHasCode a) s (field false (fun x => negb (m_codeHash x =? EmptySHA3)) s a) /\
  returns (storage a k) s (field 0 (slotOf (m_db s) a k) s a) /\
  returns (code a) s (field [] (codeOf (m_db s) a) s a).
Proof.
  intros Hw. split_and!; auto using balance_returns, getNonce_returns, version_returns, codeHash_returns, storageUsed_returns,
    addressInUse_returns, addressHasCode_returns, storage_returns, code_returns.
Qed.

(** ** Balances *)

Abbreviation balanceOf s a := (field (m_initial_funds s) m_balance s a).
Lemma field_put {A} (dflt : A) f s a x b : field dflt f (put a x s) b = if decide (a = b) then f x else field dflt f s b.
Proof. unfold field. rewrite acct_put. by case_decide. Qed.
Lemma obs_balanceOf s t a : obs s t -> balanceOf s a = balanceOf t a.
Proof. intros Ho. rewrite <- (obs_funds _ _ Ho). apply obs_field; [done|]. by intros x y []. Qed.
Lemma balanceOf_same s t a : m_db s = m_db t -> m_cache s = m_cache t -> m_initial_funds s = m_initial_funds t ->
  balanceOf s a = balanceOf t a.
Proof. intros Hd Hc Hf. unfold field, acct. by rewrite Hd, Hc, Hf. Qed.
Lemma addBalance_write s a v s' : wf s -> addBalance a v s = (Ok tt, s') ->
  exists y s2, obs s s2 /\ m_balance y = u256 (balanceOf s a + v) /\
    m_db s' = m_db s2 /\ m_cache s' = m_cache (put a y s2) /\ m_initial_funds s' = m_initial_funds s2.
Proof.
  intros Hw. unfold addBalance.
  destruct (account_spec a s Hw) as (s1 & Hacc & Hw1 & Ho1 & _ & Hac1). unfold sbind at 1 2. rewrite Hacc.
  intros H. rewrite (obs_balanceOf _ _ a Ho1). destruct (m_cache s1 !! a) as [x|] eqn:Hx.
  - exists (acc_addBalance v x), s1. split; [done|]. unfold field. rewrite Hac1. split; [done|]. revert H.
    unfold sbind, writeAccount, logChange, smodify, sret.
    destruct (negb (isDirty x) && isEmpty x); simpl; (destruct (v =? 0); intros [= <-]; done).
  - revert H. unfold requireAccountStartNonce, sbind, sgets. destruct (m_accountStartNonce s1 =? Invalid256); [done|]. simpl.
    destruct (createAccount_spec s1 a Hw1) as (s2 & Hw2 & Ho2 & _ & Hac2 & Hcr). rewrite Hcr.
    destruct (m_cache s2 !! a) eqn:Hc2; [done|]. intros H.
    eexists (newAccount (m_accountStartNonce s1) (u256 (m_initial_funds s1 + v))), s2. split; [by etrans|].
    unfold field. rewrite Hac1. split; [done|]. revert H.
    unfold logChange, smodify, sret. simpl. destruct (v =? 0); intros [= <-]; done.
Qed.
Lemma addBalance_effect s a v s' : wf s -> addBalance a v s = (Ok tt, s') ->
  forall b, balanceOf s' b = if decide (a = b) then u256 (balanceOf s a + v) else balanceOf s b.
Proof.
  intros Hw H b. destruct (addBalance_write s a v s' Hw H) as (y & s2 & Ho & Hy & Hd & Hc & Hf).
  rewrite (balanceOf_same s' (put a y s2)) by done. rewrite field_put. case_decide; [by rewrite Hy|].
  symmetry. by apply (obs_balanceOf s s2 b).
Qed.
Lemma addBalance_result s a v : wf s -> exists r s', addBalance a v s = (r, s') /\
  (r = Ok tt \/ r = Err InvalidAccountStartNonceInState).
Proof.
  intros Hw. unfold addBalance.
  destruct (account_spec a s Hw) as (s1 & Hacc & Hw1 & Ho1 & _ & Hac1). unfold sbind at 1 2. rewrite Hacc.
  destruct (m_cache s1 !! a) as [x|] eqn:Hx.
  - unfold sbind, writeAccount, logChange, smodify, sret.
    destruct (negb (isDirty x) && isEmpty x); simpl; (destruct (v =? 0); eauto).
  - unfold requireAccountStartNonce, sbind, sgets. destruct (m_accountStartNonce s1 =? Invalid256); [simpl; eauto 6|]. simpl.
    destruct (createAccount_spec s1 a Hw1) as (s2 & Hw2 & Ho2 & _ & Hac2 & Hcr). rewrite Hcr.
    pose proof (obs_acct _ _ Ho2 a) as Ha. rewrite Hac1, Hac2 in Ha. inversion Ha.
    unfold logChange, smodify, sret. simpl. destruct (v =? 0); eauto.
Qed.
Lemma balanceOf_range s a : wf s -> 0 <= balanceOf s a < 2 ^ 256.
Proof.
  intros Hw. unfold field. destruct (acct s a) as [x|] eqn:E; [|apply Hw]. by apply (wf_acct s Hw) in E as [? _].
Qed.
Lemma subBalance_cases s a v : wf s -> 0 <= v ->
  match subBalance a v s with
  | (Ok _, s') => v <= balanceOf s a /\ forall b, balanceOf s' b = if decide (a = b) then balanceOf s a - v else balanceOf s b
  | (Err NotEnoughCash, s') => obs s s' /\ (acct s a = None \/ balanceOf s a < v)
  | (Err _, _) => False
  end.
Proof.
  intros Hw Hv. pose proof (balanceOf_range s a Hw) as Hr. unfold subBalance.
  destruct (Z.eqb_spec v 0) as [->|]; [split; [lia|]; intros b; case_decide; subst; lia|].
  destruct (account_spec a s Hw) as (s1 & Hacc & Hw1 & Ho1 & _ & Hac1). unfold sbind. rewrite Hacc.
  pose proof (obs_balanceOf _ _ a Ho1) as Hb. pose proof (obs_acct _ _ Ho1 a) as Ha. rewrite Hac1 in Ha.
  destruct (m_cache s1 !! a) as [x|] eqn:Hx; [|inversion Ha; simpl; auto].
  assert (Hbx : balanceOf s1 a = m_balance x) by (unfold field; by rewrite Hac1).
  destruct (Z.ltb_spec (m_balance x) v); [split; [done|right; lia]|].
  destruct (addBalance_result s1 a (u256 (0 - v)) Hw1) as (r2 & s2 & H2 & [->| ->]).
  - rewrite H2. split; [lia|]. intros b. rewrite (addBalance_effect s1 a _ s2 Hw1 H2).
    rewrite <- Hb, <- (obs_balanceOf _ _ b Ho1). case_decide; [|done]. unfold wrap.
    rewrite Zplus_mod_idemp_r. rewrite Z.mod_small by lia. lia.
  - exfalso. revert H2. unfold addBalance, account, sbind at 1 2. rewrite Hx.
    unfold sbind, writeAccount, logChange, smodify, sret.
    destruct (negb (isDirty x) && isEmpty x); simpl; (destruct (_ =? 0); done).
Qed.

(** Transfers conserve value.  [transferBalance] takes the value from the sender and adds it to
    the receiver (mod 2^256) and no other balance changes; a transfer to oneself changes nothing; it
    fails with [NotEnoughCash], showing nothing changed, only when the sender has no account or a
    smaller balance, and otherwise only when the chain has no start nonce for a new account. *)
Theorem transfer_moves_value s from to v : wf s -> 0 <= v ->
  match transferBalance from to v s with
  | (Ok _, s') => v <= balanceOf s from /\ forall b,
      balanceOf s' b = if decide (from = to) then balanceOf s b
                       else if decide (from = b) then balanceOf s from - v
                       else if decide (to = b) then u256 (balanceOf s to + v) else balanceOf s b
  | (Err NotEnoughCash, s') => obs s s' /\ (acct s from = None \/ balanceOf s from < v)
  | (Err e, _) => e = InvalidAccountStartNonceInState
  end.
Proof.
  intros Hw Hv. pose proof (subBalance_cases s from v Hw Hv) as Hs. pose proof (subBalance_tracks s from v Hw) as Ht.
  pose proof (balanceOf_range s from Hw) as Hr.
  unfold transferBalance, sbind. destruct (subBalance from v s) as [[[]|e] s1]; [|by destruct e].
  destruct Hs as [Hle Hb]. apply tracks_wf in Ht. simpl in Ht.
  destruct (addBalance_result s1 to v Ht) as (r2 & s2 & H2 & [->| ->]); rewrite H2; [|done].
  split; [done|]. intros b. rewrite (addBalance_effect s1 to v s2 Ht H2), !Hb.
  repeat case_decide; subst; try done. rewrite wrap_small; lia.
Qed.

(** [setBalance] sets the balance of an existing account to the value it is given; for an address
    without an account it makes the balance the initial funds plus the value. *)
Theorem setBalance_sets s a v s' : wf s -> 0 <= v < 2 ^ 256 -> setBalance a v s = (Ok tt, s') ->
  balanceOf s' a = (if decide (is_Some (acct s a)) then v else u256 (m_initial_funds s + v)) /\
  forall b, a <> b -> balanceOf s' b = balanceOf s b.
Proof.
  intros Hw Hv H. unfold setBalance in H.
  destruct (account_spec a s Hw) as (s1 & Hacc & Hw1 & Ho1 & _ & Hac1). unfold sbind in H. rewrite Hacc in H.
  pose proof (addBalance_effect s1 a _ s' Hw1 H) as He. split.
  - rewrite He, decide_True by done. rewrite <- (obs_balanceOf _ _ a Ho1).
    pose proof (obs_acct _ _ Ho1 a) as Ha. rewrite Hac1 in Ha. unfold field. inversion Ha as [x y Hxy E1 E2|E1 E2].
    + rewrite decide_True by done. rewrite <- (aeq_balance _ _ _ _ Hxy).
      unfold wrap. rewrite Zplus_mod_idemp_r. replace (m_balance x + (v - m_balance x)) with v by lia. by apply Z.mod_small.
    + rewrite decide_False by (by intros []). unfold wrap. rewrite Zplus_mod_idemp_r. f_equal. lia.
  - intros b Hb. rewrite He, decide_False by done. symmetry. by apply obs_balanceOf.
Qed.

End Claims.
Abbreviation balanceOf s a := (field (m_initial_funds s) m_balance s a).

(** ** Witnesses *)

Module Example.
(** One account at address 5: nonce 1, balance 100, no code. *)
#[export] Instance params : StateParams := {|
  sha3 := fun l => 7 + lenZ l; EmptyTrie := 9; sizeof_s256 := 48;
  contractStoragePatch := true; storageDestructionPatch := true;
  contractStorageZeroValuePatch := true; randomIndex := fun _ => O |}.
Definition db : DB := mkDB {[5 := [0xc4; 1; 100; 7; 0x80]]} {[(5, 1) := 11]} ∅ 0.
Definition st : State := mkState db 0 0 true ∅ [] ∅ 0 [] 0 1000000 ∅ 0 0.
Definition loaded : Account := loadedAccount 1 100 7 0 0.

Lemma lookup_5 a : lookupAccount db a = if decide (a = 5) then [0xc4; 1; 100; 7; 0x80] else [].
Proof. unfold lookupAccount, db; simpl. case_decide; [subst; by rewrite lookup_singleton_eq|by rewrite lookup_singleton_ne]. Qed.
Lemma decode_5 : decodeAccount [0xc4; 1; 100; 7; 0x80] = Ok loaded.
Proof. vm_compute. reflexivity. Qed.
Lemma storage_nonneg a k : 0 <= lookupStorage db a k.
Proof.
  unfold lookupStorage, db; simpl. destruct (decide ((5, 1) = (a, k))) as [<-|].
  - by rewrite lookup_singleton_eq.
  - by rewrite lookup_singleton_ne.
Qed.
Lemma st_wf : wf st.
Proof.
  split; try done; simpl.
  - intros a. rewrite lookup_5. case_decide; [|done]. exists loaded. apply decode_5.
  - apply storage_nonneg.
  - intros a x. unfold acct, dbAccount; simpl. rewrite lookup_5. case_decide; [|done]. rewrite decode_5. intros [= <-].
    split; [done|]. split; [|by left]. intros k. unfold slotOf; simpl. apply storage_nonneg.
Qed.
Definition ops : list Op :=
  [OpIncNonce 5; OpTransferBalance 5 6 30; OpStorage 5 1; OpSetStorage 5 1 0; OpSetStorage 5 2 8; OpCreateContract 8;
   OpSetCode 8 [1; 2] 0; OpSetStorage 8 1 3; OpCode 8; OpSubBalance 6 31; OpSetBalance 5 1].
End Example.
Import Example.

Lemma getters_return_shown_witness :
  returns (balance 5) st 100 /\ returns (balance 6) st 0 /\ returns (storage 5 1) st 11.
Proof.
  pose proof (getters_return_shown st 5 1 st_wf) as (Hb & _ & _ & _ & _ & _ & _ & Hs & _).
  pose proof (getters_return_shown st 6 1 st_wf) as (Hb6 & _). done.
Defined.
Lemma transfer_moves_value_witness :
  (exists s', transferBalance 5 6 30 st = (Ok tt, s')) /\
  match transferBalance 5 6 30 st with
  | (Ok _, s') => balanceOf s' 5 = 70 /\ balanceOf s' 6 = 30
  | (Err _, _) => False
  end.
Proof.
  split; [vm_compute; eauto|]. pose proof (transfer_moves_value st 5 6 30 st_wf ltac:(lia)) as H.
  destruct (transferBalance 5 6 30 st) as [[u|e] s'] eqn:E; [|vm_compute in E; discriminate].
  destruct H as [_ H]. split; rewrite H; reflexivity.
Defined.
(** The initial funds are 10 here: the balance set to 7 becomes 17. *)
Lemma setBalance_sets_witness :
  let s := st <| m_initial_funds := 10 |> in
  match setBalance 6 7 s with (Ok _, s') => balanceOf s' 6 = 17 | (Err _, _) => False end.
Proof.
  intros s. assert (Hw : wf s) by (destruct st_wf; split; try done; simpl; lia).
  destruct (setBalance 6 7 s) as [[[]|e] s'] eqn:E; [|vm_compute in E; discriminate].
  exact (proj1 (setBalance_sets s 6 7 s' Hw ltac:(lia) E)).
Defined.
