(* ===== verification/StateCommit.v ===== *)
(** * State: commit

    [commit] writes the dirty accounts of the cache to the database and empties the cache.  The
    record of an account round-trips through RLP; each turn of the loop touches the database at its
    own address only; after the commit the database shows what the cache showed. *)

From S2P Require Import Prelude CommonData Rlp State StateInv StateClaims.
From Stdlib Require Import ZArith Lia Bool.
From stdpp Require Import base list gmap sorting.
Open Scope Z_scope.
Open Scope state_scope.

Section Commit.
Context {SP : StateParams}.

(** ** The account record *)

Definition intItem (i : Z) : item := Str (toCompactBigEndian i 0).
Lemma intItem_len i : 0 <= i < 2 ^ 256 -> 0 <= lenZ (toCompactBigEndian i 0) <= 32.
Proof.
  intros Hi. pose proof (compact_small i Hi). destruct (bytesRequired_spec i) as (? & _); [lia|].
  unfold toCompactBigEndian. rewrite toBigEndian_lenZ. lia.
Qed.
Lemma intItem_enc_len i : 0 <= i < 2 ^ 256 -> 0 <= lenZ (enc (intItem i)) <= 33.
Proof.
  intros Hi. pose proof (intItem_len i Hi). simpl. unfold encStr, hdrStr, hdr.
  destruct (_ && _); [lia|]. destruct (Z.ltb_spec (lenZ (toCompactBigEndian i 0)) 56); [|lia]. rewrite lenZ_app. simpl lenZ. 
  change (lenZ [128 + lenZ (toCompactBigEndian i 0)]) with 1. lia.
Qed.
Lemma intItem_ok i : 0 <= i < 2 ^ 256 -> item_ok (intItem i).
Proof.
  intros Hi. pose proof (intItem_len i Hi). split; [apply toBigEndian_ok|]. unfold sizeLimit. lia.
Qed.
Lemma appendInt_item s i : 0 <= i < 2 ^ 256 -> appendInt s i = streamItem (intItem i) s.
Proof.
  intros Hi. pose proof (compact_small i Hi). rewrite appendInt_spec by lia.
  by rewrite streamItem_spec by (by apply intItem_ok).
Qed.

Definition record (x : Account) : list item :=
  [intItem (m_nonce x); intItem (m_balance x); intItem (m_codeHash x); intItem (m_storageUsed x)].
Definition fields_ok (x : Account) : Prop :=
  0 <= m_nonce x < 2 ^ 256 /\ 0 <= m_balance x < 2 ^ 256 /\ 0 <= m_codeHash x < 2 ^ 256 /\ 0 <= m_storageUsed x < 2 ^ 256.
Lemma record_ok x : fields_ok x -> item_ok (Lst (record x)).
Proof.
  intros (H1 & H2 & H3 & H4). split.
  - simpl. split_and!; try done; by apply intItem_ok.
  - simpl map. simpl concat. rewrite app_nil_r, !lenZ_app.
    apply intItem_enc_len in H1, H2, H3, H4. simpl enc in *. unfold sizeLimit. lia.
Qed.
Lemma encodeAccount_spec x : fields_ok x -> encodeAccount x = Ok (enc (Lst (record x))).
Proof.
  intros H. pose proof (record_ok x H) as Hok. destruct H as (H1 & H2 & H3 & H4).
  assert (E : (let? s := streamItem (Lst (record x)) emptyStream in out s) = encodeAccount x).
  { unfold encodeAccount. cbn [streamItem]. change (lenZ (record x)) with 4. unfold record.
    destruct (appendList emptyStream 4) as [r0|]; [|done]. cbn [rbind fold_left].
    rewrite (appendInt_item _ _ H1). destruct (streamItem (intItem (m_nonce x)) r0) as [r1|]; [|done]. cbn [rbind].
    rewrite (appendInt_item _ _ H2). destruct (streamItem (intItem (m_balance x)) r1) as [r2|]; [|done]. cbn [rbind].
    rewrite (appendInt_item _ _ H3). destruct (streamItem (intItem (m_codeHash x)) r2) as [r3|]; [|done]. cbn [rbind].
    by rewrite (appendInt_item _ _ H4). }
  rewrite <- E, streamItem_spec by done. done.
Qed.
Lemma decodeAccount_spec x : 32 <= sizeof_s256 -> fields_ok x ->
  decodeAccount (enc (Lst (record x))) = Ok (loadedAccount (m_nonce x) (m_balance x) (m_codeHash x) 0 (m_storageUsed x)).
Proof.
  intros Hs H. pose proof (record_ok x H) as Hok. destruct H as (H1 & H2 & H3 & H4). unfold decodeAccount.
  rewrite (RLP_ctor_reads _ _ _ _ (reads_enc (Lst (record x)) [] Hok)). cbn [rbind].
  assert (Hc : cache_ok (record x) (RLP_of (enc (Lst (record x))))) by (by left).
  destruct (index_spec (record x) _ 0 Hok Hc) as (r0 & -> & Hc0); [lia|]. cbn [rbind].
  change (snd (r0, nth (Z.to_nat 0) (map enc (record x)) [])) with (encStr (toCompactBigEndian (m_nonce x) 0)).
  rewrite toInt_compact by lia. cbn [rbind fst].
  destruct (index_spec (record x) _ 1 Hok Hc0) as (r1 & -> & Hc1); [lia|]. cbn [rbind].
  change (snd (r1, nth (Z.to_nat 1) (map enc (record x)) [])) with (encStr (toCompactBigEndian (m_balance x) 0)).
  rewrite toInt_compact by lia. cbn [rbind fst].
  destruct (index_spec (record x) _ 2 Hok Hc1) as (r2 & -> & Hc2); [lia|]. cbn [rbind].
  change (snd (r2, nth (Z.to_nat 2) (map enc (record x)) [])) with (encStr (toCompactBigEndian (m_codeHash x) 0)).
  rewrite toInt_compact by lia. cbn [rbind fst].
  destruct (index_spec (record x) _ 3 Hok Hc2) as (r3 & -> & Hc3); [lia|]. cbn [rbind].
  change (snd (r3, nth (Z.to_nat 3) (map enc (record x)) [])) with (encStr (toCompactBigEndian (m_storageUsed x) 0)).
  rewrite toInt_compact by lia. cbn [rbind fst].
  destruct (index_spec (record x) _ 4 Hok Hc3) as (r4 & -> & Hc4); [lia|]. done.
Qed.
Lemma record_nonempty x : fields_ok x -> enc (Lst (record x)) <> [].
Proof. intros H E. pose proof (enc_nonempty _ (record_ok x H)) as Hn. rewrite E in Hn. by vm_compute in Hn. Qed.

(** ** One turn of the loop *)

Definition same_at (b : Z) (d d' : DB) : Prop :=
  db_accounts d' !! b = db_accounts d !! b /\ db_code d' !! b = db_code d !! b /\
  forall k, db_storage d' !! (b, k) = db_storage d !! (b, k).
Definition kept (s : State) :=
  (m_storedVersion s, m_currentVersion s, m_writeLocked s, m_nonExistingAccountsCache s, m_accountStartNonce s, m_initial_funds s).
Definition only (a : Z) (s s' : State) : Prop :=
  kept s' = kept s /\ forall b, a <> b -> same_at b (m_db s) (m_db s') /\ m_cache s' !! b = m_cache s !! b.
#[export] Instance same_at_preorder b : PreOrder (same_at b).
Proof.
  split; [done|]. intros d1 d2 d3 (? & ? & H1) (? & ? & H2). split_and!; [congruence..|].
  intros k. by rewrite H2, H1.
Qed.
#[export] Instance only_preorder a : PreOrder (only a).
Proof.
  split; [done|]. intros s1 s2 s3 [Hk1 H1] [Hk2 H2]. split; [congruence|]. intros b Hb.
  destruct (H1 b Hb) as [? ?], (H2 b Hb) as [? ?]. split; [|congruence]. by etrans.
Qed.
Lemma same_at_storage d d' b k : same_at b d d' -> lookupStorage d' b k = lookupStorage d b k.
Proof. intros (_ & _ & H). unfold lookupStorage. by rewrite H. Qed.
Lemma same_at_account d d' b : same_at b d d' -> lookupAccount d' b = lookupAccount d b.
Proof. intros (H & _ & _). unfold lookupAccount. by rewrite H. Qed.
Lemma same_at_code d d' b : same_at b d d' -> lookupCode d' b = lookupCode d b.
Proof. intros (_ & H & _). unfold lookupCode. by rewrite H. Qed.

Lemma forEach_spec {A} (f : A -> SM unit) (R : relation State) `{!PreOrder R} (Q : A -> State -> Prop) l :
  (forall x s, exists s', f x s = (Ok tt, s') /\ R s s' /\ Q x s') -> (forall x s s', Q x s -> R s s' -> Q x s') ->
  forall s, exists s', forEach f l s = (Ok tt, s') /\ R s s' /\ forall x, x ∈ l -> Q x s'.
Proof.
  intros Hf HQ. induction l as [|x l IH]; intros s.
  - exists s. split_and!; [done..|]. by intros x ?%not_elem_of_nil.
  - destruct (Hf x s) as (s1 & H1 & HR1 & HQ1), (IH s1) as (s2 & H2 & HR2 & HQ2). exists s2. split_and!.
    + simpl. unfold sbind. by rewrite H1.
    + by etrans.
    + intros y [->|Hy]%elem_of_cons; eauto.
Qed.

Lemma insertStorage_lookup a k v d b j :
  lookupStorage (insertStorage a k v d) b j = if decide ((a, k) = (b, j)) then v else lookupStorage d b j.
Proof.
  unfold lookupStorage, insertStorage; simpl.
  destruct (contractStorageZeroValuePatch && (v =? 0)) eqn:E; case_decide as Hk.
  - rewrite <- Hk, lookup_delete_eq. apply andb_prop in E as [_ E%Z.eqb_eq]. done.
  - by rewrite lookup_delete_ne.
  - by rewrite <- Hk, lookup_insert_eq.
  - by rewrite lookup_insert_ne.
Qed.
Lemma insertStorage_same a k v d b : a <> b -> same_at b d (insertStorage a k v d).
Proof.
  intros Hb. split_and!; [done..|]. intros j. unfold insertStorage; simpl. destruct (_ && _).
  - rewrite lookup_delete_ne; [done|]. congruence.
  - rewrite lookup_insert_ne; [done|]. congruence.
Qed.

(** Storage words of [a] are kept or become zero; nothing else of the database changes. *)
Definition zeroing (a : Z) (s s' : State) : Prop :=
  only a s s' /\ db_accounts (m_db s') = db_accounts (m_db s) /\ db_code (m_db s') = db_code (m_db s) /\
  forall k, lookupStorage (m_db s') a k = lookupStorage (m_db s) a k \/ lookupStorage (m_db s') a k = 0.
#[export] Instance zeroing_preorder a : PreOrder (zeroing a).
Proof.
  split.
  - intros s. split_and!; auto. done.
  - intros s1 s2 s3 (Ho1 & Ha1 & Hc1 & Hs1) (Ho2 & Ha2 & Hc2 & Hs2). split_and!; [by etrans|congruence..|].
    intros k. destruct (Hs2 k) as [->|]; auto.
Qed.
Lemma zeroing_db a s s' : m_db s' = m_db s -> kept s' = kept s -> (forall b, a <> b -> m_cache s' !! b = m_cache s !! b) -> zeroing a s s'.
Proof. intros Hd Hk Hc. unfold zeroing, only. rewrite Hd. split_and!; auto; try done. intros b Hb. split; [done|auto]. Qed.

Definition clearTurn (a : Z) (p : Z * (Z * Z)) : SM unit :=
  clearStorageValue a (fst (snd p)) (fst (snd p)) ;;
  onCached a (acc_setStorageCache (fst (snd p)) 0) ;;
  onDb (insertStorage a (fst (snd p)) 0).
Lemma clearTurn_spec a p s : exists s', clearTurn a p s = (Ok tt, s') /\ zeroing a s s' /\ lookupStorage (m_db s') a (fst (snd p)) = 0.
Proof.
  unfold clearTurn, clearStorageValue, sbind, logChange, onCached, addUsage, onDb, smodify. eexists. split; [done|]. simpl.
  split; [|by rewrite insertStorage_lookup, decide_True].
  split; [split; [done|]|split_and!; try done].
  - intros b Hb. simpl. split; [by apply insertStorage_same|]. by rewrite !lookup_insert_ne.
  - intros k. simpl. rewrite insertStorage_lookup. case_decide; auto.
Qed.
Lemma byHash_In l m kv : (forall p q, p ∈ l -> q ∈ l -> sha3 (toBigEndian 32 (fst p)) = sha3 (toBigEndian 32 (fst q)) -> fst p = fst q) ->
  kv ∈ l -> exists v, byHash l m !! sha3 (toBigEndian 32 (fst kv)) = Some (fst kv, v).
Proof.
  induction l as [|p l IH] using rev_ind; intros Hinj Hin; [by apply not_elem_of_nil in Hin|].
  unfold byHash. rewrite foldl_snoc. fold (byHash l m).
  destruct (decide (sha3 (toBigEndian 32 (fst p)) = sha3 (toBigEndian 32 (fst kv)))) as [E|E].
  - rewrite E, lookup_insert_eq. exists (snd p). rewrite <- (Hinj p kv); [by destruct p|set_solver..|done].
  - rewrite lookup_insert_ne by done. apply IH; [intros; apply Hinj; set_solver|].
    apply elem_of_app in Hin as [|Hin]; [done|]. apply list_elem_of_singleton in Hin. congruence.
Qed.
Lemma dbStorage_In d a k v : db_storage d !! (a, k) = Some v <-> (k, v) ∈ dbStorage d a.
Proof.
  unfold dbStorage. rewrite list_elem_of_omap. split.
  - intros H. exists ((a, k), v). split; [by apply elem_of_map_to_list|]. simpl. by rewrite Z.eqb_refl.
  - intros ([[b j] w] & Hin%elem_of_map_to_list & Hb). simpl in Hb. destruct (Z.eqb_spec b a); [|done]. by simplify_eq.
Qed.

(** The keys [clearStorage] visits. *)
Definition clearKeys (s : State) (a : Z) (x : Account) : gmap Z (Z * Z) :=
  let m := byHash (dbStorage (m_db s) a) ∅ in
  if isDirty x then byHash (map_to_list (m_storageOverlay x)) m else m.
(** No two storage keys of [a] in the database have the same hash. *)
Definition distinctHashes (d : DB) (a : Z) : Prop := forall k j, is_Some (db_storage d !! (a, k)) -> is_Some (db_storage d !! (a, j)) ->
  sha3 (toBigEndian 32 k) = sha3 (toBigEndian 32 j) -> k = j.
Lemma clearKeys_In s a x k v : m_storageOverlay x = ∅ -> distinctHashes (m_db s) a -> db_storage (m_db s) !! (a, k) = Some v ->
  exists h w, clearKeys s a x !! h = Some (k, w).
Proof.
  intros Ho Hd Hk. apply dbStorage_In in Hk. unfold clearKeys. rewrite Ho, map_to_list_empty.
  destruct (byHash_In (dbStorage (m_db s) a) ∅ (k, v)) as [w Hw]; [|done|].
  - intros [k1 v1] [k2 v2] H1%dbStorage_In H2%dbStorage_In. simpl. apply Hd; eauto.
  - eexists _, w. destruct (isDirty x); exact Hw.
Qed.
Lemma clearStorage_spec s a x : m_cache s !! a = Some x -> checkVersion s = true ->
  exists s', clearStorage a s = (Ok tt, s') /\ zeroing a s s' /\
    (m_storageUsed x <> 0 -> m_storageOverlay x = ∅ -> distinctHashes (m_db s) a -> forall k, lookupStorage (m_db s') a k = 0).
Proof.
  intros Hx Hv. unfold clearStorage, account, sbind at 1, sgets. rewrite Hx. unfold sbind at 1.
  destruct ((m_storageUsed x =? 0) && _) eqn:E.
  { exists s. split_and!; [done..|]. apply andb_prop in E as [E%Z.eqb_eq _]. done. }
  unfold storage_WITHOUT_LOCK, sbind at 1 2, sgets. simpl. rewrite Hv. simpl. rewrite Hx. fold (clearKeys s a x).
  change (sret (if isDirty x then _ else _) s) with (Ok (E := StateError) (clearKeys s a x), s). cbn beta iota.
  fold (clearTurn a). set (l := merge_sort _ _).
  destruct (forEach_spec (clearTurn a) (zeroing a) (fun p s' => lookupStorage (m_db s') a (fst (snd p)) = 0) l) with (s := s)
    as (s1 & H1 & HR & HQ).
  - intros p t. apply clearTurn_spec.
  - intros p t t' Hp (_ & _ & _ & Hz). destruct (Hz (fst (snd p))) as [->|]; done.
  - unfold sbind. rewrite H1. unfold smodify, onCached. eexists. split; [done|]. split.
    + etrans; [exact HR|]. apply zeroing_db; [done..|]. intros b Hb. simpl. by rewrite lookup_insert_ne.
    + intros _ Ho Hdist k. destruct (db_storage (m_db s) !! (a, k)) as [v|] eqn:Hk.
      * destruct (clearKeys_In s a x k v Ho Hdist Hk) as (h & w & Hhw).
        apply (HQ (h, (k, w))). unfold l. rewrite merge_sort_Permutation. by apply elem_of_map_to_list.
      * destruct HR as (_ & _ & _ & Hz). simpl. destruct (Hz k) as [->|]; [|done]. unfold lookupStorage. by rewrite Hk.
Qed.

(** What the turn of account [x] at [a] makes of the database [d]. *)
Definition stored (a : Z) (x : Account) (d d' : DB) : Prop :=
  if isDirty x then
    if m_isAlive x then
      db_accounts d' !! a = Some (enc (Lst (record x))) /\
      db_code d' !! a = (if m_hasNewCode x then Some (m_codeCache x) else db_code d !! a) /\
      forall k, lookupStorage d' a k = default (lookupStorage d a k) (m_storageOverlay x !! k)
    else db_accounts d' !! a = None /\ db_code d' !! a = None /\
         (forall k, lookupStorage d' a k = lookupStorage d a k \/ lookupStorage d' a k = 0) /\
         (storageDestructionPatch = true -> m_storageUsed x <> 0 -> m_storageOverlay x = ∅ -> distinctHashes d a ->
          forall k, lookupStorage d' a k = 0)
  else same_at a d d'.
Lemma distinctHashes_same a d d1 : same_at a d d1 -> distinctHashes d a -> distinctHashes d1 a.
Proof. intros (_ & _ & Hs) Hd k j. rewrite !Hs. apply Hd. Qed.
Lemma stored_same a x d d1 d2 d3 : same_at a d d1 -> stored a x d1 d2 -> same_at a d2 d3 -> stored a x d d3.
Proof.
  intros H1 H2 H3. unfold stored in *. pose proof H1 as (Ha1 & Hc1 & _). pose proof H3 as (Ha3 & Hc3 & _).
  destruct (isDirty x); [destruct (m_isAlive x)|].
  - destruct H2 as (Ha & Hc & Hs). split_and!; [congruence|rewrite Hc3, Hc; destruct (m_hasNewCode x); congruence|].
    intros k. by rewrite (same_at_storage _ _ _ k H3), Hs, (same_at_storage _ _ _ k H1).
  - destruct H2 as (Ha & Hc & Hs & Hz). split_and!; [congruence..| |].
    + intros k. rewrite (same_at_storage _ _ _ k H3), <- (same_at_storage _ _ _ k H1). apply Hs.
    + intros Hp Hu Ho Hd k. rewrite (same_at_storage _ _ _ k H3). apply Hz; try done. by eapply distinctHashes_same.
  - etrans; [exact H1|]. by etrans.
Qed.

Definition insertAll (a : Z) (l : list (Z * Z)) (d : DB) : DB := foldl (fun d kv => insertStorage a (fst kv) (snd kv) d) d l.
Lemma forEach_insert a l s : forEach (fun kv => onDb (insertStorage a (fst kv) (snd kv))) l s
  = (Ok tt, s <| m_db := insertAll a l (m_db s) |>).
Proof.
  revert s. induction l as [|kv l IH]; intros s; [by destruct s|]. simpl. unfold sbind, onDb at 1, smodify. by rewrite IH.
Qed.
Lemma insertAll_other a l d b : a <> b -> same_at b d (insertAll a l d).
Proof. intros Hb. revert d. induction l as [|kv l IH]; intros d; [done|]. simpl. etrans; [by apply insertStorage_same|apply IH]. Qed.
Lemma insertAll_rest a l d : db_accounts (insertAll a l d) = db_accounts d /\ db_code (insertAll a l d) = db_code d.
Proof. revert d. induction l as [|kv l IH]; intros d; [done|]. simpl. by destruct (IH (insertStorage a (fst kv) (snd kv) d)) as [-> ->]. Qed.
Lemma insertAll_lookup a l d k : NoDup l.*1 ->
  lookupStorage (insertAll a l d) a k = default (lookupStorage d a k) ((list_to_map l : gmap Z Z) !! k).
Proof.
  revert d. induction l as [|[j v] l IH]; intros d Hnd; [done|]. inversion Hnd as [|? ? Hj Hnd']; subst. simpl.
  rewrite IH, insertStorage_lookup by done. destruct (decide (j = k)) as [->|].
  - rewrite lookup_insert_eq, decide_True by done. by rewrite not_elem_of_list_to_map_1.
  - rewrite lookup_insert_ne, decide_False by congruence. done.
Qed.

Lemma commitAccount_spec s a x : m_cache s !! a = Some x -> checkVersion s = true ->
  (isDirty x = true -> m_isAlive x = true -> fields_ok x) ->
  exists s', commitAccount (a, x) s = (Ok tt, s') /\ only a s s' /\ stored a x (m_db s) (m_db s').
Proof.
  intros Hx Hv Hf. unfold commitAccount, stored. simpl. destruct (isDirty x) eqn:Hd; [|by exists s].
  destruct (m_isAlive x) eqn:Hl; cbn [negb].
  - specialize (Hf eq_refl eq_refl). rewrite (encodeAccount_spec x Hf). unfold sbind, onDb at 1, smodify at 1.
    rewrite forEach_insert. simpl. set (d1 := (m_db s) <| db_accounts := _ |>).
    pose proof (insertAll_rest a (map_to_list (m_storageOverlay x)) d1) as [Ha Hc].
    assert (Hs : forall k, lookupStorage (insertAll a (map_to_list (m_storageOverlay x)) d1) a k =
                 default (lookupStorage (m_db s) a k) (m_storageOverlay x !! k)).
    { intros k. rewrite insertAll_lookup by apply NoDup_fst_map_to_list. by rewrite list_to_map_to_list. }
    assert (Ho : forall b, a <> b -> same_at b (m_db s) (insertAll a (map_to_list (m_storageOverlay x)) d1)).
    { intros b Hb. etrans; [|by apply insertAll_other]. split_and!; [|done..]. simpl. by rewrite lookup_insert_ne. }
    destruct (m_hasNewCode x); (eexists; split; [done|]); simpl; rewrite ?Ha, ?Hc; simpl; rewrite ?lookup_insert_eq.
    + split; [|by split_and!]. split; [done|]. intros b Hb. simpl. destruct (Ho b Hb) as (Hb1 & Hb2 & Hb3).
      split; [|done]. split_and!; simpl; [by rewrite Hb1|by rewrite lookup_insert_ne|by apply Hb3].
    + split; [|by split_and!]. split; [done|]. intros b Hb. split; [by apply Ho|done].
  - unfold sbind, onDb, smodify. simpl. set (s0 := s <| m_db := _ |>).
    assert (Ho : only a s s0).
    { split; [done|]. intros b Hb. split; [|done]. split_and!; simpl; [by rewrite lookup_delete_ne..|done]. }
    destruct storageDestructionPatch.
    + destruct (clearStorage_spec s0 a x Hx Hv) as (s1 & -> & (Ho1 & Ha1 & Hc1 & Hs1) & Hz). exists s1. split; [done|].
      split; [by etrans|]. rewrite Ha1, Hc1. simpl. rewrite !lookup_delete_eq. split_and!; [done..| |].
      * intros k. apply (Hs1 k).
      * intros _ Hu Hov Hdi. by apply Hz.
    + exists s0. split; [done|]. split; [done|]. simpl. rewrite !lookup_delete_eq. split_and!; [done..| |done]. intros k. by left.
Qed.

(** ** The loop *)

Lemma checkVersion_kept s s' : kept s' = kept s -> checkVersion s' = checkVersion s.
Proof. unfold kept, checkVersion. intros [=]. congruence. Qed.
Lemma commit_loop l s : NoDup l.*1 -> checkVersion s = true ->
  (forall a x, (a, x) ∈ l -> m_cache s !! a = Some x /\ (isDirty x = true -> m_isAlive x = true -> fields_ok x)) ->
  exists s', forEach commitAccount l s = (Ok tt, s') /\ kept s' = kept s /\
    (forall a x, (a, x) ∈ l -> stored a x (m_db s) (m_db s')) /\
    (forall b, b ∉ l.*1 -> same_at b (m_db s) (m_db s')).
Proof.
  revert s. induction l as [|[a x] l IH]; intros s Hnd Hv Hl.
  { exists s. split_and!; [done..| |done]. by intros a x ?%not_elem_of_nil. }
  inversion Hnd as [|? ? Hna Hnd']; subst. simpl in Hna.
  destruct (Hl a x) as [Hx Hf]; [by left|].
  destruct (commitAccount_spec s a x Hx Hv Hf) as (s1 & H1 & [Hk1 Ho1] & Hst).
  destruct (IH s1) as (s2 & H2 & Hk2 & Hs2 & Ho2).
  - done.
  - by rewrite (checkVersion_kept _ _ Hk1).
  - intros b y Hb. assert (a <> b). { intros ->. apply Hna. apply list_elem_of_fmap. by exists (b, y). }
    destruct (Ho1 b) as [_ ->]; [done|]. apply Hl. by right.
  - exists s2. split; [simpl; unfold sbind; by rewrite H1|]. split; [congruence|]. split.
    + intros b y [[= -> ->]|Hb]%elem_of_cons.
      * eapply stored_same; [done|exact Hst|]. by apply Ho2.
      * assert (a <> b). { intros ->. apply Hna. apply list_elem_of_fmap. by exists (b, y). }
        eapply stored_same; [by apply (Ho1 b)|by apply Hs2|done].
    + simpl. intros b [? ?]%not_elem_of_cons. etrans; [by apply Ho1|by apply Ho2].
Qed.

(** ** What the database shows afterwards *)

(** The account [x] of before the commit and [y] of after show the same; the version is not
    part of the record written. *)
Record persists (d d' : DB) (a : Z) (x y : Account) : Prop := mkPersists {
  per_alive : m_isAlive y = true;
  per_nonce : m_nonce y = m_nonce x; per_balance : m_balance y = m_balance x;
  per_hash : m_codeHash y = m_codeHash x; per_used : m_storageUsed y = m_storageUsed x;
  per_version : m_version y = if isDirty x then 0 else m_version x;
  per_code : codeOf d' a y = codeOf d a x;
  per_slot k : slotOf d' a k y = slotOf d a k x }.
(** What a dirty account must keep to: its fields in range, the cached originals those of the
    database, and new code marked as such. *)
Definition writable (d : DB) (a : Z) (x : Account) : Prop :=
  fields_ok x /\ (forall k v, m_storageOriginal x !! k = Some v -> v = lookupStorage d a k) /\
  (m_codeHash x = EmptySHA3 \/
   if m_hasNewCode x then m_codeCache x <> [] else m_codeCache x = [] \/ m_codeCache x = lookupCode d a).
Definition committable (s : State) : Prop := forall a x,
  m_cache s !! a = Some x -> isDirty x = true -> m_isAlive x = true -> writable (m_db s) a x.

Lemma stored_persists d d' a x : 32 <= sizeof_s256 -> isDirty x = true -> m_isAlive x = true ->
  writable d a x -> stored a x d d' -> exists y, dbAccount d' a = Some y /\ persists d d' a x y.
Proof.
  intros Hz Hd Hl (Hf & Ho & Hc) Hst. unfold stored in Hst. rewrite Hd, Hl in Hst. destruct Hst as (Ha & Hcode & Hs).
  exists (loadedAccount (m_nonce x) (m_balance x) (m_codeHash x) 0 (m_storageUsed x)). split.
  - unfold dbAccount, lookupAccount. rewrite Ha. cbn [default from_option id].
    pose proof (record_nonempty x Hf) as Hne. pose proof (decodeAccount_spec x Hz Hf) as Hdec.
    destruct (enc (Lst (record x))); [done|]. by rewrite Hdec.
  - split; try done.
    + by rewrite Hd.
    + unfold codeOf; simpl. destruct (Z.eqb_spec (m_codeHash x) EmptySHA3) as [|Hne]; [done|].
      destruct Hc as [Hc|Hc]; [done|]. unfold lookupCode. rewrite Hcode. destruct (m_hasNewCode x); simpl.
      * by destruct (m_codeCache x).
      * change (lookupCode d a = match m_codeCache x with [] => lookupCode d a | c => c end).
        destruct Hc as [->|Hc]; [done|]. destruct (m_codeCache x); [done|by rewrite Hc].
    + intros k. unfold slotOf; simpl. rewrite Hs. destruct (m_storageOverlay x !! k); [done|].
      destruct (m_storageOriginal x !! k) as [v|] eqn:Hv; [|done]. by rewrite (Ho k v Hv).
Qed.
Lemma same_persists d d' a x y : same_at a d d' -> isDirty x = false -> dbAccount d a = Some y -> aeq d a x y ->
  exists z, dbAccount d' a = Some z /\ persists d d' a x z.
Proof.
  intros Hsame Hd Hy Ha. exists y. assert (Hload : exists n b h v u, y = loadedAccount n b h v u).
  { revert Hy. unfold dbAccount. destruct (lookupAccount d a); [done|]. destruct (decodeAccount _) eqn:E; [|done].
    intros [= <-]. by apply decodeAccount_loaded in E. }
  split; [revert Hy; unfold dbAccount; by rewrite (same_at_account _ _ _ Hsame)|].
  destruct Ha, Hload as (n & b & h & v & u & ->). split; try done.
  - by rewrite Hd.
  - rewrite aeq_code. unfold codeOf. by rewrite (same_at_code _ _ _ Hsame).
  - intros k. rewrite aeq_slot. unfold slotOf. by rewrite (same_at_storage _ _ _ k Hsame).
Qed.

Definition prepared (behaviour : CommitBehaviour) (s : State) : State :=
  match behaviour with RemoveEmptyAccounts => removeEmptyAccounts s | KeepEmptyAccounts => s end.
Definition removed (x : Account) : bool := isDirty x && negb (m_isAlive x).
Lemma prepared_cache bh s a x' : m_cache (prepared bh s) !! a = Some x' -> removed x' = true \/ m_cache s !! a = Some x'.
Proof.
  destruct bh; [by right|]. simpl. rewrite lookup_fmap. destruct (m_cache s !! a) as [x|]; [|done]. simpl.
  destruct (isDirty x && State.isEmpty x); intros [= <-]; [by left|by right].
Qed.
Lemma prepared_None bh s a : m_cache (prepared bh s) !! a = None <-> m_cache s !! a = None.
Proof. destruct bh; [done|]. simpl. rewrite lookup_fmap. by destruct (m_cache s !! a). Qed.
Lemma prepared_kept bh s : kept (prepared bh s) = kept s /\ m_db (prepared bh s) = m_db s.
Proof. by destruct bh. Qed.

(** The account at [a] after the commit, given what the loop made of the database there. *)
Definition shownAfter (d d' : DB) (a : Z) (x : option Account) : Prop :=
  match x with
  | Some x => if removed x then dbAccount d' a = None else exists y, dbAccount d' a = Some y /\ persists d d' a x y
  | None => dbAccount d' a = None
  end.
Lemma loop_shows bh s d' a : wf s -> 32 <= sizeof_s256 -> committable s ->
  (forall x, m_cache (prepared bh s) !! a = Some x -> stored a x (m_db s) d') ->
  (m_cache (prepared bh s) !! a = None -> same_at a (m_db s) d') -> shownAfter (m_db s) d' a (acct (prepared bh s) a).
Proof.
  intros Hw Hz Hc Hst Hsame. unfold acct, shownAfter. destruct (prepared_kept bh s) as [_ Hdb].
  destruct (m_cache (prepared bh s) !! a) as [x|] eqn:Hx.
  - specialize (Hst x eq_refl). destruct (removed x) eqn:Hr.
    + unfold removed in Hr. apply andb_prop in Hr as [Hd Hl%negb_true_iff]. unfold stored in Hst. rewrite Hd, Hl in Hst.
      destruct Hst as (Ha & _). unfold dbAccount, lookupAccount. by rewrite Ha.
    + destruct (prepared_cache bh s a x Hx) as [|Hx']; [congruence|]. destruct (isDirty x) eqn:Hd.
      * assert (Hl : m_isAlive x = true) by (unfold removed in Hr; rewrite Hd in Hr; by apply negb_false_iff).
        by apply stored_persists; [..|apply (Hc a x Hx' Hd Hl)|].
      * destruct (wf_unchanged s Hw a x Hx' Hd) as (y & Hy & Ha). unfold stored in Hst. rewrite Hd in Hst.
        by apply (same_persists _ _ _ _ y).
  - specialize (Hsame eq_refl). rewrite Hdb. destruct (dbAccount (m_db s) a) as [y|] eqn:Hy.
    + assert (Hu : isDirty y = false).
      { revert Hy. unfold dbAccount. destruct (lookupAccount _ _); [done|]. destruct (decodeAccount _) eqn:E; [|done].
        intros [= <-]. apply decodeAccount_loaded in E as (n & b & h & v & u & ->). done. }
      unfold removed. rewrite Hu. simpl. by apply (same_persists _ _ _ _ y).
    + revert Hy. unfold dbAccount. by rewrite (same_at_account _ _ _ Hsame).
Qed.

Lemma persists_ok d d' a x y : persists d d' a x y -> acc_ok d a x -> acc_ok d' a y.
Proof.
  intros [] (Hb & Hs & Hc). split; [by rewrite per_balance0|split].
  - intros k. by rewrite per_slot0.
  - by rewrite per_hash0, per_code0.
Qed.
Lemma prepared_acct bh s a x : acct (prepared bh s) a = Some x -> removed x = false -> acct s a = Some x.
Proof.
  unfold acct. destruct (prepared_kept bh s) as [_ ->]. destruct (m_cache (prepared bh s) !! a) as [z|] eqn:Hz.
  - intros [= ->] Hr. destruct (prepared_cache bh s a x Hz) as [|Hs]; [congruence|by rewrite Hs].
  - intros Hx _. apply prepared_None in Hz. by rewrite Hz.
Qed.
Lemma shown_ok bh s d' a y : wf s -> shownAfter (m_db s) d' a (acct (prepared bh s) a) -> dbAccount d' a = Some y ->
  acc_ok d' a y.
Proof.
  intros Hw Hsh Hy. destruct (acct (prepared bh s) a) as [x|] eqn:Hx; simpl in Hsh; [|congruence].
  destruct (removed x) eqn:Hr; [congruence|]. destruct Hsh as (z & Hz & Hp). assert (z = y) as -> by congruence.
  eapply persists_ok; [exact Hp|]. apply (wf_acct s Hw). by eapply prepared_acct.
Qed.
(** The database after the loop is one the state can work on again. *)
Lemma loop_wf bh s d' : wf s -> 32 <= sizeof_s256 -> committable s ->
  (forall a x, m_cache (prepared bh s) !! a = Some x -> stored a x (m_db s) d') ->
  (forall a, m_cache (prepared bh s) !! a = None -> same_at a (m_db s) d') ->
  (forall a, lookupAccount d' a <> [] -> exists acc, decodeAccount (lookupAccount d' a) = Ok acc) /\
  (forall a k, 0 <= lookupStorage d' a k).
Proof.
  intros Hw Hz Hc Hst Hsame. split.
  - intros a Hne. destruct (m_cache (prepared bh s) !! a) as [x|] eqn:Hx.
    + pose proof (Hst a x Hx) as Hs. unfold stored in Hs. destruct (isDirty x) eqn:Hd; [destruct (m_isAlive x) eqn:Hl|].
      * destruct Hs as (Ha & _). unfold lookupAccount. rewrite Ha. eexists. apply decodeAccount_spec; [done|].
        destruct (prepared_cache bh s a x Hx) as [Hr|Hx']; [unfold removed in Hr; by rewrite Hd, Hl in Hr|].
        by destruct (Hc a x Hx' Hd Hl).
      * destruct Hs as (Ha & _). revert Hne. unfold lookupAccount. by rewrite Ha.
      * rewrite (same_at_account _ _ _ Hs) in *. by apply (wf_db s Hw).
    + rewrite (same_at_account _ _ _ (Hsame a Hx)) in *. by apply (wf_db s Hw).
  - intros a k. pose proof (wf_storage s Hw a k) as Hk. destruct (m_cache (prepared bh s) !! a) as [x|] eqn:Hx.
    + pose proof (Hst a x Hx) as Hs. unfold stored in Hs. destruct (isDirty x) eqn:Hd; [destruct (m_isAlive x) eqn:Hl|].
      * destruct Hs as (_ & _ & ->). destruct (m_storageOverlay x !! k) as [v|] eqn:Hv; [|done]. simpl.
        destruct (prepared_cache bh s a x Hx) as [Hr|Hx']; [unfold removed in Hr; by rewrite Hd, Hl in Hr|].
        assert (Ha : acct s a = Some x) by (unfold acct; by rewrite Hx').
        destruct (wf_acct s Hw a x Ha) as (_ & Hsl & _). specialize (Hsl k). unfold slotOf in Hsl. by rewrite Hv in Hsl.
      * destruct Hs as (_ & _ & Hs & _). destruct (Hs k) as [->| ->]; done.
      * by rewrite (same_at_storage _ _ _ k Hs).
    + by rewrite (same_at_storage _ _ _ k (Hsame a Hx)).
Qed.

Lemma commit_run bh s : wf s -> m_writeLocked s = true -> committable s ->
  exists s1, forEach commitAccount (map_to_list (m_cache (prepared bh s))) (prepared bh s) = (Ok tt, s1) /\ kept s1 = kept s /\
    (forall a x, m_cache (prepared bh s) !! a = Some x -> stored a x (m_db s) (m_db s1)) /\
    (forall a, m_cache (prepared bh s) !! a = None -> same_at a (m_db s) (m_db s1)) /\
    commit bh s = (Ok tt, s1 <| m_db := (m_db s1) <| db_storageUsed := totalStorageUsed_ s1 |> |>
                        <| m_storedVersion := m_storedVersion s1 + 1 |> <| m_currentVersion := m_storedVersion s1 + 1 |>
                        <| m_changeLog := [] |> <| m_cache := ∅ |> <| m_unchangedCacheEntries := [] |>).
Proof.
  intros Hw Hl Hc. destruct (prepared_kept bh s) as [Hk Hdb]. set (s0 := prepared bh s) in *.
  assert (Hv : checkVersion s0 = true) by (rewrite (checkVersion_kept _ _ Hk); apply Hw).
  destruct (commit_loop (map_to_list (m_cache s0)) s0) as (s1 & H1 & Hk1 & Hst & Hsame).
  - apply NoDup_fst_map_to_list.
  - done.
  - intros a x Hx%elem_of_map_to_list. split; [done|]. intros Hd Ha.
    destruct (prepared_cache bh s a x Hx) as [Hr|Hx']; [unfold removed in Hr; by rewrite Hd, Ha in Hr|].
    by destruct (Hc a x Hx' Hd Ha).
  - exists s1. rewrite Hdb in *. split_and!; [done|congruence| | |].
    + intros a x Hx. apply Hst. by apply elem_of_map_to_list.
    + intros a Hx. apply Hsame. rewrite list_elem_of_fmap. intros ([b y] & -> & Hy%elem_of_map_to_list). simpl in Hx. congruence.
    + assert (Hl0 : m_writeLocked s0 = true) by (unfold kept in Hk; congruence).
      unfold commit, sbind at 1. replace (match bh with KeepEmptyAccounts => _ | RemoveEmptyAccounts => _ end s) with (Ok (E := StateError) tt, s0) by (by destruct bh).
      unfold sbind at 1, sgets. simpl. rewrite Hl0, Hv. simpl. unfold sbind. by rewrite H1.
Qed.

(** Commit.  From a well-formed, write-locked state, [commit] succeeds, empties the cache and the
    change log, moves to the next version, and leaves a well-formed state whose database shows what
    the state showed: dead accounts (killed ones and, when asked to, touched empty ones) are gone and
    every other account has its nonce, balance, code hash, storage usage, code and storage words.
    The version of a changed account is lost. *)
Theorem commit_persists bh s : wf s -> m_writeLocked s = true -> 32 <= sizeof_s256 -> committable s ->
  exists s', commit bh s = (Ok tt, s') /\ wf s' /\ m_cache s' = ∅ /\ m_changeLog s' = [] /\
    m_storedVersion s' = m_storedVersion s + 1 /\
    forall a, shownAfter (m_db s) (m_db s') a (acct (prepared bh s) a).
Proof.
  intros Hw Hl Hz Hc. destruct (commit_run bh s Hw Hl Hc) as (s1 & _ & Hk & Hst & Hsame & ->).
  set (d' := (m_db s1) <| db_storageUsed := totalStorageUsed_ s1 |>).
  change (forall a x, m_cache (prepared bh s) !! a = Some x -> stored a x (m_db s) d') in Hst.
  change (forall a, m_cache (prepared bh s) !! a = None -> same_at a (m_db s) d') in Hsame.
  eexists. split; [done|]. destruct (loop_wf bh s d' Hw Hz Hc Hst Hsame) as [Hdec Hnn].
  assert (Hsh : forall a, shownAfter (m_db s) d' a (acct (prepared bh s) a)) by (intros a; apply loop_shows; auto).
  split_and!; [|done|done| |exact Hsh].
  - split; try done; simpl.
    + unfold checkVersion. simpl. apply Z.eqb_refl.
    + unfold kept in Hk. replace (m_initial_funds s1) with (m_initial_funds s) by congruence. apply Hw.
    + intros a Ha. assert (Hn : a ∈ m_nonExistingAccountsCache s) by (unfold kept in Hk; congruence).
      destruct (wf_nonexisting s Hw a Hn) as [He Hca]. split; [|done].
      by rewrite (same_at_account (m_db s) d' a (Hsame a (proj2 (prepared_None bh s a) Hca))).
    + intros a y Hy. apply (shown_ok bh s d' a y Hw (Hsh a) Hy).
  - simpl. unfold kept in Hk. congruence.
Qed.

Lemma acct_gone s a : m_cache s = ∅ -> db_accounts (m_db s) !! a = None -> acct s a = None.
Proof. intros Hc Ha. unfold acct, dbAccount, lookupAccount. by rewrite Hc, lookup_empty, Ha. Qed.
Lemma stored_dead a x d d' : isDirty x = true -> m_isAlive x = false -> stored a x d d' ->
  db_accounts d' !! a = None /\
  (storageDestructionPatch = true -> m_storageUsed x <> 0 -> m_storageOverlay x = ∅ -> distinctHashes d a ->
   forall k, lookupStorage d' a k = 0).
Proof. intros Hd Ha. unfold stored. rewrite Hd, Ha. tauto. Qed.
Lemma prepared_dead bh s a x : m_cache s !! a = Some (acc_kill x) ->
  exists y, m_cache (prepared bh s) !! a = Some (acc_kill y) /\ m_storageUsed y = m_storageUsed x.
Proof.
  intros Hx. destruct bh; [by exists x|]. simpl. rewrite lookup_fmap, Hx.
  cbn [fmap option_fmap option_map]. case_match; eauto.
Qed.

(** Self-destruction.  With the storage destruction patch, committing an account that was killed
    and that the account record says uses storage leaves no storage word of it in the database. *)
Theorem destroyed_storage_is_cleared bh s a x : wf s -> m_writeLocked s = true -> committable s ->
  storageDestructionPatch = true -> distinctHashes (m_db s) a ->
  m_cache s !! a = Some (acc_kill x) -> m_storageUsed x <> 0 ->
  exists s', commit bh s = (Ok tt, s') /\ acct s' a = None /\ forall k, lookupStorage (m_db s') a k = 0.
Proof.
  intros Hw Hl Hc Hp Hd Hx Hu. destruct (commit_run bh s Hw Hl Hc) as (s1 & _ & _ & Hst & _ & ->).
  eexists. split; [done|].
  destruct (prepared_dead bh s a x Hx) as (y & Hy & Hyu).
  destruct (stored_dead a (acc_kill y) _ _ eq_refl eq_refl (Hst a _ Hy)) as [Ha Hz]. split.
  - apply acct_gone; [reflexivity|exact Ha].
  - intros k. rewrite <- (Hz Hp ltac:(rewrite <- Hyu in Hu; exact Hu) eq_refl Hd k). reflexivity.
Qed.

End Commit.

(** ** Witnesses *)

Module CommitExample.
(** The database of [Example], with 32 bytes of storage used, and a hash without collisions. *)
#[export] Instance params : StateParams := {|
  sha3 := fun l => 7 + unbe l; EmptyTrie := 9; sizeof_s256 := 48;
  contractStoragePatch := true; storageDestructionPatch := true;
  contractStorageZeroValuePatch := true; randomIndex := fun _ => O |}.
Definition raw : list Z := [0xc4; 1; 100; 7; 32].
Definition db : DB := mkDB {[5 := raw]} {[(5, 1) := 11]} ∅ 32.
Definition loaded : Account := loadedAccount 1 100 7 0 32.
(** The account sent 30 to a new one and wrote a storage word. *)
Definition sender : Account := acc_setStorage 2 8 (acc_addBalance (-30) loaded).
Definition receiver : Account := newAccount 0 30.
Definition st (c : gmap Z Account) : State := mkState db 0 0 true c [] ∅ 0 [] 0 1000000 ∅ 32 0.

Lemma db_lookup_5 a : lookupAccount db a = if decide (a = 5) then raw else [].
Proof. unfold lookupAccount, db; simpl. case_decide; [subst; by rewrite lookup_singleton_eq|by rewrite lookup_singleton_ne]. Qed.
Lemma raw_decodes : decodeAccount raw = Ok loaded.
Proof. vm_compute. reflexivity. Qed.
Lemma db_account_5 a : dbAccount db a = if decide (a = 5) then Some loaded else None.
Proof. case_decide; [subst; vm_compute; reflexivity|]. unfold dbAccount. by rewrite db_lookup_5, decide_False. Qed.
Lemma db_storage_nonneg a k : 0 <= lookupStorage db a k.
Proof.
  unfold lookupStorage, db; simpl. destruct (decide ((5, 1) = (a, k))) as [<-|].
  - by rewrite lookup_singleton_eq.
  - by rewrite lookup_singleton_ne.
Qed.
Lemma empty_wf : wf (st ∅).
Proof.
  split; try done; simpl.
  - intros a. rewrite db_lookup_5. case_decide; [|done]. exists loaded. apply raw_decodes.
  - apply db_storage_nonneg.
  - intros a x. unfold acct; simpl. rewrite db_account_5. case_decide; [|done]. intros [= <-].
    split; [done|]. split; [|by left]. intros k. unfold slotOf; simpl. apply db_storage_nonneg.
Qed.
Lemma sender_ok : acc_ok db 5 sender.
Proof.
  split; [vm_compute; by split|]. split; [|by left]. intros k. unfold slotOf, sender, acc_setStorage; simpl.
  destruct (decide (k = 2)) as [->|]; [by rewrite lookup_insert_eq|]. rewrite lookup_insert_ne, lookup_empty by done. apply db_storage_nonneg.
Qed.
Lemma receiver_ok : acc_ok db 6 receiver.
Proof. split; [vm_compute; by split|]. split; [|by left]. intros k. apply db_storage_nonneg. Qed.
Lemma killed_ok : acc_ok db 5 (acc_kill loaded).
Proof. split; [vm_compute; by split|]. split; [|by left]. intros k. apply db_storage_nonneg. Qed.
Definition transferred : State := put 6 receiver (put 5 sender (st ∅)).
Definition killed : State := put 5 (acc_kill loaded) (st ∅).
Lemma transferred_wf : wf transferred.
Proof.
  apply wf_put; [|done|exact receiver_ok|by left]. apply wf_put; [exact empty_wf|done|exact sender_ok|by left].
Qed.
Lemma killed_wf : wf killed.
Proof. apply wf_put; [exact empty_wf|done|exact killed_ok|by left]. Qed.
Lemma transferred_committable : committable transferred.
Proof.
  intros a x Hx _ _. unfold transferred, put in Hx; simpl in Hx.
  destruct (decide (a = 6)) as [->|]; [rewrite lookup_insert_eq in Hx; injection Hx as <-|].
  { split; [vm_compute; naive_solver|]. split; [done|by left]. }
  rewrite lookup_insert_ne in Hx by done. destruct (decide (a = 5)) as [->|]; [|by rewrite lookup_insert_ne in Hx].
  rewrite lookup_insert_eq in Hx. injection Hx as <-.
  split; [vm_compute; naive_solver|]. split; [done|by left].
Qed.
Lemma killed_committable : committable killed.
Proof.
  intros a x Hx _ Hl. unfold killed, put in Hx; simpl in Hx.
  destruct (decide (a = 5)) as [->|]; [|by rewrite lookup_insert_ne in Hx]. rewrite lookup_insert_eq in Hx. by injection Hx as <-.
Qed.
Lemma killed_distinct : distinctHashes (m_db killed) 5.
Proof.
  intros k j [v Hk] [w Hj] _. simpl in Hk, Hj. apply lookup_singleton_Some in Hk as [[= <-] _], Hj as [[= <-] _]. done.
Qed.
End CommitExample.
Import CommitExample.

Lemma commit_persists_witness :
  exists s', commit KeepEmptyAccounts transferred = (Ok tt, s') /\ wf s' /\ m_cache s' = ∅ /\ m_changeLog s' = [] /\
    m_storedVersion s' = 1 /\
    forall a, shownAfter db (m_db s') a (acct transferred a).
Proof.
  apply (commit_persists KeepEmptyAccounts transferred transferred_wf eq_refl); [vm_compute; discriminate|exact transferred_committable].
Defined.
Lemma destroyed_storage_is_cleared_witness :
  lookupStorage (m_db killed) 5 1 = 11 /\
  exists s', commit RemoveEmptyAccounts killed = (Ok tt, s') /\ acct s' 5 = None /\ forall k, lookupStorage (m_db s') 5 k = 0.
Proof.
  split; [vm_compute; reflexivity|].
  apply (destroyed_storage_is_cleared RemoveEmptyAccounts killed 5 loaded killed_wf eq_refl killed_committable eq_refl killed_distinct);
    vm_compute; [reflexivity|discriminate].
Defined.
