(* ===== verification/Executive.v ===== *)
(** * Executing transactions

    libethereum/Executive.h, Executive.cpp (the checks on a transaction, message calls, contract
    creation, running the machine, refunds and fees), ExtVM.h, ExtVM.cpp (the environment of the
    interpreter, on the state), libethcore/SealEngine.cpp ([verifyTransaction]), the exceptions of
    Transaction.cpp, the call data of libethcore/Common.cpp and [State::executeTransaction].

    An [Executive] and the state it works on are threaded through a monad with exceptions.  A call or a
    creation made by the machine runs another [Executive] on the same state; [goN n] runs the machine
    with at most [n] such levels below it, and 1026 are enough.  What the code takes from elsewhere is
    the class [ExecParams].  Tracing, the file storage that precompiled contracts may change, the
    parent thread of a deep call and BLOCKHASH by contract (after the experimental fork) are not
    modelled.  An allocation of the change log beyond its maximal size throws before the operation. *)

From S2P Require Import Prelude CommonData Rlp Instruction EVMSchedule Words ExtVMFace LegacyVM ChainParams Transaction State.
From Stdlib Require Import ZArith Lia Bool.
From stdpp Require Import base list gmap.
Open Scope Z_scope.

(** ** Exceptions *)

Inductive TransactionException :=
| TE_None | TE_Unknown | TE_BadRLP | TE_InvalidFormat | TE_OutOfGasIntrinsic | TE_InvalidSignature | TE_InvalidNonce
| TE_NotEnoughCash | TE_OutOfGasBase | TE_BlockGasLimitReached | TE_BadInstruction | TE_BadJumpDestination | TE_OutOfGas
| TE_OutOfStack | TE_StackUnderflow | TE_RevertInstruction | TE_InvalidZeroSignatureFormat | TE_AddressAlreadyUsed
| TE_InvalidContractDeployer | TE_WouldNotBeInBlock.
#[export] Instance TransactionException_dec : EqDecision TransactionException.
Proof. solve_decision. Defined.

Definition toTransactionException (e : VMException) : TransactionException :=
  match e with
  | Other DevRLP => TE_BadRLP
  | Other DevOutOfGasIntrinsic => TE_OutOfGasIntrinsic
  | Other DevInvalidSignature => TE_InvalidSignature
  | Other DevInvalidNonce => TE_InvalidNonce
  | Other DevNotEnoughCash => TE_NotEnoughCash
  | Other DevBlockGasLimitReached => TE_BlockGasLimitReached
  | BadInstruction => TE_BadInstruction
  | BadJumpDestination => TE_BadJumpDestination
  | OutOfGas => TE_OutOfGas
  | OutOfStack => TE_OutOfStack
  | StackUnderflow => TE_StackUnderflow
  | InvalidContractDeployer => TE_InvalidContractDeployer
  | _ => TE_Unknown
  end.

Inductive EvmcStatus :=
| EVMC_SUCCESS | EVMC_REVERT | EVMC_OUT_OF_GAS | EVMC_UNDEFINED_INSTRUCTION | EVMC_STACK_OVERFLOW
| EVMC_STACK_UNDERFLOW | EVMC_BAD_JUMP_DESTINATION | EVMC_FAILURE.
#[export] Instance EvmcStatus_dec : EqDecision EvmcStatus.
Proof. solve_decision. Defined.
Definition transactionExceptionToEvmcStatusCode (ex : TransactionException) : EvmcStatus :=
  match ex with
  | TE_None => EVMC_SUCCESS
  | TE_RevertInstruction => EVMC_REVERT
  | TE_OutOfGas => EVMC_OUT_OF_GAS
  | TE_BadInstruction => EVMC_UNDEFINED_INSTRUCTION
  | TE_OutOfStack => EVMC_STACK_OVERFLOW
  | TE_StackUnderflow => EVMC_STACK_UNDERFLOW
  | TE_BadJumpDestination => EVMC_BAD_JUMP_DESTINATION
  | _ => EVMC_FAILURE
  end.

(** The exceptions of a transaction and of the state, as the executive sees them. *)
Definition ofTxError (e : TxError) : VMException :=
  Other match e with
        | InvalidTransactionFormat => DevInvalidTransactionFormat
        | InvalidSignature => DevInvalidSignature
        | TransactionIsUnsigned => DevTransactionIsUnsigned
        | TxRLP _ => DevRLP
        | ExternalGasException => DevExternalGas
        end.
Definition ofStateError (e : StateError) : VMException :=
  match e with
  | State.StorageOverflow => Other DevStorageOverflow
  | NotEnoughCash => Other DevNotEnoughCash
  | AssertionFailed => UndefinedBehaviour
  | _ => Other DevStateError
  end.
(** Whether [catch( Exception const& )] catches it. *)
Definition isDevException (e : VMException) : bool :=
  match e with
  | Other (StdLengthError | StdRuntimeError | NotModelled) | ProcessExit _ | UndefinedBehaviour => false
  | _ => true
  end.

(** ** Data *)

Inductive CodeDeposit := CD_None | CD_Failed | CD_Success.
Record ExecutionResult := mkResult {
  er_gasUsed : Z; er_excepted : TransactionException; er_newAddress : Z; er_output : list Z;
  er_codeDeposit : CodeDeposit; er_gasRefunded : Z; er_depositSize : Z; er_gasForDeposit : Z }.
#[export] Instance ExecutionResult_expand : Expandable ExecutionResult := fun r =>
  mkResult (er_gasUsed r) (er_excepted r) (er_newAddress r) (er_output r) (er_codeDeposit r) (er_gasRefunded r)
    (er_depositSize r) (er_gasForDeposit r).
Definition emptyResult : ExecutionResult := mkResult 0 TE_Unknown 0 [] CD_None 0 0 0.

(** The object of class [ExtVM], without the state it refers to. *)
Record ExtVM := mkExtVM { ext_ctx : ExtCtx; ext_version : Z; ext_readOnly : bool; ext_sub : SubState }.
#[export] Instance ExtVM_expand : Expandable ExtVM := fun x => mkExtVM (ext_ctx x) (ext_version x) (ext_readOnly x) (ext_sub x).

Record Executive := mkExecutive {
  m_ext : option ExtVM; m_output : list Z; m_res : option ExecutionResult; m_depth : Z; m_readOnly : bool;
  m_excepted : TransactionException; m_baseGasRequired : Z; m_gas : Z; m_t : Transaction; m_logs : list LogEntry;
  m_gasCost : Z; m_isCreation : bool; m_newAddress : Z; m_savepoint : nat }.
#[export] Instance Executive_expand : Expandable Executive := fun e =>
  mkExecutive (m_ext e) (m_output e) (m_res e) (m_depth e) (m_readOnly e) (m_excepted e) (m_baseGasRequired e)
    (m_gas e) (m_t e) (m_logs e) (m_gasCost e) (m_isCreation e) (m_newAddress e) (m_savepoint e).
Definition newExecutive (level : Z) (readOnly : bool) (res : option ExecutionResult) : Executive :=
  mkExecutive None [] res level readOnly TE_None 0 0 nullTransaction [] 0 false 0 0.

(** What the code takes from elsewhere: the chain parameters, the hashes of the blocks before one, the
    recovery of a public key, Boost's reading of a number (which throws when it cannot), the maximal size
    of the change log, and the memory behind [tierStepGas]. *)
Class ExecParams := {
  chainParams : ChainOperationParams; precedingHashes : Z -> list Z;
  recover : SignatureStruct -> Z -> option (list Z); u256OfString : list Z -> option Z; maxLogSize : Z; tierOob : Z }.

Definition c_depthLimit : Z := 1024.
Definition c_configControllerContractAddress : Z := 0xD2002000000000000000000000000000000000D2.

(** ** The monad *)

Definition XM (A : Type) : Type := Executive * State -> result VMException A * (Executive * State).
Definition xret {A} (a : A) : XM A := fun s => (Ok a, s).
Definition xbind {A B} (m : XM A) (k : A -> XM B) : XM B := fun s =>
  match m s with (Ok a, s') => k a s' | (Err e, s') => (Err e, s') end.
Definition xthrow {A} (e : VMException) : XM A := fun s => (Err e, s).
Definition xget {A} (f : Executive -> A) : XM A := fun s => (Ok (f (fst s)), s).
Definition xset (f : Executive -> Executive) : XM unit := fun s => (Ok tt, (f (fst s), snd s)).
Definition xlift {A} (r : result TxError A) : XM A := fun s =>
  (match r with Ok a => Ok a | Err e => Err (ofTxError e) end, s).
Declare Scope exec_scope.
Delimit Scope exec_scope with exec.
Notation "'let!' x := m 'in' k" := (xbind m (fun x => k))
  (at level 200, x name, m at level 100, k at level 200) : exec_scope.
Notation "m >>> k" := (xbind m (fun _ => k)) (at level 100, k at level 200, right associativity) : exec_scope.
Open Scope exec_scope.

Section Executive.
Context {SP : StateParams} {EP : ExecParams}.
Variable env : EnvInfo.

(** An operation of the state.  The log of changes is a vector. *)
Definition checked {A} (m : SM A) (s : State) : result VMException A * State :=
  match m s with
  | (r, s') => if lenZ (m_changeLog s') >? maxLogSize then (Err (Other StdLengthError), s)
               else (match r with Ok a => Ok a | Err e => Err (ofStateError e) end, s')
  end.
Definition onState {A} (m : SM A) : XM A := fun '(e, s) => match checked m s with (r, s') => (r, (e, s')) end.

(** ** Creating the environment of the machine *)

Definition initEvmSchedule (version : Z) : EVMSchedule :=
  let currentBlockSchedule := makeEvmSchedule chainParams (env_committedBlockTimestamp env) (env_number env) in
  if accountVersion currentBlockSchedule =? version then currentBlockSchedule else latestScheduleForAccountVersion version.
(** The constructor, with its assertion. *)
Definition makeExt (myAddress caller origin value gasPrice : Z) (data code : list Z) (version depth : Z)
    (isCreate staticCall readOnly : bool) : XM unit :=
  let! used := onState (addressInUse myAddress) in
  if (used : bool) then
    xset (fun e => e <| m_ext := Some (mkExtVM
      (mkExtCtx env myAddress caller origin value gasPrice data code depth isCreate staticCall (initEvmSchedule version))
      version readOnly SubState_clear) |>)
  else xthrow UndefinedBehaviour.

(** ** Message calls *)

(** The nonce of the sender of a transaction; the operation is not undone with the call. *)
Definition callNonce (p : CallParameters) : XM unit :=
  let! t := xget m_t in
  if tx_nonnull t && (negb (senderAddress p =? MaxAddress) || (env_number env <? constantinopleForkBlock (forks chainParams)))
  then onState (incNonce (senderAddress p)) else xret tt.
(** From the savepoint on; whether nothing is left to be run. *)
Definition callBody (p : CallParameters) (gasPrice origin : Z) : XM bool :=
  let! sp := onState (sgets savepoint) in
  xset (fun e => e <| m_savepoint := sp |>) >>>
  let! readOnly := xget m_readOnly in
  let! depth := xget m_depth in
  let transfer := onState (transferBalance (senderAddress p) (receiveAddress p) (valueTransfer p)) >>>
                  let! x := xget m_ext in xret (negb (bool_decide (is_Some x))) in
  if isPrecompiled chainParams (codeAddress p) (env_number env) &&
     default false (precompiledExecutionAllowedFrom chainParams (codeAddress p) (senderAddress p) readOnly) then
    let g := default 0 (costOfPrecompiled chainParams (codeAddress p) (cp_data p) (env_number env)) in
    if cp_gas p <? g then
      xset (fun e => e <| m_excepted := TE_OutOfGasBase |>) >>>
      (if env_number env >=? EIP158ForkBlock (forks chainParams) then onState (addBalance (codeAddress p) 0) else xret tt) >>>
      xret true
    else
      let '(success, output) := default (false, []) (executePrecompiled chainParams (codeAddress p) (cp_data p)) in
      xset (fun e => e <| m_gas := u256 (cp_gas p - g) |> <| m_output := output |>) >>>
      if negb success then xset (fun e => e <| m_gas := 0 |> <| m_excepted := TE_OutOfGas |>) >>> xret true
      else transfer
  else
    xset (fun e => e <| m_gas := cp_gas p |>) >>>
    let! has := onState (addressHasCode (codeAddress p)) in
    (if (has : bool) then
       let! c := onState (State.code (codeAddress p)) in
       let! _h := onState (codeHash (codeAddress p)) in
       let! version := onState (State.version (codeAddress p)) in
       makeExt (receiveAddress p) (senderAddress p) origin (apparentValue p) gasPrice (cp_data p) c version depth false
         (cp_staticCall p) readOnly
     else xret tt) >>>
    transfer.
(** [Executive::call] on parameters *)
Definition exec_call (p : CallParameters) (gasPrice origin : Z) : XM bool := callNonce p >>> callBody p gasPrice origin.

(** ** Contract creation *)

Definition revert : XM unit :=
  xset (fun e => e <| m_ext := (fun x => x <| ext_sub := SubState_clear |>) <$> m_ext e |> <| m_newAddress := 0 |>) >>>
  let! sp := xget m_savepoint in onState (rollback sp).

(** [accountAlreadyExist] *)
Definition accountAlreadyExist (a : Z) : XM bool :=
  let! has := onState (addressHasCode a) in
  if (has : bool) then xret true else let! n := onState (getNonce a) in xret (n >? 0).
(** The new account: funded, with its nonce, its storage clear. *)
Definition openAccount (sender_ a endowment : Z) : XM unit :=
  onState (transferBalance sender_ a endowment) >>>
  let! n := onState requireAccountStartNonce in
  onState (setNonce a (if env_number env >=? EIP158ForkBlock (forks chainParams) then u256 (n + 1) else n)) >>>
  onState (clearStorage a).
(** From the savepoint on. *)
Definition createBody (sender_ endowment gasPrice gas : Z) (init : list Z) (origin version : Z) : XM bool :=
  let! sp := onState (sgets savepoint) in
  xset (fun e => e <| m_savepoint := sp |> <| m_isCreation := true |> <| m_gas := gas |>) >>>
  let! newAddress := xget m_newAddress in
  let! depth := xget m_depth in
  let! used := accountAlreadyExist newAddress in
  if (used : bool) then
    xset (fun e => e <| m_gas := 0 |> <| m_excepted := TE_AddressAlreadyUsed |>) >>>
    revert >>>
    xset (fun e => e <| m_ext := None |>) >>> xret true
  else
    openAccount sender_ newAddress endowment >>>
    (match init with
     | [] => onState (setCode newAddress [] version)
     | _ => makeExt newAddress sender_ origin endowment gasPrice [] init version depth true false true
     end) >>>
    let! x := xget m_ext in xret (negb (bool_decide (is_Some x))).
Definition executeCreate (sender_ endowment gasPrice gas : Z) (init : list Z) (origin version : Z) : XM bool :=
  (if negb (sender_ =? MaxAddress) || (env_number env <? experimentalForkBlock (forks chainParams))
   then onState (incNonce sender_) else xret tt) >>>
  createBody sender_ endowment gasPrice gas init origin version.

(** The address of a new contract. *)
Definition newContractAddress (a nonce : Z) : Z :=
  right160 (sha3 (enc (Lst [Str (addressBytes a); Str (toCompactBigEndian nonce 0)]))).
Definition createOpcode (a endowment gasPrice gas : Z) (init : list Z) (origin : Z) : XM bool :=
  let! nonce := onState (getNonce a) in
  xset (fun e => e <| m_newAddress := newContractAddress a nonce |>) >>>
  let! version := onState (State.version a) in
  executeCreate a endowment gasPrice gas init origin version.
Definition create2Opcode (a endowment gasPrice gas : Z) (init : list Z) (origin salt : Z) : XM bool :=
  xset (fun e => e <| m_newAddress :=
    right160 (sha3 ([0xff] ++ addressBytes a ++ toBigEndian 32 salt ++ toBigEndian 32 (sha3 init))) |>) >>>
  let! version := onState (State.version a) in
  executeCreate a endowment gasPrice gas init origin version.

(** ** Running the machine *)

Definition isAddressWhitelistedCallData (deployer : Z) : list Z :=
  [0x13; 0xf4; 0x4d; 0x10] ++ replicate 12 0 ++ addressBytes deployer.
Definition isDeploymentAllowedCallData (origin deployer : Z) : list Z :=
  [0xd0; 0xf5; 0x57; 0xf4] ++ replicate 12 0 ++ addressBytes origin ++ replicate 12 0 ++ addressBytes deployer.

(** An operation on the environment object of this executive. *)
Definition onExtVM {A} (m : ExtVM -> EM State A) : XM A := fun '(e, s) =>
  match m_ext e with
  | None => (Err UndefinedBehaviour, (e, s))
  | Some x => match m x (mkExt s (ext_sub x)) with
              | (r, e') => (r, (e <| m_ext := Some (x <| ext_sub := sub e' |>) |>, world e'))
              end
  end.
Definition onRes (f : ExecutionResult -> ExecutionResult) : XM unit := xset (fun e => e <| m_res := f <$> m_res e |>).

Section Go.
Variable face : ExtVM -> ExtVMFace State.

(** [vm->exec( m_gas, *m_ext, _onOp )]; the interpreter ends within the fuel. *)
Definition vmExec : XM (list Z) := fun '(e, s) =>
  match m_ext e with
  | None => (Err UndefinedBehaviour, (e, s))
  | Some x =>
      match @exec State (face x) sha3 (ext_ctx x) tierOob (Z.to_nat (2 * u64 (m_gas e) + 4)) (m_gas e) (mkExt s (ext_sub x)) false with
      | None => (Err (Other NotModelled), (e, s))
      | Some (r, g, vm) =>
          (r, (e <| m_gas := g |> <| m_ext := Some (x <| ext_sub := sub (LegacyVM.m_ext vm) |>) |>, world (LegacyVM.m_ext vm)))
      end
  end.

(** Whether the creator may deploy, by the config controller contract. *)
Definition checkDeployment (x : ExtVM) : XM unit :=
  let ctx := ext_ctx x in
  let calldata := if isPatchEnabledWhen (patchTimestamps chainParams) FlexibleDeploymentPatch (env_committedBlockTimestamp env)
                  then isDeploymentAllowedCallData (origin ctx) (caller ctx) else isAddressWhitelistedCallData (caller ctx) in
  let! gas := xget m_gas in
  let! r := onExtVM (fun x => @call State (face x) (mkCallParameters SystemAddress c_configControllerContractAddress
              c_configControllerContractAddress 0 0 gas calldata false)) in
  let hex := toHex [] (output (fst r)) in
  match hex with
  | [] => xret tt
  | _ => match u256OfString hex with
         | None => xthrow (Other StdRuntimeError)
         | Some v => if v =? 0 then xthrow InvalidContractDeployer else xret tt
         end
  end.

(** Storing the code that the init code returned. *)
Definition depositCode (x : ExtVM) (out : list Z) : XM unit :=
  let sch := evmSchedule (ext_ctx x) in
  let! gas := xget m_gas in
  onRes (fun r => r <| er_gasForDeposit := gas |> <| er_depositSize := u32 (lenZ out) |>) >>>
  let! code :=
    (if lenZ out >? maxCodeSize sch then xthrow OutOfGas
     else if u64 (lenZ out * createDataGas sch) <=? gas then
       onRes (fun r => r <| er_codeDeposit := CD_Success |>) >>>
       xset (fun e => e <| m_gas := gas - u64 (lenZ out * createDataGas sch) |>) >>> xret out
     else if exceptionalFailedCodeDeposit sch then xthrow OutOfGas
     else onRes (fun r => r <| er_codeDeposit := CD_Failed |>) >>> xret []) in
  onRes (fun r => r <| er_output := code |>) >>>
  onState (setCode (myAddress (ext_ctx x)) code (ext_version x)).

(** The body of [try] in [go]. *)
Definition runFrame : XM unit :=
  let! ext := xget m_ext in
  let! isCreation := xget m_isCreation in
  match ext with
  | None => xret tt
  | Some x =>
      if (isCreation : bool) then checkDeployment x >>> let! out := vmExec in depositCode x out
      else let! out := vmExec in xset (fun e => e <| m_output := out |>)
  end.

Definition goBody : XM unit := fun s =>
  match m_ext (fst s) with
  | None => (Ok tt, s)
  | Some _ =>
      let handled :=
        match runFrame s with
        | (Ok _, s') => (Ok tt, s')
        | (Err x, s') =>
            match x with
            | RevertInstruction out =>
                (revert >>> xset (fun e => e <| m_output := out |> <| m_excepted := TE_RevertInstruction |>)) s'
            | Other e | ProcessExit e => (Err (ProcessExit e), s')
            | UndefinedBehaviour => (Err UndefinedBehaviour, s')
            | _ => (xset (fun e => e <| m_gas := 0 |> <| m_excepted := toTransactionException x |>) >>> revert) s'
            end
        end in
      match handled with
      | (Err x, s') => (Err x, s')
      | (Ok _, (e, st)) =>
          (Ok tt, (match m_output e with [] => e | out => e <| m_res := (fun r => r <| er_output := out |>) <$> m_res e |> end, st))
      end
  end.
End Go.

(** ** The environment of the machine *)

(** The state, through the object. *)
Definition onWorld {A} (m : SM A) : EM State A := fun e =>
  match checked m (world e) with (r, s') => (r, e <| world := s' |>) end.

(** A sub-call or a sub-creation: another executive on the same state, whose sub-state accrues when
    the machine ran. *)
Definition subFrame (go : XM unit) (start : XM bool) (depth : Z) (readOnly : bool) : EM State Executive := fun e =>
  match (let! done := start in
         if (done : bool) then xret None else go >>> xget (fun x => Some (ext_sub <$> m_ext x)))
        (newExecutive depth readOnly None, world e) with
  | (Err x, (_, s')) => (Err x, e <| world := s' |>)
  | (Ok accrued, (x, s')) =>
      (Ok x, mkExt s' match accrued with Some (Some sb) => SubState_add (sub e) sb | _ => sub e end)
  end.
Definition emap {A B} (f : A -> B) (m : EM State A) : EM State B := fun e =>
  match m e with (Ok a, e') => (Ok (f a), e') | (Err x, e') => (Err x, e') end.
Definition succeeded (x : Executive) : bool :=
  bool_decide (transactionExceptionToEvmcStatusCode (m_excepted x) = EVMC_SUCCESS).

Definition ext_call (go : XM unit) (x : ExtVM) (p : CallParameters) : EM State (CallResult * Z) :=
  let ctx := ext_ctx x in
  emap (fun e => (mkCallResult (succeeded e) (m_output e), m_gas e))
    (subFrame go (exec_call p (gasPrice ctx) (origin ctx)) (depth ctx + 1) (ext_readOnly x)).
Definition ext_create (go : XM unit) (x : ExtVM) (endowment io_gas : Z) (code : list Z) (op : Instruction) (salt : Z) :
    EM State (CreateResult * Z) :=
  let ctx := ext_ctx x in
  emap (fun e => (mkCreateResult (succeeded e) (m_output e) (m_newAddress e), m_gas e))
    (subFrame go
       (match op with
        | I_CREATE => createOpcode (myAddress ctx) endowment (gasPrice ctx) io_gas code (origin ctx)
        | I_CREATE2 => create2Opcode (myAddress ctx) endowment (gasPrice ctx) io_gas code (origin ctx) salt
        | _ => xthrow UndefinedBehaviour
        end) (depth ctx + 1) true).
Definition ext_exists (x : ExtVM) (a : Z) : EM State bool :=
  if eip158Mode (evmSchedule (ext_ctx x)) then onWorld (accountNonemptyAndExisting a) else onWorld (addressInUse a).
Definition ebind {A B} (m : EM State A) (k : A -> EM State B) : EM State B := fun e =>
  match m e with (Ok a, e') => k a e' | (Err x, e') => (Err x, e') end.
Definition ext_suicide (x : ExtVM) (a : Z) : EM State unit :=
  let me := myAddress (ext_ctx x) in
  ebind (onWorld (State.balance me)) (fun b =>
  ebind (onWorld (addBalance a b)) (fun _ =>
  ebind (onWorld (setBalance me 0)) (fun _ e =>
    (Ok tt, e <| sub := (sub e) <| suicides := if decide (me ∈ suicides (sub e)) then suicides (sub e) else suicides (sub e) ++ [me] |> |>)))).
Definition ext_blockHash (n : Z) : EM State Z := fun e =>
  let current := env_number env in
  if (n >=? current) || (n <? Z.max 256 current - 256) then (Ok 0, e)
  else if current <? experimentalForkBlock (forks chainParams) + 256 then
    match precedingHashes (env_parentHash env) !! Z.to_nat (current - 1 - n) with
    | Some h => (Ok h, e)
    | None => (Err UndefinedBehaviour, e)
    end
  else (Err (Other NotModelled), e).

Definition extFace (go : XM unit) (x : ExtVM) : ExtVMFace State := {|
  store n := onWorld (storage (myAddress (ext_ctx x)) n);
  setStore n v := onWorld (setStorage (myAddress (ext_ctx x)) n v);
  ExtVMFace.originalStorageValue k := onWorld (State.originalStorageValue (myAddress (ext_ctx x)) k);
  ExtVMFace.balance a := onWorld (State.balance a);
  codeAt a := onWorld (State.code a);
  codeSizeAt a := onWorld (State.codeSize a);
  codeHashAt a := ebind (ext_exists x a) (fun b => if (b : bool) then onWorld (codeHash a) else fun e => (Ok 0, e));
  exists_ a := ext_exists x a;
  suicide a := ext_suicide x a;
  create v g c i s := ext_create go x v g c i s;
  call p := ext_call go x p;
  blockHash n := ext_blockHash n |}.

(** [Executive::go], with at most [n] levels of executives below. *)
Fixpoint goN (n : nat) : XM unit :=
  match n with
  | O => xthrow (Other NotModelled)
  | S n' => goBody (extFace (goN n'))
  end.

(** ** Transactions *)

(** [assert] *)
Definition xassert (b : bool) : XM unit := if b then xret tt else xthrow UndefinedBehaviour.
Definition xcheck (bad : bool) (e : OtherException) : XM unit := if bad then xthrow (Other e) else xret tt.

(** [SealEngineFace::verifyTransaction], with the two import requirements that it tests. *)
Definition seal_verifyTransaction (basic signatures : bool) (t : Transaction) : XM unit :=
  let fk := forks chainParams in
  let number := env_number env in
  let ts := env_committedBlockTimestamp env in
  let g := if isPatchEnabledWhen (patchTimestamps chainParams) PowCheckPatch ts then gas t else nonPowGas t in
  xcheck (signatures && (number <? EIP158ForkBlock fk) && isReplayProtected t) DevInvalidSignature >>>
  xcheck (signatures && (number <? experimentalForkBlock fk) && hasZeroSignature t) DevInvalidSignature >>>
  xcheck (basic && (number >=? experimentalForkBlock fk) && hasZeroSignature t &&
          (negb (t_value t =? 0) || negb (t_gasPrice t =? 0) || negb (t_nonce t =? 0))) DevInvalidZeroSignature >>>
  (if (number >=? homesteadForkBlock fk) && signatures && hasSignature t then xlift (checkLowS t) else xret tt) >>>
  xcheck (basic && (tx_baseGasRequired t (makeEvmSchedule chainParams ts number) >? g)) DevOutOfGasIntrinsic >>>
  xcheck (env_gasUsed env + g >? env_gasLimit env) DevBlockGasLimitReached >>>
  if signatures && (number >=? EIP158ForkBlock fk)
  then xlift (checkChainId t (chainID chainParams) (skaleDisableChainIdCheck chainParams)) else xret tt.

(** [Executive::verifyTransaction] *)
Definition verifyTransaction (t : Transaction) (gasPrice : Z) (allowFuture : bool) : XM unit :=
  let! ext := xlift (hasExternalGas t) in
  xassert (negb (isInvalid t)) >>>
  xcheck (negb ext && (tx_gasPrice t <? gasPrice)) DevGasPriceTooLow >>>
  seal_verifyTransaction true true t >>>
  if hasZeroSignature t then xret tt
  else
    (if hasSignature t then
       let! from := xlift (sender sha3 recover t) in
       let! nonceReq := onState (getNonce from) in
       xcheck ((negb (t_nonce t =? nonceReq) && negb allowFuture) || ((t_nonce t <? nonceReq) && allowFuture)) DevInvalidNonce
     else xret tt) >>>
    let gasCost := if (ext : bool) then 0 else u256 (gas t * tx_gasPrice t) in
    let totalCost := t_value t + gasCost in
    let! from := xlift (sender sha3 recover t) in
    let! b := onState (State.balance from) in
    xcheck (b <? totalCost) DevNotEnoughCash.

Definition xcatch {A} (m : XM A) (handler : VMException -> XM A) : XM A := fun s =>
  match m s with
  | (Ok a, s') => (Ok a, s')
  | (Err e, s') => if isDevException e then handler e s' else (Err e, s')
  end.

Definition initialize (systemGasPrice : Z) (t : Transaction) : XM unit :=
  xset (fun e => e <| m_t := t |>) >>>
  xassert (negb (isInvalid t)) >>>
  xset (fun e => e <| m_baseGasRequired :=
    tx_baseGasRequired t (makeEvmSchedule chainParams (env_committedBlockTimestamp env) (env_number env)) |>) >>>
  xcatch (verifyTransaction t systemGasPrice false)
    (fun ex => xset (fun e => e <| m_excepted := toTransactionException ex |>) >>> xthrow ex) >>>
  xset (fun e => e <| m_gasCost := u256 (gas t * tx_gasPrice t) |>).

Definition execute : XM bool :=
  let! t := xget m_t in
  let! ext := xlift (hasExternalGas t) in
  let! from := xlift (sender sha3 recover t) in
  let! cost := xget m_gasCost in
  let! base := xget m_baseGasRequired in
  (if (ext : bool) then xret tt else onState (subBalance from cost)) >>>
  xassert (u256 base <=? gas t) >>>
  if isCreation t
  then createOpcode from (t_value t) (tx_gasPrice t) (gas t - u256 base) (t_data t) from
  else exec_call (mkCallParameters from (t_receiveAddress t) (t_receiveAddress t) (t_value t) (t_value t) (gas t - u256 base) (t_data t) false)
         (tx_gasPrice t) from.

(** [static_cast< int64_t >] of a [u256]: Boost takes the lowest 64 bits and saturates. *)
Definition toInt64 (z : Z) : Z := Z.min (u64 z) (2 ^ 63 - 1).

(** The loop over the accounts to delete. *)
Fixpoint killAll (l : list Z) : XM unit :=
  match l with [] => xret tt | a :: l' => onState (kill a) >>> killAll l' end.

(** The gas refunded for freed storage and deleted contracts. *)
Definition applyRefunds : XM unit :=
  let! t := xget m_t in
  let! ext := xget m_ext in
  match ext with
  | None => xret tt
  | Some x =>
      let sb := ext_sub x in
      let r := i64 (refunds sb + suicideRefundGas (evmSchedule (ext_ctx x)) * lenZ (suicides sb)) in
      xset (fun e => e <| m_ext := Some (x <| ext_sub := sb <| refunds := r |> |>) |>) >>>
      xassert (0 <=? r) >>>
      xset (fun e => e <| m_gas := u256 (m_gas e + Z.min (Z.quot (i64 (toInt64 (gas t) - toInt64 (m_gas e))) 2) r) |>)
  end.
Definition payFees : XM unit :=
  let! t := xget m_t in
  if tx_nonnull t then
    let! from := xlift (sender sha3 recover t) in
    let! g := xget m_gas in
    onState (addBalance from (u256 (g * tx_gasPrice t))) >>>
    onState (addBalance (env_author env) (u256 (u256 (gas t - g) * tx_gasPrice t)))
  else xret tt.
Definition finalize : XM bool :=
  applyRefunds >>>
  payFees >>>
  let! ext := xget m_ext in
  (match ext with
   | None => xret tt
   | Some x => killAll (suicides (ext_sub x)) >>> xset (fun e => e <| m_logs := logs (ext_sub x) |>)
   end) >>>
  xset (fun e => e <| m_res := (fun r => r <| er_gasUsed := u256 (gas (m_t e) - m_gas e) |> <| er_excepted := m_excepted e |>
    <| er_newAddress := m_newAddress e |> <| er_gasRefunded := match ext with Some x => refunds (ext_sub x) | None => 0 end |>)
    <$> m_res e |>) >>>
  let! ex := xget m_excepted in
  xret (bool_decide (ex = TE_None)).

(** The levels of executives that are enough: the depth limit of the machine, one more for the check
    of a deployment, and the outermost. *)
Definition maxLevels : nat := 1026.
Definition go : XM unit := goN maxLevels.

(** [State::executeTransaction] *)
Definition executeTransaction (systemGasPrice : Z) (t : Transaction) : XM bool :=
  let! savept := onState (sgets savepoint) in
  xcatch (initialize systemGasPrice t >>>
          let! done := execute in
          (if (done : bool) then xret tt else go) >>>
          finalize)
    (fun ex => onState (rollback savept) >>> xthrow ex).

End Executive.
