(* ===== verification/ExecutiveInv.v ===== *)
(** * The state during a transaction

    What the executive and the machine rely on in the state beyond its well-formedness: nonces that
    cannot wrap, words that are words, code that is bytes, no storage in an account that nobody has
    used; and how accounts evolve: they persist, one in use stays in use with its code, a changed one
    stays changed.  Every operation of the state that the executive calls keeps both. *)

From S2P Require Import Prelude CommonData Rlp Instruction EVMSchedule Words ExtVMFace LegacyVM ChainParams Transaction State StateInv StateRollback StateClaims Executive.
From Stdlib Require Import ZArith Lia Bool.
From stdpp Require Import base list gmap.
Open Scope Z_scope.
Open Scope state_scope.

Section Inv.
Context {SP : StateParams} {EP : ExecParams}.
(** A bound of the nonces at the beginning, when the log is empty. *)
Variable B : Z.

(** ** Invariant *)

(** An account with a nonce or code: no contract can be created there. *)
Definition active (x : Account) : Prop := 0 < m_nonce x \/ m_codeHash x <> EmptySHA3.

Record acc_sane (s : State) (a : Z) (x : Account) : Prop := mkAccSane {
  as_nonce : 0 <= m_nonce x <= B + lenZ (m_changeLog s);
  as_hash : is_u256 (m_codeHash x);
  as_version : m_version x = 0;
  as_new : m_codeHash x = EmptySHA3 -> m_hasNewCode x = false;
  as_slot k : is_u256 (slotOf (m_db s) a k x);
  as_code : buffer_ok (codeOf (m_db s) a x);
  as_idle : active x \/ m_storageUsed x = 0 /\ usage s a = 0 }.
Record sane (s : State) : Prop := mkSane {
  sn_acct a x : acct s a = Some x -> acc_sane s a x;
  sn_none a : acct s a = None -> usage s a = 0;
  sn_start : 0 <= m_accountStartNonce s <= B;
  sn_storage a k : is_u256 (lookupStorage (m_db s) a k) }.
Record good (s : State) : Prop := mkGood {
  gd_wf : wf s; gd_sane : sane s; gd_log : lenZ (m_changeLog s) <= maxLogSize }.

Definition evolves (s t : State) : Prop := forall a,
  (forall x, acct s a = Some x -> exists y, acct t a = Some y /\ (active x -> active y /\ m_codeHash y = m_codeHash x)) /\
  (dirty s a -> dirty t a).
#[export] Instance evolves_preorder : PreOrder evolves.
Proof.
  split.
  - intros s a. split; [|done]. intros x Hx. exists x. auto.
  - intros s t u H1 H2 a. split; [|intros Hd; by apply (H2 a), (H1 a)]. intros x Hx.
    destruct (proj1 (H1 a) x Hx) as (y & Hy & Hay). destruct (proj1 (H2 a) y Hy) as (z & Hz & Haz).
    exists z. split; [done|]. intros Hx'. destruct (Hay Hx') as [Hy' <-]. by apply Haz.
Qed.

(** From [s] to [t] in a transaction: the log can undo it. *)
Record steps (s t : State) : Prop := mkSteps {
  st_tracks : tracks s t; st_evolves : evolves s t; st_good : good t }.
Lemma steps_trans s t u : steps s t -> steps t u -> steps s u.
Proof. intros [H1 E1 _] [H2 E2 G2]. split; [by eapply tracks_trans|by etrans|done]. Qed.
Lemma steps_refl s : good s -> steps s s.
Proof. intros G. split; [apply tracks_refl, G|done|done]. Qed.

(** *** What is shown decides *)

Lemma active_aeq d a x y : aeq d a x y -> active x -> active y.
Proof. intros [] [|]; [left|right]; congruence. Qed.
Lemma acc_sane_aeq s t a x y : m_db s = m_db t -> usage s a = usage t a -> lenZ (m_changeLog s) <= lenZ (m_changeLog t) ->
  aeq (m_db s) a x y -> acc_sane s a x -> acc_sane t a y.
Proof.
  intros Hd Hu Hl Ha [Hn Hh Hv Hw Hk Hc Hi]. pose proof (active_aeq _ _ _ _ Ha) as Hact. destruct Ha. split.
  - lia.
  - congruence.
  - congruence.
  - intros E. rewrite <- aeq_new. apply Hw. congruence.
  - intros k. rewrite <- Hd, <- aeq_slot. done.
  - by rewrite <- Hd, <- aeq_code.
  - destruct Hi as [|[? ?]]; [left; auto|right; split; congruence].
Qed.
Lemma sane_obs s t : obs s t -> m_changeLog t = m_changeLog s -> sane s -> sane t.
Proof.
  intros Ho Hl [Ha Hn Hs Hk]. pose proof (obs_db _ _ Ho) as Hd. split.
  - intros a y Hy. pose proof (obs_acct _ _ Ho a) as HH. rewrite Hy in HH. inversion HH as [x ? Hxy E|]; subst.
    eapply acc_sane_aeq; [done|apply (obs_usage _ _ Ho)|rewrite Hl; lia|done|]. apply Ha. congruence.
  - intros a Hy. pose proof (obs_acct _ _ Ho a) as HH. rewrite Hy in HH. inversion HH as [|E]; subst.
    rewrite <- (obs_usage _ _ Ho). by apply Hn.
  - by rewrite <- (obs_startNonce _ _ Ho).
  - by rewrite <- Hd.
Qed.
Lemma evolves_obs s t : obs s t -> evolves s t.
Proof.
  intros Ho a. split; [|apply (obs_dirty _ _ Ho)]. intros x Hx. pose proof (obs_acct _ _ Ho a) as HH. rewrite Hx in HH.
  inversion HH as [? y Hxy E1 E2|]; subst. exists y. split; [done|]. intros Hax. split; [by eapply active_aeq|].
  symmetry. apply Hxy.
Qed.
Lemma steps_obs s t : good s -> wf t -> obs s t -> m_changeLog t = m_changeLog s -> steps s t.
Proof.
  intros [Hw Hs Hl] Hwt Ho Hlog. split; [by apply tracks_obs|by apply evolves_obs|].
  split; [done|by eapply sane_obs|by rewrite Hlog].
Qed.

Lemma obs_None s t a : obs s t -> acct s a = None -> acct t a = None.
Proof. intros Ho Ha. pose proof (obs_acct _ _ Ho a) as HH. rewrite Ha in HH. by inversion HH. Qed.
Lemma obs_None' s t a : obs s t -> acct t a = None -> acct s a = None.
Proof. intros Ho Ha. pose proof (obs_acct _ _ Ho a) as HH. rewrite Ha in HH. by inversion HH. Qed.

(** *** Writing one account *)

Record wrote (s : State) (a : Z) (x : Account) (t : State) : Prop := mkWrote {
  wr_db : m_db t = m_db s; wr_cache : m_cache t = <[a := x]> (m_cache s);
  wr_start : m_accountStartNonce t = m_accountStartNonce s;
  wr_usage b : b <> a -> usage t b = usage s b;
  wr_log : lenZ (m_changeLog s) <= lenZ (m_changeLog t) }.
Lemma acct_wrote s a x t b : wrote s a x t -> acct t b = if decide (a = b) then Some x else acct s b.
Proof.
  intros [Hd Hc _ _ _]. unfold acct. rewrite Hc, Hd. case_decide; [subst; by rewrite lookup_insert_eq|by rewrite lookup_insert_ne].
Qed.
Lemma wrote_evolves s a x t : wrote s a x t -> isDirty x = true ->
  (forall y, acct s a = Some y -> active y -> active x /\ m_codeHash x = m_codeHash y) -> evolves s t.
Proof.
  intros Hw Hd Hx b. split.
  - intros y Hy. rewrite (acct_wrote _ _ _ _ b Hw). case_decide; [subst|by eauto]. exists x. split; [done|]. by apply Hx.
  - intros (y & Hy & Hdy). exists (if decide (a = b) then x else y). rewrite (wr_cache _ _ _ _ Hw).
    case_decide; [subst; by rewrite lookup_insert_eq|by rewrite lookup_insert_ne].
Qed.
Lemma wrote_sane s a x t : wrote s a x t -> sane s -> acc_sane t a x -> sane t.
Proof.
  intros Hw [Ha Hn Hs Hk] Hx. split.
  - intros b y. rewrite (acct_wrote _ _ _ _ b Hw). case_decide as E; [by intros [= <-]; subst|]. intros Hy.
    eapply (acc_sane_aeq s); [by rewrite (wr_db _ _ _ _ Hw)|symmetry; apply Hw; congruence|apply Hw|reflexivity|by apply Ha].
  - intros b. rewrite (acct_wrote _ _ _ _ b Hw). case_decide as E; [done|]. intros Hb.
    rewrite (wr_usage _ _ _ _ Hw) by congruence. by apply Hn.
  - by rewrite (wr_start _ _ _ _ Hw).
  - by rewrite (wr_db _ _ _ _ Hw).
Qed.

(** *** Operations *)

(** Code and storage accounting as they were, for every account. *)
Abbreviation hashOf s a := (field EmptySHA3 m_codeHash s a).
Record soft (s t : State) : Prop := mkSoft {
  sf_usage b : usage t b = usage s b; sf_used b : field 0 m_storageUsed t b = field 0 m_storageUsed s b;
  sf_hash b : hashOf t b = hashOf s b }.
#[export] Instance soft_preorder : PreOrder soft.
Proof. split; [done|]. intros s t u [] []. split; intros; congruence. Qed.
Lemma soft_obs s t : obs s t -> soft s t.
Proof.
  intros Ho. split; intros b; symmetry; [apply (obs_usage _ _ Ho)|apply obs_field; [done|by intros ? ? []]..].
Qed.
Lemma wrote_soft s a x t : wrote s a x t -> usage t a = usage s a -> m_storageUsed x = field 0 m_storageUsed s a ->
  m_codeHash x = hashOf s a -> soft s t.
Proof.
  intros Hw Hu Hs Hh. split; intros b.
  - destruct (decide (b = a)) as [->|]; [done|by apply Hw].
  - unfold field at 1. rewrite (acct_wrote _ _ _ _ b Hw). case_decide; [by subst|done].
  - unfold field at 1. rewrite (acct_wrote _ _ _ _ b Hw). case_decide; [by subst|done].
Qed.

(** The operation [m] keeps everything, with a result and a state in [R]. *)
Definition op_ok {A} (m : SM A) (s : State) (R : result StateError A -> State -> Prop) : Prop :=
  exists r t, m s = (r, t) /\ tracks s t /\ evolves s t /\ sane t /\ R r t.
Lemma op_ok_mono {A} (m : SM A) s (R R' : result StateError A -> State -> Prop) :
  op_ok m s R -> (forall r t, R r t -> R' r t) -> op_ok m s R'.
Proof. intros (r & t & E & Ht & Hev & Hsn & HR) H. exists r, t. split_and!; auto. Qed.
Lemma op_ok_bind {A C} (m : SM A) (k : A -> SM C) s R R' : op_ok m s R ->
  (forall a t, wf t -> sane t -> lenZ (m_changeLog s) <= lenZ (m_changeLog t) -> R (Ok a) t -> op_ok (k a) t R') ->
  (forall e t, R (Err e) t -> R' (Err e) t) -> op_ok (sbind m k) s R'.
Proof.
  intros (r & t & E & Ht & Hev & Hsn & HR) Hk He. unfold op_ok, sbind. rewrite E. destruct r as [a|e].
  - assert (Hl : lenZ (m_changeLog s) <= lenZ (m_changeLog t)).
    { destruct Ht as (_ & Δ & -> & _). rewrite lenZ_app. pose proof (lenZ_nonneg Δ). lia. }
    destruct (Hk a t (tracks_wf _ _ Ht) Hsn Hl HR) as (r & u & E' & Ht' & Hev' & Hsn' & HR'). exists r, u.
    split_and!; [done|by eapply tracks_trans|by etrans|done|done].
  - exists (Err e), t. split_and!; auto.
Qed.
Lemma op_ok_returns {A} (m : SM A) s v : wf s -> sane s -> returns m s v ->
  op_ok m s (fun r t => r = Ok v /\ obs s t /\ m_changeLog t = m_changeLog s).
Proof.
  intros Hw Hs (t & E & Hwt & Ho & Hl). exists (Ok v), t. split_and!; try done.
  - by apply tracks_obs.
  - by apply evolves_obs.
  - by eapply sane_obs.
Qed.
Lemma op_ok_account {C} a (k : option Account -> SM C) s R : wf s -> sane s ->
  (forall t, wf t -> sane t -> obs s t -> m_changeLog t = m_changeLog s -> acct t a = m_cache t !! a ->
     op_ok (k (m_cache t !! a)) t R) ->
  op_ok (let* r := account a in k r) s R.
Proof.
  intros Hw Hs Hk. destruct (account_spec a s Hw) as (t & Hacc & Hwt & Ho & Hl & Hac).
  destruct (Hk t Hwt (sane_obs _ _ Ho Hl Hs) Ho Hl Hac) as (r & u & E & Ht & Hev & Hsn & HR). exists r, u.
  unfold sbind. rewrite Hacc. split_and!; try done.
  - eapply tracks_trans; [by apply tracks_obs|done].
  - etrans; [by apply evolves_obs|done].
Qed.
Lemma op_ok_start {C} s (k : Z -> SM C) R : sane s -> B < Invalid256 ->
  op_ok (k (m_accountStartNonce s)) s R -> op_ok (let* n := requireAccountStartNonce in k n) s R.
Proof.
  intros Hs HB (r & t & E & ?). exists r, t. split; [|done]. unfold requireAccountStartNonce, sbind, sgets. pose proof (sn_start s Hs).
  destruct (Z.eqb_spec (m_accountStartNonce s) Invalid256); [lia|]. exact E.
Qed.

(** *** The operations of the executive *)

Context (sha3_word : forall bs, is_u256 (sha3 bs)) (HB : B + maxLogSize + 1 < Invalid256) (Hmax : 0 <= maxLogSize).

Lemma op_ok_write {A} (m : SM A) s r t s1 a x R :
  m s = (r, t) -> tracks s (snd (m s)) -> sane s1 -> obs s s1 -> wrote s1 a x t -> isDirty x = true ->
  (forall y, acct s1 a = Some y -> active y -> active x /\ m_codeHash x = m_codeHash y) -> acc_sane t a x -> R r t -> op_ok m s R.
Proof.
  intros E Ht Hs Ho Hw Hd Hy Hx HR. rewrite E in Ht. exists r, t. split_and!; try done.
  - etrans; [by apply evolves_obs|]. by eapply wrote_evolves.
  - by eapply wrote_sane.
Qed.
(** An account changed in its balance or its nonce. *)
Lemma acc_sane_change s t a x y : m_db t = m_db s -> usage t a = usage s a -> lenZ (m_changeLog s) <= lenZ (m_changeLog t) ->
  m_codeHash y = m_codeHash x -> m_version y = m_version x -> m_hasNewCode y = m_hasNewCode x -> m_storageUsed y = m_storageUsed x ->
  m_storageOverlay y = m_storageOverlay x -> m_storageOriginal y = m_storageOriginal x -> m_codeCache y = m_codeCache x ->
  0 <= m_nonce y <= B + lenZ (m_changeLog t) -> (0 < m_nonce x -> 0 < m_nonce y) -> acc_sane s a x -> acc_sane t a y.
Proof.
  intros Hd Hu Hl Eh Ev En Eu Eo Eg Ec Hnn Hpos [Hn Hh Hv Hw Hk Hc Hi]. split.
  - lia.
  - congruence.
  - congruence.
  - rewrite Eh, En. done.
  - intros k. specialize (Hk k). unfold slotOf in *. by rewrite Eo, Eg, Hd.
  - unfold codeOf in *. by rewrite Eh, Ec, Hd.
  - destruct Hi as [[|]|[? ?]]; [left; left; auto|left; right; congruence|right; split; congruence].
Qed.
Lemma acc_sane_new s t a n b : sane s -> m_db t = m_db s -> usage t a = 0 -> 0 <= n <= B + lenZ (m_changeLog t) ->
  acc_sane t a (newAccount n b).
Proof.
  intros Hs Hd Hu Hn. split; try done.
  - apply sha3_word.
  - intros k. unfold slotOf; simpl. rewrite Hd. apply Hs.
  - unfold codeOf; simpl. rewrite Z.eqb_refl. split; [constructor|done].
  - by right.
Qed.
Lemma dirty_wrote s a x t : wrote s a x t -> isDirty x = true -> dirty t a.
Proof. intros Hw Hx. exists x. by rewrite (wr_cache _ _ _ _ Hw), lookup_insert_eq. Qed.
Lemma usage_same (s t : State) a : storageUsage s = storageUsage t -> usage s a = usage t a.
Proof. unfold usage. by intros ->. Qed.

(** What an operation on balances and nonces leaves of the account [a]. *)
Definition touched (s : State) (a : Z) (r : result StateError unit) (t : State) : Prop :=
  r = Ok tt /\ soft s t /\ dirty t a.

(** No balance falls. *)
Definition richer (s t : State) : Prop := forall b, field 0 m_balance s b <= field 0 m_balance t b.
Lemma richer_obs s t : obs s t -> richer s t.
Proof. intros Ho b. rewrite (obs_field 0 m_balance _ _ b Ho); [done|]. by intros ? ? []. Qed.
Lemma wrote_richer s a x t : wrote s a x t -> field 0 m_balance s a <= m_balance x -> richer s t.
Proof. intros Hw Hx b. unfold field at 2. rewrite (acct_wrote _ _ _ _ b Hw). case_decide; [by subst|done]. Qed.
#[export] Instance richer_trans : Transitive richer.
Proof. intros s t u H1 H2 b. specialize (H1 b). specialize (H2 b). lia. Qed.

Lemma createAccount_ok s a n b : wf s -> sane s -> acct s a = None -> 0 <= b < 2 ^ 256 -> 0 <= n <= B + 1 ->
  op_ok (createAccount a (newAccount n b)) s (fun r t => touched s a r t /\ richer s t /\ field 0 m_nonce t a = n).
Proof.
  intros Hw Hs Ha Hb Hn. destruct (createAccount_spec s a Hw) as (s1 & Hw1 & Ho & Hl & Hac & Hcr).
  pose proof (obs_None _ _ a Ho Ha) as E. rewrite Hac in E.
  assert (Hs1 : sane s1) by (by eapply sane_obs). specialize (Hcr (newAccount n b)). rewrite E in Hcr.
  assert (Hwr : wrote s1 a (newAccount n b) (created a (newAccount n b) s1)).
  { split; try done. simpl. rewrite lenZ_app. pose proof (lenZ_nonneg [ChangeCreate a]). lia. }
  assert (Hu : usage s1 a = 0) by (apply Hs1; congruence).
  eapply op_ok_write; [exact Hcr|by apply createAccount_tracks|done|done|exact Hwr|done| | |].
  - intros y. rewrite Hac. congruence.
  - eapply acc_sane_new; [exact Hs1|done|by rewrite <- Hu|]. simpl. rewrite lenZ_app. change (lenZ [ChangeCreate a]) with 1.
    pose proof (lenZ_nonneg (m_changeLog s1)). lia.
  - split; [split; [done|]; split; [|by eapply dirty_wrote]|].
    + etrans; [by apply soft_obs|]. apply (wrote_soft _ _ _ _ Hwr); [done|..]; unfold field; by rewrite Hac, E.
    + split.
      * etrans; [by apply richer_obs|]. apply (wrote_richer _ _ _ _ Hwr). unfold field. rewrite Hac, E. simpl. lia.
      * unfold field. rewrite (acct_wrote _ _ _ _ a Hwr). by rewrite decide_True.
Qed.

Lemma incNonce_ok s a : wf s -> sane s -> lenZ (m_changeLog s) <= maxLogSize ->
  op_ok (incNonce a) s (fun r t => touched s a r t /\ richer s t).
Proof.
  intros Hw Hs Hlog. destruct (account_spec a s Hw) as (s1 & Hacc & Hw1 & Ho & Hl & Hac).
  assert (Hs1 : sane s1) by (by eapply sane_obs). destruct (m_cache s1 !! a) as [x|] eqn:Hx.
  - pose proof (sn_acct s1 Hs1 a x Hac) as Hsx. pose proof (as_nonce _ _ _ Hsx) as Hnx. unfold Invalid256 in *.
    assert (Hn : u256 (m_nonce x + 1) = m_nonce x + 1) by (apply wrap_small; rewrite Hl in Hnx; lia).
    set (t := (put a (acc_incNonce x) s1) <| m_changeLog := m_changeLog s1 ++ [ChangeNonce a (m_nonce x)] |>).
    assert (Hm : incNonce a s = (Ok tt, t)) by (unfold incNonce, sbind; by rewrite Hacc).
    assert (Hlt : lenZ (m_changeLog t) = lenZ (m_changeLog s1) + 1) by (simpl; by rewrite lenZ_app).
    assert (Hwr : wrote s1 a (acc_incNonce x) t) by (split; try done; lia).
    eapply op_ok_write; [exact Hm|by apply incNonce_tracks|exact Hs1|done|exact Hwr|done| | |].
    + intros y. rewrite Hac. intros [= <-] [Ha|Ha]; (split; [|done]); [left|by right]. simpl. lia.
    + apply (acc_sane_change s1 _ _ x); try done; [lia|..]; change (m_nonce (acc_incNonce x)) with (u256 (m_nonce x + 1)); lia.
    + split; [split; [done|]; split; [|by eapply dirty_wrote]|].
      * etrans; [by apply soft_obs|]. apply (wrote_soft _ _ _ _ Hwr); [done|unfold field; by rewrite Hac|unfold field; by rewrite Hac].
      * etrans; [by apply richer_obs|]. apply (wrote_richer _ _ _ _ Hwr). unfold field. by rewrite Hac.
  - apply (op_ok_account a _ s _ Hw Hs). intros t Hwt Hst Hot Hlt Hact.
    pose proof (obs_None _ _ a Hot (obs_None' _ _ a Ho Hac)) as E. rewrite Hact in E. rewrite E. apply op_ok_start; [done|unfold Invalid256 in *; lia|]. unfold sbind, sgets.
    assert (Hst' := sn_start t Hst). rewrite wrap_small by (unfold Invalid256 in *; lia).
    eapply op_ok_mono; [apply createAccount_ok; [done|done|by rewrite Hact|apply Hwt|lia]|].
    intros r u ((-> & Hso & Hd) & Hri & _). split; [split; [done|]; split; [|done]|].
    + etrans; [by apply soft_obs|done].
    + etrans; [by apply richer_obs|done].
Qed.

Lemma setNonce_ok s a n : wf s -> sane s -> 0 < n <= B + 1 ->
  op_ok (setNonce a n) s (fun r t => touched s a r t /\ field 0 m_nonce t a = n).
Proof.
  intros Hw Hs Hn. destruct (account_spec a s Hw) as (s1 & Hacc & Hw1 & Ho & Hl & Hac).
  assert (Hs1 : sane s1) by (by eapply sane_obs). destruct (m_cache s1 !! a) as [x|] eqn:Hx.
  - pose proof (sn_acct s1 Hs1 a x Hac) as Hsx.
    set (t := (put a (acc_setNonce n x) s1) <| m_changeLog := m_changeLog s1 ++ [ChangeNonce a (m_nonce x)] |>).
    assert (Hm : setNonce a n s = (Ok tt, t)) by (unfold setNonce, sbind; by rewrite Hacc).
    assert (Hlt : lenZ (m_changeLog t) = lenZ (m_changeLog s1) + 1) by (simpl; by rewrite lenZ_app).
    pose proof (lenZ_nonneg (m_changeLog s1)).
    assert (Hwr : wrote s1 a (acc_setNonce n x) t) by (split; try done; lia).
    eapply op_ok_write; [exact Hm|by apply setNonce_tracks|exact Hs1|done|exact Hwr|done| | |].
    + intros y. rewrite Hac. intros [= <-] [Ha|Ha]; (split; [|done]); [left|by right]. simpl. lia.
    + apply (acc_sane_change s1 _ _ x); try done; [lia|..]; change (m_nonce (acc_setNonce n x)) with n; lia.
    + split; [split; [done|]; split; [|by eapply dirty_wrote]|].
      * etrans; [by apply soft_obs|]. apply (wrote_soft _ _ _ _ Hwr); [done|unfold field; by rewrite Hac|unfold field; by rewrite Hac].
      * unfold field. rewrite (acct_wrote _ _ _ _ a Hwr). by rewrite decide_True.
  - apply (op_ok_account a _ s _ Hw Hs). intros t Hwt Hst Hot Hlt Hact.
    pose proof (obs_None _ _ a Hot (obs_None' _ _ a Ho Hac)) as E. rewrite Hact in E. rewrite E. unfold sbind, sgets.
    eapply op_ok_mono; [apply createAccount_ok; [done|done|by rewrite Hact|apply Hwt|lia]|].
    intros r u ((-> & Hso & Hd) & _ & Hn'). split; [split; [done|]; split; [|done]|done]. etrans; [by apply soft_obs|done].
Qed.

(** [addBalance] as one write. *)
Lemma addBalance_wrote s a v : wf s -> sane s -> exists y s2 t, addBalance a v s = (Ok tt, t) /\ obs s s2 /\ sane s2 /\ wrote s2 a y t /\
    isDirty y = true /\ usage t a = usage s2 a /\ m_storageUsed y = field 0 m_storageUsed s2 a /\ m_codeHash y = hashOf s2 a /\
    (forall x, acct s2 a = Some x -> m_nonce y = m_nonce x) /\ acc_sane t a y /\
    m_balance y = u256 (field (m_initial_funds s2) m_balance s2 a + v).
Proof.
  intros Hw Hs. destruct (account_spec a s Hw) as (s1 & Hacc & Hw1 & Ho & Hl & Hac).
  assert (Hs1 : sane s1) by (by eapply sane_obs).
  unfold addBalance. unfold sbind at 1 2. rewrite Hacc. destruct (m_cache s1 !! a) as [x|] eqn:Hx.
  - pose proof (sn_acct s1 Hs1 a x Hac) as Hsx. pose proof (as_nonce _ _ _ Hsx).
    set (l := (if negb (isDirty x) && isEmpty x then [ChangeTouch a] else []) ++ if v =? 0 then [] else [ChangeBalance a v]).
    set (t := (put a (acc_addBalance v x) s1) <| m_changeLog := m_changeLog s1 ++ l |>).
    assert (Hlt : lenZ (m_changeLog s1) <= lenZ (m_changeLog t)).
    { simpl. rewrite lenZ_app. pose proof (lenZ_nonneg l). lia. }
    exists (acc_addBalance v x), s1, t. unfold field. rewrite Hac. split_and!; try done.
    + unfold t, l, put, set_field, sbind, logChange, writeAccount, smodify, sret; simpl.
      destruct (negb (isDirty x) && isEmpty x), (v =? 0); simpl; rewrite <- ?app_assoc, ?app_nil_r; done.
    + by intros ? [= <-].
    + apply (acc_sane_change s1 _ _ x); try done. change (m_nonce (acc_addBalance v x)) with (m_nonce x). lia.
  - unfold requireAccountStartNonce, sbind, sgets. pose proof (sn_start s1 Hs1). unfold Invalid256 in *.
    destruct (Z.eqb_spec (m_accountStartNonce s1) (2 ^ 256 - 1)); [lia|]. cbn [rbind].
    destruct (createAccount_spec s1 a Hw1) as (s2 & Hw2 & Ho2 & Hl2 & Hac2 & Hcr). unfold sret. rewrite Hcr.
    pose proof (obs_None _ _ a Ho2 Hac) as E. rewrite Hac2 in E. rewrite E.
    assert (Hs2 : sane s2) by (by eapply sane_obs). assert (Hu : usage s2 a = 0) by (apply Hs2; by rewrite Hac2).
    set (y := newAccount (m_accountStartNonce s1) (u256 (m_initial_funds s1 + v))).
    set (l := if v =? 0 then [] else [ChangeBalance a v]).
    set (t := (created a y s2) <| m_changeLog := m_changeLog (created a y s2) ++ l |>).
    assert (Hlt : lenZ (m_changeLog s2) <= lenZ (m_changeLog t)).
    { simpl. rewrite !lenZ_app. pose proof (lenZ_nonneg l). pose proof (lenZ_nonneg [ChangeCreate a]). lia. }
    exists y, s2, t. unfold field. rewrite Hac2, E. split_and!; try done.
    + unfold t, l, logChange, smodify, created, put, set_field. simpl. destruct (v =? 0); simpl; rewrite ?app_nil_r; done.
    + by etrans.
    + eapply acc_sane_new; [exact Hs2|done|by rewrite <- Hu|]. pose proof (lenZ_nonneg (m_changeLog s2)). lia.
    + simpl. by rewrite (obs_funds _ _ Ho2).
Qed.
Lemma addBalance_adds s a v : wf s -> sane s ->
  op_ok (addBalance a v) s (fun r t => touched s a r t /\ field 0 m_balance t a = u256 (field (m_initial_funds s) m_balance s a + v)).
Proof.
  intros Hw Hs. destruct (addBalance_wrote s a v Hw Hs) as (y & s2 & t & Hm & Ho2 & Hs2 & Hwr & Hd & Hu & Hus & Hh & Hny & Hsy & Hb).
  eapply op_ok_write; [exact Hm|by apply addBalance_tracks|exact Hs2|done|exact Hwr|done| |done|].
  - intros z Hz. unfold field in Hh. rewrite Hz in Hh. intros [Ha|Ha]; (split; [|done]); [left; by rewrite (Hny z Hz)|right; congruence].
  - split.
    + split; [done|]. split; [|by eapply dirty_wrote]. etrans; [by apply soft_obs|]. by apply (wrote_soft _ _ _ _ Hwr).
    + unfold field at 1. rewrite (acct_wrote _ _ _ _ a Hwr), decide_True, Hb by done. rewrite (obs_funds _ _ Ho2).
      f_equal. f_equal. symmetry. apply obs_field; [done|]. by intros ? ? [].
Qed.
Lemma addBalance_ok s a v : wf s -> sane s -> op_ok (addBalance a v) s (touched s a).
Proof. intros Hw Hs. eapply op_ok_mono; [by apply addBalance_adds|]. by intros r t [? _]. Qed.
(** Taking what is there, and moving it. *)
Lemma subBalance_ok s a v : wf s -> sane s -> v = 0 \/ 0 < v <= field 0 m_balance s a ->
  op_ok (subBalance a v) s (fun r t => r = Ok tt /\ soft s t /\ field 0 m_balance t a = field 0 m_balance s a - v).
Proof.
  intros Hw Hs Hv. unfold subBalance. destruct (Z.eqb_spec v 0) as [->|Hne].
  - exists (Ok tt), s. split_and!; try done; [by apply tracks_refl|lia].
  - destruct Hv as [|Hv]; [lia|]. apply op_ok_account; [done|done|]. intros t Hwt Hst Ho Hl Hac.
    assert (Hf : field 0 m_balance s a = field 0 m_balance t a) by (apply obs_field; [done|]; by intros ? ? []).
    rewrite Hf in *. unfold field in Hv. rewrite Hac in Hv.
    destruct (m_cache t !! a) as [x|] eqn:Hx; [|lia]. destruct (Z.ltb_spec (m_balance x) v); [lia|].
    assert (Hbx : 0 <= m_balance x < 2 ^ 256) by (eapply (wf_acct _ Hwt); by rewrite Hac).
    eapply op_ok_mono; [by apply addBalance_adds|]. intros r u ((-> & Hso & _) & Hb). split; [done|].
    split; [etrans; [by apply soft_obs|done]|]. rewrite Hb. unfold field. rewrite Hac. unfold wrap.
    rewrite Z.add_mod_idemp_r by lia. rewrite Z.mod_small; lia.
Qed.
Lemma transferBalance_ok s a b v : wf s -> sane s -> v = 0 \/ 0 < v <= field 0 m_balance s a ->
  op_ok (transferBalance a b v) s (touched s b).
Proof.
  intros Hw Hs Hv. unfold transferBalance. eapply op_ok_bind; [by apply subBalance_ok| |by intros e t [? _]].
  intros u t Hwt Hst Hlt (_ & Hso & _). eapply op_ok_mono; [by apply addBalance_ok|].
  intros r w (-> & Hso' & Hd). split; [done|]. split; [by etrans|done].
Qed.
Lemma setBalance_ok s a v : wf s -> sane s -> op_ok (setBalance a v) s (touched s a).
Proof.
  intros Hw Hs. apply op_ok_account; [done|done|]. intros t Hwt Hst Ho Hl Hac.
  eapply op_ok_mono; [by apply addBalance_ok|]. intros r u (-> & Hso & Hd). split; [done|]. split; [|done]. etrans; [by apply soft_obs|done].
Qed.

Context (Hpatch : contractStoragePatch = true).

Lemma setStorage_ok s a k v x0 : wf s -> sane s -> is_u256 v -> acct s a = Some x0 -> active x0 ->
  op_ok (setStorage a k v) s (fun r t => r = Ok tt \/ r = Err State.StorageOverflow).
Proof.
  intros Hw Hs Hv Hx0 Hact. destruct (storage_spec s a k Hw) as (s1 & Hst & Hw1 & Ho & Hl & Hac).
  pose proof (obs_acct _ _ Ho a) as Ha. rewrite Hx0, Hac in Ha. inversion Ha as [? x Hxx E1 Hx|]; subst. symmetry in Hx.
  rewrite Hx in Hac. assert (Hs1 : sane s1) by (by eapply sane_obs). pose proof (sn_acct s1 Hs1 a x Hac) as Hsx.
  pose proof (active_aeq _ _ _ _ Hxx Hact) as Hactx.
  set (n := usageCount v (slot s a k)).
  set (t := (bump a n (put a (acc_setStorage k v x) s1)) <| m_changeLog := m_changeLog s1 ++ [ChangeStorage a k (slot s a k)] |>).
  assert (Hlt : lenZ (m_changeLog s1) <= lenZ (m_changeLog t)) by (simpl; rewrite lenZ_app; change (lenZ [_]) with 1; lia).
  assert (Hm : exists r, setStorage a k v s = (r, t) /\ (r = Ok tt \/ r = Err State.StorageOverflow)).
  { unfold setStorage, sbind at 1. rewrite Hst. unfold sbind, logChange, onCached, addUsage, sgets, smodify. simpl. rewrite Hx. simpl.
    destruct (_ >? _); eauto. }
  destruct Hm as (r & Hm & Hr).
  assert (Hwr : wrote s1 a (acc_setStorage k v x) t).
  { split; try done. intros b Hb. unfold t. change (usage (bump a n (put a (acc_setStorage k v x) s1)) b = usage s1 b).
    rewrite usage_bump, decide_False by congruence. change (usage (put a (acc_setStorage k v x) s1) b) with (usage s1 b). lia. }
  eapply op_ok_write; [exact Hm| |exact Hs1|done|exact Hwr|done| | |exact Hr].
  - apply setStorage_tracks; [done|done|unfold is_u256 in Hv; lia|by eexists].
  - intros y. rewrite Hac. intros [= <-] Hy. by split; [destruct Hy; [left|right]|].
  - destruct Hsx as [Hn Hh Hve Hwn Hk Hc Hi]. split; try done; [change (m_nonce (acc_setStorage k v x)) with (m_nonce x); lia| |by left].
    intros j. change (m_db t) with (m_db s1). rewrite setStorage_slot. case_decide; [done|apply Hk].
Qed.

Lemma clearStorage_ok s a : wf s -> sane s -> is_Some (acct s a) -> usage s a = 0 -> field 0 m_storageUsed s a = 0 ->
  op_ok (clearStorage a) s (fun r t => r = Ok tt /\ obs s t).
Proof.
  intros Hw Hs [x0 Hx0] Hu Hused. apply op_ok_account; [done|done|]. intros t Hwt Hst Ho Hl Hac.
  rewrite (obs_field 0 m_storageUsed _ _ a Ho) in Hused by (by intros ? ? []). unfold field in Hused. rewrite Hac in Hused.
  rewrite (obs_usage _ _ Ho) in Hu. pose proof (obs_acct _ _ Ho a) as Ha. rewrite Hx0, Hac in Ha.
  inversion Ha as [? x Hxx E1 Hx|]; subst. rewrite <- Hx in Hused. exists (Ok tt), t. unfold sbind, sgets, sret.
  fold (usage t a). rewrite Hused, Hu. split_and!; try done. by apply tracks_refl.
Qed.

(** Setting the code is not an evolution from the state in which the account was already in use, but it
    is one from any state in which it was not. *)
Definition evolves_but (a : Z) (s t : State) : Prop := forall b,
  (forall x, acct s b = Some x -> exists y, acct t b = Some y /\ (b <> a -> active x -> active y /\ m_codeHash y = m_codeHash x)) /\
  (dirty s b -> dirty t b).
Lemma evolves_created s t u a : evolves s t -> (forall x, acct s a = Some x -> ~ active x) -> evolves_but a t u -> evolves s u.
Proof.
  intros H1 Ha H2 b. split; [|intros Hd; by apply (H2 b), (H1 b)]. intros x Hx.
  destruct (proj1 (H1 b) x Hx) as (y & Hy & Hay). destruct (proj1 (H2 b) y Hy) as (z & Hz & Haz).
  exists z. split; [done|]. intros Hx'. destruct (Hay Hx') as [Hy' <-]. apply Haz; [|done]. intros ->. by apply (Ha x Hx).
Qed.
Lemma setCode_ok s a c x0 : wf s -> sane s -> dirty s a -> acct s a = Some x0 -> 0 < m_nonce x0 -> m_codeHash x0 = EmptySHA3 ->
  buffer_ok c -> exists t, setCode a c 0 s = (Ok tt, t) /\ tracks s t /\ sane t /\ evolves_but a s t.
Proof.
  intros Hw Hs (x & Hx & Hd) Hax0 Hn Hh Hc. assert (x0 = x) as -> by (unfold acct in Hax0; rewrite Hx in Hax0; congruence).
  pose proof (sn_acct s Hs a x Hax0) as Hsx. destruct Hsx as [Hnn Hhu Hve Hwn Hk Hcc Hi]. specialize (Hwn Hh).
  set (y := acc_setCode c 0 x). set (t := (put a y s) <| m_changeLog := m_changeLog s ++ [ChangeCode a []] |>).
  assert (Hacc : account a s = (Ok (Some x), s)) by (unfold account; by rewrite Hx).
  assert (Hm : setCode a c 0 s = (Ok tt, t)).
  { unfold setCode, addressHasCode, State.code, sbind. rewrite Hacc. simpl. rewrite Hh, Z.eqb_refl. simpl. rewrite Hacc, Hh, Z.eqb_refl.
    unfold sret, logChange, onCached, smodify. simpl. rewrite Hx. done. }
  assert (Hwr : wrote s a y t) by (split; try done; simpl; rewrite lenZ_app; change (lenZ [_]) with 1; lia).
  assert (Hdy : isDirty y = true) by (unfold y, acc_setCode; by case_match).
  pose proof (setCode_tracks s a c 0 x Hw Hx) as Ht. rewrite Hm in Ht.
  exists t. split_and!; [done| | |].
  - apply Ht. unfold canSetCode. by rewrite Hd, Hwn, Hve.
  - eapply wrote_sane; [exact Hwr|done|]. pose proof (wr_log _ _ _ _ Hwr). unfold y, acc_setCode. cbv zeta.
    assert (Hb : 0 <= m_nonce x <= B + lenZ (m_changeLog t)) by lia.
    destruct (Z.eqb_spec (sha3 c) (m_codeHash x)) as [E|E]; cbn [negb].
    + split; try done; by left; left.
    + split; try done; try (by left; left); try exact Hb; try apply sha3_word; try (simpl; congruence).
      unfold codeOf; simpl. destruct (Z.eqb_spec (sha3 c) EmptySHA3); [congruence|]. destruct c; [by unfold EmptySHA3 in *|done].
  - intros b. split.
    + intros z Hz. rewrite (acct_wrote _ _ _ _ b Hwr). case_decide as Eb; [subst; exists y|exists z]; (split; [done|]); [done|auto].
    + intros (z & Hz & Hdz). exists (if decide (a = b) then y else z). rewrite (wr_cache _ _ _ _ Hwr).
      case_decide; [subst; by rewrite lookup_insert_eq|by rewrite lookup_insert_ne].
Qed.
End Inv.
