(* ===== verification/ExecutiveFrames.v ===== *)
(** * Message calls and contract creations

    The program logic of the executive (every operation goes from a state to one that the change log can
    undo), the laws that the interpreter asks of its environment proved for the environment on the state,
    and, by induction on the levels of calls, what one call or creation does. *)

From S2P Require Import Prelude CommonData Rlp Instruction EVMSchedule Words ExtVMFace LegacyVM LegacyVMSafety ChainParams Transaction State StateInv StateRollback StateClaims Executive ExecutiveInv.
From Stdlib Require Import ZArith Lia Bool.
From stdpp Require Import base list gmap.
Open Scope Z_scope.
Open Scope exec_scope.

(** What the theorems assume of the parameters: a hash is a word, a precompiled contract has a price
    and returns bytes, the hashes of the last 256 blocks are known, the block is after EIP-158 and not
    far behind the experimental fork, the storage patch is on, and nonces have room for the whole log. *)
Record params_ok {SP : StateParams} {EP : ExecParams} (env : EnvInfo) (B : Z) : Prop := {
  po_sha3 bs : is_u256 (sha3 bs);
  po_patch : contractStoragePatch = true;
  po_nonces : B + maxLogSize + 1 < Invalid256;
  po_log : 0 <= maxLogSize;
  po_tier : 0 <= tierOob < 2 ^ 32;
  po_cost a p i : precompiled chainParams !! a = Some p -> 0 <= m_cost p i (forks chainParams) (env_number env);
  po_output a p i : precompiled chainParams !! a = Some p -> buffer_ok i -> buffer_ok (snd (m_execute p i));
  po_eip158 : EIP158ForkBlock (forks chainParams) <= env_number env;
  po_blockhash : env_number env < experimentalForkBlock (forks chainParams) + 256;
  po_hashes i : (i < 256)%nat -> Z.of_nat i < env_number env ->
    exists h, precedingHashes (env_parentHash env) !! i = Some h /\ is_u256 h;
  po_env : is_u256 (env_number env) /\ is_u256 (env_author env) /\ is_u256 (env_timestamp env) /\
    is_u256 (env_difficulty env) /\ is_u256 (env_gasLimit env) /\ is_u256 (env_chainID env) }.

Section Frames.
Context {SP : StateParams} {EP : ExecParams}.
Variable env : EnvInfo.
Variable B : Z.
Hypothesis HP : params_ok env B.

Let sha3_word := po_sha3 env B HP.
Let HB := po_nonces env B HP.
Let Hmax := po_log env B HP.
Let Hpatch := po_patch env B HP.

Abbreviation good := (good B).
Abbreviation steps := (steps B).
Abbreviation op_ok := (op_ok B).
Abbreviation hashOf s a := (field EmptySHA3 m_codeHash s a).

Lemma nil_ok : buffer_ok [].
Proof. split; [constructor|done]. Qed.

(** ** Operations of the state *)

Definition outcome {A} (r : result StateError A) : result VMException A :=
  match r with Ok a => Ok a | Err e => Err (ofStateError e) end.
Lemma checked_ok {A} (m : SM A) s R : good s -> op_ok m s R ->
  exists r t, checked m s = (r, t) /\ steps s t /\ (r = Err (Other StdLengthError) \/ exists r0, R r0 t /\ r = outcome r0).
Proof.
  intros G (r & t & E & Ht & Hev & Hsn & HR). unfold checked. rewrite E. rewrite Z.gtb_ltb.
  destruct (Z.ltb_spec maxLogSize (lenZ (m_changeLog t))).
  - exists (Err (Other StdLengthError)), s. split; [done|]. split; [by apply steps_refl|by left].
  - exists (outcome r), t. split; [done|]. split; [split; [done|done|split; [by eapply tracks_wf|done|done]]|]. right. by exists r.
Qed.

(** ** Hoare logic *)

(** From a state that is steps away from [s0], [m] ends steps away from [s0], with [Q], or with an
    allowed exception that leaves the executive in [I]. *)
Definition xwp {A} (s0 : State) (I : Executive -> Prop) (m : XM A) (Q : A -> Executive -> State -> Prop) (e : Executive) (s : State) : Prop :=
  match m (e, s) with
  | (Ok a, (e', s')) => steps s0 s' /\ Q a e' s'
  | (Err x, (e', s')) => exc_ok x /\ steps s0 s' /\ I e'
  end.
Definition anyway : Executive -> Prop := fun _ => True.
Lemma xwp_bind {A C} s0 I (m : XM A) (k : A -> XM C) Q e s :
  xwp s0 I m (fun a e' s' => xwp s0 I (k a) Q e' s') e s -> xwp s0 I (xbind m k) Q e s.
Proof. unfold xwp, xbind. destruct (m (e, s)) as [[a|x] [e' s']]; [|done]. by intros [_ H]. Qed.
Lemma xwp_ret {A} s0 I (a : A) Q e s : steps s0 s -> Q a e s -> xwp s0 I (xret a) Q e s.
Proof. done. Qed.
Lemma xwp_get {A} s0 I (f : Executive -> A) Q e s : steps s0 s -> Q (f e) e s -> xwp s0 I (xget f) Q e s.
Proof. done. Qed.
Lemma xwp_set s0 I f Q e s : steps s0 s -> Q tt (f e) s -> xwp s0 I (xset f) Q e s.
Proof. done. Qed.
Lemma xwp_throw {A} s0 (I : Executive -> Prop) x (Q : A -> Executive -> State -> Prop) e s :
  exc_ok x -> steps s0 s -> I e -> xwp s0 I (xthrow x) Q e s.
Proof. done. Qed.
Lemma xwp_mono {A} s0 (I I' : Executive -> Prop) (m : XM A) (Q Q' : A -> Executive -> State -> Prop) e s : xwp s0 I m Q e s ->
  (forall a e' s', steps s0 s' -> Q a e' s' -> Q' a e' s') -> (forall e', I e' -> I' e') -> xwp s0 I' m Q' e s.
Proof. unfold xwp. destruct (m (e, s)) as [[a|x] [e' s']]; [intros [Hs HQ] H|intros (? & ? & ?) _]; auto. Qed.
Lemma xwp_rebase {A} s0 s1 I (m : XM A) Q e s : steps s0 s1 -> xwp s1 I m Q e s -> xwp s0 I m Q e s.
Proof.
  intros H. unfold xwp. destruct (m (e, s)) as [[a|x] [e' s']].
  - intros [H1 H2]. split; [by eapply steps_trans|done].
  - intros (H1 & H2 & H3). split_and!; [done|by eapply steps_trans|done].
Qed.
Lemma xwp_onState {A} s0 (I : Executive -> Prop) (m : SM A) R Q e s : steps s0 s -> I e -> op_ok m s R ->
  (forall x t, R (Err x) t -> exc_ok (ofStateError x)) ->
  (forall a t, steps s0 t -> steps s t -> R (Ok a) t -> Q a e t) -> xwp s0 I (onState m) Q e s.
Proof.
  intros Hs HI Hop He HQ. destruct (checked_ok m s R (st_good _ _ _ Hs) Hop) as (r & t & E & Ht & Hr).
  unfold xwp, onState. rewrite E. assert (H0 : steps s0 t) by (by eapply steps_trans).
  destruct Hr as [->|(r0 & HR & ->)]; [split; [by left|done]|]. destruct r0 as [a|x]; simpl; [split; [done|by apply HQ]|].
  split; [by eapply He|done].
Qed.
(** Reading. *)
Lemma xwp_read {A} s0 (I : Executive -> Prop) (m : SM A) v Q e s : steps s0 s -> I e -> returns m s v ->
  (forall t, steps s0 t -> steps s t -> obs s t -> m_changeLog t = m_changeLog s -> Q v e t) -> xwp s0 I (onState m) Q e s.
Proof.
  intros Hs HI Hr HQ. pose proof (st_good _ _ _ Hs) as [Hw Hsn _].
  eapply xwp_onState; [done|done|by eapply op_ok_returns|by intros x t (? & _)|].
  intros a t H0 Ht ([= ->] & Ho & Hl). auto.
Qed.
Lemma xwp_touch s0 (I : Executive -> Prop) (m : SM unit) a Q e s : steps s0 s -> I e -> op_ok m s (touched s a) ->
  (forall t, steps s0 t -> steps s t -> soft s t -> dirty t a -> Q tt e t) -> xwp s0 I (onState m) Q e s.
Proof.
  intros Hs HI Hop HQ. eapply xwp_onState; [done|done|exact Hop|by intros x t (? & _)|].
  intros [] t H0 Ht (_ & Hso & Hd). auto.
Qed.

(** The savepoint, and rolling back to it. *)
Lemma steps_rollback s0 s : steps s0 s -> good s0 -> exists t, checked (rollback (savepoint s0)) s = (Ok tt, t) /\
  steps s0 t /\ obs s0 t /\ m_changeLog t = m_changeLog s0.
Proof.
  intros [Ht _ _] G. destruct (tracks_rollback s0 s Hpatch Ht) as (t & E & Hw & Ho & Hl). exists t.
  unfold checked. rewrite E, Hl, Z.gtb_ltb. destruct (Z.ltb_spec maxLogSize (lenZ (m_changeLog s0))); [pose proof (gd_log _ _ G); lia|].
  split; [done|]. split; [by apply steps_obs|done].
Qed.

(** ** The environment: reads and writes *)

Lemma original_returns s a k : wf s -> exists v, returns (State.originalStorageValue a k) s v.
Proof.
  intros Hw. destruct (account_spec a s Hw) as (s1 & Hacc & Hw1 & Ho & Hl & Hac).
  unfold State.originalStorageValue, returns, sbind. rewrite Hacc. destruct (m_cache s1 !! a) as [x|] eqn:Hx.
  - destruct (originalOf_spec s1 a k x Hw1 Hx) as (s2 & E & Hw2 & Ho2 & Hl2 & _). eexists _, s2.
    split; [exact E|]. split; [done|]. split; [by etrans|congruence].
  - by exists 0, s1.
Qed.
Lemma nonempty_returns s a : wf s -> exists v, returns (accountNonemptyAndExisting a) s v.
Proof.
  intros Hw. destruct (account_spec a s Hw) as (s1 & Hacc & Hw1 & Ho & Hl & Hac).
  eexists _, s1. unfold accountNonemptyAndExisting, sbind. rewrite Hacc. done.
Qed.
Lemma codeSize_returns s a : good s -> exists v, returns (codeSize a) s v /\ is_u256 v.
Proof.
  intros [Hw Hs Hlog]. destruct (account_spec a s Hw) as (s1 & Hacc & Hw1 & Ho & Hl & Hac).
  assert (Hs1 : sane B s1) by (by eapply sane_obs). unfold returns, codeSize, sbind at 1. rewrite Hacc.
  destruct (m_cache s1 !! a) as [x|] eqn:Hx; [|exists 0; split; [by exists s1|apply zero_u256]].
  pose proof (sn_acct _ _ Hs1 a x Hac) as [_ _ _ Hn _ Hc _]. destruct (m_hasNewCode x) eqn:En.
  - exists (lenZ (m_codeCache x)). split; [by exists s1|]. destruct Hc as [_ Hc]. revert Hc. unfold codeOf.
    destruct (Z.eqb_spec (m_codeHash x) EmptySHA3) as [E|E]; [by specialize (Hn E)|].
    destruct (m_codeCache x) as [|c l]; [intros _; apply zero_u256|]. intros Hc. pose proof (lenZ_nonneg (c :: l)). unfold is_u256. lia.
  - destruct (code_returns s1 a Hw1) as (s2 & E & Hw2 & Ho2 & Hl2). unfold field in E. rewrite Hac in E.
    exists (lenZ (codeOf (m_db s1) a x)). split.
    + exists s2. unfold sbind. rewrite E. split; [done|]. split; [done|]. split; [by etrans|congruence].
    + destruct Hc as [_ Hc]. pose proof (lenZ_nonneg (codeOf (m_db s1) a x)). unfold is_u256. lia.
Qed.

Section Environment.
Variable s1 : State.
Let P (e : ExtState State) : Prop := steps s1 (world e).

Lemma onWorld_op {A} (m : SM A) R (Q : A -> Prop) : (forall s, steps s1 s -> op_ok m s (R s)) ->
  (forall s x t, R s (Err x) t -> exc_ok (ofStateError x)) -> (forall s a t, R s (Ok a) t -> Q a) -> ext_spec P Q (onWorld m).
Proof.
  intros Hop He HQ e Hs. unfold P in *. destruct (checked_ok m (world e) (R (world e)) (st_good _ _ _ Hs) (Hop _ Hs)) as (r & t & E & Ht & Hr).
  unfold onWorld. rewrite E. assert (H0 : steps s1 t) by (by eapply steps_trans).
  destruct Hr as [->|(r0 & HR & ->)]; [split; [by left|done]|]. destruct r0 as [a|x]; simpl; split; eauto.
Qed.
Lemma onWorld_read {A} (m : SM A) (Q : A -> Prop) : (forall s, good s -> exists v, returns m s v /\ Q v) -> ext_spec P Q (onWorld m).
Proof.
  intros Hr. apply (onWorld_op _ (fun s r t => exists v, r = Ok v /\ Q v)).
  - intros s Hs. pose proof (st_good _ _ _ Hs) as G. destruct (Hr s G) as (v & Hv & HQ).
    eapply op_ok_mono; [apply (op_ok_returns B m s v); [apply G|apply G|done]|]. intros r t (-> & _). eauto.
  - by intros s x t (v & ? & _).
  - by intros s a t (v & [= ->] & ?).
Qed.
Lemma onWorld_touch (m : SM unit) a : (forall s, good s -> op_ok m s (touched s a)) -> ext_spec P (fun _ => True) (onWorld m).
Proof.
  intros Hm. apply (onWorld_op _ (fun s r t => r = Ok tt)); [|done|done].
  intros s Hs. eapply op_ok_mono; [apply Hm; by eapply st_good|]. by intros r t (? & _).
Qed.
Lemma ebind_spec {A C} (m : EM State A) (k : A -> EM State C) Q Q' :
  ext_spec P Q m -> (forall a, Q a -> ext_spec P Q' (k a)) -> ext_spec P Q' (ebind m k).
Proof.
  intros Hm Hk e He. specialize (Hm e He). unfold ebind. destruct (m e) as [[a|x] e']; [|done].
  destruct Hm as [HQ He']. by apply Hk.
Qed.

Lemma word_field s a (f : Account -> Z) d : good s -> is_u256 d -> (forall x, acc_sane B s a x -> acc_ok (m_db s) a x -> is_u256 (f x)) ->
  is_u256 (field d f s a).
Proof. intros [Hw Hs _] Hd Hf. unfold field. destruct (acct s a) as [x|] eqn:E; [|done]. apply Hf; [by apply Hs|by apply Hw]. Qed.
Lemma env_store a k : ext_spec P is_u256 (onWorld (storage a k)).
Proof.
  apply onWorld_read. intros s G. eexists. split; [apply storage_returns, G|]. apply word_field; [done|apply zero_u256|].
  intros x [] _. done.
Qed.
Lemma env_balance a : ext_spec P is_u256 (onWorld (State.balance a)).
Proof.
  apply onWorld_read. intros s G. eexists. split; [apply balance_returns, G|]. apply word_field; [done|apply G|]. by intros x _ [].
Qed.
Lemma env_code a : ext_spec P buffer_ok (onWorld (State.code a)).
Proof.
  apply onWorld_read. intros s G. eexists. split; [apply code_returns, G|]. unfold field.
  destruct (acct s a) as [x|] eqn:E; [|apply nil_ok]. exact (as_code _ _ _ _ (sn_acct _ _ (gd_sane _ _ G) _ _ E)).
Qed.
Lemma env_codeSize a : ext_spec P is_u256 (onWorld (codeSize a)).
Proof. apply onWorld_read. intros s G. by apply codeSize_returns. Qed.
Lemma env_exists x a : ext_spec P (fun _ => True) (ext_exists x a).
Proof.
  unfold ext_exists. case_match; apply onWorld_read; intros s G.
  - destruct (nonempty_returns s a (gd_wf _ _ G)) as [v Hv]. by exists v.
  - eexists. split; [apply addressInUse_returns, G|done].
Qed.
Lemma env_codeHash x a : ext_spec P is_u256 (ebind (ext_exists x a) (fun b : bool => if b then onWorld (codeHash a) else fun e => (Ok 0, e))).
Proof.
  eapply ebind_spec; [apply env_exists|]. intros [] _; [|intros e He; by split; [apply zero_u256|]].
  apply onWorld_read. intros s G. eexists. split; [apply codeHash_returns, G|]. apply word_field; [done|apply sha3_word|]. by intros y [] _.
Qed.
Lemma env_suicide x a : ext_spec P (fun _ => True) (ext_suicide x a).
Proof.
  unfold ext_suicide. eapply ebind_spec; [apply env_balance|]. intros b _.
  eapply ebind_spec; [apply (onWorld_touch _ a); intros s [? ? ?]; by apply addBalance_ok|]. intros _ _.
  eapply ebind_spec; [apply (onWorld_touch _ (myAddress (ext_ctx x))); intros s [? ? ?]; by apply setBalance_ok|]. intros _ _ e He. done.
Qed.
Lemma env_original a k : ext_spec P (fun _ => True) (onWorld (State.originalStorageValue a k)).
Proof. apply onWorld_read. intros s G. destruct (original_returns s a k (gd_wf _ _ G)) as [v Hv]. by exists v. Qed.
Lemma env_blockHash n : is_u256 n -> ext_spec P is_u256 (ext_blockHash env n).
Proof.
  intros Hn e He. unfold ext_blockHash. set (cur := env_number env). rewrite Z.geb_leb.
  destruct (Z.leb_spec cur n); [by split; [apply zero_u256|]|]. destruct (Z.ltb_spec n (Z.max 256 cur - 256)); [by split; [apply zero_u256|]|].
  cbn [orb]. pose proof (po_blockhash env B HP). destruct (Z.ltb_spec cur (experimentalForkBlock (forks chainParams) + 256)); [|unfold cur in *; lia].
  unfold is_u256 in Hn. destruct (po_hashes env B HP (Z.to_nat (cur - 1 - n))) as (h & -> & Hh); [unfold cur in *; lia..|]. done.
Qed.
End Environment.

(** ** Setting up a call *)

(** An address at which a contract can be created, and an account without its code yet. *)
Definition unused (s : State) (a : Z) : Prop := forall x, acct s a = Some x -> ~ active x.
Definition building (s : State) (a : Z) : Prop :=
  dirty s a /\ exists y, acct s a = Some y /\ 0 < m_nonce y /\ m_codeHash y = EmptySHA3.
Lemma building_steps s t a : steps s t -> building s a -> building t a.
Proof.
  intros H (Hd & y & Hy & Hn & Hh). destruct (st_evolves _ _ _ H a) as [He Hdd]. split; [auto|].
  destruct (He y Hy) as (z & Hz & Haz). destruct (Haz (or_introl Hn)) as [Ha Hhz]. exists z. split; [done|].
  destruct Ha as [|Ha]; [|congruence]. split; [done|congruence].
Qed.
Lemma building_active s a : building s a -> exists y, acct s a = Some y /\ active y.
Proof. intros (_ & y & Hy & Hn & _). exists y. split; [done|]. by left. Qed.

(** An executive about to run the machine; [sp] is the state at its savepoint. *)
Record ready (sp : State) (e : Executive) (s : State) (x : ExtVM) : Prop := mkReady {
  rd_ext : m_ext e = Some x;
  rd_good : good sp;
  rd_savepoint : m_savepoint e = savepoint sp;
  rd_steps : steps sp s;
  rd_ctx : ctx_ok (ext_ctx x);
  rd_env : envInfo (ext_ctx x) = env;
  rd_version : ext_version x = 0;
  rd_active : exists y, acct s (myAddress (ext_ctx x)) = Some y /\ active y;
  rd_create : m_isCreation e = true -> depth (ext_ctx x) <= 1024 /\
    unused sp (myAddress (ext_ctx x)) /\ building s (myAddress (ext_ctx x));
  rd_gas : is_u256 (m_gas e);
  rd_excepted : m_excepted e = TE_None;
  rd_output : m_output e = [] }.

(** A finished executive, which was given [g] units of gas at the state [sp] of its savepoint: an
    exception leaves what was there, unless [pre]: a precompiled contract without enough gas is touched. *)
Record finished (sp : State) (g : Z) (pre : bool) (e : Executive) (s : State) : Prop := mkFinished {
  dn_steps : steps sp s;
  dn_gas : 0 <= m_gas e <= g;
  dn_output : buffer_ok (m_output e);
  dn_failed : m_excepted e <> TE_None -> pre = true \/ obs sp s /\ m_changeLog s = m_changeLog sp }.

(** An executive before its call. *)
Record pristine (e : Executive) : Prop := mkPristine {
  fr_ext : m_ext e = None; fr_excepted : m_excepted e = TE_None; fr_output : m_output e = []; fr_gas : m_gas e = 0;
  fr_creation : m_isCreation e = false }.

Lemma savepoint_returns s : wf s -> returns (sgets savepoint) s (savepoint s).
Proof. intros Hw. by exists s. Qed.
Lemma schedule_init v : schedule_ok (initEvmSchedule env v) = true.
Proof. unfold initEvmSchedule. case_match; [apply makeEvmSchedule_ok|]. unfold latestScheduleForAccountVersion. by repeat case_match. Qed.

(** What the parameters of a call have to be. *)
Record params_call (s : State) (p : CallParameters) : Prop := {
  pc_addresses : is_u256 (senderAddress p) /\ is_u256 (receiveAddress p);
  pc_values : is_u256 (apparentValue p);
  pc_transfer : valueTransfer p = 0 \/ 0 < valueTransfer p <= field 0 m_balance s (senderAddress p);
  pc_gas : is_u256 (cp_gas p);
  pc_data : buffer_ok (cp_data p);
  pc_receiver : hashOf s (codeAddress p) <> EmptySHA3 -> exists y, acct s (receiveAddress p) = Some y /\ active y }.


Ltac xstep := apply xwp_bind.
Ltac xset := apply xwp_bind, xwp_set; [assumption|].
Ltac xget := apply xwp_bind, xwp_get; [assumption|].

Lemma params_call_obs s t p : obs s t -> params_call s p -> params_call t p.
Proof.
  intros Ho [Ha Hv Ht Hg Hd Hr]. split; try done.
  - by rewrite <- (obs_field 0 m_balance _ _ _ Ho) by (by intros ? ? []).
  - rewrite <- (obs_field EmptySHA3 m_codeHash _ _ _ Ho) by (by intros ? ? []). intros Hh. destruct (Hr Hh) as (y & Hy & Hay).
    pose proof (obs_acct _ _ Ho (receiveAddress p)) as HH. rewrite Hy in HH. inversion HH as [? z Hyz E1 E2|]; subst.
    exists z. split; [done|]. by eapply active_aeq.
Qed.

(** The value, and whether the machine is to be run. *)
Lemma transfer_ok sp p e s (Q : bool -> Executive -> State -> Prop) : steps sp s -> params_call s p ->
  (forall t, steps sp t -> steps s t -> Q (negb (bool_decide (is_Some (m_ext e)))) e t) ->
  xwp sp anyway (onState (transferBalance (senderAddress p) (receiveAddress p) (valueTransfer p)) >>>
    let! x := xget m_ext in xret (negb (bool_decide (is_Some x)))) Q e s.
Proof.
  intros Hs Hp HQ. xstep. pose proof (st_good _ _ _ Hs) as [Hw Hsn _].
  eapply xwp_touch; [done|done|apply transferBalance_ok; try done; apply Hp|]. intros t Ht0 Ht _ _. xget. apply xwp_ret; [done|]. auto.
Qed.

Lemma makeExt_ok sp (I : Executive -> Prop) my cl og v gp dat c ver d isC stat ro (Q : unit -> Executive -> State -> Prop) e s :
  steps sp s -> I e -> is_Some (acct s my) ->
  (forall t, steps sp t -> steps s t -> obs s t -> Q tt (e <| m_ext := Some (mkExtVM
     (mkExtCtx env my cl og v gp dat c d isC stat (initEvmSchedule env ver)) ver ro SubState_clear) |>) t) ->
  xwp sp I (makeExt env my cl og v gp dat c ver d isC stat ro) Q e s.
Proof.
  intros Hs HI [y Hy] HQ. unfold makeExt. xstep. eapply xwp_read; [done|done|apply addressInUse_returns, (st_good _ _ _ Hs)|].
  intros t Ht0 Ht Ho _. unfold field. rewrite Hy. apply xwp_set; [done|]. auto.
Qed.
Lemma active_steps s t a : steps s t -> (exists y, acct s a = Some y /\ active y) -> exists y, acct t a = Some y /\ active y.
Proof. intros H (y & Hy & Hay). destruct (proj1 (st_evolves _ _ _ H a) y Hy) as (z & Hz & Haz). exists z. split; [done|]. by apply Haz. Qed.
Lemma ctx_made my cl og v gp dat c ver d isC stat : is_u256 my -> is_u256 cl -> is_u256 og -> is_u256 v -> is_u256 gp ->
  buffer_ok dat -> buffer_ok c -> ctx_ok (mkExtCtx env my cl og v gp dat c d isC stat (initEvmSchedule env ver)).
Proof. intros. split; simpl; try done. - apply (po_env env B HP). - apply schedule_init. Qed.

Lemma callBody_ok p gp og e s : good s -> pristine e -> params_call s p -> is_u256 gp -> is_u256 og ->
  xwp s anyway (callBody env p gp og)
    (fun d e' t => m_newAddress e' = m_newAddress e /\
       if d then finished s (cp_gas p) (isPrecompiled chainParams (codeAddress p) (env_number env)) e' t
       else exists x, ready s e' t x /\ depth (ext_ctx x) = m_depth e /\ m_gas e' = cp_gas p) e s.
Proof.
  intros G [Hext Hexc Hout Hgas Hcr] Hp Hgp Hog. unfold callBody.
  xstep. eapply xwp_read; [by apply steps_refl|done|apply savepoint_returns, G|]. intros s1 Hs1 _ Ho1 Hl1.
  pose proof (params_call_obs _ _ _ Ho1 Hp) as Hp1. xset. xget. xget.
  set (e1 := e <| m_savepoint := savepoint s |>). cbv zeta beta.
  destruct (isPrecompiled _ _ _ && _) eqn:Hpre.
  - (* a precompiled contract *)
    apply andb_prop in Hpre as [Hpre _]. unfold costOfPrecompiled, executePrecompiled in *.
    assert (exists q, precompiled chainParams !! codeAddress p = Some q) as [q Hq]
      by (unfold isPrecompiled in Hpre; destruct (precompiled chainParams !! codeAddress p); [eauto|done]).
    rewrite Hq. cbn [fmap option_fmap option_map default from_option id].
    pose proof (po_cost env B HP _ _ (cp_data p) Hq) as Hcost. set (g := m_cost q (cp_data p) (forks chainParams) (env_number env)) in *.
    pose proof (pc_gas _ _ Hp) as Hpg. unfold is_u256 in Hpg. destruct (Z.ltb_spec (cp_gas p) g) as [Hlt|Hge].
    + xset. xstep. rewrite Z.geb_leb. destruct (Z.leb_spec (EIP158ForkBlock (forks chainParams)) (env_number env)); [|pose proof (po_eip158 env B HP); lia].
      pose proof (st_good _ _ _ Hs1) as [Hw1 Hsn1 _].
      eapply (xwp_touch _ _ _ (codeAddress p)); [done|done|by apply addBalance_ok|]. intros t Ht0 _ _ _. apply xwp_ret; [done|].
      split; [done|]. split; simpl; try done; [rewrite Hgas; lia|rewrite Hout; apply nil_ok|left; by rewrite Hpre].
    + pose proof (po_output env B HP _ _ (cp_data p) Hq (pc_data _ _ Hp)) as Hbo.
      destruct (m_execute q (cp_data p)) as [[] out]; simpl in Hbo; xset; cbn [negb].
      * assert (Hg1 : u256 (cp_gas p - g) = cp_gas p - g) by (apply wrap_small; lia).
        apply transfer_ok; [done|done|]. intros t Ht0 _. simpl. rewrite Hext. rewrite bool_decide_false by (by intros [? ?]). simpl.
        split; [done|]. split; simpl; try done; lia.
      * xset. apply xwp_ret; [done|]. split; [done|]. split; simpl; try done; [lia|by right].
  - (* the code of an account *)
    xset. xstep. pose proof (st_good _ _ _ Hs1) as G1.
    eapply xwp_read; [done|done|apply addressHasCode_returns, G1|]. intros s2 Hs2 _ Ho2 Hl2.
    pose proof (params_call_obs _ _ _ Ho2 Hp1) as Hp2. unfold field at 1.
    destruct (acct s1 (codeAddress p)) as [y|] eqn:Hy; [destruct (Z.eqb_spec (m_codeHash y) EmptySHA3) as [Hh|Hh]|]; cbn [negb].
    + xstep. apply xwp_ret; [done|]. apply transfer_ok; [done|done|]. intros t Ht0 _. simpl. rewrite Hext. rewrite bool_decide_false by (by intros [? ?]). simpl.
      destruct (pc_gas _ _ Hp). split; [done|]. split; simpl; try done; rewrite Hout; apply nil_ok.
    + pose proof (st_good _ _ _ Hs2) as G2. do 2 xstep.
      eapply xwp_read; [done|done|apply code_returns, G2|]. intros s3 Hs3 _ Ho3 Hl3. xstep. pose proof (st_good _ _ _ Hs3) as G3.
      eapply xwp_read; [done|done|apply codeHash_returns, G3|]. intros s4 Hs4 _ Ho4 Hl4. xstep. pose proof (st_good _ _ _ Hs4) as G4.
      eapply xwp_read; [done|done|apply version_returns, G4|]. intros s5 Hs5 _ Ho5 Hl5.
      assert (Hp5 : params_call s5 p) by (eapply params_call_obs; [exact Ho5|]; eapply params_call_obs; [exact Ho4|]; by eapply params_call_obs).
      assert (Hh5 : hashOf s5 (codeAddress p) <> EmptySHA3).
      { assert (Hob : obs s1 s5) by (etrans; [exact Ho2|]; etrans; [exact Ho3|]; by etrans).
        rewrite <- (obs_field EmptySHA3 m_codeHash _ _ _ Hob) by (by intros ? ? []). unfold field. by rewrite Hy. }
      pose proof (pc_receiver _ _ Hp5 Hh5) as Hact. set (c := field [] (codeOf (m_db s2) (codeAddress p)) s2 (codeAddress p)).
      assert (Hc : buffer_ok c).
      { unfold c, field. destruct (acct s2 (codeAddress p)) as [z|] eqn:Hz; [|apply nil_ok].
        exact (as_code _ _ _ _ (sn_acct _ _ (gd_sane _ _ G2) _ _ Hz)). }
      assert (Hver : field 0 m_version s4 (codeAddress p) = 0).
      { unfold field. destruct (acct s4 (codeAddress p)) as [z|] eqn:Hz; [|done].
        exact (as_version _ _ _ _ (sn_acct _ _ (gd_sane _ _ G4) _ _ Hz)). }
      rewrite Hver. destruct Hact as (ya & Hya & Haya).
      apply makeExt_ok; [done|done|by eexists|]. intros s6 Hs6 Hs56 Ho6. pose proof (params_call_obs _ _ _ Ho6 Hp5) as Hp6.
      apply transfer_ok; [done|done|]. intros t Ht0 Ht. simpl. destruct Hp as [[? ?] ? ? ? ? ?].
      split; [done|]. eexists. split; [eapply mkReady; [reflexivity|..]|done]; simpl; try done.
      * by apply ctx_made.
      * eapply active_steps; [exact Ht|]. eapply active_steps; [exact Hs56|]. eauto.
      * by rewrite Hcr.
    + xstep. apply xwp_ret; [done|]. apply transfer_ok; [done|done|]. intros t Ht0 _. simpl. rewrite Hext. rewrite bool_decide_false by (by intros [? ?]). simpl.
      destruct (pc_gas _ _ Hp). split; [done|]. split; simpl; try done; rewrite Hout; apply nil_ok.
Qed.

(** ** Setting up a creation *)

Lemma revert_ok sp e s : steps sp s -> good sp -> m_savepoint e = savepoint sp ->
  exists t, revert (e, s) = (Ok tt, (e <| m_ext := (fun x => x <| ext_sub := SubState_clear |>) <$> m_ext e |> <| m_newAddress := 0 |>, t)) /\
    steps sp t /\ obs sp t /\ m_changeLog t = m_changeLog sp.
Proof.
  intros Hs G Hsp. destruct (steps_rollback sp s Hs G) as (t & E & Ht). exists t. split; [|done].
  unfold revert, xbind, Executive.xset, Executive.xget, onState. simpl. by rewrite Hsp, E.
Qed.
(** Code for an account that was not in use at [sp]. *)
Lemma xwp_setCode sp (I : Executive -> Prop) a c Q e s : steps sp s -> I e -> unused sp a -> building s a -> buffer_ok c ->
  (forall t, steps sp t -> Q tt e t) -> xwp sp I (onState (setCode a c 0)) Q e s.
Proof.
  intros Hs HI Hna (Hd & y & Hy & Hn & Hh) Hc HQ. pose proof (st_good _ _ _ Hs) as [Hw Hsn Hl].
  destruct (setCode_ok B sha3_word s a c y Hw Hsn Hd Hy Hn Hh Hc) as (t & E & Ht & Hst & Hev).
  unfold xwp, onState, checked. rewrite E. rewrite Z.gtb_ltb. destruct (Z.ltb_spec maxLogSize (lenZ (m_changeLog t))); [split; [by left|done]|].
  assert (H0 : steps sp t).
  { split; [by eapply tracks_trans, Ht; apply Hs|by eapply evolves_created; [apply Hs|exact Hna|]|].
    split; [by eapply tracks_wf|done|done]. }
  split; [done|]. auto.
Qed.
Lemma startNonce_returns s : good s -> returns requireAccountStartNonce s (m_accountStartNonce s).
Proof.
  intros [Hw Hs _]. exists s. split; [|done]. unfold requireAccountStartNonce, sbind, sgets. pose proof (sn_start _ _ Hs).
  destruct (Z.eqb_spec (m_accountStartNonce s) Invalid256); [lia|done].
Qed.
(** Nobody has stored anything at an unused address, and it has no code. *)
Lemma unused_quiet s a : good s -> unused s a -> usage s a = 0 /\ field 0 m_storageUsed s a = 0 /\ hashOf s a = EmptySHA3.
Proof.
  intros [_ Hs _] Hna. unfold field. destruct (acct s a) as [x|] eqn:E; [|split; [by apply Hs|done]].
  destruct (as_idle _ _ _ _ (sn_acct _ _ Hs _ _ E)) as [H|[? ?]]; [by destruct (Hna x)|]. split_and!; try done.
  destruct (decide (m_codeHash x = EmptySHA3)); [done|]. destruct (Hna x E). by right.
Qed.
Lemma obs_unused s t a : obs s t -> unused t a -> unused s a.
Proof.
  intros Ho Hu x Hx Hax. pose proof (obs_acct _ _ Ho a) as HH. rewrite Hx in HH. inversion HH as [? z Hyz E1 E2|]; subst.
  symmetry in E2. apply (Hu z E2). by eapply active_aeq.
Qed.

(** The test of the address. *)
Lemma usedTest_ok sp e s a (Q : bool -> Executive -> State -> Prop) : steps sp s ->
  (forall used t, steps sp t -> obs s t -> (used = false -> unused t a) -> Q used e t) ->
  xwp sp anyway (accountAlreadyExist a) Q e s.
Proof.
  intros Hs HQ. unfold accountAlreadyExist. xstep. eapply xwp_read; [done|done|apply addressHasCode_returns, (st_good _ _ _ Hs)|]. intros t Ht _ Ho _.
  destruct (field false _ s a) eqn:Ehas.
  - apply xwp_ret; [done|]. by apply HQ.
  - xstep. eapply xwp_read; [done|done|apply getNonce_returns, (st_good _ _ _ Ht)|]. intros u Hu _ Hou _. apply xwp_ret; [done|].
    assert (Hob : obs s u) by (by etrans). apply HQ; [done|done|]. intros Hn. rewrite Z.gtb_ltb in Hn. apply Z.ltb_ge in Hn.
    apply (obs_unused u u); [reflexivity|]. intros x Hx Hax.
    pose proof (obs_acct _ _ Hou a) as H1. rewrite Hx in H1. inversion H1 as [y ? Hyx E1|]; subst. symmetry in E1.
    pose proof (obs_acct _ _ Ho a) as H2. rewrite E1 in H2. inversion H2 as [z ? Hzy E2|]; subst. symmetry in E2.
    unfold field in Hn, Ehas. rewrite E1 in Hn. rewrite E2 in Ehas. apply negb_false_iff, Z.eqb_eq in Ehas.
    destruct Hax as [Hp|Hp]; [destruct Hyx; lia|]. destruct Hyx, Hzy. congruence.
Qed.

(** The new account. *)
Lemma openAccount_ok sp sd a v e s (Q : unit -> Executive -> State -> Prop) : steps sp s -> unused s a ->
  v = 0 \/ 0 < v <= field 0 m_balance s sd -> (forall t, steps sp t -> building t a -> Q tt e t) ->
  xwp sp anyway (openAccount env sd a v) Q e s.
Proof.
  intros Hs Hu Hv HQ. pose proof (st_good _ _ _ Hs) as [Hw Hsn Hl]. destruct (unused_quiet s a (st_good _ _ _ Hs) Hu) as (Hq1 & Hq2 & Hq3).
  unfold openAccount. xstep. eapply (xwp_touch _ _ _ a); [done|done|by apply transferBalance_ok|].
  intros s4 Hs4 _ Hso4 _. pose proof (st_good _ _ _ Hs4) as G4. xstep.
  eapply xwp_read; [done|done|by apply startNonce_returns|]. intros s5 Hs5 _ Ho5 Hl5. pose proof (st_good _ _ _ Hs5) as [Hw5 Hsn5 _].
  pose proof (sn_start _ _ (gd_sane _ _ G4)) as Hst. set (n := m_accountStartNonce s4) in *.
  rewrite Z.geb_leb. destruct (Z.leb_spec (EIP158ForkBlock (forks chainParams)) (env_number env)); [|pose proof (po_eip158 env B HP); lia].
  rewrite wrap_small by (unfold Invalid256 in *; lia). xstep.
  eapply xwp_onState; [done|done|apply setNonce_ok; try done; lia|by intros x t ((? & _) & _)|].
  intros [] s6 Hs6 _ [(_ & Hso6 & Hd6) Hn6]. pose proof (st_good _ _ _ Hs6) as [Hw6 Hsn6 _].
  assert (Hsoft : soft s s6) by (etrans; [exact Hso4|]; etrans; [by apply soft_obs|done]).
  assert (Hb : building s6 a).
  { split; [done|]. destruct Hd6 as (y & Hy & _). assert (Ha6 : acct s6 a = Some y) by (unfold acct; by rewrite Hy).
    pose proof (sf_hash _ _ Hsoft a) as Hh. unfold field in Hh, Hn6. rewrite Ha6 in Hh, Hn6. exists y. split; [done|].
    unfold field in Hq3. split; [lia|congruence]. }
  destruct (building_active _ _ Hb) as (y & Hy & _).
  eapply xwp_onState; [done|done|eapply (clearStorage_ok B s6 a); [done|done|by eexists|by rewrite (sf_usage _ _ Hsoft)|by rewrite (sf_used _ _ Hsoft)]|by intros x t (? & _)|].
  intros [] s7 Hs7 Hs67 _. apply HQ; [done|]. by eapply building_steps.
Qed.

Lemma createBody_ok sd v gp gas init og e s : good s -> pristine e -> is_u256 sd -> is_u256 v -> is_u256 gp -> is_u256 og -> is_u256 gas ->
  is_u256 (m_newAddress e) -> buffer_ok init -> v = 0 \/ 0 < v <= field 0 m_balance s sd -> m_depth e <= 1024 ->
  xwp s anyway (createBody env sd v gp gas init og 0)
    (fun d e' t => if d then finished s gas false e' t /\ is_u256 (m_newAddress e')
                   else exists x, ready s e' t x /\ depth (ext_ctx x) = m_depth e /\ m_gas e' = gas /\ m_newAddress e' = m_newAddress e) e s.
Proof.
  intros G [Hext Hexc Hout Hgas Hcr] Hsd Hv Hgp Hog Hg Hna Hinit Hafford Hdepth. unfold createBody.
  xstep. eapply xwp_read; [by apply steps_refl|done|apply savepoint_returns, G|]. intros s1 Hs1 _ Ho1 Hl1.
  xset. xget. xget. xstep. set (a := m_newAddress e) in *.
  set (e1 := e <| m_savepoint := savepoint s |> <| m_isCreation := true |> <| m_gas := gas |>). change (m_newAddress e1) with a.
  apply usedTest_ok; [done|]. intros used s3 Hs3 Ho3 Hunused. assert (Ho : obs s s3) by (by etrans). destruct used.
  - xset. xstep. set (e2 := e1 <| m_gas := 0 |> <| m_excepted := TE_AddressAlreadyUsed |>).
    destruct (revert_ok s e2 s3 Hs3 G eq_refl) as (t & E & Ht & Hot & Hl).
    unfold xwp at 1. rewrite E. split; [done|]. xset. apply xwp_ret; [done|]. split; [|apply zero_u256].
    destruct Hg; split; simpl; try done; try lia; first [rewrite Hout; apply nil_ok|by right].
  - specialize (Hunused eq_refl). xstep. apply openAccount_ok; [done|done| |].
    { rewrite <- (obs_field 0 m_balance _ _ _ Ho) by (by intros ? ? []). done. }
    pose proof (obs_unused _ _ _ Ho Hunused) as Hus. intros s7 Hs7 Hb. xstep. destruct (building_active _ _ Hb) as (y & Hy & _).
    destruct init as [|c0 init'].
    + eapply xwp_setCode; [done|done|exact Hus|done|apply nil_ok|].
      intros t Ht. xget. apply xwp_ret; [done|]. simpl. rewrite Hext. rewrite bool_decide_false by (by intros [? ?]). simpl.
      split; [|done]. destruct Hg; split; simpl; try done; try lia; first [rewrite Hout; apply nil_ok|by right].
    + apply makeExt_ok; [done|done|by eexists|]. intros t Ht Ht7 Hot. xget. apply xwp_ret; [done|]. simpl.
      pose proof (building_steps _ _ _ Ht7 Hb) as Hbt.
      eexists. split; [eapply mkReady; [reflexivity|..]|done]; simpl; try done.
      * apply ctx_made; try done. apply nil_ok.
      * by apply building_active.
Qed.
End Frames.

(** The steps of a proof about an executive, for the files that follow. *)
Ltac xstep := apply xwp_bind.
Ltac xset := apply xwp_bind, xwp_set; [assumption|].
Ltac xget := apply xwp_bind, xwp_get; [assumption|].
