(* ===== verification/ExecutiveGo.v ===== *)
(** * Running calls and creations

    By induction on the levels of executives: the environment on the state satisfies the laws the
    interpreter asks for, running the machine finishes a frame, and so do the calls and the creations
    that the machine makes. *)

From S2P Require Import Prelude CommonData Rlp Instruction EVMSchedule Words ExtVMFace LegacyVM LegacyVMLogic LegacyVMSafety ChainParams Transaction State StateInv StateRollback StateClaims Executive ExecutiveInv ExecutiveFrames.
From Stdlib Require Import ZArith Lia Bool.
From stdpp Require Import base list gmap.
Open Scope Z_scope.
Open Scope exec_scope.

Section Go.
Context {SP : StateParams} {EP : ExecParams}.
Variable env : EnvInfo.
Variable B : Z.
Hypothesis HP : params_ok env B.

Let sha3_word := po_sha3 env B HP.
Abbreviation good := (good B).
Abbreviation steps := (steps B).
Abbreviation ready := (ready env B).
Abbreviation finished := (finished B).
Abbreviation xwp := (xwp B).

(** ** One frame *)

(** Setting up a frame, from the state [s]: the savepoint is taken at some [sp] in [T], then the frame is
    finished, or ready for the machine. *)
Definition started (s : State) (T : State -> Prop) (g d : Z) (pre : bool) (r : result VMException bool * (Executive * State)) : Prop :=
  match r with
  | (Ok over, (e, t)) => exists sp, T sp /\ steps s sp /\ is_u256 (m_newAddress e) /\
      if (over : bool) then finished sp g pre e t else exists x, ready sp e t x /\ depth (ext_ctx x) = d /\ m_gas e = g
  | (Err x, (_, t)) => exc_ok x /\ steps s t
  end.
(** The savepoint of a creation is taken after the nonce of the creator [a] has grown. *)
Definition counted (a : Z) (s sp : State) : Prop :=
  exists s0, obs s s0 /\ (sp = s0 \/ incNonce a s0 = (Ok tt, sp)).
(** The machine finishes every frame that is ready. *)
Definition go_ok (n : nat) : Prop := forall sp e s x, ready sp e s x -> depth (ext_ctx x) <= 1025 < Z.of_nat n + depth (ext_ctx x) ->
  match goN env n (e, s) with
  | (Ok _, (e', t)) => finished sp (m_gas e) false e' t /\ (m_newAddress e' = 0 \/ m_newAddress e' = m_newAddress e)
  | (Err y, (_, t)) => exc_ok y /\ steps sp t
  end.

Lemma finished_weaken sp g pre e s : finished sp g false e s -> finished sp g pre e s.
Proof. intros [? ? ? Hf]. split; try done. intros H. destruct (Hf H) as [|]; [done|by right]. Qed.

(** A sub-call or a sub-creation. *)
Lemma subFrame_ok n start T d ro g pre (e : ExtState State) : go_ok n -> d <= 1025 < Z.of_nat n + d ->
  started (world e) T g d pre (start (newExecutive d ro None, world e)) ->
  match subFrame (goN env n) start d ro e with
  | (Ok x, e') => exists sp, T sp /\ steps (world e) sp /\ finished sp g pre x (world e') /\ is_u256 (m_newAddress x)
  | (Err y, e') => exc_ok y /\ steps (world e) (world e')
  end.
Proof.
  intros Hgo Hn. unfold subFrame, started, xbind. destruct (start _) as [[over|y] [x t]]; [|done].
  intros (sp & HT & Hsp & Hna & H). destruct over; [simpl; eauto 6|]. destruct H as (v & Hrd & Hd & Hg).
  pose proof (Hgo sp x t v Hrd ltac:(lia)) as H. destruct (goN env n (x, t)) as [[u|y] [x' t']].
  - destruct H as [Hf Hna']. rewrite Hg in Hf. simpl. exists sp. split_and!; [done|done|by apply finished_weaken|].
    destruct Hna' as [-> | ->]; [apply zero_u256|done].
  - destruct H as [Hy Ht]. split; [done|]. by eapply steps_trans.
Qed.

Lemma pristine_new d ro r : pristine (newExecutive d ro r).
Proof. done. Qed.
(** A call made by the machine. *)
Lemma call_started s p gp og d ro : good s -> params_call s p -> is_u256 gp -> is_u256 og ->
  started s (eq s) (cp_gas p) d (isPrecompiled chainParams (codeAddress p) (env_number env)) (exec_call env p gp og (newExecutive d ro None, s)).
Proof.
  intros G Hp Hgp Hog. pose proof (callBody_ok env B HP p gp og (newExecutive d ro None) s G (pristine_new d ro None) Hp Hgp Hog) as H.
  unfold exec_call, callNonce, xbind, xget, xret. simpl. unfold ExecutiveFrames.xwp in H.
  destruct (callBody env p gp og (newExecutive d ro None, s)) as [[over|x] [e t]]; [|destruct H as (? & ? & _); done].
  destruct H as (Ht & Hna & HQ). exists s. split; [done|]. split; [by apply steps_refl|]. rewrite Hna. by split; [apply zero_u256|].
Qed.

(** A creation made by the machine. *)
Lemma right160_word z : is_u256 (right160 z).
Proof. unfold right160, is_u256. pose proof (Z.mod_pos_bound z (2 ^ 160) ltac:(lia)). lia. Qed.
Lemma version_zero s a : good s -> field 0 m_version s a = 0.
Proof. intros [_ Hs _]. unfold field. destruct (acct s a) eqn:E; [|done]. apply (as_version _ _ _ _ (sn_acct _ _ Hs _ _ E)). Qed.
Lemma checked_Ok {A} (m : SM A) s r t : checked m s = (Ok r, t) -> m s = (Ok r, t).
Proof. unfold checked. destruct (m s) as [r' t']. destruct (_ >? _); [done|]. destruct r'; [by intros [= -> ->]|done]. Qed.
Lemma executeCreate_started s a v gp g init og e : good s -> pristine e -> is_u256 a -> is_u256 v -> is_u256 gp -> is_u256 og ->
  is_u256 g -> is_u256 (m_newAddress e) -> buffer_ok init -> v = 0 \/ 0 < v <= field 0 m_balance s a -> m_depth e <= 1024 ->
  started s (counted a s) g (m_depth e) false (executeCreate env a v gp g init og 0 (e, s)).
Proof.
  intros G He Ha Hv Hgp Hog Hg Hna Hinit Haff Hd.
  assert (Hbody : forall sp, counted a s sp -> steps s sp -> richer s sp -> started s (counted a s) g (m_depth e) false (createBody env a v gp g init og 0 (e, sp))).
  { intros sp HT Hsp Hri. pose proof (createBody_ok env B HP a v gp g init og e sp (st_good _ _ _ Hsp) He Ha Hv Hgp Hog Hg Hna Hinit) as H.
    unfold ExecutiveFrames.xwp in H. destruct (createBody env a v gp g init og 0 (e, sp)) as [[over|x] [e' t]].
    - destruct H as [Ht HQ]; [by destruct Haff; [left|right; specialize (Hri a); lia]|done|]. exists sp. split; [done|]. split; [done|].
      destruct over; [by destruct HQ|]. destruct HQ as (x & Hrd & Hdx & Hgx & ->). split; [done|]. by exists x.
    - destruct H as (Hx & Ht & _); [by destruct Haff; [left|right; specialize (Hri a); lia]|done|]. split; [done|]. by eapply steps_trans. }
  unfold executeCreate, xbind. destruct (negb _ || _).
  - destruct (checked_ok B (incNonce a) s (fun r t => touched s a r t /\ richer s t)) as (r & t & E & Ht & Hr); [done| |].
    { destruct G, HP. by apply incNonce_ok. }
    unfold onState. rewrite E. destruct Hr as [-> |(r0 & [(-> & _) Hri] & ->)]; [split; [by left|done]|].
    simpl. apply Hbody; try done. exists s. split; [done|]. right. by apply checked_Ok.
  - simpl. apply Hbody; [|by apply steps_refl|by intros b]. exists s. by split; [|left].
Qed.
Lemma create_started s e0 a v gp g init og i salt : good s -> pristine e0 -> is_u256 a -> is_u256 v -> is_u256 gp -> is_u256 og ->
  is_u256 g -> buffer_ok init -> v = 0 \/ 0 < v <= field 0 m_balance s a -> m_depth e0 <= 1024 -> i = I_CREATE \/ i = I_CREATE2 ->
  started s (counted a s) g (m_depth e0) false (match i with
    | I_CREATE => createOpcode env a v gp g init og
    | I_CREATE2 => create2Opcode env a v gp g init og salt
    | _ => xthrow UndefinedBehaviour
    end (e0, s)).
Proof.
  intros G He0 Ha Hv Hgp Hog Hg Hinit Haff Hd Hi.
  assert (Hrest : forall t e, steps s t -> obs s t -> pristine e -> is_u256 (m_newAddress e) -> m_depth e = m_depth e0 ->
    started s (counted a s) g (m_depth e0) false ((let! version := onState (State.version a) in executeCreate env a v gp g init og version) (e, t))).
  { intros t e Ht Ho He Hna Hde. unfold xbind, onState.
    pose proof (st_good _ _ _ Ht) as [Hw Hs Hl]. destruct (checked_ok B (State.version a) t _ (mkGood _ _ Hw Hs Hl)
      (op_ok_returns B _ t _ Hw Hs (version_returns t a Hw))) as (r & u & E & Hu & Hr). rewrite E.
    assert (Hsu : steps s u) by (by eapply steps_trans). destruct Hr as [-> |(r0 & (-> & Hou & _) & ->)]; [split; [by left|done]|].
    simpl. rewrite version_zero by done. rewrite <- Hde. pose proof (st_good _ _ _ Hsu) as Gu. 
    assert (Hst : started u (counted a u) g (m_depth e) false (executeCreate env a v gp g init og 0 (e, u))).
    { apply executeCreate_started; try done; [|lia]. assert (Hosu : obs s u) by (by etrans).
      by rewrite <- (obs_field 0 m_balance _ _ _ Hosu) by (by intros ? ? []). }
    revert Hst. unfold started. destruct (executeCreate env a v gp g init og 0 (e, u)) as [[over|x] [e' t']].
    - intros (sp & (s0 & Hos0 & HT) & Hsp & HQ). exists sp. split; [exists s0; split; [etrans; [exact Ho|]; by etrans|done]|]. split; [by eapply steps_trans|done].
    - intros [? ?]. split; [done|by eapply steps_trans]. }
  destruct Hi as [-> | ->].
  - unfold createOpcode, xbind at 1, onState. destruct G as [Hw Hs Hl].
    destruct (checked_ok B (getNonce a) s _ (mkGood _ _ Hw Hs Hl) (op_ok_returns B _ s _ Hw Hs (getNonce_returns s a Hw))) as (r & u & E & Hu & Hr).
    rewrite E. destruct Hr as [-> |(r0 & (-> & Hou & _) & ->)]; [split; [by left|done]|]. simpl.
    apply (Hrest u); try done; [by destruct He0|]. simpl. apply right160_word.
  - unfold create2Opcode, xbind at 1. simpl. apply (Hrest s); try done; [by apply steps_refl|by destruct He0|]. simpl. apply right160_word.
Qed.

(** ** The environment of the machine satisfies its laws *)

Section Level.
Variable n : nat.
Hypothesis IH : go_ok n.

Lemma ext_call_ok x p (e : ExtState State) : good (world e) -> params_call (world e) p -> is_u256 (gasPrice (ext_ctx x)) ->
  is_u256 (origin (ext_ctx x)) -> depth (ext_ctx x) + 1 <= 1025 < Z.of_nat n + (depth (ext_ctx x) + 1) ->
  match ext_call env (goN env n) x p e with
  | (Ok (r, g), e') => 0 <= g <= cp_gas p /\ buffer_ok (output r) /\ steps (world e) (world e') /\
      (success r = false -> isPrecompiled chainParams (codeAddress p) (env_number env) = true \/ obs (world e) (world e'))
  | (Err y, e') => exc_ok y /\ steps (world e) (world e')
  end.
Proof.
  intros G Hp Hgp Hog Hn.
  pose proof (call_started (world e) p _ _ (depth (ext_ctx x) + 1) (ext_readOnly x) G Hp Hgp Hog) as Hst.
  pose proof (subFrame_ok n _ _ _ (ext_readOnly x) _ _ e IH Hn Hst) as H. unfold ext_call, emap.
  destruct (subFrame _ _ _ _ e) as [[y|y] e']; [|done]. destruct H as (sp & <- & Hsp & [Ht Hgy Hout Hf] & Hna).
  split_and!; [lia|lia|done|done|]. simpl. unfold succeeded. intros Hs. apply bool_decide_eq_false in Hs.
  destruct Hf as [|[? _]]; [|by left|by right]. intros E. by rewrite E in Hs.
Qed.

Lemma ext_create_ok x v g init i salt (e : ExtState State) : good (world e) -> ctx_ok (ext_ctx x) -> is_u256 v -> is_u256 g ->
  buffer_ok init -> v = 0 \/ 0 < v <= field 0 m_balance (world e) (myAddress (ext_ctx x)) ->
  depth (ext_ctx x) < 1024 -> 1025 < Z.of_nat n + (depth (ext_ctx x) + 1) -> i = I_CREATE \/ i = I_CREATE2 ->
  match ext_create env (goN env n) x v g init i salt e with
  | (Ok (r, g'), e') => 0 <= g' <= g /\ buffer_ok (cr_output r) /\ is_u256 (cr_address r) /\ steps (world e) (world e') /\
      (cr_success r = false -> exists sp, counted (myAddress (ext_ctx x)) (world e) sp /\ obs sp (world e'))
  | (Err y, e') => exc_ok y /\ steps (world e) (world e')
  end.
Proof.
  intros G Hctx Hv Hg Hinit Haff Hd Hn Hi. destruct (ctx_addresses _ Hctx) as (Hmy & _ & Hog). destruct (ctx_words _ Hctx) as [_ Hgp].
  pose proof (create_started (world e) (newExecutive (depth (ext_ctx x) + 1) true None) (myAddress (ext_ctx x)) v (gasPrice (ext_ctx x)) g init
    (origin (ext_ctx x)) i salt G (pristine_new _ _ _) Hmy Hv Hgp Hog Hg Hinit Haff ltac:(simpl; lia) Hi) as Hst.
  pose proof (subFrame_ok n _ _ (depth (ext_ctx x) + 1) true g false e IH ltac:(lia) Hst) as H. unfold ext_create, emap.
  destruct (subFrame _ _ _ _ e) as [[y|y] e']; [|done]. destruct H as (sp & HT & Hsp & [Ht Hgy Hout Hf] & Hna).
  split_and!; [lia|lia|done|done|by eapply steps_trans|]. simpl. unfold succeeded. intros Hs. apply bool_decide_eq_false in Hs.
  destruct Hf as [|[? _]]; [|done|by exists sp]. intros E. by rewrite E in Hs.
Qed.

(** What the machine passes to a call is what a call needs. *)
Lemma active_funds s a : (exists y, acct s a = Some y /\ active y) -> field (m_initial_funds s) m_balance s a = field 0 m_balance s a.
Proof. intros (y & Hy & _). unfold field. by rewrite Hy. Qed.
Lemma call_params s ctx p : ctx_ok ctx -> (exists y, acct s (myAddress ctx) = Some y /\ active y) ->
  valueTransfer p <= field 0 m_balance s (myAddress ctx) -> call_ok ctx p -> params_call s p.
Proof.
  intros Hctx Hact Hv [Hca Hsd Hrc [Hvt Hav] Hg Hd]. destruct (ctx_addresses _ Hctx) as (Hmy & Hcl & _). unfold is_address in Hca. split.
  - split; [by destruct Hsd as [-> |[-> _]]|]. destruct Hrc as [-> | ->]; [done|]. unfold is_u256. lia.
  - done.
  - unfold is_u256 in Hvt. destruct Hsd as [-> |[_ ->]]; lia.
  - unfold is_u256. lia.
  - done.
  - destruct Hrc as [-> | ->]; [done|]. unfold field. destruct (acct s (codeAddress p)) as [y|] eqn:E; [|done]. intros Hh. exists y. split; [done|]. by right.
Qed.

Section Face.
Variables (s1 : State) (x : ExtVM).
Hypothesis Hctx : ctx_ok (ext_ctx x).
Hypothesis Hact : exists y, acct s1 (myAddress (ext_ctx x)) = Some y /\ active y.
Hypothesis Hn : 1025 < Z.of_nat n + (depth (ext_ctx x) + 1).
Abbreviation me := (myAddress (ext_ctx x)).

Lemma face_balance e e0 b : steps s1 (world e0) -> onWorld (State.balance me) e0 = (Ok b, e) ->
  steps s1 (world e) /\ b = field 0 m_balance (world e) me.
Proof.
  intros He0. pose proof (st_good _ _ _ He0) as G. destruct G as [Hw Hs Hl].
  destruct (checked_ok B (State.balance me) (world e0) _ (mkGood _ _ Hw Hs Hl) (op_ok_returns B _ _ _ Hw Hs (balance_returns _ me Hw)))
    as (r & t & E & Ht & Hr). unfold onWorld. rewrite E. destruct Hr as [-> |(r0 & (-> & Ho & _) & ->)]; [done|].
  simpl. intros [= <- <-]. simpl. split; [by eapply steps_trans|]. rewrite active_funds by (by eapply active_steps).
  apply obs_field; [done|]. by intros ? ? [].
Qed.
Lemma face_setStore k v e : is_u256 v -> steps s1 (world e) ->
  match onWorld (setStorage me k v) e with
  | (Ok _, e') => steps s1 (world e')
  | (Err y, e') => (exc_ok y \/ y = Other DevStorageOverflow) /\ steps s1 (world e')
  end.
Proof.
  intros Hv He. pose proof (st_good _ _ _ He) as G. destruct (active_steps _ _ _ _ He Hact) as (y & Hy & Hay). destruct G as [Hw Hs Hl].
  destruct (checked_ok B (setStorage me k v) (world e) _ (mkGood _ _ Hw Hs Hl)
    (setStorage_ok B (po_patch env B HP) _ me k v y Hw Hs Hv Hy Hay)) as (r & t & E & Ht & Hr). unfold onWorld. rewrite E.
  assert (Hst : steps s1 t) by (by eapply steps_trans).
  destruct Hr as [-> |(r0 & [-> | ->] & ->)]; simpl; [by split; [left; left|]|done|by split; [right|]].
Qed.
Lemma face_laws : @ExtVMLaws State (extFace env (goN env n) x) (ext_ctx x) (fun e => steps s1 (world e)).
Proof.
  constructor; simpl; try done.
  - intros k _. by apply env_store.
  - intros k v e _. by apply face_setStore.
  - intros k _. by apply env_original.
  - intros a. by apply env_balance.
  - intros a. by apply env_code.
  - intros a. by apply env_codeSize.
  - intros a. by eapply env_codeHash.
  - intros a. by apply env_exists.
  - intros a. by eapply env_suicide.
  - intros k Hk. by eapply env_blockHash.
  - intros e e0 v g c i salt b He0 Hb Hvb Hd Hv Hg Hc Hs Hi. destruct (face_balance e e0 b He0 Hb) as [He ->].
    assert (Haff : v = 0 \/ 0 < v <= field 0 m_balance (world e) me) by (unfold is_u256 in Hv; lia).
    pose proof (ext_create_ok x v g c i salt e (st_good _ _ _ He) Hctx Hv Hg Hc Haff Hd Hn Hi) as H.
    destruct (ext_create _ _ _ _ _ _ _ _ e) as [[[r g']|y] e'].
    + destruct H as (? & ? & ? & ? & _). split_and!; try done; try lia. by eapply steps_trans.
    + destruct H as [? ?]. split; [done|]. by eapply steps_trans.
  - intros e e0 p b He0 Hb Hvb Hd Hcall. destruct (face_balance e e0 b He0 Hb) as [He ->].
    pose proof (call_params (world e) (ext_ctx x) p Hctx (active_steps _ _ _ _ He Hact) Hvb Hcall) as Hp.
    pose proof (ext_call_ok x p e (st_good _ _ _ He) Hp ltac:(apply Hctx) ltac:(apply Hctx) ltac:(lia)) as H.
    destruct (ext_call _ _ _ _ e) as [[[r g']|y] e'].
    + destruct H as (? & ? & ? & _). split_and!; try done; try lia. by eapply steps_trans.
    + destruct H as [? ?]. split; [done|]. by eapply steps_trans.
Qed.
End Face.

(** ** Running the machine *)

(** The executive while its machine runs, for the frame with the object [x], given [g] units of gas. *)
Record running (sp : State) (x : ExtVM) (g na : Z) (cr : bool) (e : Executive) : Prop := mkRunning {
  rn_ext : exists sb, m_ext e = Some (x <| ext_sub := sb |>);
  rn_savepoint : m_savepoint e = savepoint sp;
  rn_gas : 0 <= m_gas e <= g;
  rn_excepted : m_excepted e = TE_None;
  rn_output : m_output e = [];
  rn_newAddress : m_newAddress e = na;
  rn_creation : m_isCreation e = cr }.

Section Machine.
Variables (sp : State) (x : ExtVM) (g na : Z) (cr : bool).
Abbreviation me := (myAddress (ext_ctx x)).
Abbreviation face := (extFace env (goN env n)).
Hypothesis Hctx : ctx_ok (ext_ctx x).
Hypothesis Hg : is_u256 g.
Hypothesis Hn : depth (ext_ctx x) <= 1025 < Z.of_nat n + (depth (ext_ctx x) + 1).
Abbreviation running := (running sp x g na cr).

Lemma vmExec_ok e s (Q : list Z -> Executive -> State -> Prop) : running e -> steps sp s ->
  (exists y, acct s me = Some y /\ active y) ->
  (forall out e' t, running e' -> steps sp t -> steps s t -> buffer_ok out -> Q out e' t) -> xwp sp running (vmExec face) Q e s.
Proof.
  intros [[sb Hx] Hsv Hgas Hexc Hout Hna Hcr] Hs Hact HQ.
  set (x' := x <| ext_sub := sb |>) in *.
  destruct (@exec_ok State (face x') sha3 sha3_word (ext_ctx x') Hctx (fun e => steps s (world e))
    (face_laws s x' Hctx Hact (proj2 Hn)) tierOob (po_tier env B HP)
    (Z.to_nat (2 * u64 (m_gas e) + 4)) (m_gas e) (mkExt s (ext_sub x')) false) as (r & g' & vm & E & Hr & Hg' & Ht).
  { pose proof (wrap_range 64 (m_gas e) ltac:(lia)). unfold u64. lia. }
  { apply steps_refl. apply Hs. }
  unfold ExecutiveFrames.xwp, vmExec. rewrite Hx, E.
  assert (Hle : u64 (m_gas e) <= m_gas e) by (unfold u64, wrap; apply Z.mod_le; lia).
  assert (Hst : steps sp (world (LegacyVM.m_ext vm))) by (by eapply steps_trans).
  assert (Hrun : running (e <| m_gas := g' |> <| m_ext := Some (x <| ext_sub := sub (LegacyVM.m_ext vm) |>) |>)).
  { split; simpl; try done; [by eexists|lia]. }
  destruct r as [out|y]; [split; [done|]; by apply HQ|done].
Qed.

Lemma callData_ok o d : buffer_ok (isDeploymentAllowedCallData o d) /\ buffer_ok (isAddressWhitelistedCallData d).
Proof.
  assert (Hb : forall a, bytes_ok (addressBytes a)) by (intros; apply toBigEndian_ok).
  assert (Hr : bytes_ok (replicate 12 0)) by (by apply bytes_ok_replicate).
  assert (Hl : forall a, lenZ (addressBytes a) = 20) by (intros; unfold addressBytes; by rewrite toBigEndian_lenZ).
  unfold isDeploymentAllowedCallData, isAddressWhitelistedCallData, buffer_ok. rewrite !bytes_ok_app, !lenZ_app, !Hl. split; split.
  - split_and!; try done. by repeat constructor.
  - done.
  - split_and!; try done. by repeat constructor.
  - done.
Qed.
Lemma checkDeployment_ok e s (Q : unit -> Executive -> State -> Prop) : running e -> steps sp s -> depth (ext_ctx x) <= 1024 ->
  (forall e' t, running e' -> steps sp t -> steps s t -> Q tt e' t) -> xwp sp running (checkDeployment env face x) Q e s.
Proof.
  intros Hrun Hs Hd HQ. unfold checkDeployment. cbv zeta. set (cd := if isPatchEnabledWhen _ _ _ then _ else _).
  assert (Hcd : buffer_ok cd) by (unfold cd; case_match; apply (callData_ok (origin (ext_ctx x)))).
  xget. xstep. pose proof Hrun as [[sb Hx] Hsv Hgas Hexc Hout Hna Hcr].
  set (p := mkCallParameters _ _ _ _ _ _ _ _).
  assert (Hp : params_call s p).
  { split; simpl; try done; [by left|unfold is_u256 in *; lia|]. intros Hh. revert Hh. unfold field.
    destruct (acct s _) as [y|]; [|done]. intros Hh. exists y. split; [done|]. by right. }
  set (x' := x <| ext_sub := sb |>) in *. assert (Hn' : depth (ext_ctx x) + 1 <= 1025 < Z.of_nat n + (depth (ext_ctx x) + 1)) by lia.
  pose proof (ext_call_ok x' p (mkExt s (ext_sub x')) (st_good _ _ _ Hs) Hp (proj2 (ctx_words _ Hctx)) (proj2 (proj2 (ctx_addresses _ Hctx))) Hn') as H.
  unfold ExecutiveFrames.xwp at 1, onExtVM. rewrite Hx.
  change (@call State (face x') p) with (ext_call env (goN env n) x' p).
  destruct (ext_call _ _ _ p _) as [[[r g']|y] e'].
  - destruct H as (_ & _ & Ht & _). simpl in Ht. assert (Hst : steps sp (world e')) by (by eapply steps_trans). split; [done|].
    assert (Hrun' : running (e <| m_ext := Some (x <| ext_sub := sub e' |>) |>)) by (split; simpl; try done; by eexists).
    simpl fst. repeat case_match; try (by apply xwp_ret; auto); apply xwp_throw; try done. by right.
  - destruct H as [Hy Ht]. simpl in Ht. split; [done|]. split; [by eapply steps_trans|]. split; simpl; try done. by eexists.
Qed.

Lemma onRes_ok f e s (Q : unit -> Executive -> State -> Prop) : running e -> steps sp s ->
  (forall e', running e' -> m_gas e' = m_gas e -> Q tt e' s) -> xwp sp running (onRes f) Q e s.
Proof. intros [] Hs HQ. apply xwp_set; [done|]. apply HQ; [|done]. by split. Qed.
Lemma depositCode_ok out e s : running e -> steps sp s -> ext_version x = 0 -> buffer_ok out -> unused sp me -> building s me ->
  xwp sp running (depositCode x out) (fun _ e' t => running e') e s.
Proof.
  intros Hrun Hs Hv Hout Hu Hb. unfold depositCode. cbv zeta. set (sch := evmSchedule (ext_ctx x)). xget.
  xstep. apply onRes_ok; [done|done|]. intros e1 Hr1 Hg1. xstep.
  assert (Hrest : forall c e', buffer_ok c -> running e' -> xwp sp running
    (onRes (fun r => r <| er_output := c |>) >>> onState (setCode me c (ext_version x))) (fun _ e' t => running e') e' s).
  { intros c e' Hc Hr'. xstep. apply onRes_ok; [done|done|]. intros e2 Hr2 _. rewrite Hv. by eapply xwp_setCode. }
  destruct (_ >? _); [by apply xwp_throw|]. destruct (Z.leb_spec (u64 (lenZ out * createDataGas sch)) (m_gas e)) as [Hle|_].
  - xstep. apply onRes_ok; [done|done|]. intros e2 Hr2 Hg2. xset. apply xwp_ret; [done|]. apply Hrest; [done|].
    pose proof (wrap_range 64 (lenZ out * createDataGas sch) ltac:(lia)). pose proof (rn_gas _ _ _ _ _ _ Hrun).
    destruct Hr2. split; simpl; try done. unfold u64 in *. lia.
  - destruct (exceptionalFailedCodeDeposit sch); [by apply xwp_throw|]. xstep. apply onRes_ok; [done|done|].
    intros e2 Hr2 _. apply xwp_ret; [done|]. apply Hrest; [apply nil_ok|done].
Qed.
End Machine.

(** The body of a frame: the machine, and the code of a creation. *)
Lemma runFrame_ok sp e s x : ready sp e s x -> depth (ext_ctx x) <= 1025 < Z.of_nat n + (depth (ext_ctx x) + 1) ->
  let R e' := exists g na cr, running sp x g na cr e' /\ g = m_gas e /\ na = m_newAddress e in
  xwp sp R (runFrame env (extFace env (goN env n))) (fun _ e' t => m_savepoint e' = savepoint sp /\ 0 <= m_gas e' <= m_gas e /\
    m_excepted e' = TE_None /\ buffer_ok (m_output e') /\ m_newAddress e' = m_newAddress e) e s.
Proof.
  intros Hrd Hn R. pose proof Hrd as [Hx Hgsp Hsv Hs Hctx Henv Hver Hact Hcr Hg Hexc Hout].
  assert (Hrun : running sp x (m_gas e) (m_newAddress e) (m_isCreation e) e).
  { split; try done; [|unfold is_u256 in Hg; lia]. exists (ext_sub x). by destruct x. }
  assert (HR : forall e', running sp x (m_gas e) (m_newAddress e) (m_isCreation e) e' -> R e') by (intros e' He'; by eexists _, _, _).
  unfold runFrame. xget. xget. rewrite Hx. destruct (m_isCreation e) eqn:Ecr.
  - destruct (Hcr eq_refl) as (Hd & Hu & Hb). eapply xwp_mono; [|intros a e' t Ht HQ; exact HQ|exact HR]. xstep.
    apply checkDeployment_ok; try done. intros e1 s1 Hr1 Hs1 Hss1. xstep.
    apply vmExec_ok; try done; [by eapply active_steps|]. intros out e2 s2 Hr2 Hs2 Hss2 Ho.
    eapply xwp_mono; [apply (depositCode_ok sp x (m_gas e) (m_newAddress e) true out e2 s2); try done; do 2 (eapply building_steps; [eassumption|]); done| |done].
    intros [] e3 s3 _ [_ ? ? ? Ho3 ? _]. rewrite Ho3. split_and!; try done; try lia; apply nil_ok.
  - eapply xwp_mono; [|intros a e' t Ht HQ; exact HQ|exact HR]. xstep. apply vmExec_ok; try done.
    intros out e2 s2 [_ ? ? ? Ho3 ? _] Hs2 Hss2 Ho. apply xwp_set; [done|]. simpl. split_and!; try done; lia.
Qed.
End Level.

(** The handlers of exceptions. *)
Lemma finished_output sp g e s : finished sp g false e s -> finished sp g false
  (match m_output e with [] => e | out => e <| m_res := (fun r => r <| er_output := out |>) <$> m_res e |> end) s.
Proof. intros [? ? ? ?]. destruct (m_output e) eqn:E; split; simpl; try done; by rewrite E. Qed.
Lemma output_newAddress e : m_newAddress
  (match m_output e with [] => e | out => e <| m_res := (fun r => r <| er_output := out |>) <$> m_res e |> end) = m_newAddress e.
Proof. by destruct (m_output e). Qed.

Section Handlers.
Variables (sp : State) (g : Z) (e : Executive) (s : State).
Hypothesis Hs : steps sp s.
Hypothesis Hsp : good sp.
Hypothesis Hsv : m_savepoint e = savepoint sp.
Hypothesis Hg : 0 <= m_gas e <= g.
Abbreviation handled m := (exists e' t, m (e, s) = (Ok tt, (e', t)) /\ finished sp g false e' t /\ m_newAddress e' = 0).

Lemma handle_revert out : buffer_ok out ->
  handled (revert >>> Executive.xset (fun e => e <| m_output := out |> <| m_excepted := TE_RevertInstruction |>)).
Proof.
  intros Ho. destruct (revert_ok env B HP sp e s Hs Hsp Hsv) as (u & E & Hu & Hob & Hl).
  eexists _, u. unfold xbind, Executive.xset. rewrite E. split; [reflexivity|]. split; [|done]. split; simpl; try done; try lia; by right.
Qed.
Lemma handle_failure x : m_output e = [] ->
  handled (Executive.xset (fun e => e <| m_gas := 0 |> <| m_excepted := x |>) >>> revert).
Proof.
  intros Ho. set (e1 := e <| m_gas := 0 |> <| m_excepted := x |>). destruct (revert_ok env B HP sp e1 s Hs Hsp Hsv) as (u & E & Hu & Hob & Hl).
  eexists _, u. split; [exact E|]. split; [|done].
  split; simpl; try done; [lia|by rewrite Ho; apply nil_ok|by right].
Qed.
End Handlers.

Lemma goBody_ok n sp e s x : go_ok n -> ready sp e s x -> depth (ext_ctx x) <= 1025 < Z.of_nat n + (depth (ext_ctx x) + 1) ->
  match goBody env (extFace env (goN env n)) (e, s) with
  | (Ok _, (e', t)) => finished sp (m_gas e) false e' t /\ (m_newAddress e' = 0 \/ m_newAddress e' = m_newAddress e)
  | (Err y, (_, t)) => exc_ok y /\ steps sp t
  end.
Proof.
  intros IH Hrd Hn. pose proof (runFrame_ok n IH sp e s x Hrd Hn) as H. unfold ExecutiveFrames.xwp in H.
  unfold goBody. change (fst (e, s)) with e. rewrite (rd_ext _ _ _ _ _ _ Hrd).
  destruct (runFrame env (extFace env (goN env n)) (e, s)) as [[[]|y] [e' t]].
  - destruct H as (Ht & Hsv & Hgas & Hexc & Hout & Hna). split; [|rewrite output_newAddress; by right].
    by apply finished_output.
  - destruct H as (Hy & Ht & g & na & cr & [_ Hsv Hgas Hexc Hout Hna _] & -> & ->). pose proof (rd_good _ _ _ _ _ _ Hrd) as Hg.
    pose proof (fun x => handle_failure sp (m_gas e) e' t Ht Hg Hsv Hgas x Hout) as Hf.
    assert (Hend : forall m, (exists e'' u, m (e', t) = (Ok tt, (e'', u)) /\ finished sp (m_gas e) false e'' u /\ m_newAddress e'' = 0) ->
      match (match m (e', t) with
             | (Ok _, (e, st)) => (Ok tt, (match m_output e with [] => e | out => e <| m_res := (fun r => r <| er_output := out |>) <$> m_res e |> end, st))
             | (Err x, s') => (Err x, s') end : result VMException unit * (Executive * State)) with
      | (Ok _, (e', t)) => finished sp (m_gas e) false e' t /\ (m_newAddress e' = 0 \/ m_newAddress e' = m_newAddress e)
      | (Err y, (_, t)) => exc_ok y /\ steps sp t
      end).
    { intros m (e'' & u & -> & Hfin & Hn0). split; [by apply finished_output|]. rewrite output_newAddress. by left. }
    destruct y as [| | | | | | | | |out|o|o|]; try apply (Hend _ (Hf _)); try done. apply (Hend _ (handle_revert sp (m_gas e) e' t Ht Hg Hsv Hgas out Hy)).
Qed.

(** ** What leaves a frame *)

(** An exception of the machine never leaves the frame of that machine. *)
Definition plain (x : VMException) : Prop := match x with Other _ | ProcessExit _ | UndefinedBehaviour => True | _ => False end.
Definition quiet {A} (m : XM A) : Prop := forall s, match m s with (Err x, _) => plain x | _ => True end.
Lemma quiet_bind {A C} (m : XM A) (k : A -> XM C) : quiet m -> (forall a, quiet (k a)) -> quiet (xbind m k).
Proof. intros Hm Hk s. specialize (Hm s). unfold xbind. destruct (m s) as [[a|x] s']; [apply Hk|done]. Qed.
Lemma quiet_ret {A} (a : A) : quiet (xret a).
Proof. by intros s. Qed.
Lemma quiet_get {A} (f : Executive -> A) : quiet (Executive.xget f).
Proof. by intros s. Qed.
Lemma quiet_set f : quiet (Executive.xset f).
Proof. by intros s. Qed.
Lemma quiet_throw {A} x : plain x -> quiet (@xthrow A x).
Proof. by intros H s. Qed.
Lemma quiet_onState {A} (m : SM A) : quiet (onState m).
Proof.
  intros [e s]. unfold onState, checked. destruct (m s) as [r t]. destruct (_ >? _); [done|]. destruct r as [a|x]; [done|]. by destruct x.
Qed.
Lemma quiet_makeExt my cl og v gp dat c ver d isC stat ro : quiet (makeExt env my cl og v gp dat c ver d isC stat ro).
Proof. apply quiet_bind; [apply quiet_onState|]. intros []; [apply quiet_set|by apply quiet_throw]. Qed.
Ltac quiet_tac := repeat first
  [ apply quiet_makeExt | apply quiet_bind; [|intros ?] | apply quiet_ret | apply quiet_get | apply quiet_set | apply quiet_onState
  | by apply quiet_throw | case_match ].
Lemma quiet_exec_call p gp og : quiet (exec_call env p gp og).
Proof. unfold exec_call, callNonce, callBody. quiet_tac. Qed.
Lemma quiet_executeCreate a v gp g init og ver : quiet (executeCreate env a v gp g init og ver).
Proof. unfold executeCreate, createBody, accountAlreadyExist, openAccount, revert. quiet_tac. Qed.
Lemma quiet_goN n : quiet (goN env n).
Proof.
  destruct n as [|n]; [by intros s|]. intros [e s]. simpl. unfold goBody. simpl. destruct (m_ext e); [|done].
  destruct (runFrame _ _ _) as [[[]|x] [e' t]]; [done|].
  assert (H : forall (m : XM unit) s, quiet m -> match (match m s with
    | (Ok _, (e, st)) => (Ok tt, (match m_output e with [] => e | out => e <| m_res := (fun r => r <| er_output := out |>) <$> m_res e |> end, st))
    | (Err x, s') => (Err x, s') end : result VMException unit * (Executive * State)) with (Err x, _) => plain x | _ => True end).
  { intros m s0 Hm. specialize (Hm s0). by destruct (m s0) as [[]  []]. }
  destruct x; try done; apply H; unfold revert; quiet_tac.
Qed.
Lemma quiet_subFrame n start d ro e : quiet start -> match subFrame (goN env n) start d ro e with (Err x, _) => plain x | _ => True end.
Proof.
  intros Hs. unfold subFrame.
  match goal with |- context [xbind start ?k ?s0] => assert (H : quiet (xbind start k)) by (quiet_tac; apply Hs || apply quiet_goN); specialize (H s0); destruct (xbind start k s0) as [[] []] end; done.
Qed.

(** What ends the process, or is beyond the log of changes: neither undefined behaviour nor any other exception. *)
Definition fatal (x : VMException) : Prop :=
  exists o, (x = Other o \/ x = ProcessExit o) /\ (o = StdLengthError \/ o = StdRuntimeError).
Lemma plain_fatal x : plain x -> exc_ok x -> fatal x.
Proof. destruct x; try done; intros _ H; eexists; split; eauto. Qed.

(** ** Every level finishes its frames *)

Lemma go_all n : go_ok n.
Proof.
  induction n as [|n IH]; intros sp e s x Hrd Hn; [lia|]. apply (goBody_ok n sp e s x); [done|done|lia].
Qed.
End Go.
