(* ===== verification/ExecutiveTx.v ===== *)
(** * Executing a transaction

    The stages of [State::executeTransaction]: what the checks establish, and that every stage before the
    deletion of accounts can be undone, whatever it throws. *)

From S2P Require Import Prelude CommonData Rlp Instruction EVMSchedule Words ExtVMFace LegacyVM LegacyVMLogic LegacyVMSafety ChainParams Transaction State StateInv StateRollback StateClaims Executive ExecutiveInv ExecutiveFrames ExecutiveGo.
From Stdlib Require Import ZArith Lia Bool.
From stdpp Require Import base list gmap.
Open Scope Z_scope.
Open Scope exec_scope.

(** A transaction as the reader makes it: words and bytes. *)
Record tx_fits {SP : StateParams} {EP : ExecParams} (t : Transaction) : Prop := {
  tf_words : is_u256 (t_value t) /\ is_u256 (t_gasPrice t) /\ is_u256 (gas t);
  tf_receiver : is_u256 (t_receiveAddress t);
  tf_data : buffer_ok (t_data t);
  tf_sender a : sender sha3 recover t = Ok a -> is_u256 a }.

Section Tx.
Context {SP : StateParams} {EP : ExecParams}.
Variable env : EnvInfo.
Variable B : Z.
Hypothesis HP : params_ok env B.

Abbreviation good := (good B).
Abbreviation steps := (steps B).
Abbreviation finished := (finished B).

(** ** Stages that can be undone *)

(** From a state that is steps away from [s0], [m] ends steps away from [s0], with [Q], or throws; what
    [catch( Exception const& )] catches leaves a state that is steps away too. *)
Definition tries {A} (s0 : State) (m : XM A) (Q : A -> Executive -> State -> Prop) (e : Executive) (s : State) : Prop :=
  match m (e, s) with
  | (Ok a, (e', s')) => steps s0 s' /\ Q a e' s'
  | (Err x, (_, s')) => isDevException x = true -> steps s0 s'
  end.
Lemma tries_bind {A C} s0 (m : XM A) (k : A -> XM C) Q e s :
  tries s0 m (fun a e' s' => tries s0 (k a) Q e' s') e s -> tries s0 (xbind m k) Q e s.
Proof. unfold tries, xbind. destruct (m (e, s)) as [[a|x] [e' s']]; [|done]. by intros [_ H]. Qed.
Lemma tries_ret {A} s0 (a : A) Q e s : steps s0 s -> Q a e s -> tries s0 (xret a) Q e s.
Proof. done. Qed.
Lemma tries_get {A} s0 (f : Executive -> A) Q e s : steps s0 s -> Q (f e) e s -> tries s0 (Executive.xget f) Q e s.
Proof. done. Qed.
Lemma tries_set s0 f Q e s : steps s0 s -> Q tt (f e) s -> tries s0 (Executive.xset f) Q e s.
Proof. done. Qed.
Lemma tries_throw {A} s0 x (Q : A -> Executive -> State -> Prop) e s : steps s0 s -> tries s0 (xthrow x) Q e s.
Proof. by intros Hs _. Qed.
Lemma tries_lift {A} s0 (r : result TxError A) Q e s : steps s0 s -> (forall a, r = Ok a -> Q a e s) -> tries s0 (xlift r) Q e s.
Proof. intros Hs HQ. unfold tries, xlift. destruct r; auto. Qed.
Lemma tries_when s0 (b : bool) (r : result TxError unit) Q e s : steps s0 s -> Q tt e s -> tries s0 (if b then xlift r else xret tt) Q e s.
Proof. intros Hs HQ. destruct b; [apply tries_lift; [done|]; by intros [] _|by apply tries_ret]. Qed.
Lemma tries_assert s0 (b : bool) Q e s : steps s0 s -> (b = true -> Q tt e s) -> tries s0 (xassert b) Q e s.
Proof. intros Hs HQ. unfold xassert. destruct b; [apply tries_ret; auto|by apply tries_throw]. Qed.
Lemma tries_check s0 b x Q e s : steps s0 s -> (b = false -> Q tt e s) -> tries s0 (xcheck b x) Q e s.
Proof. intros Hs HQ. unfold xcheck. destruct b; [by apply tries_throw|]. by apply tries_ret; auto. Qed.
Lemma tries_xwp {A} s0 I (m : XM A) (Q : A -> Executive -> State -> Prop) e s : xwp B s0 I m Q e s -> tries s0 m Q e s.
Proof. unfold xwp, tries. destruct (m (e, s)) as [[a|x] [e' s']]; [done|]. intros (_ & ? & _). done. Qed.
Lemma tries_mono {A} s0 (m : XM A) (Q Q' : A -> Executive -> State -> Prop) e s : tries s0 m Q e s ->
  (forall a e' s', steps s0 s' -> Q a e' s' -> Q' a e' s') -> tries s0 m Q' e s.
Proof. unfold tries. destruct (m (e, s)) as [[a|x] [e' s']]; [intros [Hs HQ] H; auto|done]. Qed.
Lemma tries_read {A} s0 (m : SM A) v Q e s : steps s0 s -> returns m s v ->
  (forall t, steps s0 t -> steps s t -> obs s t -> Q v e t) -> tries s0 (onState m) Q e s.
Proof. intros Hs Hr HQ. eapply (tries_xwp _ anyway), (xwp_read _ _ anyway); try done. auto. Qed.
Ltac tstep := apply tries_bind.

(** ** What the checks establish *)

Definition cost (t : Transaction) (ext : bool) : Z := if ext then 0 else u256 (gas t * tx_gasPrice t).
(** The sender has the value and the cost of the gas. *)
Definition affords (t : Transaction) (s : State) : Prop := forall ext from,
  hasExternalGas t = Ok ext -> sender sha3 recover t = Ok from -> t_value t + cost t ext <= field 0 m_balance s from.
(** The nonce of a signed transaction is that of its sender. *)
Definition in_order (t : Transaction) (s : State) : Prop := hasSignature t = true -> hasZeroSignature t = false -> forall from,
  sender sha3 recover t = Ok from -> t_nonce t = field (m_accountStartNonce s) m_nonce s from.
Lemma in_order_obs t s s' : obs s s' -> in_order t s -> in_order t s'.
Proof.
  intros Ho H H1 H2 from Hf. rewrite (H H1 H2 from Hf), (obs_startNonce _ _ Ho). apply obs_field; [done|]. by intros ? ? [].
Qed.
Lemma balance_nonneg s a : good s -> 0 <= field 0 m_balance s a < 2 ^ 256.
Proof. intros [Hw _ _]. unfold field. destruct (acct s a) as [x|] eqn:E; [|done]. by apply (wf_acct _ Hw a x E). Qed.

Lemma sealVerify_ok s0 t e s Q : steps s0 s ->
  ((hasZeroSignature t = true -> t_value t = 0 /\ t_gasPrice t = 0) -> Q tt e s) ->
  tries s0 (seal_verifyTransaction env true true t) Q e s.
Proof.
  intros Hs HQ. unfold seal_verifyTransaction. cbv zeta. cbn [andb].
  tstep. apply tries_check; [done|]. intros _. tstep. apply tries_check; [done|]. intros H1. tstep. apply tries_check; [done|]. intros H2.
  assert (Hz : hasZeroSignature t = true -> t_value t = 0 /\ t_gasPrice t = 0).
  { intros Hz. rewrite Hz in H1, H2. rewrite andb_true_r in H1. rewrite Z.geb_leb in H2. apply Z.ltb_ge in H1. apply Z.leb_le in H1.
    rewrite H1 in H2. simpl in H2. rewrite !orb_false_iff, !negb_false_iff, !Z.eqb_eq in H2. tauto. }
  tstep. apply tries_when; [done|]. tstep. apply tries_check; [done|]. intros _. tstep. apply tries_check; [done|]. intros _.
  apply tries_when; auto.
Qed.

Lemma verifyTransaction_ok t gp e s Q : good s -> m_initial_funds s = 0 -> tx_fits t ->
  (forall s', steps s s' -> obs s s' -> affords t s' -> in_order t s' -> Q tt e s') -> tries s (verifyTransaction env t gp false) Q e s.
Proof.
  intros G Hfunds Ht HQ. pose proof (steps_refl B s G) as Hs. unfold verifyTransaction. tstep.
  apply tries_lift; [done|]. intros ext Hext. tstep. apply tries_assert; [done|]. intros _. tstep. apply tries_check; [done|]. intros _. tstep.
  apply sealVerify_ok; [done|]. intros Hz. destruct (tf_words t Ht) as (Hv & _ & _).
  destruct (hasZeroSignature t) eqn:Ez.
  { apply tries_ret; [done|]. destruct (Hz eq_refl) as [Hv0 Hp0]. apply HQ; [done|done| |intros _ ?; congruence]. intros ext' from _ _. unfold cost.
    assert (tx_gasPrice t = 0) as -> by (unfold tx_gasPrice; case_match; done). rewrite Z.mul_0_r, Hv0.
    pose proof (balance_nonneg s from G). change (u256 0) with 0. destruct ext'; lia. }
  tstep. set (K := fun (_ : unit) => _).
  assert (HK : forall s1, steps s s1 -> obs s s1 -> in_order t s1 -> K tt e s1).
  { intros s1 Hs1 Ho1 Hord. unfold K. cbv zeta. tstep. apply tries_lift; [done|]. intros from Hfrom. tstep.
    eapply tries_read; [done|apply balance_returns, (st_good _ _ _ Hs1)|]. intros s2 Hs2 _ Ho2.
    apply tries_check; [done|]. intros Hb. apply Z.ltb_ge in Hb. assert (Ho : obs s s2) by (by etrans). apply HQ; [done|done| |by apply (in_order_obs t s1)].
    intros ext' from' E1 E2. rewrite Hext in E1. rewrite Hfrom in E2. injection E1 as <-. injection E2 as <-.
    unfold cost. rewrite <- (obs_field 0 m_balance _ _ from Ho2) by (by intros ? ? []).
    rewrite <- (obs_funds _ _ Ho1), Hfunds in Hb. done. }
  destruct (hasSignature t) eqn:Esig.
  - tstep. apply tries_lift; [done|]. intros from Hfrom. tstep. eapply tries_read; [done|apply getNonce_returns, G|].
    intros s1 Hs1 _ Ho1. apply tries_check; [done|]. intros Hn. apply HK; [done|done|]. apply (in_order_obs t s); [done|].
    intros _ _ from' Hf'. rewrite Hfrom in Hf'. injection Hf' as <-. rewrite andb_true_r, andb_false_r, orb_false_r, negb_false_iff in Hn. by apply Z.eqb_eq.
  - apply tries_ret; [done|]. apply HK; [done|done|]. intros H. congruence.
Qed.

Lemma initialize_ok t gp e s Q : good s -> m_initial_funds s = 0 -> tx_fits t ->
  (forall base s', steps s s' -> obs s s' -> affords t s' ->
     Q tt (e <| m_t := t |> <| m_baseGasRequired := base |> <| m_gasCost := u256 (gas t * tx_gasPrice t) |>) s') ->
  tries s (initialize env gp t) Q e s.
Proof.
  intros G Hfunds Ht HQ. pose proof (steps_refl B s G) as Hs. unfold initialize. tstep. apply tries_set; [done|]. tstep. apply tries_assert; [done|]. intros _.
  tstep. apply tries_set; [done|]. set (base := tx_baseGasRequired _ _).
  tstep. pose proof (verifyTransaction_ok t gp (e <| m_t := t |> <| m_baseGasRequired := base |>) s
    (fun _ e' s' => e' = e <| m_t := t |> <| m_baseGasRequired := base |> /\ obs s s' /\ affords t s') G Hfunds Ht) as H.
  unfold tries at 1, xcatch. unfold tries at 1 in H.
  destruct (verifyTransaction env t gp false _) as [[[]|x] [e' s']].
  - destruct H as [Hs' (-> & Ho & Haf)]; [by intros|]. split; [done|]. apply tries_set; [done|]. by apply HQ.
  - destruct (isDevException x) eqn:Ex; [|congruence]. intros _. apply H; [by intros|done].
Qed.

(** ** Calls and creations of a transaction *)

(** The frame of the transaction is set up, on a state that can be undone back to [s]. *)
Definition launched (s : State) (over : bool) (e : Executive) (t : State) : Prop :=
  exists sp g pre, steps s sp /\ if over then finished sp g pre e t else exists x, ready env B sp e t x /\ depth (ext_ctx x) = 0.
Lemma started_tries s0 s T g d pre m e Q : steps s0 s -> d = 0 -> started env B s T g d pre (m (e, s)) ->
  (forall over e' t, steps s0 t -> launched s0 over e' t -> Q over e' t) -> tries s0 m Q e s.
Proof.
  intros Hs -> Hst HQ. unfold tries. unfold started in Hst. destruct (m (e, s)) as [[over|x] [e' t]].
  - destruct Hst as (sp & _ & Hsp & _ & H). assert (Hsp0 : steps s0 sp) by (by eapply steps_trans).
    assert (Ht : steps s0 t). { eapply steps_trans; [exact Hsp0|]. destruct over; [apply H|]. destruct H as (x & [] & _). done. }
    split; [done|]. apply HQ; [done|]. exists sp, g, pre. split; [done|]. destruct over; [done|]. destruct H as (x & ? & ? & _). eauto.
  - intros _. destruct Hst as [_ ?]. by eapply steps_trans.
Qed.

Lemma params_tx s from to v g dat : is_u256 from -> is_u256 to -> is_u256 v -> v <= field 0 m_balance s from -> is_u256 g -> buffer_ok dat ->
  params_call s (mkCallParameters from to to v v g dat false).
Proof.
  intros Hf Ht Hv Haf Hg Hd. split; simpl; try done; [unfold is_u256 in Hv; lia|]. unfold field.
  destruct (acct s to) as [y|]; [|done]. intros Hh. exists y. split; [done|]. by right.
Qed.
Lemma txCall_ok s0 from to v g dat gp e s Q : steps s0 s -> pristine e -> m_depth e = 0 -> is_u256 (m_newAddress e) ->
  is_u256 from -> is_u256 to -> is_u256 v -> v <= field 0 m_balance s from -> is_u256 g -> buffer_ok dat -> is_u256 gp ->
  (forall over e' t, steps s0 t -> launched s0 over e' t -> Q over e' t) ->
  tries s0 (exec_call env (mkCallParameters from to to v v g dat false) gp from) Q e s.
Proof.
  intros Hs He Hd Hna Hf Ht Hv Haf Hg Hdat Hgp HQ. unfold exec_call. tstep. set (p := mkCallParameters _ _ _ _ _ _ _ _).
  assert (Hbody : forall t, steps s0 t -> v <= field 0 m_balance t from -> tries s0 (callBody env p gp from) Q e t).
  { intros t Hst Haft. eapply (started_tries s0 t (eq t) g 0 _ _ e); [done|done| |exact HQ].
    pose proof (callBody_ok env B HP p gp from e t (st_good _ _ _ Hst) He (params_tx t from to v g dat Hf Ht Hv Haft Hg Hdat) Hgp Hf) as H.
    unfold xwp in H. unfold started. destruct (callBody env p gp from (e, t)) as [[over|x] [e' u]]; [|destruct H as (? & ? & _); done].
    destruct H as (Hu & Hna' & HQ'). exists t. split; [done|]. split; [by apply steps_refl; eapply st_good|].
    rewrite Hna'. split; [done|]. rewrite <- Hd. exact HQ'. }
  unfold callNonce. tstep. apply tries_get; [done|]. destruct (_ && _); [|apply tries_ret; [done|]; by apply Hbody].
  pose proof (st_good _ _ _ Hs) as [Hw Hsn Hl].
  eapply (tries_xwp _ anyway), (xwp_onState _ _ anyway); [done|done|apply incNonce_ok; try done; apply HP|by intros x t ((? & _) & _)|].
  intros [] t Ht0 _ [_ Hri]. apply Hbody; [done|]. specialize (Hri from). lia.
Qed.

Lemma execute_ok s0 e s Q : steps s0 s -> pristine e -> m_depth e = 0 -> is_u256 (m_newAddress e) -> tx_fits (m_t e) ->
  m_gasCost e = u256 (gas (m_t e) * tx_gasPrice (m_t e)) -> affords (m_t e) s ->
  (forall over e' t, steps s0 t -> launched s0 over e' t -> Q over e' t) -> tries s0 (execute env) Q e s.
Proof.
  intros Hs He Hd Hna Hfit Hcost Haf HQ. unfold execute. tstep. apply tries_get; [done|]. set (t := m_t e) in *.
  destruct Hfit as [(Hv & Hgp & Hg) Hrcv Hdat Hsd].
  tstep. apply tries_lift; [done|]. intros ext Hext. tstep. apply tries_lift; [done|]. intros from Hfrom.
  specialize (Haf ext from Hext Hfrom). specialize (Hsd from Hfrom). unfold cost in Haf.
  tstep. apply tries_get; [done|]. tstep. apply tries_get; [done|]. rewrite Hcost. tstep.
  assert (Hpr : is_u256 (tx_gasPrice t)) by (unfold tx_gasPrice; destruct (_ && _); [apply zero_u256|done]).
  set (K := fun (_ : unit) => _).
  assert (HK : forall s1, steps s0 s1 -> t_value t <= field 0 m_balance s1 from -> K tt e s1).
  { intros s1 Hs1 Hv1. unfold K. pose proof (wrap_range 256 (m_baseGasRequired e) ltac:(lia)) as Hb.
    tstep. apply tries_assert; [done|]. intros Hle. apply Z.leb_le in Hle.
    assert (Hg' : is_u256 (gas t - u256 (m_baseGasRequired e))) by (unfold is_u256 in *; lia).
    destruct (isCreation t); [|by apply txCall_ok].
    eapply (started_tries s0 s1); [done|exact Hd| |exact HQ].
    apply (create_started env B HP s1 e from (t_value t) (tx_gasPrice t) _ (t_data t) from I_CREATE 0); first [done|by eapply st_good|by left|unfold is_u256 in *; lia]. }
  destruct ext; [apply tries_ret; [done|]; apply HK; [done|lia]|].
  pose proof (st_good _ _ _ Hs) as [Hw Hsn Hl]. pose proof (wrap_range 256 (gas t * tx_gasPrice t) ltac:(lia)) as Hc.
  eapply (tries_xwp _ anyway), (xwp_onState _ _ anyway); [done|done|apply subBalance_ok; first [done|apply HP|unfold is_u256 in Hv; lia]|by intros x u (? & _)|].
  intros [] s1 Hs1 _ (_ & _ & Hb). apply HK; [done|]. lia.
Qed.

(** The machine of the transaction. *)
Lemma txGo_ok s0 over e s Q : steps s0 s -> launched s0 over e s -> (forall e' t, steps s0 t -> Q tt e' t) ->
  tries s0 (if over then xret tt else go env) Q e s.
Proof.
  intros Hs (sp & g & pre & Hsp & H) HQ. destruct over; [by apply tries_ret; auto|]. destruct H as (x & Hrd & Hd).
  pose proof (go_all env B HP maxLevels sp e s x Hrd ltac:(unfold maxLevels; lia)) as Hg. unfold tries, go.
  destruct (goN env maxLevels (e, s)) as [[[]|y] [e' t]].
  - destruct Hg as [[Ht _ _ _] _]. assert (steps s0 t) by (by eapply steps_trans). auto.
  - intros _. destruct Hg as [_ Ht]. by eapply steps_trans.
Qed.
(** ** Refunds, fees and deletions *)

Lemma applyRefunds_ok s0 e s (Q : unit -> Executive -> State -> Prop) : steps s0 s -> (forall e', Q tt e' s) -> tries s0 applyRefunds Q e s.
Proof.
  intros Hs HQ. unfold applyRefunds. tstep. apply tries_get; [done|]. tstep. apply tries_get; [done|].
  destruct (m_ext e) as [x|]; [|by apply tries_ret]. cbv zeta. tstep. apply tries_set; [done|].
  tstep. apply tries_assert; [done|]. intros _. by apply tries_set.
Qed.
Lemma payFees_ok s0 e s (Q : unit -> Executive -> State -> Prop) : steps s0 s -> (forall e' t, steps s0 t -> Q tt e' t) -> tries s0 (payFees env) Q e s.
Proof.
  intros Hs HQ. unfold payFees. tstep. apply tries_get; [done|]. destruct (tx_nonnull _); [|by apply tries_ret; auto].
  tstep. apply tries_lift; [done|]. intros from _. tstep. apply tries_get; [done|].
  assert (Hadd : forall a v e t (Q : unit -> Executive -> State -> Prop), steps s0 t -> (forall u, steps s0 u -> Q tt e u) -> tries s0 (onState (addBalance a v)) Q e t).
  { intros a v e0 t Q' Ht HQ'. pose proof (st_good _ _ _ Ht) as [Hw Hsn _].
    eapply (tries_xwp _ anyway), (xwp_touch _ _ anyway _ a); [done|done|apply addBalance_ok; first [done|apply HP]|]. auto. }
  tstep. apply Hadd; [done|]. intros t Ht. apply Hadd; [done|]. auto.
Qed.

(** Deleting accounts throws nothing that is caught: the records can be read. *)
Definition readable (s : State) : Prop :=
  checkVersion s = true /\ forall a, lookupAccount (m_db s) a <> [] -> exists acc, decodeAccount (lookupAccount (m_db s) a) = Ok acc.
Lemma clearCache_loop_frame n s : frame (clearCache_loop n s) = frame s.
Proof. revert s. induction n as [|n IH]; intros s; [done|]. simpl. repeat case_match; try done; by rewrite IH. Qed.
Lemma readable_frame s t : frame t = frame s -> readable s -> readable t.
Proof.
  intros Hf [Hv Hd]. injection Hf as E1 E2 E3 _ _ _ _ _ _. split; [|by rewrite E1]. unfold checkVersion. by rewrite E2, E3.
Qed.
Lemma kill_readable s a : readable s -> exists t, kill a s = (Ok tt, t) /\ readable t.
Proof.
  intros Hr. assert (exists r t, account a s = (Ok r, t) /\ frame t = frame s) as (r & t & E & Ht).
  { unfold account. destruct (m_cache s !! a); [by eexists _, _|]. case_decide; [by eexists _, _|].
    destruct Hr as [-> Hd]. cbn [negb]. specialize (Hd a). destruct (lookupAccount (m_db s) a) as [|b raw] eqn:Er; [by eexists _, _|].
    destruct Hd as [acc ->]; [done|]. eexists _, _. split; [reflexivity|]. apply (clearCache_loop_frame _ s). }
  unfold kill, sbind. rewrite E. destruct r as [x|]; eexists; (split; [reflexivity|]); by apply (readable_frame s).
Qed.
Lemma killAll_quiet l : forall e s, readable s -> match killAll l (e, s) with (Err x, _) => isDevException x = false | _ => True end.
Proof.
  induction l as [|a l IH]; intros e s Hr; [done|]. simpl. destruct (kill_readable s a Hr) as (t & E & Ht).
  unfold xbind, onState, checked. rewrite E. destruct (_ >? _); [done|]. by apply IH.
Qed.

(** ** The whole transaction *)

Lemma finalize_quiet s0 e s : steps s0 s -> match finalize env (e, s) with
  | (Err x, (_, t)) => isDevException x = true -> steps s0 t
  | _ => True
  end.
Proof.
  intros Hs. unfold finalize. set (rest := fun _ : unit => _).
  assert (Hrest : forall e' t, steps s0 t -> match rest tt (e', t) with (Err x, (_, t)) => isDevException x = true -> steps s0 t | _ => True end).
  { intros e' t Ht. unfold rest. pose proof (payFees_ok s0 e' t (fun _ _ _ => True) Ht ltac:(done)) as Hp. unfold tries in Hp.
    unfold xbind at 1. destruct (payFees env (e', t)) as [[[]|x] [e1 t1]]; [|done]. destruct Hp as [Ht1 _].
    unfold xbind at 1, Executive.xget at 1. simpl fst. destruct (m_ext e1) as [x|]; [|done].
    pose proof (killAll_quiet (suicides (ext_sub x)) e1 t1) as Hk. pose proof (st_good _ _ _ Ht1) as [Hw _ _].
    specialize (Hk (conj (wf_version _ Hw) (wf_db _ Hw))). unfold xbind at 1 2. destruct (killAll _ (e1, t1)) as [[[]|y] [e2 t2]]; [done|]. congruence. }
  pose proof (applyRefunds_ok s0 e s (fun _ _ s' => s' = s) Hs ltac:(done)) as Ha. unfold tries in Ha. unfold xbind at 1.
  destruct (applyRefunds (e, s)) as [[[]|x] [e1 t1]]; [|done]. destruct Ha as [Ht1 _]. by apply Hrest.
Qed.
Lemma executeTransaction_undone gp t ro res s : good s -> m_initial_funds s = 0 -> tx_fits t ->
  match executeTransaction env gp t (newExecutive 0 ro res, s) with
  | (Err x, (_, s')) => isDevException x = true -> obs s s' /\ m_changeLog s' = m_changeLog s
  | _ => True
  end.
Proof.
  intros G Hfunds Hfit. unfold executeTransaction. set (body := xbind (initialize env gp t) _).
  assert (Hbody : match body (newExecutive 0 ro res, s) with (Err x, (_, s')) => isDevException x = true -> steps s s' | _ => True end).
  { unfold body. set (K := fun _ : unit => _).
    assert (HK : tries s (initialize env gp t) (fun a e' s' => match K a (e', s') with (Err x, (_, u)) => isDevException x = true -> steps s u | _ => True end)
      (newExecutive 0 ro res) s).
    { apply initialize_ok; try done. intros base s1 Hs1 Ho1 Haf. unfold K. set (e1 := _ <| m_gasCost := _ |>).
      pose proof (execute_ok s e1 s1 (fun over e' t => launched s over e' t) Hs1 (mkPristine e1 eq_refl eq_refl eq_refl eq_refl eq_refl) eq_refl zero_u256 Hfit eq_refl Haf ltac:(done)) as He.
      unfold tries in He. unfold xbind at 1. destruct (execute env (e1, s1)) as [[over|x] [e2 s2]]; [|done]. destruct He as [Hs2 Hl].
      pose proof (txGo_ok s over e2 s2 (fun _ _ _ => True) Hs2 Hl ltac:(done)) as Hg. unfold tries in Hg. unfold xbind at 1.
      destruct ((if over then xret tt else go env) (e2, s2)) as [[[]|x] [e3 s3]]; [|done]. destruct Hg as [Hs3 _]. by apply finalize_quiet. }
    unfold tries in HK. unfold xbind. destruct (initialize env gp t _) as [[[]|x] [e' s']]; [by destruct HK|done]. }
  unfold xbind at 1, onState at 1, checked at 1, sgets at 1. rewrite Z.gtb_ltb.
  destruct (Z.ltb_spec maxLogSize (lenZ (m_changeLog s))); [done|]. unfold xcatch.
  destruct (body (newExecutive 0 ro res, s)) as [[b|x] [e' s']]; [done|]. destruct (isDevException x) eqn:Ex; [|by rewrite Ex].
  destruct (steps_rollback env B HP s s' (Hbody eq_refl) G) as (u & E & _ & Ho & Hl). unfold xbind, onState. rewrite E. simpl. auto.
Qed.
End Tx.
