(* ===== verification/ExecutiveClaims.v ===== *)
(** * What executing transactions promises

    The claims about Executive.cpp and ExtVM.cpp: a call or a creation that the machine makes is atomic
    and comes back within its gas, the environment on the state keeps the laws that the interpreter
    assumes, a transaction that throws leaves the state as it was, and when a transaction can pay for its
    gas. *)

From S2P Require Import Prelude CommonData Rlp Instruction EVMSchedule Words ExtVMFace LegacyVM LegacyVMLogic LegacyVMSafety ChainParams Transaction State StateInv StateRollback StateClaims Executive ExecutiveInv ExecutiveFrames ExecutiveGo ExecutiveTx.
From Stdlib Require Import ZArith Lia Bool.
From stdpp Require Import base list gmap.
Open Scope Z_scope.
Open Scope exec_scope.

Section Claims.
Context {SP : StateParams} {EP : ExecParams}.
Variables (env : EnvInfo) (B : Z).

(** C2: A call is atomic.  [ExtVM::call], from a well-formed state and with parameters such as the interpreter passes, either comes back or ends in one of two fatal ways.
    When it comes back it returns no more gas than it was given and a byte string, and when it then reports failure the state shows what it showed before, unless the
    callee is a precompiled contract (whose account is touched when the gas does not pay for it).  The fatal ways are a [std::length_error], when the log of changes is
    at its maximal size, and a [std::runtime_error], in the check of a deployment that the callee makes; each may end the process, and nothing is said of the state
    then.  It never throws an exception of the called code, never reaches undefined behaviour, and needs no more levels of executives than the depth limit allows.  The
    patch of the storage accounting is on ([params_ok]). *)
Theorem call_is_atomic (x : ExtVM) (p : CallParameters) (e : ExtState State) :
  params_ok env B -> good B (world e) -> params_call (world e) p -> ctx_ok (ext_ctx x) -> 0 <= depth (ext_ctx x) < 1024 ->
  match ext_call env (go env) x p e with
  | (Ok (r, g), e') => 0 <= g <= cp_gas p /\ buffer_ok (output r) /\ good B (world e') /\
      (success r = false -> isPrecompiled chainParams (codeAddress p) (env_number env) = true \/ obs (world e) (world e'))
  | (Err y, e') => fatal y
  end.
Proof.
  intros HP G Hp Hctx Hd.
  pose proof (ext_call_ok env B HP maxLevels (go_all env B HP _) x p e G Hp (proj2 (ctx_words _ Hctx)) (proj2 (proj2 (ctx_addresses _ Hctx)))) as H.
  pose proof (quiet_subFrame env maxLevels (exec_call env p (gasPrice (ext_ctx x)) (origin (ext_ctx x))) (depth (ext_ctx x) + 1)
    (ext_readOnly x) e (quiet_exec_call env p _ _)) as Hq.
  unfold ext_call, emap, go in *. destruct (subFrame _ _ _ _ e) as [[y|y] e'].
  - destruct H as (? & ? & Ht & ?); [unfold maxLevels; lia|]. split_and!; try done; try lia. by eapply st_good.
  - apply plain_fatal; [done|]. apply H. unfold maxLevels; lia.
Qed.

(** C18: A creation is atomic.  [ExtVM::create], for CREATE and CREATE2, by a creator that has the endowment, either comes back, with no more gas than it was given, or ends
    in one of the two fatal ways of a call, a [std::length_error] of the log of changes or a [std::runtime_error] in the check of the deployment (as the one that CREATE
    makes inside another creation), each of which may end the process.  When it comes back and reports failure (the address is taken, the deployment is refused, the
    init code fails or its code cannot be paid for), all that is left of it is the growth of the nonce of the creator.  The patch of the storage accounting is on
    ([params_ok]). *)
Theorem creation_is_atomic (x : ExtVM) (v g : Z) (init : list Z) (i : Instruction) (salt : Z) (e : ExtState State) :
  params_ok env B -> good B (world e) -> ctx_ok (ext_ctx x) -> 0 <= depth (ext_ctx x) < 1024 -> is_u256 v -> is_u256 g -> buffer_ok init ->
  v <= field 0 m_balance (world e) (myAddress (ext_ctx x)) -> i = I_CREATE \/ i = I_CREATE2 ->
  match ext_create env (go env) x v g init i salt e with
  | (Ok (r, g'), e') => 0 <= g' <= g /\ buffer_ok (cr_output r) /\ good B (world e') /\
      (cr_success r = false -> exists s0 sp, obs (world e) s0 /\ (sp = s0 \/ incNonce (myAddress (ext_ctx x)) s0 = (Ok tt, sp)) /\ obs sp (world e'))
  | (Err y, e') => fatal y
  end.
Proof.
  intros HP G Hctx Hd Hv Hg Hinit Haff Hi.
  pose proof (ext_create_ok env B HP maxLevels (go_all env B HP _) x v g init i salt e G Hctx Hv Hg Hinit) as H.
  assert (H' := H ltac:(unfold is_u256 in Hv; lia) ltac:(lia) ltac:(unfold maxLevels; lia) Hi). clear H.
  assert (Hq : match ext_create env (go env) x v g init i salt e with (Err y, _) => plain y | _ => True end).
  { unfold ext_create, emap, go. match goal with |- context [subFrame _ ?st ?d ?ro e] =>
      pose proof (quiet_subFrame env maxLevels st d ro e) as Hq; destruct (subFrame _ st d ro e) as [[y|y] e'] end; [done|].
    apply Hq. destruct Hi as [-> | ->]; repeat (apply quiet_bind; [apply quiet_onState || apply quiet_set|intros ?]); apply quiet_executeCreate. }
  unfold go in *. destruct (ext_create _ _ _ _ _ _ _ _ e) as [[[r g']|y] e'].
  - destruct H' as (? & ? & _ & Ht & Hf). split_and!; try done; try lia; [by eapply st_good|].
    intros Hs. destruct (Hf Hs) as (sp & (s0 & Ho & HT) & Ho'). by exists s0, sp.
  - apply plain_fatal; [done|]. by apply H'.
Qed.

(** C17: the environment keeps its promises.  The object of class [ExtVM] that the executive makes, on a
    state that can be undone back to [s1] and for an account in use, satisfies every law that the
    interpreter's safety and termination are proved from ([ExtVMLaws]), with "the change log can undo the
    state back to [s1]" as the invariant of the environment. *)
Theorem environment_keeps_the_laws (s1 : State) (x : ExtVM) :
  params_ok env B -> ctx_ok (ext_ctx x) -> 0 <= depth (ext_ctx x) ->
  (exists y, acct s1 (myAddress (ext_ctx x)) = Some y /\ active y) ->
  @ExtVMLaws State (extFace env (go env) x) (ext_ctx x) (fun e => steps B s1 (world e)).
Proof.
  intros HP Hctx Hd Hact. apply face_laws; [done|apply go_all, HP|done|done|]. unfold maxLevels. lia.
Qed.

(** C3: a transaction that throws leaves no trace.  Whatever the transaction and the contracts it runs,
    when [State::executeTransaction] throws an exception that a caller of it catches (a refused
    transaction, a sender without funds, a transaction that cannot be read), the state shows what it
    showed before and the log of changes is what it was.  The chain gives no initial funds to new accounts. *)
Theorem failed_transaction_leaves_no_trace (systemGasPrice : Z) (t : Transaction) (readOnly : bool) (res : option ExecutionResult) (s : State) :
  params_ok env B -> good B s -> m_initial_funds s = 0 -> tx_fits t ->
  match executeTransaction env systemGasPrice t (newExecutive 0 readOnly res, s) with
  | (Err x, (_, s')) => isDevException x = true -> obs s s' /\ m_changeLog s' = m_changeLog s
  | (Ok _, _) => True
  end.
Proof.
  intros HP G Hf Ht. pose proof (executeTransaction_undone env B HP systemGasPrice t readOnly res s G Hf Ht) as H.
  by destruct (executeTransaction _ _ _ _) as [[]  []].
Qed.

(** C36: A verified transaction can be paid for.  When [Executive::verifyTransaction], with nonces of the future not
    allowed, on a state without initial funds, accepts a transaction with a signature that is not zero and without external
    gas, the state shows what it showed, the nonce of the transaction is that of its sender, and the sender has its value and
    the cost of its gas, provided that the product of gas and gas price fits in 256 bits (otherwise the cost wraps,
    [gas_cost_wraps]). *)
Theorem verified_transaction_is_payable (t : Transaction) (systemGasPrice : Z) (e e' : Executive) (s s' : State) :
  good B s -> m_initial_funds s = 0 -> tx_fits t ->
  verifyTransaction env t systemGasPrice false (e, s) = (Ok tt, (e', s')) ->
  hasSignature t = true -> hasZeroSignature t = false -> t_externalGas t = None -> 0 <= gas t * t_gasPrice t < 2 ^ 256 ->
  obs s s' /\ forall from, sender sha3 recover t = Ok from ->
    t_nonce t = field (m_accountStartNonce s') m_nonce s' from /\
    t_value t + gas t * t_gasPrice t <= field 0 m_balance s' from.
Proof.
  intros G Hf Ht Hv Hsig Hz Hext Hfits.
  pose proof (verifyTransaction_ok env B t systemGasPrice e s (fun _ _ s' => obs s s' /\ affords t s' /\ in_order t s') G Hf Ht ltac:(done)) as H.
  unfold tries in H. rewrite Hv in H. destruct H as (_ & Ho & Haf & Hord). split; [done|]. intros from Hfrom. split; [by apply Hord|].
  assert (Hchecked : t_externalGasIsChecked t = true).
  { revert Hv. unfold verifyTransaction, hasExternalGas. by destruct (t_externalGasIsChecked t). }
  specialize (Haf false from). unfold cost, tx_gasPrice, hasExternalGas in Haf. rewrite Hext, Hchecked in Haf. simpl in Haf.
  rewrite wrap_small in Haf by lia. by apply Haf.
Qed.

(** C35: The fees add up in the part of [finalize] that pays them ([payFees]), after the refunds were applied and before accounts are killed.  When it succeeds, the gas left
    of the transaction is between nothing and its gas, and the product of gas and gas price is below 2^256, the sender gets the price of the gas left and the author of the
    block the price of the gas used, which together are the cost that was taken from the sender, and no other balance changes; balances wrap at 256 bits. *)
Theorem fees_add_up (e e' : Executive) (s s' : State) (from : Z) :
  params_ok env B -> good B s -> payFees env (e, s) = (Ok tt, (e', s')) -> tx_nonnull (m_t e) = true -> sender sha3 recover (m_t e) = Ok from ->
  0 <= tx_gasPrice (m_t e) -> 0 <= m_gas e <= gas (m_t e) -> gas (m_t e) * tx_gasPrice (m_t e) < 2 ^ 256 -> gas (m_t e) < 2 ^ 256 ->
  let refund := m_gas e * tx_gasPrice (m_t e) in
  let fee := (gas (m_t e) - m_gas e) * tx_gasPrice (m_t e) in
  refund + fee = u256 (gas (m_t e) * tx_gasPrice (m_t e)) /\
  forall b, balanceOf s' b = u256 (balanceOf s b + (if decide (from = b) then refund else 0) + if decide (env_author env = b) then fee else 0).
Proof.
  intros HP G Hpay Hnn Hfrom Hp Hg Hfits Hgas refund fee. set (p := tx_gasPrice (m_t e)) in *. set (g := gas (m_t e)) in *.
  assert (Hr : 0 <= refund < 2 ^ 256) by (unfold refund; nia). assert (Hfe : 0 <= fee < 2 ^ 256) by (unfold fee; nia).
  split; [rewrite wrap_small by nia; unfold refund, fee; lia|].
  revert Hpay. unfold payFees, xbind, Executive.xget, xlift. simpl. rewrite Hnn, Hfrom. fold p g. cbn [fst].
  rewrite (wrap_small 256 (m_gas e * p)), (wrap_small 256 (g - m_gas e)), (wrap_small 256 ((g - m_gas e) * p)) by (fold fee refund; lia).
  fold refund fee. unfold onState. destruct (checked (addBalance from refund) s) as [[[]|x] s1] eqn:E1; [|done].
  destruct (checked (addBalance (env_author env) fee) s1) as [[[]|x] s2] eqn:E2; [|done]. intros [= _ ->].
  apply checked_Ok in E1, E2. destruct G as [Hw Hs Hl].
  assert (Hw1 : wf s1).
  { destruct (addBalance_ok B (po_sha3 _ _ HP) (po_nonces _ _ HP) (po_log _ _ HP) s from refund Hw Hs) as (r & t & E & Ht & _). rewrite E1 in E. injection E as <- <-. by eapply tracks_wf. }
  intros b. rewrite (addBalance_effect s1 _ _ s' Hw1 E2), !(addBalance_effect s _ _ s1 Hw E1).
  pose proof (balanceOf_range s b Hw). unfold wrap.
  repeat case_decide; subst; rewrite ?Z.add_0_r, ?Zplus_mod_idemp_l, ?Z.mod_small by lia; done.
Qed.
End Claims.

(** ** Witnesses *)

Module ExecExample.
#[export] Instance params : StateParams := {|
  sha3 := fun l => u256 (unbe (1 :: l)); EmptyTrie := 9; sizeof_s256 := 48;
  contractStoragePatch := true; storageDestructionPatch := true;
  contractStorageZeroValuePatch := true; randomIndex := fun _ => O |}.
(** Every fork but the experimental one, and every patch. *)
Definition cp : ChainOperationParams := mkChainParams (mkForkBlocks 0 0 0 0 0 0 0 (2 ^ 40)) 0 1 true ∅ (replicate 16 1) 1.
#[export] Instance eparams : ExecParams := {|
  chainParams := cp; precedingHashes := fun _ => replicate 256 0; recover := fun _ _ => None;
  u256OfString := fun _ => Some 1; maxLogSize := 2 ^ 60; tierOob := 0 |}.
Definition env : EnvInfo := mkEnvInfo 100 77 1000 0 (2 ^ 40) 1 0 1000 0.
(** The account 5 has funds, the contract 6 writes a word and then fails. *)
Definition failingCode : list Z := [0x60; 1; 0x60; 0; 0x55; 0xfe].
Definition user : Account := newAccount 1 1000000.
Definition contract : Account := (newAccount 1 0) <| m_hasNewCode := true |> <| m_codeHash := sha3 failingCode |> <| m_codeCache := failingCode |>.
Definition empty : State := mkState (mkDB ∅ ∅ ∅ 0) 0 0 true ∅ [] ∅ 0 [] 0 1000000 ∅ 0 0.
Definition st : State := put 6 contract (put 5 user empty).

Lemma params_fit : params_ok env 10.
Proof.
  split; try done.
  - intros bs. apply wrap_u256.
  - intros i Hi _. exists 0. split; [apply (lookup_replicate 256 0 0 i); split; [done|lia]|apply zero_u256].
Qed.
Lemma empty_db a : lookupAccount (m_db empty) a = [].
Proof. done. Qed.
Lemma blank_ok : wf empty.
Proof. by split. Qed.
Lemma st_acct a x : acct st a = Some x -> a = 6 /\ x = contract \/ a = 5 /\ x = user.
Proof.
  unfold st. rewrite !acct_put. repeat case_decide; [intros [= <-]; auto..|]. unfold acct, dbAccount. simpl. done.
Qed.
Lemma user_ok : acc_ok (m_db empty) 5 user.
Proof. split; [by split|]. by split; [|left]. Qed.
Lemma contract_ok : acc_ok (m_db empty) 6 contract.
Proof. split; [by split|]. by split; [|right]. Qed.
Lemma st_is_good : good 10 st.
Proof.
  split; [|split|done].
  - apply wf_put; [apply wf_put; [apply blank_ok|done|apply user_ok|by left]|done|apply contract_ok|by left].
  - intros a x Hx. destruct (st_acct a x Hx) as [[-> ->]|[-> ->]].
    + split; try done; [split; [by repeat constructor|done]|left; by left].
    + split; try done; [apply nil_ok|left; by left].
  - done.
  - done.
  - done.
Qed.
(** The environment of a machine that runs for the account 5. *)
Definition vm : ExtVM := mkExtVM (mkExtCtx env 5 5 5 0 0 [] [] 0 false false IstanbulSchedule) 0 false SubState_clear.
Lemma vm_ctx : ctx_ok (ext_ctx vm).
Proof. split; try done; repeat split; try done; constructor. Qed.
Lemma vm_depth : 0 <= depth (ext_ctx vm) < 1024.
Proof. done. Qed.
Definition world0 : ExtState State := mkExt st SubState_clear.
Definition callIt : CallParameters := mkCallParameters 5 6 6 3 3 100000 [] false.
Lemma callIt_ok : params_call st callIt.
Proof. by apply (params_tx st 5 6 3 100000 []); try done; apply nil_ok. Qed.

(** A transaction of the account 5: three units for the account 7, with a nonce. *)
Definition tx (nonce : Z) : Transaction := mkTransaction MessageCall Legacy nonce 3 2 30000 [] [] [] 0 0 (Some 1)
  (Some (mkSignature 5 7 1)) (Some 5) 7 true None.
Lemma tx_is_fit n : tx_fits (tx n).
Proof. split; try done; [apply nil_ok|]. intros a [= <-]. done. Qed.
(** A transaction without value of the account 8, which has nothing. *)
Definition mint : Transaction := mkTransaction MessageCall Legacy 0 0 (2 ^ 241) 32768 [] [] [] 0 0 (Some 1)
  (Some (mkSignature 5 7 1)) (Some 8) 7 true None.
Definition executive : Executive := newExecutive 0 false (Some emptyResult).
End ExecExample.
Import ExecExample.

Lemma call_is_atomic_witness :
  match ext_call env (go env) vm callIt world0 with
  | (Ok (r, g), e') => success r = false /\ obs st (world e')
  | _ => False
  end.
Proof.
  assert (Hs : match ext_call env (go env) vm callIt world0 with (Ok (r, _), _) => success r | _ => true end = false) by (vm_compute; reflexivity).
  pose proof (call_is_atomic env 10 vm callIt world0 params_fit st_is_good callIt_ok vm_ctx vm_depth) as H.
  destruct (ext_call env (go env) vm callIt world0) as [[[r g]|y] e']; [|done]. destruct H as (_ & _ & _ & Hf).
  split; [done|]. by destruct (Hf Hs).
Defined.
Lemma creation_is_atomic_witness :
  match ext_create env (go env) vm 3 100000 [0xfe] I_CREATE 0 world0 with
  | (Ok (r, g), e') => cr_success r = false /\
      exists s0 sp, obs st s0 /\ (sp = s0 \/ incNonce 5 s0 = (Ok tt, sp)) /\ obs sp (world e')
  | _ => False
  end.
Proof.
  assert (Hb : buffer_ok [0xfe]) by (split; [by repeat constructor|done]).
  pose proof (creation_is_atomic env 10 vm 3 100000 [0xfe] I_CREATE 0 world0 params_fit st_is_good vm_ctx vm_depth ltac:(done) ltac:(done)
    Hb ltac:(done) (or_introl eq_refl)) as H.
  assert (Hs : match ext_create env (go env) vm 3 100000 [0xfe] I_CREATE 0 world0 with (Ok (r, _), _) => cr_success r | _ => true end = false)
    by (vm_compute; reflexivity).
  destruct (ext_create env (go env) vm 3 100000 [0xfe] I_CREATE 0 world0) as [[[r g]|y] e']; [|done]. destruct H as (_ & _ & _ & Hf).
  split; [done|]. exact (Hf Hs).
Defined.
Lemma environment_keeps_the_laws_witness :
  @ExtVMLaws State (extFace env (go env) vm) (ext_ctx vm) (fun e => steps 10 st (world e)).
Proof.
  apply (environment_keeps_the_laws env 10 st vm params_fit vm_ctx ltac:(done)). exists user. split; [vm_compute; reflexivity|by left].
Defined.
Lemma failed_transaction_leaves_no_trace_witness :
  match executeTransaction env 1 (tx 7) (executive, st) with
  | (Err x, (_, s')) => x = Other DevInvalidNonce /\ obs st s' /\ m_changeLog s' = []
  | _ => False
  end.
Proof.
  pose proof (failed_transaction_leaves_no_trace env 10 1 (tx 7) false (Some emptyResult) st params_fit st_is_good eq_refl (tx_is_fit 7)) as H.
  change (newExecutive 0 false (Some emptyResult)) with executive in H.
  assert (Hx : match executeTransaction env 1 (tx 7) (executive, st) with (Err (Other DevInvalidNonce), _) => True | _ => False end) by (vm_compute; exact I).
  destruct (executeTransaction env 1 (tx 7) (executive, st)) as [[b|x] [e' s']]; [done|]. destruct x as [| | | | | | | | | |o| |]; try done. destruct o; try done. 
  by destruct (H eq_refl).
Defined.
Lemma verified_transaction_is_payable_witness :
  match verifyTransaction env (tx 1) 1 false (executive, st) with
  | (Ok _, (_, s')) => t_value (tx 1) + gas (tx 1) * t_gasPrice (tx 1) <= field 0 m_balance s' 5
  | _ => False
  end.
Proof.
  assert (Hfits : 0 <= gas (tx 1) * t_gasPrice (tx 1) < 2 ^ 256) by done.
  destruct (verifyTransaction env (tx 1) 1 false (executive, st)) as [[[]|x] [e' s']] eqn:E; [|revert E; vm_compute; discriminate].
  destruct (verified_transaction_is_payable env 10 (tx 1) 1 executive e' st s' st_is_good eq_refl (tx_is_fit 1) E eq_refl eq_refl eq_refl Hfits) as [_ H].
  exact (proj2 (H 5 eq_refl)).
Defined.
Lemma fees_add_up_witness :
  match payFees env (executive <| m_t := tx 1 |> <| m_gas := 9000 |>, st) with
  | (Ok _, (_, s')) => forall b, balanceOf s' b = u256 (balanceOf st b + (if decide (5 = b) then 18000 else 0) + if decide (77 = b) then 42000 else 0)
  | _ => False
  end.
Proof.
  set (e0 := executive <| m_t := tx 1 |> <| m_gas := 9000 |>).
  assert (H1 : 0 <= tx_gasPrice (m_t e0)) by done. assert (H2 : 0 <= m_gas e0 <= gas (m_t e0)) by done.
  assert (H3 : gas (m_t e0) * tx_gasPrice (m_t e0) < 2 ^ 256) by done. assert (H4 : gas (m_t e0) < 2 ^ 256) by done.
  destruct (payFees env (e0, st)) as [[[]|x] [e' s']] eqn:E; [|revert E; vm_compute; discriminate].
  destruct (fees_add_up env 10 e0 e' st s' 5 params_fit st_is_good E eq_refl eq_refl H1 H2 H3 H4) as [_ H]. exact H.
Defined.

(** The cost of gas wraps.  [verifyTransaction], [initialize] and [finalize] multiply gas and gas price
    as 256-bit words, so the cost of 32768 units at the price 2^241 is nothing: a transaction of an account
    without funds is accepted and executed, and afterwards the sender has the price of the gas left and the
    author of the block the price of the gas used, which nobody had before. *)
Theorem gas_cost_wraps :
  match executeTransaction env 1 mint (executive, st) with
  | (Ok ok, (e', s')) => ok = true /\ gas mint * tx_gasPrice mint = 2 ^ 256 /\
      balanceOf st 8 = 0 /\ balanceOf s' 8 = u256 (11768 * 2 ^ 241) /\ balanceOf s' 8 > 2 ^ 254 /\
      balanceOf st 77 = 0 /\ balanceOf s' 77 = u256 (21000 * 2 ^ 241) /\ balanceOf s' 77 > 2 ^ 255
  | _ => False
  end.
Proof.
  vm_compute. split_and!; reflexivity.
Qed.
