(* ===== verification/LevelDb.v ===== *)
(** * LevelDb: the wrapper of LevelDB, the database interface and its splitting by prefixes

    libdevcore/db.h (DatabaseFace, WriteBatchFace), libdevcore/LevelDB.cpp and
    libdevcore/SplitDB.cpp.  The LevelDB library is not part of the sources: [LevelDBLib] lists
    the calls that the wrapper makes and [LevelDBSpec] what its documentation promises of them
    (a map from byte strings to byte strings, batches applied in order, iteration in the bytewise
    order of the keys).  Statuses other than "not found" on reading, locks and the periodic
    reopening of the files are not modelled.  The hash of a database is a function [sha256] of
    the bytes that were written to the context. *)

From S2P Require Import Prelude.
From Stdlib Require Import ZArith Lia Bool Sorted.
From stdpp Require Import base list gmap sorting.
From Stdlib Require String Ascii DecimalString.
Open Scope Z_scope.

(** ** The library's interface *)

Abbreviation Slice := (list Z).

Inductive WriteOp := WPut (k v : Slice) | WDelete (k : Slice).
Definition op_key (o : WriteOp) : Slice := match o with WPut k _ | WDelete k => k end.

(** The bytewise order of keys. *)
Fixpoint bytes_ltb (a b : Slice) : bool :=
  match a, b with
  | _, [] => false
  | [], _ :: _ => true
  | x :: a', y :: b' => (x <? y) || ((x =? y) && bytes_ltb a' b')
  end.
Definition bytes_lt (a b : Slice) : Prop := bytes_ltb a b = true.

(** What a sequence of writes makes of the value of a key. *)
Definition op_effect (k : Slice) (o : option Slice) (w : WriteOp) : option Slice :=
  match w with
  | WPut k' v => if decide (k' = k) then Some v else o
  | WDelete k' => if decide (k' = k) then None else o
  end.
Definition ops_effect (ops : list WriteOp) (k : Slice) (o : option Slice) : option Slice :=
  foldl (op_effect k) o ops.

Class LevelDBLib (L : Type) := {
  ldb_open : L;
  ldb_Get : L -> Slice -> option Slice;
  ldb_Put : L -> Slice -> Slice -> L;
  ldb_Delete : L -> Slice -> L;
  ldb_Write : L -> list WriteOp -> L;
  ldb_entries : L -> list (Slice * Slice) }.

Class LevelDBSpec (L : Type) `{LevelDBLib L} := {
  Get_open k : ldb_Get ldb_open k = None;
  Get_Put l k v k' : ldb_Get (ldb_Put l k v) k' = if decide (k = k') then Some v else ldb_Get l k';
  Get_Delete l k k' : ldb_Get (ldb_Delete l k) k' = if decide (k = k') then None else ldb_Get l k';
  Get_Write l ops k : ldb_Get (ldb_Write l ops) k = ops_effect ops k (ldb_Get l k);
  entries_Get l k v : (k, v) ∈ ldb_entries l <-> ldb_Get l k = Some v;
  entries_sorted l : StronglySorted bytes_lt (map fst (ldb_entries l)) }.

(** ** The interface of databases

    A write batch is the list of the operations recorded in it, first one first, with the address
    of the object as its identity.  [db_forEach] runs a callback that updates a value and answers
    whether to go on. *)

Record WriteBatch := mkBatch { wb_id : nat; wb_ops : list WriteOp }.
Definition wb_add (b : WriteBatch) (o : WriteOp) : WriteBatch := mkBatch (wb_id b) (wb_ops b ++ [o]).

Class DatabaseFace (D : Type) := {
  db_lookup : D -> Slice -> Slice;
  db_exists : D -> Slice -> bool;
  db_insert : D -> Slice -> Slice -> D;
  db_kill : D -> Slice -> D;
  db_createWriteBatch : D -> WriteBatch * D;
  db_batchInsert : D -> WriteBatch -> Slice -> Slice -> WriteBatch;
  db_batchKill : D -> WriteBatch -> Slice -> WriteBatch;
  db_commit : D -> WriteBatch -> D;
  db_forEach : forall A, D -> (Slice -> Slice -> A -> A * bool) -> A -> A;
  db_forEachWithPrefix : forall A, D -> Slice -> (Slice -> Slice -> A -> A * bool) -> A -> A;
  db_discardCreatedBatches : D -> D }.
Arguments db_forEach {D _ A}.
Arguments db_forEachWithPrefix {D _ A}.

(** The loop of an iterator: the callback's answer is tested before the next element. *)
Fixpoint iterate {A} (f : Slice -> Slice -> A -> A * bool) (l : list (Slice * Slice)) (a : A) : A :=
  match l with
  | [] => a
  | (k, v) :: l' => let '(a', keepIterating) := f k v a in if keepIterating then iterate f l' a' else a'
  end.

(** [starts_with]. *)
Fixpoint starts_with (p k : Slice) : bool :=
  match p, k with
  | [], _ => true
  | _ :: _, [] => false
  | x :: p', y :: k' => (x =? y) && starts_with p' k'
  end.

(** [Seek]: the entries from the first one whose key is not below the target. *)
Fixpoint seek (t : Slice) (l : list (Slice * Slice)) : list (Slice * Slice) :=
  match l with
  | [] => []
  | (k, v) :: l' => if bytes_ltb k t then seek t l' else l
  end.

(** The entries up to the first one whose key does not start with the prefix. *)
Fixpoint takePrefix (p : Slice) (l : list (Slice * Slice)) : list (Slice * Slice) :=
  match l with
  | [] => []
  | (k, v) :: l' => if starts_with p k then (k, v) :: takePrefix p l' else []
  end.

(** ** LevelDB.cpp *)

Section LevelDB.
Context {L : Type} `{LevelDBLib L}.

Definition level_lookup (l : L) (k : Slice) : Slice :=
  match ldb_Get l k with None => [] | Some v => v end.
Definition level_exists (l : L) (k : Slice) : bool :=
  match ldb_Get l k with None => false | Some _ => true end.
Definition level_forEach {A} (l : L) (f : Slice -> Slice -> A -> A * bool) (a : A) : A :=
  iterate f (ldb_entries l) a.
Definition level_forEachWithPrefix {A} (l : L) (p : Slice) (f : Slice -> Slice -> A -> A * bool) (a : A) : A :=
  iterate f (takePrefix p (seek p (ldb_entries l))) a.

(** A batch is never committed twice and a new object has an identity of its own, which the plain
    wrapper does not record. *)
#[export] Instance LevelDB_face : DatabaseFace L := {
  db_lookup := level_lookup;
  db_exists := level_exists;
  db_insert := ldb_Put;
  db_kill := ldb_Delete;
  db_createWriteBatch := fun l => (mkBatch 0 [], l);
  db_batchInsert := fun _ b k v => wb_add b (WPut k v);
  db_batchKill := fun _ b k => wb_add b (WDelete k);
  db_commit := fun l b => ldb_Write l (wb_ops b);
  db_forEach := @level_forEach;
  db_forEachWithPrefix := @level_forEachWithPrefix;
  db_discardCreatedBatches := fun l => l }.

(** *** Hashing *)

Definition pieceUsageBytes_key : Slice :=
  [112; 105; 101; 99; 101; 85; 115; 97; 103; 101; 66; 121; 116; 101; 115].
Definition start_key : Slice := [115; 116; 97; 114; 116].

(** The bytes one entry adds to the context. *)
Definition hashBase_entry (e : Slice * Slice) : Slice :=
  if decide (fst e = pieceUsageBytes_key) then [] else fst e ++ snd e.
Definition hashBase (sha256 : Slice -> Z) (l : L) : Z :=
  sha256 (concat (map hashBase_entry (ldb_entries l))).
Definition hashBaseWithPrefix (sha256 : Slice -> Z) (p : Z) (l : L) : Z :=
  sha256 (concat (map (fun e => match fst e with
                                | c :: _ => if c =? p then fst e ++ snd e else []
                                | [] => []
                                end) (ldb_entries l))).

(** The loop of [hashBasePartially]: the context, the counter and the iterator. *)
Fixpoint hashChunk (BATCH_CHUNK_SIZE : nat) (it : list (Slice * Slice)) (counter : nat) (ctx : Slice)
    : Slice * list (Slice * Slice) :=
  match it with
  | [] => (ctx, [])
  | e :: it' =>
      if (counter <? BATCH_CHUNK_SIZE)%nat then
        if decide (fst e = pieceUsageBytes_key) then hashChunk BATCH_CHUNK_SIZE it' counter ctx
        else hashChunk BATCH_CHUNK_SIZE it' (S counter) (ctx ++ fst e ++ snd e)
      else (ctx, it)
  end.
Definition hashBasePartially (BATCH_CHUNK_SIZE : nat) (l : L) (ctx lastHashedKey : Slice)
    : Slice * Slice * bool :=
  let it := if decide (lastHashedKey <> start_key) then seek lastHashedKey (ldb_entries l) else ldb_entries l in
  let '(ctx', it') := hashChunk BATCH_CHUNK_SIZE it 0%nat ctx in
  match it' with
  | e :: _ => (ctx', fst e, true)
  | [] => (ctx', lastHashedKey, false)
  end.

(** The loop of SnapshotManager::computeDatabaseHash. *)
Fixpoint hashInParts (fuel BATCH_CHUNK_SIZE : nat) (l : L) (ctx lastHashedKey : Slice) : option Slice :=
  match fuel with
  | O => None
  | S n => let '(ctx', last', isContinue) := hashBasePartially BATCH_CHUNK_SIZE l ctx lastHashedKey in
           if isContinue then hashInParts n BATCH_CHUNK_SIZE l ctx' last' else Some ctx'
  end.
End LevelDB.

(** ** SplitDB.cpp: databases in one, told apart by the first byte of their keys *)

(** [std::to_string] of an integer. *)
Definition to_string (z : Z) : Slice :=
  map (fun c => Z.of_nat (Ascii.nat_of_ascii c))
    (String.list_ascii_of_string (DecimalString.NilZero.string_of_int (Z.to_int z))).
(** A [char] as an [int]: plain characters are signed. *)
Definition char_to_int (c : Z) : Z := if c <? 128 then c else c - 256.

Record PrefixedDB (D : Type) := mkPrefixed { pd_prefix : Z; pd_backend : D }.
Arguments mkPrefixed {D}.
Arguments pd_prefix {D}.
Arguments pd_backend {D}.

Section SplitDB.
Context {D : Type} `{DatabaseFace D}.
Implicit Types d : PrefixedDB D.

Definition key2 d (k : Slice) : Slice := pd_prefix d :: k.
Definition on_backend d (x : D) : PrefixedDB D := mkPrefixed (pd_prefix d) x.

(** The callback given to the backend: foreign keys are passed over, others lose their prefix.
    The source reads the first byte of an empty key, which no database of the splitter has. *)
Definition prefixed_callback {A} d (f : Slice -> Slice -> A -> A * bool) (k v : Slice) (a : A) : A * bool :=
  match k with
  | c :: key_short => if c =? pd_prefix d then f key_short v a else (a, true)
  | [] => (a, true)
  end.

Definition prefixed_lookup d (k : Slice) : Slice := db_lookup (pd_backend d) (key2 d k).
Definition prefixed_exists d (k : Slice) : bool := db_exists (pd_backend d) (key2 d k).
Definition prefixed_insert d (k v : Slice) : PrefixedDB D := on_backend d (db_insert (pd_backend d) (key2 d k) v).
Definition prefixed_kill d (k : Slice) : PrefixedDB D := on_backend d (db_kill (pd_backend d) (key2 d k)).
Definition prefixed_createWriteBatch d : WriteBatch * PrefixedDB D :=
  let '(b, x) := db_createWriteBatch (pd_backend d) in (b, on_backend d x).
Definition prefixed_batchInsert d (b : WriteBatch) (k v : Slice) : WriteBatch := db_batchInsert (pd_backend d) b (key2 d k) v.
Definition prefixed_batchKill d (b : WriteBatch) (k : Slice) : WriteBatch := db_batchKill (pd_backend d) b (key2 d k).
Definition prefixed_commit d (b : WriteBatch) : PrefixedDB D := on_backend d (db_commit (pd_backend d) b).
Definition prefixed_forEach {A} d (f : Slice -> Slice -> A -> A * bool) (a : A) : A :=
  db_forEach (pd_backend d) (prefixed_callback d f) a.
Definition prefixed_forEachWithPrefix {A} d (p : Slice) (f : Slice -> Slice -> A -> A * bool) (a : A) : A :=
  db_forEachWithPrefix (pd_backend d) (to_string (char_to_int (pd_prefix d)) ++ p) (prefixed_callback d f) a.

#[export] Instance PrefixedDB_face : DatabaseFace (PrefixedDB D) := {
  db_lookup := prefixed_lookup;
  db_exists := prefixed_exists;
  db_insert := prefixed_insert;
  db_kill := prefixed_kill;
  db_createWriteBatch := prefixed_createWriteBatch;
  db_batchInsert := prefixed_batchInsert;
  db_batchKill := prefixed_batchKill;
  db_commit := prefixed_commit;
  db_forEach := @prefixed_forEach;
  db_forEachWithPrefix := @prefixed_forEachWithPrefix;
  db_discardCreatedBatches := fun d => d }.
End SplitDB.

(** The splitter: its backend is shared by the interfaces it has given out, whose prefixes are
    their numbers. *)
Record SplitDB (D : Type) := mkSplit { sp_backend : D; sp_interfaces : nat }.
Arguments mkSplit {D}.
Arguments sp_backend {D}.
Arguments sp_interfaces {D}.
Definition newInterface {D} (s : SplitDB D) : option (Z * SplitDB D) :=
  if (sp_interfaces s <? 256)%nat
  then Some (Z.of_nat (sp_interfaces s), mkSplit (sp_backend s) (S (sp_interfaces s)))
  else None.

(** ** What a database promises to its clients

    [db_shows] is the map that a database shows; the laws say how the operations change it. *)
Class DatabaseLaws (D : Type) `{DatabaseFace D} := {
  db_shows : D -> Slice -> option Slice;
  law_lookup d k : db_lookup d k = default [] (db_shows d k);
  law_exists d k : db_exists d k = bool_decide (is_Some (db_shows d k));
  law_insert d k v k' : db_shows (db_insert d k v) k' = if decide (k = k') then Some v else db_shows d k';
  law_kill d k k' : db_shows (db_kill d k) k' = if decide (k = k') then None else db_shows d k';
  (** A batch records the operations; committing it applies them in order, whatever the database
      was when the batch was made. *)
  batch_effect : D -> WriteBatch -> Slice -> option Slice -> option Slice;
  law_create d b d' : db_createWriteBatch d = (b, d') ->
    (forall k, db_shows d' k = db_shows d k) /\ forall d'' k o, batch_effect d'' b k o = o;
  law_batchInsert d b k v k' o :
    batch_effect d (db_batchInsert d b k v) k' o = if decide (k = k') then Some v else batch_effect d b k' o;
  law_batchKill d b k k' o :
    batch_effect d (db_batchKill d b k) k' o = if decide (k = k') then None else batch_effect d b k' o;
  law_commit d b k : db_shows (db_commit d b) k = batch_effect d b k (db_shows d k);
  law_discard d k : db_shows (db_discardCreatedBatches d) k = db_shows d k;
  (** Iteration visits what is shown, once. *)
  db_list : D -> list (Slice * Slice);
  law_list d k v : (k, v) ∈ db_list d <-> db_shows d k = Some v;
  law_list_NoDup d : NoDup (map fst (db_list d));
  law_forEach {A} d (f : Slice -> Slice -> A -> A * bool) a : db_forEach d f a = iterate f (db_list d) a }.

(** ** Order of keys *)

Lemma bytes_lt_irrefl a : bytes_ltb a a = false.
Proof. induction a as [|x a IH]; [done|]. simpl. by rewrite Z.ltb_irrefl, Z.eqb_refl, IH. Qed.

Lemma bytes_lt_trans a b c : bytes_lt a b -> bytes_lt b c -> bytes_lt a c.
Proof.
  unfold bytes_lt. revert b c. induction a as [|x a IH]; intros [|y b] [|z c]; try done. simpl.
  rewrite !orb_true_iff, !andb_true_iff, !Z.ltb_lt, !Z.eqb_eq. intros [?|[-> ?]] [?|[-> ?]]; [left; lia..|].
  right. split; [done|]. by apply (IH b).
Qed.

Lemma bytes_total a b : bytes_ltb a b = false -> a = b \/ bytes_lt b a.
Proof.
  unfold bytes_lt. revert b. induction a as [|x a IH]; intros [|y b]; try (by auto). simpl.
  rewrite !orb_true_iff, orb_false_iff, !andb_true_iff, andb_false_iff, !Z.ltb_lt, !Z.eqb_eq, Z.ltb_ge, Z.eqb_neq.
  intros [Hyx [Hne|Hab]]; [right; left; lia|]. destruct (decide (x = y)) as [->|]; [|right; left; lia].
  destruct (IH b Hab) as [->|]; [by left|right; right; done].
Qed.

Lemma starts_with_ge p k : starts_with p k = true -> bytes_ltb k p = false.
Proof.
  revert k. induction p as [|x p IH]; intros [|y k]; try done. simpl. rewrite andb_true_iff, Z.eqb_eq.
  intros [-> ?]. by rewrite Z.ltb_irrefl, Z.eqb_refl, IH.
Qed.

(** Once the keys have passed the prefix, no later key starts with it. *)
Lemma starts_with_past p k k' : bytes_ltb k p = false -> starts_with p k = false -> bytes_lt k k' ->
  starts_with p k' = false.
Proof.
  unfold bytes_lt. revert k k'. induction p as [|x p IH]; intros [|y k] [|z k']; try done. simpl.
  rewrite orb_true_iff, orb_false_iff, !andb_true_iff, !andb_false_iff, !Z.ltb_lt, !Z.eqb_eq, Z.ltb_ge, !Z.eqb_neq.
  intros [Hxy [Hne|Hlt]] Hs [Hyz|[-> Hkk]].
  - left. lia.
  - destruct (decide (x = z)); [lia|by left].
  - left. lia.
  - destruct Hs as [?|Hs]; [by left|]. right. by apply (IH k).
Qed.

Lemma starts_with_app p k : starts_with p k = true <-> exists q, k = p ++ q.
Proof.
  revert k. induction p as [|x p IH]; intros k; simpl; [naive_solver|].
  destruct k as [|y k]; [split; [done|by intros [q [=]]]|]. rewrite andb_true_iff, Z.eqb_eq, IH. naive_solver.
Qed.

(** ** Iteration *)

Lemma sorted_cons_lt (k v : Slice) l e : StronglySorted bytes_lt (map fst ((k, v) :: l)) -> e ∈ l -> bytes_lt k (fst e).
Proof.
  intros [_ Hall]%StronglySorted_inv He. rewrite Forall_forall in Hall. apply Hall.
  by apply (list_elem_of_fmap_2 fst).
Qed.

Lemma filter_none {A} (P : A -> Prop) `{forall x, Decision (P x)} l : (forall x, x ∈ l -> ~ P x) -> filter P l = [].
Proof. induction l as [|x l IH]; intros Hn; [done|]. rewrite filter_cons_False; [apply IH|]; set_solver. Qed.

Lemma takePrefix_filter p l : StronglySorted bytes_lt (map fst l) -> Forall (fun e => bytes_ltb (fst e) p = false) l ->
  takePrefix p l = filter (fun e => starts_with p (fst e) = true) l.
Proof.
  induction l as [|[k v] l IH]; intros Hs Hge; [done|]. simpl takePrefix. rewrite filter_cons. simpl.
  apply Forall_cons in Hge as [Hk Hge]. destruct (starts_with p k) eqn:E.
  - rewrite decide_True by done. f_equal. apply IH; [by apply StronglySorted_inv in Hs as [? _]|done].
  - rewrite decide_False by done. symmetry. apply filter_none. intros e He Hse.
    by rewrite (starts_with_past p k (fst e) Hk E (sorted_cons_lt k v l e Hs He)) in Hse.
Qed.
Lemma seek_spec t l : StronglySorted bytes_lt (map fst l) ->
  exists l1, l = l1 ++ seek t l /\ Forall (fun e => bytes_lt (fst e) t) l1 /\
    Forall (fun e => bytes_ltb (fst e) t = false) (seek t l) /\ StronglySorted bytes_lt (map fst (seek t l)).
Proof.
  induction l as [|[k v] l IH]; intros Hs; [by exists []|]. simpl.
  pose proof Hs as [Hs' _]%StronglySorted_inv. destruct (bytes_ltb k t) eqn:E.
  - destruct (IH Hs') as (l1 & Heq & H1 & H2 & H3). exists ((k, v) :: l1).
    split; [by rewrite <- app_comm_cons, <- Heq|]. split; [by constructor|done].
  - exists []. split; [done|]. split; [done|]. split; [|done]. constructor; [done|].
    apply Forall_forall. intros e He. destruct (bytes_ltb (fst e) t) eqn:Ee; [|done].
    by rewrite (bytes_lt_trans k (fst e) t (sorted_cons_lt k v l e Hs He) Ee) in E.
Qed.

Section LevelDBFacts.
Context {L : Type} `{LevelDBSpec L}.

(** The entries that start with a prefix, in the order of their keys. *)
Definition with_prefix (p : Slice) (l : list (Slice * Slice)) : list (Slice * Slice) :=
  filter (fun e => starts_with p (fst e) = true) l.

Lemma seek_with_prefix (l : L) p : takePrefix p (seek p (ldb_entries l)) = with_prefix p (ldb_entries l).
Proof.
  destruct (seek_spec p (ldb_entries l) (entries_sorted l)) as (l1 & Heq & H1 & H2 & H3).
  rewrite takePrefix_filter by done. unfold with_prefix. rewrite Heq at 2. rewrite filter_app.
  rewrite (filter_none _ l1); [done|]. intros e He Hs.
  rewrite Forall_forall in H1. apply H1 in He. unfold bytes_lt in He. by rewrite (starts_with_ge _ _ Hs) in He.
Qed.

Lemma hashBase_entry_skip e : fst e = pieceUsageBytes_key -> hashBase_entry e = [].
Proof. intros. unfold hashBase_entry. by rewrite decide_True. Qed.
Lemma hashBase_entry_take e : fst e <> pieceUsageBytes_key -> hashBase_entry e = fst e ++ snd e.
Proof. intros. unfold hashBase_entry. by rewrite decide_False. Qed.
Lemma hashChunk_spec n it c ctx : exists it1 it2, it = it1 ++ it2 /\ hashChunk n it c ctx = (ctx ++ concat (map hashBase_entry it1), it2) /\
  (it2 <> [] -> (c < n)%nat -> it1 <> []).
Proof.
  revert c ctx. induction it as [|e it IH]; intros c ctx; simpl.
  { exists [], []. split_and!; [done|by rewrite app_nil_r|done]. }
  destruct (Nat.ltb_spec c n) as [Hlt|Hge].
  - case_decide.
    + destruct (IH c ctx) as (it1 & it2 & -> & -> & _). exists (e :: it1), it2. split_and!; [done| |done].
      cbn [map concat]. by rewrite hashBase_entry_skip.
    + destruct (IH (S c) (ctx ++ fst e ++ snd e)) as (it1 & it2 & -> & -> & _). exists (e :: it1), it2. split_and!; [done| |done].
      cbn [map concat]. by rewrite hashBase_entry_take, <- !app_assoc.
  - exists [], (e :: it). rewrite app_nil_r. split_and!; [done..|]. lia.
Qed.

Lemma seek_split l1 e l2 : StronglySorted bytes_lt (map fst (l1 ++ e :: l2)) -> seek (fst e) (l1 ++ e :: l2) = e :: l2.
Proof.
  induction l1 as [|[k v] l1 IH]; intros Hs.
  - destruct e as [k v]. simpl. by rewrite bytes_lt_irrefl.
  - pose proof (sorted_cons_lt k v (l1 ++ e :: l2) e Hs ltac:(set_solver)) as Hlt. simpl. rewrite Hlt.
    apply IH. by apply StronglySorted_inv in Hs as [? _].
Qed.

(** Hashing in parts from an entry on: every part but the last takes at least one entry. *)
Lemma hashInParts_from n (l : L) : (0 < n)%nat -> (forall k v, (k, v) ∈ ldb_entries l -> k <> start_key) ->
  forall fuel l1 e l2 ctx, ldb_entries l = l1 ++ e :: l2 -> (length l2 < fuel)%nat ->
  hashInParts fuel n l ctx (fst e) = Some (ctx ++ concat (map hashBase_entry (e :: l2))).
Proof.
  intros Hn Hstart. induction fuel as [|fuel IH]; intros l1 e l2 ctx Heq Hf; [lia|].
  cbn [hashInParts]. unfold hashBasePartially. rewrite decide_True.
  2:{ destruct e as [k v]. apply (Hstart k v). rewrite Heq. set_solver. }
  pose proof (entries_sorted l) as Hs. rewrite Heq in Hs |- *. rewrite seek_split by done.
  destruct (hashChunk_spec n (e :: l2) 0 ctx) as (it1 & it2 & Hit & -> & Hpos).
  destruct it2 as [|e' it2]; [by rewrite Hit, app_nil_r|].
  destruct it1 as [|e1 it1]; [by destruct (Hpos ltac:(done) Hn)|]. injection Hit as <- ->.
  rewrite (IH (l1 ++ e :: it1) e' it2).
  - rewrite <- app_assoc, app_comm_cons, map_app, concat_app. done.
  - by rewrite Heq, <- app_assoc.
  - rewrite length_app in Hf. simpl in Hf. lia.
Qed.
End LevelDBFacts.

(** ** The databases that keep the promises *)

Lemma ops_effect_app ops o k x : ops_effect (ops ++ [o]) k x = op_effect k (ops_effect ops k x) o.
Proof. unfold ops_effect. by rewrite foldl_app. Qed.

Lemma sorted_NoDup l : StronglySorted bytes_lt l -> NoDup l.
Proof.
  induction 1 as [|k l _ IH Hall]; constructor; [|done]. intros Hin. rewrite Forall_forall in Hall.
  apply Hall in Hin. unfold bytes_lt in Hin. by rewrite bytes_lt_irrefl in Hin.
Qed.

#[export] Program Instance LevelDB_laws {L : Type} `{LevelDBSpec L} : DatabaseLaws L := {
  db_shows := ldb_Get;
  batch_effect := fun _ b k o => ops_effect (wb_ops b) k o;
  db_list := ldb_entries }.
Next Obligation. intros. simpl. unfold level_lookup. by case_match. Qed.
Next Obligation. intros. simpl. unfold level_exists. by case_match. Qed.
Next Obligation. intros. apply Get_Put. Qed.
Next Obligation. intros. apply Get_Delete. Qed.
Next Obligation. intros L ? ? d b d' [= <- <-]. done. Qed.
Next Obligation. intros. simpl. by rewrite ops_effect_app. Qed.
Next Obligation. intros. simpl. by rewrite ops_effect_app. Qed.
Next Obligation. intros. apply Get_Write. Qed.
Next Obligation. done. Qed.
Next Obligation. intros. apply entries_Get. Qed.
Next Obligation. intros. apply sorted_NoDup, entries_sorted. Qed.
Next Obligation. done. Qed.

Section PrefixedLaws.
Context {D : Type} `{DatabaseLaws D}.
Implicit Types d : PrefixedDB D.

Definition strip (p : Z) (e : Slice * Slice) : option (Slice * Slice) :=
  match fst e with c :: k => if c =? p then Some (k, snd e) else None | [] => None end.

Lemma strip_elem p (l : list (Slice * Slice)) k v : (k, v) ∈ omap (strip p) l <-> (p :: k, v) ∈ l.
Proof.
  rewrite list_elem_of_omap. unfold strip. split.
  - intros ([[|c k'] v'] & Hin & E); simpl in E; [done|]. destruct (Z.eqb_spec c p) as [->|]; [|done].
    by injection E as <- <-.
  - intros Hin. exists (p :: k, v). split; [done|]. simpl. by rewrite Z.eqb_refl.
Qed.
Lemma strip_NoDup p (l : list (Slice * Slice)) : NoDup (map fst l) -> NoDup (map fst (omap (strip p) l)).
Proof.
  induction l as [|[[|c k] v] l IH]; simpl; [done| |]; intros [Hn Hl]%NoDup_cons; [by apply IH|].
  unfold strip at 1. simpl. destruct (Z.eqb_spec c p) as [->|]; [|by apply IH]. simpl. constructor; [|by apply IH].
  intros ([k' v'] & -> & Hin)%list_elem_of_fmap. apply Hn. apply strip_elem in Hin.
  by apply (list_elem_of_fmap_2 fst) in Hin.
Qed.
Lemma iterate_strip {A} d (f : Slice -> Slice -> A -> A * bool) l a :
  iterate (prefixed_callback d f) l a = iterate f (omap (strip (pd_prefix d)) l) a.
Proof.
  revert a. induction l as [|[[|c k] v] l IH]; intros a; simpl; [done|by rewrite IH|].
  unfold strip at 1. simpl. destruct (c =? pd_prefix d); [|by rewrite IH]. simpl.
  destruct (f k v a) as [a' []]; [by rewrite IH|done].
Qed.

#[export] Program Instance PrefixedDB_laws : DatabaseLaws (PrefixedDB D) := {
  db_shows := fun d k => db_shows (pd_backend d) (key2 d k);
  batch_effect := fun d b k o => batch_effect (pd_backend d) b (key2 d k) o;
  db_list := fun d => omap (strip (pd_prefix d)) (db_list (pd_backend d)) }.
Next Obligation. intros. apply (law_lookup (pd_backend d)). Qed.
Next Obligation. intros. apply (law_exists (pd_backend d)). Qed.
Next Obligation.
  intros d k v k'. simpl. unfold prefixed_insert. simpl. rewrite law_insert. unfold key2. simpl. repeat case_decide; congruence.
Qed.
Next Obligation. intros d k k'. simpl. unfold prefixed_kill. simpl. rewrite law_kill. unfold key2. simpl. repeat case_decide; congruence. Qed.
Next Obligation.
  intros d b d'. simpl. unfold prefixed_createWriteBatch. destruct (db_createWriteBatch (pd_backend d)) as [b' x] eqn:E. intros [= <- <-].
  destruct (law_create _ _ _ E) as [H1 H2]. split; intros; [apply H1|apply H2].
Qed.
Next Obligation. intros d b k v k' o. simpl. unfold prefixed_batchInsert. rewrite law_batchInsert. unfold key2. repeat case_decide; congruence. Qed.
Next Obligation. intros d b k k' o. simpl. unfold prefixed_batchKill. rewrite law_batchKill. unfold key2. repeat case_decide; congruence. Qed.
Next Obligation. intros. simpl. apply law_commit. Qed.
Next Obligation. done. Qed.
Next Obligation. intros. rewrite strip_elem. apply law_list. Qed.
Next Obligation. intros. apply strip_NoDup, law_list_NoDup. Qed.
Next Obligation. intros. simpl. unfold prefixed_forEach. rewrite law_forEach. apply iterate_strip. Qed.
End PrefixedLaws.

(** ** A model of the library: finite maps *)

Module MapLevelDB.
Definition key_le (a b : Slice * Slice) : Prop := bytes_ltb (fst b) (fst a) = false.
#[export] Instance key_le_dec : RelDecision key_le := fun a b => decide (bytes_ltb (fst b) (fst a) = false).
#[export] Instance key_le_total : Total key_le.
Proof.
  intros a b. unfold key_le. destruct (bytes_ltb (fst b) (fst a)) eqn:E; [|by left]. right.
  destruct (bytes_ltb (fst a) (fst b)) eqn:E'; [|done].
  by rewrite <- (bytes_lt_irrefl (fst a)), (bytes_lt_trans _ _ _ E' E).
Qed.
#[export] Instance key_le_trans : Transitive key_le.
Proof.
  intros a b c H1 H2. unfold key_le in *. destruct (bytes_ltb (fst c) (fst a)) eqn:E; [|done].
  destruct (bytes_total _ _ H1) as [Heq|Hlt]; [by rewrite Heq, E in H2|].
  by rewrite (bytes_lt_trans _ _ _ E Hlt) in H2.
Qed.

Definition put_op (m : gmap Slice Slice) (o : WriteOp) : gmap Slice Slice :=
  match o with WPut k v => <[k := v]> m | WDelete k => delete k m end.
#[export] Instance map_leveldb : LevelDBLib (gmap Slice Slice) := {
  ldb_open := ∅;
  ldb_Get := fun m k => m !! k;
  ldb_Put := fun m k v => <[k := v]> m;
  ldb_Delete := fun m k => delete k m;
  ldb_Write := foldl put_op;
  ldb_entries := fun m => merge_sort key_le (map_to_list m) }.

Lemma sorted_strict (l : list (Slice * Slice)) :
  StronglySorted key_le l -> NoDup (map fst l) -> StronglySorted bytes_lt (map fst l).
Proof.
  induction 1 as [|e l _ IH Hall]; simpl; [constructor|]. intros [Hn Hd]%NoDup_cons. constructor; [by apply IH|].
  apply Forall_forall. intros k (e' & -> & Hin)%list_elem_of_fmap. rewrite Forall_forall in Hall.
  destruct (bytes_total _ _ (Hall _ Hin)) as [Heq|]; [|done]. destruct Hn. rewrite <- Heq.
  by apply (list_elem_of_fmap_2 fst).
Qed.
#[export] Program Instance map_leveldb_spec : LevelDBSpec (gmap Slice Slice).
Next Obligation. intros. apply lookup_empty. Qed.
Next Obligation. intros. simpl. case_decide; simplify_map_eq; done. Qed.
Next Obligation. intros. simpl. case_decide; simplify_map_eq; done. Qed.
Next Obligation.
  intros l ops k. simpl. revert l. induction ops as [|o ops IH]; intros l; [done|]. simpl. rewrite IH.
  unfold ops_effect. simpl. f_equal. destruct o; simpl; case_decide; simplify_map_eq; done.
Qed.
Next Obligation. intros. simpl. by rewrite merge_sort_Permutation, elem_of_map_to_list. Qed.
Next Obligation.
  intros l. simpl. apply sorted_strict; [apply (StronglySorted_merge_sort key_le)|].
  eapply (NoDup_Permutation_proper _ _ (Permutation_map fst (merge_sort_Permutation key_le (map_to_list l)))).
  apply NoDup_fst_map_to_list.
Qed.
End MapLevelDB.

(** ** Properties *)

Section LevelDBClaims.
Context {L : Type} `{LevelDBSpec L}.

(** Hashing a database in parts, as the snapshots do to bound the memory of one pass, writes
    exactly the bytes to the hash that one pass writes, and comes to its end after at most one part
    for every entry.  It needs that no key is the text "start", by which the loop asks for the
    first part. *)
Theorem snapshot_hash_in_parts sha256 BATCH_CHUNK_SIZE (l : L) : (0 < BATCH_CHUNK_SIZE)%nat ->
  (forall k v, (k, v) ∈ ldb_entries l -> k <> start_key) ->
  exists ctx, hashInParts (S (length (ldb_entries l))) BATCH_CHUNK_SIZE l [] start_key = Some ctx /\
    sha256 ctx = hashBase sha256 l.
Proof.
  intros Hn Hstart. exists (concat (map hashBase_entry (ldb_entries l))). split; [|done].
  cbn [hashInParts]. unfold hashBasePartially. rewrite decide_False by auto.
  destruct (hashChunk_spec BATCH_CHUNK_SIZE (ldb_entries l) 0 []) as (it1 & it2 & Hit & -> & _).
  destruct it2 as [|e it2]; [by rewrite Hit, app_nil_r|].
  rewrite (hashInParts_from _ l Hn Hstart _ it1 e it2 _ Hit); [by rewrite Hit, map_app, concat_app|].
  rewrite Hit, length_app. simpl. lia.
Qed.

(** Iterating over a prefix visits exactly the entries whose keys start with it, in the order of
    the keys: seeking to the prefix and stopping at the first other key misses nothing. *)
Theorem prefix_iteration_exact {A} (l : L) (p : Slice) (f : Slice -> Slice -> A -> A * bool) (a : A) :
  level_forEachWithPrefix l p f a = iterate f (with_prefix p (ldb_entries l)) a /\
  forall k v, (k, v) ∈ with_prefix p (ldb_entries l) <-> ldb_Get l k = Some v /\ exists q, k = p ++ q.
Proof.
  split; [unfold level_forEachWithPrefix; by rewrite seek_with_prefix|]. intros k v. unfold with_prefix.
  rewrite list_elem_of_filter, entries_Get. simpl. rewrite starts_with_app. tauto.
Qed.

(** The first byte of the text of a character as a number is that character for one character
    only, the digit 5. *)
Lemma char_text_first c : 0 <= c < 256 -> c <> 53 -> exists x t, to_string (char_to_int c) = x :: t /\ x <> c.
Proof.
  intros Hc Hne.
  assert (Hall : forallb (fun n => (Z.of_nat n =? 53) || match to_string (char_to_int (Z.of_nat n)) with
    x :: _ => negb (x =? Z.of_nat n) | [] => false end) (seq 0 256) = true) by by vm_compute.
  rewrite forallb_forall in Hall. specialize (Hall (Z.to_nat c) ltac:(apply in_seq; lia)). rewrite Z2Nat.id in Hall by lia.
  apply Z.eqb_neq in Hne. rewrite Hne in Hall. simpl in Hall.
  destruct (to_string (char_to_int c)) as [|x t]; [done|]. exists x, t. split; [done|]. by apply Z.eqb_neq, negb_true_iff.
Qed.

(** Iterating over a prefix in an interface of the splitter finds nothing.  The interface asks its
    backend for keys that start with the decimal text of its number, not with the byte, and then
    passes over every key that does not start with the byte: for no interface but number 53 is the
    callback ever called, whatever the database holds. *)
Theorem split_prefix_iteration_blind {A} (d : PrefixedDB L) (p : Slice) (f : Slice -> Slice -> A -> A * bool) (a : A) :
  0 <= pd_prefix d < 256 -> pd_prefix d <> 53 -> db_forEachWithPrefix d p f a = a.
Proof.
  intros Hr Hne. destruct (char_text_first _ Hr Hne) as (x & t & Et & Hx). cbn. unfold prefixed_forEachWithPrefix. rewrite Et. cbn. change (x :: t ++ p) with ((x :: t) ++ p).
  unfold level_forEachWithPrefix. rewrite seek_with_prefix.
  assert (Hall : Forall (fun e => exists k, fst e = x :: k) (with_prefix ((x :: t) ++ p) (ldb_entries (pd_backend d)))).
  { apply Forall_forall. intros [k v]. unfold with_prefix. rewrite list_elem_of_filter, starts_with_app. simpl.
    intros [[q ->] _]. eauto. }
  induction Hall as [|[k v] es (k' & Hk) _ IH]; [done|]. simpl in Hk. subst k. simpl.
  apply Z.eqb_neq in Hx as ->. done.
Qed.
End LevelDBClaims.

(** ** Witnesses *)

Module LevelDbExample.
Import MapLevelDB.
Definition threeEntries : gmap Slice Slice := {[ [1; 2] := [3]; [1; 5] := [4]; pieceUsageBytes_key := [9] ]}.
Lemma no_start k v : (k, v) ∈ ldb_entries threeEntries -> k <> start_key.
Proof.
  rewrite entries_Get. simpl. intros Hk ->. revert Hk. unfold threeEntries. rewrite !lookup_insert_ne by done.
  by rewrite lookup_singleton_ne.
Qed.
End LevelDbExample.
Import MapLevelDB.

Lemma snapshot_hash_in_parts_witness : exists ctx,
  hashInParts 4 1 LevelDbExample.threeEntries [] start_key = Some ctx /\
  Z.of_nat (length ctx) = hashBase (fun l => Z.of_nat (length l)) LevelDbExample.threeEntries.
Proof.
  assert (E : length (ldb_entries LevelDbExample.threeEntries) = 3%nat) by by vm_compute.
  destruct (snapshot_hash_in_parts (fun l => Z.of_nat (length l)) 1 LevelDbExample.threeEntries) as (ctx & H1 & H2);
    [lia|exact LevelDbExample.no_start|]. rewrite E in H1. exists ctx. split; [exact H1|exact H2].
Defined.
(** The first interface has an entry with the prefix and does not find it. *)
Lemma split_prefix_iteration_blind_witness :
  let d : PrefixedDB (gmap Slice Slice) := mkPrefixed 0 {[ [0; 7; 7] := [1] ]} in
  db_lookup d [7; 7] = [1] /\ db_forEachWithPrefix d [7] (fun k v n => (n + 1, true)) 0 = 0.
Proof.
  intros d. split; [by vm_compute|]. apply (split_prefix_iteration_blind d [7] (fun k v n => (n + 1, true)) 0); simpl; lia.
Defined.
