(* ===== verification/BatchedDb.v ===== *)
(** * BatchedDb: databases whose writes wait for a commit

    libbatched-io/batched_db.h and batched_db.cpp.  [batched_db] collects writes in a batch that
    it makes when the first one comes; reading goes past the batch.  [db_splitter] gives out
    interfaces that put a byte before their keys.  [db_face_laws] is what a client (OverlayDB,
    BlockChain) may rely on.  The lock and the crash points of the tests are not modelled; whether
    the database accepts a batch is an argument of [commit]. *)

From S2P Require Import Prelude LevelDb.
From Stdlib Require Import ZArith Lia Bool.
From stdpp Require Import base list gmap.
Open Scope Z_scope.

(** ** The interface [db_face] *)

Class db_face (B : Type) := {
  face_insert : B -> Slice -> Slice -> B;
  face_kill : B -> Slice -> B;
  face_revert : B -> B;
  (** The answer says whether the call returns; otherwise it throws. *)
  face_commit : bool -> B -> bool * B;
  face_lookup : B -> Slice -> Slice;
  face_exists : B -> Slice -> bool;
  face_forEach : forall A, B -> (Slice -> Slice -> A -> A * bool) -> A -> A;
  face_forEachWithPrefix : forall A, B -> Slice -> (Slice -> Slice -> A -> A * bool) -> A -> A }.
Arguments face_forEach {B _ A}.
Arguments face_forEachWithPrefix {B _ A}.

(** ** [batched_db] *)

Record batched_db (D : Type) := mkBatched { bd_db : D; bd_batch : option WriteBatch }.
Arguments mkBatched {D}.
Arguments bd_db {D}.
Arguments bd_batch {D}.

Section Batched.
Context {D : Type} `{DatabaseFace D}.
Implicit Types b : batched_db D.

(** [ensure_batch]: the batch and the database it was made by. *)
Definition ensure_batch b : WriteBatch * D :=
  match bd_batch b with Some w => (w, bd_db b) | None => db_createWriteBatch (bd_db b) end.
Definition bd_insert b (k v : Slice) : batched_db D :=
  let '(w, d) := ensure_batch b in mkBatched d (Some (db_batchInsert d w k v)).
Definition bd_kill b (k : Slice) : batched_db D :=
  let '(w, d) := ensure_batch b in mkBatched d (Some (db_batchKill d w k)).
Definition bd_revert b : batched_db D := mkBatched (db_discardCreatedBatches (bd_db b)) None.
(** The batch is moved into the call of the database: it is gone when that call throws. *)
Definition bd_commit (accepted : bool) b : bool * batched_db D :=
  let '(w, d) := ensure_batch b in
  if accepted then (true, mkBatched (db_commit d w) None) else (false, mkBatched d None).

#[export] Instance batched_db_face : db_face (batched_db D) := {
  face_insert := bd_insert;
  face_kill := bd_kill;
  face_revert := bd_revert;
  face_commit := bd_commit;
  face_lookup := fun b => db_lookup (bd_db b);
  face_exists := fun b => db_exists (bd_db b);
  face_forEach := fun A b => db_forEach (bd_db b);
  face_forEachWithPrefix := fun A b => db_forEachWithPrefix (bd_db b) }.
End Batched.

(** ** [db_splitter::prefixed_db] *)

Record prefixed_db (B : Type) := mkPrefixedFace { pf_prefix : Z; pf_backend : B }.
Arguments mkPrefixedFace {B}.
Arguments pf_prefix {B}.
Arguments pf_backend {B}.

Section Splitter.
Context {B : Type} `{db_face B}.
Implicit Types p : prefixed_db B.

Definition pf_key p (k : Slice) : Slice := pf_prefix p :: k.
Definition pf_on p (x : B) : prefixed_db B := mkPrefixedFace (pf_prefix p) x.
Definition pf_callback {A} p (f : Slice -> Slice -> A -> A * bool) (k v : Slice) (a : A) : A * bool :=
  match k with
  | c :: key_short => if c =? pf_prefix p then f key_short v a else (a, true)
  | [] => (a, true)
  end.

Definition pf_insert p (k v : Slice) : prefixed_db B := pf_on p (face_insert (pf_backend p) (pf_key p k) v).
Definition pf_kill p (k : Slice) : prefixed_db B := pf_on p (face_kill (pf_backend p) (pf_key p k)).
Definition pf_revert p : prefixed_db B := pf_on p (face_revert (pf_backend p)).
Definition pf_commit (accepted : bool) p : bool * prefixed_db B :=
  let '(r, x) := face_commit accepted (pf_backend p) in (r, pf_on p x).
Definition pf_lookup p (k : Slice) : Slice := face_lookup (pf_backend p) (pf_key p k).
Definition pf_exists p (k : Slice) : bool := face_exists (pf_backend p) (pf_key p k).
Definition pf_forEach {A} p (f : Slice -> Slice -> A -> A * bool) (a : A) : A :=
  face_forEach (pf_backend p) (pf_callback p f) a.
Definition pf_forEachWithPrefix {A} p (q : Slice) (f : Slice -> Slice -> A -> A * bool) (a : A) : A :=
  face_forEachWithPrefix (pf_backend p) q (pf_callback p f) a.

#[export] Instance prefixed_db_face : db_face (prefixed_db B) := {
  face_insert := pf_insert;
  face_kill := pf_kill;
  face_revert := pf_revert;
  face_commit := pf_commit;
  face_lookup := pf_lookup;
  face_exists := pf_exists;
  face_forEach := @pf_forEach;
  face_forEachWithPrefix := @pf_forEachWithPrefix }.
End Splitter.

(** [new_interface]: the prefix of the next interface, at most 256 of them. *)
Record db_splitter (B : Type) := mkSplitter { ds_backend : B; ds_interfaces : nat }.
Arguments mkSplitter {B}.
Arguments ds_backend {B}.
Arguments ds_interfaces {B}.
Definition new_interface {B} (s : db_splitter B) : option (Z * db_splitter B) :=
  if (ds_interfaces s <? 256)%nat
  then Some (Z.of_nat (ds_interfaces s), mkSplitter (ds_backend s) (S (ds_interfaces s)))
  else None.

(** ** What clients may rely on

    [face_shows] is what reading sees, [face_pending] what reading would see after a commit. *)
Class db_face_laws (B : Type) `{db_face B} := {
  face_shows : B -> Slice -> option Slice;
  face_pending : B -> Slice -> option Slice;
  face_law_lookup b k : face_lookup b k = default [] (face_shows b k);
  face_law_exists b k : face_exists b k = bool_decide (is_Some (face_shows b k));
  face_law_insert b k v : (forall k', face_shows (face_insert b k v) k' = face_shows b k') /\
    forall k', face_pending (face_insert b k v) k' = if decide (k = k') then Some v else face_pending b k';
  face_law_kill b k : (forall k', face_shows (face_kill b k) k' = face_shows b k') /\
    forall k', face_pending (face_kill b k) k' = if decide (k = k') then None else face_pending b k';
  face_law_revert b k : face_shows (face_revert b) k = face_shows b k /\
    face_pending (face_revert b) k = face_shows b k;
  face_law_commit b ok r b' : face_commit ok b = (r, b') -> r = ok /\ forall k,
    face_shows b' k = (if ok then face_pending b k else face_shows b k) /\ face_pending b' k = face_shows b' k;
  face_list : B -> list (Slice * Slice);
  face_law_list b k v : (k, v) ∈ face_list b <-> face_shows b k = Some v;
  face_law_NoDup b : NoDup (map fst (face_list b));
  face_law_forEach {A} b (f : Slice -> Slice -> A -> A * bool) a : face_forEach b f a = iterate f (face_list b) a }.

(** *** [batched_db] on any database that keeps its promises *)

Section BatchedLaws.
Context {D : Type} `{DatabaseLaws D}.
Implicit Types b : batched_db D.

Definition bd_pending b (k : Slice) : option Slice :=
  match bd_batch b with
  | Some w => batch_effect (bd_db b) w k (db_shows (bd_db b) k)
  | None => db_shows (bd_db b) k
  end.
Lemma ensure_batch_laws b w d : ensure_batch b = (w, d) ->
  (forall k, db_shows d k = db_shows (bd_db b) k) /\
  forall k, batch_effect d w k (db_shows d k) = bd_pending b k.
Proof.
  unfold ensure_batch, bd_pending. destruct (bd_batch b) as [w'|]; [by intros [= <- <-]|].
  intros [H1 H2]%law_create. split; [done|]. intros k. by rewrite H2, H1.
Qed.

#[export] Program Instance batched_db_laws : db_face_laws (batched_db D) := {
  face_shows := fun b => db_shows (bd_db b);
  face_pending := bd_pending;
  face_list := fun b => db_list (bd_db b) }.
Next Obligation. intros. simpl. apply law_lookup. Qed.
Next Obligation. intros. simpl. apply law_exists. Qed.
Next Obligation.
  intros b k v. simpl. unfold bd_insert. destruct (ensure_batch b) as [w d] eqn:E.
  destruct (ensure_batch_laws b w d E) as [H1 H2]. split; [done|]. intros k'. unfold bd_pending at 1. simpl.
  by rewrite law_batchInsert, H2.
Qed.
Next Obligation.
  intros b k. simpl. unfold bd_kill. destruct (ensure_batch b) as [w d] eqn:E.
  destruct (ensure_batch_laws b w d E) as [H1 H2]. split; [done|]. intros k'. unfold bd_pending at 1. simpl.
  by rewrite law_batchKill, H2.
Qed.
Next Obligation. intros b k. split; apply law_discard. Qed.
Next Obligation.
  intros b ok r b'. simpl. unfold bd_commit. destruct (ensure_batch b) as [w d] eqn:E.
  destruct (ensure_batch_laws b w d E) as [H1 H2]. destruct ok; intros [= <- <-]; (split; [done|]); intros k; simpl;
    (split; [|done]); [by rewrite law_commit, H2|by rewrite H1].
Qed.
Next Obligation. intros. apply law_list. Qed.
Next Obligation. intros. apply law_list_NoDup. Qed.
Next Obligation. intros. apply law_forEach. Qed.
End BatchedLaws.

(** *** The interfaces of the splitter *)

Section SplitterLaws.
Context {B : Type} `{db_face_laws B}.
Implicit Types p : prefixed_db B.

Lemma iterate_callback {A} p (f : Slice -> Slice -> A -> A * bool) l a :
  iterate (pf_callback p f) l a = iterate f (omap (strip (pf_prefix p)) l) a.
Proof. apply (iterate_strip (mkPrefixed (pf_prefix p) tt)). Qed.

#[export] Program Instance prefixed_db_laws : db_face_laws (prefixed_db B) := {
  face_shows := fun p k => face_shows (pf_backend p) (pf_key p k);
  face_pending := fun p k => face_pending (pf_backend p) (pf_key p k);
  face_list := fun p => omap (strip (pf_prefix p)) (face_list (pf_backend p)) }.
Next Obligation. intros. apply (face_law_lookup (pf_backend b)). Qed.
Next Obligation. intros. apply (face_law_exists (pf_backend b)). Qed.
Next Obligation.
  intros p k v. simpl. destruct (face_law_insert (pf_backend p) (pf_key p k) v) as [H1 H2].
  split; intros k'; [apply H1|]. rewrite H2. unfold pf_key. repeat case_decide; simpl in *; congruence.
Qed.
Next Obligation.
  intros p k. simpl. destruct (face_law_kill (pf_backend p) (pf_key p k)) as [H1 H2].
  split; intros k'; [apply H1|]. rewrite H2. unfold pf_key. repeat case_decide; simpl in *; congruence.
Qed.
Next Obligation. intros p k. apply face_law_revert. Qed.
Next Obligation.
  intros p ok r p'. simpl. unfold pf_commit. destruct (face_commit ok (pf_backend p)) as [r0 x] eqn:E. intros [= <- <-].
  destruct (face_law_commit _ _ _ _ E) as [H1 H2]. split; [done|]. intros k. apply H2.
Qed.
Next Obligation. intros. rewrite strip_elem. apply face_law_list. Qed.
Next Obligation. intros. apply strip_NoDup, face_law_NoDup. Qed.
Next Obligation. intros. simpl. unfold pf_forEach. rewrite face_law_forEach. apply iterate_callback. Qed.
End SplitterLaws.

(** Iteration over a prefix, where the database does it right. *)
Class db_prefix_laws (B : Type) `{db_face_laws B} := {
  face_law_prefix {A} b p (f : Slice -> Slice -> A -> A * bool) a :
    face_forEachWithPrefix b p f a = iterate f (with_prefix p (face_list b)) a }.
#[export] Instance batched_level_prefix {L} `{LevelDBSpec L} : db_prefix_laws (batched_db L).
Proof. split. intros A b p f a. cbn. unfold level_forEachWithPrefix. by rewrite seek_with_prefix. Qed.
