(* ===== verification/OverlayDb.v ===== *)
(** * OverlayDb: the overlay of the state database

    libskale/OverlayDB.h and OverlayDB.cpp.  The overlay keeps accounts, auxiliary values (codes)
    and storage words that wait for [commit]; deletions go to the batch of the database at once.
    Addresses and hashes are integers; their keys are their big-endian bytes.  The unordered maps
    are finite maps, walked in some order: the keys they give are distinct.

    Parameters: the database behind the pointer (an instance of [db_face]), the text of the Boost
    type [s256] and its reader, whether the patch of zero values is enabled, and for every try of
    a commit whether the database accepts the batch.  Logging and the pauses between tries are not
    modelled; [exit] is the outcome [None]. *)

From S2P Require Import Prelude CommonData LevelDb BatchedDb.
From Stdlib Require Import ZArith Lia Bool.
From stdpp Require Import base list gmap.
Open Scope Z_scope.

(** ** Keys *)

Definition accountKey (a : Z) : Slice := toBigEndian 20 a.
Definition getAuxiliaryKey (a space : Z) : Slice := toBigEndian 20 a ++ [space].
Definition getStorageKey (a k : Z) : Slice := toBigEndian 20 a ++ toBigEndian 32 k.
(** "storageUsed", "safeLastExecutedTransactionHash" and "safeLastTransactionReceipts". *)
Definition storageUsed_key : Slice := [115; 116; 111; 114; 97; 103; 101; 85; 115; 101; 100].
Definition lastHash_key : Slice :=
  [115; 97; 102; 101; 76; 97; 115; 116; 69; 120; 101; 99; 117; 116; 101; 100; 84; 114; 97; 110; 115; 97; 99; 116; 105;
   111; 110; 72; 97; 115; 104].
Definition lastReceipts_key : Slice :=
  [115; 97; 102; 101; 76; 97; 115; 116; 84; 114; 97; 110; 115; 97; 99; 116; 105; 111; 110; 82; 101; 99; 101; 105; 112;
   116; 115].

(** [h256( value, FromBinary )]: zero unless the size is right. *)
Definition h256_ofBinary (v : Slice) : Z := if (lenZ v =? 32) then fromBigEndian 256 v else 0.

(** The text of an [s256] and its reader. *)
Class S256Text := { s256_str : Z -> Slice; s256_read : Slice -> Z }.
Class S256TextSpec `{S256Text} := {
  s256_read_str z : - 2 ^ 255 <= z < 2 ^ 255 -> s256_read (s256_str z) = z;
  s256_read_empty : s256_read [] = 0 }.

Record OverlayDB (B : Type) := mkOverlay {
  ov_cache : gmap Z Slice; ov_auxiliaryCache : gmap Z (gmap Z Slice); ov_storageCache : gmap Z (gmap Z Z);
  ov_storageUsed : Z; ov_db : option B; ov_lastHash : option Z; ov_lastReceipts : option Slice }.
Arguments mkOverlay {B}.
Arguments ov_cache {B}.
Arguments ov_auxiliaryCache {B}.
Arguments ov_storageCache {B}.
Arguments ov_storageUsed {B}.
Arguments ov_db {B}.
Arguments ov_lastHash {B}.
Arguments ov_lastReceipts {B}.
#[export] Instance OverlayDB_expand {B} : Expandable (OverlayDB B) := fun o =>
  mkOverlay (ov_cache o) (ov_auxiliaryCache o) (ov_storageCache o) (ov_storageUsed o) (ov_db o) (ov_lastHash o)
    (ov_lastReceipts o).

Section Overlay.
Context {B : Type} `{db_face B} `{S256Text}.
Context (contractStorageZeroValuePatch : bool).
Implicit Types o : OverlayDB B.

Definition OverlayDB_new (db : option B) : OverlayDB B := mkOverlay ∅ ∅ ∅ 0 db None None.

(** ** The last transaction and its receipts *)

Definition getLastExecutedTransactionHash o : Z * OverlayDB B :=
  match ov_lastHash o with
  | Some h => (h, o)
  | None =>
      let shaLastTx :=
        match ov_db o with
        | Some db => let l := face_lookup db lastHash_key in
                     match l with [] => 0 | _ => h256_ofBinary l end
        | None => 0
        end in
      (shaLastTx, o <| ov_lastHash := Some shaLastTx |>)
  end.
Definition getPartialTransactionReceipts o : Slice * OverlayDB B :=
  match ov_lastReceipts o with
  | Some r => (r, o)
  | None =>
      let r := match ov_db o with Some db => face_lookup db lastReceipts_key | None => [] end in
      (r, o <| ov_lastReceipts := Some r |>)
  end.
Definition setLastExecutedTransactionHash (h : Z) o : OverlayDB B := o <| ov_lastHash := Some h |>.
Definition setPartialTransactionReceipts (r : Slice) o : OverlayDB B := o <| ov_lastReceipts := Some r |>.

(** ** Accounts *)

Definition lookup o (a : Z) : Slice :=
  let ret := match ov_cache o !! a with Some v => v | None => [] end in
  match ret, ov_db o with
  | _ :: _, _ => ret
  | [], None => ret
  | [], Some db => face_lookup db (accountKey a)
  end.
Definition exists_ o (a : Z) : bool :=
  match ov_cache o !! a with
  | Some _ => true
  | None => match ov_db o with Some db => face_exists db (accountKey a) | None => false end
  end.
Definition killKey o (key : Slice) : OverlayDB B :=
  match ov_db o with
  | Some db => if face_exists db key then o <| ov_db := Some (face_kill db key) |> else o
  | None => o
  end.
Definition kill o (a : Z) : OverlayDB B :=
  match ov_cache o !! a with
  | Some _ => o <| ov_cache := delete a (ov_cache o) |>
  | None => killKey o (accountKey a)
  end.
Definition insert o (a : Z) (v : Slice) : OverlayDB B := o <| ov_cache := <[a := v]> (ov_cache o) |>.

(** ** Auxiliary values *)

Definition auxCached o (a space : Z) : option Slice := ov_auxiliaryCache o !! a ≫= fun m => m !! space.
Definition lookupAuxiliary o (a space : Z) : Slice :=
  let value := match auxCached o a space with Some v => v | None => [] end in
  match value, ov_db o with
  | _ :: _, _ => value
  | [], None => value
  | [], Some db => face_lookup db (getAuxiliaryKey a space)
  end.
Definition killAuxiliary o (a space : Z) : OverlayDB B :=
  match ov_auxiliaryCache o !! a with
  | Some spaces =>
      match spaces !! space with
      | Some _ =>
          let spaces' := delete space spaces in
          o <| ov_auxiliaryCache := if decide (spaces' = ∅) then delete a (ov_auxiliaryCache o)
                                    else <[a := spaces']> (ov_auxiliaryCache o) |>
      | None => killKey o (getAuxiliaryKey a space)
      end
  | None => killKey o (getAuxiliaryKey a space)
  end.
Definition insertAuxiliary o (a : Z) (v : Slice) (space : Z) : OverlayDB B :=
  o <| ov_auxiliaryCache :=
    <[a := <[space := v]> (default ∅ (ov_auxiliaryCache o !! a))]> (ov_auxiliaryCache o) |>.

(** ** Storage words *)

Definition wordCached o (a k : Z) : option Z := ov_storageCache o !! a ≫= fun m => m !! k.
Definition lookupWord o (a k : Z) : Z :=
  match wordCached o a k with
  | Some v => v
  | None => match ov_db o with
            | Some db => h256_ofBinary (face_lookup db (getStorageKey a k))
            | None => 0
            end
  end.
Definition insertWord o (a k v : Z) : OverlayDB B :=
  o <| ov_storageCache := <[a := <[k := v]> (default ∅ (ov_storageCache o !! a))]> (ov_storageCache o) |>.

Definition storageUsed o : Z :=
  match ov_db o with Some db => s256_read (face_lookup db storageUsed_key) | None => 0 end.
Definition updateStorageUsage (v : Z) o : OverlayDB B := o <| ov_storageUsed := v |>.

(** ** Commit *)

Definition commitStorageValues o (db : B) : B :=
  foldl (fun db '(a, storage) =>
    foldl (fun db '(k, v) =>
      if contractStorageZeroValuePatch && (v =? 0) then face_kill db (getStorageKey a k)
      else face_insert db (getStorageKey a k) (toBigEndian 32 v)) db (map_to_list storage))
    db (map_to_list (ov_storageCache o)).
Definition commitAccounts o (db : B) : B :=
  foldl (fun db '(a, v) => face_insert db (accountKey a) v) db (map_to_list (ov_cache o)).
Definition commitAuxiliary o (db : B) : B :=
  foldl (fun db '(a, spaces) =>
    foldl (fun db '(space, v) => face_insert db (getAuxiliaryKey a space) v) db (map_to_list spaces))
    db (map_to_list (ov_auxiliaryCache o)).
Definition onFace o (f : B -> B) : OverlayDB B := o <| ov_db := f <$> ov_db o |>.
(** What one try puts into the batch. *)
Definition fillBatch o : OverlayDB B :=
  let o := onFace o (fun db => commitStorageValues o (commitAuxiliary o (commitAccounts o db))) in
  let o := onFace o (fun db => face_insert db storageUsed_key (s256_str (ov_storageUsed o))) in
  let '(h, o) := getLastExecutedTransactionHash o in
  let o := onFace o (fun db => face_insert db lastHash_key (toBigEndian 32 h)) in
  let '(r, o) := getPartialTransactionReceipts o in
  onFace o (fun db => face_insert db lastReceipts_key r).
(** The tries from the one numbered [commitTry] on, of which at most [n] are left. *)
Fixpoint commitTries (accepted : nat -> bool) (n commitTry : nat) o : option (OverlayDB B) :=
  match n with
  | O => None
  | S n' =>
      let o := fillBatch o in
      match ov_db o with
      | None => None
      | Some db => let '(returns, db) := face_commit (accepted commitTry) db in
                   let o := o <| ov_db := Some db |> in
                   if returns then Some o else commitTries accepted n' (S commitTry) o
      end
  end.
Definition clearCaches o : OverlayDB B :=
  o <| ov_cache := ∅ |> <| ov_auxiliaryCache := ∅ |> <| ov_storageCache := ∅ |>.
Definition commit (accepted : nat -> bool) o : option (OverlayDB B) :=
  match ov_db o with
  | None => Some o
  | Some _ =>
      match commitTries accepted 10 0 o with
      | None => None
      | Some o => let o := clearCaches o in
                  Some (o <| ov_db := face_revert <$> ov_db o |>)
      end
  end.
Definition rollback o : OverlayDB B := clearCaches o.

(** ** Whole databases *)

Definition accounts o : gmap Z Slice :=
  match ov_db o with
  | Some db => face_forEach db (fun key value acc =>
      ((if lenZ key =? 20 then <[fromBigEndian 160 key := value]> acc else acc), true)) ∅
  | None => ∅
  end.
Definition storage o (a : Z) : gmap Z Z :=
  match ov_db o with
  | Some db => face_forEachWithPrefix db (accountKey a) (fun key value acc =>
      ((if lenZ key =? 52 then
          if fromBigEndian 160 (take 20 key) =? a
          then <[fromBigEndian 256 (drop 20 key) := h256_ofBinary value]> acc else acc
        else acc), true)) ∅
  | None => ∅
  end.
Definition clearDB (accepted : bool) o : bool * OverlayDB B :=
  match ov_db o with
  | None => (true, o)
  | Some db =>
      let keys := face_forEach db (fun key _ keys => (keys ++ [key], true)) [] in
      let '(returns, db) := face_commit accepted (foldl face_kill db keys) in
      (returns, o <| ov_db := Some db |>)
  end.
Definition connected o : bool := match ov_db o with Some _ => true | None => false end.
Definition empty o : bool :=
  match ov_db o with
  | Some db => face_forEach db (fun _ _ _ => (false, false)) true
  | None => true
  end.
End Overlay.
