(* ===== verification/OverlayDbInv.v ===== *)
(** * OverlayDbInv: what a commit of the overlay writes

    The writes of a commit as a list of operations, the keys they are made to, and the database
    they leave. *)

From S2P Require Import Prelude CommonData LevelDb BatchedDb OverlayDb.
From Stdlib Require Import ZArith Lia Bool.
From stdpp Require Import base list gmap.
Open Scope Z_scope.

(** ** Keys do not collide *)

Definition is_address (a : Z) : Prop := 0 <= a < 2 ^ 160.
Definition is_hash (k : Z) : Prop := 0 <= k < 2 ^ 256.

Lemma toBigEndian_inj n x y : 0 <= x < 256 ^ Z.of_nat n -> 0 <= y < 256 ^ Z.of_nat n ->
  toBigEndian n x = toBigEndian n y -> x = y.
Proof.
  intros Hx Hy E. apply (f_equal unbe) in E. rewrite !unbe_toBigEndian in E by lia. by rewrite !Z.mod_small in E by lia.
Qed.
Lemma fromBigEndian_toBigEndian n x : 0 <= x < 256 ^ Z.of_nat n ->
  fromBigEndian (8 * Z.of_nat n) (toBigEndian n x) = x.
Proof.
  intros Hx. rewrite fromBigEndian_unbe by (lia || apply toBigEndian_ok). rewrite unbe_toBigEndian by lia.
  rewrite Z.mod_small by lia. apply wrap_small. rewrite Z.pow_mul_r by lia. exact Hx.
Qed.
Lemma h256_ofBinary_word v : is_hash v -> h256_ofBinary (toBigEndian 32 v) = v.
Proof.
  intros Hv. unfold h256_ofBinary. rewrite toBigEndian_lenZ. simpl.
  apply (fromBigEndian_toBigEndian 32). exact Hv.
Qed.

Lemma accountKey_inj a a' : is_address a -> is_address a' -> accountKey a = accountKey a' -> a = a'.
Proof. apply (toBigEndian_inj 20). Qed.
Lemma auxiliaryKey_inj a a' s s' : is_address a -> is_address a' -> getAuxiliaryKey a s = getAuxiliaryKey a' s' -> a = a' /\ s = s'.
Proof.
  intros Ha Ha' [E [= ->]]%app_inj_1; [|by rewrite !toBigEndian_length]. split; [|done]. by apply accountKey_inj.
Qed.
Lemma storageKey_inj a a' k k' : is_address a -> is_address a' -> is_hash k -> is_hash k' ->
  getStorageKey a k = getStorageKey a' k' -> a = a' /\ k = k'.
Proof.
  intros Ha Ha' Hk Hk' [E1 E2]%app_inj_1; [|by rewrite !toBigEndian_length].
  split; [by apply accountKey_inj|by apply (toBigEndian_inj 32)].
Qed.
Lemma accountKey_ok a : bytes_ok (accountKey a).
Proof. apply toBigEndian_ok. Qed.
Lemma storageKey_app a k : getStorageKey a k = accountKey a ++ toBigEndian 32 k.
Proof. done. Qed.
(** The kinds of keys have different lengths. *)
Lemma key_lengths a s k : length (accountKey a) = 20%nat /\ length (getAuxiliaryKey a s) = 21%nat /\
  length (getStorageKey a k) = 52%nat.
Proof. unfold accountKey, getAuxiliaryKey, getStorageKey. rewrite !length_app, !toBigEndian_length. done. Qed.

(** ** Sequences of writes *)

Definition op_value (w : WriteOp) : option Slice := match w with WPut _ v => Some v | WDelete _ => None end.
Lemma op_effect_key w k x : op_effect k x w = if decide (op_key w = k) then op_value w else x.
Proof. by destruct w. Qed.
Lemma ops_effect_other ops k x : (forall w, w ∈ ops -> op_key w <> k) -> ops_effect ops k x = x.
Proof.
  unfold ops_effect. induction ops as [|w ops IH] using rev_ind; intros Hk; [done|]. rewrite foldl_app. simpl.
  rewrite op_effect_key, decide_False by (apply Hk; set_solver). apply IH. set_solver.
Qed.
(** When all writes to a key agree, their number and order do not matter. *)
Lemma ops_effect_agree ops w k x : w ∈ ops -> op_key w = k -> (forall w', w' ∈ ops -> op_key w' = k -> w' = w) ->
  ops_effect ops k x = op_value w.
Proof.
  intros Hin Hk Hag. unfold ops_effect. induction ops as [|w' ops IH] using rev_ind; [by apply not_elem_of_nil in Hin|].
  rewrite foldl_app. simpl. rewrite op_effect_key. case_decide as Hd; [by rewrite (Hag w') by set_solver|].
  apply IH; [|set_solver]. apply elem_of_app in Hin as [?|Hin]; [done|]. apply list_elem_of_singleton in Hin as ->. done.
Qed.

Section Writes.
Context {B : Type} `{db_face_laws B} `{S256Text}.
Context (zeroPatch : bool).
Implicit Types (o : OverlayDB B) (db : B).

Definition face_op db (w : WriteOp) : B := match w with WPut k v => face_insert db k v | WDelete k => face_kill db k end.
Definition face_run db (ops : list WriteOp) : B := foldl face_op db ops.
Lemma face_run_laws ops : forall db, (forall k, face_shows (face_run db ops) k = face_shows db k) /\
  forall k, face_pending (face_run db ops) k = ops_effect ops k (face_pending db k).
Proof.
  induction ops as [|w ops IH]; intros db; [done|]. destruct (IH (face_op db w)) as [H1' H2'].
  assert ((forall k, face_shows (face_op db w) k = face_shows db k) /\
          forall k, face_pending (face_op db w) k = op_effect k (face_pending db k) w) as [E1 E2].
  { destruct w as [k v|k]; [apply (face_law_insert db k v)|apply (face_law_kill db k)]. }
  split; intros k; [by rewrite H1', E1|]. rewrite H2', E2. done.
Qed.

Definition wordOp (a k v : Z) : WriteOp :=
  if zeroPatch && (v =? 0) then WDelete (getStorageKey a k) else WPut (getStorageKey a k) (toBigEndian 32 v).
Definition accountOps o : list WriteOp := map (fun '(a, v) => WPut (accountKey a) v) (map_to_list (ov_cache o)).
Definition auxOps o : list WriteOp :=
  concat (map (fun '(a, m) => map (fun '(s, v) => WPut (getAuxiliaryKey a s) v) (map_to_list m))
    (map_to_list (ov_auxiliaryCache o))).
Definition wordOps o : list WriteOp :=
  concat (map (fun '(a, m) => map (fun '(k, v) => wordOp a k v) (map_to_list m)) (map_to_list (ov_storageCache o))).
Definition nameOps (used h : Z) (r : Slice) : list WriteOp :=
  [WPut storageUsed_key (s256_str used); WPut lastHash_key (toBigEndian 32 h); WPut lastReceipts_key r].

Lemma foldl_map_ops {X} (f : B -> X -> B) (g : X -> WriteOp) l db :
  (forall db x, f db x = face_op db (g x)) -> foldl f db l = face_run db (map g l).
Proof. intros Hf. revert db. induction l as [|x l IH]; intros db; [done|]. simpl. by rewrite Hf, IH. Qed.
Lemma foldl_concat_ops {X} (f : B -> X -> B) (g : X -> list WriteOp) l db :
  (forall db x, f db x = face_run db (g x)) -> foldl f db l = face_run db (concat (map g l)).
Proof.
  intros Hf. revert db. induction l as [|x l IH]; intros db; [done|]. simpl. unfold face_run in *. rewrite foldl_app, <- IH.
  by rewrite Hf.
Qed.
Lemma commitAccounts_ops o db : commitAccounts o db = face_run db (accountOps o).
Proof. apply foldl_map_ops. by intros ? []. Qed.
Lemma commitAuxiliary_ops o db : commitAuxiliary o db = face_run db (auxOps o).
Proof. apply foldl_concat_ops. intros ? []. apply foldl_map_ops. by intros ? []. Qed.
Lemma commitStorageValues_ops o db : commitStorageValues zeroPatch o db = face_run db (wordOps o).
Proof.
  apply foldl_concat_ops. intros ? []. apply foldl_map_ops. intros ? []. unfold wordOp. by destruct (_ && _).
Qed.

(** What the two readers of names give, and that reading a second time gives the same. *)
Definition lastHash_of o : Z := fst (getLastExecutedTransactionHash o).
Definition lastReceipts_of o : Slice := fst (getPartialTransactionReceipts o).
Definition batchOps o : list WriteOp :=
  accountOps o ++ auxOps o ++ wordOps o ++ nameOps (ov_storageUsed o) (lastHash_of o) (lastReceipts_of o).

(** [o'] is [o] after some tries: the database has changed, the names have been read. *)
Definition tried o o' : Prop :=
  ov_cache o' = ov_cache o /\ ov_auxiliaryCache o' = ov_auxiliaryCache o /\ ov_storageCache o' = ov_storageCache o /\
  ov_storageUsed o' = ov_storageUsed o /\
  ov_lastHash o' = Some (lastHash_of o) /\ ov_lastReceipts o' = Some (lastReceipts_of o).

Lemma tried_ops o o' : tried o o' -> batchOps o' = batchOps o.
Proof.
  intros (E1 & E2 & E3 & E4 & E5 & E6). unfold batchOps, accountOps, auxOps, wordOps, nameOps.
  rewrite E1, E2, E3, E4. f_equal. f_equal. f_equal. unfold lastHash_of at 1, lastReceipts_of at 1.
  unfold getLastExecutedTransactionHash at 1, getPartialTransactionReceipts at 1. by rewrite E5, E6.
Qed.
Lemma tried_trans o o1 o2 : tried o o1 -> tried o1 o2 -> tried o o2.
Proof.
  intros (E1 & E2 & E3 & E4 & E5 & E6) (F1 & F2 & F3 & F4 & F5 & F6). unfold tried. rewrite F1, F2, F3, F4, F5, F6.
  split_and!; try done; f_equal; [unfold lastHash_of at 1, getLastExecutedTransactionHash|
    unfold lastReceipts_of at 1, getPartialTransactionReceipts]; by rewrite ?E5, ?E6.
Qed.

Lemma lookup_run db ops k : face_lookup (face_run db ops) k = face_lookup db k.
Proof. rewrite !face_law_lookup. f_equal. apply face_run_laws. Qed.
Lemma lookup_insert_face db k v k' : face_lookup (face_insert db k v) k' = face_lookup db k'.
Proof. exact (lookup_run db [WPut k v] k'). Qed.
Lemma face_run_app db ops1 ops2 : face_run db (ops1 ++ ops2) = face_run (face_run db ops1) ops2.
Proof. apply foldl_app. Qed.

Lemma fillBatch_spec o db : ov_db o = Some db ->
  tried o (fillBatch zeroPatch o) /\ ov_db (fillBatch zeroPatch o) = Some (face_run db (batchOps o)).
Proof.
  intros Hdb. destruct o as [c x st used d lh lr]. simpl in Hdb. subst d. unfold batchOps.
  rewrite !face_run_app. unfold fillBatch, tried, lastHash_of, lastReceipts_of, onFace. simpl.
  rewrite commitAccounts_ops, commitAuxiliary_ops, commitStorageValues_ops.
  destruct lh as [h|], lr as [r|]; unfold getLastExecutedTransactionHash, getPartialTransactionReceipts; simpl;
    rewrite ?lookup_insert_face, ?lookup_run; split_and!; done || reflexivity.
Qed.

Lemma commitTries_spec accepted n : forall i o db, ov_db o = Some db ->
  (exists j, (i <= j < i + n)%nat /\ accepted j = true) ->
  exists o' db', commitTries zeroPatch accepted n i o = Some o' /\ tried o o' /\ ov_db o' = Some db' /\
    forall k, face_shows db' k = ops_effect (batchOps o) k (if accepted i then face_pending db k else face_shows db k) /\
              face_pending db' k = face_shows db' k.
Proof.
  induction n as [|n IH]; intros i o db Hdb (j & Hj & Ha); [lia|]. cbn [commitTries].
  destruct (fillBatch_spec o db Hdb) as [Ht Ho]. rewrite Ho. destruct (face_run_laws (batchOps o) db) as [Hs Hp].
  destruct (face_commit (accepted i) _) as [r db1] eqn:E. destruct (face_law_commit _ _ _ _ E) as [-> Hc].
  set (o1 := fillBatch zeroPatch o) in *.
  assert (Ht1 : tried o (o1 <| ov_db := Some db1 |>)) by exact Ht. set (o2 := o1 <| ov_db := Some db1 |>) in *.
  destruct (accepted i) eqn:Ei.
  - exists o2, db1. split_and!; try done. intros k. rewrite (proj2 (Hc k)), (proj1 (Hc k)), Hp. done.
  - assert (Hj' : (S i <= j < S i + n)%nat) by (destruct (decide (j = i)) as [->|]; [congruence|lia]).
    destruct (IH (S i) o2 db1 eq_refl) as (o' & db' & Hr & Ht' & Hdb' & Hk); [by exists j|].
    exists o', db'. split_and!; [done|by eapply tried_trans|done|]. intros k. destruct (Hk k) as [Hk1 Hk2]. split; [|done].
    rewrite Hk1, (tried_ops _ _ Ht1), (proj2 (Hc k)), (proj1 (Hc k)), Hs. by destruct (accepted (S i)).
Qed.
Lemma commitTries_exit accepted n : forall i o db, ov_db o = Some db ->
  (forall j, (i <= j < i + n)%nat -> accepted j = false) -> commitTries zeroPatch accepted n i o = None.
Proof.
  induction n as [|n IH]; intros i o db Hdb Ha; [done|]. cbn [commitTries].
  destruct (fillBatch_spec o db Hdb) as [Ht Ho]. rewrite Ho.
  destruct (face_commit (accepted i) _) as [r db1] eqn:E. destruct (face_law_commit _ _ _ _ E) as [-> Hc].
  rewrite (Ha i) by lia. eapply IH; [reflexivity|]. intros j Hj. apply Ha. lia.
Qed.

(** ** The writes of each kind *)

Lemma accountOps_elem o w : w ∈ accountOps o <-> exists a v, ov_cache o !! a = Some v /\ w = WPut (accountKey a) v.
Proof.
  unfold accountOps. rewrite list_elem_of_fmap. split.
  - intros ([a v] & -> & Hin%elem_of_map_to_list). eauto.
  - intros (a & v & Hc & ->). exists (a, v). by rewrite elem_of_map_to_list.
Qed.
Lemma nested_elem {V} (m : gmap Z (gmap Z V)) (g : Z -> Z -> V -> WriteOp) w :
  w ∈ concat (map (fun '(a, m) => map (fun '(k, v) => g a k v) (map_to_list m)) (map_to_list m)) <->
  exists a k v, m !! a ≫= (fun m' => m' !! k) = Some v /\ w = g a k v.
Proof.
  rewrite list_elem_of_In, in_concat. setoid_rewrite <- list_elem_of_In. split.
  - intros (l & ([a m'] & -> & Hin%elem_of_map_to_list)%list_elem_of_fmap & ([k v] & -> & Hv%elem_of_map_to_list)%list_elem_of_fmap).
    exists a, k, v. by rewrite Hin.
  - intros (a & k & v & (m' & Hm & Hv)%bind_Some & ->). exists (map (fun '(k, v) => g a k v) (map_to_list m')). split.
    + apply list_elem_of_fmap. exists (a, m'). by rewrite elem_of_map_to_list.
    + apply list_elem_of_fmap. exists (k, v). by rewrite elem_of_map_to_list.
Qed.
Lemma auxOps_elem o w : w ∈ auxOps o <-> exists a s v, auxCached o a s = Some v /\ w = WPut (getAuxiliaryKey a s) v.
Proof. apply (nested_elem _ (fun a s v => WPut (getAuxiliaryKey a s) v)). Qed.
Lemma wordOps_elem o w : w ∈ wordOps o <-> exists a k v, wordCached o a k = Some v /\ w = wordOp a k v.
Proof. apply (nested_elem _ wordOp). Qed.
End Writes.

(** ** Iteration *)

Lemma iterate_ext {A} (f g : Slice -> Slice -> A -> A * bool) l a :
  (forall k v a, f k v a = g k v a) -> iterate f l a = iterate g l a.
Proof.
  intros E. revert a. induction l as [|[k v] l IH]; intros a; [done|]. cbn. rewrite E. destruct (g k v a) as [a' []]; auto.
Qed.

Definition collect {V} (g : Slice -> Slice -> option (Z * V)) (l : list (Slice * Slice)) : gmap Z V :=
  foldl (fun acc e => match g (fst e) (snd e) with Some (k, v) => <[k := v]> acc | None => acc end) ∅ l.
Lemma iterate_collect {V} (g : Slice -> Slice -> option (Z * V)) l :
  iterate (fun k v acc => (match g k v with Some (k, v) => <[k := v]> acc | None => acc end, true)) l ∅ = collect g l.
Proof.
  unfold collect. generalize (∅ : gmap Z V). induction l as [|[k v] l IH]; intros m; [done|]. cbn. by rewrite IH.
Qed.
Lemma collect_lookup {V} (g : Slice -> Slice -> option (Z * V)) l k :
  (forall e1 e2 v1 v2, e1 ∈ l -> e2 ∈ l -> g (fst e1) (snd e1) = Some (k, v1) -> g (fst e2) (snd e2) = Some (k, v2) -> v1 = v2) ->
  forall v, collect g l !! k = Some v <-> exists e, e ∈ l /\ g (fst e) (snd e) = Some (k, v).
Proof.
  unfold collect. induction l as [|e l IH] using rev_ind; intros Hu v.
  { cbn. rewrite lookup_empty. split; [done|]. by intros (e & ?%not_elem_of_nil & _). }
  rewrite foldl_snoc. assert (IH' := IH ltac:(intros; eapply Hu; try eassumption; set_solver)). clear IH.
  destruct (g (fst e) (snd e)) as [[k' v']|] eqn:E.
  - destruct (decide (k' = k)) as [->|Hne].
    + rewrite lookup_insert_eq. split; [intros [= <-]; exists e; set_solver|].
      intros (e' & Hin & E'). f_equal. eapply (Hu e e'); set_solver.
    + rewrite lookup_insert_ne, IH' by done. split; intros (e' & Hin & E'); exists e'; (split; [|done]); [set_solver|].
      apply elem_of_app in Hin as [|Hin]; [done|]. apply list_elem_of_singleton in Hin as ->. congruence.
  - rewrite IH'. split; intros (e' & Hin & E'); exists e'; (split; [|done]); [set_solver|].
    apply elem_of_app in Hin as [|Hin]; [done|]. apply list_elem_of_singleton in Hin as ->. congruence.
Qed.

Definition storage_entry (a : Z) (key value : Slice) : option (Z * Z) :=
  if lenZ key =? 52 then
    if fromBigEndian 160 (take 20 key) =? a then Some (fromBigEndian 256 (drop 20 key), h256_ofBinary value) else None
  else None.
Definition account_entry (key value : Slice) : option (Z * Slice) :=
  if lenZ key =? 20 then Some (fromBigEndian 160 key, value) else None.

Lemma bytes_of_number n l : bytes_ok l -> length l = n -> toBigEndian n (fromBigEndian (8 * Z.of_nat n) l) = l.
Proof.
  intros Hb <-. rewrite fromBigEndian_unbe by (lia || done). rewrite wrap_small; [by apply toBigEndian_unbe|].
  pose proof (unbe_bound l Hb) as Hu. unfold lenZ in Hu. rewrite Z.pow_mul_r by lia. exact Hu.
Qed.
Lemma bytes_number_range n l : bytes_ok l -> 0 <= fromBigEndian (8 * Z.of_nat n) l < 2 ^ (8 * Z.of_nat n).
Proof. intros Hb. rewrite fromBigEndian_unbe by (lia || done). apply wrap_range. lia. Qed.

(** An entry that counts for [a] is the entry of one storage word of [a]. *)
Lemma storage_entry_key a key value k w : bytes_ok key -> is_address a ->
  storage_entry a key value = Some (k, w) <-> is_hash k /\ key = getStorageKey a k /\ w = h256_ofBinary value.
Proof.
  intros Hb Ha. unfold storage_entry. split.
  - destruct (Z.eqb_spec (lenZ key) 52) as [Hl|]; [|done]. destruct (Z.eqb_spec (fromBigEndian 160 (take 20 key)) a) as [E|]; [|done].
    assert (Hb1 : bytes_ok (take 20 key)) by by apply Forall_take. assert (Hb2 : bytes_ok (drop 20 key)) by by apply Forall_drop.
    unfold lenZ in Hl. intros [= <- <-]. split_and!; [apply (bytes_number_range 32 _ Hb2)| |done].
    unfold getStorageKey. rewrite (bytes_of_number 32) by (done || (rewrite length_drop; lia)).
    rewrite <- E, (bytes_of_number 20) by (done || (rewrite length_take; lia)). by rewrite take_drop.
  - intros (Hk & -> & ->). destruct (key_lengths a 0 k) as (_ & _ & Hl). unfold lenZ. rewrite Hl. cbn [Z.eqb].
    change (Z.of_nat 52 =? 52) with true. cbn iota. unfold getStorageKey.
    rewrite take_app_length', drop_app_length' by (by rewrite toBigEndian_length).
    rewrite (fromBigEndian_toBigEndian 20) by exact Ha. rewrite Z.eqb_refl. by rewrite (fromBigEndian_toBigEndian 32) by exact Hk.
Qed.
Lemma account_entry_key key value a w : bytes_ok key ->
  account_entry key value = Some (a, w) <-> is_address a /\ key = accountKey a /\ w = value.
Proof.
  intros Hb. unfold account_entry. split.
  - destruct (Z.eqb_spec (lenZ key) 20) as [Hl|]; [|done]. unfold lenZ in Hl. intros [= <- <-].
    split_and!; [apply (bytes_number_range 20 _ Hb)| |done]. unfold accountKey. by rewrite (bytes_of_number 20) by (done || lia).
  - intros (Ha & -> & ->). destruct (key_lengths a 0 0) as (Hl & _). unfold lenZ. rewrite Hl.
    change (Z.of_nat 20 =? 20) with true. cbn iota. unfold accountKey. by rewrite (fromBigEndian_toBigEndian 20) by exact Ha.
Qed.
