(* ===== verification/OverlayDbClaims.v ===== *)
(** * OverlayDbClaims: commit and rollback of the overlay *)

From Stdlib Require Import ZArith Lia Bool.
From stdpp Require Import base list gmap.
From Stdlib Require String Ascii DecimalString DecimalPos DecimalZ.
From S2P Require Import Prelude CommonData LevelDb BatchedDb OverlayDb OverlayDbInv.
Open Scope Z_scope.

#[local] Opaque accountKey getAuxiliaryKey getStorageKey toBigEndian storageUsed_key lastHash_key lastReceipts_key.

Section Claims.
Context {B : Type} `{db_face_laws B} `{S256Text}.
Context (zeroPatch : bool).
Implicit Types (o : OverlayDB B) (db : B).

(** The caches hold addresses and words. *)
Record overlay_ok o : Prop := {
  ok_accounts a v : ov_cache o !! a = Some v -> is_address a;
  ok_aux a s v : auxCached o a s = Some v -> is_address a;
  ok_words a k v : wordCached o a k = Some v -> is_address a /\ is_hash k /\ is_hash v }.

Lemma batchOps_elem o w : w ∈ batchOps zeroPatch o ->
  (exists a v, ov_cache o !! a = Some v /\ w = WPut (accountKey a) v) \/
  (exists a s v, auxCached o a s = Some v /\ w = WPut (getAuxiliaryKey a s) v) \/
  (exists a k v, wordCached o a k = Some v /\ w = wordOp zeroPatch a k v) \/
  w ∈ nameOps (ov_storageUsed o) (lastHash_of o) (lastReceipts_of o).
Proof. unfold batchOps. rewrite !elem_of_app, accountOps_elem, auxOps_elem, wordOps_elem. tauto. Qed.
Lemma wordOp_key a k v : op_key (wordOp zeroPatch a k v) = getStorageKey a k.
Proof. unfold wordOp. by destruct (_ && _). Qed.
Lemma nameOps_elem u h r w : w ∈ nameOps u h r ->
  w = WPut storageUsed_key (s256_str u) \/ w = WPut lastHash_key (toBigEndian 32 h) \/ w = WPut lastReceipts_key r.
Proof. unfold nameOps. set_solver. Qed.

(** Keys of different kinds differ. *)
Ltac kinds E :=
  exfalso; apply (f_equal length) in E; cbn [op_key] in E; rewrite ?wordOp_key in E; revert E;
  rewrite ?(proj1 (key_lengths _ 0 0)), ?(proj1 (proj2 (key_lengths _ _ 0))), ?(proj2 (proj2 (key_lengths _ 0 _))); vm_compute; done.
Ltac writes Hw :=
  apply batchOps_elem in Hw as [(? & ? & ? & ->)|[(? & ? & ? & ? & ->)|[(? & ? & ? & ? & ->)|
    [-> |[-> | ->]]%nameOps_elem]]].

Lemma effect_account o a x : overlay_ok o -> is_address a ->
  ops_effect (batchOps zeroPatch o) (accountKey a) x = match ov_cache o !! a with Some v => Some v | None => x end.
Proof.
  intros Hok Ha. destruct (ov_cache o !! a) as [v|] eqn:E.
  - apply (ops_effect_agree _ (WPut (accountKey a) v)); [|done|].
    + unfold batchOps. rewrite !elem_of_app, accountOps_elem. left. eauto.
    + intros w Hw Ek. writes Hw; try kinds Ek. cbn [op_key] in Ek. apply accountKey_inj in Ek as ->; [congruence|by eapply ok_accounts|done].
  - apply ops_effect_other. intros w Hw Ek. writes Hw; try kinds Ek. cbn [op_key] in Ek.
    apply accountKey_inj in Ek as ->; [congruence|by eapply ok_accounts|done].
Qed.
Lemma effect_aux o a s x : overlay_ok o -> is_address a ->
  ops_effect (batchOps zeroPatch o) (getAuxiliaryKey a s) x = match auxCached o a s with Some v => Some v | None => x end.
Proof.
  intros Hok Ha. destruct (auxCached o a s) as [v|] eqn:E.
  - apply (ops_effect_agree _ (WPut (getAuxiliaryKey a s) v)); [|done|].
    + unfold batchOps. rewrite !elem_of_app, auxOps_elem. right. left. eauto.
    + intros w Hw Ek. writes Hw; try kinds Ek. cbn [op_key] in Ek. apply auxiliaryKey_inj in Ek as [-> ->]; [congruence|by eapply ok_aux|done].
  - apply ops_effect_other. intros w Hw Ek. writes Hw; try kinds Ek. cbn [op_key] in Ek.
    apply auxiliaryKey_inj in Ek as [-> ->]; [congruence|by eapply ok_aux|done].
Qed.
Lemma effect_word o a k x : overlay_ok o -> is_address a -> is_hash k ->
  ops_effect (batchOps zeroPatch o) (getStorageKey a k) x =
  match wordCached o a k with
  | Some v => if zeroPatch && (v =? 0) then None else Some (toBigEndian 32 v)
  | None => x
  end.
Proof.
  intros Hok Ha Hk. destruct (wordCached o a k) as [v|] eqn:E.
  - rewrite (ops_effect_agree _ (wordOp zeroPatch a k v)).
    + unfold wordOp. by destruct (_ && _).
    + unfold batchOps. rewrite !elem_of_app, wordOps_elem. right. right. left. eauto 6.
    + apply wordOp_key.
    + intros w Hw Ek. writes Hw; try kinds Ek. rewrite wordOp_key in Ek.
      edestruct (ok_words o Hok) as (? & ? & _); [eassumption|]. apply storageKey_inj in Ek as [-> ->]; [congruence|done..].
  - apply ops_effect_other. intros w Hw Ek. writes Hw; try kinds Ek. rewrite wordOp_key in Ek.
    edestruct (ok_words o Hok) as (? & ? & _); [eassumption|]. apply storageKey_inj in Ek as [-> ->]; [congruence|done..].
Qed.
Lemma effect_names o x :
  ops_effect (batchOps zeroPatch o) storageUsed_key x = Some (s256_str (ov_storageUsed o)) /\
  ops_effect (batchOps zeroPatch o) lastHash_key x = Some (toBigEndian 32 (lastHash_of o)) /\
  ops_effect (batchOps zeroPatch o) lastReceipts_key x = Some (lastReceipts_of o).
Proof.
  assert (Hall : forall w, w ∈ nameOps (ov_storageUsed o) (lastHash_of o) (lastReceipts_of o) ->
    ops_effect (batchOps zeroPatch o) (op_key w) x = op_value w).
  { intros w Hn. apply (ops_effect_agree _ w); [|done|].
    - unfold batchOps. rewrite !elem_of_app. auto.
    - intros w' Hw Ek. apply nameOps_elem in Hn as [-> |[-> | ->]]; writes Hw; done || kinds Ek. }
  split_and!; apply (Hall (WPut _ _)); unfold nameOps; set_solver.
Qed.

(** What the database shows after a commit of [o], where nothing of [o] is in the way of [base]. *)
Record committed o (base : Slice -> option Slice) db' : Prop := {
  co_account a : is_address a ->
    face_shows db' (accountKey a) = match ov_cache o !! a with Some v => Some v | None => base (accountKey a) end;
  co_aux a s : is_address a ->
    face_shows db' (getAuxiliaryKey a s) = match auxCached o a s with Some v => Some v | None => base (getAuxiliaryKey a s) end;
  co_word a k : is_address a -> is_hash k ->
    face_shows db' (getStorageKey a k) =
    match wordCached o a k with
    | Some v => if zeroPatch && (v =? 0) then None else Some (toBigEndian 32 v)
    | None => base (getStorageKey a k)
    end;
  co_used : face_shows db' storageUsed_key = Some (s256_str (ov_storageUsed o));
  co_lastHash : face_shows db' lastHash_key = Some (toBigEndian 32 (lastHash_of o));
  co_lastReceipts : face_shows db' lastReceipts_key = Some (lastReceipts_of o);
  co_settled k : face_pending db' k = face_shows db' k }.

Lemma commit_committed accepted o db : overlay_ok o -> ov_db o = Some db ->
  (exists j, (j < 10)%nat /\ accepted j = true) ->
  exists o' db', commit zeroPatch accepted o = Some o' /\ ov_db o' = Some db' /\
    ov_cache o' = ∅ /\ ov_auxiliaryCache o' = ∅ /\ ov_storageCache o' = ∅ /\
    ov_lastHash o' = Some (lastHash_of o) /\ ov_lastReceipts o' = Some (lastReceipts_of o) /\
    committed o (if accepted 0%nat then face_pending db else face_shows db) db'.
Proof.
  intros Hok Hdb (j & Hj & Ha). unfold commit. rewrite Hdb.
  destruct (commitTries_spec zeroPatch accepted 10 0 o db Hdb) as (o' & db' & -> & Ht & Hdb' & Hk);
    [exists j; split; [lia|done]|].
  eexists _, (face_revert db'). split; [reflexivity|]. destruct Ht as (_ & _ & _ & _ & Hh & Hr).
  cbn. rewrite Hdb'. split_and!; [done..|].
  assert (Hrev : forall k, face_shows (face_revert db') k =
    ops_effect (batchOps zeroPatch o) k ((if accepted 0%nat then face_pending db else face_shows db) k)).
  { intros k. rewrite (proj1 (face_law_revert db' k)), (proj1 (Hk k)). by destruct (accepted 0%nat). }
  split; intros; rewrite ?Hrev; [by apply effect_account|by apply effect_aux|by apply effect_word|apply effect_names..|].
  rewrite <- Hrev, (proj1 (face_law_revert db' k)). apply (face_law_revert db' k).
Qed.

(** *** Reading through the overlay *)

Lemma lookup_db o db a : ov_db o = Some db ->
  lookup o a = match ov_cache o !! a with Some (x :: v) => x :: v | _ => default [] (face_shows db (accountKey a)) end.
Proof. intros Hdb. unfold lookup. rewrite Hdb, face_law_lookup. by destruct (ov_cache o !! a) as [[]|]. Qed.
Lemma lookupAuxiliary_db o db a s : ov_db o = Some db ->
  lookupAuxiliary o a s =
  match auxCached o a s with Some (x :: v) => x :: v | _ => default [] (face_shows db (getAuxiliaryKey a s)) end.
Proof. intros Hdb. unfold lookupAuxiliary. rewrite Hdb, face_law_lookup. by destruct (auxCached o a s) as [[]|]. Qed.
Lemma lookupWord_db o db a k : ov_db o = Some db ->
  lookupWord o a k =
  match wordCached o a k with Some v => v | None => h256_ofBinary (default [] (face_shows db (getStorageKey a k))) end.
Proof. intros Hdb. unfold lookupWord. by rewrite Hdb, face_law_lookup. Qed.

(** No empty value waits, and no deletion. *)
Definition settled o db : Prop :=
  ov_db o = Some db /\ (forall k, face_pending db k = face_shows db k) /\
  (forall a, ov_cache o !! a <> Some []) /\ (forall a s, auxCached o a s <> Some []).

Lemma cached_empty o a s k : ov_cache o = ∅ -> ov_auxiliaryCache o = ∅ -> ov_storageCache o = ∅ ->
  ov_cache o !! a = None /\ auxCached o a s = None /\ wordCached o a k = None.
Proof. intros E1 E2 E3. unfold auxCached, wordCached. by rewrite E1, E2, E3, !lookup_empty. Qed.

(** C12: A commit moves what waits in the overlay into the database without changing what is read.
    When one of the ten tries is accepted, and no deletion or empty value waits, the caches are
    empty afterwards and every account, auxiliary value and storage word reads as before, now from
    the database; the storage counter, the hash of the last transaction and its receipts are
    stored, so that a new overlay of the database reads them. *)
Theorem overlay_commit_keeps `{!S256TextSpec} accepted o db : overlay_ok o -> settled o db ->
  (exists j, (j < 10)%nat /\ accepted j = true) -> - 2 ^ 255 <= ov_storageUsed o < 2 ^ 255 -> is_hash (lastHash_of o) ->
  exists o' db', commit zeroPatch accepted o = Some o' /\ ov_db o' = Some db' /\ settled o' db' /\
    (forall a, is_address a -> lookup o' a = lookup o a) /\
    (forall a s, is_address a -> lookupAuxiliary o' a s = lookupAuxiliary o a s) /\
    (forall a k, is_address a -> is_hash k -> lookupWord o' a k = lookupWord o a k) /\
    (ov_cache o' = ∅ /\ ov_auxiliaryCache o' = ∅ /\ ov_storageCache o' = ∅) /\
    storageUsed o' = ov_storageUsed o /\ lastHash_of (OverlayDB_new (Some db')) = lastHash_of o /\
    lastReceipts_of (OverlayDB_new (Some db')) = lastReceipts_of o.
Proof.
  intros Hok (Hdb & Hpend & Hne & Hnx) Hacc Hu Hh.
  destruct (commit_committed accepted o db Hok Hdb Hacc) as (o' & db' & Hc & Hdb' & E1 & E2 & E3 & _ & _ & Hco).
  assert (Hb : forall k, (if accepted 0%nat then face_pending db else face_shows db) k = face_shows db k)
    by (intros k; destruct (accepted 0%nat); [apply Hpend|done]).
  assert (He := fun a s k => cached_empty o' a s k E1 E2 E3). exists o', db'. split_and!; try done.
  - split_and!; [done|apply (co_settled _ _ _ Hco)| |]; intros; [rewrite (proj1 (He _ 0 0))|rewrite (proj1 (proj2 (He _ _ 0)))]; done.
  - intros a Ha. rewrite (lookup_db o' db' a Hdb'), (lookup_db o db a Hdb), (proj1 (He a 0 0)), (co_account _ _ _ Hco a Ha), Hb.
    specialize (Hne a). by destruct (ov_cache o !! a) as [[]|].
  - intros a s Ha. rewrite (lookupAuxiliary_db o' db' a s Hdb'), (lookupAuxiliary_db o db a s Hdb), (proj1 (proj2 (He a s 0))),
      (co_aux _ _ _ Hco a s Ha), Hb. specialize (Hnx a s). by destruct (auxCached o a s) as [[]|].
  - intros a k Ha Hk. rewrite (lookupWord_db o' db' a k Hdb'), (lookupWord_db o db a k Hdb), (proj2 (proj2 (He a 0 k))),
      (co_word _ _ _ Hco a k Ha Hk), Hb. destruct (wordCached o a k) as [v|] eqn:Ev; [|done].
    destruct (zeroPatch && (v =? 0)) eqn:Ez; simpl.
    + apply andb_true_iff in Ez as [_ ->%Z.eqb_eq]. done.
    + apply h256_ofBinary_word. by eapply (ok_words o Hok).
  - unfold storageUsed. rewrite Hdb', face_law_lookup, (co_used _ _ _ Hco). simpl. by apply s256_read_str.
  - unfold lastHash_of at 1, getLastExecutedTransactionHash. simpl. rewrite face_law_lookup, (co_lastHash _ _ _ Hco). simpl.
    destruct (toBigEndian 32 (lastHash_of o)) eqn:E; [|rewrite <- E; by apply h256_ofBinary_word].
    apply (f_equal length) in E. by rewrite toBigEndian_length in E.
  - unfold lastReceipts_of at 1, getPartialTransactionReceipts. simpl. by rewrite face_law_lookup, (co_lastReceipts _ _ _ Hco).
Qed.

(** A deletion does not survive a second try.  An account of the database that is killed is gone
    after a commit whose first try is accepted; when the first try fails and a later one is
    accepted, the commit succeeds and the account is still there: the batch that held the deletion
    went with the failed try, and only the caches are written again. *)
Theorem retried_commit_loses_deletions accepted o db a : overlay_ok o -> settled o db -> is_address a ->
  ov_cache o !! a = None -> face_exists db (accountKey a) = true ->
  (exists j, (j < 10)%nat /\ accepted j = true) ->
  exists o', commit zeroPatch accepted (kill o a) = Some o' /\
    lookup o' a = if accepted 0%nat then [] else lookup o a.
Proof.
  intros Hok (Hdb & Hpend & _ & _) Ha Hc Hex Hacc.
  assert (Hk : kill o a = o <| ov_db := Some (face_kill db (accountKey a)) |>)
    by (unfold kill, killKey; by rewrite Hc, Hdb, Hex).
  destruct (face_law_kill db (accountKey a)) as [Hs Hp].
  destruct (commit_committed accepted (kill o a) (face_kill db (accountKey a))) as
    (o' & db' & -> & Hdb' & E1 & E2 & E3 & _ & _ & Hco); [rewrite Hk; by destruct Hok|by rewrite Hk|done|].
  exists o'. split; [done|]. rewrite (lookup_db o' db' a Hdb'), (lookup_db o db a Hdb), E1, lookup_empty, Hc,
    (co_account _ _ _ Hco a Ha), Hk. cbn [ov_cache set_field]. rewrite Hc.
  destruct (accepted 0%nat); [by rewrite Hp, decide_True|by rewrite Hs].
Qed.

(** Rollback forgets what waits in the caches, and every read gives again what the database
    shows; but it does not touch the batch of the database, so an account that was killed before
    the rollback is deleted by the next commit. *)
Theorem overlay_rollback_keeps_deletions accepted o db a : overlay_ok o -> settled o db -> is_address a ->
  ov_cache o !! a = None -> face_exists db (accountKey a) = true -> accepted 0%nat = true ->
  lookup (rollback (kill o a)) a = default [] (face_shows db (accountKey a)) /\
  exists o', commit zeroPatch accepted (rollback (kill o a)) = Some o' /\ lookup o' a = [].
Proof.
  intros Hok (Hdb & Hpend & _ & _) Ha Hc Hex Hacc.
  assert (Hk : rollback (kill o a) = rollback o <| ov_db := Some (face_kill db (accountKey a)) |>)
    by (unfold kill, killKey; by rewrite Hc, Hdb, Hex).
  destruct (face_law_kill db (accountKey a)) as [Hs Hp]. set (o1 := rollback (kill o a)) in *.
  assert (Hdb1 : ov_db o1 = Some (face_kill db (accountKey a))) by by rewrite Hk.
  assert (Hc1 : ov_cache o1 = ∅ /\ ov_auxiliaryCache o1 = ∅ /\ ov_storageCache o1 = ∅) by by rewrite Hk.
  destruct Hc1 as (F1 & F2 & F3). assert (Hem := fun a s k => cached_empty o1 a s k F1 F2 F3). split.
  { rewrite (lookup_db o1 _ a Hdb1), (proj1 (Hem a 0 0)). by rewrite Hs. }
  destruct (commit_committed accepted o1 (face_kill db (accountKey a))) as
    (o' & db' & -> & Hdb' & E1 & E2 & E3 & _ & _ & Hco); [|done|exists 0%nat; split; [lia|done]|].
  { split; intros *; [rewrite (proj1 (Hem _ 0 0))|rewrite (proj1 (proj2 (Hem _ _ 0)))|rewrite (proj2 (proj2 (Hem _ 0 _)))]; done. }
  exists o'. split; [done|]. rewrite (lookup_db o' db' a Hdb'), E1, lookup_empty, (co_account _ _ _ Hco a Ha),
    (proj1 (Hem a 0 0)), Hacc, Hp, decide_True by done. done.
Qed.

(** Ten refused tries end the process, so a commit that returns has stored everything. *)
Theorem commit_returns_only_when_stored accepted o db : ov_db o = Some db ->
  commit zeroPatch accepted o = None <-> forall j, (j < 10)%nat -> accepted j = false.
Proof.
  intros Hdb. unfold commit. rewrite Hdb. split.
  - intros Hn j Hj. destruct (accepted j) eqn:E; [|done].
    destruct (commitTries_spec zeroPatch accepted 10 0 o db Hdb) as (o' & db' & Hr & _); [exists j; split; [lia|done]|].
    by rewrite Hr in Hn.
  - intros Ha. rewrite (commitTries_exit zeroPatch accepted 10 0 o db Hdb); [done|]. intros j Hj. apply Ha. lia.
Qed.
End Claims.

(** ** Iteration *)

Section Iteration.
Context {B : Type} `{db_prefix_laws B}.
Implicit Types (o : OverlayDB B) (db : B).

(** Storage() and accounts() return exactly what the database stores.  The map that storage()
    builds by iterating over the keys that start with the address has, for every key, the word
    stored at it and nothing else; accounts() has the record of every stored account.  Values that
    wait in the overlay are not seen. *)
Theorem overlay_iteration_exact o db a : ov_db o = Some db -> (forall k v, face_shows db k = Some v -> bytes_ok k) ->
  is_address a ->
  (forall k w, storage o a !! k = Some w <->
     is_hash k /\ exists v, face_shows db (getStorageKey a k) = Some v /\ w = h256_ofBinary v) /\
  accounts o !! a = face_shows db (accountKey a).
Proof.
  intros Hdb Hb Ha. split.
  - intros k w. unfold storage. rewrite Hdb, face_law_prefix. set (l := with_prefix (accountKey a) (face_list db)).
    assert (Hin : forall e, e ∈ l <-> face_shows db (fst e) = Some (snd e) /\ exists q, fst e = accountKey a ++ q).
    { intros [key v]. unfold l, with_prefix. rewrite list_elem_of_filter, face_law_list. cbn. rewrite starts_with_app. tauto. }
    rewrite (iterate_ext _ (fun k v acc => (match storage_entry a k v with Some (k, v) => <[k := v]> acc | None => acc end, true))).
    2:{ intros key v acc. unfold storage_entry. by repeat case_match. }
    rewrite iterate_collect, collect_lookup.
    + split.
      * intros (e & [Hs _]%Hin & (Hk & E & ->)%storage_entry_key); [|by eapply Hb|done]. rewrite E in Hs. eauto.
      * intros (Hk & v & Hs & ->). exists (getStorageKey a k, v). split; [|by apply storage_entry_key; [eapply Hb|..]].
        apply Hin. cbn. split; [done|]. exists (toBigEndian 32 k). apply storageKey_app.
    + intros e1 e2 v1 v2 [I1 _]%Hin [I2 _]%Hin (_ & E1 & ->)%storage_entry_key (_ & E2 & ->)%storage_entry_key;
        [|by eapply Hb|done|by eapply Hb|done]. congruence.
  - unfold accounts. rewrite Hdb, face_law_forEach.
    rewrite (iterate_ext _ (fun k v acc => (match account_entry k v with Some (k, v) => <[k := v]> acc | None => acc end, true))).
    2:{ intros key v acc. unfold account_entry. by repeat case_match. }
    rewrite iterate_collect. apply option_eq. intros v. rewrite collect_lookup.
    + split.
      * intros ([key v'] & Hs%face_law_list & (_ & E & ->)%account_entry_key); [|by eapply Hb]. cbn in E. by rewrite <- E.
      * intros Hs. exists (accountKey a, v). split; [by apply face_law_list|]. apply account_entry_key; [by eapply Hb|done].
    + intros [k1 v1] [k2 v2] w1 w2 I1%face_law_list I2%face_law_list (_ & E1 & ->)%account_entry_key (_ & E2 & ->)%account_entry_key;
        [|by eapply Hb|by eapply Hb]. cbn in *. congruence.
Qed.
End Iteration.

(** ** Examples: an overlay of a batched LevelDB *)

Module OverlayExample.
Import MapLevelDB.

Definition text_of (l : Slice) : String.string :=
  String.string_of_list_ascii (map (fun z => Ascii.ascii_of_nat (Z.to_nat z)) l).
Definition decimal_read (l : Slice) : Z :=
  match DecimalString.NilZero.int_of_string (text_of l) with Some d => Z.of_int d | None => 0 end.
#[export] Instance decimalText : S256Text := { s256_str := to_string; s256_read := decimal_read }.
Lemma text_of_to_string z : text_of (to_string z) = DecimalString.NilZero.string_of_int (Z.to_int z).
Proof.
  unfold text_of, to_string. generalize (DecimalString.NilZero.string_of_int (Z.to_int z)). intros t. rewrite map_map.
  rewrite (map_ext _ (fun c => c)), map_id; [apply String.string_of_list_ascii_of_string|].
  intros c. rewrite Nat2Z.id. apply Ascii.ascii_nat_embedding.
Qed.
Lemma to_int_nonnil z : Z.to_int z <> Decimal.Pos Decimal.Nil /\ Z.to_int z <> Decimal.Neg Decimal.Nil.
Proof.
  destruct z as [|p|p]; simpl; split; try done; intros [= E]; by destruct (DecimalPos.Unsigned.to_uint_nonnil p).
Qed.
#[export] Instance decimalText_spec : S256TextSpec.
Proof.
  split; [|reflexivity]. intros z _. unfold s256_read, s256_str, decimalText, decimal_read. rewrite text_of_to_string.
  destruct (to_int_nonnil z). rewrite DecimalString.NilZero.isi by done. apply DecimalZ.of_to.
Qed.

Definition ledger : gmap Slice Slice := {[ accountKey 5 := [1; 2]; accountKey 6 := [3]; getStorageKey 5 1 := toBigEndian 32 9 ]}.
Definition db0 : batched_db (gmap Slice Slice) := mkBatched ledger None.
(** One account changed, a storage word cleared and a code added. *)
Definition o0 : OverlayDB (batched_db (gmap Slice Slice)) :=
  updateStorageUsage 64 (insertAuxiliary (insertWord (insert (OverlayDB_new (Some db0)) 5 [7; 7]) 5 1 0) 5 [96] 1).

Lemma o0_ok : overlay_ok o0.
Proof.
  split; unfold auxCached, wordCached; simpl.
  - intros a v [[<- _]|[_ []%lookup_empty_Some]]%lookup_insert_Some. unfold is_address. lia.
  - intros a s v (m & [[<- _]|[_ []%lookup_empty_Some]]%lookup_insert_Some & _)%bind_Some. unfold is_address. lia.
  - intros a k v (m & [[<- <-]|[_ []%lookup_empty_Some]]%lookup_insert_Some & [[<- <-]|[_ Hn]]%lookup_insert_Some)%bind_Some;
      [unfold is_address, is_hash; lia|]. rewrite lookup_empty in Hn. simpl in Hn. by rewrite lookup_empty in Hn.
Qed.
Lemma o0_settled : settled o0 db0.
Proof.
  split_and!; [done|done| |]; unfold auxCached; simpl.
  - intros a [[_ [=]]|[_ []%lookup_empty_Some]]%lookup_insert_Some.
  - intros a s (m & [[<- <-]|[_ []%lookup_empty_Some]]%lookup_insert_Some & [[_ [=]]|[_ Hn]]%lookup_insert_Some)%bind_Some.
    rewrite lookup_empty in Hn. simpl in Hn. by rewrite lookup_empty in Hn.
Qed.
Lemma ledger_bytes k v : face_shows db0 k = Some v -> bytes_ok k.
Proof.
  cbn. unfold ledger. intros Hk. repeat (apply lookup_insert_Some in Hk as [[<- _]|[_ Hk]]); [apply accountKey_ok..|].
  apply lookup_singleton_Some in Hk as [<- _]. rewrite storageKey_app. apply Forall_app. split; [apply accountKey_ok|apply toBigEndian_ok].
Qed.
(** The first try fails, the second is accepted. *)
Definition second (i : nat) : bool := (i =? 1)%nat.
End OverlayExample.
Import MapLevelDB OverlayExample.

Lemma overlay_commit_keeps_witness : exists o' db', let o := OverlayExample.o0 in
  commit true OverlayExample.second o = Some o' /\ ov_db o' = Some db' /\
  lookup o' 5 = [7; 7] /\ lookup o' 6 = [3] /\ lookupWord o' 5 1 = 0 /\ storageUsed o' = 64.
Proof.
  destruct (overlay_commit_keeps true OverlayExample.second OverlayExample.o0 OverlayExample.db0
    OverlayExample.o0_ok OverlayExample.o0_settled) as (o' & db' & H1 & H2 & _ & H3 & _ & H4 & _ & H5 & _).
  - exists 1%nat. split; [lia|done].
  - cbn. lia.
  - vm_compute. done.
  - exists o', db'. split_and!; [done|done|rewrite H3|rewrite H3|rewrite H4|rewrite H5]; try (by vm_compute); vm_compute; split; done.
Defined.

Lemma retried_commit_loses_deletions_witness : exists o',
  commit true OverlayExample.second (kill OverlayExample.o0 6) = Some o' /\ lookup o' 6 = [3].
Proof.
  destruct (retried_commit_loses_deletions true OverlayExample.second OverlayExample.o0 OverlayExample.db0 6
    OverlayExample.o0_ok OverlayExample.o0_settled) as (o' & H1 & H2); [vm_compute; split; done|by vm_compute|by vm_compute|
    exists 1%nat; split; [lia|done]|].
  exists o'. split; [exact H1|]. rewrite H2. by vm_compute.
Defined.

Lemma overlay_rollback_keeps_deletions_witness :
  lookup (rollback (kill OverlayExample.o0 6)) 6 = [3] /\
  exists o', commit true (fun _ => true) (rollback (kill OverlayExample.o0 6)) = Some o' /\ lookup o' 6 = [].
Proof.
  apply (overlay_rollback_keeps_deletions true (fun _ => true) OverlayExample.o0 OverlayExample.db0 6
    OverlayExample.o0_ok OverlayExample.o0_settled); [vm_compute; split; done|by vm_compute..].
Defined.

Lemma commit_returns_only_when_stored_witness :
  commit true (fun _ => false) OverlayExample.o0 = None.
Proof. apply (commit_returns_only_when_stored true (fun _ => false) OverlayExample.o0 OverlayExample.db0 eq_refl). done. Defined.

(** The word that waits in the overlay is not seen. *)
Lemma overlay_iteration_exact_witness : storage OverlayExample.o0 5 !! 1 = Some 9 /\ accounts OverlayExample.o0 !! 5 = Some [1; 2].
Proof.
  destruct (overlay_iteration_exact OverlayExample.o0 OverlayExample.db0 5 eq_refl OverlayExample.ledger_bytes) as [H1 H2];
    [unfold is_address; lia|].
  split; [|rewrite H2; by vm_compute]. apply H1. split; [unfold is_hash; lia|]. exists (toBigEndian 32 9).
  split; vm_compute; reflexivity.
Defined.
