(* ===== verification/StateDb.v ===== *)
(** * StateDb: the state's commit on the database stack

    State.v keeps the logical content of the database.  Here State::commit is followed down to
    LevelDB: the calls that its loop makes on the overlay (libskale/State.cpp), what they do to
    the overlay and its batch, and the database that the overlay's commit leaves. *)

From Stdlib Require Import ZArith Lia Bool.
From stdpp Require Import base list gmap sorting.
From S2P Require Import Prelude CommonData Rlp State StateInv StateCommit LevelDb BatchedDb OverlayDb OverlayDbInv OverlayDbClaims.
Open Scope Z_scope.

#[local] Opaque accountKey getAuxiliaryKey getStorageKey toBigEndian storageUsed_key lastHash_key lastReceipts_key.

(** [Auxiliary::CODE]. *)
Definition CODE : Z := 1.

(** The calls of State::commit on [m_db_ptr]. *)
Inductive DbCall :=
| CKill (a : Z)                    (** [kill(a)] and [killAuxiliary(a, CODE)] *)
| CInsert (a : Z) (raw : list Z)
| CWord (a k v : Z)
| CCode (a : Z) (code : list Z).
Definition call_address (c : DbCall) : Z := match c with CKill a | CInsert a _ | CWord a _ _ | CCode a _ => a end.

Section StateDb.
Context {SP : StateParams} {B : Type} `{db_face_laws B} `{S256Text} `{!S256TextSpec}.
Implicit Types (o : OverlayDB B) (db : B) (d : DB).

(** On the logical content, and on the overlay. *)
Definition call_effect (d : DB) (c : DbCall) : DB :=
  match c with
  | CKill a => d <| db_accounts := delete a (db_accounts d) |> <| db_code := delete a (db_code d) |>
  | CInsert a raw => d <| db_accounts := <[a := raw]> (db_accounts d) |>
  | CWord a k v => insertStorage a k v d
  | CCode a code => d <| db_code := <[a := code]> (db_code d) |>
  end.
Definition call_overlay (o : OverlayDB B) (c : DbCall) : OverlayDB B :=
  match c with
  | CKill a => killAuxiliary (OverlayDb.kill o a) a CODE
  | CInsert a raw => OverlayDb.insert o a raw
  | CWord a k v => insertWord o a k v
  | CCode a code => insertAuxiliary o a code CODE
  end.

(** The calls in the turn of one account, in the state at that turn. *)
Definition accountCalls (s : State) (p : Z * Account) : list DbCall :=
  let a := fst p in
  let acc := snd p in
  if isDirty acc then
    if negb (m_isAlive acc) then
      CKill a ::
      (if storageDestructionPatch && negb ((m_storageUsed acc =? 0) && (default 0 (storageUsage s !! a) =? 0))
       then map (fun q => CWord a (fst (snd q)) 0) (merge_sort inHashOrder (map_to_list (clearKeys s a acc))) else [])
    else match encodeAccount acc with
         | Err _ => []
         | Ok raw => CInsert a raw :: map (fun kv => CWord a (fst kv) (snd kv)) (map_to_list (m_storageOverlay acc)) ++
                     (if m_hasNewCode acc then [CCode a (m_codeCache acc)] else [])
         end
  else [].
Fixpoint loopCalls (l : list (Z * Account)) (s : State) : list DbCall :=
  match l with
  | [] => []
  | p :: l' => accountCalls s p ++ loopCalls l' (snd (commitAccount p s))
  end.
Definition commitCalls (behaviour : CommitBehaviour) (s : State) : list DbCall :=
  let s := prepared behaviour s in loopCalls (map_to_list (m_cache s)) s.

(** The whole of State::commit on the overlay. *)
Definition commitOnOverlay (accepted : nat -> bool) (behaviour : CommitBehaviour) (s s' : State) (o : OverlayDB B)
    : option (OverlayDB B) :=
  OverlayDb.commit contractStorageZeroValuePatch accepted
    (updateStorageUsage (db_storageUsed (m_db s')) (foldl call_overlay o (commitCalls behaviour s))).

(** ** The calls do on the logical content what the loop does *)

Lemma clearTurns_calls a l s : m_db (snd (forEach (clearTurn a) l s)) =
  foldl call_effect (m_db s) (map (fun q => CWord a (fst (snd q)) 0) l).
Proof.
  revert s. induction l as [|q l IH]; intros s; [done|]. cbn [forEach map foldl]. unfold sbind.
  destruct (clearTurn_spec a q s) as (s1 & E & _). rewrite E, IH. f_equal.
  revert E. unfold clearTurn, clearStorageValue, sbind, logChange, onCached, addUsage, onDb, smodify. by intros [= <-].
Qed.
Lemma insertAll_calls a l d : insertAll a l d = foldl call_effect d (map (fun kv => CWord a (fst kv) (snd kv)) l).
Proof. revert d. induction l as [|kv l IH]; intros d; [done|]. apply IH. Qed.

Lemma commitAccount_calls s a x : m_cache s !! a = Some x -> checkVersion s = true ->
  (isDirty x = true -> m_isAlive x = true -> fields_ok x) ->
  m_db (snd (commitAccount (a, x) s)) = foldl call_effect (m_db s) (accountCalls s (a, x)).
Proof.
  intros Hx Hv Hf. unfold commitAccount, accountCalls. cbn [fst snd]. destruct (isDirty x) eqn:Hd; [|done].
  destruct (m_isAlive x) eqn:Hl; cbn [negb].
  - rewrite (encodeAccount_spec x (Hf eq_refl eq_refl)). unfold sbind, onDb at 1, smodify at 1.
    rewrite forEach_insert. cbn [foldl]. rewrite foldl_app, <- insertAll_calls. by destruct (m_hasNewCode x).
  - unfold sbind at 1, onDb at 1, smodify at 1. set (s0 := s <| m_db := _ |>). cbn [foldl].
    change (call_effect (m_db s) (CKill a)) with (m_db s0). destruct storageDestructionPatch; [|done]. cbn [andb].
    unfold clearStorage, account, sbind at 1, sgets. change (m_cache s0 !! a) with (m_cache s !! a). rewrite Hx. unfold sbind at 1.
    change (storageUsage s0) with (storageUsage s). destruct ((m_storageUsed x =? 0) && _); [done|]. cbn [negb].
    unfold storage_WITHOUT_LOCK, sbind at 1 2, sgets. cbn [id].
    change (checkVersion s0) with (checkVersion s). rewrite Hv. cbn [negb]. change (m_cache s0 !! a) with (m_cache s !! a).
    rewrite Hx. fold (clearKeys s0 a x).
    change (sret (if isDirty x then _ else _) s0) with (Ok (E := StateError) (clearKeys s0 a x), s0). cbn beta iota.
    fold (clearTurn a). change (clearKeys s a x) with (clearKeys s0 a x). rewrite <- clearTurns_calls. set (l := merge_sort _ _).
    unfold sbind, sret. cbn beta iota. fold l. by destruct (forEach (clearTurn a) l s0) as [[[]|e] s1].
Qed.

Lemma loop_calls l s : NoDup l.*1 -> checkVersion s = true ->
  (forall a x, (a, x) ∈ l -> m_cache s !! a = Some x /\ (isDirty x = true -> m_isAlive x = true -> fields_ok x)) ->
  m_db (snd (forEach commitAccount l s)) = foldl call_effect (m_db s) (loopCalls l s).
Proof.
  revert s. induction l as [|[a x] l IH]; intros s Hnd Hv Hl; [done|]. inversion Hnd as [|? ? Hna Hnd']; subst. simpl in Hna.
  destruct (Hl a x) as [Hx Hf]; [by left|]. destruct (commitAccount_spec s a x Hx Hv Hf) as (s1 & H1' & [Hk1 Ho1] & _).
  pose proof (commitAccount_calls s a x Hx Hv Hf) as Hc. cbn [forEach loopCalls]. unfold sbind.
  rewrite foldl_app, <- Hc, H1'. cbn [snd]. apply IH; [done|by rewrite (checkVersion_kept _ _ Hk1)|].
  intros b y Hb. assert (a <> b). { intros ->. apply Hna. apply list_elem_of_fmap. by exists (b, y). }
  destruct (Ho1 b) as [_ ->]; [done|]. apply Hl. by right.
Qed.

(** ** The overlay follows the logical content *)

(** Addresses, keys and words of a logical content are in range. *)
Record db_ranges d : Prop := {
  rg_storage a k v : db_storage d !! (a, k) = Some v -> is_address a /\ is_hash k /\ is_hash v }.
Definition call_ok (c : DbCall) : Prop :=
  is_address (call_address c) /\ match c with CWord _ k v => is_hash k /\ is_hash v | _ => True end.

(** [o] on [db] stands for [d]: what its next commit would leave is [d]. *)
Record follows o db d : Prop := {
  fo_db : ov_db o = Some db;
  fo_ok : overlay_ok o;
  fo_account a : is_address a ->
    db_accounts d !! a = match ov_cache o !! a with Some v => Some v | None => face_pending db (accountKey a) end;
  fo_code a : is_address a ->
    db_code d !! a = match auxCached o a CODE with Some v => Some v | None => face_pending db (getAuxiliaryKey a CODE) end;
  fo_word a k : is_address a -> is_hash k ->
    toBigEndian 32 <$> db_storage d !! (a, k) =
    match wordCached o a k with
    | Some v => if contractStorageZeroValuePatch && (v =? 0) then None else Some (toBigEndian 32 v)
    | None => face_pending db (getStorageKey a k)
    end;
  fo_deletions k : face_pending db k = face_shows db k \/ face_pending db k = None;
  fo_ranges : db_ranges d }.

Lemma wordCached_insert o a k v b j : wordCached (insertWord o a k v) b j =
  if decide (a = b /\ k = j) then Some v else wordCached o b j.
Proof.
  unfold wordCached, insertWord. cbn. destruct (decide (a = b)) as [->|].
  - rewrite lookup_insert_eq. cbn. destruct (decide (k = j)) as [->|].
    + by rewrite lookup_insert_eq, decide_True.
    + rewrite lookup_insert_ne, decide_False by naive_solver. by destruct (ov_storageCache o !! b).
  - rewrite lookup_insert_ne, decide_False by naive_solver. done.
Qed.
Lemma auxCached_insert o a v s b t : auxCached (insertAuxiliary o a v s) b t =
  if decide (a = b /\ s = t) then Some v else auxCached o b t.
Proof.
  unfold auxCached, insertAuxiliary. cbn. destruct (decide (a = b)) as [->|].
  - rewrite lookup_insert_eq. cbn. destruct (decide (s = t)) as [->|].
    + by rewrite lookup_insert_eq, decide_True.
    + rewrite lookup_insert_ne, decide_False by naive_solver. by destruct (ov_auxiliaryCache o !! b).
  - rewrite lookup_insert_ne, decide_False by naive_solver. done.
Qed.

Lemma follows_insert o db d a raw : follows o db d -> is_address a ->
  follows (call_overlay o (CInsert a raw)) db (call_effect d (CInsert a raw)).
Proof.
  intros [F1 [O1 O2 O3] F3 F4 F5 F6 [F7]] Ha. split; [done| |..|done|by split]; try done.
  - split; [|done..]. intros b v. cbn. intros [[<- _]|[_ ?]]%lookup_insert_Some; [done|by eapply O1].
  - intros b Hb. cbn. destruct (decide (a = b)) as [->|]; [by rewrite !lookup_insert_eq|].
    rewrite !lookup_insert_ne by done. by apply F3.
Qed.
Lemma follows_code o db d a c : follows o db d -> is_address a ->
  follows (call_overlay o (CCode a c)) db (call_effect d (CCode a c)).
Proof.
  intros [F1 [O1 O2 O3] F3 F4 F5 F6 [F7]] Ha. split; [done| |..|done|by split]; try done.
  - split; [done| |done]. intros b s v. unfold call_overlay. rewrite auxCached_insert.
    case_decide as Hd; [destruct Hd as [<- _]; done|apply O2].
  - intros b Hb. unfold call_overlay. rewrite auxCached_insert. cbn. destruct (decide (a = b)) as [->|].
    + by rewrite lookup_insert_eq, decide_True.
    + rewrite lookup_insert_ne, decide_False by naive_solver. by apply F4.
Qed.
Lemma follows_word o db d a k v : follows o db d -> is_address a -> is_hash k -> is_hash v ->
  follows (call_overlay o (CWord a k v)) db (call_effect d (CWord a k v)).
Proof.
  intros [F1 [O1 O2 O3] F3 F4 F5 F6 [F7]] Ha Hk Hv. split; [done| |done|done| |done|].
  - split; [done|done|]. intros b j w. unfold call_overlay. rewrite wordCached_insert.
    case_decide as Hd; [destruct Hd as [<- <-]; by intros [= <-]|apply O3].
  - intros b j Hb Hj. unfold call_overlay. rewrite wordCached_insert. unfold call_effect, insertStorage. cbn.
    destruct (decide (a = b /\ k = j)) as [[-> ->]|Hne].
    + destruct (_ && _); [by rewrite lookup_delete_eq|by rewrite lookup_insert_eq].
    + assert ((a, k) <> (b, j)) by naive_solver. rewrite <- F5 by done. f_equal.
      destruct (_ && _); [by rewrite lookup_delete_ne|by rewrite lookup_insert_ne].
  - split. intros b j w. unfold call_effect, insertStorage. cbn.
    destruct (_ && _); [intros [_ ?]%lookup_delete_Some; by apply F7|].
    intros [[[= <- <-] <-]|[_ ?]]%lookup_insert_Some; [done|by apply F7].
Qed.

(** Deleting a key that the caches do not hold takes it out of what a commit would leave. *)
Lemma killKey_follows o db key : ov_db o = Some db -> (forall k, face_pending db k = face_shows db k \/ face_pending db k = None) ->
  exists db', killKey o key = o <| ov_db := Some db' |> /\
    (forall k, face_pending db' k = if decide (key = k) then None else face_pending db k) /\
    (forall k, face_shows db' k = face_shows db k).
Proof.
  intros Hdb Hdel. unfold killKey. rewrite Hdb, face_law_exists. case_bool_decide as Hs.
  - exists (face_kill db key). destruct (face_law_kill db key) as [E1 E2]. done.
  - exists db. split; [by destruct o; cbn in *; subst|]. split; [|done]. intros k. case_decide as Hk; [|done].
    subst key. destruct (Hdel k) as [E|]; [|done]. rewrite E. by apply eq_None_not_Some.
Qed.
Lemma follows_kill o db d a : follows o db d -> is_address a -> ov_cache o !! a = None -> auxCached o a CODE = None ->
  exists db', follows (call_overlay o (CKill a)) db' (call_effect d (CKill a)) /\
    ov_cache (call_overlay o (CKill a)) = ov_cache o /\ ov_auxiliaryCache (call_overlay o (CKill a)) = ov_auxiliaryCache o.
Proof.
  intros [F1 [O1 O2 O3] F3 F4 F5 F6 [F7]] Ha Hc Hx.
  destruct (killKey_follows o db (accountKey a) F1 F6) as (db1 & E1 & P1 & S1).
  assert (Hdel1 : forall k, face_pending db1 k = face_shows db1 k \/ face_pending db1 k = None)
    by (intros k; rewrite P1, S1; case_decide; auto).
  set (o1 := o <| ov_db := Some db1 |>) in *.
  destruct (killKey_follows o1 db1 (getAuxiliaryKey a CODE) eq_refl Hdel1) as (db2 & E2 & P2 & S2).
  assert (Hr : call_overlay o (CKill a) = o1 <| ov_db := Some db2 |>).
  { unfold call_overlay, OverlayDb.kill. rewrite Hc, E1. unfold killAuxiliary. change (ov_auxiliaryCache o1) with (ov_auxiliaryCache o).
    unfold auxCached in Hx. destruct (ov_auxiliaryCache o !! a) as [m|]; [|exact E2]. cbn in Hx. by rewrite Hx. }
  exists db2. rewrite Hr. split; [|done].
  assert (Hp : forall k, face_pending db2 k =
    if decide (accountKey a = k \/ getAuxiliaryKey a CODE = k) then None else face_pending db k).
  { intros k. rewrite P2, P1. repeat case_decide; naive_solver. }
  assert (Hlen := key_lengths).
  assert (Hother : forall k : Slice, length k = 52%nat -> face_pending db2 k = face_pending db k).
  { intros k Hk. rewrite Hp, decide_False; [done|]. destruct (Hlen a CODE 0) as (L1 & L2 & _).
    intros [E|E]; rewrite <- E in Hk; congruence. }
  split; [done|by split| | | | |by split].
  - intros b Hb. cbn. destruct (decide (a = b)) as [->|].
    + rewrite lookup_delete_eq, Hc, Hp, decide_True by auto. done.
    + rewrite lookup_delete_ne, F3 by done. destruct (ov_cache o !! b); [done|]. rewrite Hp, decide_False; [done|].
      intros [E|E]; [by apply accountKey_inj in E|]. apply (f_equal length) in E.
      destruct (Hlen b CODE 0) as (L1 & _), (Hlen a CODE 0) as (_ & L2 & _). congruence.
  - intros b Hb. cbn. change (auxCached (o1 <| ov_db := Some db2 |>) b CODE) with (auxCached o b CODE).
    destruct (decide (a = b)) as [->|].
    + rewrite lookup_delete_eq, Hx, Hp, decide_True by auto. done.
    + rewrite lookup_delete_ne, F4 by done. destruct (auxCached o b CODE); [done|]. rewrite Hp, decide_False; [done|].
      intros [E|E]; [|by apply auxiliaryKey_inj in E as [-> _]]. apply (f_equal length) in E.
      destruct (Hlen a CODE 0) as (L1 & _), (Hlen b CODE 0) as (_ & L2 & _). congruence.
  - intros b j Hb Hj. cbn. rewrite Hother by apply (Hlen b 0 j). by apply F5.
  - intros k. rewrite P2, S2, S1, P1. repeat case_decide; auto.
Qed.

(** ** The calls of a commit *)

(** What is cached for other addresses stays. *)
Definition elsewhere (a : Z) o o' : Prop := forall b, a <> b ->
  ov_cache o' !! b = ov_cache o !! b /\ auxCached o' b CODE = auxCached o b CODE.

Lemma calls_follow a calls : forall o db d, follows o db d ->
  (forall c, c ∈ calls -> call_ok c /\ call_address c = a /\ c <> CKill a) ->
  follows (foldl call_overlay o calls) db (foldl call_effect d calls) /\ elsewhere a o (foldl call_overlay o calls).
Proof.
  induction calls as [|c calls IH]; intros o db d Hf Hc; [split; [done|by intros b]|]. cbn [foldl].
  destruct (Hc c) as ([Ha Hr] & Hca & Hnk); [by left|]. rewrite Hca in Ha.
  assert (follows (call_overlay o c) db (call_effect d c) /\ elsewhere a o (call_overlay o c)) as [Hf1 He1].
  { destruct c as [a'|a' raw|a' k v|a' code]; cbn in Hca; subst a'; [done|split..].
    - by apply follows_insert.
    - intros b Hb. cbn. by rewrite lookup_insert_ne.
    - destruct Hr. by apply follows_word.
    - intros b Hb. done.
    - by apply follows_code.
    - intros b Hb. split; [done|]. unfold call_overlay. rewrite auxCached_insert, decide_False; naive_solver. }
  destruct (IH _ db _ Hf1) as [Hf2 He2]; [intros c' Hc'; apply Hc; by right|]. split; [done|].
  intros b Hb. destruct (He1 b Hb) as [<- <-]. by apply He2.
Qed.

Lemma byHash_elem l m h kv : byHash l m !! h = Some kv -> kv ∈ l \/ m !! h = Some kv.
Proof.
  unfold byHash. induction l as [|p l IH] using rev_ind; [by right|]. rewrite foldl_snoc.
  intros [[_ <-]|[_ Hm]]%lookup_insert_Some; [set_solver|]. destruct (IH Hm); [set_solver|by right].
Qed.

(** The keys and words that the turn of [x] at [a] writes are in range. *)
Definition turn_ok (s : State) (a : Z) (x : Account) : Prop :=
  is_address a /\ (forall k v, m_storageOverlay x !! k = Some v -> is_hash k /\ is_hash v) /\
  (forall k, is_Some (db_storage (m_db s) !! (a, k)) -> is_hash k).

Lemma clearKeys_range s a x h k v : turn_ok s a x -> clearKeys s a x !! h = Some (k, v) -> is_hash k.
Proof.
  intros (_ & Hov & Hdb) Hk. unfold clearKeys in Hk.
  assert (Hd : forall h kv, byHash (dbStorage (m_db s) a) ∅ !! h = Some kv -> is_hash (fst kv)).
  { intros h' [k' v'] [Hin%dbStorage_In|Hin]%byHash_elem; [by apply Hdb|by rewrite lookup_empty in Hin]. }
  destruct (isDirty x); [|by apply (Hd h (k, v))].
  apply byHash_elem in Hk as [Hin%elem_of_map_to_list|Hin]; [by apply (Hov k v)|by apply (Hd h (k, v))].
Qed.

Lemma accountCalls_follow s a x o db d : turn_ok s a x -> follows o db d ->
  ov_cache o !! a = None -> auxCached o a CODE = None ->
  exists db', follows (foldl call_overlay o (accountCalls s (a, x))) db' (foldl call_effect d (accountCalls s (a, x))) /\
    elsewhere a o (foldl call_overlay o (accountCalls s (a, x))).
Proof.
  intros Ht Hf Hc Hx. pose proof Ht as (Ha & Hov & _). unfold accountCalls. cbn [fst snd].
  destruct (isDirty x); [|by exists db]. destruct (m_isAlive x); cbn [negb].
  - destruct (encodeAccount x) as [raw|e]; [|by exists db]. exists db. apply calls_follow; [done|].
    intros c. rewrite elem_of_cons, elem_of_app, list_elem_of_fmap.
    intros [-> |[([k v] & -> & Hin%elem_of_map_to_list)|Hin]]; [done|split_and!; try done; split; [done|by apply (Hov k v)]|].
    destruct (m_hasNewCode x); [apply list_elem_of_singleton in Hin as ->; done|by apply not_elem_of_nil in Hin].
  - destruct (follows_kill o db d a Hf Ha Hc Hx) as (db' & Hf' & E1 & E2). exists db'. cbn [foldl].
    set (o1 := call_overlay o (CKill a)) in *.
    assert (He : elsewhere a o o1) by (intros b _; unfold auxCached; by rewrite E1, E2).
    destruct (calls_follow a (if storageDestructionPatch && negb ((m_storageUsed x =? 0) && (default 0 (storageUsage s !! a) =? 0))
      then map (fun q => CWord a (fst (snd q)) 0) (merge_sort inHashOrder (map_to_list (clearKeys s a x))) else [])
      o1 db' (call_effect d (CKill a)) Hf') as [Hf2 He2].
    + intros c Hin. destruct (_ && _); [|by apply not_elem_of_nil in Hin].
      apply list_elem_of_fmap in Hin as ([h [k v]] & -> & Hin). rewrite merge_sort_Permutation in Hin.
      apply elem_of_map_to_list in Hin. split_and!; try done. split; [done|]. split; [by eapply clearKeys_range|done].
    + split; [exact Hf2|]. intros b Hb. destruct (He b Hb) as [<- <-]. by apply He2.
Qed.

Lemma loopCalls_follow l : forall s o db d, NoDup l.*1 -> checkVersion s = true -> follows o db d ->
  (forall a x, (a, x) ∈ l -> m_cache s !! a = Some x /\ (isDirty x = true -> m_isAlive x = true -> fields_ok x)) ->
  (forall a x, (a, x) ∈ l -> turn_ok s a x /\ ov_cache o !! a = None /\ auxCached o a CODE = None) ->
  exists db', follows (foldl call_overlay o (loopCalls l s)) db' (foldl call_effect d (loopCalls l s)).
Proof.
  induction l as [|[a x] l IH]; intros s o db d Hnd Hv Hf Hl Ht; [by exists db|]. inversion Hnd as [|? ? Hna Hnd']; subst.
  destruct (Hl a x) as [Hx Hfo]; [by left|]. destruct (commitAccount_spec s a x Hx Hv Hfo) as (s1 & H1' & [Hk1 Ho1] & _).
  destruct (Ht a x) as (Hta & Hc & Hxc); [by left|].
  destruct (accountCalls_follow s a x o db d Hta Hf Hc Hxc) as (db1 & Hf1 & He).
  cbn [loopCalls]. rewrite !foldl_app, H1'. cbn [snd].
  assert (Hne : forall b y, (b, y) ∈ l -> a <> b).
  { intros b y Hb ->. apply Hna. cbn. apply list_elem_of_fmap. by exists (b, y). }
  apply (IH s1 _ db1); [done|by rewrite (checkVersion_kept _ _ Hk1)|done| |].
  - intros b y Hb. destruct (Ho1 b) as [_ ->]; [by eapply Hne|]. apply Hl. by right.
  - intros b y Hb. destruct (Ho1 b) as [(_ & _ & Hst) _]; [by eapply Hne|]. destruct (He b) as [-> ->]; [by eapply Hne|].
    destruct (Ht b y) as ((T1 & T2 & T3) & T4); [by right|]. split; [|done]. split_and!; [done..|].
    intros k. rewrite Hst. apply T3.
Qed.

(** ** The commit *)

(** Nothing waits in the overlay or in the batch of its database. *)
Definition idle o db : Prop :=
  ov_db o = Some db /\ ov_cache o = ∅ /\ ov_auxiliaryCache o = ∅ /\ ov_storageCache o = ∅ /\
  forall k, face_pending db k = face_shows db k.
(** The database stores the logical content. *)
Record stores db d : Prop := {
  st_account a : is_address a -> face_shows db (accountKey a) = db_accounts d !! a;
  st_code a : is_address a -> face_shows db (getAuxiliaryKey a CODE) = db_code d !! a;
  st_word a k : is_address a -> is_hash k -> face_shows db (getStorageKey a k) = toBigEndian 32 <$> db_storage d !! (a, k) }.

Lemma stores_follows o db d : idle o db -> stores db d -> db_ranges d -> follows o db d.
Proof.
  intros (Hdb & E1 & E2 & E3 & Hp) [S1 S2 S3] Hr. assert (He := fun a s k => cached_empty o a s k E1 E2 E3). split; try done.
  - split; intros *; [rewrite (proj1 (He _ 0 0))|rewrite (proj1 (proj2 (He _ _ 0)))|rewrite (proj2 (proj2 (He _ 0 _)))]; done.
  - intros a Ha. by rewrite (proj1 (He a 0 0)), Hp, S1.
  - intros a Ha. by rewrite (proj1 (proj2 (He a CODE 0))), Hp, S2.
  - intros a k Ha Hk. by rewrite (proj2 (proj2 (He a 0 k))), Hp, S3.
  - intros k. by left.
Qed.
Lemma stores_reads o db d a k : idle o db -> stores db d -> db_ranges d -> is_address a -> is_hash k ->
  OverlayDb.lookup o a = lookupAccount d a /\ lookupAuxiliary o a CODE = lookupCode d a /\ lookupWord o a k = lookupStorage d a k.
Proof.
  intros (Hdb & E1 & E2 & E3 & Hp) [S1 S2 S3] [Hr] Ha Hk. destruct (cached_empty o a CODE k E1 E2 E3) as (C1 & C2 & C3).
  rewrite (lookup_db o db a Hdb), (lookupAuxiliary_db o db a CODE Hdb), (lookupWord_db o db a k Hdb), C1, C2, C3, S1, S2, S3 by done.
  split_and!; [done..|]. unfold lookupStorage. destruct (db_storage d !! (a, k)) as [v|] eqn:Ev; [|done].
  cbn. apply h256_ofBinary_word. by eapply Hr.
Qed.

(** The cached accounts are at addresses and their changed storage is made of words. *)
Definition cache_ranges (s : State) : Prop := forall a x, m_cache s !! a = Some x ->
  is_address a /\ forall k v, m_storageOverlay x !! k = Some v -> is_hash k /\ is_hash v.
Lemma prepared_ranges bh s : cache_ranges s -> cache_ranges (prepared bh s).
Proof.
  intros Hr a x. destruct bh; [apply Hr|]. simpl. rewrite lookup_fmap. specialize (Hr a).
  destruct (m_cache s !! a) as [y|]; [|done]. simpl. destruct (Hr y eq_refl) as [Ha Hk].
  destruct (isDirty y && State.isEmpty y); intros [= <-]; [|done]. split; [done|]. intros k v. simpl. by rewrite lookup_empty.
Qed.

(** C11: State::commit on the real stack, when the database accepts the batch at the first try.  On an overlay with nothing waiting, whose database stores the logical content
    of the state, and for a state locked for writing whose accounts and storage keys are in their ranges, the calls that State::commit makes, followed by the commit of the
    overlay, leave a database that stores the logical content after the commit; every account, code and storage word then reads through the overlay as the logical content
    has it.  (When the first try is refused, deletions are lost: [retried_commit_loses_deletions].) *)
Theorem state_commit_reaches_database accepted bh s o db : wf s -> m_writeLocked s = true -> committable s ->
  cache_ranges s -> db_ranges (m_db s) -> idle o db -> stores db (m_db s) -> accepted 0%nat = true ->
  exists s' o' db', State.commit bh s = (Ok tt, s') /\ commitOnOverlay accepted bh s s' o = Some o' /\
    idle o' db' /\ stores db' (m_db s') /\
    forall a k, is_address a -> is_hash k ->
      OverlayDb.lookup o' a = lookupAccount (m_db s') a /\ lookupAuxiliary o' a CODE = lookupCode (m_db s') a /\
      lookupWord o' a k = lookupStorage (m_db s') a k.
Proof.
  intros Hw Hl Hcm Hcr Hdr Hid Hst Hacc. destruct (commit_run bh s Hw Hl Hcm) as (s1 & Hrun & Hk & _ & _ & Hcommit).
  destruct (prepared_kept bh s) as [Hpk Hpd]. set (s0 := prepared bh s) in *.
  assert (Hv : checkVersion s0 = true) by (rewrite (checkVersion_kept _ _ Hpk); apply Hw).
  assert (Hl0 : forall a x, (a, x) ∈ map_to_list (m_cache s0) ->
    m_cache s0 !! a = Some x /\ (isDirty x = true -> m_isAlive x = true -> fields_ok x)).
  { intros a x Hx%elem_of_map_to_list. split; [done|]. intros Hd Ha.
    destruct (prepared_cache bh s a x Hx) as [Hr|Hx']; [unfold removed in Hr; by rewrite Hd, Ha in Hr|].
    apply (Hcm a x Hx' Hd Ha). }
  pose proof (loop_calls (map_to_list (m_cache s0)) s0 (NoDup_fst_map_to_list _) Hv Hl0) as Hdb1.
  rewrite Hrun in Hdb1. cbn [snd] in Hdb1. rewrite Hpd in Hdb1.
  pose proof Hid as (_ & E1 & E2 & E3 & _).
  destruct (loopCalls_follow (map_to_list (m_cache s0)) s0 o db (m_db s) (NoDup_fst_map_to_list _) Hv
    (stores_follows o db _ Hid Hst Hdr) Hl0) as (db1 & Hf).
  { intros a x Hx%elem_of_map_to_list. destruct (prepared_ranges bh s Hcr a x Hx) as [Ha Hov].
    destruct (cached_empty o a CODE 0 E1 E2 E3) as (C1 & C2 & _). split; [|done]. split_and!; [done..|].
    intros k [v Hs]. rewrite Hpd in Hs. by apply (rg_storage _ Hdr a k v Hs). }
  rewrite <- Hdb1 in Hf. destruct Hf as [F1 F2 F3 F4 F5 F6 F7].
  set (u := totalStorageUsed_ s1) in *. set (o1 := foldl call_overlay o (loopCalls (map_to_list (m_cache s0)) s0)) in *.
  destruct (commit_committed contractStorageZeroValuePatch accepted (updateStorageUsage u o1) db1) as
    (o' & db' & Hc & Hdb' & G1 & G2 & G3 & _ & _ & Hco).
  { destruct F2. by split. }
  { done. }
  { exists 0%nat. split; [lia|done]. }
  rewrite Hacc in Hco. destruct Hco as [K1 K2 K3 _ _ _ K7].
  assert (Hid' : idle o' db') by (split_and!; done).
  set (s' := s1 <| m_db := _ |> <| m_storedVersion := _ |> <| m_currentVersion := _ |> <| m_changeLog := _ |>
                <| m_cache := _ |> <| m_unchangedCacheEntries := _ |>) in Hcommit.
  assert (Hst' : stores db' (m_db s')).
  { split; intros; [rewrite K1 by done; symmetry; by apply F3|rewrite K2 by done; symmetry; by apply F4|
      rewrite K3 by done; symmetry; by apply F5]. }
  exists s', o', db'. split; [done|]. split; [exact Hc|]. split; [done|]. split; [done|].
  intros a k Ha Hk'. apply (stores_reads o' db'); try done. destruct F7. by split.
Qed.
End StateDb.

(** ** Witness: an account with storage is destroyed *)

Module StateDbExample.
Import MapLevelDB OverlayExample CommitExample.
Definition disk : gmap Slice Slice := <[accountKey 5 := raw]> {[ getStorageKey 5 1 := toBigEndian 32 11 ]}.
Definition db0 : batched_db (gmap Slice Slice) := mkBatched disk None.
Definition o0 : OverlayDB (batched_db (gmap Slice Slice)) := OverlayDB_new (Some db0).

Lemma five_address : is_address 5.
Proof. unfold is_address. lia. Qed.
Lemma one_hash : is_hash 1.
Proof. unfold is_hash. lia. Qed.
Lemma disk_stores : stores db0 (m_db killed).
Proof.
  pose proof five_address as H5. pose proof one_hash as H1. assert (Hlen := key_lengths). split; cbn; unfold disk.
  - intros a Ha. destruct (decide (5 = a)) as [<-|Hne]; [by rewrite lookup_insert_eq, lookup_singleton_eq|].
    rewrite lookup_insert_ne by (intros E; by apply accountKey_inj in E). rewrite !lookup_singleton_ne; [done|done|].
    intros E. apply (f_equal length) in E. destruct (Hlen 5 0 1) as (_ & _ & L1), (Hlen a 0 1) as (L2 & _). congruence.
  - intros a Ha. destruct (Hlen 5 0 1) as (L1 & _ & L2), (Hlen a CODE 1) as (_ & L3 & _).
    rewrite lookup_empty, lookup_insert_ne by (intros E; apply (f_equal length) in E; congruence).
    apply lookup_singleton_ne. intros E. apply (f_equal length) in E. congruence.
  - intros a k Ha Hk. destruct (Hlen 5 0 1) as (L1 & _ & _), (Hlen a 0 k) as (_ & _ & L3).
    rewrite lookup_insert_ne by (intros E; apply (f_equal length) in E; congruence).
    destruct (decide ((5, 1) = (a, k))) as [[= <- <-]|Hne]; [by rewrite !lookup_singleton_eq|].
    rewrite !lookup_singleton_ne; [done|done|]. intros E. apply storageKey_inj in E as [<- <-]; done.
Qed.
Lemma killed_ranges : cache_ranges killed /\ db_ranges (m_db killed).
Proof.
  pose proof five_address. split.
  - intros a x. cbn. intros [[<- <-]|[_ []%lookup_empty_Some]]%lookup_insert_Some. split; [done|].
    intros k v. cbn. by rewrite lookup_empty.
  - split. intros a k v. cbn. intros [[= <- <-] <-]%lookup_singleton_Some. split_and!; [done|apply one_hash|].
    unfold is_hash. lia.
Qed.
End StateDbExample.
Import MapLevelDB OverlayExample CommitExample.

Lemma state_commit_reaches_database_witness : exists s' o' (db' : batched_db (gmap Slice Slice)),
  State.commit RemoveEmptyAccounts killed = (Ok tt, s') /\
  commitOnOverlay (fun _ => true) RemoveEmptyAccounts killed s' StateDbExample.o0 = Some o' /\ stores db' (m_db s') /\
  OverlayDb.lookup StateDbExample.o0 5 = raw /\ OverlayDb.lookup o' 5 = [].
Proof.
  destruct StateDbExample.killed_ranges as [R1 R2].
  destruct (state_commit_reaches_database (fun _ => true) RemoveEmptyAccounts killed StateDbExample.o0 StateDbExample.db0
    killed_wf eq_refl killed_committable R1 R2 ltac:(split_and!; done) StateDbExample.disk_stores eq_refl)
    as (s' & o' & db' & H1 & H2 & H3 & H4 & H5).
  exists s', o', db'. split_and!; [exact H1|exact H2|exact H4|by vm_compute|].
  rewrite (proj1 (H5 5 1 StateDbExample.five_address StateDbExample.one_hash)).
  assert (E : lookupAccount (m_db (snd (State.commit RemoveEmptyAccounts killed))) 5 = []) by by vm_compute.
  by rewrite H1 in E.
Defined.
