(* ===== verification/RotatingDb.v ===== *)
(** * RotatingDb: the block database in pieces

    libbatched-io/batched_rotating_db_io.h and .cpp, libdevcore/ManuallyRotatingLevelDB.h and .cpp.
    The blocks are kept in [n_pieces] LevelDB directories, newest first.  A rotation deletes or
    archives the oldest piece and puts an empty one in front; a mark key tells which piece is the
    current one after a restart.  The directories are a map from names to databases ([Disk]), the
    deque of open databases is the list of their names.  A crash keeps the disk and loses the rest:
    [rotateStage] lists the steps between which the program can stop. *)

From S2P Require Import Prelude LevelDb.
From Stdlib Require Import ZArith Lia Bool.
From stdpp Require Import base list gmap countable.
Open Scope Z_scope.

(** "i.db" and "archive-i.db". *)
Inductive PieceName := PFile (i : nat) | PArchive (i : nat).
#[export] Instance PieceName_eq_dec : EqDecision PieceName.
Proof. solve_decision. Defined.
#[export] Instance PieceName_countable : Countable PieceName :=
  inj_countable' (fun p => match p with PFile i => inl i | PArchive i => inr i end)
    (fun s => match s with inl i => PFile i | inr i => PArchive i end) (fun p => match p with PFile _ | PArchive _ => eq_refl end).

(** [current_piece_mark_key], a text of 64 hexadecimal digits. *)
Definition current_piece_mark_key : Slice :=
  [101; 97; 100; 52; 56; 101; 99; 53; 55; 53; 97; 97; 97; 55; 49; 50; 55; 51; 56; 52; 100; 101; 101; 52; 51; 50; 102; 99;
   49; 99; 48; 50; 100; 57; 102; 54; 97; 50; 50; 57; 53; 48; 50; 51; 52; 101; 53; 101; 99; 102; 53; 57; 102; 51; 53; 101;
   100; 57; 102; 54; 101; 55; 56; 100].

Record rotating_db_io := mkRotating {
  pieces : list PieceName; current_piece_file_no : nat; n_pieces : nat; archive_mode : bool }.
#[export] Instance rotating_expand : Expandable rotating_db_io := fun r =>
  mkRotating (pieces r) (current_piece_file_no r) (n_pieces r) (archive_mode r).

(** The directories. *)
Abbreviation Disk L := (gmap PieceName L).

Section Rotating.
Context {L : Type} `{LevelDBLib L}.

Implicit Types d : gmap PieceName L.

Definition piece d (p : PieceName) : L := default ldb_open (d !! p).
Definition on_piece (p : PieceName) (f : L -> L) d : Disk L := <[p := f (piece d p)]> d.
(** [new LevelDB( path )], which creates a missing directory. *)
Definition openPiece d (p : PieceName) : Disk L := match d !! p with Some _ => d | None => <[p := ldb_open]> d end.
Definition marked d (i : nat) : bool := level_exists (piece d (PFile i)) current_piece_mark_key.

(** ** Opening *)

Definition recoverStep (n : nat) d (i : nat) : Disk L :=
  if marked d i then
    let prev_i := ((i + n - 1) mod n)%nat in
    if marked d prev_i then on_piece (PFile i) (fun l => ldb_Delete l current_piece_mark_key) d else d
  else d.
Definition recover (n : nat) d : Disk L := foldl (recoverStep n) d (seq 0 n).
Definition findCurrent (n : nat) d : nat := default 0%nat (List.find (marked d) (seq 0 n)).
(** One turn of the loop that brings the current piece to the front. *)
Definition moveFront (l : list PieceName) : list PieceName := match l with [] => [] | x :: l' => l' ++ [x] end.
(** The archives from number [i] on that are there, without a gap. *)
Fixpoint openArchives (fuel i : nat) d : list PieceName :=
  match fuel with
  | O => []
  | S f => match d !! PArchive i with Some _ => PArchive i :: openArchives f (S i) d | None => [] end
  end.
Definition rotating_open (n : nat) (archive : bool) d : Disk L * rotating_db_io :=
  let files := map PFile (seq 0 n) in
  let d := recover n (foldl openPiece d files) in
  let current_i := findCurrent n d in
  let files := Nat.iter current_i moveFront files in
  (d, mkRotating (files ++ if archive then openArchives (S (size d)) 0 d else []) current_i n archive).

(** ** Rotation *)

Definition oldest_db_no (r : rotating_db_io) : nat :=
  if (current_piece_file_no r =? 0)%nat then (n_pieces r - 1)%nat else (current_piece_file_no r - 1)%nat.
Definition new_archive_db_no (r : rotating_db_io) : nat := (length (pieces r) - n_pieces r)%nat.

(** The steps of [rotate], given the numbers it computes first. *)
Inductive RotateStage := EraseOldest | MoveOldest | OpenNew | SetMark | ClearMark.
Definition rotateStages : list RotateStage := [EraseOldest; MoveOldest; OpenNew; SetMark; ClearMark].
Definition rotateStage (oldest archiveNo : nat) (st : Disk L * rotating_db_io) (g : RotateStage) : Disk L * rotating_db_io :=
  let '(d, r) := st in
  match g with
  | EraseOldest => (d, r <| pieces := take (n_pieces r - 1) (pieces r) ++ drop (n_pieces r) (pieces r) |>)
  | MoveOldest =>
      if archive_mode r then
        (openPiece (<[PArchive archiveNo := piece d (PFile oldest)]> (delete (PFile oldest) d)) (PArchive archiveNo),
         r <| pieces := pieces r ++ [PArchive archiveNo] |>)
      else (delete (PFile oldest) d, r)
  | OpenNew => (openPiece d (PFile oldest), r <| pieces := PFile oldest :: pieces r |> <| current_piece_file_no := oldest |>)
  | SetMark => (on_piece (nth 0 (pieces r) (PFile oldest)) (fun l => ldb_Put l current_piece_mark_key []) d, r)
  | ClearMark =>
      match pieces r with
      | _ :: p1 :: _ => (on_piece p1 (fun l => ldb_Delete l current_piece_mark_key) d, r)
      | _ => (d, r)
      end
  end.
(** The first [k] steps. *)
Definition rotateUpto (k : nat) (st : Disk L * rotating_db_io) : Disk L * rotating_db_io :=
  foldl (rotateStage (oldest_db_no (snd st)) (new_archive_db_no (snd st))) st (take k rotateStages).
Definition rotate (st : Disk L * rotating_db_io) : Disk L * rotating_db_io := rotateUpto 5 st.
End Rotating.

(** ** [ManuallyRotatingLevelDB] *)

Record RotatingDB (L : Type) := mkRotatingDB {
  rt_disk : Disk L; rt_io : rotating_db_io; rt_batches : gset nat; rt_nextBatch : nat }.
Arguments mkRotatingDB {L}.
Arguments rt_disk {L}.
Arguments rt_io {L}.
Arguments rt_batches {L}.
Arguments rt_nextBatch {L}.

Section ManuallyRotating.
Context {L : Type} `{LevelDBLib L}.
Implicit Types m : RotatingDB L.

Definition openPieces m : list L := map (piece (rt_disk m)) (pieces (rt_io m)).
Definition with_disk m (d : Disk L) : RotatingDB L := mkRotatingDB d (rt_io m) (rt_batches m) (rt_nextBatch m).
Definition currentPiece m : PieceName := nth 0 (pieces (rt_io m)) (PFile 0).

Fixpoint lookupPieces (ps : list L) (k : Slice) : Slice :=
  match ps with
  | [] => []
  | p :: ps' => match level_lookup p k with [] => lookupPieces ps' k | v => v end
  end.
Definition mr_lookup m (k : Slice) : Slice := lookupPieces (openPieces m) k.
Definition mr_exists m (k : Slice) : bool := existsb (fun p => level_exists p k) (openPieces m).
Definition mr_insert m (k v : Slice) : RotatingDB L :=
  with_disk m (on_piece (currentPiece m) (fun l => ldb_Put l k v) (rt_disk m)).
Definition mr_kill m (k : Slice) : RotatingDB L :=
  with_disk m (foldl (fun d p => on_piece p (fun l => ldb_Delete l k) d) (rt_disk m) (pieces (rt_io m))).
Definition mr_createWriteBatch m : WriteBatch * RotatingDB L :=
  (mkBatch (rt_nextBatch m) [],
   mkRotatingDB (rt_disk m) (rt_io m) ({[rt_nextBatch m]} ∪ rt_batches m) (S (rt_nextBatch m))).
Definition mr_commit m (b : WriteBatch) : RotatingDB L :=
  mkRotatingDB (on_piece (currentPiece m) (fun l => ldb_Write l (wb_ops b)) (rt_disk m)) (rt_io m)
    (rt_batches m ∖ {[wb_id b]}) (rt_nextBatch m).
Definition mr_forEach {A} m (f : Slice -> Slice -> A -> A * bool) (a : A) : A :=
  foldl (fun a p => level_forEach p f a) a (openPieces m).
Definition mr_forEachWithPrefix {A} m (q : Slice) (f : Slice -> Slice -> A -> A * bool) (a : A) : A :=
  foldl (fun a p => level_forEachWithPrefix p q f a) a (openPieces m).
(** [discardCreatedBatches]. *)
Definition mr_discard m : RotatingDB L := mkRotatingDB (rt_disk m) (rt_io m) ∅ (rt_nextBatch m).
(** [rotate], which asserts that no batch is open. *)
Definition mr_rotate m : option (RotatingDB L) :=
  if decide (rt_batches m = ∅) then
    let '(d, r) := rotate (rt_disk m, rt_io m) in Some (mkRotatingDB d r (rt_batches m) (rt_nextBatch m))
  else None.

#[export] Instance RotatingDB_face : DatabaseFace (RotatingDB L) := {
  db_lookup := mr_lookup;
  db_exists := mr_exists;
  db_insert := mr_insert;
  db_kill := mr_kill;
  db_createWriteBatch := mr_createWriteBatch;
  db_batchInsert := fun _ b k v => wb_add b (WPut k v);
  db_batchKill := fun _ b k => wb_add b (WDelete k);
  db_commit := mr_commit;
  db_forEach := @mr_forEach;
  db_forEachWithPrefix := @mr_forEachWithPrefix;
  db_discardCreatedBatches := mr_discard }.
End ManuallyRotating.
