(* ===== verification/RotatingDbInv.v ===== *)
(** * RotatingDbInv: the deque of pieces, its mark and what a crash leaves *)

From S2P Require Import Prelude LevelDb RotatingDb.
From Stdlib Require Import ZArith Lia Bool.
From stdpp Require Import base list gmap.
Open Scope Z_scope.
#[local] Opaque current_piece_mark_key.

Section RotatingInv.
Context {L : Type} `{LevelDBSpec L}.
Implicit Types (d : Disk L) (r : rotating_db_io) (n c : nat).

(** ** Pieces *)

Lemma piece_on p f d q : piece (on_piece p f d) q = if decide (p = q) then f (piece d p) else piece d q.
Proof.
  unfold on_piece, piece at 1. case_decide as E; [subst; by rewrite lookup_insert_eq|by rewrite lookup_insert_ne].
Qed.
Lemma piece_open d p q : piece (openPiece d p) q = piece d q.
Proof.
  unfold openPiece. destruct (d !! p) eqn:E; [done|]. unfold piece. destruct (decide (p = q)) as [->|].
  - by rewrite lookup_insert_eq, E.
  - by rewrite lookup_insert_ne.
Qed.
Lemma open_is_Some d p q : is_Some (openPiece d p !! q) <-> p = q \/ is_Some (d !! q).
Proof.
  unfold openPiece. destruct (d !! p) as [l|] eqn:E.
  - split; [auto|]. intros [<-|]; [eauto|done].
  - destruct (decide (p = q)) as [->|].
    + rewrite lookup_insert_eq. split; eauto.
    + rewrite lookup_insert_ne by done. naive_solver.
Qed.
Lemma opens_piece ps d q : piece (foldl openPiece d ps) q = piece d q.
Proof. revert d. induction ps as [|p ps IH]; intros d; [done|]. simpl. by rewrite IH, piece_open. Qed.
Lemma opens_is_Some ps d q : is_Some (foldl openPiece d ps !! q) <-> q ∈ ps \/ is_Some (d !! q).
Proof.
  revert d. induction ps as [|p ps IH]; intros d; simpl; [set_solver|]. rewrite IH, open_is_Some, elem_of_cons. naive_solver.
Qed.
Lemma marked_piece d d' i : piece d' (PFile i) = piece d (PFile i) -> marked d' i = marked d i.
Proof. intros E. unfold marked. by rewrite E. Qed.
Lemma marked_Get d i : marked d i = bool_decide (is_Some (ldb_Get (piece d (PFile i)) current_piece_mark_key)).
Proof. unfold marked, level_exists. by case_match. Qed.
Lemma marked_delete d p i :
  marked (on_piece p (fun l => ldb_Delete l current_piece_mark_key) d) i = marked d i && bool_decide (p <> PFile i).
Proof.
  rewrite !marked_Get, piece_on. destruct (decide (p = PFile i)) as [->|].
  - rewrite Get_Delete, decide_True by done. rewrite (bool_decide_eq_false_2 (PFile i <> PFile i)) by tauto.
    by rewrite andb_false_r.
  - rewrite (bool_decide_eq_true_2 (p <> PFile i)) by done. by rewrite andb_true_r.
Qed.

(** Everything but the mark key is the same. *)
Definition same_data d d' : Prop := forall p k, k <> current_piece_mark_key -> ldb_Get (piece d' p) k = ldb_Get (piece d p) k.
#[export] Instance same_data_preorder : PreOrder same_data.
Proof. split; [by intros d p k|]. intros d1 d2 d3 E1 E2 p k Hk. by rewrite E2, E1. Qed.
Lemma same_data_delete p d : same_data d (on_piece p (fun l => ldb_Delete l current_piece_mark_key) d).
Proof.
  intros q k Hk. rewrite piece_on. case_decide as E; [|done]. subst. by rewrite Get_Delete, decide_False.
Qed.
Lemma same_data_put p v d : same_data d (on_piece p (fun l => ldb_Put l current_piece_mark_key v) d).
Proof. intros q k Hk. rewrite piece_on. case_decide as E; [|done]. subst. by rewrite Get_Put, decide_False. Qed.

(** ** The order of pieces *)

Definition rotation n c : list nat := map (fun j => ((c + j) mod n)%nat) (seq 0 n).
Definition next n c : nat := (S c mod n)%nat.
Definition previous n c : nat := ((c + n - 1) mod n)%nat.

Lemma rotation_0 n : rotation n 0 = seq 0 n.
Proof.
  unfold rotation. rewrite <- (map_id (seq 0 n)) at 2. apply map_ext_in. intros j Hj%in_seq. apply Nat.mod_small. lia.
Qed.
Lemma rotation_move n c : (0 < n)%nat -> moveFront (map PFile (rotation n c)) = map PFile (rotation n (S c)).
Proof.
  intros Hn. destruct n as [|n]; [lia|]. unfold rotation.
  assert (E : map (fun j => ((S c + j) mod S n)%nat) (seq 0 (S n)) =
    map (fun j => ((S c + j) mod S n)%nat) (seq 0 n) ++ [((S c + n) mod S n)%nat]) by by rewrite seq_S, map_app.
  rewrite E, map_app. cbn [seq map moveFront]. f_equal.
  - rewrite <- seq_shift, !map_map. apply map_ext. intros j. do 2 f_equal. lia.
  - rewrite Nat.add_0_r. replace (S c + n)%nat with (c + 1 * S n)%nat by lia. by rewrite Nat.Div0.mod_add.
Qed.
Lemma rotation_iter n c : (0 < n)%nat -> Nat.iter c moveFront (map PFile (seq 0 n)) = map PFile (rotation n c).
Proof.
  intros Hn. induction c as [|c IH]; [by rewrite rotation_0|]. rewrite Nat.iter_succ, IH. by apply rotation_move.
Qed.
(** The oldest piece is the last one, and putting it in front is going back by one number. *)
Lemma rotation_back n c : (0 < n)%nat -> (c < n)%nat ->
  exists mid, rotation n c = mid ++ [previous n c] /\ length mid = (n - 1)%nat /\ rotation n (previous n c) = previous n c :: mid.
Proof.
  intros Hn Hc. destruct n as [|n]; [lia|]. exists (map (fun j => ((c + j) mod S n)%nat) (seq 0 n)).
  unfold rotation, previous. split_and!.
  - rewrite seq_S, map_app. cbn [map]. by replace (c + S n - 1)%nat with (c + n)%nat by lia.
  - rewrite length_map, length_seq. lia.
  - cbn [seq map]. f_equal.
    + rewrite Nat.add_0_r. rewrite Nat.Div0.mod_mod. done.
    + rewrite <- seq_shift, map_map. apply map_ext. intros j. rewrite Nat.Div0.add_mod_idemp_l.
      replace (c + S n - 1 + S j)%nat with (c + j + 1 * S n)%nat by lia. by rewrite Nat.Div0.mod_add.
Qed.
Lemma previous_lt n c : (0 < n)%nat -> (previous n c < n)%nat.
Proof. intros. apply Nat.mod_upper_bound. lia. Qed.
Lemma next_lt n c : (0 < n)%nat -> (next n c < n)%nat.
Proof. intros. apply Nat.mod_upper_bound. lia. Qed.
Lemma next_previous n c : (0 < n)%nat -> (c < n)%nat -> next n (previous n c) = c.
Proof.
  intros Hn Hc. unfold next, previous. rewrite <- Nat.add_1_r, Nat.Div0.add_mod_idemp_l.
  replace (c + n - 1 + 1)%nat with (c + 1 * n)%nat by lia. rewrite Nat.Div0.mod_add. by apply Nat.mod_small.
Qed.
Lemma previous_cases n c : (0 < n)%nat -> (c < n)%nat -> previous n c = if (c =? 0)%nat then (n - 1)%nat else (c - 1)%nat.
Proof.
  intros Hn Hc. unfold previous. destruct (Nat.eqb_spec c 0) as [->|]; [apply Nat.mod_small; lia|].
  replace (c + n - 1)%nat with (c - 1 + 1 * n)%nat by lia. rewrite Nat.Div0.mod_add. apply Nat.mod_small. lia.
Qed.
Lemma next_cases n c : (0 < n)%nat -> (c < n)%nat -> next n c = if (c =? n - 1)%nat then 0%nat else S c.
Proof.
  intros Hn Hc. unfold next. destruct (Nat.eqb_spec c (n - 1)) as [->|]; [|apply Nat.mod_small; lia].
  replace (S (n - 1)) with n by lia. apply Nat.Div0.mod_same.
Qed.

(** ** Recovery *)

(** The marks that a crash can leave: the mark of the current piece [c], and perhaps the mark of the
    piece after it, which was current before; or none, when the first piece is current. *)
Record marks_ok n c d : Prop := {
  mk_where i : (i < n)%nat -> marked d i = true -> i = c \/ i = next n c;
  mk_current : marked d c = true \/ c = 0%nat /\ forall i, (i < n)%nat -> marked d i = false }.

Lemma recoverStep_ok n c d i : (3 <= n)%nat -> (c < n)%nat -> (i < n)%nat -> marks_ok n c d ->
  marks_ok n c (recoverStep n d i) /\ same_data d (recoverStep n d i) /\
  (forall j, marked (recoverStep n d i) j = true -> marked d j = true) /\
  (i = next n c -> marked (recoverStep n d i) i = false) /\
  forall p, is_Some (recoverStep n d i !! p) <-> is_Some (d !! p).
Proof.
  intros Hn Hc Hi [Hw Hcu]. unfold recoverStep. fold (previous n i). destruct (marked d i) eqn:Ei; [|by split_and!; [split| | | |]].
  destruct Hcu as [Hmc|[_ Hnone]]; [|by rewrite Hnone in Ei].
  destruct (marked d (previous n i)) eqn:Ep.
  - (* only the piece after the current one follows a marked one *)
    assert (i = next n c) as ->.
    { destruct (Hw i Hi Ei) as [->|]; [|done]. exfalso.
      destruct (Hw _ (previous_lt n c ltac:(lia)) Ep) as [E|E]; revert E; rewrite previous_cases, ?next_cases by lia;
        repeat case_match; try lia; rewrite ?Nat.eqb_eq, ?Nat.eqb_neq in *; lia. }
    assert (Hne : next n c <> c) by (rewrite next_cases by lia; case_match; rewrite ?Nat.eqb_eq, ?Nat.eqb_neq in *; lia).
    split_and!.
    + split; intros *; rewrite !marked_delete.
      * intros Hj [Hm _]%andb_true_iff. by apply Hw.
      * left. rewrite Hmc. apply bool_decide_eq_true_2. congruence.
    + apply same_data_delete.
    + intros j. rewrite marked_delete. by intros [? _]%andb_true_iff.
    + intros _. rewrite marked_delete. rewrite bool_decide_eq_false_2 by tauto. apply andb_false_r.
    + intros p. unfold on_piece. destruct (decide (PFile (next n c) = p)) as [<-|]; [|by rewrite lookup_insert_ne].
      rewrite lookup_insert_eq. split; [|eauto]. intros _. unfold marked, piece in Ei.
      destruct (d !! PFile (next n c)); [eauto|]. cbn in Ei. unfold level_exists in Ei. by rewrite Get_open in Ei.
  - split_and!; [split; [done|by left]|done|done| |done]. intros ->. exfalso.
    assert (E : previous n (next n c) = c).
    { rewrite previous_cases, next_cases by (lia || apply next_lt; lia). repeat case_match;
        rewrite ?Nat.eqb_eq, ?Nat.eqb_neq in *; lia. }
    by rewrite E, Hmc in Ep.
Qed.

Lemma recover_loop n c l : (3 <= n)%nat -> (c < n)%nat -> forall d, (forall i, i ∈ l -> (i < n)%nat) -> marks_ok n c d ->
  marks_ok n c (foldl (recoverStep n) d l) /\ same_data d (foldl (recoverStep n) d l) /\
  (forall j, marked (foldl (recoverStep n) d l) j = true -> marked d j = true) /\
  (next n c ∈ l -> marked (foldl (recoverStep n) d l) (next n c) = false) /\
  forall p, is_Some (foldl (recoverStep n) d l !! p) <-> is_Some (d !! p).
Proof.
  intros Hn Hc. induction l as [|i l IH]; intros d Hl Hm; [split_and!; try done; by intros ?%not_elem_of_nil|]. cbn [foldl].
  destruct (recoverStep_ok n c d i Hn Hc ltac:(apply Hl; by left) Hm) as (M1 & D1 & K1 & N1 & S1).
  destruct (IH (recoverStep n d i) ltac:(intros; apply Hl; by right) M1) as (M2 & D2 & K2 & N2 & S2).
  split_and!; [done|by etrans|auto| |intros p; by rewrite S2].
  intros [E|Hin]%elem_of_cons; [|auto]. destruct (marked (foldl _ _ l) (next n c)) eqn:E'; [|done].
  apply K2 in E'. rewrite E, N1 in E' by done. done.
Qed.
Lemma recover_ok n c d : (3 <= n)%nat -> (c < n)%nat -> marks_ok n c d ->
  (forall i, (i < n)%nat -> marked (recover n d) i = true -> i = c) /\ findCurrent n (recover n d) = c /\
  (marked (recover n d) c = true \/ c = 0%nat) /\ same_data d (recover n d) /\
  forall p, is_Some (recover n d !! p) <-> is_Some (d !! p).
Proof.
  intros Hn Hc Hm. unfold recover.
  destruct (recover_loop n c (seq 0 n) Hn Hc d) as ([Hw Hcu] & Hd & _ & Hnext & Hs).
  { intros i Hi%elem_of_seq. lia. }
  { done. }
  set (d' := foldl _ _ _) in *. specialize (Hnext ltac:(apply elem_of_seq; pose proof (next_lt n c ltac:(lia)); lia)).
  assert (Hone : forall i, (i < n)%nat -> marked d' i = true -> i = c).
  { intros i Hi Hmi. destruct (Hw i Hi Hmi) as [?| ->]; [done|congruence]. }
  split_and!; [done| |naive_solver|done|done]. unfold findCurrent.
  destruct (List.find (marked d') (seq 0 n)) as [i|] eqn:E; cbn.
  - apply find_some in E as [Hi%in_seq Hmi]. apply Hone; [lia|done].
  - destruct Hcu as [Hmc|[-> _]]; [|done]. eapply find_none in E; [by rewrite E in Hmc|]. apply in_seq. lia.
Qed.

(** ** Opening *)

(** The archives on the disk are numbered without gaps. *)
Definition archives_are d (m : nat) : Prop := forall i, is_Some (d !! PArchive i) <-> (i < m)%nat.
Lemma archives_size d m : archives_are d m -> (m <= size d)%nat.
Proof.
  intros Ha. rewrite <- size_dom. transitivity (size (list_to_set (map PArchive (seq 0 m)) : gset PieceName)).
  - rewrite size_list_to_set; [by rewrite length_map, length_seq|]. apply NoDup_fmap_2; [by intros ? ? [=]|apply NoDup_seq].
  - apply subseteq_size. intros p (i & -> & Hi%elem_of_seq)%elem_of_list_to_set%list_elem_of_fmap.
    apply elem_of_dom, Ha. lia.
Qed.
Lemma openArchives_ok d m fuel i : archives_are d m -> (m - i < fuel)%nat -> (i <= m)%nat ->
  openArchives fuel i d = map PArchive (seq i (m - i)).
Proof.
  intros Ha. revert i. induction fuel as [|fuel IH]; intros i Hf Hi; [lia|]. cbn [openArchives].
  destruct (d !! PArchive i) as [l|] eqn:E.
  - assert (i < m)%nat by (apply Ha; eauto). rewrite IH by lia.
    replace (m - i)%nat with (S (m - S i)) by lia. done.
  - assert (~ (i < m)%nat) by (rewrite <- (Ha i), E; by intros []). by replace (m - i)%nat with 0%nat by lia.
Qed.

(** A deque that is what opening its disk gives. *)
Record rot_ok d r : Prop := {
  ro_n : (3 <= n_pieces r)%nat;
  ro_c : (current_piece_file_no r < n_pieces r)%nat;
  ro_pieces : exists m, pieces r = map PFile (rotation (n_pieces r) (current_piece_file_no r)) ++ map PArchive (seq 0 m) /\
    if archive_mode r then archives_are d m else m = 0%nat;
  ro_files i : (i < n_pieces r)%nat -> is_Some (d !! PFile i);
  ro_marks i : (i < n_pieces r)%nat -> marked d i = true -> i = current_piece_file_no r;
  ro_marked : marked d (current_piece_file_no r) = true \/ current_piece_file_no r = 0%nat }.

Lemma open_ok n archive c m d : (3 <= n)%nat -> (c < n)%nat -> marks_ok n c d -> (archive = true -> archives_are d m) ->
  exists d' r, rotating_open n archive d = (d', r) /\ rot_ok d' r /\ same_data d d' /\
    r = mkRotating (map PFile (rotation n c) ++ map PArchive (seq 0 (if archive then m else 0))) c n archive.
Proof.
  intros Hn Hc Hm Ha. unfold rotating_open. set (d1 := foldl openPiece d (map PFile (seq 0 n))).
  assert (Hp1 : forall q, piece d1 q = piece d q) by (intros; apply opens_piece).
  assert (Hm1 : marks_ok n c d1).
  { destruct Hm as [Hw Hcu]. split; intros *; repeat setoid_rewrite (marked_piece d d1 _ (Hp1 _)); auto. }
  destruct (recover_ok n c d1 Hn Hc Hm1) as (R1 & -> & R3 & R4 & R5).
  assert (Ha1 : archive = true -> archives_are (recover n d1) m).
  { intros E i. rewrite R5. unfold d1. rewrite opens_is_Some, <- (Ha E i). split; [|by right].
    intros [(j & [=] & _)%list_elem_of_fmap|]; done. }
  rewrite rotation_iter by lia. set (files := map PFile (rotation n c)).
  assert (E : files ++ (if archive then openArchives (S (size (recover n d1))) 0 (recover n d1) else []) =
              files ++ map PArchive (seq 0 (if archive then m else 0))).
  { destruct archive; [|done]. pose proof (archives_size _ _ (Ha1 eq_refl)).
    rewrite (openArchives_ok _ m) by (try apply Ha1; lia || done). by rewrite Nat.sub_0_r. }
  rewrite E. eexists _, _. split; [done|]. split; [|split; [|done]].
  - split; cbn; try done.
    + exists (if archive then m else 0%nat). split; [done|]. destruct archive; [by apply Ha1|done].
    + intros i Hi. apply R5. unfold d1. rewrite opens_is_Some. left. apply list_elem_of_fmap. exists i. split; [done|].
      apply elem_of_seq. lia.
  - intros p k Hk. rewrite R4 by done. by rewrite Hp1.
Qed.

(** ** The steps of a rotation *)

Lemma oldest_previous d r : rot_ok d r -> oldest_db_no r = previous (n_pieces r) (current_piece_file_no r).
Proof. intros [Hn Hc _ _ _ _]. unfold oldest_db_no. rewrite previous_cases by lia. done. Qed.
Lemma new_archive_is d r m : rot_ok d r ->
  pieces r = map PFile (rotation (n_pieces r) (current_piece_file_no r)) ++ map PArchive (seq 0 m) -> new_archive_db_no r = m.
Proof.
  intros _ E. unfold new_archive_db_no. rewrite E, length_app, !length_map. unfold rotation. rewrite length_map, !length_seq. lia.
Qed.
(** Erasing the oldest piece from the deque leaves the others, the current one first. *)
Lemma erased_pieces n c l : (3 <= n)%nat -> (c < n)%nat -> exists mid,
  take (n - 1) (map PFile (rotation n c) ++ l) ++ drop n (map PFile (rotation n c) ++ l) = PFile c :: map PFile mid ++ l /\
  PFile (previous n c) :: PFile c :: map PFile mid = map PFile (rotation n (previous n c)).
Proof.
  intros Hn Hc. destruct (rotation_back n c ltac:(lia) Hc) as (mid & E1 & Hl & E2).
  assert (exists mid', mid = c :: mid') as [mid' ->].
  { destruct mid as [|x mid']; [cbn in Hl; lia|]. exists mid'. f_equal. destruct n as [|n]; [lia|].
    apply (f_equal (fun l => nth 0 l 0%nat)) in E1. unfold rotation in E1. cbn [seq map app nth] in E1. rewrite Nat.add_0_r in E1.
    rewrite <- E1. apply Nat.mod_small. lia. }
  exists mid'. rewrite E2. split; [|done]. rewrite E1, map_app, <- app_assoc.
  rewrite take_app_length' by (rewrite length_map, Hl; lia).
  rewrite (app_assoc (map PFile (c :: mid')) (map PFile [previous n c]) l).
  rewrite drop_app_length' by (rewrite length_app, !length_map, Hl; cbn [length]; lia). done.
Qed.

(** Pieces other than the oldest one keep their data; the oldest one is emptied or archived. *)
Record rotating_from d r (k m : nat) d' : Prop := {
  rf_marks : marks_ok (n_pieces r) (if (k <? 4)%nat then current_piece_file_no r else oldest_db_no r) d';
  rf_others i key : i <> oldest_db_no r -> key <> current_piece_mark_key ->
    ldb_Get (piece d' (PFile i)) key = ldb_Get (piece d (PFile i)) key;
  rf_oldest key : key <> current_piece_mark_key ->
    ldb_Get (piece d' (PFile (oldest_db_no r))) key =
    if (k <? 2)%nat then ldb_Get (piece d (PFile (oldest_db_no r))) key else None;
  rf_archives i : i <> m -> piece d' (PArchive i) = piece d (PArchive i);
  rf_archived : archive_mode r = true -> (2 <= k)%nat -> piece d' (PArchive m) = piece d (PFile (oldest_db_no r));
  rf_archive_names : archive_mode r = true -> archives_are d' (if (k <? 2)%nat then m else S m) }.

Lemma rot_ok_marks d r : rot_ok d r -> marks_ok (n_pieces r) (current_piece_file_no r) d.
Proof.
  intros [Hn Hc _ _ Hm Hmc]. split; [intros i Hi Hmi; left; by apply Hm|]. destruct (marked d (current_piece_file_no r)) eqn:E; [by left|].
  right. destruct Hmc as [|Hz]; [done|]. split; [done|]. intros i Hi. destruct (marked d i) eqn:Ei; [|done].
  rewrite (Hm i Hi Ei) in Ei. congruence.
Qed.
Lemma oldest_not_current d r : rot_ok d r -> oldest_db_no r <> current_piece_file_no r /\ (oldest_db_no r < n_pieces r)%nat /\
  next (n_pieces r) (oldest_db_no r) = current_piece_file_no r.
Proof.
  intros Hok. pose proof Hok as [Hn Hc _ _ _ _]. rewrite (oldest_previous d r Hok). split_and!.
  - rewrite previous_cases by lia. case_match; rewrite ?Nat.eqb_eq, ?Nat.eqb_neq in *; lia.
  - apply previous_lt. lia.
  - apply next_previous; lia.
Qed.

(** The disk once the oldest piece has been moved away (and perhaps created again). *)
Definition movedDisk (archive : bool) (oldest m : nat) d : Disk L :=
  if archive then <[PArchive m := piece d (PFile oldest)]> (delete (PFile oldest) d) else delete (PFile oldest) d.
Lemma piece_moved archive oldest m d q : piece (movedDisk archive oldest m d) q =
  if decide (q = PFile oldest) then ldb_open
  else if archive && bool_decide (q = PArchive m) then piece d (PFile oldest) else piece d q.
Proof.
  unfold movedDisk, piece at 1. case_decide as E.
  - subst. destruct archive; [rewrite lookup_insert_ne by done|]; by rewrite lookup_delete_eq.
  - destruct archive; cbn [andb]; [case_bool_decide as E2; [subst; by rewrite lookup_insert_eq|rewrite lookup_insert_ne by congruence]|];
      by rewrite lookup_delete_ne by congruence.
Qed.
Lemma moved_archives oldest m d : archives_are d m -> archives_are (movedDisk true oldest m d) (S m).
Proof.
  intros Ha i. unfold movedDisk. destruct (decide (m = i)) as [->|].
  - rewrite lookup_insert_eq. split; [lia|eauto].
  - rewrite lookup_insert_ne, lookup_delete_ne by congruence. rewrite (Ha i). lia.
Qed.
Lemma archives_same d d' m : (forall i, is_Some (d' !! PArchive i) <-> is_Some (d !! PArchive i)) -> archives_are d m -> archives_are d' m.
Proof. intros E Ha i. by rewrite E, (Ha i). Qed.
Lemma on_file_archives i f d j : is_Some (on_piece (PFile i) f d !! PArchive j) <-> is_Some (d !! PArchive j).
Proof. unfold on_piece. by rewrite lookup_insert_ne. Qed.

Lemma openPiece_there d p l : d !! p = Some l -> openPiece d p = d.
Proof. intros E. unfold openPiece. by rewrite E. Qed.
Lemma moved_there archive oldest m d : archive = true -> is_Some (movedDisk archive oldest m d !! PArchive m).
Proof. intros ->. unfold movedDisk. rewrite lookup_insert_eq. eauto. Qed.

Definition rotatedDisk (archive : bool) (c oldest m k : nat) d : Disk L :=
  let d2 := movedDisk archive oldest m d in
  let d3 := openPiece d2 (PFile oldest) in
  let d4 := on_piece (PFile oldest) (fun l => ldb_Put l current_piece_mark_key []) d3 in
  match k with
  | 0%nat | 1%nat => d
  | 2%nat => d2
  | 3%nat => d3
  | 4%nat => d4
  | _ => on_piece (PFile c) (fun l => ldb_Delete l current_piece_mark_key) d4
  end.
Lemma rotateUpto_is d r k m : rot_ok d r -> (k <= 5)%nat ->
  pieces r = map PFile (rotation (n_pieces r) (current_piece_file_no r)) ++ map PArchive (seq 0 m) ->
  fst (rotateUpto k (d, r)) = rotatedDisk (archive_mode r) (current_piece_file_no r) (oldest_db_no r) m k d /\
  snd (RotatingDb.rotate (d, r)) = mkRotating (map PFile (rotation (n_pieces r) (oldest_db_no r)) ++
    map PArchive (seq 0 (if archive_mode r then S m else m))) (oldest_db_no r) (n_pieces r) (archive_mode r).
Proof.
  intros Hok Hk Hp. pose proof Hok as [Hn Hc _ _ _ _]. pose proof (oldest_previous d r Hok) as Ho.
  pose proof (new_archive_is d r m Hok Hp) as Hm.
  destruct (erased_pieces (n_pieces r) (current_piece_file_no r) (map PArchive (seq 0 m)) Hn Hc) as (mid & E1 & E2).
  unfold RotatingDb.rotate, rotateUpto. cbn [snd]. rewrite Hm, Ho in *. set (o := previous _ _) in *. clearbody o. clear Ho Hm.
  destruct r as [ps c n archive]. cbn [pieces current_piece_file_no n_pieces archive_mode] in *. subst ps.
  assert (Hopen : archive = true -> openPiece (<[PArchive m := piece d (PFile o)]> (delete (PFile o) d)) (PArchive m) = movedDisk archive o m d).
  { intros ->. apply (openPiece_there _ _ (piece d (PFile o))). apply lookup_insert_eq. }
  split.
  - destruct k as [|[|[|[|[|[|k]]]]]]; [..|lia]; cbn; destruct archive; rewrite ?E1, ?Hopen by done; done.
  - destruct archive; [rewrite (seq_S m 0), map_app|]; rewrite <- E2; cbn; rewrite E1; cbn;
      rewrite <- ?app_assoc; reflexivity.
Qed.

Lemma marked_put d p v i :
  marked (on_piece p (fun l => ldb_Put l current_piece_mark_key v) d) i = bool_decide (p = PFile i) || marked d i.
Proof.
  rewrite !marked_Get, piece_on. destruct (decide (p = PFile i)) as [->|].
  - rewrite Get_Put, decide_True by done. by rewrite (bool_decide_eq_true_2 (PFile i = PFile i)).
  - by rewrite (bool_decide_eq_false_2 (p = PFile i)).
Qed.
Lemma marked_moved archive oldest m d i : marked (movedDisk archive oldest m d) i = bool_decide (i <> oldest) && marked d i.
Proof.
  rewrite !marked_Get, piece_moved. case_decide as E.
  - injection E as ->. rewrite Get_open, (bool_decide_eq_false_2 (oldest <> oldest)) by tauto. done.
  - rewrite (bool_decide_eq_true_2 (i <> oldest)) by congruence. rewrite (bool_decide_eq_false_2 (PFile i = PArchive m)) by done.
    by rewrite andb_false_r.
Qed.

Lemma rotated_marks d r m k : rot_ok d r -> (k <= 5)%nat ->
  marks_ok (n_pieces r) (if (k <? 4)%nat then current_piece_file_no r else oldest_db_no r)
    (rotatedDisk (archive_mode r) (current_piece_file_no r) (oldest_db_no r) m k d).
Proof.
  intros Hok Hk. destruct (oldest_not_current d r Hok) as (Hne & Hlt & Hnext). pose proof (rot_ok_marks d r Hok) as Hm.
  set (c := current_piece_file_no r) in *. set (o := oldest_db_no r) in *. set (n := n_pieces r) in *.
  assert (Hm2 : marks_ok n c (movedDisk (archive_mode r) o m d)).
  { destruct Hm as [Hw Hcu]. split; setoid_rewrite marked_moved.
    - intros i Hi [_ ?]%andb_true_iff. by apply Hw.
    - destruct Hcu as [->|[-> Hn]]; [left; by rewrite bool_decide_eq_true_2|right]. split; [done|].
      intros i Hi. by rewrite Hn, andb_false_r. }
  assert (Hm3 : forall d', (forall i, marked d' i = marked (movedDisk (archive_mode r) o m d) i) -> marks_ok n c d').
  { intros d' E. destruct Hm2 as [Hw Hcu]. split; setoid_rewrite E; done. }
  assert (Hop : forall i, marked (openPiece (movedDisk (archive_mode r) o m d) (PFile o)) i = marked (movedDisk (archive_mode r) o m d) i)
    by (intros; apply marked_piece, piece_open).
  assert (Hone : forall i, (i < n)%nat -> marked d i = true -> i = c) by apply Hok.
  destruct k as [|[|[|[|[|[|k]]]]]]; [done|done|done|by apply Hm3| | |lia]; cbn [rotatedDisk Nat.ltb Nat.leb].
  - split; [|left; rewrite marked_put; by rewrite bool_decide_eq_true_2].
    intros i Hi. rewrite marked_put, Hop, marked_moved. intros [E%bool_decide_eq_true_1|[_ E]%andb_true_iff]%orb_true_iff.
    + injection E as ->. by left.
    + right. rewrite Hnext. by apply Hone.
  - split; [|left; rewrite marked_delete, marked_put; rewrite (bool_decide_eq_true_2 (PFile o = PFile o)) by done;
      rewrite bool_decide_eq_true_2 by congruence; done].
    intros i Hi. rewrite marked_delete, marked_put, Hop, marked_moved. intros [[E%bool_decide_eq_true_1|[_ E]%andb_true_iff]%orb_true_iff _]%andb_true_iff.
    + injection E as ->. by left.
    + right. rewrite Hnext. by apply Hone.
Qed.

Lemma rotated_from d r m k : rot_ok d r -> (k <= 5)%nat -> (archive_mode r = true -> archives_are d m) ->
  rotating_from d r k m (rotatedDisk (archive_mode r) (current_piece_file_no r) (oldest_db_no r) m k d).
Proof.
  intros Hok Hk Ha. set (c := current_piece_file_no r). set (o := oldest_db_no r).
  pose proof (piece_moved (archive_mode r) o m d) as Hpm. set (d2 := movedDisk (archive_mode r) o m d) in *.
  set (d3 := openPiece d2 (PFile o)). assert (Hp3 : forall q, piece d3 q = piece d2 q) by (intros; apply piece_open).
  set (d4 := on_piece (PFile o) (fun l => ldb_Put l current_piece_mark_key []) d3).
  set (d5 := on_piece (PFile c) (fun l => ldb_Delete l current_piece_mark_key) d4).
  assert (Hd : forall d', d' = d2 \/ d' = d3 \/ d' = d4 \/ d' = d5 -> same_data d2 d' /\
    (forall i, piece d' (PArchive i) = piece d2 (PArchive i)) /\
    forall i, is_Some (d' !! PArchive i) <-> is_Some (d2 !! PArchive i)).
  { assert (H3 : same_data d2 d3) by (intros q key _; by rewrite Hp3).
    assert (H4 : same_data d2 d4) by (etrans; [exact H3|apply same_data_put]).
    assert (H5 : same_data d2 d5) by (etrans; [exact H4|apply same_data_delete]).
    assert (N3 : forall i, is_Some (d3 !! PArchive i) <-> is_Some (d2 !! PArchive i))
      by (intros i; unfold d3; rewrite open_is_Some; naive_solver).
    intros d' [-> |[-> |[-> | ->]]]; split_and!; try done.
    - intros i. unfold d4. by rewrite piece_on, decide_False.
    - intros i. unfold d4. by rewrite on_file_archives.
    - intros i. unfold d5, d4. by rewrite !piece_on, !decide_False.
    - intros i. unfold d5, d4. by rewrite !on_file_archives. }
  assert (Hgo : forall d', d' = d2 \/ d' = d3 \/ d' = d4 \/ d' = d5 -> (2 <= k)%nat ->
    marks_ok (n_pieces r) (if (k <? 4)%nat then c else o) d' -> rotating_from d r k m d').
  { intros d' E Hk2 Hm. destruct (Hd d' E) as (Hs & Hpa & Hna). assert ((k <? 2)%nat = false) as Hb by (apply Nat.ltb_ge; lia).
    split; [done|..]; rewrite ?Hb.
    - intros i key Hi Hkey. fold o in Hi. rewrite Hs by done. rewrite Hpm, decide_False by congruence.
      by rewrite (bool_decide_eq_false_2 (PFile i = _)), andb_false_r.
    - intros key Hkey. fold o. rewrite Hs by done. rewrite Hpm, decide_True by done. apply Get_open.
    - intros i Hi. rewrite Hpa, Hpm, decide_False by done. rewrite bool_decide_eq_false_2 by congruence. by rewrite andb_false_r.
    - intros Har _. rewrite Hpa, Hpm, decide_False, Har, bool_decide_eq_true_2 by done. done.
    - intros Har. apply (archives_same d2); [done|]. unfold d2. rewrite Har. apply moved_archives, Ha, Har. }
  pose proof (rotated_marks d r m k Hok Hk) as Hm. fold c o in Hm.
  destruct k as [|[|[|[|[|[|k]]]]]]; [| |apply Hgo; auto with lia..|lia].
  all: split; try done; intros; lia.
Qed.

Lemma moved_files archive oldest m d i : i <> oldest -> is_Some (movedDisk archive oldest m d !! PFile i) <-> is_Some (d !! PFile i).
Proof.
  intros Hi. unfold movedDisk. destruct archive; [rewrite lookup_insert_ne by done|]; by rewrite lookup_delete_ne by congruence.
Qed.
Lemma on_piece_is_Some p f d q : is_Some (d !! q) -> is_Some (on_piece p f d !! q).
Proof. intros Hs. unfold on_piece. destruct (decide (p = q)) as [->|]; [rewrite lookup_insert_eq; eauto|by rewrite lookup_insert_ne]. Qed.
(** A rotation keeps the deque well formed. *)
Lemma rotate_ok d r : rot_ok d r -> rot_ok (fst (RotatingDb.rotate (d, r))) (snd (RotatingDb.rotate (d, r))).
Proof.
  intros Hok. pose proof Hok as [Hn Hc (m & Hp & Har) Hfiles Hmarks _].
  assert (Ha : archive_mode r = true -> archives_are d m) by (intros E; by rewrite E in Har).
  destruct (rotateUpto_is d r 5 m Hok ltac:(lia) Hp) as [Hd Hr]. unfold RotatingDb.rotate at 1. rewrite Hd, Hr.
  destruct (rotated_from d r m 5 Hok ltac:(lia) Ha) as [_ _ _ _ _ Hna]. destruct (oldest_not_current d r Hok) as (Hne & Hlt & _).
  split; cbn [n_pieces current_piece_file_no pieces archive_mode]; [done|done|..].
  - exists (if archive_mode r then S m else m). split; [done|]. destruct (archive_mode r); [by apply Hna|done].
  - intros i Hi. cbn [rotatedDisk]. do 2 apply on_piece_is_Some. apply open_is_Some.
    destruct (decide (i = oldest_db_no r)) as [->|Hio]; [by left|right]. rewrite moved_files by done. by apply Hfiles.
  - intros i Hi. cbn [rotatedDisk]. rewrite marked_delete, marked_put. intros [Hm Hci%bool_decide_eq_true_1]%andb_true_iff.
    apply orb_true_iff in Hm as [E%bool_decide_eq_true_1|Hm]; [by injection E as ->|].
    rewrite (marked_piece (movedDisk (archive_mode r) (oldest_db_no r) m d)), marked_moved in Hm by apply piece_open.
    apply andb_true_iff in Hm as [_ Hm]. destruct Hci. f_equal. symmetry. by apply Hmarks.
  - left. cbn [rotatedDisk]. rewrite marked_delete, marked_put, (bool_decide_eq_true_2 (PFile (oldest_db_no r) = _)) by done.
    by rewrite bool_decide_eq_true_2 by congruence.
Qed.
End RotatingInv.
