(* ===== verification/RotatingDbClaims.v ===== *)
(** * RotatingDbClaims: rotation, crashes and reading through the pieces *)

From S2P Require Import Prelude LevelDb RotatingDb RotatingDbInv.
From Stdlib Require Import ZArith Lia Bool.
From stdpp Require Import base list gmap.
Open Scope Z_scope.
#[local] Opaque current_piece_mark_key.

Section RotatingClaims.
Context {L : Type} `{LevelDBSpec L}.
Implicit Types (d : Disk L) (r : rotating_db_io) (m : RotatingDB L).

(** C13: A rotation can be interrupted anywhere.  Wherever the program stops among the five steps of a
    rotation of at least three pieces, opening the directories again gives a well-formed deque with
    one current piece: the old one when the new one was not yet marked, the new one otherwise (the
    second mark is removed).  Every piece but the oldest keeps its entries; the oldest one keeps
    them or is empty, and in archive mode they are then in the newest archive, while the older
    archives stay as they were.  After all five steps opening gives the deque that the rotation
    had made. *)
Theorem rotation_survives_crash d r k : rot_ok d r -> (k <= 5)%nat ->
  exists d' r', rotating_open (n_pieces r) (archive_mode r) (fst (rotateUpto k (d, r))) = (d', r') /\ rot_ok d' r' /\
    current_piece_file_no r' = (if (k <? 4)%nat then current_piece_file_no r else oldest_db_no r) /\
    (forall i key, i <> oldest_db_no r -> key <> current_piece_mark_key ->
       ldb_Get (piece d' (PFile i)) key = ldb_Get (piece d (PFile i)) key) /\
    (forall key, key <> current_piece_mark_key ->
       ldb_Get (piece d' (PFile (oldest_db_no r))) key =
       if (k <? 2)%nat then ldb_Get (piece d (PFile (oldest_db_no r))) key else None) /\
    (archive_mode r = true -> forall key, key <> current_piece_mark_key ->
       (forall i, i <> new_archive_db_no r -> ldb_Get (piece d' (PArchive i)) key = ldb_Get (piece d (PArchive i)) key) /\
       ((2 <= k)%nat -> PArchive (new_archive_db_no r) ∈ pieces r' /\
          ldb_Get (piece d' (PArchive (new_archive_db_no r))) key = ldb_Get (piece d (PFile (oldest_db_no r))) key)) /\
    (k = 5%nat -> r' = snd (RotatingDb.rotate (d, r))).
Proof.
  intros Hok Hk. pose proof Hok as [Hn Hc (m & Hp & Har) _ _ _]. pose proof (new_archive_is d r m Hok Hp) as ->.
  assert (Ha : archive_mode r = true -> archives_are d m) by (intros E; by rewrite E in Har).
  destruct (rotateUpto_is d r k m Hok Hk Hp) as [-> Hrot]. destruct (rotated_from d r m k Hok Hk Ha) as [M1 M2 M3 M4 M5 M6].
  destruct (oldest_not_current d r Hok) as (_ & Hlt & _).
  destruct (open_ok (n_pieces r) (archive_mode r) (if (k <? 4)%nat then current_piece_file_no r else oldest_db_no r)
    (if (k <? 2)%nat then m else S m) _ Hn ltac:(destruct (k <? 4)%nat; lia) M1 M6) as (d' & r' & E & Hok' & Hs & Er).
  exists d', r'. split; [exact E|]. split; [done|]. split; [by rewrite Er|]. split_and!.
  - intros i key Hi Hkey. rewrite Hs by done. by apply M2.
  - intros key Hkey. rewrite Hs by done. by apply M3.
  - intros Har' key Hkey. split; [intros i Hi; rewrite Hs by done; by rewrite M4|]. intros Hk2. split; [|rewrite Hs by done; by rewrite M5].
    rewrite Er. cbn [pieces]. rewrite Har'. assert ((k <? 2)%nat = false) as -> by (apply Nat.ltb_ge; lia). apply elem_of_app. right.
    apply list_elem_of_fmap. exists m. split; [done|]. apply elem_of_seq. lia.
  - intros ->. rewrite Hrot, Er. cbn. destruct (archive_mode r); [done|]. by rewrite Har.
Qed.

(** ** Reading *)

Lemma lookupPieces_cons p ps k : lookupPieces (p :: ps) k =
  match ldb_Get p k with Some (x :: v) => x :: v | _ => lookupPieces ps k end.
Proof. cbn. unfold level_lookup. by destruct (ldb_Get p k) as [[]|]. Qed.
Lemma lookupPieces_ext ps qs k : Forall2 (fun p q => ldb_Get p k = ldb_Get q k) ps qs -> lookupPieces ps k = lookupPieces qs k.
Proof. induction 1 as [|p q ps qs E _ IH]; [done|]. by rewrite !lookupPieces_cons, E, IH. Qed.
Lemma rotation_NoDup n c : (c < n)%nat -> NoDup (rotation n c).
Proof.
  intros Hc. unfold rotation. apply NoDup_fmap_2_strong; [|apply NoDup_seq].
  intros i j Hi%elem_of_seq Hj%elem_of_seq E.
  assert (forall x, (x < n)%nat -> ((c + x) mod n = if c + x <? n then c + x else c + x - n)%nat) as Hmod.
  { intros x Hx. destruct (Nat.ltb_spec (c + x) n); [by apply Nat.mod_small|].
    replace (c + x)%nat with (c + x - n + 1 * n)%nat at 1 by lia. rewrite Nat.Div0.mod_add. apply Nat.mod_small. lia. }
  rewrite !Hmod in E by lia. destruct (Nat.ltb_spec (c + i) n), (Nat.ltb_spec (c + j) n); lia.
Qed.
Lemma pieces_NoDup d r : rot_ok d r -> NoDup (pieces r).
Proof.
  intros [Hn Hc (m & -> & _) _ _ _]. apply NoDup_app. split_and!.
  - apply NoDup_fmap_2; [by intros ? ? [=]|by apply rotation_NoDup].
  - intros p (i & -> & _)%list_elem_of_fmap (j & [=] & _)%list_elem_of_fmap.
  - apply NoDup_fmap_2; [by intros ? ? [=]|apply NoDup_seq].
Qed.
Lemma pieces_front d r : rot_ok d r -> exists rest, pieces r = PFile (current_piece_file_no r) :: rest.
Proof.
  intros [Hn Hc (m & -> & _) _ _ _]. unfold rotation. destruct (n_pieces r) as [|n]; [lia|]. eexists. cbn [seq map app].
  rewrite Nat.add_0_r, Nat.mod_small by done. reflexivity.
Qed.

Definition mr_ok m : Prop := rot_ok (rt_disk m) (rt_io m).
(** The pieces behind the current one. *)
Definition olderPieces m : list L := tail (openPieces m).
Lemma openPieces_front m : mr_ok m -> openPieces m = piece (rt_disk m) (currentPiece m) :: olderPieces m.
Proof. intros Hok. destruct (pieces_front _ _ Hok) as [rest E]. unfold olderPieces, openPieces, currentPiece. by rewrite E. Qed.
Lemma openPieces_on m f : mr_ok m ->
  map (piece (on_piece (currentPiece m) f (rt_disk m))) (pieces (rt_io m)) = f (piece (rt_disk m) (currentPiece m)) :: olderPieces m.
Proof.
  intros Hok. destruct (pieces_front _ _ Hok) as [rest E]. pose proof (pieces_NoDup _ _ Hok) as Hnd.
  unfold olderPieces, openPieces, currentPiece. rewrite E in *. cbn [nth map tail]. apply NoDup_cons in Hnd as [Hni _]. f_equal.
  - by rewrite piece_on, decide_True.
  - apply map_ext_in. intros p Hp%list_elem_of_In. rewrite piece_on, decide_False; [done|]. intros <-. done.
Qed.

Lemma kill_pieces k k' ps : forall d p,
  ldb_Get (piece (foldl (fun d p => on_piece p (fun l => ldb_Delete l k) d) d ps) p) k' =
  if decide (k = k' /\ p ∈ ps) then None else ldb_Get (piece d p) k'.
Proof.
  induction ps as [|q ps IH]; intros d p; cbn.
  - rewrite decide_False by (intros [_ ?%not_elem_of_nil]; done). done.
  - rewrite IH, piece_on. destruct (decide (q = p)) as [->|].
    + rewrite Get_Delete. repeat case_decide; set_solver.
    + repeat case_decide; set_solver.
Qed.
Lemma lookupPieces_none ps k : Forall (fun p => ldb_Get p k = None) ps -> lookupPieces ps k = [].
Proof. induction 1 as [|p ps E _ IH]; [done|]. by rewrite lookupPieces_cons, E. Qed.
Lemma mr_kill_lookup m k k' : mr_lookup (mr_kill m k) k' = if decide (k = k') then [] else mr_lookup m k'.
Proof.
  unfold mr_lookup, mr_kill, openPieces. cbn. case_decide as E.
  - subst k'. apply lookupPieces_none. apply Forall_forall. intros l (p & -> & Hp)%list_elem_of_fmap.
    by rewrite kill_pieces, decide_True.
  - apply lookupPieces_ext. apply Forall2_fmap_2, Forall_Forall2_diag, Forall_forall. intros p _.
    rewrite kill_pieces, decide_False; [done|]. by intros [].
Qed.

(** Reading goes through the pieces from the newest to the oldest.  An inserted value is read back
    when it is not empty, a killed key reads as missing whatever pieces had it, and other keys are
    not affected.  A batch is applied to the current piece only: what the batch leaves there is read
    if it is a value that is not empty; a key that the batch deletes reads as the newest of the older
    pieces has it, so that a batched deletion does not delete what an older piece holds. *)
Theorem rotating_reads m k k' v b : mr_ok m ->
  mr_lookup (mr_insert m k v) k' =
    (if decide (k = k') then match v with _ :: _ => v | [] => lookupPieces (olderPieces m) k end else mr_lookup m k') /\
  mr_lookup (mr_kill m k) k' = (if decide (k = k') then [] else mr_lookup m k') /\
  mr_lookup (mr_commit m b) k =
    match ops_effect (wb_ops b) k (ldb_Get (piece (rt_disk m) (currentPiece m)) k) with
    | Some (x :: w) => x :: w
    | _ => lookupPieces (olderPieces m) k
    end.
Proof.
  intros Hok. split_and!.
  - unfold mr_lookup, mr_insert, openPieces at 1. cbn. rewrite openPieces_on by done.
    rewrite (openPieces_front m Hok), !lookupPieces_cons, Get_Put. case_decide as E; [subst k'; by destruct v|done].
  - apply mr_kill_lookup.
  - unfold mr_lookup, mr_commit, openPieces at 1. cbn. rewrite openPieces_on by done. by rewrite lookupPieces_cons, Get_Write.
Qed.

(** A rotation forgets the oldest piece and nothing else.  It needs that no batch is open.
    Afterwards a key other than the mark is read from the pieces without the oldest one; in archive
    mode the oldest one comes last, behind the archives that are older than it. *)
Theorem rotation_forgets_oldest m : mr_ok m -> rt_batches m = ∅ ->
  exists m', mr_rotate m = Some m' /\ mr_ok m' /\ forall k, k <> current_piece_mark_key ->
    let n := n_pieces (rt_io m) in
    let ps := openPieces m in
    mr_lookup m' k = lookupPieces (take (n - 1) ps ++ drop n ps ++
      (if archive_mode (rt_io m) then take 1 (drop (n - 1) ps) else [])) k.
Proof.
  intros Hok Hb. unfold mr_rotate. rewrite decide_True by done. pose proof (rotate_ok _ _ Hok) as Hok'.
  destruct (RotatingDb.rotate (rt_disk m, rt_io m)) as [d' r'] eqn:E. eexists. split; [done|]. split; [exact Hok'|].
  intros k Hk. set (ps := openPieces m). set (d := rt_disk m) in *. set (r := rt_io m) in *. set (n := n_pieces r).
  pose proof Hok as [Hn Hc (j & Hp & Har) _ _ _]. fold d r in Hn, Hc, Hp, Har.
  assert (Ha : archive_mode r = true -> archives_are d j) by (intros Ea; by rewrite Ea in Har).
  destruct (rotateUpto_is d r 5 j Hok ltac:(lia) Hp) as [Hd Hr]. destruct (rotated_from d r j 5 Hok ltac:(lia) Ha) as [_ M2 M3 M4 M5 _].
  unfold RotatingDb.rotate in E, Hr. rewrite E in Hd, Hr. cbn [fst snd] in Hd, Hr. rewrite <- Hd in M2, M3, M4, M5.
  pose proof (oldest_previous d r Hok) as Ho.
  destruct (erased_pieces (n_pieces r) (current_piece_file_no r) (map PArchive (seq 0 j)) Hn Hc) as (mid & E1 & E2). rewrite <- Ho in E2.
  destruct (rotation_back (n_pieces r) (current_piece_file_no r) ltac:(lia) Hc) as (mid' & R1 & R2 & R3). rewrite <- Ho in R1, R3.
  assert (Hmid : forall i, PFile i ∈ PFile (current_piece_file_no r) :: map PFile mid -> i <> oldest_db_no r).
  { pose proof (rotation_NoDup (n_pieces r) (oldest_db_no r) (proj1 (proj2 (oldest_not_current d r Hok)))) as Hnd.
    rewrite R3 in Hnd, E2. apply NoDup_cons in Hnd as [Hni _]. injection E2 as E2'. rewrite E2'.
    intros i (i' & [= <-] & Hi)%list_elem_of_fmap ->. done. }
  assert (Hps : take (n - 1) ps ++ drop n ps = map (piece d) (PFile (current_piece_file_no r) :: map PFile mid ++ map PArchive (seq 0 j))).
  { unfold ps, openPieces, n. fold d r. by rewrite <- E1, <- Hp, map_app, firstn_map, skipn_map. }
  assert (Hlast : take 1 (drop (n - 1) ps) = [piece d (PFile (oldest_db_no r))]).
  { unfold ps, openPieces, n. fold d r. rewrite Hp, R1, !map_app, <- app_assoc.
    rewrite drop_app_length' by (rewrite !length_map; lia). done. }
  rewrite app_assoc, Hps, Hlast. unfold mr_lookup, openPieces. cbn [rt_disk rt_io]. rewrite Hr. cbn [pieces]. rewrite <- E2.
  rewrite <- app_comm_cons. cbn [map]. rewrite lookupPieces_cons, (M3 k Hk). cbn iota.
  change (piece d' (PFile (current_piece_file_no r)) :: map (piece d') ?l) with (map (piece d') (PFile (current_piece_file_no r) :: l)).
  set (front := PFile (current_piece_file_no r) :: map PFile mid) in *. apply lookupPieces_ext.
  assert (Hsame : Forall2 (fun p q => ldb_Get p k = ldb_Get q k) (map (piece d') (front ++ map PArchive (seq 0 j)))
    (map (piece d) (front ++ map PArchive (seq 0 j)))).
  { apply Forall2_fmap_2, Forall_Forall2_diag, Forall_forall. intros p [Hpf|(i & -> & Hi%elem_of_seq)%list_elem_of_fmap]%elem_of_app.
    - destruct p as [i|i]; [by apply M2; [apply Hmid|]|]. unfold front in Hpf.
      apply elem_of_cons in Hpf as [[=]|(? & [=] & _)%list_elem_of_fmap].
    - by rewrite M4 by lia. }
  destruct (archive_mode r) eqn:Em; [|rewrite app_nil_r; exact Hsame].
  rewrite seq_S, (map_app PArchive), (app_assoc front), (map_app (piece d')). apply Forall2_app; [exact Hsame|]. constructor; [|constructor].
  cbn. by rewrite M5 by (done || lia).
Qed.

(** Iteration does not stop when it is told to.  The callback's answer ends the loop over one
    piece only: a callback that always answers "stop" is called once for every piece that has an
    entry, where the interface says that forEach must return immediately. *)
Theorem rotating_iteration_goes_on m (n : nat) :
  mr_forEach m (fun _ _ n => (S n, false)) n = (n + length (filter (fun p => ldb_entries p <> []) (openPieces m)))%nat.
Proof.
  unfold mr_forEach. generalize (openPieces m). intros ps. revert n. induction ps as [|p ps IH]; intros n; [cbn; lia|].
  cbn [foldl]. rewrite IH, filter_cons. unfold level_forEach. destruct (ldb_entries p) as [|[k v] es] eqn:E.
  - rewrite decide_False by tauto. done.
  - rewrite decide_True by done. cbn. lia.
Qed.
End RotatingClaims.

(** ** Witnesses: three pieces in archive mode *)

Module RotatingExample.
Import MapLevelDB.
Definition disk : Disk (gmap Slice Slice) :=
  <[PFile 0 := <[current_piece_mark_key := []]> {[ [1] := [10] ]}]>
    (<[PFile 1 := {[ [1] := [20]; [2] := [21] ]}]> {[ PFile 2 := {[ [3] := [30] ]} ]}).
Definition io : rotating_db_io := mkRotating [PFile 0; PFile 1; PFile 2] 0 3 true.
Definition db : RotatingDB (gmap Slice Slice) := mkRotatingDB disk io ∅ 0.
Lemma io_ok : rot_ok disk io.
Proof.
  split; cbn [n_pieces current_piece_file_no pieces archive_mode io]; [lia|lia|..].
  - exists 0%nat. split; [done|]. intros i. unfold disk. rewrite !lookup_insert_ne, lookup_singleton_ne by done.
    split; [by intros []|lia].
  - intros i Hi. destruct i as [|[|[|i]]]; [eexists; reflexivity..|lia].
  - intros i Hi. destruct i as [|[|[|i]]]; [by intros _|intros Hm; exfalso; revert Hm; by vm_compute..|lia].
  - left. by vm_compute.
Qed.
End RotatingExample.
Import MapLevelDB.

(** The program stops with two marks; the value of the oldest piece is in the first archive. *)
Lemma rotation_survives_crash_witness : exists d' r',
  rotating_open 3 true (fst (rotateUpto 4 (RotatingExample.disk, RotatingExample.io))) = (d', r') /\ rot_ok d' r' /\
  current_piece_file_no r' = 2%nat /\ ldb_Get (piece d' (PFile 0)) [1] = Some [10] /\
  ldb_Get (piece d' (PArchive 0)) [3] = Some [30].
Proof.
  destruct (rotation_survives_crash RotatingExample.disk RotatingExample.io 4 RotatingExample.io_ok ltac:(lia))
    as (d' & r' & H1 & H2 & H3 & H4 & _ & H6 & _).
  exists d', r'. split_and!; [exact H1|exact H2|exact H3| |].
  - rewrite (H4 0%nat [1]); [by vm_compute|by vm_compute|by vm_compute].
  - destruct (H6 eq_refl [3] ltac:(by vm_compute)) as [_ H7].
    etransitivity; [exact (proj2 (H7 ltac:(lia)))|by vm_compute].
Defined.
(** A batch that deletes the key [1] uncovers the older value. *)
Lemma rotating_reads_witness :
  mr_lookup RotatingExample.db [1] = [10] /\ mr_lookup (mr_kill RotatingExample.db [1]) [1] = [] /\
  mr_lookup (mr_commit RotatingExample.db (mkBatch 0 [WDelete [1]])) [1] = [20].
Proof.
  destruct (rotating_reads RotatingExample.db [1] [1] [] (mkBatch 0 [WDelete [1]]) RotatingExample.io_ok) as (_ & H1 & H2).
  split; [by vm_compute|]. split; [rewrite H1; by vm_compute|rewrite H2; by vm_compute].
Defined.
Lemma rotation_forgets_oldest_witness : exists m', mr_rotate RotatingExample.db = Some m' /\ mr_ok m' /\
  mr_lookup m' [2] = [21] /\ mr_lookup m' [3] = [30].
Proof.
  destruct (rotation_forgets_oldest RotatingExample.db RotatingExample.io_ok eq_refl) as (m' & H1 & H2 & H3).
  exists m'. split_and!; [exact H1|exact H2|rewrite H3; by vm_compute|rewrite H3; by vm_compute].
Defined.
