(* ===== verification/ChainStore.v ===== *)
(** * ChainStore: what the block chain relies on in its database

    [BlockChain] keeps its blocks in a [batched_db] over a [ManuallyRotatingLevelDB].  [ChainStore] lists the
    operations it uses beyond those of [db_face] (rotation, the current piece, the number of pieces) and what a stop of
    the program leaves; [ChainStoreLaws] is what its theorems are proved from, and the instance at the end shows
    that the batched rotating database keeps these laws. *)

From Stdlib Require Import ZArith Lia Bool.
From stdpp Require Import base list gmap.
From S2P Require Import Prelude LevelDb BatchedDb RotatingDb RotatingDbInv RotatingDbClaims.
Open Scope Z_scope.
#[local] Opaque current_piece_mark_key.

Class ChainStore (B : Type) := {
  cs_face :: db_face B;
  cs_rotate : B -> option B;
  cs_piecesCount : B -> nat;
  cs_currentExists : B -> Slice -> bool;
  (** Stopping the program and opening the database again: between operations, and after some steps of a rotation. *)
  cs_restart : B -> B;
  cs_restartRotating : nat -> B -> B }.

(** [cs_view j b k] is what reading [k] gives when the [j] oldest pieces are passed over. *)
Class ChainStoreLaws (B : Type) `{ChainStore B} := {
  cs_valid : B -> Prop;
  cs_pending : B -> list WriteOp;
  (** No batch is open. *)
  cs_idle : B -> Prop;
  cs_view : nat -> B -> Slice -> Slice;
  cs_idle_pending b : cs_idle b -> cs_pending b = [];
  cs_pieces_3 b : cs_valid b -> (3 <= cs_piecesCount b)%nat;
  cs_lookup_view b k : cs_valid b -> cs_view 0 b k <> [] -> face_lookup b k = cs_view 0 b k;
  cs_view_mono j b k : cs_valid b -> cs_view (S j) b k <> [] -> cs_view j b k = cs_view (S j) b k;
  cs_law_exists b k : cs_valid b -> k <> current_piece_mark_key -> face_exists b k = bool_decide (face_lookup b k <> []);
  cs_law_insert b k v : cs_valid b -> k <> current_piece_mark_key -> v <> [] -> let b' := face_insert b k v in
    cs_valid b' /\ cs_pending b' = cs_pending b ++ [WPut k v] /\ cs_piecesCount b' = cs_piecesCount b /\
    (forall k', face_lookup b' k' = face_lookup b k') /\ (forall k', face_exists b' k' = face_exists b k') /\
    forall j k', cs_view j b' k' = cs_view j b k';
  cs_law_kill b k : cs_valid b -> k <> current_piece_mark_key -> let b' := face_kill b k in
    cs_valid b' /\ cs_pending b' = cs_pending b ++ [WDelete k] /\ cs_piecesCount b' = cs_piecesCount b /\
    (forall k', face_lookup b' k' = face_lookup b k') /\ (forall k', face_exists b' k' = face_exists b k') /\
    forall j k', cs_view j b' k' = cs_view j b k';
  cs_law_commit b : cs_valid b -> let b' := snd (face_commit true b) in
    cs_valid b' /\ cs_idle b' /\ cs_piecesCount b' = cs_piecesCount b /\
    (forall k, k ∉ map op_key (cs_pending b) -> face_lookup b' k = face_lookup b k /\ forall j, cs_view j b' k = cs_view j b k) /\
    forall k v j, (j < cs_piecesCount b)%nat -> v <> [] -> ops_effect (cs_pending b) k None = Some v -> cs_view j b' k = v;
  cs_law_revert b : cs_valid b -> let b' := face_revert b in
    cs_valid b' /\ cs_idle b' /\ cs_piecesCount b' = cs_piecesCount b /\ (forall k', face_lookup b' k' = face_lookup b k') /\
    forall j k', cs_view j b' k' = cs_view j b k';
  cs_law_rotate b : cs_valid b -> cs_idle b -> exists b', cs_rotate b = Some b' /\ cs_valid b' /\ cs_idle b' /\
    cs_piecesCount b' = cs_piecesCount b /\ forall k, k <> current_piece_mark_key ->
      (forall j, cs_view j b' k = cs_view (S j) b k) /\ (face_lookup b k = [] -> face_lookup b' k = []);
  cs_law_restart b : cs_valid b -> let b' := cs_restart b in
    cs_valid b' /\ cs_idle b' /\ cs_piecesCount b' = cs_piecesCount b /\
    (forall k, k <> current_piece_mark_key -> face_lookup b' k = face_lookup b k /\ forall j, cs_view j b' k = cs_view j b k);
  cs_law_restartRotating n b : cs_valid b -> cs_idle b -> (n <= 5)%nat -> let b' := cs_restartRotating n b in
    cs_valid b' /\ cs_idle b' /\ cs_piecesCount b' = cs_piecesCount b /\
    forall j k, k <> current_piece_mark_key -> cs_view (S j) b k <> [] -> cs_view j b' k = cs_view (S j) b k }.

(** ** Lists of pieces *)

Section Pieces.
Context {L : Type} `{LevelDBSpec L}.
Implicit Types (d : Disk L) (r : rotating_db_io) (m : RotatingDB L).

Lemma lookupPieces_app ps qs k : lookupPieces (ps ++ qs) k = match lookupPieces ps k with [] => lookupPieces qs k | v => v end.
Proof. induction ps as [|p ps IH]; [done|]. cbn [app]. rewrite !lookupPieces_cons, IH. by destruct (ldb_Get p k) as [[]|]. Qed.
Lemma lookupPieces_prefix ps qs k : ps `prefix_of` qs -> lookupPieces ps k <> [] -> lookupPieces qs k = lookupPieces ps k.
Proof. intros [rs ->] Hne. rewrite lookupPieces_app. by destruct (lookupPieces ps k). Qed.
Lemma lookupPieces_nil d ps k : lookupPieces (map (piece d) ps) k = [] <-> forall p, p ∈ ps -> forall v, ldb_Get (piece d p) k = Some v -> v = [].
Proof.
  induction ps as [|p ps IH]; [split; [intros _ p []%not_elem_of_nil|done]|]. cbn [map]. rewrite lookupPieces_cons. split.
  - destruct (ldb_Get (piece d p) k) as [[|x v]|] eqn:E; [|done|]; intros Hl; intros q [->|Hq]%elem_of_cons w Hw; try congruence; by eapply IH.
  - intros Hall. destruct (ldb_Get (piece d p) k) as [[|x v]|] eqn:E; [|by apply (Hall p ltac:(set_solver)) in E|]; apply IH; intros q Hq; apply Hall; set_solver.
Qed.
Lemma ops_effect_none ops k v x : ops_effect ops k None = Some v -> ops_effect ops k x = Some v.
Proof.
  induction ops as [|w ops IH] using rev_ind; [done|]. rewrite !ops_effect_app. destruct w as [k' v'|k']; simpl; case_decide; auto.
Qed.
Lemma ops_effect_untouched ops k x : k ∉ map op_key ops -> ops_effect ops k x = x.
Proof.
  induction ops as [|w ops IH] using rev_ind; [done|]. rewrite map_app, ops_effect_app. intros Hk.
  assert (Hw : op_key w <> k) by set_solver. destruct w as [k' v'|k']; simpl in *; rewrite decide_False by done; apply IH; set_solver.
Qed.

(** The pieces of files, newest first; [front] is what a rotation keeps of them. *)
Definition view (j : nat) m (k : Slice) : Slice := lookupPieces (take (n_pieces (rt_io m) - j) (openPieces m)) k.
Definition filled d r : Prop := forall p k, p ∈ pieces r -> k <> current_piece_mark_key -> ldb_Get (piece d p) k <> Some [].
Lemma file_pieces d r : rot_ok d r -> exists mid (m : nat), pieces r = (map PFile mid ++ [PFile (oldest_db_no r)]) ++ map PArchive (seq 0 m) /\
  length mid = (n_pieces r - 1)%nat /\ rotation (n_pieces r) (oldest_db_no r) = oldest_db_no r :: mid /\
  rotation (n_pieces r) (current_piece_file_no r) = mid ++ [oldest_db_no r] /\ (forall i, i ∈ mid -> i <> oldest_db_no r) /\
  if archive_mode r then archives_are d m else m = 0%nat.
Proof.
  intros Hok. pose proof Hok as [Hn Hc (m & Hp & Har) _ _ _].
  destruct (rotation_back (n_pieces r) (current_piece_file_no r) ltac:(lia) Hc) as (mid & E1 & El & E2).
  rewrite <- (oldest_previous d r Hok) in E1, E2. exists mid, m. split_and!; [|done..| |done].
  - by rewrite Hp, E1, map_app.
  - pose proof (rotation_NoDup _ (oldest_db_no r) (proj1 (proj2 (oldest_not_current d r Hok)))) as Hnd.
    rewrite E2 in Hnd. apply NoDup_cons in Hnd as [Hni _]. intros i Hi ->. done.
Qed.
Lemma take_view j (mid : list nat) (o : nat) (rest : list PieceName) n : length mid = (n - 1)%nat -> (0 < n)%nat ->
  take (n - S j) ((map PFile mid ++ [PFile o]) ++ rest) = take (n - S j) (map PFile mid).
Proof. intros Hl Hn. rewrite <- app_assoc, take_app_le; [done|]. rewrite length_map. lia. Qed.
Lemma lookupPieces_map_ext d d' ps k : (forall p, p ∈ ps -> ldb_Get (piece d' p) k = ldb_Get (piece d p) k) ->
  lookupPieces (map (piece d') ps) k = lookupPieces (map (piece d) ps) k.
Proof. intros E. apply lookupPieces_ext, Forall2_fmap_2, Forall_Forall2_diag, Forall_forall. exact E. Qed.
Lemma view_pieces j m k : view j m k = lookupPieces (map (piece (rt_disk m)) (take (n_pieces (rt_io m) - j) (pieces (rt_io m)))) k.
Proof. unfold view, openPieces. by rewrite firstn_map. Qed.
End Pieces.

(** ** The batched rotating database *)

Section Instance.
Context {L : Type} `{LevelDBSpec L}.
Abbreviation Store := (batched_db (RotatingDB L)).
Implicit Types b : Store.

Definition opened (n : nat) (archive : bool) (d : Disk L) : Store :=
  let '(d', r') := rotating_open n archive d in mkBatched (mkRotatingDB d' r' ∅ 0) None.
#[export] Instance rotating_store : ChainStore Store := {
  cs_face := batched_db_face;
  cs_rotate := fun b => (fun m => mkBatched m (bd_batch b)) <$> mr_rotate (bd_db b);
  cs_piecesCount := fun b => n_pieces (rt_io (bd_db b));
  cs_currentExists := fun b k => level_exists (piece (rt_disk (bd_db b)) (currentPiece (bd_db b))) k;
  cs_restart := fun b => let m := bd_db b in opened (n_pieces (rt_io m)) (archive_mode (rt_io m)) (rt_disk m);
  cs_restartRotating := fun k b => let m := bd_db b in
    opened (n_pieces (rt_io m)) (archive_mode (rt_io m)) (fst (rotateUpto k (rt_disk m, rt_io m))) }.

Definition batchOps b : list WriteOp := match bd_batch b with Some w => wb_ops w | None => [] end.
Definition op_fine (w : WriteOp) : Prop := op_key w <> current_piece_mark_key /\ match w with WPut _ v => v <> [] | WDelete _ => True end.
Record store_ok b : Prop := {
  so_rot : mr_ok (bd_db b);
  so_filled : filled (rt_disk (bd_db b)) (rt_io (bd_db b));
  so_batches : rt_batches (bd_db b) = match bd_batch b with Some w => {[wb_id w]} | None => ∅ end;
  so_ops : Forall op_fine (batchOps b) }.

Lemma ensure_is b w m : store_ok b -> ensure_batch b = (w, m) ->
  rt_disk m = rt_disk (bd_db b) /\ rt_io m = rt_io (bd_db b) /\ rt_batches m = {[wb_id w]} /\ wb_ops w = batchOps b.
Proof.
  intros [_ _ Hb _]. unfold ensure_batch, batchOps. destruct (bd_batch b) as [w'|]; [by intros [= <- <-]|].
  cbn. unfold mr_createWriteBatch. intros [= <- <-]. cbn. rewrite Hb. set_solver.
Qed.
Lemma view_same j m m' k : rt_disk m' = rt_disk m -> rt_io m' = rt_io m -> view j m' k = view j m k.
Proof. intros E1 E2. by rewrite !view_pieces, E1, E2. Qed.
(** Adding an operation to the batch. *)
Lemma add_ok b (f : WriteBatch -> WriteBatch) o b' : store_ok b -> op_fine o ->
  (forall w, wb_id (f w) = wb_id w /\ wb_ops (f w) = wb_ops w ++ [o]) ->
  b' = (let '(w, m) := ensure_batch b in mkBatched m (Some (f w))) ->
  store_ok b' /\ batchOps b' = batchOps b ++ [o] /\ rt_io (bd_db b') = rt_io (bd_db b) /\ rt_disk (bd_db b') = rt_disk (bd_db b).
Proof.
  intros Hok Ho Hf ->. destruct (ensure_batch b) as [w m] eqn:E. destruct (ensure_is b w m Hok E) as (E1 & E2 & E3 & E4).
  destruct (Hf w) as [F1 F2]. destruct Hok as [R1 R2 R3 R4]. split; [|by rewrite <- E4, <- F2].
  split; cbn [bd_db bd_batch]; unfold mr_ok, batchOps; cbn [bd_batch]; rewrite ?E1, ?E2, ?F1, ?F2; [done..|].
  rewrite E4. apply Forall_app. split; [done|]. by constructor.
Qed.

Lemma mr_exists_filled m k : filled (rt_disk m) (rt_io m) -> k <> current_piece_mark_key ->
  mr_exists m k = bool_decide (mr_lookup m k <> []).
Proof.
  intros Hf Hk. unfold mr_exists, mr_lookup, openPieces.
  assert (Hg : forall p, p ∈ pieces (rt_io m) -> ldb_Get (piece (rt_disk m) p) k <> Some []) by (intros; by apply Hf).
  clear Hf. induction (pieces (rt_io m)) as [|p ps IH]; [done|]. cbn [map existsb]. rewrite lookupPieces_cons.
  unfold level_exists at 1. pose proof (Hg p ltac:(set_solver)) as Hp. destruct (ldb_Get (piece (rt_disk m) p) k) as [[|x v]|]; [done| |].
  - by cbn.
  - cbn. apply IH. set_solver.
Qed.

Lemma marked_write p ops (d : Disk L) i : Forall op_fine ops -> marked (on_piece p (fun l => ldb_Write l ops) d) i = marked d i.
Proof.
  intros Hops. rewrite !marked_Get, piece_on. case_decide as Ep; [|done]. rewrite Get_Write, Ep, ops_effect_untouched; [done|].
  intros (o & Eo & Ho)%list_elem_of_fmap. apply (Forall_forall op_fine ops) in Ho as [Ho _]; done.
Qed.
(** A commit writes the batch to the current piece. *)
Lemma commit_ok b : store_ok b -> let b' := snd (bd_commit true b) in
  store_ok b' /\ bd_batch b' = None /\ rt_io (bd_db b') = rt_io (bd_db b) /\
  forall k, ldb_Get (piece (rt_disk (bd_db b')) (currentPiece (bd_db b))) k =
              ops_effect (batchOps b) k (ldb_Get (piece (rt_disk (bd_db b)) (currentPiece (bd_db b))) k) /\
            forall p, p <> currentPiece (bd_db b) -> piece (rt_disk (bd_db b')) p = piece (rt_disk (bd_db b)) p.
Proof.
  intros Hok. unfold bd_commit. destruct (ensure_batch b) as [w m] eqn:E. destruct (ensure_is b w m Hok E) as (E1 & E2 & E3 & E4).
  cbn [snd db_commit RotatingDB_face bd_db]. unfold mr_commit, currentPiece. rewrite E1, E2, E4.
  destruct Hok as [R1 R2 R3 R4]. split; [|split; [done|split; [done|]]].
  - split; unfold mr_ok; cbn [bd_db bd_batch rt_disk rt_io rt_batches].
    + destruct (pieces_front _ _ R1) as [rest Hfr]. destruct R1 as [S1 S2 S3 S4 S5 S6]. split; cbn; [done|done| | | |].
      * destruct S3 as (j & Hp & Ha). exists j. split; [done|]. destruct (archive_mode _); [|done]. intros i. rewrite <- (Ha i).
        rewrite Hfr. cbn [nth]. apply on_file_archives.
      * intros i Hi. apply on_piece_is_Some. by apply S4.
      * intros i Hi. rewrite marked_write by done. by apply S5.
      * by rewrite marked_write.
    + intros p k Hp Hk. rewrite piece_on. case_decide as Ep; [|by apply R2]. rewrite Get_Write. subst p. specialize (R2 _ k Hp Hk).
      revert R4 R2. generalize (ldb_Get (piece (rt_disk (bd_db b)) (nth 0 (pieces (rt_io (bd_db b))) (PFile 0))) k) as x. clear.
      intros x Hops Hx. induction (batchOps b) as [|o ops IH] using rev_ind; [done|]. apply Forall_app in Hops as [Hops Ho].
      rewrite ops_effect_app. apply Forall_singleton in Ho as [_ Ho]. destruct o as [k' v|k']; simpl; case_decide; auto. by intros [=].
    + rewrite E3. set_solver.
    + constructor.
  - cbn [bd_db rt_disk]. intros k. split; [by rewrite piece_on, decide_True, Get_Write by done|]. intros p Hp. by rewrite piece_on, decide_False.
Qed.

(** What a rotation, or a stop during one, leaves of the pieces. *)
Lemma rotated_view d r k : rot_ok d r -> filled d r -> (k <= 5)%nat -> exists d' r',
  rotating_open (n_pieces r) (archive_mode r) (fst (rotateUpto k (d, r))) = (d', r') /\ rot_ok d' r' /\ filled d' r' /\ n_pieces r' = n_pieces r /\
  forall j key, key <> current_piece_mark_key ->
    lookupPieces (map (piece d) (take (n_pieces r - S j) (pieces r))) key <> [] ->
    lookupPieces (map (piece d') (take (n_pieces r - j) (pieces r'))) key = lookupPieces (map (piece d) (take (n_pieces r - S j) (pieces r))) key.
Proof.
  intros Hok Hf Hk. destruct (file_pieces d r Hok) as (mid & m & Hp & Hl & R1 & R2 & Hmid & Har). pose proof Hok as [Hn Hc _ _ _ _].
  assert (Ha : archive_mode r = true -> archives_are d m) by (intros E; by rewrite E in Har).
  assert (Hp' : pieces r = map PFile (rotation (n_pieces r) (current_piece_file_no r)) ++ map PArchive (seq 0 m)) by (by rewrite Hp, R2, map_app).
  destruct (rotateUpto_is d r k m Hok Hk Hp') as [-> _]. destruct (rotated_from d r m k Hok Hk Ha) as [M1 M2 M3 M4 M5 M6].
  destruct (oldest_not_current d r Hok) as (_ & Hlt & _).
  destruct (open_ok (n_pieces r) (archive_mode r) (if (k <? 4)%nat then current_piece_file_no r else oldest_db_no r)
    (if (k <? 2)%nat then m else S m) _ Hn ltac:(destruct (k <? 4)%nat; lia) M1 M6) as (d' & r' & E & Hok' & Hs & Er).
  exists d', r'. split; [exact E|]. split; [done|].
  assert (Hfiles : forall i key, key <> current_piece_mark_key -> i <> oldest_db_no r -> ldb_Get (piece d' (PFile i)) key = ldb_Get (piece d (PFile i)) key)
    by (intros i key Hkey Hi; by rewrite Hs, M2).
  assert (Hold : forall key, key <> current_piece_mark_key ->
    ldb_Get (piece d' (PFile (oldest_db_no r))) key = if (k <? 2)%nat then ldb_Get (piece d (PFile (oldest_db_no r))) key else None)
    by (intros key Hkey; by rewrite Hs, M3).
  assert (Hin : forall p, p ∈ pieces r' -> (exists i, p = PFile i /\ i ∈ mid) \/ p = PFile (oldest_db_no r) \/
    exists i, p = PArchive i /\ archive_mode r = true /\ (i < if (k <? 2)%nat then m else S m)%nat).
  { intros p. rewrite Er. cbn [pieces]. intros [(i & -> & Hi)%list_elem_of_fmap|(i & -> & Hi%elem_of_seq)%list_elem_of_fmap]%elem_of_app.
    - destruct (k <? 4)%nat; [rewrite R2 in Hi|rewrite R1 in Hi]; set_solver.
    - right; right. destruct (archive_mode r); [|lia]. exists i. split_and!; [done|done|lia]. }
  split; [|split; [by rewrite Er|]].
  - intros p key Hpin Hkey. destruct (Hin p Hpin) as [(i & -> & Hi)|[->|(i & -> & Em & Hi)]].
    + rewrite Hfiles by auto. apply Hf; [|done]. rewrite Hp. set_solver.
    + rewrite Hold by done. destruct (k <? 2)%nat; [|done]. apply Hf; [|done]. rewrite Hp. set_solver.
    + rewrite Hs by done. destruct (decide (i = m)) as [->|].
      * destruct (Nat.ltb_spec k 2); [lia|]. rewrite M5 by (done || lia). apply Hf; [|done]. rewrite Hp. set_solver.
      * rewrite M4 by done. apply Hf; [|done]. rewrite Hp. apply elem_of_app. right. apply list_elem_of_fmap. exists i. split; [done|].
        apply elem_of_seq. destruct (k <? 2)%nat; lia.
  - intros j key Hkey. rewrite Hp, take_view by lia. set (X := take _ (map PFile mid)).
    assert (Hx : lookupPieces (map (piece d') X) key = lookupPieces (map (piece d) X) key).
    { apply lookupPieces_map_ext. intros p Hpin. assert (exists i, p = PFile i /\ i ∈ mid) as (i & -> & Hi); [|by apply Hfiles; auto].
      apply elem_of_take in Hpin as (x & Hx & _). apply list_elem_of_lookup_2, list_elem_of_fmap in Hx as (i & -> & ?). eauto. }
    rewrite <- Hx. intros Hne. subst X. rewrite Er. cbn [pieces]. destruct (n_pieces r - j)%nat as [|q] eqn:Eq.
    { exfalso. apply Hne. replace (n_pieces r - S j)%nat with 0%nat by lia. done. }
    replace (n_pieces r - S j)%nat with q in * by lia. assert (Hq : (q <= length (map PFile mid))%nat) by (rewrite length_map; lia).
    destruct (k <? 4)%nat eqn:E4.
    + apply lookupPieces_prefix; [|done]. rewrite R2, map_app, <- app_assoc. set (rest := map PFile [_] ++ _).
      exists (map (piece d') (drop q (take (S q) (map PFile mid ++ rest)))). rewrite <- map_app. f_equal.
      rewrite <- (take_app_le (map PFile mid) rest q) by done. rewrite <- (take_drop q (take (S q) (map PFile mid ++ rest))) at 1.
      by rewrite take_take, Nat.min_l by lia.
    + apply Nat.ltb_ge in E4. rewrite R1. cbn [map app take]. rewrite lookupPieces_cons, Hold by done.
      destruct (Nat.ltb_spec k 2); [lia|]. by rewrite take_app_le.
Qed.
Lemma rotate_view d r : rot_ok d r -> filled d r -> let d' := fst (RotatingDb.rotate (d, r)) in let r' := snd (RotatingDb.rotate (d, r)) in
  rot_ok d' r' /\ filled d' r' /\ n_pieces r' = n_pieces r /\
  forall j key, key <> current_piece_mark_key ->
    lookupPieces (map (piece d') (take (n_pieces r - j) (pieces r'))) key = lookupPieces (map (piece d) (take (n_pieces r - S j) (pieces r))) key /\
    (lookupPieces (map (piece d) (pieces r)) key = [] -> lookupPieces (map (piece d') (pieces r')) key = []).
Proof.
  intros Hok Hf d' r'. split; [by apply rotate_ok|]. destruct (file_pieces d r Hok) as (mid & m & Hp & Hl & R1 & R2 & Hmid & Har).
  pose proof Hok as [Hn Hc _ _ _ _]. assert (Ha : archive_mode r = true -> archives_are d m) by (intros E; by rewrite E in Har).
  assert (Hp' : pieces r = map PFile (rotation (n_pieces r) (current_piece_file_no r)) ++ map PArchive (seq 0 m)) by (by rewrite Hp, R2, map_app).
  destruct (rotateUpto_is d r 5 m Hok ltac:(lia) Hp') as [Hd Hr]. destruct (rotated_from d r m 5 Hok ltac:(lia) Ha) as [_ M2 M3 M4 M5 _].
  change (fst (rotateUpto 5 (d, r))) with d' in Hd. change (snd (RotatingDb.rotate (d, r))) with r' in Hr. rewrite <- Hd in M2, M3, M4, M5.
  assert (Hpr : pieces r' = PFile (oldest_db_no r) :: map PFile mid ++ map PArchive (seq 0 (if archive_mode r then S m else m))) by (by rewrite Hr, R1).
  split_and!; [|by rewrite Hr|].
  - intros p key Hpin Hkey. rewrite Hpr in Hpin. apply elem_of_cons in Hpin as [->|[(i & -> & Hi)%list_elem_of_fmap|
      (i & -> & Hi%elem_of_seq)%list_elem_of_fmap]%elem_of_app].
    + by rewrite M3.
    + rewrite M2 by auto. apply Hf; [rewrite Hp; set_solver|done].
    + destruct (decide (i = m)) as [->|].
      * destruct (archive_mode r); [|lia]. rewrite M5 by (done || lia). apply Hf; [rewrite Hp; set_solver|done].
      * rewrite M4 by done. apply Hf; [|done]. rewrite Hp. apply elem_of_app. right. apply list_elem_of_fmap. exists i. split; [done|].
        apply elem_of_seq. destruct (archive_mode r); lia.
  - intros j key Hkey. split; [|].
    2:{ rewrite !lookupPieces_nil, Hpr, Hp. intros Hn' p [->|[(i & -> & Hi)%list_elem_of_fmap|(i & -> & Hi%elem_of_seq)%list_elem_of_fmap]%elem_of_app]%elem_of_cons v.
        - by rewrite M3.
        - rewrite M2 by auto. apply Hn'. set_solver.
        - destruct (decide (i = m)) as [->|].
          + destruct (archive_mode r); [|lia]. rewrite M5 by (done || lia). apply Hn'. set_solver.
          + rewrite M4 by done. apply Hn'. apply elem_of_app. right. apply list_elem_of_fmap. exists i. split; [done|].
            apply elem_of_seq. destruct (archive_mode r); lia. }
    rewrite Hp, take_view by lia. rewrite Hpr. destruct (n_pieces r - j)%nat as [|q] eqn:Eq.
    { by replace (n_pieces r - S j)%nat with 0%nat by lia. }
    replace (n_pieces r - S j)%nat with q in * by lia. cbn [take map]. rewrite lookupPieces_cons, M3 by done. cbn iota.
    rewrite take_app_le by (rewrite length_map; lia). apply lookupPieces_map_ext. intros p Hpin.
    apply elem_of_take in Hpin as (x & Hx & _). apply list_elem_of_lookup_2, list_elem_of_fmap in Hx as (i & -> & ?). apply M2; auto.
Qed.
Lemma restart_view d r : rot_ok d r -> exists d', rotating_open (n_pieces r) (archive_mode r) d = (d', r) /\ rot_ok d' r /\ same_data d d'.
Proof.
  intros Hok. pose proof Hok as [Hn Hc (m & Hp & Har) _ _ _].
  destruct (open_ok (n_pieces r) (archive_mode r) (current_piece_file_no r) m d Hn Hc (rot_ok_marks d r Hok)) as (d' & r' & E & Hok' & Hs & Er).
  { intros Em. by rewrite Em in Har. }
  assert (r' = r) as ->; [|by exists d']. rewrite Er. destruct r as [ps c n a]. cbn in *. f_equal. rewrite Hp. by destruct a; [|rewrite Har].
Qed.

Lemma batch_kept b b' : rt_io (bd_db b') = rt_io (bd_db b) -> rt_disk (bd_db b') = rt_disk (bd_db b) ->
  (forall k', mr_lookup (bd_db b') k' = mr_lookup (bd_db b) k') /\ (forall k', mr_exists (bd_db b') k' = mr_exists (bd_db b) k') /\
  forall j k', view j (bd_db b') k' = view j (bd_db b) k'.
Proof. intros E1 E2. unfold mr_lookup, mr_exists, view, openPieces. by rewrite E1, E2. Qed.

#[export] Program Instance rotating_store_laws : ChainStoreLaws Store := {
  cs_valid := store_ok;
  cs_pending := batchOps;
  cs_idle := fun b => bd_batch b = None;
  cs_view := fun j b => view j (bd_db b) }.
Next Obligation. intros b E. unfold batchOps. by rewrite E. Qed.
Next Obligation. intros b [R1 _ _ _]. apply R1. Qed.
Next Obligation.
  intros b k _ Hne. cbn. unfold mr_lookup, view in *. apply lookupPieces_prefix; [|done]. rewrite Nat.sub_0_r in *.
  exists (drop (n_pieces (rt_io (bd_db b))) (openPieces (bd_db b))). by rewrite take_drop.
Qed.
Next Obligation.
  intros j b k _ Hne. unfold view in *. apply lookupPieces_prefix; [|done]. set (n := n_pieces (rt_io (bd_db b))) in *.
  exists (drop (n - S j) (take (n - j) (openPieces (bd_db b)))). rewrite <- (take_drop (n - S j) (take (n - j) _)) at 1.
  by rewrite take_take, Nat.min_l by lia.
Qed.
Next Obligation. intros b k [_ Hf _ _] Hk. cbn. by apply mr_exists_filled. Qed.
Next Obligation.
  intros b k v Hok Hk Hv. destruct (add_ok b (fun w => wb_add w (WPut k v)) (WPut k v) (bd_insert b k v) Hok) as (H1 & H2 & H3 & H4);
    [by split|by intros|done|]. destruct (batch_kept b _ H3 H4) as (H5 & H6 & H7). cbn. by rewrite H3.
Qed.
Next Obligation.
  intros b k Hok Hk. destruct (add_ok b (fun w => wb_add w (WDelete k)) (WDelete k) (bd_kill b k) Hok) as (H1 & H2 & H3 & H4);
    [by split|by intros|done|]. destruct (batch_kept b _ H3 H4) as (H5 & H6 & H7). cbn. by rewrite H3.
Qed.
Next Obligation.
  intros b Hok. destruct (commit_ok b Hok) as (H1 & H2 & H3 & H4). cbn [face_commit cs_face rotating_store batched_db_face].
  set (b' := snd (bd_commit true b)) in *. split; [done|]. split; [done|]. split; [cbn; by rewrite H3|]. split.
  - intros k Hk. assert (Hg : forall p, ldb_Get (piece (rt_disk (bd_db b')) p) k = ldb_Get (piece (rt_disk (bd_db b)) p) k).
    { intros p. destruct (H4 k) as [E1 E2]. destruct (decide (p = currentPiece (bd_db b))) as [->|Hp]; [|by rewrite E2].
      by rewrite E1, ops_effect_untouched. }
    split; [|intros j]; cbn; unfold mr_lookup, view, openPieces; rewrite H3, ?firstn_map; by apply lookupPieces_map_ext.
  - intros k v j Hj Hv E. destruct Hok as [R1 _ _ _]. destruct (pieces_front _ _ R1) as [rest Hfr]. destruct (H4 k) as [E1 _].
    rewrite view_pieces. rewrite H3. cbn in Hj. destruct (n_pieces (rt_io (bd_db b)) - j)%nat as [|q] eqn:Eq; [lia|].
    unfold currentPiece in E1. rewrite Hfr in *. cbn [nth take map] in *. rewrite lookupPieces_cons, E1.
    rewrite (ops_effect_none _ _ v) by done. by destruct v.
Qed.
Next Obligation.
  intros b [R1 R2 R3 R4]. cbn. unfold batchOps. cbn. split; [|by split_and!].
  split; cbn; [done|done|done|constructor].
Qed.
Next Obligation.
  intros b [R1 R2 R3 R4] Hi. cbn. unfold mr_rotate. rewrite Hi in R3. rewrite decide_True by done.
  destruct (rotate_view _ _ R1 R2) as (H1 & H2 & H3 & H4). destruct (RotatingDb.rotate _) as [d' r'] eqn:E. cbn [fst snd] in *.
  eexists. split; [done|]. cbn. split; [|split; [done|split; [done|]]].
  - split; cbn; [done|done|by rewrite Hi|]. unfold batchOps. cbn. rewrite Hi. constructor.
  - intros k Hk. split; [intros j; rewrite !view_pieces; cbn; rewrite H3; by apply H4|]. exact (proj2 (H4 0%nat k Hk)).
Qed.
Next Obligation.
  intros b [R1 R2 R3 R4]. destruct (restart_view _ _ R1) as (d' & E & Hok & Hs). cbn [cs_restart cs_restartRotating rotating_store]. unfold opened. rewrite E. cbn.
  split; [|split; [done|split; [done|]]].
  - split; cbn; [done| |done|constructor]. intros p k Hp Hk. rewrite Hs by done. by apply R2.
  - intros k Hk. split; [|intros j]; unfold mr_lookup, view, openPieces; cbn; rewrite ?firstn_map; apply lookupPieces_map_ext; intros p _; by apply Hs.
Qed.
Next Obligation.
  intros n b [R1 R2 R3 R4] Hi Hn. destruct (rotated_view _ _ n R1 R2 Hn) as (d' & r' & E & Hok & Hf & Hc & Hv). cbn [cs_restart cs_restartRotating rotating_store]. unfold opened. rewrite E. cbn.
  split; [|split; [done|split; [done|]]].
  - split; cbn; [done|done|done|constructor].
  - intros j k Hk Hne. rewrite view_pieces in Hne |- *. rewrite view_pieces. cbn. rewrite Hc. by apply Hv.
Qed.
End Instance.
