(* ===== verification/LogFilter.v ===== *)
(** * LogFilter: log entries, their bloom filters and filters on logs

    The bloom operations of libdevcore/FixedHash.h, libethcore/LogEntry.h and LogEntry.cpp,
    libethereum/LogFilter.h and LogFilter.cpp.  A [LogBloom] is its 256 bytes.  Addresses and topics
    are integers whose big-endian bytes are hashed; the hash function is a parameter.  Reading past
    the topics of an entry is the outcome [None]. *)

From Stdlib Require Import ZArith Lia Bool.
From stdpp Require Import base list.
From S2P Require Import Prelude CommonData ExtVMFace.
Open Scope Z_scope.

Abbreviation LogBloom := (list Z).
Definition emptyBloom : LogBloom := replicate 256 0.

(** [index] of the part number [i]: two bytes of the hash, 11 bits. *)
Definition bloomIndex (h : list Z) (i : nat) : Z :=
  Z.land (Z.lor (Z.shiftl (nthZ h (2 * Z.of_nat i)) 8) (nthZ h (2 * Z.of_nat i + 1))) 2047.
Definition setBit (b : LogBloom) (index : Z) : LogBloom :=
  alter (fun x => Z.lor x (Z.shiftl 1 (index mod 8))) (Z.to_nat (256 - 1 - index / 8)) b.
(** [bloomPart< 3, 256 >]. *)
Definition bloomPart (h : list Z) : LogBloom :=
  foldl (fun ret i => setBit ret (bloomIndex h i)) emptyBloom [0; 1; 2]%nat.
Definition orBloom (a b : LogBloom) : LogBloom := zip_with Z.lor a b.
Definition contains (a b : LogBloom) : bool := bool_decide (zip_with Z.land a b = b).
Definition shiftBloom (b : LogBloom) (h : list Z) : LogBloom := orBloom b (bloomPart h).
Definition containsBloom (b : LogBloom) (h : list Z) : bool := contains b (bloomPart h).

(** [LogEntry] is the record the machine appends to its sub-state. *)
#[export] Instance LogEntry_eq_dec : EqDecision LogEntry.
Proof. solve_decision. Defined.

(** The array of topics has four members. *)
Record LogFilter := mkLogFilter { m_addresses : list Z; m_topics : list (list Z); m_earliest : Z; m_latest : Z }.

Section LogFilter.
Context (sha3 : list Z -> Z).

Definition hashAddress (a : Z) : list Z := toBigEndian 32 (sha3 (toBigEndian 20 a)).
Definition hashTopic (t : Z) : list Z := toBigEndian 32 (sha3 (toBigEndian 32 t)).

Definition entryBloom (e : LogEntry) : LogBloom :=
  foldl (fun ret t => shiftBloom ret (hashTopic t)) (shiftBloom emptyBloom (hashAddress (log_address e))) (log_topics e).
(** [eth::bloom] of a sequence of entries. *)
Definition logsBloom (l : list LogEntry) : LogBloom := foldl (fun ret e => orBloom ret (entryBloom e)) emptyBloom l.

(** ** The filter *)

Definition isRangeFilter (f : LogFilter) : bool :=
  bool_decide (m_addresses f = []) && forallb (fun t => bool_decide (t = [])) (m_topics f).

Definition matchesBloom (f : LogFilter) (b : LogBloom) : bool :=
  (match m_addresses f with [] => true | _ => existsb (fun a => containsBloom b (hashAddress a)) (m_addresses f) end) &&
  forallb (fun t => match t with [] => true | _ => existsb (fun i => containsBloom b (hashTopic i)) t end) (m_topics f).

(** The test of topic [i] in [matches]; [e.topics[i]] is read when there are at least [i] topics. *)
Definition topicGood (f : LogFilter) (e : LogEntry) (i : nat) : option bool :=
  match nth i (m_topics f) [] with
  | [] => Some true
  | t => if (length (log_topics e) <? i)%nat then Some false
         else match log_topics e !! i with
              | Some x => Some (bool_decide (x ∈ t))
              | None => None
              end
  end.
Fixpoint topicsGood (f : LogFilter) (e : LogEntry) (js : list nat) : option bool :=
  match js with
  | [] => Some true
  | i :: js' => match topicGood f e i with
                | Some true => topicsGood f e js'
                | r => r
                end
  end.
Definition entryGood (f : LogFilter) (e : LogEntry) : option bool :=
  if negb (bool_decide (m_addresses f = [])) && negb (bool_decide (log_address e ∈ m_addresses f)) then Some false
  else topicsGood f e [0; 1; 2; 3]%nat.
Fixpoint keepGood (f : LogFilter) (l : list LogEntry) : option (list LogEntry) :=
  match l with
  | [] => Some []
  | e :: l' => match entryGood f e with
               | None => None
               | Some b => match keepGood f l' with
                           | None => None
                           | Some r => Some (if b then e :: r else r)
                           end
               end
  end.
(** [matches( TransactionReceipt )] on the receipt's bloom and log. *)
Definition matches (f : LogFilter) (bloom : LogBloom) (log : list LogEntry) : option (list LogEntry) :=
  if isRangeFilter f then Some log
  else if matchesBloom f bloom then keepGood f log else Some [].

(** ** [bloomPossibilities] *)

(** The size of each dimension of [iter]. *)
Definition dimensions (f : LogFilter) : list nat := length (m_addresses f) :: map (@length Z) (m_topics f).
(** [inc_iter], from the last position to the first: the new counters, or [None] on overflow. *)
Fixpoint inc_rev (dims iter : list nat) : option (list nat) :=
  match dims, iter with
  | n :: dims', x :: iter' =>
      if (n =? 0)%nat then option_map (cons x) (inc_rev dims' iter')
      else if (S x =? n)%nat then option_map (cons 0%nat) (inc_rev dims' iter')
      else Some (S x :: iter')
  | _, _ => None
  end.
Definition inc_iter (dims iter : list nat) : option (list nat) := option_map (@rev nat) (inc_rev (rev dims) (rev iter)).
Definition possibility (f : LogFilter) (iter : list nat) : LogBloom :=
  foldl (fun b '(t, x) => match t with [] => b | _ => shiftBloom b (hashTopic (nth x t 0)) end)
    (match m_addresses f with [] => emptyBloom | _ => shiftBloom emptyBloom (hashAddress (nth (hd 0%nat iter) (m_addresses f) 0)) end)
    (zip (m_topics f) (tl iter)).
Fixpoint possibilities (fuel : nat) (f : LogFilter) (iter : list nat) : option (list LogBloom) :=
  match fuel with
  | O => None
  | S n =>
      let b := possibility f iter in
      let here := if bool_decide (b = emptyBloom) then [] else [b] in
      match inc_iter (dimensions f) iter with
      | None => Some here
      | Some iter' => option_map (app here) (possibilities n f iter')
      end
  end.
(** The number of combinations bounds the number of turns. *)
Definition combinations (dims : list nat) : nat := foldr (fun n p => (Nat.max 1 n * p)%nat) 1%nat dims.
Definition bloomPossibilities (f : LogFilter) : option (list LogBloom) :=
  possibilities (combinations (dimensions f)) f (replicate (S (length (m_topics f))) 0%nat).
End LogFilter.

(** ** Bloom filters as sets of bits *)

(** [b] is part of [a]. *)
Definition bloom_le (b a : LogBloom) : Prop := Forall2 (fun y x => Z.land x y = y) b a.
Lemma land_trans x y z : Z.land x y = y -> Z.land y z = z -> Z.land x z = z.
Proof. intros E1 E2. rewrite <- E2, Z.land_assoc, E1. done. Qed.
Lemma land_lor_l x y z : Z.land x y = y -> Z.land (Z.lor x z) y = y.
Proof.
  intros E. apply Z.bits_inj'. intros n Hn. apply (f_equal (fun v => Z.testbit v n)) in E. rewrite Z.land_spec in *.
  rewrite Z.lor_spec. destruct (Z.testbit x n), (Z.testbit y n), (Z.testbit z n); done.
Qed.
Lemma land_lor_self x z : Z.land (Z.lor x z) z = z.
Proof. rewrite Z.land_lor_distr_l, Z.land_diag. apply Z.bits_inj'. intros n Hn. rewrite Z.lor_spec, Z.land_spec.
  destruct (Z.testbit x n), (Z.testbit z n); done. Qed.
Lemma land_lor_both x y z : Z.land x y = y -> Z.land x z = z -> Z.land x (Z.lor y z) = Z.lor y z.
Proof. intros E1 E2. rewrite Z.land_lor_distr_r, E1, E2. done. Qed.

#[export] Instance bloom_le_trans : Transitive bloom_le.
Proof.
  intros a b c H1. revert c. unfold bloom_le in *. induction H1; intros c H2; inversion H2; subst; constructor; auto.
  eapply land_trans; eauto.
Qed.
#[export] Instance bloom_le_refl : Reflexive bloom_le.
Proof. intros a. unfold bloom_le. induction a; constructor; auto. apply Z.land_diag. Qed.
Lemma bloom_le_length b a : bloom_le b a -> length b = length a.
Proof. apply Forall2_length. Qed.
Lemma contains_le a b : length b = length a -> contains a b = true <-> bloom_le b a.
Proof.
  unfold contains, bloom_le. rewrite bool_decide_eq_true. revert a. induction b as [|y b IH]; intros [|x a] Hl; try done.
  cbn in *. split.
  - intros [= E1 E2]. constructor; [done|]. apply IH; [lia|done].
  - intros E. inversion E; subst. f_equal; [done|]. apply IH; [lia|done].
Qed.
Lemma or_length a b : length a = length b -> length (orBloom a b) = length a.
Proof. intros Hl. unfold orBloom. rewrite length_zip_with. lia. Qed.
Lemma or_le_l a b c : bloom_le b a -> length c = length a -> bloom_le b (orBloom a c).
Proof.
  intros Hb. revert c. unfold bloom_le, orBloom in *. induction Hb as [|y x b a E _ IH]; intros c Hl; destruct c; try done; cbn in *;
    constructor; [by apply land_lor_l|apply IH; lia].
Qed.
Lemma or_le_r a b : length a = length b -> bloom_le b (orBloom a b).
Proof.
  revert b. unfold bloom_le, orBloom. induction a as [|x a IH]; intros [|y b] Hl; try done; cbn in *; constructor.
  - apply land_lor_self.
  - apply IH. lia.
Qed.
Lemma or_le_both a b c : bloom_le b a -> bloom_le c a -> bloom_le (orBloom b c) a.
Proof.
  intros Hb. revert c. unfold bloom_le, orBloom in *. induction Hb as [|y x b a E _ IH]; intros c Hc; inversion Hc; subst; cbn; constructor.
  - by apply land_lor_both.
  - by apply IH.
Qed.
Lemma or_mono a a' c c' : bloom_le a a' -> bloom_le c c' -> length c' = length a' -> bloom_le (orBloom a c) (orBloom a' c').
Proof.
  intros Ha Hc Hl. apply or_le_both; [by apply or_le_l|]. etrans; [exact Hc|]. apply or_le_r. done.
Qed.

Definition bloom_ok (b : LogBloom) : Prop := length b = 256%nat.
Lemma setBit_ok b i : bloom_ok b -> bloom_ok (setBit b i).
Proof. unfold bloom_ok, setBit. by rewrite length_alter. Qed.
Lemma empty_bloom_ok : bloom_ok emptyBloom.
Proof. done. Qed.
Lemma bloomPart_ok h : bloom_ok (bloomPart h).
Proof. unfold bloomPart. cbn [foldl]. do 3 apply setBit_ok. done. Qed.
Lemma orBloom_ok a b : bloom_ok a -> bloom_ok b -> bloom_ok (orBloom a b).
Proof. unfold bloom_ok. intros Ha Hb. rewrite or_length; congruence. Qed.
Lemma shiftBloom_ok b h : bloom_ok b -> bloom_ok (shiftBloom b h).
Proof. intros. apply orBloom_ok; [done|apply bloomPart_ok]. Qed.
Create HintDb bloom.
#[export] Hint Resolve empty_bloom_ok bloomPart_ok orBloom_ok shiftBloom_ok : bloom.
Lemma bloom_ok_length a b : bloom_ok a -> bloom_ok b -> length a = length b.
Proof. unfold bloom_ok. congruence. Qed.
#[export] Hint Resolve bloom_ok_length : bloom.

Lemma empty_le a : bloom_ok a -> bloom_le emptyBloom a.
Proof.
  intros Ha. unfold bloom_le, emptyBloom. rewrite <- Ha. clear Ha. induction a; cbn; constructor; [apply Z.land_0_r|done].
Qed.
Lemma shift_grows b h : bloom_ok b -> bloom_le b (shiftBloom b h).
Proof. intros Hb. apply or_le_l; [reflexivity|]. auto with bloom. Qed.
Lemma shift_has b h : bloom_ok b -> bloom_le (bloomPart h) (shiftBloom b h).
Proof. intros Hb. apply or_le_r. auto with bloom. Qed.

Lemma containsBloom_le b h : bloom_ok b -> containsBloom b h = true <-> bloom_le (bloomPart h) b.
Proof. intros Hb. apply contains_le. auto with bloom. Qed.

(** A bloom grown by a list of hashes: it stays well formed, keeps what it had and gains every hash. *)
Definition shiftAll (b : LogBloom) (hs : list (list Z)) : LogBloom := foldl shiftBloom b hs.
Lemma shiftAll_ok b hs : bloom_ok b -> bloom_ok (shiftAll b hs).
Proof. revert b. induction hs as [|h hs IH]; intros b Hb; [done|]. apply IH. auto with bloom. Qed.
#[export] Hint Resolve shiftAll_ok : bloom.
Lemma shiftAll_grows b hs : bloom_ok b -> bloom_le b (shiftAll b hs).
Proof.
  revert b. induction hs as [|h hs IH]; intros b Hb; [reflexivity|]. etrans; [apply shift_grows, Hb|]. apply IH. auto with bloom.
Qed.
Lemma shiftAll_has b hs h : bloom_ok b -> h ∈ hs -> bloom_le (bloomPart h) (shiftAll b hs).
Proof.
  revert b. induction hs as [|h' hs IH]; intros b Hb; [by intros ?%elem_of_nil|]. intros [->|Hin]%elem_of_cons.
  - etrans; [apply shift_has, Hb|]. apply (shiftAll_grows _ hs). auto with bloom.
  - apply IH; auto with bloom.
Qed.
(** The least bloom with these properties. *)
Lemma shiftAll_least b hs a : bloom_ok a -> bloom_le b a -> (forall h, h ∈ hs -> bloom_le (bloomPart h) a) -> bloom_le (shiftAll b hs) a.
Proof.
  revert b. induction hs as [|h hs IH]; intros b Ha Hb Hh; [done|]. apply IH; [done| |].
  - apply or_le_both; [done|]. apply Hh. apply elem_of_cons. by left.
  - intros h' Hin. apply Hh. apply elem_of_cons. by right.
Qed.

(** ** The reference filter on one entry *)

Definition topicMatches (f : LogFilter) (e : LogEntry) (i : nat) : bool :=
  match nth i (m_topics f) [] with
  | [] => true
  | t => match log_topics e !! i with Some x => bool_decide (x ∈ t) | None => false end
  end.
Definition entryMatches (f : LogFilter) (e : LogEntry) : bool :=
  (bool_decide (m_addresses f = []) || bool_decide (log_address e ∈ m_addresses f)) &&
  forallb (topicMatches f e) [0; 1; 2; 3]%nat.
(** The test of the code is in bounds: where it asks for topic [i] the entry does not have exactly [i] topics. *)
Definition in_bounds (f : LogFilter) (e : LogEntry) : Prop :=
  forall i, (i < 4)%nat -> nth i (m_topics f) [] <> [] -> length (log_topics e) <> i.

Lemma topicGood_in_bounds f e i :
  (nth i (m_topics f) [] <> [] -> length (log_topics e) <> i) -> topicGood f e i = Some (topicMatches f e i).
Proof.
  intros Hb. unfold topicGood, topicMatches. destruct (nth i (m_topics f) []) as [|t0 t] eqn:Et; [done|].
  specialize (Hb ltac:(done)). destruct (Nat.ltb_spec (length (log_topics e)) i) as [Hlt|Hge].
  - rewrite (lookup_ge_None_2 (log_topics e) i); [done|lia].
  - destruct (lookup_lt_is_Some_2 (log_topics e) i) as [x Ex]; [lia|]. by rewrite Ex.
Qed.
Lemma topicsGood_in_bounds f e js : (forall i, i ∈ js -> (i < 4)%nat) -> in_bounds f e ->
  topicsGood f e js = Some (forallb (topicMatches f e) js).
Proof.
  intros Hj Hb. induction js as [|i js IH]; [done|]. cbn. rewrite topicGood_in_bounds.
  - destruct (topicMatches f e i); [|done]. apply IH. intros k Hk. apply Hj. apply elem_of_cons. by right.
  - intros Hn. apply Hb; [apply Hj, elem_of_cons; by left|done].
Qed.
Lemma first_four i : i ∈ [0; 1; 2; 3]%nat <-> (i < 4)%nat.
Proof. rewrite !elem_of_cons, elem_of_nil. lia. Qed.
Lemma entryGood_in_bounds f e : in_bounds f e -> entryGood f e = Some (entryMatches f e).
Proof.
  intros Hb. unfold entryGood, entryMatches. rewrite topicsGood_in_bounds; [|intros i; apply first_four|done].
  destruct (bool_decide (m_addresses f = [])), (bool_decide (log_address e ∈ m_addresses f)); done.
Qed.
Lemma keepGood_in_bounds f l : Forall (in_bounds f) l -> keepGood f l = Some (List.filter (entryMatches f) l).
Proof.
  induction 1 as [|e l He Hl IH]; [done|]. cbn [keepGood List.filter]. rewrite entryGood_in_bounds, IH by done.
  by destruct (entryMatches f e).
Qed.

Lemma topicGood_None f e i : topicGood f e i = None <-> nth i (m_topics f) [] <> [] /\ length (log_topics e) = i.
Proof.
  unfold topicGood. destruct (nth i (m_topics f) []) as [|t0 t] eqn:Et; [intuition done|].
  destruct (Nat.ltb_spec (length (log_topics e)) i) as [Hlt|Hge]; [intuition (done || lia)|].
  destruct (log_topics e !! i) as [x|] eqn:Ex.
  - apply lookup_lt_Some in Ex. intuition (done || lia).
  - apply lookup_ge_None in Ex. intuition (done || lia).
Qed.
Lemma topicsGood_None f e k n : topicsGood f e (seq k n) = None <->
  exists i, (k <= i < k + n)%nat /\ topicGood f e i = None /\ forall j, (k <= j < i)%nat -> topicGood f e j = Some true.
Proof.
  revert k. induction n as [|n IH]; intros k; cbn [seq topicsGood]; [split; [done|intros (i & ? & _); lia]|].
  destruct (topicGood f e k) as [[|]|] eqn:Ek.
  - rewrite IH. split; intros (i & Hi & Hg & Hj).
    + exists i. repeat split; [lia..|done|]. intros j Hlt. destruct (decide (j = k)) as [->|]; [done|]. apply Hj. lia.
    + exists i. assert (i <> k) by congruence. repeat split; [lia..|done|]. intros j Hlt. apply Hj. lia.
  - split; [done|]. intros (i & Hi & Hg & Hj). destruct (decide (i = k)) as [->|]; [congruence|].
    specialize (Hj k ltac:(lia)). congruence.
  - split; [|done]. intros _. exists k. repeat split; [lia..|done|lia].
Qed.

(** ** Blooms of logs *)

Section LogFilterLemmas.
Context (sha3 : list Z -> Z).
Notation hashAddress := (hashAddress sha3).
Notation hashTopic := (hashTopic sha3).
Notation entryBloom := (entryBloom sha3).
Notation logsBloom := (logsBloom sha3).

Lemma entryBloom_all e : entryBloom e = shiftAll emptyBloom (hashAddress (log_address e) :: map hashTopic (log_topics e)).
Proof. unfold entryBloom, shiftAll. cbn [foldl]. rewrite foldl_fmap. done. Qed.
Lemma entryBloom_ok e : bloom_ok (entryBloom e).
Proof. rewrite entryBloom_all. auto with bloom. Qed.
Lemma entry_has_address e : bloom_le (bloomPart (hashAddress (log_address e))) (entryBloom e).
Proof. rewrite entryBloom_all. apply shiftAll_has; [auto with bloom|]. apply elem_of_cons. by left. Qed.
Lemma entry_has_topic e t : t ∈ log_topics e -> bloom_le (bloomPart (hashTopic t)) (entryBloom e).
Proof.
  intros Ht. rewrite entryBloom_all. apply shiftAll_has; [auto with bloom|]. apply elem_of_cons. right.
  by apply list_elem_of_fmap_2.
Qed.
Lemma logsBloom_from b l : bloom_ok b -> bloom_ok (foldl (fun r e => orBloom r (entryBloom e)) b l).
Proof. revert b. induction l as [|e l IH]; intros b Hb; [done|]. apply IH. apply orBloom_ok; [done|apply entryBloom_ok]. Qed.
Lemma logsBloom_ok l : bloom_ok (logsBloom l).
Proof. apply logsBloom_from. done. Qed.
Lemma logsBloom_grows b l : bloom_ok b -> bloom_le b (foldl (fun r e => orBloom r (entryBloom e)) b l).
Proof.
  revert b. induction l as [|e l IH]; intros b Hb; [reflexivity|]. cbn. etrans; [|apply IH, orBloom_ok; [done|apply entryBloom_ok]].
  apply or_le_l; [reflexivity|]. pose proof (entryBloom_ok e). auto with bloom.
Qed.
Lemma logsBloom_has_from b l e : bloom_ok b -> e ∈ l -> bloom_le (entryBloom e) (foldl (fun r e => orBloom r (entryBloom e)) b l).
Proof.
  revert b. induction l as [|e' l IH]; intros b Hb; [by intros ?%elem_of_nil|]. intros [->|Hin]%elem_of_cons; cbn.
  - etrans; [|apply logsBloom_grows, orBloom_ok; [done|apply entryBloom_ok]]. apply or_le_r.
    pose proof (entryBloom_ok e'). auto with bloom.
  - apply IH; [|done]. apply orBloom_ok; [done|apply entryBloom_ok].
Qed.
Lemma logsBloom_has l e : e ∈ l -> bloom_le (entryBloom e) (logsBloom l).
Proof. apply logsBloom_has_from. done. Qed.
#[local] Hint Resolve entryBloom_ok logsBloom_ok : bloom.

(** ** The filter on a bloom *)

(** The alternatives of each dimension. *)
Definition hashLists (f : LogFilter) : list (list (list Z)) :=
  map hashAddress (m_addresses f) :: map (map hashTopic) (m_topics f).
Definition anyOf (b : LogBloom) (hs : list (list Z)) : bool :=
  match hs with [] => true | _ => existsb (containsBloom b) hs end.
Lemma existsb_map {A B} (g : A -> B) (P : B -> bool) l : existsb P (map g l) = existsb (fun x => P (g x)) l.
Proof. induction l as [|x l IH]; [done|]. cbn. by rewrite IH. Qed.
Lemma matchesBloom_all f b : matchesBloom sha3 f b = forallb (anyOf b) (hashLists f).
Proof.
  unfold matchesBloom, hashLists, anyOf. cbn [forallb]. f_equal.
  - destruct (m_addresses f) as [|a l]; [done|]. cbn [map]. rewrite <- existsb_map. done.
  - induction (m_topics f) as [|t l IH]; [done|]. cbn [forallb map]. rewrite <- IH. f_equal.
    destruct t as [|x t]; [done|]. cbn [map]. rewrite <- existsb_map. done.
Qed.
Lemma anyOf_intro b hs h : bloom_ok b -> h ∈ hs -> bloom_le (bloomPart h) b -> anyOf b hs = true.
Proof.
  intros Hb Hin Hle. unfold anyOf. destruct hs as [|h0 hs]; [done|]. apply existsb_exists. exists h. split.
  - by apply list_elem_of_In.
  - by apply containsBloom_le.
Qed.
(** No false negatives: a bloom above the bloom of a matching entry is accepted. *)
Lemma matching_accepted f e b : length (m_topics f) = 4%nat -> bloom_ok b -> entryMatches f e = true ->
  bloom_le (entryBloom e) b -> matchesBloom sha3 f b = true.
Proof.
  intros H4 Hb Hm Hle. apply andb_true_iff in Hm as [Ha Ht]. rewrite matchesBloom_all. unfold hashLists. cbn [forallb].
  apply andb_true_iff. split.
  - apply orb_true_iff in Ha as [Ha%bool_decide_eq_true|Ha%bool_decide_eq_true]; [by rewrite Ha|].
    eapply anyOf_intro; [done|apply list_elem_of_fmap_2, Ha|]. etrans; [apply entry_has_address|done].
  - apply forallb_forall. intros hs Hin%list_elem_of_In. apply list_elem_of_fmap in Hin as (t & -> & [i Hi]%list_elem_of_lookup).
    assert (i < 4)%nat by (rewrite <- H4; by eapply lookup_lt_Some).
    pose proof (proj1 (forallb_forall _ _) Ht i ltac:(by apply list_elem_of_In, first_four)) as Hi'.
    unfold topicMatches in Hi'. rewrite (nth_lookup_Some _ _ _ _ Hi) in Hi'. destruct t as [|t0 t]; [done|].
    destruct (log_topics e !! i) as [x|] eqn:Ex; [|done]. apply bool_decide_eq_true in Hi'.
    eapply anyOf_intro; [done|by apply (list_elem_of_fmap_2 hashTopic)|]. etrans; [|done].
    apply entry_has_topic. by eapply list_elem_of_lookup_2.
Qed.
Lemma filter_all_false {A} (P : A -> bool) l : (forall x, x ∈ l -> P x = false) -> List.filter P l = [].
Proof.
  induction l as [|x l IH]; intros H; [done|]. cbn. rewrite H by (apply elem_of_cons; by left). apply IH.
  intros y Hy. apply H. apply elem_of_cons. by right.
Qed.
Lemma range_matches_all f e : length (m_topics f) = 4%nat -> isRangeFilter f = true -> entryMatches f e = true.
Proof.
  intros H4 Hr. apply andb_true_iff in Hr as [Ha Ht]. unfold entryMatches. rewrite Ha. cbn [orb andb].
  apply forallb_forall. intros i Hi%list_elem_of_In%first_four. unfold topicMatches.
  destruct (nth_in_or_default i (m_topics f) []) as [Hin| ->]; [|done].
  pose proof (proj1 (forallb_forall _ _) Ht _ Hin) as E%bool_decide_eq_true. by rewrite E.
Qed.
Lemma filter_all_true {A} (P : A -> bool) l : (forall x, x ∈ l -> P x = true) -> List.filter P l = l.
Proof.
  induction l as [|x l IH]; intros H; [done|]. cbn. rewrite H by (apply elem_of_cons; by left). f_equal. apply IH.
  intros y Hy. apply H. apply elem_of_cons. by right.
Qed.
End LogFilterLemmas.

(** Filtering one receipt. *)
Lemma receipt_matches (sha3 : list Z -> Z) (f : LogFilter) (bloom : LogBloom) (log : list LogEntry) :
  length (m_topics f) = 4%nat -> bloom_ok bloom -> bloom_le (logsBloom sha3 log) bloom -> Forall (in_bounds f) log ->
  matches sha3 f bloom log = Some (List.filter (entryMatches f) log).
Proof.
  intros H4 Hb Hle Hin. unfold matches. destruct (isRangeFilter f) eqn:Er.
  { rewrite filter_all_true; [done|]. intros e _. by apply range_matches_all. }
  destruct (matchesBloom sha3 f bloom) eqn:Em; [by apply keepGood_in_bounds|].
  rewrite filter_all_false; [done|]. intros e He. destruct (entryMatches f e) eqn:Ee; [|done]. exfalso.
  rewrite (matching_accepted sha3 f e bloom) in Em; [done..|]. etrans; [by apply logsBloom_has|done].
Qed.

(** Filtering a receipt is exact: for the receipt of any log, or one whose bloom has more bits, [LogFilter::matches] returns
    exactly the entries whose address is one of the filter's addresses (when it has any) and whose topic [i] is one of the
    filter's topics [i] (for each of the four positions that has any), in order.  The bloom test never hides a matching
    entry: filtering each entry of the log in a receipt of its own gives the same entries, and a range filter returns
    the whole log.  It holds as long as no entry has exactly [i] topics where the filter constrains topic [i]. *)
Theorem receipt_filter_exact (sha3 : list Z -> Z) (f : LogFilter) (bloom : LogBloom) (log : list LogEntry) :
  length (m_topics f) = 4%nat -> bloom_ok bloom -> bloom_le (logsBloom sha3 log) bloom -> Forall (in_bounds f) log ->
  matches sha3 f bloom log = Some (List.filter (entryMatches f) log) /\
  (isRangeFilter f = true -> matches sha3 f bloom log = Some log) /\
  Forall (fun e => matches sha3 f (logsBloom sha3 [e]) [e] = Some (if entryMatches f e then [e] else [])) log.
Proof.
  intros H4 Hb Hle Hin. split; [by apply receipt_matches|]. split; [intros Hr; unfold matches; by rewrite Hr|].
  eapply Forall_impl; [exact Hin|]. intros e He. cbv beta. rewrite receipt_matches; [|done|apply logsBloom_ok|reflexivity|by constructor].
  cbn. by destruct (entryMatches f e).
Qed.

(** The read past the topics: the test of an entry reads out of bounds exactly when the entry's address passes, the filter
    constrains topic [i], the entry has exactly [i] topics, and the tests of the earlier positions passed.  The code compares
    [e.topics.size() < i] where [e.topics[i]] needs [i < e.topics.size()]. *)
Theorem entry_test_reads_past (f : LogFilter) (e : LogEntry) :
  entryGood f e = None <->
  (m_addresses f = [] \/ log_address e ∈ m_addresses f) /\
  exists i, (i < 4)%nat /\ nth i (m_topics f) [] <> [] /\ length (log_topics e) = i /\
            forall j, (j < i)%nat -> topicMatches f e j = true.
Proof.
  unfold entryGood. change [0; 1; 2; 3]%nat with (seq 0 4).
  assert (Hgate : (m_addresses f = [] \/ log_address e ∈ m_addresses f) <->
    negb (bool_decide (m_addresses f = [])) && negb (bool_decide (log_address e ∈ m_addresses f)) = false).
  { destruct (bool_decide_reflect (m_addresses f = [])), (bool_decide_reflect (log_address e ∈ m_addresses f)); cbn; intuition done. }
  destruct (negb _ && negb _); split; [done|intros [E%Hgate _]; discriminate| |].
  - intros (i & Hi & [Hn Hl]%topicGood_None & Hj)%topicsGood_None. split; [by apply Hgate|]. exists i. do 3 (split; [lia || done|]).
    intros j Hlt. specialize (Hj j ltac:(lia)). rewrite topicGood_in_bounds in Hj by lia. congruence.
  - intros [_ (i & Hi & Hn & Hl & Hj)]. apply topicsGood_None. exists i. do 2 (split; [lia || by apply topicGood_None|]).
    intros j Hlt. rewrite topicGood_in_bounds by lia. by rewrite Hj by lia.
Qed.

(** ** The odometer of [bloomPossibilities]

    The counters are the digits of a number in mixed radix; [inc_iter] adds one. *)

Definition radix (n : nat) : nat := Nat.max 1 n.
Fixpoint rank (dims iter : list nat) : nat :=
  match dims, iter with n :: d, x :: i => (x + radix n * rank d i)%nat | _, _ => 0%nat end.
Definition valid (dims iter : list nat) : Prop := Forall2 (fun n x => (x < radix n)%nat) dims iter.

Lemma combinations_cons n d : combinations (n :: d) = (radix n * combinations d)%nat.
Proof. done. Qed.
Lemma combinations_app d1 d2 : combinations (d1 ++ d2) = (combinations d1 * combinations d2)%nat.
Proof. induction d1 as [|n d1 IH]; cbn [app]; [cbn; lia|]. rewrite !combinations_cons, IH. lia. Qed.
Lemma combinations_rev d : combinations (rev d) = combinations d.
Proof.
  induction d as [|n d IH]; [done|]. cbn [rev]. rewrite combinations_app, IH, !combinations_cons. cbn. lia.
Qed.
Lemma rank_bound d i : valid d i -> (rank d i < combinations d)%nat.
Proof. induction 1 as [|n x d i Hx _ IH]; [cbn; lia|]. rewrite combinations_cons. cbn [rank]. unfold radix in *. nia. Qed.
Lemma digits_unique r x y a b : (x < r)%nat -> (y < r)%nat -> (x + r * a = y + r * b)%nat -> x = y /\ a = b.
Proof. intros Hx Hy E. assert (a = b) as ->; [|lia]. destruct (Nat.lt_trichotomy a b) as [|[|]]; [nia|done|nia]. Qed.
Lemma rank_inj d i j : valid d i -> valid d j -> rank d i = rank d j -> i = j.
Proof.
  intros Hi. revert j. induction Hi as [|n x d i Hx _ IH]; intros j Hj E; inversion Hj as [|? y ? j' Hy Hj']; subst; [done|].
  cbn [rank] in E. destruct (digits_unique _ _ _ _ _ Hx Hy E) as [-> E']. f_equal. by apply IH.
Qed.
Lemma inc_rev_Some d i i' : valid d i -> inc_rev d i = Some i' -> valid d i' /\ rank d i' = S (rank d i).
Proof.
  intros Hv. revert i'. induction Hv as [|n x d i Hx Hv IH]; intros i' E; [done|]. cbn [inc_rev] in E. unfold radix in *.
  destruct (Nat.eqb_spec n 0) as [->|Hn]; [|destruct (Nat.eqb_spec (S x) n) as [Hs|Hs]].
  - destruct (inc_rev d i) as [i2|]; [|done]. injection E as <-. destruct (IH i2 eq_refl) as [Hv2 Hr].
    split; [by constructor|]. cbn [rank]. rewrite Hr. change (radix 0) with 1%nat. lia.
  - destruct (inc_rev d i) as [i2|]; [|done]. injection E as <-. destruct (IH i2 eq_refl) as [Hv2 Hr].
    split; [constructor; [unfold radix; lia|done]|]. cbn [rank]. rewrite Hr. unfold radix. nia.
  - injection E as <-. split; [constructor; [unfold radix; lia|done]|]. cbn [rank]. lia.
Qed.
Lemma inc_rev_None d i : valid d i -> inc_rev d i = None -> S (rank d i) = combinations d.
Proof.
  induction 1 as [|n x d i Hx Hv IH]; intros E; [done|]. rewrite combinations_cons. cbn [inc_rev rank] in *. unfold radix in *.
  destruct (Nat.eqb_spec n 0) as [->|Hn]; [|destruct (Nat.eqb_spec (S x) n) as [Hs|Hs]; [|done]];
    destruct (inc_rev d i); try done; specialize (IH eq_refl); nia.
Qed.
Lemma valid_rev d i : valid d i -> valid (rev d) (rev i).
Proof. unfold valid. rewrite !rev_alt. apply Forall2_reverse. Qed.

Lemma inc_iter_Some d i i' : valid d i -> inc_iter d i = Some i' -> valid d i' /\ rank (rev d) (rev i') = S (rank (rev d) (rev i)).
Proof.
  intros Hv%valid_rev E. unfold inc_iter in E. destruct (inc_rev (rev d) (rev i)) as [j|] eqn:Ej; [|done]. injection E as <-.
  destruct (inc_rev_Some _ _ _ Hv Ej) as [Hvj Hr]. rewrite rev_involutive. split; [|done].
  apply valid_rev in Hvj. by rewrite rev_involutive in Hvj.
Qed.
Lemma inc_iter_None d i : valid d i -> inc_iter d i = None -> S (rank (rev d) (rev i)) = combinations d.
Proof.
  intros Hv%valid_rev E. rewrite <- combinations_rev. apply inc_rev_None; [done|]. unfold inc_iter in E.
  by destruct (inc_rev (rev d) (rev i)).
Qed.
Lemma rank_rev_inj d i j : valid d i -> valid d j -> rank (rev d) (rev i) = rank (rev d) (rev j) -> i = j.
Proof.
  intros Hi%valid_rev Hj%valid_rev E. rewrite <- (rev_involutive i), <- (rev_involutive j). f_equal. by eapply rank_inj.
Qed.
Lemma zeros_valid (d : list nat) : valid d (replicate (length d) 0%nat).
Proof. induction d; cbn; constructor; [unfold radix; lia|done]. Qed.
Lemma rank_zeros d i : Forall (eq 0%nat) i -> rank d i = 0%nat.
Proof. revert i. induction d as [|n d IH]; intros [|x i] H; try done. inversion H; subst. cbn [rank]. rewrite IH by done. lia. Qed.

(** ** Blooms that are not empty *)

Lemma bloomIndex_range h i : 0 <= bloomIndex h i < 2048.
Proof. unfold bloomIndex. change 2047 with (Z.ones 11). rewrite Z.land_ones by lia. apply Z.mod_pos_bound. lia. Qed.
Lemma setBit_nonzero b i : bloom_ok b -> 0 <= i < 2048 -> ~ bloom_le (setBit b i) emptyBloom.
Proof.
  intros Hb Hi Hle. set (k := Z.to_nat (256 - 1 - i / 8)). assert (k < 256)%nat as Hk.
  { pose proof (Z.div_pos i 8 ltac:(lia) ltac:(lia)). unfold k. lia. }
  destruct (lookup_lt_is_Some_2 b k) as [x Ex]; [unfold bloom_ok in Hb; lia|].
  assert (Hs : setBit b i !! k = Some (Z.lor x (Z.shiftl 1 (i mod 8)))).
  { unfold setBit. fold k. rewrite list_lookup_alter_eq, Ex. done. }
  eapply Forall2_lookup_lr in Hle; [|exact Hs|by apply lookup_replicate_2]. cbv beta in Hle. rewrite Z.land_0_l in Hle.
  symmetry in Hle. apply Z.lor_eq_0_iff in Hle as [_ Hle]. rewrite Z.shiftl_1_l in Hle.
  pose proof (Z.pow_pos_nonneg 2 (i mod 8) ltac:(lia) (proj1 (Z.mod_pos_bound i 8 ltac:(lia)))). lia.
Qed.
Lemma bloomPart_nonzero h : ~ bloom_le (bloomPart h) emptyBloom.
Proof.
  unfold bloomPart. cbn [foldl]. apply setBit_nonzero; [do 2 apply setBit_ok; done|apply bloomIndex_range].
Qed.

(** ** The blooms of all choices *)

(** The hashes one choice of counters takes. *)
Definition takeHash (hs : list (list Z)) (x : nat) : list (list Z) := match hs with [] => [] | _ => [nth x hs []] end.
Definition pick (hl : list (list (list Z))) (iter : list nat) : list (list Z) := concat (zip_with takeHash hl iter).
Definition choice (hl : list (list (list Z))) (iter : list nat) : Prop := Forall2 (fun hs x => (x < radix (length hs))%nat) hl iter.

Lemma forallb_choice b hl : bloom_ok b ->
  forallb (anyOf b) hl = true <-> exists iter, choice hl iter /\ forall h, h ∈ pick hl iter -> bloom_le (bloomPart h) b.
Proof.
  intros Hb. induction hl as [|hs hl IH]; cbn [forallb].
  - split; [|done]. intros _. exists []. split; [constructor|]. intros h ?%elem_of_nil. done.
  - rewrite andb_true_iff, IH. clear IH. split.
    + intros [Ha (iter & Hv & Hall)]. destruct hs as [|h0 hs].
      { exists (0%nat :: iter). split; [constructor; [cbn; lia|done]|done]. }
      apply existsb_exists in Ha as (h & [x Hx]%list_elem_of_In%list_elem_of_lookup & Hc). exists (x :: iter). split.
      * constructor; [|done]. apply lookup_lt_Some in Hx. unfold radix. lia.
      * intros h' [->%list_elem_of_singleton|Hin]%elem_of_app; [|by apply Hall].
        rewrite (nth_lookup_Some _ _ _ _ Hx). by apply containsBloom_le.
    + intros ([|x iter] & Hv & Hall); inversion Hv as [|? ? ? ? Hx Hv']; subst. split.
      * destruct hs as [|h0 hs]; [done|]. apply anyOf_intro with (nth x (h0 :: hs) []); [done| |].
        -- apply list_elem_of_In, nth_In. unfold radix in Hx. cbn [length] in *. lia.
        -- apply Hall. apply elem_of_app. left. by apply list_elem_of_singleton.
      * exists iter. split; [done|]. intros h Hin. apply Hall. apply elem_of_app. by right.
Qed.

Section Possibilities.
Context (sha3 : list Z -> Z) (f : LogFilter).
Notation possibility := (possibility sha3 f).
Notation possibilities := (fun n => possibilities sha3 n f).

Lemma choice_valid iter : choice (hashLists sha3 f) iter <-> valid (dimensions f) iter.
Proof.
  assert (Hd : dimensions f = @length (list Z) <$> hashLists sha3 f).
  { unfold dimensions, hashLists. cbn. rewrite length_map. f_equal. rewrite <- list_fmap_compose. apply list_fmap_ext.
    intros _ t _. cbn. by rewrite length_map. }
  unfold choice, valid. rewrite Hd, Forall2_fmap_l. done.
Qed.
Lemma takeHash_shift {A} (g : A -> list Z) (d : A) (t : list A) (x : nat) (b : LogBloom) : (x < radix (length t))%nat ->
  match t with [] => b | _ => shiftBloom b (g (nth x t d)) end = shiftAll b (takeHash (map g t) x).
Proof.
  intros Hx. destruct t as [|t0 t]; [done|]. cbn [map takeHash shiftAll foldl]. f_equal. rewrite <- (map_nth g).
  change (g t0 :: map g t) with (map g (t0 :: t)). apply nth_indep. rewrite length_map. unfold radix in Hx. cbn [length] in *. lia.
Qed.
Lemma possibility_pick iter : valid (dimensions f) iter -> possibility iter = shiftAll emptyBloom (pick (hashLists sha3 f) iter).
Proof.
  intros Hv. unfold dimensions in Hv. apply Forall2_cons_inv_l in Hv as (x & xs & Hx & Hv & ->).
  unfold LogFilter.possibility, pick, hashLists. cbn [hd tl zip_with concat]. unfold shiftAll. rewrite foldl_app.
  rewrite (takeHash_shift (hashAddress sha3) 0) by done. unfold shiftAll. generalize (foldl shiftBloom emptyBloom (takeHash (map (hashAddress sha3) (m_addresses f)) x)).
  revert xs Hv. induction (m_topics f) as [|t ts IH]; intros xs Hv b.
  - by destruct xs.
  - cbn [map] in Hv. apply Forall2_cons_inv_l in Hv as (y & ys & Hy & Hv & ->). cbn [zip zip_with map foldl concat].
    rewrite foldl_app, (takeHash_shift (hashTopic sha3) 0) by done. apply IH. done.
Qed.

(** The blooms [possibilities] collects from [iter] on. *)
Lemma possibilities_spec n iter : valid (dimensions f) iter ->
  (0 < n)%nat -> (combinations (dimensions f) <= n + rank (rev (dimensions f)) (rev iter))%nat ->
  exists l, possibilities n iter = Some l /\
    forall b, b ∈ l <-> b <> emptyBloom /\ exists it, valid (dimensions f) it /\
      (rank (rev (dimensions f)) (rev iter) <= rank (rev (dimensions f)) (rev it))%nat /\ b = possibility it.
Proof.
  revert iter. induction n as [|n IH]; intros iter Hv Hn Hf; [lia|]. cbn [LogFilter.possibilities].
  set (here := if bool_decide (possibility iter = emptyBloom) then [] else [possibility iter]).
  assert (Hhere : forall b, b ∈ here <-> b <> emptyBloom /\ b = possibility iter).
  { intros b. unfold here. case_bool_decide; rewrite ?elem_of_nil, ?list_elem_of_singleton; intuition congruence. }
  destruct (inc_iter (dimensions f) iter) as [iter'|] eqn:Ei.
  - destruct (inc_iter_Some _ _ _ Hv Ei) as [Hv' Hr]. pose proof (rank_bound _ _ (valid_rev _ _ Hv')) as Hb.
    rewrite combinations_rev in Hb. destruct (IH iter' Hv' ltac:(lia) ltac:(lia)) as (l & El & Hl).
    cbv beta in El. rewrite El.
    exists (here ++ l). split; [done|]. intros b. rewrite elem_of_app, Hhere, Hl. split.
    + intros [[Hb0 ->]|(Hb0 & it & Hit & Hge & ->)]; (split; [done|]); eauto with lia.
    + intros (Hb0 & it & Hit & Hge & ->). destruct (decide (it = iter)) as [->|Hne]; [by left|]. right. split; [done|].
      exists it. repeat split; [done|]. assert (rank (rev (dimensions f)) (rev it) <> rank (rev (dimensions f)) (rev iter)); [|lia].
      intros E. by apply Hne, (rank_rev_inj (dimensions f)).
  - exists here. split; [done|]. intros b. rewrite Hhere. pose proof (inc_iter_None _ _ Hv Ei) as Hlast. split.
    + intros [Hb0 ->]. eauto.
    + intros (Hb0 & it & Hit & Hge & ->). split; [done|]. f_equal. apply (rank_rev_inj (dimensions f)); [done..|].
      pose proof (rank_bound _ _ (valid_rev _ _ Hit)) as Hb. rewrite combinations_rev in Hb. lia.
Qed.
Lemma combinations_pos d : (0 < combinations d)%nat.
Proof. induction d as [|n d IH]; [cbn; lia|]. rewrite combinations_cons. unfold radix. nia. Qed.
Lemma bloomPossibilities_spec : exists l, bloomPossibilities sha3 f = Some l /\
  forall b, b ∈ l <-> b <> emptyBloom /\ exists it, valid (dimensions f) it /\ b = possibility it.
Proof.
  assert (Hl : S (length (m_topics f)) = length (dimensions f)) by (cbn; by rewrite length_map).
  destruct (possibilities_spec (combinations (dimensions f)) (replicate (S (length (m_topics f))) 0%nat)) as (l & El & Hb).
  - rewrite Hl. apply zeros_valid.
  - apply combinations_pos.
  - lia.
  - exists l. split; [exact El|]. intros b. rewrite Hb. split.
    + intros (? & it & ? & _ & ?). eauto.
    + intros (? & it & ? & ?). split; [done|]. exists it. repeat split; [done| |done]. rewrite rank_zeros; [lia|].
      apply Forall_rev, Forall_forall. intros x ?%elem_of_replicate_inv. done.
Qed.
(** Without an empty choice: some dimension has alternatives, so no bloom is dropped. *)
Lemma pick_nonempty hl iter : choice hl iter -> existsb (fun hs => negb (bool_decide (hs = []))) hl = true -> exists h, h ∈ pick hl iter.
Proof.
  induction 1 as [|hs x hl iter Hx _ IH]; [done|]. cbn [existsb]. intros [Hn|Hn]%orb_true_iff.
  - destruct hs as [|h0 hs]; [done|]. exists (nth x (h0 :: hs) []). apply elem_of_app. left. by apply list_elem_of_singleton.
  - destruct (IH Hn) as [h Hh]. exists h. apply elem_of_app. by right.
Qed.
Lemma not_range_has : isRangeFilter f = false -> existsb (fun hs => negb (bool_decide (hs = []))) (hashLists sha3 f) = true.
Proof.
  unfold isRangeFilter, hashLists. cbn [existsb]. intros Hr. apply andb_false_iff in Hr as [Hr|Hr]; apply orb_true_iff.
  - left. apply bool_decide_eq_false in Hr. by destruct (m_addresses f).
  - right. induction (m_topics f) as [|t ts IH]; [done|]. cbn in *. apply andb_false_iff in Hr as [Hr|Hr]; apply orb_true_iff.
    + left. apply bool_decide_eq_false in Hr. by destruct t.
    + right. by apply IH.
Qed.
End Possibilities.

(** Every combination gives one bloom that is not empty. *)
Lemma possibility_nonempty sha3 f it : isRangeFilter f = false -> valid (dimensions f) it -> possibility sha3 f it <> emptyBloom.
Proof.
  intros Hr Hv E. rewrite possibility_pick in E by done.
  destruct (pick_nonempty _ _ (proj2 (choice_valid sha3 f it) Hv) (not_range_has sha3 f Hr)) as [h Hh].
  apply (bloomPart_nonzero h). rewrite <- E. apply shiftAll_has; [auto with bloom|done].
Qed.
Lemma zeros_dimensions f : valid (dimensions f) (replicate (S (length (m_topics f))) 0%nat).
Proof. replace (S (length (m_topics f))) with (length (dimensions f)) by (cbn; by rewrite length_map). apply zeros_valid. Qed.
Lemma possibilities_count sha3 f : isRangeFilter f = false -> forall n iter l, valid (dimensions f) iter ->
  possibilities sha3 n f iter = Some l -> (length l + rank (rev (dimensions f)) (rev iter))%nat = combinations (dimensions f).
Proof.
  intros Hr n. induction n as [|n IH]; intros iter l Hv E; [done|]. cbn [possibilities] in E.
  rewrite bool_decide_false in E by (by apply possibility_nonempty). destruct (inc_iter (dimensions f) iter) as [iter'|] eqn:Ei.
  - destruct (inc_iter_Some _ _ _ Hv Ei) as [Hv' Hrk]. destruct (possibilities sha3 n f iter') as [l'|] eqn:El; [|done].
    injection E as <-. specialize (IH iter' l' Hv' El). cbn [app length]. lia.
  - injection E as <-. rewrite <- (inc_iter_None _ _ Hv Ei). done.
Qed.
(** The patterns and the filter's own test of a bloom. *)
Lemma possibilities_spec_eq (sha3 : list Z -> Z) (f : LogFilter) (b : LogBloom) :
  isRangeFilter f = false -> bloom_ok b ->
  exists l, bloomPossibilities sha3 f = Some l /\ existsb (contains b) l = matchesBloom sha3 f b.
Proof.
  intros Hr Hb. destruct (bloomPossibilities_spec sha3 f) as (l & El & Hl). exists l. split; [done|].
  apply eq_true_iff_eq. rewrite matchesBloom_all, forallb_choice by done. rewrite existsb_exists. split.
  - intros (p & [Hp (it & Hit & ->)]%list_elem_of_In%Hl & Hc). exists it. split; [by apply choice_valid|].
    rewrite possibility_pick in Hc by done. apply contains_le in Hc; [|by auto with bloom].
    intros h Hh. etrans; [|exact Hc]. apply shiftAll_has; [auto with bloom|done].
  - intros (it & Hch & Hall). pose proof (proj1 (choice_valid sha3 f it) Hch) as Hv.
    exists (possibility sha3 f it). rewrite <- list_elem_of_In, Hl, possibility_pick by done. repeat split.
    + rewrite <- possibility_pick by done. by apply possibility_nonempty.
    + exists it. split; [done|]. symmetry. by apply possibility_pick.
    + apply contains_le; [by auto with bloom|]. apply shiftAll_least; [done|by apply empty_le|done].
Qed.


(** [bloomPossibilities] ends, and testing a block's bloom against its patterns is the filter's own bloom test: for a filter
    that names an address or a topic, a bloom contains one of the patterns exactly when [LogFilter::matches( LogBloom )]
    accepts it; there is one pattern for each choice of an address and of a topic per position, and none is empty.  So
    the search of an index of blooms by these patterns loses no block the filter accepts, and finds no other. *)
Theorem possibilities_are_the_filter (sha3 : list Z -> Z) (f : LogFilter) :
  isRangeFilter f = false ->
  exists l, bloomPossibilities sha3 f = Some l /\ length l = combinations (dimensions f) /\ emptyBloom ∉ l /\
    forall b, bloom_ok b -> existsb (contains b) l = matchesBloom sha3 f b.
Proof.
  intros Hr. destruct (bloomPossibilities_spec sha3 f) as (l & El & Hl). exists l. split; [done|]. split; [|split].
  - assert (Hz : Forall (eq 0%nat) (rev (replicate (S (length (m_topics f))) 0%nat))).
    { apply Forall_rev, Forall_forall. intros x ?%elem_of_replicate_inv. done. }
    pose proof (possibilities_count sha3 f Hr _ _ _ (zeros_dimensions f) El) as Hc. by rewrite rank_zeros, Nat.add_0_r in Hc by done.
  - intros [? _]%Hl. done.
  - intros b Hb. destruct (possibilities_spec_eq sha3 f b Hr Hb) as (l' & El' & E). congruence.
Qed.

(** ** A filter, a log and witnesses *)
Module FilterExample.
(** A hash that spreads what it reads over its bytes. *)
Definition mix (bs : list Z) : Z := foldl (fun h x => Z.land (h * 16777619 + x) (Z.ones 256)) 2166136261 bs.
Definition bySender : LogFilter := mkLogFilter [5; 6] [[]; [7]; []; []] 0 10.
Definition sent : LogEntry := mkLog 5 [1; 7; 2] [].
Definition other : LogEntry := mkLog 9 [1; 7] [].
Definition short : LogEntry := mkLog 6 [1] [].
Lemma bounds_sent : in_bounds bySender sent.
Proof. intros [|[|[|[|i]]]] Hi Hn Hl; cbn in *; congruence. Qed.
Lemma bounds_other : in_bounds bySender other.
Proof. intros [|[|[|[|i]]]] Hi Hn Hl; cbn in *; congruence. Qed.
Lemma least bloom : bloom_le bloom bloom.
Proof. reflexivity. Qed.
End FilterExample.

Lemma receipt_filter_exact_witness :
  matches FilterExample.mix FilterExample.bySender (logsBloom FilterExample.mix [FilterExample.other; FilterExample.sent])
    [FilterExample.other; FilterExample.sent] = Some [FilterExample.sent].
Proof.
  apply (receipt_filter_exact FilterExample.mix FilterExample.bySender); [reflexivity|apply logsBloom_ok|apply FilterExample.least|].
  constructor; [apply FilterExample.bounds_other|constructor; [apply FilterExample.bounds_sent|constructor]].
Defined.
Lemma possibilities_are_the_filter_witness :
  exists l, bloomPossibilities FilterExample.mix FilterExample.bySender = Some l /\ length l = 2%nat /\
    existsb (contains (entryBloom FilterExample.mix FilterExample.sent)) l = true.
Proof.
  destruct (possibilities_are_the_filter FilterExample.mix FilterExample.bySender eq_refl) as (l & E & Hn & _ & H).
  exists l. split; [exact E|]. split; [exact Hn|]. rewrite H by apply entryBloom_ok. vm_compute. reflexivity.
Defined.
Example short_entry_reads_past : entryGood FilterExample.bySender FilterExample.short = None.
Proof. vm_compute. reflexivity. Qed.
