(* ===== verification/BloomIndex.v ===== *)
(** * BloomIndex: the index of block blooms of the block chain

    [BlocksBlooms] of libethereum/BlockDetails.h and the functions of libethereum/BlockChain.cpp and
    BlockChain.h that build the two-level index of blooms, search it and clear part of it.  The index
    is the map from chunk to its sixteen blooms that the cache [m_blocksBlooms] and the table
    [ExtraBlocksBlooms] hold together; a chunk that is in neither is sixteen empty blooms.  Block
    numbers are 32-bit unsigned. *)

From Stdlib Require Import ZArith Lia Bool.
From stdpp Require Import base list list_numbers gmap.
From S2P Require Import Prelude CommonData ExtVMFace LogFilter.
Open Scope Z_scope.

Definition c_bloomIndexSize : Z := 16.
Definition c_bloomIndexLevels : nat := 2.
Abbreviation BlocksBlooms := (list LogBloom).
Definition NullBlocksBlooms : BlocksBlooms := replicate 16 emptyBloom.
Abbreviation Index := (gmap Z (list LogBloom)).

Definition chunkId (level : nat) (index : Z) : Z := u32 (u32 (index * 255) + Z.of_nat level).
Definition blocksBlooms (ix : Index) (id : Z) : BlocksBlooms := default NullBlocksBlooms (ix !! id).
(** [blooms[ o ]]. *)
Definition bloomAt (bb : BlocksBlooms) (o : Z) : LogBloom := nth (Z.to_nat o) bb emptyBloom.
Definition blockBloom (ix : Index) (number : Z) : LogBloom :=
  bloomAt (blocksBlooms ix (chunkId 0 (number / c_bloomIndexSize))) (number mod c_bloomIndexSize).

(** The numbers [a, b). *)
Definition rangeZ (a b : Z) : list Z := seqZ a (b - a).

(** ** Insertion of a block *)

(** [m_blocksBlooms[ id ].blooms[ o ] = g( ... )]. *)
Definition setBloom (ix : Index) (id o : Z) (g : LogBloom -> LogBloom) : Index :=
  <[id := alter g (Z.to_nat o) (blocksBlooms ix id)]> ix.
Fixpoint noteLevels (levels : nat) (level : nat) (index : Z) (bloom : LogBloom) (ix : Index) : Index :=
  match levels with
  | O => ix
  | S n =>
      noteLevels n (S level) (index / c_bloomIndexSize) bloom
        (setBloom ix (chunkId level (index / c_bloomIndexSize)) (index mod c_bloomIndexSize) (fun old => orBloom old bloom))
  end.
Section Insertion.
Context (sha3 : list Z -> Z).
(** [blockBloomFull] of [import]: the union of the receipts' blooms. *)
Definition blockBloomFull (receipts : list LogBloom) : LogBloom := foldl orBloom emptyBloom receipts.
(** "Collate logs into blooms" of [prepareDbDataAndReturnSize]. *)
Definition collateBlooms (number author : Z) (full : LogBloom) (ix : Index) : Index :=
  noteLevels c_bloomIndexLevels 0 number (shiftBloom full (hashAddress sha3 author)) ix.
End Insertion.

(** ** Search *)

(** [upow]: [a] squared [b - 1] times. *)
Fixpoint squarings (n : nat) (a : Z) : Z := match n with O => a | S n' => squarings n' (u32 (a * a)) end.
Definition upow (a : Z) (b : nat) : Z := match b with O => 1 | S b' => squarings b' a end.

Fixpoint withBlockBloomAt (ix : Index) (b : LogBloom) (earliest latest : Z) (level : nat) (index : Z) : list Z :=
  let uCourse := upow c_bloomIndexSize (S level) in
  let uFine := upow c_bloomIndexSize level in
  let obegin := if index =? earliest / uCourse then (earliest / uFine) mod c_bloomIndexSize else 0 in
  let oend := if index =? latest / uCourse then (latest / uFine) mod c_bloomIndexSize + 1 else c_bloomIndexSize in
  let bb := blocksBlooms ix (chunkId level index) in
  concat (map (fun o =>
    if contains (bloomAt bb o) b then
      match level with
      | S level' => withBlockBloomAt ix b earliest latest level' (u32 (o + u32 (index * c_bloomIndexSize)))
      | O => [u32 (o + u32 (index * c_bloomIndexSize))]
      end
    else []) (rangeZ obegin oend)).
Definition withBlockBloom (ix : Index) (b : LogBloom) (earliest latest : Z) : list Z :=
  let u := upow c_bloomIndexSize c_bloomIndexLevels in
  concat (map (withBlockBloomAt ix b earliest latest (pred c_bloomIndexLevels)) (rangeZ (earliest / u) (latest / u + 1))).

(** ** Clearing *)

(** The loop [item = begin; item != end; ++item] on 32-bit numbers. *)
Definition dirtyItems (beginDirty endDirty : Z) : list Z := map (fun k => u32 (beginDirty + k)) (rangeZ 0 (u32 (endDirty - beginDirty))).
Definition clearItem (level : nat) (ix : Index) (item : Z) : Index :=
  let acc := match level with
             | O => emptyBloom
             | S level' => foldl orBloom emptyBloom (blocksBlooms ix (chunkId level' item))
             end in
  setBloom ix (chunkId level (item / c_bloomIndexSize)) (item mod c_bloomIndexSize) (fun _ => acc).
Fixpoint clearLevels (levels : nat) (level : nat) (beginDirty endDirty : Z) (ix : Index) : Index :=
  match levels with
  | O => ix
  | S n => clearLevels n (S level) (beginDirty / c_bloomIndexSize) (u32 (u32 (endDirty - 1) / c_bloomIndexSize + 1))
             (foldl (clearItem level) ix (dirtyItems beginDirty endDirty))
  end.
Definition clearBlockBlooms (begin_ end_ : Z) (ix : Index) : Index := clearLevels c_bloomIndexLevels 0 begin_ end_ ix.

(** ** Chunk identifiers

    [chunkId] wraps at 32 bits, but 255 is odd and the chunks of the two levels of 32-bit numbers stay apart. *)

Lemma chunkId_mod level i : chunkId level i = (i * 255 + Z.of_nat level) mod 2 ^ 32.
Proof. unfold chunkId, wrap. rewrite Zplus_mod_idemp_l. done. Qed.
Lemma chunkId_inj_0 i j : 0 <= i < 2 ^ 28 -> 0 <= j < 2 ^ 28 -> chunkId 0 i = chunkId 0 j -> i = j.
Proof. intros Hi Hj. rewrite !chunkId_mod. cbn. Z.to_euclidean_division_equations. lia. Qed.
Lemma chunkId_inj_1 i j : 0 <= i < 2 ^ 24 -> 0 <= j < 2 ^ 24 -> chunkId 1 i = chunkId 1 j -> i = j.
Proof. intros Hi Hj. rewrite !chunkId_mod. cbn. Z.to_euclidean_division_equations. lia. Qed.
Lemma chunkId_levels i j : 0 <= i < 2 ^ 28 -> 0 <= j < 2 ^ 24 -> chunkId 0 i <> chunkId 1 j.
Proof. intros Hi Hj. rewrite !chunkId_mod. cbn. Z.to_euclidean_division_equations. lia. Qed.

(** ** Reading what was written *)

(** Item [k] of level [level]: block [k] of level 0, sixteen blocks from [16 k] on level 1. *)
Definition levelBloom (ix : Index) (level : nat) (k : Z) : LogBloom :=
  bloomAt (blocksBlooms ix (chunkId level (k / c_bloomIndexSize))) (k mod c_bloomIndexSize).
Definition slot_ok (level : nat) (k : Z) : Prop := (level = 0%nat /\ 0 <= k < 2 ^ 32) \/ (level = 1%nat /\ 0 <= k < 2 ^ 28).
Definition chunk_ok (bb : BlocksBlooms) : Prop := length bb = 16%nat /\ Forall bloom_ok bb.
Definition chunks_ok (ix : Index) : Prop := forall id bb, ix !! id = Some bb -> chunk_ok bb.

Lemma blockBloom_level ix n : blockBloom ix n = levelBloom ix 0 n.
Proof. done. Qed.
Lemma Null_ok : chunk_ok NullBlocksBlooms.
Proof. split; [done|]. apply Forall_replicate. done. Qed.
Lemma blocksBlooms_ok ix id : chunks_ok ix -> chunk_ok (blocksBlooms ix id).
Proof. intros Hok. unfold blocksBlooms. destruct (ix !! id) eqn:E; [by eapply Hok|apply Null_ok]. Qed.
Lemma bloomAt_ok bb o : chunk_ok bb -> bloom_ok (bloomAt bb o).
Proof.
  intros [Hl Hf]. unfold bloomAt. destruct (nth_in_or_default (Z.to_nat o) bb emptyBloom) as [Hin| ->]; [|done].
  apply list_elem_of_In in Hin. by eapply Forall_forall in Hf.
Qed.
Lemma levelBloom_ok ix level k : chunks_ok ix -> bloom_ok (levelBloom ix level k).
Proof. intros. by apply bloomAt_ok, blocksBlooms_ok. Qed.
#[export] Hint Resolve levelBloom_ok : bloom.

Lemma item_chunk level k level' k' : slot_ok level k -> slot_ok level' k' ->
  chunkId level (k / 16) = chunkId level' (k' / 16) -> level = level' /\ k / 16 = k' / 16.
Proof.
  assert (Hd : forall m, 0 <= m < 2 ^ 32 -> 0 <= m / 16 < 2 ^ 28) by (intros; Z.to_euclidean_division_equations; lia).
  assert (Hd' : forall m, 0 <= m < 2 ^ 28 -> 0 <= m / 16 < 2 ^ 24) by (intros; Z.to_euclidean_division_equations; lia).
  intros [[-> Hk]|[-> Hk]] [[-> Hk']|[-> Hk']] E.
  - split; [done|]. apply chunkId_inj_0; auto.
  - exfalso. by apply (chunkId_levels (k / 16) (k' / 16)); auto.
  - exfalso. by apply (chunkId_levels (k' / 16) (k / 16)); auto.
  - split; [done|]. apply chunkId_inj_1; auto.
Qed.
Lemma alter_ok g o bb : (forall b, bloom_ok b -> bloom_ok (g b)) -> chunk_ok bb -> chunk_ok (alter g o bb).
Proof. intros Hg [Hl Hf]. split; [by rewrite length_alter|]. apply Forall_alter; [done|]. eauto. Qed.
Lemma setBloom_chunks ix id o g : (forall b, bloom_ok b -> bloom_ok (g b)) -> chunks_ok ix -> chunks_ok (setBloom ix id o g).
Proof.
  intros Hg Hok id' bb E. unfold setBloom in E. destruct (decide (id' = id)) as [->|Hne].
  - rewrite lookup_insert_eq in E. injection E as <-. apply alter_ok; [done|by apply blocksBlooms_ok].
  - rewrite lookup_insert_ne in E by done. by eapply Hok.
Qed.
Lemma bloomAt_alter_eq g o bb : chunk_ok bb -> 0 <= o < 16 -> bloomAt (alter g (Z.to_nat o) bb) o = g (bloomAt bb o).
Proof.
  intros [Hl _] Ho. unfold bloomAt. destruct (lookup_lt_is_Some_2 bb (Z.to_nat o)) as [b Eb]; [lia|].
  rewrite (nth_lookup_Some _ _ _ _ Eb). apply nth_lookup_Some. by rewrite list_lookup_alter_eq, Eb.
Qed.
Lemma bloomAt_alter_ne g o o' bb : 0 <= o -> 0 <= o' -> o <> o' -> bloomAt (alter g (Z.to_nat o) bb) o' = bloomAt bb o'.
Proof. intros. unfold bloomAt. rewrite !nth_lookup, list_lookup_alter_ne by lia. done. Qed.
Lemma setBloom_same ix level k g : chunks_ok ix ->
  levelBloom (setBloom ix (chunkId level (k / 16)) (k mod 16) g) level k = g (levelBloom ix level k).
Proof.
  intros Hok. unfold levelBloom, setBloom, c_bloomIndexSize. unfold blocksBlooms at 1. rewrite lookup_insert_eq. cbn [default from_option].
  apply bloomAt_alter_eq; [by apply blocksBlooms_ok|]. apply Z.mod_pos_bound. lia.
Qed.
Lemma setBloom_other ix level k level' k' g : slot_ok level k -> slot_ok level' k' -> (level, k) <> (level', k') ->
  levelBloom (setBloom ix (chunkId level (k / 16)) (k mod 16) g) level' k' = levelBloom ix level' k'.
Proof.
  intros Hk Hk' Hne. unfold levelBloom, setBloom, c_bloomIndexSize. unfold blocksBlooms at 1.
  destruct (decide (chunkId level (k / 16) = chunkId level' (k' / 16))) as [E|E].
  - destruct (item_chunk _ _ _ _ Hk Hk' E) as [-> Ed]. rewrite E, lookup_insert_eq. cbn [default from_option].
    assert (k mod 16 <> k' mod 16).
    { intros Em. apply Hne. f_equal. rewrite (Z.div_mod k 16), (Z.div_mod k' 16) by lia. by rewrite Ed, Em. }
    apply bloomAt_alter_ne; [apply Z.mod_pos_bound; lia..|done].
  - rewrite lookup_insert_ne by done. done.
Qed.

(** ** The invariant: a coarse bloom covers its sixteen blocks *)

Definition index_ok (ix : Index) : Prop :=
  chunks_ok ix /\ forall n, 0 <= n < 2 ^ 32 -> bloom_le (levelBloom ix 0 n) (levelBloom ix 1 (n / 16)).
Lemma div16_item n : 0 <= n < 2 ^ 32 -> slot_ok 1 (n / 16).
Proof. intros. right. split; [done|]. Z.to_euclidean_division_equations. lia. Qed.
Lemma block_item n : 0 <= n < 2 ^ 32 -> slot_ok 0 n.
Proof. intros. by left. Qed.
#[export] Hint Resolve div16_item block_item : bloom.

Lemma empty_bloomAt id o : bloomAt (blocksBlooms ∅ id) o = emptyBloom.
Proof.
  unfold blocksBlooms. rewrite lookup_empty. cbn [default from_option]. unfold bloomAt, NullBlocksBlooms. rewrite nth_lookup.
  destruct (replicate 16 emptyBloom !! Z.to_nat o) as [b|] eqn:E; [|done]. apply lookup_replicate in E as [-> _]. done.
Qed.
Lemma empty_index_ok : index_ok ∅.
Proof.
  split; [intros id bb E; by rewrite lookup_empty in E|]. intros n Hn. unfold levelBloom. rewrite !empty_bloomAt. reflexivity.
Qed.

(** One insertion: the block's own bloom grows, no other does, and the coarse level follows. *)
Lemma collate_spec (sha3 : list Z -> Z) (ix : Index) (number author : Z) (full : LogBloom) :
  index_ok ix -> 0 <= number < 2 ^ 32 -> bloom_ok full ->
  let ix' := collateBlooms sha3 number author full ix in
  index_ok ix' /\
  blockBloom ix' number = orBloom (blockBloom ix number) (shiftBloom full (hashAddress sha3 author)) /\
  (forall m, 0 <= m < 2 ^ 32 -> m <> number -> blockBloom ix' m = blockBloom ix m).
Proof.
  intros [Hc Hle] Hn Hf. set (bloom := shiftBloom full (hashAddress sha3 author)). assert (Hb : bloom_ok bloom) by (by apply shiftBloom_ok).
  set (ix1 := setBloom ix (chunkId 0 (number / 16)) (number mod 16) (fun old => orBloom old bloom)).
  intros ix'. change ix' with (setBloom ix1 (chunkId 1 (number / 16 / 16)) ((number / 16) mod 16) (fun old => orBloom old bloom)).
  clear ix'. assert (Hc1 : chunks_ok ix1) by (apply setBloom_chunks; [intros; by apply orBloom_ok|done]). set (ix2 := setBloom ix1 _ _ _).
  assert (F : forall m, 0 <= m < 2 ^ 32 -> levelBloom ix2 0 m = levelBloom ix1 0 m).
  { intros m Hm. apply setBloom_other; auto with bloom. }
  assert (Fo : forall m, 0 <= m < 2 ^ 32 -> m <> number -> levelBloom ix2 0 m = levelBloom ix 0 m).
  { intros m Hm Hne. rewrite F by done. apply setBloom_other; auto with bloom. congruence. }
  assert (Fs : levelBloom ix2 0 number = orBloom (levelBloom ix 0 number) bloom).
  { rewrite F by done. by apply (setBloom_same ix 0 number). }
  assert (C1 : forall m, 0 <= m < 2 ^ 32 -> levelBloom ix1 1 (m / 16) = levelBloom ix 1 (m / 16)).
  { intros m Hm. apply setBloom_other; auto with bloom. }
  assert (Hc2 : chunks_ok ix2) by (apply setBloom_chunks; [intros; by apply orBloom_ok|done]).
  split; [split; [done|]|split; [exact Fs|intros m Hm Hne; by apply Fo]].
  intros m Hm. destruct (decide (m / 16 = number / 16)) as [Ed|Ed].
  - rewrite Ed. unfold ix2. rewrite (setBloom_same ix1 1 (number / 16)) by done. fold ix2. rewrite C1 by done.
    pose proof (Hle m Hm) as Hlem. rewrite Ed in Hlem. destruct (decide (m = number)) as [->|Hne].
    + rewrite Fs. apply or_mono; [done|reflexivity|]. auto with bloom.
    + rewrite Fo by done. apply or_le_l; [done|]. auto with bloom.
  - rewrite Fo by (done || congruence). unfold ix2. rewrite setBloom_other by (auto with bloom; congruence). rewrite C1 by done. auto.
Qed.

Lemma foldl_or_ok b bs : bloom_ok b -> Forall bloom_ok bs -> bloom_ok (foldl orBloom b bs).
Proof. intros Hb Hf. revert b Hb. induction Hf; intros b Hb; [done|]. cbn. auto with bloom. Qed.
Lemma foldl_or_grows b bs : bloom_ok b -> Forall bloom_ok bs -> bloom_le b (foldl orBloom b bs).
Proof.
  intros Hb Hf. revert b Hb. induction Hf; intros b Hb; [reflexivity|]. cbn. etrans; [|apply IHHf; auto with bloom].
  apply or_le_l; [reflexivity|auto with bloom].
Qed.
Lemma foldl_or_has b bs x : bloom_ok b -> Forall bloom_ok bs -> x ∈ bs -> bloom_le x (foldl orBloom b bs).
Proof.
  intros Hb Hf. revert b Hb. induction Hf as [|y bs Hy Hf IH]; intros b Hb; [by intros ?%elem_of_nil|]. intros [->|Hin]%elem_of_cons; cbn.
  - etrans; [|apply foldl_or_grows; auto with bloom]. apply or_le_r. auto with bloom.
  - apply IH; auto with bloom.
Qed.

(** Insertion of a block with its receipts' blooms, and of a chain of blocks. *)
Record BlockBlooms := mkBlockBlooms { bb_number : Z; bb_author : Z; bb_receipts : list LogBloom }.
Definition insertBlooms (sha3 : list Z -> Z) (ix : Index) (blk : BlockBlooms) : Index :=
  collateBlooms sha3 (bb_number blk) (bb_author blk) (blockBloomFull (bb_receipts blk)) ix.
Definition block_ok (blk : BlockBlooms) : Prop := 0 <= bb_number blk < 2 ^ 32 /\ Forall bloom_ok (bb_receipts blk).
Lemma insertBlooms_spec sha3 ix blk : index_ok ix -> block_ok blk ->
  index_ok (insertBlooms sha3 ix blk) /\
  (forall n, 0 <= n < 2 ^ 32 -> bloom_le (blockBloom ix n) (blockBloom (insertBlooms sha3 ix blk) n)) /\
  (forall r, r ∈ bb_receipts blk -> bloom_le r (blockBloom (insertBlooms sha3 ix blk) (bb_number blk))) /\
  (forall n, 0 <= n < 2 ^ 32 -> n <> bb_number blk -> blockBloom (insertBlooms sha3 ix blk) n = blockBloom ix n).
Proof.
  intros Hix [Hn Hr]. pose proof (foldl_or_ok emptyBloom _ empty_bloom_ok Hr) as Hf.
  destruct (collate_spec sha3 ix (bb_number blk) (bb_author blk) _ Hix Hn Hf) as (Hix' & Hs & Ho).
  change (collateBlooms _ _ _ _ _) with (insertBlooms sha3 ix blk) in *. set (ix' := insertBlooms sha3 ix blk) in *. destruct Hix as [Hc Hle].
  assert (Hg : bloom_ok (shiftBloom (foldl orBloom emptyBloom (bb_receipts blk)) (hashAddress sha3 (bb_author blk)))) by auto with bloom.
  split; [exact Hix'|]. split; [|split; [|exact Ho]].
  - intros n Hn'. destruct (decide (n = bb_number blk)) as [->|Hne]; [|by rewrite Ho].
    rewrite Hs. apply or_le_l; [reflexivity|]. apply bloom_ok_length; [done|by apply levelBloom_ok].
  - intros r Hin. rewrite Hs. etrans; [apply (foldl_or_has emptyBloom), Hin; done|]. etrans; [apply shift_grows; done|].
    apply or_le_r, bloom_ok_length; [by apply levelBloom_ok|done].
Qed.

(** An index built from blocks. *)
Lemma chain_index (sha3 : list Z -> Z) (blocks : list BlockBlooms) :
  Forall block_ok blocks ->
  let ix := foldl (insertBlooms sha3) ∅ blocks in
  index_ok ix /\
  (forall blk r, blk ∈ blocks -> r ∈ bb_receipts blk -> bloom_le r (blockBloom ix (bb_number blk))) /\
  (forall n, 0 <= n < 2 ^ 32 -> n ∉ map bb_number blocks -> blockBloom ix n = emptyBloom).
Proof.
  intros Hf. cbv zeta. induction blocks as [|blk blocks IH] using rev_ind.
  { split; [apply empty_index_ok|]. split; [by intros blk r ?%elem_of_nil|]. intros n Hn _. apply empty_bloomAt. }
  apply Forall_app in Hf as [Hf [Hblk _]%Forall_cons]. destruct (IH Hf) as (Hix & Hcov & Hout). clear IH. rewrite foldl_app. cbn [foldl].
  destruct (insertBlooms_spec sha3 _ blk Hix Hblk) as (Hix' & Hgrow & Hown & Hother). split; [done|]. split.
  - intros blk' r [Hin| ->%list_elem_of_singleton]%elem_of_app Hr; [|by apply Hown].
    etrans; [by apply (Hcov blk')|]. apply Hgrow. eapply Forall_forall in Hf; [|exact Hin]. apply Hf.
  - intros n Hn Hnot. rewrite map_app, not_elem_of_app in Hnot. destruct Hnot as [Hn1 Hn2]. rewrite Hother; [by apply Hout|done|].
    intros ->. apply Hn2. by apply list_elem_of_singleton.
Qed.

(** ** Ranges *)

Lemma elem_of_rangeZ k a b : k ∈ rangeZ a b <-> a <= k < b.
Proof. unfold rangeZ. rewrite elem_of_seqZ. lia. Qed.
Lemma rangeZ_split a m b : a <= m <= b -> rangeZ a b = rangeZ a m ++ rangeZ m b.
Proof.
  intros. unfold rangeZ. replace (b - a) with ((m - a) + (b - m)) by lia. rewrite seqZ_app by lia. do 2 f_equal. lia.
Qed.
Lemma rangeZ_nil a b : b <= a -> rangeZ a b = [].
Proof. intros. unfold rangeZ. apply seqZ_nil. lia. Qed.
Lemma rangeZ_cons a b : a < b -> rangeZ a b = a :: rangeZ (a + 1) b.
Proof. intros. unfold rangeZ. rewrite seqZ_cons by lia. f_equal. unfold Z.succ. f_equal; lia. Qed.
Lemma rangeZ_shift c a b : map (fun o => o + c) (rangeZ a b) = rangeZ (a + c) (b + c).
Proof.
  unfold rangeZ. replace (b + c - (a + c)) with (b - a) by lia. rewrite (Z.add_comm a c), <- fmap_add_seqZ. apply list_fmap_ext.
  intros. lia.
Qed.

(** Cutting [earliest, latest] at the multiples of [s]. *)
Definition part (s e l k : Z) : list Z := rangeZ (Z.max e (s * k)) (Z.min l (s * k + s - 1) + 1).
Lemma parts_from (s e l j : Z) : 0 < s -> 0 <= e <= l -> e / s <= j <= l / s ->
  concat (map (part s e l) (rangeZ j (l / s + 1))) = rangeZ (Z.max e (s * j)) (l + 1).
Proof.
  intros Hs He Hj. remember (Z.to_nat (l / s - j)) as d eqn:Ed. revert j Hj Ed.
  induction d as [|d IH]; intros j Hj Ed; rewrite rangeZ_cons by lia; cbn [map concat].
  - assert (j = l / s) as -> by lia. rewrite rangeZ_nil by lia. cbn [map concat]. rewrite app_nil_r. unfold part. f_equal.
    pose proof (Z.div_mod l s ltac:(lia)). pose proof (Z.mod_pos_bound l s Hs). lia.
  - rewrite IH by lia. unfold part.
    assert (s * (j + 1) <= l) by (pose proof (Z.mul_div_le l s Hs); nia).
    assert (e <= s * j + s - 1).
    { pose proof (Z.div_mod e s ltac:(lia)). pose proof (Z.mod_pos_bound e s Hs). nia. }
    replace (Z.min l (s * j + s - 1) + 1) with (s * (j + 1)) by lia. replace (Z.max e (s * (j + 1))) with (s * (j + 1)) by lia.
    symmetry. apply rangeZ_split. nia.
Qed.
Lemma parts_all (s e l : Z) : 0 < s -> 0 <= e <= l -> concat (map (part s e l) (rangeZ (e / s) (l / s + 1))) = rangeZ e (l + 1).
Proof.
  intros Hs He. rewrite parts_from; [|done..|]; [|split; [lia|apply Z.div_le_mono; lia]].
  f_equal. pose proof (Z.mul_div_le e s Hs). lia.
Qed.

Lemma concat_ext {A B} (g h : A -> list B) l : (forall x, x ∈ l -> g x = h x) -> concat (map g l) = concat (map h l).
Proof.
  intros H. f_equal. apply list_fmap_ext. intros i x Hx. apply H. by eapply list_elem_of_lookup_2.
Qed.
Lemma parts_of_part (e l K : Z) : 0 <= e <= l -> 0 <= K -> e / 16 / 16 <= K <= l / 16 / 16 ->
  concat (map (part 16 e l) (part 16 (e / 16) (l / 16) K)) = part (16 * 16) e l K.
Proof.
  intros He H0 HK. set (e' := Z.max e (16 * 16 * K)). set (l' := Z.min l (16 * 16 * K + 16 * 16 - 1)).
  assert (e' <= l') by (unfold e', l'; Z.to_euclidean_division_equations; lia).
  replace (part 16 (e / 16) (l / 16) K) with (rangeZ (e' / 16) (l' / 16 + 1)).
  2: { unfold part. f_equal; unfold e', l'; Z.to_euclidean_division_equations; lia. }
  change (part (16 * 16) e l K) with (rangeZ e' (l' + 1)). rewrite <- (parts_all 16 e' l') by lia.
  apply concat_ext. intros k Hk%elem_of_rangeZ. unfold part. f_equal; unfold e', l' in *; Z.to_euclidean_division_equations; lia.
Qed.

Lemma concat_filter {A} (P : A -> bool) (ls : list (list A)) : concat (map (List.filter P) ls) = List.filter P (concat ls).
Proof. induction ls as [|x ls IH]; [done|]. cbn. by rewrite IH, List.filter_app. Qed.
Lemma concat_choice {A B} (P : B -> bool) (g : A -> B) l :
  concat (map (fun o => if P (g o) then [g o] else []) l) = List.filter P (map g l).
Proof. induction l as [|x l IH]; [done|]. cbn. rewrite IH. by destruct (P (g x)). Qed.

(** ** The search *)

(** The first and last item of the loop of [withBlockBloomAt], as numbers of items of its level. *)
Lemma obegin_item x k : (if k =? x / 16 then x mod 16 else 0) + 16 * k = Z.max x (16 * k) \/ k < x / 16.
Proof. destruct (Z.eqb_spec k (x / 16)); Z.to_euclidean_division_equations; lia. Qed.
Lemma oend_item x k : (if k =? x / 16 then x mod 16 + 1 else 16) + 16 * k = Z.min x (16 * k + 15) + 1 \/ x / 16 < k.
Proof. destruct (Z.eqb_spec k (x / 16)); Z.to_euclidean_division_equations; lia. Qed.
Lemma part_items (x y k : Z) : x / 16 <= k <= y / 16 ->
  map (fun o => o + 16 * k) (rangeZ (if k =? x / 16 then x mod 16 else 0) (if k =? y / 16 then y mod 16 + 1 else 16)) = part 16 x y k.
Proof.
  intros Hk. rewrite rangeZ_shift. unfold part. f_equal.
  - destruct (obegin_item x k); lia.
  - destruct (oend_item y k); lia.
Qed.
Lemma item_of o k : 0 <= o < 16 -> (o + 16 * k) / 16 = k /\ (o + 16 * k) mod 16 = o.
Proof. intros. Z.to_euclidean_division_equations. lia. Qed.
Lemma offsets_bound x y k o :
  o ∈ rangeZ (if k =? x / 16 then x mod 16 else 0) (if k =? y / 16 then y mod 16 + 1 else 16) -> 0 <= o < 16.
Proof.
  rewrite elem_of_rangeZ. pose proof (Z.mod_pos_bound x 16 ltac:(lia)). pose proof (Z.mod_pos_bound y 16 ltac:(lia)).
  destruct (k =? x / 16), (k =? y / 16); lia.
Qed.
(** One level of the search, by the items of that level. *)
Lemma search_items {A} (x y k : Z) (g : Z -> list A) (h : Z -> list A) : x / 16 <= k <= y / 16 -> 0 <= k -> y < 2 ^ 32 ->
  (forall o, 0 <= o < 16 -> Z.max x (16 * k) <= o + 16 * k <= y -> g o = h (o + 16 * k)) ->
  concat (map g (rangeZ (if k =? x / 16 then x mod 16 else 0) (if k =? y / 16 then y mod 16 + 1 else 16))) =
  concat (map h (part 16 x y k)).
Proof.
  intros Hk H0 Hy Hg. rewrite <- part_items by done. rewrite map_map. apply concat_ext. intros o Ho.
  apply Hg; [by eapply offsets_bound|]. apply elem_of_rangeZ in Ho. pose proof (obegin_item x k). pose proof (oend_item y k). lia.
Qed.
Lemma item_u32 o k y : 0 <= o < 16 -> 0 <= k -> o + 16 * k <= y -> y < 2 ^ 32 -> u32 (o + u32 (k * 16)) = o + 16 * k.
Proof. intros. unfold wrap. rewrite Zplus_mod_idemp_r. rewrite Z.mod_small; lia. Qed.

Section Search.
Context (ix : Index) (b : LogBloom) (e l : Z).
Context (Hix : index_ok ix) (Hb : bloom_ok b) (He : 0 <= e) (Hel : e <= l) (Hl : l < 2 ^ 32).
Definition hit (n : Z) : bool := contains (blockBloom ix n) b.

Lemma level0_search k : 0 <= k -> e / 16 <= k <= l / 16 -> withBlockBloomAt ix b e l 0 k = List.filter hit (part 16 e l k).
Proof.
  intros H0 Hk. cbn [withBlockBloomAt]. change (upow c_bloomIndexSize 1) with 16. change (upow c_bloomIndexSize 0) with 1. rewrite !Z.div_1_r.
  unfold c_bloomIndexSize. rewrite <- (map_id (part 16 e l k)), <- concat_choice. apply search_items; [done..|].
  intros o Ho Hr. rewrite (item_u32 o k l) by lia. unfold hit, blockBloom, c_bloomIndexSize. destruct (item_of o k Ho) as [-> ->]. done.
Qed.
(** A coarse bloom that does not contain the pattern has no block that does. *)
Lemma coarse_miss k n : 0 <= n < 2 ^ 32 -> n / 16 = k -> contains (levelBloom ix 1 k) b = false -> hit n = false.
Proof.
  intros Hn <- Hc. destruct Hix as [Hch Hle]. destruct (hit n) eqn:Eh; [|done]. unfold hit in Eh.
  apply contains_le in Eh; [|by apply bloom_ok_length, bloomAt_ok, blocksBlooms_ok].
  rewrite (proj2 (contains_le (levelBloom ix 1 (n / 16)) b ltac:(auto with bloom))) in Hc; [done|]. etrans; [exact Eh|]. by apply Hle.
Qed.
Lemma level1_search K : 0 <= K -> e / 256 <= K <= l / 256 -> withBlockBloomAt ix b e l 1 K = List.filter hit (part 256 e l K).
Proof.
  intros H0 HK. cbn [withBlockBloomAt]. change (upow c_bloomIndexSize 2) with 256. change (upow c_bloomIndexSize 1) with 16.
  unfold c_bloomIndexSize. change 256 with (16 * 16) in *. rewrite <- !Z.div_div in * by lia.
  rewrite (search_items (e / 16) (l / 16) K _ (fun k => List.filter hit (part 16 e l k))); [|done..| |].
  - rewrite <- map_map, concat_filter. f_equal. by apply parts_of_part.
  - Z.to_euclidean_division_equations. lia.
  - intros o Ho Hr. rewrite (item_u32 o K (l / 16)) by (Z.to_euclidean_division_equations; lia).
    destruct (contains (bloomAt (blocksBlooms ix (chunkId 1 K)) o) b) eqn:Ec; [apply level0_search; lia|].
    symmetry. apply filter_all_false. intros n Hn. apply (coarse_miss (o + 16 * K)).
    + apply elem_of_rangeZ in Hn. lia.
    + apply elem_of_rangeZ in Hn. Z.to_euclidean_division_equations. lia.
    + unfold levelBloom, c_bloomIndexSize. destruct (item_of o K Ho) as [-> ->]. done.
Qed.
End Search.

Lemma le_empty b : bloom_le b emptyBloom -> b = emptyBloom.
Proof.
  unfold bloom_le, emptyBloom. generalize 256%nat. intros k. revert b. induction k as [|k IH]; intros b H; inversion H as [|? ? ? ? E H']; subst; [done|].
  cbn [replicate]. f_equal; [by rewrite Z.land_0_l in E|by apply IH].
Qed.
Lemma search_scan (ix : Index) (b : LogBloom) (earliest latest : Z) :
  index_ok ix -> bloom_ok b -> 0 <= earliest <= latest -> latest < 2 ^ 32 ->
  withBlockBloom ix b earliest latest = List.filter (fun n => contains (blockBloom ix n) b) (rangeZ earliest (latest + 1)).
Proof.
  intros Hix Hb He Hl. unfold withBlockBloom. change (upow c_bloomIndexSize c_bloomIndexLevels) with 256.
  rewrite <- (parts_all 256 earliest latest), <- concat_filter, map_map by lia. apply concat_ext. intros K HK%elem_of_rangeZ.
  pose proof (Z.div_pos earliest 256 ltac:(lia) ltac:(lia)). apply level1_search; try done; lia.
Qed.

(** The search of the index is a linear scan: for a chain of inserted blocks, a pattern and a range of blocks, [withBlockBloom]
    returns exactly the numbers of the range whose block's bloom contains the pattern, each once and in increasing order.
    The descent through the coarse level loses no block; and a number whose block was not inserted is found only when
    the pattern is empty. *)
Theorem search_is_scan (sha3 : list Z -> Z) (blocks : list BlockBlooms) (b : LogBloom) (earliest latest : Z) :
  Forall block_ok blocks -> bloom_ok b -> 0 <= earliest <= latest -> latest < 2 ^ 32 ->
  let ix := foldl (insertBlooms sha3) ∅ blocks in
  withBlockBloom ix b earliest latest = List.filter (fun n => contains (blockBloom ix n) b) (rangeZ earliest (latest + 1)) /\
  (b <> emptyBloom -> forall n, n ∈ withBlockBloom ix b earliest latest -> n ∈ map bb_number blocks).
Proof.
  intros Hbl Hb He Hl ix. destruct (chain_index sha3 blocks Hbl) as (Hix & _ & Hout). fold ix in Hix, Hout.
  assert (E := search_scan ix b earliest latest Hix Hb He Hl). split; [exact E|]. intros Hne n. rewrite E.
  intros [Hn Hc]%list_elem_of_In%List.filter_In. apply list_elem_of_In, elem_of_rangeZ in Hn.
  destruct (decide (n ∈ map bb_number blocks)) as [|Hnot]; [done|]. exfalso. rewrite Hout in Hc by (done || lia).
  apply contains_le in Hc; [|by apply bloom_ok_length]. apply Hne. by apply le_empty.
Qed.

(** ** Clearing part of the index *)

Lemma dirtyItems_range b e : 0 <= b <= e -> e < 2 ^ 32 -> dirtyItems b e = rangeZ b e.
Proof.
  intros Hb He. unfold dirtyItems. rewrite wrap_small by lia. replace (rangeZ b e) with (rangeZ (0 + b) (e - b + b)) by (f_equal; lia).
  rewrite <- rangeZ_shift. apply map_ext_in. intros k Hk%list_elem_of_In%elem_of_rangeZ. rewrite wrap_small; lia.
Qed.
(** What [clearItem] writes into item [item]. *)
Definition accumulated (level : nat) (ix : Index) (item : Z) : LogBloom :=
  match level with O => emptyBloom | S level' => foldl orBloom emptyBloom (blocksBlooms ix (chunkId level' item)) end.
Lemma accumulated_ok level ix item : chunks_ok ix -> bloom_ok (accumulated level ix item).
Proof. intros Hc. destruct level; [done|]. apply foldl_or_ok; [done|]. apply (blocksBlooms_ok ix); done. Qed.

(** The lower chunks an item of a level is rebuilt from are not the chunks of that level. *)
Lemma accumulated_stable level ix item item' g : slot_ok level item -> slot_ok level item' ->
  accumulated level (setBloom ix (chunkId level (item / 16)) (item mod 16) g) item' = accumulated level ix item'.
Proof.
  intros [[-> Hi]|[-> Hi]] [[? Hi']|[? Hi']]; try done. cbn [accumulated]. unfold setBloom. unfold blocksBlooms at 1.
  rewrite lookup_insert_ne; [done|]. intros E. symmetry in E. revert E. apply chunkId_levels; [lia|]. Z.to_euclidean_division_equations. lia.
Qed.
(** A pass over the items of one level. *)
Lemma clear_pass level items ix : chunks_ok ix -> Forall (slot_ok level) items ->
  let ix' := foldl (clearItem level) ix items in
  chunks_ok ix' /\
  forall level' k, slot_ok level' k ->
    levelBloom ix' level' k = if decide (level' = level /\ k ∈ items) then accumulated level ix k else levelBloom ix level' k.
Proof.
  intros Hc Hf. revert ix Hc. induction Hf as [|item items Hi Hf IH]; intros ix Hc; cbn [foldl].
  - split; [done|]. intros level' k Hk. rewrite decide_False; [done|]. intros [_ ?%elem_of_nil]. done.
  - set (ix1 := clearItem level ix item).
    assert (E1 : ix1 = setBloom ix (chunkId level (item / 16)) (item mod 16) (fun _ => accumulated level ix item)) by (by destruct level).
    assert (Hc1 : chunks_ok ix1) by (rewrite E1; apply setBloom_chunks; [intros; by apply accumulated_ok|done]).
    destruct (IH ix1 Hc1) as [Hc' Hr]. split; [done|]. intros level' k Hk. rewrite Hr by done. clear Hr IH.
    destruct (decide (level' = level /\ k ∈ items)) as [[-> Hin]|Hn].
    + rewrite decide_True by (split; [done|apply elem_of_cons; by right]). rewrite E1. apply accumulated_stable; [done|].
      by eapply Forall_forall in Hf.
    + destruct (decide (level' = level /\ k ∈ item :: items)) as [[-> [->|Hin]%elem_of_cons]|Hn'].
      * rewrite E1. by rewrite setBloom_same.
      * by destruct Hn.
      * rewrite E1. apply setBloom_other; [done..|]. intros [= -> ->]. apply Hn'. split; [done|apply elem_of_cons; by left].
Qed.
Lemma chunk_has ix n : chunks_ok ix -> levelBloom ix 0 n ∈ blocksBlooms ix (chunkId 0 (n / 16)).
Proof.
  intros Hc. destruct (blocksBlooms_ok ix (chunkId 0 (n / 16)) Hc) as [Hl _]. apply list_elem_of_In, nth_In.
  pose proof (Z.mod_pos_bound n 16 ltac:(lia)). unfold c_bloomIndexSize. lia.
Qed.

(** Clearing the blooms of the blocks from [begin] to [end] (exclusive), as a chain reversion does, keeps the index: the cleared
    blocks have the empty bloom, the other blocks theirs, and every coarse bloom, rebuilt from its blocks, covers them. *)
Theorem clearing_keeps_index (ix : Index) (begin_ end_ : Z) :
  index_ok ix -> 0 <= begin_ < end_ -> end_ < 2 ^ 32 ->
  let ix' := clearBlockBlooms begin_ end_ ix in
  index_ok ix' /\
  forall n, 0 <= n < 2 ^ 32 -> blockBloom ix' n = if decide (begin_ <= n < end_) then emptyBloom else blockBloom ix n.
Proof.
  intros [Hc Hle] Hb He. cbv zeta. unfold clearBlockBlooms. cbn [clearLevels c_bloomIndexLevels]. unfold c_bloomIndexSize.
  rewrite dirtyItems_range, (wrap_small 32 (end_ - 1)) by lia.
  rewrite (wrap_small 32 (_ + 1)), dirtyItems_range by (Z.to_euclidean_division_equations; lia).
  destruct (clear_pass 0 (rangeZ begin_ end_) ix Hc) as [Hc1 H1].
  { apply Forall_forall. intros k Hk%elem_of_rangeZ. apply block_item. lia. }
  set (ix1 := foldl (clearItem 0) ix _) in *.
  destruct (clear_pass 1 (rangeZ (begin_ / 16) ((end_ - 1) / 16 + 1)) ix1 Hc1) as [Hc2 H2].
  { apply Forall_forall. intros k Hk%elem_of_rangeZ. right. split; [done|]. Z.to_euclidean_division_equations. lia. }
  set (ix2 := foldl (clearItem 1) ix1 _) in *.
  assert (F : forall n, 0 <= n < 2 ^ 32 -> levelBloom ix2 0 n = if decide (begin_ <= n < end_) then emptyBloom else levelBloom ix 0 n).
  { intros n Hn. rewrite H2, decide_False, H1 by (auto with bloom || (intros [? _]; done)).
    apply decide_ext. rewrite elem_of_rangeZ. intuition lia. }
  split; [split; [done|]|exact F]. intros n Hn. rewrite (H2 1%nat) by auto with bloom.
  case_decide as Hd.
  - rewrite H2, decide_False by (auto with bloom || (intros [? _]; done)).
    apply foldl_or_has; [done|apply (blocksBlooms_ok ix1); done|by apply chunk_has].
  - rewrite H1, F by auto with bloom. rewrite (decide_False (P := 1%nat = 0%nat /\ _)) by (intros [? _]; done).
    rewrite decide_False; [by apply Hle|]. intros Hin. apply Hd. split; [done|]. apply elem_of_rangeZ. Z.to_euclidean_division_equations. lia.
Qed.

(** ** A chain of three blocks with logs *)
Module IndexExample.
Definition pattern : LogBloom := entryBloom FilterExample.mix FilterExample.sent.
Definition blocks : list BlockBlooms := [mkBlockBlooms 17 1 [emptyBloom; pattern]; mkBlockBlooms 300 1 []; mkBlockBlooms 301 1 [pattern]].
Definition chain : Index := foldl (insertBlooms FilterExample.mix) ∅ blocks.
Lemma pattern_ok : bloom_ok pattern.
Proof. apply entryBloom_ok. Qed.
Lemma blocks_ok : Forall block_ok blocks.
Proof. repeat (constructor; [split; [cbn; lia|repeat constructor]|]). constructor. Qed.
Lemma chain_ok : index_ok chain.
Proof.
  unfold chain. assert (H := blocks_ok). revert H. generalize empty_index_ok. generalize (∅ : Index). induction blocks as [|blk l IH]; [done|].
  intros ix Hix [Hb Hf]%Forall_cons. cbn [foldl]. apply IH; [|done]. by apply insertBlooms_spec.
Qed.
End IndexExample.

Lemma search_is_scan_witness : withBlockBloom IndexExample.chain IndexExample.pattern 14 500 = [17; 301].
Proof.
  unfold IndexExample.chain. rewrite (proj1 (search_is_scan FilterExample.mix IndexExample.blocks IndexExample.pattern 14 500 IndexExample.blocks_ok IndexExample.pattern_ok
    ltac:(lia) ltac:(lia))).
  vm_compute. reflexivity.
Defined.
Lemma clearing_keeps_index_witness :
  index_ok (clearBlockBlooms 300 302 IndexExample.chain) /\
  blockBloom (clearBlockBlooms 300 302 IndexExample.chain) 301 = emptyBloom.
Proof.
  destruct (clearing_keeps_index IndexExample.chain 300 302 IndexExample.chain_ok) as [H1 H2]; [lia..|].
  split; [exact H1|]. rewrite H2 by lia. reflexivity.
Defined.
