(* ===== verification/RlpCodec.v ===== *)
(** * RlpCodec: writing and reading records in RLP

    The conversions of libdevcore/RLP.h that records are written and read with ([toVector],
    [toArray], [toString], [itemCountStrict], [operator<<] of integers, hashes, byte strings,
    vectors and arrays) and the interface between a record and its encoding: a [Codec] has a writer,
    a reader and the item tree it stands for, and [CodecLaws] says that the writer appends the
    encoding of the item and that the reader gives the record back. *)

From Stdlib Require Import ZArith Lia Bool.
From stdpp Require Import base list.
From S2P Require Import Prelude CommonData Rlp.
Open Scope Z_scope.

Inductive CodecError := RlpError (e : RLPError) | InvalidTransactionReceiptFormat | InvalidBlockHeaderItemCount | AssertFailed.
Definition liftR {A} (r : result RLPError A) : result CodecError A := match r with Ok a => Ok a | Err e => Err (RlpError e) end.

(** ** Reading an object by [operator[]] *)

(** The state is the object's indexing cache. *)
Definition RM (A : Type) : Type := RLP -> result CodecError (A * RLP).
Definition rret {A} (a : A) : RM A := fun r => Ok (a, r).
Definition rseq {A B} (m : RM A) (k : A -> RM B) : RM B := fun r => let? p := m r in k (fst p) (snd p).
Definition rlift {A} (x : result CodecError A) : RM A := fun r => let? a := x in Ok (a, r).
Notation "'let&' x := m 'in' k" := (rseq m (fun x => k)) (at level 200, x name, m at level 100, k at level 200).
(** [_r[ i ]]. *)
Definition at_ (i : Z) : RM (list Z) := fun r => let? p := liftR (index r i) in Ok (snd p, fst p).
(** The member [i] converted. *)
Definition conv {A} (i : Z) (f : list Z -> result CodecError A) : RM A := let& d := at_ i in rlift (f d).
Definition runOn {A} (m : RM A) (d : list Z) : result CodecError A := let? p := m (RLP_of d) in Ok (fst p).

(** [for ( auto const& i : _r )]; a value that is no list has no members. *)
Definition members (d : list Z) : result CodecError (list (list Z)) :=
  match toList d LaissezFaire with Some r => liftR r | None => Err (RlpError BadRLP) end.
Fixpoint mapR {A B} (f : A -> result CodecError B) (l : list A) : result CodecError (list B) :=
  match l with [] => Ok [] | x :: l' => let? y := f x in let? ys := mapR f l' in Ok (y :: ys) end.
Definition itemCount (d : list Z) : result CodecError Z :=
  match items d with Some r => liftR r | None => Err (RlpError BadRLP) end.
Definition itemCountStrict (d : list Z) : result CodecError Z :=
  if isList d then itemCount d else Err (RlpError BadCast).

(** ** Conversions *)

Definition readInt (w maxSize : Z) (d : list Z) : result CodecError Z := liftR (toInt w maxSize d Strict).
Definition readHash (n flags : Z) (d : list Z) : result CodecError Z := let? bs := liftR (toHash n d flags) in Ok (fromBigEndian (8 * n) bs).
Definition readBloom (flags : Z) (d : list Z) : result CodecError (list Z) := liftR (toHash 256 d flags).
Definition readBytes (d : list Z) : result CodecError (list Z) := liftR (toBytes d LaissezFaire).
Definition toVector {A} (f : list Z -> result CodecError A) (d : list Z) : result CodecError (list A) :=
  if isList d then let? n := itemCount d in let? l := members d in mapR f l else Ok [].
(** [toArray< T, N >]: [N] default values when the count is wrong. *)
Definition toArray {A} (n : nat) (dflt : A) (f : list Z -> result CodecError A) (d : list Z) : result CodecError (list A) :=
  let? c := itemCountStrict d in
  if negb (c =? Z.of_nat n) then Ok (replicate n dflt)
  else runOn (fold_right (fun i k => let& x := conv (Z.of_nat i) f in let& xs := k in rret (x :: xs)) (rret []) (seq 0 n)) d.

(** ** Writers *)

Definition Writer : Type := RLPStream -> result RLPError RLPStream.
(** [_s << a << b << ...]. *)
Definition streamAll (fs : list Writer) (s : RLPStream) : result RLPError RLPStream :=
  fold_left (fun r f => let? s := r in f s) fs (Ok s).
(** [_s.appendList( n ) << ...]. *)
Definition streamList (n : Z) (fs : list Writer) : Writer := fun s => let? s1 := appendList s n in streamAll fs s1.
Definition writeInt (i : Z) : Writer := fun s => appendInt s i.
Definition writeBytes (bs : list Z) : Writer := fun s => append s bs false.
Definition writeHash (n : nat) (h : Z) : Writer := writeBytes (toBigEndian n h).
Definition appendVector {A} (w : A -> Writer) (l : list A) : Writer := streamList (lenZ l) (map w l).
(** [dev::rlp( x )], [RLPStream s; s << x; s.out()]. *)
Definition rlpOf (w : Writer) : result RLPError (list Z) := let? s := w emptyStream in out s.

(** ** The interface *)

Class Codec (A : Type) := {
  cdc_item : A -> item;
  cdc_valid : A -> Prop;
  cdc_write : A -> Writer;
  cdc_read : list Z -> result CodecError A
}.
(** [f] appends the item. *)
Definition writes (f : Writer) (it : item) : Prop := item_ok it -> forall s, f s = streamItem it s.
Class CodecLaws (A : Type) `{Codec A} : Prop := {
  codec_writes : forall a, cdc_valid a -> writes (cdc_write a) (cdc_item a);
  codec_reads : forall a, cdc_valid a -> item_ok (cdc_item a) -> cdc_read (enc (cdc_item a)) = Ok a
}.

Lemma writes_bytes bs : writes (writeBytes bs) (Str bs).
Proof. intros _ s. done. Qed.
Definition intItemOf (i : Z) : item := Str (toCompactBigEndian i 0).
Lemma bytesRequired_256 i : 0 <= i < 2 ^ 256 -> bytesRequired i < 2 ^ 64.
Proof. intros Hi. pose proof (compact_small i Hi). lia. Qed.
Lemma writes_int i : 0 <= i < 2 ^ 256 -> writes (writeInt i) (intItemOf i).
Proof.
  intros Hi Hok s. unfold writeInt. rewrite appendInt_spec by (lia || by apply bytesRequired_256).
  symmetry. apply streamItem_spec. done.
Qed.
Lemma streamAll_writes fs its : Forall2 writes fs its -> Forall item_ok its -> forall s,
  streamAll fs s = fold_left (fun r x => let? s := r in streamItem x s) its (Ok s).
Proof.
  intros H. unfold streamAll. intros Hok s. generalize (Ok (E := RLPError) s). clear s. revert Hok.
  induction H as [|f x fs its Hf _ IH]; intros Hok s; [done|]. apply Forall_cons in Hok as [Hx Hok]. cbn [fold_left].
  replace (let? s0 := s in f s0) with (let? s0 := s in streamItem x s0); [by apply IH|].
  destruct s; [|done]. cbn. symmetry. by apply Hf.
Qed.
Lemma writes_list n fs its : n = lenZ its -> Forall2 writes fs its -> writes (streamList n fs) (Lst its).
Proof.
  intros -> H Hok s. unfold streamList. cbn [streamItem]. destruct (appendList s (lenZ its)) as [s1|]; [|done]. cbn [rbind].
  apply streamAll_writes; [done|]. by apply item_ok_members.
Qed.
Lemma writes_vector {A} (w : A -> Writer) (it : A -> item) (l : list A) : (forall a, a ∈ l -> writes (w a) (it a)) ->
  writes (appendVector w l) (Lst (map it l)).
Proof.
  intros H. apply writes_list; [unfold lenZ; by rewrite length_map|]. apply Forall2_fmap.
  apply Forall_Forall2_diag. by apply Forall_forall.
Qed.
Lemma rlpOf_writes f it : writes f it -> item_ok it -> rlpOf f = Ok (enc it).
Proof. intros H Hok. unfold rlpOf. rewrite (H Hok), streamItem_spec by done. done. Qed.

(** ** Reading lemmas *)

Definition rdsAt (its : list item) {A} (m : RM A) (a : A) : Prop :=
  forall r, cache_ok its r -> exists r', m r = Ok (a, r') /\ cache_ok its r'.
Lemma rds_ret its {A} (a : A) : rdsAt its (rret a) a.
Proof. intros r Hr. by exists r. Qed.
Lemma rds_seq its {A B} (m : RM A) (k : A -> RM B) a b : rdsAt its m a -> rdsAt its (k a) b -> rdsAt its (rseq m k) b.
Proof. intros Hm Hk r Hr. destruct (Hm r Hr) as (r1 & E & H1). unfold rseq. rewrite E. by apply Hk. Qed.
Lemma rds_lift its {A} (x : result CodecError A) a : x = Ok a -> rdsAt its (rlift x) a.
Proof. intros -> r Hr. by exists r. Qed.
Lemma rds_at its i x : item_ok (Lst its) -> 0 <= i < 2 ^ 64 - 1 -> its !! Z.to_nat i = Some x -> rdsAt its (at_ i) (enc x).
Proof.
  intros Hok Hi Hx r Hr. destruct (index_spec its r i Hok Hr Hi) as (r' & E & H'). exists r'. split; [|done].
  unfold at_. rewrite E. cbn. by erewrite nth_lookup_Some by (rewrite list_lookup_fmap, Hx; done).
Qed.
Lemma rds_conv its i x {A} (f : list Z -> result CodecError A) a : item_ok (Lst its) -> 0 <= i < 2 ^ 64 - 1 ->
  its !! Z.to_nat i = Some x -> f (enc x) = Ok a -> rdsAt its (conv i f) a.
Proof. intros Hok Hi Hx Hf. eapply rds_seq; [by eapply rds_at|]. by apply rds_lift. Qed.
Lemma runOn_rds its {A} (m : RM A) a : rdsAt its m a -> runOn m (enc (Lst its)) = Ok a.
Proof. intros H. destruct (H (RLP_of (enc (Lst its)))) as (r' & E & _); [by left|]. unfold runOn. by rewrite E. Qed.

Lemma member_ok its i x : item_ok (Lst its) -> its !! i = Some x -> item_ok x.
Proof. intros Hok%item_ok_members Hx. by eapply Forall_lookup_1. Qed.
Lemma members_enc its : item_ok (Lst its) -> members (enc (Lst its)) = Ok (map enc its).
Proof. intros H. unfold members. by rewrite toList_enc. Qed.
Lemma enc_isList it : item_ok it -> isList (enc it) = match it with Str _ => false | Lst _ => true end /\
  isData (enc it) = match it with Str _ => true | Lst _ => false end.
Proof. intros H. destruct (reads_enc it [] H) as (Hd & Hl & _). rewrite app_nil_r in *. by destruct it. Qed.
Lemma itemCount_enc its : item_ok (Lst its) -> itemCount (enc (Lst its)) = Ok (lenZ its).
Proof. intros H. unfold itemCount. by rewrite items_enc. Qed.
Lemma mapR_enc {A} (f : list Z -> result CodecError A) (it : A -> item) l :
  (forall a, a ∈ l -> f (enc (it a)) = Ok a) -> mapR f (map enc (map it l)) = Ok l.
Proof.
  induction l as [|a l IH]; intros H; [done|]. cbn [map mapR]. rewrite H by (apply elem_of_cons; by left). cbn [rbind].
  rewrite IH; [done|]. intros b Hb. apply H. apply elem_of_cons. by right.
Qed.
Lemma toVector_enc {A} (f : list Z -> result CodecError A) (it : A -> item) l : item_ok (Lst (map it l)) ->
  (forall a, a ∈ l -> item_ok (it a) -> f (enc (it a)) = Ok a) -> toVector f (enc (Lst (map it l))) = Ok l.
Proof.
  intros Hok H. unfold toVector. rewrite (proj1 (enc_isList _ Hok)), itemCount_enc, members_enc by done. cbn [rbind].
  apply mapR_enc. intros a Ha. apply H; [done|]. apply item_ok_members in Hok. eapply Forall_forall in Hok; [exact Hok|].
  by apply list_elem_of_fmap_2.
Qed.
Lemma requireGood_enc it : item_ok it -> requireGood (enc it) = Ok tt.
Proof.
  intros Hok. destruct (reads_enc it [] Hok) as (_ & _ & Hlen & _ & _ & _ & _ & H1). rewrite app_nil_r in *.
  revert Hlen. unfold length_, isNull. destruct (Z.eqb_spec (lenZ (enc it)) 0); [lia|]. by destruct (requireGood (enc it)) as [[]|].
Qed.
Lemma toHash_enc bs n flags : item_ok (Str bs) -> lenZ bs = n -> toHash n (enc (Str bs)) flags = Ok bs.
Proof.
  intros Hok Hl. pose proof (requireGood_enc _ Hok) as Hg. pose proof (payload_reads _ _ _ _ (reads_enc _ [] Hok)) as Hp.
  rewrite app_nil_r in Hp. unfold toHash. rewrite Hg, Hp, (proj2 (enc_isList _ Hok)). cbn [rbind negb orb]. rewrite Hl.
  rewrite !Z.ltb_irrefl, Z.min_id. cbn [andb orb]. rewrite takeZ_all by lia. rewrite Z.sub_diag. done.
Qed.
Lemma bytes32_ok n h : (n <= 300)%nat -> item_ok (Str (toBigEndian n h)).
Proof. intros Hn. split; [apply toBigEndian_ok|]. rewrite toBigEndian_lenZ. unfold sizeLimit. lia. Qed.
Lemma readHash_enc n h flags : (n <= 300)%nat -> 0 <= h < 2 ^ (8 * Z.of_nat n) ->
  readHash (Z.of_nat n) flags (enc (Str (toBigEndian n h))) = Ok h.
Proof.
  intros Hn Hh. unfold readHash. rewrite toHash_enc by (by apply bytes32_ok || apply toBigEndian_lenZ). cbn [liftR rbind]. f_equal.
  rewrite fromBigEndian_unbe by (apply toBigEndian_ok || lia). rewrite unbe_toBigEndian by lia.
  replace (256 ^ Z.of_nat n) with (2 ^ (8 * Z.of_nat n)) by (rewrite Z.pow_mul_r by lia; done).
  rewrite Z.mod_small by lia. by apply wrap_small.
Qed.
(** An integer of [8 m] bits, read back at its width. *)
Lemma readInt_enc i w m : 0 <= i < 2 ^ 256 -> 0 <= i < 256 ^ m -> 0 <= m <= 32 -> w = 8 * m -> readInt w m (enc (intItemOf i)) = Ok i.
Proof.
  intros Hi Hm Hm32 ->. unfold readInt, intItemOf. cbn [enc]. destruct (bytesRequired_spec i) as (Hb0 & Hlt & Hge); [lia|].
  pose proof (bytesRequired_le i m ltac:(lia) ltac:(lia)) as Hbm.
  unfold toCompactBigEndian. rewrite Z.max_r by lia. set (k := Z.to_nat (bytesRequired i)).
  assert (256 ^ m = 2 ^ (8 * m)) by (rewrite Z.pow_mul_r by lia; done).
  rewrite toInt_encStr; rewrite ?toBigEndian_lenZ; try (unfold k; lia).
  - cbn [liftR]. f_equal. rewrite unbe_toBigEndian by lia. unfold k. rewrite Z2Nat.id, (Z.mod_small i) by lia. apply wrap_small. lia.
  - apply toBigEndian_ok.
  - intros Hne. apply toBigEndian_head.
    + destruct k; [done|lia].
    + assert (0 < i). { destruct (Z.eq_dec i 0) as [->|]; [done|lia]. } unfold k. rewrite Z2Nat.id by lia. lia.
Qed.
Lemma toArray_from {A} (f : list Z -> result CodecError A) (it : A -> item) (l : list A) : item_ok (Lst (map it l)) ->
  (forall a, a ∈ l -> f (enc (it a)) = Ok a) -> lenZ l < 2 ^ 64 - 1 -> forall n k, (k + n)%nat = length l ->
  rdsAt (map it l) (fold_right (fun i m => let& x := conv (Z.of_nat i) f in let& xs := m in rret (x :: xs)) (rret []) (seq k n)) (drop k l).
Proof.
  intros Hok Hf Hl n. induction n as [|n IH]; intros k Hk; cbn [seq fold_right].
  - rewrite drop_ge by lia. apply rds_ret.
  - destruct (lookup_lt_is_Some_2 l k) as [a Ha]; [lia|]. rewrite (drop_S l a k) by done.
    eapply rds_seq; [eapply (rds_conv _ _ (it a)); [done|unfold lenZ in *; lia| |]|].
    + rewrite Nat2Z.id. rewrite list_lookup_fmap, Ha. done.
    + apply Hf. by eapply list_elem_of_lookup_2.
    + eapply rds_seq; [apply IH; lia|apply rds_ret].
Qed.
Lemma toArray_enc {A} n (dflt : A) (f : list Z -> result CodecError A) (it : A -> item) l : item_ok (Lst (map it l)) ->
  length l = n -> lenZ l < 2 ^ 64 - 1 -> (forall a, a ∈ l -> f (enc (it a)) = Ok a) -> toArray n dflt f (enc (Lst (map it l))) = Ok l.
Proof.
  intros Hok <- Hl Hf. unfold toArray, itemCountStrict. rewrite (proj1 (enc_isList _ Hok)), itemCount_enc by done. cbn [rbind].
  unfold lenZ. rewrite length_map, Z.eqb_refl. cbn [negb]. apply runOn_rds.
  pose proof (toArray_from f it l Hok Hf Hl (length l) 0 eq_refl) as Hr. rewrite drop_0 in Hr. exact Hr.
Qed.

(** ** Vectors of a codec *)

#[export] Instance vector_codec {A} `{Codec A} : Codec (list A) := {|
  cdc_item l := Lst (map cdc_item l);
  cdc_valid l := Forall cdc_valid l;
  cdc_write := appendVector cdc_write;
  cdc_read := toVector cdc_read
|}.
#[export] Instance vector_laws {A} `{CodecLaws A} : CodecLaws (list A).
Proof.
  split.
  - intros l Hl. apply writes_vector. intros a Ha. apply codec_writes. cbn in Hl. rewrite Forall_forall in Hl. by apply Hl.
  - intros l Hl Hok. cbn in *. apply toVector_enc; [done|]. intros a Ha Hoka. apply codec_reads; [|done]. rewrite Forall_forall in Hl. by apply Hl.
Qed.

(** Round trip of records: for every record type with a codec, writing a valid record with an RLP stream and reading
    the bytes gives the record back, and so do the vectors of such records; the bytes are the encoding of the record's
    item tree. *)
Theorem codec_roundtrip {A} `{CodecLaws A} (a : A) :
  cdc_valid a -> item_ok (cdc_item a) -> exists bs, rlpOf (cdc_write a) = Ok bs /\ bs = enc (cdc_item a) /\ cdc_read bs = Ok a.
Proof.
  intros Hv Hok. exists (enc (cdc_item a)). split; [|split; [done|by apply codec_reads]].
  apply rlpOf_writes; [by apply codec_writes|done].
Qed.
