(* ===== verification/Receipt.v ===== *)
(** * Receipt: transaction receipts, log entries and the records of the extras database

    libethcore/LogEntry.cpp, libethereum/TransactionReceipt.cpp and TransactionReceipt.h,
    libethereum/BlockDetails.h and BlockDetails.cpp: the records and their RLP, and the partial
    receipts of libskale/OverlayDB.cpp.  The flag [persist] is the global
    [g_bEnableRevertReasonPersistence]. *)

From Stdlib Require Import ZArith Lia Bool.
From stdpp Require Import base list.
From S2P Require Import Prelude CommonData ExtVMFace Rlp RlpCodec LogFilter BloomIndex.
Open Scope Z_scope.

(** ** Log entries *)

Definition writeLogEntry (e : LogEntry) : Writer :=
  streamList 3 [writeHash 20 (log_address e); appendVector (writeHash 32) (log_topics e); writeBytes (log_data e)].
Definition readLogEntry (d : list Z) : result CodecError LogEntry :=
  let? n := itemCount d in
  guard? (n =? 3) else AssertFailed in
  runOn (let& a := conv 0 (readHash 20 Strict) in
         let& t := conv 1 (toVector (readHash 32 LaissezFaire)) in
         let& b := conv 2 readBytes in rret (mkLog a t b)) d.

(** ** Receipts *)

Inductive StatusCodeOrStateRoot := StatusCode (s : Z) | StateRoot (h : Z).
Record TransactionReceipt := mkReceipt {
  r_statusCodeOrStateRoot : StatusCodeOrStateRoot;
  r_gasUsed : Z;
  r_bloom : LogBloom;
  r_log : list LogEntry;
  r_revertReason : list Z
}.
#[export] Instance StatusCodeOrStateRoot_eq_dec : EqDecision StatusCodeOrStateRoot.
Proof. solve_decision. Defined.
#[export] Instance TransactionReceipt_eq_dec : EqDecision TransactionReceipt.
Proof. solve_decision. Defined.

(** The constructors from a status or a root. *)
Definition newReceipt (sha3 : list Z -> Z) (sr : StatusCodeOrStateRoot) (gasUsed : Z) (log : list LogEntry) : TransactionReceipt :=
  mkReceipt sr gasUsed (logsBloom sha3 log) log [].
Definition hasStatusCode (r : TransactionReceipt) : bool := match r_statusCodeOrStateRoot r with StatusCode _ => true | _ => false end.

Definition writesReason (persist : bool) (r : TransactionReceipt) : bool := persist && negb (bool_decide (r_revertReason r = [])).
Definition writeReceipt (persist : bool) (r : TransactionReceipt) : Writer :=
  streamList (if writesReason persist r then 5 else 4)
    ([match r_statusCodeOrStateRoot r with StatusCode s => writeInt s | StateRoot h => writeHash 32 h end;
      writeInt (r_gasUsed r); writeBytes (r_bloom r);
      streamList (lenZ (r_log r)) (map writeLogEntry (r_log r))] ++
     (if writesReason persist r then [writeBytes (r_revertReason r)] else [])).

Definition readStatus (d0 : list Z) : result CodecError StatusCodeOrStateRoot :=
  if negb (isData d0) then Err InvalidTransactionReceiptFormat
  else let? l := liftR (length_ d0) in
       if l =? 32 then let? h := readHash 32 Strict d0 in Ok (StateRoot h)
       else let? int := liftR (isInt d0) in
            if int then let? s := readInt 8 1 d0 in Ok (StatusCode s) else Err InvalidTransactionReceiptFormat.
Definition readReceipt (persist : bool) (d : list Z) : result CodecError TransactionReceipt :=
  let? _ := liftR (RLP_ctor d VeryStrict) in
  guard? isList d else InvalidTransactionReceiptFormat in
  let? n := itemCount d in
  guard? (if persist then (4 <=? n) && (n <=? 5) else n =? 4) else InvalidTransactionReceiptFormat in
  runOn (let& sr := conv 0 readStatus in
         let& g := conv 1 (readInt 256 32) in
         let& b := conv 2 (readBloom Strict) in
         let& l := conv 3 (fun d3 => let? ms := members d3 in mapR readLogEntry ms) in
         let& reason := (if persist && (5 <=? n)
                         then conv 4 (fun d4 => if isData d4 then readBytes d4 else Ok [])
                         else rret []) in
         rret (mkReceipt sr g b l reason)) d.

(** ** Block details and the other extras *)

Definition c_invalidNumber : Z := 2 ^ 32 - 1.
Definition Invalid256 : Z := 2 ^ 256 - 1.
Record BlockDetails := mkDetails {
  bd_number : Z; bd_totalDifficulty : Z; bd_parent : Z; bd_children : list Z; bd_blockSizeBytes : Z }.
Definition NullBlockDetails : BlockDetails := mkDetails c_invalidNumber Invalid256 0 [] 0.
Definition details_isNull (b : BlockDetails) : bool := bd_number b =? c_invalidNumber.
Definition writeDetails (b : BlockDetails) : Writer :=
  streamList 5 [writeInt (bd_number b); writeInt (bd_totalDifficulty b); writeHash 32 (bd_parent b);
                appendVector (writeHash 32) (bd_children b); writeInt (bd_blockSizeBytes b)].
Definition readDetails (d : list Z) : result CodecError BlockDetails :=
  runOn (let& n := conv 0 (readInt 32 4) in
         let& t := conv 1 (readInt 256 32) in
         let& p := conv 2 (readHash 32 Strict) in
         let& c := conv 3 (toVector (readHash 32 LaissezFaire)) in
         let& z := conv 4 (readInt 32 4) in rret (mkDetails n t p c z)) d.

(** [BlockLogBlooms], [BlocksBlooms], [BlockReceipts], [BlockHash], [TransactionAddress]. *)
Definition writeLogBlooms (l : list LogBloom) : Writer := appendVector writeBytes l.
Definition readLogBlooms (d : list Z) : result CodecError (list LogBloom) := toVector (readBloom LaissezFaire) d.
Definition writeBlocksBlooms (l : BlocksBlooms) : Writer := streamList (lenZ l) (map writeBytes l).
Definition readBlocksBlooms (d : list Z) : result CodecError BlocksBlooms := toArray 16 emptyBloom (readBloom LaissezFaire) d.
Definition writeReceipts (persist : bool) (l : list TransactionReceipt) : Writer := streamList (lenZ l) (map (writeReceipt persist) l).
Definition readReceipts (persist : bool) (d : list Z) : result CodecError (list TransactionReceipt) :=
  let? ms := members d in mapR (readReceipt persist) ms.
Definition writeBlockHash (h : Z) : Writer := writeHash 32 h.
Definition readBlockHash (d : list Z) : result CodecError Z := readHash 32 Strict d.
Record TransactionAddress := mkAddress { ta_blockHash : Z; ta_index : Z }.
Definition writeTxAddress (t : TransactionAddress) : Writer := streamList 2 [writeHash 32 (ta_blockHash t); writeInt (ta_index t)].
Definition readTxAddress (d : list Z) : result CodecError TransactionAddress :=
  runOn (let& h := conv 0 (readHash 32 Strict) in let& i := conv 1 (readInt 32 4) in rret (mkAddress h i)) d.

(** ** Codecs *)

Definition is_hash (h : Z) : Prop := 0 <= h < 2 ^ 256.
Definition is_address (a : Z) : Prop := 0 <= a < 2 ^ 160.
Definition hashItem (h : Z) : item := Str (toBigEndian 32 h).
Definition bloom_valid (b : LogBloom) : Prop := bloom_ok b /\ bytes_ok b.
Lemma readHash32 flags h : is_hash h -> readHash 32 flags (enc (hashItem h)) = Ok h.
Proof. intros Hh. apply (readHash_enc 32); [lia|done]. Qed.
Lemma readBloom_enc flags b : bloom_valid b -> readBloom flags (enc (Str b)) = Ok b.
Proof.
  intros [Hl Hb]. unfold readBloom. rewrite toHash_enc; [done| |unfold lenZ; by rewrite Hl].
  split; [done|]. unfold lenZ. rewrite Hl. unfold sizeLimit. lia.
Qed.
Lemma readInt256 i : is_hash i -> readInt 256 32 (enc (intItemOf i)) = Ok i.
Proof. intros Hi. apply readInt_enc; [done|done|lia|done]. Qed.
Lemma readInt32 i : 0 <= i < 2 ^ 32 -> readInt 32 4 (enc (intItemOf i)) = Ok i.
Proof. intros Hi. apply readInt_enc; lia. Qed.
Lemma readBytes_enc bs : item_ok (Str bs) -> readBytes (enc (Str bs)) = Ok bs.
Proof. intros H. unfold readBytes. by rewrite toBytes_enc. Qed.
Lemma writes_hash n h : writes (writeHash n h) (Str (toBigEndian n h)).
Proof. apply writes_bytes. Qed.
Lemma writes_hashes l : writes (appendVector (writeHash 32) l) (Lst (map hashItem l)).
Proof. apply writes_vector. intros. apply writes_hash. Qed.
Lemma readHashes l : Forall is_hash l -> item_ok (Lst (map hashItem l)) ->
  toVector (readHash 32 LaissezFaire) (enc (Lst (map hashItem l))) = Ok l.
Proof. intros Hl Hok. apply toVector_enc; [done|]. intros h Hh _. apply readHash32. rewrite Forall_forall in Hl. by apply Hl. Qed.

(** Reading the members of an encoded list one by one. *)
Ltac read_member its Hok x := eapply rds_seq; [apply (rds_conv its _ x); [exact Hok|lia|reflexivity|]|cbv beta].

(** The writers of the members of a list. *)
Ltac write_members :=
  repeat (apply Forall2_cons; split; [first [apply writes_hashes|apply writes_hash|apply writes_bytes|(apply writes_int; assumption)]|]); try apply Forall2_nil_2.

Definition entryItem (e : LogEntry) : item := Lst [Str (toBigEndian 20 (log_address e)); Lst (map hashItem (log_topics e)); Str (log_data e)].
Definition entry_valid (e : LogEntry) : Prop := is_address (log_address e) /\ Forall is_hash (log_topics e).
#[export] Instance LogEntry_codec : Codec LogEntry := {|
  cdc_item := entryItem; cdc_valid := entry_valid; cdc_write := writeLogEntry; cdc_read := readLogEntry |}.
#[export] Instance LogEntry_laws : CodecLaws LogEntry.
Proof.
  split.
  - intros e _. apply writes_list; [done|]. write_members.
  - intros e [Ha Ht] Hok. cbn [cdc_item LogEntry_codec cdc_read] in *. unfold readLogEntry, entryItem in *.
    match goal with |- context [enc (Lst ?l)] => set (its := l) in * end. rewrite itemCount_enc by done. change (lenZ its =? 3) with true. cbn [rbind]. apply runOn_rds.
    read_member its Hok (Str (toBigEndian 20 (log_address e))). { by apply (readHash_enc 20); [lia|]. }
    read_member its Hok (Lst (map hashItem (log_topics e))). { apply readHashes; [done|]. by eapply (member_ok its 1). }
    read_member its Hok (Str (log_data e)). { apply readBytes_enc. by eapply (member_ok its 2). }
    destruct e. apply rds_ret.
Qed.

Definition statusItem (sr : StatusCodeOrStateRoot) : item := match sr with StatusCode s => intItemOf s | StateRoot h => hashItem h end.
Definition receiptItems (persist : bool) (r : TransactionReceipt) : list item :=
  [statusItem (r_statusCodeOrStateRoot r); intItemOf (r_gasUsed r); Str (r_bloom r); Lst (map entryItem (r_log r))] ++
  (if writesReason persist r then [Str (r_revertReason r)] else []).
(** The item of a receipt with the reason kept, as the program sets the flag. *)
Definition receiptItem (r : TransactionReceipt) : item := Lst (receiptItems true r).
Definition status_valid (sr : StatusCodeOrStateRoot) : Prop := match sr with StatusCode s => 0 <= s < 256 | StateRoot h => is_hash h end.
Definition receipt_valid (r : TransactionReceipt) : Prop :=
  status_valid (r_statusCodeOrStateRoot r) /\ is_hash (r_gasUsed r) /\ bloom_valid (r_bloom r) /\ Forall entry_valid (r_log r).

Lemma status_is_int s : 0 <= s < 256 -> exists l, length_ (enc (intItemOf s)) = Ok l /\ l <> 32 /\ isInt (enc (intItemOf s)) = Ok true /\
  item_ok (intItemOf s).
Proof.
  intros Hs.
  assert (H : forallb (fun s => match length_ (enc (intItemOf s)), isInt (enc (intItemOf s)) with
    | Ok l, Ok true => negb (l =? 32) && bool_decide (bytes_ok (toCompactBigEndian s 0)) && (lenZ (toCompactBigEndian s 0) <? 100)
    | _, _ => false end) (seqZ 0 256) = true)
    by (vm_compute; reflexivity).
  pose proof (proj1 (forallb_forall _ _) H s) as Hx. cbv beta in Hx.
  specialize (Hx ltac:(apply list_elem_of_In, elem_of_seqZ; lia)). clear H.
  destruct (length_ (enc (intItemOf s))) as [l|]; [|discriminate]. destruct (isInt (enc (intItemOf s))) as [[|]|]; [|discriminate..].
  apply andb_true_iff in Hx as [[Hx Hb]%andb_true_iff Hz%Z.ltb_lt]. exists l. apply negb_true_iff, Z.eqb_neq in Hx. apply bool_decide_eq_true in Hb.
  repeat split; [done|done|]. unfold sizeLimit. lia.
Qed.
Lemma readStatus_enc sr : status_valid sr -> readStatus (enc (statusItem sr)) = Ok sr.
Proof.
  intros Hv. unfold readStatus. destruct sr as [s|h]; cbn [statusItem status_valid] in *.
  - destruct (status_is_int s Hv) as (l & Hl & Hne & Hint & Hok). rewrite (proj2 (enc_isList _ Hok)), Hl. cbn [negb liftR rbind intItemOf].
    apply Z.eqb_neq in Hne. rewrite Hne, Hint. cbn [liftR rbind]. rewrite (readInt_enc s 8 1); [done|lia..].
  - pose proof (bytes32_ok 32 h ltac:(lia)) as Hok. change (Str (toBigEndian 32 h)) with (hashItem h) in Hok.
    destruct (reads_enc (hashItem h) [] Hok) as (_ & _ & Hlen & _). rewrite app_nil_r in Hlen.
    rewrite (proj2 (enc_isList _ Hok)), Hlen. cbn [negb liftR rbind hashItem]. rewrite toBigEndian_lenZ. change (Z.of_nat 32 =? 32) with true.
    change (Str (toBigEndian 32 h)) with (hashItem h). by rewrite readHash32.
Qed.
Lemma RLP_ctor_enc it flags : item_ok it -> RLP_ctor (enc it) flags = Ok (enc it).
Proof. intros Hok. eapply RLP_ctor_reads. by apply reads_enc. Qed.
Lemma read_entries l : Forall entry_valid l -> item_ok (Lst (map entryItem l)) ->
  (let? ms := members (enc (Lst (map entryItem l))) in mapR readLogEntry ms) = Ok l.
Proof.
  intros Hl Hok. rewrite members_enc by done. cbn [rbind]. apply mapR_enc. intros e He. apply (codec_reads (H := LogEntry_codec) e).
  - rewrite Forall_forall in Hl. by apply Hl.
  - apply item_ok_members in Hok. rewrite Forall_forall in Hok. apply Hok. by apply list_elem_of_fmap_2.
Qed.

#[export] Instance Receipt_codec : Codec TransactionReceipt := {|
  cdc_item := receiptItem; cdc_valid := receipt_valid; cdc_write := writeReceipt true; cdc_read := readReceipt true |}.
Lemma receipt_writes_flag persist r : receipt_valid r -> writes (writeReceipt persist r) (Lst (receiptItems persist r)).
Proof.
  intros (Hs & Hg & Hb & Hl). unfold writeReceipt, receiptItems. apply writes_list. { by destruct (writesReason persist r). }
  apply Forall2_app.
  - apply Forall2_cons. split.
    { destruct (r_statusCodeOrStateRoot r); [|apply writes_hash]. apply writes_int. cbn in Hs. lia. }
    write_members. apply Forall2_cons. split; [|by constructor].
    apply (writes_vector writeLogEntry entryItem). intros e He. apply (codec_writes (H := LogEntry_codec) e). rewrite Forall_forall in Hl. by apply Hl.
  - destruct (writesReason persist r); write_members.
Qed.
Lemma receipt_reads_flag persist r : receipt_valid r -> item_ok (Lst (receiptItems persist r)) ->
  readReceipt persist (enc (Lst (receiptItems persist r))) =
  Ok (mkReceipt (r_statusCodeOrStateRoot r) (r_gasUsed r) (r_bloom r) (r_log r) (if persist then r_revertReason r else [])).
Proof.
  intros (Hs & Hg & Hb & Hl) Hok. unfold readReceipt. rewrite RLP_ctor_enc, (proj1 (enc_isList _ Hok)) by done. cbn [liftR rbind].
  rewrite itemCount_enc by done. cbn [rbind]. set (its := receiptItems persist r) in *.
  assert (Hn : (if persist then (4 <=? lenZ its) && (lenZ its <=? 5) else lenZ its =? 4) = true /\ persist && (5 <=? lenZ its) = writesReason persist r).
  { unfold its, receiptItems, writesReason. destruct persist; [|done]. by case_bool_decide. }
  destruct Hn as [-> ->]. cbn [andb]. apply runOn_rds.
  read_member its Hok (statusItem (r_statusCodeOrStateRoot r)). { by apply readStatus_enc. }
  read_member its Hok (intItemOf (r_gasUsed r)). { by apply readInt256. }
  read_member its Hok (Str (r_bloom r)). { by apply readBloom_enc. }
  read_member its Hok (Lst (map entryItem (r_log r))). { apply read_entries; [done|]. by eapply (member_ok its 3). }
  eapply (rds_seq _ _ _ (if persist then r_revertReason r else [])); [|apply rds_ret].
  destruct (writesReason persist r) eqn:Ew.
  - assert (H4 : its !! 4%nat = Some (Str (r_revertReason r))) by (unfold its, receiptItems; by rewrite Ew).
    unfold writesReason in Ew. destruct persist; [|done]. apply (rds_conv its _ (Str (r_revertReason r))); [done|lia|done|].
    pose proof (member_ok its 4 _ Hok H4) as Hok4. rewrite (proj2 (enc_isList _ Hok4)). by apply readBytes_enc.
  - unfold writesReason in Ew. destruct persist; [|apply rds_ret]. apply negb_false_iff, bool_decide_eq_true in Ew. rewrite Ew. apply rds_ret.
Qed.
#[export] Instance Receipt_laws : CodecLaws TransactionReceipt.
Proof.
  split; [intros r; apply receipt_writes_flag|]. intros r Hv Hok. destruct r. apply (receipt_reads_flag true); done.
Qed.
Lemma app_ok a b : item_ok (Lst (a ++ b)) -> item_ok (Lst a).
Proof.
  intros [Ha Hl]. split.
  - induction a as [|x a IH]; [done|]. cbn in Ha |- *. destruct Ha as [Hx Ha]. split; [done|]. apply IH; [done|].
    cbn [map concat app] in Hl. rewrite lenZ_app in Hl. pose proof (lenZ_nonneg (enc x)). lia.
  - rewrite map_app, concat_app, lenZ_app in Hl. pose proof (lenZ_nonneg (concat (map enc b))). lia.
Qed.

(** ** Block details, transaction addresses, blooms *)

Definition detailsItem (b : BlockDetails) : item :=
  Lst [intItemOf (bd_number b); intItemOf (bd_totalDifficulty b); hashItem (bd_parent b); Lst (map hashItem (bd_children b)); intItemOf (bd_blockSizeBytes b)].
Definition details_valid (b : BlockDetails) : Prop :=
  0 <= bd_number b < 2 ^ 32 /\ is_hash (bd_totalDifficulty b) /\ is_hash (bd_parent b) /\ Forall is_hash (bd_children b) /\
  0 <= bd_blockSizeBytes b < 2 ^ 32.
#[export] Instance BlockDetails_codec : Codec BlockDetails := {|
  cdc_item := detailsItem; cdc_valid := details_valid; cdc_write := writeDetails; cdc_read := readDetails |}.
#[export] Instance BlockDetails_laws : CodecLaws BlockDetails.
Proof.
  split.
  - intros b (Hn & Ht & Hp & Hc & Hz). assert (0 <= bd_number b < 2 ^ 256) by lia. assert (0 <= bd_blockSizeBytes b < 2 ^ 256) by lia.
    apply writes_list; [done|]. write_members.
  - intros b (Hn & Ht & Hp & Hc & Hz) Hok. cbn [cdc_item cdc_read BlockDetails_codec] in *. unfold readDetails, detailsItem in *.
    match goal with |- context [enc (Lst ?l)] => set (its := l) in * end. apply runOn_rds.
    read_member its Hok (intItemOf (bd_number b)). { by apply readInt32. }
    read_member its Hok (intItemOf (bd_totalDifficulty b)). { by apply readInt256. }
    read_member its Hok (hashItem (bd_parent b)). { by apply readHash32. }
    read_member its Hok (Lst (map hashItem (bd_children b))). { apply readHashes; [done|]. by eapply (member_ok its 3). }
    read_member its Hok (intItemOf (bd_blockSizeBytes b)). { by apply readInt32. }
    destruct b. apply rds_ret.
Qed.
Definition txAddressItem (t : TransactionAddress) : item := Lst [hashItem (ta_blockHash t); intItemOf (ta_index t)].
#[export] Instance TransactionAddress_codec : Codec TransactionAddress := {|
  cdc_item := txAddressItem; cdc_valid t := is_hash (ta_blockHash t) /\ 0 <= ta_index t < 2 ^ 32;
  cdc_write := writeTxAddress; cdc_read := readTxAddress |}.
#[export] Instance TransactionAddress_laws : CodecLaws TransactionAddress.
Proof.
  split.
  - intros t [Hh Hi]. assert (0 <= ta_index t < 2 ^ 256) by lia. apply writes_list; [done|]. write_members.
  - intros t [Hh Hi] Hok. cbn [cdc_item cdc_read TransactionAddress_codec] in *. unfold readTxAddress, txAddressItem in *.
    match goal with |- context [enc (Lst ?l)] => set (its := l) in * end. apply runOn_rds.
    read_member its Hok (hashItem (ta_blockHash t)). { by apply readHash32. }
    read_member its Hok (intItemOf (ta_index t)). { by apply readInt32. }
    destruct t. apply rds_ret.
Qed.
Lemma intItemOf_ok i : is_hash i -> item_ok (intItemOf i) /\ lenZ (enc (intItemOf i)) <= 33.
Proof.
  intros Hi. pose proof (compact_small i Hi) as H32. destruct (bytesRequired_spec i) as (H0 & _); [unfold is_hash in Hi; lia|].
  assert (Hl : lenZ (toCompactBigEndian i 0) <= 32).
  { unfold toCompactBigEndian. rewrite toBigEndian_lenZ. lia. }
  split.
  - split; [apply toBigEndian_ok|]. unfold sizeLimit. lia.
  - unfold intItemOf. cbn [enc]. unfold encStr. destruct (_ && _); [lia|]. rewrite lenZ_app. unfold hdrStr, hdr.
    destruct (Z.ltb_spec (lenZ (toCompactBigEndian i 0)) 56); [|lia]. change (lenZ [128 + lenZ (toCompactBigEndian i 0)]) with 1. lia.
Qed.
Lemma hashItem_ok h : item_ok (hashItem h) /\ lenZ (enc (hashItem h)) = 33.
Proof.
  split; [by apply bytes32_ok; lia|]. unfold hashItem. cbn [enc]. unfold encStr. rewrite toBigEndian_lenZ. cbn [andb Z.eqb Z.of_nat].
  change (Z.of_nat 32 =? 1) with false. cbn [andb]. rewrite lenZ_app, toBigEndian_lenZ. done.
Qed.
Lemma txAddress_size t : 0 <= ta_index t < 2 ^ 32 -> item_ok (txAddressItem t).
Proof.
  intros Hi. destruct (hashItem_ok (ta_blockHash t)) as [H1 L1]. destruct (intItemOf_ok (ta_index t)) as [H2 L2]; [unfold is_hash; lia|].
  split; [done|]. cbn [map concat]. rewrite app_nil_r, lenZ_app. unfold sizeLimit. lia.
Qed.
Lemma blooms_size (l : list LogBloom) : Forall bloom_valid l -> lenZ l < 2 ^ 50 -> item_ok (Lst (map Str l)).
Proof.
  intros Hl Hn. assert (Hb : forall b, b ∈ l -> item_ok (Str b) /\ lenZ (enc (Str b)) = 259).
  { intros b Hb. rewrite Forall_forall in Hl. destruct (Hl b Hb) as [Hb1 Hb2]. unfold bloom_ok in Hb1. split.
    - split; [done|]. unfold lenZ. rewrite Hb1. unfold sizeLimit. lia.
    - assert (E : lenZ b = 256) by (unfold lenZ; by rewrite Hb1). cbn [enc]. unfold encStr. rewrite E.
      change (256 =? 1) with false. cbn [andb]. rewrite lenZ_app, E. done. }
  assert (Hlen : lenZ (concat (map enc (map Str l))) = 259 * lenZ l).
  { clear Hl Hn. induction l as [|b l IH]; [done|]. cbn [map concat]. rewrite lenZ_app, lenZ_cons, IH.
    - destruct (Hb b) as [_ ->]; [apply elem_of_cons; by left|]. lia.
    - intros c Hc. apply Hb. apply elem_of_cons. by right. }
  split; [|unfold sizeLimit; lia]. clear Hlen Hn Hl. induction l as [|b l IH]; [done|]. cbn. split.
  - apply Hb. apply elem_of_cons. by left.
  - apply IH. intros c Hc. apply Hb. apply elem_of_cons. by right.
Qed.
Lemma blocksBlooms_roundtrip l : length l = 16%nat -> Forall bloom_valid l ->
  rlpOf (writeBlocksBlooms l) = Ok (enc (Lst (map Str l))) /\ readBlocksBlooms (enc (Lst (map Str l))) = Ok l.
Proof.
  intros Hl Hv. assert (Hok : item_ok (Lst (map Str l))) by (apply blooms_size; [done|unfold lenZ; rewrite Hl; lia]). split.
  - apply rlpOf_writes; [|done]. apply (writes_vector writeBytes Str). intros. apply writes_bytes.
  - apply toArray_enc; [done..|unfold lenZ; rewrite Hl; lia|]. intros b Hb. apply readBloom_enc. rewrite Forall_forall in Hv. by apply Hv.
Qed.
Lemma logBlooms_roundtrip l : Forall bloom_valid l -> lenZ l < 2 ^ 50 ->
  rlpOf (writeLogBlooms l) = Ok (enc (Lst (map Str l))) /\ readLogBlooms (enc (Lst (map Str l))) = Ok l.
Proof.
  intros Hv Hl. pose proof (blooms_size l Hv Hl) as Hok. split.
  - apply rlpOf_writes; [|done]. apply (writes_vector writeBytes Str). intros. apply writes_bytes.
  - apply toVector_enc; [done|]. intros b Hb _. apply readBloom_enc. rewrite Forall_forall in Hv. by apply Hv.
Qed.
Lemma writeReceipts_enc l : Forall receipt_valid l -> item_ok (Lst (map receiptItem l)) ->
  rlpOf (writeReceipts true l) = Ok (enc (Lst (map receiptItem l))).
Proof.
  intros Hl Hok. apply rlpOf_writes; [|done]. apply (writes_vector (writeReceipt true) receiptItem). intros r Hr. apply receipt_writes_flag.
  rewrite Forall_forall in Hl. by apply Hl.
Qed.
Lemma readReceipts_enc l : Forall receipt_valid l -> item_ok (Lst (map receiptItem l)) ->
  readReceipts true (enc (Lst (map receiptItem l))) = Ok l.
Proof.
  intros Hl Hok. unfold readReceipts. rewrite members_enc by done. cbn [rbind]. apply mapR_enc. intros r Hr.
  apply (codec_reads (H := Receipt_codec) r).
  - rewrite Forall_forall in Hl. by apply Hl.
  - apply item_ok_members in Hok. rewrite Forall_forall in Hok. apply Hok. by apply list_elem_of_fmap_2.
Qed.

(** What a block stores beside itself can be read back: for any list of valid receipts, [BlockReceipts::rlp] and the constructor
    from RLP are inverse (status code or state root, gas, bloom, log entries and the revert reason of each receipt, in
    order); for the details of a block, the address of a transaction, the sixteen blooms of a chunk of the index and the
    blooms of a block's receipts likewise. *)
Theorem extras_roundtrip (rs : list TransactionReceipt) (b : BlockDetails) (t : TransactionAddress) (chunk blooms : list LogBloom) :
  Forall receipt_valid rs -> item_ok (Lst (map receiptItem rs)) ->
  details_valid b -> item_ok (detailsItem b) ->
  is_hash (ta_blockHash t) -> 0 <= ta_index t < 2 ^ 32 ->
  length chunk = 16%nat -> Forall bloom_valid chunk -> Forall bloom_valid blooms -> lenZ blooms < 2 ^ 50 ->
  (exists bs, rlpOf (writeReceipts true rs) = Ok bs /\ readReceipts true bs = Ok rs) /\
  (exists bs, rlpOf (writeDetails b) = Ok bs /\ readDetails bs = Ok b) /\
  (exists bs, rlpOf (writeTxAddress t) = Ok bs /\ readTxAddress bs = Ok t) /\
  (exists bs, rlpOf (writeBlocksBlooms chunk) = Ok bs /\ readBlocksBlooms bs = Ok chunk) /\
  (exists bs, rlpOf (writeLogBlooms blooms) = Ok bs /\ readLogBlooms bs = Ok blooms).
Proof.
  intros Hr Hrok Hb Hbok Ht Hti Hc Hcv Hbl Hbn. split_and!; eexists.
  - split; [by apply writeReceipts_enc|by apply readReceipts_enc].
  - split; [apply rlpOf_writes; [by apply (codec_writes (H := BlockDetails_codec) b)|done]|by apply (codec_reads (H := BlockDetails_codec) b)].
  - assert (Htok : item_ok (txAddressItem t)) by by apply txAddress_size.
    split; [apply rlpOf_writes; [by apply (codec_writes (H := TransactionAddress_codec) t)|done]|
            by apply (codec_reads (H := TransactionAddress_codec) t)].
  - by apply blocksBlooms_roundtrip.
  - by apply logBlooms_roundtrip.
Qed.

(** With the flag off the revert reason is not kept: the receipt is written with four members and reads back without its
    reason, whatever it was; and a receipt that was written with a reason while the flag was on is then refused as malformed. *)
Theorem reason_needs_the_flag (r : TransactionReceipt) :
  receipt_valid r -> item_ok (receiptItem r) -> r_revertReason r <> [] ->
  (exists bs, rlpOf (writeReceipt false r) = Ok bs /\
     readReceipt false bs = Ok (mkReceipt (r_statusCodeOrStateRoot r) (r_gasUsed r) (r_bloom r) (r_log r) [])) /\
  (exists bs, rlpOf (writeReceipt true r) = Ok bs /\ readReceipt false bs = Err InvalidTransactionReceiptFormat).
Proof.
  intros Hv Hok Hr. change (receiptItem r) with (Lst (receiptItems true r)) in Hok. assert (Hw : writesReason true r = true) by (unfold writesReason; by rewrite bool_decide_false).
  assert (Hok4 : item_ok (Lst (receiptItems false r))).
  { unfold receiptItems in Hok. rewrite Hw in Hok. unfold receiptItems. cbn [writesReason andb]. rewrite app_nil_r.
    by eapply app_ok. }
  split; eexists (enc _); split.
  - apply rlpOf_writes; [by apply receipt_writes_flag|done].
  - by apply (receipt_reads_flag false).
  - apply rlpOf_writes; [by apply receipt_writes_flag|exact Hok].
  - unfold readReceipt. rewrite RLP_ctor_enc, (proj1 (enc_isList _ Hok)) by exact Hok. cbn [liftR rbind].
    rewrite itemCount_enc by exact Hok. cbn [rbind]. unfold receiptItems. rewrite Hw. done.
Qed.

(** ** A receipt with a log and a reason *)
Module ReceiptExample.
Definition entry : LogEntry := mkLog 5 [1; 2 ^ 255] [10; 0; 255].
Definition receipt : TransactionReceipt := mkReceipt (StatusCode 0) 21000 (logsBloom FilterExample.mix [entry]) [entry] [111; 111; 112; 115].
Definition old : TransactionReceipt := mkReceipt (StateRoot 77) 21000 emptyBloom [] [].
Definition details : BlockDetails := mkDetails 17 300 9 [10; 11] 600.
Lemma bytes_0 : bloom_valid emptyBloom.
Proof. split; [reflexivity|]. apply (bool_decide_unpack _). vm_compute. exact I. Qed.
Lemma log_bytes : bloom_valid (logsBloom FilterExample.mix [entry]).
Proof. split; [apply logsBloom_ok|]. apply (bool_decide_unpack _). vm_compute. exact I. Qed.
Lemma receipt_is_valid : receipt_valid receipt.
Proof.
  split; [cbn; lia|]. split; [unfold is_hash; cbn; lia|]. split; [apply log_bytes|].
  constructor; [|constructor]. split; [unfold is_address; cbn; lia|]. constructor; [|constructor; [|constructor]]; unfold is_hash; cbn; lia.
Qed.
Lemma old_is_valid : receipt_valid old.
Proof. split; [unfold status_valid, is_hash; cbn; lia|]. split; [unfold is_hash; cbn; lia|]. split; [apply bytes_0|constructor]. Qed.
Fixpoint item_okb (it : item) : bool :=
  match it with
  | Str bs => bool_decide (bytes_ok bs) && (lenZ bs <? sizeLimit)
  | Lst its => forallb item_okb its && (lenZ (concat (map enc its)) <? sizeLimit)
  end.
Lemma item_okb_sound it : item_okb it = true -> item_ok it.
Proof.
  induction it as [bs|its IH] using item_ind'; cbn [item_okb]; intros [H1 H2%Z.ltb_lt]%andb_true_iff.
  - apply bool_decide_eq_true in H1. done.
  - split; [|done]. clear H2. induction IH as [|x its Hx _ IH]; [done|]. cbn in *. apply andb_true_iff in H1 as [? ?]. split; auto.
Qed.
Lemma receipts_fit : item_ok (Lst (map receiptItem [receipt; old])).
Proof. apply item_okb_sound. vm_compute. reflexivity. Qed.
Lemma receipt_fits : item_ok (receiptItem receipt).
Proof. apply item_okb_sound. vm_compute. reflexivity. Qed.
Lemma details_fit : item_ok (detailsItem details).
Proof. apply item_okb_sound. vm_compute. reflexivity. Qed.
Lemma details_are_valid : details_valid details.
Proof. repeat split; try (cbn; lia). constructor; [|constructor; [|constructor]]; unfold is_hash; cbn; lia. Qed.
Lemma chunk_valid : Forall bloom_valid NullBlocksBlooms.
Proof. apply Forall_forall. intros b [-> _]%elem_of_replicate. apply bytes_0. Qed.
Lemma receipts_valid : Forall receipt_valid [receipt; old].
Proof. constructor; [apply receipt_is_valid|constructor; [apply old_is_valid|constructor]]. Qed.
End ReceiptExample.

Lemma extras_roundtrip_witness :
  exists bs, rlpOf (writeReceipts true [ReceiptExample.receipt; ReceiptExample.old]) = Ok bs /\
    readReceipts true bs = Ok [ReceiptExample.receipt; ReceiptExample.old].
Proof.
  apply (extras_roundtrip [ReceiptExample.receipt; ReceiptExample.old] ReceiptExample.details (mkAddress 3 7) NullBlocksBlooms [emptyBloom]).
  - apply ReceiptExample.receipts_valid.
  - apply ReceiptExample.receipts_fit.
  - apply ReceiptExample.details_are_valid.
  - apply ReceiptExample.details_fit.
  - unfold is_hash. cbn. lia.
  - cbn. lia.
  - reflexivity.
  - apply ReceiptExample.chunk_valid.
  - constructor; [apply ReceiptExample.bytes_0|constructor].
  - reflexivity.
Defined.
Lemma reason_needs_the_flag_witness :
  exists bs, rlpOf (writeReceipt true ReceiptExample.receipt) = Ok bs /\ readReceipt false bs = Err InvalidTransactionReceiptFormat.
Proof.
  apply (reason_needs_the_flag ReceiptExample.receipt); [apply ReceiptExample.receipt_is_valid|apply ReceiptExample.receipt_fits|discriminate].
Defined.
Lemma codec_roundtrip_witness :
  exists bs, rlpOf (cdc_write ReceiptExample.details) = Ok bs /\ bs = enc (cdc_item ReceiptExample.details) /\ cdc_read bs = Ok ReceiptExample.details.
Proof. apply (codec_roundtrip ReceiptExample.details); [apply ReceiptExample.details_are_valid|apply ReceiptExample.details_fit]. Defined.
