(* ===== verification/Logs.v ===== *)
(** * Logs: the query of logs

    [ClientBase::logs( LogFilter )] and [prependLogsFromBlock] of libethereum/ClientBase.cpp on a view of
    the chain: the number of the last block, the index of blooms, the receipts of a block by its hash,
    the pending receipts and the configured limit.  [LocalisedLogEntry] is of libethcore/LogEntry.h. *)

From Stdlib Require Import ZArith Lia Bool.
From stdpp Require Import base list list_numbers gmap.
From S2P Require Import Prelude CommonData ExtVMFace Rlp RlpCodec LogFilter BloomIndex Receipt.
Open Scope Z_scope.

Inductive BlockPolarity := Unknown | Dead | Live.
Record LocalisedLogEntry := mkLocalised {
  ll_entry : LogEntry; ll_blockHash : Z; ll_blockNumber : Z; ll_transactionHash : Z; ll_transactionIndex : Z; ll_logIndex : Z;
  ll_polarity : BlockPolarity; ll_mined : bool; ll_isSpecial : bool; ll_special : Z }.
(** The constructor from an entry alone, the one with a special hash, and the one with a place in a block. *)
Definition localised (e : LogEntry) : LocalisedLogEntry := mkLocalised e 0 0 0 0 0 Unknown false false 0.
Definition localisedSpecial (e : LogEntry) (h : Z) : LocalisedLogEntry := mkLocalised e 0 0 0 0 0 Unknown false true h.
Definition localisedAt (e : LogEntry) (blockHash blockNumber txHash txIndex logIndex : Z) (p : BlockPolarity) : LocalisedLogEntry :=
  mkLocalised e blockHash blockNumber txHash txIndex logIndex p true false 0.

Record ChainView := mkView {
  cv_number : Z;                                   (* bc().number() *)
  cv_index : Index;                                (* the index of blooms *)
  cv_numberHash : Z -> Z;                          (* bc().numberHash( n ) *)
  cv_numberOf : Z -> Z;                            (* bc().number( hash ) *)
  cv_receipts : Z -> list TransactionReceipt;      (* bc().receipts( hash ).receipts *)
  cv_txHash : Z -> Z -> Z;                         (* transaction( hash, i ).sha3() *)
  cv_pending : list TransactionReceipt;            (* the receipts of postSeal() *)
  cv_limit : Z                                     (* ( uint64_t ) getLogsBlocksLimit *)
}.

Inductive LogsError := TooBigResponse | ReadsPastTopics.
Definition inBounds {A} (o : option A) : result LogsError A := match o with Some a => Ok a | None => Err ReadsPastTopics end.

Section Logs.
Context (sha3 : list Z -> Z).

(** ** One block *)

(** [isGood]: every position is tested, also after one failed. *)
Fixpoint goodTopics (f : LogFilter) (e : LogEntry) (js : list nat) : option bool :=
  match js with
  | [] => Some true
  | j :: js' => match topicGood f e j with
                | None => None
                | Some g => option_map (andb g) (goodTopics f e js')
                end
  end.
Definition goodEntry (f : LogFilter) (e : LogEntry) : option bool :=
  if bool_decide (m_addresses f = []) || bool_decide (log_address e ∈ m_addresses f) then goodTopics f e [0; 1; 2; 3]%nat
  else Some false.
(** The entries of one receipt from [logIndex] on, and the index after them. *)
Fixpoint prependEntries (f : LogFilter) (place : LogEntry -> Z -> LocalisedLogEntry) (log : list LogEntry) (logIndex : Z)
    (io_logs : list LocalisedLogEntry) : option (list LocalisedLogEntry * Z) :=
  match log with
  | [] => Some (io_logs, logIndex)
  | e :: log' =>
      match (if isRangeFilter f then Some true else goodEntry f e) with
      | None => None
      | Some good => prependEntries f place log' (u32 (logIndex + 1)) (if good then place e logIndex :: io_logs else io_logs)
      end
  end.
Fixpoint prependReceipts (cv : ChainView) (f : LogFilter) (blockHash : Z) (polarity : BlockPolarity) (rs : list TransactionReceipt)
    (i : Z) (logIndex : Z) (io_logs : list LocalisedLogEntry) : option (list LocalisedLogEntry) :=
  match rs with
  | [] => Some io_logs
  | r :: rs' =>
      let place := fun e k => localisedAt e blockHash (cv_numberOf cv blockHash) (cv_txHash cv blockHash i) i k polarity in
      match (if isRangeFilter f || matchesBloom sha3 f (r_bloom r) then prependEntries f place (r_log r) logIndex io_logs
             else Some (io_logs, u32 (logIndex + lenZ (r_log r)))) with
      | None => None
      | Some (io', k') => prependReceipts cv f blockHash polarity rs' (i + 1) k' io'
      end
  end.
Definition prependLogsFromBlock (cv : ChainView) (f : LogFilter) (blockHash : Z) (polarity : BlockPolarity)
    (io_logs : list LocalisedLogEntry) : option (list LocalisedLogEntry) :=
  prependReceipts cv f blockHash polarity (cv_receipts cv blockHash) 0 0 io_logs.

(** ** The query *)

(** [std::set< unsigned >::insert]. *)
Fixpoint setInsert (n : Z) (s : list Z) : list Z :=
  match s with
  | [] => [n]
  | m :: s' => if n <? m then n :: s else if n =? m then s else m :: setInsert n s'
  end.
Definition setInsertAll (s ns : list Z) : list Z := foldl (fun s n => setInsert n s) s ns.
Fixpoint prependPending (f : LogFilter) (rs : list TransactionReceipt) (ret : list LocalisedLogEntry) : option (list LocalisedLogEntry) :=
  match rs with
  | [] => Some ret
  | r :: rs' => match matches sha3 f (r_bloom r) (r_log r) with
                | None => None
                | Some le => prependPending f rs' (foldl (fun ret e => localised e :: ret) ret le)
                end
  end.
Fixpoint prependBlocks (cv : ChainView) (f : LogFilter) (ns : list Z) (ret : list LocalisedLogEntry) : option (list LocalisedLogEntry) :=
  match ns with
  | [] => Some ret
  | n :: ns' => match prependLogsFromBlock cv f (cv_numberHash cv n) Live ret with
                | None => None
                | Some ret' => prependBlocks cv f ns' ret'
                end
  end.
Definition matchingBlocks (cv : ChainView) (f : LogFilter) (from to : Z) : option (list Z) :=
  if isRangeFilter f then Some (setInsertAll [] (rangeZ from (to + 1)))
  else option_map (foldl (fun s p => setInsertAll s (withBlockBloom (cv_index cv) p from to)) []) (bloomPossibilities sha3 f).
Definition logsBegin (cv : ChainView) (f : LogFilter) : Z := Z.min (u32 (cv_number cv + 1)) (m_latest f).
Definition logsEnd (cv : ChainView) (f : LogFilter) : Z := Z.min (cv_number cv) (Z.min (logsBegin cv f) (m_earliest f)).
Definition logs (cv : ChainView) (f : LogFilter) : result LogsError (list LocalisedLogEntry) :=
  let begin_ := logsBegin cv f in
  let end_ := logsEnd cv f in
  if (end_ <=? begin_) && (cv_limit cv <? begin_ - end_) then Err TooBigResponse
  else
    let? ret := inBounds (if cv_number cv <? begin_ then prependPending f (cv_pending cv) [] else Some []) in
    let begin_ := if cv_number cv <? begin_ then cv_number cv else begin_ in
    let? ns := inBounds (matchingBlocks cv f end_ begin_) in
    let? ret := inBounds (prependBlocks cv f ns ret) in
    Ok (rev ret).

(** ** The reference: a scan of every block of the range *)

Definition keepMatching (f : LogFilter) (l : list LocalisedLogEntry) : list LocalisedLogEntry := List.filter (fun x => entryMatches f (ll_entry x)) l.
(** All entries of a receipt and of a block, each with its place. *)
Fixpoint placeEntries (place : LogEntry -> Z -> LocalisedLogEntry) (log : list LogEntry) (k : Z) : list LocalisedLogEntry :=
  match log with [] => [] | e :: log' => place e k :: placeEntries place log' (k + 1) end.
Fixpoint placeReceipts (cv : ChainView) (h : Z) (rs : list TransactionReceipt) (i k : Z) : list LocalisedLogEntry :=
  match rs with
  | [] => []
  | r :: rs' => placeEntries (fun e k => localisedAt e h (cv_numberOf cv h) (cv_txHash cv h i) i k Live) (r_log r) k ++
                placeReceipts cv h rs' (i + 1) (k + lenZ (r_log r))
  end.
Definition blockLogs (cv : ChainView) (n : Z) : list LocalisedLogEntry :=
  placeReceipts cv (cv_numberHash cv n) (cv_receipts cv (cv_numberHash cv n)) 0 0.
Definition pendingLogs (cv : ChainView) : list LocalisedLogEntry := map localised (concat (map r_log (cv_pending cv))).
(** The range of blocks the code reads, its last block excluded when it is pending. *)
Definition logsLast (cv : ChainView) (f : LogFilter) : Z := Z.min (cv_number cv) (logsBegin cv f).
Definition logsReference (cv : ChainView) (f : LogFilter) : list LocalisedLogEntry :=
  (if cv_number cv <? logsBegin cv f then keepMatching f (pendingLogs cv) else []) ++
  concat (map (fun n => keepMatching f (blockLogs cv n)) (rangeZ (logsEnd cv f) (logsLast cv f + 1))).
End Logs.

(** ** Sets of block numbers *)

Lemma setInsert_below n s : (forall m, m ∈ s -> n < m) -> setInsert n s = n :: s.
Proof. destruct s as [|m s]; intros H; [done|]. cbn. destruct (Z.ltb_spec n m); [done|]. specialize (H m ltac:(apply elem_of_cons; by left)). lia. Qed.
Lemma filter_ext_in {A} (P Q : A -> bool) l : (forall x, x ∈ l -> P x = Q x) -> List.filter P l = List.filter Q l.
Proof. intros H. apply List.filter_ext_in. intros x Hx. apply H. by apply list_elem_of_In. Qed.
Lemma elem_of_filter_range P a b n : n ∈ List.filter P (rangeZ a b) <-> P n = true /\ a <= n < b.
Proof. rewrite list_elem_of_In, List.filter_In, <- list_elem_of_In, elem_of_rangeZ. tauto. Qed.
Lemma setInsert_filter (P : Z -> bool) a b n : a <= n < b ->
  setInsert n (List.filter P (rangeZ a b)) = List.filter (fun m => P m || (m =? n)) (rangeZ a b).
Proof.
  remember (Z.to_nat (b - a)) as k eqn:Ek. revert a Ek. induction k as [|k IH]; intros a Ek Hn; [lia|].
  rewrite (rangeZ_cons a b) by lia. cbn [List.filter]. destruct (decide (n = a)) as [->|Hne].
  - rewrite Z.eqb_refl, orb_true_r. assert (Hrest : List.filter P (rangeZ (a + 1) b) = List.filter (fun m => P m || (m =? a)) (rangeZ (a + 1) b)).
    { apply filter_ext_in. intros m Hm%elem_of_rangeZ. destruct (Z.eqb_spec m a); [lia|]. by rewrite orb_false_r. }
    destruct (P a).
    + cbn. rewrite Z.ltb_irrefl, Z.eqb_refl. by rewrite Hrest.
    + rewrite setInsert_below; [by rewrite Hrest|]. intros m Hm%elem_of_filter_range. lia.
  - destruct (Z.eqb_spec a n); [lia|]. rewrite orb_false_r. destruct (P a); [|apply IH; lia].
    cbn. destruct (Z.ltb_spec n a); [lia|]. destruct (Z.eqb_spec n a); [lia|]. f_equal. apply IH; lia.
Qed.
Lemma setInsertAll_filter (P : Z -> bool) a b ns : (forall n, n ∈ ns -> a <= n < b) ->
  setInsertAll (List.filter P (rangeZ a b)) ns = List.filter (fun m => P m || existsb (Z.eqb m) ns) (rangeZ a b).
Proof.
  unfold setInsertAll. revert P. induction ns as [|n ns IH]; intros P H; cbn [foldl existsb].
  - apply filter_ext_in. intros. by rewrite orb_false_r.
  - rewrite setInsert_filter by (apply H, elem_of_cons; by left). rewrite IH by (intros m Hm; apply H, elem_of_cons; by right).
    apply filter_ext_in. intros m _. by rewrite orb_assoc.
Qed.
Lemma existsb_member (Q : Z -> bool) a b m : a <= m < b -> existsb (Z.eqb m) (List.filter Q (rangeZ a b)) = Q m.
Proof.
  intros Hm. apply eq_true_iff_eq. rewrite existsb_exists. split.
  - intros (x & Hx & ->%Z.eqb_eq). apply list_elem_of_In, elem_of_filter_range in Hx. tauto.
  - intros HQ. exists m. split; [|apply Z.eqb_refl]. apply list_elem_of_In, elem_of_filter_range. done.
Qed.
Lemma union_filters (P Q : Z -> bool) a b :
  setInsertAll (List.filter P (rangeZ a b)) (List.filter Q (rangeZ a b)) = List.filter (fun m => P m || Q m) (rangeZ a b).
Proof.
  rewrite setInsertAll_filter by (intros n Hn%elem_of_filter_range; tauto). apply filter_ext_in. intros m Hm%elem_of_rangeZ.
  by rewrite existsb_member.
Qed.
Lemma filter_false {A} (l : list A) : List.filter (fun _ => false) l = [].
Proof. by induction l. Qed.

(** ** Blocks *)

Section LogsLemmas.
Context (sha3 : list Z -> Z) (f : LogFilter) (H4 : length (m_topics f) = 4%nat).

(** A computation gives [x], or it reads past the topics of an entry, and then [bad] holds. *)
Definition gives {A} (o : option A) (x : A) (bad : Prop) : Prop := o = Some x \/ (o = None /\ bad).
Lemma gives_weaken {A} (o : option A) x (bad bad' : Prop) : gives o x bad -> (bad -> bad') -> gives o x bad'.
Proof. unfold gives. tauto. Qed.
(** An entry with exactly [i] topics where the filter has topics at position [i]. *)
Definition short (e : LogEntry) : Prop := exists i, (i < 4)%nat /\ nth i (m_topics f) [] <> [] /\ length (log_topics e) = i.
Lemma topicGood_gives e i : (i < 4)%nat -> gives (topicGood f e i) (topicMatches f e i) (short e).
Proof.
  intros Hi. destruct (topicGood f e i) as [g|] eqn:E; [left|right; split; [done|exists i; by apply topicGood_None in E as [? ?]]].
  rewrite <- E. apply topicGood_in_bounds. intros Hn Hl. by rewrite (proj2 (topicGood_None f e i) (conj Hn Hl)) in E.
Qed.
Lemma goodTopics_gives e js : (forall j, j ∈ js -> (j < 4)%nat) -> gives (goodTopics f e js) (forallb (topicMatches f e) js) (short e).
Proof.
  induction js as [|j js IH]; intros Hj; [by left|]. cbn [goodTopics forallb]. destruct (topicGood_gives e j) as [-> |[-> ?]]; [apply Hj, elem_of_cons; by left| |by right].
  destruct IH as [-> |[-> ?]]; [intros k Hk; apply Hj, elem_of_cons; by right|by left|by right].
Qed.
Lemma topicsGood_gives e js : (forall j, j ∈ js -> (j < 4)%nat) -> gives (topicsGood f e js) (forallb (topicMatches f e) js) (short e).
Proof.
  induction js as [|j js IH]; intros Hj; [by left|]. cbn [topicsGood forallb]. destruct (topicGood_gives e j) as [-> |[-> ?]]; [apply Hj, elem_of_cons; by left| |by right].
  destruct (topicMatches f e j); [|by left]. apply IH. intros k Hk. apply Hj, elem_of_cons. by right.
Qed.
Lemma goodEntry_gives e : gives (goodEntry f e) (entryMatches f e) (short e).
Proof. unfold goodEntry, entryMatches. destruct (bool_decide _ || bool_decide _); [|by left]. apply goodTopics_gives. intros j. apply first_four. Qed.
Lemma entryGood_gives e : gives (entryGood f e) (entryMatches f e) (short e).
Proof.
  unfold entryGood, entryMatches. destruct (bool_decide (m_addresses f = [])), (bool_decide (log_address e ∈ m_addresses f)); cbn [negb andb orb]; try (by left);
    apply topicsGood_gives; intros j; apply first_four.
Qed.
Lemma keepGood_gives l : gives (keepGood f l) (List.filter (entryMatches f) l) (Exists short l).
Proof.
  induction l as [|e l IH]; [by left|]. cbn [keepGood List.filter]. destruct (entryGood_gives e) as [-> |[-> ?]]; [|right; split; [done|by left]].
  destruct IH as [-> |[-> ?]]; [left; by destruct (entryMatches f e)|right; split; [done|by right]].
Qed.
Lemma keepMatching_app l1 l2 : keepMatching f (l1 ++ l2) = keepMatching f l1 ++ keepMatching f l2.
Proof. apply List.filter_app. Qed.

Lemma prependEntries_spec place log k io : (forall e k, ll_entry (place e k) = e) -> 0 <= k -> k + lenZ log < 2 ^ 32 ->
  gives (prependEntries f place log k io) (rev (keepMatching f (placeEntries place log k)) ++ io, k + lenZ log) (Exists short log).
Proof.
  intros Hp. revert k io. induction log as [|e log IH]; intros k io Hk Hlen.
  - left. cbn. rewrite lenZ_nil, Z.add_0_r. done.
  - rewrite lenZ_cons in Hlen. pose proof (lenZ_nonneg log). cbn [prependEntries].
    assert (Hg : gives (if isRangeFilter f then Some true else goodEntry f e) (entryMatches f e) (short e)).
    { destruct (isRangeFilter f) eqn:Er; [left; by rewrite range_matches_all|apply goodEntry_gives]. }
    destruct Hg as [-> |[-> ?]]; [|right; split; [done|by left]]. rewrite wrap_small by lia. cbn [placeEntries keepMatching List.filter]. rewrite Hp, lenZ_cons.
    destruct (IH (k + 1) (if entryMatches f e then place e k :: io else io)) as [-> |[-> ?]]; [lia|lia| |right; split; [done|by right]].
    left. destruct (entryMatches f e); cbn [rev]; rewrite <- ?app_assoc; do 2 f_equal; lia.
Qed.
Definition receipt_indexed (r : TransactionReceipt) : Prop := bloom_ok (r_bloom r) /\ bloom_le (logsBloom sha3 (r_log r)) (r_bloom r).
Definition hasShort (rs : list TransactionReceipt) : Prop := Exists (fun r => Exists short (r_log r)) rs.
Lemma keep_none place log k b : (forall e k, ll_entry (place e k) = e) -> bloom_ok b -> bloom_le (logsBloom sha3 log) b ->
  matchesBloom sha3 f b = false -> keepMatching f (placeEntries place log k) = [].
Proof.
  intros Hp Hb Hle Hm. apply filter_all_false. intros x Hx. destruct (entryMatches f (ll_entry x)) eqn:Ee; [|done]. exfalso.
  assert (Hin : ll_entry x ∈ log).
  { clear -Hp Hx. revert k Hx. induction log as [|e log IH]; intros k; cbn [placeEntries]; [by intros ?%elem_of_nil|].
    intros [->|Hx]%elem_of_cons; apply elem_of_cons; [left; apply Hp|right; by eapply IH]. }
  rewrite (matching_accepted sha3 f (ll_entry x) b) in Hm; [done..|]. etrans; [by apply logsBloom_has|done].
Qed.
Definition logsOf (rs : list TransactionReceipt) : Z := lenZ (concat (map r_log rs)).
Lemma prependReceipts_spec cv h rs i k io : Forall receipt_indexed rs -> 0 <= k -> k + logsOf rs < 2 ^ 32 ->
  gives (prependReceipts sha3 cv f h Live rs i k io) (rev (keepMatching f (placeReceipts cv h rs i k)) ++ io) (hasShort rs).
Proof.
  intros Hr. revert i k io. induction Hr as [|r rs (Hb & Hle) Hr IH]; intros i k io Hk Hlen; [by left|].
  unfold logsOf in *. cbn [map concat] in Hlen. rewrite lenZ_app in Hlen. pose proof (lenZ_nonneg (r_log r)).
  pose proof (lenZ_nonneg (concat (map r_log rs))). cbn [prependReceipts placeReceipts]. set (place := fun e k => _).
  assert (Hp : forall e k, ll_entry (place e k) = e) by done.
  assert (E : gives (if isRangeFilter f || matchesBloom sha3 f (r_bloom r) then prependEntries f place (r_log r) k io
              else Some (io, u32 (k + lenZ (r_log r)))) (rev (keepMatching f (placeEntries place (r_log r) k)) ++ io, k + lenZ (r_log r)) (Exists short (r_log r))).
  { destruct (isRangeFilter f || matchesBloom sha3 f (r_bloom r)) eqn:Eg; [apply prependEntries_spec; [done|lia|lia]|].
    apply orb_false_iff in Eg as [_ Eg]. left. rewrite (keep_none _ _ _ (r_bloom r)) by done. cbn. do 2 f_equal. apply wrap_small. lia. }
  destruct E as [-> |[-> ?]]; [|right; split; [done|by left]].
  destruct (IH (i + 1) (k + lenZ (r_log r)) (rev (keepMatching f (placeEntries place (r_log r) k)) ++ io)) as [-> |[-> ?]]; [lia|lia| |right; split; [done|by right]].
  left. rewrite keepMatching_app, rev_app_distr, <- app_assoc. done.
Qed.

Definition block_indexed (cv : ChainView) (n : Z) : Prop :=
  let rs := cv_receipts cv (cv_numberHash cv n) in
  Forall receipt_indexed rs /\ logsOf rs < 2 ^ 32 /\ Forall (fun r => bloom_le (r_bloom r) (blockBloom (cv_index cv) n)) rs.
Lemma prependBlocks_spec cv ns ret : Forall (block_indexed cv) ns ->
  gives (prependBlocks sha3 cv f ns ret) (rev (concat (map (fun n => keepMatching f (blockLogs cv n)) ns)) ++ ret) (Exists (fun n => hasShort (cv_receipts cv (cv_numberHash cv n))) ns).
Proof.
  intros Hn. revert ret. induction Hn as [|n ns (Hr & Hl & _) Hn IH]; intros ret; [by left|]. cbn [prependBlocks map concat].
  unfold prependLogsFromBlock. destruct (prependReceipts_spec cv (cv_numberHash cv n) _ 0 0 ret Hr) as [-> |[-> ?]]; [lia|lia| |right; split; [done|by left]].
  match goal with |- gives (prependBlocks _ _ _ _ ?r) _ _ => destruct (IH r) as [-> |[-> ?]] end; [|right; split; [done|by right]]. left. rewrite rev_app_distr, <- app_assoc. done.
Qed.
(** A block whose bloom the filter does not accept has no matching entry. *)
Lemma block_miss cv n : block_indexed cv n -> chunks_ok (cv_index cv) -> matchesBloom sha3 f (blockBloom (cv_index cv) n) = false ->
  keepMatching f (blockLogs cv n) = [].
Proof.
  intros (Hr & _ & Hb) Hix Hm. unfold blockLogs. generalize 0 at 2. generalize 0. revert Hr Hb. generalize (cv_receipts cv (cv_numberHash cv n)).
  intros rs Hr Hb. induction Hr as [|r rs (Hok & Hle) Hr IH]; intros i k; [done|]. apply Forall_cons in Hb as [Hb1 Hb].
  cbn [placeReceipts]. rewrite keepMatching_app, IH by done. rewrite app_nil_r.
  eapply (keep_none _ _ _ (blockBloom (cv_index cv) n)); [done|by apply levelBloom_ok|by etrans|done].
Qed.
Lemma concat_filtered {A B} (g : A -> list B) (P : A -> bool) l : (forall x, x ∈ l -> P x = false -> g x = []) ->
  concat (map g (List.filter P l)) = concat (map g l).
Proof.
  induction l as [|x l IH]; intros H; [done|]. cbn [List.filter map concat]. rewrite <- IH by (intros y Hy; apply H, elem_of_cons; by right).
  destruct (P x) eqn:Ex; [done|]. rewrite (H x) by (done || apply elem_of_cons; by left). done.
Qed.
Lemma matchingBlocks_spec cv from to : index_ok (cv_index cv) -> 0 <= from <= to -> to < 2 ^ 32 ->
  matchingBlocks sha3 cv f from to =
  Some (List.filter (fun n => isRangeFilter f || matchesBloom sha3 f (blockBloom (cv_index cv) n)) (rangeZ from (to + 1))).
Proof.
  intros Hix Hft Hto. unfold matchingBlocks. set (R := rangeZ from (to + 1)). destruct (isRangeFilter f) eqn:Er.
  - f_equal. pose proof (union_filters (fun _ => false) (fun _ => true) from (to + 1)) as E. fold R in E.
    rewrite filter_false, (filter_all_true (fun _ : Z => true) R) in E by done. rewrite E. done.
  - destruct (bloomPossibilities_spec sha3 f) as (l & El & Hl). rewrite El. cbn [option_map]. f_equal.
    assert (Hbl : Forall bloom_ok l).
    { apply Forall_forall. intros p (_ & it & Hit & ->)%Hl. rewrite possibility_pick by done. auto with bloom. }
    assert (Hall : forall P, foldl (fun s p => setInsertAll s (withBlockBloom (cv_index cv) p from to)) (List.filter P R) l =
      List.filter (fun n => P n || existsb (contains (blockBloom (cv_index cv) n)) l) R).
    { clear El Hl. induction Hbl as [|p l Hp _ IH]; intros P; cbn [foldl existsb].
      { apply filter_ext_in. intros. by rewrite orb_false_r. }
      rewrite search_scan by done. unfold R. rewrite union_filters. fold R. rewrite IH. apply filter_ext_in. intros. by rewrite orb_assoc. }
    specialize (Hall (fun _ => false)). rewrite filter_false in Hall. rewrite Hall.
    apply filter_ext_in. intros n Hn. cbn [orb]. destruct (possibilities_spec_eq sha3 f (blockBloom (cv_index cv) n) Er) as (l' & El' & E').
    { apply levelBloom_ok, Hix. }
    rewrite El in El'. injection El' as <-. exact E'.
Qed.
End LogsLemmas.

(** Every placed entry comes from a receipt of the block. *)
Lemma placed_in_receipt place log k x : x ∈ placeEntries place log k -> exists e j, x = place e j /\ e ∈ log.
Proof.
  revert k. induction log as [|e log IH]; intros k; cbn [placeEntries]; [by intros ?%elem_of_nil|]. intros [->|Hx]%elem_of_cons.
  - exists e, k. split; [done|apply elem_of_cons; by left].
  - destruct (IH _ Hx) as (e' & j & -> & He). exists e', j. split; [done|apply elem_of_cons; by right].
Qed.
Lemma placed_in_block cv h rs i k x : x ∈ placeReceipts cv h rs i k ->
  ll_mined x = true /\ ll_blockHash x = h /\ exists j r, ll_transactionIndex x = i + Z.of_nat j /\ rs !! j = Some r /\ ll_entry x ∈ r_log r.
Proof.
  revert i k. induction rs as [|r rs IH]; intros i k; cbn [placeReceipts]; [by intros ?%elem_of_nil|]. intros [Hx|Hx]%elem_of_app.
  - apply placed_in_receipt in Hx as (e & j & -> & He). split; [done|]. split; [done|]. exists 0%nat, r. cbn. split; [lia|done].
  - destruct (IH _ _ Hx) as (H1 & H2 & j & r' & H3 & H4 & H5). split; [done|]. split; [done|]. exists (S j), r'. split; [lia|done].
Qed.

(** The chain as the query sees it: the index holds the blooms of its blocks, every receipt's bloom covers its log, and no number wraps. *)
Record view_ok (sha3 : list Z -> Z) (f : LogFilter) (cv : ChainView) : Prop := {
  vo_topics : length (m_topics f) = 4%nat;
  vo_range : 0 <= m_earliest f < 2 ^ 32 /\ 0 <= m_latest f < 2 ^ 32;
  vo_number : 0 <= cv_number cv < 2 ^ 32 - 1;
  vo_index : index_ok (cv_index cv);
  vo_blocks : forall n, 0 <= n <= cv_number cv -> block_indexed sha3 cv n;
  vo_pending : Forall (receipt_indexed sha3) (cv_pending cv)
}.
(** The receipts that the query may read: those of the blocks of its range, and the pending ones when the range goes past the last block. *)
Definition inScope (cv : ChainView) (f : LogFilter) (r : TransactionReceipt) : Prop :=
  (exists n, logsEnd cv f <= n <= logsLast cv f /\ r ∈ cv_receipts cv (cv_numberHash cv n)) \/ (cv_number cv < logsBegin cv f /\ r ∈ cv_pending cv).
(** No entry there is one topic short of the filter. *)
Definition topics_suffice (cv : ChainView) (f : LogFilter) : Prop := forall r, inScope cv f r -> Forall (in_bounds f) (r_log r).

Lemma matches_gives sha3 f bloom log : length (m_topics f) = 4%nat -> bloom_ok bloom -> bloom_le (logsBloom sha3 log) bloom ->
  gives (matches sha3 f bloom log) (List.filter (entryMatches f) log) (Exists (short f) log).
Proof.
  intros H4 Hb Hle. unfold matches. destruct (isRangeFilter f) eqn:Er; [left; rewrite filter_all_true; [done|]; intros e _; by apply range_matches_all|].
  destruct (matchesBloom sha3 f bloom) eqn:Em; [apply keepGood_gives|]. left.
  rewrite filter_all_false; [done|]. intros e He. destruct (entryMatches f e) eqn:Ee; [|done]. exfalso.
  rewrite (matching_accepted sha3 f e bloom) in Em; [done..|]. etrans; [by apply logsBloom_has|done].
Qed.
Lemma pending_spec sha3 f rs ret : length (m_topics f) = 4%nat -> Forall (receipt_indexed sha3) rs ->
  gives (prependPending sha3 f rs ret) (rev (keepMatching f (map localised (concat (map r_log rs)))) ++ ret) (hasShort f rs).
Proof.
  intros H4 Hr. revert ret. induction Hr as [|r rs (Hb & Hle) Hr IH]; intros ret; [by left|]. cbn [prependPending map concat].
  destruct (matches_gives sha3 f (r_bloom r) (r_log r) H4 Hb Hle) as [-> |[-> ?]]; [|right; split; [done|by left]].
  match goal with |- gives (prependPending _ _ _ ?x) _ _ => destruct (IH x) as [-> |[-> ?]] end; [|right; split; [done|by right]].
  left. rewrite map_app, keepMatching_app, rev_app_distr, <- app_assoc. do 2 f_equal.
  clear. revert ret. induction (r_log r) as [|e l IH]; intros ret; [done|]. cbn [map keepMatching List.filter]. cbn [localised ll_entry].
  destruct (entryMatches f e); [|apply IH]. cbn [foldl rev]. fold (keepMatching f (map localised l)). rewrite IH, <- app_assoc. done.
Qed.
Lemma hasShort_scope cv f (rs : list TransactionReceipt) : hasShort f rs -> (forall r, r ∈ rs -> inScope cv f r) -> exists r e, inScope cv f r /\ e ∈ r_log r /\ short f e.
Proof. intros (r & Hr & (e & He & Hs)%Exists_exists)%Exists_exists Hsc. eauto 6. Qed.

(** The query and the reference. *)
Lemma logs_cases (sha3 : list Z -> Z) (f : LogFilter) (cv : ChainView) : view_ok sha3 f cv ->
  logs sha3 cv f = (if cv_limit cv <? logsBegin cv f - logsEnd cv f then Err TooBigResponse else Ok (logsReference cv f)) \/
  logs sha3 cv f = Err ReadsPastTopics /\ exists r e, inScope cv f r /\ e ∈ r_log r /\ short f e.
Proof.
  intros [H4 [He Hl] Hn Hix Hblk Hpend]. unfold logs.
  assert (Hu : u32 (cv_number cv + 1) = cv_number cv + 1) by (apply wrap_small; lia).
  assert (Hb : logsEnd cv f <= logsBegin cv f /\ 0 <= logsEnd cv f <= cv_number cv /\ 0 <= logsBegin cv f)
    by (unfold logsEnd, logsBegin; rewrite Hu; lia).
  destruct Hb as (Hb & Hend & Hbeg). destruct (Z.leb_spec (logsEnd cv f) (logsBegin cv f)); [|lia]. cbn [andb].
  destruct (cv_limit cv <? logsBegin cv f - logsEnd cv f); [by left|].
  replace (if cv_number cv <? logsBegin cv f then cv_number cv else logsBegin cv f) with (logsLast cv f).
  2: { unfold logsLast. destruct (Z.ltb_spec (cv_number cv) (logsBegin cv f)); lia. }
  rewrite matchingBlocks_spec by (done || unfold logsLast; lia).
  assert (Hp : gives (if cv_number cv <? logsBegin cv f then prependPending sha3 f (cv_pending cv) [] else Some [])
    (rev (if cv_number cv <? logsBegin cv f then keepMatching f (pendingLogs cv) else [])) (cv_number cv < logsBegin cv f /\ hasShort f (cv_pending cv))).
  { destruct (Z.ltb_spec (cv_number cv) (logsBegin cv f)); [|by left]. destruct (pending_spec sha3 f (cv_pending cv) [] H4 Hpend) as [-> |[-> ?]]; [left; by rewrite app_nil_r|by right]. }
  destruct Hp as [-> |[-> [Hlt Hs]]]; cbn [rbind inBounds]; [|right; split; [done|]; apply (hasShort_scope cv f _ Hs); intros r Hr; by right].
  set (P := fun n => isRangeFilter f || matchesBloom sha3 f (blockBloom (cv_index cv) n)). set (ret := rev _).
  destruct (prependBlocks_spec sha3 f H4 cv (List.filter P (rangeZ (logsEnd cv f) (logsLast cv f + 1))) ret) as [-> |[-> Hs]]; cbn [inBounds rbind].
  - apply Forall_forall. intros n Hn'%elem_of_filter_range. apply Hblk. unfold logsLast in Hn'. lia.
  - left. unfold ret. rewrite rev_app_distr, !rev_involutive. unfold logsReference. do 2 f_equal. apply concat_filtered.
    intros n Hn'%elem_of_rangeZ Hm. apply orb_false_iff in Hm as [_ Hm]. eapply block_miss; [done| |apply Hix|done].
    apply Hblk. unfold logsLast in Hn'. lia.
  - right. split; [done|]. apply Exists_exists in Hs as (n & Hn'%elem_of_filter_range & Hs). apply (hasShort_scope cv f _ Hs). intros r Hr. left. exists n. split; [lia|done].
Qed.
Lemma logs_scan (sha3 : list Z -> Z) (f : LogFilter) (cv : ChainView) : view_ok sha3 f cv -> topics_suffice cv f ->
  logs sha3 cv f = if cv_limit cv <? logsBegin cv f - logsEnd cv f then Err TooBigResponse else Ok (logsReference cv f).
Proof.
  intros Hv Ht. destruct (logs_cases sha3 f cv Hv) as [?|[_ (r & e & Hr & He & i & Hi & Hn & Hl)]]; [done|]. exfalso.
  specialize (Ht r Hr). rewrite Forall_forall in Ht. by apply (Ht e He i Hi Hn).
Qed.

(** C21: The query of logs is a scan: on a chain whose blocks are in the index of blooms, [ClientBase::logs] returns, for every filter, the matching pending entries first
    when the range goes past the last block, and then the matching entries of every block of the range in increasing order, each with its block, transaction and the position
    of the entry among all entries of the block; the range is the one that the code clamps to the chain, which for a request past its end or with its first block after its
    last one is a single block, never empty.  It is refused when it is longer than the configured limit.  Nothing else happens but for one thing: where the filter has topics
    at a position and an entry in scope has exactly as many topics as come before it, the code may read past the entry's topics.  Neither the index, nor the patterns, nor the
    receipts' blooms hide an entry; and every entry of the answer is in the log of a receipt of the range or of a pending one. *)
Theorem logs_are_the_scan (sha3 : list Z -> Z) (f : LogFilter) (cv : ChainView) : view_ok sha3 f cv ->
  (logs sha3 cv f = (if cv_limit cv <? logsBegin cv f - logsEnd cv f then Err TooBigResponse else Ok (logsReference cv f)) \/
   logs sha3 cv f = Err ReadsPastTopics /\ exists r e i, inScope cv f r /\ e ∈ r_log r /\ (i < 4)%nat /\ nth i (m_topics f) [] <> [] /\ length (log_topics e) = i) /\
  (forall x, x ∈ logsReference cv f -> entryMatches f (ll_entry x) = true /\
     if ll_mined x then exists n r, logsEnd cv f <= n <= logsLast cv f /\ ll_blockHash x = cv_numberHash cv n /\
                                    cv_receipts cv (ll_blockHash x) !! Z.to_nat (ll_transactionIndex x) = Some r /\ ll_entry x ∈ r_log r
     else exists r, r ∈ cv_pending cv /\ ll_entry x ∈ r_log r).
Proof.
  intros Hv. split; [destruct (logs_cases sha3 f cv Hv) as [?|[? (r & e & Hr & He & i & Hi)]]; [by left|right; eauto 10]|]. intros x [Hx|Hx]%elem_of_app.
  - destruct (cv_number cv <? logsBegin cv f); [|by apply elem_of_nil in Hx].
    apply list_elem_of_In, List.filter_In in Hx as [Hx Hm]. split; [done|]. apply list_elem_of_In, list_elem_of_fmap in Hx as (e & -> & He).
    cbn. apply list_elem_of_In, in_concat in He as (l & Hl & He). apply list_elem_of_In, list_elem_of_fmap in Hl as (r & -> & Hr).
    exists r. split; [done|by apply list_elem_of_In].
  - apply list_elem_of_In, in_concat in Hx as (l & Hl & Hx). apply list_elem_of_In, list_elem_of_fmap in Hl as (n & -> & Hn%elem_of_rangeZ).
    apply List.filter_In in Hx as [Hx Hm]. split; [done|]. apply list_elem_of_In in Hx.
    destruct (placed_in_block cv _ _ _ _ _ Hx) as (-> & Eh & i & r & Ei & Hr & He). exists n, r. rewrite Eh, Ei.
    split; [lia|]. split; [done|]. split; [|done]. replace (Z.to_nat (0 + Z.of_nat i)) with i by lia. done.
Qed.

(** Answers from outside the requested range: when the first requested block comes after the last one, the answer is the
    matching entries of the last requested block, which the request excludes; when both are past the end of the chain, the
    answer is the pending entries and those of the last block of the chain.  The code clamps the range instead of
    finding it empty. *)
Theorem logs_answer_outside_range (sha3 : list Z -> Z) (f : LogFilter) (cv : ChainView) : view_ok sha3 f cv -> topics_suffice cv f -> 1 <= cv_limit cv ->
  (m_latest f < m_earliest f -> m_latest f <= cv_number cv -> logs sha3 cv f = Ok (keepMatching f (blockLogs cv (m_latest f)))) /\
  (cv_number cv < m_earliest f -> cv_number cv < m_latest f ->
   logs sha3 cv f = Ok (keepMatching f (pendingLogs cv) ++ keepMatching f (blockLogs cv (cv_number cv)))).
Proof.
  intros Hv Ht Hlim. rewrite (logs_scan _ _ _ Hv Ht). destruct Hv as [_ [He Hl] Hn _ _ _].
  assert (Hu : u32 (cv_number cv + 1) = cv_number cv + 1) by (apply wrap_small; lia).
  assert (Hone : forall n, rangeZ n (n + 1) = [n]) by (intros n; rewrite rangeZ_cons, rangeZ_nil by lia; done).
  unfold logsReference, logsLast, logsEnd, logsBegin. rewrite Hu. split; intros H1 H2.
  - replace (Z.min (cv_number cv + 1) (m_latest f)) with (m_latest f) by lia.
    replace (Z.min (cv_number cv) (Z.min (m_latest f) (m_earliest f))) with (m_latest f) by lia.
    replace (Z.min (cv_number cv) (m_latest f)) with (m_latest f) by lia.
    destruct (Z.ltb_spec (cv_limit cv) (m_latest f - m_latest f)); [lia|]. destruct (Z.ltb_spec (cv_number cv) (m_latest f)); [lia|].
    rewrite Hone. cbn. by rewrite app_nil_r.
  - replace (Z.min (cv_number cv + 1) (m_latest f)) with (cv_number cv + 1) by lia.
    replace (Z.min (cv_number cv) (Z.min (cv_number cv + 1) (m_earliest f))) with (cv_number cv) by lia.
    replace (Z.min (cv_number cv) (cv_number cv + 1)) with (cv_number cv) by lia.
    destruct (Z.ltb_spec (cv_limit cv) (cv_number cv + 1 - cv_number cv)); [lia|]. destruct (Z.ltb_spec (cv_number cv) (cv_number cv + 1)); [|lia].
    rewrite Hone. cbn. by rewrite app_nil_r.
Qed.

(** ** A chain of 302 blocks, two of them with logs *)
Module LogsExample.
Import FilterExample.
Definition receipt : TransactionReceipt := newReceipt mix (StatusCode 1) 21000 [other; sent].
Definition view : ChainView := mkView 301
  (foldl (insertBlooms mix) ∅ [mkBlockBlooms 17 1 [r_bloom receipt]; mkBlockBlooms 301 1 [r_bloom receipt]])
  (fun n => 1000 + n) (fun h => h - 1000)
  (fun h => if bool_decide (h = 1017 \/ h = 1301) then [receipt] else []) (fun h i => h * 10 + i) [receipt] (2 ^ 64 - 1).
Definition from14 : LogFilter := mkLogFilter [5; 6] [[]; [7]; []; []] 14 (2 ^ 32 - 1).
Definition backwards : LogFilter := mkLogFilter [5; 6] [[]; [7]; []; []] 18 17.
Lemma receipt_is_indexed : receipt_indexed mix receipt.
Proof. split; [apply logsBloom_ok|reflexivity]. Qed.
Lemma receipts_suffice f : m_topics f = [[]; [7]; []; []] -> topics_suffice view f.
Proof.
  intros Ht r Hr. assert (r = receipt) as ->.
  { destruct Hr as [(n & _ & Hr)|[_ Hr]]; cbn in Hr; [case_bool_decide|]; [by apply list_elem_of_singleton in Hr|by apply not_elem_of_nil in Hr|by apply list_elem_of_singleton in Hr]. }
  constructor; [|constructor; [|constructor]]; intros [|[|[|[|i]]]] Hi Hn Hl; rewrite Ht in Hn; cbn in *; congruence.
Qed.
Lemma blocks_are_ok : Forall block_ok [mkBlockBlooms 17 1 [r_bloom receipt]; mkBlockBlooms 301 1 [r_bloom receipt]].
Proof. repeat (constructor; [split; [cbn; lia|constructor; [apply logsBloom_ok|constructor]]|]). constructor. Qed.
Lemma view_is_ok f : m_topics f = [[]; [7]; []; []] -> 0 <= m_earliest f < 2 ^ 32 -> 0 <= m_latest f < 2 ^ 32 -> view_ok mix f view.
Proof.
  intros Ht He Hl. destruct (chain_index mix _ blocks_are_ok) as (Hix & Hcov & _). constructor; [by rewrite Ht|done|cbn; lia|exact Hix| |].
  - intros n Hn. unfold block_indexed. cbn [cv_receipts cv_numberHash view]. case_bool_decide as Hh; [|split; [by apply Forall_nil|split; [reflexivity|by apply Forall_nil]]].
    split; [constructor; [exact receipt_is_indexed|constructor]|]. split; [vm_compute; reflexivity|]. constructor; [|constructor].
    assert (Hr : r_bloom receipt ∈ [r_bloom receipt]) by (apply elem_of_cons; by left).
    destruct Hh as [Hh|Hh]; [assert (n = 17) as -> by lia|assert (n = 301) as -> by lia].
    + apply (Hcov (mkBlockBlooms 17 1 [r_bloom receipt])); [apply elem_of_cons; by left|exact Hr].
    + apply (Hcov (mkBlockBlooms 301 1 [r_bloom receipt])); [apply elem_of_cons; right; apply elem_of_cons; by left|exact Hr].
  - constructor; [exact receipt_is_indexed|constructor].
Qed.
End LogsExample.

Lemma logs_are_the_scan_witness :
  option_map (map (fun x => (ll_blockNumber x, ll_logIndex x)))
    (match logs FilterExample.mix LogsExample.view LogsExample.from14 with Ok l => Some l | Err _ => None end) = Some [(0, 0); (17, 1); (301, 1)].
Proof.
  destruct (proj1 (logs_are_the_scan FilterExample.mix LogsExample.from14 LogsExample.view
    (LogsExample.view_is_ok LogsExample.from14 eq_refl ltac:(cbn; lia) ltac:(cbn; lia)))) as [-> |[_ (r & e & i & Hr & He & Hi & Hn & Hl)]]; [vm_compute; reflexivity|].
  exfalso. pose proof (LogsExample.receipts_suffice LogsExample.from14 eq_refl r Hr) as Hb. rewrite Forall_forall in Hb. exact (Hb e He i Hi Hn Hl).
Defined.
Lemma logs_answer_outside_range_witness :
  logs FilterExample.mix LogsExample.view LogsExample.backwards = Ok [localisedAt FilterExample.sent 1017 17 10170 0 1 Live].
Proof.
  rewrite (proj1 (logs_answer_outside_range FilterExample.mix LogsExample.backwards LogsExample.view
    (LogsExample.view_is_ok LogsExample.backwards eq_refl ltac:(cbn; lia) ltac:(cbn; lia)) (LogsExample.receipts_suffice LogsExample.backwards eq_refl) ltac:(cbn; lia)) ltac:(cbn; lia) ltac:(cbn; lia)).
  vm_compute. reflexivity.
Defined.
