(* ===== verification/StateExecute.v ===== *)
(** * StateExecute: executing and committing one transaction

    [State::execute] of libskale/State.cpp with the table of transactions that are not executed, the
    names the overlay keeps beside the state (the hash of the last executed transaction and the
    receipts of the block so far), and [call_error_message_2_str] of libskutils/src/eth_utils.cpp.

    The state the code works on is the copy [Block::execute] makes: its caches are empty after the
    last commit and its counters of storage are those of the database ([State::operator=]).  What a
    commit of the overlay makes durable, in one batch, is the record [Disk].  The partial receipts are
    the list that their bytes encode.  File storage, tracing and logging are not modelled. *)

From Stdlib Require Import ZArith Lia Bool.
From stdpp Require Import base list gmap.
From S2P Require Import Prelude CommonData Rlp RlpCodec LogFilter BloomIndex Receipt.
From S2P Require Import Instruction EVMSchedule Words ExtVMFace LegacyVM ChainParams Transaction State Executive.
Open Scope Z_scope.
Open Scope state_scope.
Open Scope exec_scope.

(** ** The reason of a revert *)

(** A 32-bit signed integer, in two's complement. *)
Definition i32 (z : Z) : Z := wrap 32 (z + 2 ^ 31) - 2 ^ 31.
(** [ntohl( *( ( int* ) ( b.data() + i ) ) )]. *)
Definition be32At (b : list Z) (i : Z) : Z := unbe (takeZ 4 (dropZ i b)).
Fixpoint untilZero (b : list Z) : list Z := match b with [] => [] | x :: b' => if x =? 0 then [] else x :: untilZero b' end.
(** [None]: a read outside of the bytes, or an array of negative size. *)
Definition call_error_message_2_str (b : list Z) : option (list Z) :=
  if (lenZ b <=? 4 + 32 + 32) || negb (nthZ b 0 =? 0x08) || negb (nthZ b 1 =? 0xc3) || negb (nthZ b 2 =? 0x79) || negb (nthZ b 3 =? 0xa0)
  then Some []
  else
    let offset := i32 (4 + 32 + be32At b 32) in
    let len := i32 (be32At b 64) in
    if (0 <=? len) && (0 <=? offset) && (offset + len <=? lenZ b) then Some (untilZero (takeZ len (dropZ offset b))) else None.
(** "EVM revert instruction without description message" *)
Definition noDescription : list Z :=
  [69; 86; 77; 32; 114; 101; 118; 101; 114; 116; 32; 105; 110; 115; 116; 114; 117; 99; 116; 105; 111; 110; 32; 119; 105; 116; 104; 111;
   117; 116; 32; 100; 101; 115; 99; 114; 105; 112; 116; 105; 111; 110; 32; 109; 101; 115; 115; 97; 103; 101].

(** ** The names of the overlay *)

Record Names := mkNames { nm_lastHash : Z; nm_receipts : list TransactionReceipt }.
Record Disk := mkDisk { dk_db : DB; dk_names : Names }.
Definition setLastExecutedTransactionHash (h : Z) (n : Names) : Names := mkNames h (nm_receipts n).
Definition addReceiptToPartials (r : TransactionReceipt) (n : Names) : Names := mkNames (nm_lastHash n) (nm_receipts n ++ [r]).
Definition clearPartialTransactionReceipts (n : Names) : Names := mkNames (nm_lastHash n) [].

Inductive Permanence := Reverted | Committed | Uncommitted | CommittedWithoutState.
#[export] Instance Permanence_eq_dec : EqDecision Permanence.
Proof. solve_decision. Defined.

(** [txnsToSkipExecution]: chain, hash, gas. *)
Definition txnsToSkipExecution : list (Z * Z * Z) :=
  [(1020352220, 0x3464b9a165a29fde2ce644882e82d99edbff5f530413f6cc18b26bf97e6478fb, 40729);
   (1482601649, 0xd3f25440b752f4ad048b618554f71cec08a73af7bf88b6a7d55581f3a792d823, 32151);
   (974399131, 0xfcd7ecb7c359af0a93a02e5d84957e0c6f90da4584c058e9c5e988b27a237693, 23700);
   (1482601649, 0x6f2074cfe73a258c049ac2222101b7020461c2d40dcd5ab9587d5bbdd13e4c68, 55293);
   (21, 0x95fb5557db8cc6de0aff3a64c18a6d9378b0d312b24f5d77e8dbf5cc0612d74f, 23232)].
Definition skippedGas (chain hash : Z) : option Z :=
  snd <$> List.find (fun p => (fst (fst p) =? chain) && (snd (fst p) =? hash)) txnsToSkipExecution.

Section StateExecute.
Context {SP : StateParams} {EP : ExecParams}.

(** The state a copy of the committed one is: no caches, no pending usage. *)
Definition loadState (accountStartNonce limit : Z) (d : DB) : State :=
  mkState d 0 0 true ∅ [] ∅ accountStartNonce [] 0 limit ∅ (db_storageUsed d) 0.

Definition txHash (t : Transaction) : result VMException Z := match tx_sha3 sha3 t true with Ok h => Ok h | Err e => Err (ofTxError e) end.
(** The gas of a transaction that is not to be executed. *)
Definition skipOf (p : Permanence) (t : Transaction) : result VMException (option Z) :=
  if bool_decide (p = Committed) then let? h := txHash t in Ok (skippedGas (ChainParams.chainID chainParams) h) else Ok None.

Variable env : EnvInfo.

Definition runTx (skip : option Z) (t : Transaction) : XM bool :=
  match skip with
  | Some _ => initialize env 0 t >>> let! _ := execute env in xret false
  | None => executeTransaction env 0 t
  end.
Definition revertReason (e : Executive) : option (list Z) :=
  match m_res e with
  | Some r => if bool_decide (er_excepted r = TE_RevertInstruction)
              then (fun s => match s with [] => noDescription | _ => s end) <$> call_error_message_2_str (er_output r)
              else Some []
  | None => Some []
  end.
Definition receiptOf (skip : option Z) (status : bool) (e : Executive) (reason : list Z) : TransactionReceipt :=
  let used := match skip with Some g => g | None => u256 (gas (m_t e) - m_gas e) end in
  let sr := match skip with
            | Some _ => StatusCode (if status then 1 else 0)
            | None => if byzantiumForkBlock (forks chainParams) <=? env_number env then StatusCode (if status then 1 else 0) else StateRoot EmptyTrie
            end in
  let r := newReceipt sha3 sr (u256 (env_gasUsed env + used)) (m_logs e) in
  mkReceipt (r_statusCodeOrStateRoot r) (r_gasUsed r) (r_bloom r) (r_log r) reason.

(** The storage a transaction of a user took is charged. *)
Definition settleUsage (from : Z) : SM unit :=
  let* r := account from in
  match r with
  | Some acc => if bool_decide (m_codeCache acc = [])
                then smodify (fun s => s <| totalStorageUsed_ := totalStorageUsed_ s + currentStorageUsed_ s |>) ;; updateStorageUsage
                else sret tt
  | None => sret tt
  end.
Definition dropChanges : SM unit := resetStorageChanges ;; smodify (fun s => s <| m_cache := ∅ |>).

Definition stateExecute (p : Permanence) (t : Transaction) (s : State) (n : Names) :
    result VMException (ExecutionResult * TransactionReceipt) * (State * Names * option Disk) :=
  match skipOf p t with
  | Err x => (Err x, (s, n, None))
  | Ok skip =>
      match runTx skip t (newExecutive 0 (negb (bool_decide (p = Committed))) (Some emptyResult), s) with
      | (Err x, (_, s1)) => (Err x, (s1, n, None))
      | (Ok status, (e, s1)) =>
          match revertReason e with
          | None => (Err UndefinedBehaviour, (s1, n, None))
          | Some reason =>
              let receipt := receiptOf skip status e reason in
              let res := default emptyResult (m_res e) in
              match p with
              | Reverted | CommittedWithoutState => (Ok (res, receipt), (snd (dropChanges s1), n, None))
              | Uncommitted => (Ok (res, receipt), (snd (resetStorageChanges s1), n, None))
              | Committed =>
                  match sender sha3 recover t, txHash t with
                  | Err x, _ => (Err (ofTxError x), (s1, n, None))
                  | _, Err x => (Err x, (s1, n, None))
                  | Ok from, Ok h =>
                      match checked (settleUsage from) s1 with
                      | (Err x, s2) => (Err x, (s2, n, None))
                      | (Ok _, s2) =>
                          let n2 := addReceiptToPartials receipt (setLastExecutedTransactionHash h n) in
                          match checked (State.commit (if EIP158ForkBlock (forks chainParams) <=? env_number env
                                                       then RemoveEmptyAccounts else KeepEmptyAccounts)) s2 with
                          | (Err x, s3) => (Err x, (s3, n2, None))
                          | (Ok _, s3) => (Ok (res, receipt), (s3, n2, Some (mkDisk (m_db s3) n2)))
                          end
                      end
                  end
              end
          end
      end
  end.
End StateExecute.
