(* ===== verification/BlockSync.v ===== *)
(** * BlockSync: importing the transactions of a block, and recovery after a crash

    [Block::execute], [Block::syncEveryone] and the reset of the current block of libethereum/Block.cpp, and
    [Client::importTransactionsAsBlock] of libethereum/Client.cpp with its detection of a block that was
    executed in part.  A crash can happen after any commit; what is left is the [Durable] part: the
    chain of imported blocks and what the last commit of the state wrote.

    The header of the block is the environment of its transactions ([EnvInfo]); sealing a block and
    inserting it into the chain is one step, as the chain's batch is.  Locks, the historic state, the
    snapshot agent and the signals between threads are not modelled. *)

From Stdlib Require Import ZArith Lia Bool.
From stdpp Require Import base list gmap.
From S2P Require Import Prelude CommonData Rlp RlpCodec LogFilter BloomIndex Receipt.
From S2P Require Import Instruction EVMSchedule Words ExtVMFace LegacyVM ChainParams Transaction State Executive StateExecute.
Open Scope Z_scope.

(** The overlay in memory and on disk; the state in memory is what the disk holds, between transactions. *)
Record Session := mkSession { se_disk : Disk; se_names : Names }.
Record Block := mkBlock {
  b_transactions : list Transaction; b_transactionSet : gset Z; b_receipts : list TransactionReceipt; b_sealed : bool }.
Record Durable := mkDurable { du_chain : list (list Transaction * list TransactionReceipt); du_disk : Disk }.
(** What consensus hands over, and the chain's settings. *)
Record BlockInput := mkInput {
  bi_transactions : list Transaction; bi_env : EnvInfo; bi_gasPrice : Z }.
Record BlockParams := mkBlockParams {
  bp_accountStartNonce : Z; bp_limit : Z; bp_skipInvalidTransactionsPatch : bool }.

Inductive SyncError := InvalidOperationOnSealedBlock | SyncAssertFailed | ProcessDied.

Definition gasUsed (b : Block) : Z := match last (b_receipts b) with Some r => r_gasUsed r | None => 0 end.
Definition emptyBlock : Block := mkBlock [] ∅ [] false.

Section BlockSync.
Context {SP : StateParams} {EP : ExecParams}.
Variables (bp : BlockParams) (inp : BlockInput).

Definition envAt (g : Z) : EnvInfo :=
  let e := bi_env inp in
  mkEnvInfo (env_number e) (env_author e) (env_timestamp e) (env_difficulty e) (env_gasLimit e) (env_chainID e) (env_parentHash e)
    (env_committedBlockTimestamp e) g.
(** The receipt of a transaction that was not executed. *)
Definition nullReceipt (g : Z) : TransactionReceipt :=
  newReceipt sha3 (if byzantiumForkBlock (forks chainParams) <=? env_number (bi_env inp) then StatusCode 0 else StateRoot EmptyTrie) g [].
Definition pushTx (t : Transaction) (h : Z) (r : TransactionReceipt) (b : Block) : Block :=
  mkBlock (b_transactions b ++ [t]) ({[h]} ∪ b_transactionSet b) (b_receipts b ++ [r]) (b_sealed b).

Inductive TxOutcome := Executed | WouldNotBeInBlock.
#[export] Instance TxOutcome_eq_dec : EqDecision TxOutcome.
Proof. solve_decision. Defined.
(** Exceptions of the transaction are caught; the end of the process is not. *)
Definition deadly (x : VMException) : bool := match x with ProcessExit _ | UndefinedBehaviour => true | _ => false end.

(** [Block::execute] with [Permanence::Committed]. *)
Definition blockExecute (t : Transaction) (h : Z) (b : Block) (se : Session) : result SyncError (TxOutcome * Block * Session) :=
  if b_sealed b then Err InvalidOperationOnSealedBlock
  else
    let bad (se' : Session) :=
      Ok (WouldNotBeInBlock, (if bp_skipInvalidTransactionsPatch bp then b else pushTx t h (nullReceipt (gasUsed b)) b), se') in
    if isInvalid t then bad se
    else match stateExecute (envAt (gasUsed b)) Committed t (loadState (bp_accountStartNonce bp) (bp_limit bp) (dk_db (se_disk se))) (se_names se) with
         | (Ok (_, r), (_, n', d)) => Ok (Executed, pushTx t h r b, mkSession (default (se_disk se) d) n')
         | (Err x, (_, n', _)) => if deadly x then Err ProcessDied else bad (mkSession (se_disk se) n')
         end.

Record SyncState := mkSync { sy_block : Block; sy_session : Session; sy_receipts : list TransactionReceipt; sy_bad : nat }.
(** [!tr.isInvalid() && !tr.hasExternalGas() && tr.gasPrice() < _gasPrice]. *)
Definition underpriced (t : Transaction) : result TxError bool :=
  if isInvalid t then Ok false
  else let? ext := hasExternalGas t in Ok (negb ext && (tx_gasPrice t <? bi_gasPrice inp)).
(** One turn of the loop of [syncEveryone]; [missing] is the list of hashes of [vecMissing].  The hash of a transaction that was read from
    its bytes can be computed. *)
Definition syncOne (saved : list TransactionReceipt) (missing : option (list Z)) (i : nat) (t : Transaction) (s : SyncState) : result SyncError SyncState :=
  match txHash t with
  | Err _ => Ok s
  | Ok h =>
      if (match missing with Some m => negb (bool_decide (h ∈ m)) | None => false end) then
        match saved !! i with
        | Some r => Ok (mkSync (pushTx t h r (sy_block s)) (sy_session s) (sy_receipts s ++ [r]) (sy_bad s))
        | None => Err SyncAssertFailed
        end
      else match underpriced t with
      | Err _ => Ok s
      | Ok true =>
          Ok (if bp_skipInvalidTransactionsPatch bp
              then mkSync (pushTx t h (nullReceipt 0) (sy_block s)) (sy_session s) (sy_receipts s ++ [nullReceipt 0]) (S (sy_bad s))
              else s)
      | Ok false =>
          let? o := blockExecute t h (sy_block s) (sy_session s) in
          let '(outcome, b', se') := o in
          Ok (if negb (bp_skipInvalidTransactionsPatch bp) || negb (bool_decide (outcome = WouldNotBeInBlock))
              then mkSync b' se' (sy_receipts s ++ option_list (last (b_receipts b')))
                     (if bool_decide (outcome = WouldNotBeInBlock) then S (sy_bad s) else sy_bad s)
              else mkSync b' se' (sy_receipts s) (sy_bad s))
      end
  end.
Fixpoint syncLoop (saved : list TransactionReceipt) (missing : option (list Z)) (i : nat) (ts : list Transaction) (s : SyncState) : result SyncError SyncState :=
  match ts with
  | [] => Ok s
  | t :: ts' => let? s' := syncOne saved missing i t s in syncLoop saved missing (S i) ts' s'
  end.
(** The start of [syncEveryone]: the current block is reset, the receipts of the part that was executed are taken. *)
Definition syncStart (missing : option (list Z)) (b : Block) (se : Session) : result SyncError (list TransactionReceipt * SyncState) :=
  if b_sealed b then Err InvalidOperationOnSealedBlock
  else
    let saved := nm_receipts (se_names se) in
    match missing with
    | Some m => if bool_decide (length saved = (length (bi_transactions inp) - length m)%nat) then Ok (saved, mkSync emptyBlock se [] 0)
                else Err SyncAssertFailed
    | None => Ok (saved, mkSync emptyBlock (mkSession (se_disk se) (clearPartialTransactionReceipts (se_names se))) [] 0)
    end.
(** [syncEveryone] on the first [k] transactions of the block: all of them when [k] is their number. *)
Definition syncUpTo (k : nat) (missing : option (list Z)) (b : Block) (se : Session) : result SyncError SyncState :=
  let? st := syncStart missing b se in
  syncLoop (fst st) missing 0 (take k (bi_transactions inp)) (snd st).
Definition syncEveryone (missing : option (list Z)) (b : Block) (se : Session) : result SyncError SyncState :=
  syncUpTo (length (bi_transactions inp)) missing b se.

(** ** The client *)

(** The hashes of a list of transactions; a hash that cannot be computed is left out. *)
Definition hashOf (t : Transaction) : option Z := match txHash t with Ok h => Some h | Err _ => None end.
Definition isKnownTransaction (d : Durable) (h : Z) : bool := existsb (fun blk => bool_decide (Some h ∈ map hashOf (fst blk))) (du_chain d).
(** [vecMissing]: the transactions after the last executed one, when that one is in the block and not in the chain. *)
Fixpoint afterHash (h : Z) (ts : list Transaction) : option (list Transaction) :=
  match ts with
  | [] => None
  | t :: ts' => if bool_decide (hashOf t = Some h) then Some ts' else afterHash h ts'
  end.
Definition vecMissing (d : Durable) : option (list Transaction) :=
  let shaLastTx := nm_lastHash (dk_names (du_disk d)) in
  match afterHash shaLastTx (bi_transactions inp) with
  | Some ts => if isKnownTransaction d shaLastTx then None else Some ts
  | None => None
  end.
Definition missingHashes (d : Durable) : option (list Z) := option_map (fun ts : list Transaction => omap hashOf ts) (vecMissing d).
(** The session after a start of the program. *)
Definition restart (d : Durable) : Session := mkSession (du_disk d) (dk_names (du_disk d)).
(** [importTransactionsAsBlock] after a start: what is durable afterwards, and the count it returns. *)
Definition importTransactionsAsBlock (d : Durable) : result SyncError (Durable * nat) :=
  let? s := syncEveryone (missingHashes d) emptyBlock (restart d) in
  let good := (length (sy_receipts s) - sy_bad s)%nat in
  let passed := match vecMissing d with Some ts => (length (bi_transactions inp) - length ts)%nat | None => 0%nat end in
  Ok (mkDurable (du_chain d ++ [(b_transactions (sy_block s), b_receipts (sy_block s))]) (se_disk (sy_session s)), (good + passed)%nat).
(** What is durable when the program stops after [k] transactions of the loop. *)
Definition crashAfter (k : nat) (d : Durable) : result SyncError Durable :=
  let? s := syncUpTo k (missingHashes d) emptyBlock (restart d) in
  Ok (mkDurable (du_chain d) (se_disk (sy_session s))).
End BlockSync.
