(* ===== verification/BlockSyncClaims.v ===== *)
(** * BlockSyncClaims: what executing and importing blocks promises *)

From Stdlib Require Import ZArith Lia Bool.
From stdpp Require Import base list gmap.
From S2P Require Import Prelude CommonData Rlp RlpCodec LogFilter BloomIndex Receipt.
From S2P Require Import Instruction EVMSchedule Words ExtVMFace LegacyVM LegacyVMLogic LegacyVMSafety ChainParams Transaction State StateInv StateRollback StateClaims Executive ExecutiveInv ExecutiveFrames ExecutiveGo ExecutiveTx ExecutiveClaims StateExecute BlockSync.
Open Scope Z_scope.

(** ** One transaction *)

Section Durability.
Context {SP : StateParams} {EP : ExecParams}.

(** What a transaction makes durable: nothing unless it is committed, and then the state together with its hash and receipt. *)
Lemma execute_durable env p t s n r s' n' d : stateExecute env p t s n = (r, (s', n', d)) ->
  match d with
  | None => p <> Committed \/ is_ok r = false
  | Some d => exists res rc h, p = Committed /\ r = Ok (res, rc) /\ txHash t = Ok h /\ n' = mkNames h (nm_receipts n ++ [rc]) /\ d = mkDisk (m_db s') n'
  end.
Proof.
  unfold stateExecute. destruct (skipOf p t) as [skip|]; [|intros [= <- <- <- <-]; by right].
  destruct (runTx env skip t _) as [[status|x] [e s1]]; [|intros [= <- <- <- <-]; by right].
  destruct (revertReason e) as [reason|]; [|intros [= <- <- <- <-]; by right].
  destruct p; try (intros [= <- <- <- <-]; by left).
  destruct (sender sha3 recover t) as [from|]; [|intros [= <- <- <- <-]; by right].
  destruct (txHash t) as [h|]; [|intros [= <- <- <- <-]; by right].
  destruct (checked (settleUsage from) s1) as [[u|x] s2]; [|intros [= <- <- <- <-]; by right].
  destruct (checked (commit _) s2) as [[v|x] s3]; intros [= <- <- <- <-]; [|by right].
  eexists _, _, h. done.
Qed.
End Durability.

Lemma pushed_transactions ts : forall hs (rs : list TransactionReceipt) b, length rs = length ts -> length ts = length hs ->
  b_transactions (foldl (fun b '(t, (h, r)) => pushTx t h r b) b (zip ts (zip hs rs))) = b_transactions b ++ ts.
Proof.
  induction ts as [|t ts IH]; intros [|h hs] [|r rs] b Hl Hf; try done; cbn; [by rewrite app_nil_r|].
  rewrite IH by (cbn in *; lia). cbn. by rewrite <- app_assoc.
Qed.
Lemma durable_eta d : mkDurable (du_chain d) (du_disk d) = d.
Proof. by destruct d. Qed.

(** ** A run in which every transaction is executed *)

Section Recovery.
Context {SP : StateParams} {EP : ExecParams}.
Variables (bp : BlockParams) (inp : BlockInput).

Definition cleanStep (t : Transaction) (p : Block * Session) : option (Block * Session) :=
  match txHash t, underpriced inp t with
  | Ok h, Ok false => match blockExecute bp inp t h (fst p) (snd p) with Ok (Executed, b', se') => Some (b', se') | _ => None end
  | _, _ => None
  end.
Fixpoint cleanRun (ts : list Transaction) (p : Block * Session) : option (Block * Session) :=
  match ts with [] => Some p | t :: ts' => match cleanStep t p with Some p' => cleanRun ts' p' | None => None end end.

Lemma cleanRun_app ts1 ts2 p : cleanRun (ts1 ++ ts2) p = match cleanRun ts1 p with Some p' => cleanRun ts2 p' | None => None end.
Proof. revert p. induction ts1 as [|t ts1 IH]; intros p; [done|]. cbn. by destruct (cleanStep t p). Qed.

(** Block and session of a clean run: the overlay's receipts are the block's. *)
Record linked (p : Block * Session) : Prop := {
  lk_receipts : nm_receipts (se_names (snd p)) = b_receipts (fst p);
  lk_open : b_sealed (fst p) = false }.
Lemma cleanStep_inv t p p' : cleanStep t p = Some p' ->
  exists h r, txHash t = Ok h /\ underpriced inp t = Ok false /\ b_sealed (fst p) = false /\
    blockExecute bp inp t h (fst p) (snd p) = Ok (Executed, fst p', snd p') /\ fst p' = pushTx t h r (fst p) /\
    se_names (snd p') = mkNames h (nm_receipts (se_names (snd p)) ++ [r]) /\ dk_names (se_disk (snd p')) = se_names (snd p').
Proof.
  unfold cleanStep. destruct (txHash t) as [h|] eqn:Eh; [|done]. destruct (underpriced inp t) as [[|]|] eqn:Eu; try done.
  destruct (blockExecute bp inp t h (fst p) (snd p)) as [[[[|] b'] se']|] eqn:Eb; try done. intros [= <-].
  revert Eb. unfold blockExecute. destruct (b_sealed (fst p)) eqn:Es; [done|]. destruct (isInvalid t); [done|].
  destruct (stateExecute _ _ _ _ _) as [[[res r]|x] [[s' n'] d]] eqn:Ex; [|destruct (deadly x); done].
  intros [= <- <-]. pose proof (execute_durable _ _ _ _ _ _ _ _ _ Ex) as Hd. destruct d as [d|]; [|destruct Hd; done].
  destruct Hd as (res' & rc & h' & _ & [= <- <-] & Eh' & -> & ->). rewrite Eh in Eh'. injection Eh' as <-. exists h, r. cbn. done.
Qed.
Lemma cleanRun_linked ts p p' : linked p -> cleanRun ts p = Some p' -> linked p'.
Proof.
  revert p. induction ts as [|t ts IH]; intros p Hl E; [by injection E as <-|]. cbn in E. destruct (cleanStep t p) as [p1|] eqn:E1; [|done].
  destruct (cleanStep_inv _ _ _ E1) as (h & r & _ & _ & Ho & _ & Hb & Hn & _). apply (IH p1); [|done]. destruct Hl as [Hr _].
  split; [rewrite Hn, Hb; cbn; by rewrite Hr|by rewrite Hb].
Qed.
(** What a clean run appends. *)
Lemma cleanRun_grows ts p p' : cleanRun ts p = Some p' -> exists hs rs,
  length rs = length ts /\ Forall2 (fun t h => txHash t = Ok h) ts hs /\ fst p' = foldl (fun b '(t, (h, r)) => pushTx t h r b) (fst p) (zip ts (zip hs rs)) /\
  b_receipts (fst p') = b_receipts (fst p) ++ rs /\
  (ts <> [] -> dk_names (se_disk (snd p')) = se_names (snd p') /\ Some (nm_lastHash (se_names (snd p'))) = last hs).
Proof.
  revert p. induction ts as [|t ts IH]; intros p E; cbn in E.
  { injection E as <-. exists [], []. rewrite app_nil_r. repeat split; [constructor|done..]. }
  destruct (cleanStep t p) as [p1|] eqn:E1; [|done]. destruct (cleanStep_inv _ _ _ E1) as (h & r & Hh & _ & _ & _ & Hb & Hn & Hd).
  destruct (IH p1 E) as (hs & rs & Hl & Hf & Hblk & Hr & Hlast). exists (h :: hs), (r :: rs).
  split; [cbn; lia|]. split; [by constructor|]. split; [cbn; by rewrite Hblk, Hb|]. split; [rewrite Hr, Hb; cbn; by rewrite <- app_assoc|].
  intros _. destruct ts as [|t2 ts].
  - injection E as <-. inversion Hf; subst. by rewrite Hn at 2.
  - destruct (Hlast ltac:(done)) as [? E']. split; [done|]. rewrite E'. inversion Hf; subst. done.
Qed.

(** The loop on transactions that are to be executed. *)
Lemma loop_clean saved missing i ts s p' : cleanRun ts (sy_block s, sy_session s) = Some p' ->
  (forall t h, t ∈ ts -> txHash t = Ok h -> match missing with Some m => h ∈ m | None => True end) ->
  exists rs, syncLoop bp inp saved missing i ts s = Ok (mkSync (fst p') (snd p') (sy_receipts s ++ rs) (sy_bad s)) /\
             b_receipts (fst p') = b_receipts (sy_block s) ++ rs.
Proof.
  revert i s. induction ts as [|t ts IH]; intros i s E Hm; cbn in E.
  { injection E as <-. exists []. cbn. rewrite !app_nil_r. by destruct s. }
  destruct (cleanStep t _) as [p1|] eqn:E1; [|done]. destruct (cleanStep_inv _ _ _ E1) as (h & r & Hh & Hu & _ & Hx & Hb & Hn & Hd). cbn in *.
  assert (Hsel : (match missing with Some m => negb (bool_decide (h ∈ m)) | None => false end) = false).
  { specialize (Hm t h ltac:(apply elem_of_cons; by left) Hh). destruct missing as [m|]; [|done]. by rewrite bool_decide_true. }
  assert (Hone : syncOne bp inp saved missing i t s = Ok (mkSync (fst p1) (snd p1) (sy_receipts s ++ [r]) (sy_bad s))).
  { unfold syncOne. rewrite Hh, Hsel, Hu. cbn [rbind]. rewrite Hx. cbn [rbind]. rewrite (bool_decide_false (Executed = WouldNotBeInBlock)) by done.
    cbn [negb]. rewrite orb_true_r. rewrite Hb. cbn [b_receipts pushTx]. by rewrite last_snoc. }
  rewrite Hone. cbn [rbind]. destruct (IH (S i) (mkSync (fst p1) (snd p1) (sy_receipts s ++ [r]) (sy_bad s))) as (rs & El & Hr).
  { cbn. by rewrite <- surjective_pairing. }
  { intros t' h' Ht. apply Hm. apply elem_of_cons. by right. }
  rewrite El. cbn [sy_receipts sy_bad sy_block] in *. exists (r :: rs). split; [by rewrite <- app_assoc|].
  rewrite Hr, Hb. cbn. by rewrite <- app_assoc.
Qed.
(** The loop on transactions that were executed before. *)
Lemma loop_saved saved m i ts hs rs s : length rs = length ts -> Forall2 (fun t h => txHash t = Ok h) ts hs -> (forall h, h ∈ hs -> h ∉ m) ->
  (forall j r, rs !! j = Some r -> saved !! (i + j)%nat = Some r) ->
  syncLoop bp inp saved (Some m) i ts s =
  Ok (mkSync (foldl (fun b '(t, (h, r)) => pushTx t h r b) (sy_block s) (zip ts (zip hs rs))) (sy_session s) (sy_receipts s ++ rs) (sy_bad s)).
Proof.
  intros Hl Hf. revert i rs s Hl. induction Hf as [|t h ts hs Hh Hf IH]; intros i rs s Hl Hm Hs.
  { destruct rs; [|done]. cbn. rewrite app_nil_r. by destruct s. }
  destruct rs as [|r rs]; [done|]. cbn [syncLoop]. unfold syncOne. rewrite Hh, bool_decide_false by (apply Hm, elem_of_cons; by left). cbn [negb].
  pose proof (Hs 0%nat r eq_refl) as H0. rewrite Nat.add_0_r in H0. rewrite H0. cbn [rbind]. rewrite (IH (S i) rs); [|by injection Hl| |].
  - cbn [zip zip_with foldl sy_block sy_session sy_receipts sy_bad]. by rewrite <- app_assoc.
  - intros h' Hin. apply Hm. apply elem_of_cons. by right.
  - intros j r' Hj. specialize (Hs (S j) r' Hj). rewrite <- Hs. f_equal. lia.
Qed.
Lemma elem_of_take_sub {A} (x : A) n l : x ∈ take n l -> x ∈ l.
Proof. intros H. rewrite <- (take_drop n l). apply elem_of_app. by left. Qed.
Lemma syncLoop_app saved m i ts1 ts2 s :
  syncLoop bp inp saved m i (ts1 ++ ts2) s = rbind (syncLoop bp inp saved m i ts1 s) (syncLoop bp inp saved m (i + length ts1) ts2).
Proof.
  revert i s. induction ts1 as [|t ts1 IH]; intros i s; cbn [app syncLoop length]; [by rewrite Nat.add_0_r|].
  destruct (syncOne bp inp saved m i t s) as [s'|]; [|done]. cbn [rbind]. rewrite IH. do 2 f_equal. lia.
Qed.

(** ** Crashes *)

Fixpoint crashes (ks : list nat) (d : Durable) : result SyncError Durable :=
  match ks with [] => Ok d | k :: ks' => let? d' := crashAfter bp inp k d in crashes ks' d' end.

Variable d0 : Durable.
Notation txs := (bi_transactions inp).
Definition startSession : Session := mkSession (du_disk d0) (clearPartialTransactionReceipts (dk_names (du_disk d0))).
(** The block is new: its transactions are distinct and not in the chain, and the last executed transaction is not among them or is in the chain. *)
Record fresh_block : Prop := {
  fb_distinct : NoDup (map hashOf txs);
  fb_unknown : forall t h, t ∈ txs -> txHash t = Ok h -> isKnownTransaction d0 h = false;
  fb_whole : vecMissing inp d0 = None }.
Context (Hfb : fresh_block) (pN : Block * Session) (Hclean : cleanRun txs (emptyBlock, startSession) = Some pN).

(** [d] is what is durable after [k] of the transactions. *)
Definition durableAt (k : nat) (d : Durable) : Prop :=
  (k <= length txs)%nat /\ exists p, cleanRun (take k txs) (emptyBlock, startSession) = Some p /\ d = mkDurable (du_chain d0) (se_disk (snd p)).
Lemma hashOf_Ok t h : txHash t = Ok h <-> hashOf t = Some h.
Proof. unfold hashOf. destruct (txHash t); split; congruence. Qed.
Lemma clean_prefix k : exists p, cleanRun (take k txs) (emptyBlock, startSession) = Some p /\ cleanRun (drop k txs) p = Some pN.
Proof.
  pose proof Hclean as H. rewrite <- (take_drop k txs), cleanRun_app in H. destruct (cleanRun (take k txs) _) as [p|]; [by exists p|done].
Qed.
Lemma omap_hashes ts hs : Forall2 (fun t h => txHash t = Ok h) ts hs -> omap hashOf ts = hs.
Proof. induction 1 as [|t h ts hs Hh _ IH]; [done|]. cbn. by rewrite (proj1 (hashOf_Ok t h) Hh), IH. Qed.
Lemma start_linked : linked (emptyBlock, startSession).
Proof. by split. Qed.
Lemma afterHash_at ts k t h : NoDup (map hashOf ts) -> ts !! k = Some t -> hashOf t = Some h -> afterHash h ts = Some (drop (S k) ts).
Proof.
  revert k. induction ts as [|t' ts IH]; intros k Hnd Hk Hh; [done|]. cbn [afterHash map] in *. apply NoDup_cons in Hnd as [Hni Hnd].
  destruct k as [|k]; [injection Hk as ->; by rewrite bool_decide_true|]. rewrite bool_decide_false; [by apply IH|].
  intros E. apply Hni. rewrite E, <- Hh. apply list_elem_of_fmap_2. by eapply list_elem_of_lookup_2.
Qed.
Lemma known_same d h : du_chain d = du_chain d0 -> isKnownTransaction d h = isKnownTransaction d0 h.
Proof. intros E. unfold isKnownTransaction. by rewrite E. Qed.

Lemma clean_prefix_hashes k p hs : cleanRun (take k txs) (emptyBlock, startSession) = Some p -> Forall2 (fun t h => txHash t = Ok h) (take k txs) hs ->
  forall h, h ∈ hs -> h ∉ omap hashOf (drop k txs).
Proof.
  intros _ Hf h Hh Hin. destruct Hfb as [Hnd _ _]. rewrite <- (take_drop k txs), map_app in Hnd. apply NoDup_app in Hnd as (_ & Hdis & _).
  apply (Hdis (Some h)).
  - apply list_elem_of_lookup in Hh as [i Hi]. destruct (Forall2_lookup_r _ _ _ _ _ Hf Hi) as (t & Ht & Eh). apply list_elem_of_fmap.
    exists t. split; [symmetry; by apply hashOf_Ok|by eapply list_elem_of_lookup_2].
  - apply list_elem_of_omap in Hin as (t & Ht & E). apply list_elem_of_fmap. by exists t.
Qed.
(** The detection of a block that was executed in part. *)
Lemma missing_at k d : (0 < k)%nat -> durableAt k d -> vecMissing inp d = Some (drop k txs).
Proof.
  intros Hk (Hkn & p & Ep & ->). destruct (cleanRun_grows _ _ _ Ep) as (hs & rs & _ & Hf & _ & _ & Hlast).
  destruct (lookup_lt_is_Some_2 txs (k - 1)) as [t Ht]; [lia|].
  assert (Htk : take k txs !! (k - 1)%nat = Some t) by (rewrite lookup_take_lt by lia; done).
  destruct (Forall2_lookup_l _ _ _ _ _ Hf Htk) as (h & Hh & Eh).
  destruct Hlast as [Hd El]. { intros E. rewrite E in Htk. done. }
  assert (Hl : last hs = Some h).
  { rewrite last_lookup. apply Forall2_length in Hf. rewrite length_take in Hf. replace (pred (length hs)) with (k - 1)%nat by lia. done. }
  rewrite Hl in El. injection El as El. unfold vecMissing. cbn [du_disk]. rewrite Hd, El.
  rewrite (afterHash_at txs (k - 1) t h); [|apply Hfb|done|by apply hashOf_Ok].
  rewrite known_same, (fb_unknown Hfb t h) by (done || by eapply list_elem_of_lookup_2). by replace (S (k - 1)) with k by lia.
Qed.
(** A run from there: the transactions before [k] are taken over, the others executed. *)
Lemma sync_at k d j : durableAt k d -> exists s, syncUpTo bp inp j (missingHashes inp d) emptyBlock (restart d) = Ok s /\
  ((j <= k)%nat -> se_disk (sy_session s) = du_disk d) /\
  ((k <= j)%nat -> cleanRun (take j txs) (emptyBlock, startSession) = Some (sy_block s, sy_session s) /\
                   sy_receipts s = b_receipts (sy_block s) /\ sy_bad s = 0%nat).
Proof.
  intros Hat. destruct (decide (k = 0)%nat) as [->|Hk].
  - destruct Hat as (_ & p & [= <-] & ->). cbn [snd se_disk startSession] in *.
    pose proof (durable_eta d0) as E0. cbn [se_disk]. rewrite E0.
    unfold missingHashes. rewrite (fb_whole Hfb). cbn [option_map]. unfold syncUpTo, syncStart, restart. cbn [b_sealed emptyBlock rbind fst snd se_disk se_names].
    destruct (clean_prefix j) as (p & Ep & _).
    destruct (loop_clean (nm_receipts (dk_names (du_disk d0))) None 0 (take j txs) (mkSync emptyBlock startSession [] 0) p Ep) as (rs & El & Hr); [done|].
    change (mkSession _ _) with startSession. rewrite El. eexists. split; [done|]. cbn [sy_session sy_block sy_receipts sy_bad]. split.
    + intros Hj. assert (j = 0%nat) as -> by lia. injection Ep as <-. done.
    + intros _. rewrite <- surjective_pairing. by rewrite Hr.
  - pose proof (missing_at k d ltac:(lia) Hat) as Hm. destruct Hat as (Hkn & p & Ep & ->).
    destruct (cleanRun_grows _ _ _ Ep) as (hs & rs & Hlr & Hf & Hblk & Hr & Hlast).
    destruct Hlast as [Hd _]. { intros E. apply (f_equal length) in E. rewrite length_take in E. cbn in E. lia. }
    pose proof (cleanRun_linked _ _ _ start_linked Ep) as [Hlink _]. cbn [fst] in *. cbn in Hr.
    unfold missingHashes. rewrite Hm. cbn [option_map]. unfold syncUpTo, syncStart, restart. cbn [b_sealed emptyBlock du_disk se_names se_disk].
    rewrite Hd, Hlink, Hr. destruct (clean_prefix k) as (p' & Ep' & En). rewrite Ep in Ep'. injection Ep' as <-.
    destruct (cleanRun_grows _ _ _ En) as (hs2 & rs2 & _ & Hf2 & _). pose proof (omap_hashes _ _ Hf2) as Hom.
    pose proof (Forall2_length _ _ _ Hf2) as Hl2. rewrite length_drop in Hl2. rewrite length_take in Hlr.
    rewrite bool_decide_true by (rewrite Hom, Hlr; lia). cbn [rbind fst snd].
    assert (Hnot : forall h, h ∈ hs -> h ∉ omap hashOf (drop k txs)) by (by eapply clean_prefix_hashes).
    assert (Hse : mkSession (se_disk (snd p)) (se_names (snd p)) = snd p) by (by destruct (snd p)). rewrite Hse.
    destruct (decide (j <= k)%nat) as [Hj|Hj].
    + (* only transactions that were executed before *)
      assert (Hjk : take j txs = take j (take k txs)) by (rewrite take_take; f_equal; lia). rewrite Hjk.
      rewrite (loop_saved rs _ 0 _ (take j hs) (take j rs)); [|rewrite !length_take; lia|by apply Forall2_take| |].
      * eexists. split; [done|]. cbn [sy_session sy_block sy_receipts sy_bad]. split; [done|]. intros Hge. assert (j = k) as -> by lia.
        rewrite !(take_ge rs), !(take_ge hs), !(take_ge (take k txs)) by (apply Forall2_length in Hf; rewrite ?length_take in *; lia).
        rewrite Ep. rewrite <- Hblk. rewrite <- surjective_pairing. rewrite Hr. done.
      * intros h Hh. apply Hnot. by eapply elem_of_take_sub.
      * intros i r Hi. cbn. apply lookup_take_Some in Hi as [Hi _]. done.
    + replace (take j txs) with (take k txs ++ take (j - k) (drop k txs)).
      2: { rewrite <- (take_drop k (take j txs)). f_equal; [rewrite take_take; f_equal; lia|]. rewrite skipn_firstn_comm. done. }
      rewrite syncLoop_app, (loop_saved rs _ 0 _ hs rs); [|rewrite length_take; lia|done|done|done]. cbn [rbind sy_block sy_session sy_receipts sy_bad app].
      rewrite <- Hblk. destruct (clean_prefix j) as (pj & Epj & _).
      assert (Es : cleanRun (take (j - k) (drop k txs)) p = Some pj).
      { rewrite <- Epj. replace (take j txs) with (take k txs ++ take (j - k) (drop k txs)); [by rewrite cleanRun_app, Ep|].
        rewrite <- (take_drop k (take j txs)). f_equal; [rewrite take_take; f_equal; lia|]. rewrite skipn_firstn_comm. done. }
      destruct (loop_clean rs (Some (omap hashOf (drop k txs))) (0 + length (take k txs)) (take (j - k) (drop k txs)) (mkSync (fst p) (snd p) rs 0) pj) as (rs' & El & Hr').
      { cbn. by rewrite <- surjective_pairing. }
      { intros t h Ht Hh. apply list_elem_of_omap. exists t. split; [by eapply elem_of_take_sub|by apply hashOf_Ok]. }
      rewrite El. eexists. split; [done|]. cbn [sy_session sy_block sy_receipts sy_bad] in *. split; [lia|]. intros _.
      rewrite <- surjective_pairing. split; [by rewrite cleanRun_app, Ep|]. by rewrite Hr', Hr.
Qed.
Lemma start_durable : durableAt 0 d0.
Proof. split; [lia|]. exists (emptyBlock, startSession). split; [done|]. symmetry. apply durable_eta. Qed.
(** A crash leaves what is durable after some of the transactions, never fewer than before. *)
Lemma crash_durable k d j : durableAt k d -> exists k' d', crashAfter bp inp j d = Ok d' /\ durableAt k' d' /\ (k <= k')%nat.
Proof.
  intros Hat. destruct (sync_at k d j Hat) as (s & Es & Hlow & Hhigh). unfold crashAfter. rewrite Es. cbn [rbind].
  assert (Hch : du_chain d = du_chain d0) by (by destruct Hat as (_ & p & _ & ->)). rewrite Hch.
  destruct (decide (j <= k)%nat) as [Hj|Hj].
  - exists k, d. split; [|done]. rewrite Hlow by done. rewrite <- Hch. by rewrite durable_eta.
  - destruct Hhigh as [Ec _]; [lia|]. destruct (decide (j <= length txs)%nat) as [Hjn|Hjn].
    + exists j. eexists. split; [done|]. split; [|lia]. split; [done|]. by exists (sy_block s, sy_session s).
    + exists (length txs). eexists. split; [done|]. destruct Hat as [Hk _]. split; [|done]. split; [done|]. exists (sy_block s, sy_session s).
      split; [|done]. rewrite take_ge in Ec by lia. by rewrite take_ge.
Qed.
Definition importedAll : Durable := mkDurable (du_chain d0 ++ [(b_transactions (fst pN), b_receipts (fst pN))]) (se_disk (snd pN)).
Lemma import_durable k d : durableAt k d ->
  exists n, importTransactionsAsBlock bp inp d = Ok (importedAll, n) /\ n = (length txs + if decide (k = 0)%nat then 0 else k)%nat.
Proof.
  intros Hat. destruct (sync_at k d (length txs) Hat) as (s & Es & _ & Hhigh). destruct Hhigh as (Ec & Hr & Hb); [apply Hat|].
  rewrite take_ge in Ec by lia. rewrite Hclean in Ec. injection Ec as EpN. unfold importTransactionsAsBlock, syncEveryone. rewrite Es. cbn [rbind].
  assert (Hch : du_chain d = du_chain d0) by (by destruct Hat as (_ & p & _ & ->)). unfold importedAll. rewrite Hch, EpN. cbn [fst snd].
  eexists. split; [done|]. rewrite Hr, Hb. destruct (cleanRun_grows _ _ _ Hclean) as (hs & rs & Hl & _ & _ & Hrs & _). rewrite EpN in Hrs. cbn in Hrs.
  rewrite Hrs, Hl. destruct (decide (k = 0)%nat) as [->|Hk].
  - destruct Hat as (_ & p & [= <-] & ->). cbn [snd startSession se_disk].
    rewrite durable_eta. rewrite (fb_whole Hfb). lia.
  - rewrite (missing_at k d) by (done || lia). rewrite length_drop. destruct Hat as [Hkn _]. lia.
Qed.
Lemma crashes_durable ks : forall k d, durableAt k d -> exists k' d', crashes ks d = Ok d' /\ durableAt k' d'.
Proof.
  induction ks as [|j ks IH]; intros k d Hat; [by exists k, d|]. cbn. destruct (crash_durable k d j Hat) as (k1 & d1 & E & H1 & _).
  rewrite E. cbn [rbind]. by apply (IH k1).
Qed.
End Recovery.

(** C4: Recovery after crashes.  A new block whose transactions all execute is imported whole, whatever happens on the way: after any
    number of crashes, each after any number of transactions of the run it interrupts, importing the block again ends with the
    chain extended by the same transactions and receipts, and with the same committed state, last hash and receipts, as an
    import without a crash.  The transactions that were committed are not executed again. *)
Theorem import_survives_crashes {SP : StateParams} {EP : ExecParams} (bp : BlockParams) (inp : BlockInput) (d : Durable) (b : Block) (se : Session)
  (ks : list nat) :
  fresh_block inp d -> cleanRun bp inp (bi_transactions inp) (emptyBlock, startSession d) = Some (b, se) ->
  exists d' n, crashes bp inp ks d = Ok d' /\ importTransactionsAsBlock bp inp d' = Ok (mkDurable (du_chain d ++ [(b_transactions b, b_receipts b)]) (se_disk se), n) /\
    b_transactions b = bi_transactions inp /\ length (b_receipts b) = length (bi_transactions inp) /\
    dk_names (se_disk se) = (if bool_decide (bi_transactions inp = []) then dk_names (du_disk d) else mkNames (nm_lastHash (se_names se)) (b_receipts b)).
Proof.
  intros Hfb Hc. destruct (crashes_durable bp inp d Hfb _ Hc ks 0 d (start_durable bp inp d)) as (k & d' & Ed & Hat).
  destruct (import_durable bp inp d Hfb _ Hc k d' Hat) as (n & En & _). exists d', n. split; [done|]. split; [exact En|].
  destruct (cleanRun_grows _ _ _ _ _ Hc) as (hs & rs & Hl & Hf & Hblk & Hr & Hlast). cbn [fst snd] in *.
  pose proof (cleanRun_linked _ _ _ _ _ (start_linked d) Hc) as [Hlink _]. cbn [fst snd] in *.
  split; [|split].
  - rewrite Hblk. apply Forall2_length in Hf. by rewrite pushed_transactions.
  - rewrite Hr. cbn. done.
  - case_bool_decide as He; [rewrite He in Hc; by injection Hc as <- <-|]. destruct (Hlast He) as [-> _]. rewrite <- Hlink. by destruct (se_names se).
Qed.

(** After a recovery the count is too high.  An import of a new block whose transactions all execute returns their number; when it
    was interrupted after [k] of them ([0 < k]), the import that completes it counts those [k] twice, so the caller
    sees a count that differs from the number of transactions. *)
Theorem recovered_import_counts_twice {SP : StateParams} {EP : ExecParams} (bp : BlockParams) (inp : BlockInput) (d : Durable) (p : Block * Session) (k : nat) :
  fresh_block inp d -> cleanRun bp inp (bi_transactions inp) (emptyBlock, startSession d) = Some p -> (0 < k <= length (bi_transactions inp))%nat ->
  (exists d', importTransactionsAsBlock bp inp d = Ok (d', length (bi_transactions inp))) /\
  (exists dk d', crashAfter bp inp k d = Ok dk /\ importTransactionsAsBlock bp inp dk = Ok (d', (length (bi_transactions inp) + k)%nat)).
Proof.
  intros Hfb Hc Hk. split.
  - destruct (import_durable bp inp d Hfb p Hc 0 d (start_durable bp inp d)) as (n & En & ->). cbn in En. rewrite Nat.add_0_r in En. eauto.
  - destruct (sync_at bp inp d Hfb p Hc 0 d k (start_durable bp inp d)) as (s & Es & _ & Hhigh). destruct Hhigh as (Ec & _); [lia|].
    assert (Hat : durableAt bp inp d k (mkDurable (du_chain d) (se_disk (sy_session s)))) by (split; [lia|]; by exists (sy_block s, sy_session s)).
    destruct (import_durable bp inp d Hfb p Hc k _ Hat) as (n & En & ->). rewrite decide_False in En by lia.
    eexists _, _. split; [|exact En]. unfold crashAfter. by rewrite Es.
Qed.

(** A skipped transaction makes the recovery fail.  Take a block of two transactions whose first one offers less than the
    block's gas price and whose second one executes.  Without a crash the block is imported; when the program stops after
    the second transaction was committed and before the block was imported, every later import of the block fails an
    assertion: one receipt was kept for two transactions that passed.  Without the assertion the code would read past the
    kept receipts. *)
Theorem skipped_transaction_blocks_recovery {SP : StateParams} {EP : ExecParams} (bp : BlockParams) (inp : BlockInput) (d : Durable) (t0 t1 : Transaction)
  (h0 : Z) (p : Block * Session) :
  bi_transactions inp = [t0; t1] -> fresh_block inp d -> txHash t0 = Ok h0 -> underpriced inp t0 = Ok true ->
  cleanStep bp inp t1 ((if bp_skipInvalidTransactionsPatch bp then pushTx t0 h0 (nullReceipt inp 0) emptyBlock else emptyBlock), startSession d) = Some p ->
  (exists d' n, importTransactionsAsBlock bp inp d = Ok (d', n)) /\
  (exists dk, crashAfter bp inp 2 d = Ok dk /\ importTransactionsAsBlock bp inp dk = Err SyncAssertFailed).
Proof.
  intros Htx Hfb Hh0 Hu Hc. destruct (cleanStep_inv _ _ _ _ _ Hc) as (h1 & r1 & Hh1 & Hu1 & _ & Hx & Hb & Hn & Hd).
  set (b0 := if bp_skipInvalidTransactionsPatch bp then _ else _) in *. cbn [fst snd] in *.
  assert (Hrun : exists s, syncUpTo bp inp 2 (missingHashes inp d) emptyBlock (restart d) = Ok s /\ sy_session s = snd p).
  { unfold missingHashes. rewrite (fb_whole _ _ Hfb). unfold syncUpTo, syncStart. cbn [option_map b_sealed emptyBlock rbind fst snd restart se_disk se_names].
    change (mkSession _ _) with (startSession d). rewrite Htx. cbn [take syncLoop]. unfold syncOne at 1. rewrite Hh0, Hu. cbn [rbind sy_block sy_session].
    unfold syncOne. rewrite Hh1, Hu1. cbn [rbind].
    unfold b0 in Hx. clear -Hx.
    destruct (bp_skipInvalidTransactionsPatch bp); cbn [sy_block sy_session sy_receipts sy_bad]; rewrite Hx; cbn; eexists; done. }
  destruct Hrun as (s & Es & Hs). split.
  - unfold importTransactionsAsBlock, syncEveryone. rewrite Htx. cbn [length]. rewrite Es. cbn [rbind]. eauto.
  - unfold crashAfter. rewrite Es. cbn [rbind]. eexists. split; [done|]. rewrite Hs.
    set (dk := mkDurable (du_chain d) (se_disk (snd p))). cbn [startSession se_names clearPartialTransactionReceipts nm_receipts app] in Hn.
    assert (Hm : vecMissing inp dk = Some []).
    { unfold vecMissing. cbn [du_disk dk]. rewrite Hd, Hn. cbn [nm_lastHash]. rewrite Htx. pose proof (fb_distinct _ _ Hfb) as Hnd. rewrite Htx in Hnd.
      rewrite (afterHash_at [t0; t1] 1 t1 h1) by (done || by apply hashOf_Ok). rewrite (known_same d dk) by done.
      rewrite (fb_unknown _ _ Hfb t1 h1); [done| |done]. rewrite Htx. apply elem_of_cons. right. by apply list_elem_of_singleton. }
    unfold importTransactionsAsBlock, syncEveryone, syncUpTo, missingHashes, syncStart. rewrite Hm. cbn [option_map omap list_omap b_sealed emptyBlock restart se_names du_disk dk].
    rewrite Hd, Hn, Htx. done.
Qed.

(** An underpriced transaction and the patch that should skip it.  With SkipInvalidTransactionsPatch enabled, a transaction that
    offers less than the block's gas price is put into the block with a receipt of zero cumulative gas, whatever gas the block
    has used, so that the gas of the block is counted from zero again; with the patch disabled the transaction is left out.
    In both cases nothing is executed or made durable. *)
Theorem patch_includes_underpriced {SP : StateParams} {EP : ExecParams} (bp : BlockParams) (inp : BlockInput) (saved : list TransactionReceipt) (i : nat)
  (t : Transaction) (h : Z) (s : SyncState) : txHash t = Ok h -> underpriced inp t = Ok true ->
  exists s', syncOne bp inp saved None i t s = Ok s' /\ sy_session s' = sy_session s /\
    (if bp_skipInvalidTransactionsPatch bp
     then b_transactions (sy_block s') = b_transactions (sy_block s) ++ [t] /\ gasUsed (sy_block s') = 0 /\ h ∈ b_transactionSet (sy_block s')
     else s' = s).
Proof.
  intros Hh Hu. unfold syncOne. rewrite Hh, Hu. eexists. split; [done|]. destruct (bp_skipInvalidTransactionsPatch bp); [|done].
  split; [done|]. split; [done|]. split; [|cbn; set_solver]. unfold gasUsed. cbn [sy_block pushTx b_receipts]. by rewrite last_snoc.
Qed.

(** ** The reason of a revert *)

(** The ABI encoding of [Error( string )] that announces [n] bytes and carries [s]. *)
Definition abiError (n : Z) (s : list Z) : list Z := [0x08; 0xc3; 0x79; 0xa0] ++ toBigEndian 32 32 ++ toBigEndian 32 n ++ s.
Lemma untilZero_all s : Forall (fun x => x <> 0) s -> untilZero s = s.
Proof. induction 1 as [|x s Hx _ IH]; [done|]. cbn. destruct (Z.eqb_spec x 0); [done|]. by rewrite IH. Qed.
Lemma last_four n : 0 <= n < 2 ^ 32 -> toBigEndian 32 n = replicate 28 0 ++ toBigEndian 4 n.
Proof.
  intros Hn. rewrite <- (toBigEndian_unbe (replicate 28 0 ++ toBigEndian 4 n)).
  - rewrite length_app, length_replicate, toBigEndian_length, unbe_app, unbe_toBigEndian by lia.
    change (unbe (replicate 28 0)) with 0. rewrite Z.mul_0_l, Z.add_0_l. f_equal. symmetry. apply Z.mod_small. done.
  - apply bytes_ok_app. split; [|apply toBigEndian_ok]. apply Forall_replicate. split; lia.
Qed.
(** The first 64 bytes of such data. *)
Definition abiHead : list Z := [0x08; 0xc3; 0x79; 0xa0] ++ replicate 28 0 ++ [0; 0; 0; 32] ++ replicate 28 0.
Lemma abiError_head n s : 0 <= n < 2 ^ 32 -> abiError n s = abiHead ++ toBigEndian 4 n ++ s.
Proof.
  intros Hn. unfold abiError, abiHead. rewrite (last_four n Hn), (last_four 32) by lia. change (toBigEndian 4 32) with [0; 0; 0; 32].
  by rewrite <- !app_assoc.
Qed.
Lemma error_message_of n s : 0 <= n < 2 ^ 31 -> s <> [] ->
  call_error_message_2_str (abiError n s) = if n <=? lenZ s then Some (untilZero (takeZ n s)) else None.
Proof.
  intros Hn Hs. rewrite abiError_head by lia. unfold call_error_message_2_str. set (b := abiHead ++ toBigEndian 4 n ++ s).
  assert (Hlen : lenZ b = 68 + lenZ s).
  { unfold b. rewrite !lenZ_app, toBigEndian_lenZ. change (lenZ abiHead) with 64. lia. }
  assert (0 < lenZ s) by (destruct s; [done|]; rewrite lenZ_cons; pose proof (lenZ_nonneg s); lia).
  destruct (Z.leb_spec (lenZ b) (4 + 32 + 32)); [lia|].
  change (nthZ b 0 =? 8) with true. change (nthZ b 1 =? 195) with true. change (nthZ b 2 =? 121) with true. change (nthZ b 3 =? 160) with true. cbn [negb orb].
  change (be32At b 32) with 32. change (i32 (4 + 32 + 32)) with 68.
  assert (Hbe : be32At b 64 = n).
  { unfold be32At, b. rewrite (dropZ_app 64) by reflexivity. rewrite takeZ_app by (symmetry; apply toBigEndian_lenZ). rewrite unbe_toBigEndian by lia. apply Z.mod_small. lia. }
  rewrite Hbe. assert (Hi : i32 n = n) by (unfold i32; rewrite wrap_small; lia). rewrite Hi, Hlen.
  destruct (Z.leb_spec 0 n); [|lia]. cbn [andb]. change (0 <=? 68) with true. cbn [andb].
  replace (68 + n <=? 68 + lenZ s) with (n <=? lenZ s) by (apply eq_true_iff_eq; rewrite !Z.leb_le; lia).
  change (dropZ 68 b) with s. done.
Qed.

(** The reason of a revert.  Data that encodes a string without zero bytes, as Solidity does, with any padding after it, gives that
    string as the reason; data that announces more bytes than it carries makes the code read past its end (and allocate an
    array of the announced size on the stack).  The data is what a contract passes to REVERT. *)
Theorem revert_reason_trusts_length (s pad : list Z) (n : Z) :
  s <> [] -> Forall (fun x => x <> 0) s -> lenZ s < 2 ^ 31 -> lenZ s + lenZ pad < n < 2 ^ 31 ->
  call_error_message_2_str (abiError (lenZ s) (s ++ pad)) = Some s /\ call_error_message_2_str (abiError n (s ++ pad)) = None.
Proof.
  intros Hs Hz Hl Hn. pose proof (lenZ_nonneg s). pose proof (lenZ_nonneg pad). assert (Hne : s ++ pad <> []) by (by destruct s).
  rewrite !error_message_of by (done || lia). rewrite lenZ_app. destruct (Z.leb_spec (lenZ s) (lenZ s + lenZ pad)); [|lia].
  destruct (Z.leb_spec n (lenZ s + lenZ pad)); [lia|]. split; [|done]. rewrite takeZ_app by done. by rewrite untilZero_all.
Qed.

(** ** A database, transactions and blocks *)
Module SyncExample.
Import ExecExample.
(** A contract that reverts with data that announces 2^31 - 1 bytes. *)
Definition craftedCode : list Z := [0x63; 0x08; 0xc3; 0x79; 0xa0; 0x60; 0xe0; 0x1b; 0x60; 0; 0x52; 0x60; 32; 0x60; 4; 0x52;
  0x63; 0x7f; 0xff; 0xff; 0xff; 0x60; 36; 0x52; 0x60; 69; 0x60; 0; 0xfd].
Definition crafted : Account := (newAccount 1 0) <| m_hasNewCode := true |> <| m_codeHash := sha3 craftedCode |> <| m_codeCache := craftedCode |>.
Definition database : DB := m_db (snd (State.commit KeepEmptyAccounts (put 6 crafted (put 5 user empty)))).
Definition toCrafted : Transaction := mkTransaction MessageCall Legacy 1 0 2 30000 [] [] [] 0 0 (Some 1) (Some (mkSignature 5 7 1)) (Some 5) 6 true None.
Definition cheap : Transaction := mkTransaction MessageCall Legacy 9 3 1 30000 [] [] [] 0 0 (Some 1) (Some (mkSignature 5 7 1)) (Some 5) 7 true None.
Definition disk : Disk := mkDisk database (mkNames 77 []).
Definition node : Durable := mkDurable [] disk.
Definition settings (patch : bool) : BlockParams := mkBlockParams 0 1000000 patch.
Definition block2 : BlockInput := mkInput [tx 1; tx 2; tx 3] env 2.
Definition blockSkip : BlockInput := mkInput [cheap; tx 1] env 2.
End SyncExample.
Import ExecExample SyncExample.
Lemma block2_fresh : fresh_block block2 node.
Proof. split; [apply (bool_decide_unpack _); vm_compute; exact I|done|vm_compute; reflexivity]. Qed.
Lemma blockSkip_fresh : fresh_block blockSkip node.
Proof. split; [apply (bool_decide_unpack _); vm_compute; exact I|done|vm_compute; reflexivity]. Qed.
Definition is_some {A} (o : option A) : bool := match o with Some _ => true | None => false end.

Lemma import_survives_crashes_witness :
  exists d' d'' n, crashes (settings true) block2 [2; 1; 3]%nat node = Ok d' /\ importTransactionsAsBlock (settings true) block2 d' = Ok (d'', n) /\
    map (fun blk => lenZ (snd blk)) (du_chain d'') = [3].
Proof.
  assert (Hc : is_some (cleanRun (settings true) block2 (bi_transactions block2) (emptyBlock, startSession node)) = true) by (vm_compute; reflexivity).
  destruct (cleanRun (settings true) block2 (bi_transactions block2) (emptyBlock, startSession node)) as [[b se]|] eqn:E; [|discriminate].
  destruct (import_survives_crashes (settings true) block2 node b se [2; 1; 3]%nat block2_fresh E) as (d' & n & H1 & H2 & _ & H3 & _).
  eexists d', _, n. split; [exact H1|]. split; [exact H2|]. cbn [du_chain app map snd node]. unfold lenZ. rewrite H3. reflexivity.
Defined.
Lemma recovered_import_counts_twice_witness :
  exists dk d', crashAfter (settings false) block2 2 node = Ok dk /\ importTransactionsAsBlock (settings false) block2 dk = Ok (d', 5%nat).
Proof.
  assert (Hc : is_some (cleanRun (settings false) block2 (bi_transactions block2) (emptyBlock, startSession node)) = true) by (vm_compute; reflexivity).
  destruct (cleanRun (settings false) block2 (bi_transactions block2) (emptyBlock, startSession node)) as [p|] eqn:E; [|discriminate].
  apply (recovered_import_counts_twice (settings false) block2 node p 2 block2_fresh E). split; [apply le_S, le_n|apply le_S, le_n].
Defined.
Lemma skipped_transaction_blocks_recovery_witness :
  exists dk, crashAfter (settings true) blockSkip 2 node = Ok dk /\ importTransactionsAsBlock (settings true) blockSkip dk = Err SyncAssertFailed.
Proof.
  assert (Hh : is_ok (txHash cheap) = true) by (vm_compute; reflexivity). destruct (txHash cheap) as [h0|] eqn:Eh; [|discriminate].
  assert (Hc : is_some (cleanStep (settings true) blockSkip (ExecExample.tx 1) (pushTx cheap (match txHash cheap with Ok h => h | Err _ => 0 end) (nullReceipt blockSkip 0) emptyBlock, startSession node)) = true)
    by (vm_compute; reflexivity).
  rewrite Eh in Hc. destruct (cleanStep _ _ _ _) as [p|] eqn:E; [|discriminate].
  apply (skipped_transaction_blocks_recovery (settings true) blockSkip node cheap (ExecExample.tx 1) h0 p eq_refl blockSkip_fresh Eh);
    [vm_compute; reflexivity|exact E].
Defined.
Lemma patch_includes_underpriced_witness :
  exists s', syncOne (settings true) blockSkip [] None 0 cheap (mkSync emptyBlock (restart node) [] 0) = Ok s' /\ b_transactions (sy_block s') = [cheap].
Proof.
  assert (Hh : is_ok (txHash cheap) = true) by (vm_compute; reflexivity). destruct (txHash cheap) as [h0|] eqn:Eh; [|discriminate].
  destruct (patch_includes_underpriced (settings true) blockSkip [] 0 cheap h0 (mkSync emptyBlock (restart node) [] 0) Eh) as (s' & H1 & _ & H2 & _);
    [vm_compute; reflexivity|]. exists s'. split; [exact H1|exact H2].
Defined.
(** The crafted contract: the transaction that calls it is undefined behaviour of the program. *)
Lemma revert_reason_trusts_length_witness :
  call_error_message_2_str (abiError (2 ^ 31 - 1) ([1] ++ [])) = None /\
  fst (stateExecute ExecExample.env Committed toCrafted (loadState 0 1000000 database) (mkNames 0 [])) = Err UndefinedBehaviour.
Proof.
  split; [|vm_compute; reflexivity].
  apply (revert_reason_trusts_length [1] [] (2 ^ 31 - 1)); [discriminate|constructor; [discriminate|constructor]|reflexivity|split; reflexivity].
Defined.
