(* ===== verification/PartialReceipts.v ===== *)
(** * PartialReceipts: the receipts of a block in progress, as bytes in the overlay

    [OverlayDB::addReceiptToPartials] and [clearPartialTransactionReceipts] of libskale/OverlayDB.cpp,
    [State::safePartialTransactionReceipts] of libskale/State.cpp: the list is stored as RLP and read back
    for every receipt.  It joins the overlay (OverlayDb.v) with the codecs (Receipt.v) and justifies
    the list of receipts that StateExecute.v keeps instead of bytes. *)

From Stdlib Require Import ZArith Lia Bool.
From stdpp Require Import base list gmap.
From S2P Require Import Prelude CommonData Rlp RlpCodec ExtVMFace LogFilter BloomIndex Receipt LevelDb BatchedDb OverlayDb OverlayDbInv OverlayDbClaims.
Open Scope Z_scope.

Section Partials.
Context {B : Type} `{db_face B}.
Implicit Types o : OverlayDB B.

(** [BlockReceipts( RLP( raw ) )]; nothing when there are no bytes. *)
Definition decodePartials (raw : list Z) : result CodecError (list TransactionReceipt) :=
  match raw with
  | [] => Ok []
  | _ => let? d := liftR (RLP_ctor raw VeryStrict) in readReceipts true d
  end.
Definition safePartialTransactionReceipts o : result CodecError (list TransactionReceipt) * OverlayDB B :=
  let '(raw, o1) := getPartialTransactionReceipts o in (decodePartials raw, o1).
Definition addReceipt (r : TransactionReceipt) o : result CodecError (OverlayDB B) :=
  let '(raw, o1) := getPartialTransactionReceipts o in
  let? rs := decodePartials raw in
  let? bytes := liftR (rlpOf (writeReceipts true (rs ++ [r]))) in
  Ok (setPartialTransactionReceipts bytes o1).
Definition clearReceipts o : result CodecError (OverlayDB B) :=
  let? bytes := liftR (rlpOf (writeReceipts true [])) in Ok (setPartialTransactionReceipts bytes o).
Fixpoint addReceipts (rs : list TransactionReceipt) o : result CodecError (OverlayDB B) :=
  match rs with [] => Ok o | r :: rs' => let? o1 := addReceipt r o in addReceipts rs' o1 end.

(** The overlay holds exactly these receipts. *)
Definition holds o (rs : list TransactionReceipt) : Prop := ov_lastReceipts o = Some (enc (Lst (map receiptItem rs))).
Lemma decode_enc rs : Forall receipt_valid rs -> item_ok (Lst (map receiptItem rs)) -> decodePartials (enc (Lst (map receiptItem rs))) = Ok rs.
Proof.
  intros Hv Hok. pose proof (enc_nonempty _ Hok) as Hne. unfold decodePartials. destruct (enc _) as [|x l] eqn:E; [done|].
  rewrite <- E, RLP_ctor_enc by done. cbn [liftR rbind]. by apply readReceipts_enc.
Qed.
Lemma add_holds o rs r : holds o rs -> Forall receipt_valid (rs ++ [r]) -> item_ok (Lst (map receiptItem (rs ++ [r]))) ->
  exists o', addReceipt r o = Ok o' /\ holds o' (rs ++ [r]).
Proof.
  intros Ho Hv Hok. unfold addReceipt, getPartialTransactionReceipts. rewrite Ho. rewrite decode_enc.
  - cbn [rbind]. rewrite writeReceipts_enc by done. cbn [liftR rbind]. eexists. split; [done|]. done.
  - by apply Forall_app in Hv as [? _].
  - rewrite map_app in Hok. by eapply app_ok.
Qed.
Lemma adds_hold rs2 : forall o rs, holds o rs -> Forall receipt_valid (rs ++ rs2) -> item_ok (Lst (map receiptItem (rs ++ rs2))) ->
  exists o', addReceipts rs2 o = Ok o' /\ holds o' (rs ++ rs2).
Proof.
  induction rs2 as [|r rs2 IH]; intros o rs Ho Hv Hok; [exists o; by rewrite app_nil_r|].
  assert (E : rs ++ r :: rs2 = (rs ++ [r]) ++ rs2) by (by rewrite <- app_assoc). rewrite E in *.
  destruct (add_holds o rs r Ho) as (o1 & E1 & H1).
  - by apply Forall_app in Hv as [? _].
  - rewrite map_app in Hok. by eapply app_ok.
  - cbn [addReceipts]. rewrite E1. cbn [rbind]. by apply IH.
Qed.
End Partials.

(** The receipts of a block in progress survive as bytes: clearing the list and adding valid receipts one by one succeeds, and
    reading the list, also from an overlay opened later on a database that stores the bytes under their name, gives
    exactly those receipts, in order. *)
Theorem partial_receipts_accumulate {B : Type} `{db_face B} (o later : OverlayDB B) (rs : list TransactionReceipt) :
  Forall receipt_valid rs -> item_ok (Lst (map receiptItem rs)) ->
  exists o1 o2, clearReceipts o = Ok o1 /\ addReceipts rs o1 = Ok o2 /\ fst (safePartialTransactionReceipts o2) = Ok rs /\
    (lastReceipts_of later = lastReceipts_of o2 -> fst (safePartialTransactionReceipts later) = Ok rs).
Proof.
  intros Hv Hok. unfold clearReceipts. rewrite (writeReceipts_enc []) by (by constructor || done). cbn [liftR rbind].
  destruct (adds_hold rs (setPartialTransactionReceipts (enc (Lst (map receiptItem []))) o) []) as (o2 & E2 & H2); [done..|].
  eexists _, o2. split; [done|]. split; [exact E2|]. cbn [app] in H2.
  assert (Hl : lastReceipts_of o2 = enc (Lst (map receiptItem rs))) by (unfold lastReceipts_of, getPartialTransactionReceipts; by rewrite H2).
  assert (Hd : forall o', lastReceipts_of o' = lastReceipts_of o2 -> fst (safePartialTransactionReceipts o') = Ok rs).
  { intros o' E. unfold safePartialTransactionReceipts. unfold lastReceipts_of at 1 in E. destruct (getPartialTransactionReceipts o') as [raw o'']. cbn in *.
    rewrite E, Hl. by apply decode_enc. }
  split; [by apply Hd|apply Hd].
Qed.

Import MapLevelDB OverlayExample.
Lemma partial_receipts_accumulate_witness : exists o1 o2, clearReceipts OverlayExample.o0 = Ok o1 /\
  addReceipts [ReceiptExample.receipt; ReceiptExample.old] o1 = Ok o2 /\
  fst (safePartialTransactionReceipts o2) = Ok [ReceiptExample.receipt; ReceiptExample.old].
Proof.
  destruct (partial_receipts_accumulate OverlayExample.o0 OverlayExample.o0 [ReceiptExample.receipt; ReceiptExample.old]
    ReceiptExample.receipts_valid ReceiptExample.receipts_fit) as (o1 & o2 & H1 & H2 & H3 & _).
  exists o1, o2. split; [exact H1|split; [exact H2|exact H3]].
Defined.
