(* ===== verification/BlockChain.v ===== *)
(** * BlockChain: blocks, their extras and the caches over the database

    The storage of libethereum/BlockChain.h and BlockChain.cpp: reading blocks and extras through caches
    ([block], [queryExtras]), inserting a block with everything that is stored beside it
    ([insertBlockAndExtras]), rotating the database, opening it and collecting the caches.  Keys of the block table start with the byte 0, keys of the extras with 1: the numbers
    that [db_splitter] gives the two interfaces.

    The database is any [ChainStore].  Parameters: the hash function, whether the magic address of
    TotalStorageUsedPatch is unused, and the clock.  A failed commit ends the process and is not modelled; nor are
    locks, the performance logger and the callback of an import. *)

From Stdlib Require Import ZArith Lia Bool.
From stdpp Require Import base list gmap sorting.
From Stdlib Require String Ascii DecimalString.
From S2P Require Import Prelude CommonData Rlp RlpCodec ExtVMFace LogFilter BloomIndex Receipt LevelDb BatchedDb OverlayDb RotatingDb ChainStore.
Open Scope Z_scope.

(** ** Keys *)

Definition ExtraDetails : Z := 0.
Definition ExtraBlockHash : Z := 1.
Definition ExtraTransactionAddress : Z := 2.
Definition ExtraLogBlooms : Z := 3.
Definition ExtraReceipts : Z := 4.
Definition ExtraBlocksBlooms : Z := 5.
(** [( unsigned ) -1], the kind of a block. *)
Definition extraBlock : Z := 2 ^ 32 - 1.

Definition toSlice (h sub : Z) : Slice := toBigEndian 32 h ++ [wrap 8 sub].
Definition blocksKey (h : Z) : Slice := 0 :: toSlice h 0.
Definition extrasKey (extra h : Z) : Slice := 1 :: toSlice h extra.
(** "best" in the extras. *)
Definition bestKey : Slice := 1 :: [98; 101; 115; 116].
(** "pieceUsageBytes" and "\x0totalStorageUsed". *)
Definition pieceUsageKey : Slice := [112; 105; 101; 99; 101; 85; 115; 97; 103; 101; 66; 121; 116; 101; 115].
Definition totalStorageUsedKey : Slice := 0 :: [116; 111; 116; 97; 108; 83; 116; 111; 114; 97; 103; 101; 85; 115; 101; 100].

(** [std::stoull] of a text of digits. *)
Definition stoull (l : Slice) : option Z :=
  match DecimalString.NilZero.int_of_string (String.string_of_list_ascii (map (fun z => Ascii.ascii_of_nat (Z.to_nat z)) l)) with
  | Some d => Some (Z.of_int d)
  | None => None
  end.

(** ** The object *)

Record Chain (B : Type) := mkChain {
  bc_db : B;
  bc_blocks : gmap Z (list Z);
  bc_details : gmap Z BlockDetails;
  bc_logBlooms : gmap Z (list LogBloom);
  bc_receipts : gmap Z (list TransactionReceipt);
  bc_transactionAddresses : gmap Z TransactionAddress;
  bc_blockHashes : gmap Z Z;
  bc_blocksBlooms : gmap Z BlocksBlooms;
  bc_cacheUsage : list (gset (Z * Z));
  bc_inUse : gset (Z * Z);
  bc_lastBlockHash : Z;
  bc_lastBlockNumber : Z;
  bc_clockLastDbRotation : Z }.
Arguments mkChain {B}.
Arguments bc_db {B}.
Arguments bc_blocks {B}.
Arguments bc_details {B}.
Arguments bc_logBlooms {B}.
Arguments bc_receipts {B}.
Arguments bc_transactionAddresses {B}.
Arguments bc_blockHashes {B}.
Arguments bc_blocksBlooms {B}.
Arguments bc_cacheUsage {B}.
Arguments bc_inUse {B}.
Arguments bc_lastBlockHash {B}.
Arguments bc_lastBlockNumber {B}.
Arguments bc_clockLastDbRotation {B}.
#[export] Instance Chain_expand {B} : Expandable (Chain B) := fun c =>
  mkChain (bc_db c) (bc_blocks c) (bc_details c) (bc_logBlooms c) (bc_receipts c) (bc_transactionAddresses c) (bc_blockHashes c)
    (bc_blocksBlooms c) (bc_cacheUsage c) (bc_inUse c) (bc_lastBlockHash c) (bc_lastBlockNumber c) (bc_clockLastDbRotation c).

Record ChainConfig := mkConfig {
  cc_genesisHash : Z; cc_genesisBlock : list Z; cc_genesisDifficulty : Z; cc_dbStorageLimit : Z; cc_clockDbRotationPeriod : Z }.
(** [VerifiedBlockRef]: what is used of the header, and the bytes. *)
Record VerifiedBlock := mkVerified {
  vb_hash : Z; vb_parentHash : Z; vb_number : Z; vb_author : Z; vb_logBloom : LogBloom; vb_block : list Z }.

(** Exceptions, failed assertions, and calls that end in undefined behaviour. *)
Inductive ChainError := CodecFailed (e : CodecError) | InvalidArgument | ChainAssert | BadIndex.

Section Chain.
Context {B : Type} `{ChainStore B}.
Variables (sha3 : list Z -> Z) (cfg : ChainConfig).
Implicit Types c : Chain B.

Definition CM (A : Type) : Type := Chain B -> result ChainError A * Chain B.
Definition cret {A} (a : A) : CM A := fun c => (Ok a, c).
Definition cbind {A C} (m : CM A) (k : A -> CM C) : CM C :=
  fun c => match m c with (Ok a, c') => k a c' | (Err e, c') => (Err e, c') end.
Definition cget {A} (f : Chain B -> A) : CM A := fun c => (Ok (f c), c).
Definition cmodify (f : Chain B -> Chain B) : CM unit := fun c => (Ok tt, f c).
Definition clift {A} (r : result CodecError A) : CM A := fun c => (match r with Ok a => Ok a | Err e => Err (CodecFailed e) end, c).
Definition cfail {A} (e : ChainError) : CM A := fun c => (Err e, c).
End Chain.

Declare Scope chain_scope.
Notation "'let@' x := m 'in' k" := (cbind m (fun x => k)) (at level 200, x name, m at level 100, k at level 200) : chain_scope.
Notation "m ;;; k" := (cbind m (fun _ => k)) (at level 199, k at level 200, right associativity) : chain_scope.
Open Scope chain_scope.

Section Operations.
Context {B : Type} `{ChainStore B}.
Variables (sha3 : list Z -> Z) (cfg : ChainConfig).
Implicit Types c : Chain B.
Abbreviation CM := (CM (B := B)).

(** ** Reading *)

Definition noteUsed (h extra : Z) : CM unit :=
  cmodify (fun c =>
    let usage := alter (fun s => {[(h, extra)]} ∪ s) 0%nat (bc_cacheUsage c) in
    if decide ((h, extra) ∈ nth 1 usage ∅)
    then c <| bc_cacheUsage := alter (fun s => s ∖ {[(h, extra)]}) 1%nat usage |>
    else c <| bc_cacheUsage := usage |> <| bc_inUse := {[(h, extra)]} ∪ bc_inUse c |>).

(** One kind of extras: its number, its cache, the value for what is missing, and its reader. *)
Record Table (T : Type) := mkTable {
  tb_extra : Z; tb_cache : Chain B -> gmap Z T; tb_put : gmap Z T -> Chain B -> Chain B; tb_null : T; tb_read : list Z -> result CodecError T }.
Arguments tb_extra {T}.
Arguments tb_cache {T}.
Arguments tb_put {T}.
Arguments tb_null {T}.
Arguments tb_read {T}.
(** [T( RLP( s ) )]. *)
Definition fromRLP {T} (t : Table T) (s : Slice) : result CodecError T := let? d := liftR (RLP_ctor s VeryStrict) in tb_read t d.
(** A number is no hash: [noteUsed] does nothing for it. *)
Definition queryExtras {T} (t : Table T) (h : Z) : CM T :=
  let@ cached := cget (fun c => tb_cache t c !! h) in
  match cached with
  | Some x => cret x
  | None =>
      let@ s := cget (fun c => face_lookup (bc_db c) (extrasKey (tb_extra t) h)) in
      match s with
      | [] => cret (tb_null t)
      | _ =>
          (if tb_extra t =? ExtraBlockHash then cret tt else noteUsed h (tb_extra t)) ;;;
          let@ x := clift (fromRLP t s) in
          cmodify (fun c => tb_put t (<[h := x]> (tb_cache t c)) c) ;;;
          cret x
      end
  end.

Definition detailsTable : Table BlockDetails :=
  mkTable _ ExtraDetails bc_details (fun m c => c <| bc_details := m |>) NullBlockDetails readDetails.
Definition logBloomsTable : Table (list LogBloom) :=
  mkTable _ ExtraLogBlooms bc_logBlooms (fun m c => c <| bc_logBlooms := m |>) [] readLogBlooms.
Definition receiptsTable : Table (list TransactionReceipt) :=
  mkTable _ ExtraReceipts bc_receipts (fun m c => c <| bc_receipts := m |>) [] (readReceipts true).
Definition addressTable : Table TransactionAddress :=
  mkTable _ ExtraTransactionAddress bc_transactionAddresses (fun m c => c <| bc_transactionAddresses := m |>) (mkAddress 0 0) readTxAddress.
Definition blockHashTable : Table Z :=
  mkTable _ ExtraBlockHash bc_blockHashes (fun m c => c <| bc_blockHashes := m |>) 0 readBlockHash.
Definition blocksBloomsTable : Table BlocksBlooms :=
  mkTable _ ExtraBlocksBlooms bc_blocksBlooms (fun m c => c <| bc_blocksBlooms := m |>) NullBlocksBlooms readBlocksBlooms.

Definition details (h : Z) : CM BlockDetails := queryExtras detailsTable h.
Definition logBlooms (h : Z) : CM (list LogBloom) := queryExtras logBloomsTable h.
Definition receipts (h : Z) : CM (list TransactionReceipt) := queryExtras receiptsTable h.
Definition transactionReceipt (h i : Z) : CM TransactionReceipt :=
  let@ rs := receipts h in match rs !! Z.to_nat i with Some r => cret r | None => cfail BadIndex end.
Definition numberHash (i : Z) : CM Z := if i =? 0 then cret (cc_genesisHash cfg) else queryExtras blockHashTable i.
Definition chunk (id : Z) : CM BlocksBlooms := queryExtras blocksBloomsTable id.
Definition blockNumber (h : Z) : CM Z := let@ d := details h in cret (bd_number d).
Definition block (h : Z) : CM (list Z) :=
  if h =? cc_genesisHash cfg then cret (cc_genesisBlock cfg)
  else
    let@ cached := cget (fun c => bc_blocks c !! h) in
    match cached with
    | Some b => cret b
    | None =>
        let@ d := cget (fun c => face_lookup (bc_db c) (blocksKey h)) in
        match d with
        | [] => cret []
        | _ => noteUsed h extraBlock ;;; cmodify (fun c => c <| bc_blocks := <[h := d]> (bc_blocks c) |>) ;;; cret d
        end
    end.
Definition isKnown (h : Z) (isCurrent : bool) : CM bool :=
  if h =? cc_genesisHash cfg then cret true
  else
    let@ c := cget id in
    if negb (bool_decide (is_Some (bc_blocks c !! h))) && negb (face_exists (bc_db c) (blocksKey h)) then cret false
    else if negb (bool_decide (is_Some (bc_details c !! h))) && negb (face_exists (bc_db c) (extrasKey ExtraDetails h)) then cret false
    else if isCurrent then let@ d := details h in cret (bd_number d <=? bc_lastBlockNumber c) else cret true.

(** [transactionLocation]; [potential] is SkipInvalidTransactionsPatch::hasPotentialInvalidTransactionsInBlock. *)
Definition transactionLocation (potential : Z -> bool) (h : Z) : CM (Z * Z) :=
  let@ cached := cget (fun c => bool_decide (is_Some (bc_transactionAddresses c !! h))) in
  let@ ta := queryExtras addressTable h in
  if ta_blockHash ta =? 0 then cret (0, 0)
  else
    let@ n := blockNumber (ta_blockHash ta) in
    if negb (potential n) then cret (ta_blockHash ta, ta_index ta)
    else
      let@ r := transactionReceipt (ta_blockHash ta) (ta_index ta) in
      let@ prev := (if ta_index ta =? 0 then cret 0
                    else let@ p := transactionReceipt (ta_blockHash ta) (ta_index ta - 1) in cret (r_gasUsed p)) in
      if (u256 (r_gasUsed r - prev) =? 0) && cached then
        cmodify (fun c => c <| bc_transactionAddresses := delete h (bc_transactionAddresses c) |>) ;;;
        let@ ta' := queryExtras addressTable h in cret (ta_blockHash ta', ta_index ta')
      else cret (ta_blockHash ta, ta_index ta).

(** ** Inserting a block *)

(** [DbWriteProxy::insert]: the size that is counted. *)
Definition proxyInsert (prefix : Z) (key value : Slice) : CM Z :=
  cmodify (fun c => c <| bc_db := face_insert (bc_db c) (prefix :: key) value |>) ;;;
  cret (lenZ key + lenZ value + 1).
(** [bytesRefFromTransactionRlp]. *)
Definition bytesRefFromTransactionRlp (d : list Z) : result CodecError (list Z) := if isList d then Ok d else liftR (payload d).
(** The blooms of the receipts, from their bytes. *)
Definition bloomsOf (rs : list Z) : result CodecError (list LogBloom) :=
  let? d := liftR (RLP_ctor rs VeryStrict) in
  let? ms := members d in
  let? l := mapR (readReceipt true) ms in Ok (map r_bloom l).
(** The hashes of the transactions of a block. *)
Definition txHashesOf (b : list Z) : result CodecError (list Z) :=
  let? d := liftR (RLP_ctor b VeryStrict) in
  let? txns := runOn (at_ 1) d in
  let? ms := members txns in
  let? bs := mapR bytesRefFromTransactionRlp ms in Ok (map sha3 bs).
Fixpoint insertAddresses (blockHash index : Z) (hs : list Z) : CM Z :=
  match hs with
  | [] => cret 0
  | h :: hs' =>
      let@ r := clift (liftR (rlpOf (writeTxAddress (mkAddress blockHash index)))) in
      let@ n := proxyInsert 1 (toSlice h ExtraTransactionAddress) r in
      let@ n' := insertAddresses blockHash (u32 (index + 1)) hs' in
      cret (n + n')
  end.
(** The chunks that a block alters: one on each level. *)
Fixpoint alteredBlooms (levels level : nat) (index : Z) : list Z :=
  match levels with
  | O => []
  | S n => chunkId level (index / c_bloomIndexSize) :: alteredBlooms n (S level) (index / c_bloomIndexSize)
  end.
Fixpoint cforeach {A} (l : list A) (f : A -> CM unit) : CM unit := match l with [] => cret tt | x :: l' => f x ;;; cforeach l' f end.
Fixpoint insertChunks (ids : list Z) : CM Z :=
  match ids with
  | [] => cret 0
  | id :: ids' =>
      let@ bb := cget (fun c => blocksBlooms (bc_blocksBlooms c) id) in
      let@ r := clift (liftR (rlpOf (writeBlocksBlooms bb))) in
      let@ n := proxyInsert 1 (toSlice id ExtraBlocksBlooms) r in
      let@ n' := insertChunks ids' in
      cret (n + n')
  end.
(** The two chunks are counted as their share of the blocks that write them. *)
Definition adjustSize (n : Z) : Z := wrap 64 (wrap 64 (n - (4147 + 34) * 2) + ((4147 + 34) / 16 + (4147 + 34) / 256 + 2)).
Definition setChild (h : Z) (d : BlockDetails) : BlockDetails :=
  mkDetails (bd_number d) (bd_totalDifficulty d) (bd_parent d) [h] (bd_blockSizeBytes d).

Definition prepareDbDataAndReturnSize (blk : VerifiedBlock) (rs : list Z) (totalDifficulty : Z) (full : option LogBloom) : CM Z :=
  let h := vb_hash blk in
  let parent := vb_parentHash blk in
  let@ n1 := proxyInsert 0 (toSlice h 0) (vb_block blk) in
  let@ _ := details parent in
  cmodify (fun c => c <| bc_details := <[parent := setChild h (default NullBlockDetails (bc_details c !! parent))]> (bc_details c) |>) ;;;
  let@ pd := cget (fun c => default NullBlockDetails (bc_details c !! parent)) in
  let@ r2 := clift (liftR (rlpOf (writeDetails pd))) in
  let@ n2 := proxyInsert 1 (toSlice parent ExtraDetails) r2 in
  let@ r3 := clift (liftR (rlpOf (writeDetails (mkDetails (u32 (vb_number blk)) totalDifficulty parent [] (lenZ (vb_block blk)))))) in
  let@ n3 := proxyInsert 1 (toSlice h ExtraDetails) r3 in
  let@ blooms := clift (bloomsOf rs) in
  let@ r4 := clift (liftR (rlpOf (writeLogBlooms blooms))) in
  let@ n4 := proxyInsert 1 (toSlice h ExtraLogBlooms) r4 in
  let@ n5 := proxyInsert 1 (toSlice h ExtraReceipts) rs in
  let@ hs := clift (txHashesOf (vb_block blk)) in
  let@ n6 := insertAddresses h 0 hs in
  let bloom := shiftBloom (default (vb_logBloom blk) full) (hashAddress sha3 (vb_author blk)) in
  let ids := alteredBlooms c_bloomIndexLevels 0 (u32 (vb_number blk)) in
  cforeach ids (fun id => let@ _ := chunk id in cret tt) ;;;
  cmodify (fun c => c <| bc_blocksBlooms := noteLevels c_bloomIndexLevels 0 (u32 (vb_number blk)) bloom (bc_blocksBlooms c) |>) ;;;
  cforeach ids (fun id => noteUsed id ExtraBlocksBlooms) ;;;
  let@ n7 := insertChunks ids in
  let@ r8 := clift (liftR (rlpOf (writeBlockHash h))) in
  let@ n8 := proxyInsert 1 (toSlice (vb_number blk) ExtraBlockHash) r8 in
  cret (adjustSize (n1 + (n2 + n3 + n4 + n5 + n6 + n7 + n8))).

Definition clearCaches : CM unit :=
  cmodify (fun c => mkChain (bc_db c) ∅ ∅ ∅ ∅ ∅ ∅ ∅ (replicate (length (bc_cacheUsage c)) ∅) ∅
                      (bc_lastBlockHash c) (bc_lastBlockNumber c) (bc_clockLastDbRotation c)).
(** The decision of [rotateDBIfNeeded]; [now] is the clock. *)
Definition isRotate (usage now : Z) (c : Chain B) : bool :=
  let last := if bc_clockLastDbRotation c =? 0 then now else bc_clockLastDbRotation c in
  ((0 <? cc_dbStorageLimit cfg) && (cc_dbStorageLimit cfg / Z.of_nat (cs_piecesCount (bc_db c)) <? usage)) ||
  ((0 <? cc_clockDbRotationPeriod cfg) && (cc_clockDbRotationPeriod cfg <=? now - last)).
(** Genesis is written again, so that every piece has it. *)
Definition reinsertGenesis (d : BlockDetails) : CM unit :=
  let@ r := clift (liftR (rlpOf (writeDetails d))) in
  cmodify (fun c => c <| bc_details := <[cc_genesisHash cfg := d]> (bc_details c) |>) ;;;
  let@ _ := proxyInsert 1 (toSlice (cc_genesisHash cfg) ExtraDetails) r in cret tt.
Definition commitDb : CM unit := cmodify (fun c => c <| bc_db := snd (face_commit true (bc_db c)) |>).
Definition revertDb : CM unit := cmodify (fun c => c <| bc_db := face_revert (bc_db c) |>).
Definition rotateDb : CM unit := fun c => match cs_rotate (bc_db c) with Some b => (Ok tt, c <| bc_db := b |>) | None => (Err ChainAssert, c) end.
(** What a rotation drops: the caches and the open batch; genesis is remembered. *)
Definition beforeRotation (now : Z) : CM BlockDetails :=
  cmodify (fun c => c <| bc_clockLastDbRotation := now |>) ;;;
  let@ d := details (cc_genesisHash cfg) in
  clearCaches ;;; revertDb ;;; cret d.
Definition rotateDBIfNeeded (usage now : Z) : CM bool :=
  let@ rot := cget (isRotate usage now) in
  cmodify (fun c => if bc_clockLastDbRotation c =? 0 then c <| bc_clockLastDbRotation := now |> else c) ;;;
  if negb rot then cret false
  else let@ d := beforeRotation now in rotateDb ;;; reinsertGenesis d ;;; commitDb ;;; cret true.

(** [TotalStorageUsedPatch::onProgress]. *)
Definition onProgress (magicUnused : bool) (number : Z) : CM unit :=
  cmodify (fun c =>
    if negb (face_exists (bc_db c) totalStorageUsedKey) then c
    else if magicUnused then c <| bc_db := face_insert (bc_db c) totalStorageUsedKey (to_string (wrap 64 (number * 32))) |>
    else c <| bc_db := face_kill (bc_db c) totalStorageUsedKey |>).
Definition readUsage : CM Z :=
  let@ c := cget id in
  if face_exists (bc_db c) pieceUsageKey then
    match stoull (face_lookup (bc_db c) pieceUsageKey) with Some n => cret n | None => cfail InvalidArgument end
  else cret 0.

(** The end of [insertBlockAndExtras]: the block becomes the last one, and everything is committed. *)
Definition writeTip (magicUnused : bool) (blk : VerifiedBlock) (usage : Z) : CM unit :=
  cmodify (fun c => c <| bc_lastBlockHash := vb_hash blk |> <| bc_lastBlockNumber := u32 (vb_number blk) |>) ;;;
  cmodify (fun c => c <| bc_db := face_insert (bc_db c) pieceUsageKey (to_string usage) |>) ;;;
  onProgress magicUnused (vb_number blk) ;;;
  cmodify (fun c => c <| bc_db := face_insert (bc_db c) bestKey (toBigEndian 32 (vb_hash blk)) |>) ;;;
  commitDb.
Definition insertBlockAndExtras (magicUnused : bool) (now : Z) (blk : VerifiedBlock) (rs : list Z) (full : option LogBloom) (totalDifficulty : Z) : CM unit :=
  let@ n := prepareDbDataAndReturnSize blk rs totalDifficulty full in
  let@ u0 := readUsage in
  let usage := wrap 64 (u0 + n) in
  let@ rotated := rotateDBIfNeeded usage now in
  let@ usage' := (if rotated then revertDb ;;; prepareDbDataAndReturnSize blk rs totalDifficulty full else cret usage) in
  writeTip magicUnused blk usage'.

(** ** Opening and collecting *)

Definition c_collectionQueueSize : nat := 20.
Definition newChain (now : Z) (b : B) : Chain B :=
  mkChain b ∅ ∅ ∅ ∅ ∅ ∅ ∅ (replicate c_collectionQueueSize ∅) ∅ (cc_genesisHash cfg) 0 now.
Definition openChain : CM unit :=
  let g := cc_genesisHash cfg in
  let@ d := details g in
  (if details_isNull d then
     reinsertGenesis (mkDetails 0 (cc_genesisDifficulty cfg) 0 [] (lenZ (cc_genesisBlock cfg))) ;;; commitDb
   else cret tt) ;;;
  let@ c := cget id in
  (if (0 <? cc_dbStorageLimit cfg) && negb (cs_currentExists (bc_db c) pieceUsageKey) then
     let@ d' := details g in
     reinsertGenesis d' ;;;
     cmodify (fun c => c <| bc_db := face_insert (bc_db c) pieceUsageKey (to_string 0) |>) ;;; commitDb
   else cret tt) ;;;
  let@ l := cget (fun c => face_lookup (bc_db c) bestKey) in
  let best := match l with [] => g | _ => h256_ofBinary l end in
  cmodify (fun c => c <| bc_lastBlockHash := best |>) ;;;
  let@ n := blockNumber best in
  cmodify (fun c => c <| bc_lastBlockNumber := n |>).

(** One round of [garbageCollect]: the entries that were used longest ago are dropped. *)
Definition evict (id : Z * Z) : CM unit :=
  let '(h, extra) := id in
  cmodify (fun c => c <| bc_inUse := bc_inUse c ∖ {[id]} |>) ;;;
  if extra =? extraBlock then cmodify (fun c => c <| bc_blocks := delete h (bc_blocks c) |>)
  else if extra =? ExtraDetails then cmodify (fun c => c <| bc_details := delete h (bc_details c) |>)
  else if extra =? ExtraBlockHash then cfail ChainAssert
  else if extra =? ExtraReceipts then cmodify (fun c => c <| bc_receipts := delete h (bc_receipts c) |>)
  else if extra =? ExtraLogBlooms then cmodify (fun c => c <| bc_logBlooms := delete h (bc_logBlooms c) |>)
  else if extra =? ExtraTransactionAddress then cmodify (fun c => c <| bc_transactionAddresses := delete h (bc_transactionAddresses c) |>)
  else if extra =? ExtraBlocksBlooms then cmodify (fun c => c <| bc_blocksBlooms := delete h (bc_blocksBlooms c) |>)
  else cret tt.
Definition gcRound : CM unit :=
  let@ back := cget (fun c => List.last (bc_cacheUsage c) ∅) in
  cforeach (elements back) evict ;;;
  cmodify (fun c => c <| bc_cacheUsage := ∅ :: removelast (bc_cacheUsage c) |>).
(** The numbers below the 4096 greatest ones. *)
Definition trimBlockHashes : CM unit :=
  cmodify (fun c =>
    let old := take (size (bc_blockHashes c) - 4096) (merge_sort Z.le (map fst (map_to_list (bc_blockHashes c)))) in
    c <| bc_blockHashes := foldl (fun m n => delete n m) (bc_blockHashes c) old |>).
Definition c_maxCacheSize : Z := 1024 * 1024 * 64.
Definition c_minCacheSize : Z := 1024 * 1024 * 32.
(** [memTotal] is the size of the caches, and [mem] the size without the block hashes, as [updateStats] samples them in the order of
    the hash tables; [due] says that the last collection is long ago.  The loop needs fuel: the result says whether it ended. *)
Fixpoint gcLoop (mem : Chain B -> Z) (fuel : nat) : CM bool :=
  let@ m := cget mem in
  if c_maxCacheSize <=? m then
    match fuel with O => cret false | S n => gcRound ;;; gcLoop mem n end
  else cret true.
Definition garbageCollect (force due : bool) (memTotal mem : Chain B -> Z) (fuel : nat) : CM bool :=
  let@ m := cget memTotal in
  if negb force && negb due && (m <? c_maxCacheSize) then cret true
  else if m <? c_minCacheSize then cret true
  else
    let@ ended := gcLoop mem fuel in
    (if (ended : bool) then trimBlockHashes else cret tt) ;;; cret ended.
End Operations.
