(* ===== verification/BlockChainInv.v ===== *)
(** * BlockChainInv: keys, coherent caches, and what inserting a block writes *)

From Stdlib Require Import ZArith Lia Bool.
From stdpp Require Import base list gmap.
From S2P Require Import Prelude CommonData Rlp RlpCodec ExtVMFace LogFilter BloomIndex LevelDb BatchedDb OverlayDb OverlayDbInv RotatingDb ChainStore Receipt BlockChain.
Open Scope Z_scope.
Open Scope chain_scope.

(** ** Keys *)

Lemma toSlice_length h e : length (toSlice h e) = 33%nat.
Proof. unfold toSlice. by rewrite length_app, toBigEndian_length. Qed.
Lemma toSlice_inj h e h' e' : is_hash h -> is_hash h' -> 0 <= e < 256 -> 0 <= e' < 256 -> toSlice h e = toSlice h' e' -> h = h' /\ e = e'.
Proof.
  unfold toSlice, is_hash. intros Hh Hh' He He' [E1 [= E2]]%app_inj_1; [|by rewrite !toBigEndian_length].
  split; [by apply (toBigEndian_inj 32)|]. unfold wrap in E2. by rewrite !Z.mod_small in E2.
Qed.
Lemma not_mark k : length k <> 64%nat -> k <> current_piece_mark_key.
Proof. intros Hl ->. by apply Hl. Qed.
Lemma blocksKey_not_mark h : blocksKey h <> current_piece_mark_key.
Proof. apply not_mark. unfold blocksKey. cbn [length]. by rewrite toSlice_length. Qed.
Lemma extrasKey_not_mark e h : extrasKey e h <> current_piece_mark_key.
Proof. apply not_mark. unfold extrasKey. cbn [length]. by rewrite toSlice_length. Qed.
Lemma bestKey_not_mark : bestKey <> current_piece_mark_key.
Proof. by apply not_mark. Qed.
Lemma pieceUsageKey_not_mark : pieceUsageKey <> current_piece_mark_key.
Proof. by apply not_mark. Qed.
Lemma totalStorageUsedKey_not_mark : totalStorageUsedKey <> current_piece_mark_key.
Proof. by apply not_mark. Qed.
#[export] Hint Resolve blocksKey_not_mark extrasKey_not_mark bestKey_not_mark pieceUsageKey_not_mark totalStorageUsedKey_not_mark : chain.

Lemma extras_blocks e h h' : extrasKey e h <> blocksKey h'.
Proof. by intros [=]. Qed.
Lemma extras_best e h : extrasKey e h <> bestKey.
Proof. intros E%(f_equal length). unfold extrasKey, blocksKey in E. cbn [length] in E. by rewrite toSlice_length in E. Qed.
Lemma extras_usage e h : extrasKey e h <> pieceUsageKey.
Proof. by intros [=]. Qed.
Lemma extras_total e h : extrasKey e h <> totalStorageUsedKey.
Proof. by intros [=]. Qed.
Lemma blocks_best h : blocksKey h <> bestKey.
Proof. by intros [=]. Qed.
Lemma blocks_usage h : blocksKey h <> pieceUsageKey.
Proof. by intros [=]. Qed.
Lemma blocks_total h : blocksKey h <> totalStorageUsedKey.
Proof. intros E%(f_equal length). unfold extrasKey, blocksKey in E. cbn [length] in E. by rewrite toSlice_length in E. Qed.
#[export] Hint Resolve extras_blocks extras_best extras_usage extras_total blocks_best blocks_usage blocks_total : chain.

(** ** Sizes and validity of what is written *)

Lemma lor_byte x y : is_byte x -> is_byte y -> is_byte (Z.lor x y).
Proof.
  unfold is_byte. intros Hx Hy. split; [apply Z.lor_nonneg; lia|]. apply Z.log2_lt_cancel. rewrite Z.log2_lor by lia.
  assert (Hl : forall z, 0 <= z < 256 -> Z.log2 z < Z.log2 256); [|by apply Z.max_lub_lt; apply Hl].
  intros z Hz. destruct (Z.eq_dec z 0) as [->|]; [by vm_compute|]. apply (Z.log2_lt_pow2 z 8); lia.
Qed.
Lemma orBloom_valid a b : bloom_valid a -> bloom_valid b -> bloom_valid (orBloom a b).
Proof.
  intros [H1 H2] [H3 H4]. split; [by apply orBloom_ok|]. unfold orBloom, bytes_ok in *. apply Forall_lookup. intros i x.
  rewrite lookup_zip_with_Some. intros (y & z & -> & Hy & Hz). apply lor_byte; [by eapply Forall_lookup_1 in Hy|by eapply Forall_lookup_1 in Hz].
Qed.
Lemma setBit_valid b i : bloom_valid b -> bloom_valid (setBit b i).
Proof.
  intros [H1 H2]. split; [by apply setBit_ok|]. unfold setBit, bytes_ok in *. apply Forall_lookup. intros j x. rewrite list_lookup_alter.
  case_decide; [|by eapply Forall_lookup_1]. intros (y & Hy & ->)%fmap_Some. apply lor_byte; [by eapply Forall_lookup_1 in Hy|].
  unfold is_byte. rewrite Z.shiftl_mul_pow2, Z.mul_1_l by (apply Z.mod_pos_bound; lia). pose proof (Z.mod_pos_bound i 8 ltac:(lia)).
  split; [lia|]. change 256 with (2 ^ 8). apply Z.pow_lt_mono_r; lia.
Qed.
Lemma empty_valid : bloom_valid emptyBloom.
Proof. split; [done|]. unfold emptyBloom. apply Forall_replicate. unfold is_byte. lia. Qed.
Lemma shiftBloom_valid b h : bloom_valid b -> bloom_valid (shiftBloom b h).
Proof. intros Hb. apply orBloom_valid; [done|]. unfold bloomPart. cbn [foldl]. do 3 apply setBit_valid. apply empty_valid. Qed.
Lemma details_size d : details_valid d -> (length (bd_children d) <= 1)%nat -> item_ok (detailsItem d).
Proof.
  intros (Hn & Ht & Hp & Hc & Hz) Hl.
  destruct (intItemOf_ok (bd_number d)) as [H1 L1]; [unfold is_hash; lia|]. destruct (intItemOf_ok (bd_totalDifficulty d) Ht) as [H2 L2].
  destruct (hashItem_ok (bd_parent d)) as [H3 L3]. destruct (intItemOf_ok (bd_blockSizeBytes d)) as [H5 L5]; [unfold is_hash; lia|].
  assert (H4 : item_ok (Lst (map hashItem (bd_children d))) /\ lenZ (enc (Lst (map hashItem (bd_children d)))) <= 34).
  { destruct (bd_children d) as [|x [|]]; cbn in Hl; [|..|lia].
    - split; [split; [done|by vm_compute]|by vm_compute].
    - destruct (hashItem_ok x) as [Hx Lx]. assert (Lc : lenZ (concat (map enc (map hashItem [x]))) = 33) by (cbn [map concat]; by rewrite app_nil_r).
      split; [split; [by split|rewrite Lc; by vm_compute]|]. cbn [enc]. unfold encLst. rewrite lenZ_app, Lc. by vm_compute. }
  destruct H4 as [H4 L4]. split; [by split_and!|]. cbn [map concat]. rewrite app_nil_r, !lenZ_app. unfold sizeLimit. lia.
Qed.

Lemma txAddress_rlp t : is_hash (ta_blockHash t) -> 0 <= ta_index t < 2 ^ 32 -> rlpOf (writeTxAddress t) = Ok (enc (txAddressItem t)).
Proof. intros Hh Hi. exact (rlpOf_writes (cdc_write t) (cdc_item t) (codec_writes t (conj Hh Hi)) (txAddress_size t Hi)). Qed.
Lemma details_rlp d : details_valid d -> (length (bd_children d) <= 1)%nat -> rlpOf (writeDetails d) = Ok (enc (detailsItem d)).
Proof. intros Hd Hl. exact (rlpOf_writes (cdc_write d) (cdc_item d) (codec_writes d Hd) (details_size d Hd Hl)). Qed.

(** ** Tables and their caches *)

Section Inv.
Context {B : Type} `{ChainStoreLaws B}.
Variables (sha3 : list Z -> Z) (cfg : ChainConfig).
Implicit Types (c : Chain B) (b : B).

(** What the database has, whatever the caches hold. *)
Definition stored {T} (t : Table T (B := B)) b (h : Z) : result CodecError T :=
  match face_lookup b (extrasKey (tb_extra _ t) h) with [] => Ok (tb_null _ t) | s => fromRLP t s end.
Definition fits {T} (t : Table T (B := B)) b (m : gmap Z T) : Prop :=
  forall h x, m !! h = Some x -> is_hash h /\ face_lookup b (extrasKey (tb_extra _ t) h) <> [] /\ stored t b h = Ok x.
Definition coherent {T} (t : Table T (B := B)) c : Prop := fits t (bc_db c) (tb_cache _ t c).
Definition usage_ok (u : list (gset (Z * Z))) : Prop := length u = 20%nat /\ forall s h, s ∈ u -> (h, ExtraBlockHash) ∉ s.
Record caches_ok c : Prop := {
  co_blocks h x : bc_blocks c !! h = Some x -> is_hash h /\ x <> [] /\ face_lookup (bc_db c) (blocksKey h) = x;
  co_details : coherent detailsTable c;
  co_logBlooms : coherent logBloomsTable c;
  co_receipts : coherent receiptsTable c;
  co_blockHashes : coherent blockHashTable c;
  co_blocksBlooms : coherent blocksBloomsTable c;
  co_usage : usage_ok (bc_cacheUsage c) }.

Lemma no_usage : usage_ok (replicate 20 ∅).
Proof. split; [done|]. intros s h [-> _]%elem_of_replicate. set_solver. Qed.
Lemma noteUsed_usage h e c : usage_ok (bc_cacheUsage c) -> e <> ExtraBlockHash -> exists u i,
  noteUsed h e c = (Ok tt, c <| bc_cacheUsage := u |> <| bc_inUse := i |>) /\ usage_ok u.
Proof.
  intros [Hl Hu] He. unfold noteUsed, cmodify. set (usage := alter _ 0%nat _).
  assert (Hus : usage_ok usage).
  { split; [unfold usage; by rewrite length_alter|]. intros s h' Hs. unfold usage in Hs.
    apply list_elem_of_lookup in Hs as [i Hi]. rewrite list_lookup_alter in Hi. case_decide.
    - apply fmap_Some in Hi as (s' & Hi & ->). specialize (Hu s' h' (list_elem_of_lookup_2 _ _ _ Hi)). set_solver.
    - by eapply Hu, list_elem_of_lookup_2. }
  clearbody usage. case_decide.
  - exists (alter (fun s => s ∖ {[(h, e)]}) 1%nat usage), (bc_inUse c). split; [by destruct c|].
    destruct Hus as [Hl' Hu']. split; [by rewrite length_alter|]. intros s h' Hs.
    apply list_elem_of_lookup in Hs as [i Hi]. rewrite list_lookup_alter in Hi. case_decide.
    + apply fmap_Some in Hi as (s' & Hi & ->). specialize (Hu' s' h' (list_elem_of_lookup_2 _ _ _ Hi)). set_solver.
    + by eapply Hu', list_elem_of_lookup_2.
  - by eexists usage, _.
Qed.

Class TableLens {T} (t : Table T (B := B)) : Prop := {
  lens_get m c : tb_cache _ t (tb_put _ t m c) = m;
  lens_id c : tb_put _ t (tb_cache _ t c) c = c;
  lens_db m c : bc_db (tb_put _ t m c) = bc_db c;
  lens_usage c u i : tb_cache _ t (c <| bc_cacheUsage := u |> <| bc_inUse := i |>) = tb_cache _ t c }.
#[export] Instance details_lens : TableLens detailsTable. Proof. split; [done|by intros []|done|done]. Qed.
#[export] Instance logBlooms_lens : TableLens logBloomsTable. Proof. split; [done|by intros []|done|done]. Qed.
#[export] Instance receipts_lens : TableLens receiptsTable. Proof. split; [done|by intros []|done|done]. Qed.
#[export] Instance address_lens : TableLens addressTable. Proof. split; [done|by intros []|done|done]. Qed.
#[export] Instance blockHash_lens : TableLens blockHashTable. Proof. split; [done|by intros []|done|done]. Qed.
#[export] Instance blocksBlooms_lens : TableLens blocksBloomsTable. Proof. split; [done|by intros []|done|done]. Qed.

(** A query answers what the cache has, or the database; it changes its cache and the usage only. *)
Lemma query_ok {T} (t : Table T (B := B)) `{!TableLens t} h c x : (forall y, tb_cache _ t c !! h = Some y -> y = x) -> usage_ok (bc_cacheUsage c) ->
  (tb_cache _ t c !! h = None -> stored t (bc_db c) h = Ok x) ->
  exists m u i, queryExtras t h c = (Ok x, tb_put _ t m (c <| bc_cacheUsage := u |> <| bc_inUse := i |>)) /\ usage_ok u /\
    (m = tb_cache _ t c \/ m = <[h := x]> (tb_cache _ t c) /\ face_lookup (bc_db c) (extrasKey (tb_extra _ t) h) <> []) /\
    default (tb_null _ t) (m !! h) = x.
Proof.
  intros Hc Hu Hs. unfold queryExtras. cbn [cbind cget]. destruct (tb_cache _ t c !! h) as [y|] eqn:Ec.
  { exists (tb_cache _ t c), (bc_cacheUsage c), (bc_inUse c). rewrite (Hc y eq_refl) in *.
    split; [|split; [done|split; [by left|by rewrite Ec]]]. cbn. f_equal. destruct c; cbn in *. symmetry. apply lens_id. }
  specialize (Hs eq_refl). cbn. unfold stored in Hs. destruct (face_lookup _ _) as [|z s] eqn:El.
  { injection Hs as <-. exists (tb_cache _ t c), (bc_cacheUsage c), (bc_inUse c).
    split; [|split; [done|split; [by left|by rewrite Ec]]]. cbn. f_equal. destruct c; cbn in *. symmetry. apply lens_id. }
  set (s' := z :: s) in *. destruct (tb_extra _ t =? ExtraBlockHash) eqn:Ee.
  - cbn. rewrite Hs. cbn. eexists _, (bc_cacheUsage c), (bc_inUse c). split; [f_equal; by destruct c|].
    split; [done|]. split; [right; split; [done|by rewrite ?El]|by rewrite lookup_insert_eq].
  - destruct (noteUsed_usage h (tb_extra _ t) c Hu) as (u & i & Hn & Hu'); [by apply Z.eqb_neq|]. unfold cbind at 1. rewrite Hn.
    cbn. rewrite Hs. cbn. exists (<[h := x]> (tb_cache _ t c)), u, i. rewrite lens_usage. split; [done|]. split; [done|].
    split; [right; split; [done|by rewrite ?El]|by rewrite lookup_insert_eq].
Qed.
Lemma fits_insert {T} (t : Table T (B := B)) b (m m' : gmap Z T) h x : fits t b m -> is_hash h -> stored t b h = Ok x ->
  m' = m \/ m' = <[h := x]> m /\ face_lookup b (extrasKey (tb_extra _ t) h) <> [] -> fits t b m'.
Proof. intros Hm Hh Hx [->|[-> Hne]] h' y; [by apply Hm|]. intros [[<- <-]|[_ Hy]]%lookup_insert_Some; [done|by apply Hm]. Qed.

Lemma fits_at {T} (t : Table T (B := B)) b m h x : fits t b m -> stored t b h = Ok x -> forall y, m !! h = Some y -> y = x.
Proof. intros Hm Hx y Hy. destruct (Hm h y Hy) as (_ & _ & E). congruence. Qed.

(** ** Writes that wait in the batch *)

Record grown b (ops : list WriteOp) b' : Prop := {
  gr_valid : cs_valid b';
  gr_pending : cs_pending b' = cs_pending b ++ ops;
  gr_pieces : cs_piecesCount b' = cs_piecesCount b;
  gr_lookup k : face_lookup b' k = face_lookup b k;
  gr_exists k : face_exists b' k = face_exists b k;
  gr_view j k : cs_view j b' k = cs_view j b k }.
Lemma grown_refl b : cs_valid b -> grown b [] b.
Proof. intros Hv. split; try done. by rewrite app_nil_r. Qed.
Lemma grown_insert b ops b' k v : grown b ops b' -> k <> current_piece_mark_key -> v <> [] -> grown b (ops ++ [WPut k v]) (face_insert b' k v).
Proof.
  intros [G1 G2 G3 G4 G5 G6] Hk Hv. destruct (cs_law_insert b' k v G1 Hk Hv) as (L1 & L2 & L3 & L4 & L5 & L6).
  split; [done|by rewrite L2, G2, app_assoc|by rewrite L3|intros; by rewrite L4|intros; by rewrite L5|intros; by rewrite L6].
Qed.
Lemma grown_kill b ops b' k : grown b ops b' -> k <> current_piece_mark_key -> grown b (ops ++ [WDelete k]) (face_kill b' k).
Proof.
  intros [G1 G2 G3 G4 G5 G6] Hk. destruct (cs_law_kill b' k G1 Hk) as (L1 & L2 & L3 & L4 & L5 & L6).
  split; [done|by rewrite L2, G2, app_assoc|by rewrite L3|intros; by rewrite L4|intros; by rewrite L5|intros; by rewrite L6].
Qed.
Lemma grown_stored {T} (t : Table T (B := B)) b ops b' h : grown b ops b' -> stored t b' h = stored t b h.
Proof. intros G. unfold stored. by rewrite (gr_lookup _ _ _ G). Qed.

(** The chain [c] with another database, other caches of details and chunks, and other notes of their use. *)
Definition st c b (dm : gmap Z BlockDetails) (bm : gmap Z BlocksBlooms) (u : list (gset (Z * Z))) (i : gset (Z * Z)) : Chain B :=
  mkChain b (bc_blocks c) dm (bc_logBlooms c) (bc_receipts c) (bc_transactionAddresses c) (bc_blockHashes c) bm u i
    (bc_lastBlockHash c) (bc_lastBlockNumber c) (bc_clockLastDbRotation c).
Lemma st_id c : c = st c (bc_db c) (bc_details c) (bc_blocksBlooms c) (bc_cacheUsage c) (bc_inUse c).
Proof. by destruct c. Qed.
Lemma cbind_ok {A C} (m : CM A (B := B)) (k : A -> CM C (B := B)) c a c' : m c = (Ok a, c') -> cbind m k c = k a c'.
Proof. unfold cbind. by intros ->. Qed.
Lemma proxyInsert_st prefix key v c b dm bm u i :
  proxyInsert prefix key v (st c b dm bm u i) = (Ok (lenZ key + lenZ v + 1), st c (face_insert b (prefix :: key) v) dm bm u i).
Proof. done. Qed.
Lemma clift_ok {A} (r : result CodecError A) a c : r = Ok a -> clift r c = (Ok a, c).
Proof. by intros ->. Qed.

Lemma fits_grown {T} (t : Table T (B := B)) b ops b' m : grown b ops b' -> fits t b m -> fits t b' m.
Proof. intros G Hf h x Hx. rewrite (grown_stored _ _ _ _ _ G), (gr_lookup _ _ _ G). by apply Hf. Qed.
Lemma details_st h c b dm bm u i pd : is_hash h -> fits detailsTable b dm -> usage_ok u -> stored detailsTable b h = Ok pd -> exists dm' u' i',
  details h (st c b dm bm u i) = (Ok pd, st c b dm' bm u' i') /\ usage_ok u' /\ fits detailsTable b dm' /\ default NullBlockDetails (dm' !! h) = pd.
Proof.
  intros Hi Hd Hu Hs. destruct (query_ok detailsTable h (st c b dm bm u i) pd (fits_at detailsTable b dm h pd Hd Hs) Hu (fun _ => Hs)) as (m & u' & i' & E & Hu' & Hm & Hh).
  exists m, u', i'. split; [exact E|]. split; [done|]. split; [exact (fits_insert detailsTable b dm m h pd Hd Hi Hs Hm)|done].
Qed.
Lemma chunk_st id c b dm bm u i bb : is_hash id -> fits blocksBloomsTable b bm -> usage_ok u -> stored blocksBloomsTable b id = Ok bb -> exists bm' u' i',
  chunk id (st c b dm bm u i) = (Ok bb, st c b dm bm' u' i') /\ usage_ok u' /\ fits blocksBloomsTable b bm' /\ blocksBlooms bm' id = bb /\
  forall id', id' <> id -> bm' !! id' = bm !! id'.
Proof.
  intros Hi Hd Hu Hs. destruct (query_ok blocksBloomsTable id (st c b dm bm u i) bb (fits_at blocksBloomsTable b bm id bb Hd Hs) Hu (fun _ => Hs)) as (m & u' & i' & E & Hu' & Hm & Hh).
  exists m, u', i'. split; [exact E|]. split; [done|]. split; [exact (fits_insert blocksBloomsTable b bm m id bb Hd Hi Hs Hm)|]. split; [exact Hh|].
  intros id' Hne. destruct Hm as [->|[-> _]]; [done|]. by rewrite lookup_insert_ne.
Qed.

(** ** What a block adds *)

Definition addressOps (h : Z) : Z -> list Z -> list WriteOp :=
  fix go index hs := match hs with
  | [] => []
  | t :: hs' => WPut (extrasKey ExtraTransactionAddress t) (enc (txAddressItem (mkAddress h index))) :: go (u32 (index + 1)) hs'
  end.
Definition addressSize (h : Z) : Z -> list Z -> Z :=
  fix go index hs := match hs with
  | [] => 0
  | t :: hs' => 34 + lenZ (enc (txAddressItem (mkAddress h index))) + go (u32 (index + 1)) hs'
  end.
Lemma addressSize_nonneg h hs : forall index, 0 <= addressSize h index hs.
Proof. induction hs as [|t hs IH]; intros index; [done|]. cbn. specialize (IH (u32 (index + 1))). pose proof (lenZ_nonneg (enc (txAddressItem (mkAddress h index)))). cbn in *. lia. Qed.
Lemma toSlice_lenZ h e : lenZ (toSlice h e) = 33.
Proof. unfold lenZ. by rewrite toSlice_length. Qed.
Lemma enc_cons it : item_ok it -> enc it <> [].
Proof. intros Hok E. pose proof (enc_nonempty it Hok) as Hn. by rewrite E in Hn. Qed.
Lemma insertAddresses_st h hs : is_hash h -> forall index c b0 ops b dm bm u i, 0 <= index < 2 ^ 32 -> grown b0 ops b -> exists b',
  insertAddresses h index hs (st c b dm bm u i) = (Ok (addressSize h index hs), st c b' dm bm u i) /\ grown b0 (ops ++ addressOps h index hs) b'.
Proof.
  intros Hh. induction hs as [|t hs IH]; intros index c b0 ops b dm bm u i Hi Hg; [exists b; by rewrite app_nil_r|].
  cbn [insertAddresses addressOps addressSize]. set (ta := mkAddress h index).
  assert (Hok : item_ok (txAddressItem ta)) by (by apply txAddress_size).
  erewrite cbind_ok by (apply clift_ok; by rewrite txAddress_rlp).
  erewrite cbind_ok by apply proxyInsert_st.
  destruct (IH (u32 (index + 1)) c b0 (ops ++ [WPut (extrasKey ExtraTransactionAddress t) (enc (txAddressItem ta))])
    (face_insert b (extrasKey ExtraTransactionAddress t) (enc (txAddressItem ta))) dm bm u i) as (b' & E & G).
  - unfold wrap. apply Z.mod_pos_bound. lia.
  - apply grown_insert; [done|auto with chain|by apply enc_cons].
  - erewrite cbind_ok by exact E. exists b'. unfold cret. rewrite toSlice_lenZ. split; [do 2 f_equal; lia|]. by rewrite <- app_assoc in G.
Qed.

(** *** The chunks of the index *)

Definition chunk_valid (bb : BlocksBlooms) : Prop := length bb = 16%nat /\ Forall bloom_valid bb.
Definition id0 (n : Z) : Z := chunkId 0 (n / c_bloomIndexSize).
Definition id1 (n : Z) : Z := chunkId 1 (n / c_bloomIndexSize / c_bloomIndexSize).
Definition storedChunk b (id : Z) : BlocksBlooms := match stored blocksBloomsTable b id with Ok bb => bb | Err _ => NullBlocksBlooms end.
Definition addBloom (bloom : LogBloom) (o : Z) (bb : BlocksBlooms) : BlocksBlooms := alter (fun old => orBloom old bloom) (Z.to_nat o) bb.
Definition chunk0 b (n : Z) (bloom : LogBloom) : BlocksBlooms := addBloom bloom (n mod c_bloomIndexSize) (storedChunk b (id0 n)).
Definition chunk1 b (n : Z) (bloom : LogBloom) : BlocksBlooms := addBloom bloom (n / c_bloomIndexSize mod c_bloomIndexSize) (storedChunk b (id1 n)).
(** The two chunks of a number can be read. *)
Definition chunks_stored b (n : Z) : Prop :=
  forall id, id = id0 n \/ id = id1 n -> exists bb, stored blocksBloomsTable b id = Ok bb /\ chunk_valid bb.

Lemma ids_differ n : 0 <= n < 2 ^ 32 -> id0 n <> id1 n.
Proof. intros Hn. unfold id0, id1, c_bloomIndexSize. apply chunkId_levels; Z.to_euclidean_division_equations; lia. Qed.
Lemma addBloom_valid bloom o bb : bloom_valid bloom -> chunk_valid bb -> chunk_valid (addBloom bloom o bb).
Proof.
  intros Hb [Hl Hv]. split; [unfold addBloom; by rewrite length_alter|]. apply Forall_lookup. intros i x. unfold addBloom. rewrite list_lookup_alter.
  case_decide; [|by eapply Forall_lookup_1]. intros (y & Hy & ->)%fmap_Some. apply orBloom_valid; [by eapply Forall_lookup_1 in Hy|done].
Qed.
Lemma storedChunk_valid b n id : chunks_stored b n -> id = id0 n \/ id = id1 n -> chunk_valid (storedChunk b id) /\
  stored blocksBloomsTable b id = Ok (storedChunk b id).
Proof. intros Hc Hid. destruct (Hc id Hid) as (bb & E & Hv). unfold storedChunk. by rewrite E. Qed.
Lemma chunk_rlp bb : chunk_valid bb -> rlpOf (writeBlocksBlooms bb) = Ok (enc (Lst (map Str bb))) /\ enc (Lst (map Str bb)) <> [] /\
  lenZ (enc (Lst (map Str bb))) = 4147 /\ readBlocksBlooms (enc (Lst (map Str bb))) = Ok bb.
Proof.
  intros [Hl Hv]. destruct (blocksBlooms_roundtrip bb Hl Hv) as [H1 H2]. split; [done|].
  assert (Hok : item_ok (Lst (map Str bb))) by (apply blooms_size; [done|unfold lenZ; rewrite Hl; lia]). split; [by apply enc_cons|]. split; [|done].
  assert (Hlen : forall l, Forall bloom_valid l -> lenZ (concat (map enc (map Str l))) = 259 * lenZ l).
  { clear. induction 1 as [|x l [Hx _] _ IH]; [done|]. cbn [map concat]. rewrite lenZ_app, lenZ_cons, IH. cbn [enc]. unfold encStr.
    assert (E : lenZ x = 256) by (unfold lenZ; by rewrite Hx). rewrite E. change (256 =? 1) with false. cbn [andb].
    rewrite lenZ_app, E. change (lenZ (hdrStr 256)) with 3. lia. }
  cbn [enc]. unfold encLst. rewrite lenZ_app, (Hlen bb Hv). assert (lenZ bb = 16) as -> by (unfold lenZ; by rewrite Hl). by vm_compute.
Qed.
Lemma id_is_hash n : is_hash (id0 n) /\ is_hash (id1 n).
Proof.
  assert (Hw : forall x, is_hash (wrap 32 x)); [|split; apply Hw].
  intros x. pose proof (Z.mod_pos_bound x (2 ^ 32) ltac:(lia)) as Hb. unfold wrap, is_hash. split; [lia|].
  apply Z.lt_trans with (2 ^ 32); [lia|reflexivity].
Qed.
Lemma memoize_st n c b dm bm u i : 0 <= n < 2 ^ 32 -> chunks_stored b n -> fits blocksBloomsTable b bm -> usage_ok u -> exists bm' u' i',
  cforeach (alteredBlooms c_bloomIndexLevels 0 n) (fun id => let@ _ := chunk id in cret tt) (st c b dm bm u i) = (Ok tt, st c b dm bm' u' i') /\
  usage_ok u' /\ fits blocksBloomsTable b bm' /\ blocksBlooms bm' (id0 n) = storedChunk b (id0 n) /\ blocksBlooms bm' (id1 n) = storedChunk b (id1 n).
Proof.
  intros Hn Hs Hf Hu. destruct (storedChunk_valid b n (id0 n) Hs (or_introl eq_refl)) as [V0 S0].
  destruct (storedChunk_valid b n (id1 n) Hs (or_intror eq_refl)) as [V1 S1].
  destruct (chunk_st (id0 n) c b dm bm u i _ (proj1 (id_is_hash n)) Hf Hu S0) as (bm1 & u1 & i1 & E1 & Hu1 & Hf1 & C1 & _).
  destruct (chunk_st (id1 n) c b dm bm1 u1 i1 _ (proj2 (id_is_hash n)) Hf1 Hu1 S1) as (bm2 & u2 & i2 & E2 & Hu2 & Hf2 & C2 & O2).
  exists bm2, u2, i2. split.
  - cbn [cforeach alteredBlooms c_bloomIndexLevels]. fold (id0 n) (id1 n).
    erewrite cbind_ok by (erewrite cbind_ok by exact E1; reflexivity). erewrite cbind_ok by (erewrite cbind_ok by exact E2; reflexivity). done.
  - split; [done|]. split; [done|]. split; [|done]. unfold blocksBlooms in *. rewrite O2 by (by apply ids_differ). done.
Qed.
Lemma noteLevels_chunks n bloom (bm : gmap Z BlocksBlooms) : 0 <= n < 2 ^ 32 -> let bm' := noteLevels c_bloomIndexLevels 0 n bloom bm in
  bm' !! id0 n = Some (addBloom bloom (n mod c_bloomIndexSize) (blocksBlooms bm (id0 n))) /\
  bm' !! id1 n = Some (addBloom bloom (n / c_bloomIndexSize mod c_bloomIndexSize) (blocksBlooms bm (id1 n))) /\
  forall id, id <> id0 n -> id <> id1 n -> bm' !! id = bm !! id.
Proof.
  intros Hn. pose proof (ids_differ n Hn) as Hd. cbn [noteLevels c_bloomIndexLevels]. fold (id0 n) (id1 n). unfold setBloom. split_and!.
  - rewrite lookup_insert_ne by done. by rewrite lookup_insert_eq.
  - rewrite lookup_insert_eq. unfold blocksBlooms at 1. by rewrite lookup_insert_ne.
  - intros id H1 H2. by rewrite !lookup_insert_ne.
Qed.
Lemma noteIds_st n c b dm bm u i : usage_ok u -> exists u' i',
  cforeach (alteredBlooms c_bloomIndexLevels 0 n) (fun id => noteUsed id ExtraBlocksBlooms) (st c b dm bm u i) = (Ok tt, st c b dm bm u' i') /\ usage_ok u'.
Proof.
  intros Hu. destruct (noteUsed_usage (id0 n) ExtraBlocksBlooms (st c b dm bm u i) Hu) as (u1 & i1 & E1 & Hu1); [done|].
  destruct (noteUsed_usage (id1 n) ExtraBlocksBlooms (st c b dm bm u1 i1) Hu1) as (u2 & i2 & E2 & Hu2); [done|].
  exists u2, i2. split; [|done]. cbn [cforeach alteredBlooms c_bloomIndexLevels]. fold (id0 n) (id1 n).
  erewrite cbind_ok by exact E1. change (cbind ?m ?k _) with (cbind m k (st c b dm bm u1 i1)). erewrite cbind_ok by exact E2. done.
Qed.

(** *** The whole block *)

(** A block that can be written: its hashes and numbers are in range, its bytes hold the transactions [hs], and [rs] are the
    bytes of the valid receipts [l]. *)
Record block_fits (blk : VerifiedBlock) (rs : list Z) (l : list TransactionReceipt) (hs : list Z) (td : Z) (full : option LogBloom) : Prop := {
  bf_hash : is_hash (vb_hash blk);
  bf_parent : is_hash (vb_parentHash blk);
  bf_differ : vb_hash blk <> vb_parentHash blk;
  bf_number : 0 <= vb_number blk < 2 ^ 32;
  bf_td : is_hash td;
  bf_bytes : vb_block blk <> [] /\ lenZ (vb_block blk) < 2 ^ 32;
  bf_txs : txHashesOf sha3 (vb_block blk) = Ok hs;
  bf_tx_hashes : Forall is_hash hs;
  bf_rs : rs = enc (Lst (map receiptItem l));
  bf_receipts : Forall receipt_valid l /\ item_ok (Lst (map receiptItem l)) /\ lenZ l < 2 ^ 32;
  bf_bloom : bloom_valid (default (vb_logBloom blk) full) }.
Definition newDetails (blk : VerifiedBlock) (td : Z) : BlockDetails := mkDetails (vb_number blk) td (vb_parentHash blk) [] (lenZ (vb_block blk)).
Definition blockBloomOf (blk : VerifiedBlock) (full : option LogBloom) : LogBloom :=
  shiftBloom (default (vb_logBloom blk) full) (hashAddress sha3 (vb_author blk)).
Definition bloomItem (l : list LogBloom) : item := Lst (map Str l).
Definition blockOps b (blk : VerifiedBlock) (rs : list Z) (l : list TransactionReceipt) (hs : list Z) (td : Z) (full : option LogBloom) (pd : BlockDetails) : list WriteOp :=
  let h := vb_hash blk in let n := vb_number blk in let bloom := blockBloomOf blk full in
  [WPut (blocksKey h) (vb_block blk);
   WPut (extrasKey ExtraDetails (vb_parentHash blk)) (enc (detailsItem (setChild h pd)));
   WPut (extrasKey ExtraDetails h) (enc (detailsItem (newDetails blk td)));
   WPut (extrasKey ExtraLogBlooms h) (enc (bloomItem (map r_bloom l)));
   WPut (extrasKey ExtraReceipts h) rs] ++ addressOps h 0 hs ++
  [WPut (extrasKey ExtraBlocksBlooms (id0 n)) (enc (bloomItem (chunk0 b n bloom)));
   WPut (extrasKey ExtraBlocksBlooms (id1 n)) (enc (bloomItem (chunk1 b n bloom)));
   WPut (extrasKey ExtraBlockHash n) (enc (hashItem h))].
(** What the block takes in the current piece: every entry with 34 bytes for its key, but a share of the two chunks only. *)
Definition blockSize (blk : VerifiedBlock) (rs : list Z) (l : list TransactionReceipt) (hs : list Z) (td : Z) (pd : BlockDetails) : Z :=
  34 + lenZ (vb_block blk) + (34 + lenZ (enc (detailsItem (setChild (vb_hash blk) pd)))) + (34 + lenZ (enc (detailsItem (newDetails blk td)))) +
  (34 + lenZ (enc (bloomItem (map r_bloom l)))) + (34 + lenZ rs) + addressSize (vb_hash blk) 0 hs + (34 + 33) +
  ((4147 + 34) / 16 + (4147 + 34) / 256 + 2).

Lemma bloomsOf_enc l : Forall receipt_valid l -> item_ok (Lst (map receiptItem l)) -> bloomsOf (enc (Lst (map receiptItem l))) = Ok (map r_bloom l).
Proof.
  intros Hv Hok. unfold bloomsOf. rewrite RLP_ctor_enc by done. cbn [liftR rbind]. pose proof (readReceipts_enc l Hv Hok) as E. unfold readReceipts in E.
  destruct (members _) as [ms|]; [|done]. cbn [rbind] in *. by rewrite E.
Qed.
Lemma logBlooms_rlp l : Forall bloom_valid l -> lenZ l < 2 ^ 50 -> rlpOf (writeLogBlooms l) = Ok (enc (bloomItem l)) /\ enc (bloomItem l) <> [] /\
  readLogBlooms (enc (bloomItem l)) = Ok l.
Proof. intros Hv Hl. destruct (logBlooms_roundtrip l Hv Hl). split; [done|]. split; [|done]. apply enc_cons. by apply blooms_size. Qed.
Lemma hash_rlp h : rlpOf (writeBlockHash h) = Ok (enc (hashItem h)) /\ enc (hashItem h) <> [] /\ lenZ (enc (hashItem h)) = 33.
Proof.
  destruct (hashItem_ok h) as [Hok Hl]. split; [|split; [by apply enc_cons|done]]. apply (rlpOf_writes _ (hashItem h)); [apply writes_hash|done].
Qed.
Lemma receipts_blooms l : Forall receipt_valid l -> Forall bloom_valid (map r_bloom l).
Proof. intros Hl. apply Forall_map. eapply Forall_impl; [exact Hl|]. by intros r (_ & _ & Hb & _). Qed.

Lemma insertChunks_st n c b0 ops b dm bm u i bb0 bb1 : 0 <= n < 2 ^ 32 -> bm !! id0 n = Some bb0 -> bm !! id1 n = Some bb1 ->
  chunk_valid bb0 -> chunk_valid bb1 -> grown b0 ops b -> exists b',
  insertChunks (alteredBlooms c_bloomIndexLevels 0 n) (st c b dm bm u i) = (Ok ((4147 + 34) * 2), st c b' dm bm u i) /\
  grown b0 (ops ++ [WPut (extrasKey ExtraBlocksBlooms (id0 n)) (enc (bloomItem bb0)); WPut (extrasKey ExtraBlocksBlooms (id1 n)) (enc (bloomItem bb1))]) b'.
Proof.
  intros Hn E0 E1 V0 V1 G. destruct (chunk_rlp bb0 V0) as (R0 & N0 & L0 & _). destruct (chunk_rlp bb1 V1) as (R1 & N1 & L1 & _).
  cbn [insertChunks alteredBlooms c_bloomIndexLevels]. fold (id0 n) (id1 n). eexists. split.
  - assert (B0 : blocksBlooms bm (id0 n) = bb0) by (unfold blocksBlooms; by rewrite E0).
    assert (B1 : blocksBlooms bm (id1 n) = bb1) by (unfold blocksBlooms; by rewrite E1).
    erewrite cbind_ok by reflexivity. cbn [bc_blocksBlooms st]. rewrite B0.
    erewrite cbind_ok by (apply clift_ok; rewrite R0; reflexivity). erewrite cbind_ok by apply proxyInsert_st.
    erewrite cbind_ok.
    2:{ erewrite cbind_ok by reflexivity. cbn [bc_blocksBlooms st]. rewrite B1.
        erewrite cbind_ok by (apply clift_ok; rewrite R1; reflexivity). erewrite cbind_ok by apply proxyInsert_st. reflexivity. }
    unfold cret. rewrite !toSlice_lenZ, L0, L1. done.
  - match goal with |- grown _ (_ ++ [?x; ?y]) _ => change [x; y] with ([x] ++ [y]) end. rewrite app_assoc. apply grown_insert; [|auto with chain|done]. by apply grown_insert; [|auto with chain|].
Qed.

Lemma blockSize_nonneg blk rs l hs td pd : 0 <= blockSize blk rs l hs td pd.
Proof.
  unfold blockSize. pose proof (addressSize_nonneg (vb_hash blk) hs 0). pose proof (lenZ_nonneg (vb_block blk)). pose proof (lenZ_nonneg rs).
  pose proof (lenZ_nonneg (enc (detailsItem (setChild (vb_hash blk) pd)))). pose proof (lenZ_nonneg (enc (detailsItem (newDetails blk td)))).
  pose proof (lenZ_nonneg (enc (bloomItem (map r_bloom l)))). change ((4147 + 34) / 16 + (4147 + 34) / 256 + 2) with 279. lia.
Qed.
Lemma adjustSize_is x blk rs l hs td pd : blockSize blk rs l hs td pd < 2 ^ 64 ->
  x = blockSize blk rs l hs td pd - ((4147 + 34) / 16 + (4147 + 34) / 256 + 2) + (4147 + 34) * 2 -> adjustSize x = blockSize blk rs l hs td pd.
Proof.
  intros Hs ->. unfold adjustSize, wrap. rewrite Zplus_mod_idemp_l. pose proof (blockSize_nonneg blk rs l hs td pd).
  rewrite <- (Z.mod_small (blockSize blk rs l hs td pd) (2 ^ 64)) at 2 by lia. f_equal. lia.
Qed.
Lemma u32_small n : 0 <= n < 2 ^ 32 -> u32 n = n.
Proof. intros Hn. unfold wrap. by apply Z.mod_small. Qed.
(** The block [blk] waits in the batch, and the caches have its parent and its chunks as they will be written. *)
Record prepared b (blk : VerifiedBlock) (rs : list Z) (l : list TransactionReceipt) (hs : list Z) (td : Z) (full : option LogBloom) (pd : BlockDetails)
    b' (dm : gmap Z BlockDetails) (bm : gmap Z BlocksBlooms) (u : list (gset (Z * Z))) : Prop := {
  pr_grown : grown b (blockOps b blk rs l hs td full pd) b';
  pr_usage : usage_ok u;
  pr_parent : dm !! vb_parentHash blk = Some (setChild (vb_hash blk) pd);
  pr_details h x : h <> vb_parentHash blk -> dm !! h = Some x ->
    is_hash h /\ face_lookup b (extrasKey ExtraDetails h) <> [] /\ stored detailsTable b h = Ok x;
  pr_chunk0 : bm !! id0 (vb_number blk) = Some (chunk0 b (vb_number blk) (blockBloomOf blk full));
  pr_chunk1 : bm !! id1 (vb_number blk) = Some (chunk1 b (vb_number blk) (blockBloomOf blk full));
  pr_chunks id x : id <> id0 (vb_number blk) -> id <> id1 (vb_number blk) -> bm !! id = Some x ->
    is_hash id /\ face_lookup b (extrasKey ExtraBlocksBlooms id) <> [] /\ stored blocksBloomsTable b id = Ok x }.
Lemma prepare_st c blk rs l hs td full pd b dm bm u i : cs_valid b -> block_fits blk rs l hs td full ->
  stored detailsTable b (vb_parentHash blk) = Ok pd -> details_valid pd -> chunks_stored b (vb_number blk) ->
  fits detailsTable b dm -> fits blocksBloomsTable b bm -> usage_ok u -> blockSize blk rs l hs td pd < 2 ^ 64 ->
  exists b' dm' bm' u' i',
    prepareDbDataAndReturnSize sha3 blk rs td full (st c b dm bm u i) = (Ok (blockSize blk rs l hs td pd), st c b' dm' bm' u' i') /\
    prepared b blk rs l hs td full pd b' dm' bm' u'.
Proof.
  intros Hv Hb Hpd Hpv Hch Hd Hc Hu Hsize. destruct Hb as [B1 B2 B3 B4 B5 [B6 B6'] B7 B8 -> (B9 & B10 & B11) B12].
  set (h := vb_hash blk) in *. set (n := vb_number blk) in *. set (parent := vb_parentHash blk) in *. set (bloom := blockBloomOf blk full).
  assert (Hbloom : bloom_valid bloom) by (by apply shiftBloom_valid).
  assert (Hsv : details_valid (setChild h pd)) by (destruct Hpv as (P1 & P2 & P3 & _ & P5); (split; [done|split; [done|split; [done|split; [|done]]]]); cbn; constructor; [done|constructor]).
  pose proof (details_rlp (setChild h pd) Hsv ltac:(cbn; lia)) as R2. pose proof (enc_cons _ (details_size _ Hsv ltac:(cbn; lia))) as N2.
  assert (Hnv : details_valid (newDetails blk td)) by (split; [done|split; [done|split; [done|split; [constructor|cbn; pose proof (lenZ_nonneg (vb_block blk)); lia]]]]).
  pose proof (details_rlp (newDetails blk td) Hnv ltac:(cbn; lia)) as R3. pose proof (enc_cons _ (details_size _ Hnv ltac:(cbn; lia))) as N3.
  destruct (logBlooms_rlp (map r_bloom l) (receipts_blooms l B9)) as (R4 & N4 & _); [unfold lenZ in *; rewrite length_map; lia|].
  pose proof (enc_cons _ B10) as N5. destruct (hash_rlp h) as (R8 & N8 & L8).
  assert (G1 : grown b ([] ++ [WPut (blocksKey h) (vb_block blk)]) (face_insert b (blocksKey h) (vb_block blk)))
    by (apply grown_insert; [by apply grown_refl|auto with chain|done]).
  destruct (details_st parent c _ dm bm u i pd B2 (fits_grown _ _ _ _ _ G1 Hd) Hu) as (dm1 & u1 & i1 & E1 & Hu1 & Hd1 & Hp1);
    [by rewrite (grown_stored _ _ _ _ _ G1)|].
  set (b1 := face_insert b (blocksKey h) (vb_block blk)) in *. set (dm2 := <[parent := setChild h pd]> dm1).
  set (b2 := face_insert b1 (extrasKey ExtraDetails parent) (enc (detailsItem (setChild h pd)))).
  set (b3 := face_insert b2 (extrasKey ExtraDetails h) (enc (detailsItem (newDetails blk td)))).
  set (b4 := face_insert b3 (extrasKey ExtraLogBlooms h) (enc (bloomItem (map r_bloom l)))).
  set (b5 := face_insert b4 (extrasKey ExtraReceipts h) (enc (Lst (map receiptItem l)))).
  pose proof (grown_insert _ _ _ _ _ G1 (extrasKey_not_mark ExtraDetails parent) N2) as G2.
  pose proof (grown_insert _ _ _ _ _ G2 (extrasKey_not_mark ExtraDetails h) N3) as G3.
  pose proof (grown_insert _ _ _ _ _ G3 (extrasKey_not_mark ExtraLogBlooms h) N4) as G4.
  pose proof (grown_insert _ _ _ _ _ G4 (extrasKey_not_mark ExtraReceipts h) N5) as G5. fold b2 in G2, G3, G4, G5. fold b3 in G3, G4, G5. fold b4 in G4, G5. fold b5 in G5.
  destruct (insertAddresses_st h hs B1 0 c b _ b5 dm2 bm u1 i1 ltac:(lia) G5) as (b6 & E6 & G6).
  assert (Hc6 : fits blocksBloomsTable b6 bm) by (by eapply fits_grown).
  assert (Hch6 : chunks_stored b6 n) by (intros id Hid; rewrite (grown_stored _ _ _ _ _ G6); by apply Hch).
  assert (Hsc : forall id, storedChunk b6 id = storedChunk b id) by (intros id; unfold storedChunk; by rewrite (grown_stored _ _ _ _ _ G6)).
  destruct (memoize_st n c b6 dm2 bm u1 i1 B4 Hch6 Hc6 Hu1) as (bm7 & u7 & i7 & E7 & Hu7 & Hf7 & C0 & C1). rewrite !Hsc in C0, C1.
  set (bm8 := noteLevels c_bloomIndexLevels 0 n bloom bm7). destruct (noteLevels_chunks n bloom bm7 B4) as (L0 & L1 & Lo). fold bm8 in L0, L1, Lo.
  rewrite C0 in L0. rewrite C1 in L1. destruct (noteIds_st n c b6 dm2 bm8 u7 i7 Hu7) as (u8 & i8 & E8 & Hu8).
  destruct (storedChunk_valid b n (id0 n) Hch (or_introl eq_refl)) as [V0 _]. destruct (storedChunk_valid b n (id1 n) Hch (or_intror eq_refl)) as [V1 _].
  destruct (insertChunks_st n c b _ b6 dm2 bm8 u8 i8 _ _ B4 L0 L1 (addBloom_valid _ _ _ Hbloom V0) (addBloom_valid _ _ _ Hbloom V1) G6) as (b9 & E9 & G9).
  pose proof (grown_insert _ _ _ _ _ G9 (extrasKey_not_mark ExtraBlockHash n) N8) as G10.
  exists (face_insert b9 (extrasKey ExtraBlockHash n) (enc (hashItem h))), dm2, bm8, u8, i8. split.
  - unfold prepareDbDataAndReturnSize. fold h parent n. rewrite (u32_small n B4).
    erewrite cbind_ok by apply proxyInsert_st. erewrite cbind_ok by exact E1.
    erewrite cbind_ok by reflexivity. cbn [st bc_details]. rewrite Hp1. fold dm2.
    change (cbind ?m ?k _) with (cbind m k (st c b1 dm2 bm u1 i1)).
    erewrite cbind_ok by reflexivity. cbn [st bc_details]. unfold dm2 at 1. rewrite lookup_insert_eq. cbn [default from_option id].
    change (cbind ?m ?k _) with (cbind m k (st c b1 dm2 bm u1 i1)).
    erewrite cbind_ok by (apply clift_ok; rewrite R2; reflexivity). erewrite cbind_ok by apply proxyInsert_st. fold b2.
    change (mkDetails n td parent [] (lenZ (vb_block blk))) with (newDetails blk td). erewrite cbind_ok by (apply clift_ok; rewrite R3; reflexivity). erewrite cbind_ok by apply proxyInsert_st. fold b3.
    erewrite cbind_ok by (apply clift_ok; exact (bloomsOf_enc l B9 B10)).
    erewrite cbind_ok by (apply clift_ok; rewrite R4; reflexivity). erewrite cbind_ok by apply proxyInsert_st. fold b4.
    erewrite cbind_ok by apply proxyInsert_st. fold b5. erewrite cbind_ok by (apply clift_ok; exact B7). erewrite cbind_ok by exact E6.
    erewrite cbind_ok by exact E7. fold (blockBloomOf blk full). fold bloom. erewrite cbind_ok by reflexivity. cbn [st bc_blocksBlooms]. fold bm8.
    change (cbind ?m ?k _) with (cbind m k (st c b6 dm2 bm8 u7 i7)). erewrite cbind_ok by exact E8. erewrite cbind_ok by exact E9.
    erewrite cbind_ok by (apply clift_ok; rewrite R8; reflexivity). erewrite cbind_ok by apply proxyInsert_st. unfold cret. f_equal. f_equal.
    rewrite !toSlice_lenZ, L8. apply adjustSize_is; [done|]. unfold blockSize. fold h. lia.
  - split; [|done|..].
    + rewrite <- !app_assoc in G10. exact G10.
    + unfold dm2. by rewrite lookup_insert_eq.
    + intros h' x Hne. unfold dm2. rewrite lookup_insert_ne by done. intros Hx%Hd1. by rewrite (grown_stored _ _ _ _ _ G1), (gr_lookup _ _ _ G1) in Hx.
    + exact L0.
    + exact L1.
    + intros id x Hi0 Hi1. rewrite Lo by done. intros Hx%Hf7. by rewrite (grown_stored _ _ _ _ _ G6), (gr_lookup _ _ _ G6) in Hx.
Qed.
End Inv.
