(* ===== verification/BlockChainInsert.v ===== *)
(** * BlockChainInsert: what a committed block leaves in the database *)

From Stdlib Require Import ZArith Lia Bool.
From stdpp Require Import base list gmap.
From Stdlib Require String Ascii DecimalString DecimalPos DecimalZ DecimalFacts.
From S2P Require Import Prelude CommonData Rlp RlpCodec ExtVMFace LogFilter BloomIndex LevelDb BatchedDb OverlayDb OverlayDbInv OverlayDbClaims RotatingDb ChainStore Receipt BlockChain BlockChainInv.
Open Scope Z_scope.
Open Scope chain_scope.

(** ** Texts of numbers *)

Lemma to_string_nonempty z : to_string z <> [].
Proof.
  intros E%(f_equal length). unfold to_string in E. rewrite length_map in E.
  destruct (String.list_ascii_of_string (DecimalString.NilZero.string_of_int (Z.to_int z))) eqn:El; [|done].
  assert (Ee : DecimalString.NilZero.string_of_int (Z.to_int z) = String.EmptyString)
    by (rewrite <- (String.string_of_list_ascii_of_string (DecimalString.NilZero.string_of_int (Z.to_int z))), El; done).
  pose proof (OverlayExample.to_int_nonnil z) as [H1 H2]. pose proof (DecimalString.NilZero.isi (Z.to_int z) H1 H2) as Hi. by rewrite Ee in Hi.
Qed.
Lemma stoull_to_string z : stoull (to_string z) = Some z.
Proof.
  unfold stoull. change (String.string_of_list_ascii _) with (OverlayExample.text_of (to_string z)).
  rewrite OverlayExample.text_of_to_string. destruct (OverlayExample.to_int_nonnil z). rewrite DecimalString.NilZero.isi by done. by rewrite DecimalZ.of_to.
Qed.

Section Insert.
Context {B : Type} `{ChainStoreLaws B}.
Variables (sha3 : list Z -> Z) (cfg : ChainConfig).
Implicit Types (c : Chain B) (b : B).

Lemma fromRLP_enc {T} (t : Table T (B := B)) it x : item_ok it -> tb_read _ t (enc it) = Ok x -> fromRLP t (enc it) = Ok x.
Proof. intros Hok Hx. unfold fromRLP. by rewrite RLP_ctor_enc. Qed.

(** ** Commits *)

Lemma committed b ops b' : cs_idle b -> grown b ops b' -> let b'' := snd (face_commit true b') in
  cs_valid b'' /\ cs_idle b'' /\ cs_piecesCount b'' = cs_piecesCount b /\
  (forall k, k ∉ map op_key ops -> face_lookup b'' k = face_lookup b k /\ forall j, cs_view j b'' k = cs_view j b k) /\
  (forall k v, v <> [] -> ops_effect ops k None = Some v -> face_lookup b'' k = v /\ forall j, (j < cs_piecesCount b)%nat -> cs_view j b'' k = v).
Proof.
  intros Hi [G1 G2 G3 G4 G5 G6]. rewrite (cs_idle_pending b Hi) in G2. cbn in G2. destruct (cs_law_commit b' G1) as (C1 & C2 & C3 & C4 & C5).
  rewrite G2, G3 in *. cbn. split_and!; [done|done|done| |].
  - intros k Hk. destruct (C4 k Hk) as [E1 E2]. split; [by rewrite E1, G4|intros j; by rewrite E2, G6].
  - intros k v Hv He. assert (Hall : forall j, (j < cs_piecesCount b)%nat -> cs_view j (snd (face_commit true b')) k = v) by (intros; by apply C5).
    split; [|done]. pose proof (cs_pieces_3 _ C1) as H3. rewrite C3 in H3. rewrite cs_lookup_view by (rewrite ?Hall by lia; done). by apply Hall; lia.
Qed.

(** ** The keys of a block are its own *)

Lemma extrasKey_kind e h e' h' : 0 <= e < 256 -> 0 <= e' < 256 -> extrasKey e h = extrasKey e' h' -> e = e'.
Proof.
  unfold extrasKey, toSlice. intros He He' E. rewrite !app_comm_cons in E. apply app_inj_2 in E as [_ E]; [|done].
  apply (f_equal (fun l => nth 0 l 0)) in E. cbn [nth] in E. unfold wrap in E. by rewrite !Z.mod_small in E.
Qed.
Lemma u32_range z : 0 <= u32 z < 2 ^ 32.
Proof. unfold wrap. apply Z.mod_pos_bound. lia. Qed.
Lemma addressOps_in w h hs : forall index, 0 <= index < 2 ^ 32 -> w ∈ addressOps h index hs <->
  exists i t, hs !! i = Some t /\ w = WPut (extrasKey ExtraTransactionAddress t) (enc (txAddressItem (mkAddress h (u32 (index + Z.of_nat i))))).
Proof.
  induction hs as [|t hs IH]; intros index Hi; [split; [by intros []%not_elem_of_nil|by intros (? & ? & ? & _)]|].
  cbn [addressOps]. rewrite elem_of_cons, IH by apply u32_range.
  assert (Hu : forall i, u32 (u32 (index + 1) + Z.of_nat i) = u32 (index + Z.of_nat (S i))) by (intros i; unfold wrap; rewrite Zplus_mod_idemp_l; f_equal; lia).
  split.
  - intros [->|(i & t' & Ht & ->)]; [exists 0%nat, t; by rewrite Z.add_0_r, u32_small|exists (S i), t'; by rewrite Hu].
  - intros ([|i] & t' & Ht & ->); [left; cbn in Ht; injection Ht as ->; by rewrite Z.add_0_r, u32_small|right; exists i, t'; by rewrite Hu].
Qed.
Lemma extrasKey_inj e h h' : 0 <= e < 256 -> is_hash h -> is_hash h' -> extrasKey e h = extrasKey e h' -> h = h'.
Proof.
  unfold extrasKey. intros He Hh Hh' E. apply (f_equal (drop 1)) in E. cbn [drop] in E. by apply toSlice_inj in E as [? _].
Qed.
Lemma number_is_hash n : 0 <= n < 2 ^ 32 -> is_hash n.
Proof. intros Hn. split; [lia|]. apply Z.lt_trans with (2 ^ 32); [lia|reflexivity]. Qed.

Definition progressOps (magicUnused there : bool) (n : Z) : list WriteOp :=
  if there then [if magicUnused then WPut totalStorageUsedKey (to_string (wrap 64 (n * 32))) else WDelete totalStorageUsedKey] else [].
Definition tailOps (magicUnused there : bool) (blk : VerifiedBlock) (usage : Z) : list WriteOp :=
  [WPut pieceUsageKey (to_string usage)] ++ progressOps magicUnused there (vb_number blk) ++ [WPut bestKey (toBigEndian 32 (vb_hash blk))].

(** Nothing is known of the block and of its number yet. *)
Record fresh b (blk : VerifiedBlock) : Prop := {
  fr_block : face_lookup b (blocksKey (vb_hash blk)) = [];
  fr_details : face_lookup b (extrasKey ExtraDetails (vb_hash blk)) = [];
  fr_logBlooms : face_lookup b (extrasKey ExtraLogBlooms (vb_hash blk)) = [];
  fr_receipts : face_lookup b (extrasKey ExtraReceipts (vb_hash blk)) = [];
  fr_number : face_lookup b (extrasKey ExtraBlockHash (vb_number blk)) = [] }.
(** What the database has of a block that was written. *)
Record holds b (blk : VerifiedBlock) (l : list TransactionReceipt) (td : Z) : Prop := {
  ho_block : face_lookup b (blocksKey (vb_hash blk)) = vb_block blk;
  ho_details : stored detailsTable b (vb_hash blk) = Ok (newDetails blk td);
  ho_logBlooms : stored logBloomsTable b (vb_hash blk) = Ok (map r_bloom l);
  ho_receipts : stored receiptsTable b (vb_hash blk) = Ok l;
  ho_number : stored blockHashTable b (vb_number blk) = Ok (vb_hash blk);
  ho_best : face_lookup b bestKey = toBigEndian 32 (vb_hash blk) }.
Definition op_value (w : WriteOp) : Slice := match w with WPut _ v => v | WDelete _ => [] end.
Section Written.
Variables (b : B) (blk : VerifiedBlock) (rs : list Z) (l : list TransactionReceipt) (hs : list Z) (td : Z) (full : option LogBloom) (pd : BlockDetails).
Variables (magicUnused there : bool) (usage : Z).
Hypothesis Hfits : block_fits sha3 blk rs l hs td full.
Let ops : list WriteOp := blockOps sha3 b blk rs l hs td full pd ++ tailOps magicUnused there blk usage.
Let h := vb_hash blk.
Let n := vb_number blk.
Let bloom := blockBloomOf sha3 blk full.

(** Every write of the block, by its key. *)
Lemma written_cases w : w ∈ ops ->
  w = WPut (blocksKey h) (vb_block blk) \/ w = WPut (extrasKey ExtraDetails (vb_parentHash blk)) (enc (detailsItem (setChild h pd))) \/
  w = WPut (extrasKey ExtraDetails h) (enc (detailsItem (newDetails blk td))) \/
  w = WPut (extrasKey ExtraLogBlooms h) (enc (bloomItem (map r_bloom l))) \/ w = WPut (extrasKey ExtraReceipts h) rs \/
  w = WPut (extrasKey ExtraBlocksBlooms (id0 n)) (enc (bloomItem (chunk0 b n bloom))) \/
  w = WPut (extrasKey ExtraBlocksBlooms (id1 n)) (enc (bloomItem (chunk1 b n bloom))) \/ w = WPut (extrasKey ExtraBlockHash n) (enc (hashItem h)) \/
  (exists i t, hs !! i = Some t /\ w = WPut (extrasKey ExtraTransactionAddress t) (enc (txAddressItem (mkAddress h (u32 (Z.of_nat i)))))) \/
  w = WPut pieceUsageKey (to_string usage) \/ op_key w = totalStorageUsedKey \/ w = WPut bestKey (toBigEndian 32 h).
Proof.
  unfold ops, blockOps, tailOps. rewrite !elem_of_app, !elem_of_cons. intros Hw.
  assert (Hp : w ∈ progressOps magicUnused there (vb_number blk) -> op_key w = totalStorageUsedKey).
  { unfold progressOps. destruct there; [|by intros []%not_elem_of_nil]. intros ->%list_elem_of_singleton. by destruct magicUnused. }
  assert (Ha : w ∈ addressOps (vb_hash blk) 0 hs -> exists i t, hs !! i = Some t /\ w = WPut (extrasKey ExtraTransactionAddress t) (enc (txAddressItem (mkAddress h (u32 (Z.of_nat i))))))
    by (intros Hin%addressOps_in; [done|lia]).
  assert (Hn : ~ w ∈ (@nil WriteOp)) by apply not_elem_of_nil. unfold h, n, bloom in *. tauto.
Qed.

(** Two keys of a block that are equal: either the kinds differ, or the hashes do. *)
Lemma details_keys : extrasKey ExtraDetails (vb_parentHash blk) <> extrasKey ExtraDetails h.
Proof. intros E%extrasKey_inj; [|done|apply Hfits|apply Hfits]. by destruct Hfits as [_ _ Hd _ _ _ _ _ _ _ _]. Qed.
Lemma chunk_keys : extrasKey ExtraBlocksBlooms (id0 n) <> extrasKey ExtraBlocksBlooms (id1 n).
Proof. destruct (id_is_hash n). intros E%extrasKey_inj; [|done..]. revert E. apply ids_differ, Hfits. Qed.
Ltac key_clash E := exfalso; cbn [op_key] in E; first
  [ discriminate E | by eapply extras_blocks | by symmetry in E; eapply extras_blocks | by eapply extras_best | by symmetry in E; eapply extras_best
  | by eapply blocks_total | by symmetry in E; eapply blocks_total | by eapply details_keys | by symmetry in E; eapply details_keys
  | by eapply chunk_keys | by symmetry in E; eapply chunk_keys | by apply extrasKey_kind in E; [discriminate E|..] ].
Lemma written k v : WPut k v ∈ ops -> k <> totalStorageUsedKey -> (forall t, k <> extrasKey ExtraTransactionAddress t) -> ops_effect ops k None = Some v.
Proof.
  intros Hin Ht Ha. rewrite (ops_effect_agree ops (WPut k v) k None Hin eq_refl); [done|]. intros w' Hin' Hk.
  destruct (written_cases _ Hin) as [C|[C|[C|[C|[C|[C|[C|[C|[(i & t & _ & C)|[C|[C|C]]]]]]]]]]];
    try (pose proof (f_equal op_key C) as Ck; cbn [op_key] in Ck); try (by destruct (Ha t)); try (by destruct (Ht C)); clear Hin Ha Ht; rewrite Ck in Hk; rewrite C;
  (destruct (written_cases _ Hin') as [C'|[C'|[C'|[C'|[C'|[C'|[C'|[C'|[(i' & t' & _ & C')|[C'|[C'|C']]]]]]]]]]]; rewrite C' in Hk; try rewrite C'; cbn [op_key] in Hk;
    (reflexivity || key_clash Hk)).
Qed.
Lemma written_address i t : NoDup hs -> hs !! i = Some t ->
  ops_effect ops (extrasKey ExtraTransactionAddress t) None = Some (enc (txAddressItem (mkAddress h (u32 (Z.of_nat i))))).
Proof.
  intros Hnd Ht. set (w := WPut (extrasKey ExtraTransactionAddress t) (enc (txAddressItem (mkAddress h (u32 (Z.of_nat i)))))).
  assert (Hin : w ∈ ops) by (unfold ops, blockOps; rewrite !elem_of_app, addressOps_in by lia; left; right; left; by exists i, t).
  rewrite (ops_effect_agree ops w (extrasKey ExtraTransactionAddress t) None Hin eq_refl); [done|]. intros w' Hin' Hk.
  destruct (written_cases _ Hin') as [C'|[C'|[C'|[C'|[C'|[C'|[C'|[C'|[(i' & t' & Ht' & C')|[C'|[C'|C']]]]]]]]]]]; rewrite C' in Hk; cbn [op_key] in Hk;
    try key_clash Hk.
  apply extrasKey_inj in Hk as ->; [|done|by eapply Forall_lookup_1; [apply Hfits|]..]. by rewrite C', (NoDup_lookup _ _ _ _ Hnd Ht' Ht).
Qed.
Lemma written_keys k : k ∈ map op_key ops -> k = blocksKey h \/ k = extrasKey ExtraDetails (vb_parentHash blk) \/ k = extrasKey ExtraDetails h \/
  k = extrasKey ExtraLogBlooms h \/ k = extrasKey ExtraReceipts h \/ k = extrasKey ExtraBlocksBlooms (id0 n) \/ k = extrasKey ExtraBlocksBlooms (id1 n) \/
  k = extrasKey ExtraBlockHash n \/ (exists t, t ∈ hs /\ k = extrasKey ExtraTransactionAddress t) \/ k = pieceUsageKey \/ k = totalStorageUsedKey \/ k = bestKey.
Proof.
  intros (w & -> & Hw)%list_elem_of_fmap.
  destruct (written_cases _ Hw) as [->|[->|[->|[->|[->|[->|[->|[->|[(i' & t' & Ht' & ->)|[->|[C'| ->]]]]]]]]]]]; cbn [op_key]; try tauto.
  do 8 right. left. exists t'. split; [by eapply list_elem_of_lookup_2|done].
Qed.
Hypothesis Hpd : details_valid pd.
Hypothesis Hch : chunks_stored b n.
Lemma setChild_valid : details_valid (setChild h pd).
Proof. destruct Hpd as (P1 & P2 & P3 & _ & P5). split; [done|split; [done|split; [done|split; [|done]]]]. constructor; [apply Hfits|constructor]. Qed.
Lemma newDetails_valid : details_valid (newDetails blk td).
Proof.
  destruct Hfits as [F1 F2 F3 F4 F5 [F6 F7] _ _ _ _ _]. pose proof (lenZ_nonneg (vb_block blk)).
  split; [done|split; [done|split; [done|split; [constructor|cbn; lia]]]].
Qed.
Lemma bloom_is_valid : bloom_valid bloom.
Proof. apply shiftBloom_valid, Hfits. Qed.
Lemma chunk0_valid : chunk_valid (chunk0 b n bloom).
Proof. apply addBloom_valid; [apply bloom_is_valid|]. apply (storedChunk_valid b n (id0 n) Hch (or_introl eq_refl)). Qed.
Lemma chunk1_valid : chunk_valid (chunk1 b n bloom).
Proof. apply addBloom_valid; [apply bloom_is_valid|]. apply (storedChunk_valid b n (id1 n) Hch (or_intror eq_refl)). Qed.
Lemma logBlooms_written : enc (bloomItem (map r_bloom l)) <> [] /\ readLogBlooms (enc (bloomItem (map r_bloom l))) = Ok (map r_bloom l).
Proof.
  destruct Hfits as [_ _ _ _ _ _ _ _ _ (F1 & _ & F2) _]. destruct (logBlooms_rlp (map r_bloom l) (receipts_blooms l F1)) as (_ & N & R); [|done].
  unfold lenZ in *. rewrite length_map. lia.
Qed.
Lemma written_nonempty k v : WPut k v ∈ ops -> k <> totalStorageUsedKey -> v <> [].
Proof.
  intros Hin Ht. destruct (written_cases _ Hin) as [C|[C|[C|[C|[C|[C|[C|[C|[(i' & t' & Ht' & C)|[C|[C|C]]]]]]]]]]];
    [..|by destruct Ht|]; apply (f_equal op_value) in C; cbn [op_value] in C; subst v; first [apply Hfits|apply to_string_nonempty|idtac].
  - apply enc_cons, details_size; [apply setChild_valid|cbn; lia].
  - apply enc_cons, details_size; [apply newDetails_valid|cbn; lia].
  - apply logBlooms_written.
  - destruct Hfits as [_ _ _ _ _ _ _ _ -> (_ & F & _) _]. by apply enc_cons.
  - apply (chunk_rlp _ chunk0_valid).
  - apply (chunk_rlp _ chunk1_valid).
  - apply (hash_rlp h).
  - apply enc_cons, txAddress_size, u32_range.
  - intros E%(f_equal length). by rewrite toBigEndian_length in E.
Qed.

(** *** After the commit *)

Variable b2 : B.
Hypothesis Hidle : cs_idle b.
Hypothesis Hgrown : grown b ops b2.
Let b' := snd (face_commit true b2).

Lemma landed k v : WPut k v ∈ ops -> k <> totalStorageUsedKey -> (forall t, k <> extrasKey ExtraTransactionAddress t) ->
  face_lookup b' k = v /\ (forall j, (j < cs_piecesCount b)%nat -> cs_view j b' k = v) /\ v <> [].
Proof.
  intros Hin Ht Ha. pose proof (written_nonempty k v Hin Ht) as Hne. destruct (committed b ops b2 Hidle Hgrown) as (_ & _ & _ & _ & C).
  destruct (C k v Hne (written k v Hin Ht Ha)). done.
Qed.
Lemma landed_address i t : NoDup hs -> hs !! i = Some t -> stored addressTable b' t = Ok (mkAddress h (u32 (Z.of_nat i))).
Proof.
  intros Hnd Ht. set (ta := mkAddress h (u32 (Z.of_nat i))). assert (Hok : item_ok (txAddressItem ta)) by apply txAddress_size, u32_range.
  destruct (committed b ops b2 Hidle Hgrown) as (_ & _ & _ & _ & C).
  destruct (C _ _ (enc_cons _ Hok) (written_address i t Hnd Ht)) as [E _]. unfold stored. cbn [addressTable tb_extra tb_null]. fold b' in E. rewrite E.
  pose proof (enc_cons _ Hok) as Hne. fold ta. destruct (enc (txAddressItem ta)) eqn:Ee; [done|]. rewrite <- Ee.
  destruct Hfits as [F1 _ _ _ _ _ _ _ _ _ _]. apply fromRLP_enc; [done|]. exact (codec_reads (H := TransactionAddress_codec) ta (conj F1 (u32_range _)) Hok).
Qed.
Lemma landed_in {T} (t : Table T (B := B)) k' v x : WPut (extrasKey (tb_extra _ t) k') v ∈ ops -> 0 <= tb_extra _ t < 256 -> tb_extra _ t <> ExtraTransactionAddress ->
  fromRLP t v = Ok x -> face_lookup b' (extrasKey (tb_extra _ t) k') <> [] /\ stored t b' k' = Ok x.
Proof.
  intros Hin Hr Ha Hx. destruct (landed _ _ Hin) as (E & _ & Hne); [apply extras_total|intros a Ea; by apply extrasKey_kind in Ea|].
  rewrite E. split; [done|]. unfold stored. rewrite E. by destruct v.
Qed.
Lemma untouched k : k ∉ map op_key ops -> face_lookup b' k = face_lookup b k /\ forall j, cs_view j b' k = cs_view j b k.
Proof. destruct (committed b ops b2 Hidle Hgrown) as (_ & _ & _ & C & _). apply C. Qed.
Lemma untouched_in {T} (t : Table T (B := B)) k' : extrasKey (tb_extra _ t) k' ∉ map op_key ops ->
  face_lookup b' (extrasKey (tb_extra _ t) k') = face_lookup b (extrasKey (tb_extra _ t) k') /\ stored t b' k' = stored t b k'.
Proof. intros Hk. destruct (untouched _ Hk) as [E _]. unfold stored. by rewrite E. Qed.
Lemma fits_after {T} (t : Table T (B := B)) m : fits t b m ->
  (forall k' x, m !! k' = Some x -> extrasKey (tb_extra _ t) k' ∈ map op_key ops -> face_lookup b (extrasKey (tb_extra _ t) k') = []) -> fits t b' m.
Proof.
  intros Hf Hk k' x Hx. destruct (Hf k' x Hx) as (F1 & F2 & F3). split; [done|].
  destruct (untouched_in t k') as [-> ->]; [|done]. intros Hin. by destruct F2; eapply Hk.
Qed.

Ltac in_ops := unfold ops, blockOps, tailOps; rewrite !elem_of_app, !elem_of_cons; tauto.
Lemma landed_details : (face_lookup b' (extrasKey ExtraDetails h) <> [] /\ stored detailsTable b' h = Ok (newDetails blk td)) /\
  (face_lookup b' (extrasKey ExtraDetails (vb_parentHash blk)) <> [] /\ stored detailsTable b' (vb_parentHash blk) = Ok (setChild h pd)).
Proof.
  assert (Hd : forall d, details_valid d -> (length (bd_children d) <= 1)%nat -> fromRLP (detailsTable (B := B)) (enc (detailsItem d)) = Ok d).
  { intros d Hv Hl. pose proof (details_size d Hv Hl) as Hok. apply fromRLP_enc; [done|]. exact (codec_reads (H := BlockDetails_codec) d Hv Hok). }
  split; eapply (landed_in detailsTable); try done; [in_ops|apply Hd; [apply newDetails_valid|cbn; lia]|in_ops|apply Hd; [apply setChild_valid|cbn; lia]].
Qed.
Lemma landed_chunks : (face_lookup b' (extrasKey ExtraBlocksBlooms (id0 n)) <> [] /\ stored blocksBloomsTable b' (id0 n) = Ok (chunk0 b n bloom)) /\
  (face_lookup b' (extrasKey ExtraBlocksBlooms (id1 n)) <> [] /\ stored blocksBloomsTable b' (id1 n) = Ok (chunk1 b n bloom)).
Proof.
  assert (Hd : forall bb, chunk_valid bb -> fromRLP (blocksBloomsTable (B := B)) (enc (bloomItem bb)) = Ok bb).
  { intros bb Hv. apply fromRLP_enc; [|by apply (chunk_rlp bb)]. destruct Hv as [Hl Hv]. apply blooms_size; [done|]. unfold lenZ. rewrite Hl. lia. }
  split; eapply (landed_in blocksBloomsTable); try done; [in_ops|apply Hd, chunk0_valid|in_ops|apply Hd, chunk1_valid].
Qed.
Lemma landed_block : holds b' blk l td.
Proof.
  assert (Hfar : forall t, blocksKey h <> extrasKey ExtraTransactionAddress t) by (intros t E; symmetry in E; by apply extras_blocks in E).
  split.
  - apply landed; [in_ops|apply blocks_total|done].
  - apply landed_details.
  - eapply (landed_in logBloomsTable); try done; [in_ops|]. apply fromRLP_enc; [|apply logBlooms_written].
    destruct Hfits as [_ _ _ _ _ _ _ _ _ (F1 & _ & F2) _]. apply blooms_size; [by apply receipts_blooms|]. unfold lenZ in *. rewrite length_map. lia.
  - destruct Hfits as [_ _ _ _ _ _ _ _ Ers (F1 & F2 & _) _]. eapply (landed_in receiptsTable); try done; [in_ops|]. rewrite Ers.
    apply fromRLP_enc; [done|]. by apply readReceipts_enc.
  - destruct (hashItem_ok h) as [Hok _]. eapply (landed_in blockHashTable); try done; [in_ops|]. apply fromRLP_enc; [done|].
    apply readHash32, Hfits.
  - apply landed; [in_ops|done|]. intros t E. symmetry in E. by apply extras_best in E.
Qed.
Lemma landed_recent k : k = bestKey \/ k = pieceUsageKey \/ k = extrasKey ExtraDetails h \/ k = extrasKey ExtraDetails (vb_parentHash blk) \/
    k = extrasKey ExtraBlocksBlooms (id0 n) \/ k = extrasKey ExtraBlocksBlooms (id1 n) ->
  forall j, (j < cs_piecesCount b)%nat -> cs_view j b' k <> [].
Proof.
  intros Hk. assert (exists v, WPut k v ∈ ops) as (v & Hin) by (destruct Hk as [->|[->|[->|[->|[->| ->]]]]]; eexists; in_ops).
  destruct (landed k v Hin) as (_ & Hv & Hne); [destruct Hk as [->|[->|[->|[->|[->| ->]]]]]; try done; apply extras_total| |intros j Hj; by rewrite Hv].
  intros t E. destruct Hk as [->|[->|[->|[->|[->| ->]]]]]; try (apply extrasKey_kind in E; done); symmetry in E; [by apply extras_best in E|by apply extras_usage in E].
Qed.
Lemma landed_usage : face_lookup b' pieceUsageKey = to_string usage.
Proof. apply landed; [in_ops|done|]. intros t E. symmetry in E. by apply extras_usage in E. Qed.

Hypothesis Hfresh : fresh b blk.
(** A key of a table that the block writes is one of its own, the parent's details, or a chunk. *)
Lemma own_keys e k' : 0 <= e < 256 -> e <> ExtraTransactionAddress -> extrasKey e k' ∈ map op_key ops ->
  face_lookup b (extrasKey e k') = [] \/ e = ExtraDetails /\ extrasKey e k' = extrasKey ExtraDetails (vb_parentHash blk) \/
  e = ExtraBlocksBlooms /\ (extrasKey e k' = extrasKey ExtraBlocksBlooms (id0 n) \/ extrasKey e k' = extrasKey ExtraBlocksBlooms (id1 n)).
Proof.
  intros He Ha Hin. destruct Hfresh as [F1 F2 F3 F4 F5].
  assert (Hk : forall e' x, 0 <= e' < 256 -> extrasKey e k' = extrasKey e' x -> e = e') by (intros e' x He' E; by apply extrasKey_kind in E).
  destruct (written_keys _ Hin) as [C|[C|[C|[C|[C|[C|[C|[C|[(t & _ & C)|[C|[C|C]]]]]]]]]]].
  - by apply extras_blocks in C.
  - right. left. split; [by apply Hk in C|done].
  - left. by rewrite C.
  - left. by rewrite C.
  - left. by rewrite C.
  - right. right. split; [by apply Hk in C|by left].
  - right. right. split; [by apply Hk in C|by right].
  - left. by rewrite C.
  - by destruct Ha; apply Hk in C.
  - by apply extras_usage in C.
  - by apply extras_total in C.
  - by apply extras_best in C.
Qed.
Lemma fits_plain {T} (t : Table T (B := B)) m : fits t b m -> 0 <= tb_extra _ t < 256 -> tb_extra _ t <> ExtraTransactionAddress ->
  tb_extra _ t <> ExtraDetails -> tb_extra _ t <> ExtraBlocksBlooms -> fits t b' m.
Proof. intros Hm Hr H1 H2 H3. apply fits_after; [done|]. intros k' x Hx Hin. destruct (own_keys _ _ Hr H1 Hin) as [?|[[? _]|[? _]]]; done. Qed.
Lemma caches_after c b1 dm bm u i : caches_ok (st c b ∅ ∅ u i) -> prepared sha3 b blk rs l hs td full pd b1 dm bm u -> caches_ok (st c b' dm bm u i).
Proof.
  intros [C1 _ C3 C4 C5 _ C7] [_ _ Hp Hd Hb0 Hb1 Hb]. fold n in Hb0, Hb1, Hb. fold bloom in Hb0, Hb1. split; [| | | | | |done].
  - intros h' x Hx. destruct (C1 h' x Hx) as (X1 & X2 & X3). split; [done|]. split; [done|]. cbn [st bc_db] in *.
    destruct (untouched (blocksKey h')) as [-> _]; [|done]. intros Hin. destruct Hfresh as [F1 _ _ _ _].
    destruct (written_keys _ Hin) as [C|[C|[C|[C|[C|[C|[C|[C|[(t & _ & C)|[C|[C|C]]]]]]]]]]]; [by destruct X2; rewrite <- X3, C|..];
      first [by apply blocks_usage in C|by apply blocks_total in C|by apply blocks_best in C|symmetry in C; by apply extras_blocks in C].
  - intros h' x Hx. cbn [st bc_db bc_details tb_cache detailsTable] in Hx. destruct (decide (h' = vb_parentHash blk)) as [->|Hne].
    + rewrite Hp in Hx. injection Hx as <-. split; [apply Hfits|]. apply landed_details.
    + destruct (Hd h' x Hne Hx) as (X1 & X2 & X3). split; [done|]. destruct (untouched_in detailsTable h') as [E1 E2];
        [|cbn [st bc_db tb_extra detailsTable] in *; by rewrite E1, E2]. intros Hin. apply own_keys in Hin as [E|[[_ E]|[E _]]]; [done| |done..].
      apply extrasKey_inj in E; [done|done|done|apply Hfits].
  - exact (fits_plain logBloomsTable _ C3 ltac:(done) ltac:(done) ltac:(done) ltac:(done)).
  - exact (fits_plain receiptsTable _ C4 ltac:(done) ltac:(done) ltac:(done) ltac:(done)).
  - exact (fits_plain blockHashTable _ C5 ltac:(done) ltac:(done) ltac:(done) ltac:(done)).
  - destruct (id_is_hash n) as [I0 I1]. intros id x Hx. cbn [st bc_db bc_blocksBlooms tb_cache blocksBloomsTable] in Hx.
    destruct (decide (id = id0 n)) as [->|N0]; [rewrite Hb0 in Hx; injection Hx as <-; split; [done|apply landed_chunks]|].
    destruct (decide (id = id1 n)) as [->|N1]; [rewrite Hb1 in Hx; injection Hx as <-; split; [done|apply landed_chunks]|].
    destruct (Hb id x N0 N1 Hx) as (X1 & X2 & X3). split; [done|]. destruct (untouched_in blocksBloomsTable id) as [E1 E2];
      [|cbn [st bc_db tb_extra blocksBloomsTable] in *; by rewrite E1, E2]. intros Hin. apply own_keys in Hin as [E|[[E _]|[_ [E|E]]]]; try done; by apply extrasKey_inj in E.
Qed.
End Written.
End Insert.
