(* ===== verification/BlockChainCommit.v ===== *)
(** * BlockChainCommit: inserting a block, with and without a rotation of the database *)

From Stdlib Require Import ZArith Lia Bool.
From stdpp Require Import base list gmap.
From S2P Require Import Prelude CommonData Rlp RlpCodec ExtVMFace LogFilter BloomIndex LevelDb BatchedDb OverlayDb OverlayDbInv OverlayDbClaims RotatingDb ChainStore Receipt BlockChain BlockChainInv BlockChainInsert.
Open Scope Z_scope.
Open Scope chain_scope.

Section Commit.
Context {B : Type} `{ChainStoreLaws B}.
Variables (sha3 : list Z -> Z) (cfg : ChainConfig).
Implicit Types (c : Chain B) (b : B).

Definition usageOf b : option Z := match face_lookup b pieceUsageKey with [] => Some 0 | s => stoull s end.
Definition bestOf b : Z := match face_lookup b bestKey with [] => cc_genesisHash cfg | s => h256_ofBinary s end.
(** Details that can be read, and whose entry is there. *)
Definition has_details b (h : Z) (d : BlockDetails) : Prop :=
  face_lookup b (extrasKey ExtraDetails h) <> [] /\ stored detailsTable b h = Ok d /\ details_valid d /\ (length (bd_children d) <= 1)%nat.
(** What holds between operations: no batch is open, the caches agree with the database, genesis is there, and the last block is the one that the database names. *)
Record chain_ok c : Prop := {
  ch_valid : cs_valid (bc_db c);
  ch_idle : cs_idle (bc_db c);
  ch_caches : caches_ok c;
  ch_genesis : exists gd, has_details (bc_db c) (cc_genesisHash cfg) gd;
  ch_usage : exists u, usageOf (bc_db c) = Some u;
  ch_best : bestOf (bc_db c) = bc_lastBlockHash c;
  ch_tip : is_hash (bc_lastBlockHash c) /\ exists d, has_details (bc_db c) (bc_lastBlockHash c) d /\ bd_number d = bc_lastBlockNumber c }.
(** A block that can be added: it is new, its parent is there, and the chunks of its number can be read. *)
Record addable c (blk : VerifiedBlock) (rs : list Z) (l : list TransactionReceipt) (hs : list Z) (td : Z) (full : option LogBloom) (pd : BlockDetails) : Prop := {
  aa_fits : block_fits sha3 blk rs l hs td full;
  aa_fresh : fresh (bc_db c) blk;
  aa_parent : stored detailsTable (bc_db c) (vb_parentHash blk) = Ok pd;
  aa_valid : details_valid pd;
  aa_chunks : chunks_stored (bc_db c) (vb_number blk);
  aa_size : blockSize blk rs l hs td pd < 2 ^ 64 }.
(** The keys that a block writes. *)
Definition ownKey (blk : VerifiedBlock) (hs : list Z) (k : Slice) : Prop :=
  k = blocksKey (vb_hash blk) \/ k = extrasKey ExtraDetails (vb_parentHash blk) \/ k = extrasKey ExtraDetails (vb_hash blk) \/
  k = extrasKey ExtraLogBlooms (vb_hash blk) \/ k = extrasKey ExtraReceipts (vb_hash blk) \/ k = extrasKey ExtraBlocksBlooms (id0 (vb_number blk)) \/
  k = extrasKey ExtraBlocksBlooms (id1 (vb_number blk)) \/ k = extrasKey ExtraBlockHash (vb_number blk) \/
  (exists t, t ∈ hs /\ k = extrasKey ExtraTransactionAddress t) \/ k = pieceUsageKey \/ k = totalStorageUsedKey \/ k = bestKey.
Definition withTip c (blk : VerifiedBlock) : Chain B := c <| bc_lastBlockHash := vb_hash blk |> <| bc_lastBlockNumber := vb_number blk |>.

Lemma exists_lookup b k : cs_valid b -> k <> current_piece_mark_key -> face_exists b k = match face_lookup b k with [] => false | _ => true end.
Proof. intros Hv Hk. rewrite cs_law_exists by done. by destruct (face_lookup b k). Qed.
Lemma usageOf_written b n : face_lookup b pieceUsageKey = to_string n -> usageOf b = Some n.
Proof. intros E. unfold usageOf. rewrite E. pose proof (to_string_nonempty n). pose proof (stoull_to_string n). by destruct (to_string n). Qed.
Lemma readUsage_is c n : cs_valid (bc_db c) -> usageOf (bc_db c) = Some n -> readUsage c = (Ok n, c).
Proof.
  intros Hv Hu. unfold readUsage. erewrite cbind_ok by reflexivity. cbn [id]. rewrite exists_lookup by auto with chain.
  unfold usageOf in Hu. destruct (face_lookup (bc_db c) pieceUsageKey) as [|z s]; [by injection Hu as <-|]. by rewrite Hu.
Qed.
Lemma writeTip_st mu blk usage c b0 ops b1 dm bm u i : 0 <= vb_number blk < 2 ^ 32 -> cs_valid b0 -> grown b0 ops b1 -> exists b2,
  writeTip mu blk usage (st c b1 dm bm u i) = (Ok tt, st (withTip c blk) (snd (face_commit true b2)) dm bm u i) /\
  grown b0 (ops ++ tailOps mu (face_exists b0 totalStorageUsedKey) blk usage) b2.
Proof.
  intros Hn Hv0 G. unfold writeTip.
  assert (G1 : grown b0 (ops ++ [WPut pieceUsageKey (to_string usage)]) (face_insert b1 pieceUsageKey (to_string usage)))
    by (apply grown_insert; [done|auto with chain|apply to_string_nonempty]).
  set (b2 := face_insert b1 pieceUsageKey (to_string usage)) in *.
  assert (exists b3, onProgress mu (vb_number blk) (st (withTip c blk) b2 dm bm u i) = (Ok tt, st (withTip c blk) b3 dm bm u i) /\
    grown b0 ((ops ++ [WPut pieceUsageKey (to_string usage)]) ++ progressOps mu (face_exists b0 totalStorageUsedKey) (vb_number blk)) b3) as (b3 & E3 & G3).
  { unfold onProgress, cmodify, progressOps. cbn [st bc_db]. rewrite (gr_exists _ _ _ G1). destruct (face_exists b0 totalStorageUsedKey); cbn [negb].
    - destruct mu; (eexists; split; [reflexivity|]); [apply grown_insert|apply grown_kill]; auto with chain. apply to_string_nonempty.
    - exists b2. by rewrite app_nil_r. }
  exists (face_insert b3 bestKey (toBigEndian 32 (vb_hash blk))). split.
  - rewrite (u32_small _ Hn). erewrite cbind_ok by reflexivity. erewrite cbind_ok by reflexivity.
    change (cbind ?m ?k _) with (cbind m k (st (withTip c blk) b2 dm bm u i)). erewrite cbind_ok by exact E3. done.
  - unfold tailOps. rewrite !app_assoc. apply grown_insert; [done|auto with chain|]. intros E%(f_equal length). by rewrite toBigEndian_length in E.
Qed.
(** What a committed block leaves, when it was written over the database [b]. *)
Record added b (blk : VerifiedBlock) (l : list TransactionReceipt) (hs : list Z) (td : Z) (full : option LogBloom) (pd : BlockDetails) (usage : Z) c' : Prop := {
  ad_valid : cs_valid (bc_db c');
  ad_idle : cs_idle (bc_db c');
  ad_caches : caches_ok c';
  ad_tip : bc_lastBlockHash c' = vb_hash blk /\ bc_lastBlockNumber c' = vb_number blk;
  ad_holds : holds (bc_db c') blk l td;
  ad_details : has_details (bc_db c') (vb_hash blk) (newDetails blk td);
  ad_parent : has_details (bc_db c') (vb_parentHash blk) (setChild (vb_hash blk) pd);
  ad_addresses i t : NoDup hs -> hs !! i = Some t -> stored addressTable (bc_db c') t = Ok (mkAddress (vb_hash blk) (u32 (Z.of_nat i)));
  ad_chunks : stored blocksBloomsTable (bc_db c') (id0 (vb_number blk)) = Ok (chunk0 b (vb_number blk) (blockBloomOf sha3 blk full)) /\
    stored blocksBloomsTable (bc_db c') (id1 (vb_number blk)) = Ok (chunk1 b (vb_number blk) (blockBloomOf sha3 blk full));
  ad_usage : face_lookup (bc_db c') pieceUsageKey = to_string usage;
  ad_other k : ~ ownKey blk hs k -> face_lookup (bc_db c') k = face_lookup b k /\ forall j, cs_view j (bc_db c') k = cs_view j b k;
  ad_pieces : cs_piecesCount (bc_db c') = cs_piecesCount b;
  (** These entries are in the newest piece. *)
  ad_recent k : k = bestKey \/ k = pieceUsageKey \/ k = extrasKey ExtraDetails (vb_hash blk) \/ k = extrasKey ExtraDetails (vb_parentHash blk) \/
      k = extrasKey ExtraBlocksBlooms (id0 (vb_number blk)) \/ k = extrasKey ExtraBlocksBlooms (id1 (vb_number blk)) ->
    forall j, (j < cs_piecesCount b)%nat -> cs_view j (bc_db c') k <> [] }.

Lemma caches_withTip c blk b dm bm u i : caches_ok (st c b dm bm u i) -> caches_ok (st (withTip c blk) b dm bm u i).
Proof. by intros []. Qed.
Lemma written_block mu usage c b blk rs l hs td full pd b1 dm bm u i : cs_valid b -> cs_idle b -> block_fits sha3 blk rs l hs td full -> details_valid pd ->
  chunks_stored b (vb_number blk) -> fresh b blk -> caches_ok (st c b ∅ ∅ u i) -> prepared sha3 b blk rs l hs td full pd b1 dm bm u -> exists c',
  writeTip mu blk usage (st c b1 dm bm u i) = (Ok tt, c') /\ added b blk l hs td full pd usage c' /\ bc_clockLastDbRotation c' = bc_clockLastDbRotation c.
Proof.
  intros Hv Hi Hb Hpd Hch Hfr Hc Hp.
  destruct (writeTip_st mu blk usage c b _ b1 dm bm u i ltac:(apply Hb) Hv (pr_grown _ _ _ _ _ _ _ _ _ _ _ _ _ Hp)) as (b2 & E & G).
  eexists. split; [exact E|]. split; [|done]. destruct (committed b _ b2 Hi G) as (D1 & D2 & D3 & D4 & _).
  split; cbn [st bc_db bc_lastBlockHash bc_lastBlockNumber withTip]; try done.
  - exact (caches_after sha3 b blk rs l hs td full pd mu _ usage Hb Hpd Hch b2 Hi G Hfr _ b1 dm bm u i (caches_withTip _ blk _ _ _ _ _ Hc) Hp).
  - exact (landed_block sha3 b blk rs l hs td full pd mu _ usage Hb Hpd Hch b2 Hi G).
  - destruct (landed_details sha3 b blk rs l hs td full pd mu _ usage Hb Hpd Hch b2 Hi G) as [[N1 S1] _].
    split; [done|split; [done|split; [by eapply newDetails_valid|cbn; lia]]].
  - destruct (landed_details sha3 b blk rs l hs td full pd mu _ usage Hb Hpd Hch b2 Hi G) as [_ [N1 S1]].
    split; [done|split; [done|split; [by eapply setChild_valid|cbn; lia]]].
  - intros j t Hnd Ht. exact (landed_address sha3 b blk rs l hs td full pd mu _ usage Hb b2 Hi G j t Hnd Ht).
  - destruct (landed_chunks sha3 b blk rs l hs td full pd mu _ usage Hb Hpd Hch b2 Hi G) as [[_ ?] [_ ?]]. done.
  - exact (landed_usage sha3 b blk rs l hs td full pd mu _ usage Hb Hpd Hch b2 Hi G).
  - intros k Hk. apply D4. intros Hin. by apply Hk, (written_keys _ _ _ _ _ _ _ _ _ _ _ _ _ Hin).
  - exact (landed_recent sha3 b blk rs l hs td full pd mu _ usage Hb Hpd Hch b2 Hi G).
Qed.

Hypothesis genesis_hash : is_hash (cc_genesisHash cfg).
Lemma own_details blk hs h : is_hash h -> is_hash (vb_hash blk) -> is_hash (vb_parentHash blk) -> ownKey blk hs (extrasKey ExtraDetails h) ->
  h = vb_hash blk \/ h = vb_parentHash blk.
Proof.
  intros Hh H1 H2. unfold ownKey. intros Hk.
  destruct Hk as [C|[C|[C|[C|[C|[C|[C|[C|[(t & _ & C)|[C|[C|C]]]]]]]]]]]; try (apply extrasKey_kind in C; done);
    [by apply extras_blocks in C|right; by apply extrasKey_inj in C|left; by apply extrasKey_inj in C|
     by apply extras_usage in C|by apply extras_total in C|by apply extras_best in C].
Qed.
Lemma added_genesis b blk rs l hs td full pd usage c' gd : block_fits sha3 blk rs l hs td full -> fresh b blk -> has_details b (cc_genesisHash cfg) gd ->
  added b blk l hs td full pd usage c' -> (cc_genesisHash cfg = vb_parentHash blk -> bd_number pd = bd_number gd) ->
  exists gd', has_details (bc_db c') (cc_genesisHash cfg) gd' /\ bd_number gd' = bd_number gd.
Proof.
  intros Hb Hf (G1 & G2 & G3 & G4) [_ _ _ _ _ _ A7 _ _ _ A11 _ _] Hn.
  destruct (decide (cc_genesisHash cfg = vb_parentHash blk)) as [E|Hne]; [rewrite E; eexists; split; [exact A7|by apply Hn]|]. exists gd.
  assert (E : face_lookup (bc_db c') (extrasKey ExtraDetails (cc_genesisHash cfg)) = face_lookup b (extrasKey ExtraDetails (cc_genesisHash cfg))).
  { apply A11. intros [Ho|Ho]%own_details; [|done|done|apply Hb..]. rewrite Ho in G1. by apply G1, Hf. }
  split; [|done]. split; [by rewrite E|]. split; [|done]. rewrite <- G2. unfold stored. cbn [detailsTable tb_extra tb_null]. by rewrite E.
Qed.
Lemma added_chain_ok b blk rs l hs td full pd usage c' : block_fits sha3 blk rs l hs td full -> fresh b blk ->
  (exists gd, has_details b (cc_genesisHash cfg) gd) -> added b blk l hs td full pd usage c' -> chain_ok c'.
Proof.
  intros Hb Hf (gd & Hgd) Had. pose proof Had as [A1 A2 A3 [A4 A4'] A5 A6 A7 _ _ A10 A11 _ _]. split; try done.
  - destruct (decide (cc_genesisHash cfg = vb_parentHash blk)) as [->|Hne]; [by eexists|].
    destruct (added_genesis b blk rs l hs td full pd usage c' gd Hb Hf Hgd Had) as (gd' & ? & _); [done|by exists gd'].
  - exists usage. by apply usageOf_written.
  - unfold bestOf. rewrite (ho_best _ _ _ _ A5), A4.
    destruct (toBigEndian 32 (vb_hash blk)) eqn:E; [by apply (f_equal length) in E; rewrite toBigEndian_length in E|]. rewrite <- E.
    apply h256_ofBinary_word, Hb.
  - rewrite A4, A4'. split; [apply Hb|]. by exists (newDetails blk td).
Qed.

Lemma caches_drop c u i : caches_ok c -> usage_ok u -> caches_ok (st c (bc_db c) ∅ ∅ u i).
Proof. by intros [] Hu; split; try done; intros ? ? ?%lookup_empty_Some. Qed.
Definition withClock (now : Z) c : Chain B := if bc_clockLastDbRotation c =? 0 then c <| bc_clockLastDbRotation := now |> else c.
Lemma caches_withClock now c b dm bm u i : caches_ok (st c b dm bm u i) -> caches_ok (st (withClock now c) b dm bm u i).
Proof. unfold withClock. destruct (_ =? _); [by intros []|done]. Qed.
Lemma isRotate_st usage now c b dm bm u i : cs_piecesCount b = cs_piecesCount (bc_db c) -> isRotate cfg usage now (st c b dm bm u i) = isRotate cfg usage now c.
Proof. intros E. unfold isRotate. cbn [st bc_db bc_clockLastDbRotation]. by rewrite E. Qed.
Lemma prepare_ok c blk rs l hs td full pd : chain_ok c -> addable c blk rs l hs td full pd -> exists b1 dm bm u i,
  prepareDbDataAndReturnSize sha3 blk rs td full c = (Ok (blockSize blk rs l hs td pd), st c b1 dm bm u i) /\
  prepared sha3 (bc_db c) blk rs l hs td full pd b1 dm bm u.
Proof.
  intros [C1 C2 C3 _ _ _ _] [A1 A2 A3 A4 A5 A6]. 
  pose proof (prepare_st sha3 c blk rs l hs td full pd (bc_db c) (bc_details c) (bc_blocksBlooms c) (bc_cacheUsage c) (bc_inUse c) C1 A1 A3 A4 A5
    (co_details _ C3) (co_blocksBlooms _ C3) (co_usage _ C3) A6) as Hx. by rewrite <- st_id in Hx.
Qed.
Definition newUsage c (size : Z) : Z := wrap 64 (default 0 (usageOf (bc_db c)) + size).
Lemma insert_plain mu now c blk rs l hs td full pd : chain_ok c -> addable c blk rs l hs td full pd ->
  isRotate cfg (newUsage c (blockSize blk rs l hs td pd)) now c = false -> exists c',
  insertBlockAndExtras sha3 cfg mu now blk rs full td c = (Ok tt, c') /\
  added (bc_db c) blk l hs td full pd (newUsage c (blockSize blk rs l hs td pd)) c' /\ chain_ok c'.
Proof.
  intros Hc Ha Hr. destruct (prepare_ok c blk rs l hs td full pd Hc Ha) as (b1 & dm & bm & u & i & E1 & Hp).
  pose proof Hc as [C1 C2 C3 C4 (u0 & Hu0) _ _]. destruct Ha as [A1 A2 A3 A4 A5 A6]. pose proof (pr_grown _ _ _ _ _ _ _ _ _ _ _ _ _ Hp) as G.
  destruct (written_block mu (newUsage c (blockSize blk rs l hs td pd)) (withClock now c) (bc_db c) blk rs l hs td full pd b1 dm bm u i) as (c' & E4 & Had & _); try done.
  { apply caches_withClock, caches_drop; [done|]. apply (pr_usage _ _ _ _ _ _ _ _ _ _ _ _ _ Hp). }
  exists c'. split; [|split; [done|by eapply added_chain_ok]]. unfold insertBlockAndExtras. erewrite cbind_ok by exact E1.
  erewrite cbind_ok by (apply readUsage_is; [apply G|cbn [st bc_db]; unfold usageOf; rewrite (gr_lookup _ _ _ G); exact Hu0]).
  assert (Eu : wrap 64 (u0 + blockSize blk rs l hs td pd) = newUsage c (blockSize blk rs l hs td pd)) by (unfold newUsage; by rewrite Hu0).
  rewrite Eu. erewrite cbind_ok; [|unfold rotateDBIfNeeded; erewrite cbind_ok by reflexivity;
    rewrite isRotate_st by (by rewrite (gr_pieces _ _ _ G)); rewrite Hr; cbn [negb]; reflexivity].
  erewrite cbind_ok by reflexivity. rewrite <- E4. f_equal. unfold withClock. cbn [st bc_clockLastDbRotation]. by destruct (_ =? _).
Qed.
End Commit.
