(* ===== verification/BlockChainRotate.v ===== *)
(** * BlockChainRotate: inserting a block that makes the database rotate *)

From Stdlib Require Import ZArith Lia Bool.
From stdpp Require Import base list gmap.
From S2P Require Import Prelude CommonData Rlp RlpCodec ExtVMFace LogFilter BloomIndex LevelDb BatchedDb OverlayDb OverlayDbInv OverlayDbClaims RotatingDb ChainStore Receipt BlockChain BlockChainInv BlockChainInsert BlockChainCommit.
Open Scope Z_scope.
Open Scope chain_scope.

Section Rotate.
Context {B : Type} `{ChainStoreLaws B}.
Variables (sha3 : list Z -> Z) (cfg : ChainConfig).
Implicit Types (c : Chain B) (b : B).
Hypothesis genesis_hash : is_hash (cc_genesisHash cfg).

(** An entry that the oldest piece is not needed for: absent, or the same without that piece. *)
Definition keeps b (k : Slice) : Prop := cs_view 1 b k = face_lookup b k.
Lemma keeps_view b k : cs_valid b -> cs_view 1 b k <> [] -> keeps b k.
Proof. intros Hv Hk. pose proof (cs_view_mono 0 b k Hv Hk) as E. unfold keeps. rewrite cs_lookup_view; [done|done|by rewrite E]. Qed.
(** What the block needs after the oldest piece is gone. *)
Record survives c (blk : VerifiedBlock) : Prop := {
  sv_genesis : keeps (bc_db c) (extrasKey ExtraDetails (cc_genesisHash cfg));
  sv_parent : keeps (bc_db c) (extrasKey ExtraDetails (vb_parentHash blk));
  sv_chunk0 : keeps (bc_db c) (extrasKey ExtraBlocksBlooms (id0 (vb_number blk)));
  sv_chunk1 : keeps (bc_db c) (extrasKey ExtraBlocksBlooms (id1 (vb_number blk))) }.

Lemma rotate_keeps b : cs_valid b -> cs_idle b -> exists b', cs_rotate b = Some b' /\ cs_valid b' /\ cs_idle b' /\ cs_piecesCount b' = cs_piecesCount b /\
  (forall k, k <> current_piece_mark_key -> keeps b k -> face_lookup b' k = face_lookup b k) /\
  (forall k, k <> current_piece_mark_key -> face_lookup b k = [] -> face_lookup b' k = []) /\
  forall j k, k <> current_piece_mark_key -> cs_view j b' k = cs_view (S j) b k.
Proof.
  intros Hv Hi. destruct (cs_law_rotate b Hv Hi) as (b' & E & R1 & R2 & R3 & R4). exists b'. split_and!; try done.
  - intros k Hm Hk. destruct (R4 k Hm) as [R5 R6]. destruct (decide (face_lookup b k = [])) as [E0|E0]; [by rewrite E0, R6|].
    unfold keeps in Hk. rewrite <- Hk in E0 |- *. rewrite cs_lookup_view; [apply R5|done|]. by rewrite R5.
  - intros k Hm Hk. by apply R4.
  - intros j k Hm. by apply R4.
Qed.

Definition emptied c (now : Z) : Chain B :=
  mkChain (bc_db c) ∅ ∅ ∅ ∅ ∅ ∅ ∅ (replicate 20 ∅) ∅ (bc_lastBlockHash c) (bc_lastBlockNumber c) now.
(** Genesis as it is remembered: as the block leaves it, when it is the parent. *)
Definition genesisOf (blk : VerifiedBlock) (gd pd : BlockDetails) : BlockDetails :=
  if decide (cc_genesisHash cfg = vb_parentHash blk) then setChild (vb_hash blk) pd else gd.

Lemma beforeRotation_st now c b0 blk rs l hs td full pd b1 dm bm u i gd : cs_valid b0 -> prepared sha3 b0 blk rs l hs td full pd b1 dm bm u ->
  stored detailsTable b0 (cc_genesisHash cfg) = Ok gd -> exists b2,
  beforeRotation cfg now (st c b1 dm bm u i) = (Ok (genesisOf blk gd pd), st (emptied c now) b2 ∅ ∅ (replicate 20 ∅) ∅) /\
  b2 = face_revert b1 /\ cs_valid b2 /\ cs_idle b2 /\ cs_piecesCount b2 = cs_piecesCount b0 /\
  (forall k, face_lookup b2 k = face_lookup b0 k) /\ forall j k, cs_view j b2 k = cs_view j b0 k.
Proof.
  intros Hv [G Hu Hp Hd _ _ _] Hg. exists (face_revert b1). destruct (cs_law_revert b1 (gr_valid _ _ _ G)) as (R1 & R2 & R3 & R4 & R5).
  split; [|split; [done|split; [done|split; [done|split; [by rewrite R3, (gr_pieces _ _ _ G)|
    split; [intros k; by rewrite R4, (gr_lookup _ _ _ G)|intros j k; by rewrite R5, (gr_view _ _ _ G)]]]]]].
  destruct (query_ok detailsTable (cc_genesisHash cfg) (st (c <| bc_clockLastDbRotation := now |>) b1 dm bm u i) (genesisOf blk gd pd)) as (m & u' & i' & E & Hu' & _ & _).
  - intros y Hy. cbn in Hy. unfold genesisOf. case_decide as Eg; [rewrite Eg, Hp in Hy; congruence|].
    destruct (Hd _ _ Eg Hy) as (_ & _ & E). congruence.
  - done.
  - cbn. unfold genesisOf. case_decide as Eg; [by rewrite Eg, Hp|]. intros _. by rewrite (grown_stored _ _ _ _ _ G).
  - unfold beforeRotation. erewrite cbind_ok by reflexivity. erewrite cbind_ok by exact E. cbn. rewrite (proj1 Hu'). done.
Qed.

(** ** Genesis is written again *)

Abbreviation gkey := (extrasKey ExtraDetails (cc_genesisHash cfg)).
Definition fine_details (d : BlockDetails) : Prop := details_valid d /\ (length (bd_children d) <= 1)%nat.
Lemma stored_details b h d : fine_details d -> face_lookup b (extrasKey ExtraDetails h) = enc (detailsItem d) -> has_details b h d.
Proof.
  intros [Hv Hl] E. pose proof (details_size d Hv Hl) as Hok. pose proof (enc_cons _ Hok) as Hne. split; [by rewrite E|]. split; [|done].
  unfold stored. cbn [detailsTable tb_extra tb_null]. rewrite E. destruct (enc (detailsItem d)) eqn:Ee; [done|]. rewrite <- Ee in *.
  apply fromRLP_enc; [done|]. exact (codec_reads (H := BlockDetails_codec) d Hv Hok).
Qed.
Lemma reinsertGenesis_st d c b dm bm u i : fine_details d ->
  reinsertGenesis cfg d (st c b dm bm u i) = (Ok tt, st c (face_insert b gkey (enc (detailsItem d))) (<[cc_genesisHash cfg := d]> dm) bm u i).
Proof.
  intros [Hv Hl]. unfold reinsertGenesis. erewrite cbind_ok by (apply clift_ok; rewrite (details_rlp d Hv Hl); reflexivity). done.
Qed.
Lemma genesis_committed b d extra b3 : cs_idle b -> fine_details d -> gkey ∉ map op_key extra -> grown b (WPut gkey (enc (detailsItem d)) :: extra) b3 ->
  let b' := snd (face_commit true b3) in
  cs_valid b' /\ cs_idle b' /\ cs_piecesCount b' = cs_piecesCount b /\ has_details b' (cc_genesisHash cfg) d /\
  (forall j, (j < cs_piecesCount b)%nat -> cs_view j b' gkey <> []) /\
  forall k, k <> gkey -> k ∉ map op_key extra -> face_lookup b' k = face_lookup b k /\ forall j, cs_view j b' k = cs_view j b k.
Proof.
  intros Hi Hd He G. destruct (committed b _ b3 Hi G) as (C1 & C2 & C3 & C4 & C5). pose proof Hd as [Hv Hl].
  assert (Hne : enc (detailsItem d) <> []) by (by apply enc_cons, details_size).
  destruct (C5 gkey (enc (detailsItem d)) Hne) as [E1 E2].
  { rewrite (ops_effect_agree _ (WPut gkey (enc (detailsItem d))) gkey None); [done|apply elem_of_cons; by left|done|].
    intros w' [->|Hw]%elem_of_cons Hk; [done|]. destruct He. rewrite <- Hk. by apply list_elem_of_fmap_2. }
  cbn. split_and!; try done.
  - by apply stored_details.
  - intros j Hj. by rewrite E2.
  - intros k Hk1 Hk2. apply C4. cbn [map op_key]. by intros [->|?]%elem_of_cons.
Qed.
(** The database after a rotation, with genesis in the new piece. *)
Record rotated b (d : BlockDetails) b' : Prop := {
  ro_valid : cs_valid b';
  ro_idle : cs_idle b';
  ro_pieces : cs_piecesCount b' = cs_piecesCount b;
  ro_genesis : has_details b' (cc_genesisHash cfg) d;
  ro_recent j : (j < cs_piecesCount b)%nat -> cs_view j b' gkey <> [];
  ro_keeps k : k <> current_piece_mark_key -> k <> gkey -> keeps b k -> face_lookup b' k = face_lookup b k;
  ro_absent k : k <> current_piece_mark_key -> k <> gkey -> face_lookup b k = [] -> face_lookup b' k = [];
  ro_views j k : k <> current_piece_mark_key -> k <> gkey -> cs_view j b' k = cs_view (S j) b k }.
Lemma rotate_st b d c dm bm u i : cs_valid b -> cs_idle b -> fine_details d -> exists br b',
  cs_rotate b = Some br /\ (rotateDb ;;; reinsertGenesis cfg d) (st c b dm bm u i) = (Ok tt, st c (face_insert br gkey (enc (detailsItem d))) (<[cc_genesisHash cfg := d]> dm) bm u i) /\
  b' = snd (face_commit true (face_insert br gkey (enc (detailsItem d)))) /\ rotated b d b'.
Proof.
  intros Hv Hi Hd. destruct (rotate_keeps b Hv Hi) as (br & Er & R1 & R2 & R3 & R4 & R5 & R6).
  eexists br, _. split; [done|]. split; [|split; [reflexivity|]].
  - erewrite cbind_ok by (unfold rotateDb; cbn [st bc_db]; rewrite Er; reflexivity). by apply (reinsertGenesis_st d c br dm bm u i).
  - assert (G : grown br [WPut gkey (enc (detailsItem d))] (face_insert br gkey (enc (detailsItem d)))).
    { apply (grown_insert br []); [by apply grown_refl|auto with chain|]. destruct Hd. by apply enc_cons, details_size. }
    destruct (genesis_committed br d [] _ R2 Hd ltac:(apply not_elem_of_nil) G) as (C1 & C2 & C3 & C4 & C5 & C6).
    rewrite R3 in *. split; try done.
    + intros k Hm Hk Hkeep. destruct (C6 k Hk ltac:(apply not_elem_of_nil)) as [-> _]. by apply R4.
    + intros k Hm Hk Hab. destruct (C6 k Hk ltac:(apply not_elem_of_nil)) as [-> _]. by apply R5.
    + intros j k Hm Hk. destruct (C6 k Hk ltac:(apply not_elem_of_nil)) as [_ ->]. by apply R6.
Qed.
Lemma rotated_like b0 b d b' : cs_piecesCount b = cs_piecesCount b0 -> (forall k, face_lookup b k = face_lookup b0 k) -> (forall j k, cs_view j b k = cs_view j b0 k) ->
  rotated b d b' -> rotated b0 d b'.
Proof.
  intros Hp Hl Hw [R1 R2 R3 R4 R5 R6 R7 R8]. rewrite Hp in *. split; try done.
  - intros k Hm Hk. rewrite <- Hl. intros Hkeep. apply R6; [done|done|]. unfold keeps in *. by rewrite Hw, Hl.
  - intros k Hm Hk. rewrite <- Hl. by apply R7.
  - intros j k Hm Hk. rewrite <- Hw. by apply R8.
Qed.
Lemma rotated_revert b d b' : rotated b d b' -> rotated b d (face_revert b').
Proof.
  intros [R1 R2 R3 R4 R5 R6 R7 R8]. destruct (cs_law_revert b' R1) as (V1 & V2 & V3 & V4 & V5). split; try done.
  - by rewrite V3.
  - destruct R4 as (G1 & G2 & G3 & G4). split; [by rewrite V4|]. split; [|done]. rewrite <- G2. unfold stored. by rewrite V4.
  - intros j Hj. rewrite V5. by apply R5.
  - intros k Hm Hk Hkeep. rewrite V4. by apply R6.
  - intros k Hm Hk Hab. rewrite V4. by apply R7.
  - intros j k Hm Hk. rewrite V5. by apply R8.
Qed.

(** ** The block is prepared again *)

Definition parentOf (blk : VerifiedBlock) (pd : BlockDetails) : BlockDetails :=
  if decide (cc_genesisHash cfg = vb_parentHash blk) then setChild (vb_hash blk) pd else pd.
Lemma setChild_parentOf blk pd : setChild (vb_hash blk) (parentOf blk pd) = setChild (vb_hash blk) pd.
Proof. unfold parentOf. by case_decide. Qed.
Lemma kept_stored {T} (t : Table T (B := B)) b d b' k : rotated b d b' -> extrasKey (tb_extra _ t) k <> gkey -> keeps b (extrasKey (tb_extra _ t) k) ->
  stored t b' k = stored t b k.
Proof. intros R Hk Hkeep. unfold stored. by rewrite (ro_keeps _ _ _ R) by auto with chain. Qed.
Lemma rotated_addable c blk rs l hs td full pd gd b : addable sha3 c blk rs l hs td full pd -> survives c blk -> has_details (bc_db c) (cc_genesisHash cfg) gd ->
  rotated (bc_db c) (genesisOf blk gd pd) b ->
  fresh b blk /\ stored detailsTable b (vb_parentHash blk) = Ok (parentOf blk pd) /\ details_valid (parentOf blk pd) /\
  chunks_stored b (vb_number blk) /\ (forall id, id = id0 (vb_number blk) \/ id = id1 (vb_number blk) -> storedChunk b id = storedChunk (bc_db c) id) /\
  blockSize blk rs l hs td (parentOf blk pd) = blockSize blk rs l hs td pd.
Proof.
  intros [A1 A2 A3 A4 A5 A6] [S1 S2 S3 S4] (G1 & G2 & G3 & G4) R.
  assert (Hck : forall id, id = id0 (vb_number blk) \/ id = id1 (vb_number blk) -> stored blocksBloomsTable b id = stored blocksBloomsTable (bc_db c) id).
  { intros id Hid. apply (kept_stored blocksBloomsTable _ _ _ _ R); [by intros E%extrasKey_kind|by destruct Hid as [->| ->]]. }
  assert (Hab : forall k, k <> current_piece_mark_key -> face_lookup (bc_db c) k = [] -> face_lookup b k = []).
  { intros k Hm Hk. apply (ro_absent _ _ _ R k Hm); [|done]. intros ->. done. }
  split_and!.
  - destruct A2 as [F1 F2 F3 F4 F5]. split; apply Hab; auto with chain.
  - unfold parentOf. case_decide as Eg.
    + rewrite <- Eg. destruct (ro_genesis _ _ _ R) as (_ & E & _). rewrite E. unfold genesisOf. by rewrite decide_True.
    + rewrite <- A3. apply (kept_stored detailsTable _ _ _ _ R); [|done]. intros E%extrasKey_inj; [by destruct Eg|done|apply A1|done].
  - unfold parentOf. case_decide; [|done]. by eapply setChild_valid.
  - intros id Hid. rewrite (Hck id Hid). by apply A5.
  - intros id Hid. unfold storedChunk. by rewrite (Hck id Hid).
  - unfold blockSize. by rewrite setChild_parentOf.
Qed.
Lemma genesisOf_fine blk rs l hs td full gd pd : block_fits sha3 blk rs l hs td full -> details_valid pd -> fine_details gd -> fine_details (genesisOf blk gd pd).
Proof. intros Hb Hp Hg. unfold genesisOf. case_decide; [|done]. split; [by eapply setChild_valid|cbn; lia]. Qed.
Lemma caches_emptied c now b d u i : usage_ok u -> has_details b (cc_genesisHash cfg) d ->
  caches_ok (st (emptied c now) b {[cc_genesisHash cfg := d]} ∅ u i).
Proof.
  intros Hu (D1 & D2 & _). split; try done; intros h x Hx; try (by apply lookup_empty_Some in Hx).
  cbn in Hx. apply lookup_singleton_Some in Hx as [<- <-]. by split.
Qed.

(** The states that an insertion with a rotation goes through: [rg_b1] has the batch that is dropped, [rg_b3] the new piece with genesis in the
    batch, [rg_b5] is the database over which the block is prepared again, and [rg_b6] has the block in the batch. *)
Record stages (mu : bool) (now : Z) c (blk : VerifiedBlock) (rs : list Z) (l : list TransactionReceipt) (hs : list Z) (td : Z) (full : option LogBloom) (pd : BlockDetails) := mkStages {
  rg_b1 : B; rg_b2 : B; rg_br : B; rg_b5 : B; rg_b6 : B; rg_end : Chain B; rg_d : BlockDetails;
  rg_mid1 : Chain B; rg_mid2 : Chain B;
  rg_prepare : prepareDbDataAndReturnSize sha3 blk rs td full c = (Ok (blockSize blk rs l hs td pd), rg_mid1) /\ bc_db rg_mid1 = rg_b1 /\ bc_clockLastDbRotation rg_mid1 = bc_clockLastDbRotation c;
  rg_pending : exists ops, grown (bc_db c) ops rg_b1;
  rg_forget : beforeRotation cfg now rg_mid1 = (Ok rg_d, st (emptied c now) rg_b2 ∅ ∅ (replicate 20 ∅) ∅) /\
    beforeRotation cfg now (withClock now rg_mid1) = (Ok rg_d, st (emptied c now) rg_b2 ∅ ∅ (replicate 20 ∅) ∅);
  rg_fine : fine_details rg_d /\ forall gd, stored detailsTable (bc_db c) (cc_genesisHash cfg) = Ok gd -> bd_number rg_d = bd_number gd;
  rg_idle : cs_valid rg_b2 /\ cs_idle rg_b2 /\ cs_piecesCount rg_b2 = cs_piecesCount (bc_db c) /\
    (forall k, face_lookup rg_b2 k = face_lookup (bc_db c) k) /\ forall j k, cs_view j rg_b2 k = cs_view j (bc_db c) k;
  rg_rotate : cs_rotate rg_b2 = Some rg_br /\
    (rotateDb ;;; reinsertGenesis cfg rg_d) (st (emptied c now) rg_b2 ∅ ∅ (replicate 20 ∅) ∅) =
    (Ok tt, st (emptied c now) (face_insert rg_br gkey (enc (detailsItem rg_d))) {[cc_genesisHash cfg := rg_d]} ∅ (replicate 20 ∅) ∅);
  rg_genesis : rg_b5 = face_revert (snd (face_commit true (face_insert rg_br gkey (enc (detailsItem rg_d))))) /\ rotated (bc_db c) rg_d rg_b5;
  rg_again : prepareDbDataAndReturnSize sha3 blk rs td full (st (emptied c now) rg_b5 {[cc_genesisHash cfg := rg_d]} ∅ (replicate 20 ∅) ∅) =
    (Ok (blockSize blk rs l hs td pd), rg_mid2) /\ bc_db rg_mid2 = rg_b6;
  rg_pending2 : exists ops, grown rg_b5 ops rg_b6;
  rg_written : writeTip mu blk (blockSize blk rs l hs td pd) rg_mid2 = (Ok tt, rg_end);
  rg_added : added sha3 rg_b5 blk l hs td full pd (blockSize blk rs l hs td pd) rg_end /\ chain_ok cfg rg_end }.
Lemma added_parentOf b blk l hs td full pd usage c' : added sha3 b blk l hs td full (parentOf blk pd) usage c' -> added sha3 b blk l hs td full pd usage c'.
Proof. intros []. rewrite setChild_parentOf in *. by split. Qed.
Lemma has_stages mu now c blk rs l hs td full pd : chain_ok cfg c -> addable sha3 c blk rs l hs td full pd -> survives c blk ->
  inhabited (stages mu now c blk rs l hs td full pd).
Proof.
  intros Hc Ha Hs. destruct (prepare_ok sha3 cfg c blk rs l hs td full pd Hc Ha) as (b1 & dm & bm & u & i & E1 & Hp).
  pose proof Hc as [C1 C2 C3 (gd & Hg) _ _ _]. pose proof Ha as [A1 A2 A3 A4 A5 A6].
  destruct (beforeRotation_st now c (bc_db c) blk rs l hs td full pd b1 dm bm u i gd C1 Hp (proj1 (proj2 Hg))) as (b2 & E2 & -> & V1 & V2 & V3 & V4 & V5).
  destruct (beforeRotation_st now (withClock now c) (bc_db c) blk rs l hs td full pd b1 dm bm u i gd C1 Hp (proj1 (proj2 Hg))) as (b2' & E2' & -> & _).
  set (b2 := face_revert b1) in *.
  assert (Hd : fine_details (genesisOf blk gd pd)) by (eapply genesisOf_fine; [exact A1|done|split; apply Hg]).
  destruct (rotate_st b2 (genesisOf blk gd pd) (emptied c now) ∅ ∅ (replicate 20 ∅) ∅ V1 V2 Hd) as (br & b4 & Er & E3 & Eb4 & R).
  pose proof (rotated_revert _ _ _ (rotated_like _ _ _ _ V3 V4 V5 R)) as R5. set (b5 := face_revert b4) in *.
  destruct (rotated_addable c blk rs l hs td full pd gd b5 Ha Hs Hg R5) as (F1 & F2 & F3 & F4 & F5 & F6).
  destruct (prepare_st sha3 (emptied c now) blk rs l hs td full (parentOf blk pd) b5 {[cc_genesisHash cfg := genesisOf blk gd pd]} ∅ (replicate 20 ∅) ∅)
    as (b6 & dm' & bm' & u' & i' & E5 & Hp'); try done; [apply R5|apply (caches_emptied c now b5 (genesisOf blk gd pd) (replicate 20 ∅) ∅ no_usage (ro_genesis _ _ _ R5))|
      apply no_usage|by rewrite F6|].
  destruct (written_block sha3 mu (blockSize blk rs l hs td pd) (emptied c now) b5 blk rs l hs td full (parentOf blk pd) b6 dm' bm' u' i') as (c' & E6 & Had & _); try done.
  { apply R5. } { apply R5. } { split; try done; [apply (pr_usage _ _ _ _ _ _ _ _ _ _ _ _ _ Hp')]. }
  pose proof (added_chain_ok sha3 cfg genesis_hash b5 blk rs l hs td full _ _ c' A1 F1 (ex_intro _ _ (ro_genesis _ _ _ R5)) Had) as Hok.
  split. refine (mkStages _ _ _ _ _ _ _ _ _ _ b1 b2 br b5 b6 c' (genesisOf blk gd pd) (st c b1 dm bm u i) (st (emptied c now) b6 dm' bm' u' i') _ _ _ _ _ _ _ _ _ _ _); try done.
  - by eexists; apply Hp.
  - split; [done|]. unfold withClock in E2' |- *. cbn [st bc_clockLastDbRotation]. by destruct (_ =? _).
  - split; [done|]. intros gd' Eg. destruct Hg as (_ & Eg' & _). assert (gd' = gd) as -> by congruence. unfold genesisOf. case_decide as E; [|done].
    rewrite <- E, Eg' in A3. injection A3 as <-. done.
  - by subst b4.
  - by rewrite <- F6.
  - by eexists; apply Hp'.
  - split; [by apply added_parentOf|done].
Qed.
Lemma insert_rotating mu now c blk rs l hs td full pd (s : stages mu now c blk rs l hs td full pd) : chain_ok cfg c ->
  isRotate cfg (newUsage c (blockSize blk rs l hs td pd)) now c = true -> insertBlockAndExtras sha3 cfg mu now blk rs full td c = (Ok tt, rg_end _ _ _ _ _ _ _ _ _ _ s).
Proof.
  intros Hc Hr. destruct s as [b1 b2 br b5 b6 c' d m1 m2 (E1 & Em & Ek) (ops & G) [E2 E2'] Hd V [Er E3] [Eb R] [E5 Em2] X1 E6 X2]. cbn [rg_end].
  destruct (ch_usage _ _ Hc) as (u0 & Hu0). unfold insertBlockAndExtras. erewrite cbind_ok by exact E1.
  erewrite cbind_ok by (apply readUsage_is; rewrite Em; [apply G|unfold usageOf; rewrite (gr_lookup _ _ _ G); exact Hu0]).
  assert (Eu : wrap 64 (u0 + blockSize blk rs l hs td pd) = newUsage c (blockSize blk rs l hs td pd)) by (unfold newUsage; by rewrite Hu0).
  rewrite Eu. erewrite cbind_ok.
  2:{ unfold rotateDBIfNeeded. erewrite cbind_ok by reflexivity. erewrite cbind_ok by reflexivity.
      assert (isRotate cfg (newUsage c (blockSize blk rs l hs td pd)) now m1 = true) as -> by (rewrite <- Hr; unfold isRotate; by rewrite Em, (gr_pieces _ _ _ G), Ek).
      cbn [negb]. change (cbind ?m ?k _) with (cbind m k (withClock now m1)). erewrite cbind_ok by exact E2'.
      unfold cbind at 1 in E3. unfold cbind at 1. cbn [rotateDb st bc_db] in E3 |- *. unfold rotateDb in E3 |- *. cbn [st bc_db] in *. rewrite Er in *.
      erewrite cbind_ok by exact E3. reflexivity. }
  rewrite Eb in E5. erewrite cbind_ok by (erewrite cbind_ok by reflexivity; exact E5). exact E6.
Qed.
End Rotate.
