(* ===== verification/BlockChainOpen.v ===== *)
(** * BlockChainOpen: opening the chain, and stopping the program while a block is inserted *)

From Stdlib Require Import ZArith Lia Bool.
From stdpp Require Import base list gmap.
From S2P Require Import Prelude CommonData Rlp RlpCodec ExtVMFace LogFilter BloomIndex LevelDb BatchedDb OverlayDb OverlayDbInv OverlayDbClaims RotatingDb ChainStore Receipt BlockChain BlockChainInv BlockChainInsert BlockChainCommit BlockChainRotate.
Open Scope Z_scope.
Open Scope chain_scope.

Section Open.
Context {B : Type} `{ChainStoreLaws B}.
Variables (sha3 : list Z -> Z) (cfg : ChainConfig).
Implicit Types (c : Chain B) (b : B).
Hypothesis genesis_hash : is_hash (cc_genesisHash cfg).
Abbreviation gkey := (extrasKey ExtraDetails (cc_genesisHash cfg)).

(** A database that a chain can be opened from, with the last block [h]. *)
Record openable b (gd : BlockDetails) (h : Z) (d : BlockDetails) : Prop := {
  op_valid : cs_valid b;
  op_idle : cs_idle b;
  op_genesis : has_details b (cc_genesisHash cfg) gd;
  op_best : bestOf cfg b = h;
  op_hash : is_hash h;
  op_details : has_details b h d;
  op_usage : exists u, usageOf b = Some u }.
Lemma has_details_same b b' h d : face_lookup b' (extrasKey ExtraDetails h) = face_lookup b (extrasKey ExtraDetails h) -> has_details b h d -> has_details b' h d.
Proof. intros E (D1 & D2 & D3). split; [by rewrite E|]. split; [|done]. rewrite <- D2. unfold stored. cbn [detailsTable tb_extra tb_null]. by rewrite E. Qed.
Lemma caches_new now b b0 dm u i : fits detailsTable b dm -> usage_ok u -> caches_ok (st (newChain cfg now b0) b dm ∅ u i).
Proof. intros Hd Hu. split; try done; by intros ? ? ?%lookup_empty_Some. Qed.
Lemma setTip c b dm bm u i h : (st c b dm bm u i) <| bc_lastBlockHash := h |> = st (c <| bc_lastBlockHash := h |>) b dm bm u i.
Proof. done. Qed.

(** The last step: the last block is read. *)
Definition readTip : CM unit (B := B) :=
  let@ l := cget (fun c => face_lookup (bc_db c) bestKey) in
  let best := match l with [] => cc_genesisHash cfg | _ => h256_ofBinary l end in
  cmodify (fun c => c <| bc_lastBlockHash := best |>) ;;;
  let@ n := blockNumber best in
  cmodify (fun c => c <| bc_lastBlockNumber := n |>).
Lemma readTip_st now b0 b gd h d dm u i : openable b gd h d -> fits detailsTable b dm -> usage_ok u -> exists c',
  readTip (st (newChain cfg now b0) b dm ∅ u i) = (Ok tt, c') /\ chain_ok cfg c' /\ bc_db c' = b /\ bc_lastBlockHash c' = h /\ bc_lastBlockNumber c' = bd_number d.
Proof.
  intros [O1 O2 O3 O4 O5 O6 O7] Hd Hu. unfold readTip. erewrite cbind_ok by reflexivity. cbn [st bc_db].
  assert (match face_lookup b bestKey with [] => cc_genesisHash cfg | _ => h256_ofBinary (face_lookup b bestKey) end = h) as ->
    by (rewrite <- O4; unfold bestOf; by destruct (face_lookup b bestKey)).
  erewrite cbind_ok by reflexivity. unfold blockNumber.
  destruct (details_st h ((newChain cfg now b0) <| bc_lastBlockHash := h |>) b dm ∅ u i d O5 Hd Hu (proj1 (proj2 O6))) as (dm' & u' & i' & E & Hu' & Hd' & _).
  erewrite cbind_ok by (erewrite cbind_ok by exact E; reflexivity). eexists. split; [reflexivity|]. split; [|done].
  split; cbn [st bc_db bc_lastBlockHash bc_lastBlockNumber]; try done.
  - by exists gd.
  - split; [done|]. by exists d.
Qed.
(** Opening, after genesis is there: a piece without a count is completed, and the last block is read. *)
Definition openTail : CM unit (B := B) :=
  let@ c := cget id in
  (if (0 <? cc_dbStorageLimit cfg) && negb (cs_currentExists (bc_db c) pieceUsageKey) then
     let@ d' := details (cc_genesisHash cfg) in
     reinsertGenesis cfg d' ;;;
     cmodify (fun c => c <| bc_db := face_insert (bc_db c) pieceUsageKey (to_string 0) |>) ;;; commitDb
   else cret tt) ;;; readTip.
Definition firstDetails : BlockDetails := mkDetails 0 (cc_genesisDifficulty cfg) 0 [] (lenZ (cc_genesisBlock cfg)).
Lemma openChain_parts c0 : openChain cfg c0 =
  (let@ d := details (cc_genesisHash cfg) in (if details_isNull d then reinsertGenesis cfg firstDetails ;;; commitDb else cret tt) ;;; openTail) c0.
Proof. done. Qed.
(** A piece without a count of its use gets genesis and the count: nothing else changes. *)
Lemma fixed_openable b gd h d : openable b gd h d ->
  let b' := snd (face_commit true (face_insert (face_insert b gkey (enc (detailsItem gd))) pieceUsageKey (to_string 0))) in
  openable b' gd h d /\ cs_piecesCount b' = cs_piecesCount b /\ (forall j, (j < cs_piecesCount b)%nat -> cs_view j b' gkey <> []) /\
  forall k, k <> gkey -> k <> pieceUsageKey -> face_lookup b' k = face_lookup b k /\ forall j, cs_view j b' k = cs_view j b k.
Proof.
  intros [O1 O2 O3 O4 O5 O6 (u & O7)]. assert (Hf : fine_details gd) by (split; apply O3).
  assert (Hne : enc (detailsItem gd) <> []) by (destruct Hf; by apply enc_cons, details_size).
  assert (G : grown b [WPut gkey (enc (detailsItem gd)); WPut pieceUsageKey (to_string 0)] (face_insert (face_insert b gkey (enc (detailsItem gd))) pieceUsageKey (to_string 0))).
  { apply (grown_insert b [WPut gkey (enc (detailsItem gd))]); [|auto with chain|apply to_string_nonempty].
    apply (grown_insert b []); [by apply grown_refl|auto with chain|done]. }
  destruct (genesis_committed cfg b gd [WPut pieceUsageKey (to_string 0)] _ O2 Hf ltac:(cbn; by intros [=]%list_elem_of_singleton) G) as (C1 & C2 & C3 & C4 & C5 & C6).
  assert (Hoth : forall k, k <> gkey -> k <> pieceUsageKey -> face_lookup (snd (face_commit true (face_insert (face_insert b gkey (enc (detailsItem gd))) pieceUsageKey (to_string 0)))) k =
    face_lookup b k) by (intros k H1 H2; apply C6; [done|cbn; by intros ?%list_elem_of_singleton]).
  split; [|split; [done|split; [done|intros k H1 H2; apply C6; [done|cbn; by intros ?%list_elem_of_singleton]]]]. split; try done.
  - unfold bestOf. rewrite Hoth; [done| |done]. intros E. symmetry in E. by apply extras_best in E.
  - destruct (decide (h = cc_genesisHash cfg)) as [Eh|Hne'].
    + rewrite Eh in *. destruct O3 as (_ & S1 & _). pose proof O6 as (_ & S2 & _). assert (d = gd) as -> by congruence. done.
    + eapply has_details_same; [|exact O6]. apply Hoth; [by intros E%extrasKey_inj|by intros E%extras_usage].
  - exists 0. destruct (committed b _ _ O2 G) as (_ & _ & _ & _ & C).
    destruct (C pieceUsageKey (to_string 0) (to_string_nonempty 0)) as [E _]; [reflexivity|]. unfold usageOf. rewrite E. by vm_compute.
Qed.
(** What opening gives: the chain with that last block; only genesis and the count of use may be written. *)
Record opened_as b (gd : BlockDetails) (h n : Z) c' : Prop := {
  od_ok : chain_ok cfg c';
  od_tip : bc_lastBlockHash c' = h /\ bc_lastBlockNumber c' = n;
  od_genesis : has_details (bc_db c') (cc_genesisHash cfg) gd;
  od_pieces : cs_piecesCount (bc_db c') = cs_piecesCount b;
  od_recent j : (j < cs_piecesCount b)%nat -> cs_view j b gkey <> [] -> cs_view j (bc_db c') gkey <> [];
  od_other k : k <> gkey -> k <> pieceUsageKey -> face_lookup (bc_db c') k = face_lookup b k /\ forall j, cs_view j (bc_db c') k = cs_view j b k }.
Lemma openTail_st now b0 b gd h d dm u i : openable b gd h d -> fits detailsTable b dm -> usage_ok u -> exists c',
  openTail (st (newChain cfg now b0) b dm ∅ u i) = (Ok tt, c') /\ opened_as b gd h (bd_number d) c'.
Proof.
  intros Ho Hd Hu. pose proof Ho as [O1 O2 O3 O4 O5 O6 O7]. unfold openTail. erewrite cbind_ok by reflexivity. cbn [id st bc_db].
  destruct ((0 <? cc_dbStorageLimit cfg) && negb (cs_currentExists b pieceUsageKey)).
  - destruct (fixed_openable b gd h d Ho) as (Ho' & Hp & Hw & Hoth). set (b' := snd (face_commit true _)) in *.
    destruct (details_st (cc_genesisHash cfg) (newChain cfg now b0) b dm ∅ u i gd genesis_hash Hd Hu (proj1 (proj2 O3))) as (dm2 & u2 & i2 & E2 & Hu2 & Hd2 & _).
    destruct (readTip_st now b0 b' gd h d (<[cc_genesisHash cfg := gd]> dm2) u2 i2 Ho') as (c' & E3 & Hok & Edb & Et & En).
    + intros h' x [[<- <-]|[Hne Hx]]%lookup_insert_Some; [split; [done|split; apply Ho']|]. destruct (Hd2 h' x Hx) as (X1 & X2 & X3). split; [done|].
      assert (El : face_lookup b' (extrasKey ExtraDetails h') = face_lookup b (extrasKey ExtraDetails h')) by (apply Hoth; [by intros E%extrasKey_inj|by intros E%extras_usage]).
      unfold stored in *. cbn [detailsTable tb_extra tb_null] in *. by rewrite El.
    + done.
    + exists c'. split.
      * erewrite cbind_ok; [exact E3|]. erewrite cbind_ok by exact E2.
        erewrite cbind_ok by (apply (reinsertGenesis_st cfg gd (newChain cfg now b0) b dm2 ∅ u2 i2); split; apply O3). done.
      * split; rewrite ?Edb; try done; [apply Ho'|intros j Hj _; by apply Hw].
  - destruct (readTip_st now b0 b gd h d dm u i Ho Hd Hu) as (c' & E3 & Hok & Edb & Et & En).
    exists c'. split; [by erewrite cbind_ok by reflexivity|]. split; rewrite ?Edb; done.
Qed.
Lemma open_existing now b gd h d : openable b gd h d -> details_isNull gd = false -> exists c',
  openChain cfg (newChain cfg now b) = (Ok tt, c') /\ opened_as b gd h (bd_number d) c'.
Proof.
  intros Ho Hnull. destruct (details_st (cc_genesisHash cfg) (newChain cfg now b) b ∅ ∅ (replicate 20 ∅) ∅ gd genesis_hash) as (dm & u & i & E1 & Hu & Hd & _);
    [by intros ? ? ?%lookup_empty_Some|apply no_usage|apply Ho|]. rewrite openChain_parts.
  change (newChain cfg now b) with (st (newChain cfg now b) b ∅ ∅ (replicate 20 ∅) ∅) at 1.
  erewrite cbind_ok by exact E1. rewrite Hnull. erewrite cbind_ok by reflexivity. by apply openTail_st.
Qed.
(** The first start: genesis is written, and it is the last block. *)
Lemma open_fresh now b : cs_valid b -> cs_idle b -> (forall k, k <> current_piece_mark_key -> face_lookup b k = []) -> fine_details firstDetails -> exists b1 c',
  openChain cfg (newChain cfg now b) = (Ok tt, c') /\ opened_as b1 firstDetails (cc_genesisHash cfg) 0 c' /\ cs_piecesCount b1 = cs_piecesCount b /\
  (forall j, (j < cs_piecesCount b)%nat -> cs_view j b1 gkey <> []) /\ forall k, k <> gkey -> face_lookup b1 k = face_lookup b k /\ forall j, cs_view j b1 k = cs_view j b k.
Proof.
  intros Hv Hi Hall Hf. assert (Hn : stored detailsTable b (cc_genesisHash cfg) = Ok NullBlockDetails) by (unfold stored; by rewrite Hall by auto with chain).
  destruct (details_st (cc_genesisHash cfg) (newChain cfg now b) b ∅ ∅ (replicate 20 ∅) ∅ NullBlockDetails genesis_hash) as (dm & u & i & E1 & Hu & Hd & _);
    [by intros ? ? ?%lookup_empty_Some|apply no_usage|exact Hn|].
  assert (G : grown b ([] ++ [WPut gkey (enc (detailsItem firstDetails))]) (face_insert b gkey (enc (detailsItem firstDetails)))).
  { apply grown_insert; [by apply grown_refl|auto with chain|]. destruct Hf. by apply enc_cons, details_size. }
  destruct (genesis_committed cfg b firstDetails [] _ Hi Hf ltac:(apply not_elem_of_nil) G) as (C1 & C2 & C3 & C4 & C5 & C6).
  set (b1 := snd (face_commit true _)) in *.
  assert (Hoth : forall k, k <> gkey -> face_lookup b1 k = face_lookup b k /\ forall j, cs_view j b1 k = cs_view j b k) by (intros k Hk; apply C6; [done|apply not_elem_of_nil]).
  assert (Ho : openable b1 firstDetails (cc_genesisHash cfg) firstDetails).
  { split; try done.
    - unfold bestOf. destruct (Hoth bestKey) as [-> _]; [intros E; symmetry in E; by apply extras_best in E|]. by rewrite Hall by auto with chain.
    - exists 0. unfold usageOf. destruct (Hoth pieceUsageKey) as [-> _]; [intros E; symmetry in E; by apply extras_usage in E|]. by rewrite Hall by auto with chain. }
  destruct (openTail_st now b b1 firstDetails (cc_genesisHash cfg) firstDetails (<[cc_genesisHash cfg := firstDetails]> dm) u i Ho) as (c' & E2 & Had); [|done|].
  - intros h' x [[<- <-]|[Hne Hx]]%lookup_insert_Some; [split; [done|split; apply C4]|].
    destruct (Hd h' x Hx) as (_ & X2 & _). destruct X2. apply Hall. auto with chain.
  - exists b1, c'. split; [|done]. rewrite openChain_parts. change (newChain cfg now b) with (st (newChain cfg now b) b ∅ ∅ (replicate 20 ∅) ∅) at 1.
    erewrite cbind_ok by exact E1. change (details_isNull NullBlockDetails) with true.
    erewrite cbind_ok; [exact E2|]. erewrite cbind_ok by exact (reinsertGenesis_st cfg firstDetails (newChain cfg now b) b dm ∅ u i Hf). done.
Qed.

(** ** Stopping while a block is inserted *)

(** The moments between which the files do not change: a batch that is not committed leaves nothing, so that only the steps of a
    rotation and the two commits count. *)
Inductive StopPoint := BeforeCommit | DuringRotation (steps : nat) | BeforeGenesis | BeforeLastCommit | AfterCommit.
#[export] Instance StopPoint_eq_dec : EqDecision StopPoint.
Proof. solve_decision. Defined.
(** The database that the program finds when it starts again. *)
Definition stopAt (p : StopPoint) (mu : bool) (now : Z) (blk : VerifiedBlock) (rs : list Z) (full : option LogBloom) (td : Z) c : B :=
  let prep := prepareDbDataAndReturnSize sha3 blk rs td full in
  match p with
  | BeforeCommit => cs_restart (bc_db (snd (prep c)))
  | DuringRotation k => cs_restartRotating k (bc_db (snd ((prep ;;; beforeRotation cfg now) c)))
  | BeforeGenesis => cs_restart (bc_db (snd ((prep ;;; let@ d := beforeRotation cfg now in (rotateDb ;;; reinsertGenesis cfg d)) c)))
  | BeforeLastCommit =>
      cs_restart (bc_db (snd ((prep ;;; let@ d := beforeRotation cfg now in ((rotateDb ;;; reinsertGenesis cfg d) ;;; commitDb ;;; revertDb ;;; prep)) c)))
  | AfterCommit => cs_restart (bc_db (snd (insertBlockAndExtras sha3 cfg mu now blk rs full td c)))
  end.

Lemma openable_after c gd d b' : chain_ok cfg c -> has_details (bc_db c) (cc_genesisHash cfg) gd -> cs_valid b' -> cs_idle b' ->
  has_details b' (cc_genesisHash cfg) d -> bd_number d = bd_number gd ->
  (forall k, k = bestKey \/ k = pieceUsageKey \/ k = extrasKey ExtraDetails (bc_lastBlockHash c) /\ bc_lastBlockHash c <> cc_genesisHash cfg ->
    face_lookup b' k = face_lookup (bc_db c) k) ->
  exists d', openable b' d (bc_lastBlockHash c) d' /\ bd_number d' = bc_lastBlockNumber c.
Proof.
  intros [C1 C2 C3 _ (u & C5) C6 (C7 & td & C8 & C9)] Hg Hv Hi Hd Hn Hk.
  destruct (decide (bc_lastBlockHash c = cc_genesisHash cfg)) as [E|Hne].
  - exists d. split; [|]. 2:{ rewrite E in C8. destruct C8 as (_ & S1 & _), Hg as (_ & S2 & _). assert (td = gd) as -> by congruence. congruence. }
    split; try done; [|by rewrite E|].
    + rewrite <- C6. unfold bestOf. by rewrite Hk by tauto.
    + exists u. unfold usageOf in *. by rewrite Hk by tauto.
  - exists td. split; [|done]. split; try done.
    + rewrite <- C6. unfold bestOf. by rewrite Hk by tauto.
    + eapply has_details_same; [|exact C8]. apply Hk. tauto.
    + exists u. unfold usageOf in *. by rewrite Hk by tauto.
Qed.
(** What has to be outside the oldest piece for a stop during a rotation: the name of the last block, the count, and the details of the last block. *)
Record recent c : Prop := {
  rc_best : cs_view 1 (bc_db c) bestKey <> [];
  rc_usage : cs_view 1 (bc_db c) pieceUsageKey <> [];
  rc_genesis : cs_view 1 (bc_db c) gkey <> [];
  rc_tip : cs_view 1 (bc_db c) (extrasKey ExtraDetails (bc_lastBlockHash c)) <> [] }.
(** A database that has everything of [b] that is not in its oldest piece only. *)
Record remains b b' : Prop := {
  rm_valid : cs_valid b';
  rm_idle : cs_idle b';
  rm_pieces : cs_piecesCount b' = cs_piecesCount b;
  rm_views j k : k <> current_piece_mark_key -> k <> gkey -> cs_view (S j) b k <> [] -> cs_view j b' k = cs_view (S j) b k }.
Lemma remains_lookup b b' k : cs_valid b -> remains b b' -> k <> current_piece_mark_key -> k <> gkey -> cs_view 1 b k <> [] -> face_lookup b' k = face_lookup b k.
Proof.
  intros Hv [R1 _ _ R4] Hm Hk Hne. rewrite <- (keeps_view b k Hv Hne), <- (R4 0%nat k Hm Hk Hne). apply cs_lookup_view; [done|]. by rewrite R4.
Qed.
Lemma remains_restart b b' : remains b b' -> remains b (cs_restart b').
Proof.
  intros [R1 R2 R3 R4]. destruct (cs_law_restart b' R1) as (S1 & S2 & S3 & S4). split; [done|done|by rewrite S3|].
  intros j k Hm Hk Hne. destruct (S4 k Hm) as [_ ->]. by apply R4.
Qed.
Lemma remains_rotated b d b' : rotated cfg b d b' -> remains b b'.
Proof. intros [R1 R2 R3 _ _ _ _ R8]. split; try done. intros j k Hm Hk _. by apply R8. Qed.
Lemma restart_details b h d : cs_valid b -> has_details b h d -> has_details (cs_restart b) h d.
Proof. intros Hv. apply has_details_same. by apply cs_law_restart, extrasKey_not_mark. Qed.
Lemma grown_restart b ops b' : cs_valid b -> cs_idle b -> grown b ops b' ->
  let r := cs_restart b' in cs_valid r /\ cs_idle r /\ cs_piecesCount r = cs_piecesCount b /\
  forall k, k <> current_piece_mark_key -> face_lookup r k = face_lookup b k /\ forall j, cs_view j r k = cs_view j b k.
Proof.
  intros Hv Hi [G1 G2 G3 G4 G5 G6]. destruct (cs_law_restart b' G1) as (S1 & S2 & S3 & S4). cbn. split_and!; [done|done|by rewrite S3|].
  intros k Hm. destruct (S4 k Hm) as [-> Hw]. split; [done|]. intros j. by rewrite Hw.
Qed.

Section Stopped.
Variables (mu : bool) (now : Z) (c : Chain B) (blk : VerifiedBlock) (rs : list Z) (l : list TransactionReceipt) (hs : list Z) (td : Z) (full : option LogBloom) (pd gd : BlockDetails).
Hypothesis Hc : chain_ok cfg c.
Hypothesis Ha : addable sha3 c blk rs l hs td full pd.
Hypothesis Hs : survives cfg c blk.
Hypothesis Hr : recent c.
Hypothesis Hg : has_details (bc_db c) (cc_genesisHash cfg) gd.

Lemma stopped_at p : p <> AfterCommit -> match p with DuringRotation k => (k <= 5)%nat | _ => True end -> exists d,
  remains (bc_db c) (stopAt p mu now blk rs full td c) /\ has_details (stopAt p mu now blk rs full td c) (cc_genesisHash cfg) d /\ bd_number d = bd_number gd.
Proof.
  intros Hp Hk. destruct (has_stages sha3 cfg genesis_hash mu now c blk rs l hs td full pd Hc Ha Hs) as [s].
  destruct s as [b1 b2 br b5 b6 c' d m1 m2 (E1 & Em & Ek) (ops & G) [E2 E2'] Hd (V1 & V2 & V3 & V4 & V5) [Er E3] [Eb R] [E5 Em2] (ops2 & G2) E6 Had].
  pose proof (ch_valid _ _ Hc) as Hv. pose proof (ch_idle _ _ Hc) as Hi.
  destruct p as [|k| | |]; [| | | |done]; unfold stopAt.
  - rewrite E1. cbn [snd]. rewrite Em. destruct (grown_restart (bc_db c) ops b1 Hv Hi G) as (S1 & S2 & S3 & S4). exists gd. split; [|split; [|done]].
    + split; try done. intros j k Hm _ Hne. destruct (S4 k Hm) as [_ ->]. by apply cs_view_mono.
    + eapply has_details_same; [|exact Hg]. apply S4, extrasKey_not_mark.
  - erewrite cbind_ok by exact E1. rewrite E2. cbn [snd st bc_db]. destruct (cs_law_restartRotating k b2 V1 V2 Hk) as (S1 & S2 & S3 & S4).
    exists gd. split; [|split; [|done]].
    + split; [done|done|by rewrite S3|]. intros j k' Hm _ Hne. rewrite <- V5. apply S4; [done|]. by rewrite V5.
    + eapply has_details_same; [|exact Hg]. assert (Ew : cs_view 0 (cs_restartRotating k b2) gkey = cs_view 1 (bc_db c) gkey)
        by (rewrite <- V5; apply S4; [auto with chain|rewrite V5; apply Hr]).
      rewrite cs_lookup_view; [rewrite Ew; apply keeps_view; [done|apply Hr]|done|rewrite Ew; apply Hr].
  - erewrite cbind_ok by exact E1. erewrite cbind_ok by exact E2. rewrite E3. cbn [snd st bc_db].
    destruct (rotate_keeps b2 V1 V2) as (br' & Er' & R1 & R2 & R3 & R4 & R5 & R6). assert (br' = br) as -> by congruence.
    assert (Gi : grown br ([] ++ [WPut gkey (enc (detailsItem d))]) (face_insert br gkey (enc (detailsItem d)))).
    { apply grown_insert; [by apply grown_refl|auto with chain|]. destruct Hd as [[? ?] _]. by apply enc_cons, details_size. }
    destruct (grown_restart br _ _ R1 R2 Gi) as (S1 & S2 & S3 & S4). exists gd. split; [|split; [|done]].
    + split; [done|done|by rewrite S3, R3|]. intros j k Hm _ _. destruct (S4 k Hm) as [_ ->]. by rewrite R6.
    + eapply has_details_same; [|exact Hg]. destruct (S4 gkey) as [-> _]; [auto with chain|]. rewrite <- V4. apply R4; [auto with chain|].
      unfold keeps. rewrite V4, V5. apply Hs.
  - erewrite cbind_ok by exact E1. erewrite cbind_ok by exact E2. erewrite cbind_ok by exact E3. erewrite cbind_ok by reflexivity.
    erewrite cbind_ok by reflexivity. change (snd (prepareDbDataAndReturnSize sha3 blk rs td full _)) with
      (snd (prepareDbDataAndReturnSize sha3 blk rs td full (st (emptied c now) (face_revert (snd (face_commit true (face_insert br gkey (enc (detailsItem d))))))
        {[cc_genesisHash cfg := d]} ∅ (replicate 20 ∅) ∅))). rewrite <- Eb, E5. cbn [snd]. rewrite Em2. exists d.
    destruct (grown_restart b5 ops2 b6 (ro_valid _ _ _ _ R) (ro_idle _ _ _ _ R) G2) as (S1 & S2 & S3 & S4). split; [|split].
    + split; [done|done|by rewrite S3, (ro_pieces _ _ _ _ R)|]. intros j k Hm Hk' _. destruct (S4 k Hm) as [_ ->]. by apply (ro_views _ _ _ _ R).
    + eapply has_details_same; [|exact (ro_genesis _ _ _ _ R)]. apply S4. auto with chain.
    + apply Hd, Hg.
Qed.
End Stopped.
End Open.
