(* ===== verification/BlockChainClaims.v ===== *)
(** * BlockChainClaims: what the block chain answers, after insertions, stops and collections *)

From Stdlib Require Import ZArith Lia Bool.
From stdpp Require Import base list gmap.
From S2P Require Import Prelude CommonData Rlp RlpCodec ExtVMFace LogFilter BloomIndex LevelDb BatchedDb OverlayDb OverlayDbInv OverlayDbClaims RotatingDb RotatingDbInv RotatingDbClaims ChainStore Receipt BlockChain BlockChainInv BlockChainInsert BlockChainCommit BlockChainRotate BlockChainOpen.
Open Scope Z_scope.
Open Scope chain_scope.

Section Claims.
Context {B : Type} `{ChainStoreLaws B}.
Variables (sha3 : list Z -> Z) (cfg : ChainConfig).
Implicit Types (c : Chain B) (b : B).

(** ** Answers *)

Definition answer {A} (r : result CodecError A) : result ChainError A := match r with Ok a => Ok a | Err e => Err (CodecFailed e) end.
Lemma query_answers {T} (t : Table T (B := B)) h c : coherent t c -> fst (queryExtras t h c) = answer (stored t (bc_db c) h).
Proof.
  intros Hc. unfold queryExtras. cbn [cbind cget]. destruct (tb_cache _ t c !! h) as [x|] eqn:E; [by destruct (Hc h x E) as (_ & _ & ->)|].
  cbn. unfold stored. destruct (face_lookup _ _) as [|z s]; [done|]. destruct (tb_extra _ t =? ExtraBlockHash); cbn; by destruct (fromRLP t (z :: s)).
Qed.
Lemma block_answers h c : caches_ok c -> h <> cc_genesisHash cfg -> fst (block cfg h c) = Ok (face_lookup (bc_db c) (blocksKey h)).
Proof.
  intros Hc Hne. unfold block. rewrite (proj2 (Z.eqb_neq _ _) Hne). cbn [cbind cget]. destruct (bc_blocks c !! h) as [x|] eqn:E.
  - by destruct (co_blocks _ Hc h x E) as (_ & _ & <-).
  - cbn. by destruct (face_lookup (bc_db c) (blocksKey h)).
Qed.
Lemma isKnown_answers h c d : cs_valid (bc_db c) -> caches_ok c -> face_lookup (bc_db c) (blocksKey h) <> [] -> has_details (bc_db c) h d ->
  bd_number d <= bc_lastBlockNumber c -> fst (isKnown cfg h true c) = Ok true.
Proof.
  intros Hv Hc Hb (D1 & D2 & _) Hn. unfold isKnown. destruct (h =? _); [done|]. cbn [cbind cget id]. rewrite !exists_lookup by auto with chain.
  destruct (face_lookup (bc_db c) (blocksKey h)); [done|]. destruct (face_lookup (bc_db c) (extrasKey ExtraDetails h)); [done|]. cbn [negb]. rewrite !andb_false_r.
  pose proof (query_answers detailsTable h c (co_details _ Hc)) as E. rewrite D2 in E. unfold details, cbind. destruct (queryExtras detailsTable h c) as [r c'].
  cbn in E. subst r. cbn. f_equal. by apply Z.leb_le.
Qed.

(** The block [blk] as the chain answers it. *)
Record serves c (blk : VerifiedBlock) (l : list TransactionReceipt) (td : Z) : Prop := {
  se_block : fst (block cfg (vb_hash blk) c) = Ok (vb_block blk);
  se_known : fst (isKnown cfg (vb_hash blk) true c) = Ok true;
  se_details : fst (details (vb_hash blk) c) = Ok (newDetails blk td);
  se_logBlooms : fst (logBlooms (vb_hash blk) c) = Ok (map r_bloom l);
  se_receipts : fst (receipts (vb_hash blk) c) = Ok l;
  se_number : 0 < vb_number blk -> fst (numberHash cfg (vb_number blk) c) = Ok (vb_hash blk) }.
Lemma holds_serves c blk l td : cs_valid (bc_db c) -> caches_ok c -> vb_block blk <> [] -> vb_hash blk <> cc_genesisHash cfg -> holds (bc_db c) blk l td ->
  has_details (bc_db c) (vb_hash blk) (newDetails blk td) -> vb_number blk <= bc_lastBlockNumber c -> serves c blk l td.
Proof.
  intros Hv A3 Hne Hg [O1 O2 O3 O4 O5 O6] A6 Hn. split.
  - rewrite block_answers by done. by rewrite O1.
  - eapply isKnown_answers; [done|done| |exact A6|done]. by rewrite O1.
  - unfold details. by rewrite query_answers, O2 by apply A3.
  - unfold logBlooms. by rewrite query_answers, O3 by apply A3.
  - unfold receipts. by rewrite query_answers, O4 by apply A3.
  - intros Hp. unfold numberHash. rewrite (proj2 (Z.eqb_neq _ _)) by lia. by rewrite query_answers, O5 by apply A3.
Qed.
Lemma added_serves b blk rs l hs td full pd usage c : block_fits sha3 blk rs l hs td full -> vb_hash blk <> cc_genesisHash cfg ->
  added sha3 b blk l hs td full pd usage c -> serves c blk l td.
Proof. intros Hb Hg [A1 A2 A3 [A4 A5] A6 A7 _ _ _ _ _ _ _]. apply holds_serves; try done; [apply Hb|lia]. Qed.
Lemma holds_same b b' blk l td : is_hash (cc_genesisHash cfg) -> is_hash (vb_hash blk) -> vb_hash blk <> cc_genesisHash cfg ->
  (forall k, k <> current_piece_mark_key -> k <> extrasKey ExtraDetails (cc_genesisHash cfg) -> k <> pieceUsageKey -> face_lookup b' k = face_lookup b k) ->
  holds b blk l td -> holds b' blk l td.
Proof.
  intros Hg Hh Hne Hk [O1 O2 O3 O4 O5 O6].
  assert (Hx : forall e x, 0 <= e < 256 -> e <> ExtraDetails -> face_lookup b' (extrasKey e x) = face_lookup b (extrasKey e x)).
  { intros e x He Hd. apply Hk; [auto with chain|by intros E%extrasKey_kind|by intros E%extras_usage]. }
  assert (Hd : face_lookup b' (extrasKey ExtraDetails (vb_hash blk)) = face_lookup b (extrasKey ExtraDetails (vb_hash blk))).
  { apply Hk; [auto with chain|by intros E%extrasKey_inj|by intros E%extras_usage]. }
  split; unfold stored in *; cbn [tb_extra tb_null detailsTable logBloomsTable receiptsTable blockHashTable] in *; rewrite ?Hd, ?Hx by done; try done.
  - rewrite Hk; [done|auto with chain| |apply blocks_usage]. intros E. symmetry in E. by apply extras_blocks in E.
  - rewrite Hk; [done|auto with chain| |done]. intros E. symmetry in E. by apply extras_best in E.
Qed.

(** ** Collecting garbage *)

(** Nothing but caches differs, and they still agree with the database. *)
Record collected c c' : Prop := {
  cl_db : bc_db c' = bc_db c;
  cl_tip : bc_lastBlockHash c' = bc_lastBlockHash c /\ bc_lastBlockNumber c' = bc_lastBlockNumber c;
  cl_caches : caches_ok c';
  cl_addresses : bc_transactionAddresses c' ⊆ bc_transactionAddresses c }.
Lemma collected_refl c : caches_ok c -> collected c c.
Proof. by split. Qed.
Lemma collected_trans c c1 c2 : collected c c1 -> collected c1 c2 -> collected c c2.
Proof. intros [D1 [T1 N1] _ A1] [D2 [T2 N2] C2 A2]. split; [congruence|split; congruence|done|by etrans]. Qed.
Lemma fits_delete {T} (t : Table T (B := B)) b m h : fits t b m -> fits t b (delete h m).
Proof. intros Hm h' x [_ Hx]%lookup_delete_Some. by apply Hm. Qed.
Lemma evict_collected id c : caches_ok c -> snd id <> ExtraBlockHash -> exists c', evict id c = (Ok tt, c') /\ collected c c' /\ bc_cacheUsage c' = bc_cacheUsage c.
Proof.
  destruct id as [h e]. intros [C1 C2 C3 C4 C5 C6 C7] He. unfold evict. erewrite cbind_ok by reflexivity. cbn in He.
  rewrite (proj2 (Z.eqb_neq _ _) He). repeat case_match; (eexists; split; [reflexivity|split; [|done]]); (split; [done|done| |first [done|apply delete_subseteq]]);
    (split; try done; try (by apply fits_delete)); intros h' x Hx; cbn in Hx; apply lookup_delete_Some in Hx as [_ Hx]; by apply C1.
Qed.
Lemma evictAll_collected ids : forall c, caches_ok c -> (forall id, id ∈ ids -> snd id <> ExtraBlockHash) -> exists c',
  cforeach ids evict c = (Ok tt, c') /\ collected c c' /\ bc_cacheUsage c' = bc_cacheUsage c.
Proof.
  induction ids as [|id ids IH]; intros c Hc Hids; [exists c; split; [done|split; [by apply collected_refl|done]]|]. cbn [cforeach].
  destruct (evict_collected id c Hc) as (c1 & E1 & H1 & U1); [apply Hids, elem_of_cons; by left|]. erewrite cbind_ok by exact E1.
  destruct (IH c1 (cl_caches _ _ H1)) as (c2 & E2 & H2 & U2); [intros id' Hin; apply Hids, elem_of_cons; by right|].
  exists c2. split; [done|]. split; [by eapply collected_trans|congruence].
Qed.
Lemma gcRound_collected c : caches_ok c -> exists c', gcRound c = (Ok tt, c') /\ collected c c'.
Proof.
  intros Hc. unfold gcRound. erewrite cbind_ok by reflexivity. destruct (co_usage _ Hc) as [Hl Hu].
  assert (Hback : List.last (bc_cacheUsage c) ∅ ∈ bc_cacheUsage c).
  { destruct (bc_cacheUsage c) as [|s u] using rev_ind; [done|]. rewrite List.last_last. apply elem_of_app. right. by apply list_elem_of_singleton. }
  destruct (evictAll_collected (elements (List.last (bc_cacheUsage c) ∅)) c Hc) as (c1 & E & H1 & U).
  { intros [h e] Hin%elem_of_elements. cbn. intros ->. by apply (Hu _ h Hback). }
  erewrite cbind_ok by exact E. eexists. split; [reflexivity|]. destruct H1 as [D1 T1 [C1 C2 C3 C4 C5 C6 C7] A1]. split; [done|done| |exact A1]. split; try done.
  cbn [bc_cacheUsage]. rewrite U. split.
  - destruct (bc_cacheUsage c) as [|s u _] using rev_ind; [done|]. rewrite removelast_last. rewrite length_app in Hl. cbn in *. lia.
  - intros s h [->|Hs]%elem_of_cons; [set_solver|]. apply Hu. destruct (bc_cacheUsage c) as [|s' u _] using rev_ind; [done|].
    rewrite removelast_last in Hs. apply elem_of_app. by left.
Qed.
Lemma gcLoop_collected mem fuel : forall c, caches_ok c -> exists ended c', gcLoop mem fuel c = (Ok ended, c') /\ collected c c'.
Proof.
  induction fuel as [|fuel IH]; intros c Hc; cbn [gcLoop]; erewrite cbind_ok by reflexivity; destruct (_ <=? _); try (eexists _, c; split; [done|by apply collected_refl]).
  destruct (gcRound_collected c Hc) as (c1 & E & H1). erewrite cbind_ok by exact E. destruct (IH c1 (cl_caches _ _ H1)) as (e & c2 & E2 & H2).
  exists e, c2. split; [done|by eapply collected_trans].
Qed.
Lemma trim_collected c : caches_ok c -> exists c', trimBlockHashes c = (Ok tt, c') /\ collected c c'.
Proof.
  intros [C1 C2 C3 C4 C5 C6 C7]. eexists. split; [reflexivity|]. split; [done|done| |done]. split; try done. cbn. unfold coherent. cbn.
  match goal with |- context [foldl _ _ ?o] => generalize o as old end.
  intros old. change (fits blockHashTable (bc_db c) (bc_blockHashes c)) in C5. revert C5. generalize (bc_blockHashes c). induction old as [|n old IH]; [done|].
  intros m Hm. cbn [foldl]. by apply IH, fits_delete.
Qed.
Lemma garbageCollect_collected force due memTotal mem fuel c : caches_ok c -> exists ended c', garbageCollect force due memTotal mem fuel c = (Ok ended, c') /\ collected c c'.
Proof.
  intros Hc. unfold garbageCollect. erewrite cbind_ok by reflexivity. destruct (_ && _); [eexists _, c; split; [done|by apply collected_refl]|].
  destruct (_ <? _); [eexists _, c; split; [done|by apply collected_refl]|]. destruct (gcLoop_collected mem fuel c Hc) as (e & c1 & E & H1).
  erewrite cbind_ok by exact E. destruct e.
  - destruct (trim_collected c1 (cl_caches _ _ H1)) as (c2 & E2 & H2). erewrite cbind_ok by exact E2. exists true, c2. split; [done|by eapply collected_trans].
  - by exists false, c1.
Qed.
End Claims.

(** ** The claims *)

Section Theorems.
Context {B : Type} `{ChainStoreLaws B}.
Variables (sha3 : list Z -> Z) (cfg : ChainConfig).
Implicit Types (c : Chain B) (b : B).

(** Both ways to insert a block, over the database [b] that the block is written to in the end. *)
Lemma insert_adds mu now c blk rs l hs td full pd : is_hash (cc_genesisHash cfg) -> chain_ok cfg c -> addable sha3 c blk rs l hs td full pd ->
  let rot := isRotate cfg (newUsage c (blockSize blk rs l hs td pd)) now c in (rot = true -> survives cfg c blk) -> exists b c',
  insertBlockAndExtras sha3 cfg mu now blk rs full td c = (Ok tt, c') /\ chain_ok cfg c' /\
  added sha3 b blk l hs td full pd (if rot then blockSize blk rs l hs td pd else newUsage c (blockSize blk rs l hs td pd)) c' /\
  (forall k, k <> current_piece_mark_key -> k <> extrasKey ExtraDetails (cc_genesisHash cfg) -> rot = false \/ cs_view 1 (bc_db c) k <> [] -> face_lookup b k = face_lookup (bc_db c) k) /\
  forall gd, has_details (bc_db c) (cc_genesisHash cfg) gd -> exists gd', has_details (bc_db c') (cc_genesisHash cfg) gd' /\ bd_number gd' = bd_number gd.
Proof.
  intros Hg Hc Ha rot Hs. pose proof Ha as [A1 A2 A3 A4 A5 A6].
  assert (Hn : forall gd, has_details (bc_db c) (cc_genesisHash cfg) gd -> cc_genesisHash cfg = vb_parentHash blk -> bd_number pd = bd_number gd).
  { intros gd (_ & E & _) Eg. rewrite Eg in E. rewrite E in A3. by injection A3 as <-. }
  destruct rot eqn:Er.
  - destruct (has_stages sha3 cfg Hg mu now c blk rs l hs td full pd Hc Ha (Hs eq_refl)) as [s]. eexists _, (rg_end _ _ _ _ _ _ _ _ _ _ _ _ s).
    destruct (rg_added _ _ _ _ _ _ _ _ _ _ _ _ s) as [Had Hok]. destruct (rg_genesis _ _ _ _ _ _ _ _ _ _ _ _ s) as [_ R].
    destruct (rg_fine _ _ _ _ _ _ _ _ _ _ _ _ s) as [_ Hnum]. split; [by apply insert_rotating|]. split; [done|]. split; [exact Had|]. split.
    + intros k Hm Hgk [?|Hv]; [done|]. apply (ro_keeps _ _ _ _ R); [done..|]. apply keeps_view; [apply Hc|done].
    + intros gd Hgd. pose proof (Hnum gd (proj1 (proj2 Hgd))) as En. rewrite <- En.
      assert (Hf : fresh (rg_b5 _ _ _ _ _ _ _ _ _ _ _ _ s) blk).
      { assert (Hab : forall k, k <> current_piece_mark_key -> face_lookup (bc_db c) k = [] -> face_lookup (rg_b5 _ _ _ _ _ _ _ _ _ _ _ _ s) k = []).
        { intros k Hm Hk. apply (ro_absent _ _ _ _ R k Hm); [|done]. intros ->. by destruct Hgd. }
        destruct A2. split; apply Hab; auto with chain. }
      eapply added_genesis; [done|exact A1|exact Hf|exact (ro_genesis _ _ _ _ R)|exact Had|]. intros Eg. rewrite En. by apply Hn.
  - destruct (insert_plain sha3 cfg Hg mu now c blk rs l hs td full pd Hc Ha Er) as (c' & E & Had & Hok). exists (bc_db c), c'.
    split; [done|]. split; [done|]. split; [done|]. split; [done|]. intros gd Hgd.
    eapply added_genesis; [done|exact A1|exact A2|exact Hgd|exact Had|by apply Hn].
Qed.
Lemma addable_new c blk rs l hs td full pd : chain_ok cfg c -> addable sha3 c blk rs l hs td full pd -> vb_hash blk <> cc_genesisHash cfg.
Proof. intros Hc Ha E. destruct (ch_genesis _ _ Hc) as (gd & D & _). rewrite <- E in D. apply D, Ha. Qed.

(** C6: Inserting a block, whether or not it makes the database rotate: the chain ends with it, answers its bytes, details,
    blooms, receipts and number through the caches, has its parent with the block as its child and the places of its transactions,
    counts the bytes of the newest piece, and keeps every other entry; after a rotation, every entry that was not in the oldest piece only. *)
Theorem inserted_block_is_served (mu : bool) (now : Z) (c : Chain B) (blk : VerifiedBlock) (rs : list Z) (l : list TransactionReceipt) (hs : list Z) (td : Z)
    (full : option LogBloom) (pd : BlockDetails) :
  is_hash (cc_genesisHash cfg) -> chain_ok cfg c -> addable sha3 c blk rs l hs td full pd ->
  let rot := isRotate cfg (newUsage c (blockSize blk rs l hs td pd)) now c in
  (rot = true -> survives cfg c blk) -> exists c',
  insertBlockAndExtras sha3 cfg mu now blk rs full td c = (Ok tt, c') /\ chain_ok cfg c' /\
  bc_lastBlockHash c' = vb_hash blk /\ bc_lastBlockNumber c' = vb_number blk /\ serves cfg c' blk l td /\
  fst (details (vb_parentHash blk) c') = Ok (setChild (vb_hash blk) pd) /\
  (forall i t, NoDup hs -> hs !! i = Some t -> stored addressTable (bc_db c') t = Ok (mkAddress (vb_hash blk) (u32 (Z.of_nat i)))) /\
  usageOf (bc_db c') = Some (if rot then blockSize blk rs l hs td pd else newUsage c (blockSize blk rs l hs td pd)) /\
  forall k, ~ ownKey blk hs k -> k <> current_piece_mark_key -> k <> extrasKey ExtraDetails (cc_genesisHash cfg) ->
    rot = false \/ cs_view 1 (bc_db c) k <> [] -> face_lookup (bc_db c') k = face_lookup (bc_db c) k.
Proof.
  intros Hg Hc Ha rot Hs. destruct (insert_adds mu now c blk rs l hs td full pd Hg Hc Ha Hs) as (b & c' & E & Hok & Had & Hk & _). fold rot in Had, Hk.
  exists c'. pose proof Had as [_ _ A3 [A4 A5] _ _ (_ & A7 & _) A8 _ A10 A11 _ _]. split_and!; try done.
  - eapply added_serves; [apply Ha|exact (addable_new c blk rs l hs td full pd Hc Ha)|done].
  - unfold details. rewrite query_answers by apply A3. by rewrite A7.
  - exact (usageOf_written _ _ A10).
  - intros k Ho Hm Hgk Hv. destruct (A11 k Ho) as [-> _]. by apply Hk.
Qed.

(** C7: Stopping the program at any moment of an insertion, a rotation included: the chain opens again, with the block before when the last commit was not
    made, and then with every entry that was not in the oldest piece only; with the new block, and its answers, when it was. *)
Theorem stop_while_inserting (p : StopPoint) (mu : bool) (now later : Z) (c : Chain B) (blk : VerifiedBlock) (rs : list Z) (l : list TransactionReceipt) (hs : list Z) (td : Z)
    (full : option LogBloom) (pd gd : BlockDetails) :
  is_hash (cc_genesisHash cfg) -> chain_ok cfg c -> addable sha3 c blk rs l hs td full pd -> survives cfg c blk -> recent cfg c ->
  has_details (bc_db c) (cc_genesisHash cfg) gd -> details_isNull gd = false -> match p with DuringRotation k => (k <= 5)%nat | _ => True end -> exists c',
  openChain cfg (newChain cfg later (stopAt sha3 cfg p mu now blk rs full td c)) = (Ok tt, c') /\ chain_ok cfg c' /\
  if decide (p = AfterCommit) then bc_lastBlockHash c' = vb_hash blk /\ bc_lastBlockNumber c' = vb_number blk /\ serves cfg c' blk l td
  else bc_lastBlockHash c' = bc_lastBlockHash c /\ bc_lastBlockNumber c' = bc_lastBlockNumber c /\
    forall k, k <> current_piece_mark_key -> k <> extrasKey ExtraDetails (cc_genesisHash cfg) -> k <> pieceUsageKey ->
      cs_view 1 (bc_db c) k <> [] -> face_lookup (bc_db c') k = face_lookup (bc_db c) k.
Proof.
  intros Hg Hc Ha Hs Hr Hgd Hnull Hp. case_decide as Ep.
  - subst p. destruct (insert_adds mu now c blk rs l hs td full pd Hg Hc Ha (fun _ => Hs)) as (b & c1 & E & Hok & Had & _ & Hgen).
    destruct (Hgen gd Hgd) as (gd1 & G1 & En). unfold stopAt. rewrite E. cbn [snd]. destruct (cs_law_restart (bc_db c1) (ch_valid _ _ Hok)) as (S1 & S2 & S3 & S4).
    destruct (openable_after cfg c1 gd1 gd1 (cs_restart (bc_db c1)) Hok G1 S1 S2) as (d & Ho & Hd); [|done| |].
    { eapply has_details_same; [|exact G1]. apply S4. auto with chain. }
    { intros k Hk. apply S4. destruct Hk as [->|[->|[-> _]]]; auto with chain. }
    destruct (open_existing cfg Hg later _ gd1 _ d Ho) as (c' & E' & [D1 [D2 D2'] D3 D4 D5 D6]); [unfold details_isNull in *; by rewrite En|].
    exists c'. split; [done|]. split; [done|]. destruct Had as [_ _ _ [A4 A5] A6 A7 _ _ _ _ _ _ _]. rewrite D2, D2', Hd, A4, A5.
    split; [done|]. split; [done|]. pose proof (addable_new c blk rs l hs td full pd Hc Ha) as Hne. destruct Ha as [A1 _ _ _ _ _].
    assert (Hsame : forall k, k <> current_piece_mark_key -> k <> extrasKey ExtraDetails (cc_genesisHash cfg) -> k <> pieceUsageKey -> face_lookup (bc_db c') k = face_lookup (bc_db c1) k).
    { intros k K1 K2 K3. destruct (D6 k K2 K3) as [-> _]. by apply S4. }
    apply holds_serves; [apply D1|apply D1|apply A1|done| | |rewrite D2', Hd; lia].
    + eapply holds_same; [done|apply A1|done|exact Hsame|done].
    + eapply has_details_same; [|exact A7]. apply Hsame; [auto with chain| |by intros X%extras_usage]. intros X%extrasKey_inj; [done|done|apply A1|done].
  - destruct (stopped_at sha3 cfg Hg mu now c blk rs l hs td full pd gd Hc Ha Hs Hr Hgd p Ep Hp) as (d & Hrem & Hd & En).
    pose proof (fun k => remains_lookup cfg _ _ k (ch_valid _ _ Hc) Hrem) as Hl. destruct Hr as [R1 R2 R3 R4]. destruct (ch_tip _ _ Hc) as [Ht _].
    destruct (openable_after cfg c gd d _ Hc Hgd (rm_valid _ _ _ Hrem) (rm_idle _ _ _ Hrem) Hd En) as (d' & Ho & Hd').
    { intros k [->|[->|[-> Hne]]].
      - apply Hl; [auto with chain| |done]. intros X. symmetry in X. by apply extras_best in X.
      - apply Hl; [auto with chain| |done]. intros X. symmetry in X. by apply extras_usage in X.
      - apply Hl; [auto with chain| |done]. by intros X%extrasKey_inj. }
    destruct (open_existing cfg Hg later _ d _ d' Ho) as (c' & E' & [D1 [D2 D2'] D3 D4 D5 D6]); [unfold details_isNull in *; by rewrite En|].
    exists c'. split; [done|]. split; [done|]. split; [done|]. split; [by rewrite D2'|]. intros k K1 K2 K3 K4. destruct (D6 k K2 K3) as [-> _]. by apply Hl.
Qed.

(** C30: Collecting garbage, whatever the estimates of the sizes and however often the loop runs, when the caches agree with the database (those of the transaction addresses
    aside): it does not fail, the database and the last block stay, and so do the answers for every hash or number: the block, its details, its log blooms, its receipts, the
    hash of a number and the blooms of a chunk.  The address of a transaction is answered as before if its cached addresses agree with the database too; one that a later
    block made stale can change, since it is read again. *)
Theorem collection_is_invisible (force due : bool) (memTotal mem : Chain B -> Z) (fuel : nat) (c : Chain B) : caches_ok c -> exists ended c',
  garbageCollect force due memTotal mem fuel c = (Ok ended, c') /\ caches_ok c' /\ bc_db c' = bc_db c /\
  bc_lastBlockHash c' = bc_lastBlockHash c /\ bc_lastBlockNumber c' = bc_lastBlockNumber c /\
  (forall h, fst (block cfg h c') = fst (block cfg h c) /\ fst (details h c') = fst (details h c) /\ fst (logBlooms h c') = fst (logBlooms h c) /\
    fst (receipts h c') = fst (receipts h c) /\ fst (numberHash cfg h c') = fst (numberHash cfg h c) /\ fst (chunk h c') = fst (chunk h c)) /\
  (coherent addressTable c -> coherent addressTable c' /\ forall h, fst (queryExtras addressTable h c') = fst (queryExtras addressTable h c)).
Proof.
  intros Hc. destruct (garbageCollect_collected force due memTotal mem fuel c Hc) as (ended & c' & E & [D1 [D2 D3] D4 D5]).
  exists ended, c'. split; [done|]. split_and!; try done.
  - intros h. unfold details, logBlooms, receipts, chunk, numberHash. rewrite !query_answers by first [apply D4|apply Hc]. rewrite D1. split; [|split_and!; try done].
    + destruct (decide (h = cc_genesisHash cfg)) as [->|Hne]; [unfold block; by rewrite Z.eqb_refl|]. rewrite !block_answers by done. by rewrite D1.
    + destruct (h =? 0); [done|]. rewrite !query_answers by first [apply D4|apply Hc]. by rewrite D1.
  - intros Ha. assert (Ha' : coherent addressTable c'). { intros h x Hx. rewrite D1. apply Ha. by eapply lookup_weaken. }
    split; [done|]. intros h. rewrite !query_answers by first [done|apply D4|apply Hc]. by rewrite D1.
Qed.
End Theorems.

(** ** An example: three empty pieces, and blocks that rotate them or not, as the limit says *)

Module ChainExample.
Import MapLevelDB.
Definition disk : Disk (gmap Slice Slice) := <[PFile 0 := {[current_piece_mark_key := []]}]> (<[PFile 1 := ∅]> {[PFile 2 := ∅]}).
Definition io : rotating_db_io := mkRotating [PFile 0; PFile 1; PFile 2] 0 3 false.
Definition store : batched_db (RotatingDB (gmap Slice Slice)) := mkBatched (mkRotatingDB disk io ∅ 0) None.
Definition hash (bs : list Z) : Z := 7 + lenZ bs.
Definition receipts1 : list TransactionReceipt := [ReceiptExample.receipt].
Definition bytes1 : list Z := enc (Lst (map receiptItem receipts1)).
Definition block1 : VerifiedBlock := mkVerified 2 1 1 9 emptyBloom [196; 192; 193; 192; 192].
Definition block2 : VerifiedBlock := mkVerified 3 2 2 9 emptyBloom [196; 192; 193; 192; 192].

Lemma piece_empty p k : k <> current_piece_mark_key -> ldb_Get (piece disk p) k = None.
Proof.
  intros Hk. unfold piece, disk. destruct (decide (p = PFile 0)) as [->|H0]; [rewrite lookup_insert_eq; apply lookup_singleton_ne; by intros <-|].
  rewrite lookup_insert_ne by done. destruct (decide (p = PFile 1)) as [->|H1]; [rewrite lookup_insert_eq; exact (lookup_empty (M := gmap Slice) k)|].
  rewrite lookup_insert_ne by done. destruct (decide (p = PFile 2)) as [->|H2]; [rewrite lookup_singleton_eq; exact (lookup_empty (M := gmap Slice) k)|].
  rewrite lookup_singleton_ne by done. exact (lookup_empty (M := gmap Slice) k).
Qed.
Lemma view_empty j k : k <> current_piece_mark_key -> cs_view j store k = [].
Proof. intros Hk. cbn [cs_view rotating_store_laws]. rewrite view_pieces. apply lookupPieces_nil. intros p _ v Hv. by rewrite piece_empty in Hv. Qed.
Lemma lookup_nothing k : k <> current_piece_mark_key -> face_lookup store k = [].
Proof. intros Hk. change (lookupPieces (map (piece disk) (pieces io)) k = []). apply lookupPieces_nil. intros p _ v Hv. by rewrite piece_empty in Hv. Qed.
Lemma store_is_ok : cs_valid store.
Proof.
  split; [|intros p k _ Hk; by rewrite piece_empty|done|constructor]. unfold mr_ok. split; cbn [n_pieces current_piece_file_no pieces archive_mode io rt_io rt_disk store bd_db]; [lia|lia|..].
  - by exists 0%nat.
  - intros i Hi. destruct i as [|[|[|i]]]; [eexists; reflexivity..|lia].
  - intros i Hi. destruct i as [|[|[|i]]]; [by intros _|intros Hm; exfalso; revert Hm; by vm_compute..|lia].
  - left. by vm_compute.
Qed.

Section Limit.
Variable limit : Z.
Definition config : ChainConfig := mkConfig 1 [192] 5 limit 0.
Lemma genesis_is_hash : is_hash (cc_genesisHash config).
Proof. by split. Qed.
Lemma genesis_fine : fine_details (firstDetails config).
Proof. split; [|cbn; lia]. split; [cbn; lia|split; [by split|split; [by split|split; [apply List.Forall_nil|by split]]]]. Qed.
(** The chain after the first start. *)
Record started (c : Chain (batched_db (RotatingDB (gmap Slice Slice)))) : Prop := {
  sd_ok : chain_ok config c;
  sd_genesis : has_details (bc_db c) (cc_genesisHash config) (firstDetails config);
  sd_pieces : cs_piecesCount (bc_db c) = 3%nat;
  sd_tip : bc_lastBlockHash c = 1;
  sd_recent j : (j < 3)%nat -> cs_view j (bc_db c) (extrasKey ExtraDetails 1) <> [];
  sd_other k : k <> current_piece_mark_key -> k <> extrasKey ExtraDetails 1 -> k <> pieceUsageKey -> face_lookup (bc_db c) k = [] /\ cs_view 1 (bc_db c) k = [] }.
Lemma starts : exists c, openChain config (newChain config 0 store) = (Ok tt, c) /\ started c.
Proof.
  destruct (open_fresh config genesis_is_hash 0 store store_is_ok eq_refl lookup_nothing genesis_fine) as (b1 & c & E & [D1 [D2 D3] D4 D5 D6 D7] & Ep & Hw & Ho).
  exists c. split; [exact E|]. assert (E3 : cs_piecesCount store = 3%nat) by done. split; [done|done|by rewrite D5, Ep|done| |].
  - intros j Hj. apply D6; [by rewrite Ep|]. apply Hw. by rewrite E3.
  - intros k K1 K2 K3. destruct (D7 k K2 K3) as [-> ->]. destruct (Ho k K2) as [-> ->]. split; [by apply lookup_nothing|by apply view_empty].
Qed.
Lemma blocks_fit blk : blk = block1 \/ blk = block2 -> block_fits hash blk bytes1 receipts1 [8] 10 None.
Proof.
  intros Hb. split; try (destruct Hb as [->| ->]; by split).
  - by destruct Hb as [->| ->].
  - constructor; [by split|constructor].
  - split; [constructor; [apply ReceiptExample.receipt_is_valid|constructor]|]. split; [by apply ReceiptExample.item_okb_sound; vm_compute|by vm_compute].
  - destruct Hb as [->| ->]; apply empty_valid.
Qed.
Lemma null_chunk : chunk_valid NullBlocksBlooms.
Proof. split; [by vm_compute|]. apply Forall_replicate, empty_valid. Qed.
Lemma block1_addable c : started c -> addable hash c block1 bytes1 receipts1 [8] 10 None (firstDetails config).
Proof.
  intros [S1 S2 _ _ _ S6].
  assert (Hno : forall k, k <> current_piece_mark_key -> k <> extrasKey ExtraDetails 1 -> k <> pieceUsageKey -> face_lookup (bc_db c) k = []) by (intros; by apply S6).
  split; [by apply blocks_fit; left| |apply S2|apply S2| |by vm_compute].
  - split; apply Hno; try (by apply not_mark; vm_compute); by vm_compute.
  - intros id Hid. exists NullBlocksBlooms. split; [|apply null_chunk]. unfold stored. cbn [blocksBloomsTable tb_extra tb_null]. rewrite Hno; [done|auto with chain| |by intros E%extras_usage].
    by intros E%extrasKey_kind.
Qed.
Lemma block1_survives c : started c -> survives config c block1.
Proof.
  intros [S1 S2 _ _ S5 S6]. assert (Hno : forall id, keeps (bc_db c) (extrasKey ExtraBlocksBlooms id)).
  { intros id. destruct (S6 (extrasKey ExtraBlocksBlooms id)) as [E1 E2]; [auto with chain|by intros E%extrasKey_kind|by intros E%extras_usage|]. unfold keeps. by rewrite E1, E2. }
  split; [| |apply Hno|apply Hno]; (apply keeps_view; [apply S1|apply S5; lia]).
Qed.
End Limit.
(** The chain after the first block, which does not rotate. *)
Record followed (c : Chain (batched_db (RotatingDB (gmap Slice Slice)))) : Prop := {
  fd_ok : chain_ok (config 0) c;
  fd_addable : addable hash c block2 bytes1 receipts1 [8] 10 None (newDetails block1 10);
  fd_survives : survives (config 0) c block2;
  fd_recent : recent (config 0) c;
  fd_tip : bc_lastBlockHash c = 2;
  fd_genesis : exists gd, has_details (bc_db c) 1 gd /\ details_isNull gd = false }.
Lemma not_own k : k = blocksKey 3 \/ k = extrasKey ExtraDetails 3 \/ k = extrasKey ExtraLogBlooms 3 \/ k = extrasKey ExtraReceipts 3 \/ k = extrasKey ExtraBlockHash 2 ->
  ~ ownKey block1 [8] k /\ k <> current_piece_mark_key /\ k <> extrasKey ExtraDetails 1 /\ k <> pieceUsageKey.
Proof.
  intros Hk. split; [|destruct Hk as [->|[->|[->|[->| ->]]]]; split_and!; by vm_compute].
  intros [C|[C|[C|[C|[C|[C|[C|[C|[(t & ->%list_elem_of_singleton & C)|[C|[C|C]]]]]]]]]]]; destruct Hk as [->|[->|[->|[->| ->]]]]; vm_compute in C; discriminate C.
Qed.
Lemma follows : exists c, followed c.
Proof.
  destruct (starts 0) as (c0 & _ & Hs). destruct (insert_adds hash (config 0) true 5 c0 block1 bytes1 receipts1 [8] 10 None (firstDetails (config 0))
    (genesis_is_hash 0) (sd_ok 0 c0 Hs) (block1_addable 0 c0 Hs) (fun _ => block1_survives 0 c0 Hs)) as (b & c & _ & Hok & Had & Hb & Hg).
  change (isRotate (config 0) _ _ _) with false in Had, Hb. pose proof Had as [A1 _ _ [A4 _] _ A6 A7 _ A9 _ A11 A12 A13].
  pose proof (cs_pieces_3 _ A1) as H3. rewrite A12 in H3.
  assert (Hw : forall k, k = bestKey \/ k = pieceUsageKey \/ k = extrasKey ExtraDetails 2 \/ k = extrasKey ExtraDetails 1 \/ k = extrasKey ExtraBlocksBlooms (id0 1) \/
    k = extrasKey ExtraBlocksBlooms (id1 1) -> cs_view 1 (bc_db c) k <> []) by (intros k Hk; apply (A13 k Hk); lia).
  assert (Hc : forall id, storedChunk b id = NullBlocksBlooms).
  { intros id. assert (E : face_lookup b (extrasKey ExtraBlocksBlooms id) = []).
    - rewrite Hb; [|auto with chain|by intros E%extrasKey_kind|by left]. apply Hs; [auto with chain|by intros E%extrasKey_kind|by intros E%extras_usage].
    - unfold storedChunk, stored. cbn [blocksBloomsTable tb_extra tb_null]. by rewrite E. }
  exists c. split; [done| | | |done|].
  - split; [by apply blocks_fit; right| |apply A6|apply A6| |by vm_compute].
    + assert (Hno : forall k, k = blocksKey 3 \/ k = extrasKey ExtraDetails 3 \/ k = extrasKey ExtraLogBlooms 3 \/ k = extrasKey ExtraReceipts 3 \/ k = extrasKey ExtraBlockHash 2 ->
        face_lookup (bc_db c) k = []).
      { intros k (K1 & K2 & K3 & K4)%not_own. destruct (A11 k K1) as [-> _]. rewrite Hb by (done || by left). by apply Hs. }
      split; apply Hno; tauto.
    + assert (Hv : bloom_valid (blockBloomOf hash block1 None)) by apply shiftBloom_valid, empty_valid.
      intros id Hid. destruct A9 as [E0 E1]. destruct Hid as [->| ->]; eexists; (split; [first [exact E0|exact E1]|]); unfold chunk0, chunk1; rewrite Hc; by apply addBloom_valid, null_chunk.
  - split; (apply keeps_view; [done|apply Hw]); tauto.
  - split; [apply Hw; tauto..|]. rewrite A4. apply Hw. tauto.
  - destruct (Hg _ (sd_genesis 0 c0 Hs)) as (gd & G & En). exists gd. split; [exact G|]. unfold details_isNull. by rewrite En.
Qed.
End ChainExample.
Import MapLevelDB.

(** The first block, with a limit that makes it rotate the pieces. *)
Lemma inserted_block_is_served_witness : exists c c',
  openChain (ChainExample.config 3) (newChain (ChainExample.config 3) 0 ChainExample.store) = (Ok tt, c) /\
  insertBlockAndExtras ChainExample.hash (ChainExample.config 3) true 5 ChainExample.block1 ChainExample.bytes1 None 10 c = (Ok tt, c') /\
  bc_lastBlockHash c' = 2 /\ fst (block (ChainExample.config 3) 2 c') = Ok [196; 192; 193; 192; 192] /\ fst (receipts 2 c') = Ok ChainExample.receipts1 /\
  fst (numberHash (ChainExample.config 3) 1 c') = Ok 2.
Proof.
  destruct (ChainExample.starts 3) as (c & E & Hs). exists c.
  destruct (inserted_block_is_served ChainExample.hash (ChainExample.config 3) true 5 c ChainExample.block1 ChainExample.bytes1 ChainExample.receipts1 [8] 10 None
    (firstDetails (ChainExample.config 3)) (ChainExample.genesis_is_hash 3) (ChainExample.sd_ok 3 c Hs) (ChainExample.block1_addable 3 c Hs) (fun _ => ChainExample.block1_survives 3 c Hs))
    as (c' & E' & _ & T & _ & [S1 _ _ _ S5 S6] & _).
  exists c'. split; [exact E|]. split; [exact E'|]. split; [exact T|]. split; [exact S1|]. split; [exact S5|by apply S6].
Defined.

(** The second block, stopped in the middle of a rotation: the chain still ends with the first. *)
Lemma stop_while_inserting_witness : exists c c', ChainExample.followed c /\
  openChain (ChainExample.config 0) (newChain (ChainExample.config 0) 9
    (stopAt ChainExample.hash (ChainExample.config 0) (DuringRotation 3) true 5 ChainExample.block2 ChainExample.bytes1 None 10 c)) = (Ok tt, c') /\ bc_lastBlockHash c' = 2.
Proof.
  destruct ChainExample.follows as (c & Hf). exists c. destruct (ChainExample.fd_genesis c Hf) as (gd & G & En).
  destruct (stop_while_inserting ChainExample.hash (ChainExample.config 0) (DuringRotation 3) true 5 9 c ChainExample.block2 ChainExample.bytes1 ChainExample.receipts1 [8] 10 None
    (newDetails ChainExample.block1 10) gd (ChainExample.genesis_is_hash 0) (ChainExample.fd_ok c Hf) (ChainExample.fd_addable c Hf) (ChainExample.fd_survives c Hf)
    (ChainExample.fd_recent c Hf) G En ltac:(cbn; lia)) as (c' & E & _ & T).
  exists c'. split; [exact Hf|]. split; [exact E|]. rewrite (proj1 T). exact (ChainExample.fd_tip c Hf).
Defined.
(** Twenty rounds of collection on the same chain. *)
Lemma collection_is_invisible_witness : exists c ended c', ChainExample.followed c /\
  garbageCollect true false (fun _ => c_maxCacheSize) (fun _ => c_maxCacheSize) 20 c = (Ok ended, c') /\ fst (details 2 c') = fst (details 2 c).
Proof.
  destruct ChainExample.follows as (c & Hf). exists c.
  destruct (collection_is_invisible (ChainExample.config 0) true false (fun _ => c_maxCacheSize) (fun _ => c_maxCacheSize) 20 c (ch_caches _ _ (ChainExample.fd_ok c Hf)))
    as (ended & c' & E & _ & _ & _ & _ & Q & _).
  exists ended, c'. split; [exact Hf|]. split; [exact E|]. apply Q.
Defined.
