(* ===== verification/Precompiled.v ===== *)
(** * Precompiled: the precompiled contracts that compute (libethereum/Precompiled.cpp)

    The arithmetic of [modexp] and of its price, [ecrecover], the prices of the curve operations, and the contracts that read the
    configuration.  Hash functions, key recovery and the operations on curves are parameters.  An executor that throws
    inside its [try] answers [false] and the word 0; an assertion that fails and a read through a null pointer end the program,
    and are outcomes of their own. *)

From Stdlib Require Import ZArith Lia Bool Zpow_facts.
From stdpp Require Import base list.
From S2P Require Import Prelude CommonData Rlp ChainParams Transaction.
Open Scope Z_scope.
Open Scope skaled_scope.

(** An exception, a failed assertion, a read through a null pointer, and any other undefined behaviour. *)
Inductive PFail := PThrow | PAssert | PNullRead | PUndefined.
(** Whether the call succeeds, and its output. *)
Definition PAnswer : Type := bool * list Z.
Definition word (v : Z) : list Z := toBigEndian 32 v.
(** [catch ( ... )], and the answer after it. *)
Definition catching (r : result PFail PAnswer) : result PFail PAnswer := match r with Err PThrow => Ok (false, word 0) | _ => r end.
Definition max_size : Z := 2 ^ 64 - 1.

(** [vector_ref::cropped]; [None] is the null reference. *)
Definition croppedRef (d : list Z) (begin count : Z) : option (list Z) :=
  if (begin <=? lenZ d) && (count <=? lenZ d) && (u64 (begin + count) <=? lenZ d) then Some (cropped d begin count) else None.

(** ** Numbers in the input *)

Definition bigOfBytes (l : list Z) : Z := foldl (fun r b => Z.lor (Z.shiftl r 8) b) 0 l.
Definition parseBigEndianRightPadded (d : list Z) (begin count : Z) : result PFail Z :=
  if lenZ d <? begin then Ok 0
  else if max_size / 8 <? count then Err PAssert
  else
    let c := cropped d begin (Z.min count (lenZ d - begin)) in
    if max_size / 8 <? count - lenZ c then Err PAssert else Ok (Z.shiftl (bigOfBytes c) (8 * (count - lenZ c))).

Section Contracts.
Variables (sha3 sha256 ripemd160 : list Z -> Z) (recover : SignatureStruct -> Z -> option (list Z)).

(** The argument is copied over a zeroed structure of four words. *)
Definition ecrecover (input : list Z) : PAnswer :=
  let padded := takeZ 128 (takeZ (Z.min (lenZ input) 128) input ++ replicate 128 0) in
  let field i := fromBigEndian 256 (takeZ 32 (dropZ (32 * i) padded)) in
  let v := field 1 in
  if (27 <=? v) && (v <=? 28) then
    let sig := mkSignature (field 2) (field 3) (v - 27) in
    if sig_isValid sig then
      match recover sig (field 0) with
      | Some key => (true, replicate 12 0 ++ dropZ 12 (word (sha3 key)))
      | None => (true, [])
      end
    else (true, [])
  else (true, []).
Definition pre_sha256 (input : list Z) : PAnswer := (true, word (sha256 input)).
Definition pre_ripemd160 (input : list Z) : PAnswer := (true, replicate 12 0 ++ toBigEndian 20 (ripemd160 input)).
Definition pre_identity (input : list Z) : PAnswer := (true, input).

(** ** Modular powers *)

Definition modexp (input : list Z) : result PFail PAnswer :=
  let? baseLength := parseBigEndianRightPadded input 0 32 in
  let? expLength := parseBigEndianRightPadded input 32 32 in
  let? modLength := parseBigEndianRightPadded input 64 32 in
  if max_size / 8 <? modLength then Err PAssert
  else if max_size / 8 <? baseLength then Err PAssert
  else if (modLength =? 0) && (baseLength =? 0) then Ok (true, [])
  else if max_size / 8 <? expLength then Err PAssert
  else
    let? base := parseBigEndianRightPadded input 96 baseLength in
    let? exp := parseBigEndianRightPadded input (96 + baseLength) expLength in
    let? modulus := parseBigEndianRightPadded input (96 + baseLength + expLength) modLength in
    let result := if modulus =? 0 then 0 else Zpow_mod base exp modulus in
    Ok (true, toBigEndian (Z.to_nat modLength) result).

Definition msb (x : Z) : Z := Z.log2 x.
Definition expLengthAdjust (expOffset expLength : Z) (input : list Z) : result PFail Z :=
  if expLength <=? 32 then
    let? exp := parseBigEndianRightPadded input expOffset expLength in
    Ok (if exp =? 0 then 0 else msb exp)
  else
    let? first := parseBigEndianRightPadded input expOffset 32 in
    Ok (8 * (expLength - 32) + (if first =? 0 then 0 else msb first)).
Definition multComplexity (x : Z) : Z :=
  if x <=? 64 then x * x
  else if x <=? 1024 then x * x / 4 + 96 * x - 3072
  else x * x / 16 + 480 * x - 199680.
Definition price_modexp (input : list Z) : result PFail Z :=
  let? baseLength := parseBigEndianRightPadded input 0 32 in
  let? expLength := parseBigEndianRightPadded input 32 32 in
  let? modLength := parseBigEndianRightPadded input 64 32 in
  let maxLength := Z.max modLength baseLength in
  let? adjusted := expLengthAdjust (baseLength + 96) expLength input in
  Ok (multComplexity maxLength * Z.max adjusted 1 / 20).

Definition price_alt_bn128_G1_add (input : list Z) (f : ForkBlocks) (number : Z) : Z := if number <? istanbulForkBlock f then 500 else 150.
Definition price_alt_bn128_G1_mul (input : list Z) (f : ForkBlocks) (number : Z) : Z := if number <? istanbulForkBlock f then 40000 else 6000.
Definition price_alt_bn128_pairing_product (input : list Z) (f : ForkBlocks) (number : Z) : Z :=
  let k := lenZ input / 192 in if number <? istanbulForkBlock f then 100000 + k * 80000 else 45000 + k * 34000.
End Contracts.

(** ** Strings in the input *)

(** The string at a position: its length in a word, then its bytes; the sum of the test is a [size_t]. *)
Definition convertBytesToString (d : list Z) (start : Z) : result PFail (list Z) :=
  if lenZ d <? 32 then Err PThrow
  else
    let? long := parseBigEndianRightPadded d start 32 in
    let len := u64 long in
    if lenZ d <? u64 (start + 32 + len) then Err PThrow
    else match croppedRef d (start + 32) len with
         | Some s => Ok s
         | None => if len =? 0 then Ok [] else Err PThrow
         end.
(** The argument of the caller's address: a short input gives no bytes. *)
Definition rawAddress (d : list Z) : list Z := cropped d 12 20.

(** ** The input as it is meant: followed by zeros *)

Definition padded (d : list Z) (begin count : Z) : list Z :=
  let c := takeZ count (dropZ begin d) in c ++ replicate (Z.to_nat (count - lenZ c)) 0.

Lemma bigOfBytes_unbe l : bytes_ok l -> bigOfBytes l = unbe l.
Proof.
  unfold bigOfBytes, unbe. assert (Hg : forall a, 0 <= a -> bytes_ok l -> foldl (fun r b => Z.lor (Z.shiftl r 8) b) a l = foldl (fun a b => a * 256 + b) a l); [|by apply Hg].
  induction l as [|b l IH]; intros a Ha Hl; [done|]. apply Forall_cons in Hl as [Hb Hl]. cbn [foldl]. rewrite lor_shift8 by done.
  apply IH; [unfold is_byte in Hb; lia|done].
Qed.
Lemma unbe_zeros n : unbe (replicate n 0) = 0.
Proof. induction n as [|n IH]; [done|]. cbn [replicate]. by rewrite unbe_cons, IH. Qed.
Lemma padded_length d b n : 0 <= n -> lenZ (padded d b n) = n.
Proof.
  intros Hn. unfold padded. set (c := takeZ n (dropZ b d)). rewrite lenZ_app. unfold lenZ at 2. rewrite length_replicate.
  assert (lenZ c <= n) by (unfold c, takeZ, lenZ; rewrite length_take; lia). pose proof (lenZ_nonneg c). lia.
Qed.
Lemma padded_unbe d b n : 0 <= n -> bytes_ok d -> let c := takeZ n (dropZ b d) in unbe (padded d b n) = Z.shiftl (unbe c) (8 * (n - lenZ c)).
Proof.
  intros Hn Hd c. assert (Hc : 0 <= lenZ c <= n) by (unfold c, takeZ, lenZ; rewrite length_take; lia).
  unfold padded. fold c. rewrite unbe_app, unbe_zeros, Z.add_0_r, Z.shiftl_mul_pow2, Z.pow_mul_r by lia.
  unfold lenZ at 1. rewrite length_replicate, Z2Nat.id by lia. done.
Qed.
Lemma takeZ_dropZ_bytes d b n : bytes_ok d -> bytes_ok (takeZ n (dropZ b d)).
Proof. intros Hd. unfold takeZ, dropZ. by apply Forall_take, Forall_drop. Qed.
Lemma parse_padded d begin count : bytes_ok d -> lenZ d < 2 ^ 64 -> 0 <= begin -> 0 <= count <= max_size / 8 ->
  parseBigEndianRightPadded d begin count = Ok (unbe (padded d begin count)).
Proof.
  intros Hd Hs Hb Hc. unfold parseBigEndianRightPadded. pose proof (lenZ_nonneg d) as Hd0. destruct (Z.ltb_spec (lenZ d) begin) as [Hlt|Hle].
  - rewrite padded_unbe by (done || lia). assert (E : dropZ begin d = []) by (apply drop_ge; unfold lenZ in *; lia). rewrite E.
    unfold takeZ. rewrite take_nil. f_equal. symmetry. apply Z.shiftl_0_l.
  - rewrite (proj2 (Z.ltb_ge _ _)) by lia. set (n := Z.min count (lenZ d - begin)).
    assert (Ec : cropped d begin n = takeZ count (dropZ begin d)).
    { unfold cropped. assert (Hu : u64 (begin + n) = begin + n) by (apply wrap_small; lia). rewrite Hu.
      rewrite (proj2 (Z.leb_le begin (lenZ d))), (proj2 (Z.leb_le n (lenZ d))), (proj2 (Z.leb_le (begin + n) (lenZ d))) by lia. cbn [andb].
      rewrite (proj2 (Z.eqb_neq n (2 ^ 64 - 1))) by (unfold max_size in Hc; Z.to_euclidean_division_equations; lia).
      destruct (Z.le_gt_cases count (lenZ d - begin)) as [Hle'|Hgt]; [unfold n; by rewrite Z.min_l|].
      unfold n. rewrite Z.min_r by lia. pose proof (lenZ_dropZ begin d ltac:(lia)) as El. by rewrite !takeZ_all by lia. }
    rewrite Ec, padded_unbe by (done || lia). set (c := takeZ count (dropZ begin d)).
    rewrite (proj2 (Z.ltb_ge _ _)) by (pose proof (lenZ_nonneg c); lia). by rewrite bigOfBytes_unbe by (by apply takeZ_dropZ_bytes).
Qed.
Lemma padded_bytes d b n : bytes_ok d -> bytes_ok (padded d b n).
Proof. intros Hd. apply Forall_app. split; [by apply takeZ_dropZ_bytes|]. apply Forall_replicate. unfold is_byte. lia. Qed.

(** The four numbers that the input of [modexp] has. *)
Definition baseLen (d : list Z) : Z := unbe (padded d 0 32).
Definition expLen (d : list Z) : Z := unbe (padded d 32 32).
Definition modLen (d : list Z) : Z := unbe (padded d 64 32).
Definition baseOf (d : list Z) : Z := unbe (padded d 96 (baseLen d)).
Definition expOf (d : list Z) : Z := unbe (padded d (96 + baseLen d) (expLen d)).
Definition modulusOf (d : list Z) : Z := unbe (padded d (96 + baseLen d + expLen d) (modLen d)).

Lemma padded_bound d b n : bytes_ok d -> 0 <= n -> 0 <= unbe (padded d b n) < 256 ^ n.
Proof. intros Hd Hn. pose proof (unbe_bound _ (padded_bytes d b n Hd)) as H. by rewrite padded_length in H. Qed.
Lemma complexity_pos x : 1 <= x -> 1 <= multComplexity x.
Proof.
  intros Hx. unfold multComplexity. destruct (Z.leb_spec x 64); [nia|]. destruct (Z.leb_spec x 1024).
  - assert (64 * 64 / 4 <= x * x / 4) by (apply Z.div_le_mono; nia). change (64 * 64 / 4) with 1024 in *. lia.
  - assert (0 <= x * x / 16) by (apply Z.div_pos; nia). lia.
Qed.
Lemma complexity_large x : 2 ^ 61 <= x -> 2 ^ 100 <= multComplexity x.
Proof.
  intros Hx. unfold multComplexity. rewrite !(proj2 (Z.leb_gt _ _)) by lia.
  assert (2 ^ 61 * 2 ^ 61 / 16 <= x * x / 16) by (apply Z.div_le_mono; nia). change (2 ^ 61 * 2 ^ 61 / 16) with (2 ^ 118) in *. lia.
Qed.
Lemma adjust_total d off len : bytes_ok d -> lenZ d < 2 ^ 64 -> 0 <= off -> 0 <= len -> exists a, expLengthAdjust off len d = Ok a /\ 8 * (len - 32) <= a /\ 0 <= a.
Proof.
  intros Hd Hs Ho Hl. unfold expLengthAdjust.
  assert (Hm : 32 <= max_size / 8) by (vm_compute; congruence). destruct (Z.leb_spec len 32).
  - rewrite parse_padded by (done || lia). cbn [rbind]. eexists. split; [done|]. destruct (_ =? 0); pose proof (Z.log2_nonneg (unbe (padded d off len))); unfold msb; lia.
  - rewrite parse_padded by (done || lia). cbn [rbind]. eexists. split; [done|]. destruct (_ =? 0); pose proof (Z.log2_nonneg (unbe (padded d off 32))); unfold msb; lia.
Qed.
(** The lengths that the assertions accept, and the price below which lengths are such; it is what an exponent of 2^61 bytes costs at least. *)
Definition lengths_fit (d : list Z) : bool :=
  (modLen d <=? max_size / 8) && (baseLen d <=? max_size / 8) && ((modLen d =? 0) && (baseLen d =? 0) || (expLen d <=? max_size / 8)).
Definition assertion_price : Z := (2 ^ 64 - 256) / 20.
Lemma priced_lengths d p : bytes_ok d -> lenZ d < 2 ^ 64 -> price_modexp d = Ok p -> p < assertion_price -> lengths_fit d = true.
Proof.
  intros Hd Hs Hp Hlt. change assertion_price with 922337203685477568 in Hlt. assert (Hm : 32 <= max_size / 8) by (vm_compute; congruence). unfold price_modexp in Hp.
  rewrite !parse_padded in Hp by (done || lia). cbn [rbind] in Hp. fold (baseLen d) (expLen d) (modLen d) in Hp.
  pose proof (padded_bound d 0 32 Hd ltac:(lia)) as Hb. pose proof (padded_bound d 32 32 Hd ltac:(lia)) as He. pose proof (padded_bound d 64 32 Hd ltac:(lia)) as Hmo.
  fold (baseLen d) in Hb. fold (expLen d) in He. fold (modLen d) in Hmo.
  destruct (adjust_total d (baseLen d + 96) (expLen d) Hd Hs ltac:(lia) ltac:(lia)) as (a & Ea & Ha & Ha0). rewrite Ea in Hp. cbn [rbind] in Hp.
  injection Hp as <-. set (M := Z.max (modLen d) (baseLen d)) in *. change (max_size / 8) with (2 ^ 61 - 1).
  assert (HM : M <= 2 ^ 61 - 1).
  { destruct (Z.le_gt_cases M (2 ^ 61 - 1)) as [|Hgt]; [done|]. pose proof (complexity_large M ltac:(lia)) as Hc.
    assert (2 ^ 100 / 20 <= multComplexity M * Z.max a 1 / 20) by (apply Z.div_le_mono; [lia|nia]). change (2 ^ 100 / 20) with 63382530011411470074835160268 in *. lia. }
  unfold lengths_fit. change (max_size / 8) with (2 ^ 61 - 1). rewrite !andb_true_iff, orb_true_iff, andb_true_iff, !Z.leb_le, !Z.eqb_eq.
  split; [lia|]. destruct (Z.eq_dec M 0); [left; lia|]. right.
  destruct (Z.le_gt_cases (expLen d) (2 ^ 61 - 1)) as [|Hgt]; [done|]. pose proof (complexity_pos M ltac:(lia)) as Hc.
  assert ((2 ^ 64 - 256) / 20 <= multComplexity M * Z.max a 1 / 20) by (apply Z.div_le_mono; [lia|nia]).
  change ((2 ^ 64 - 256) / 20) with 922337203685477568 in *. lia.
Qed.

(** The bound is exact: an exponent of 2^61 bytes with a modulus of one byte costs [assertion_price], and an assertion fails. *)
Lemma modexp_assertion_reached : let d := word 0 ++ word (2 ^ 61) ++ word 1 in price_modexp d = Ok assertion_price /\ modexp d = Err PAssert.
Proof. split; vm_compute; reflexivity. Qed.

(** C10: [modexp] on any input: when the lengths of its numbers are ones that the assertions of the code accept (at most 2^61 - 1, where the
    exponent's is not looked at if the other two are 0), the output is the power modulo the modulus (0 for the
    modulus 0), in as many bytes as the modulus has, all numbers read from the input followed by zeros; for any other lengths an assertion fails.  No assertion fails
    when the price of the call is below [assertion_price], and one does for an input of exactly that price.  Memory is taken to be unbounded. *)
Theorem modexp_is_power (d : list Z) : bytes_ok d -> lenZ d < 2 ^ 64 ->
  (if lengths_fit d
   then exists out, modexp d = Ok (true, out) /\ lenZ out = modLen d /\
          unbe out = (if modulusOf d =? 0 then 0 else baseOf d ^ expOf d mod modulusOf d)
   else modexp d = Err PAssert)
  /\ (forall p, price_modexp d = Ok p -> p < assertion_price -> lengths_fit d = true)
  /\ (exists d', price_modexp d' = Ok assertion_price /\ modexp d' = Err PAssert).
Proof.
  intros Hd Hs. split; [|split; [intros p; by apply priced_lengths|eexists; exact modexp_assertion_reached]]. assert (Hm : 32 <= max_size / 8) by (vm_compute; congruence).
  pose proof (padded_bound d 0 32 Hd ltac:(lia)) as Hb. pose proof (padded_bound d 32 32 Hd ltac:(lia)) as He. pose proof (padded_bound d 64 32 Hd ltac:(lia)) as Hmo.
  fold (baseLen d) in Hb. fold (expLen d) in He. fold (modLen d) in Hmo.
  unfold modexp. rewrite !parse_padded by (done || lia). cbn [rbind]. fold (baseLen d) (expLen d) (modLen d).
  unfold lengths_fit. rewrite !(Z.leb_antisym (max_size / 8)). destruct (Z.ltb_spec (max_size / 8) (modLen d)); [done|]. destruct (Z.ltb_spec (max_size / 8) (baseLen d)); [done|].
  cbn [negb andb]. destruct ((modLen d =? 0) && (baseLen d =? 0)) eqn:E0; cbn [orb].
  { apply andb_true_iff in E0 as [E1%Z.eqb_eq E2%Z.eqb_eq]. exists []. split; [done|]. rewrite E1. split; [done|].
    unfold modulusOf. rewrite E1. assert (padded d (96 + baseLen d + expLen d) 0 = []) as -> by (apply lenZ_0; by rewrite padded_length). done. }
  destruct (Z.ltb_spec (max_size / 8) (expLen d)) as [|Le]; [done|]. cbn [negb]. rewrite !parse_padded by (done || lia). cbn [rbind].
  fold (baseOf d) (expOf d) (modulusOf d). pose proof (padded_bound d (96 + baseLen d + expLen d) (modLen d) Hd ltac:(lia)) as HM. fold (modulusOf d) in HM.
  pose proof (padded_bound d (96 + baseLen d) (expLen d) Hd ltac:(lia)) as HE. fold (expOf d) in HE.
  eexists. split; [done|]. rewrite toBigEndian_lenZ, Z2Nat.id by lia. split; [done|]. destruct (Z.eqb_spec (modulusOf d) 0) as [Ez|Hnz].
  - by rewrite unbe_toBigEndian, Zmod_0_l by lia.
  - rewrite Zpow_mod_correct by done. pose proof (Z.mod_pos_bound (baseOf d ^ expOf d) (modulusOf d) ltac:(lia)).
    rewrite unbe_toBigEndian, Z2Nat.id by lia. apply Z.mod_small. lia.
Qed.

(** 3 ^ 5 modulo 7. *)
Lemma modexp_is_power_witness : exists out, modexp (word 1 ++ word 1 ++ word 1 ++ [3; 5; 7]) = Ok (true, out) /\ lenZ out = 1 /\ unbe out = 5.
Proof.
  destruct (proj1 (modexp_is_power (word 1 ++ word 1 ++ word 1 ++ [3; 5; 7]) ltac:(by apply (bool_decide_unpack _); vm_compute) ltac:(by vm_compute))) as (out & E & Hl & Hv).
  exists out. split; [exact E|]. split; [exact Hl|]. rewrite Hv. by vm_compute.
Defined.
