(* ===== verification/FileStorage.v ===== *)
(** * FileStorage: the precompiled contracts of the file storage (libethereum/Precompiled.cpp, libskale/OverlayFS.h and .cpp)

    A transaction's operations on files wait in the overlay and run when it commits, or run at once when the overlay's cache is off.
    The file system and Boost's paths are parameters; a path is the list of its characters. *)

From Stdlib Require Import ZArith Lia Bool.
From stdpp Require Import base list.
From S2P Require Import Prelude CommonData Rlp Precompiled.
Open Scope Z_scope.
Open Scope skaled_scope.

(** ** The overlay *)

Inductive FsOp :=
| CreateFileOp (filePath : list Z) (fileSize : Z)
| CreateDirectoryOp (path : list Z)
| DeleteFileOp (path : list Z)
| DeleteDirectoryOp (path : list Z)
| WriteChunkOp (path : list Z) (position : Z) (data : list Z)
| CalculateFileHash (path : list Z).
Record OverlayFS := mkOverlayFS { m_cache : list FsOp; m_isCacheEnabled : bool }.

(** What is used of the operating system and of Boost.  A path names a regular file that streams can open, with its bytes, or nothing they can
    open.  An answer [None] of an operation is an exception of Boost. *)
Class FileSystem (D : Type) := {
  file_content : D -> list Z -> option (list Z);
  file_creatable : D -> list Z -> bool;
  file_put : list Z -> list Z -> D -> D;
  fs_exists : D -> list Z -> bool;
  fs_canonical : D -> list Z -> option (list Z);
  fs_create_directories : list Z -> D -> option bool * D;
  fs_remove : list Z -> D -> option bool * D;
  fs_remove_all : list Z -> D -> option Z * D }.
(** Boost's paths: [p / q], the parts of a path, and the directory of the program's data. *)
Class Paths := {
  getDataDir : list Z;
  path_append : list Z -> list Z -> list Z;
  parent_path : list Z -> list Z;
  filename : list Z -> list Z;
  extension : list Z -> list Z }.
(** SHA-256 of the secp256k1 library. *)
Class Sha256 := { sha256 : list Z -> Z }.

Definition str_filestorage : list Z := [102; 105; 108; 101; 115; 116; 111; 114; 97; 103; 101].
Definition str_hash : list Z := [46; 95; 104; 97; 115; 104].

(** ** The operations *)

(** The bytes of a file after a write: a gap behind its old end is zeros. *)
Definition overwrite (old : list Z) (pos : Z) (data : list Z) : list Z :=
  takeZ pos (old ++ replicate (Z.to_nat (pos - lenZ old)) 0) ++ data ++ dropZ (pos + lenZ data) old.
(** [seekp] and [write] of a stream without exceptions: to a negative position the first fails and the second does nothing. *)
Definition streamWrite (old : list Z) (pos : Z) (data : list Z) : list Z := if pos <? 0 then old else overwrite old pos data.
(** [s.substr( s.find( pat ) )]; it throws when there is none. *)
Fixpoint substrFrom (pat s : list Z) : option (list Z) :=
  if bool_decide (pat `prefix_of` s) then Some s else match s with [] => None | _ :: t => substrFrom pat t end.

Section Execute.
Context {D : Type} `{FileSystem D} `{Sha256}.
(** What [execute] returns, and the disk; nothing where its behaviour is undefined.  A file that does not open is no failure of a stream without exceptions. *)
Abbreviation Done := (option (bool * D)).

(** [static_cast< long >( fileSize ) - 1] overflows for one size. *)
Definition executeCreateFile (filePath : list Z) (fileSize : Z) (d : D) : Done :=
  if (0 <? fileSize) && (i64 fileSize =? - 2 ^ 63) then None
  else
    let content := if 0 <? fileSize then streamWrite [] (i64 fileSize - 1) [48] else [] in
    Some (true, if file_creatable d filePath then file_put filePath content d else d).
Definition executeCreateDirectory (path : list Z) (d : D) : Done :=
  match fs_create_directories path d with (Some true, d') => Some (true, d') | (_, d') => Some (false, d') end.
Definition executeDeleteFile (path : list Z) (d : D) : Done :=
  match fs_remove path d with (Some true, d') => Some (true, d') | (_, d') => Some (false, d') end.
Definition executeDeleteDirectory (path : list Z) (d : D) : Done :=
  match fs_remove_all path d with (Some n, d') => Some (negb (n =? 0), d') | (None, d') => Some (false, d') end.
(** [&this->data[0]] is undefined for no data. *)
Definition executeWriteChunk (path : list Z) (position : Z) (data : list Z) (d : D) : Done :=
  if bool_decide (data = []) then None
  else
    Some (true, match file_content d path with
                | Some old => file_put path (streamWrite old (i64 position) data) d
                | None => d
                end).
(** A file that does not open has the size -1, for which there is no string. *)
Definition executeCalculateFileHash (path : list Z) (d : D) : Done :=
  match file_content d path, substrFrom str_filestorage path with
  | Some fileContent, Some relativePath =>
      let fileHashName := path ++ str_hash in
      let commonFileHash := sha256 (toBigEndian 32 (sha256 relativePath) ++ toBigEndian 32 (sha256 fileContent)) in
      Some (true, if file_creatable d fileHashName then file_put fileHashName (toHex [] (toBigEndian 32 commonFileHash)) d else d)
  | _, _ => Some (false, d)
  end.
Definition execute (op : FsOp) : D -> Done :=
  match op with
  | CreateFileOp filePath fileSize => executeCreateFile filePath fileSize
  | CreateDirectoryOp path => executeCreateDirectory path
  | DeleteFileOp path => executeDeleteFile path
  | DeleteDirectoryOp path => executeDeleteDirectory path
  | WriteChunkOp path position data => executeWriteChunk path position data
  | CalculateFileHash path => executeCalculateFileHash path
  end.
Fixpoint executeAll (ops : list FsOp) (d : D) : option D :=
  match ops with [] => Some d | op :: ops => match execute op d with Some (_, d') => executeAll ops d' | None => None end end.
End Execute.

Section Storage.
Context {D : Type} `{FileSystem D} `{Paths} `{Sha256}.
Abbreviation S := (OverlayFS * D)%type.

Definition FM (A : Type) : Type := S -> result PFail A * S.
Definition fret {A} (a : A) : FM A := fun s => (Ok a, s).
Definition fbind {A C} (m : FM A) (k : A -> FM C) : FM C := fun s => match m s with (Ok a, s') => k a s' | (Err e, s') => (Err e, s') end.
Definition fthrow {A} (e : PFail) : FM A := fun s => (Err e, s).
Definition flift {A} (r : result PFail A) : FM A := fun s => (r, s).
Definition fdisk {A} (f : D -> A) : FM A := fun s => (Ok (f (snd s)), s).

(** Every operation of the overlay; what [execute] returns is not looked at. *)
Definition perform (op : FsOp) : FM unit := fun '(o, d) =>
  if m_isCacheEnabled o then (Ok tt, (mkOverlayFS (m_cache o ++ [op]) true, d))
  else match execute op d with Some (_, d') => (Ok tt, (o, d')) | None => (Err PUndefined, (o, d)) end.
(** [None] when one of the operations has no defined behaviour. *)
Definition ofs_commit (s : S) : option S :=
  let '(o, d) := s in match executeAll (m_cache o) d with Some d' => Some (mkOverlayFS [] (m_isCacheEnabled o), d') | None => None end.
Definition ofs_reset (s : S) : S := let '(o, d) := s in (mkOverlayFS [] (m_isCacheEnabled o), d).
Definition ofs_empty (o : OverlayFS) : bool := bool_decide (m_cache o = []).
End Storage.

Declare Scope storage_scope.
Notation "'let%' x := m 'in' k" := (fbind m (fun x => k)) (at level 200, x name, m at level 100, k at level 200) : storage_scope.
Notation "m ;% k" := (fbind m (fun _ => k)) (at level 199, k at level 200, right associativity) : storage_scope.
Open Scope storage_scope.

Section Contracts.
Context {D : Type} `{FileSystem D} `{Paths} `{Sha256}.
Abbreviation S := (OverlayFS * D)%type.
Abbreviation FM := (FM (D := D)).

Definition getFileStorageDir (address : list Z) : list Z := path_append (path_append getDataDir str_filestorage) (toHex [] address).
(** [Address( hex( rawAddress ) )]: twenty bytes, or zeros when the input was too short for them. *)
Definition addressOf (d : list Z) : list Z := let a := rawAddress d in if lenZ a =? 20 then a else replicate 20 0.
(** The stream throws when it does not open. *)
Definition stat_compute_file_size (path : list Z) : FM Z :=
  let% c := fdisk (fun d => file_content d path) in match c with Some bytes => fret (lenZ bytes) | None => fthrow PThrow end.

(** [try { ... } catch ( ... )]: what was done stays done, and the answer is a failure. *)
Definition ftry (m : FM PAnswer) : FM PAnswer := fun s => match m s with (r, s') => (catching r, s') end.
Definition fs_done : PAnswer := (true, word 1).
(** The contracts that need the overlay throw without it, outside of the [try]. *)
Definition withOverlay (present : bool) (m : FM PAnswer) : FM PAnswer := if present then m else fthrow PThrow.
Definition numberAt (d : list Z) (pos : Z) : FM Z := let% v := flift (parseBigEndianRightPadded d pos 32) in fret (u64 v).
Definition blocksOf (name : list Z) : Z := (lenZ name + 31) / 32.

Definition createFile (present : bool) (d : list Z) : FM PAnswer := withOverlay present (ftry (
  let% name := flift (convertBytesToString d 32) in
  let% fileSize := numberAt d (64 + blocksOf name * 32) in
  let dir := getFileStorageDir (addressOf d) in
  let% there := fdisk (fun dk => fs_exists dk dir) in
  (if (there : bool) then fret tt else perform (CreateDirectoryOp dir)) ;%
  let path := path_append dir (parent_path name) in
  if bool_decide (extension (filename name) = str_hash) then fthrow PThrow
  else perform (CreateFileOp (path_append path (filename name)) fileSize) ;% fret fs_done)).

(** [std::vector] throws for more bytes than this. *)
Definition vector_max_size : Z := 2 ^ 63 - 1.
(** The data of the operation are copied from a pointer, which is null when the input is too short. *)
Definition writeChunk (path : list Z) (position dataLength : Z) (data : option (list Z)) : FM unit :=
  if vector_max_size <? dataLength then fthrow PThrow
  else
    match data with
    | Some bytes => perform (WriteChunkOp path position bytes)
    | None => if dataLength =? 0 then perform (WriteChunkOp path position []) else fthrow PNullRead
    end.
Definition uploadChunk (present : bool) (d : list Z) : FM PAnswer := withOverlay present (ftry (
  let% name := flift (convertBytesToString d 32) in
  let% position := numberAt d (64 + blocksOf name * 32) in
  let% dataLength := numberAt d (96 + blocksOf name * 32) in
  let path := path_append (getFileStorageDir (addressOf d)) name in
  let% size := stat_compute_file_size path in
  if size <? u64 (position + dataLength) then fthrow PThrow
  else writeChunk path position dataLength (croppedRef d (128 + blocksOf name * 32) dataLength) ;% fret fs_done)).

(** [canonicalPath.string().find( dir ) != 0] throws. *)
Definition insideStorage (d path : list Z) : FM unit :=
  let% c := fdisk (fun dk => fs_canonical dk path) in
  match c with
  | Some p => if bool_decide (getFileStorageDir (addressOf d) `prefix_of` p) then fret tt else fthrow PThrow
  | None => fthrow PThrow
  end.
(** [seekg] and [read] into a buffer of zeros, of a stream without exceptions. *)
Definition streamRead (content : option (list Z)) (pos n : Z) : list Z :=
  let got := match content with Some bytes => if pos <? 0 then [] else takeZ n (dropZ pos bytes) | None => [] end in
  got ++ replicate (Z.to_nat (n - lenZ got)) 0.
(** [&buffer[0]] is undefined for an empty buffer. *)
Definition readChunk (d : list Z) : FM PAnswer := ftry (
  let% name := flift (convertBytesToString d 32) in
  let% position := numberAt d (64 + blocksOf name * 32) in
  let% chunkLength := numberAt d (96 + blocksOf name * 32) in
  let path := path_append (getFileStorageDir (addressOf d)) name in
  insideStorage d path ;%
  let% size := stat_compute_file_size path in
  if (size <? position) || (size <? u64 (position + chunkLength)) then fthrow PThrow
  else if vector_max_size <? chunkLength then fthrow PThrow
  else if chunkLength =? 0 then fthrow PUndefined
  else let% bytes := fdisk (fun dk => streamRead (file_content dk path) (i64 position) chunkLength) in fret (true, bytes)).
Definition getFileSize (d : list Z) : FM PAnswer := ftry (
  let% name := flift (convertBytesToString d 32) in
  let path := path_append (getFileStorageDir (addressOf d)) name in
  insideStorage d path ;% let% size := stat_compute_file_size path in fret (true, word size)).
Definition deleteFile (present : bool) (d : list Z) : FM PAnswer := withOverlay present (ftry (
  let% name := flift (convertBytesToString d 32) in
  let path := path_append (getFileStorageDir (addressOf d)) name in
  perform (DeleteFileOp path) ;% perform (DeleteFileOp (path ++ str_hash)) ;% fret fs_done)).
Definition createDirectory (present : bool) (d : list Z) : FM PAnswer := withOverlay present (ftry (
  let% name := flift (convertBytesToString d 32) in
  perform (CreateDirectoryOp (path_append (getFileStorageDir (addressOf d)) name)) ;% fret fs_done)).
Definition deleteDirectory (present : bool) (d : list Z) : FM PAnswer := withOverlay present (ftry (
  let% name := flift (convertBytesToString d 32) in
  let path := path_append (getFileStorageDir (addressOf d)) name in
  let% there := fdisk (fun dk => fs_exists dk path) in
  if negb there then fthrow PThrow
  else perform (DeleteFileOp (path ++ str_hash)) ;% perform (DeleteDirectoryOp path) ;% fret fs_done)).
(** This one does not ask whether there is an overlay. *)
Definition calculateFileHash (present : bool) (d : list Z) : FM PAnswer := ftry (
  let% name := flift (convertBytesToString d 32) in
  let path := path_append (getFileStorageDir (addressOf d)) name in
  let% there := fdisk (fun dk => fs_exists dk path) in
  if negb there then fthrow PThrow
  else (if present then perform (CalculateFileHash path) else fthrow PNullRead) ;% fret fs_done).
End Contracts.

(** ** The layout of a call *)

(** The caller's address in a word, the length of the name in a word, the name filled up to words, and the other arguments. *)
Definition callData (addr name rest : list Z) : list Z :=
  replicate 12 0 ++ addr ++ word (lenZ name) ++ name ++ replicate (Z.to_nat (blocksOf name * 32 - lenZ name)) 0 ++ rest.

Section Layout.
Variables addr name rest : list Z.
Hypothesis Haddr : lenZ addr = 20.
Hypothesis Hbytes : bytes_ok addr /\ bytes_ok name /\ bytes_ok rest.
Hypothesis Hsmall : lenZ (callData addr name rest) < 2 ^ 63.

Lemma blocks_cover : lenZ name <= blocksOf name * 32 < lenZ name + 32.
Proof. unfold blocksOf. pose proof (lenZ_nonneg name). Z.to_euclidean_division_equations; lia. Qed.
Lemma word_bytes v : bytes_ok (word v) /\ lenZ (word v) = 32.
Proof. split; [apply toBigEndian_ok|exact (toBigEndian_lenZ 32 v)]. Qed.
Lemma word_lenZ v : lenZ (word v) = 32.
Proof. apply word_bytes. Qed.
Lemma callData_length : lenZ (callData addr name rest) = 64 + blocksOf name * 32 + lenZ rest.
Proof.
  unfold callData. rewrite !lenZ_app, !lenZ_replicate_nat, Haddr, (proj2 (word_bytes _)). pose proof blocks_cover. rewrite Z2Nat.id by lia. lia.
Qed.
Lemma callData_bytes : bytes_ok (callData addr name rest).
Proof.
  destruct Hbytes as (H1 & H2 & H3). assert (Hz : forall n, bytes_ok (replicate n 0)) by (intros n; apply Forall_replicate; unfold is_byte; lia).
  unfold callData. rewrite !bytes_ok_app. split_and!; try done. apply word_bytes.
Qed.
(** A word that stands at a position is read there. *)
Lemma word_at d pre post v pos : d = pre ++ word v ++ post -> lenZ pre = pos -> bytes_ok d -> lenZ d < 2 ^ 63 -> 0 <= v < 2 ^ 256 -> parseBigEndianRightPadded d pos 32 = Ok v.
Proof.
  intros Hd <- Hb Hs Hv. rewrite parse_padded; [|done|lia|apply lenZ_nonneg|by split]. destruct (word_bytes v) as [_ Hw].
  assert (Hp : padded d (lenZ pre) 32 = word v).
  { unfold padded. rewrite Hd, dropZ_app, takeZ_app by (done || lia). rewrite Hw. by rewrite app_nil_r. }
  rewrite Hp. f_equal. unfold word. rewrite unbe_toBigEndian by lia. by apply Z.mod_small.
Qed.
(** Bytes that stand at a position are cropped there. *)
Lemma cropped_at d pre x post pos n : d = pre ++ x ++ post -> lenZ pre = pos -> lenZ x = n -> lenZ d < 2 ^ 63 ->
  (pos <=? lenZ d) && (n <=? lenZ d) && (u64 (pos + n) <=? lenZ d) = true /\ cropped d pos n = x.
Proof.
  intros -> <- <- Hs. pose proof (lenZ_nonneg pre). pose proof (lenZ_nonneg x). pose proof (lenZ_nonneg post). rewrite !lenZ_app in *.
  assert (E : (lenZ pre <=? lenZ pre + (lenZ x + lenZ post)) && (lenZ x <=? lenZ pre + (lenZ x + lenZ post)) && (u64 (lenZ pre + lenZ x) <=? lenZ pre + (lenZ x + lenZ post)) = true).
  { rewrite (wrap_small 64) by lia. rewrite (proj2 (Z.leb_le _ _)), (proj2 (Z.leb_le _ _)), (proj2 (Z.leb_le _ _)) by lia. done. }
  split; [done|]. unfold cropped. rewrite !lenZ_app, E, (proj2 (Z.eqb_neq _ _)) by lia. by rewrite dropZ_app, takeZ_app.
Qed.
Lemma croppedRef_at d pre x post pos n : d = pre ++ x ++ post -> lenZ pre = pos -> lenZ x = n -> lenZ d < 2 ^ 63 -> croppedRef d pos n = Some x.
Proof. intros Hd Hp Hn Hs. destruct (cropped_at d pre x post pos n Hd Hp Hn Hs) as [E1 E2]. unfold croppedRef. by rewrite E1, E2. Qed.
Lemma name_read : convertBytesToString (callData addr name rest) 32 = Ok name.
Proof.
  pose proof callData_length as Hl. pose proof blocks_cover as Hc. pose proof (lenZ_nonneg rest). pose proof (lenZ_nonneg name). unfold convertBytesToString.
  rewrite (proj2 (Z.ltb_ge _ 32)) by lia. assert (Hv : 0 <= lenZ name < 2 ^ 256) by (split; [lia|]; apply Z.lt_trans with (2 ^ 63); [lia|reflexivity]).
  assert (Hw : parseBigEndianRightPadded (callData addr name rest) 32 32 = Ok (lenZ name)).
  { apply (word_at _ (replicate 12 0 ++ addr) (name ++ replicate (Z.to_nat (blocksOf name * 32 - lenZ name)) 0 ++ rest)); [|by rewrite lenZ_app, Haddr|apply callData_bytes|done|done].
    unfold callData. by rewrite <- (app_assoc (replicate 12 0)). }
  rewrite Hw.
  cbn [rbind]. rewrite (wrap_small 64 (lenZ name)) by lia. rewrite (wrap_small 64) by lia. rewrite (proj2 (Z.ltb_ge _ (32 + 32 + lenZ name))) by lia.
  rewrite (croppedRef_at _ (replicate 12 0 ++ addr ++ word (lenZ name)) name (replicate (Z.to_nat (blocksOf name * 32 - lenZ name)) 0 ++ rest)); [done| | |done|done].
  - unfold callData. by rewrite <- (app_assoc (replicate 12 0)), <- app_assoc.
  - by rewrite !lenZ_app, Haddr, (proj2 (word_bytes _)).
Qed.
Lemma address_read : addressOf (callData addr name rest) = addr.
Proof.
  pose proof callData_length as Hl. pose proof blocks_cover. pose proof (lenZ_nonneg rest). pose proof (lenZ_nonneg name). unfold addressOf, rawAddress.
  destruct (cropped_at (callData addr name rest) (replicate 12 0) addr (word (lenZ name) ++ name ++ replicate (Z.to_nat (blocksOf name * 32 - lenZ name)) 0 ++ rest) 12 20)
    as [_ ->]; try done. by rewrite Haddr.
Qed.
Lemma number_read {D} pre post v pos : rest = pre ++ word v ++ post -> lenZ pre = pos -> 0 <= v < 2 ^ 64 ->
  numberAt (D := D) (callData addr name rest) (64 + blocksOf name * 32 + pos) = fret v.
Proof.
  intros Hr Hp Hv. pose proof blocks_cover. unfold numberAt.
  rewrite (word_at _ ((replicate 12 0 ++ addr ++ word (lenZ name) ++ name ++ replicate (Z.to_nat (blocksOf name * 32 - lenZ name)) 0) ++ pre) post v).
  - unfold fbind, flift, fret. by rewrite wrap_small.
  - unfold callData. rewrite Hr. by rewrite <- !app_assoc.
  - rewrite !lenZ_app, !lenZ_replicate_nat, Haddr, (proj2 (word_bytes _)), Z2Nat.id by lia. lia.
  - apply callData_bytes.
  - done.
  - split; [lia|]. apply Z.lt_trans with (2 ^ 64); [lia|reflexivity].
Qed.
End Layout.

(** ** What the contracts do *)

(** A file that can be opened, written with as many bytes as it has, has these bytes afterwards and is where it was. *)
Class FileSystemLaws (D : Type) `{FileSystem D} := {
  put_content : forall dk p old new, file_content dk p = Some old -> lenZ new = lenZ old -> file_content (file_put p new dk) p = Some new;
  put_canonical : forall dk p old new q, file_content dk p = Some old -> lenZ new = lenZ old -> fs_canonical (file_put p new dk) q = fs_canonical dk q }.

Section Theorems.
Context {D : Type} `{FileSystem D} `{Paths} `{Sha256}.
Abbreviation S := (OverlayFS * D)%type.
Implicit Types (o : OverlayFS) (dk : D).

(** A call of the storage, as the machine makes it. *)
Inductive StorageCall := CreateFile | UploadChunk | ReadChunk | GetFileSize | DeleteFile | CreateDirectory | DeleteDirectory | FileHash.
Definition runCall (c : StorageCall) (d : list Z) : FM (D := D) PAnswer :=
  match c with
  | CreateFile => createFile true d | UploadChunk => uploadChunk true d | ReadChunk => readChunk d | GetFileSize => getFileSize d
  | DeleteFile => deleteFile true d | CreateDirectory => createDirectory true d | DeleteDirectory => deleteDirectory true d
  | FileHash => calculateFileHash true d
  end.

(** The operations that a call stands for, in their order, on a disk that has not changed yet; none when the call fails. *)
Definition argument (d name : list Z) (i : Z) : option Z :=
  match parseBigEndianRightPadded d (64 + blocksOf name * 32 + 32 * i) 32 with Ok v => Some (u64 v) | Err _ => None end.
Definition uploadedOps (path : list Z) (size : option Z) (position n : Z) (data : option (list Z)) : list FsOp :=
  match size with
  | Some size =>
      if (u64 (position + n) <=? size) && (n <=? vector_max_size)
      then match data with Some bytes => [WriteChunkOp path position bytes] | None => if n =? 0 then [WriteChunkOp path position []] else [] end
      else []
  | None => []
  end.
Definition queuedBy (dk : D) (c : StorageCall) (d : list Z) : list FsOp :=
  match convertBytesToString d 32 with
  | Err _ => []
  | Ok name =>
      let dir := getFileStorageDir (addressOf d) in
      let path := path_append dir name in
      match c with
      | CreateFile =>
          match argument d name 0 with
          | Some fileSize =>
              (if fs_exists dk dir then [] else [CreateDirectoryOp dir]) ++
              (if bool_decide (extension (filename name) = str_hash) then []
               else [CreateFileOp (path_append (path_append dir (parent_path name)) (filename name)) fileSize])
          | None => []
          end
      | UploadChunk =>
          match argument d name 0, argument d name 1 with
          | Some position, Some n => uploadedOps path (lenZ <$> file_content dk path) position n (croppedRef d (128 + blocksOf name * 32) n)
          | _, _ => []
          end
      | ReadChunk | GetFileSize => []
      | DeleteFile => [DeleteFileOp path; DeleteFileOp (path ++ str_hash)]
      | CreateDirectory => [CreateDirectoryOp path]
      | DeleteDirectory => if fs_exists dk path then [DeleteFileOp (path ++ str_hash); DeleteDirectoryOp path] else []
      | FileHash => if fs_exists dk path then [CalculateFileHash path] else []
      end
  end.

(** An action that leaves the disk alone and adds these operations to the cache. *)
Definition queues {A} (dk : D) (m : FM (D := D) A) (ops : list FsOp) : Prop :=
  forall cache, exists r, m (mkOverlayFS cache true, dk) = (r, (mkOverlayFS (cache ++ ops) true, dk)).
Lemma queues_nothing {A} dk (m : FM (D := D) A) : (forall cache, snd (m (mkOverlayFS cache true, dk)) = (mkOverlayFS cache true, dk)) -> queues dk m [].
Proof. intros Hm cache. specialize (Hm cache). destruct (m _) as [r s]. exists r. cbn in Hm. by rewrite app_nil_r, Hm. Qed.
Lemma queues_try dk m ops : queues dk m ops -> queues dk (ftry m) ops.
Proof. intros Hm cache. destruct (Hm cache) as (r & E). unfold ftry. rewrite E. by eexists. Qed.
Lemma queues_read {A C} dk (r : result PFail A) (k : A -> FM (D := D) C) ops :
  match r with Ok a => queues dk (k a) ops | Err _ => ops = [] end -> queues dk (fbind (flift r) k) ops.
Proof. destruct r as [a|e]; [done|]. intros -> cache. exists (Err e). by rewrite app_nil_r. Qed.
Lemma queues_number {C} dk d name i (k : Z -> FM (D := D) C) ops pos : pos = 64 + blocksOf name * 32 + 32 * i ->
  match argument d name i with Some v => queues dk (k v) ops | None => ops = [] end -> queues dk (fbind (numberAt d pos) k) ops.
Proof.
  intros ->. unfold argument, numberAt. destruct (parseBigEndianRightPadded d _ 32) as [v|e]; [done|]. intros -> cache. exists (Err e). by rewrite app_nil_r.
Qed.
Lemma queues_ask {A C} dk (f : D -> A) (k : A -> FM (D := D) C) ops : queues dk (k (f dk)) ops -> queues dk (fbind (fdisk f) k) ops.
Proof. done. Qed.
Lemma queues_op {C} dk op (k : unit -> FM (D := D) C) ops : queues dk (k tt) ops -> queues dk (fbind (perform op) k) (op :: ops).
Proof. intros Hk cache. destruct (Hk (cache ++ [op])) as (r & E). exists r. unfold fbind, perform. cbn [m_isCacheEnabled m_cache]. by rewrite E, <- app_assoc. Qed.
Lemma queues_ret {A} dk (r : result PFail A) : queues dk (fun s => (r, s)) [].
Proof. by apply queues_nothing. Qed.
Lemma upload_ops dk path position n data :
  queues dk (let% size := stat_compute_file_size path in
             if size <? u64 (position + n) then fthrow PThrow else writeChunk path position n data ;% fret fs_done)
    (uploadedOps path (lenZ <$> file_content dk path) position n data).
Proof.
  intros cache. unfold stat_compute_file_size, uploadedOps, writeChunk, fbind, fdisk, fret, fthrow, perform. cbn [snd].
  destruct (file_content dk path) as [bytes|]; cbn [fmap option_fmap option_map]; [|eexists; by rewrite app_nil_r].
  rewrite (Z.leb_antisym (lenZ bytes)). destruct (Z.ltb_spec (lenZ bytes) (u64 (position + n))); cbn [negb andb]; [eexists; by rewrite app_nil_r|].
  rewrite (Z.leb_antisym vector_max_size). destruct (Z.ltb_spec vector_max_size n); cbn [negb]; [eexists; by rewrite app_nil_r|].
  destruct data; [by eexists|]. destruct (n =? 0); [by eexists|]. eexists. by rewrite app_nil_r.
Qed.
(** The calls that only ask. *)
Definition asks {A} (m : FM (D := D) A) : Prop := forall s, snd (m s) = s.
Lemma asks_bind {A C} (m : FM (D := D) A) (k : A -> FM (D := D) C) : asks m -> (forall a, asks (k a)) -> asks (fbind m k).
Proof. intros Hm Hk s. specialize (Hm s). unfold fbind. destruct (m s) as [[a|e] s']; cbn in Hm; subst; [apply Hk|done]. Qed.
Lemma asks_try m : asks m -> asks (ftry m).
Proof. intros Hm s. specialize (Hm s). unfold ftry. by destruct (m s). Qed.
Lemma asks_const {A} (f : S -> result PFail A) : asks (fun s => (f s, s)).
Proof. done. Qed.
Lemma asks_if {A} (b : bool) (m m' : FM (D := D) A) : asks m -> asks m' -> asks (if b then m else m').
Proof. by destruct b. Qed.
Ltac asking := repeat first
  [ apply asks_bind; [|intros ?] | apply asks_try | apply asks_if
  | match goal with |- asks (match ?x with _ => _ end) => destruct x end | exact (asks_const _) ].
Lemma asks_nothing dk c d cache : c = ReadChunk \/ c = GetFileSize -> snd (runCall c d (mkOverlayFS cache true, dk)) = (mkOverlayFS cache true, dk).
Proof.
  intros Hc. assert (Ha : asks (runCall c d)); [|apply Ha].
  destruct Hc as [-> | ->]; cbn [runCall]; unfold readChunk, getFileSize, insideStorage, stat_compute_file_size, numberAt; asking.
Qed.
Lemma runCall_queues dk c d : queues dk (runCall c d) (queuedBy dk c d).
Proof.
  assert (Hask : c = ReadChunk \/ c = GetFileSize -> queues dk (runCall c d) (queuedBy dk c d)).
  { intros Hc. assert (queuedBy dk c d = []) as -> by (unfold queuedBy; destruct (convertBytesToString d 32); by destruct Hc as [-> | ->]).
    apply queues_nothing. intros cache. by apply asks_nothing. }
  unfold queuedBy in *. destruct c; auto; cbn [runCall]; unfold createFile, uploadChunk, deleteFile, createDirectory, deleteDirectory, calculateFileHash, withOverlay;
    apply queues_try, queues_read; destruct (convertBytesToString d 32) as [name|e]; try done.
  - apply (queues_number _ _ name 0); [lia|]. destruct (argument d name 0); [|done]. apply queues_ask. destruct (fs_exists dk _).
    + cbn [app]. change (queues dk ?m ?l) with (queues dk m l). unfold fbind at 1, fret at 1. case_bool_decide; [apply queues_ret|]. apply queues_op, queues_ret.
    + apply queues_op. case_bool_decide; [apply queues_ret|]. apply queues_op, queues_ret.
  - apply (queues_number _ _ name 0); [lia|]. destruct (argument d name 0); [|done]. apply (queues_number _ _ name 1); [lia|]. destruct (argument d name 1); [|done]. apply upload_ops.
  - do 2 apply queues_op. apply queues_ret.
  - apply queues_op, queues_ret.
  - apply queues_ask. destruct (fs_exists dk _); cbn [negb]; [do 2 apply queues_op|]; apply queues_ret.
  - apply queues_ask. destruct (fs_exists dk _); cbn [negb]; [apply queues_op|]; apply queues_ret.
Qed.

(** C28: Any sequence of storage calls of a transaction, with the cache of the overlay on and empty at first: the disk stays as it was until the commit; what waits is,
    in the order of the calls, the operations that each call stands for on the disk as it was (both deletions of a deleted file, the directory before the file that is
    created in it, and none for a call that only asks or that fails); the commit runs exactly these, one after the other, its behaviour being undefined if one of
    theirs is; and a reset drops them all. *)
Theorem storage_is_transactional (calls : list (StorageCall * list Z)) (dk : D) :
  let run s := foldl (fun s '(c, d) => snd (runCall c d s)) s calls in
  let ops := concat (map (fun '(c, d) => queuedBy dk c d) calls) in
  run (mkOverlayFS [] true, dk) = (mkOverlayFS ops true, dk) /\
  ofs_commit (run (mkOverlayFS [] true, dk)) = (match executeAll ops dk with Some dk' => Some (mkOverlayFS [] true, dk') | None => None end) /\
  ofs_reset (run (mkOverlayFS [] true, dk)) = (mkOverlayFS [] true, dk).
Proof.
  cbv beta zeta. assert (Hrun : forall cache, foldl (fun s '(c, d) => snd (runCall c d s)) (mkOverlayFS cache true, dk) calls =
    (mkOverlayFS (cache ++ concat (map (fun '(c, d) => queuedBy dk c d) calls)) true, dk)).
  { induction calls as [|[c d] calls IH]; intros cache; [by rewrite app_nil_r|]. cbn [foldl map concat].
    destruct (runCall_queues dk c d cache) as (r & ->). cbn [snd]. by rewrite IH, app_assoc. }
  rewrite Hrun. done.
Qed.

(** What an upload reads from its input: [n] is the length that the input names, which need not be the length of [data]. *)
Lemma upload_reads addr name data position n old cache dk :
  let d := callData addr name (word position ++ word n ++ data) in let path := path_append (getFileStorageDir addr) name in
  lenZ addr = 20 -> bytes_ok addr -> bytes_ok name -> bytes_ok data -> lenZ d < 2 ^ 63 -> 0 <= position -> 0 <= n -> file_content dk path = Some old -> position + n <= lenZ old < 2 ^ 63 ->
  uploadChunk true d (mkOverlayFS cache true, dk) =
    ftry (writeChunk path position n (croppedRef d (128 + blocksOf name * 32) n) ;% fret fs_done) (mkOverlayFS cache true, dk).
Proof.
  intros d path Ha Ba Bn Bd Hd Hp Hn Hs Hsz. set (rest := word position ++ word n ++ data) in *.
  assert (Hb : bytes_ok addr /\ bytes_ok name /\ bytes_ok rest).
  { split; [done|]. split; [done|]. unfold rest. rewrite !bytes_ok_app. split; [apply word_bytes|]. split; [apply word_bytes|done]. }
  pose proof (number_read (D := D) addr name rest Ha Hb Hd [] (word n ++ data) position 0 eq_refl eq_refl ltac:(lia)) as E1. rewrite Z.add_0_r in E1.
  pose proof (number_read (D := D) addr name rest Ha Hb Hd (word position) data n 32 eq_refl (proj2 (word_bytes _)) ltac:(lia)) as E2.
  replace (64 + blocksOf name * 32 + 32) with (96 + blocksOf name * 32) in E2 by lia.
  unfold uploadChunk, withOverlay, ftry. unfold fbind at 1, flift. unfold d at 1. rewrite (name_read addr name rest Ha Hb Hd).
  unfold d at 1. rewrite E1. unfold fbind at 1, fret at 1. unfold d at 1. rewrite E2. unfold fbind at 1, fret at 1. unfold d at 1.
  rewrite (address_read addr name rest Ha Hd). fold path. unfold stat_compute_file_size. unfold fbind at 1 2, fdisk, fret, fthrow. cbn [snd]. rewrite Hs.
  rewrite (wrap_small 64 (position + n)), (proj2 (Z.ltb_ge _ _)) by lia. unfold d at 1. by rewrite (address_read addr name rest Ha Hd).
Qed.
Lemma data_place addr name data position n : lenZ addr = 20 ->
  let d := callData addr name (word position ++ word n ++ data) in exists pre, d = pre ++ data /\ lenZ pre = 128 + blocksOf name * 32 /\ lenZ d = 128 + blocksOf name * 32 + lenZ data.
Proof.
  intros Ha d. exists (callData addr name (word position ++ word n)). pose proof (blocks_cover name).
  rewrite callData_length, lenZ_app, !word_lenZ by done. split; [|split; [lia|unfold d; rewrite callData_length, !lenZ_app, !word_lenZ by done; lia]].
  unfold d, callData. by rewrite <- !app_assoc.
Qed.

(** An upload that the caller laid out as the contract reads it, within the bounds of the file: the operation that waits is that chunk of that file. *)
Lemma upload_queues_the_chunk (addr name data : list Z) (position : Z) (old : list Z) (cache : list FsOp) (dk : D) :
  let d := callData addr name (word position ++ word (lenZ data) ++ data) in let path := path_append (getFileStorageDir addr) name in
  lenZ addr = 20 -> bytes_ok addr -> bytes_ok name -> bytes_ok data -> lenZ d < 2 ^ 63 -> 0 <= position -> file_content dk path = Some old -> position + lenZ data <= lenZ old < 2 ^ 63 ->
  uploadChunk true d (mkOverlayFS cache true, dk) = (Ok (true, word 1), (mkOverlayFS (cache ++ [WriteChunkOp path position data]) true, dk)).
Proof.
  intros d path Ha Ba Bn Bd Hd Hp Hs Hsz. pose proof (lenZ_nonneg data). unfold d. rewrite (upload_reads addr name data position (lenZ data) old cache dk) by done.
  destruct (data_place addr name data position (lenZ data) Ha) as (pre & E & Hl & _). fold d in E |- *.
  unfold writeChunk. rewrite (proj2 (Z.ltb_ge vector_max_size _)) by (unfold vector_max_size; lia).
  rewrite (croppedRef_at d pre data [] _ (lenZ data)); [done|by rewrite app_nil_r|done|done|done].
Qed.
(** What a read answers, when the path is inside the storage and the chunk inside the file. *)
Lemma read_answers addr name position n content cp s :
  let d := callData addr name (word position ++ word n) in let path := path_append (getFileStorageDir addr) name in
  lenZ addr = 20 -> bytes_ok addr -> bytes_ok name -> lenZ d < 2 ^ 63 -> 0 <= position -> 0 < n ->
  file_content (snd s) path = Some content -> position + n <= lenZ content < 2 ^ 63 -> fs_canonical (snd s) path = Some cp -> getFileStorageDir addr `prefix_of` cp ->
  readChunk d s = (Ok (true, takeZ n (dropZ position content)), s).
Proof.
  intros d path Ha Ba Bn Hd Hp Hn Hs Hsz Hc Hpre. set (rest := word position ++ word n) in *.
  assert (Hb : bytes_ok addr /\ bytes_ok name /\ bytes_ok rest).
  { split; [done|]. split; [done|]. unfold rest. rewrite !bytes_ok_app. split; apply word_bytes. }
  pose proof (number_read (D := D) addr name rest Ha Hb Hd [] (word n) position 0 eq_refl eq_refl ltac:(lia)) as E1. rewrite Z.add_0_r in E1.
  pose proof (number_read (D := D) addr name rest Ha Hb Hd (word position) [] n 32 ltac:(by rewrite app_nil_r) (proj2 (word_bytes _)) ltac:(lia)) as E2.
  replace (64 + blocksOf name * 32 + 32) with (96 + blocksOf name * 32) in E2 by lia.
  unfold readChunk, ftry. unfold fbind at 1, flift. unfold d at 1. rewrite (name_read addr name rest Ha Hb Hd).
  unfold d at 1. rewrite E1. unfold fbind at 1, fret at 1. unfold d at 1. rewrite E2. unfold fbind at 1, fret at 1.
  unfold insideStorage, stat_compute_file_size, d. rewrite (address_read addr name rest Ha Hd). fold path. unfold fbind, fdisk, fret, fthrow. rewrite Hc.
  rewrite bool_decide_eq_true_2 by done. rewrite Hs, (wrap_small 64 (position + n)) by lia.
  rewrite (proj2 (Z.ltb_ge (lenZ content) position)), (proj2 (Z.ltb_ge (lenZ content) (position + n))), (proj2 (Z.ltb_ge vector_max_size n)) by (unfold vector_max_size; lia).
  rewrite (proj2 (Z.eqb_neq n 0)) by lia. cbn [orb snd]. rewrite Hs. unfold streamRead. rewrite i64_small by lia. rewrite (proj2 (Z.ltb_ge position 0)) by lia.
  rewrite lenZ_takeZ by (rewrite lenZ_dropZ; lia). replace (n - n) with 0 by lia. by rewrite app_nil_r.
Qed.
(** Writing inside a file. *)
Lemma overwrite_inside old pos data : 0 <= pos -> pos + lenZ data <= lenZ old ->
  lenZ (overwrite old pos data) = lenZ old /\ takeZ (lenZ data) (dropZ pos (overwrite old pos data)) = data /\
  takeZ pos (overwrite old pos data) = takeZ pos old /\ dropZ (pos + lenZ data) (overwrite old pos data) = dropZ (pos + lenZ data) old.
Proof.
  intros Hp Hl. pose proof (lenZ_nonneg data). unfold overwrite. replace (Z.to_nat (pos - lenZ old)) with 0%nat by lia. cbn [replicate]. rewrite app_nil_r.
  assert (Hpre : lenZ (takeZ pos old) = pos) by (apply lenZ_takeZ; lia). split_and!.
  - rewrite !lenZ_app, Hpre, lenZ_dropZ by lia. lia.
  - rewrite dropZ_app by done. by rewrite takeZ_app.
  - by rewrite takeZ_app.
  - rewrite app_assoc, dropZ_app; [done|]. rewrite lenZ_app. lia.
Qed.
(** C27: A chunk of at least one byte that a transaction uploads, with the cache of the overlay on, inside a file of the caller's directory that exists on the disk and
    whose path is inside that directory: nothing is written until the commit; the commit has a defined result; after it the read of that chunk answers the data, the file
    has its size, and its bytes before and behind the chunk are as they were.  Of the disk it is assumed that a file written with as many bytes as it has keeps them and
    its place. *)
Theorem uploaded_chunk_is_read_back `{!FileSystemLaws D} (addr name data cp old : list Z) (position : Z) (dk : D) :
  let path := path_append (getFileStorageDir addr) name in
  let upload := callData addr name (word position ++ word (lenZ data) ++ data) in let read := callData addr name (word position ++ word (lenZ data)) in
  lenZ addr = 20 -> bytes_ok addr -> bytes_ok name -> bytes_ok data -> data <> [] -> lenZ upload < 2 ^ 63 -> 0 <= position ->
  file_content dk path = Some old -> position + lenZ data <= lenZ old < 2 ^ 63 ->
  fs_canonical dk path = Some cp -> getFileStorageDir addr `prefix_of` cp ->
  exists s o dk' new, uploadChunk true upload (mkOverlayFS [] true, dk) = (Ok (true, word 1), s) /\ snd s = dk /\ ofs_commit s = Some (o, dk') /\
    fst (readChunk read (o, dk')) = Ok (true, data) /\
    file_content dk' path = Some new /\ lenZ new = lenZ old /\ takeZ position new = takeZ position old /\ dropZ (position + lenZ data) new = dropZ (position + lenZ data) old.
Proof.
  intros path upload read Ha Ba Bn Bd Hne Hd Hp Hs Hsz Hc Hpre. pose proof (lenZ_nonneg data).
  assert (Hpos : 0 < lenZ data) by (destruct (Z.eq_dec (lenZ data) 0) as [E|]; [by apply lenZ_0 in E|lia]).
  destruct (overwrite_inside old position data Hp ltac:(lia)) as (Hlen & Hmid & Hbefore & Hafter).
  set (new := overwrite old position data) in *. pose proof (put_content dk path old new Hs Hlen) as Hnew.
  exists (mkOverlayFS [WriteChunkOp path position data] true, dk), (mkOverlayFS [] true), (file_put path new dk), new.
  split; [exact (upload_queues_the_chunk addr name data position old [] dk Ha Ba Bn Bd Hd Hp Hs Hsz)|]. split; [done|]. split.
  { cbn [ofs_commit m_cache m_isCacheEnabled executeAll execute]. unfold executeWriteChunk. rewrite bool_decide_eq_false_2 by done. rewrite Hs.
    unfold streamWrite. rewrite i64_small by lia. by rewrite (proj2 (Z.ltb_ge position 0)) by lia. }
  split; [|done]. unfold upload in Hd. rewrite callData_length, !lenZ_app, !word_lenZ in Hd by done. unfold read.
  rewrite (read_answers addr name position (lenZ data) new cp); cbn [fst snd]; try done.
  - by rewrite Hmid.
  - rewrite callData_length, !lenZ_app, !word_lenZ by done. lia.
  - by rewrite Hlen.
  - by rewrite (put_canonical dk path old new).
Qed.
(** An upload whose input ends before the data that it names: the data are read through a null pointer, in a file large enough for them; no answer, the program ends. *)
Theorem short_upload_ends_the_program (addr name data old : list Z) (position n : Z) (cache : list FsOp) (dk : D) :
  let d := callData addr name (word position ++ word n ++ data) in let path := path_append (getFileStorageDir addr) name in
  lenZ addr = 20 -> bytes_ok addr -> bytes_ok name -> bytes_ok data -> lenZ d < 2 ^ 63 -> 0 <= position -> lenZ data < n -> file_content dk path = Some old -> position + n <= lenZ old < 2 ^ 62 ->
  fst (uploadChunk true d (mkOverlayFS cache true, dk)) = Err PNullRead.
Proof.
  intros d path Ha Ba Bn Bd Hd Hp Hlt Hs Hsz. pose proof (lenZ_nonneg data). unfold d. rewrite (upload_reads addr name data position n old cache dk) by (done || lia).
  destruct (data_place addr name data position n Ha) as (pre & E & Hl & Hlen). fold d in E, Hlen |- *. pose proof (blocks_cover name). pose proof (lenZ_nonneg name).
  assert (Hnone : croppedRef d (128 + blocksOf name * 32) n = None).
  { unfold croppedRef. rewrite (wrap_small 64) by lia. rewrite (proj2 (Z.leb_gt (128 + blocksOf name * 32 + n) _)) by lia. by rewrite andb_false_r. }
  rewrite Hnone. unfold writeChunk. rewrite (proj2 (Z.ltb_ge vector_max_size n)) by (unfold vector_max_size; lia). rewrite (proj2 (Z.eqb_neq n 0)) by lia. done.
Qed.
End Theorems.

(** ** An example of a disk *)

Module StorageExample.
Definition Files : Type := list (list Z * list Z).
Definition fileAt (fs : Files) (p : list Z) : option (list Z) := snd <$> List.find (fun e => bool_decide (fst e = p)) fs.
Definition without (p : list Z) (fs : Files) : Files := List.filter (fun e => negb (bool_decide (fst e = p))) fs.
(** A disk of files, whose directories exist as soon as they are named. *)
#[export] Instance files : FileSystem Files := {
  file_content := fileAt;
  file_creatable := fun _ _ => true;
  file_put := fun p bytes fs => (p, bytes) :: fs;
  fs_exists := fun fs p => bool_decide (is_Some (fileAt fs p));
  fs_canonical := fun fs p => Some p;
  fs_create_directories := fun p fs => (Some true, fs);
  fs_remove := fun p fs => (Some (bool_decide (is_Some (fileAt fs p))), without p fs);
  fs_remove_all := fun p fs => (Some (lenZ fs), without p fs) }.
#[export] Instance paths : Paths := {
  getDataDir := [100]; path_append := fun p q => p ++ [47] ++ q; parent_path := fun _ => []; filename := fun p => p; extension := fun _ => [] }.
#[export] Instance sums : Sha256 := { sha256 := fun bs => foldl Z.add 0 bs }.
Definition owner : list Z := replicate 20 7.
Definition name : list Z := [97; 98].
Definition path : list Z := path_append (getFileStorageDir owner) name.
Definition disk : Files := [(path, replicate 10 0)].
End StorageExample.
Import StorageExample.

#[export] Instance files_laws : FileSystemLaws Files.
Proof. split; [|done]. intros dk p old new _ _. cbn. unfold fileAt. cbn [List.find fst]. by rewrite bool_decide_eq_true_2. Qed.

Lemma uploaded_chunk_is_read_back_witness :
  exists s o dk' new, uploadChunk true (callData owner name (word 3 ++ word 2 ++ [5; 6])) (mkOverlayFS [] true, disk) = (Ok (true, word 1), s) /\ snd s = disk /\
    ofs_commit s = Some (o, dk') /\ fst (readChunk (callData owner name (word 3 ++ word 2)) (o, dk')) = Ok (true, [5; 6]) /\
    file_content dk' path = Some new /\ lenZ new = 10 /\ takeZ 3 new = [0; 0; 0] /\ dropZ (3 + 2) new = [0; 0; 0; 0; 0].
Proof.
  exact (uploaded_chunk_is_read_back owner name [5; 6] path (replicate 10 0) 3 disk eq_refl ltac:(by apply (bool_decide_unpack _); vm_compute)
    ltac:(by apply (bool_decide_unpack _); vm_compute) ltac:(by apply (bool_decide_unpack _); vm_compute) ltac:(discriminate) ltac:(by vm_compute) ltac:(lia) eq_refl ltac:(by vm_compute)
    eq_refl ltac:(by apply (bool_decide_unpack _); vm_compute)).
Defined.
Lemma short_upload_ends_the_program_witness :
  fst (uploadChunk true (callData owner name (word 3 ++ word 2 ++ [5])) (mkOverlayFS [] true, disk)) = Err PNullRead.
Proof.
  exact (short_upload_ends_the_program owner name [5] (replicate 10 0) 3 2 [] disk eq_refl ltac:(by apply (bool_decide_unpack _); vm_compute) ltac:(by apply (bool_decide_unpack _); vm_compute)
    ltac:(by apply (bool_decide_unpack _); vm_compute) ltac:(by vm_compute) ltac:(lia) ltac:(by vm_compute) eq_refl ltac:(by vm_compute)).
Defined.
