(* ===== verification/PrecompiledConfig.v ===== *)
(** * PrecompiledConfig: the precompiled contracts that read the configuration and the consensus (libethereum/Precompiled.cpp)

    The configuration file and the consensus are parameters: the text of the value at a path of the file, and what the
    host answers for a node.  Texts are lists of characters; the C functions that read numbers from them are written out. *)

From Stdlib Require Import ZArith Lia Bool String Ascii.
From stdpp Require Import base list.
From S2P Require Import Prelude CommonData Rlp Precompiled.
Open Scope Z_scope.
Open Scope skaled_scope.

Definition chars (s : string) : list Z := map (fun a => Z.of_nat (nat_of_ascii a)) (list_ascii_of_string s).

(** ** Paths of the configuration *)

Definition g_listReadableConfigParts : list (list Z) := [chars "skaleConfig.sChain.nodes."; chars "skaleConfig.nodeInfo.wallets.ima.n"].
Definition beginsWith (s p : list Z) : bool := bool_decide (p `prefix_of` s).
Definition stat_is_accessible_json_path (path : list Z) : bool :=
  if bool_decide (path = []) then false else existsb (beginsWith path) g_listReadableConfigParts.
Definition isCallToHistoricData (path : list Z) : bool := beginsWith path (chars "skaleConfig.sChain.nodes.").

(** [boost::split] at the dots. *)
Fixpoint splitDots (s : list Z) : list (list Z) :=
  match s with
  | [] => [[]]
  | c :: s' => if c =? 46 then [] :: splitDots s' else match splitDots s' with w :: ws => (c :: w) :: ws | [] => [[c]] end
  end.

(** ** [strtoul] and [strtol] *)

Definition isspace (c : Z) : bool := (c =? 32) || ((9 <=? c) && (c <=? 13)).
Fixpoint skipSpaces (s : list Z) : list Z := match s with c :: s' => if isspace c then skipSpaces s' else s | [] => [] end.
Definition takeSign (s : list Z) : bool * list Z := match s with 45 :: s' => (true, s') | 43 :: s' => (false, s') | _ => (false, s) end.
Definition digitOf (base c : Z) : option Z :=
  let v := if (48 <=? c) && (c <=? 57) then c - 48 else if (97 <=? c) && (c <=? 122) then c - 87 else if (65 <=? c) && (c <=? 90) then c - 55 else 99 in
  if v <? base then Some v else None.
(** The longest run of digits, and whether there is one. *)
Fixpoint digitsFrom (base acc : Z) (s : list Z) : Z := match s with c :: s' => match digitOf base c with Some v => digitsFrom base (acc * base + v) s' | None => acc end | [] => acc end.
Definition readDigits (base : Z) (s : list Z) : option Z :=
  match s with c :: _ => match digitOf base c with Some _ => Some (digitsFrom base 0 s) | None => None end | [] => None end.
(** [std::stoul( s )]; the caller keeps 32 bits. *)
Definition stoul (s : list Z) : option Z :=
  let '(neg, s') := takeSign (skipSpaces s) in
  match readDigits 10 s' with
  | Some v => if 2 ^ 64 - 1 <? v then None else Some (if neg then u64 (- v) else v)
  | None => None
  end.
(** The base that the text itself names. *)
Definition baseOfText (s : list Z) : Z * list Z :=
  match s with
  | 48 :: x :: c :: s' => if ((x =? 120) || (x =? 88)) && bool_decide (is_Some (digitOf 16 c)) then (16, c :: s') else (8, s)
  | 48 :: _ => (8, s)
  | _ => (10, s)
  end.
(** [jsToInt( s )]: [std::stoi( s, nullptr, 0 )]. *)
Definition jsToInt (s : list Z) : option Z :=
  let '(neg, s') := takeSign (skipSpaces s) in
  let '(base, s'') := baseOfText s' in
  match readDigits base s'' with
  | Some v => let r := if neg then - v else v in if (- 2 ^ 31 <=? r) && (r <? 2 ^ 31) then Some r else None
  | None => None
  end.

Definition parseHistoricFieldRequest (path : list Z) : result PFail (list Z * Z) :=
  match splitDots path !! 3%nat with
  | None => Err PThrow
  | Some w =>
      match stoul w with
      | None => Err PThrow
      | Some id =>
          match splitDots path !! 4%nat with
          | None => Err PThrow
          | Some field => if existsb (fun a => bool_decide (field = a)) [chars "id"; chars "schainIndex"; chars "publicKey"] then Ok (field, u32 id) else Err PThrow
          end
      end
  end.

(** ** The contracts *)

(** The values of a JSON object, as [getConfigPermissionFlag] looks at them. *)
Inductive Flag := IntegerFlag (n : Z) | FloatFlag (nonzero : bool) | BoolFlag (b : bool) | OtherFlag.
Inductive Verbosity := VerbosityError | VerbosityWarning | VerbosityInfo | VerbosityDebug | VerbosityTrace.
Record SkaleHostView := mkHost {
  getHistoricNodeId : Z -> option (list Z); getHistoricNodeIndex : Z -> option (list Z); getHistoricNodePublicKey : Z -> option (list Z);
  host_getBlockRandom : option Z; host_getIMABLSPublicKey : option (Z * Z * Z * Z) }.
(** [cfg_text] is the trimmed text of the value at a path, [cfg_object] its entries when it is an object; both throw for a path that is not there.
    [None] is the accessor that was not set. *)
Record ConfigView := mkConfigView { cfg_text : list Z -> option (list Z); cfg_object : list Z -> option (option (list (list Z * Flag))); cfg_logMessages : option bool }.

Section Contracts.
Variables (config : option ConfigView) (host : option SkaleHostView) (configPatch : bool) (u256OfString : list Z -> option Z).

Definition orThrow {A} (o : option A) : result PFail A := match o with Some a => Ok a | None => Err PThrow end.
Definition accessiblePath (d : list Z) (start : Z) : result PFail (list Z) :=
  let? name := convertBytesToString d start in
  if negb (stat_is_accessible_json_path name) then Err PThrow else Ok name.
Definition configText (c : ConfigView) (name : list Z) (historic : SkaleHostView -> list Z -> Z -> result PFail (list Z)) : result PFail (list Z) :=
  if isCallToHistoricData name && configPatch then
    let? h := orThrow host in
    let? request := parseHistoricFieldRequest name in
    historic h (fst request) (snd request)
  else orThrow (cfg_text c name).

Definition getConfigVariableUint256 (d : list Z) : result PFail PAnswer := catching (
  let? name := accessiblePath d 0 in
  let? c := orThrow config in
  let? text := configText c name (fun h field id =>
    if bool_decide (field = chars "id") then orThrow (getHistoricNodeId h id)
    else if bool_decide (field = chars "schainIndex") then orThrow (getHistoricNodeIndex h id)
    else Err PThrow) in
  let? v := orThrow (jsToInt text) in
  Ok (true, word (u256 v))).
Definition getConfigVariableAddress (d : list Z) : result PFail PAnswer := catching (
  let? name := accessiblePath d 0 in
  let? c := orThrow config in
  let? text := orThrow (cfg_text c name) in
  let? v := orThrow (u256OfString text) in
  Ok (true, word v)).
Definition getConfigVariableString (d : list Z) : result PFail PAnswer := catching (
  let? name := accessiblePath d 0 in
  let? c := orThrow config in
  let? text := configText c name (fun h field id => if bool_decide (field = chars "publicKey") then orThrow (getHistoricNodePublicKey h id) else Err PThrow) in
  match fromHex text DontThrow with Ok bytes => Ok (true, bytes) | Err _ => Err PThrow end).
Definition fnReserved0x16 (d : list Z) : PAnswer := (false, word 0).
Definition pre_addBalance (d : list Z) : PAnswer := (false, word 0).

(** [stat_s2a]: the text as a hexadecimal number. *)
Definition stat_s2a (s : list Z) : option Z :=
  let prefixed := match s with 48 :: x :: _ :: _ => (x =? 120) || (x =? 88) | _ => false end in
  u256OfString (if prefixed then s else [48; 120] ++ s).
(** An integer is read as an [int]: its low 32 bits decide. *)
Definition flagIsSet (f : Flag) : bool := match f with IntegerFlag n => negb (u32 n =? 0) | FloatFlag nz => nz | BoolFlag b => b | OtherFlag => false end.
(** The first key that is the number of the parameter decides. *)
Fixpoint permissionOf (parameter : Z) (entries : list (list Z * Flag)) : result PFail Z :=
  match entries with
  | [] => Ok 0
  | (key, f) :: rest => let? k := orThrow (stat_s2a key) in if k =? parameter then Ok (if flagIsSet f then 1 else 0) else permissionOf parameter rest
  end.
(** [boost::algorithm::hex]: capital letters. *)
Definition hexCapital (bytes : list Z) : list Z := map (fun c => if 97 <=? c then c - 32 else c) (toHex [] bytes).
Definition getConfigPermissionFlag (d : list Z) : result PFail PAnswer := catching (
  let? parameter := orThrow (stat_s2a (hexCapital (rawAddress d))) in
  let? name := accessiblePath d 32 in
  let? c := orThrow config in
  let? value := orThrow (cfg_object c name) in
  let? flag := match value with Some entries => permissionOf parameter entries | None => Ok 0 end in
  Ok (true, word flag)).
Definition getBlockRandom (d : list Z) : result PFail PAnswer := catching (
  let? h := orThrow host in let? v := orThrow (host_getBlockRandom h) in Ok (true, word v)).
Definition getIMABLSPublicKey (d : list Z) : result PFail PAnswer := catching (
  let? h := orThrow host in
  let? k := orThrow (host_getIMABLSPublicKey h) in
  let '(a, b, c, e) := k in Ok (true, word a ++ word b ++ word c ++ word e)).
(** The line that a contract writes to the log, without its colours, or nothing when the configuration says so. *)
Definition messageKind (messageType : Z) : list Z * Verbosity :=
  if messageType =? 1 then (chars "debug", VerbosityDebug)
  else if messageType =? 2 then (chars "trace", VerbosityTrace)
  else if messageType =? 3 then (chars "warning", VerbosityWarning)
  else if messageType =? 4 then (chars "error", VerbosityError)
  else if messageType =? 5 then (chars "FATAL", VerbosityDebug)
  else (chars "normal", VerbosityInfo).
Definition logLine (d : list Z) : result PFail (option (Verbosity * list Z)) :=
  let? c := orThrow config in
  let? enabled := orThrow (cfg_logMessages c) in
  if negb enabled then Ok None
  else
    let? messageType := parseBigEndianRightPadded d 32 32 in
    let? text := convertBytesToString d 64 in
    let '(kind, severity) := messageKind (u64 messageType) in
    Ok (Some (severity, chars "SmartContract " ++ kind ++ chars " message from " ++ hexCapital (rawAddress d) ++ chars ":" ++ chars " " ++ text)).
Definition logTextMessage (d : list Z) : result PFail PAnswer := catching (let? line := logLine d in Ok (true, word 1)).
End Contracts.

(** ** What they give away *)

Definition agree_on (P : list Z -> bool) (c c' : ConfigView) : Prop :=
  forall path, P path = true -> cfg_text c path = cfg_text c' path /\ cfg_object c path = cfg_object c' path.
(** The paths whose value the consensus answers instead of the file. *)
Definition fromFile (patch : bool) (path : list Z) : bool := stat_is_accessible_json_path path && negb (isCallToHistoricData path && patch).

Lemma accessible_bind {A} d start (k k' : list Z -> result PFail A) :
  (forall name, stat_is_accessible_json_path name = true -> k name = k' name) ->
  (let? name := accessiblePath d start in k name) = (let? name := accessiblePath d start in k' name).
Proof.
  intros Hk. unfold accessiblePath. destruct (convertBytesToString d start) as [n|]; [|done]. cbn [rbind].
  destruct (stat_is_accessible_json_path n) eqn:E; [|done]. by apply Hk.
Qed.
Lemma configText_agree host patch c c' name historic : agree_on (fromFile patch) c c' -> stat_is_accessible_json_path name = true ->
  configText host patch c name historic = configText host patch c' name historic.
Proof.
  intros Hag Ha. unfold configText. destruct (isCallToHistoricData name && patch) eqn:E; [done|].
  destruct (Hag name) as [-> _]; [|done]. unfold fromFile. by rewrite Ha, E.
Qed.

(** What a caller can read of the configuration file with the four contracts that look into it is the part below the two open paths: two files that agree
    there cannot be told apart.  With the patch, [getConfigVariableUint256] and [getConfigVariableString] do not even depend on what the file says about the nodes. *)
Theorem config_is_guarded (c c' : ConfigView) (host : option SkaleHostView) (patch : bool) (parse : list Z -> option Z) (Hag : agree_on (fromFile patch) c c') (d : list Z) :
  getConfigVariableUint256 (Some c) host patch d = getConfigVariableUint256 (Some c') host patch d /\
  getConfigVariableString (Some c) host patch d = getConfigVariableString (Some c') host patch d /\
  (agree_on stat_is_accessible_json_path c c' ->
     getConfigVariableAddress (Some c) parse d = getConfigVariableAddress (Some c') parse d /\ getConfigPermissionFlag (Some c) parse d = getConfigPermissionFlag (Some c') parse d).
Proof.
  unfold getConfigVariableUint256, getConfigVariableString, getConfigVariableAddress, getConfigPermissionFlag. split_and!; [| |intros Hopen; split].
  - f_equal. apply accessible_bind. intros name Ha. cbn [orThrow rbind]. by rewrite (configText_agree host patch c c').
  - f_equal. apply accessible_bind. intros name Ha. cbn [orThrow rbind]. by rewrite (configText_agree host patch c c').
  - f_equal. apply accessible_bind. intros name Ha. cbn [orThrow rbind]. by destruct (Hopen name Ha) as [-> _].
  - f_equal. destruct (orThrow (stat_s2a parse (hexCapital (rawAddress d)))) as [parameter|]; [|done]. cbn [rbind].
    apply accessible_bind. intros name Ha. cbn [orThrow rbind]. by destruct (Hopen name Ha) as [_ ->].
Qed.

Module ConfigExample.
Definition nodePath : list Z := chars "skaleConfig.sChain.nodes.0.id".
Definition secretPath : list Z := chars "skaleConfig.nodeInfo.ecdsaKeyName".
Definition file (id secret : string) : ConfigView :=
  mkConfigView (fun p => if bool_decide (p = nodePath) then Some (chars id) else if bool_decide (p = secretPath) then Some (chars secret) else None) (fun _ => None) (Some false).
Definition host : SkaleHostView := mkHost (fun id => if id =? 0 then Some (chars "17") else None) (fun _ => None) (fun _ => None) None None.
Definition asking (path : list Z) : list Z := word (Z.of_nat (length path)) ++ path.
End ConfigExample.

(** The files differ in the id of the node and in the name of the key; the consensus answers 17, and the name of the key is refused. *)
Lemma config_is_guarded_witness :
  getConfigVariableUint256 (Some (ConfigExample.file "5" "a")) (Some ConfigExample.host) true (ConfigExample.asking ConfigExample.nodePath) =
    getConfigVariableUint256 (Some (ConfigExample.file "6" "b")) (Some ConfigExample.host) true (ConfigExample.asking ConfigExample.nodePath) /\
  getConfigVariableUint256 (Some (ConfigExample.file "5" "a")) (Some ConfigExample.host) true (ConfigExample.asking ConfigExample.nodePath) = Ok (true, word 17) /\
  getConfigVariableUint256 (Some (ConfigExample.file "5" "a")) (Some ConfigExample.host) false (ConfigExample.asking ConfigExample.nodePath) = Ok (true, word 5) /\
  getConfigVariableUint256 (Some (ConfigExample.file "5" "7")) (Some ConfigExample.host) true (ConfigExample.asking ConfigExample.secretPath) = Ok (false, word 0).
Proof.
  split; [|split_and!; vm_compute; reflexivity].
  refine (proj1 (config_is_guarded (ConfigExample.file "5" "a") (ConfigExample.file "6" "b") (Some ConfigExample.host) true (fun _ => None) _ _)).
  intros path Hp. split; [|reflexivity]. unfold ConfigExample.file, cfg_text.
  case_bool_decide; [subst path; vm_compute in Hp; discriminate Hp|]. case_bool_decide; [subst path; vm_compute in Hp; discriminate Hp|]. reflexivity.
Defined.
