(* ===== verification/TrieHash.v ===== *)
(** * TrieHash: the root of a Merkle-Patricia trie (libdevcore/TrieHash.cpp and .h)

    [hash256] walks over the sorted map of a trie's keys and values and writes the nodes without building them.  [trie] is
    the tree that the yellow paper defines, [build] makes it from the entries and [titem] is its encoding; the walk is proved to
    write that encoding.  A [std::map] is the list of its entries in the order of the keys. *)

From Stdlib Require Import ZArith Lia Bool Sorted.
From stdpp Require Import base list.
From S2P Require Import Prelude CommonData Rlp TrieCommon RlpCodec.
Open Scope Z_scope.
Open Scope skaled_scope.

Definition BytesMap : Type := list (list Z * list Z).
(** [m[ k ] = v]. *)
Fixpoint setEntry (k v : list Z) (m : BytesMap) : BytesMap :=
  match m with
  | [] => [(k, v)]
  | (k', v') :: m' => if lexlt k k' then (k, v) :: m else if lexlt k' k then (k', v') :: setEntry k v m' else (k, v) :: m'
  end.

Section Hash.
Variable sha3 : list Z -> Z.

(** How far two keys agree, from [shared] on and below [x]. *)
Fixpoint agreeing (fuel : nat) (a b : list Z) (shared x : Z) : Z :=
  match fuel with
  | O => shared
  | S f => if (shared <? x) && (nthZ a shared =? nthZ b shared) then agreeing f a b (shared + 1) x else shared
  end.
Fixpoint sharedLoop (first : list Z) (preLen : Z) (rest : BytesMap) (sharedPre : Z) : Z :=
  match rest with
  | [] => sharedPre
  | (k, _) :: rest' =>
      if sharedPre =? 0 then sharedPre
      else
        let x := Z.min sharedPre (Z.min (u32 (lenZ first)) (u32 (lenZ k))) in
        sharedLoop first preLen rest' (Z.min (agreeing (length first) first k preLen x) sharedPre)
  end.
(** The entries from [b] on whose nibble at [preLen] is [i], and what follows them. *)
Fixpoint takeGroup (preLen i : Z) (b : BytesMap) : BytesMap * BytesMap :=
  match b with
  | e :: b' => if nthZ (fst e) preLen =? i then let '(g, n) := takeGroup preLen i b' in (e :: g, n) else ([], b)
  | [] => ([], [])
  end.
Fixpoint groupsOf (preLen : Z) (ns : list Z) (b : BytesMap) : list BytesMap :=
  match ns with [] => [] | i :: ns' => let '(g, n) := takeGroup preLen i b in g :: groupsOf preLen ns' n end.
Definition nibbleValues : list Z := [0; 1; 2; 3; 4; 5; 6; 7; 8; 9; 10; 11; 12; 13; 14; 15].

(** [hash256aux], given the writer of the node. *)
Definition hash256aux (node : Writer) : Writer := fun s =>
  let? n := node emptyStream in
  let? o := out n in
  if lenZ o <? 32 then appendRaw s o 1 else append s (toBigEndian 32 (sha3 o)) false.
Fixpoint hash256rlp (fuel : nat) (l : BytesMap) (preLen : Z) : Writer :=
  match fuel with
  | O => fun s => Err RLPException
  | S f =>
      match l with
      | [] => writeBytes []
      | [(k, v)] => streamList 2 [writeBytes (hexPrefixEncode_vector k true preLen (-1)); writeBytes v]
      | (k, v) :: rest =>
          let sharedPre := sharedLoop k preLen rest (2 ^ 32 - 1) in
          if preLen <? sharedPre then
            streamList 2 [writeBytes (hexPrefixEncode_vector k false preLen sharedPre); hash256aux (hash256rlp f l sharedPre)]
          else
            let b := if preLen =? lenZ k then rest else l in
            streamList 17 (map (fun g => if bool_decide (g = []) then writeBytes [] else hash256aux (hash256rlp f g (preLen + 1))) (groupsOf preLen nibbleValues b) ++
                           [if preLen =? lenZ k then writeBytes v else writeBytes []])
      end
  end.
Definition maxKey (m : BytesMap) : nat := foldr (fun e n => Nat.max (length (fst e)) n) O m.
Definition hexMap (m : BytesMap) : BytesMap := foldl (fun h e => setEntry (asNibbles (fst e)) (snd e) h) [] (rev m).
Definition rlp256 (m : BytesMap) : result RLPError (list Z) :=
  if bool_decide (m = []) then rlpOf (writeBytes []) else rlpOf (hash256rlp (S (maxKey (hexMap m))) (hexMap m) 0).
Definition hash256 (m : BytesMap) : result RLPError Z := let? o := rlp256 m in Ok (sha3 o).
(** [rlp( j )] of an [unsigned]. *)
Definition rlpIndex (j : Z) : result RLPError (list Z) := rlpOf (writeInt j).
Fixpoint orderedMap (j : Z) (items : list (list Z)) (m : BytesMap) : result RLPError BytesMap :=
  match items with
  | [] => Ok m
  | i :: items' => let? k := rlpIndex j in orderedMap (u32 (j + 1)) items' (setEntry k i m)
  end.
(** [orderedTrieRoot( items )], and [trieRootOver] with the same keys. *)
Definition orderedTrieRoot (items : list (list Z)) : result RLPError Z := let? m := orderedMap 0 items [] in hash256 m.

(** ** The tree *)

(** [Empty] stands for a missing child; a branch without a value has the empty one. *)
Inductive trie := Empty | Leaf (key value : list Z) | Extension (path : list Z) (t : trie) | Branch (child : Z -> trie) (value : list Z).

Fixpoint agreedPrefix (a b : list Z) : list Z :=
  match a, b with x :: a', y :: b' => if x =? y then x :: agreedPrefix a' b' else [] | _, _ => [] end.
Definition sharedPath (k : list Z) (rest : BytesMap) : list Z := foldl (fun p e => agreedPrefix p (fst e)) k rest.
Definition below (p : list Z) (l : BytesMap) : BytesMap := map (fun e => (drop (length p) (fst e), snd e)) l.
Definition childOf (i : Z) (l : BytesMap) : BytesMap :=
  omap (fun e => match fst e with x :: k => if x =? i then Some (k, snd e) else None | [] => None end) l.
Definition valueHere (l : BytesMap) : list Z := match l with ([], v) :: _ => v | _ => [] end.
Fixpoint build (fuel : nat) (l : BytesMap) : trie :=
  match fuel with
  | O => Empty
  | S f =>
      match l with
      | [] => Empty
      | [(k, v)] => Leaf k v
      | (k, v) :: rest =>
          let p := sharedPath k rest in
          if bool_decide (p = []) then Branch (fun i => build f (childOf i l)) (valueHere l) else Extension p (build f (below p l))
      end
  end.

(** A node inside another: itself when it is short, its hash otherwise. *)
Definition refItem (it : item) : item := if lenZ (enc it) <? 32 then it else Str (toBigEndian 32 (sha3 (enc it))).
Fixpoint titem (t : trie) : item :=
  match t with
  | Empty => Str []
  | Leaf k v => Lst [Str (hp true k); Str v]
  | Extension p t => Lst [Str (hp false p); refItem (titem t)]
  | Branch c v => Lst (map (fun i => refItem (titem (c i))) nibbleValues ++ [Str v])
  end.
Definition under (p : list Z) (l : BytesMap) : BytesMap := map (fun e => (p ++ fst e, snd e)) l.
(** The keys and values below a node. *)
Fixpoint trieEntries (t : trie) : BytesMap :=
  match t with
  | Empty => []
  | Leaf k v => [(k, v)]
  | Extension p t => under p (trieEntries t)
  | Branch c v => (if bool_decide (v = []) then [] else [([], v)]) ++ concat (map (fun i => under [i] (trieEntries (c i))) nibbleValues)
  end.
(** The encodings that are hashed below a node and, with the node itself, in all. *)
Definition hashedRef (t : trie) (inner : list (list Z)) : list (list Z) := (if lenZ (enc (titem t)) <? 32 then [] else [enc (titem t)]) ++ inner.
Fixpoint hashed (t : trie) : list (list Z) :=
  match t with
  | Empty | Leaf _ _ => []
  | Extension _ t => hashedRef t (hashed t)
  | Branch c _ => concat (map (fun i => hashedRef (c i) (hashed (c i))) nibbleValues)
  end.
Definition trieOf (m : BytesMap) : trie := build (S (maxKey (hexMap m))) (hexMap m).
Definition allHashed (m : BytesMap) : list (list Z) := enc (titem (trieOf m)) :: hashed (trieOf m).
(** The encodings that the root of a list hashes. *)
Definition itemsHashed (items : list (list Z)) : list (list Z) := match orderedMap 0 items [] with Ok m => allHashed m | Err _ => [] end.
End Hash.

(** ** Lemmas on encodings *)

Lemma item_ok_Lst its : Forall item_ok its -> lenZ (concat (map enc its)) < sizeLimit -> item_ok (Lst its).
Proof. intros HF Hl. split; [|done]. induction HF; [done|]. cbn [fold_right]. split; [done|]. apply IHHF. cbn [map concat] in Hl. rewrite lenZ_app in Hl. pose proof (lenZ_nonneg (enc x)). lia. Qed.
Lemma encStr_size bs : lenZ bs < sizeLimit -> lenZ (enc (Str bs)) <= lenZ bs + 9.
Proof.
  intros Hl. pose proof (lenZ_nonneg bs). pose proof sizeLimit_lt. cbn [enc]. unfold encStr. destruct (_ && _); [lia|]. rewrite lenZ_app. unfold hdrStr.
  pose proof (hdr_length 128 183 (lenZ bs) ltac:(lia)). lia.
Qed.
Lemma pack_bytes ns : Forall is_nibble ns -> bytes_ok (pack ns).
Proof.
  induction ns as [|a|a b ns IH] using two_step_ind; intros Hn; [by constructor..|]. inversion Hn as [|? ? Ha Hn']; subst. inversion Hn' as [|? ? Hb Hns]; subst.
  unfold is_nibble in Ha, Hb. cbn [pack]. constructor; [unfold is_byte; lia|by apply IH].
Qed.
Lemma pack_length ns : lenZ (pack ns) <= lenZ ns.
Proof. induction ns as [|a|a b ns IH] using two_step_ind; cbn [pack]; rewrite ?lenZ_cons; lia. Qed.
Lemma hp_ok leaf k : Forall is_nibble k -> bytes_ok (hp leaf k) /\ lenZ (hp leaf k) <= lenZ k + 1.
Proof.
  intros Hk. destruct k as [|a k]; [split; [constructor; [by destruct leaf|constructor]|done]|]. unfold hp. inversion Hk as [|? ? Ha Hk']; subst. unfold is_nibble in Ha.
  pose proof (pack_length k). pose proof (pack_length (a :: k)). destruct (Nat.odd _); rewrite !lenZ_cons in *.
  - split; [|lia]. constructor; [destruct leaf; unfold is_byte; lia|by apply pack_bytes].
  - split; [|lia]. constructor; [by destruct leaf|by apply pack_bytes].
Qed.
Lemma hp_inj leaf leaf' k k' : Forall is_nibble k -> Forall is_nibble k' -> hp leaf k = hp leaf' k' -> leaf = leaf' /\ k = k'.
Proof. intros Hk Hk' E. destruct (keyOf_hp leaf k Hk) as [E1 E2], (keyOf_hp leaf' k' Hk') as [E3 E4]. rewrite E in E1, E2. split; congruence. Qed.
(** Two items with the same encoding are the same. *)
Lemma enc_inj it it' : item_ok it -> item_ok it' -> enc it = enc it' -> it = it'.
Proof.
  revert it'. induction it as [bs|its IH] using item_ind'; intros it' H H' E.
  - destruct it' as [bs'|its']; [|pose proof (proj1 (enc_isList _ H)) as E1; rewrite E, (proj1 (enc_isList _ H')) in E1; done].
    pose proof (toBytes_enc bs Strict H) as E1. rewrite E, (toBytes_enc bs' Strict H') in E1. by injection E1 as ->.
  - destruct it' as [bs'|its']; [pose proof (proj1 (enc_isList _ H)) as E1; rewrite E, (proj1 (enc_isList _ H')) in E1; done|].
    pose proof (members_enc its H) as E1. rewrite E, (members_enc its' H') in E1. injection E1 as E1. f_equal.
    apply item_ok_members in H, H'. clear E. revert its' H' E1. induction its as [|x its IHl]; intros [|x' its'] H' E1; try done.
    inversion IH; inversion H; inversion H'; subst. cbn [map] in E1. injection E1 as E1 E2. f_equal; auto.
Qed.
Lemma appendRaw_item s it : item_ok it -> appendRaw s (enc it) 1 = streamItem it s.
Proof. intros H. by rewrite streamItem_spec. Qed.

(** ** The tree is well formed *)

Definition key_ok (k : list Z) : Prop := Forall is_nibble k /\ lenZ k < 2 ^ 31.
Definition value_ok (v : list Z) : Prop := bytes_ok v /\ lenZ v < 2 ^ 62.
Fixpoint trie_ok (t : trie) : Prop :=
  match t with
  | Empty => True
  | Leaf k v => key_ok k /\ value_ok v
  | Extension p t => key_ok p /\ trie_ok t
  | Branch c v => (forall i, trie_ok (c i)) /\ value_ok v
  end.

Section Walk.
Variable sha3 : list Z -> Z.

Lemma refItem_ok it : item_ok it -> item_ok (refItem sha3 it) /\ lenZ (enc (refItem sha3 it)) <= 41.
Proof.
  intros H. unfold refItem. destruct (Z.ltb_spec (lenZ (enc it)) 32); [split; [done|lia]|].
  split; [apply bytes32_ok; lia|]. pose proof (encStr_size (toBigEndian 32 (sha3 (enc it)))) as Hs. rewrite toBigEndian_lenZ in Hs. specialize (Hs eq_refl). lia.
Qed.
Lemma refs_size (f : Z -> item) ns : (forall i, item_ok (f i)) -> lenZ (concat (map enc (map (fun i => refItem sha3 (f i)) ns))) <= 41 * lenZ ns.
Proof. intros Hf. induction ns as [|i ns IH]; [done|]. cbn [map concat]. rewrite lenZ_app, lenZ_cons. pose proof (proj2 (refItem_ok _ (Hf i))). lia. Qed.
Lemma titem_ok t : trie_ok t -> item_ok (titem sha3 t).
Proof.
  assert (Hkey : forall leaf k, key_ok k -> item_ok (Str (hp leaf k)) /\ lenZ (enc (Str (hp leaf k))) <= 2 ^ 31 + 10).
  { intros leaf k [Hk Hl]. destruct (hp_ok leaf k Hk) as [Hb Hs]. assert (lenZ (hp leaf k) < sizeLimit) by (unfold sizeLimit; lia).
    split; [by split|]. pose proof (encStr_size (hp leaf k) ltac:(done)). lia. }
  assert (Hval : forall v, value_ok v -> item_ok (Str v) /\ lenZ (enc (Str v)) <= 2 ^ 62 + 9).
  { intros v [Hb Hl]. assert (lenZ v < sizeLimit) by (unfold sizeLimit; lia). split; [by split|]. pose proof (encStr_size v ltac:(done)). lia. }
  induction t as [|k v|p t IH|c IH v]; cbn [trie_ok titem].
  - intros _. by split; [constructor|].
  - intros [Hk Hv]. destruct (Hkey true k Hk), (Hval v Hv). apply item_ok_Lst; [by rewrite !Forall_cons|]. cbn [map concat]. rewrite !lenZ_app. change (lenZ []) with 0. unfold sizeLimit. lia.
  - intros [Hk Ht]. destruct (Hkey false p Hk), (refItem_ok _ (IH Ht)). apply item_ok_Lst; [by rewrite !Forall_cons|]. cbn [map concat]. rewrite !lenZ_app. change (lenZ []) with 0. unfold sizeLimit. lia.
  - intros [Hc Hv]. destruct (Hval v Hv). assert (Hi : forall i, item_ok (titem sha3 (c i))) by auto.
    apply item_ok_Lst; [apply Forall_app; split; [|by rewrite Forall_cons]; apply Forall_fmap, Forall_true; intros i; apply refItem_ok, Hi|].
    rewrite map_app, concat_app, lenZ_app. pose proof (refs_size _ nibbleValues Hi) as Hr. change (lenZ nibbleValues) with 16 in Hr.
    cbn beta in Hr. change (concat (map enc [Str v])) with (enc (Str v) ++ []). rewrite app_nil_r. unfold sizeLimit. lia.
Qed.
Lemma writes_aux w it : writes w it -> item_ok it -> writes (hash256aux sha3 w) (refItem sha3 it).
Proof.
  intros Hw Hok _ s. unfold hash256aux. rewrite (Hw Hok), streamItem_spec by done. cbn [noteAppended emptyStream m_out m_listStack].
  unfold noteAppended. cbn [Z.eqb noteAppended_loop m_listStack m_out rbind out app]. unfold refItem.
  destruct (lenZ (enc it) <? 32); [by apply appendRaw_item|done].
Qed.
End Walk.
(** ** The walk *)

Lemma hexPrefix_segment p q r leaf e : Forall is_nibble (p ++ q ++ r) -> (e = lenZ p + lenZ q \/ e = -1 /\ r = []) ->
  hexPrefixEncode_vector (p ++ q ++ r) leaf (lenZ p) e = hp leaf q.
Proof.
  intros Hn He. pose proof (lenZ_nonneg p). pose proof (lenZ_nonneg q). pose proof (lenZ_nonneg r). unfold hexPrefixEncode_vector.
  replace (if e <? 0 then lenZ (p ++ q ++ r) + 1 + e else e) with (lenZ p + lenZ q)
    by (destruct He as [->|[-> ->]]; [by rewrite (proj2 (Z.ltb_ge _ _)) by lia|rewrite !lenZ_app; cbn; change (lenZ []) with 0; lia]).
  replace (lenZ p + lenZ q - lenZ p) with (lenZ q) by lia.
  replace (negb (lenZ q mod 2 =? 0)) with (Nat.odd (length q)) by (rewrite <- odd_lenZ, Zmod_odd; by destruct (Z.odd _)).
  assert (Hq : Forall is_nibble q) by (apply Forall_app in Hn as [_ Hn]; by apply Forall_app in Hn as [? _]).
  destruct (Nat.odd (length q)) eqn:Ho.
  - destruct q as [|a q]; [done|]. inversion Hq as [|? ? Ha Hq']; subst. unfold hp. rewrite Ho. rewrite lenZ_cons in *.
    rewrite nthZ_app_r, Z.sub_diag by lia. cbn [app]. rewrite nthZ_cons_0, flagByte_or by done. f_equal.
    rewrite hpPairs_pack; [|lia|rewrite lenZ_app, lenZ_cons, lenZ_app; lia|done| |lia].
    + replace (p ++ a :: q ++ r) with ((p ++ [a]) ++ q ++ r) by (by rewrite <- app_assoc).
      rewrite dropZ_app by (by rewrite lenZ_app). rewrite takeZ_app by lia. done.
    + replace (lenZ p + (1 + lenZ q) - (lenZ p + 1)) with (lenZ q) by lia. rewrite odd_lenZ. cbn [length] in Ho.
      rewrite Nat.odd_succ in Ho. by rewrite <- Nat.negb_even, Ho.
  - rewrite hpPairs_pack; [|lia|rewrite !lenZ_app; lia|done|by replace (lenZ p + lenZ q - lenZ p) with (lenZ q) by lia; rewrite odd_lenZ|lia].
    rewrite dropZ_app, takeZ_app by lia. unfold hp, flagByte. destruct q as [|a q]; [by destruct leaf|]. rewrite Ho. by destruct leaf.
Qed.
Lemma agreeing_spec fuel p a b x : lenZ p <= x -> x <= lenZ p + lenZ a -> x <= lenZ p + lenZ b -> x - lenZ p <= Z.of_nat fuel ->
  agreeing fuel (p ++ a) (p ++ b) (lenZ p) x = lenZ p + lenZ (agreedPrefix (takeZ (x - lenZ p) a) b).
Proof.
  revert p a b. induction fuel as [|f IH]; intros p a b H0 Ha Hb Hf; cbn [agreeing].
  - replace (x - lenZ p) with 0 by lia. rewrite takeZ_0. cbn. change (lenZ []) with 0. lia.
  - destruct (Z.ltb_spec (lenZ p) x); cbn [andb]; [|replace (x - lenZ p) with 0 by lia; rewrite takeZ_0; cbn; change (lenZ []) with 0; lia].
    destruct a as [|u a]; [change (lenZ []) with 0 in *; lia|]. destruct b as [|w b]; [change (lenZ []) with 0 in *; lia|]. rewrite !lenZ_cons in *.
    rewrite !nthZ_app_r, Z.sub_diag, !nthZ_cons_0 by lia. unfold takeZ. replace (Z.to_nat (x - lenZ p)) with (S (Z.to_nat (x - (lenZ p + 1)))) by lia.
    cbn [take agreedPrefix]. destruct (Z.eqb_spec u w) as [->|]; [|change (lenZ []) with 0; lia].
    specialize (IH (p ++ [w]) a b). rewrite lenZ_app in IH. change (lenZ [w]) with 1 in IH. rewrite <- !app_assoc in IH. cbn [app] in IH.
    rewrite IH by lia. rewrite lenZ_cons. unfold takeZ. lia.
Qed.
Lemma agreedPrefix_take n a b : agreedPrefix (take n a) b = take n (agreedPrefix a b).
Proof. revert n b. induction a as [|x a IH]; intros [|n] [|y b]; try done. cbn. destruct (x =? y); [|done]. cbn. by rewrite IH. Qed.
Lemma agreedPrefix_prefix a b : agreedPrefix a b `prefix_of` a /\ agreedPrefix a b `prefix_of` b.
Proof.
  revert b. induction a as [|x a IH]; intros [|y b]; cbn; try (split; apply prefix_nil). destruct (Z.eqb_spec x y) as [->|]; [|split; apply prefix_nil].
  destruct (IH b). split; by apply prefix_cons.
Qed.
Lemma agreedPrefix_bounded q k k' : q `prefix_of` k ->
  agreedPrefix (takeZ (Z.min (lenZ q) (lenZ k')) k) k' = agreedPrefix q k'.
Proof.
  intros [r ->]. unfold takeZ. rewrite agreedPrefix_take. rewrite <- (take_app_length q r) at 3. rewrite agreedPrefix_take.
  destruct (Z.min_spec (lenZ q) (lenZ k')) as [[_ ->]|[Hle ->]]; unfold lenZ in *; rewrite Nat2Z.id; [done|].
  destruct (agreedPrefix_prefix (q ++ r) k') as [_ Hp%prefix_length]. by rewrite !take_ge by lia.
Qed.
Definition entry_ok (e : list Z * list Z) : Prop := key_ok (fst e) /\ value_ok (snd e).
Definition keysSorted (l : BytesMap) : Prop := StronglySorted (fun a b => lexlt (fst a) (fst b) = true) l.

Lemma sharedLoop_from p k rest q : q `prefix_of` k -> lenZ (p ++ k) < 2 ^ 31 -> Forall (fun e => lenZ (p ++ fst e) < 2 ^ 31) rest ->
  sharedLoop (p ++ k) (lenZ p) (under p rest) (lenZ p + lenZ q) = lenZ p + lenZ (sharedPath q rest).
Proof.
  intros Hq Hk HF. revert q Hq. induction HF as [|[k' v'] rest Hk' _ IH]; intros q Hq; [done|]. cbn [under map sharedLoop fst snd sharedPath foldl].
  pose proof (lenZ_nonneg p). pose proof (lenZ_nonneg q). cbn [fst] in Hk'. rewrite lenZ_app in Hk, Hk'. pose proof (lenZ_nonneg k). pose proof (lenZ_nonneg k').
  destruct (Z.eqb_spec (lenZ p + lenZ q) 0) as [E|_].
  { assert (q = []) as -> by (apply lenZ_0; lia). assert (Hnil : forall l, sharedPath [] l = []) by (intros l; induction l as [|e l IHl]; [done|exact IHl]).
    change (agreedPrefix [] k') with (@nil Z). rewrite E. fold (sharedPath [] rest). rewrite Hnil. change (lenZ []) with 0. lia. }
  rewrite (wrap_small 32 (lenZ (p ++ k))), (wrap_small 32 (lenZ (p ++ k'))) by (rewrite lenZ_app; lia). rewrite !lenZ_app.
  assert (Hqk : lenZ q <= lenZ k) by (destruct Hq as [r ->]; rewrite lenZ_app; pose proof (lenZ_nonneg r); lia).
  rewrite agreeing_spec; [|lia..|rewrite length_app; unfold lenZ in *; lia].
  replace (Z.min (lenZ p + lenZ q) (Z.min (lenZ p + lenZ k) (lenZ p + lenZ k')) - lenZ p) with (Z.min (lenZ q) (lenZ k')) by lia.
  rewrite agreedPrefix_bounded by done. destruct (agreedPrefix_prefix q k') as [Hp _]. pose proof (prefix_length _ _ Hp).
  rewrite Z.min_l by (unfold lenZ; lia). apply IH. by etrans.
Qed.
Lemma sharedLoop_spec p k e rest : lenZ (p ++ k) < 2 ^ 31 -> Forall (fun e => lenZ (p ++ fst e) < 2 ^ 31) (e :: rest) ->
  sharedLoop (p ++ k) (lenZ p) (under p (e :: rest)) (2 ^ 32 - 1) = lenZ p + lenZ (sharedPath k (e :: rest)).
Proof.
  intros Hk HF. inversion HF as [|? ? Hk' HF']; subst. destruct e as [k' v']. cbn [fst] in Hk'. cbn [under map sharedLoop fst snd sharedPath foldl].
  pose proof (lenZ_nonneg p). rewrite lenZ_app in Hk, Hk'. pose proof (lenZ_nonneg k). pose proof (lenZ_nonneg k').
  rewrite (wrap_small 32 (lenZ (p ++ k))), (wrap_small 32 (lenZ (p ++ k'))) by (rewrite lenZ_app; lia). rewrite !lenZ_app.
  rewrite (proj2 (Z.eqb_neq (2 ^ 32 - 1) 0)) by lia. rewrite (Z.min_r (2 ^ 32 - 1)) by lia.
  rewrite agreeing_spec; [|lia..|rewrite length_app; unfold lenZ in *; lia].
  replace (Z.min (lenZ p + lenZ k) (lenZ p + lenZ k') - lenZ p) with (Z.min (lenZ k) (lenZ k')) by lia.
  rewrite agreedPrefix_bounded by done. destruct (agreedPrefix_prefix k k') as [Hp _]. pose proof (prefix_length _ _ Hp) as Hl.
  rewrite Z.min_l by (unfold lenZ in *; lia). apply sharedLoop_from; [done|by rewrite lenZ_app|done].
Qed.
Lemma sharedPath_prefix k rest : sharedPath k rest `prefix_of` k /\ Forall (fun e => sharedPath k rest `prefix_of` fst e) rest.
Proof.
  unfold sharedPath. revert k. induction rest as [|e rest IH]; intros k; cbn [foldl]; [done|]. destruct (IH (agreedPrefix k (fst e))) as [Hp HF].
  destruct (agreedPrefix_prefix k (fst e)). split; [by etrans|]. constructor; [by etrans|done].
Qed.
Lemma under_below p l : Forall (fun e => p `prefix_of` fst e) l -> under p (below p l) = l.
Proof. intros HF. induction HF as [|[k v] l [r Hr] _ IH]; [done|]. cbn in Hr. subst k. cbn. rewrite drop_app_length. f_equal. exact IH. Qed.
Lemma under_under p q l : under p (under q l) = under (p ++ q) l.
Proof. unfold under. rewrite map_map. apply map_ext. intros e. cbn. by rewrite app_assoc. Qed.
Lemma lexlt_app p a b : lexlt (p ++ a) (p ++ b) = lexlt a b.
Proof. induction p as [|x p IH]; [done|]. cbn. by rewrite Z.ltb_irrefl, Z.eqb_refl. Qed.
Lemma keysSorted_under p l : keysSorted (under p l) <-> keysSorted l.
Proof.
  unfold keysSorted. induction l as [|e l IH]; [split; constructor|]. cbn [under map]. split; intros Hs; apply StronglySorted_inv in Hs as [Hs HF]; constructor.
  - by apply IH.
  - rewrite Forall_fmap in HF. eapply Forall_impl; [exact HF|]. intros x. cbn. by rewrite lexlt_app.
  - by apply IH.
  - rewrite Forall_fmap. eapply Forall_impl; [exact HF|]. intros x. cbn. by rewrite lexlt_app.
Qed.

(** *** Children *)

Lemma elem_childOf i l k v : (k, v) ∈ childOf i l <-> (i :: k, v) ∈ l.
Proof.
  unfold childOf. rewrite list_elem_of_omap. split.
  - intros ([[|x k'] v'] & Hin & E); cbn in E; [done|]. destruct (Z.eqb_spec x i) as [->|]; [|done]. by injection E as -> ->.
  - intros Hin. exists (i :: k, v). split; [done|]. cbn. by rewrite Z.eqb_refl.
Qed.
Definition headAbove (i : Z) (e : list Z * list Z) : Prop := match fst e with x :: _ => i < x | [] => False end.
Lemma childOf_none i l : Forall (headAbove i) l -> childOf i l = [].
Proof.
  intros HF. induction HF as [|[[|x k] v] l Hx _ IH]; [done|done|]. cbn in Hx |- *. destruct (Z.eqb_spec x i); [lia|]. exact IH.
Qed.
(** The entries of a sorted list whose first nibble is the least one come first. *)
Lemma first_group i l : keysSorted l -> Forall (headAbove (i - 1)) l ->
  exists rest, l = under [i] (childOf i l) ++ rest /\ Forall (headAbove i) rest /\ keysSorted rest /\ forall j, i < j -> childOf j rest = childOf j l.
Proof.
  intros Hs HF. induction HF as [|[[|x k] v] l Hx HF IH]; [by exists []|done|]. apply StronglySorted_inv in Hs as [Hs Hlt]. cbn in Hx. destruct (Z.eq_dec x i) as [->|Hne].
  - destruct (IH Hs) as (rest & E & Hr & Hs' & Hj). exists rest. cbn. rewrite Z.eqb_refl. cbn. split_and!; [f_equal; exact E|done|done|].
    intros j Hij. rewrite (proj2 (Z.eqb_neq i j)) by lia. by apply Hj.
  - assert (Habove : Forall (headAbove i) (((x :: k), v) :: l)).
    { constructor; [cbn; lia|]. eapply Forall_impl; [exact Hlt|]. intros [[|y k'] v'] Hy; cbn in Hy |- *; [done|]. destruct (Z.ltb_spec x y); [lia|].
      cbn in Hy. destruct (Z.eqb_spec x y); [lia|done]. }
    exists (((x :: k), v) :: l). rewrite (childOf_none i) by done. split_and!; [done|done|by constructor|done].
Qed.
Lemma childOf_sorted i l : keysSorted l -> keysSorted (childOf i l).
Proof.
  unfold keysSorted. induction 1 as [|[[|x k] v] l Hs IH HF]; cbn; [constructor|done|]. destruct (Z.eqb_spec x i) as [->|]; [|done]. constructor; [done|].
  apply Forall_forall. intros [k' v'] Hin. apply (elem_childOf i l k' v') in Hin. eapply Forall_forall in HF; [|exact Hin]. cbn in HF. by rewrite Z.ltb_irrefl, Z.eqb_refl in HF.
Qed.
Lemma takeGroup_spec p i g rest : Forall (headAbove i) rest -> takeGroup (lenZ p) i (under p (under [i] g ++ rest)) = (under (p ++ [i]) g, under p rest).
Proof.
  intros Hr. induction g as [|[k v] g IH]; cbn [under map app].
  - destruct Hr as [|[[|x k] v] rest Hx _]; [done|done|]. cbn [map fst snd takeGroup]. rewrite nthZ_app_r, Z.sub_diag, nthZ_cons_0 by lia. cbn in Hx. by rewrite (proj2 (Z.eqb_neq x i)) by lia.
  - cbn [fst snd takeGroup]. rewrite nthZ_app_r, Z.sub_diag, nthZ_cons_0, Z.eqb_refl by lia. unfold under in IH. cbn [app] in IH. unfold under. cbn [app]. rewrite IH. by rewrite <- app_assoc.
Qed.
Lemma nibbleValues_sorted : StronglySorted Z.lt nibbleValues.
Proof. unfold nibbleValues. repeat (constructor; [|repeat (constructor; [lia|]); constructor]). constructor. Qed.
Lemma nibble_in x : is_nibble x -> x ∈ nibbleValues.
Proof. intros Hx. unfold is_nibble in Hx. unfold nibbleValues. rewrite !elem_of_cons. lia. Qed.
Definition headIn (ns : list Z) (e : list Z * list Z) : Prop := match fst e with x :: _ => x ∈ ns | [] => False end.
Lemma groups_spec p ns : StronglySorted Z.lt ns -> forall l, keysSorted l -> Forall (headIn ns) l ->
  groupsOf (lenZ p) ns (under p l) = map (fun i => under (p ++ [i]) (childOf i l)) ns /\ concat (map (fun i => under [i] (childOf i l)) ns) = l.
Proof.
  induction 1 as [|i ns Hns IH Hlt]; intros l Hs HF.
  { destruct HF as [|[[|x k] v] l Hx]; [done|done|]. cbn in Hx. by apply elem_of_nil in Hx. }
  rewrite Forall_forall in Hlt.
  destruct (first_group i l Hs) as (rest & E & Habove & Hs' & Hj).
  { eapply Forall_impl; [exact HF|]. intros [[|x k] v] Hx; [done|]. cbn in Hx |- *. apply elem_of_cons in Hx as [->|Hx]; [lia|]. specialize (Hlt x Hx). lia. }
  assert (HF' : Forall (headIn ns) rest).
  { apply Forall_forall. intros [[|x k] v] Hin; pose proof (proj1 (Forall_forall _ _) Habove _ Hin) as Ha; [done|]. rewrite E in HF. apply Forall_app in HF as [_ HF].
    pose proof (proj1 (Forall_forall _ _) HF _ Hin) as Hh. cbn in Hh, Ha |- *. apply elem_of_cons in Hh as [->|Hx]; [lia|done]. }
  destruct (IH rest Hs' HF') as [E1 E2].
  assert (Hext : forall j, j ∈ ns -> childOf j rest = childOf j l) by (intros j Hin; apply Hj; by apply Hlt).
  split; cbn [groupsOf map concat].
  - rewrite E at 1. rewrite takeGroup_spec by done. rewrite E1. f_equal. apply List.map_ext_in. intros j Hin%list_elem_of_In. by rewrite Hext.
  - rewrite E at 2. f_equal. etrans; [|exact E2]. f_equal. apply List.map_ext_in. intros j Hin%list_elem_of_In. by rewrite Hext.
Qed.
Lemma tail_nonempty e l : keysSorted (e :: l) -> Forall (fun x => fst x <> []) l.
Proof. intros [_ HF]%StronglySorted_inv. eapply Forall_impl; [exact HF|]. intros [[|x k] v]; cbn; [by destruct (fst e)|done]. Qed.
Lemma heads_in l : Forall entry_ok l -> Forall (fun x => fst x <> []) l -> Forall (headIn nibbleValues) l.
Proof.
  rewrite !Forall_forall. intros Hok Hne [[|x k] v] Hin; [by destruct (Hne _ Hin)|]. destruct (Hok _ Hin) as [[Hk _] _]. apply nibble_in. by inversion Hk.
Qed.
(** What a branch puts on top of its children. *)
Lemma split_value l : keysSorted l -> Forall entry_ok l ->
  exists rest, Forall (headIn nibbleValues) rest /\ keysSorted rest /\ (forall i, childOf i rest = childOf i l) /\
    (l = rest /\ valueHere l = [] \/ exists v, l = ([], v) :: rest /\ valueHere l = v).
Proof.
  intros Hs Hok. destruct l as [|[[|x k] v] l].
  - exists []. split_and!; [done|done|done|by left].
  - exists l. pose proof (tail_nonempty _ _ Hs) as Hne. apply Forall_cons in Hok as [_ Hok]. pose proof Hs as [Hs' _]%StronglySorted_inv.
    split_and!; [by apply heads_in|done|done|right; by exists v].
  - exists (((x :: k), v) :: l). pose proof (tail_nonempty _ _ Hs) as Hne. split_and!; [apply heads_in; [done|by constructor]|done|done|by left].
Qed.

(** *** The built tree *)

Lemma key_prefix_ok p k : p `prefix_of` k -> key_ok k -> key_ok p.
Proof. intros [r ->] [Hn Hl]. rewrite lenZ_app in Hl. pose proof (lenZ_nonneg r). apply Forall_app in Hn as [? _]. split; [done|lia]. Qed.
Lemma key_suffix_ok p k : key_ok (p ++ k) -> key_ok k.
Proof. intros [Hn Hl]. rewrite lenZ_app in Hl. pose proof (lenZ_nonneg p). apply Forall_app in Hn as [_ ?]. split; [done|lia]. Qed.
Lemma below_ok p l : Forall (fun e => p `prefix_of` fst e) l -> Forall entry_ok l -> Forall entry_ok (below p l).
Proof.
  rewrite !Forall_forall. intros Hp Hok e (e' & -> & Hin)%list_elem_of_fmap. destruct (Hok _ Hin) as [Hk Hv], (Hp _ Hin) as [r E]. split; [|done].
  cbn. rewrite E, drop_app_length. rewrite E in Hk. by apply key_suffix_ok in Hk.
Qed.
Lemma childOf_ok i l : Forall entry_ok l -> Forall entry_ok (childOf i l).
Proof. rewrite !Forall_forall. intros Hok [k v] Hin%elem_childOf. destruct (Hok _ Hin) as [Hk Hv]. split; [|done]. by apply (key_suffix_ok [i]). Qed.
Lemma shared_all k v rest : Forall (fun e => sharedPath k rest `prefix_of` fst e) ((k, v) :: rest).
Proof. destruct (sharedPath_prefix k rest). by constructor. Qed.
Lemma build_ok f l : Forall entry_ok l -> trie_ok (build f l).
Proof.
  revert l. induction f as [|f IH]; intros l Hok; [done|]. destruct l as [|[k v] [|e rest]]; [done|by apply Forall_cons in Hok as [? _]|]. cbn [build].
  pose proof (shared_all k v (e :: rest)) as Hp. case_bool_decide as E; cbn [trie_ok].
  - split; [intros i; by apply IH, childOf_ok|]. destruct k; cbn [valueHere]; [by apply Forall_cons in Hok as [[_ ?] _]|]. by split; [constructor|].
  - split; [|by apply IH, below_ok]. apply Forall_cons in Hok as [[Hk _] _]. apply Forall_cons in Hp as [Hp _]. by eapply key_prefix_ok.
Qed.
(** The entries below are those that the tree was built from. *)
Lemma build_entries f l : keysSorted l -> Forall entry_ok l -> Forall (fun e => snd e <> []) l -> Forall (fun e => (length (fst e) < f)%nat) l -> trieEntries (build f l) = l.
Proof.
  revert l. induction f as [|f IH]; intros l Hs Hok Hv Hf; [destruct Hf as [|e l Hlt]; [done|lia]|].
  destruct l as [|[k v] [|e rest]]; [done|done|]. cbn [build]. pose proof (shared_all k v (e :: rest)) as Hp. set (l := (k, v) :: e :: rest) in *.
  case_bool_decide as E; cbn [trieEntries].
  - destruct (split_value l Hs Hok) as (rest' & Hh & Hs' & Hc & Hval). destruct (groups_spec [] nibbleValues nibbleValues_sorted rest' Hs' Hh) as [_ Hg].
    assert (Hkids : concat (map (fun i => under [i] (trieEntries (build f (childOf i l)))) nibbleValues) = rest').
    { etrans; [|exact Hg]. f_equal. apply map_ext. intros i. rewrite Hc. f_equal. apply IH; [by apply childOf_sorted|by apply childOf_ok|..].
      - apply Forall_forall. intros [k' v'] Hin%elem_childOf. by apply (proj1 (Forall_forall _ _) Hv _ Hin).
      - apply Forall_forall. intros [k' v'] Hin%elem_childOf. pose proof (proj1 (Forall_forall _ _) Hf _ Hin) as Hlt. cbn in Hlt |- *. lia. }
    rewrite Hkids. destruct Hval as [[-> ->]|(w & -> & ->)]; [by rewrite bool_decide_eq_true_2|]. apply Forall_cons in Hv as [Hw _]. cbn in Hw. by rewrite bool_decide_eq_false_2.
  - set (p := sharedPath k (e :: rest)) in *. assert (Hp1 : (1 <= length p)%nat) by (destruct p; [done|cbn; lia]).
    rewrite IH; [by apply under_below|..].
    + apply (keysSorted_under p). by rewrite under_below.
    + by apply below_ok.
    + apply Forall_fmap. eapply Forall_impl; [exact Hv|]. done.
    + apply Forall_fmap. apply Forall_forall. intros x Hin. pose proof (proj1 (Forall_forall _ _) Hf _ Hin) as Hlt. pose proof (prefix_length _ _ (proj1 (Forall_forall _ _) Hp _ Hin)). unfold compose; cbn beta in Hlt; cbn [fst snd]. rewrite length_drop. lia.
Qed.
(** The walk over the entries below a path writes the tree of them: one level, given the next. *)
Section Level.
Variables (sha3 : list Z -> Z) (f : nat).
Definition level_ok (p : list Z) (l : BytesMap) : Prop := keysSorted l /\ Forall entry_ok l /\ Forall (fun e => key_ok (p ++ fst e)) l.
Hypothesis IH : forall p l, level_ok p l -> Forall (fun e => (length (fst e) < f)%nat) l -> l = [] \/ writes (hash256rlp sha3 f (under p l) (lenZ p)) (titem sha3 (build f l)).

Lemma branch_writes p k v rest : let l := (k, v) :: rest in level_ok p l -> Forall (fun e => (length (fst e) < S f)%nat) l ->
  writes (streamList 17 (map (fun g => if bool_decide (g = []) then writeBytes [] else hash256aux sha3 (hash256rlp sha3 f g (lenZ p + 1)))
                             (groupsOf (lenZ p) nibbleValues (if lenZ p =? lenZ (p ++ k) then under p rest else under p l)) ++
                         [if lenZ p =? lenZ (p ++ k) then writeBytes v else writeBytes []]))
    (titem sha3 (Branch (fun i => build f (childOf i l)) (valueHere l))).
Proof.
  intros l (Hs & Hok & Hk) Hf. cbn [titem].
  destruct (split_value l Hs Hok) as (rest' & Hh & Hs' & Hc & Hval). destruct (groups_spec p nibbleValues nibbleValues_sorted rest' Hs' Hh) as [Hg _].
  assert (Hsel : (if lenZ p =? lenZ (p ++ k) then under p rest else under p l) = under p rest' /\ (if lenZ p =? lenZ (p ++ k) then writeBytes v else writeBytes []) = writeBytes (valueHere l)).
  { rewrite lenZ_app. destruct Hval as [[El Ev]|(w & El & Ev)]; rewrite Ev; unfold l in El, Ev.
    - destruct k as [|x k]; [rewrite <- El in Hh; by apply Forall_cons in Hh as [[] _]|]. rewrite lenZ_cons. pose proof (lenZ_nonneg k). rewrite (proj2 (Z.eqb_neq _ _)) by lia. by rewrite <- El.
    - injection El as -> -> <-. change (lenZ []) with 0. by rewrite Z.add_0_r, Z.eqb_refl. }
  destruct Hsel as [-> ->]. rewrite Hg, map_map. apply writes_list; [done|]. apply Forall2_app; [|by repeat constructor; apply writes_bytes].
  apply Forall2_fmap, Forall_Forall2_diag, Forall_forall. intros i Hi. rewrite Hc. case_bool_decide as Eg.
  - assert (childOf i l = []) as -> by (by destruct (childOf i l)). destruct f; apply writes_bytes.
  - assert (Hkid : level_ok (p ++ [i]) (childOf i l)).
    { split; [by apply childOf_sorted|]. split; [by apply childOf_ok|]. apply Forall_forall. intros [k' v'] Hin%elem_childOf.
      pose proof (proj1 (Forall_forall _ _) Hk _ Hin) as Hx. cbn in Hx |- *. by rewrite <- app_assoc. }
    destruct (IH _ _ Hkid) as [El|Hw]; [|by rewrite El in Eg|].
    + apply Forall_forall. intros [k' v'] Hin%elem_childOf. pose proof (proj1 (Forall_forall _ _) Hf _ Hin) as Hlt. cbn in Hlt |- *. lia.
    + rewrite lenZ_app in Hw. apply writes_aux; [done|]. by apply titem_ok, build_ok, childOf_ok.
Qed.
Lemma extension_writes p q k v rest : let l := (k, v) :: rest in level_ok p l -> Forall (fun e => (length (fst e) < S f)%nat) l ->
  q <> [] -> Forall (fun e => q `prefix_of` fst e) l ->
  writes (streamList 2 [writeBytes (hexPrefixEncode_vector (p ++ k) false (lenZ p) (lenZ p + lenZ q)); hash256aux sha3 (hash256rlp sha3 f (under p l) (lenZ p + lenZ q))])
    (titem sha3 (Extension q (build f (below q l)))).
Proof.
  intros l (Hs & Hok & Hk) Hf Hq Hp. assert (Hq1 : 1 <= lenZ q) by (destruct q; [done|rewrite lenZ_cons; pose proof (lenZ_nonneg q); lia]). cbn [titem].
  apply writes_list; [done|]. apply Forall2_cons; split; [|apply Forall2_cons; split; [|done]].
  - apply Forall_cons in Hp as [[r Er] _]. cbn in Er. apply Forall_cons in Hk as [[Hn _] _]. cbn in Hn. rewrite Er in Hn |- *. rewrite hexPrefix_segment by (done || by left). apply writes_bytes.
  - apply writes_aux; [|by apply titem_ok, build_ok, below_ok]. rewrite <- (under_below q l Hp) at 1. rewrite under_under, <- lenZ_app.
    destruct (IH (p ++ q) (below q l)) as [El|Hw]; [..|done|done].
    + split; [apply (keysSorted_under q); by rewrite under_below|]. split; [by apply below_ok|]. apply Forall_fmap. apply Forall_forall. intros x Hin.
      destruct (proj1 (Forall_forall _ _) Hp _ Hin) as [r Er]. unfold compose; cbn [fst snd]. rewrite Er, drop_app_length, <- app_assoc, <- Er. by apply (proj1 (Forall_forall _ _) Hk).
    + apply Forall_fmap. apply Forall_forall. intros x Hin. pose proof (proj1 (Forall_forall _ _) Hf _ Hin) as Hlt. pose proof (prefix_length _ _ (proj1 (Forall_forall _ _) Hp _ Hin)).
      unfold compose; cbn beta in Hlt; cbn [fst snd]. rewrite length_drop. unfold lenZ in Hq1. lia.
Qed.
End Level.
Lemma walk_writes sha3 f p l : level_ok p l -> Forall (fun e => (length (fst e) < f)%nat) l ->
  l = [] \/ writes (hash256rlp sha3 f (under p l) (lenZ p)) (titem sha3 (build f l)).
Proof.
  revert p l. induction f as [|f IH]; intros p l Hl Hf; [left; destruct Hf as [|e l Hlt]; [done|lia]|].
  destruct l as [|[k v] [|e rest]]; [by left| |]; right; pose proof Hl as (Hs & Hok & Hk).
  { cbn [under map hash256rlp build titem fst snd]. apply Forall_cons in Hk as [[Hn _] _]. cbn [fst] in Hn. apply writes_list; [done|].
    rewrite <- (app_nil_r k) in Hn |- * at 1. rewrite hexPrefix_segment by (done || by right). repeat constructor; apply writes_bytes. }
  assert (Hlen : Forall (fun x => lenZ (p ++ fst x) < 2 ^ 31) ((k, v) :: e :: rest)) by (eapply Forall_impl; [exact Hk|]; by intros x [_ ?]).
  apply Forall_cons in Hlen as [Hlk Hlen]. pose proof (sharedLoop_spec p k e rest Hlk Hlen) as Hshared. pose proof (lenZ_nonneg (sharedPath k (e :: rest))).
  cbn [build]. cbn [under map hash256rlp fst snd]. cbn [under map fst snd] in Hshared. rewrite Hshared. case_bool_decide as E.
  - rewrite E at 1. change (lenZ []) with 0. rewrite Z.add_0_r, Z.ltb_irrefl. exact (branch_writes sha3 f IH p k v (e :: rest) Hl Hf).
  - rewrite (proj2 (Z.ltb_lt _ _)) by (pose proof (proj2 (not_iff_compat (lenZ_0 _)) E); lia). apply (extension_writes sha3 f IH p); [done|done|done|apply shared_all].
Qed.
(** ** Maps *)

Lemma lexlt_total a b : lexlt a b = false -> lexlt b a = false -> a = b.
Proof.
  revert b. induction a as [|x a IH]; intros [|y b]; cbn; try done. intros H1 H2. apply orb_false_iff in H1 as [H1%Z.ltb_ge H1'], H2 as [H2%Z.ltb_ge H2'].
  assert (x = y) as <- by lia. rewrite Z.eqb_refl in H1', H2'. f_equal. by apply IH.
Qed.
Lemma lexlt_irrefl a : lexlt a a = false.
Proof. induction a as [|x a IH]; [done|]. cbn. by rewrite Z.ltb_irrefl, Z.eqb_refl. Qed.
Lemma lexlt_trans a b c : lexlt a b = true -> lexlt b c = true -> lexlt a c = true.
Proof.
  revert b c. induction a as [|x a IH]; intros [|y b] [|z c]; cbn; try done. intros H1 H2.
  destruct (Z.ltb_spec x y), (Z.ltb_spec y z), (Z.ltb_spec x z); try done; try lia; cbn in *;
    destruct (Z.eqb_spec x y), (Z.eqb_spec y z); cbn in *; try done; subst; rewrite ?Z.eqb_refl; first [by eapply IH|lia].
Qed.
Lemma setEntry_all P k v m : P (k, v) -> Forall P m -> Forall P (setEntry k v m).
Proof. intros Hk HF. induction HF as [|[k' v'] m Hk' HF IH]; cbn; [by constructor|]. destruct (lexlt k k'); [by repeat constructor|]. destruct (lexlt k' k); by constructor. Qed.
Lemma setEntry_sorted k v m : keysSorted m -> keysSorted (setEntry k v m).
Proof.
  unfold keysSorted. induction 1 as [|[k' v'] m Hs IH HF]; cbn; [by repeat constructor|]. destruct (lexlt k k') eqn:E1.
  - constructor; [by constructor|]. constructor; [done|]. eapply Forall_impl; [exact HF|]. intros e. cbn. by apply lexlt_trans.
  - destruct (lexlt k' k) eqn:E2; [|rewrite (lexlt_total k k' E1 E2); by constructor]. constructor; [done|]. by apply setEntry_all.
Qed.
Definition getEntry (k : list Z) (m : BytesMap) : option (list Z) := snd <$> List.find (fun e => bool_decide (fst e = k)) m.
Lemma getEntry_set k k' v m : getEntry k (setEntry k' v m) = if bool_decide (k' = k) then Some v else getEntry k m.
Proof.
  unfold getEntry. induction m as [|[x w] m IH]; cbn; [by repeat case_bool_decide|]. destruct (lexlt k' x) eqn:E1; [by cbn; repeat case_bool_decide|].
  destruct (lexlt x k') eqn:E2; cbn.
  - destruct (bool_decide (x = k)) eqn:Ex; [|exact IH]. apply bool_decide_eq_true in Ex as ->. rewrite bool_decide_eq_false_2; [done|]. intros ->. by rewrite lexlt_irrefl in E2.
  - rewrite (lexlt_total k' x E1 E2) in *. by case_bool_decide.
Qed.
Lemma lexlt_nibbles a b : bytes_ok a -> bytes_ok b -> lexlt (asNibbles a) (asNibbles b) = lexlt a b.
Proof.
  intros Ha. revert b. induction Ha as [|x a Hx _ IH]; intros b Hb; destruct Hb as [|y b Hy Hb]; try done. change (asNibbles (x :: a)) with (x / 16 :: x mod 16 :: asNibbles a).
  change (asNibbles (y :: b)) with (y / 16 :: y mod 16 :: asNibbles b). cbn [lexlt]. rewrite IH by done. unfold is_byte in Hx, Hy.
  destruct (Z.ltb_spec x y), (Z.ltb_spec (x / 16) (y / 16)), (Z.ltb_spec (x mod 16) (y mod 16)), (Z.eqb_spec x y), (Z.eqb_spec (x / 16) (y / 16)), (Z.eqb_spec (x mod 16) (y mod 16));
    cbn; try done; exfalso; Z.to_euclidean_division_equations; lia.
Qed.
Lemma asNibbles_inj a b : bytes_ok a -> bytes_ok b -> asNibbles a = asNibbles b -> a = b.
Proof. intros Ha Hb E. apply lexlt_total; rewrite <- lexlt_nibbles, E by done; apply lexlt_irrefl. Qed.

(** A map of the program: sorted, with keys and values that fit into memory. *)
Record map_ok (m : BytesMap) : Prop := {
  mo_sorted : keysSorted m;
  mo_entries : Forall (fun e => bytes_ok (fst e) /\ lenZ (fst e) < 2 ^ 30 /\ value_ok (snd e)) m }.
Definition nibbled (m : BytesMap) : BytesMap := map (fun e => (asNibbles (fst e), snd e)) m.
Lemma nibbled_sorted m : map_ok m -> keysSorted (nibbled m).
Proof.
  intros [Hs HF]. induction Hs as [|e m Hs IH Hlt]; [constructor|]. apply Forall_cons in HF as [He HF]. constructor; [by apply IH|].
  apply Forall_fmap, Forall_forall. intros x Hx. cbn. destruct He as [He _], (proj1 (Forall_forall _ _) HF x Hx) as [Hxb _].
  rewrite lexlt_nibbles by done. by apply (proj1 (Forall_forall _ _) Hlt).
Qed.
Lemma hexMap_nibbled m : map_ok m -> hexMap m = nibbled m.
Proof.
  intros Hm. pose proof (nibbled_sorted m Hm) as Hs. clear Hm. unfold hexMap. induction m as [|e m IH]; [done|]. cbn [rev nibbled map] in *. rewrite foldl_app.
  apply StronglySorted_inv in Hs as [Hs HF]. rewrite IH by done. cbn [foldl]. fold (nibbled m) in *. destruct HF as [|x l Hx _]; [done|]. cbn in Hx |- *. destruct x as [k v]. cbn in Hx. by rewrite Hx.
Qed.
Lemma nibbled_inj m m' : map_ok m -> map_ok m' -> nibbled m = nibbled m' -> m = m'.
Proof.
  intros [_ HF] [_ HF']. revert m' HF'. induction HF as [|[k v] m (Hk & _) _ IH]; intros [|[k' v'] m'] HF' E; try done. apply Forall_cons in HF' as [(Hk' & _) HF'].
  injection E as E1 E2 E3. cbn in Hk, Hk'. rewrite (asNibbles_inj k k'), E2 by done. f_equal. by apply IH.
Qed.
Lemma nibbled_level m : map_ok m -> level_ok [] (nibbled m).
Proof.
  intros Hm. assert (HF : Forall entry_ok (nibbled m)).
  { apply Forall_fmap. eapply Forall_impl; [exact (mo_entries m Hm)|]. intros e (Hb & Hl & Hv). split; [|done]. cbn. split; [by apply asNibbles_nibbles|]. rewrite asNibbles_lenZ. lia. }
  split; [by apply nibbled_sorted|]. split; [done|]. eapply Forall_impl; [exact HF|]. by intros e [? _].
Qed.
Lemma maxKey_bound m : Forall (fun e => (length (fst e) < S (maxKey m))%nat) m.
Proof. induction m as [|e m IH]; [constructor|]. constructor; [cbn; lia|]. eapply Forall_impl; [exact IH|]. intros x Hx. unfold maxKey in *. cbn [foldr] in *. lia. Qed.
(** The bytes of the root are the encoding of the tree, and the tree has the entries of the map. *)
Lemma rlp256_tree sha3 m : map_ok m -> rlp256 sha3 m = Ok (enc (titem sha3 (trieOf m))) /\ trie_ok (trieOf m).
Proof.
  intros Hm. pose proof (nibbled_level m Hm) as Hl. pose proof Hl as (_ & Hok & _). unfold rlp256, trieOf. rewrite (hexMap_nibbled m Hm).
  split; [|by apply build_ok]. case_bool_decide as E; [by subst m|]. apply rlpOf_writes; [|by apply titem_ok, build_ok].
  destruct (walk_writes sha3 _ [] (nibbled m) Hl (maxKey_bound _)) as [En|Hw]; [by destruct m|].
  unfold under in Hw. rewrite (map_ext _ id), map_id in Hw by (by intros []). exact Hw.
Qed.
Lemma trie_entries m : map_ok m -> Forall (fun e => snd e <> []) m -> trieEntries (trieOf m) = nibbled m.
Proof.
  intros Hm Hv. destruct (nibbled_level m Hm) as (Hs & Hok & _). unfold trieOf. rewrite (hexMap_nibbled m Hm). apply build_entries; [done|done| |apply maxKey_bound].
  apply Forall_fmap. eapply Forall_impl; [exact Hv|]. done.
Qed.

(** ** The root determines the tree *)

Section Root.
Variable sha3 : list Z -> Z.
Hypothesis sha3_range : forall x, 0 <= sha3 x < 2 ^ 256.

(** No encoding that the one computation hashes collides with one that the other hashes. *)
Definition no_collision (xs ys : list (list Z)) : Prop := forall x y, x ∈ xs -> y ∈ ys -> sha3 x = sha3 y -> x = y.
Lemma no_collision_sub xs ys xs' ys' : no_collision xs ys -> xs' ⊆ xs -> ys' ⊆ ys -> no_collision xs' ys'.
Proof. intros H Hx Hy x y Hin Hin'. apply H; auto. Qed.
Lemma hash_item_inj x y : Str (toBigEndian 32 (sha3 x)) = Str (toBigEndian 32 (sha3 y)) -> sha3 x = sha3 y.
Proof.
  intros E. apply (f_equal (fun it => match it with Str b => unbe b | Lst _ => 0 end)) in E. pose proof (sha3_range x). pose proof (sha3_range y). rewrite !unbe_toBigEndian in E by lia. change (256 ^ Z.of_nat 32) with (2 ^ 256) in E.
  rewrite !Z.mod_small in E by apply sha3_range. done.
Qed.
Lemma titem_not_hash t x : titem sha3 t <> Str (toBigEndian 32 x).
Proof.
  intros E. assert (Hl : match titem sha3 t with Str b => lenZ b | Lst _ => 0 end = 32) by (rewrite E; apply (toBigEndian_lenZ 32)). by destruct t.
Qed.
Lemma refItem_inj t t' : trie_ok t -> trie_ok t' -> no_collision (hashedRef sha3 t (hashed sha3 t)) (hashedRef sha3 t' (hashed sha3 t')) ->
  refItem sha3 (titem sha3 t) = refItem sha3 (titem sha3 t') -> titem sha3 t = titem sha3 t'.
Proof.
  intros Ht Ht' Hnc. unfold refItem. unfold hashedRef in Hnc. destruct (lenZ (enc (titem sha3 t)) <? 32), (lenZ (enc (titem sha3 t')) <? 32); intros E; [done|..].
  - by destruct (titem_not_hash t _ E).
  - by destruct (titem_not_hash t' _ (eq_sym E)).
  - apply hash_item_inj in E. apply enc_inj; [by apply titem_ok..|]. apply Hnc; [apply elem_of_cons; by left..|done].
Qed.
Lemma hashed_child c v i : In i nibbleValues -> hashedRef sha3 (c i) (hashed sha3 (c i)) ⊆ hashed sha3 (Branch c v).
Proof.
  intros Hin x Hx. cbn [hashed]. apply list_elem_of_In, in_concat. exists (hashedRef sha3 (c i) (hashed sha3 (c i))).
  split; [by apply (in_map (fun i => hashedRef sha3 (c i) (hashed sha3 (c i))))|by apply list_elem_of_In].
Qed.
Lemma titem_entries t t' : trie_ok t -> trie_ok t' -> no_collision (hashed sha3 t) (hashed sha3 t') -> titem sha3 t = titem sha3 t' -> trieEntries t = trieEntries t'.
Proof.
  revert t'. induction t as [|k v|p t IH|c IH v]; intros [|k' v'|p' t'|c' v'] Ht Ht' Hnc E; try done; cbn [titem] in E.
  - injection E as E1 E2. destruct (hp_inj true true k k') as [_ ->]; [apply Ht|apply Ht'|done|]. by subst.
  - injection E as E1 _. destruct (hp_inj true false k p') as [? _]; [apply Ht|apply Ht'|done|done].
  - injection E as E1 _. destruct (hp_inj false true p k') as [? _]; [apply Ht|apply Ht'|done|done].
  - injection E as E1 E2. destruct (hp_inj false false p p') as [_ ->]; [apply Ht|apply Ht'|done|]. cbn [trieEntries]. f_equal. destruct Ht as [_ Ht], Ht' as [_ Ht'].
    apply IH; [done|done| |by apply refItem_inj]. eapply no_collision_sub; [exact Hnc|..]; apply list_subseteq_app_r; done.
  - apply (f_equal (fun it => match it with Lst l => l | Str _ => [] end)) in E. apply app_inj_2 in E as [Ec [= ->]]; [|done]. destruct Ht as [Ht _], Ht' as [Ht' _]. cbn [trieEntries]. f_equal. f_equal.
    apply List.map_ext_in. intros i Hin. f_equal.
    assert (Hr : refItem sha3 (titem sha3 (c i)) = refItem sha3 (titem sha3 (c' i))) by (revert i Hin; by apply List.ext_in_map).
    assert (Hnc' : no_collision (hashedRef sha3 (c i) (hashed sha3 (c i))) (hashedRef sha3 (c' i) (hashed sha3 (c' i)))).
    { eapply no_collision_sub; [exact Hnc|..]; by apply hashed_child. }
    apply IH; [done|done| |by apply refItem_inj]. eapply no_collision_sub; [exact Hnc'|..]; apply list_subseteq_app_r; done.
Qed.
Lemma root_map m m' : map_ok m -> map_ok m' -> Forall (fun e => snd e <> []) m -> Forall (fun e => snd e <> []) m' -> no_collision (allHashed sha3 m) (allHashed sha3 m') ->
  hash256 sha3 m = hash256 sha3 m' -> m = m'.
Proof.
  intros Hm Hm' Hv Hv' Hnc. destruct (rlp256_tree sha3 m Hm) as [E Ht], (rlp256_tree sha3 m' Hm') as [E' Ht']. unfold hash256. rewrite E, E'. cbn [rbind]. intros [= Er].
  apply Hnc in Er; [|apply elem_of_cons; by left..]. apply enc_inj in Er; [|by apply titem_ok..]. apply titem_entries in Er; [|done|done|].
  - rewrite !trie_entries in Er by done. by apply nibbled_inj.
  - eapply no_collision_sub; [exact Hnc|..]; intros x Hx; apply elem_of_cons; by right.
Qed.
End Root.

(** ** Lists under their indices *)

Definition indexKey (j : Z) : list Z := enc (intItemOf j).
Lemma indexItem_ok j : 0 <= j < 2 ^ 32 -> item_ok (intItemOf j) /\ lenZ (toCompactBigEndian j 0) <= 4.
Proof.
  intros Hj. pose proof (bytesRequired_le j 4 ltac:(lia) ltac:(lia)). unfold intItemOf, toCompactBigEndian. destruct (bytesRequired_spec j) as (Hb & _); [lia|]. rewrite Z.max_r by lia.
  split; [split; [apply toBigEndian_ok|]|]; rewrite toBigEndian_lenZ, Z2Nat.id by lia; unfold sizeLimit; lia.
Qed.
Lemma rlpIndex_key j : 0 <= j < 2 ^ 32 -> rlpIndex j = Ok (indexKey j).
Proof. intros Hj. apply rlpOf_writes; [apply writes_int; lia|by apply indexItem_ok]. Qed.
Lemma indexKey_ok j : 0 <= j < 2 ^ 32 -> bytes_ok (indexKey j) /\ lenZ (indexKey j) < 2 ^ 30.
Proof.
  intros Hj. destruct (indexItem_ok j Hj) as [Hok Hl]. pose proof (encStr_size _ (proj2 Hok)). split; [|unfold indexKey, intItemOf; lia].
  unfold indexKey, intItemOf. cbn [enc]. unfold encStr. destruct Hok as [Hb _]. destruct (_ && _); [done|]. apply bytes_ok_app. split; [|done].
  unfold hdrStr, hdr. rewrite (proj2 (Z.ltb_lt _ _)) by lia. pose proof (lenZ_nonneg (toCompactBigEndian j 0)). constructor; [unfold is_byte; lia|constructor].
Qed.
Lemma indexKey_inj i j : 0 <= i < 2 ^ 32 -> 0 <= j < 2 ^ 32 -> indexKey i = indexKey j -> i = j.
Proof.
  intros Hi Hj E. pose proof (readInt_enc i 256 32 ltac:(lia) ltac:(lia) ltac:(lia) eq_refl) as E1.
  pose proof (readInt_enc j 256 32 ltac:(lia) ltac:(lia) ltac:(lia) eq_refl) as E2. unfold indexKey in E. rewrite E, E2 in E1. by injection E1.
Qed.
Definition item_fits (v : list Z) : Prop := value_ok v /\ v <> [].
Lemma orderedMap_spec items j m : map_ok m -> Forall (fun e => snd e <> []) m -> Forall item_fits items -> 0 <= j -> j + lenZ items < 2 ^ 32 ->
  exists m', orderedMap j items m = Ok m' /\ map_ok m' /\ Forall (fun e => snd e <> []) m' /\
    forall i, 0 <= i < 2 ^ 32 -> getEntry (indexKey i) m' = if (j <=? i) && (i <? j + lenZ items) then items !! Z.to_nat (i - j) else getEntry (indexKey i) m.
Proof.
  intros Hm Hv HF. revert j m Hm Hv. induction HF as [|x items [Hx Hne] _ IH]; intros j m Hm Hv Hj Hl.
  { exists m. split_and!; [done|done|done|]. intros i Hi. change (lenZ []) with 0. destruct (Z.leb_spec j i), (Z.ltb_spec i (j + 0)); try done. lia. }
  rewrite lenZ_cons in Hl. pose proof (lenZ_nonneg items). cbn [orderedMap]. rewrite rlpIndex_key by lia. cbn [rbind]. rewrite (wrap_small 32 (j + 1)) by lia.
  destruct (IH (j + 1) (setEntry (indexKey j) x m)) as (m' & E & Hm' & Hv' & Hget); [|by apply setEntry_all|lia|lia|].
  { destruct Hm as [Hs HF]. split; [by apply setEntry_sorted|]. apply setEntry_all; [|done]. cbn. destruct (indexKey_ok j); [lia|done]. }
  exists m'. split_and!; [done|done|done|]. intros i Hi. rewrite (Hget i Hi), getEntry_set, lenZ_cons.
  destruct (Z.leb_spec (j + 1) i), (Z.ltb_spec i (j + 1 + lenZ items)), (Z.leb_spec j i), (Z.ltb_spec i (j + (1 + lenZ items))); cbn [andb]; try lia.
  - replace (Z.to_nat (i - j)) with (S (Z.to_nat (i - (j + 1)))) by lia. done.
  - rewrite bool_decide_eq_false_2; [done|]. intros E'%indexKey_inj; lia.
  - assert (i = j) as -> by lia. rewrite bool_decide_eq_true_2 by done. by rewrite Z.sub_diag.
  - rewrite bool_decide_eq_false_2; [done|]. intros E'%indexKey_inj; lia.
Qed.
Section Items.
Variable sha3 : list Z -> Z.
Hypothesis sha3_range : forall x, 0 <= sha3 x < 2 ^ 256.
Lemma items_root items : Forall item_fits items -> lenZ items < 2 ^ 32 -> exists r, orderedTrieRoot sha3 items = Ok r.
Proof.
  intros HF Hl. assert (H0 : map_ok []) by (split; constructor). destruct (orderedMap_spec items 0 [] H0 (Forall_nil_2 _) HF ltac:(lia) ltac:(lia)) as (m & E & Hm & _).
  unfold orderedTrieRoot. rewrite E. cbn [rbind]. unfold hash256. rewrite (proj1 (rlp256_tree sha3 m Hm)). by eexists.
Qed.
Lemma items_of_root items items' : Forall item_fits items -> Forall item_fits items' -> lenZ items < 2 ^ 32 -> lenZ items' < 2 ^ 32 ->
  no_collision sha3 (itemsHashed sha3 items) (itemsHashed sha3 items') -> orderedTrieRoot sha3 items = orderedTrieRoot sha3 items' -> items = items'.
Proof.
  intros HF HF' Hl Hl' Hnc. assert (H0 : map_ok []) by (split; constructor).
  destruct (orderedMap_spec items 0 [] H0 (Forall_nil_2 _) HF ltac:(lia) ltac:(lia)) as (m & E & Hm & Hv & Hget).
  destruct (orderedMap_spec items' 0 [] H0 (Forall_nil_2 _) HF' ltac:(lia) ltac:(lia)) as (m' & E' & Hm' & Hv' & Hget').
  unfold itemsHashed in Hnc. rewrite E, E' in Hnc. unfold orderedTrieRoot. rewrite E, E'. cbn [rbind]. intros Er.
  assert (m = m') as <- by (by apply (root_map sha3)). apply list_eq. intros i.
  destruct (Z.lt_ge_cases (Z.of_nat i) (2 ^ 32)) as [Hi|Hi]; [|unfold lenZ in *; by rewrite !lookup_ge_None_2 by lia].
  specialize (Hget (Z.of_nat i) ltac:(lia)). rewrite (Hget' (Z.of_nat i) ltac:(lia)) in Hget. rewrite !Z.add_0_l, !Z.sub_0_r, !Nat2Z.id, !(proj2 (Z.leb_le 0 _)) in Hget by lia. cbn [andb getEntry List.find fmap option_fmap option_map] in Hget.
  unfold lenZ in Hget. destruct (Z.ltb_spec (Z.of_nat i) (Z.of_nat (length items'))), (Z.ltb_spec (Z.of_nat i) (Z.of_nat (length items))); [done|..]; rewrite ?(lookup_ge_None_2 items i), ?(lookup_ge_None_2 items' i) by lia; done.
Qed.
End Items.

(** ** What the roots mean *)

(** C16: [hash256] is the hash of the encoding of the Merkle-Patricia tree of the map, and that tree has exactly the entries of the map when no value is empty. *)
Theorem root_is_of_the_tree (sha3 : list Z -> Z) (m : BytesMap) : map_ok m ->
  hash256 sha3 m = Ok (sha3 (enc (titem sha3 (trieOf m)))) /\ (Forall (fun e => snd e <> []) m -> trieEntries (trieOf m) = nibbled m).
Proof. intros Hm. split; [|by apply trie_entries]. unfold hash256. by rewrite (proj1 (rlp256_tree sha3 m Hm)). Qed.
(** Two lists of transactions with the same root are the same list: if they were not, some encoding that the one computation hashes and another one
    that the other hashes would have the same hash.  The roots always exist. *)
Theorem root_commits_to_items (sha3 : list Z -> Z) (sha3_range : forall x, 0 <= sha3 x < 2 ^ 256) (items items' : list (list Z)) :
  Forall item_fits items -> Forall item_fits items' -> lenZ items < 2 ^ 32 -> lenZ items' < 2 ^ 32 ->
  no_collision sha3 (itemsHashed sha3 items) (itemsHashed sha3 items') ->
  (exists r, orderedTrieRoot sha3 items = Ok r) /\ (orderedTrieRoot sha3 items = orderedTrieRoot sha3 items' -> items = items').
Proof. intros HF HF' Hl Hl' Hnc. split; [by apply items_root|by apply items_of_root]. Qed.

Module RootExample.
(** A toy hash function. *)
Definition toy (l : list Z) : Z := foldl (fun h b => (h * 31 + b + 7) mod 2 ^ 256) 0 l.
Definition collisionFree (xs ys : list (list Z)) : bool := forallb (fun x => forallb (fun y => implb (toy x =? toy y) (bool_decide (x = y))) ys) xs.
Lemma collisionFree_spec xs ys : collisionFree xs ys = true -> no_collision toy xs ys.
Proof.
  intros H x y Hx%list_elem_of_In Hy%list_elem_of_In E. apply (proj1 (forallb_forall _ _)) with (x := x) in H; [|done]. apply (proj1 (forallb_forall _ _)) with (x := y) in H; [|done].
  rewrite E, Z.eqb_refl in H. by apply bool_decide_eq_true in H.
Qed.
Definition m1 : BytesMap := [([], [9]); ([16], [1; 2]); ([16; 32], replicate 40 7); ([32], [3])].
Definition txs : list (list Z) := [replicate 33 5; [1; 2; 3]; replicate 40 6].
End RootExample.
Lemma root_is_of_the_tree_witness : hash256 RootExample.toy RootExample.m1 = Ok (RootExample.toy (enc (titem RootExample.toy (trieOf RootExample.m1)))).
Proof.
  apply (root_is_of_the_tree RootExample.toy RootExample.m1). split.
  - repeat (constructor; [|repeat (constructor; [reflexivity|]); constructor]). constructor.
  - unfold value_ok. apply (bool_decide_unpack _). vm_compute. exact I.
Defined.
Lemma root_commits_to_items_witness :
  (exists r, orderedTrieRoot RootExample.toy RootExample.txs = Ok r) /\
  (orderedTrieRoot RootExample.toy RootExample.txs = orderedTrieRoot RootExample.toy (map id RootExample.txs) -> RootExample.txs = map id RootExample.txs).
Proof.
  apply (root_commits_to_items RootExample.toy).
  - intros x. unfold RootExample.toy. induction x as [|b x _] using rev_ind; [split; [reflexivity|vm_compute; reflexivity]|]. rewrite foldl_app. apply Z.mod_pos_bound. reflexivity.
  - repeat (constructor; [split; [split; [apply (bool_decide_unpack _); vm_compute; exact I|vm_compute; reflexivity]|discriminate]|]). constructor.
  - repeat (constructor; [split; [split; [apply (bool_decide_unpack _); vm_compute; exact I|vm_compute; reflexivity]|discriminate]|]). constructor.
  - reflexivity.
  - reflexivity.
  - apply RootExample.collisionFree_spec. vm_compute. reflexivity.
Defined.
