(* ===== verification/BlockHeader.v ===== *)
(** * BlockHeader: block headers (libethcore/BlockHeader.h and .cpp, SealEngine.cpp, and the header checks of libethereum/BlockChain.cpp)

    The header with its memoised hashes, reading and writing, the setters, [verify] and the checks of the seal engine.
    [useTimestampHack] is a parameter, as are the hash function and the header of a known block. *)

From Stdlib Require Import ZArith Lia Bool.
From stdpp Require Import base list sets.
From S2P Require Import Prelude CommonData Rlp LogFilter RlpCodec Receipt TrieHash.
Open Scope Z_scope.
Open Scope skaled_scope.

Inductive Strictness := CheckEverything | JustSeal | QuickNonce | IgnoreSeal | CheckNothingNew.
Inductive IncludeSeal := WithoutSeal | WithSeal | OnlySeal.
Inductive BlockDataType := HeaderData | BlockData.
Inductive HeaderError :=
| BadHeader (e : CodecError) | InvalidBlockFormat | InvalidNumber | TooMuchGasUsed | InvalidParentHash | InvalidTimestamp | InvalidTransactionsRoot | InvalidUnclesHash
| InvalidDifficulty | InvalidGasLimit | ExtraDataTooBig | ExtraDataIncorrect | InvalidUncleParentHash | DivisionByZero.
Definition lift {A} (r : result CodecError A) : result HeaderError A := match r with Ok a => Ok a | Err e => Err (BadHeader e) end.

(** [h_number] and [h_timestamp] are [int64_t]; [h_hash] and [h_hashWithout] are the memoised hashes, zero when there is none. *)
Record BlockHeader := mkHeader {
  h_parentHash : Z; h_sha3Uncles : Z; h_author : Z; h_stateRoot : Z; h_transactionsRoot : Z; h_receiptsRoot : Z; h_logBloom : LogBloom;
  h_difficulty : Z; h_number : Z; h_gasLimit : Z; h_gasUsed : Z; h_timestamp : Z; h_extraData : list Z; h_seal : list (list Z);
  h_hash : Z; h_hashWithout : Z }.
#[export] Instance BlockHeader_expand : Expandable BlockHeader := fun h =>
  mkHeader (h_parentHash h) (h_sha3Uncles h) (h_author h) (h_stateRoot h) (h_transactionsRoot h) (h_receiptsRoot h) (h_logBloom h)
    (h_difficulty h) (h_number h) (h_gasLimit h) (h_gasUsed h) (h_timestamp h) (h_extraData h) (h_seal h) (h_hash h) (h_hashWithout h).
Definition newHeader : BlockHeader := mkHeader 0 0 0 0 0 0 emptyBloom 0 0 0 0 (-1) [] [] 0 0.
(** [operator bool]: the timestamp, as a [u256], is not [Invalid256]. *)
Definition header_exists (h : BlockHeader) : bool := negb (u256 (h_timestamp h) =? Invalid256).

Section Header.
Variables (sha3 : list Z -> Z) (useTimestampHack : bool).

(** ** Writing and hashing *)

Definition EmptyListSHA3 : Z := sha3 (enc (Lst [])).
Definition EmptyTrie : Z := sha3 (enc (Str [])).
Definition BasicFields : Z := 13.
(** A negative [int64_t] is appended as an [unsigned long]. *)
Definition writeInt64 (i : Z) : Writer := writeInt (u64 i).
Definition streamRLPFields (h : BlockHeader) : list Writer :=
  [writeHash 32 (h_parentHash h); writeHash 32 (h_sha3Uncles h); writeHash 20 (h_author h); writeHash 32 (h_stateRoot h); writeHash 32 (h_transactionsRoot h);
   writeHash 32 (h_receiptsRoot h); writeBytes (h_logBloom h); writeInt (h_difficulty h); writeInt64 (h_number h); writeInt (h_gasLimit h); writeInt (h_gasUsed h);
   writeInt64 (if useTimestampHack then i64 (h_number h + 1) else h_timestamp h); writeBytes (h_extraData h)].
Definition writeSeal (h : BlockHeader) : list Writer := map (fun b s => appendRaw s b 1) (h_seal h).
Definition header_streamRLP (h : BlockHeader) (i : IncludeSeal) : Writer :=
  match i with
  | WithSeal => streamList (BasicFields + lenZ (h_seal h)) (streamRLPFields h ++ writeSeal h)
  | WithoutSeal => streamList BasicFields (streamRLPFields h)
  | OnlySeal => streamAll (writeSeal h)
  end.
Definition noteDirty (h : BlockHeader) : BlockHeader := h <| h_hash := 0 |> <| h_hashWithout := 0 |>.
(** The hash, and the header with what is memoised. *)
Definition computeHash (h : BlockHeader) (i : IncludeSeal) : result RLPError Z := let? o := rlpOf (header_streamRLP h i) in Ok (sha3 o).
Definition header_hash (h : BlockHeader) (i : IncludeSeal) : result RLPError (Z * BlockHeader) :=
  let memo := match i with WithSeal => h_hash h | WithoutSeal => h_hashWithout h | OnlySeal => 0 end in
  if memo =? 0 then
    let? v := computeHash h i in
    Ok (v, match i with WithSeal => h <| h_hash := v |> | WithoutSeal => h <| h_hashWithout := v |> | OnlySeal => h end)
  else Ok (memo, h).

(** ** Reading *)

Definition toPositiveInt64 (d : list Z) : result CodecError Z := let? i := readInt 64 8 d in if 2 ^ 63 <=? i then Err (RlpError BadCast) else Ok i.
Definition readSeal (count : Z) : RM (list (list Z)) :=
  fold_right (fun i k => let& x := at_ i in let& xs := k in rret (x :: xs)) (rret []) (map Z.of_nat (seq 13 (Z.to_nat (count - 13)))).
Definition populate (header : list Z) : result CodecError BlockHeader :=
  runOn (
    let& parentHash := conv 0 (readHash 32 VeryStrict) in
    let& sha3Uncles := conv 1 (readHash 32 VeryStrict) in
    let& author := conv 2 (readHash 20 VeryStrict) in
    let& stateRoot := conv 3 (readHash 32 VeryStrict) in
    let& transactionsRoot := conv 4 (readHash 32 VeryStrict) in
    let& receiptsRoot := conv 5 (readHash 32 VeryStrict) in
    let& logBloom := conv 6 (readBloom VeryStrict) in
    let& difficulty := conv 7 (readInt 256 32) in
    let& number := conv 8 toPositiveInt64 in
    let& gasLimit := conv 9 (readInt 256 32) in
    let& gasUsed := conv 10 (readInt 256 32) in
    let& timestamp := conv 11 toPositiveInt64 in
    let& extraData := conv 12 readBytes in
    let& count := rlift (itemCount header) in
    let& seal := readSeal count in
    rret (mkHeader parentHash sha3Uncles author stateRoot transactionsRoot receiptsRoot logBloom difficulty number gasLimit gasUsed timestamp extraData seal 0 0)) header.
Definition extractHeader (block : list Z) : result HeaderError (list Z) :=
  let? root := lift (liftR (RLP_ctor block VeryStrict)) in
  if negb (isList root) then Err InvalidBlockFormat
  else
    let? parts := lift (runOn (let& a := at_ 0 in let& b := at_ 1 in let& c := at_ 2 in rret (a, b, c)) root) in
    let '(header, txs, uncles) := parts in
    if negb (isList header) then Err InvalidBlockFormat
    else if negb (isList txs) then Err InvalidBlockFormat
    else if negb (isList uncles) then Err InvalidBlockFormat
    else Ok header.
Definition readHeader (d : list Z) (t : BlockDataType) (hashWith : Z) : result HeaderError BlockHeader :=
  let? header := match t with BlockData => extractHeader d | HeaderData => lift (liftR (RLP_ctor d VeryStrict)) end in
  let? h := lift (populate header) in
  Ok (h <| h_hash := if hashWith =? 0 then sha3 header else hashWith |>).

(** ** The setters *)

Inductive HeaderOp :=
| SetParentHash (v : Z) | SetSha3Uncles (v : Z) | SetTimestamp (v : Z) | SetAuthor (v : Z) | SetRoots (t r u s : Z) | SetGasUsed (v : Z) | SetNumber (v : Z)
| SetGasLimit (v : Z) | SetExtraData (v : list Z) | SetLogBloom (v : LogBloom) | SetDifficulty (v : Z) | SetSeal (offset : nat) (v : list Z) | Clear | Hash (i : IncludeSeal).
Definition setTimestamp (v : Z) (h : BlockHeader) : BlockHeader := noteDirty (h <| h_timestamp := if useTimestampHack then i64 (h_number h + 1) else v |>).
Definition setNumber (v : Z) (h : BlockHeader) : BlockHeader :=
  noteDirty (if useTimestampHack then h <| h_number := v |> <| h_timestamp := i64 (v + 1) |> else h <| h_number := v |>).
Definition setRoots (t r u s : Z) (h : BlockHeader) : BlockHeader :=
  noteDirty (h <| h_transactionsRoot := t |> <| h_receiptsRoot := r |> <| h_stateRoot := s |> <| h_sha3Uncles := u |>).
(** [v] is the RLP of the value; the seal grows up to the offset. *)
Definition setSeal (offset : nat) (v : list Z) (h : BlockHeader) : BlockHeader :=
  noteDirty (h <| h_seal := <[offset := v]> (h_seal h ++ replicate (S offset - length (h_seal h)) []) |>).
Definition header_clear (h : BlockHeader) : BlockHeader :=
  noteDirty (mkHeader 0 EmptyListSHA3 0 EmptyTrie EmptyTrie EmptyTrie emptyBloom 0 0 0 0 (-1) [] [] (h_hash h) (h_hashWithout h)).
Definition headerStep (op : HeaderOp) (h : BlockHeader) : result RLPError BlockHeader :=
  match op with
  | SetParentHash v => Ok (noteDirty (h <| h_parentHash := v |>))
  | SetSha3Uncles v => Ok (noteDirty (h <| h_sha3Uncles := v |>))
  | SetTimestamp v => Ok (setTimestamp v h)
  | SetAuthor v => Ok (noteDirty (h <| h_author := v |>))
  | SetRoots t r u s => Ok (setRoots t r u s h)
  | SetGasUsed v => Ok (noteDirty (h <| h_gasUsed := v |>))
  | SetNumber v => Ok (setNumber v h)
  | SetGasLimit v => Ok (noteDirty (h <| h_gasLimit := v |>))
  | SetExtraData v => Ok (noteDirty (h <| h_extraData := v |>))
  | SetLogBloom v => Ok (noteDirty (h <| h_logBloom := v |>))
  | SetDifficulty v => Ok (noteDirty (h <| h_difficulty := v |>))
  | SetSeal o v => Ok (setSeal o v h)
  | Clear => Ok (header_clear h)
  | Hash i => let? p := header_hash h i in Ok (snd p)
  end.
(** The template of the next block; the memoised hashes stay as they are. *)
Definition populateFromParent (parent h : BlockHeader) : BlockHeader :=
  h <| h_stateRoot := h_stateRoot parent |> <| h_number := i64 (h_number parent + 1) |> <| h_parentHash := h_hash parent |>
    <| h_gasLimit := h_gasLimit parent |> <| h_difficulty := h_difficulty parent |> <| h_gasUsed := 0 |>.

(** ** Verification *)

#[local] Instance Strictness_eq_dec : EqDecision Strictness.
Proof. solve_decision. Defined.
(** The items of the list of transactions, one after the other. *)
Definition itemsOf (d : list Z) : result CodecError (list (list Z)) :=
  let? n := itemCount d in
  runOn (fold_right (fun i k => let& x := at_ i in let& xs := k in rret (x :: xs)) (rret []) (map Z.of_nat (seq 0 (Z.to_nat n)))) d.
Definition verifyBody (h : BlockHeader) (block : list Z) : result HeaderError unit :=
  let? root := lift (liftR (RLP_ctor block VeryStrict)) in
  let? txList := lift (runOn (at_ 1) root) in
  let? txs := lift (itemsOf txList) in
  let? expectedRoot := lift (liftR (orderedTrieRoot sha3 txs)) in
  if negb (h_transactionsRoot h =? expectedRoot) then Err InvalidTransactionsRoot
  else
    let? uncles := lift (runOn (let& txs := at_ 1 in at_ 2) root) in
    if negb (h_sha3Uncles h =? sha3 uncles) then Err InvalidUnclesHash else Ok tt.
Definition verifyParent (h parent : BlockHeader) : result HeaderError unit :=
  let? expected := (if h_parentHash h =? 0 then Ok 0 else let? p := lift (liftR (header_hash parent WithSeal)) in Ok (fst p)) in
  if negb (expected =? h_parentHash h) then Err InvalidParentHash
  else if h_timestamp h <? h_timestamp parent then Err InvalidTimestamp
  else if negb (h_number h =? h_number parent + 1) then Err InvalidNumber
  else Ok tt.
(** The header that does not exist and the empty block stand for those that are not given. *)
Definition verify (s : Strictness) (h parent : BlockHeader) (block : list Z) : result HeaderError unit :=
  if 2 ^ 32 - 1 <? h_number h then Err InvalidNumber
  else if negb (bool_decide (s = CheckNothingNew)) && (h_gasLimit h <? h_gasUsed h) then Err TooMuchGasUsed
  else
    let? _ := (if header_exists parent then verifyParent h parent else Ok tt) in
    if bool_decide (block = []) then Ok tt else verifyBody h block.

Record SealParams := mkSealParams { minimumDifficulty : Z; minGasLimit : Z; maxGasLimit : Z; maximumExtraDataSize : Z; daoHardforkBlock : Z; gasLimitBoundDivisor : Z }.
Variable params : SealParams.
(** "dao-hard-fork". *)
Definition daoExtraData : list Z := [100; 97; 111; 45; 104; 97; 114; 100; 45; 102; 111; 114; 107].
Definition checkNew (h : BlockHeader) : result HeaderError unit :=
  if h_difficulty h <? minimumDifficulty params then Err InvalidDifficulty
  else if h_gasLimit h <? minGasLimit params then Err InvalidGasLimit
  else if maxGasLimit params <? h_gasLimit h then Err InvalidGasLimit
  else if negb (h_number h =? 0) && (maximumExtraDataSize params <? lenZ (h_extraData h)) then Err ExtraDataTooBig
  else
    let dao := daoHardforkBlock params in
    if negb (dao =? 0) && (dao <=? u256 (dao + 9)) && (dao <=? u256 (h_number h)) && (u256 (h_number h) <=? u256 (dao + 9)) && negb (bool_decide (h_extraData h = daoExtraData))
    then Err ExtraDataIncorrect else Ok tt.
Definition checkGasLimit (h parent : BlockHeader) : result HeaderError unit :=
  let gasLimit := h_gasLimit h in
  let parentGasLimit := h_gasLimit parent in
  if (gasLimit <? minGasLimit params) || (maxGasLimit params <? gasLimit) then Err InvalidGasLimit
  else if gasLimitBoundDivisor params =? 0 then Err DivisionByZero
  else
    let bound := parentGasLimit / gasLimitBoundDivisor params in
    if (gasLimit <=? u256 (parentGasLimit - bound)) || (u256 (parentGasLimit + bound) <=? gasLimit) then Err InvalidGasLimit else Ok tt.
(** [SealEngineFace::verify]. *)
Definition sealVerify (s : Strictness) (h parent : BlockHeader) (block : list Z) : result HeaderError unit :=
  let? _ := verify s h parent block in
  let? _ := (if bool_decide (s = CheckNothingNew) then Ok tt else checkNew h) in
  if header_exists parent then checkGasLimit h parent else Ok tt.

(** ** The checks of a block before its transactions: [BlockChain::verifyBlock] *)

Variable headerData : Z -> list Z.
Definition ValidSeal : Z := 1.
Definition UncleBasic : Z := 4.
Definition UncleSeals : Z := 16.
Definition Parent : Z := 64.
Definition UncleParent : Z := 128.
Definition PostGenesis : Z := 256.
(** The header of the parent under the hash by which it was found, when it is asked for. *)
Definition requestedParent (asked : bool) (parentHash : Z) (missing : HeaderError) : result HeaderError BlockHeader :=
  if asked then
    let d := headerData parentHash in
    if bool_decide (d = []) then Err missing else readHeader d HeaderData parentHash
  else Ok newHeader.
Definition verifyUncle (ir : Z) (uncle : list Z) : result HeaderError unit :=
  let? uh := readHeader uncle HeaderData 0 in
  let? parent := requestedParent (has ir UncleParent) (h_parentHash uh) InvalidUncleParentHash in
  sealVerify (if has ir UncleSeals then CheckEverything else IgnoreSeal) uh parent [].
Definition verifyHeaders (block : list Z) (ir : Z) : result HeaderError BlockHeader :=
  let? h := readHeader block BlockData 0 in
  if has ir PostGenesis && ((h_parentHash h =? 0) || (h_number h =? 0)) then Err InvalidParentHash
  else
    let? parent := requestedParent (has ir Parent) (h_parentHash h) InvalidParentHash in
    let? _ := sealVerify (if has ir ValidSeal then CheckEverything else QuickNonce) h parent block in
    let? _ := (if has ir (Z.lor UncleBasic (Z.lor UncleParent UncleSeals)) then
                 let? r := lift (liftR (RLP_ctor block VeryStrict)) in
                 let? d := lift (runOn (at_ 2) r) in
                 let? uncles := lift (members d) in
                 fold_left (fun r uncle => let? _ := r in verifyUncle ir uncle) uncles (Ok tt)
               else Ok tt) in
    Ok h.
End Header.

(** ** Reading what was written *)

Definition headerItems (h : BlockHeader) : list item :=
  [hashItem (h_parentHash h); hashItem (h_sha3Uncles h); Str (toBigEndian 20 (h_author h)); hashItem (h_stateRoot h); hashItem (h_transactionsRoot h); hashItem (h_receiptsRoot h);
   Str (h_logBloom h); intItemOf (h_difficulty h); intItemOf (h_number h); intItemOf (h_gasLimit h); intItemOf (h_gasUsed h); intItemOf (h_timestamp h); Str (h_extraData h)].
(** A header whose fields are in their ranges and whose seal is a list of items. *)
Record header_ok (h : BlockHeader) (seals : list item) : Prop := {
  ho_hashes : is_hash (h_parentHash h) /\ is_hash (h_sha3Uncles h) /\ is_address (h_author h) /\ is_hash (h_stateRoot h) /\ is_hash (h_transactionsRoot h) /\ is_hash (h_receiptsRoot h);
  ho_bloom : bloom_valid (h_logBloom h);
  ho_numbers : is_hash (h_difficulty h) /\ 0 <= h_number h < 2 ^ 63 /\ is_hash (h_gasLimit h) /\ is_hash (h_gasUsed h) /\ 0 <= h_timestamp h < 2 ^ 63;
  ho_seal : h_seal h = map enc seals;
  ho_item : item_ok (Lst (headerItems h ++ seals)) }.

Lemma rds_items its n k : item_ok (Lst its) -> (k + n <= length its)%nat -> lenZ its < 2 ^ 64 - 1 ->
  rdsAt its (fold_right (fun i k => let& x := at_ i in let& xs := k in rret (x :: xs)) (rret []) (map Z.of_nat (seq k n))) (map enc (take n (drop k its))).
Proof.
  intros Hok. revert k. induction n as [|n IH]; intros k Hk Hl; cbn [seq map fold_right]; [apply rds_ret|].
  destruct (lookup_lt_is_Some_2 its k) as [x Hx]; [lia|]. rewrite (drop_S its x k Hx). cbn [take map].
  eapply rds_seq; [apply (rds_at its (Z.of_nat k) x Hok); [unfold lenZ in Hl; lia|by rewrite Nat2Z.id]|]. eapply rds_seq; [apply IH; lia|apply rds_ret].
Qed.
Lemma items_count its : item_ok (Lst its) -> lenZ its < 2 ^ 64 - 1.
Proof.
  intros Hok. pose proof (length_its_le its (item_ok_members its Hok)). destruct Hok as [_ Hl]. unfold sizeLimit, lenZ in *. lia.
Qed.
Lemma itemsOf_enc its : item_ok (Lst its) -> itemsOf (enc (Lst its)) = Ok (map enc its).
Proof.
  intros Hok. unfold itemsOf. rewrite itemCount_enc by done. cbn [rbind]. unfold lenZ. rewrite Nat2Z.id. apply runOn_rds.
  pose proof (rds_items its (length its) 0 Hok (le_n _) (items_count its Hok)) as Hr. by rewrite drop_0, take_ge in Hr.
Qed.
Lemma toPositiveInt64_enc i : 0 <= i < 2 ^ 63 -> toPositiveInt64 (enc (intItemOf i)) = Ok i.
Proof. intros Hi. unfold toPositiveInt64. rewrite (readInt_enc i 64 8) by lia. cbn [rbind]. by rewrite (proj2 (Z.leb_gt _ _)) by lia. Qed.
Lemma writes_seal (b : item) : item_ok b -> writes (fun s => appendRaw s (enc b) 1) b.
Proof. intros Hb _ s. by apply appendRaw_item. Qed.
Lemma header_writes h seals : header_ok h seals -> writes (header_streamRLP false h WithSeal) (Lst (headerItems h ++ seals)).
Proof.
  intros [Hh Hb Hn Hs Hok]. unfold header_streamRLP. unfold is_hash, is_address in *. apply writes_list.
  { rewrite Hs, lenZ_app. unfold lenZ at 1 3. by rewrite length_map. }
  apply Forall2_app.
  - unfold streamRLPFields, headerItems, writeInt64. rewrite !(wrap_small 64) by lia.
    repeat (apply Forall2_cons; split; [first [apply writes_hash|apply writes_bytes|apply writes_int; lia]|]). apply Forall2_nil_2.
  - unfold writeSeal. rewrite Hs, map_map. apply item_ok_members in Hok. apply Forall_app in Hok as [_ Hok]. clear -Hok.
    induction Hok; cbn [map]; constructor; [by apply writes_seal|done].
Qed.
Lemma populate_reads h seals : header_ok h seals -> populate (enc (Lst (headerItems h ++ seals))) = Ok (h <| h_hash := 0 |> <| h_hashWithout := 0 |>).
Proof.
  intros [Hh Hb Hn Hs Hok]. set (its := headerItems h ++ seals) in *. unfold populate. apply runOn_rds. destruct Hh as (H0 & H1 & H2 & H3 & H4 & H5), Hn as (H7 & H8 & H9 & H10 & H11).
  read_member its Hok (hashItem (h_parentHash h)). { by apply readHash32. }
  read_member its Hok (hashItem (h_sha3Uncles h)). { by apply readHash32. }
  read_member its Hok (Str (toBigEndian 20 (h_author h))). { by apply (readHash_enc 20); [lia|]. }
  read_member its Hok (hashItem (h_stateRoot h)). { by apply readHash32. }
  read_member its Hok (hashItem (h_transactionsRoot h)). { by apply readHash32. }
  read_member its Hok (hashItem (h_receiptsRoot h)). { by apply readHash32. }
  read_member its Hok (Str (h_logBloom h)). { by apply readBloom_enc. }
  read_member its Hok (intItemOf (h_difficulty h)). { by apply readInt256. }
  read_member its Hok (intItemOf (h_number h)). { by apply toPositiveInt64_enc. }
  read_member its Hok (intItemOf (h_gasLimit h)). { by apply readInt256. }
  read_member its Hok (intItemOf (h_gasUsed h)). { by apply readInt256. }
  read_member its Hok (intItemOf (h_timestamp h)). { by apply toPositiveInt64_enc. }
  read_member its Hok (Str (h_extraData h)). { apply readBytes_enc. by eapply (member_ok its 12). }
  eapply rds_seq; [apply rds_lift, itemCount_enc, Hok|]. assert (Hlen : lenZ its = 13 + lenZ seals) by (unfold its; by rewrite lenZ_app).
  eapply rds_seq; [unfold readSeal; apply (rds_items its); [done|unfold lenZ in Hlen |- *; lia|by apply items_count]|].
  replace (map enc (take (Z.to_nat (lenZ its - 13)) (drop 13 its))) with (h_seal h); [by destruct h; apply rds_ret|].
  rewrite Hs, Hlen. replace (Z.to_nat (13 + lenZ seals - 13)) with (length seals) by (unfold lenZ; lia). unfold its. change 13%nat with (length (headerItems h)). by rewrite drop_app_length, take_ge.
Qed.
Lemma block_parts a b c extra flags : item_ok (Lst (a :: b :: c :: extra)) -> RLP_ctor (enc (Lst (a :: b :: c :: extra))) flags = Ok (enc (Lst (a :: b :: c :: extra))) /\
  rdsAt (a :: b :: c :: extra) (at_ 0) (enc a) /\ rdsAt (a :: b :: c :: extra) (at_ 1) (enc b) /\ rdsAt (a :: b :: c :: extra) (at_ 2) (enc c).
Proof.
  intros Hok. split; [by apply RLP_ctor_enc|]. split_and!; (apply rds_at; [exact Hok|lia|reflexivity]).
Qed.

Lemma extractHeader_enc hs txs uncles extra : item_ok (Lst (Lst hs :: Lst txs :: Lst uncles :: extra)) -> extractHeader (enc (Lst (Lst hs :: Lst txs :: Lst uncles :: extra))) = Ok (enc (Lst hs)).
Proof.
  intros Hok. destruct (block_parts _ _ _ _ VeryStrict Hok) as (Ec & R0 & R1 & R2). unfold extractHeader. rewrite Ec. cbn [liftR lift rbind].
  rewrite (proj1 (enc_isList _ Hok)). cbn [negb].
  assert (Hr : rdsAt (Lst hs :: Lst txs :: Lst uncles :: extra) (let& a := at_ 0 in let& b := at_ 1 in let& c := at_ 2 in rret (a, b, c)) (enc (Lst hs), enc (Lst txs), enc (Lst uncles))).
  { eapply rds_seq; [exact R0|]. eapply rds_seq; [exact R1|]. eapply rds_seq; [exact R2|apply rds_ret]. }
  rewrite (runOn_rds _ _ _ Hr). cbn [lift rbind]. pose proof (item_ok_members _ Hok) as HF. rewrite !Forall_cons in HF. destruct HF as (F0 & F1 & F2 & _).
  by rewrite (proj1 (enc_isList _ F0)), (proj1 (enc_isList _ F1)), (proj1 (enc_isList _ F2)).
Qed.

(** C25: A header in its ranges, written with its seal: reading the bytes, by themselves or as the first part of a block, gives the header back, with the hash of the
    bytes memoised. *)
Theorem header_roundtrip (sha3 : list Z -> Z) (h : BlockHeader) (seals txs uncles : list item) : header_ok h seals -> item_ok (Lst [Lst (headerItems h ++ seals); Lst txs; Lst uncles]) ->
  exists d, rlpOf (header_streamRLP false h WithSeal) = Ok d /\
    readHeader sha3 d HeaderData 0 = Ok (h <| h_hash := sha3 d |> <| h_hashWithout := 0 |>) /\
    readHeader sha3 (enc (Lst [Lst (headerItems h ++ seals); Lst txs; Lst uncles])) BlockData 0 = Ok (h <| h_hash := sha3 d |> <| h_hashWithout := 0 |>).
Proof.
  intros Hh Hblock. pose proof (ho_item _ _ Hh) as Hok. exists (enc (Lst (headerItems h ++ seals))). pose proof (populate_reads h seals Hh) as Hp.
  split; [by apply rlpOf_writes; [apply header_writes|]|]. unfold readHeader. rewrite RLP_ctor_enc by done. cbn [liftR lift rbind]. rewrite Hp. split; [done|].
  rewrite extractHeader_enc by done. cbn [lift rbind]. by rewrite Hp.
Qed.

(** ** The memoised hashes *)

Section Memo.
Variables (sha3 : list Z -> Z) (hack : bool).
Definition memo_ok (h : BlockHeader) : Prop :=
  (h_hash h = 0 \/ computeHash sha3 hack h WithSeal = Ok (h_hash h)) /\ (h_hashWithout h = 0 \/ computeHash sha3 hack h WithoutSeal = Ok (h_hashWithout h)).
Lemma dirty_ok h : memo_ok (noteDirty h).
Proof. by split; left. Qed.
Lemma hash_current h i v h' : memo_ok h -> header_hash sha3 hack h i = Ok (v, h') -> computeHash sha3 hack h i = Ok v /\ memo_ok h'.
Proof.
  intros Hm. pose proof Hm as [H1 H2]. unfold header_hash. destruct i; cbn [Z.eqb].
  - destruct (Z.eqb_spec (h_hashWithout h) 0); [|intros [= <- <-]; by destruct H2]. destruct (computeHash sha3 hack h WithoutSeal) as [w|] eqn:E; [|done]. intros [= <- <-]. split; [done|]. split; [exact H1|by right].
  - destruct (Z.eqb_spec (h_hash h) 0); [|intros [= <- <-]; by destruct H1]. destruct (computeHash sha3 hack h WithSeal) as [w|] eqn:E; [|done]. intros [= <- <-]. split; [done|]. split; [by right|exact H2].
  - destruct (computeHash sha3 hack h OnlySeal) as [w|]; [|done]. by intros [= <- <-].
Qed.
Lemma step_memo op h h' : memo_ok h -> headerStep sha3 hack op h = Ok h' -> memo_ok h'.
Proof.
  intros Hm. destruct op; cbn [headerStep]; try (intros [= <-]; apply dirty_ok). destruct (header_hash sha3 hack h i) as [[v h1]|] eqn:E; [|done]. intros [= <-]. by eapply hash_current.
Qed.
End Memo.
(** After any sequence of setters and hashes on a new header, a hash is that of the header as it is now, memoised or not. *)
Theorem hash_is_of_the_content (sha3 : list Z -> Z) (hack : bool) (ops : list HeaderOp) (h h' : BlockHeader) (i : IncludeSeal) (v : Z) :
  fold_left (fun r op => let? h := r in headerStep sha3 hack op h) ops (Ok newHeader) = Ok h -> header_hash sha3 hack h i = Ok (v, h') ->
  exists d, rlpOf (header_streamRLP hack h i) = Ok d /\ v = sha3 d.
Proof.
  intros Hrun Hv. assert (Hm : memo_ok sha3 hack h).
  { assert (H0 : memo_ok sha3 hack newHeader) by (by split; left). revert H0 Hrun. generalize newHeader. induction ops as [|op ops IH]; intros h0 H0; cbn [fold_left rbind]; [by intros [= <-]|].
    destruct (headerStep sha3 hack op h0) as [h1|] eqn:E; [apply IH; by eapply step_memo|].
    intros Hr. exfalso. revert Hr. clear. induction ops; [done|exact IHops]. }
  destruct (hash_current _ _ _ _ _ _ Hm Hv) as [E _]. unfold computeHash in E. destruct (rlpOf (header_streamRLP hack h i)) as [d|]; [|done]. injection E as <-. by exists d.
Qed.
(** [populateFromParent] does not mark the header as changed: a memoised hash stays. *)
Lemma template_keeps_hash (sha3 : list Z -> Z) (hack : bool) (parent h : BlockHeader) : h_hash h <> 0 ->
  header_hash sha3 hack (populateFromParent parent h) WithSeal = Ok (h_hash h, populateFromParent parent h).
Proof. intros Hh. unfold header_hash. cbn. by rewrite (proj2 (Z.eqb_neq _ _) Hh). Qed.

(** ** What verification accepts *)

Lemma guard_ok {E A} (b : bool) (e : E) (k : result E A) a : (if b then Err e else k) = Ok a <-> b = false /\ k = Ok a.
Proof. destruct b; split; [done|by intros []|done|by intros []]. Qed.
Lemma verifyParent_ok sha3 hack h parent : verifyParent sha3 hack h parent = Ok tt <->
  (h_parentHash h = 0 \/ exists p, header_hash sha3 hack parent WithSeal = Ok (h_parentHash h, p)) /\ h_timestamp parent <= h_timestamp h /\ h_number h = h_number parent + 1.
Proof.
  unfold verifyParent. destruct (Z.eqb_spec (h_parentHash h) 0) as [E|E].
  - rewrite E. cbn [rbind Z.eqb negb]. rewrite !guard_ok, Z.ltb_ge, negb_false_iff, Z.eqb_eq. naive_solver.
  - destruct (header_hash sha3 hack parent WithSeal) as [[v p]|e]; cbn [liftR lift rbind fst]; [|naive_solver].
    rewrite !guard_ok, Z.ltb_ge, !negb_false_iff, !Z.eqb_eq. naive_solver.
Qed.
Lemma verifyBody_ok sha3 h hd txs uncles extra : item_ok (Lst (hd :: Lst txs :: Lst uncles :: extra)) ->
  verifyBody sha3 h (enc (Lst (hd :: Lst txs :: Lst uncles :: extra))) = Ok tt <->
  orderedTrieRoot sha3 (map enc txs) = Ok (h_transactionsRoot h) /\ h_sha3Uncles h = sha3 (enc (Lst uncles)).
Proof.
  intros Hok. destruct (block_parts _ _ _ _ VeryStrict Hok) as (Ec & _ & R1 & R2). pose proof (item_ok_members _ Hok) as HF. rewrite !Forall_cons in HF. destruct HF as (_ & F1 & _).
  unfold verifyBody. rewrite Ec. cbn [liftR lift rbind]. rewrite (runOn_rds _ _ _ R1). cbn [lift rbind]. rewrite itemsOf_enc by done. cbn [lift rbind].
  destruct (orderedTrieRoot sha3 (map enc txs)) as [r|e]; cbn [liftR lift rbind]; [|naive_solver].
  assert (R12 : rdsAt (hd :: Lst txs :: Lst uncles :: extra) (let& x := at_ 1 in at_ 2) (enc (Lst uncles))) by (by eapply rds_seq).
  rewrite (runOn_rds _ _ _ R12). cbn [lift rbind]. rewrite !guard_ok, !negb_false_iff, !Z.eqb_eq. naive_solver.
Qed.
Lemma verify_body_of sha3 hack s h parent hd txs uncles extra : item_ok (Lst (hd :: Lst txs :: Lst uncles :: extra)) ->
  verify sha3 hack s h parent (enc (Lst (hd :: Lst txs :: Lst uncles :: extra))) = Ok tt ->
  orderedTrieRoot sha3 (map enc txs) = Ok (h_transactionsRoot h) /\ h_sha3Uncles h = sha3 (enc (Lst uncles)).
Proof.
  intros Hok. unfold verify. rewrite !guard_ok. intros (_ & _ & Hv). destruct (if header_exists parent then _ else _) as [[]|]; [|done]. cbn [rbind] in Hv.
  case_bool_decide as E; [pose proof (enc_nonempty _ Hok) as Hl; by rewrite E in Hl|]. by apply (verifyBody_ok sha3 h hd _ _ extra).
Qed.
(** C26: When [verify] accepts a header with a block, a canonically encoded list of a first item, the transactions, the uncles and any further items: exactly when
    - the number has 32 bits;
    - the gas used is within the limit, which is not asked under CheckNothingNew;
    - if the parent exists (its timestamp is not the invalid one), the header names its hash, or the hash 0, which is accepted under any parent; it is not older than
      the parent; and its number is the next one;
    - the transactions have the root and the uncles the hash that the header names.
    Items behind the uncles are not looked at. *)
Theorem verify_accepts (sha3 : list Z -> Z) (hack : bool) (s : Strictness) (h parent : BlockHeader) (hd : item) (txs uncles extra : list item) :
  item_ok (Lst (hd :: Lst txs :: Lst uncles :: extra)) ->
  verify sha3 hack s h parent (enc (Lst (hd :: Lst txs :: Lst uncles :: extra))) = Ok tt <->
  h_number h < 2 ^ 32 /\ (s = CheckNothingNew \/ h_gasUsed h <= h_gasLimit h) /\
  (h_timestamp parent mod 2 ^ 256 <> Invalid256 ->
     (h_parentHash h = 0 \/ exists p, header_hash sha3 hack parent WithSeal = Ok (h_parentHash h, p)) /\ h_timestamp parent <= h_timestamp h /\ h_number h = h_number parent + 1) /\
  orderedTrieRoot sha3 (map enc txs) = Ok (h_transactionsRoot h) /\ h_sha3Uncles h = sha3 (enc (Lst uncles)).
Proof.
  intros Hok. unfold verify. rewrite !guard_ok. assert (Hne : enc (Lst (hd :: Lst txs :: Lst uncles :: extra)) <> []) by (pose proof (enc_nonempty _ Hok) as Hl; intros E; by rewrite E in Hl).
  rewrite (bool_decide_eq_false_2 _ Hne). rewrite andb_false_iff, negb_false_iff, bool_decide_eq_true, !Z.ltb_ge.
  assert (Hn : h_number h <= 2 ^ 32 - 1 <-> h_number h < 2 ^ 32) by lia. rewrite Hn. unfold header_exists. change (u256 (h_timestamp parent)) with (h_timestamp parent mod 2 ^ 256).
  destruct (Z.eqb_spec (h_timestamp parent mod 2 ^ 256) Invalid256) as [E|E]; cbn [negb rbind].
  - rewrite verifyBody_ok by done. tauto.
  - destruct (verifyParent sha3 hack h parent) as [[]|e] eqn:Ep; cbn [rbind].
    + apply verifyParent_ok in Ep. rewrite verifyBody_ok by done. tauto.
    + split; [naive_solver|]. intros (_ & _ & Hp & _). apply verifyParent_ok in Hp; [|done]. by rewrite Ep in Hp.
Qed.

(** ** The hash of a block *)

Lemma enc_bytes it : item_ok it -> bytes_ok (enc it).
Proof.
  assert (Hhdr : forall a b n, 0 <= a <= 192 -> 0 <= b <= 247 -> 0 <= n < 2 ^ 64 -> bytes_ok (hdr a b n)).
  { intros a b n Ha Hb Hn. unfold hdr. pose proof (bytesRequired_8 n Hn). destruct (bytesRequired_spec n) as (H0 & _); [lia|]. destruct (Z.ltb_spec n 56).
    - constructor; [unfold is_byte; lia|constructor].
    - constructor; [unfold is_byte; lia|apply toBigEndian_ok]. }
  pose proof sizeLimit_lt. induction it as [bs|its IH] using item_ind'; intros Hok.
  - destruct Hok as [Hb Hl]. cbn [enc]. unfold encStr. destruct (_ && _); [done|]. apply bytes_ok_app. split; [|done]. apply Hhdr; [lia|lia|pose proof (lenZ_nonneg bs); lia].
  - pose proof (item_ok_members _ Hok) as HF. destruct Hok as [_ Hl]. cbn [enc]. unfold encLst. apply bytes_ok_app. split; [apply Hhdr; [lia|lia|pose proof (lenZ_nonneg (concat (map enc its))); lia]|].
    clear Hl. induction HF as [|x its Hx HF IHF]; cbn [map concat]; [constructor|]. apply Forall_cons in IH as [IHx IH]. apply bytes_ok_app. split; [by apply IHx|by apply IHF].
Qed.
Lemma member_size its x : item_ok (Lst its) -> x ∈ its -> lenZ (enc x) <= lenZ (enc (Lst its)).
Proof.
  intros Hok Hin. cbn [enc]. unfold encLst. rewrite lenZ_app. generalize (lenZ_nonneg (hdrLst (lenZ (concat (map enc its))))). generalize (lenZ (hdrLst (lenZ (concat (map enc its))))). intros n Hn.
  apply list_elem_of_split in Hin as (l1 & l2 & ->). rewrite map_app, concat_app. cbn [map concat]. rewrite !lenZ_app in *.
  pose proof (lenZ_nonneg (concat (map enc l1))). pose proof (lenZ_nonneg (concat (map enc l2))). lia.
Qed.
Lemma txs_fit its : item_ok (Lst its) -> lenZ (enc (Lst its)) < 2 ^ 32 -> Forall item_fits (map enc its) /\ lenZ (map enc its) < 2 ^ 32.
Proof.
  intros Hok Hl. split.
  - apply Forall_fmap, Forall_forall. intros x Hin. pose proof (member_size its x Hok Hin) as Hs. pose proof (proj1 (Forall_forall _ _) (item_ok_members its Hok) x Hin) as Hx.
    pose proof (enc_nonempty x Hx) as Hne. split; [split; [by apply enc_bytes|cbn; lia]|]. intros E. cbn in E. rewrite E in Hne. done.
  - pose proof (length_its_le its (item_ok_members its Hok)) as Hle. cbn [enc] in Hl. unfold encLst in Hl. rewrite lenZ_app in Hl. unfold lenZ in *. rewrite length_map. lia.
Qed.
Lemma map_enc_inj its its' : item_ok (Lst its) -> item_ok (Lst its') -> map enc its = map enc its' -> its = its'.
Proof.
  intros H H' E. assert (Lst its = Lst its') as [= ->] by (apply enc_inj; [done|done|]; cbn [enc]; by rewrite E). done.
Qed.
(** What [verifyHeaders] accepted. *)
Lemma verifyHeaders_ok sha3 hack params headerData ir hs txs uncles extra h : item_ok (Lst (Lst hs :: Lst txs :: Lst uncles :: extra)) ->
  verifyHeaders sha3 hack params headerData (enc (Lst (Lst hs :: Lst txs :: Lst uncles :: extra))) ir = Ok h ->
  readHeader sha3 (enc (Lst hs)) HeaderData 0 = Ok h /\ h_hash h = sha3 (enc (Lst hs)) /\
  orderedTrieRoot sha3 (map enc txs) = Ok (h_transactionsRoot h) /\ h_sha3Uncles h = sha3 (enc (Lst uncles)).
Proof.
  intros Hok Hv. pose proof (item_ok_members _ Hok) as HF. rewrite !Forall_cons in HF. destruct HF as (F0 & _). unfold verifyHeaders in Hv.
  apply rbind_ok in Hv as (h1 & Hr & Hv). destruct (_ && _) in Hv; [done|]. apply rbind_ok in Hv as (parent & _ & Hv). apply rbind_ok in Hv as ([] & Hs & Hv).
  apply rbind_ok in Hv as (_ & _ & Hv). assert (h1 = h) as -> by congruence. unfold sealVerify in Hs. apply rbind_ok in Hs as ([] & Hver & _). apply verify_body_of in Hver; [|done].
  unfold readHeader in Hr |- *. rewrite extractHeader_enc in Hr by done. rewrite RLP_ctor_enc by done. cbn [liftR lift rbind] in Hr |- *. split; [exact Hr|]. split; [|exact Hver].
  apply rbind_ok in Hr as (h0 & _ & Hr). assert (h = h0 <| h_hash := sha3 (enc (Lst hs)) |>) as -> by (by destruct h0; injection Hr). done.
Qed.

(** C9: The hash of a block that passes the checks of the headers identifies its header, its transactions and its uncles: two canonically encoded blocks of less than
    4 GiB that pass and have the same hash agree on all three, or an encoding that one of them hashes (its header, its uncles, a node of the tree of its transactions)
    collides with one that the other hashes.  Nothing is said of further items behind the uncles, which the checks do not look at. *)
Theorem hash_identifies_block (sha3 : list Z -> Z) (sha3_range : forall x, 0 <= sha3 x < 2 ^ 256) (hack : bool) (params : SealParams) (headerData : Z -> list Z) (ir ir' : Z)
    (hs txs uncles extra hs' txs' uncles' extra' : list item) (h h' : BlockHeader) :
  let block := Lst (Lst hs :: Lst txs :: Lst uncles :: extra) in let block' := Lst (Lst hs' :: Lst txs' :: Lst uncles' :: extra') in
  item_ok block -> item_ok block' -> lenZ (enc block) < 2 ^ 32 -> lenZ (enc block') < 2 ^ 32 ->
  verifyHeaders sha3 hack params headerData (enc block) ir = Ok h -> verifyHeaders sha3 hack params headerData (enc block') ir' = Ok h' ->
  no_collision sha3 (enc (Lst hs) :: enc (Lst uncles) :: itemsHashed sha3 (map enc txs)) (enc (Lst hs') :: enc (Lst uncles') :: itemsHashed sha3 (map enc txs')) ->
  h_hash h = h_hash h' -> h = h' /\ hs = hs' /\ txs = txs' /\ uncles = uncles'.
Proof.
  intros block block' Hok Hok' Hl Hl' Hv Hv' Hnc E. apply verifyHeaders_ok in Hv as (R & Eh & Et & Eu), Hv' as (R' & Eh' & Et' & Eu'); [|done..].
  pose proof (item_ok_members _ Hok) as HF. rewrite !Forall_cons in HF. destruct HF as (F0 & F1 & F2 & _).
  pose proof (item_ok_members _ Hok') as HF. rewrite !Forall_cons in HF. destruct HF as (F0' & F1' & F2' & _).
  assert (Ehd : enc (Lst hs) = enc (Lst hs')) by (apply Hnc; [set_solver|set_solver|congruence]). rewrite Ehd, R' in R. injection R as <-.
  apply enc_inj in Ehd as [= <-]; [|done..].
  assert (Eun : enc (Lst uncles) = enc (Lst uncles')) by (apply Hnc; [set_solver|set_solver|congruence]). apply enc_inj in Eun as [= <-]; [|done..].
  split_and!; [done|done| |done].
  destruct (txs_fit txs F1) as [Hf Hn]; [pose proof (member_size _ (Lst txs) Hok ltac:(set_solver)); unfold block in Hl; lia|].
  destruct (txs_fit txs' F1') as [Hf' Hn']; [pose proof (member_size _ (Lst txs') Hok' ltac:(set_solver)); unfold block' in Hl'; lia|].
  apply map_enc_inj; [done|done|]. apply (items_of_root sha3 sha3_range); [done|done|done|done| |congruence]. eapply no_collision_sub; [exact Hnc|..]; set_solver.
Qed.

(** The bytes of a block are not identified: items added behind the uncles of a block leave the header that is read from it, with its hash, and [verify] accepts the
    longer block as well. *)
Theorem extra_items_keep_the_hash (sha3 : list Z -> Z) (hack : bool) (s : Strictness) (parent h : BlockHeader) (hs txs uncles extra : list item) :
  item_ok (Lst [Lst hs; Lst txs; Lst uncles]) -> item_ok (Lst (Lst hs :: Lst txs :: Lst uncles :: extra)) ->
  readHeader sha3 (enc (Lst [Lst hs; Lst txs; Lst uncles])) BlockData 0 = Ok h -> verify sha3 hack s h parent (enc (Lst [Lst hs; Lst txs; Lst uncles])) = Ok tt ->
  readHeader sha3 (enc (Lst (Lst hs :: Lst txs :: Lst uncles :: extra))) BlockData 0 = Ok h /\ verify sha3 hack s h parent (enc (Lst (Lst hs :: Lst txs :: Lst uncles :: extra))) = Ok tt.
Proof.
  intros Hok Hok' Hr Hv. split.
  - unfold readHeader in *. rewrite extractHeader_enc in Hr |- * by done. exact Hr.
  - apply verify_accepts; [done|]. by apply verify_accepts in Hv.
Qed.

Module HeaderExample.
Definition sha := RootExample.toy.
Definition txs : list item := [Lst [Str [1]; Str (replicate 40 7)]; Lst [Str [2]]].
Definition root : Z := match orderedTrieRoot sha (map enc txs) with Ok r => r | Err _ => 0 end.
Definition header : BlockHeader :=
  mkHeader 11 (sha (enc (Lst []))) 12 13 root 14 emptyBloom 0 5 1000 900 1700000000 [1; 2] [enc (Str [9])] 0 0.
Definition seals : list item := [Str [9]].
Definition block : item := Lst [Lst (headerItems header ++ seals); Lst txs; Lst []].
Definition params : SealParams := mkSealParams 0 0 (2 ^ 63) 1024 0 1024.
Definition known : Z -> list Z := fun _ => [].
Definition read : BlockHeader := match verifyHeaders sha false params known (enc block) 0 with Ok h => h | Err _ => newHeader end.
Lemma sha_range x : 0 <= sha x < 2 ^ 256.
Proof. unfold sha, RootExample.toy. induction x as [|b x _] using rev_ind; [split; [reflexivity|vm_compute; reflexivity]|]. rewrite foldl_app. apply Z.mod_pos_bound. reflexivity. Qed.
Lemma block_fits : item_ok block.
Proof. apply ReceiptExample.item_okb_sound. vm_compute. reflexivity. Qed.
Lemma header_fits : header_ok header seals.
Proof.
  split; [..|reflexivity|apply ReceiptExample.item_okb_sound; vm_compute; reflexivity].
  - unfold is_hash, is_address. repeat split; vm_compute; congruence.
  - split; [reflexivity|]. apply (bool_decide_unpack _). vm_compute. exact I.
  - unfold is_hash. repeat split; vm_compute; congruence.
Qed.
Lemma block_small : lenZ (enc block) < 2 ^ 32.
Proof. vm_compute. reflexivity. Qed.
Lemma block_verified : verifyHeaders sha false params known (enc block) 0 = Ok read.
Proof. vm_compute. reflexivity. Qed.
(** The same block with a fourth item. *)
Definition longer : item := Lst [Lst (headerItems header ++ seals); Lst txs; Lst []; Str [5]].
Definition readLonger : BlockHeader := match verifyHeaders sha false params known (enc longer) 0 with Ok h => h | Err _ => newHeader end.
Lemma longer_differs : longer <> block.
Proof. intros E. assert (E' : [Lst txs; Lst []; Str [5]] = [Lst txs; Lst []]) by (apply (f_equal (fun it => match it with Lst l => tail l | Str _ => [] end)) in E; exact E). discriminate E'. Qed.
Lemma longer_fits : item_ok longer.
Proof. apply ReceiptExample.item_okb_sound. vm_compute. reflexivity. Qed.
Lemma longer_small : lenZ (enc longer) < 2 ^ 32.
Proof. vm_compute. reflexivity. Qed.
Lemma longer_verified : verifyHeaders sha false params known (enc longer) 0 = Ok readLonger.
Proof. vm_compute. reflexivity. Qed.
Lemma same_hash : h_hash read = h_hash readLonger.
Proof. vm_compute. reflexivity. Qed.
Definition preimages : list (list Z) := enc (Lst (headerItems header ++ seals)) :: enc (Lst []) :: itemsHashed sha (map enc txs).
Lemma block_collides_not : no_collision sha preimages preimages.
Proof. apply RootExample.collisionFree_spec. vm_compute. reflexivity. Qed.
(** The number is set, the hash asked for, then the gas limit set. *)
Definition ops : list HeaderOp := [SetNumber 7; Hash WithSeal; SetGasLimit 100; Hash WithoutSeal].
Definition result_ops : BlockHeader := match fold_left (fun r op => let? h := r in headerStep sha false op h) ops (Ok newHeader) with Ok h => h | Err _ => newHeader end.
Definition hashed_value : Z := match header_hash sha false result_ops WithSeal with Ok p => fst p | Err _ => 0 end.
Definition hashed_header : BlockHeader := match header_hash sha false result_ops WithSeal with Ok p => snd p | Err _ => newHeader end.
End HeaderExample.

Lemma header_roundtrip_witness : exists d, rlpOf (header_streamRLP false HeaderExample.header WithSeal) = Ok d /\
  readHeader HeaderExample.sha d HeaderData 0 = Ok (HeaderExample.header <| h_hash := HeaderExample.sha d |> <| h_hashWithout := 0 |>) /\
  readHeader HeaderExample.sha (enc HeaderExample.block) BlockData 0 = Ok (HeaderExample.header <| h_hash := HeaderExample.sha d |> <| h_hashWithout := 0 |>).
Proof. exact (header_roundtrip HeaderExample.sha HeaderExample.header HeaderExample.seals HeaderExample.txs [] HeaderExample.header_fits HeaderExample.block_fits). Defined.
Lemma hash_is_of_the_content_witness : HeaderExample.hashed_value <> 0 /\ exists d, rlpOf (header_streamRLP false HeaderExample.result_ops WithSeal) = Ok d /\ HeaderExample.hashed_value = HeaderExample.sha d.
Proof.
  split; [vm_compute; discriminate|].
  apply (hash_is_of_the_content HeaderExample.sha false HeaderExample.ops HeaderExample.result_ops HeaderExample.hashed_header WithSeal); vm_compute; reflexivity.
Defined.
Lemma verify_accepts_witness : verify HeaderExample.sha false CheckEverything HeaderExample.header newHeader (enc HeaderExample.block) = Ok tt.
Proof.
  apply (verify_accepts HeaderExample.sha false CheckEverything HeaderExample.header newHeader (Lst (headerItems HeaderExample.header ++ HeaderExample.seals)) HeaderExample.txs [] [] HeaderExample.block_fits).
  split; [vm_compute; reflexivity|]. split; [right; vm_compute; congruence|]. split; [intros H; destruct H; vm_compute; reflexivity|]. split; vm_compute; reflexivity.
Defined.
Lemma hash_identifies_block_witness : h_hash HeaderExample.read <> 0 /\ HeaderExample.longer <> HeaderExample.block /\ HeaderExample.read = HeaderExample.readLonger.
Proof.
  split; [vm_compute; discriminate|]. split; [exact HeaderExample.longer_differs|].
  exact (proj1 (hash_identifies_block HeaderExample.sha HeaderExample.sha_range false HeaderExample.params HeaderExample.known 0 0 (headerItems HeaderExample.header ++ HeaderExample.seals) HeaderExample.txs [] []
    (headerItems HeaderExample.header ++ HeaderExample.seals) HeaderExample.txs [] [Str [5]] HeaderExample.read HeaderExample.readLonger HeaderExample.block_fits HeaderExample.longer_fits
    HeaderExample.block_small HeaderExample.longer_small HeaderExample.block_verified HeaderExample.longer_verified HeaderExample.block_collides_not HeaderExample.same_hash)).
Defined.
