(* ===== verification/BlockQueue.v ===== *)
(** * BlockQueue: the queue of blocks (libethereum/BlockQueue.h and .cpp)

    The queue with its sets, the two multimaps and the three queues of verification.  The thread that verifies holds one block at a time; taking it and
    finishing it are steps of their own, so that the other operations come between them.  An object that was moved from keeps its hashes and
    has no data, which [removeIf] and [insert] go on to use. *)

From Stdlib Require Import ZArith Lia Bool.
From stdpp Require Import base list gmap sets.
From S2P Require Import Prelude CommonData Rlp RlpCodec TrieHash BlockHeader.
Open Scope Z_scope.
Open Scope skaled_scope.

(** ** Queues and maps that count bytes *)

Class Movable (T : Type) := { dataSize : T -> Z; moved : T -> T }.
Record SizedBlockQueue (T : Type) := mkSized { q_items : list T; q_size : Z }.
Arguments mkSized {T}. Arguments q_items {T}. Arguments q_size {T}.
Definition emptyQueue {T} : SizedBlockQueue T := mkSized [] 0.
Definition totalSize {T} `{Movable T} (l : list T) : Z := foldr (fun t n => dataSize t + n) 0 l.
Definition sized_enqueue {T} `{Movable T} (t : T) (q : SizedBlockQueue T) : SizedBlockQueue T := mkSized (q_items q ++ [t]) (u64 (q_size q + dataSize t)).
(** The callers look first whether the queue is empty. *)
Definition dequeue {T} `{Movable T} (q : SizedBlockQueue T) : option (T * SizedBlockQueue T) :=
  match q_items q with [] => None | t :: rest => Some (t, mkSized rest (u64 (q_size q - dataSize t))) end.
Definition dequeueMultiple {T} `{Movable T} (n : nat) (q : SizedBlockQueue T) : list T * SizedBlockQueue T :=
  (take n (q_items q), mkSized (drop n (q_items q)) (u64 (q_size q - totalSize (take n (q_items q))))).
(** [std::remove_if] moves the elements that stay to the front; what is behind them afterwards is taken for the removed elements. *)
Definition removeIf {T} `{Movable T} (pred : T -> bool) (q : SizedBlockQueue T) : list T * SizedBlockQueue T :=
  let kept := List.filter (fun t => negb (pred t)) (q_items q) in
  let behind := map (fun t => if pred t then t else moved t) (drop (length kept) (q_items q)) in
  (behind, mkSized kept (u64 (q_size q - totalSize behind))).
(** [replace]: the first element that is looked for becomes [t]; false when there is none. *)
Fixpoint replaceItem {T} `{Movable T} (pred : T -> bool) (t : T) (l : list T) : option (T * list T) :=
  match l with
  | [] => None
  | x :: l' => if pred x then Some (x, t :: l') else match replaceItem pred t l' with Some (old, r) => Some (old, x :: r) | None => None end
  end.
Definition replace {T} `{Movable T} (pred : T -> bool) (t : T) (q : SizedBlockQueue T) : bool * SizedBlockQueue T :=
  match replaceItem pred t (q_items q) with
  | Some (old, items) => (true, mkSized items (u64 (q_size q - dataSize old + dataSize t)))
  | None => (false, q)
  end.

(** A multimap: entries in the order of the keys. *)
Record SizedBlockMap := mkSizedMap { m_entries : list (Z * (Z * list Z)); m_size : Z }.
Definition emptyMap : SizedBlockMap := mkSizedMap [] 0.
Fixpoint insertEntry (key : Z) (v : Z * list Z) (l : list (Z * (Z * list Z))) : list (Z * (Z * list Z)) :=
  match l with [] => [(key, v)] | e :: l' => if fst e <=? key then e :: insertEntry key v l' else (key, v) :: l end.
(** The size is added after the data were moved away: nothing is added. *)
Definition map_insert (key h : Z) (data : list Z) (m : SizedBlockMap) : SizedBlockMap := mkSizedMap (insertEntry key (h, data) (m_entries m)) (u64 (m_size m + lenZ (A := Z) [])).
Definition removedSize (l : list (Z * (Z * list Z))) : Z := foldr (fun e n => lenZ (snd (snd e)) + n) 0 l.
Definition removeWhere (p : Z -> bool) (m : SizedBlockMap) : list (Z * list Z) * SizedBlockMap :=
  let out := List.filter (fun e => p (fst e)) (m_entries m) in
  (map snd out, mkSizedMap (List.filter (fun e => negb (p (fst e))) (m_entries m)) (u64 (m_size m - removedSize out))).
Definition removeByKeyEqual (key : Z) : SizedBlockMap -> list (Z * list Z) * SizedBlockMap := removeWhere (fun k => k =? key).
Definition removeByKeyNotGreater (key : Z) : SizedBlockMap -> list (Z * list Z) * SizedBlockMap := removeWhere (fun k => k <=? key).
Definition map_firstKey (m : SizedBlockMap) : option Z := fst <$> head (m_entries m).

(** ** The queue *)

Record QueuedBlock := mkVerified { v_info : BlockHeader; v_data : list Z }.
Record UnverifiedBlock := mkUnverified { u_hash : Z; u_parentHash : Z; u_data : list Z }.
#[export] Instance QueuedBlock_movable : Movable QueuedBlock := { dataSize b := lenZ (v_data b); moved b := mkVerified (v_info b) [] }.
#[export] Instance UnverifiedBlock_movable : Movable UnverifiedBlock := { dataSize b := lenZ (u_data b); moved b := mkUnverified (u_hash b) (u_parentHash b) [] }.
(** The hash of a header that was read from its bytes is memoised. *)
Definition v_hash (b : QueuedBlock) : Z := h_hash (v_info b).
Definition v_parent (b : QueuedBlock) : Z := h_parentHash (v_info b).
Definition v_tag (b : QueuedBlock) : Z := h_sha3Uncles (v_info b).

(** [bq_work] is the block that the thread of verification works on. *)
Record BlockQueue := mkQueue {
  bq_drainingSet : gset Z; bq_readySet : gset Z; bq_unknownSet : gset Z; bq_knownBad : gset Z; bq_futureSet : gset Z;
  bq_unknown : SizedBlockMap; bq_future : SizedBlockMap;
  bq_verified : SizedBlockQueue QueuedBlock; bq_verifying : SizedBlockQueue QueuedBlock; bq_unverified : SizedBlockQueue UnverifiedBlock;
  bq_difficulty : Z; bq_drainingDifficulty : Z; bq_work : option UnverifiedBlock }.
#[export] Instance BlockQueue_expand : Expandable BlockQueue := fun q =>
  mkQueue (bq_drainingSet q) (bq_readySet q) (bq_unknownSet q) (bq_knownBad q) (bq_futureSet q) (bq_unknown q) (bq_future q) (bq_verified q) (bq_verifying q)
    (bq_unverified q) (bq_difficulty q) (bq_drainingDifficulty q) (bq_work q).
Definition newQueue : BlockQueue := mkQueue ∅ ∅ ∅ ∅ ∅ emptyMap emptyMap emptyQueue emptyQueue emptyQueue 0 0 None.
Definition c_maxKnownCount : Z := 100000.
Definition c_maxKnownSize : Z := 128 * 1024 * 1024.
Definition c_maxUnknownCount : Z := 100000.
Definition c_maxUnknownSize : Z := 512 * 1024 * 1024.

Definition bq_clear (q : BlockQueue) : BlockQueue :=
  q <| bq_readySet := ∅ |> <| bq_drainingSet := ∅ |> <| bq_verified := emptyQueue |> <| bq_unverified := emptyQueue |> <| bq_verifying := emptyQueue |> <| bq_unknownSet := ∅ |>
    <| bq_unknown := emptyMap |> <| bq_future := emptyMap |> <| bq_futureSet := ∅ |> <| bq_difficulty := 0 |> <| bq_drainingDifficulty := 0 |>.
Definition knownCount (q : BlockQueue) : Z := lenZ (q_items (bq_verified q)) + lenZ (q_items (bq_unverified q)) + lenZ (q_items (bq_verifying q)).
Definition knownSize (q : BlockQueue) : Z := u64 (q_size (bq_verified q) + q_size (bq_unverified q) + q_size (bq_verifying q)).
Definition knownFull (q : BlockQueue) : bool := (c_maxKnownSize <? knownSize q) || (c_maxKnownCount <? knownCount q).
Definition unknownCount (q : BlockQueue) : Z := lenZ (m_entries (bq_future q)) + lenZ (m_entries (bq_unknown q)).
Definition unknownSize (q : BlockQueue) : Z := u64 (m_size (bq_future q) + m_size (bq_unknown q)).
Definition unknownFull (q : BlockQueue) : bool := (c_maxUnknownSize <? unknownSize q) || (c_maxUnknownCount <? unknownCount q).
Definition invariants (q : BlockQueue) : bool := Z.of_nat (size (bq_readySet q)) =? knownCount q.
Inductive QueueStatus := Ready | Importing | StatusUnknownParent | Bad | Unknown.
Definition blockStatus (h : Z) (q : BlockQueue) : QueueStatus :=
  if bool_decide (h ∈ bq_readySet q) then Ready else if bool_decide (h ∈ bq_drainingSet q) then Importing else if bool_decide (h ∈ bq_unknownSet q) then StatusUnknownParent
  else if bool_decide (h ∈ bq_knownBad q) then Bad else Unknown.
Definition isActive (q : BlockQueue) : bool :=
  negb (bool_decide (bq_readySet q = ∅) && bool_decide (bq_drainingSet q = ∅) && (knownCount q =? 0)).

(** A block whose verification is next. *)
Definition toUnverified (h parent : Z) (data : list Z) (q : BlockQueue) : BlockQueue :=
  q <| bq_unverified := sized_enqueue (mkUnverified h parent data) (bq_unverified q) |> <| bq_readySet := {[h]} ∪ bq_readySet q |>.
Definition fromUnknown (parent : Z) (e : Z * list Z) (q : BlockQueue) : BlockQueue :=
  toUnverified (fst e) parent (snd e) (q <| bq_unknownSet := bq_unknownSet q ∖ {[fst e]} |>).
(** [noteReady_WITH_LOCK]: the children of a block that is ready, their children, and so on. *)
Fixpoint noteReadyLoop (fuel : nat) (goodQueue : list Z) (q : BlockQueue) : BlockQueue :=
  match fuel, goodQueue with
  | S f, parent :: rest =>
      let '(removed, m) := removeByKeyEqual parent (bq_unknown q) in
      noteReadyLoop f (rest ++ map fst removed) (foldl (fun q e => fromUnknown parent e q) (q <| bq_unknown := m |>) removed)
  | _, _ => q
  end.
Definition noteReady (good : Z) (q : BlockQueue) : BlockQueue := noteReadyLoop (S (length (m_entries (bq_unknown q)))) [good] q.
Fixpoint retryLoop (fuel : nat) (q : BlockQueue) : BlockQueue :=
  match fuel, map_firstKey (bq_unknown q) with
  | S f, Some parent =>
      let '(removed, m) := removeByKeyEqual parent (bq_unknown q) in
      retryLoop f (foldl (fun q e => fromUnknown parent e q) (q <| bq_unknown := m |>) removed)
  | _, _ => q
  end.
Definition retryAllUnknown (q : BlockQueue) : BlockQueue := retryLoop (length (m_entries (bq_unknown q))) q.

(** *** Bad blocks *)

Definition condemn (h : Z) (q : BlockQueue) : BlockQueue := q <| bq_knownBad := {[h]} ∪ bq_knownBad q |> <| bq_readySet := bq_readySet q ∖ {[h]} |>.
Fixpoint collectLoop (fuel : nat) (badQueue : list Z) (q : BlockQueue) : BlockQueue :=
  match fuel, badQueue with
  | S f, bad :: rest =>
      let '(removed, m) := removeByKeyEqual bad (bq_unknown q) in
      collectLoop f (rest ++ map fst removed)
        (foldl (fun q e => q <| bq_unknownSet := bq_unknownSet q ∖ {[fst e]} |> <| bq_knownBad := {[fst e]} ∪ bq_knownBad q |>) (q <| bq_unknown := m |>) removed)
  | _, _ => q
  end.
Definition collectUnknownBad (bad : Z) (q : BlockQueue) : BlockQueue := collectLoop (S (length (m_entries (bq_unknown q)))) [bad] q.
Definition condemnAll (hs : list Z) (q : BlockQueue) : BlockQueue := foldl (fun q h => collectUnknownBad h (condemn h q)) q hs.
Definition isBad (q : BlockQueue) (h : Z) : bool := bool_decide (h ∈ bq_knownBad q).
(** One round of the loop, and whether it found something. *)
Definition badRound (q : BlockQueue) : bool * BlockQueue :=
  let '(badVerified, verified) := removeIf (fun b => isBad q (v_parent b) || isBad q (v_hash b)) (bq_verified q) in
  let q1 := condemnAll (map v_hash badVerified) (q <| bq_verified := verified |>) in
  let '(badUnverified, unverified) := removeIf (fun b => isBad q1 (u_parentHash b) || isBad q1 (u_hash b)) (bq_unverified q1) in
  let q2 := condemnAll (map u_hash badUnverified) (q1 <| bq_unverified := unverified |>) in
  let '(badVerifying, verifying) := removeIf (fun b => isBad q2 (v_parent b) || isBad q2 (v_tag b)) (bq_verifying q2) in
  let q3 := condemnAll (map (fun b => if negb (lenZ (v_data b) =? 0) then v_hash b else v_tag b) badVerifying) (q2 <| bq_verifying := verifying |>) in
  (negb (bool_decide (badVerified = [] /\ badUnverified = [] /\ badVerifying = [])), q3).
Fixpoint badLoop (fuel : nat) (q : BlockQueue) : BlockQueue :=
  match fuel with O => q | S f => let '(more, q') := badRound q in if (more : bool) then badLoop f q' else q' end.
Definition updateBad (bad : Z) (q : BlockQueue) : BlockQueue := badLoop (S (Z.to_nat (knownCount q))) (collectUnknownBad bad q).

(** *** Verification *)

Fixpoint drainVerified (fuel : nat) (q : BlockQueue) : BlockQueue :=
  match fuel, dequeue (bq_verifying q) with
  | S f, Some (b, rest) =>
      if bool_decide (v_data b = []) then q
      else
        let q' := q <| bq_verifying := rest |> in
        drainVerified f (if isBad q (v_parent b) then condemn (v_hash b) q' else q' <| bq_verified := sized_enqueue b (bq_verified q') |>)
  | _, _ => q
  end.
Definition drainVerified_WITH_BOTH_LOCKS (q : BlockQueue) : BlockQueue := drainVerified (length (q_items (bq_verifying q))) q.
(** The placeholder of a block that is being verified: its hash in the place of the hash of the uncles, and no data. *)
Definition placeholder (u : UnverifiedBlock) : QueuedBlock := mkVerified (newHeader <| h_sha3Uncles := u_hash u |> <| h_parentHash := u_parentHash u |>) [].
(** The thread takes a block. *)
Definition takeWork (q : BlockQueue) : BlockQueue :=
  match bq_work q, dequeue (bq_unverified q) with
  | None, Some (u, rest) => q <| bq_unverified := rest |> <| bq_verifying := sized_enqueue (placeholder u) (bq_verifying q) |> <| bq_work := Some u |>
  | _, _ => q
  end.
(** The thread is done with its block: [res] is the header, or nothing when the block is invalid. *)
Definition finishWork (res : option BlockHeader) (q : BlockQueue) : BlockQueue :=
  match bq_work q with
  | None => q
  | Some u =>
      let q0 := q <| bq_work := None |> in
      match res with
      | None =>
          let q1 := condemn (u_hash u) q0 in
          drainVerified_WITH_BOTH_LOCKS (q1 <| bq_verifying := snd (removeIf (fun b => v_tag b =? u_hash u) (bq_verifying q1)) |>)
      | Some info =>
          let b := mkVerified info (u_data u) in
          match dequeue (bq_verifying q0) with
          | Some (front, rest) =>
              if v_tag front =? u_hash u then
                let q1 := q0 <| bq_verifying := rest |> in
                drainVerified_WITH_BOTH_LOCKS (if isBad q1 (v_parent b) then condemn (v_hash b) q1 else q1 <| bq_verified := sized_enqueue b (bq_verified q1) |>)
              else
                q0 <| bq_verifying := snd (replace (fun x => v_tag x =? u_hash u) b (bq_verifying q0)) |>
          | None => q0
          end
      end
  end.

(** *** Import *)

Inductive BlockImportResult := ImportSuccess | UnknownParent | FutureTimeKnown | FutureTimeUnknown | BlockInChain | BlockAlreadyKnown | Malformed | BadChain.
Section Intake.
Variables (sha3 : list Z -> Z) (hack : bool) (params : SealParams) (headerData : Z -> list Z).
(** Whether every transaction of the block can be read and passes the checks that are asked for, with the chain as it is. *)
Variable transactionsValid : list Z -> Z -> bool.
Definition TransactionBasic : Z := 8.
Definition TransactionSignatures : Z := 32.
Definition OutOfOrderChecks : Z := Z.lor ValidSeal (Z.lor (Z.lor UncleBasic UncleSeals) (Z.lor TransactionBasic TransactionSignatures)).
Definition verifyBlock (block : list Z) (ir : Z) : option BlockHeader :=
  match verifyHeaders sha3 hack params headerData block ir with
  | Ok h => if has ir (Z.lor TransactionBasic TransactionSignatures) && negb (transactionsValid block ir) then None else Some h
  | Err _ => None
  end.
Definition headerHashFromBlock (block : list Z) : result CodecError Z :=
  let? root := liftR (RLP_ctor block VeryStrict) in
  let? header := runOn (at_ 0) root in
  Ok (sha3 header).

(** [chain] is what the block chain knows; [now] is the time.  A block whose RLP cannot be read throws out of [importBlock]. *)
Definition importBlock (chain : Z -> bool) (now : Z) (block : list Z) (isOurs : bool) (q : BlockQueue) : result CodecError (BlockImportResult * BlockQueue) :=
  let? h := headerHashFromBlock block in
  if bool_decide (h ∈ bq_readySet q ∪ bq_drainingSet q ∪ bq_unknownSet q ∪ bq_knownBad q ∪ bq_futureSet q) then Ok (BlockAlreadyKnown, q)
  else
    match verifyBlock block PostGenesis with
    | None => Ok (Malformed, q)
    | Some bi =>
        if chain h then Ok (BlockInChain, q)
        else
          let parent := h_parentHash bi in
          let timestamp := if hack then i64 (h_number bi + 1) else h_timestamp bi in
          let counted q := q <| bq_difficulty := u256 (bq_difficulty q + h_difficulty bi) |> in
          if (now <? timestamp) && negb isOurs then
            let q1 := counted (q <| bq_future := map_insert timestamp h block (bq_future q) |> <| bq_futureSet := {[h]} ∪ bq_futureSet q |>) in
            let unknown := negb (bool_decide (parent ∈ bq_readySet q1 ∪ bq_drainingSet q1 ∪ bq_futureSet q1)) && negb (chain parent) in
            Ok (if unknown then FutureTimeUnknown else FutureTimeKnown, q1)
          else if isBad q parent then Ok (BadChain, updateBad (h_hash bi) (q <| bq_knownBad := {[h_hash bi]} ∪ bq_knownBad q |>))
          else if negb (bool_decide (parent ∈ bq_readySet q ∪ bq_drainingSet q)) && negb (chain parent) then
            Ok (UnknownParent, counted (q <| bq_unknown := map_insert parent h block (bq_unknown q) |> <| bq_unknownSet := {[h]} ∪ bq_unknownSet q |>))
          else Ok (ImportSuccess, noteReady h (counted (toUnverified h parent block q)))
    end.
Fixpoint importAll (chain : Z -> bool) (now : Z) (blocks : list (Z * list Z)) (q : BlockQueue) : result CodecError BlockQueue :=
  match blocks with [] => Ok q | b :: bs => let? p := importBlock chain now (snd b) false q in importAll chain now bs (snd p) end.
(** [tick] takes the blocks of the future whose time has come, gives the lock back, and imports them one by one. *)
Definition takeDue (now : Z) (q : BlockQueue) : list (Z * list Z) * BlockQueue :=
  match map_firstKey (bq_future q) with
  | None => ([], q)
  | Some k =>
      if now <? k then ([], q)
      else
        let '(todo, m) := removeByKeyNotGreater now (bq_future q) in
        (todo, foldl (fun q e => q <| bq_futureSet := bq_futureSet q ∖ {[fst e]} |>) (q <| bq_future := m |>) todo)
  end.
Definition tick (chain : Z -> bool) (now : Z) (q : BlockQueue) : result CodecError BlockQueue :=
  let '(todo, q') := takeDue now q in importAll chain now todo q'.
End Intake.

(** *** Draining *)

Definition startDraining (b : QueuedBlock) (q : BlockQueue) : BlockQueue :=
  q <| bq_drainingSet := {[v_hash b]} ∪ bq_drainingSet q |> <| bq_drainingDifficulty := u256 (bq_drainingDifficulty q + h_difficulty (v_info b)) |>
    <| bq_readySet := bq_readySet q ∖ {[v_hash b]} |>.
(** The blocks, the queue, and whether there is room again. *)
Definition drain (max : Z) (q : BlockQueue) : list QueuedBlock * BlockQueue * bool :=
  let wasFull := knownFull q in
  if bool_decide (bq_drainingSet q = ∅) then
    let '(out, verified) := dequeueMultiple (Z.to_nat (Z.min max (u32 (lenZ (q_items (bq_verified q)))))) (bq_verified q) in
    let q' := foldl (fun q b => startDraining b q) (q <| bq_drainingDifficulty := 0 |> <| bq_verified := verified |>) out in
    (out, q', wasFull && negb (knownFull q'))
  else ([], q, wasFull && negb (knownFull q)).
Definition doneDrain (bad : list Z) (q : BlockQueue) : bool * BlockQueue :=
  let q1 := q <| bq_drainingSet := ∅ |> <| bq_difficulty := u256 (bq_difficulty q - bq_drainingDifficulty q) |> <| bq_drainingDifficulty := 0 |> in
  let q2 := if bool_decide (bad = []) then q1 else foldl (fun q b => updateBad b q) (q1 <| bq_knownBad := list_to_set bad ∪ bq_knownBad q1 |>) bad in
  (negb (bool_decide (bq_readySet q2 = ∅)), q2).
