(* ===== verification/BlockQueueClaims.v ===== *)
(** * BlockQueueClaims: the order in which the block queue gives its blocks

    A node is the queue beside the set of blocks that the chain knows.  Its steps are the operations of the queue, with those of the thread
    of verification between them, and the growth of the chain.  Along such steps the queue keeps the blocks behind their parents. *)

From Stdlib Require Import ZArith Lia Bool.
From stdpp Require Import base list gmap sets.
From S2P Require Import Prelude CommonData Rlp RlpCodec TrieHash BlockHeader BlockQueue.
Open Scope Z_scope.
Open Scope skaled_scope.

(** ** Blocks behind their parents *)

(** Each pair is the hash of a block and that of its parent, which is known or earlier in the list. *)
Fixpoint inOrder (known : gset Z) (l : list (Z * Z)) : Prop :=
  match l with [] => True | (h, p) :: l' => p ∈ known /\ inOrder ({[h]} ∪ known) l' end.
Definition hashesOf (l : list (Z * Z)) : gset Z := list_to_set l.*1.
Lemma inOrder_mono K K' l : K ⊆ K' -> inOrder K l -> inOrder K' l.
Proof. revert K K'. induction l as [|[h p] l IH]; intros K K' HK; [done|]. intros [Hp Hl]. split; [set_solver|]. eapply IH; [|done]. set_solver. Qed.
Lemma inOrder_app K l l' : inOrder K (l ++ l') <-> inOrder K l /\ inOrder (hashesOf l ∪ K) l'.
Proof.
  revert K. induction l as [|[h p] l IH]; intros K; cbn.
  - unfold hashesOf. cbn. replace (∅ ∪ K) with K by set_solver. tauto.
  - rewrite IH. replace (hashesOf ((h, p) :: l) ∪ K) with (hashesOf l ∪ ({[h]} ∪ K)) by (unfold hashesOf; cbn; set_solver). tauto.
Qed.
Lemma inOrder_one K h p : inOrder K [(h, p)] <-> p ∈ K.
Proof. cbn. tauto. Qed.
Lemma hashesOf_app l l' : hashesOf (l ++ l') = hashesOf l ∪ hashesOf l'.
Proof. unfold hashesOf. by rewrite fmap_app, list_to_set_app_L. Qed.
Lemma hashesOf_one p : hashesOf [p] = {[p.1]}.
Proof. unfold hashesOf. cbn. apply (right_id_L ∅ (∪)). Qed.
Lemma inOrder_siblings K p l : p ∈ K -> inOrder K (map (fun h => (h, p)) l).
Proof. revert K. induction l as [|h l IH]; intros K Hp; [done|]. split; [done|]. apply IH. set_solver. Qed.

(** ** What the queue holds *)

Definition pairV (b : QueuedBlock) : Z * Z := (v_hash b, v_parent b).
Definition pairU (u : UnverifiedBlock) : Z * Z := (u_hash u, u_parentHash u).
Definition verifiedPairs (q : BlockQueue) : list (Z * Z) := map pairV (q_items (bq_verified q)).
Definition workPairs (q : BlockQueue) : list (Z * Z) := match bq_work q with Some u => [pairU u] | None => [] end.
Definition unverifiedPairs (q : BlockQueue) : list (Z * Z) := map pairU (q_items (bq_unverified q)).
Definition pending (q : BlockQueue) : list (Z * Z) := verifiedPairs q ++ workPairs q ++ unverifiedPairs q.
Definition waitingHashes (q : BlockQueue) : list Z := map (fun e => fst (snd e)) (m_entries (bq_unknown q)).
Definition awaited (q : BlockQueue) : gset Z := list_to_set (m_entries (bq_unknown q)).*1.

Record drained_to (out : list QueuedBlock) (q q' : BlockQueue) : Prop := {
  dt_same : bq_unknownSet q' = bq_unknownSet q /\ bq_knownBad q' = bq_knownBad q /\ bq_unknown q' = bq_unknown q /\ bq_verified q' = bq_verified q /\ bq_verifying q' = bq_verifying q /\
    bq_unverified q' = bq_unverified q /\ bq_work q' = bq_work q;
  dt_draining : bq_drainingSet q' = hashesOf (map pairV out) ∪ bq_drainingSet q;
  dt_ready : bq_readySet q' = bq_readySet q ∖ hashesOf (map pairV out) }.
Lemma startDraining_fold out q : drained_to out q (foldl (fun q b => startDraining b q) q out).
Proof.
  unfold hashesOf. revert q. induction out as [|b out IH]; intros q; cbn [foldl].
  - split; [done|set_solver|set_solver].
  - destruct (IH (startDraining b q)) as [Hs Hd Hr]. split; [exact Hs|rewrite Hd; cbn; set_solver|rewrite Hr; cbn; set_solver].
Qed.
(** What is drained is the beginning of the verified blocks. *)
Lemma drain_cases max q : drain max q = ([], q, (drain max q).2) \/
  (bq_drainingSet q = ∅ /\ exists out rest n, q_items (bq_verified q) = out ++ rest /\ (drain max q).1.1 = out /\
     drained_to out (q <| bq_drainingDifficulty := 0 |> <| bq_verified := mkSized rest n |>) (drain max q).1.2).
Proof.
  unfold drain. case_bool_decide as Hd; [right|by left]. split; [done|]. unfold dequeueMultiple. set (k := Z.to_nat _). cbn [fst snd].
  exists (take k (q_items (bq_verified q))), (drop k (q_items (bq_verified q))), (u64 (q_size (bq_verified q) - totalSize (take k (q_items (bq_verified q))))).
  split; [by rewrite take_drop|]. split; [done|]. apply startDraining_fold.
Qed.

(** ** The bytes of a block give its hash *)

Lemma readHeader_hash sha3 block h : readHeader sha3 block BlockData 0 = Ok h -> headerHashFromBlock sha3 block = Ok (h_hash h).
Proof.
  unfold readHeader, extractHeader, headerHashFromBlock, lift. destruct (liftR (RLP_ctor block VeryStrict)) as [root|]; cbn; [|done].
  destruct (isList root); cbn; [|done]. unfold runOn, rseq.
  destruct (at_ 0 (RLP_of root)) as [[a r]|]; cbn; [|done]. destruct (at_ 1 r) as [[b r']|]; cbn; [|done]. destruct (at_ 2 r') as [[c r'']|]; cbn; [|done].
  destruct (isList a); cbn; [|done]. destruct (isList b); cbn; [|done]. destruct (isList c); cbn; [|done].
  destruct (populate a) as [h0|]; cbn; [|done]. by intros [= <-].
Qed.
Lemma verifyHeaders_reads sha3 hack params headerData block ir h : verifyHeaders sha3 hack params headerData block ir = Ok h -> readHeader sha3 block BlockData 0 = Ok h.
Proof.
  unfold verifyHeaders. destruct (readHeader sha3 block BlockData 0) as [h0|]; cbn; [|done]. case_match; [done|].
  destruct (requestedParent _ _ _ _ _) as [parent|]; cbn; [|done]. destruct (sealVerify _ _ _ _ _ _ _) as [?|]; cbn; [|done].
  by match goal with |- context [rbind ?m _] => destruct m as [?|] end.
Qed.

Section Run.
Variables (sha3 : list Z -> Z) (hack : bool) (params : SealParams).
(** The header that the bytes of the block give has this hash and this parent. *)
Definition genuine (h parent : Z) (data : list Z) : Prop := forall info, readHeader sha3 data BlockData 0 = Ok info -> h_hash info = h /\ h_parentHash info = parent.
Lemma verifyBlock_reads headerData txs block ir info : verifyBlock sha3 hack params headerData txs block ir = Some info -> readHeader sha3 block BlockData 0 = Ok info.
Proof. unfold verifyBlock. destruct (verifyHeaders _ _ _ _ _ _) eqn:E; [|done]. case_match; [done|]. intros [= <-]. by eapply verifyHeaders_reads. Qed.
Lemma read_genuine block info : readHeader sha3 block BlockData 0 = Ok info -> genuine (h_hash info) (h_parentHash info) block.
Proof. intros H info' H'. rewrite H in H'. by injection H' as <-. Qed.

(** ** Steps *)

Record Node := mkNode { n_queue : BlockQueue; n_chain : gset Z }.
Definition chainKnows (n : Node) (h : Z) : bool := bool_decide (h ∈ n_chain n).
(** No block of the three queues is bad or the child of a bad one: [updateBad] then finds nothing to take out of them. *)
Definition clean (q : BlockQueue) : Prop :=
  (forall b, b ∈ q_items (bq_verified q) -> isBad q (v_parent b) || isBad q (v_hash b) = false) /\
  (forall u, u ∈ q_items (bq_unverified q) -> isBad q (u_parentHash u) || isBad q (u_hash u) = false) /\
  (forall b, b ∈ q_items (bq_verifying q) -> isBad q (v_parent b) || isBad q (v_tag b) = false).
Definition spares (bad : Z) (q : BlockQueue) : Prop := clean (collectUnknownBad bad q).
Fixpoint sparesAll (bad : list Z) (q : BlockQueue) : Prop := match bad with [] => True | b :: bs => spares b q /\ sparesAll bs (updateBad b q) end.
(** What the import of a block behind a bad parent condemns is in none of the queues, and so for the blocks that are reported bad after they were drained. *)
Definition sparing (block : list Z) (q : BlockQueue) : Prop := forall bi, readHeader sha3 block BlockData 0 = Ok bi -> isBad q (h_parentHash bi) = true ->
  spares (h_hash bi) (q <| bq_knownBad := {[h_hash bi]} ∪ bq_knownBad q |>).
Definition drainedWith (bad : list Z) (q : BlockQueue) : BlockQueue :=
  q <| bq_drainingSet := ∅ |> <| bq_difficulty := u256 (bq_difficulty q - bq_drainingDifficulty q) |> <| bq_drainingDifficulty := 0 |> <| bq_knownBad := list_to_set bad ∪ bq_knownBad q |>.
(** The steps that keep the order: every operation but [retryAllUnknown], where [updateBad] takes nothing out of the three queues, nothing is cleared during a verification,
    and a block that was drained is then in the chain or reported bad.  The headers that the chain has and its checks of transactions may be others in every step. *)
Inductive step : Node -> Node -> Prop :=
| step_import n headerData transactionsValid now block ours r q' : importBlock sha3 hack params headerData transactionsValid (chainKnows n) now block ours (n_queue n) = Ok (r, q') ->
    sparing block (n_queue n) -> step n (mkNode q' (n_chain n))
| step_due n now : step n (mkNode (takeDue now (n_queue n)).2 (n_chain n))
| step_take n : step n (mkNode (takeWork (n_queue n)) (n_chain n))
| step_finish n headerData transactionsValid u : bq_work (n_queue n) = Some u ->
    step n (mkNode (finishWork (verifyBlock sha3 hack params headerData transactionsValid (u_data u) OutOfOrderChecks) (n_queue n)) (n_chain n))
| step_drain n max : step n (mkNode (drain max (n_queue n)).1.2 (n_chain n))
| step_done n bad : bq_drainingSet (n_queue n) ⊆ list_to_set bad ∪ n_chain n -> sparesAll bad (drainedWith bad (n_queue n)) -> step n (mkNode (doneDrain bad (n_queue n)).2 (n_chain n))
| step_ready n good : good ∈ n_chain n -> step n (mkNode (noteReady good (n_queue n)) (n_chain n))
| step_clear n : bq_work (n_queue n) = None -> step n (mkNode (bq_clear (n_queue n)) (n_chain n))
| step_chain n chain : n_chain n ⊆ chain -> step n (mkNode (n_queue n) chain).
Inductive reachable : Node -> Prop :=
| reachable_new chain : reachable (mkNode newQueue chain)
| reachable_step n n' : reachable n -> step n n' -> reachable n'.

(** All operations, [retryAllUnknown] too, whatever the chain knows, whichever block is noted as ready, and wherever the drained blocks went. *)
Inductive anyStep : BlockQueue -> BlockQueue -> Prop :=
| any_import q headerData transactionsValid knows now block ours r q' : importBlock sha3 hack params headerData transactionsValid knows now block ours q = Ok (r, q') -> sparing block q -> anyStep q q'
| any_due q now : anyStep q (takeDue now q).2
| any_take q : anyStep q (takeWork q)
| any_finish q headerData transactionsValid u : bq_work q = Some u -> anyStep q (finishWork (verifyBlock sha3 hack params headerData transactionsValid (u_data u) OutOfOrderChecks) q)
| any_drain q max : anyStep q (drain max q).1.2
| any_done q bad : sparesAll bad (drainedWith bad q) -> anyStep q (doneDrain bad q).2
| any_ready q good : anyStep q (noteReady good q)
| any_retry q : anyStep q (retryAllUnknown q)
| any_clear q : bq_work q = None -> anyStep q (bq_clear q).
Inductive visited : BlockQueue -> Prop :=
| visited_new : visited newQueue
| visited_step q q' : visited q -> anyStep q q' -> visited q'.

Record ordered (q : BlockQueue) (chain : gset Z) : Prop := {
  ord_verifying : q_items (bq_verifying q) = match bq_work q with Some u => [placeholder u] | None => [] end;
  ord_distinct : NoDup ((pending q).*1 ++ waitingHashes q);
  ord_ready : bq_readySet q = hashesOf (pending q);
  ord_unknown : bq_unknownSet q = list_to_set (waitingHashes q);
  ord_verified : inOrder (chain ∪ bq_drainingSet q) (verifiedPairs q);
  ord_rest : inOrder (hashesOf (verifiedPairs q) ∪ (chain ∪ bq_drainingSet q ∪ bq_knownBad q)) (workPairs q ++ unverifiedPairs q);
  ord_genuine : (forall u, bq_work q = Some u \/ u ∈ q_items (bq_unverified q) -> genuine (u_hash u) (u_parentHash u) (u_data u)) /\
    (forall e, e ∈ m_entries (bq_unknown q) -> genuine (fst (snd e)) (fst e) (snd (snd e))) }.
(** No block waits for a parent that is here. *)
Definition settled (q : BlockQueue) : Prop := awaited q ## bq_readySet q ∪ bq_drainingSet q.

(** *** The children of a block become ready *)

(** What moving blocks to the unverified ones keeps, and what it adds. *)
Record moved_to (parent : Z) (removed : list (Z * list Z)) (q q' : BlockQueue) : Prop := {
  mt_same : bq_drainingSet q' = bq_drainingSet q /\ bq_knownBad q' = bq_knownBad q /\ bq_unknown q' = bq_unknown q /\ bq_verified q' = bq_verified q /\ bq_verifying q' = bq_verifying q /\
    bq_work q' = bq_work q;
  mt_unverified : q_items (bq_unverified q') = q_items (bq_unverified q) ++ map (fun e => mkUnverified (fst e) parent (snd e)) removed;
  mt_ready : bq_readySet q' = list_to_set removed.*1 ∪ bq_readySet q;
  mt_unknown : bq_unknownSet q' = bq_unknownSet q ∖ list_to_set removed.*1 }.
Lemma fromUnknown_fold parent removed q : moved_to parent removed q (foldl (fun q e => fromUnknown parent e q) q removed).
Proof.
  revert q. induction removed as [|e removed IH]; intros q; cbn [foldl].
  - split; [done|by rewrite app_nil_r|set_solver|set_solver].
  - destruct (IH (fromUnknown parent e q)) as [Hs Hu Hr Hw]. split; [exact Hs|rewrite Hu; cbn; by rewrite <-app_assoc|rewrite Hr; cbn; set_solver|rewrite Hw; cbn; set_solver].
Qed.
Lemma filter_split_perm {A} (p : A -> bool) (l : list A) : l ≡ₚ List.filter p l ++ List.filter (fun x => negb (p x)) l.
Proof. induction l as [|x l IH]; [done|]. cbn. destruct (p x); cbn; rewrite IH at 1; [done|]. by rewrite Permutation_middle. Qed.
(** The hashes that are [removed] and those that stay. *)
Lemma waiting_split parent q : let '(removed, m) := removeByKeyEqual parent (bq_unknown q) in
  waitingHashes q ≡ₚ removed.*1 ++ waitingHashes (q <| bq_unknown := m |>) /\ (length (m_entries (bq_unknown q)) = length removed + length (m_entries m))%nat.
Proof.
  unfold removeByKeyEqual, removeWhere, waitingHashes. cbn. split.
  - rewrite (filter_split_perm (fun e => fst e =? parent) (m_entries (bq_unknown q))) at 1. rewrite map_app. f_equiv. by rewrite <-list_fmap_compose.
  - rewrite (Permutation_length (filter_split_perm (fun e => fst e =? parent) (m_entries (bq_unknown q)))). by rewrite length_app, length_map.
Qed.
Lemma removed_entry parent q : let '(removed, m) := removeByKeyEqual parent (bq_unknown q) in
  (forall e, e ∈ removed -> (parent, e) ∈ m_entries (bq_unknown q)) /\ (forall e, e ∈ m_entries m -> e ∈ m_entries (bq_unknown q) /\ fst e <> parent).
Proof.
  unfold removeByKeyEqual, removeWhere. cbn. split; intros e He.
  - apply list_elem_of_In, in_map_iff in He as ([k v] & <- & [He Hk]%filter_In). cbn in Hk. apply Z.eqb_eq in Hk as ->. by apply list_elem_of_In.
  - apply list_elem_of_In, filter_In in He as [He Hk]. apply negb_true_iff, Z.eqb_neq in Hk. by split; [apply list_elem_of_In|].
Qed.
Definition known (q : BlockQueue) (chain : gset Z) : gset Z := hashesOf (pending q) ∪ (chain ∪ bq_drainingSet q ∪ bq_knownBad q).
Definition readied (parent : Z) (q : BlockQueue) : BlockQueue :=
  let '(removed, m) := removeByKeyEqual parent (bq_unknown q) in foldl (fun q e => fromUnknown parent e q) (q <| bq_unknown := m |>) removed.
Definition childrenOf (parent : Z) (q : BlockQueue) : list Z := (removeByKeyEqual parent (bq_unknown q)).1.*1.
Lemma readied_moved parent q : let '(removed, m) := removeByKeyEqual parent (bq_unknown q) in moved_to parent removed (q <| bq_unknown := m |>) (readied parent q).
Proof. unfold readied. destruct (removeByKeyEqual parent (bq_unknown q)) as [removed m]. apply fromUnknown_fold. Qed.
Lemma readied_pairs parent q : verifiedPairs (readied parent q) = verifiedPairs q /\ workPairs (readied parent q) = workPairs q /\
  unverifiedPairs (readied parent q) = unverifiedPairs q ++ map (fun h => (h, parent)) (childrenOf parent q).
Proof.
  pose proof (readied_moved parent q) as H. unfold childrenOf. destruct (removeByKeyEqual parent (bq_unknown q)) as [removed m]. destruct H as [(_ & _ & _ & Hv & _ & Hw) Hu _ _].
  unfold verifiedPairs, workPairs, unverifiedPairs. rewrite Hv, Hw, Hu. cbn. repeat split; [done..|]. by rewrite map_app, map_map, <-list_fmap_compose.
Qed.
Lemma readied_ordered parent q chain : ordered q chain -> parent ∈ known q chain -> ordered (readied parent q) chain.
Proof.
  intros [Hv Hd Hr Hu Hov Hor [Hg Hg']] Hp. destruct (readied_pairs parent q) as (E1 & E2 & E3). pose proof (waiting_split parent q) as HW. pose proof (readied_moved parent q) as HM.
  unfold childrenOf in E3. pose proof (removed_entry parent q) as HE. revert E1 E2 E3 HM. generalize (readied parent q). intros q' E1 E2 E3 HM.
  destruct (removeByKeyEqual parent (bq_unknown q)) as [removed m]. cbn [fst] in *. destruct HW as [HW _]. destruct HM as [(S1 & S2 & S3 & S4 & S5 & S6) Mu Mr Mw]. cbn in S1, S2, S3, S4, S5, S6, Mu, Mr, Mw.
  assert (EP : pending q' = pending q ++ map (fun h => (h, parent)) removed.*1) by (unfold pending; rewrite E1, E2, E3; by rewrite !app_assoc).
  assert (EW : waitingHashes q' = waitingHashes (q <| bq_unknown := m |>)) by (unfold waitingHashes; by rewrite S3).
  assert (EF : (map (fun h => (h, parent)) removed.*1).*1 = removed.*1) by (rewrite <-list_fmap_compose; apply list_fmap_id).
  assert (Hd' : NoDup ((pending q).*1 ++ removed.*1 ++ waitingHashes (q <| bq_unknown := m |>))) by (by rewrite <-HW).
  split.
  - by rewrite S5, S6.
  - rewrite EP, EW, fmap_app, EF, <-app_assoc. exact Hd'.
  - rewrite Mr, EP, hashesOf_app, Hr. unfold hashesOf at 3. rewrite EF. apply (comm_L (∪)).
  - rewrite Mw, EW, Hu, HW, list_to_set_app_L. apply NoDup_app in Hd' as (_ & _ & Hd'). apply NoDup_app in Hd' as (_ & Hd' & _). clear -Hd'. set_solver.
  - by rewrite E1, S1.
  - rewrite E1, E2, E3, S1, S2, app_assoc, inOrder_app. split; [done|]. apply inOrder_siblings. unfold known, pending in Hp. rewrite hashesOf_app in Hp. rewrite !elem_of_union in *. tauto.
  - rewrite S3, S6, Mu. split.
    + intros u [Hu'|Hu']; [apply Hg; by left|]. apply elem_of_app in Hu' as [Hu'|Hu']; [apply Hg; by right|].
      apply list_elem_of_In, in_map_iff in Hu' as (e & <- & He%list_elem_of_In). cbn. apply (Hg' (parent, e)), (proj1 HE), He.
    + intros e He. by apply Hg', (proj2 HE).
Qed.
Lemma noteReadyLoop_ordered fuel goods q chain : ordered q chain -> (forall g, g ∈ goods -> g ∈ known q chain) -> awaited q ∩ (bq_readySet q ∪ bq_drainingSet q) ⊆ list_to_set goods ->
  (length goods + length (m_entries (bq_unknown q)) <= fuel)%nat ->
  let q' := noteReadyLoop fuel goods q in
  ordered q' chain /\ settled q' /\ bq_drainingSet q' = bq_drainingSet q /\ bq_knownBad q' = bq_knownBad q.
Proof.
  revert goods q. induction fuel as [|fuel IH]; intros [|parent goods] q Ho Hg Hw Hf; cbn [length] in Hf; [by (split; [|split]; [done|set_solver|])|lia|by (split; [|split]; [done|set_solver|])|].
  assert (E : noteReadyLoop (S fuel) (parent :: goods) q = noteReadyLoop fuel (goods ++ childrenOf parent q) (readied parent q)).
  { unfold childrenOf, readied. cbn. done. }
  rewrite E. pose proof (readied_moved parent q) as HM. pose proof (waiting_split parent q) as HW. pose proof (removed_entry parent q) as HE.
  pose proof (readied_ordered parent q chain Ho ltac:(apply Hg; set_solver)) as Ho'. destruct (readied_pairs parent q) as (E1 & E2 & E3). unfold childrenOf in *. clear E.
  revert HM E1 E2 E3 Ho'. generalize (readied parent q). intros q' HM E1 E2 E3 Ho'. destruct (removeByKeyEqual parent (bq_unknown q)) as [removed m].
  destruct HM as [(S1 & S2 & S3 & _) _ Mr _]. cbn in S1, S2, S3, Mr, E3. cbn [fst].
  destruct (IH (goods ++ removed.*1) q') as (I1 & I2 & I3 & I4); [done|..].
  - intros g. unfold known, pending. rewrite E1, E2, E3, S1, S2, !hashesOf_app.
    assert (EF : hashesOf (map (fun h => (h, parent)) removed.*1) = list_to_set removed.*1) by (unfold hashesOf; f_equal; rewrite <-list_fmap_compose; apply list_fmap_id). rewrite EF.
    rewrite !elem_of_union. intros [Hgd|Hgd%(elem_of_list_to_set (C := gset Z))]%elem_of_app; [|tauto].
    specialize (Hg g ltac:(by right)). unfold known, pending in Hg. rewrite !hashesOf_app, !elem_of_union in Hg. tauto.
  - unfold awaited in *. rewrite S1, S3, Mr, list_to_set_app_L. intros x [Hx Hr]%elem_of_intersection. apply elem_of_list_to_set, list_elem_of_fmap in Hx as (e & -> & [He Hne]%(proj2 HE)).
    assert (Hx : fst e ∈ (list_to_set (m_entries (bq_unknown q)).*1 : gset Z)) by (apply elem_of_list_to_set, list_elem_of_fmap; eauto).
    specialize (Hw (fst e)). cbn in Hw. rewrite !elem_of_intersection, !elem_of_union, !elem_of_singleton in *. tauto.
  - rewrite S3, length_app, length_fmap. lia.
  - split; [done|]. split; [done|]. by rewrite I3, I4, S1, S2.
Qed.
Lemma noteReady_ordered good q chain : ordered q chain -> good ∈ known q chain -> awaited q ∩ (bq_readySet q ∪ bq_drainingSet q) ⊆ {[good]} ->
  ordered (noteReady good q) chain /\ settled (noteReady good q).
Proof. intros Ho Hg Hw. destruct (noteReadyLoop_ordered (S (length (m_entries (bq_unknown q)))) [good] q chain Ho) as (H1 & H2 & _); [set_solver|set_solver|cbn; lia|done]. Qed.
(** *** The operations *)

Definition fine (q : BlockQueue) (chain : gset Z) : Prop := ordered q chain /\ settled q.
Lemma toUnverified_ordered h parent data q chain : ordered q chain -> h ∉ bq_readySet q -> h ∉ bq_unknownSet q -> parent ∈ known q chain -> genuine h parent data ->
  ordered (toUnverified h parent data q) chain.
Proof.
  intros [Hv Hd Hr Hu Hov Hor [Hg Hg']] Hnr Hnu Hp Hgen. rewrite Hr in Hnr. rewrite Hu in Hnu.
  assert (EP : pending (toUnverified h parent data q) = pending q ++ [(h, parent)]) by (unfold pending, unverifiedPairs; cbn; by rewrite map_app, !app_assoc).
  split; [done|..].
  - rewrite EP, fmap_app, <-app_assoc. cbn. rewrite <-Permutation_middle. apply NoDup_cons. split; [|done].
    rewrite elem_of_app. unfold hashesOf in Hnr. by rewrite elem_of_list_to_set in Hnr, Hnu; intros [?|?].
  - rewrite EP, hashesOf_app. cbn. rewrite Hr, (comm_L (∪) {[h]}). f_equal. unfold hashesOf. cbn. by rewrite (right_id_L ∅ (∪)).
  - exact Hu.
  - exact Hov.
  - unfold unverifiedPairs. cbn. rewrite map_app, app_assoc, inOrder_app. split; [exact Hor|]. apply inOrder_one. unfold known, pending in Hp.
    rewrite hashesOf_app in Hp. rewrite !elem_of_union in *. unfold verifiedPairs in *. cbn. tauto.
  - split; [|exact Hg']. intros u [Hw|Hw]; [apply Hg; by left|]. cbn in Hw. apply elem_of_app in Hw as [Hw|Hw]; [apply Hg; by right|].
    apply list_elem_of_singleton in Hw as ->. done.
Qed.
Lemma ready_known h q chain : ordered q chain -> h ∈ bq_readySet q -> h ∈ known q chain.
Proof. intros Ho Hh. rewrite (ord_ready _ _ Ho) in Hh. unfold known. apply elem_of_union. by left. Qed.
Lemma insertEntry_perm key v l : insertEntry key v l ≡ₚ (key, v) :: l.
Proof. induction l as [|e l IH]; cbn; [done|]. destruct (fst e <=? key); [|done]. rewrite IH. apply Permutation_swap. Qed.
Lemma unknown_fine h parent data q chain d : fine q chain -> h ∉ bq_readySet q -> h ∉ bq_unknownSet q -> parent ∉ bq_readySet q ∪ bq_drainingSet q -> genuine h parent data ->
  fine (q <| bq_unknown := map_insert parent h data (bq_unknown q) |> <| bq_unknownSet := {[h]} ∪ bq_unknownSet q |> <| bq_difficulty := d |>) chain.
Proof.
  intros [[Hv Hd Hr Hu Hov Hor [Hg Hg']] Hs] Hnr Hnu Hp Hgen. set (q' := set_field bq_difficulty _ _).
  assert (EW : waitingHashes q' ≡ₚ h :: waitingHashes q) by (unfold waitingHashes; cbn; by rewrite insertEntry_perm).
  split; [split; [done|..]|].
  - change (pending q') with (pending q). rewrite EW, <-Permutation_middle. apply NoDup_cons. split; [|done]. rewrite Hr in Hnr. rewrite Hu in Hnu.
    rewrite elem_of_app. unfold hashesOf in Hnr. by rewrite elem_of_list_to_set in Hnr, Hnu; intros [?|?].
  - exact Hr.
  - rewrite EW. cbn. by rewrite Hu.
  - exact Hov.
  - exact Hor.
  - split; [exact Hg|]. intros e. cbn. rewrite insertEntry_perm. intros [->|He]%elem_of_cons; [exact Hgen|by apply Hg'].
  - unfold settled, awaited in *. cbn. rewrite insertEntry_perm. cbn. intros x [->%elem_of_singleton|Hx]%elem_of_union; [done|by apply Hs].
Qed.
(** *** What bad blocks change *)

Lemma fine_resized q chain n1 n2 n3 : fine q chain ->
  fine (q <| bq_verified := mkSized (q_items (bq_verified q)) n1 |> <| bq_unverified := mkSized (q_items (bq_unverified q)) n2 |> <| bq_verifying := mkSized (q_items (bq_verifying q)) n3 |>) chain.
Proof. intros [[] Hs]. by split; [split|]. Qed.
Lemma removeIf_none {T} `{Movable T} (p : T -> bool) (l : SizedBlockQueue T) : (forall t, t ∈ q_items l -> p t = false) -> exists n, removeIf p l = ([], mkSized (q_items l) n).
Proof.
  intros Hp. unfold removeIf. assert (E : List.filter (fun t => negb (p t)) (q_items l) = q_items l).
  { induction (q_items l) as [|t ts IH]; [done|]. cbn. rewrite (Hp t) by set_solver. cbn. f_equal. apply IH. intros t' Ht'. apply Hp. set_solver. }
  rewrite E, drop_all. cbn. by eexists.
Qed.
Lemma updateBad_spares bad q : spares bad q -> exists n1 n2 n3, let q' := collectUnknownBad bad q in
  updateBad bad q = q' <| bq_verified := mkSized (q_items (bq_verified q')) n1 |> <| bq_unverified := mkSized (q_items (bq_unverified q')) n2 |>
    <| bq_verifying := mkSized (q_items (bq_verifying q')) n3 |>.
Proof.
  unfold spares, updateBad. cbn [badLoop]. generalize (collectUnknownBad bad q). intros q' (H1 & H2 & H3). unfold badRound.
  destruct (removeIf_none _ (bq_verified q') H1) as (n1 & E1). rewrite E1. cbn [map condemnAll foldl].
  destruct (removeIf_none _ (bq_unverified q') H2) as (n2 & E2). set (q1 := q' <| bq_verified := _ |>). change (isBad q1) with (isBad q'). change (bq_unverified q1) with (bq_unverified q').
  rewrite E2. cbn [map condemnAll foldl]. destruct (removeIf_none _ (bq_verifying q') H3) as (n3 & E3). set (q2 := q1 <| bq_unverified := _ |>). change (isBad q2) with (isBad q').
  change (bq_verifying q2) with (bq_verifying q'). rewrite E3. cbn [map condemnAll foldl]. rewrite bool_decide_eq_true_2 by done. by exists n1, n2, n3.
Qed.
(** The waiting children of a bad block go. *)
Definition discard (bad : Z) (q : BlockQueue) : BlockQueue :=
  let '(removed, m) := removeByKeyEqual bad (bq_unknown q) in
  foldl (fun q e => q <| bq_unknownSet := bq_unknownSet q ∖ {[fst e]} |> <| bq_knownBad := {[fst e]} ∪ bq_knownBad q |>) (q <| bq_unknown := m |>) removed.
Lemma discard_fold (removed : list (Z * list Z)) q :
  foldl (fun q e => q <| bq_unknownSet := bq_unknownSet q ∖ {[fst e]} |> <| bq_knownBad := {[fst e]} ∪ bq_knownBad q |>) q removed =
  q <| bq_unknownSet := bq_unknownSet q ∖ list_to_set removed.*1 |> <| bq_knownBad := list_to_set removed.*1 ∪ bq_knownBad q |>.
Proof.
  revert q. induction removed as [|e removed IH]; intros q; cbn [foldl].
  - change (list_to_set [].*1) with (∅ : gset Z). rewrite difference_empty_L, (left_id_L ∅ (∪)). by destruct q.
  - rewrite IH. change (list_to_set (e :: removed).*1) with ({[fst e]} ∪ list_to_set removed.*1 : gset Z).
    assert (E1 : bq_unknownSet q ∖ {[fst e]} ∖ list_to_set removed.*1 = bq_unknownSet q ∖ ({[fst e]} ∪ list_to_set removed.*1)) by set_solver.
    assert (E2 : list_to_set removed.*1 ∪ ({[fst e]} ∪ bq_knownBad q) = ({[fst e]} ∪ list_to_set removed.*1) ∪ bq_knownBad q) by set_solver.
    cbn [bq_unknownSet bq_knownBad set_field]. cbn. rewrite E1, E2. by destruct q.
Qed.
Lemma discard_fine bad q chain : fine q chain -> fine (discard bad q) chain /\ bq_knownBad q ⊆ bq_knownBad (discard bad q) /\ bq_verified (discard bad q) = bq_verified q.
Proof.
  intros [[Hv Hd Hr Hu Hov Hor [Hg Hg']] Hs]. unfold discard. pose proof (waiting_split bad q) as HW. pose proof (removed_entry bad q) as HE.
  destruct (removeByKeyEqual bad (bq_unknown q)) as [removed m]. destruct HW as [HW _]. rewrite discard_fold. cbn [bq_unknownSet bq_knownBad]. set (q' := set_field bq_knownBad _ _).
  assert (Hd' : NoDup ((pending q).*1 ++ removed.*1 ++ waitingHashes (q <| bq_unknown := m |>))) by (by rewrite <-HW).
  split; [split; [split|]|split; [|done]].
  - exact Hv.
  - change (NoDup ((pending q).*1 ++ waitingHashes (q <| bq_unknown := m |>))). rewrite app_assoc, (Permutation_app_comm (pending q).*1), <-app_assoc in Hd'. by apply NoDup_app in Hd' as (_ & _ & Hd').
  - exact Hr.
  - change (bq_unknownSet q ∖ list_to_set removed.*1 = list_to_set (waitingHashes (q <| bq_unknown := m |>))). rewrite Hu, HW, list_to_set_app_L.
    apply NoDup_app in Hd' as (_ & _ & Hd'). apply NoDup_app in Hd' as (_ & Hd' & _). apply set_eq. intros x. specialize (Hd' x). rewrite elem_of_difference, elem_of_union, !elem_of_list_to_set. tauto.
  - exact Hov.
  - eapply inOrder_mono; [|exact Hor]. intros x. cbn. rewrite !elem_of_union. unfold verifiedPairs. cbn. tauto.
  - split; [exact Hg|]. intros e He. apply Hg'. by apply (proj2 HE).
  - unfold settled, awaited in *. intros x Hx. apply Hs. cbn in Hx. apply elem_of_list_to_set, list_elem_of_fmap in Hx as (e & -> & He%(proj2 HE)). apply elem_of_list_to_set, list_elem_of_fmap. exists e. by destruct He.
  - cbn. set_solver.
Qed.
Lemma collect_fine chain bad q : fine q chain -> fine (collectUnknownBad bad q) chain /\ bq_knownBad q ⊆ bq_knownBad (collectUnknownBad bad q) /\ bq_verified (collectUnknownBad bad q) = bq_verified q.
Proof.
  unfold collectUnknownBad. generalize (S (length (m_entries (bq_unknown q)))) [bad]. intros fuel. revert q. induction fuel as [|f IH]; intros q [|b bads] Hf; try done.
  destruct (discard_fine b q chain Hf) as (Hf' & Hk & Hv). unfold discard in *. cbn [collectLoop]. destruct (removeByKeyEqual b (bq_unknown q)) as [removed m].
  destruct (IH _ (bads ++ map fst removed) Hf') as (H1 & H2 & H3). split; [exact H1|]. split; [by etrans|by rewrite H3].
Qed.
Lemma updateBad_fine chain bad q : spares bad q -> fine q chain -> fine (updateBad bad q) chain.
Proof. intros (n1 & n2 & n3 & E)%updateBad_spares Hf. cbv zeta in E. rewrite E. by apply fine_resized, collect_fine. Qed.
Lemma fine_badder q chain bad : fine q chain -> fine (q <| bq_knownBad := bad ∪ bq_knownBad q |>) chain.
Proof.
  intros [[Hv Hd Hr Hu Hov Hor Hg] Hs]. split; [split; try done|done]. eapply inOrder_mono; [|exact Hor]. intros x. cbn. rewrite !elem_of_union. unfold verifiedPairs. cbn. tauto.
Qed.
Lemma inOrder_minus K B l : inOrder K l -> (forall e, e ∈ l -> snd e ∉ B) -> inOrder (K ∖ B) l.
Proof.
  revert K. induction l as [|[h p] l IH]; intros K; [done|]. intros [Hp Hl] HB. split; [specialize (HB (h, p) ltac:(by left)); set_solver|].
  eapply inOrder_mono; [|apply (IH ({[h]} ∪ K) Hl)]; [set_solver|]. intros e He. apply HB. by right.
Qed.
Lemma done_bad_fine chain bad q : bq_drainingSet q ⊆ list_to_set bad ∪ chain -> sparesAll bad (drainedWith bad q) -> fine q chain -> fine (doneDrain bad q).2 chain.
Proof.
  intros Hsub Hsp Hf. assert (Hf1 : fine (drainedWith bad q) chain).
  { pose proof (fine_badder q chain (list_to_set bad) Hf) as [[Hv Hnd Hr Hu Hov Hor Hg] Hs]. set (q1 := q <| bq_knownBad := _ |>) in *. split; [split; try done|].
    - change (inOrder (chain ∪ ∅) (verifiedPairs q)). assert (HB : forall e, e ∈ verifiedPairs q -> snd e ∉ (list_to_set bad : gset Z)).
      { intros e (b & <- & Hb)%list_elem_of_In%in_map_iff Hin. destruct bad as [|b0 bs]; [cbn in Hin; set_solver|]. destruct Hsp as [[Hsp _] _].
        apply list_elem_of_In in Hb. specialize (Hsp b). pose proof (collect_fine (chain ∪ bq_drainingSet q) b0 (drainedWith (b0 :: bs) q)) as Hc.
        assert (Hpre : fine (drainedWith (b0 :: bs) q) (chain ∪ bq_drainingSet q)).
        { split; [split; try done|].
          - eapply inOrder_mono; [|exact Hov]. cbn. clear. set_solver.
          - eapply inOrder_mono; [|exact Hor]. intros x. cbn. rewrite !elem_of_union. tauto.
          - unfold settled in *. change (awaited _) with (awaited q1). cbn. clear -Hs. cbn in Hs. set_solver. }
        destruct (Hc Hpre) as (_ & Hk & Ev). rewrite Ev in Hsp. specialize (Hsp Hb). apply orb_false_iff in Hsp as [Hsp _]. unfold isBad in Hsp. apply bool_decide_eq_false in Hsp. apply Hsp, Hk.
        cbn. cbn in Hin. set_solver. }
      eapply inOrder_mono; [|exact (inOrder_minus _ _ _ Hov HB)]. cbn. clear -Hsub. set_solver.
    - eapply inOrder_mono; [|exact Hor]. intros x. specialize (Hsub x). cbn. rewrite !elem_of_union in *. tauto.
    - unfold settled in *. change (awaited _) with (awaited q1). cbn in *. clear -Hs. set_solver. }
  unfold doneDrain. cbn [snd]. destruct (decide (bad = [])) as [->|Hne]; [rewrite (bool_decide_eq_true_2 ([] = [])) by done|rewrite (bool_decide_eq_false_2 (bad = [])) by done].
  - unfold drainedWith in Hf1. cbn in Hf1. destruct Hf1 as [[Hv Hnd Hr Hu Hov Hor Hg] Hs]. split; [split; try done|done]. cbn in Hor. rewrite (left_id_L ∅ (∪)) in Hor. exact Hor.
  - fold (drainedWith bad q). change (set_field bq_knownBad _ _) with (drainedWith bad q). revert Hsp Hf1. generalize (drainedWith bad q). clear.
    induction bad as [|b bs IH]; intros q Hsp Hf; [done|]. cbn [foldl]. destruct Hsp as [H1 H2]. apply IH; [done|]. by apply updateBad_fine.
Qed.
Lemma clear_fine chain q : bq_work q = None -> fine (bq_clear q) chain.
Proof.
  intros Ew. split; [split|]; cbn; try done; unfold pending, verifiedPairs, workPairs, unverifiedPairs, waitingHashes; cbn; rewrite ?Ew; cbn; try done.
  - apply NoDup_nil_2.
  - split; [intros u [Hw|Hu]; [congruence|by apply not_elem_of_nil in Hu]|intros e He; by apply not_elem_of_nil in He].
Qed.
Lemma retryLoop_ordered fuel q chain : ordered q chain -> awaited q ⊆ chain -> (length (m_entries (bq_unknown q)) <= fuel)%nat ->
  ordered (retryLoop fuel q) chain /\ m_entries (bq_unknown (retryLoop fuel q)) = [].
Proof.
  revert q. induction fuel as [|f IH]; intros q Ho Hw Hl; cbn [retryLoop]; [split; [done|]; by destruct (m_entries (bq_unknown q)); [|cbn in Hl; lia]|].
  unfold map_firstKey. destruct (m_entries (bq_unknown q)) as [|[parent v] es] eqn:Ee; [done|]. cbn [head fmap option_fmap option_map fst].
  assert (Hp : parent ∈ chain) by (apply Hw; unfold awaited; rewrite Ee; cbn; set_solver).
  pose proof (readied_ordered parent q chain Ho ltac:(unfold known; rewrite !elem_of_union; tauto)) as Ho'. pose proof (readied_moved parent q) as HM. pose proof (waiting_split parent q) as HW.
  pose proof (removed_entry parent q) as HE. unfold readied in *. destruct (removeByKeyEqual parent (bq_unknown q)) as [removed m] eqn:Er. destruct HW as [_ HL]. destruct HM as [(_ & _ & S3 & _) _ _ _]. cbn in S3.
  apply IH; [done|..].
  - unfold awaited in *. rewrite S3. intros x (e & -> & [He _]%(proj2 HE))%elem_of_list_to_set%list_elem_of_fmap. apply Hw, elem_of_list_to_set, list_elem_of_fmap. eauto.
  - rewrite S3. unfold removeByKeyEqual, removeWhere in Er. rewrite Ee in Er. cbn in Er. rewrite Z.eqb_refl in Er. cbn in Er. injection Er as <- _. rewrite Ee in HL. cbn in HL, Hl. lia.
Qed.
Lemma retry_fine chain q : fine q chain -> fine (retryAllUnknown q) (chain ∪ awaited q).
Proof.
  intros [Ho Hs]. destruct (retryLoop_ordered (length (m_entries (bq_unknown q))) q (chain ∪ awaited q)) as [Ho' He]; [|set_solver|done|].
  - destruct Ho as [Hv Hnd Hr Hu Hov Hor Hg]. split; try done; (eapply inOrder_mono; [|eassumption]); intros x; rewrite !elem_of_union; tauto.
  - split; [exact Ho'|]. unfold settled, awaited, retryAllUnknown. rewrite He. cbn. set_solver.
Qed.

Lemma import_fine headerData transactionsValid chain knows now block ours q r q' : fine q chain ->
  (forall bi, readHeader sha3 block BlockData 0 = Ok bi -> knows (h_parentHash bi) = true -> h_parentHash bi ∈ chain) -> sparing block q ->
  importBlock sha3 hack params headerData transactionsValid knows now block ours q = Ok (r, q') -> fine q' chain.
Proof.
  intros Hf Hknows Hsp. unfold importBlock. destruct (headerHashFromBlock sha3 block) as [h|] eqn:Eh; cbn [rbind]; [|done]. case_bool_decide as Hnew; [by intros [= <- <-]|].
  destruct (verifyBlock _ _ _ _ _ block PostGenesis) as [bi|] eqn:Ev; [|by intros [= <- <-]].
  apply verifyBlock_reads in Ev. pose proof (read_genuine _ _ Ev) as Hgen. specialize (Hknows bi Ev). specialize (Hsp bi Ev). apply readHeader_hash in Ev. rewrite Eh in Ev. injection Ev as ->.
  rewrite !not_elem_of_union in Hnew. destruct Hnew as ((((N1 & N2) & N3) & N4) & N5).
  destruct (knows (h_hash bi)); [by intros [= <- <-]|]. destruct (_ && negb ours); [intros [= <- <-]; destruct Hf as [[]]; by split; [split|]|].
  case_match eqn:Eb; [intros [= <- <-]; apply updateBad_fine; [by apply Hsp|by apply fine_badder]|].
  destruct (negb _ && negb _) eqn:Ep; intros [= <- <-].
  - apply andb_true_iff in Ep as [Ep _]. apply negb_true_iff, bool_decide_eq_false in Ep. by apply unknown_fine.
  - destruct Hf as [Ho Hs]. set (q1 := toUnverified _ _ _ _).
    assert (Ho1 : ordered (q1 <| bq_difficulty := u256 (bq_difficulty q1 + h_difficulty bi) |>) chain).
    { assert (Ho1 : ordered q1 chain); [|by destruct Ho1; split]. apply toUnverified_ordered; try done. unfold known. rewrite <-(ord_ready _ _ Ho).
      apply andb_false_iff in Ep as [Ep|Ep]; apply negb_false_iff in Ep; [apply bool_decide_eq_true in Ep|specialize (Hknows Ep)]; set_solver. }
    apply noteReady_ordered; [done|..].
    + apply ready_known; [done|]. apply (elem_of_union_l (h_hash bi) {[h_hash bi]}). by apply elem_of_singleton.
    + unfold settled in Hs. change (awaited _) with (awaited q). cbn. set_solver.
Qed.
Lemma due_fine chain now q : fine q chain -> fine (takeDue now q).2 chain.
Proof.
  intros Hf. unfold takeDue. destruct (map_firstKey (bq_future q)) as [k|]; [|done]. destruct (now <? k); [done|]. destruct (removeByKeyNotGreater now (bq_future q)) as [todo m]. cbn [snd].
  assert (Hf' : fine (q <| bq_future := m |>) chain) by (destruct Hf as [[]]; by split; [split|]). revert Hf'. generalize (q <| bq_future := m |>). clear.
  induction todo as [|e todo IH]; intros q Hf; [done|]. cbn [foldl]. apply IH. destruct Hf as [[]]; by split; [split|].
Qed.
Lemma take_fine chain q : fine q chain -> fine (takeWork q) chain.
Proof.
  intros Hf. unfold takeWork. destruct (bq_work q) as [?|] eqn:Ew; [done|]. unfold dequeue. destruct (q_items (bq_unverified q)) as [|u rest] eqn:Eu; [done|].
  destruct Hf as [[Hv Hd Hr Hu Hov Hor [Hg Hg']] Hs]. set (q' := set_field bq_work _ _).
  assert (EP : pending q' = pending q) by (unfold pending, workPairs, unverifiedPairs; cbn; by rewrite Ew, Eu). rewrite Ew in Hv.
  assert (ER : workPairs q' ++ unverifiedPairs q' = workPairs q ++ unverifiedPairs q) by (unfold workPairs, unverifiedPairs; cbn; by rewrite Ew, Eu).
  split; [split|exact Hs].
  - cbn. by rewrite Hv.
  - by rewrite EP.
  - by rewrite EP.
  - exact Hu.
  - exact Hov.
  - by rewrite ER.
  - split; [|exact Hg']. intros u' [[= <-]|Hu']; apply Hg; right; rewrite Eu; [by left|by right].
Qed.
(** The block at work leaves: it is bad, or it goes behind the verified ones. *)
Lemma work_split q u : bq_work q = Some u -> workPairs q = [pairU u].
Proof. unfold workPairs. by intros ->. Qed.
Lemma condemned_fine chain q u vs : fine q chain -> bq_work q = Some u -> q_items vs = [] -> fine ((condemn (u_hash u) (q <| bq_work := None |>)) <| bq_verifying := vs |>) chain.
Proof.
  intros [[Hv Hd Hr Hu Hov Hor [Hg Hg']] Hs] Ew Evs. pose proof (work_split q u Ew) as EW. set (q' := set_field bq_verifying _ _).
  assert (EP : (pending q').*1 = (verifiedPairs q).*1 ++ (unverifiedPairs q).*1) by (unfold pending; cbn; by rewrite fmap_app).
  assert (EP' : (pending q).*1 = (verifiedPairs q).*1 ++ u_hash u :: (unverifiedPairs q).*1) by (unfold pending; rewrite EW; cbn; by rewrite fmap_app).
  rewrite EP', <-app_assoc in Hd. cbn in Hd. rewrite <-Permutation_middle in Hd. apply NoDup_cons in Hd as [Hn Hd].
  split; [split|].
  - cbn. by rewrite Evs.
  - rewrite EP, <-app_assoc. exact Hd.
  - unfold hashesOf in *. rewrite EP. cbn. rewrite Hr, EP', !list_to_set_app_L, list_to_set_cons. rewrite !elem_of_app in Hn. apply set_eq. intros x.
    rewrite elem_of_difference, !elem_of_union, !elem_of_list_to_set, elem_of_singleton. split; [tauto|]. intros Hx. split; [tauto|]. intros ->. tauto.
  - exact Hu.
  - exact Hov.
  - rewrite EW in Hor. destruct Hor as [Hp Hor]. eapply inOrder_mono; [|exact Hor]. intros x. cbn. rewrite !elem_of_union, !elem_of_singleton. unfold verifiedPairs. cbn. tauto.
  - split; [|exact Hg']. intros u' [?|Hu']; [done|]. apply Hg. by right.
  - unfold settled in *. change (awaited q') with (awaited q). cbn. clear -Hs. set_solver.
Qed.
Lemma accepted_fine chain q u b vs n : fine q chain -> bq_work q = Some u -> pairV b = pairU u -> v_parent b ∉ bq_knownBad q -> q_items vs = [] ->
  fine (q <| bq_work := None |> <| bq_verifying := vs |> <| bq_verified := mkSized (q_items (bq_verified q) ++ [b]) n |>) chain.
Proof.
  intros [[Hv Hd Hr Hu Hov Hor [Hg Hg']] Hs] Ew Eb Hb Evs. pose proof (work_split q u Ew) as EW. set (q' := set_field bq_verified _ _).
  assert (EV : verifiedPairs q' = verifiedPairs q ++ [pairU u]) by (unfold verifiedPairs; cbn; rewrite map_app; cbn; by rewrite Eb).
  assert (EP : pending q' = pending q) by (unfold pending; rewrite EV, EW, <-app_assoc; done).
  rewrite EW in Hor. destruct Hor as [Hp Hor]. split; [split|].
  - cbn. by rewrite Evs.
  - by rewrite EP.
  - by rewrite EP.
  - exact Hu.
  - rewrite EV, inOrder_app. split; [exact Hov|]. apply inOrder_one. injection Eb as _ Eb'. rewrite Eb' in Hb. cbn. rewrite !elem_of_union in *. unfold verifiedPairs in *. cbn. tauto.
  - eapply inOrder_mono; [|exact Hor]. intros x. rewrite EV, hashesOf_app, hashesOf_one. cbn. rewrite !elem_of_union. tauto.
  - split; [|exact Hg']. intros u' [?|Hu']; [done|]. apply Hg. by right.
  - exact Hs.
Qed.
Lemma finish_fine headerData transactionsValid chain q u : fine q chain -> bq_work q = Some u ->
  fine (finishWork (verifyBlock sha3 hack params headerData transactionsValid (u_data u) OutOfOrderChecks) q) chain.
Proof.
  intros Hf Ew. pose proof (ord_verifying _ _ (proj1 Hf)) as Ev. rewrite Ew in Ev. unfold finishWork. rewrite Ew. destruct (verifyBlock _ _ _ _ _ (u_data u) OutOfOrderChecks) as [info|] eqn:Ei.
  - destruct (proj1 (ord_genuine _ _ (proj1 Hf)) u (or_introl Ew) _ (verifyBlock_reads _ _ _ _ _ Ei)) as [E1 E2].
    unfold dequeue. cbn. rewrite Ev. cbn. rewrite Z.eqb_refl. unfold isBad. cbn. case_bool_decide as Hb; unfold drainVerified_WITH_BOTH_LOCKS; cbn.
    + change (v_hash (mkVerified info (u_data u))) with (h_hash info). rewrite E1. apply (condemned_fine chain q u); done.
    + unfold sized_enqueue. apply (accepted_fine chain q u); try done. unfold pairV, pairU, v_hash, v_parent. cbn. by rewrite E1, E2.
  - unfold drainVerified_WITH_BOTH_LOCKS, removeIf. cbn. rewrite Ev. cbn. rewrite Z.eqb_refl. cbn. by apply condemned_fine.
Qed.
Lemma drain_fine chain max q : fine q chain -> fine (drain max q).1.2 chain.
Proof.
  intros Hf. destruct (drain_cases max q) as [->|(Hd & out & rest & n & Eq & _ & HM)]; [done|]. revert HM. generalize (drain max q).1.2. intros q' [(S1 & S2 & S3 & S4 & S5 & S6 & S7) Md Mr].
  cbn in S1, S2, S3, S4, S5, S6, S7, Md, Mr. destruct Hf as [[Hv Hnd Hr Hu Hov Hor [Hg Hg']] Hs].
  assert (EV : verifiedPairs q = map pairV out ++ verifiedPairs q') by (unfold verifiedPairs; by rewrite S4, Eq, map_app).
  assert (EW : workPairs q' = workPairs q) by (unfold workPairs; by rewrite S7). assert (EU : unverifiedPairs q' = unverifiedPairs q) by (unfold unverifiedPairs; by rewrite S6).
  assert (EP : pending q = map pairV out ++ pending q') by (unfold pending; by rewrite EV, EW, EU, <-app_assoc).
  assert (Ewt : waitingHashes q' = waitingHashes q) by (unfold waitingHashes; by rewrite S3). rewrite Hd, (right_id_L ∅ (∪)) in Hov, Hor, Md.
  rewrite EP, fmap_app, <-app_assoc in Hnd. pose proof Hnd as (_ & Hdis & Hnd')%NoDup_app.
  split; [split|].
  - by rewrite S5, S7.
  - by rewrite Ewt.
  - rewrite Mr, Hr, EP, hashesOf_app. unfold hashesOf. apply set_eq. intros x. specialize (Hdis x). rewrite elem_of_app in Hdis.
    rewrite elem_of_difference, elem_of_union, !elem_of_list_to_set. tauto.
  - by rewrite S1, Ewt.
  - rewrite EV, inOrder_app in Hov. eapply inOrder_mono; [|exact (proj2 Hov)]. intros x. rewrite Md, !elem_of_union. tauto.
  - rewrite EW, EU. eapply inOrder_mono; [|exact Hor]. intros x. rewrite Md, S2, EV, hashesOf_app, !elem_of_union. tauto.
  - by rewrite S7, S6, S3.
  - unfold settled, awaited in *. rewrite S3, Md, Mr. rewrite Hr, EP, hashesOf_app, Hd in Hs. intros x Hx. specialize (Hs x Hx). rewrite Hr, EP, hashesOf_app.
    rewrite !elem_of_union, !elem_of_difference, !elem_of_union in *. tauto.
Qed.
Lemma chain_fine chain chain' q : chain ⊆ chain' -> fine q chain -> fine q chain'.
Proof.
  intros Hsub [[Hv Hnd Hr Hu Hov Hor Hg] Hs]. split; [split; try done|done].
  - eapply inOrder_mono; [|exact Hov]. clear -Hsub. set_solver.
  - eapply inOrder_mono; [|exact Hor]. intros x. specialize (Hsub x). rewrite !elem_of_union. tauto.
Qed.
Lemma reachable_fine n : reachable n -> fine (n_queue n) (n_chain n).
Proof.
  induction 1 as [chain|n n' _ IH Hstep].
  - split; [split|]; try done; [apply NoDup_nil_2|]. split; [intros u [?|Hu]; [done|by apply not_elem_of_nil in Hu]|intros e He; by apply not_elem_of_nil in He].
  - destruct Hstep; cbn [n_queue n_chain].
    + eapply import_fine; [exact IH| |eassumption|eassumption]. intros bi _ Hk. by apply bool_decide_eq_true in Hk.
    + by apply due_fine.
    + by apply take_fine.
    + by apply finish_fine.
    + by apply drain_fine.
    + by apply done_bad_fine.
    + destruct IH as [Ho Hs]. apply noteReady_ordered; [done|unfold known; rewrite !elem_of_union; tauto|]. unfold settled in Hs. clear -Hs. set_solver.
    + by apply clear_fine.
    + by eapply chain_fine.
Qed.
(** For the sets the order does not matter: a larger chain makes any step one that keeps the order. *)
Lemma visited_fine q : visited q -> exists chain, fine q chain.
Proof.
  induction 1 as [|q q' _ [chain Hf] Hstep]; [exists ∅; exact (reachable_fine _ (reachable_new ∅))|].
  assert (Hup : forall more, fine q (more ∪ chain)) by (intros more; apply (chain_fine chain); [set_solver|done]).
  destruct Hstep as [q headerData tv knows now block ours r q' E Hsp|q now|q|q headerData tv u Ew|q max|q bad Hsp|q good|q|q Ew].
  - set (more := match readHeader sha3 block BlockData 0 with Ok bi => {[h_parentHash bi]} | Err _ => ∅ end : gset Z). exists (more ∪ chain).
    apply (import_fine headerData tv (more ∪ chain) knows now block ours q r q'); [apply Hup| |done|done]. intros bi Eb _. unfold more. rewrite Eb. set_solver.
  - exists chain. by apply due_fine.
  - exists chain. by apply take_fine.
  - exists chain. by apply finish_fine.
  - exists chain. by apply drain_fine.
  - exists (bq_drainingSet q ∪ chain). apply done_bad_fine; [set_solver|done|apply Hup].
  - exists ({[good]} ∪ chain). destruct (Hup {[good]}) as [Ho Hs]. apply noteReady_ordered; [done|unfold known; rewrite !elem_of_union, elem_of_singleton; tauto|]. unfold settled in Hs. clear -Hs. set_solver.
  - exists (chain ∪ awaited q). by apply retry_fine.
  - exists chain. by apply clear_fine.
Qed.
End Run.

(** C8: The queue gives its blocks in the order of the chain: each block that [drain] gives has its parent in the chain or before it among the given ones, in every state
    that a new queue reaches by imports, blocks of the future, the thread of verification, [drain], [doneDrain], [noteReady] of a block of the chain, [clear] between
    verifications and the growth of the chain, in any order.  Not among the steps is [retryAllUnknown], which releases blocks without their parents; and the steps assume that
    a drained block is then in the chain or among the bad ones that [doneDrain] is told of, and that no block of the three queues is bad or has a bad parent when
    [updateBad] runs (the import of a block with a bad parent, [doneDrain] with bad blocks). *)
Theorem drained_in_order (sha3 : list Z -> Z) (hack : bool) (params : SealParams) (n : Node) (max : Z) :
  reachable sha3 hack params n -> inOrder (n_chain n) (map pairV (drain max (n_queue n)).1.1).
Proof.
  intros [Ho _]%reachable_fine. pose proof (ord_verified _ _ _ Ho) as Hov. destruct (drain_cases max (n_queue n)) as [->|(Hd & out & rest & k & Eq & -> & _)]; [done|].
  unfold verifiedPairs in Hov. rewrite Eq, map_app, inOrder_app, Hd, (right_id_L ∅ (∪)) in Hov. exact (proj1 Hov).
Qed.

(** C20: The queue agrees with its sets: there are as many ready hashes as blocks in the three queues (what [invariants] checks), the set of unknown hashes is that of the
    waiting blocks, and no block waits for a parent that is ready or being imported.  So it is in every state that a new queue reaches by any sequence of its operations,
    whatever the chain knows and wherever drained blocks went, under two conditions: when [updateBad] runs (the import of a block with a bad parent, [doneDrain] with bad
    blocks), no block of the three queues is bad or has a bad parent, since [removeIf] would take out the wrong ones; and [clear] does not come during a verification. *)
Theorem queue_is_consistent (sha3 : list Z -> Z) (hack : bool) (params : SealParams) (q : BlockQueue) :
  visited sha3 hack params q ->
  invariants q = true /\
  (forall h, h ∈ bq_unknownSet q <-> exists parent data, (parent, (h, data)) ∈ m_entries (bq_unknown q)) /\
  (forall parent h data, (parent, (h, data)) ∈ m_entries (bq_unknown q) -> parent ∉ bq_readySet q /\ parent ∉ bq_drainingSet q /\ h ∉ bq_readySet q).
Proof.
  intros (chain & [Hv Hd Hr Hu _ _ _] & Hs)%visited_fine. split; [|split].
  - unfold invariants, knownCount. apply Z.eqb_eq. rewrite Hr. unfold hashesOf. apply NoDup_app in Hd as (Hd & _ & _). rewrite size_list_to_set by done.
    rewrite Hv. unfold pending, verifiedPairs, workPairs, unverifiedPairs, lenZ. rewrite length_fmap, !length_app, !length_map. destruct (bq_work q); cbn; lia.
  - intros h. rewrite Hu, elem_of_list_to_set. unfold waitingHashes. split.
    + intros ([k [h' data]] & Eh & He)%list_elem_of_In%in_map_iff. cbn in Eh. subst h'. exists k, data. by apply list_elem_of_In.
    + intros (parent & data & He%list_elem_of_In). apply list_elem_of_In, in_map_iff. by exists (parent, (h, data)).
  - intros parent h data He. assert (Hp : parent ∉ bq_readySet q ∪ bq_drainingSet q).
    { unfold settled, awaited in Hs. intros Hin. apply (Hs parent); [|done]. apply elem_of_list_to_set, list_elem_of_fmap. by exists (parent, (h, data)). }
    apply not_elem_of_union in Hp as [Hp Hp']. split; [done|]. split; [done|]. rewrite Hr. unfold hashesOf. rewrite elem_of_list_to_set. intros Hh.
    apply NoDup_app in Hd as (_ & Hd & _). apply (Hd h Hh), list_elem_of_In, in_map_iff. exists (parent, (h, data)). split; [done|]. by apply list_elem_of_In.
Qed.

(** ** Bad blocks *)

Lemma collectLoop_queues fuel bads q : let q' := collectLoop fuel bads q in bq_verified q' = bq_verified q /\ bq_verifying q' = bq_verifying q /\ bq_unverified q' = bq_unverified q.
Proof.
  revert bads q. induction fuel as [|fuel IH]; intros [|bad bads] q; cbn; [done..|]. destruct (IH (bads ++ map fst (removeByKeyEqual bad (bq_unknown q)).1)
    (foldl (fun q e => q <| bq_unknownSet := bq_unknownSet q ∖ {[fst e]} |> <| bq_knownBad := {[fst e]} ∪ bq_knownBad q |>) (q <| bq_unknown := (removeByKeyEqual bad (bq_unknown q)).2 |>)
       (removeByKeyEqual bad (bq_unknown q)).1)) as (E1 & E2 & E3). unfold removeByKeyEqual, removeWhere in *. cbn in E1, E2, E3. rewrite E1, E2, E3.
  generalize (map snd (List.filter (fun e => fst e =? bad) (m_entries (bq_unknown q)))). intros l. set (q1 := set_field bq_unknown _ q).
  change (bq_verified q) with (bq_verified q1). change (bq_verifying q) with (bq_verifying q1). change (bq_unverified q) with (bq_unverified q1). generalize q1. clear.
  induction l as [|e l IH]; intros q; [done|]. cbn [foldl]. match goal with |- context [foldl _ ?x l] => exact (IH x) end.
Qed.
Lemma condemnAll_queues hs q : let q' := condemnAll hs q in bq_verified q' = bq_verified q /\ bq_verifying q' = bq_verifying q /\ bq_unverified q' = bq_unverified q.
Proof.
  cbn. unfold condemnAll. revert q. induction hs as [|h hs IH]; intros q; [done|]. cbn [foldl]. destruct (IH (collectUnknownBad h (condemn h q))) as (-> & -> & ->).
  apply (collectLoop_queues _ _ (condemn h q)).
Qed.
Lemma removeIf_length {T} `{Movable T} (p : T -> bool) (q : SizedBlockQueue T) : (length (removeIf p q).1 + length (q_items (removeIf p q).2) = length (q_items q))%nat.
Proof. unfold removeIf. cbn. rewrite length_map, length_drop. pose proof (List.filter_length_le (fun t => negb (p t)) (q_items q)). lia. Qed.
(** A round that finds something leaves fewer blocks. *)
Lemma badRound_shrinks q q' : badRound q = (true, q') -> knownCount q' < knownCount q.
Proof.
  unfold badRound. destruct (removeIf _ (bq_verified q)) as [bv v] eqn:Ev. set (q1 := condemnAll _ _). destruct (removeIf _ (bq_unverified q1)) as [bu u] eqn:Eu. set (q2 := condemnAll _ _).
  destruct (removeIf _ (bq_verifying q2)) as [bg g] eqn:Eg. set (q3 := condemnAll _ _). intros [= Em <-].
  destruct (condemnAll_queues (map v_hash bv) (q <| bq_verified := v |>)) as (A1 & A2 & A3), (condemnAll_queues (map u_hash bu) (q1 <| bq_unverified := u |>)) as (B1 & B2 & B3).
  pose proof (condemnAll_queues (map (fun b => if negb (lenZ (v_data b) =? 0) then v_hash b else v_tag b) bg) (q2 <| bq_verifying := g |>)) as (C1 & C2 & C3). fold q1 in A1, A2, A3. fold q2 in B1, B2, B3. fold q3 in C1, C2, C3.
  cbn in A1, A2, A3, B1, B2, B3, C1, C2, C3.
  pose proof (removeIf_length (fun b => isBad q (v_parent b) || isBad q (v_hash b)) (bq_verified q)) as L1. rewrite Ev in L1.
  pose proof (removeIf_length (fun b => isBad q1 (u_parentHash b) || isBad q1 (u_hash b)) (bq_unverified q1)) as L2. rewrite Eu, A3 in L2.
  pose proof (removeIf_length (fun b => isBad q2 (v_parent b) || isBad q2 (v_tag b)) (bq_verifying q2)) as L3. rewrite Eg, B2, A2 in L3. cbn in L1, L2, L3.
  unfold knownCount, lenZ. rewrite C1, B1, A1, C3, B3, C2. apply negb_true_iff, bool_decide_eq_false in Em.
  assert (0 < length bv + length bu + length bg)%nat; [|lia]. destruct bv, bu, bg; cbn; try lia. by destruct Em.
Qed.
(** The loop of [updateBad] ends: more rounds than there are blocks change nothing. *)
Lemma badLoop_ends fuel extra q : knownCount q < Z.of_nat fuel -> badLoop (fuel + extra) q = badLoop fuel q.
Proof.
  revert q. induction fuel as [|fuel IH]; intros q Hc; [exfalso; unfold knownCount, lenZ in Hc; lia|]. cbn [Nat.add badLoop].
  destruct (badRound q) as [[|] q'] eqn:E; [|done]. apply badRound_shrinks in E. apply IH. lia.
Qed.
Lemma no_unknown_bad bad q : m_entries (bq_unknown q) = [] -> exists m, m_entries m = [] /\ collectUnknownBad bad q = q <| bq_unknown := m |>.
Proof. intros E. unfold collectUnknownBad. rewrite E. cbn. unfold removeByKeyEqual, removeWhere. rewrite E. cbn. eexists. split; [|reflexivity]. done. Qed.
(** No block waits for its parent: the sets of a queue whose blocks [hs] are condemned. *)
Lemma condemnAll_sets hs q : m_entries (bq_unknown q) = [] -> let q' := condemnAll hs q in
  m_entries (bq_unknown q') = [] /\ bq_knownBad q' = list_to_set hs ∪ bq_knownBad q /\ bq_readySet q' = bq_readySet q ∖ list_to_set hs.
Proof.
  cbn. unfold condemnAll. revert q. induction hs as [|h hs IH]; intros q E; cbn [foldl list_to_set]; [repeat split; [done|set_solver|set_solver]|].
  destruct (no_unknown_bad h (condemn h q) E) as (m & Em & ->). destruct (IH ((condemn h q) <| bq_unknown := m |>)) as (-> & -> & ->); [exact Em|]. cbn. repeat split; set_solver.
Qed.
(** A round when only unverified blocks are there. *)
Lemma unverified_round q bad rest : m_entries (bq_unknown q) = [] -> q_items (bq_verified q) = [] -> q_items (bq_verifying q) = [] ->
  removeIf (fun b => isBad q (u_parentHash b) || isBad q (u_hash b)) (bq_unverified q) = (bad, rest) ->
  exists q', badRound q = (negb (bool_decide (bad = [])), q') /\ m_entries (bq_unknown q') = [] /\ q_items (bq_verified q') = [] /\ q_items (bq_verifying q') = [] /\ bq_unverified q' = rest /\
    bq_knownBad q' = list_to_set (map u_hash bad) ∪ bq_knownBad q /\ bq_readySet q' = bq_readySet q ∖ list_to_set (map u_hash bad).
Proof.
  intros En Ev Eg Er. unfold badRound. unfold removeIf at 1. rewrite Ev. cbn [List.filter length drop map]. set (v := mkSized [] _). set (q1 := condemnAll [] _).
  change (bq_unverified q1) with (bq_unverified q). change (isBad q1) with (isBad q). rewrite Er. set (q1' := q1 <| bq_unverified := rest |>).
  destruct (condemnAll_queues (map u_hash bad) q1') as (Q1 & Q2 & Q3), (condemnAll_sets (map u_hash bad) q1' En) as (S1 & S2 & S3). set (q2 := condemnAll (map u_hash bad) q1') in *.
  unfold removeIf. rewrite Q2. change (bq_verifying q1') with (bq_verifying q). rewrite Eg. cbn [List.filter length drop map]. eexists. split; [f_equal; f_equal; apply bool_decide_ext; naive_solver|].
  cbn. rewrite Q1, Q3, S1, S2, S3. done.
Qed.
Definition twoWaiting (c g : UnverifiedBlock) : BlockQueue :=
  newQueue <| bq_knownBad := {[u_parentHash c]} |> <| bq_readySet := {[u_hash c; u_hash g]} |> <| bq_unverified := sized_enqueue g (sized_enqueue c emptyQueue) |>.
(** A block behind one whose parent is bad is condemned in the place of that one, which is forgotten: of two blocks that wait for their verification, the first with a bad
    parent and the second sound, [updateBad] leaves the second one bad, the first one not, its hash ready for ever, and the counts that [invariants] compares different. *)
Theorem good_block_condemned (bad : Z) (c g : UnverifiedBlock) : NoDup [u_parentHash c; u_hash c; u_hash g] -> u_parentHash g ∉ [u_parentHash c; u_hash c; u_hash g] ->
  let q := updateBad bad (twoWaiting c g) in
  u_hash g ∈ bq_knownBad q /\ u_hash c ∉ bq_knownBad q /\ u_hash c ∈ bq_readySet q /\ q_items (bq_unverified q) = [] /\ invariants q = false.
Proof.
  intros Hd Hg. rewrite !NoDup_cons in Hd. rewrite !not_elem_of_cons in *. destruct Hd as ((D1 & D2 & _) & (D3 & _) & _), Hg as (G1 & G2 & G3 & _).
  cbn zeta. unfold updateBad. destruct (no_unknown_bad bad (twoWaiting c g) eq_refl) as (m & Em & ->). change (Z.to_nat (knownCount (twoWaiting c g))) with 2%nat.
  set (q0 := set_field bq_unknown m _).
  destruct (unverified_round q0 [mkUnverified (u_hash g) (u_parentHash g) []] (mkSized [g] (u64 (q_size (bq_unverified q0) - 0)))) as (q1 & R1 & N1 & V1 & G1' & U1 & K1 & S1); [done..| |].
  { assert (A1 : isBad q0 (u_parentHash c) = true) by (apply bool_decide_eq_true_2; cbn; set_solver).
    assert (A2 : isBad q0 (u_parentHash g) = false) by (apply bool_decide_eq_false_2; cbn; set_solver). assert (A3 : isBad q0 (u_hash g) = false) by (apply bool_decide_eq_false_2; cbn; set_solver).
    unfold removeIf. change (q_items (bq_unverified q0)) with [c; g]. by repeat (progress (cbn -[isBad lenZ]; rewrite ?A1, ?A2, ?A3)). }
  destruct (unverified_round q1 [g] (mkSized [] (u64 (q_size (bq_unverified q1) - (lenZ (u_data g) + 0))))) as (q2 & R2 & N2 & V2 & G2' & U2 & K2 & S2); [done..| |].
  { assert (A : isBad q1 (u_hash g) = true) by (apply bool_decide_eq_true_2; rewrite K1; cbn; set_solver).
    unfold removeIf. rewrite U1. by repeat (progress (cbn -[isBad lenZ]; rewrite ?A, ?orb_true_r)). }
  destruct (unverified_round q2 [] (mkSized [] (u64 (q_size (bq_unverified q2) - 0)))) as (q3 & R3 & N3 & V3 & G3' & U3 & K3 & S3); [done..|by unfold removeIf; rewrite U2|].
  rewrite bool_decide_eq_false_2 in R1, R2 by done. assert (EL : badLoop 3 q0 = q3) by (cbn [badLoop]; rewrite R1; cbv iota beta; cbn [negb]; rewrite R2; cbn [negb]; by rewrite R3).
  rewrite EL. clear EL R1 R2 R3. assert (E : bq_readySet q3 = {[u_hash c]}) by (rewrite S3, S2, S1; cbn; clear -D3; set_solver).
  rewrite U3, E, K3, K2, K1. split; [clear; cbn; set_solver|]. split; [clear -D1 D3; cbn; set_solver|]. split; [clear; set_solver|]. split; [done|].
  unfold invariants, knownCount. by rewrite E, V3, G3', U3, size_singleton.
Qed.
(** The map of the blocks without parent counts nothing when a block comes and its bytes when it goes: after one block of less than 2^63 bytes came and went, an empty map
    has a size close to 2^64, and the queue says that it is full of unknown blocks. *)
Theorem unknown_size_wraps (key h : Z) (data : list Z) : 0 < lenZ data < 2 ^ 63 ->
  let m := (removeByKeyEqual key (map_insert key h data emptyMap)).2 in m_entries m = [] /\ m_size m = 2 ^ 64 - lenZ data /\ unknownFull (newQueue <| bq_unknown := m |>) = true.
Proof.
  intros Hl. cbn zeta. set (m := snd _). assert (E : m_entries m = [] /\ m_size m = 2 ^ 64 - lenZ data).
  { unfold m, removeByKeyEqual, removeWhere, map_insert. cbn -[lenZ Z.pow Z.sub]. rewrite Z.eqb_refl. cbn -[lenZ Z.pow Z.sub]. split; [done|].
    change (lenZ (A := Z) []) with 0. unfold wrap. rewrite Z.add_0_l, Zmod_0_l, Z.add_0_r. symmetry. apply (Zmod_unique _ _ (-1)); lia. }
  destruct E as [E1 E2]. clearbody m. split; [done|]. split; [done|]. unfold unknownFull, unknownSize. cbn -[lenZ Z.pow Z.sub c_maxUnknownSize]. rewrite E2. unfold wrap. rewrite Z.mod_small by lia.
  apply orb_true_iff. left. apply Z.ltb_lt. unfold c_maxUnknownSize. lia.
Qed.

(** ** A run *)

Module QueueExample.
Import HeaderExample.
Definition data : list Z := enc block.
Definition txOk : list Z -> Z -> bool := fun _ _ => true.
Definition before : Node := mkNode newQueue {[11]}.
Definition imported : BlockQueue := match importBlock sha false params HeaderExample.known txOk (chainKnows before) 1700000001 data false newQueue with Ok (_, q) => q | Err _ => newQueue end.
Definition work : UnverifiedBlock := mkUnverified (h_hash read) 11 data.
Definition verified : BlockQueue := finishWork (verifyBlock sha false params HeaderExample.known txOk data OutOfOrderChecks) (takeWork imported).
Lemma work_taken : bq_work (takeWork imported) = Some work.
Proof. vm_compute. reflexivity. Qed.
Lemma import_spares : sparing sha data newQueue.
Proof. intros bi _ Hb. apply bool_decide_eq_true in Hb. by apply not_elem_of_empty in Hb. Qed.
Lemma run_visited : visited sha false params (retryAllUnknown verified).
Proof.
  assert (R1 : visited sha false params imported).
  { apply (visited_step _ _ _ newQueue); [constructor|]. apply (any_import _ _ _ newQueue HeaderExample.known txOk (chainKnows before) 1700000001 data false ImportSuccess imported); [vm_compute; reflexivity|exact import_spares]. }
  assert (R2 : visited sha false params (takeWork imported)) by (apply (visited_step _ _ _ _ _ R1); exact (any_take sha false params imported)).
  assert (R3 : visited sha false params verified) by (apply (visited_step _ _ _ _ _ R2); exact (any_finish sha false params (takeWork imported) HeaderExample.known txOk work work_taken)).
  apply (visited_step _ _ _ _ _ R3). exact (any_retry sha false params verified).
Qed.
Lemma run_reachable : reachable sha false params (mkNode verified {[11]}).
Proof.
  assert (R1 : reachable sha false params (mkNode imported {[11]})).
  { apply (reachable_step _ _ _ before); [constructor|]. apply (step_import _ _ _ before HeaderExample.known txOk 1700000001 data false ImportSuccess imported); [vm_compute; reflexivity|exact import_spares]. }
  assert (R2 : reachable sha false params (mkNode (takeWork imported) {[11]})) by (apply (reachable_step _ _ _ _ _ R1); exact (step_take sha false params (mkNode imported {[11]}))).
  apply (reachable_step _ _ _ _ _ R2). exact (step_finish sha false params (mkNode (takeWork imported) {[11]}) HeaderExample.known txOk work work_taken).
Qed.
Definition c : UnverifiedBlock := mkUnverified 2 1 [5].
Definition g : UnverifiedBlock := mkUnverified 3 4 [6].
End QueueExample.
Lemma drained_in_order_witness : map pairV (drain 10 QueueExample.verified).1.1 = [(h_hash HeaderExample.read, 11)] /\ inOrder {[11]} (map pairV (drain 10 QueueExample.verified).1.1).
Proof.
  split; [vm_compute; reflexivity|].
  exact (drained_in_order HeaderExample.sha false HeaderExample.params (mkNode QueueExample.verified {[11]}) 10 QueueExample.run_reachable).
Defined.
Lemma queue_is_consistent_witness : q_items (bq_verified (retryAllUnknown QueueExample.verified)) <> [] /\ invariants (retryAllUnknown QueueExample.verified) = true.
Proof.
  split; [vm_compute; discriminate|].
  exact (proj1 (queue_is_consistent HeaderExample.sha false HeaderExample.params (retryAllUnknown QueueExample.verified) QueueExample.run_visited)).
Defined.
Lemma good_block_condemned_witness : 3 ∈ bq_knownBad (updateBad 9 (twoWaiting QueueExample.c QueueExample.g)).
Proof.
  apply (good_block_condemned 9 QueueExample.c QueueExample.g); [|cbn; rewrite !not_elem_of_cons; split; [discriminate|split; [discriminate|split; [discriminate|apply not_elem_of_nil]]]].
  apply (bool_decide_unpack _). vm_compute. exact I.
Defined.
Lemma unknown_size_wraps_witness : unknownFull (newQueue <| bq_unknown := (removeByKeyEqual 1 (map_insert 1 2 [5] emptyMap)).2 |>) = true.
Proof. apply (unknown_size_wraps 1 2 [5]). vm_compute. split; reflexivity. Defined.
