(* ===== verification/Wildcard.v ===== *)
(** * Wildcard: the patterns of origins (wildcmp of libskutils/src/utils.cpp)

    A C string is the list of its characters, which are not zero; reading at its end gives zero, which is no character.  The pointers of the code into the
    two strings are the rests of the strings behind them. *)

From Stdlib Require Import ZArith Lia Bool.
From stdpp Require Import base list.
From S2P Require Import Prelude.
Open Scope Z_scope.
Open Scope skaled_scope.

Definition star : Z := 42.
Definition question : Z := 63.
(** [while ( *wild == '*' ) wild++; return !*wild]. *)
Fixpoint onlyStars (wild : list Z) : bool := match wild with [] => true | w :: wild' => (w =? star) && onlyStars wild' end.
(** The loop after the first star; [mp] and [cp] are where to go on when the characters differ. *)
Fixpoint wildLoop (fuel : nat) (wild s mp cp : list Z) : option bool :=
  match fuel with
  | O => None
  | S f =>
      match s, wild with
      | [], _ => Some (onlyStars wild)
      | c :: s', w :: wild' =>
          if w =? star then match wild' with [] => Some true | _ => wildLoop f wild' s wild' s' end
          else if (w =? c) || (w =? question) then wildLoop f wild' s' mp cp
          else wildLoop f mp cp mp (tail cp)
      | _ :: _, [] => wildLoop f mp cp mp (tail cp)
      end
  end.
(** The loop before it.  Behind it, with characters left, the pattern is at a star, so that [mp] and [cp], which are null, are set before they are used. *)
Fixpoint wildPrefix (wild s : list Z) : option bool :=
  match s, wild with
  | [], _ => Some (onlyStars wild)
  | c :: s', w :: wild' =>
      if w =? star then wildLoop (S ((length s + 2) * (length wild + 2))) wild s [] []
      else if negb (w =? c) && negb (w =? question) then Some false
      else wildPrefix wild' s'
  | _ :: _, [] => Some false
  end.
Definition wildcmp (wild s : list Z) : option bool := wildPrefix wild s.

(** ** What a pattern means *)

Inductive matches : list Z -> list Z -> Prop :=
| matches_nil : matches [] []
| matches_char c w s : c <> star -> matches w s -> matches (c :: w) (c :: s)
| matches_any c w s : matches w s -> matches (question :: w) (c :: s)
| matches_none w s : matches w s -> matches (star :: w) s
| matches_more c w s : matches (star :: w) s -> matches (star :: w) (c :: s).

Lemma star_suffix w s t : matches (star :: w) t -> matches (star :: w) (s ++ t).
Proof. intros H. induction s as [|c s IH]; [done|]. by apply matches_more. Qed.
Lemma star_all s : matches [star] s.
Proof. induction s; [apply matches_none, matches_nil|by apply matches_more]. Qed.
Lemma star_inv w s : matches (star :: w) s -> exists s1 s2, s = s1 ++ s2 /\ matches w s2.
Proof.
  remember (star :: w) as p eqn:E. induction 1 as [|c w' s' Hc H IH|c w' s' H IH|w' s' H IH|c w' s' H IH]; try done.
  - injection E as -> ->. done.
  - injection E as ->. by exists [], s'.
  - destruct (IH E) as (s1 & s2 & -> & Hm). by exists (c :: s1), s2.
Qed.
Lemma char_inv c w s : c <> star -> matches (c :: w) s -> exists x s', s = x :: s' /\ (c = x \/ c = question) /\ matches w s'.
Proof. intros Hc H. inversion H; subst; [by eauto 6|by eauto 6|done|done]. Qed.
Lemma char_intro c x w s : (c = x \/ c = question) -> c <> star -> matches w s -> matches (c :: w) (x :: s).
Proof. intros [->| ->] Hc H; [by apply matches_char|by apply matches_any]. Qed.
Lemma nil_matches wild : matches wild [] <-> onlyStars wild = true.
Proof.
  induction wild as [|w wild IH]; cbn; [split; [done|constructor]|]. rewrite andb_true_iff, <-IH, Z.eqb_eq. split.
  - intros H. inversion H; subst. done.
  - intros [-> H]. by constructor.
Qed.
(** A pattern without stars takes as many characters as it has. *)
Lemma prefix_split pre w t : star ∉ pre -> matches (pre ++ w) t -> exists t1 t2, t = t1 ++ t2 /\ length t1 = length pre /\ matches w t2.
Proof.
  revert t. induction pre as [|c pre IH]; intros t Hp H; [by exists [], t|]. apply not_elem_of_cons in Hp as [Hc Hp]. apply char_inv in H as (x & t' & -> & _ & H); [|done].
  destruct (IH t' Hp H) as (t1 & t2 & -> & L & H2). exists (x :: t1), t2. split; [done|]. split; [cbn; by rewrite L|done].
Qed.

(** ** The loop finds a match if there is one *)

(** The pattern [mp] may begin at a later character than it did. *)
Definition later (mp cp : list Z) : Prop := exists t1 t2, cp = t1 ++ t2 /\ matches mp t2.
Record at_work (wild s mp cp : list Z) : Prop := {
  aw_parts : exists pre x con, mp = pre ++ wild /\ star ∉ pre /\ x :: cp = con ++ s /\ length con = length pre }.
Lemma at_start wild c s : at_work wild (c :: s) wild s.
Proof. split. exists [], c, []. split; [done|]. split; [apply not_elem_of_nil|done]. Qed.
Lemma later_none wild mp cp : at_work wild [] mp cp -> later mp cp -> False.
Proof.
  intros [(pre & x & con & -> & Hp & E & L)] (t1 & t2 & -> & H). apply prefix_split in H as (u1 & u2 & -> & L' & _); [|done].
  apply (f_equal length) in E. cbn in E. rewrite !length_app in E. cbn in E. lia.
Qed.
(** At a star nothing is lost: a match from a later character gives one from here. *)
Lemma later_star wild s mp cp : at_work (star :: wild) s mp cp -> later mp cp -> matches (star :: wild) s.
Proof.
  intros [(pre & x & con & -> & Hp & E & L)] (t1 & t2 & -> & H). apply prefix_split in H as (u1 & u2 & -> & L' & H); [|done].
  assert (Hs : exists v, s = v ++ u2); [|by destruct Hs as [v ->]; apply star_suffix].
  exists (drop (length con) (x :: t1 ++ u1)). rewrite app_comm_cons, app_assoc in E. change ((x :: t1) ++ u1 ++ u2) with (x :: t1 ++ u1 ++ u2) in E.
  assert (E' : s = drop (length con) (x :: (t1 ++ u1) ++ u2)) by (rewrite <-app_assoc, <-app_comm_cons in E; rewrite <-app_assoc; rewrite E; by rewrite drop_app_length).
  rewrite E'. rewrite app_comm_cons, drop_app_le; [done|]. cbn. rewrite length_app. lia.
Qed.
Lemma later_cons mp c cp : later mp (c :: cp) <-> matches mp (c :: cp) \/ later mp cp.
Proof.
  split.
  - intros ([|x t1] & t2 & E & H); [left; by rewrite E|right; injection E as -> ->; by exists t1, t2].
  - intros [H|(t1 & t2 & -> & H)]; [by exists [], (c :: cp)|by exists (c :: t1), t2].
Qed.
Lemma later_nil mp : later mp [] <-> matches mp [].
Proof. split; [|by exists [], []]. intros (t1 & t2 & E & H). symmetry in E. by apply app_nil in E as [-> ->]. Qed.
Lemma star_later w c s : matches (star :: w) (c :: s) <-> matches w (c :: s) \/ later w s.
Proof.
  rewrite <-later_cons. split; [intros (s1 & s2 & -> & H)%star_inv; by exists s1, s2|]. intros (t1 & t2 & -> & H). by apply star_suffix, matches_none.
Qed.
Definition found (r : option bool) (P : Prop) : Prop := exists b, r = Some b /\ (b = true <-> P).
Lemma found_iff r (P Q : Prop) : found r P -> (P <-> Q) -> found r Q.
Proof. intros (b & E & H) HQ. exists b. split; [done|]. by rewrite H. Qed.
Lemma wildLoop_finds W fuel wild s mp cp : at_work wild s mp cp -> (length mp <= W)%nat -> (length cp * (W + 2) + length wild + 2 <= fuel)%nat ->
  found (wildLoop fuel wild s mp cp) (matches wild s \/ later mp cp).
Proof.
  revert wild s mp cp. induction fuel as [|f IH]; intros wild s mp cp Ha HW Hf; [lia|].
  assert (Hback : ~ matches wild s -> found (wildLoop f mp cp mp (tail cp)) (matches wild s \/ later mp cp)).
  { intros Hn. eapply (found_iff _ (later mp cp)); [|tauto]. destruct cp as [|c cp].
    - exists (onlyStars mp). destruct f as [|f]; [lia|]. split; [done|]. by rewrite later_nil, nil_matches.
    - cbn [tail]. eapply found_iff; [apply IH|symmetry; apply later_cons]; [apply at_start|done|cbn in Hf; lia]. }
  cbn [wildLoop]. destruct s as [|c s].
  { exists (onlyStars wild). split; [done|]. rewrite <-nil_matches. split; [by left|]. intros [?|Hl]; [done|]. by destruct (later_none _ _ _ Ha Hl). }
  destruct wild as [|w wild]; [apply Hback; intros H; inversion H|]. destruct (Z.eqb_spec w star) as [->|Hw].
  - destruct wild as [|w' wild].
    + exists true. split; [done|]. split; [intros _; left; apply star_all|done].
    + eapply found_iff; [apply (IH (w' :: wild) (c :: s) (w' :: wild) s)|rewrite <-star_later; split; [by left|]; intros [?|Hl]; [done|by eapply later_star]].
      * apply at_start.
      * destruct Ha as [(pre & x & con & -> & _ & _ & _)]. rewrite length_app in HW. cbn in *. lia.
      * destruct Ha as [(pre & x & con & -> & _ & E & L)]. apply (f_equal length) in E. rewrite length_app in *. cbn in *. nia.
  - destruct ((w =? c) || (w =? question)) eqn:Ec.
    + eapply found_iff; [apply (IH wild s mp cp)|]; [|done|cbn in Hf; lia|].
      * destruct Ha as [(pre & x & con & -> & Hp & E & L)]. split. exists (pre ++ [w]), x, (con ++ [c]). rewrite <-!app_assoc, !length_app, L. rewrite not_elem_of_app, list_elem_of_singleton. done.
      * apply orb_true_iff in Ec. rewrite !Z.eqb_eq in Ec. split; (intros [H|H]; [left|by right]); [by apply char_intro|].
        apply char_inv in H as (x & s' & [= <- <-] & _ & H); done.
    + apply Hback. intros (x & s' & [= <- <-] & Hx & _)%char_inv; [|done]. rewrite <-!Z.eqb_eq in Hx. rewrite orb_false_iff in Ec. destruct Ec, Hx; congruence.
Qed.
Lemma wildcmp_returns wild s : found (wildcmp wild s) (matches wild s).
Proof.
  unfold wildcmp. revert wild. induction s as [|c s IH]; intros wild.
  { exists (onlyStars wild). split; [by destruct wild|]. symmetry. apply nil_matches. }
  destruct wild as [|w wild]; cbn [wildPrefix]; [exists false; split; [done|split; [done|intros H; inversion H]]|]. destruct (Z.eqb_spec w star) as [->|Hw].
  - cbn [wildLoop Z.eqb Pos.eqb star]. change (star =? star) with true. cbv iota. destruct wild as [|w' wild].
    + exists true. split; [done|]. split; [|done]. intros _. apply star_all.
    + eapply found_iff; [apply (wildLoop_finds (length (w' :: wild)))|symmetry; apply star_later]; [apply at_start|done|cbn; nia].
  - destruct (negb (w =? c) && negb (w =? question)) eqn:Ec.
    + exists false. split; [done|]. split; [done|]. intros (x & s' & [= <- <-] & Hx & _)%char_inv; [|done]. rewrite <-!Z.eqb_eq in Hx.
      apply andb_true_iff in Ec. rewrite !negb_true_iff in Ec. destruct Ec, Hx; congruence.
    + eapply found_iff; [apply IH|]. apply andb_false_iff in Ec. rewrite !negb_false_iff, !Z.eqb_eq in Ec. split; [by apply char_intro|].
      intros (x & s' & [= <- <-] & _ & H)%char_inv; done.
Qed.
(** C29: The matcher with its single point of return finds a match whenever there is one: it returns, and says whether the string is one that the pattern means, where a question mark
    is any character and a star any number of them. *)
Theorem wildcmp_is_match (wild s : list Z) : exists b, wildcmp wild s = Some b /\ (b = true <-> matches wild s).
Proof. exact (wildcmp_returns wild s). Qed.
