(* ===== verification/Unddos.v ===== *)
(** * Unddos: limits on calls and connections (libskutils/src/unddos.cpp, unddos.h)

    The settings with their rules, the calls that are kept for every origin, and the algorithm.  Strings are the lists of their characters; a null pointer is an empty
    string here, since the code treats both alike.  [time_t] is [int64_t]. *)

From Stdlib Require Import ZArith Lia Bool Ascii String.
From stdpp Require Import base list gmap sets.
From S2P Require Import Prelude Wildcard.
Open Scope Z_scope.
Open Scope skaled_scope.

Definition text (s : string) : list Z := map (fun a => Z.of_nat (nat_of_ascii a)) (list_ascii_of_string s).
Definition maxSize : Z := 2 ^ 64 - 1.

(** ** Settings *)

Record custom_method_setting := mkCustom { cms_max_calls_per_second : Z; cms_max_calls_per_minute : Z }.
Record origin_entry_setting := mkEntry {
  origin_wildcards : list (list Z); oe_max_calls_per_second : Z; oe_max_calls_per_minute : Z; ban_peak : Z; ban_lengthy : Z; max_ws_conn : Z;
  custom_methods : gmap (list Z) custom_method_setting }.
#[export] Instance origin_entry_expand : Expandable origin_entry_setting := fun e =>
  mkEntry (origin_wildcards e) (oe_max_calls_per_second e) (oe_max_calls_per_minute e) (ban_peak e) (ban_lengthy e) (max_ws_conn e) (custom_methods e).
Record settings := mkSettings { enabled : bool; origins : list origin_entry_setting; global_limit : origin_entry_setting }.
#[export] Instance settings_expand : Expandable settings := fun s => mkSettings (enabled s) (origins s) (global_limit s).

Definition custom_merge (a b : custom_method_setting) : custom_method_setting :=
  mkCustom (Z.min (cms_max_calls_per_second a) (cms_max_calls_per_second b)) (Z.min (cms_max_calls_per_minute a) (cms_max_calls_per_minute b)).
Definition entry_clear : origin_entry_setting := mkEntry [] 0 0 0 0 0 ∅.
(** The product with [10.0] as a [size_t]; for the largest [size_t] it is out of range, and the conversion undefined. *)
Definition multiplied (undefined n : Z) : Z := if n * 10 <=? maxSize then n * 10 else undefined.
Definition recommendedMethods : list (list Z) := map text
  ["web3_clientVersion"; "web3_sha3"; "net_version"; "eth_syncing"; "eth_protocolVersion"; "eth_gasPrice"; "eth_blockNumber"; "eth_getBalance"; "eth_getBlockByHash";
   "eth_getBlockByNumber"; "eth_getTransactionCount"; "eth_getTransactionReceipt"; "eth_getTransactionByHash"; "eth_getTransactionByBlockHashAndIndex";
   "eth_getTransactionByBlockNumberAndIndex"]%string.
Definition load_custom_method (undefined : Z) (method : list Z) (e : origin_entry_setting) : origin_entry_setting :=
  e <| custom_methods := <[method := mkCustom (multiplied undefined (oe_max_calls_per_second e)) (multiplied undefined (oe_max_calls_per_minute e))]> (custom_methods e) |>.
Definition load_recommended (undefined : Z) (e : origin_entry_setting) : origin_entry_setting := foldl (fun e m => load_custom_method undefined m e) e recommendedMethods.
Definition load_friendly_for_any_origin : origin_entry_setting := load_recommended 0 (mkEntry [text "*"] 500 15000 15 120 50 ∅).
Definition load_reasonable_for_any_origin : origin_entry_setting := load_recommended 0 (mkEntry [text "*"] 100 5000 15 120 10 ∅).
Definition load_unlim_for_any_origin (undefined : Z) : origin_entry_setting := load_recommended undefined (mkEntry [text "*"] maxSize maxSize 0 0 maxSize ∅).
Definition load_unlim_for_localhost_only (undefined : Z) : origin_entry_setting :=
  load_recommended undefined (mkEntry [text "127.0.0.*"; text "::1"] maxSize maxSize 0 0 maxSize ∅).
Definition load_defaults_for_any_origin : origin_entry_setting := load_friendly_for_any_origin.
Definition entry_merge (a b : origin_entry_setting) : origin_entry_setting :=
  if bool_decide (origin_wildcards a = origin_wildcards b) then
    mkEntry (origin_wildcards a) (Z.min (oe_max_calls_per_second a) (oe_max_calls_per_second b)) (Z.min (oe_max_calls_per_minute a) (oe_max_calls_per_minute b))
      (Z.max (ban_peak a) (ban_peak b)) (Z.max (ban_lengthy a) (ban_lengthy b)) (Z.min (max_ws_conn a) (max_ws_conn b))
      (union_with (fun x y => Some (custom_merge x y)) (custom_methods a) (custom_methods b))
  else a.
(** [match_origin]; [wildcmp] always returns. *)
Definition wildMatch (wild s : list Z) : bool := match wildcmp wild s with Some b => b | None => false end.
Definition match_origin (origin : list Z) (e : origin_entry_setting) : bool :=
  negb (bool_decide (origin = [])) && existsb (fun w => wildMatch w origin) (origin_wildcards e).
Definition methodLimit (own : origin_entry_setting -> Z) (custom : custom_method_setting -> Z) (method : list Z) (e : origin_entry_setting) : Z :=
  if bool_decide (method = []) then own e
  else match custom_methods e !! method with None => own e | Some c => Z.max (own e) (custom c) end.
Definition max_calls_per_second : list Z -> origin_entry_setting -> Z := methodLimit oe_max_calls_per_second cms_max_calls_per_second.
Definition max_calls_per_minute : list Z -> origin_entry_setting -> Z := methodLimit oe_max_calls_per_minute cms_max_calls_per_minute.

Definition settings_clear : settings := mkSettings true [] entry_clear.
Definition settings_empty (s : settings) : bool := negb (enabled s) || (bool_decide (origins s = []) && bool_decide (origin_wildcards (global_limit s) = [])).
Fixpoint find_index {A} (p : A -> bool) (l : list A) : option nat := match l with [] => None | x :: l' => if p x then Some 0%nat else S <$> find_index p l' end.
Definition indexOfWildcard (w : list Z) (s : settings) : option nat :=
  if bool_decide (w = []) then None else find_index (fun e => existsb (fun w' => bool_decide (w' = w)) (origin_wildcards e)) (origins s).
Fixpoint indexOfOrigin (ws : list (list Z)) (s : settings) : option nat :=
  match ws with [] => None | w :: ws' => match indexOfWildcard w s with Some i => Some i | None => indexOfOrigin ws' s end end.
Definition merge_entry (s : settings) (e : origin_entry_setting) : settings :=
  match indexOfOrigin (origin_wildcards e) s with None => s <| origins := origins s ++ [e] |> | Some i => s <| origins := alter (fun old => entry_merge old e) i (origins s) |> end.
Definition settings_merge (s other : settings) : settings :=
  let s' := foldl merge_entry s (origins other) in s' <| global_limit := entry_merge (global_limit s') (global_limit other) |>.
Definition find_origin_entry_setting_match (origin : list Z) (s : settings) : option nat :=
  if bool_decide (origin = []) then None else find_index (match_origin origin) (origins s).
(** The rule that is found may have been appended: the settings change. *)
Definition auto_append_any_origin_rule (s : settings) : origin_entry_setting * settings :=
  match find_origin_entry_setting_match (text "*") s with
  | Some i => (nth i (origins s) entry_clear, s)
  | None => (load_defaults_for_any_origin, s <| origins := origins s ++ [load_defaults_for_any_origin] |>)
  end.
Definition find_origin_entry_setting (origin : list Z) (s : settings) : origin_entry_setting * settings :=
  match find_origin_entry_setting_match origin s with Some i => (nth i (origins s) entry_clear, s) | None => auto_append_any_origin_rule s end.

(** ** The calls of an origin *)

Record tracked_origin := mkTracked { to_origin : list Z; time_entries : list Z; ban_until : Z }.
#[export] Instance tracked_expand : Expandable tracked_origin := fun t => mkTracked (to_origin t) (time_entries t) (ban_until t).
(** [clock] is what [time] gives. *)
Definition make_tick_mark (clock ttm : Z) : Z := if ttm =? 0 then clock else ttm.
Definition newTracked (origin : list Z) (ttm : Z) : tracked_origin := mkTracked origin (if negb (ttm =? 0) then [ttm] else []) 0.
Fixpoint dropOld (until : Z) (l : list Z) : list Z := match l with t :: l' => if t <? until then dropOld until l' else l | [] => [] end.
Definition unload_by_time (clock ttmNow durationToPast : Z) (t : tracked_origin) : Z * tracked_origin :=
  if durationToPast =? 0 then (0, t)
  else
    let kept := dropOld (i64 (make_tick_mark clock ttmNow - durationToPast)) (time_entries t) in
    (lenZ (time_entries t) - lenZ kept, t <| time_entries := kept |>).
Definition unload_by_count (cntEntriesMax : Z) (t : tracked_origin) : Z * tracked_origin :=
  let cnt := lenZ (time_entries t) in
  if cntEntriesMax <? cnt then (cnt - cntEntriesMax, t <| time_entries := dropZ (cnt - cntEntriesMax) (time_entries t) |>) else (0, t).
Definition inWindow (until now te : Z) : bool := (until <=? te) && (te <=? now).
(** The walk from the newest entry: the count, the rest of the walk and the time left before the last entry that counted; [None] when the walk was not stopped. *)
Fixpoint sample (maxSteps until now idx cnt rescaling : Z) (l : list Z) : Z * option (Z * list Z) :=
  match l with
  | [] => (cnt, None)
  | te :: l' =>
      let '(cnt, rescaling) := if inWindow until now te then (u64 (cnt + 1), i64 (te - until)) else (cnt, rescaling) in
      if negb (maxSteps =? 0) && negb (maxSteps =? maxSize) && (maxSteps <=? idx) then (cnt, Some (rescaling, l))
      else sample maxSteps until now (idx + 1) cnt rescaling l'
  end.
Definition countWindow (until now : Z) (l : list Z) : Z := lenZ (List.filter (inWindow until now) l).
(** The second scan goes on from where the first one stopped. *)
Definition count_to_past (clock ttmNow durationToPast maxSteps target : Z) (t : tracked_origin) : Z :=
  if maxSteps =? 0 then 0
  else
    let now := make_tick_mark clock ttmNow in
    let until := i64 (now - durationToPast) in
    match sample maxSteps until now 0 0 until (rev (time_entries t)) with
    | (cnt, None) => cnt
    | (cnt, Some (rescaling, rest)) =>
        if 0 <? cnt then
          if 0 <? rescaling then
            let scaled := u64 (cnt * u64 durationToPast) / u64 rescaling in
            if negb (target =? 0) && negb (target =? maxSize) && (target <=? scaled) then countWindow until now rest else scaled
          else countWindow until now rest
        else cnt
    end.
Definition clear_ban (t : tracked_origin) : tracked_origin := t <| ban_until := 0 |>.
Definition check_ban (clock ttmNow : Z) (t : tracked_origin) : bool * tracked_origin :=
  if ban_until t =? 0 then (false, t)
  else if make_tick_mark clock ttmNow <=? ban_until t then (true, t) else (false, clear_ban t).

(** ** The algorithm *)

Inductive e_high_load_detection_result := ehldr_no_error | ehldr_peak | ehldr_lengthy | ehldr_bad_origin | ehldr_ban.
(** The set of tracked origins is ordered by their names: a map. *)
Record algorithm := mkAlgorithm {
  al_settings : settings; tracked_origins : gmap (list Z) tracked_origin; tracked_global : tracked_origin; ws_conn_counts : gmap (list Z) Z; ws_conn_count_global : Z }.
#[export] Instance algorithm_expand : Expandable algorithm := fun a =>
  mkAlgorithm (al_settings a) (tracked_origins a) (tracked_global a) (ws_conn_counts a) (ws_conn_count_global a).
Definition newAlgorithm (st : settings) : algorithm := mkAlgorithm st ∅ (mkTracked [] [] 0) ∅ 0.
Definition maxSteps4cm : Z := 15.
Definition maxSteps4cs : Z := 15.
Definition maxSteps4gm : Z := 10.
Definition maxSteps4gs : Z := 10.

Definition unload_old_data (clock ttmNow durationToPast : Z) (a : algorithm) : Z * algorithm :=
  if negb (enabled (al_settings a)) then (0, a)
  else if durationToPast =? 0 then (0, a)
  else
    let now := make_tick_mark clock ttmNow in
    let unloaded := unload_by_time clock now durationToPast <$> tracked_origins a in
    (u64 (map_fold (fun _ p n => fst p + n) 0 unloaded),
     a <| tracked_origins := filter (fun kv => time_entries (snd kv) <> []) (snd <$> unloaded) |> <| tracked_global := snd (unload_by_time clock now durationToPast (tracked_global a)) |>).
(** Whether a limit is passed; a limit of zero is none. *)
Definition exceeds (clock now durationToPast maxSteps limit : Z) (t : tracked_origin) : bool :=
  (0 <? limit) && (limit <? count_to_past clock now durationToPast maxSteps limit t).
Definition banFor (now length : Z) (t : tracked_origin) : tracked_origin := t <| ban_until := i64 (now + length) |>.
Definition register_call_from_origin (clock : Z) (origin method : list Z) (ttmNow durationToPast : Z) (a : algorithm) : e_high_load_detection_result * algorithm :=
  if negb (enabled (al_settings a)) then (ehldr_no_error, a)
  else if bool_decide (origin = []) then (ehldr_bad_origin, a)
  else
    let now := make_tick_mark clock ttmNow in
    let '(banned, global) := check_ban clock now ((tracked_global a) <| time_entries := time_entries (tracked_global a) ++ [now] |>) in
    let a := a <| tracked_global := global |> in
    if banned then (ehldr_ban, a)
    else
      let a := snd (unload_old_data clock now durationToPast a) in
      match tracked_origins a !! origin with
      | None => (ehldr_no_error, a <| tracked_origins := <[origin := newTracked origin now]> (tracked_origins a) |>)
      | Some to =>
          let '(banned, to) := check_ban clock now (to <| time_entries := time_entries to ++ [now] |>) in
          let put t a := a <| tracked_origins := <[origin := t]> (tracked_origins a) |> in
          if banned then (ehldr_ban, put to a)
          else
            let '(oe, st) := find_origin_entry_setting origin (al_settings a) in
            let a := (put to a) <| al_settings := st |> in
            let limits := global_limit (al_settings a) in
            if exceeds clock now durationToPast maxSteps4cm (max_calls_per_minute method oe) to then (ehldr_lengthy, put (banFor now (ban_lengthy oe) to) a)
            else if exceeds clock now 1 maxSteps4cs (max_calls_per_second method oe) to then (ehldr_peak, put (banFor now (ban_peak oe) to) a)
            else if exceeds clock now durationToPast maxSteps4gm (max_calls_per_minute method limits) (tracked_global a) then
              (ehldr_lengthy, a <| tracked_global := banFor now (ban_lengthy limits) (tracked_global a) |>)
            else if exceeds clock now 1 maxSteps4gs (max_calls_per_second method limits) (tracked_global a) then
              (ehldr_peak, a <| tracked_global := banFor now (ban_peak limits) (tracked_global a) |>)
            else (ehldr_no_error, a)
      end.

(** *** Connections *)

(** The rule that is found may be appended to the settings, also by this function. *)
Definition is_ban_ws_conn_for_origin (origin : list Z) (a : algorithm) : bool * algorithm :=
  if negb (enabled (al_settings a)) then (false, a)
  else if bool_decide (origin = []) then (true, a)
  else if max_ws_conn (global_limit (al_settings a)) <? ws_conn_count_global a then (true, a)
  else
    match ws_conn_counts a !! origin with
    | None => (false, a)
    | Some n => let '(oe, st) := find_origin_entry_setting origin (al_settings a) in (max_ws_conn oe <? n, a <| al_settings := st |>)
    end.
Definition register_ws_conn_for_origin (origin : list Z) (a : algorithm) : e_high_load_detection_result * algorithm :=
  if negb (enabled (al_settings a)) then (ehldr_no_error, a)
  else if bool_decide (origin = []) then (ehldr_bad_origin, a)
  else
    let a := a <| ws_conn_count_global := u64 (ws_conn_count_global a + 1) |> in
    if max_ws_conn (global_limit (al_settings a)) <? ws_conn_count_global a then (ehldr_peak, a)
    else
      let n := match ws_conn_counts a !! origin with None => 1 | Some n => u64 (n + 1) end in
      let '(oe, st) := find_origin_entry_setting origin (al_settings a) in
      let a := a <| ws_conn_counts := <[origin := n]> (ws_conn_counts a) |> <| al_settings := st |> in
      (if max_ws_conn oe <? n then ehldr_peak else ehldr_no_error, a).
Definition unregister_ws_conn_for_origin (origin : list Z) (a : algorithm) : bool * algorithm :=
  if bool_decide (origin = []) then (negb (enabled (al_settings a)), a)
  else
    let a := if 0 <? ws_conn_count_global a then a <| ws_conn_count_global := ws_conn_count_global a - 1 |> else a in
    match ws_conn_counts a !! origin with
    | None => (negb (enabled (al_settings a)), a)
    | Some n =>
        let n := if 1 <=? n then n - 1 else n in
        (true, a <| ws_conn_counts := if n =? 0 then delete origin (ws_conn_counts a) else <[origin := n]> (ws_conn_counts a) |>)
    end.
Definition get_settings (a : algorithm) : settings * algorithm := let st := snd (auto_append_any_origin_rule (al_settings a)) in (st, a <| al_settings := st |>).
Definition set_settings (new : settings) (a : algorithm) : algorithm := a <| al_settings := snd (auto_append_any_origin_rule new) |>.
