(* ===== verification/UnddosClaims.v ===== *)
(** * UnddosClaims: what the limits on calls and connections achieve

    The rule of an origin, the exact count of few calls, the calls that the sampled count does not see, how long a ban lasts, and the count of connections. *)

From Stdlib Require Import ZArith Lia Bool String.
From stdpp Require Import base list gmap sets.
From S2P Require Import Prelude Wildcard Unddos.
Open Scope Z_scope.
Open Scope skaled_scope.

(** ** The rule of an origin *)

Lemma wildMatch_spec w s : wildMatch w s = true <-> matches w s.
Proof. unfold wildMatch. destruct (wildcmp_returns w s) as (b & -> & H). exact H. Qed.
Lemma match_origin_spec origin e : match_origin origin e = true <-> origin <> [] /\ exists w, w ∈ origin_wildcards e /\ matches w origin.
Proof.
  unfold match_origin. rewrite andb_true_iff, negb_true_iff, bool_decide_eq_false, existsb_exists. setoid_rewrite wildMatch_spec. setoid_rewrite <-list_elem_of_In. tauto.
Qed.
Lemma find_index_spec {A} (p : A -> bool) (l : list A) : match find_index p l with
  | Some i => exists before x after, l = before ++ x :: after /\ length before = i /\ p x = true /\ Forall (fun y => p y = false) before
  | None => Forall (fun y => p y = false) l end.
Proof.
  induction l as [|x l IH]; cbn; [constructor|]. destruct (p x) eqn:E; [by exists [], x, l|]. destruct (find_index p l) as [i|]; cbn.
  - destruct IH as (before & y & after & -> & <- & Hy & Hb). exists (x :: before), y, after. by repeat split; [..|constructor].
  - by constructor.
Qed.
(** The rule of an origin is the first one that has a pattern for it.  If there is none it is the first one that has a pattern for a star, or else the default rule, which
    is put behind the others. *)
Theorem first_rule_decides (origin : list Z) (s : settings) : origin <> [] ->
  let '(e, s') := find_origin_entry_setting origin s in
  (exists before after, origins s = before ++ e :: after /\ s' = s /\ (exists w, w ∈ origin_wildcards e /\ matches w origin) /\
     Forall (fun r => forall w, w ∈ origin_wildcards r -> ~ matches w origin) before) \/
  (Forall (fun r => forall w, w ∈ origin_wildcards r -> ~ matches w origin) (origins s) /\ (e, s') = auto_append_any_origin_rule s).
Proof.
  intros Ho. assert (Hno : forall l, Forall (fun y => match_origin origin y = false) l -> Forall (fun r => forall w, w ∈ origin_wildcards r -> ~ matches w origin) l).
  { intros l Hl. eapply Forall_impl; [exact Hl|]. intros r Hr w Hw Hm. assert (match_origin origin r = true) by (apply match_origin_spec; eauto). congruence. }
  unfold find_origin_entry_setting, find_origin_entry_setting_match. rewrite bool_decide_eq_false_2 by done. pose proof (find_index_spec (match_origin origin) (origins s)) as H.
  destruct (find_index _ _) as [i|].
  - destruct H as (before & x & after & E & <- & Hx & Hb). left. exists before, after. rewrite E, nth_middle. apply match_origin_spec in Hx as [_ Hx]. auto.
  - destruct (auto_append_any_origin_rule s) as [e s'] eqn:E. right. auto.
Qed.

(** ** Counting calls *)

Lemma countWindow_cons until now x l : countWindow until now (x :: l) = (if inWindow until now x then 1 else 0) + countWindow until now l.
Proof. unfold countWindow. cbn [List.filter]. destruct (inWindow until now x); unfold lenZ; cbn [length]; lia. Qed.
Lemma countWindow_bounds until now l : 0 <= countWindow until now l <= lenZ l.
Proof. induction l as [|x l IH]; [by unfold countWindow, lenZ|]. rewrite countWindow_cons. unfold lenZ in *. cbn [length]. case_match; lia. Qed.
Lemma countWindow_app until now l l' : countWindow until now (l ++ l') = countWindow until now l + countWindow until now l'.
Proof. induction l as [|x l IH]; [done|]. rewrite <-app_comm_cons, !countWindow_cons, IH. lia. Qed.
Lemma countWindow_rev until now l : countWindow until now (rev l) = countWindow until now l.
Proof. induction l as [|x l IH]; [done|]. cbn [rev]. rewrite countWindow_app, IH, !countWindow_cons. change (countWindow until now []) with 0. lia. Qed.
Lemma sample_all maxSteps until now idx cnt r l : 0 <= cnt -> cnt + lenZ l < 2 ^ 64 -> idx + lenZ l <= maxSteps \/ maxSteps = maxSize ->
  sample maxSteps until now idx cnt r l = (cnt + countWindow until now l, None).
Proof.
  revert idx cnt r. induction l as [|te l IH]; intros idx cnt r Hc Hl Hm; cbn [sample]; [f_equal; change (countWindow until now []) with 0; lia|].
  unfold lenZ in *. cbn [length] in *. assert (Hstop : negb (maxSteps =? 0) && negb (maxSteps =? maxSize) && (maxSteps <=? idx) = false).
  { destruct Hm as [Hm| ->]; [rewrite (proj2 (Z.leb_gt maxSteps idx)) by lia; apply andb_false_r|by rewrite Z.eqb_refl, andb_false_r]. }
  rewrite countWindow_cons. destruct (inWindow until now te).
  - rewrite Hstop. unfold wrap. rewrite Z.mod_small by lia. rewrite IH by lia. f_equal. lia.
  - rewrite Hstop. rewrite IH by lia. f_equal.
Qed.
(** Few calls are counted one by one. *)
Theorem count_is_exact (clock ttmNow durationToPast maxSteps target : Z) (t : tracked_origin) : maxSteps <> 0 -> lenZ (time_entries t) < 2 ^ 64 ->
  lenZ (time_entries t) <= maxSteps \/ maxSteps = maxSize ->
  count_to_past clock ttmNow durationToPast maxSteps target t =
  countWindow (i64 (make_tick_mark clock ttmNow - durationToPast)) (make_tick_mark clock ttmNow) (time_entries t).
Proof.
  intros Hm Hl Hs. unfold count_to_past. apply Z.eqb_neq in Hm. rewrite Hm. rewrite sample_all; [by rewrite countWindow_rev|lia|..]; unfold lenZ in *; rewrite length_rev; lia.
Qed.
(** Calls of one second: when the walk stops after [maxSteps + 1] of them, this number is what is returned, however many there are. *)
Lemma sample_second maxSteps until now idx r k : 0 < maxSteps < maxSize -> 0 <= idx <= maxSteps -> until <= now -> i64 (now - until) = now - until ->
  sample maxSteps until now idx idx r (replicate k now) =
  if bool_decide (idx + Z.of_nat k <= maxSteps) then (idx + Z.of_nat k, None) else (maxSteps + 1, Some (now - until, replicate (k - Z.to_nat (maxSteps - idx)) now)).
Proof.
  intros Hm Hi Hu He. revert idx r Hi. induction k as [|k IH]; intros idx r Hi; cbn [replicate sample].
  - rewrite bool_decide_eq_true_2 by lia. f_equal. lia.
  - assert (Hw : inWindow until now now = true) by (unfold inWindow; rewrite andb_true_iff, !Z.leb_le; lia). rewrite Hw, He.
    unfold maxSize in *. unfold wrap. rewrite Z.mod_small by lia. rewrite (proj2 (Z.eqb_neq maxSteps 0)), (proj2 (Z.eqb_neq maxSteps (2 ^ 64 - 1))) by lia. cbn [negb andb].
    destruct (Z.leb_spec maxSteps idx).
    + rewrite bool_decide_eq_false_2 by lia. replace maxSteps with idx by lia. rewrite Z.sub_diag. done.
    + rewrite IH by lia. rewrite !(bool_decide_ext (idx + 1 + Z.of_nat k <= maxSteps) (idx + Z.of_nat (S k) <= maxSteps)) by lia. case_bool_decide.
      * f_equal. lia.
      * f_equal. f_equal. f_equal. f_equal. lia.
Qed.

Lemma rev_same {A} k (x : A) : rev (replicate k x) = replicate k x.
Proof. induction k as [|k IH]; [done|]. rewrite replicate_S_end at 2. cbn [replicate rev]. by rewrite IH. Qed.

(** ** A flood *)

(** A limit that the sampled count of one second does not reach: none, or one above the number of steps and one. *)
Definition blind (maxSteps limit : Z) : Prop := limit = 0 \/ maxSteps + 1 < limit.
Section Flood.
Variables (clock now d : Z) (origin method : list Z) (st : settings) (oe : origin_entry_setting).
Hypotheses (Hnow : now <> 0) (Hrange : - 2 ^ 62 < now < 2 ^ 62) (Hd : 0 < d < 2 ^ 59) (Hon : enabled st = true) (Ho : origin <> []) (Hrule : find_origin_entry_setting origin st = (oe, st)).
Hypotheses (Hm : blind maxSteps4cm (max_calls_per_minute method oe)) (Hs : blind maxSteps4cs (max_calls_per_second method oe)).
Hypotheses (Hgm : blind maxSteps4gm (max_calls_per_minute method (global_limit st))) (Hgs : blind maxSteps4gs (max_calls_per_second method (global_limit st))).

Lemma tick_now : make_tick_mark clock now = now.
Proof. unfold make_tick_mark. by rewrite (proj2 (Z.eqb_neq _ _)). Qed.
Lemma second_not_exceeded k t e maxSteps limit : time_entries t = replicate k now -> 0 < e < 2 ^ 59 -> 0 < maxSteps < 16 -> blind maxSteps limit -> exceeds clock now e maxSteps limit t = false.
Proof.
  intros Ht He Hmax [->|Hl]; [done|]. unfold exceeds. rewrite (proj2 (Z.ltb_lt 0 limit)) by lia. cbn [andb]. apply Z.ltb_ge. unfold count_to_past.
  rewrite (proj2 (Z.eqb_neq maxSteps 0)) by lia. rewrite tick_now, i64_small, Ht, rev_same by lia.
  rewrite sample_second; [|unfold maxSize; lia|lia|lia|apply i64_small; lia]. case_bool_decide; [lia|]. rewrite (proj2 (Z.ltb_lt 0 (maxSteps + 1))) by lia.
  replace (now - (now - e)) with e by lia. rewrite (proj2 (Z.ltb_lt 0 e)) by lia. unfold wrap. rewrite !(Z.mod_small e) by lia. rewrite (Z.mod_small ((maxSteps + 1) * e)) by nia.
  rewrite Z.div_mul by lia. rewrite (proj2 (Z.leb_gt limit (maxSteps + 1))) by lia. rewrite andb_false_r. lia.
Qed.
(** The origin called [k] times and everybody [j] times, all now. *)
Definition flooded (j k : nat) (a : algorithm) : Prop :=
  al_settings a = st /\ tracked_global a = mkTracked [] (replicate j now) 0 /\
  tracked_origins a = (match k with O => ∅ | S _ => {[origin := mkTracked origin (replicate k now) 0]} end).
Lemma dropOld_now k : dropOld (i64 (now - d)) (replicate k now) = replicate k now.
Proof. rewrite i64_small by lia. destruct k; [done|]. cbn [replicate dropOld]. by rewrite (proj2 (Z.ltb_ge now (now - d))) by lia. Qed.
Lemma unload_now k o : snd (unload_by_time clock now d (mkTracked o (replicate k now) 0)) = mkTracked o (replicate k now) 0.
Proof. unfold unload_by_time. rewrite (proj2 (Z.eqb_neq d 0)) by lia. cbn. by rewrite tick_now, dropOld_now. Qed.
Lemma unload_flooded j k a : flooded j k a -> flooded j k (snd (unload_old_data clock now d a)).
Proof.
  intros (Es & Eg & Et). unfold unload_old_data. rewrite Es, Hon, (proj2 (Z.eqb_neq d 0)) by lia. cbn [negb snd]. rewrite tick_now. split; [done|]. cbn. rewrite Eg, Et. split; [apply unload_now|].
  destruct k as [|k]; [by rewrite !fmap_empty, map_filter_empty|]. rewrite !map_fmap_singleton, unload_now. by apply map_filter_singleton_True.
Qed.
Lemma flood_step k a : flooded k k a -> exists a', register_call_from_origin clock origin method now d a = (ehldr_no_error, a') /\ flooded (S k) (S k) a'.
Proof.
  intros (Es & Eg & Et). unfold register_call_from_origin. rewrite Es, Hon, bool_decide_eq_false_2 by done. cbn [negb]. rewrite tick_now, Eg. cbn [time_entries].
  rewrite <-replicate_S_end. unfold check_ban at 1. cbn [ban_until set_field Z.eqb]. cbv beta iota zeta.
  assert (H1 : flooded (S k) k (a <| tracked_global := mkTracked [] (replicate (S k) now) 0 |>)) by done. apply unload_flooded in H1. revert H1.
  match goal with |- flooded _ _ ?x -> _ => change (set_field tracked_global _ a) with (a <| tracked_global := mkTracked [] (replicate (S k) now) 0 |>); generalize x end.
  clear a Es Eg Et. intros a (Es & Eg & Et). rewrite Et. destruct k as [|k].
  - rewrite lookup_empty. eexists. split; [reflexivity|]. split; [done|]. split; [done|]. cbn. unfold newTracked. by rewrite (proj2 (Z.eqb_neq now 0)).
  - rewrite lookup_singleton_eq. unfold check_ban. cbn [ban_until set_field Z.eqb time_entries]. rewrite <-replicate_S_end. rewrite Es, Hrule. cbv beta iota zeta.
    rewrite !(second_not_exceeded (S (S k))); try done; try lia; try (by cbn; rewrite Eg).
    eexists. split; [reflexivity|]. split; [done|]. split; [done|]. cbn. by rewrite insert_singleton_eq.
Qed.
Fixpoint repeatCalls (n : nat) (a : algorithm) : list e_high_load_detection_result :=
  match n with O => [] | S n' => let '(r, a') := register_call_from_origin clock origin method now d a in r :: repeatCalls n' a' end.
Lemma flood_runs n k a : flooded k k a -> repeatCalls n a = replicate n ehldr_no_error.
Proof. revert k a. induction n as [|n IH]; intros k a H; [done|]. cbn [repeatCalls replicate]. destruct (flood_step k a H) as (a' & -> & H'). by rewrite (IH _ _ H'). Qed.
End Flood.
(** C40: A flood within one second is not noticed.  It starts with a detector that has recorded no calls and is all of the traffic: when detection is on, when the limits of the
    rule of an origin are above 16 (or there are none) and the global ones above 11, any number of calls that the origin makes, all at one and the same second, are all
    accepted, since the count that the code extrapolates from the last calls stays at the number of those.  A later call, in another second, may well be refused. *)
Theorem flood_is_not_noticed (clock now d : Z) (origin method : list Z) (st : settings) (oe : origin_entry_setting) (n : nat) :
  now <> 0 -> - 2 ^ 62 < now < 2 ^ 62 -> 0 < d < 2 ^ 59 -> enabled st = true -> origin <> [] -> find_origin_entry_setting origin st = (oe, st) ->
  blind maxSteps4cm (max_calls_per_minute method oe) -> blind maxSteps4cs (max_calls_per_second method oe) ->
  blind maxSteps4gm (max_calls_per_minute method (global_limit st)) -> blind maxSteps4gs (max_calls_per_second method (global_limit st)) ->
  repeatCalls clock now d origin method n (newAlgorithm st) = replicate n ehldr_no_error.
Proof. intros. eapply (flood_runs clock now d origin method st oe) with (k := O); try done. Qed.

(** ** Bans *)

Lemma dropOld_nil until l : dropOld until l = [] <-> Forall (fun t => t < until) l.
Proof.
  induction l as [|t l IH]; cbn; [split; [constructor|done]|]. rewrite Forall_cons. destruct (Z.ltb_spec t until); [rewrite IH; tauto|]. split; [done|]. intros []. lia.
Qed.
(** A ban lasts only while the origin goes on calling: a banned origin is refused as long as one of its calls is within the time that is kept, but when it was silent for that
    time the ban is forgotten with its calls, however long it should last. *)
Theorem ban_lasts_while_calling (clock now d : Z) (origin method : list Z) (a : algorithm) (t : tracked_origin) :
  now <> 0 -> d <> 0 -> enabled (al_settings a) = true -> origin <> [] -> ban_until (tracked_global a) = 0 -> tracked_origins a !! origin = Some t -> ban_until t <> 0 -> now <= ban_until t ->
  let '(r, a') := register_call_from_origin clock origin method now d a in
  (Exists (fun te => i64 (now - d) <= te) (time_entries t) -> r = ehldr_ban /\ exists t', tracked_origins a' !! origin = Some t' /\ ban_until t' = ban_until t) /\
  (Forall (fun te => te < i64 (now - d)) (time_entries t) -> r = ehldr_no_error /\ tracked_origins a' !! origin = Some (newTracked origin now)).
Proof.
  intros Hn Hd Hon Ho Hg Ht Hb Hle. unfold register_call_from_origin. rewrite Hon, bool_decide_eq_false_2 by done. cbn [negb]. rewrite tick_now by done.
  unfold check_ban at 1. cbn [ban_until set_field]. rewrite Hg. cbn [Z.eqb]. cbv iota beta zeta. unfold unload_old_data. cbn [al_settings set_field]. rewrite Hon, (proj2 (Z.eqb_neq d 0)) by done.
  cbn [negb snd tracked_origins set_field]. rewrite !tick_now by done. set (u := filter _ _).
  assert (Eu : u !! origin = match dropOld (i64 (now - d)) (time_entries t) with [] => None | l => Some (t <| time_entries := l |>) end).
  { unfold u. rewrite map_lookup_filter, !lookup_fmap, Ht. cbn. unfold unload_by_time. rewrite (proj2 (Z.eqb_neq d 0)), tick_now by done. cbn. destruct (dropOld _ _); cbn; [by rewrite option_guard_False by tauto|by rewrite option_guard_True]. }
  rewrite Eu. pose proof (dropOld_nil (i64 (now - d)) (time_entries t)) as Hnil. destruct (dropOld (i64 (now - d)) (time_entries t)) as [|x l].
  - split; [|intros _; split; [done|apply lookup_insert_eq]]. intros He. apply proj1 in Hnil. specialize (Hnil eq_refl). exfalso. apply Exists_exists in He as (te & Hte & Hle').
    rewrite Forall_forall in Hnil. specialize (Hnil te Hte). lia.
  - unfold check_ban. cbn [ban_until set_field]. rewrite (proj2 (Z.eqb_neq (ban_until t) 0)), tick_now, (proj2 (Z.leb_le now (ban_until t))) by done.
    split; [intros _; split; [done|]; eexists; split; [apply lookup_insert_eq|done]|]. intros Hf. by apply Hnil in Hf.
Qed.

(** ** Connections *)

Definition connectionsOf (o : list Z) (open : list (list Z)) : Z := lenZ (List.filter (fun x => bool_decide (x = o)) open).
(** Connections come while there are not too many of them, and go. *)
Inductive serves (st : settings) : algorithm -> list (list Z) -> Prop :=
| serves_new : serves st (newAlgorithm st) []
| serves_open a open o : serves st a open -> o <> [] -> lenZ open < max_ws_conn (global_limit st) -> serves st (snd (register_ws_conn_for_origin o a)) (o :: open)
| serves_close a open o open' : serves st a open -> open ≡ₚ o :: open' -> serves st (snd (unregister_ws_conn_for_origin o a)) open'.
Lemma rule_keeps_global o s : enabled (snd (find_origin_entry_setting o s)) = enabled s /\ global_limit (snd (find_origin_entry_setting o s)) = global_limit s.
Proof. unfold find_origin_entry_setting, auto_append_any_origin_rule. by repeat case_match. Qed.
Lemma connectionsOf_cons o x open : connectionsOf o (x :: open) = (if bool_decide (x = o) then 1 else 0) + connectionsOf o open.
Proof. unfold connectionsOf. cbn. case_bool_decide; unfold lenZ; cbn [length]; lia. Qed.
Lemma connectionsOf_bounds o open : 0 <= connectionsOf o open <= lenZ open.
Proof. unfold connectionsOf, lenZ. pose proof (List.filter_length_le (fun x => bool_decide (x = o)) open). lia. Qed.
Lemma connectionsOf_perm o open open' : open ≡ₚ open' -> connectionsOf o open = connectionsOf o open'.
Proof. induction 1 as [|x l l' H IH|x y l|l1 l2 l3 H IH H' IH']; [done|by rewrite !connectionsOf_cons, IH|rewrite !connectionsOf_cons; lia|by rewrite IH]. Qed.
Definition stored (n : Z) : option Z := if n =? 0 then None else Some n.
Record counted (st : settings) (a : algorithm) (open : list (list Z)) : Prop := {
  cn_settings : enabled (al_settings a) = true /\ global_limit (al_settings a) = global_limit st;
  cn_counts : forall o, ws_conn_counts a !! o = stored (connectionsOf o open);
  cn_global : ws_conn_count_global a = lenZ open;
  cn_few : lenZ open <= max_ws_conn (global_limit st);
  cn_named : [] ∉ open }.
Lemma serves_counted st a open : enabled st = true -> 0 <= max_ws_conn (global_limit st) <= maxSize -> serves st a open -> counted st a open.
Proof.
  intros Hon Hmax. induction 1 as [|a open o Hs [[S1 S2] Hc Hg Hf Hn] Ho Hl|a open o open' Hs [[S1 S2] Hc Hg Hf Hn] Hp].
  - split; [done|intros o; apply lookup_empty|done|unfold lenZ; cbn; lia|apply not_elem_of_nil].
  - unfold maxSize in Hmax. pose proof (lenZ_nonneg open) as Hl0. unfold register_ws_conn_for_origin. rewrite S1, bool_decide_eq_false_2 by done. cbn [negb ws_conn_count_global al_settings set_field].
    rewrite Hg, S2, wrap_small by lia. rewrite (proj2 (Z.ltb_ge _ _)) by lia. destruct (rule_keeps_global o (al_settings a)) as [R1 R2]. destruct (find_origin_entry_setting o (al_settings a)) as [oe st'].
    cbn in R1, R2. split; cbn.
    + by rewrite R1, R2.
    + intros o'. pose proof (connectionsOf_bounds o open) as Hb. rewrite connectionsOf_cons. destruct (decide (o = o')) as [<-|Hne].
      * rewrite lookup_insert_eq, Hc, bool_decide_eq_true_2 by done. unfold stored. destruct (Z.eqb_spec (connectionsOf o open) 0) as [E|E].
        -- rewrite E. done.
        -- rewrite wrap_small by lia. rewrite (proj2 (Z.eqb_neq _ _)) by lia. f_equal. lia.
      * rewrite lookup_insert_ne, Hc, bool_decide_eq_false_2 by done. by rewrite Z.add_0_l.
    + rewrite lenZ_cons. lia.
    + rewrite lenZ_cons. lia.
    + apply not_elem_of_cons. auto.
  - assert (Ho : o <> []) by (intros ->; apply Hn; rewrite Hp; left). pose proof (lenZ_nonneg open') as Hl0.
    assert (EL : lenZ open = 1 + lenZ open') by (rewrite <-lenZ_cons with (x := o); unfold lenZ; by rewrite Hp).
    assert (Ec : forall o', connectionsOf o' open = (if bool_decide (o = o') then 1 else 0) + connectionsOf o' open') by (intros o'; rewrite <-connectionsOf_cons; by apply connectionsOf_perm).
    unfold unregister_ws_conn_for_origin. rewrite bool_decide_eq_false_2 by done. rewrite Hg, EL, (proj2 (Z.ltb_lt 0 _)) by lia. cbn [ws_conn_counts set_field].
    pose proof (connectionsOf_bounds o open') as Hb. rewrite Hc, Ec, bool_decide_eq_true_2 by done. unfold stored at 1. rewrite (proj2 (Z.eqb_neq _ _)) by lia.
    rewrite (proj2 (Z.leb_le 1 _)) by lia. replace (1 + connectionsOf o open' - 1) with (connectionsOf o open') by lia. split; cbn.
    + done.
    + intros o'. specialize (Ec o'). destruct (decide (o = o')) as [<-|Hne].
      * unfold stored. destruct (Z.eqb_spec (connectionsOf o open') 0); [by rewrite lookup_delete_eq|by rewrite lookup_insert_eq].
      * rewrite bool_decide_eq_false_2, Z.add_0_l in Ec by done. case_match; [rewrite lookup_delete_ne by done|rewrite lookup_insert_ne by done]; by rewrite Hc, Ec.
    + lia.
    + lia.
    + intros Hin. apply Hn. rewrite Hp. by right.
Qed.
(** While the connections stay within the global limit, the algorithm counts those of each origin and all of them exactly, and an origin is refused exactly when it has more than its rule
    allows. *)
Theorem connections_are_counted (st : settings) (a : algorithm) (open : list (list Z)) : enabled st = true -> 0 <= max_ws_conn (global_limit st) <= maxSize -> serves st a open ->
  (forall o, ws_conn_counts a !! o = stored (connectionsOf o open)) /\ ws_conn_count_global a = lenZ open /\
  (forall o, o ∈ open -> fst (is_ban_ws_conn_for_origin o a) = (max_ws_conn (fst (find_origin_entry_setting o (al_settings a))) <? connectionsOf o open)).
Proof.
  intros Hon Hmax Hs. destruct (serves_counted st a open Hon Hmax Hs) as [[S1 S2] Hc Hg Hf Hn]. split; [done|]. split; [done|]. intros o Ho.
  assert (Hne : o <> []) by (by intros ->). assert (Hpos : connectionsOf o open <> 0).
  { apply list_elem_of_split in Ho as (l1 & l2 & ->). rewrite (connectionsOf_perm o _ (o :: l1 ++ l2)) by (symmetry; apply Permutation_middle). rewrite connectionsOf_cons, bool_decide_eq_true_2 by done.
    pose proof (connectionsOf_bounds o (l1 ++ l2)). lia. }
  unfold is_ban_ws_conn_for_origin. rewrite S1, bool_decide_eq_false_2 by done. cbn [negb]. rewrite Hg, S2, (proj2 (Z.ltb_ge _ _)) by lia. rewrite Hc. unfold stored. rewrite (proj2 (Z.eqb_neq _ _)) by done.
  by destruct (find_origin_entry_setting o (al_settings a)).
Qed.

Module UnddosExample.
Definition home : list Z := text "10.0.0.7"%string.
Definition call : list Z := text "eth_call"%string.
Definition st : settings := mkSettings true [load_friendly_for_any_origin] (load_unlim_for_any_origin 0).
Definition banned : algorithm := (newAlgorithm st) <| tracked_origins := {[home := mkTracked home [1000; 1001] 1120]} |>.
Lemma rule : find_origin_entry_setting home st = (load_friendly_for_any_origin, st).
Proof. unfold find_origin_entry_setting. assert (E : find_origin_entry_setting_match home st = Some 0%nat) by (vm_compute; reflexivity). rewrite E. reflexivity. Qed.
Lemma connected : serves st (snd (register_ws_conn_for_origin home (newAlgorithm st))) [home].
Proof. apply serves_open; [apply serves_new|vm_compute; discriminate|vm_compute; reflexivity]. Qed.
End UnddosExample.
Lemma first_rule_decides_witness : UnddosExample.home <> [] /\
  ((exists before after, origins UnddosExample.st = before ++ load_friendly_for_any_origin :: after /\ UnddosExample.st = UnddosExample.st /\
      (exists w, w ∈ origin_wildcards load_friendly_for_any_origin /\ matches w UnddosExample.home) /\
      Forall (fun r => forall w, w ∈ origin_wildcards r -> ~ matches w UnddosExample.home) before) \/
   (Forall (fun r => forall w, w ∈ origin_wildcards r -> ~ matches w UnddosExample.home) (origins UnddosExample.st) /\
      (load_friendly_for_any_origin, UnddosExample.st) = auto_append_any_origin_rule UnddosExample.st)).
Proof. split; [vm_compute; discriminate|]. assert (H : UnddosExample.home <> []) by (vm_compute; discriminate). pose proof (first_rule_decides UnddosExample.home UnddosExample.st H) as R. rewrite UnddosExample.rule in R. exact R. Defined.
Lemma count_is_exact_witness : count_to_past 0 1001 60 15 500 (mkTracked [] [900; 1000; 1001] 0) = 2.
Proof. rewrite (count_is_exact 0 1001 60 15 500 (mkTracked [] [900; 1000; 1001] 0)); [vm_compute; reflexivity|discriminate|vm_compute; reflexivity|left; vm_compute; discriminate]. Defined.
Lemma flood_is_not_noticed_witness : repeatCalls 0 1700000000 60 UnddosExample.home UnddosExample.call 1000 (newAlgorithm UnddosExample.st) = replicate 1000 ehldr_no_error.
Proof.
  apply (flood_is_not_noticed 0 1700000000 60 UnddosExample.home UnddosExample.call UnddosExample.st load_friendly_for_any_origin 1000);
    [discriminate|lia|lia|reflexivity|vm_compute; discriminate|exact UnddosExample.rule|right; vm_compute; reflexivity..].
Defined.
Lemma ban_lasts_while_calling_witness : fst (register_call_from_origin 0 UnddosExample.home UnddosExample.call 1061 60 UnddosExample.banned) = ehldr_ban /\
  fst (register_call_from_origin 0 UnddosExample.home UnddosExample.call 1062 60 UnddosExample.banned) = ehldr_no_error.
Proof.
  assert (Hne : UnddosExample.home <> []) by (vm_compute; discriminate).
  pose proof (ban_lasts_while_calling 0 1061 60 UnddosExample.home UnddosExample.call UnddosExample.banned (mkTracked UnddosExample.home [1000; 1001] 1120) ltac:(discriminate) ltac:(discriminate) eq_refl
    Hne eq_refl ltac:(vm_compute; reflexivity) ltac:(discriminate) ltac:(cbn; lia)) as H.
  pose proof (ban_lasts_while_calling 0 1062 60 UnddosExample.home UnddosExample.call UnddosExample.banned (mkTracked UnddosExample.home [1000; 1001] 1120) ltac:(discriminate) ltac:(discriminate) eq_refl
    Hne eq_refl ltac:(vm_compute; reflexivity) ltac:(discriminate) ltac:(cbn; lia)) as H'.
  destruct (register_call_from_origin 0 UnddosExample.home UnddosExample.call 1061 60 UnddosExample.banned) as [r a]. destruct (register_call_from_origin 0 UnddosExample.home UnddosExample.call 1062 60 UnddosExample.banned) as [r' a'].
  split; [apply H; right; left; vm_compute; discriminate|apply H'; repeat constructor; vm_compute; reflexivity].
Defined.
Lemma connections_are_counted_witness : ws_conn_count_global (snd (register_ws_conn_for_origin UnddosExample.home (newAlgorithm UnddosExample.st))) = 1.
Proof.
  exact (proj1 (proj2 (connections_are_counted UnddosExample.st _ [UnddosExample.home] eq_refl ltac:(split; [vm_compute; discriminate|vm_compute; discriminate]) UnddosExample.connected))).
Defined.
