(* ===== verification/SnapshotVote.v ===== *)
(** * SnapshotVote: the choice of the snapshot of a node that catches up (libskale/SnapshotHashAgent.h, .cpp, AmsterdamFixPatch.cpp)

    A node asks the others for the hash of their snapshot and its signature, and downloads from those that answered what two thirds of all answered.  Pairings and the
    recovery of a signature are libBLS's and a parameter; so is what each node answered.  [voteForHash] leaves what it has stored so far when it throws. *)

From Stdlib Require Import ZArith Lia Bool.
From stdpp Require Import base list sorting sets gmap.
From S2P Require Import Prelude.
Open Scope Z_scope.
Open Scope skaled_scope.

(** ** libBLS *)

Inductive BlsError := IncorrectInput | IsNotWellFormed | OtherBlsError.
Class Bls := {
  G1 : Type; G2 : Type;
  (** The default point, [zero], and whether a point is on the curve. *)
  g1_default : G1; g2_default : G2; g1_isZero : G1 -> bool; g1_wellFormed : G1 -> bool; g2_isZero : G2 -> bool; g2_wellFormed : G2 -> bool;
  Verification : Z -> G1 -> G2 -> result BlsError bool;
  (** [LagrangeCoeffs] of the indices with a threshold, and [SignatureRecover] with them. *)
  SignatureRecover : list Z -> Z -> list G1 -> result BlsError G1 }.

(** ** The patch of one chain *)

Definition affectedChains : list Z := [0xd2ba743e9fef4; 0x292a2c91ca6a3; 0x1c6fa7f59eeac; 0x4b127e9c2f7de].
(** [override] is the list of the environment variable. *)
Definition majorityNodesIds (override : option (list Z)) : list Z := match override with None => [90; 134; 162; 169; 177; 179; 183; 189; 192; 208] | Some ids => ids end.
Definition snapshotHashCheckingEnabled (override : option (list Z)) (chainID id : Z) : bool :=
  if negb (bool_decide (chainID ∈ affectedChains)) then true else bool_decide (id ∈ majorityNodesIds override).

Section Agent.
Context `{Bls}.

(** ** The agent *)

Record SNode := mkSNode { sn_id : Z; sn_ip : list Z; sn_port : Z }.
Record SnapshotHashAgent := mkAgent {
  sa_nodes : list SNode; sa_id : Z; sa_chainID : Z; sa_configKey : G2; sa_url : option (list Z * Z);
  sa_hashes : list Z; sa_signatures : list G1; sa_public_keys : list G2; sa_isReceived : list bool;
  sa_nodesToDownload : list nat; sa_commonPublicKey : G2; sa_votedHash : Z * G1 }.
#[export] Instance agent_expand : Expandable SnapshotHashAgent := fun a =>
  mkAgent (sa_nodes a) (sa_id a) (sa_chainID a) (sa_configKey a) (sa_url a) (sa_hashes a) (sa_signatures a) (sa_public_keys a) (sa_isReceived a) (sa_nodesToDownload a) (sa_commonPublicKey a) (sa_votedHash a).
Definition sa_n (a : SnapshotHashAgent) : nat := length (sa_nodes a).
(** A key of the command line that is no key is replaced by that of the configuration. *)
Definition newAgent (nodes : list SNode) (id chainID : Z) (configKey commonKey : G2) (url : option (list Z * Z)) : SnapshotHashAgent :=
  let n := length nodes in
  mkAgent nodes id chainID configKey url (replicate n 0) (replicate n g1_default) (replicate n g2_default) (replicate n false) []
    (if g2_isZero commonKey || negb (g2_wellFormed commonKey) then configKey else commonKey) (0, g1_default).
(** The places of the other nodes. *)
Definition others (a : SnapshotHashAgent) : list nat := List.filter (fun i => match sa_nodes a !! i with Some nd => negb (sa_id a =? sn_id nd) | None => false end) (seq 0 (sa_n a)).
Definition hashAt (a : SnapshotHashAgent) (i : nat) : Z := nth i (sa_hashes a) 0.
Definition signatureAt (a : SnapshotHashAgent) (i : nat) : G1 := nth i (sa_signatures a) g1_default.
Definition keyAt (a : SnapshotHashAgent) (i : nat) : G2 := nth i (sa_public_keys a) g2_default.
Definition receivedAt (a : SnapshotHashAgent) (i : nat) : bool := nth i (sa_isReceived a) false.
(** An exception of [Verification] is caught here. *)
Definition verifiedNode (a : SnapshotHashAgent) (i : nat) : bool :=
  receivedAt a i && match Verification (hashAt a i) (signatureAt a i) (keyAt a i) with Ok b => b | Err _ => false end.
Definition verifyAllData (a : SnapshotHashAgent) : Z := lenZ (List.filter (verifiedNode a) (others a)).

(** ** Voting *)

Inductive VoteOutcome := Voted (b : bool) | NotEnoughVotes | BlsThrew | Undefined.
Definition votersOf (a : SnapshotHashAgent) (h : Z) : list nat := List.filter (fun i => hashAt a i =? h) (others a).
(** The keys of the map from hashes to their votes, in order. *)
Definition votedHashes (a : SnapshotHashAgent) : list Z := merge_sort Z.le (remove_dups (map (hashAt a) (others a))).
Definition enoughVotes (a : SnapshotHashAgent) (h : Z) : bool := 2 * Z.of_nat (sa_n a) <? 3 * lenZ (votersOf a h).
Definition threshold (a : SnapshotHashAgent) : Z := (2 * Z.of_nat (sa_n a) + 1) / 3.
(** Only the exceptions that the code names are caught. *)
Definition commonSignature (a : SnapshotHashAgent) (voters : list nat) : option G1 :=
  match SignatureRecover (map (fun i => Z.of_nat i + 1) voters) (threshold a) (map (signatureAt a) voters) with
  | Ok s => Some s | Err OtherBlsError => None | Err _ => Some g1_default
  end.
Definition verifyCommon (h : Z) (s : G1) (key : G2) : option bool :=
  match Verification h s key with Ok b => Some b | Err IsNotWellFormed => Some false | Err _ => None end.
(** The result of [find_if] is read for the log before it is compared with [end]. *)
Definition voteForHash (a : SnapshotHashAgent) : VoteOutcome * SnapshotHashAgent :=
  if (3 * verifyAllData a <? 2 * Z.of_nat (sa_n a) + 1) && bool_decide (sa_url a = None) then (Voted false, a)
  else
    match List.find (enoughVotes a) (votedHashes a) with
    | None => (Undefined, a)
    | Some h =>
        let voters := votersOf a h in
        let a := a <| sa_nodesToDownload := sa_nodesToDownload a ++ voters |> in
        match commonSignature a voters with
        | None => (BlsThrew, a)
        | Some s =>
            match verifyCommon h s (sa_commonPublicKey a) with
            | None => (BlsThrew, a)
            | Some true => (Voted true, a <| sa_votedHash := (h, s) |>)
            | Some false =>
                match verifyCommon h s (sa_configKey a) with
                | None => (BlsThrew, a)
                | Some true => (Voted true, a <| sa_commonPublicKey := sa_configKey a |> <| sa_votedHash := (h, s) |>)
                | Some false => (Voted false, a)
                end
            end
        end
    end.

(** ** Asking the nodes *)

(** What [askNodeForHash] gives for a node: nothing when it throws, and values of default when the node does not answer.  The test of the result looks at the constant
    [FixedHash::size], so that every result is stored. *)
Definition Answer : Type := option (Z * G1 * G2).
Definition storeAnswer (answers : nat -> Answer) (a : SnapshotHashAgent) (i : nat) : SnapshotHashAgent :=
  match answers i with
  | None => a
  | Some (h, s, k) =>
      a <| sa_isReceived := <[i := true]> (sa_isReceived a) |> <| sa_hashes := <[i := h]> (sa_hashes a) |> <| sa_signatures := <[i := s]> (sa_signatures a) |>
        <| sa_public_keys := <[i := k]> (sa_public_keys a) |>
  end.
Definition collectAnswers (answers : nat -> Answer) (a : SnapshotHashAgent) : SnapshotHashAgent := foldl (storeAnswer answers) a (others a).
(** The nodes of the majority, on a node that is not checked: the walk ends where a hash differs. *)
Fixpoint majorityWalk (good : nat -> bool) (common : Z) (l : list nat) (a : SnapshotHashAgent) : SnapshotHashAgent :=
  match l with
  | [] => a
  | pos :: l' =>
      if negb (receivedAt a pos) || negb (good pos) then majorityWalk good common l' a
      else
        let next common a := majorityWalk good common l' (a <| sa_nodesToDownload := sa_nodesToDownload a ++ [pos] |>) in
        if common =? 0 then next (hashAt a pos) (a <| sa_votedHash := (hashAt a pos, snd (sa_votedHash a)) |>)
        else if negb (hashAt a pos =? common) then a
        else next common a
  end.
Definition goodNode (override : option (list Z)) (a : SnapshotHashAgent) (i : nat) : bool :=
  match sa_nodes a !! i with Some nd => bool_decide (sn_id nd ∈ majorityNodesIds override) | None => false end.
(** Whether there are nodes to download from; nothing when the behaviour is undefined.  Exceptions of the vote are caught. *)
Definition chooseNodes (override : option (list Z)) (a : SnapshotHashAgent) : option bool * SnapshotHashAgent :=
  if negb (snapshotHashCheckingEnabled override (sa_chainID a) (sa_id a)) then
    let a := majorityWalk (goodNode override a) 0 (seq 0 (sa_n a)) a in (Some (negb (bool_decide (sa_nodesToDownload a = []))), a)
  else match voteForHash a with (Voted b, a) => (Some b, a) | (NotEnoughVotes, a) | (BlsThrew, a) => (Some false, a) | (Undefined, a) => (None, a) end.
(** Addresses are the pairs of host and port. *)
Definition urlOf (a : SnapshotHashAgent) (i : nat) : list Z * Z := match sa_nodes a !! i with Some nd => (sn_ip nd, u256 (sn_port nd + 3)) | None => ([], 0) end.
Inductive NodesOutcome := Nodes (urls : list (list Z * Z)) | NodesThrew | NodesUndefined.
(** [fromUrl] is the answer of the node that the command line names; it throws when there is none. *)
Definition getNodesToDownloadSnapshotFrom (override : option (list Z)) (answers : nat -> Answer) (fromUrl : Answer) (a : SnapshotHashAgent) : NodesOutcome * SnapshotHashAgent :=
  match sa_url a with
  | Some url => match fromUrl with None => (NodesThrew, a) | Some (h, s, _) => (Nodes [url], a <| sa_votedHash := (h, s) |>) end
  | None =>
      match chooseNodes override (collectAnswers answers a) with
      | (Some true, a) => (Nodes (map (urlOf a) (sa_nodesToDownload a)), a)
      | (Some false, a) => (Nodes [], a)
      | (None, a) => (NodesUndefined, a)
      end
  end.
Definition getVotedHash (override : option (list Z)) (a : SnapshotHashAgent) : option (Z * G1) :=
  if fst (sa_votedHash a) =? 0 then None
  else if snapshotHashCheckingEnabled override (sa_chainID a) (sa_id a) && (g1_isZero (snd (sa_votedHash a)) || negb (g1_wellFormed (snd (sa_votedHash a)))) then None
  else Some (sa_votedHash a).
End Agent.
