(* ===== verification/SnapshotVoteClaims.v ===== *)
(** * SnapshotVoteClaims: what a vote for a snapshot guarantees

    A vote that succeeds has two thirds of all nodes behind one hash with a common signature; two such votes agree unless a third of the nodes give different answers.  Without
    such a majority the code reads past the end of a map, and the walk over the nodes of the old majority does not see that they disagree. *)

From Stdlib Require Import ZArith Lia Bool.
From stdpp Require Import base list sorting sets gmap.
From S2P Require Import Prelude SnapshotVote.
Open Scope Z_scope.
Open Scope skaled_scope.

Lemma filter_both {A} (f g : A -> bool) (l : list A) : List.filter f (List.filter g l) = List.filter (fun x => g x && f x) l.
Proof. induction l as [|x l IH]; [done|]. cbn. destruct (g x); cbn; [|done]. by destruct (f x); rewrite IH. Qed.
(** Two parts of a list that are too large to be disjoint. *)
Lemma filter_overlap {A} (f g : A -> bool) (l : list A) : lenZ (List.filter f l) + lenZ (List.filter g l) <= lenZ l + lenZ (List.filter (fun x => f x && g x) l).
Proof. unfold lenZ. induction l as [|x l IH]; [done|]. cbn [List.filter length]. destruct (f x), (g x); cbn [andb length]; lia. Qed.
Lemma filter_disjoint {A} (f g : A -> bool) (l : list A) : (forall x, x ∈ l -> f x = true -> g x = true) -> lenZ (List.filter f l) <= lenZ (List.filter g l).
Proof.
  unfold lenZ. induction l as [|x l IH]; intros H; [done|]. cbn [List.filter]. assert (IH' := IH ltac:(intros y Hy; apply H; by right)). specialize (H x ltac:(by left)).
  destruct (f x); [rewrite H by done; cbn [length]; lia|]. destruct (g x); cbn [length]; lia.
Qed.

Section Vote.
Context `{Bls}.
Definition isOther (a : SnapshotHashAgent) (i : nat) : bool := match sa_nodes a !! i with Some nd => negb (sa_id a =? sn_id nd) | None => false end.
Lemma votersOf_filter a h : votersOf a h = List.filter (fun i => isOther a i && (hashAt a i =? h)) (seq 0 (sa_n a)).
Proof. unfold votersOf, others. apply filter_both. Qed.
Lemma seq_length n : lenZ (seq 0 n) = Z.of_nat n.
Proof. unfold lenZ. by rewrite length_seq. Qed.
Lemma votedHashes_spec a h : h ∈ votedHashes a <-> exists i, i ∈ others a /\ hashAt a i = h.
Proof.
  unfold votedHashes. rewrite merge_sort_Permutation, elem_of_remove_dups. split.
  - intros Hh. apply list_elem_of_In, in_map_iff in Hh as (i & <- & Hi). exists i. by rewrite list_elem_of_In.
  - intros (i & Hi & <-). apply list_elem_of_In, in_map_iff. exists i. by rewrite <-list_elem_of_In.
Qed.
Lemma enough_found a h : enoughVotes a h = true -> exists h', List.find (enoughVotes a) (votedHashes a) = Some h'.
Proof.
  intros He. destruct (List.find (enoughVotes a) (votedHashes a)) as [h'|] eqn:E; [by exists h'|]. exfalso.
  assert (Hin : h ∈ votedHashes a); [|eapply List.find_none in E; [|by apply list_elem_of_In]; congruence].
  apply votedHashes_spec. unfold enoughVotes, votersOf in He. apply Z.ltb_lt in He. destruct (List.filter (fun i => hashAt a i =? h) (others a)) as [|i l] eqn:El; [change (lenZ (A := nat) []) with 0 in He; lia|].
  assert (Hi : i ∈ i :: l) by (by left). rewrite <-El in Hi. apply list_elem_of_In, filter_In in Hi as [Hi Eh]. exists i. split; [by apply list_elem_of_In|]. by apply Z.eqb_eq.
Qed.

(** The nodes that both asked and that answered them differently. *)
Definition differing (a b : SnapshotHashAgent) : list nat := List.filter (fun i => isOther a i && isOther b i && negb (hashAt a i =? hashAt b i)) (seq 0 (sa_n a)).
Lemma quorums_meet a b h h' : sa_n a = sa_n b -> enoughVotes a h = true -> enoughVotes b h' = true -> 3 * lenZ (differing a b) <= Z.of_nat (sa_n a) -> h = h'.
Proof.
  unfold enoughVotes. rewrite !votersOf_filter, !Z.ltb_lt. intros En Ha Hb Hd. rewrite <-En in Hb. destruct (Z.eq_dec h h') as [|Hne]; [done|exfalso].
  set (f := fun i => isOther a i && (hashAt a i =? h)) in *. set (g := fun i => isOther b i && (hashAt b i =? h')) in *.
  pose proof (filter_overlap f g (seq 0 (sa_n a))) as Ho. rewrite seq_length in Ho.
  assert (Hs : lenZ (List.filter (fun i => f i && g i) (seq 0 (sa_n a))) <= lenZ (differing a b)); [|lia].
  apply filter_disjoint. intros i _ [[O1 E1]%andb_true_iff [O2 E2]%andb_true_iff]%andb_true_iff. apply Z.eqb_eq in E1, E2. rewrite O1, O2. apply negb_true_iff, Z.eqb_neq. congruence.
Qed.
Lemma differing_self a : differing a a = [].
Proof. unfold differing. induction (seq 0 (sa_n a)) as [|i l IH]; [done|]. cbn. by rewrite Z.eqb_refl, andb_false_r. Qed.

Lemma vote_inv a a' : voteForHash a = (Voted true, a') -> exists h s,
  List.find (enoughVotes a) (votedHashes a) = Some h /\ sa_votedHash a' = (h, s) /\ sa_nodesToDownload a' = sa_nodesToDownload a ++ votersOf a h /\
  Verification h s (sa_commonPublicKey a') = Ok true /\ (sa_commonPublicKey a' = sa_commonPublicKey a \/ sa_commonPublicKey a' = sa_configKey a) /\
  (sa_url a = None -> 2 * Z.of_nat (sa_n a) + 1 <= 3 * verifyAllData a).
Proof.
  unfold voteForHash. destruct ((3 * verifyAllData a <? 2 * Z.of_nat (sa_n a) + 1) && bool_decide (sa_url a = None)) eqn:Ev; [done|].
  assert (Hv : sa_url a = None -> 2 * Z.of_nat (sa_n a) + 1 <= 3 * verifyAllData a).
  { intros Hu. rewrite bool_decide_eq_true_2, andb_true_r in Ev by done. by apply Z.ltb_ge in Ev. }
  destruct (List.find (enoughVotes a) (votedHashes a)) as [h|]; [|done]. cbv zeta. destruct (commonSignature _ _) as [s|]; [|done].
  assert (Hc : forall k, verifyCommon h s k = Some true -> Verification h s k = Ok true) by (intros k; unfold verifyCommon; repeat case_match; congruence).
  cbn [sa_commonPublicKey sa_configKey set_field]. destruct (verifyCommon h s (sa_commonPublicKey a)) as [[|]|] eqn:E1; [|destruct (verifyCommon h s (sa_configKey a)) as [[|]|] eqn:E2; [|done..]|done].
  - intros [= <-]. exists h, s. cbn. eauto 8.
  - intros [= <-]. exists h, s. cbn. eauto 8.
Qed.
Lemma walk_grows good common l a : exists more, sa_nodesToDownload (majorityWalk good common l a) = sa_nodesToDownload a ++ more.
Proof.
  revert common a. induction l as [|pos l IH]; intros common a; cbn [majorityWalk]; [exists []; by rewrite app_nil_r|]. destruct (negb (receivedAt a pos) || negb (good pos)); [apply IH|].
  assert (Hnext : forall c b, sa_nodesToDownload b = sa_nodesToDownload a -> exists more,
    sa_nodesToDownload (majorityWalk good c l (b <| sa_nodesToDownload := sa_nodesToDownload b ++ [pos] |>)) = sa_nodesToDownload a ++ more).
  { intros c b Eb. destruct (IH c (b <| sa_nodesToDownload := sa_nodesToDownload b ++ [pos] |>)) as [more ->]. exists (pos :: more). cbn. by rewrite Eb, <-app_assoc. }
  destruct (common =? 0); [by apply Hnext|]. destruct (negb _); [exists []; by rewrite app_nil_r|]. by apply Hnext.
Qed.
Lemma walk_finds good l a : (exists pos, pos ∈ l /\ receivedAt a pos = true /\ good pos = true) -> sa_nodesToDownload (majorityWalk good 0 l a) <> [].
Proof.
  induction l as [|pos l IH]; intros (p & Hp & Hr & Hg); [by apply not_elem_of_nil in Hp|]. cbn [majorityWalk].
  destruct (negb (receivedAt a pos) || negb (good pos)) eqn:E.
  - apply IH. exists p. apply elem_of_cons in Hp as [->|Hp]; [|done]. by rewrite Hr, Hg in E.
  - cbn [Z.eqb]. cbv zeta. match goal with |- context [majorityWalk good ?c l ?b] => destruct (walk_grows good c l b) as [more ->] end. cbn. intros Hnil. apply app_nil in Hnil as [Hnil _].
    by apply app_nil in Hnil as [_ ?].
Qed.
End Vote.

(** C15: A vote that succeeds has more than two thirds of all nodes behind its hash and no other hash has them; it adds exactly the nodes that answered the hash, and the common signature of the
    hash verifies with the common key that is kept, the given one or that of the configuration; when no node is named on the command line, two thirds of the nodes gave valid signatures. *)
Theorem vote_has_majority `{Bls} (a a' : SnapshotHashAgent) : voteForHash a = (Voted true, a') -> exists h s,
  sa_votedHash a' = (h, s) /\ 2 * Z.of_nat (sa_n a) < 3 * lenZ (votersOf a h) /\ (forall h', enoughVotes a h' = true -> h' = h) /\
  sa_nodesToDownload a' = sa_nodesToDownload a ++ votersOf a h /\ Verification h s (sa_commonPublicKey a') = Ok true /\
  (sa_commonPublicKey a' = sa_commonPublicKey a \/ sa_commonPublicKey a' = sa_configKey a) /\ (sa_url a = None -> 2 * Z.of_nat (sa_n a) + 1 <= 3 * verifyAllData a).
Proof.
  intros (h & s & Hf & E1 & E2 & E3 & E4 & E5)%vote_inv. apply List.find_some in Hf as [_ Hf]. exists h, s. split; [done|]. split; [by apply Z.ltb_lt|]. split; [|auto].
  intros h' Hh'. apply (quorums_meet a a); try done. rewrite differing_self. unfold lenZ. cbn. lia.
Qed.

(** C14: Two nodes that vote on the answers of the same nodes choose the same hash, when at most a third of the nodes answered them differently. *)
Theorem votes_agree `{Bls} (a b a' b' : SnapshotHashAgent) : sa_n a = sa_n b -> voteForHash a = (Voted true, a') -> voteForHash b = (Voted true, b') ->
  3 * lenZ (differing a b) <= Z.of_nat (sa_n a) -> fst (sa_votedHash a') = fst (sa_votedHash b').
Proof.
  intros En (h & s & Hf & -> & _)%vote_inv (h' & s' & Hf' & -> & _)%vote_inv Hd. apply List.find_some in Hf as [_ Hf], Hf' as [_ Hf']. cbn. by apply (quorums_meet a b).
Qed.

(** Without a majority the vote is undefined behaviour, not the exception that the code means to throw: when enough signatures are valid and no hash has the votes, the end of the map is read. *)
Theorem no_majority_is_undefined `{Bls} (a : SnapshotHashAgent) : 2 * Z.of_nat (sa_n a) + 1 <= 3 * verifyAllData a -> (forall h, enoughVotes a h = false) -> voteForHash a = (Undefined, a).
Proof.
  intros Hv Hn. unfold voteForHash. rewrite (proj2 (Z.ltb_ge _ _)) by lia. cbn [andb]. destruct (List.find (enoughVotes a) (votedHashes a)) as [h|] eqn:E; [|done].
  apply List.find_some in E as [_ E]. by rewrite Hn in E.
Qed.

(** On a node that does not check hashes the walk over the nodes of the old majority always succeeds when one of them answered, also when they answered different hashes: the code sets its result to
    false where hashes differ and then overwrites it. *)
Theorem disagreement_is_ignored `{Bls} (override : option (list Z)) (a : SnapshotHashAgent) (pos : nat) : snapshotHashCheckingEnabled override (sa_chainID a) (sa_id a) = false ->
  (pos < sa_n a)%nat -> receivedAt a pos = true -> goodNode override a pos = true -> fst (chooseNodes override a) = Some true.
Proof.
  intros Hc Hp Hr Hg. unfold chooseNodes. rewrite Hc. cbn [negb fst]. rewrite bool_decide_eq_false_2; [done|]. apply walk_finds. exists pos. split; [|done]. apply elem_of_seq. lia.
Qed.

Module VoteExample.
#[export] Instance toyBls : Bls := {| G1 := Z; G2 := Z; g1_default := 0; g2_default := 0; g1_isZero := Z.eqb 0; g1_wellFormed := fun _ => true; g2_isZero := Z.eqb 0; g2_wellFormed := fun _ => true;
  Verification h s k := Ok (s =? h + k); SignatureRecover _ _ sigs := Ok (default 0 (head sigs)) |}.
Definition nodes (ids : list Z) : list SNode := map (fun i => mkSNode i [49] 10000) ids.
Definition answers : nat -> Answer := fun i => Some (7, 12, 5).
Definition first : SnapshotHashAgent := collectAnswers answers (newAgent (nodes [1; 2; 3; 4]) 1 100 5 6 None).
Definition second : SnapshotHashAgent := collectAnswers answers (newAgent (nodes [1; 2; 3; 4]) 2 100 5 5 None).
Definition split3 : SnapshotHashAgent := collectAnswers (fun i => Some (Z.of_nat i, Z.of_nat i + 5, 5)) (newAgent (nodes [1; 2; 3; 4]) 1 100 5 5 None).
Definition minority : SnapshotHashAgent := collectAnswers (fun i => Some (Z.of_nat i, Z.of_nat i + 5, 5)) (newAgent (nodes [1; 90; 134]) 1 0xd2ba743e9fef4 5 5 None).
Lemma no_hash : forall h, enoughVotes split3 h = false.
Proof.
  intros h. unfold enoughVotes, votersOf. change (others split3) with [1%nat; 2%nat; 3%nat]. apply Z.ltb_ge. change (Z.of_nat (sa_n split3)) with 4. cbn [List.filter].
  change (hashAt split3 1) with 1. change (hashAt split3 2) with 2. change (hashAt split3 3) with 3. unfold lenZ.
  destruct (Z.eqb_spec 1 h), (Z.eqb_spec 2 h), (Z.eqb_spec 3 h); cbn [length]; lia.
Qed.
End VoteExample.
Lemma vote_has_majority_witness : fst (voteForHash VoteExample.first) = Voted true /\ exists h s, sa_votedHash (snd (voteForHash VoteExample.first)) = (h, s) /\ 2 * 4 < 3 * lenZ (votersOf VoteExample.first h).
Proof.
  split; [vm_compute; reflexivity|].
  destruct (vote_has_majority VoteExample.first (snd (voteForHash VoteExample.first)) ltac:(vm_compute; reflexivity)) as (h & s & E1 & E2 & _). exists h, s. exact (conj E1 E2).
Defined.
Lemma votes_agree_witness : fst (sa_votedHash (snd (voteForHash VoteExample.first))) = fst (sa_votedHash (snd (voteForHash VoteExample.second))).
Proof. apply (votes_agree VoteExample.first VoteExample.second); [reflexivity|vm_compute; reflexivity|vm_compute; reflexivity|vm_compute; discriminate]. Defined.
Lemma no_majority_is_undefined_witness : voteForHash VoteExample.split3 = (Undefined, VoteExample.split3).
Proof. apply (no_majority_is_undefined VoteExample.split3); [vm_compute; discriminate|exact VoteExample.no_hash]. Defined.
Lemma disagreement_is_ignored_witness : hashAt VoteExample.minority 1 <> hashAt VoteExample.minority 2 /\ fst (chooseNodes None VoteExample.minority) = Some true.
Proof. split; [vm_compute; discriminate|]. apply (disagreement_is_ignored None VoteExample.minority 1); [vm_compute; reflexivity|vm_compute; lia|vm_compute; reflexivity|vm_compute; reflexivity]. Defined.
